(* ===== verification/_CoqProject ===== *)
-Q . S2P
Prelude.v
RateLimit.v
Plans.v
AccountsDb.v
Protocol.v
AccountsHttp.v
Mailbox.v
PairingBroker.v
PairingSafety.v
PairingExchange.v
PairingTraces.v
Bytes.v
Noble.v
DeviceKey.v
Accounts.v
AccountsTables.v
AccountsLogic.v
AccountsSafety.v
AccountsBilling.v
AccountsTraces.v
Cpace.v
Kdf.v
Frames.v
PairingCode.v
Sas.v
Envelope.v
DeviceStore.v
DeviceLock.v
DeviceLogic.v
DeviceSafety.v
DeviceThrottle.v
DeviceReturn.v
DeviceTraces.v
CliExchange.v
CliSafety.v
BrowserPairing.v
PairingEnds.v
Tunnel.v
TunnelBroker.v
TunnelSafety.v
AccessRequests.v
TunnelAgent.v
AgentSafety.v
AgentAccess.v
AccessEnds.v
Grants.v
Policy.v
Paths.v
FileService.v
FileSafety.v
Cast.v
CastWriter.v
Recordings.v
RecordingsSafety.v
RelayClient.v
RelayClientSafety.v
SealedTransport.v
Seam.v
Tmux.v
TmuxSafety.v
Router.v
RouterSafety.v
RouterSystem.v
Monitor.v
AuthThrottle.v
LocalPairing.v
RelayAuth.v
Connections.v
Approval.v
ApproveControl.v
Consent.v
ConsentSafety.v
ConsentYes.v
ConsentTraces.v
ConnectionGate.v
GateSafety.v
DevicePanel.v
PanelSafety.v
Relay.v
RelaySafety.v
