(* ===== verification/Prelude.v ===== *)
(** * mtmux: a verification development for a terminal in the browser

    mtmux shows the tmux sessions of one machine in a browser.  Three
    processes take part: the machine's own _relay_ ([apps/relay]), which
    speaks to tmux and to browsers; the _broker_ ([apps/api]), a public server
    that introduces a browser to a machine and tunnels between them without
    being trusted with either's secrets, and that keeps accounts and billing;
    and the machine's _CLI_ ([apps/cli]), which prints pairing codes and
    carries the tunnel from the broker to the relay.  The browser's half is
    [apps/web/src/lib].  What they share is in [packages/protocol] (messages,
    grants, versions), [packages/crypto], [packages/cast] (recordings),
    [packages/config] (plans) and [packages/db] (tables).

    Two ways lead a browser to a machine.  Either somebody types or scans a
    nine-digit code: three digits name a _slot_ at the broker, six are the
    password of a PAKE run through it, and a wrong guess costs the code.  Or
    the browser asks a machine of the same account: it commits to a key, the
    machine shows six digits derived from both keys, and a human compares.
    Both end with three keys and a sealed descriptor; from then on every frame
    of the tunnel is sealed and counted, the relay's own gate decides what the
    connection's grant lets through, and its router carries out what is left:
    terminals, files, recordings.

    ** Files, and the code they model

    Shared:
    - Prelude: JavaScript strings, [result], stable sorting, notation.
    - Bytes: [packages/crypto/src/bytes.ts].  Noble: the interfaces of the
      cryptographic libraries, as type classes of operations and of laws, with
      toy instances that satisfy the laws and run.
    - Protocol: [packages/protocol/src/pairing-messages.ts], [version.ts].

    The broker ([apps/api/src]):
    - RateLimit ([rate-limit.ts]): the sliding window of one limiter.
    - Mailbox ([mailbox.ts]): a heap of mailbox and claim objects, the store's
      three maps, the sockets written to.  PairingBroker ([broker.ts], the
      pairing half): the two POSTs and both sockets as handlers over it.
      PairingSafety and PairingExchange: these handlers as a transition
      system, its invariants and what follows; PairingTraces: whole runs.
    - Tunnel ([tunnel.ts], [tunnel-id.ts]): the registry; TunnelBroker
      ([broker.ts], the other half): agent, request and tunnel sockets.
      TunnelSafety, AccessRequests: the same for these, with runs.

    Accounts and billing ([apps/api/src], [packages/db], [packages/config]):
    - Plans: limits, resolution of a subscription, the calendar of counters.
    - AccountsDb: the tables with their constraints, and the monad of
      handlers, one step per statement.  AccountsHttp: requests, schemas,
      labels and slugs.  Accounts: entitlements, server registry,
      subscriptions, webhooks and every account route as programs.
    - AccountsTables, AccountsLogic, AccountsSafety: what each statement keeps,
      a judgement for handlers that others interrupt, and the theorems about
      any number of requests in flight.  AccountsBilling: the same handlers
      run alone, as functions.  AccountsTraces: runs.

    Keys and codes ([packages/crypto/src]):
    - DeviceKey, Cpace, Kdf, Frames, PairingCode (with [local-code.ts]), Sas,
      Envelope: one file of the same name each.  Frames also holds the receiving loop of
      [apps/web/src/lib/transport.ts].

    The two ends of a pairing:
    - CliExchange ([apps/cli/src/pairing-exchange.ts], [pairing-client.ts]) and
      BrowserPairing ([apps/web/src/lib/pairing-client.ts]); CliSafety: the
      invariants of the first; PairingEnds: both against each other and
      through PairingBroker.
    - TunnelAgent ([apps/cli/src/tunnel-agent.ts]): keyring, streams with
      their promise chains, gate, access requests.  AgentSafety, AgentAccess:
      its runs.  AccessEnds: the agent against the browser.

    Consent on the machine ([apps/cli/src]):
    - ApproveControl ([approve-control.ts]): the window [mtmux approve] opens.
      Consent ([access-prompt.ts], the questions of [device-panel-control.ts],
      [askOnThisMachine] of [commands/start.ts]): questions raced between the
      app, the panel, the terminal and that window.
      ConsentSafety: an invariant of it; ConsentYes: where a yes comes from
      and what silence comes to; ConsentTraces: runs.
    - ConnectionGate ([makeConnectionGate] of [commands/start.ts]): who is
      asked about when a socket comes, and how long an answer holds.
      GateSafety: the gate over the questions of Consent, its theorems, runs.
    - DevicePanel ([device-panel-control.ts], the rows of [device-panel.ts]):
      the live panel, every key.  PanelSafety: that it is the prompt Consent
      takes it for, that it removes what it names, runs.

    The browser ([apps/web/src/lib]):
    - RelayClient ([ws-client.ts], [attach-state.ts]) over the transports of
      [transport.ts]: SealedTransport, and Seam for the direct one and for
      what the client may rely on.  RelayClientSafety: what it keeps true.
    - DeviceStore ([session-store.ts], [storage-keys.ts], [unlocked.ts] and
      the files that compose them): the pairings a browser keeps, on the disk
      its tabs share and in each tab's memory.  DeviceLock ([lock-store.ts],
      [lock-controller.ts], [sign-out.ts]): the lock over them, and the
      browser with its tabs.  DeviceLogic: a judgement for these programs,
      awaits and failures included; DeviceSafety, DeviceThrottle, DeviceReturn:
      what is on the disk when a page is closed, what guesses cost, and that
      a lock opens again; DeviceTraces: runs.

    The relay ([apps/relay/src]):
    - Grants ([grant.ts], [packages/protocol/src/grants.ts]), Policy
      ([policy.ts]): what a grant lets through.
    - AuthThrottle ([auth-throttle.ts]), LocalPairing ([pairing-local.ts]),
      RelayAuth ([auth.ts], [rate-limiter.ts]), Connections
      ([connection-manager.ts], [access-log.ts], [connection-gate.ts]),
      Approval ([device-approval.ts]), Relay ([wire-connections.ts]): admission
      of a socket.  RelaySafety: runs of these handlers.
    - Tmux ([tmux-manager.ts], [tmux-clone.ts]): programs of tmux calls.
      TmuxSafety: what they amount to, against any answers and
      against a tmux that follows its manual.
    - Router ([message-router.ts], [pty-bridge.ts], the queue and the teardown
      of [connection-manager.ts]): what an admitted connection's messages do.
      RouterSafety: a rely-guarantee logic for handlers cut at their awaits, and
      the invariant; RouterSystem: theorems over whole
      runs, runs.  Monitor ([session-monitor.ts]): the polls of tmux.
    - Paths (the tree, links, Node's [realpathSync]), FileService
      ([file-service.ts], the file cases of the router, [/file]); FileSafety.
    - Cast ([packages/cast/src]: format and player), CastWriter ([writer.ts]),
      Recordings ([recorder.ts], [recordings-index.ts]); RecordingsSafety.

    ** How code becomes Rocq

    A closure's or module's mutable variables are a [Record]; each function
    that changes them is a function from that record to itself and what it
    writes.  An object that other code keeps a reference to (a mailbox, a
    tunnel, a stream, a connection, a terminal) lives in a heap, so that a
    stale reference still finds it.  A function that throws returns [result].
    A function that awaits is cut at each await: the rest is a later event, or
    the continuation of a program ([Prog] of Tmux, [Route] of Router, [Api] of
    AccountsDb, [Web] of DeviceStore), which finds the state as others left it meanwhile, so
    interleavings are sequences of events.  Random draws and clock readings
    are arguments; what must be fresh is a premise of the step.  Frames and
    request bodies arrive parsed, [None] being one the schema rejects.  A
    [Number] that holds integers is [Z], with ToInt32 and ToUint32 written out
    where the code uses bitwise operators.  A timer is an event that can fire
    only while it is armed.

    ** What the theorems show

    - Codes: a guess spends its mailbox whatever happens after
      ([guess_spent_once], [wrong_guess_burns], [claim_close_burns]); a holder
      answers one share ([single_share]); conversations do not cross
      ([claim_isolation], [routing_exclusive]); the POST is no oracle; capacities hold.
    - Honest runs complete with equal keys ([pairing_completes],
      [access_completes], [cpace_agreement]); the CLI gives its descriptor
      only to who proved the key ([establish_only_after_proof]) and settles
      once ([settles_once]).
    - Tunnels: a registration is authenticated, a machine is asked once and
      only it answers, quotas hold; the agent carries only sealed traffic of
      paired devices ([only_paired_traffic]), behind the gate ([gate_holds]),
      approves only what a human compared ([approval_needs_commitment]),
      forgets removed devices and never stops calling back.
    - Frames: a receiver sees a gapless-from-the-front, strictly increasing selection of
      what was sealed ([sealed_stream]), and a transport whose sealings and
      openings overlap is that stream ([transport_is_a_stream]); encodings are
      injective or read back ([lvCat_injective], [code_roundtrip], [lock_reopens]).
    - The browser's connection refines a machine of five modes ([mode_refines]).
    - The relay: [enforce] is its declarative table ([enforce_iff]) and leaks
      nothing about sessions out of scope ([enforce_no_oracle]); only admitted
      sockets are routed ([routed_only_if_admitted]); guesses are budgeted and
      paced; tokens and limiters refine the obvious store
      ([lookups_refine_store], [takes_refines_spec]).
    - Terminals: one to a connection, viewers only on a locked-down clone, a
      resize repaired, broadcasts only to whom they are for; the sessions that
      come, go and change are told once.
    - Files: reads and changes stay inside the allowed roots and outside the
      denied ones ([reads_contained], [changes_contained]), uploads come out
      whole ([upload_reassembles]).  Recordings: parsed wherever they are cut
      ([cut_anywhere]), swept within a budget ([sweep_keeps_to_budget]).
    - Accounts, with any number of requests in flight: the tables stay
      well-typed ([tables_well_typed]), a trial is had once ([trial_once]), a
      delivery is handled once ([delivery_handled_once]), only what was paid
      for gives a paid plan ([paid_only_if_paid]), a machine is its owner's
      ([machine_is_its_owners]); the meters add up ([meter_adds_up]); a
      delivery settles or is tried again ([delivery_settles]).
    - Consent: with any number of questions at once, nobody is let in without
      a yes to that very question ([approved_by_a_yes]), an answer is one of
      its channels' and takes the question down everywhere
      ([answered_and_withdrawn]), and silence ends in a no ([silence_denies],
      whose premise about the screen excludes what
      [second_question_takes_the_screen] exhibits).
      Every socket that is let in is traced to such a yes ([let_in_by_a_yes]),
      and passes in silence only for minutes after one
      ([quiet_only_if_recent]).
      The panel refines the prompt these theorems are about
      ([panel_is_the_prompt]), and removes what its screen names
      ([removes_what_it_names]).
    - The lock of a browser: wherever a page is closed, no key lies in the
      clear next to a lock and none is locked away ([keys_at_rest]); guesses
      are counted before they are verified and are paced ([pins_paced]); a
      locked page changes nothing ([locked_changes_nothing]); and the PIN
      brings everything back ([locked_and_back]).
    - Files named ...Traces, the last sections of others, and the modules [Demo], [AgentDemo], [AccessDemo]
      and the like run the definitions on concrete inputs: they are where the
      theorems are applied, and where runs that fall short of a comment in the
      code are exhibited.

    ** Bounds and fuel

    Recursion is structural but for four loops.  [leb128_loop] of Bytes
    carries [LEB_FUEL] = 5 iterations, enough because its argument is a 32-bit
    value that loses seven bits each time ([leb128_loop_fuel]: more fuel
    changes nothing).  [realpathSync] of Paths follows at most [MAX_LINKS]
    links for each component of its argument: the kernel's walk of that
    component, which comes first, has failed if there are more ([real_fuel]:
    more fuel changes nothing).  [index_loop] of Cast, a binary search, carries one
    more than the number of events ([index_loop_spec]) and [stream_loop] of
    Recordings one more than the bytes of the file ([stream_loop_all]).
    Programs are inductive trees: running one ([run_alone], [finish]) is
    structural.  A list of [Draw]s may end before the program does, which is a
    page closed there; [locked_and_back] is about programs run to their end.

    ** Hypotheses

    Cryptography enters only through the law classes of Noble: hex and
    public-key encodings read back, X25519 and ristretto255 commute, AES-GCM
    opens what it sealed.  Secrecy is not modelled; where a theorem needs
    that nobody forges, the adversary is explicitly one who does not
    (the hypothesis of [sealed_stream] and [record_stays_in_place]).  The
    sign-in library and the payment provider's webhook plugin are the classes
    [Session], [Plugin] and [PluginLaws] of Accounts; JSON is a class of Cast
    and of DeviceStore ([KeysJson]), and [Page] says whether WebCrypto is there.
    [AeadBinds] of DeviceSafety: a ciphertext opens to what was sealed or not at
    all, which AES-GCM gives up to the chance of guessing a tag.

    ** Not modelled, and why

    better-auth, mail, the payment provider, SQLite itself, zod's parsing of
    frames, tmux and the pty process, terminal output and React components:
    third-party code or I/O; where the code relies on what they answer, the
    answer is an argument.  Process start-up ([start.ts] beyond its
    gate and the questions it asks, [server.ts] of both servers beyond [/file]) wires the parts together.  The gesture, keyboard
    and layout helpers of [apps/web/src/lib] belong to the user interface.
    User-facing wording is left out of the records that only pass it on. *)

From Stdlib Require Export ZArith Lia Sorting.Sorted.
From stdpp Require Export prelude gmap strings list fin_maps pretty.

#[global] Open Scope Z_scope.

(** ** Fallible code

    A TypeScript function that throws is a function into [result]: [Ok v] is
    the value it returns and [Err e] the [Error] it throws, [e] being the
    message (or the constructor of a small error type). *)

Inductive result (E A : Type) : Type :=
| Ok (v : A)
| Err (e : E).
Arguments Ok {E A} v.
Arguments Err {E A} e.

#[export] Instance result_ret {E} : MRet (result E) := fun A v => Ok v.
#[export] Instance result_bind {E} : MBind (result E) := fun A B f m =>
  match m with Ok v => f v | Err e => Err e end.

Definition is_ok {E A} (r : result E A) : bool :=
  match r with Ok _ => true | Err _ => false end.

Definition ok_option {E A} (r : result E A) : option A :=
  match r with Ok v => Some v | Err _ => None end.

#[export] Instance result_eq_dec {E A} `{EqDecision E, EqDecision A} :
  EqDecision (result E A).
Proof. solve_decision. Defined.

(** ** JavaScript strings

    A string is the list of its UTF-16 code units, as [String.prototype]'s
    methods see it.  [js] writes an ASCII literal that way. *)

Abbreviation jstr := (list Z).

Definition js (s : string) : jstr :=
  map (fun a => Z.of_N (Ascii.N_of_ascii a)) (String.list_ascii_of_string s).

(** [\d] of a regular expression without the [u] flag. *)
Definition is_digit (c : Z) : bool := (48 <=? c) && (c <=? 57).

(** [\s], which is also what [trim] strips: WhiteSpace and LineTerminator of
    ECMA-262. *)
Definition is_space (c : Z) : bool :=
  bool_decide (c ∈ [9; 10; 11; 12; 13; 32; 160; 5760; 8232; 8233; 8239; 8287;
                    12288; 65279])
  || ((8192 <=? c) && (c <=? 8202)).

(** [[A-Za-z0-9_-]], the base64url alphabet as a character class. *)
Definition is_b64url (c : Z) : bool :=
  ((65 <=? c) && (c <=? 90)) || ((97 <=? c) && (c <=? 122))
  || is_digit c || (c =? 95) || (c =? 45).

Fixpoint drop_while {A} (p : A -> bool) (l : list A) : list A :=
  match l with
  | [] => []
  | x :: l' => if p x then drop_while p l' else l
  end.

(** [String.prototype.trimEnd] and [trim], for any class of characters. *)
Definition strip_end {A} (p : A -> bool) (l : list A) : list A :=
  reverse (drop_while p (reverse l)).

Definition trim (s : jstr) : jstr := strip_end is_space (drop_while is_space s).

(** [s.slice(i, j)] for [0 <= i], [0 <= j]. *)
Definition slice {A} (i j : nat) (l : list A) : list A := take (j - i) (drop i l).

(** A string that is there and truthy: [""] is not. *)
Definition truthy (s : option string) : option string :=
  match s with
  | Some s => if decide (s = ""%string) then None else Some s
  | None => None
  end.

(** ** [Array.prototype.sort] by a numeric key

    Stable, ascending. *)

Section Sort.
Context {A : Type} (key : A -> Z).

Fixpoint insert_by (x : A) (l : list A) : list A :=
  match l with
  | [] => [x]
  | y :: l' => if key x <=? key y then x :: l else y :: insert_by x l'
  end.

Definition sort_by (l : list A) : list A := foldr insert_by [] l.

Lemma insert_by_perm x l : insert_by x l ≡ₚ x :: l.
Proof.
  induction l as [|y l IH]; simpl; [done|]. case_match; [done|]. rewrite IH. constructor.
Qed.

Lemma sort_by_perm l : sort_by l ≡ₚ l.
Proof. induction l as [|x l IH]; simpl; [done|]. by rewrite insert_by_perm, IH. Qed.

Lemma insert_by_sorted x l :
  StronglySorted (fun a b => key a <= key b) l ->
  StronglySorted (fun a b => key a <= key b) (insert_by x l).
Proof.
  induction 1 as [|y l Hl IH Hy]; simpl; [by repeat constructor|].
  case_match eqn:Hc; constructor; try done.
  - by constructor.
  - constructor; [lia|]. eapply Forall_impl; [exact Hy|]. simpl. lia.
  - rewrite insert_by_perm. constructor; [lia|done].
Qed.

Lemma sort_by_sorted l : StronglySorted (fun a b => key a <= key b) (sort_by l).
Proof. induction l as [|x l IH]; simpl; [constructor|]. by apply insert_by_sorted. Qed.
End Sort.

(** ** [Array.prototype.sort] by a comparator

    [cmp a b <= 0] keeps [a] before [b].  Stable; for a comparator that is a
    total preorder every sorting algorithm gives this list. *)

Section SortCmp.
Context {A : Type} (cmp : A -> A -> Z).

Fixpoint insert_cmp (x : A) (l : list A) : list A :=
  match l with
  | [] => [x]
  | y :: l' => if cmp x y <=? 0 then x :: l else y :: insert_cmp x l'
  end.

Definition sort_cmp (l : list A) : list A := foldr insert_cmp [] l.

Lemma insert_cmp_perm x l : insert_cmp x l ≡ₚ x :: l.
Proof.
  induction l as [|y l IH]; simpl; [done|]. case_match; [done|]. rewrite IH. constructor.
Qed.

Lemma sort_cmp_perm l : sort_cmp l ≡ₚ l.
Proof. induction l as [|x l IH]; simpl; [done|]. by rewrite insert_cmp_perm, IH. Qed.
End SortCmp.

(** ** Filters *)

Lemma filter_ext_in {A} (P Q : A -> Prop) `{forall x, Decision (P x)} `{forall x, Decision (Q x)}
    (l : list A) :
  (forall x, x ∈ l -> P x <-> Q x) -> filter P l = filter Q l.
Proof.
  induction l as [|x l IH]; intros H1; [done|]. rewrite !filter_cons.
  rewrite (decide_ext (P x) (Q x)) by (apply H1; left).
  rewrite IH; [done|]. intros y Hy. apply H1. by right.
Qed.

(** Taking one element out of a list without duplicates. *)
Lemma length_filter_remove {A} `{EqDecision A} (P : A -> Prop) `{forall x, Decision (P x)} y
    (l : list A) :
  NoDup l -> y ∈ l ->
  Z.of_nat (length (filter P (filter (fun x => x <> y) l)))
  = Z.of_nat (length (filter P l)) - (if decide (P y) then 1 else 0).
Proof.
  induction l as [|x l IH]; [by intros _ ?%not_elem_of_nil|].
  intros [Hx Hnd]%NoDup_cons [->|Hin]%elem_of_cons.
  - rewrite filter_cons_False by tauto.
    assert (filter (fun z => z <> x) l = l) as ->.
    { clear IH. induction l as [|z l IH]; [done|]. apply not_elem_of_cons in Hx as [Hne Hx].
      apply NoDup_cons in Hnd as [_ Hnd]. rewrite filter_cons_True by done. by rewrite IH. }
    rewrite filter_cons. destruct (decide (P x)); simpl; lia.
  - rewrite filter_cons_True by (intros ->; done). rewrite !filter_cons.
    specialize (IH Hnd Hin). destruct (decide (P x)); simpl; lia.
Qed.

(** ** JavaScript [Map]s whose order matters

    An association list in insertion order: [set] on a present key keeps its
    place, as [Map.prototype.set] does. *)

Section Assoc.
Context {K V : Type} `{EqDecision K}.

Fixpoint assoc_get (k : K) (m : list (K * V)) : option V :=
  match m with
  | [] => None
  | (k', v) :: m' => if decide (k' = k) then Some v else assoc_get k m'
  end.

Fixpoint assoc_set (k : K) (v : V) (m : list (K * V)) : list (K * V) :=
  match m with
  | [] => [(k, v)]
  | (k', v') :: m' =>
      if decide (k' = k) then (k', v) :: m' else (k', v') :: assoc_set k v m'
  end.

Definition assoc_del (k : K) (m : list (K * V)) : list (K * V) :=
  filter (fun kv => kv.1 <> k) m.

Lemma assoc_get_set_eq k v m : assoc_get k (assoc_set k v m) = Some v.
Proof.
  induction m as [|[k' v'] m IH]; simpl; [by rewrite decide_True|].
  case_decide; simpl; [by rewrite decide_True|by rewrite decide_False].
Qed.

Lemma assoc_get_set_ne k k' v m :
  k <> k' -> assoc_get k (assoc_set k' v m) = assoc_get k m.
Proof.
  intros Hk. induction m as [|[k2 v'] m IH]; simpl; [by rewrite decide_False|].
  case_decide; simpl; subst; [by rewrite !decide_False|].
  case_decide; [done|apply IH].
Qed.

Lemma assoc_get_del_eq k m : assoc_get k (assoc_del k m) = None.
Proof.
  unfold assoc_del. induction m as [|[k' v'] m IH]; [done|].
  destruct (decide (k' = k)) as [->|Hk].
  - rewrite filter_cons_False; [done|]. simpl. tauto.
  - rewrite filter_cons_True by done. simpl. by rewrite decide_False.
Qed.

Lemma assoc_get_del_ne k k' m :
  k <> k' -> assoc_get k (assoc_del k' m) = assoc_get k m.
Proof.
  intros Hk. unfold assoc_del. induction m as [|[k2 v'] m IH]; [done|].
  destruct (decide (k2 = k')) as [->|Hk2].
  - rewrite filter_cons_False by (simpl; tauto).
    simpl. by rewrite decide_False by congruence.
  - rewrite filter_cons_True by done. simpl. by case_decide.
Qed.

Lemma assoc_get_elem k v m : assoc_get k m = Some v -> (k, v) ∈ m.
Proof.
  induction m as [|[k' v'] m IH]; simpl; [done|].
  case_decide; intros; simplify_eq; [left|right; auto].
Qed.
Lemma assoc_get_NoDup k v m : NoDup (map fst m) -> (k, v) ∈ m -> assoc_get k m = Some v.
Proof.
  induction m as [|[k' v'] m IH]; simpl; [by intros _ ?%not_elem_of_nil|].
  intros [Hn Hnd]%NoDup_cons [[= -> ->]|Hin]%elem_of_cons; [by rewrite decide_True|].
  rewrite decide_False; [by apply IH|]. intros ->. apply Hn.
  apply list_elem_of_fmap. by exists (k, v).
Qed.

Lemma assoc_del_NoDup k (m : list (K * V)) :
  NoDup (map fst m) -> NoDup (map fst (assoc_del k m)).
Proof.
  intros Hnd. eapply sublist_NoDup; [exact Hnd|]. apply (fmap_sublist fst), sublist_filter.
Qed.

Lemma assoc_get_filter (P : K * V -> Prop) `{forall x, Decision (P x)} k (m : list (K * V)) :
  NoDup (map fst m) ->
  assoc_get k (filter P m) = v ← assoc_get k m; if decide (P (k, v)) then Some v else None.
Proof.
  induction m as [|[k' v'] m IH]; simpl; [done|]. intros [Hn Hnd]%NoDup_cons.
  rewrite filter_cons. destruct (decide (P (k', v'))) as [Hp|Hp]; simpl;
    (destruct (decide (k' = k)) as [->|Hne]; simpl; [|by apply IH]).
  - by rewrite decide_True.
  - rewrite decide_False by done. rewrite IH by done.
    destruct (assoc_get k m) as [v|] eqn:Hg; [|done].
    exfalso. apply Hn. apply assoc_get_elem in Hg. apply list_elem_of_fmap. by exists (k, v).
Qed.

Lemma filter_keys_NoDup (P : K * V -> Prop) `{forall x, Decision (P x)} (m : list (K * V)) :
  NoDup (map fst m) -> NoDup (map fst (filter P m)).
Proof. intros Hnd. eapply sublist_NoDup; [exact Hnd|]. apply (fmap_sublist fst), sublist_filter. Qed.

Lemma assoc_get_del k k' (m : list (K * V)) v :
  assoc_get k (assoc_del k' m) = Some v -> k <> k' /\ assoc_get k m = Some v.
Proof.
  destruct (decide (k = k')) as [->|Hne]; [by rewrite assoc_get_del_eq|].
  by rewrite assoc_get_del_ne.
Qed.

Lemma assoc_set_keys k v (m : list (K * V)) x :
  x ∈ map fst (assoc_set k v m) -> x = k \/ x ∈ map fst m.
Proof.
  induction m as [|[k' v'] m IH]; simpl.
  - intros ->%list_elem_of_singleton. by left.
  - case_decide; subst; simpl; rewrite !elem_of_cons; [tauto|].
    intros [?|Hx]; [tauto|]. destruct (IH Hx); tauto.
Qed.

Lemma assoc_set_NoDup k v (m : list (K * V)) :
  NoDup (map fst m) -> NoDup (map fst (assoc_set k v m)).
Proof.
  induction m as [|[k' v'] m IH]; simpl; [intros _; apply NoDup_singleton|].
  intros [Hn Hnd]%NoDup_cons. case_decide; subst; simpl; apply NoDup_cons; [done|].
  split; [|by apply IH]. intros [?|?]%assoc_set_keys; [congruence|done].
Qed.

Lemma assoc_set_length k v (m : list (K * V)) :
  (length (assoc_set k v m) <= S (length m))%nat.
Proof. induction m as [|[k' v'] m IH]; simpl; [lia|]. case_decide; simpl; lia. Qed.

Lemma assoc_set_present k v m w :
  assoc_get k m = Some w -> length (assoc_set k v m) = length m.
Proof.
  induction m as [|[k' v'] m IH]; simpl; [done|]. case_decide; [done|].
  simpl. intros Hk. by rewrite IH.
Qed.

Lemma assoc_del_length k (m : list (K * V)) :
  (length (assoc_del k m) <= length m)%nat.
Proof. apply length_filter. Qed.
End Assoc.

(** Distinct keys stay distinct. *)
Ltac keys_NoDup :=
  repeat first [done | apply assoc_del_NoDup | apply assoc_set_NoDup | apply filter_keys_NoDup].

(** ** Lemmas shared by the components *)

Lemma filter_all {A} (P : A -> Prop) `{!forall x, Decision (P x)} (l : list A) :
  (forall x, x ∈ l -> P x) -> filter P l = l.
Proof.
  induction l as [|x l IH]; intros Hp; [done|].
  rewrite filter_cons_True by (apply Hp; left).
  f_equal. apply IH. intros y Hy. apply Hp. by right.
Qed.

Lemma filter_none {A} (P : A -> Prop) `{!forall x, Decision (P x)} (l : list A) :
  (forall x, x ∈ l -> ~ P x) -> filter P l = [].
Proof.
  induction l as [|x l IH]; intros Hp; [done|].
  rewrite filter_cons_False by (apply Hp; left).
  apply IH. intros y Hy. apply Hp. by right.
Qed.

Lemma filter_filter_impl {A} (P Q : A -> Prop)
    `{!forall x, Decision (P x), !forall x, Decision (Q x)} (l : list A) :
  (forall x, Q x -> P x) -> filter Q (filter P l) = filter Q l.
Proof.
  intros Hp. induction l as [|x l IH]; [done|].
  destruct (decide (P x)) as [HP|HP].
  - rewrite (filter_cons_True P) by done.
    destruct (decide (Q x)).
    + rewrite !(filter_cons_True Q) by done. by f_equal.
    + by rewrite !(filter_cons_False Q).
  - rewrite (filter_cons_False P) by done.
    rewrite (filter_cons_False Q) by auto. done.
Qed.

Lemma length_filter_mono {A} (P Q : A -> Prop)
    `{!forall x, Decision (P x), !forall x, Decision (Q x)} (l : list A) :
  (forall x, x ∈ l -> Q x -> P x) ->
  (length (filter Q l) <= length (filter P l))%nat.
Proof.
  induction l as [|x l IH]; intros Hp; [done|].
  assert (length (filter Q l) <= length (filter P l))%nat as Hl.
  { apply IH. intros y Hy. apply Hp. by right. }
  destruct (decide (Q x)) as [HQ|HQ].
  - rewrite (filter_cons_True Q) by done.
    rewrite (filter_cons_True P) by (apply Hp; [left|done]). simpl. lia.
  - rewrite (filter_cons_False Q) by done.
    destruct (decide (P x)); [rewrite (filter_cons_True P) by done; simpl; lia|].
    by rewrite (filter_cons_False P).
Qed.

(** ** Automation *)

(** Split every match and every boolean test of the goal and of the context. *)
Ltac crush_match :=
  repeat (simplify_eq/=; first [case_match | case_decide | case_bool_decide]).

(** [lia] with division and remainder by constants. *)
Ltac dlia := Z.to_euclidean_division_equations; lia.

Create HintDb mtmux.
#[export] Hint Resolve filter_all filter_none : mtmux.
