(* ===== verification/RateLimit.v ===== *)
(** * RateLimit: the per-key sliding-window limiter of the broker

    [apps/api/src/rate-limit.ts].  The closure of [createRateLimiter] is the
    record [Limiter]: its two parameters, the [hits] map and [lastSweep].
    Times are milliseconds ([Date.now()]), an argument of each operation as
    in the source. *)

From S2P Require Import Prelude.

Module RateLimiter.

Definition IDLE_EVICT_MS : Z := 10 * 60 * 1000.
Definition MAX_KEYS : Z := 50000.

Record Limiter := mkLimiter {
  limit : Z;
  windowMs : Z;
  hits : gmap string (list Z);
  lastSweep : Z;
}.

Definition createRateLimiter (limit windowMs : Z) : Limiter :=
  mkLimiter limit windowMs ∅ 0.

Definition with_hits (h : gmap string (list Z)) (l : Limiter) : Limiter :=
  mkLimiter (limit l) (windowMs l) h (lastSweep l).

(** [prune(key, now)]: the hits of [key] still inside the window. *)
Definition prune (key : string) (now : Z) (l : Limiter) : list Z * Limiter :=
  let cutoff := now - windowMs l in
  let times := filter (fun t => cutoff < t) (default [] (hits l !! key)) in
  (times,
   with_hits (if decide (times = []) then delete key (hits l)
              else <[key := times]> (hits l)) l).

(** [sweep(now)]: drop the keys with no hit inside the window. *)
Definition sweep (now : Z) (l : Limiter) : Limiter :=
  if (now - lastSweep l <? IDLE_EVICT_MS)
     && (Z.of_nat (size (hits l)) <? MAX_KEYS)
  then l
  else
    let cutoff := now - windowMs l in
    mkLimiter (limit l) (windowMs l)
      (filter (fun kv => ~ Forall (fun t => t <= cutoff) kv.2) (hits l)) now.

(** Consume one unit.  [false] means the caller is over the limit. *)
Definition take (key : string) (now : Z) (l : Limiter) : bool * Limiter :=
  let l := sweep now l in
  let '(times, l) := prune key now l in
  if limit l <=? Z.of_nat (length times) then (false, l)
  else (true, with_hits (<[key := times ++ [now]]> (hits l)) l).

(** Milliseconds until the oldest hit in the window expires. *)
Definition retryAfterMs (key : string) (now : Z) (l : Limiter) : Z * Limiter :=
  let '(times, l) := prune key now l in
  match times with
  | [] => (0, l)
  | oldest :: _ =>
      if Z.of_nat (length times) <? limit l then (0, l)
      else (Z.max 0 (oldest + windowMs l - now), l)
  end.

Definition reset (l : Limiter) : Limiter :=
  mkLimiter (limit l) (windowMs l) ∅ 0.

(** ** What the window holds *)

(** The hits of [key] later than [cutoff]. *)
Definition live_hits (key : string) (cutoff : Z) (l : Limiter) : list Z :=
  filter (fun t => cutoff < t) (default [] (hits l !! key)).

Lemma sweep_params now l :
  limit (sweep now l) = limit l /\ windowMs (sweep now l) = windowMs l.
Proof. unfold sweep. by case_match. Qed.

Lemma prune_params key now l :
  limit (prune key now l).2 = limit l /\ windowMs (prune key now l).2 = windowMs l.
Proof. done. Qed.

Lemma take_params key now l :
  limit (take key now l).2 = limit l /\ windowMs (take key now l).2 = windowMs l.
Proof.
  unfold take. destruct (sweep_params now l) as [<- <-].
  simpl. by case_match.
Qed.

(** The sweep loses nothing the window still holds. *)
Lemma sweep_live_hits key now c l :
  now - windowMs l <= c -> live_hits key c (sweep now l) = live_hits key c l.
Proof.
  intros Hc. unfold sweep, live_hits. case_match; [done|]. simpl.
  rewrite map_lookup_filter. destruct (hits l !! key) as [ts|]; [|done]. simpl.
  case_guard as Hg; [done|]. simpl. symmetry. apply filter_none.
  rewrite Forall_forall in Hg.
  intros t Ht. specialize (Hg t Ht). simpl in Hg. lia.
Qed.

Lemma prune_live_hits key k now c l :
  now - windowMs l <= c -> live_hits k c (prune key now l).2 = live_hits k c l.
Proof.
  intros Hc. unfold prune, live_hits; simpl.
  destruct (decide (k = key)) as [->|Hk].
  - case_decide as Ht.
    + rewrite lookup_delete_eq. simpl. symmetry.
      rewrite <- (filter_filter_impl (fun t => now - windowMs l < t) (fun t => c < t)) by lia.
      by rewrite Ht.
    + rewrite lookup_insert_eq. simpl. apply filter_filter_impl. lia.
  - case_decide; [by rewrite lookup_delete_ne | by rewrite lookup_insert_ne].
Qed.

Lemma prune_times key now l :
  (prune key now l).1 = live_hits key (now - windowMs l) l.
Proof. done. Qed.

(** [take] decides on the hits inside the window alone. *)
Lemma take_decision key now l :
  (take key now l).1 =
  (Z.of_nat (length (live_hits key (now - windowMs l) l)) <? limit l).
Proof.
  unfold take. destruct (prune key now (sweep now l)) as [times l'] eqn:Hp.
  assert (times = live_hits key (now - windowMs l) l) as ->.
  { change times with (times, l').1. rewrite <- Hp, prune_times.
    destruct (sweep_params now l) as [_ ->]. apply sweep_live_hits. lia. }
  assert (limit l' = limit l) as ->.
  { change l' with (live_hits key 0 l, l').2. 
    replace l' with (prune key now (sweep now l)).2 by (by rewrite Hp).
    simpl. by apply sweep_params. }
  case_match; simpl; lia.
Qed.

Lemma take_live_hits key k now c l :
  now - windowMs l <= c ->
  live_hits k c (take key now l).2 =
  live_hits k c l
  ++ (if (take key now l).1 && bool_decide (k = key) then filter (fun t => c < t) [now] else []).
Proof.
  intros Hc. unfold take.
  destruct (prune key now (sweep now l)) as [times l'] eqn:Hp.
  destruct (sweep_params now l) as [Hl Hw].
  assert (forall k, live_hits k c l' = live_hits k c l) as Hl'.
  { intros k'. replace l' with (prune key now (sweep now l)).2 by (by rewrite Hp).
    rewrite prune_live_hits by lia. apply sweep_live_hits. lia. }
  assert (times = live_hits key (now - windowMs l) l) as Ht.
  { change times with (times, l').1. rewrite <- Hp, prune_times, Hw.
    apply sweep_live_hits. lia. }
  case_match; simpl; [by rewrite app_nil_r|].
  case_bool_decide as Hk; subst.
  - unfold live_hits at 1; simpl. rewrite lookup_insert_eq; simpl.
    rewrite filter_app. f_equal. apply filter_filter_impl. lia.
  - rewrite app_nil_r. unfold live_hits at 1; simpl.
    rewrite lookup_insert_ne by done. apply Hl'.
Qed.

(** ** Runs of the limiter *)

(** A run of [take]s, oldest first, each with the clock it read; the second
    component lists the grants [(key, now)] in order. *)
Fixpoint takes (evs : list (string * Z)) (l : Limiter) : list (string * Z) * Limiter :=
  match evs with
  | [] => ([], l)
  | (k, now) :: evs' =>
      let '(ok, l') := take k now l in
      let '(gs, l'') := takes evs' l' in
      ((if ok then [(k, now)] else []) ++ gs, l'')
  end.

(** The times [key] was granted. *)
Definition granted (key : string) (gs : list (string * Z)) : list Z :=
  map snd (filter (fun g => g.1 = key) gs).

Lemma granted_app key g1 g2 : granted key (g1 ++ g2) = granted key g1 ++ granted key g2.
Proof. unfold granted. by rewrite filter_app, map_app. Qed.

Lemma granted_one key k now :
  granted key [(k, now)] = if decide (k = key) then [now] else [].
Proof.
  unfold granted. case_decide.
  - by rewrite filter_cons_True.
  - by rewrite filter_cons_False.
Qed.

Lemma takes_app e1 e2 l :
  takes (e1 ++ e2) l =
  let '(g1, l1) := takes e1 l in let '(g2, l2) := takes e2 l1 in (g1 ++ g2, l2).
Proof.
  revert l. induction e1 as [|[k now] e1 IH]; intros l; simpl.
  - by destruct (takes e2 l).
  - destruct (take k now l) as [ok l']. rewrite IH.
    destruct (takes e1 l') as [g1 l1]. destruct (takes e2 l1) as [g2 l2].
    by rewrite app_assoc.
Qed.

(** The clock never runs backwards. *)
Definition clock_ok (evs : list (string * Z)) : Prop :=
  StronglySorted Z.le (map snd evs).

Lemma clock_ok_snoc evs k now :
  clock_ok (evs ++ [(k, now)]) ->
  clock_ok evs /\ Forall (fun e => e.2 <= now) evs.
Proof.
  unfold clock_ok. rewrite map_app. simpl.
  induction evs as [|[k' t] evs IH]; simpl; [split; constructor|].
  intros Hs. inversion Hs as [|? ? Hs' Hall]; subst.
  destruct (IH Hs') as [H1 H2]. rewrite Forall_app in Hall.
  destruct Hall as [Ha Hb]. inversion Hb; subst.
  split; constructor; done.
Qed.

Section Window.
Context (lim w : Z).

Lemma takes_params evs l :
  limit (takes evs l).2 = limit l /\ windowMs (takes evs l).2 = windowMs l.
Proof.
  revert l. induction evs as [|[k now] evs IH]; intros l; [done|]. simpl.
  destruct (take_params k now l) as [Hl Hw].
  destruct (take k now l) as [ok l']. simpl in *.
  destruct (IH l') as [IHl IHw]. destruct (takes evs l') as [gs l'']. simpl in *.
  by rewrite IHl, IHw, Hl, Hw.
Qed.

Lemma takes_granted_times evs l g :
  g ∈ (takes evs l).1 -> g ∈ evs.
Proof.
  revert l. induction evs as [|[k now] evs IH]; intros l; simpl; [done|].
  destruct (take k now l) as [ok l'].
  specialize (IH l'). destruct (takes evs l') as [gs l'']. simpl in *.
  rewrite elem_of_app, elem_of_cons.
  intros [Hg|Hg]; [|by right; apply IH].
  destruct ok; [left; by apply list_elem_of_singleton in Hg|].
  by apply not_elem_of_nil in Hg.
Qed.

(** The store and the history agree on every window that is still open. *)
Lemma takes_live_hits evs key c :
  clock_ok evs ->
  Forall (fun e => e.2 - w <= c) evs ->
  let '(gs, l) := takes evs (createRateLimiter lim w) in
  live_hits key c l = filter (fun t => c < t) (granted key gs).
Proof.
  induction evs as [|[k now] evs IH] using rev_ind; intros Hclk Hc; [done|].
  apply clock_ok_snoc in Hclk as [Hclk _].
  apply Forall_app in Hc as [Hc Hn]. apply Forall_cons in Hn as [Hn _].
  rewrite takes_app. specialize (IH Hclk Hc).
  destruct (takes evs _) as [gs l] eqn:Hrun. simpl.
  pose proof (takes_params evs (createRateLimiter lim w)) as [_ Hw].
  rewrite Hrun in Hw. simpl in Hw.
  pose proof (take_live_hits k key now c l) as Ht.
  destruct (take k now l) as [ok l']. simpl in *.
  rewrite Ht by lia. rewrite IH, !app_nil_r, granted_app, filter_app. f_equal.
  destruct ok; [|done]. simpl. rewrite granted_one.
  by case_bool_decide; case_decide; simplify_eq.
Qed.

(** ** The specification the limiter implements *)

(** [take] grants exactly when fewer than [limit] grants of the history lie
    inside the open window. *)
Lemma take_history evs key now :
  clock_ok (evs ++ [(key, now)]) ->
  let '(gs, l) := takes evs (createRateLimiter lim w) in
  (take key now l).1 =
  (Z.of_nat (length (filter (fun t => now - w < t) (granted key gs))) <? lim).
Proof.
  intros Hclk. apply clock_ok_snoc in Hclk as [Hclk Hle].
  pose proof (takes_live_hits evs key (now - w) Hclk) as Hlive.
  pose proof (takes_params evs (createRateLimiter lim w)) as [Hl Hw].
  destruct (takes evs _) as [gs l]. simpl in Hl, Hw.
  rewrite take_decision, Hw, Hlive, Hl; [done|].
  eapply Forall_impl; [exact Hle|]. simpl. intros [? ?]. simpl. lia.
Qed.

(** The abstract limiter: its state is the list of every grant it made. *)
Definition spec_take (gs : list (string * Z)) (e : string * Z) : list (string * Z) :=
  if Z.of_nat (length (filter (fun t => e.2 - w < t) (granted e.1 gs))) <? lim
  then gs ++ [e] else gs.

(** The limiter implements its specification.  Over any sequence of
    calls, with any keys interleaved, under a clock that does not run
    backwards, it grants exactly the calls the abstract limiter grants, the
    one that remembers every grant it ever made and counts those inside the
    window: pruning, the eviction of idle keys and the key cap never change
    an answer. *)
Theorem takes_refines_spec evs :
  clock_ok evs -> (takes evs (createRateLimiter lim w)).1 = foldl spec_take [] evs.
Proof.
  induction evs as [|[k now] evs IH] using rev_ind; intros Hclk; [done|].
  pose proof (take_history evs k now Hclk) as Hdec.
  apply clock_ok_snoc in Hclk as [Hclk _]. specialize (IH Hclk).
  rewrite foldl_app, takes_app. destruct (takes evs _) as [gs l]. simpl in *.
  rewrite <- IH. unfold spec_take. simpl. rewrite <- Hdec.
  destruct (take k now l) as [[] l']; simpl; by rewrite ?app_nil_r.
Qed.

Definition in_window (t x : Z) : Prop := t - w < x <= t.

Lemma granted_le evs key now :
  Forall (fun e => e.2 <= now) evs ->
  Forall (fun t => t <= now) (granted key (takes evs (createRateLimiter lim w)).1).
Proof.
  intros Hle. unfold granted. rewrite Forall_map, Forall_forall.
  intros g [_ Hg]%list_elem_of_filter. apply takes_granted_times in Hg.
  rewrite Forall_forall in Hle. exact (Hle g Hg).
Qed.

(** One more call keeps the bound on every window. *)
Lemma window_bound_snoc evs k now key t :
  0 <= lim ->
  clock_ok (evs ++ [(k, now)]) ->
  let G := granted key (takes evs (createRateLimiter lim w)).1 in
  (forall t, Z.of_nat (length (filter (in_window t) G)) <= lim) ->
  Z.of_nat (length (filter (in_window t)
    (granted key (takes (evs ++ [(k, now)]) (createRateLimiter lim w)).1))) <= lim.
Proof.
  intros Hlim Hclk G HG.
  pose proof (take_history evs k now Hclk) as Hdec.
  apply clock_ok_snoc in Hclk as [_ Hle].
  pose proof (granted_le evs key now Hle) as Hmax.
  subst G. rewrite takes_app in *.
  destruct (takes evs _) as [gs l]. simpl in *.
  destruct (take k now l) as [ok l']. simpl in *.
  rewrite app_nil_r, granted_app, filter_app, length_app.
  destruct ok; [|simpl; specialize (HG t); lia].
  rewrite granted_one.
  destruct (decide (k = key)) as [->|Hk]; [|simpl; specialize (HG t); lia].
  destruct (decide (in_window t now)) as [Hin|Hin].
  2:{ rewrite filter_cons_False by done. simpl. specialize (HG t). lia. }
  rewrite filter_cons_True by done. simpl.
  assert (length (filter (in_window t) (granted key gs)) <=
          length (filter (fun x => (now - w < x)%Z) (granted key gs)))%nat.
  { apply length_filter_mono. intros x Hx Hw. rewrite Forall_forall in Hmax.
    specialize (Hmax x Hx). unfold in_window in *. lia. }
  assert (Z.of_nat (length (filter (fun x => now - w < x) (granted key gs))) < lim)
    by (by apply Z.ltb_lt).
  lia.
Qed.

(** The guessing budget.  Over any sequence of calls, with any keys
    interleaved, no window of [windowMs] milliseconds ever contains more
    than [limit] grants to one key. *)
Theorem window_bound evs key t :
  0 <= lim -> clock_ok evs ->
  Z.of_nat (length (filter (in_window t)
    (granted key (takes evs (createRateLimiter lim w)).1))) <= lim.
Proof.
  intros Hlim. revert t. induction evs as [|[k now] evs IH] using rev_ind;
    intros t Hclk; [done|].
  apply window_bound_snoc; [done|done|].
  apply clock_ok_snoc in Hclk as [Hclk _]. intros t'. by apply IH.
Qed.
End Window.

(** ** [retryAfterMs] *)

Lemma prune_hits key now l :
  default [] (hits (prune key now l).2 !! key) = live_hits key (now - windowMs l) l.
Proof.
  unfold prune, live_hits; simpl. case_decide as Ht.
  - by rewrite lookup_delete_eq.
  - by rewrite lookup_insert_eq.
Qed.

Lemma sorted_filter_tail_lt (c o : Z) ts :
  StronglySorted Z.le (o :: ts) -> o <= c ->
  (length (filter (fun t => (c < t)%Z) (o :: ts)) <= length ts)%nat.
Proof.
  intros _ Ho. rewrite filter_cons_False by lia. apply length_filter.
Qed.

(** [Retry-After] tells the truth.  When the window of [key] holds
      exactly [limit] hits in time order, waiting the [retryAfterMs] the
      limiter answers and calling again is granted. *)
Theorem retryAfterMs_sufficient key now l :
  0 < limit l ->
  Z.of_nat (length (live_hits key (now - windowMs l) l)) = limit l ->
  StronglySorted Z.le (live_hits key (now - windowMs l) l) ->
  let '(ms, l') := retryAfterMs key now l in
  (take key (now + ms) l').1 = true.
Proof.
  intros Hpos Hfull Hsorted. unfold retryAfterMs.
  destruct (prune key now l) as [times l'] eqn:Hp.
  assert (times = live_hits key (now - windowMs l) l) as ->.
  { change times with (times, l').1. by rewrite <- Hp, prune_times. }
  assert (default [] (hits l' !! key) = live_hits key (now - windowMs l) l) as Hh.
  { change l' with (live_hits key (now - windowMs l) l, l').2.
    rewrite <- Hp. apply prune_hits. }
  assert (limit l' = limit l /\ windowMs l' = windowMs l) as [Hl Hw].
  { change l' with (live_hits key (now - windowMs l) l, l').2.
    rewrite <- Hp. apply prune_params. }
  destruct (live_hits key (now - windowMs l) l) as [|o ts] eqn:Hlive.
  { simpl in Hfull. lia. }
  rewrite Hl, Hw, (proj2 (Z.ltb_ge _ _)) by lia.
  rewrite take_decision. unfold live_hits. rewrite Hh, Hl, Hw. apply Z.ltb_lt.
  pose proof (sorted_filter_tail_lt
    (now + Z.max 0 (o + windowMs l - now) - windowMs l) o ts Hsorted).
  simpl in *. lia.
Qed.

(** ** Witnesses *)

Definition burst : list (string * Z) :=
  [("a", 0); ("a", 10); ("b", 10); ("a", 20); ("a", 61000); ("a", 61001)]%string.

Lemma burst_clock : clock_ok (burst ++ [("a"%string, 61002)]).
Proof. repeat constructor; simpl; lia. Defined.

Definition burst_state : Limiter := (takes burst (createRateLimiter 2 60000)).2.

Lemma takes_refines_spec_witness :
  clock_ok (burst ++ [("a"%string, 61002)]) /\
  (takes (burst ++ [("a"%string, 61002)]) (createRateLimiter 2 60000)).1 =
  foldl (spec_take 2 60000) [] (burst ++ [("a"%string, 61002)]).
Proof.
  split; [exact burst_clock|].
  exact (takes_refines_spec 2 60000 (burst ++ [("a"%string, 61002)]) burst_clock).
Defined.

Lemma window_bound_witness :
  clock_ok (burst ++ [("a"%string, 61002)]) /\
  Z.of_nat (length (filter (in_window 60000 61002)
    (granted "a" (takes (burst ++ [("a"%string, 61002)]) (createRateLimiter 2 60000)).1))) <= 2.
Proof.
  split; [exact burst_clock|].
  apply (window_bound 2 60000 (burst ++ [("a"%string, 61002)]) "a" 61002);
    [lia | exact burst_clock].
Defined.

Lemma retryAfterMs_sufficient_witness :
  live_hits "a" (61002 - 60000) burst_state = [61000; 61001] /\
  let '(ms, l') := retryAfterMs "a" 61002 burst_state in
  (take "a" (61002 + ms) l').1 = true.
Proof.
  assert (live_hits "a" (61002 - 60000) burst_state = [61000; 61001]) as Hlive
    by (vm_compute; reflexivity).
  split; [exact Hlive|].
  assert (limit burst_state = 2) as Hl by (vm_compute; reflexivity).
  assert (windowMs burst_state = 60000) as Hw by (vm_compute; reflexivity).
  apply (retryAfterMs_sufficient "a" 61002 burst_state); rewrite ?Hl, ?Hw, ?Hlive;
    [lia | reflexivity | repeat constructor; lia].
Defined.

End RateLimiter.
