(* ===== verification/Plans.v ===== *)
(** * Plans: what an account may do, and why

    The pure half of billing: the table of limits
    ([packages/config/src/plans.ts]), the resolution of a subscriptions row
    into a plan ([apps/api/src/billing/subscriptions.ts]), the product
    catalogue ([billing/dodo.ts]) and the calendar of the usage counters
    ([apps/api/src/entitlements.ts]).  A [Date] is its milliseconds. *)

From stdpp Require Import pretty.
From S2P Require Import Prelude.

#[local] Open Scope string_scope.
#[local] Open Scope list_scope.
#[local] Open Scope Z_scope.

(** ** The table *)

Inductive PlanId := free | pro.

#[export] Instance PlanId_eq_dec : EqDecision PlanId.
Proof. solve_decision. Defined.

Definition plan_name (p : PlanId) : string := match p with free => "free" | pro => "pro" end.

(** [None] is [null]: unlimited. *)
Record PlanLimits := mkLimits {
  pl_servers : option Z;
  pl_tunnelMinutes : option Z;
  pl_monthlyBytes : option Z;
  pl_devicesPerServer : option Z;
  pl_namedServers : bool;
}.

Definition GIB : Z := 1024 ^ 3.

Definition PLANS (p : PlanId) : PlanLimits :=
  match p with
  | free => mkLimits (Some 1) None (Some (5 * GIB)) (Some 3) false
  | pro => mkLimits None None (Some (200 * GIB)) None true
  end.

Definition DEFAULT_PLAN : PlanId := free.
Definition TRIAL_DAYS : Z := 7.
Definition TRIAL_PLAN : PlanId := pro.
Definition TRIAL_MS : Z := TRIAL_DAYS * 24 * 60 * 60 * 1000.

(** What [in] finds on every object literal. *)
Definition inherited : list string :=
  ["constructor"; "__defineGetter__"; "__defineSetter__"; "hasOwnProperty";
   "__lookupGetter__"; "__lookupSetter__"; "isPrototypeOf"; "propertyIsEnumerable";
   "toString"; "valueOf"; "__proto__"; "toLocaleString"].

(** [limitsFor]; [None] when it returns something that is not a row of the
    table, a member of [Object.prototype]. *)
Definition limitsFor (plan : option string) : option PlanLimits :=
  match plan with
  | None => Some (PLANS DEFAULT_PLAN)
  | Some p =>
      if bool_decide (p = "free") then Some (PLANS free)
      else if bool_decide (p = "pro") then Some (PLANS pro)
      else if bool_decide (p ∈ inherited) then None
      else Some (PLANS DEFAULT_PLAN)
  end.

Lemma limitsFor_plan p : limitsFor (Some (plan_name p)) = Some (PLANS p).
Proof. by destruct p. Qed.

Definition exceeds (used : Z) (limit : option Z) : bool :=
  match limit with None => false | Some l => l <=? used end.

(** ** What a row grants *)

(** [planForStatus]; a status is Dodo's own word. *)
Definition planForStatus (status : string) (productPlan : option PlanId) : PlanId :=
  match productPlan with
  | None => DEFAULT_PLAN
  | Some p =>
      if bool_decide (status = "active") || bool_decide (status = "on_hold") then p
      else DEFAULT_PLAN
  end.

Inductive TrialStatus := TrialNone | TrialActive | TrialExpired.

#[export] Instance TrialStatus_eq_dec : EqDecision TrialStatus.
Proof. solve_decision. Defined.

Record TrialState := mkTrial {
  tr_status : TrialStatus;
  tr_startedAt : option Z;
  tr_endsAt : option Z;
  tr_daysLeft : Z;
}.

Inductive Source := SourceFree | SourceTrial | SourcePaid.

#[export] Instance Source_eq_dec : EqDecision Source.
Proof. solve_decision. Defined.

Record PlanResolution := mkResolution {
  res_plan : PlanId;
  res_source : Source;
  res_trial : TrialState;
}.

Definition NO_TRIAL : TrialState := mkTrial TrialNone None None 0.
Definition DAY_MS : Z := 24 * 60 * 60 * 1000.

(** [Math.ceil(a / b)] for [0 < b]. *)
Definition ceil_div (a b : Z) : Z := - ((- a) / b).

(** The columns [resolvePlan] reads. *)
Record ResolvableSubscription := mkResolvable {
  rs_plan : string;
  rs_trialStartedAt : option Z;
  rs_trialEndsAt : option Z;
}.

Definition trial_of (row : option ResolvableSubscription) (now : Z) : TrialState :=
  match row ≫= rs_trialStartedAt with
  | None => NO_TRIAL
  | Some startedAt =>
      match row ≫= rs_trialEndsAt with
      | Some endsAt =>
          if now <? endsAt
          then mkTrial TrialActive (Some startedAt) (Some endsAt) (ceil_div (endsAt - now) DAY_MS)
          else mkTrial TrialExpired (Some startedAt) (Some endsAt) 0
      | None => mkTrial TrialExpired (Some startedAt) None 0
      end
  end.

Definition resolvePlan (row : option ResolvableSubscription) (now : Z) : PlanResolution :=
  let paid := bool_decide (rs_plan <$> row = Some "pro") in
  let trial := trial_of row now in
  if paid then mkResolution pro SourcePaid trial
  else if bool_decide (tr_status trial = TrialActive) then mkResolution TRIAL_PLAN SourceTrial trial
  else mkResolution DEFAULT_PLAN SourceFree trial.

(** ** The catalogue *)

Record Catalogue := mkCatalogue { proMonthly : string; proYearly : string }.

Inductive Interval := monthly | yearly.

Definition productIdFor (c : Catalogue) (plan : PlanId) (interval : Interval) : option string :=
  match plan with
  | free => None
  | pro => truthy (Some (match interval with yearly => proYearly c | monthly => proMonthly c end))
  end.

Definition planForProduct (c : Catalogue) (productId : option string) : option PlanId :=
  match truthy productId with
  | None => None
  | Some id => if bool_decide (id = proMonthly c) || bool_decide (id = proYearly c) then Some pro else None
  end.

(** ** Days and months

    [new Date(ms).toISOString()], as far as [slice(0, 10)] and [slice(0, 7)]
    read it: the proleptic Gregorian date of the day, a year outside 0..9999
    with a sign and six digits. *)

Definition civil (days : Z) : Z * Z * Z :=
  let z := days + 719468 in
  let era := z / 146097 in
  let doe := z mod 146097 in
  let yoe := (doe - doe / 1460 + doe / 36524 - doe / 146096) / 365 in
  let doy := doe - (365 * yoe + yoe / 4 - yoe / 100) in
  let mp := (5 * doy + 2) / 153 in
  let d := doy - (153 * mp + 2) / 5 + 1 in
  let m := if mp <? 10 then mp + 3 else mp - 9 in
  (yoe + era * 400 + (if m <=? 2 then 1 else 0), m, d).

Definition digit (n : Z) : string := pretty (n mod 10).

Fixpoint digits (width : nat) (n : Z) : string :=
  match width with
  | O => ""
  | S w => digits w (n / 10) +:+ digit n
  end.

Definition iso_year (y : Z) : string :=
  if (0 <=? y) && (y <=? 9999) then digits 4 y
  else (if y <? 0 then "-" else "+") +:+ digits 6 (Z.abs y).

Definition isoDate (ms : Z) : string :=
  let '(y, m, d) := civil (ms / DAY_MS) in
  iso_year y +:+ "-" +:+ digits 2 m +:+ "-" +:+ digits 2 d.

Definition dayKey (now : Z) : string := String.substring 0 10 (isoDate now).
Definition monthKey (now : Z) : string := String.substring 0 7 (isoDate now).

(** [formatBytes], of a refusal: [Math.round] of a quotient. *)
Definition round_div (a b : Z) : Z := (2 * a + b) / (2 * b).

Definition formatBytes (n : Z) : string :=
  if GIB <=? n then pretty (round_div n GIB) +:+ " GB"
  else pretty (round_div n (1024 ^ 2)) +:+ " MB".

(** ** Facts *)

Example epoch : dayKey 0 = "1970-01-01". Proof. reflexivity. Qed.
Example leap_day : dayKey 1709251199999 = "2024-02-29". Proof. vm_compute. reflexivity. Qed.
Example next_day : dayKey 1709251200000 = "2024-03-01". Proof. vm_compute. reflexivity. Qed.
Example before_epoch : dayKey (-1) = "1969-12-31". Proof. vm_compute. reflexivity. Qed.

Lemma substring_prefix n m s : (n <= m)%nat -> String.substring 0 n (String.substring 0 m s) = String.substring 0 n s.
Proof.
  revert m s. induction n as [|n IH]; intros m s Hn.
  - by destruct s, m.
  - destruct m as [|m]; [lia|]. destruct s as [|a s]; [done|]. simpl. rewrite IH; [done|lia].
Qed.

Lemma month_of_day now : monthKey now = String.substring 0 7 (dayKey now).
Proof. unfold monthKey, dayKey. rewrite substring_prefix; [done|lia]. Qed.

Lemma planForStatus_pro status productPlan :
  planForStatus status productPlan = pro ->
  productPlan = Some pro /\ (status = "active" \/ status = "on_hold").
Proof.
  unfold planForStatus. destruct productPlan as [p|]; [|done].
  destruct (bool_decide (status = "active")) eqn:E1; simpl; intros H.
  - apply bool_decide_eq_true in E1. by rewrite H; auto.
  - destruct (bool_decide (status = "on_hold")) eqn:E2; [|done].
    apply bool_decide_eq_true in E2. by rewrite H; auto.
Qed.

Lemma planForProduct_pro c productId :
  planForProduct c productId = Some pro ->
  exists id, productId = Some id /\ id <> "" /\ (id = proMonthly c \/ id = proYearly c).
Proof.
  unfold planForProduct, truthy. destruct productId as [id|]; [|done].
  case_decide as Hn; [done|]. destruct (bool_decide (id = proMonthly c)) eqn:E1; simpl.
  - apply bool_decide_eq_true in E1. eauto.
  - destruct (bool_decide (id = proYearly c)) eqn:E2; [|done]. apply bool_decide_eq_true in E2. eauto.
Qed.

(** What is for sale grants what was bought. *)
Lemma sold_is_granted c interval id :
  productIdFor c pro interval = Some id -> planForProduct c (Some id) = Some pro.
Proof.
  unfold productIdFor, planForProduct, truthy. case_decide as Hn; [done|]. intros [= <-].
  rewrite decide_False by done.
  destruct interval; [rewrite (bool_decide_eq_true_2 (_ = proMonthly c)) by done; done|].
  rewrite (bool_decide_eq_true_2 (_ = proYearly c)) by done. by rewrite orb_true_r.
Qed.

(** While a trial runs: the account is on the trial's plan, and has at least a
    day shown until the moment it ends. *)
Lemma resolve_trial p started ends now :
  p <> "pro" ->
  let r := resolvePlan (Some (mkResolvable p (Some started) (Some ends))) now in
  (now < ends -> res_plan r = TRIAL_PLAN /\ res_source r = SourceTrial
                 /\ 0 < tr_daysLeft (res_trial r)) /\
  (ends <= now -> res_plan r = DEFAULT_PLAN /\ res_source r = SourceFree
                  /\ tr_daysLeft (res_trial r) = 0 /\ tr_status (res_trial r) = TrialExpired).
Proof.
  intros Hp r. unfold r, resolvePlan, trial_of. simpl.
  rewrite (bool_decide_eq_false_2 (Some p = Some "pro")) by congruence.
  split; intros Hn.
  - rewrite (proj2 (Z.ltb_lt now ends) Hn). simpl. repeat split.
    unfold ceil_div. assert (DAY_MS = 86400000) as -> by done.
    assert (- (ends - now) / 86400000 < 0) by (apply Z.div_lt_upper_bound; lia). lia.
  - rewrite (proj2 (Z.ltb_ge now ends)) by done. simpl. done.
Qed.
