(* ===== verification/AccountsDb.v ===== *)
(** * AccountsDb: the accounts database and the programs that use it

    The tables of [packages/db/src/schema] that accounts and billing read or
    write, with the constraints [packages/db/src/index.ts] turns on, and the
    monad the handlers of [apps/api/src/accounts] are written in.  A table is
    the list of its rows in the order they were inserted, which is the order a
    scan meets them.  The primary keys of [subscriptions] and [tunnel_usage]
    are functions of their unique columns and are left out. *)

From S2P Require Import Prelude RateLimit.

#[local] Open Scope string_scope.
#[local] Open Scope list_scope.
#[local] Open Scope Z_scope.

(** ** Tables *)

Record User := mkUser {
  u_id : string;
  u_email : string;
  u_name : string;
  u_dodoCustomerId : option string;
}.

(** better-auth's [account] and [passkey], as far as they are read. *)
Record Account := mkAccount { ac_userId : string; ac_providerId : string }.
Record Passkey := mkPasskey { pk_userId : string }.

Record Subscription := mkSubscription {
  sub_userId : string;
  sub_dodoCustomerId : option string;
  sub_dodoSubscriptionId : option string;
  sub_productId : option string;
  sub_status : string;
  sub_plan : string;
  sub_currentPeriodEnd : option Z;
  sub_cancelAtPeriodEnd : bool;
  sub_trialStartedAt : option Z;
  sub_trialEndsAt : option Z;
  sub_createdAt : Z;
  sub_updatedAt : Z;
}.

Record TunnelUsage := mkUsage {
  tu_userId : string;
  tu_day : string;
  tu_bytes : Z;
  tu_seconds : Z;
  tu_sessions : Z;
  tu_updatedAt : Z;
}.

Record WebhookRow := mkWebhookRow { we_id : string; we_type : string; we_receivedAt : Z }.

Record Server := mkServer {
  sv_id : jstr;
  sv_userId : string;
  sv_name : jstr;
  sv_slug : jstr;
  sv_publicKey : string;
  sv_hostname : option jstr;
  sv_platform : option jstr;
  sv_cliVersion : option jstr;
  sv_lastSeenAt : option Z;
  sv_updatedAt : Z;
}.

Record ServerDevice := mkServerDevice {
  sd_serverId : jstr;
  sd_publicKey : string;
  sd_revokedAt : option Z;
}.

Record Db := mkDb {
  db_user : list User;
  db_account : list Account;
  db_passkey : list Passkey;
  db_subscriptions : list Subscription;
  db_tunnelUsage : list TunnelUsage;
  db_webhookEvents : list WebhookRow;
  db_servers : list Server;
  db_serverDevices : list ServerDevice;
}.

Definition newDb : Db := mkDb [] [] [] [] [] [] [] [].

Definition with_user t d := mkDb t (db_account d) (db_passkey d) (db_subscriptions d)
  (db_tunnelUsage d) (db_webhookEvents d) (db_servers d) (db_serverDevices d).
Definition with_subscriptions t d := mkDb (db_user d) (db_account d) (db_passkey d) t
  (db_tunnelUsage d) (db_webhookEvents d) (db_servers d) (db_serverDevices d).
Definition with_tunnelUsage t d := mkDb (db_user d) (db_account d) (db_passkey d)
  (db_subscriptions d) t (db_webhookEvents d) (db_servers d) (db_serverDevices d).
Definition with_webhookEvents t d := mkDb (db_user d) (db_account d) (db_passkey d)
  (db_subscriptions d) (db_tunnelUsage d) t (db_servers d) (db_serverDevices d).
Definition with_servers t d := mkDb (db_user d) (db_account d) (db_passkey d)
  (db_subscriptions d) (db_tunnelUsage d) (db_webhookEvents d) t (db_serverDevices d).
Definition with_serverDevices t d := mkDb (db_user d) (db_account d) (db_passkey d)
  (db_subscriptions d) (db_tunnelUsage d) (db_webhookEvents d) (db_servers d) t.

(** ** Statements *)

(** [select ... where ... limit 1]. *)
Definition first {R} (p : R -> bool) (t : list R) : option R := head (filter (fun r => p r = true) t).

(** [update ... set ... where ...]: the table and the rows touched. *)
Definition update {R} (p : R -> bool) (f : R -> R) (t : list R) : list R * Z :=
  (map (fun r => if p r then f r else r) t, Z.of_nat (length (filter (fun r => p r = true) t))).

(** [delete from ... where ...]. *)
Definition drop_rows {R} (p : R -> bool) (t : list R) : list R := filter (fun r => p r = false) t.

(** [insert ... on conflict (key) do update set ... where ...]: [same] finds
    the row in the way, [ok] is the [where] of the update.  The count is
    [changes]. *)
Definition upsert {R} (same : R -> bool) (fresh : R) (ok : R -> bool) (set : R -> R)
    (t : list R) : list R * Z :=
  match first same t with
  | None => (t ++ [fresh], 1)
  | Some _ => update (fun r => same r && ok r) set t
  end.

Definition FOREIGN_KEY : string := "FOREIGN KEY constraint failed".
Definition UNIQUE : string := "UNIQUE constraint failed".

(** The user a row refers to must exist. *)
Definition has_user (userId : string) (d : Db) : bool :=
  match first (fun u => bool_decide (u_id u = userId)) (db_user d) with Some _ => true | None => false end.

(** ** Handlers

    What a handler does between two awaits is one [Step]: a function of the
    clock, of a random draw and of the shared state, which may throw.  Any
    other handler may run between two steps.  A clock reading is a step of
    its own, so more interleavings are considered than can occur. *)

Record World := mkWorld {
  w_db : Db;
  w_reads : RateLimiter.Limiter;
  w_writes : RateLimiter.Limiter;
  w_lookups : RateLimiter.Limiter;
}.

Definition with_db (d : Db) (w : World) : World := mkWorld d (w_reads w) (w_writes w) (w_lookups w).

(** The clock, [randomBytes(12).toString("base64url")] and
    [randomBytes(3).toString("hex")]. *)
Record Draw := mkDraw { dr_now : Z; dr_id : jstr; dr_hex : jstr }.

Inductive Api (A : Type) : Type :=
| Ret (a : A)
| Throw (e : string)
| Step (B : Type) (q : Draw -> World -> World * result string B) (k : result string B -> Api A).
Arguments Ret {A} a.
Arguments Throw {A} e.
Arguments Step {A} B q k.

#[export] Instance api_ret : MRet Api := @Ret.
#[export] Instance api_bind : MBind Api := fun A B f =>
  fix go (p : Api A) : Api B :=
    match p with
    | Ret a => f a
    | Throw e => Throw e
    | Step C q k => Step C q (fun r => go (k r))
    end.

(** [try { p } catch (e) { h(e) }]. *)
Fixpoint attempt {A} (p : Api A) (h : string -> Api A) : Api A :=
  match p with
  | Ret a => Ret a
  | Throw e => h e
  | Step B q k => Step B q (fun r => attempt (k r) h)
  end.

Definition step {B} (q : Draw -> World -> World * result string B) : Api B :=
  Step B q (fun r => match r with Ok b => Ret b | Err e => Throw e end).

Definition clock : Api Z := step (fun d w => (w, Ok (dr_now d))).
Definition random_id : Api jstr := step (fun d w => (w, Ok (dr_id d))).
Definition random_hex : Api jstr := step (fun d w => (w, Ok (dr_hex d))).

(** A query, and a write that may violate a constraint. *)
Definition select {B} (f : Db -> B) : Api B := step (fun _ w => (w, Ok (f (w_db w)))).
Definition write {B} (f : Db -> result string (Db * B)) : Api B :=
  step (fun _ w => match f (w_db w) with
                   | Ok (d, b) => (with_db d w, Ok b)
                   | Err e => (w, Err e)
                   end).

(** A program run with nobody else about: the world it leaves, what it
    answers, and how many draws it took. *)
Fixpoint run_alone {A} (draws : nat -> Draw) (n : nat) (p : Api A) (w : World)
    : World * result string A * nat :=
  match p with
  | Ret a => (w, Ok a, n)
  | Throw e => (w, Err e, n)
  | Step B q k => let '(w', r) := q (draws n) w in run_alone draws (S n) (k r) w'
  end.

Lemma run_alone_bind {A B} draws n (p : Api A) (f : A -> Api B) w :
  run_alone draws n (p ≫= f) w =
  match run_alone draws n p w with
  | (w', Ok a, n') => run_alone draws n' (f a) w'
  | (w', Err e, n') => (w', Err e, n')
  end.
Proof.
  revert n w. induction p as [a|e|C q k IH]; intros n w; simpl; [done|done|].
  destruct (q (draws n) w) as [w' r]. apply IH.
Qed.

Lemma run_alone_attempt {A} draws n (p : Api A) h w :
  run_alone draws n (attempt p h) w =
  match run_alone draws n p w with
  | (w', Ok a, n') => (w', Ok a, n')
  | (w', Err e, n') => run_alone draws n' (h e) w'
  end.
Proof.
  revert n w. induction p as [a|e|C q k IH]; intros n w; simpl; [done|done|].
  destruct (q (draws n) w) as [w' r]. apply IH.
Qed.

Lemma run_alone_step {B} draws n (q : Draw -> World -> World * result string B) w :
  run_alone draws n (step q) w = (let '(w', r) := q (draws n) w in (w', r, S n)).
Proof. simpl. destruct (q (draws n) w) as [w' [b|e]]; done. Qed.

(** ** Facts about statements *)

Lemma first_Some {R} (p : R -> bool) t r : first p t = Some r -> r ∈ t /\ p r = true.
Proof.
  unfold first. intros Hh. destruct (filter (fun r => p r = true) t) as [|x l] eqn:E; [done|].
  injection Hh as ->. assert (r ∈ filter (fun r => p r = true) t) as Hr by (rewrite E; left).
  apply list_elem_of_filter in Hr. tauto.
Qed.

Lemma first_None {R} (p : R -> bool) t : first p t = None <-> forall r, r ∈ t -> p r = false.
Proof.
  unfold first. split.
  - intros Hh r Hr. destruct (filter (fun r => p r = true) t) as [|x l] eqn:E; [|done].
    destruct (p r) eqn:Hp; [|done]. assert (r ∈ filter (fun r => p r = true) t) as Hin.
    { by apply list_elem_of_filter. } rewrite E in Hin. by apply elem_of_nil in Hin.
  - intros Hall. destruct (filter (fun r => p r = true) t) as [|x l] eqn:E; [done|].
    assert (x ∈ filter (fun r => p r = true) t) as [Hp Hx]%list_elem_of_filter by (rewrite E; left).
    by rewrite Hall in Hp.
Qed.

Lemma elem_of_update {R} (p : R -> bool) f t r :
  r ∈ (update p f t).1 -> exists r0, r0 ∈ t /\ (r = r0 /\ p r0 = false \/ r = f r0 /\ p r0 = true).
Proof.
  intros (r0 & -> & Hr)%list_elem_of_fmap. exists r0. split; [done|]. destruct (p r0); auto.
Qed.

Lemma elem_of_drop_rows {R} (p : R -> bool) t r : r ∈ drop_rows p t <-> r ∈ t /\ p r = false.
Proof. unfold drop_rows. rewrite list_elem_of_filter. tauto. Qed.

Lemma elem_of_upsert {R} (same : R -> bool) fresh ok set t r :
  r ∈ (upsert same fresh ok set t).1 ->
  (r = fresh /\ (forall x, x ∈ t -> same x = false))
  \/ r ∈ t
  \/ exists r0, r0 ∈ t /\ same r0 = true /\ ok r0 = true /\ r = set r0.
Proof.
  unfold upsert. destruct (first same t) eqn:E; simpl.
  - intros (r1 & Hr & [[-> _]|[-> Hp]])%elem_of_update; [auto|].
    apply andb_prop in Hp as [H1 H2]. right. right. by exists r1.
  - intros [Hr|Hr%list_elem_of_singleton]%elem_of_app; [auto|]. left. split; [done|].
    by apply first_None.
Qed.
