(* ===== verification/Protocol.v ===== *)
(** * Protocol: the wire messages of pairing, tunnels and access requests

    [packages/protocol/src/pairing-messages.ts] and the version floor of
    [packages/protocol/src/version.ts].  One constructor per schema of the
    source's discriminated unions; a field the schema makes optional is an
    [option].  Every string is opaque to the broker, so it is a [string].
    What zod does with a raw frame ([schema.parse(JSON.parse(raw))]) is an
    argument of the handlers: [None] is a frame that does not parse. *)

From Stdlib Require Import QArith.
From S2P Require Import Prelude.
#[global] Open Scope Z_scope.

(** A socket, as the broker sees it: the identity of one upgraded connection. *)
Abbreviation sock := nat.

(** ** Either end to the broker, on [/v1/pair/:id] and [/v1/claim/:id] *)

Inductive PairingClientMessage :=
| PairShareMessage (peer share ad : string)
| PairConfirmMessage (peer tag : string)
| PairEstablishMessage (peer sealedDescriptor : string)
| PairCloseMessage (peer : option string) (reason : option string).

Inductive FailReason :=
| expired | already_claimed | confirmation_failed | peer_gone | rate_limited
| server_error.

Inductive PairingServerMessage :=
| PairReadyMessage (mailboxId slot : string) (expiresAt : Z)
| PairPeerShareMessage (peer share ad sid : string)
| PairPeerConfirmMessage (peer tag : string)
| PairEstablishedMessage (peer sealedDescriptor : string)
| PairFailedMessage (peer : option string) (reason : FailReason).

(** ** The tunnel sockets and the requested pairings they carry *)

Inductive DenyReason :=
| refused | commitment_failed | no_tty | timeout | unknown_request | agent_gone
| too_many_requests.

Inductive CloseReason :=
| closed_agent_gone | closed_quota_exceeded | closed_expired | closed_revoked
| closed_server_error.

Inductive TunnelClientMessage :=
| TunnelRegisterMessage (deviceId publicKey challenge signature : string)
| TunnelStreamCloseMessage (streamId : string) (reason : option string)
| TunnelFrameMessage (streamId data : string)
| PairRequestAckMessage (requestId cliPublicKey : string)
| PairApprovedMessage (requestId sealedDescriptor : string)
| PairDeniedMessage (requestId : string) (reason : DenyReason).

Inductive TunnelServerMessage :=
| TunnelChallengeMessage (challenge : string)
| TunnelReadyMessage (tunnelId : string)
| TunnelStreamOpenMessage (streamId : string)
| TunnelServerStreamClose (streamId : string) (reason : option string)
| TunnelServerFrame (streamId data : string)
| TunnelClosedMessage (reason : CloseReason)
| PairRequestMessage (requestId commitment deviceLabel accountEmail : string)
| PairServerReveal (requestId browserPublicKey : string).

Inductive RequestClientMessage :=
| PairCommitMessage (requestId commitment : string)
| PairRevealMessage (requestId browserPublicKey : string).

Inductive RequestServerMessage :=
| RequestAck (requestId cliPublicKey : string)
| RequestApproved (requestId sealedDescriptor : string)
| RequestDenied (requestId : string) (reason : DenyReason).

#[export] Instance FailReason_eq_dec : EqDecision FailReason.
Proof. solve_decision. Defined.
#[export] Instance DenyReason_eq_dec : EqDecision DenyReason.
Proof. solve_decision. Defined.
#[export] Instance CloseReason_eq_dec : EqDecision CloseReason.
Proof. solve_decision. Defined.
#[export] Instance PairingServerMessage_eq_dec : EqDecision PairingServerMessage.
Proof. solve_decision. Defined.
#[export] Instance TunnelServerMessage_eq_dec : EqDecision TunnelServerMessage.
Proof. solve_decision. Defined.
#[export] Instance RequestServerMessage_eq_dec : EqDecision RequestServerMessage.
Proof. solve_decision. Defined.

(** What a process writes on its sockets, in order: [socket.send] of one of
    the three server unions, or [socket.close(code)]. *)
Inductive output :=
| SendPair (s : sock) (m : PairingServerMessage)
| SendTunnel (s : sock) (m : TunnelServerMessage)
| SendRequest (s : sock) (m : RequestServerMessage)
| CloseSocket (s : sock) (code : Z).

#[export] Instance output_eq_dec : EqDecision output.
Proof. solve_decision. Defined.

(** ** Constants *)

Definition MAX_PEERS_PER_SLOT : Z := 2.
Definition REQUEST_TTL_MS : Z := 120000.
Definition MIN_CODE_TTL_MS : Z := 30000.
Definition MAX_CODE_TTL_MS : Z := 300000.

(** A hosted code's deadline, on the caller's clock. *)
Definition codeDeadline (expiresAt : Z) (ttlMs : option Z) (now : Z) : Z :=
  let raw := default (expiresAt - now) ttlMs in
  now + Z.min (Z.max raw MIN_CODE_TTL_MS) MAX_CODE_TTL_MS.

(** ** The version floor *)

Definition PROTOCOL_VERSION : Z := 2.
Definition MIN_PROTOCOL_VERSION : Z := 2.
Definition MIN_PAIR_CLI_VERSION : string := "0.7.0".

(** [ProtocolVersionSchema] on a value already coerced by [Number(...)]:
    [None] is NaN or an infinity. *)
Definition ProtocolVersionSchema (v : option Q) : option Z :=
  match v with
  | Some q =>
      if (Qnum q mod Z.pos (Qden q) =? 0)
         && (1 <=? Qnum q / Z.pos (Qden q)) && (Qnum q / Z.pos (Qden q) <=? 1000)
      then Some (Qnum q / Z.pos (Qden q)) else None
  | None => None
  end.

(** Whether a declared version ([None] = versionless) clears a floor. *)
Definition meetsProtocolFloor (declared : option Q) (floor : Z) : bool :=
  if floor <=? 0 then true
  else match declared with
       | Some v => Qle_bool (inject_Z floor) v
       | None => false
       end.

(** Whatever the two clocks say, a code lives between 30 s and 5 min on the
    caller's clock, and a broker-sent duration in that range is kept as is. *)
Lemma codeDeadline_bounds expiresAt ttlMs now :
  now + MIN_CODE_TTL_MS <= codeDeadline expiresAt ttlMs now <= now + MAX_CODE_TTL_MS.
Proof. unfold codeDeadline, MIN_CODE_TTL_MS, MAX_CODE_TTL_MS. lia. Qed.

Lemma codeDeadline_duration expiresAt ttl now :
  MIN_CODE_TTL_MS <= ttl <= MAX_CODE_TTL_MS ->
  codeDeadline expiresAt (Some ttl) now = now + ttl.
Proof. unfold codeDeadline. simpl. lia. Qed.
