(* ===== verification/AccountsHttp.v ===== *)
(** * AccountsHttp: requests to the account routes, as far as they are parsed

    [apps/api/src/accounts/http.ts], the schemas of [accounts/routes.ts] and
    [accounts/public.ts], [sanitizeLabel] of
    [packages/protocol/src/display-label.ts] and [slugify] of
    [accounts/servers.ts].  A body arrives as the fields the schemas read; the
    two functions of the Unicode tables are a type class. *)

From Stdlib Require Import Ascii QArith.QArith_base.
From S2P Require Import Prelude Protocol.

#[local] Open Scope string_scope.
#[local] Open Scope list_scope.
#[local] Open Scope Z_scope.

(** ** Strings *)

Fixpoint split_on (c : Ascii.ascii) (s : string) : list string :=
  match s with
  | EmptyString => [""]
  | String a s' =>
      let rest := split_on c s' in
      if decide (a = c) then "" :: rest
      else match rest with
           | [] => [String a ""]
           | x :: xs => String a x :: xs
           end
  end.

(** [to_ascii] undoes [js]. *)
Definition to_ascii (s : jstr) : string :=
  String.string_of_list_ascii (map (fun c => Ascii.ascii_of_N (Z.to_N c)) s).

Definition hexValue (c : Z) : option Z :=
  if (48 <=? c) && (c <=? 57) then Some (c - 48)
  else if (65 <=? c) && (c <=? 70) then Some (c - 55)
  else if (97 <=? c) && (c <=? 102) then Some (c - 87)
  else None.

(** [decodeURIComponent]: the escapes first, then UTF-8.  [None] is the
    [URIError]. *)
Inductive Token := Plain (c : Z) | Octet (b : Z).

Fixpoint unescape (s : jstr) : option (list Token) :=
  match s with
  | [] => Some []
  | 37 :: rest =>
      match rest with
      | a :: b :: rest' =>
          match hexValue a, hexValue b with
          | Some x, Some y => cons (Octet (16 * x + y)) <$> unescape rest'
          | _, _ => None
          end
      | _ => None
      end
  | c :: rest => cons (Plain c) <$> unescape rest
  end.

Definition continuation (b : Z) : bool := (128 <=? b) && (b <? 192).

(** A code point as its UTF-16 code units. *)
Definition units (v : Z) : jstr :=
  if v <? 65536 then [v]
  else [55296 + Z.shiftr (v - 65536) 10; 56320 + Z.land (v - 65536) 1023].

Fixpoint utf8_units (ts : list Token) : option jstr :=
  match ts with
  | [] => Some []
  | Plain c :: ts' => cons c <$> utf8_units ts'
  | Octet b :: ts1 =>
      if b <? 128 then cons b <$> utf8_units ts1
      else if (192 <=? b) && (b <? 224) then
        match ts1 with
        | Octet c1 :: ts2 =>
            let v := (b - 192) * 64 + (c1 - 128) in
            if continuation c1 && (128 <=? v) then app (units v) <$> utf8_units ts2 else None
        | _ => None
        end
      else if (224 <=? b) && (b <? 240) then
        match ts1 with
        | Octet c1 :: Octet c2 :: ts3 =>
            let v := (b - 224) * 4096 + (c1 - 128) * 64 + (c2 - 128) in
            if continuation c1 && continuation c2 && (2048 <=? v)
               && negb ((55296 <=? v) && (v <=? 57343))
            then app (units v) <$> utf8_units ts3 else None
        | _ => None
        end
      else if (240 <=? b) && (b <? 248) then
        match ts1 with
        | Octet c1 :: Octet c2 :: Octet c3 :: ts4 =>
            let v := (b - 240) * 262144 + (c1 - 128) * 4096 + (c2 - 128) * 64 + (c3 - 128) in
            if continuation c1 && continuation c2 && continuation c3
               && (65536 <=? v) && (v <=? 1114111)
            then app (units v) <$> utf8_units ts4 else None
        | _ => None
        end
      else None
  end.

Definition decodeURIComponent (s : string) : option jstr := unescape (js s) ≫= utf8_units.

Example decodes : decodeURIComponent "srv_a%2Fb%C3%A9%F0%9F%98%80"
  = Some (js "srv_a/b" ++ [233; 55357; 56832]).
Proof. reflexivity. Qed.
Example overlong : decodeURIComponent "%C0%AF" = None. Proof. reflexivity. Qed.

(** ** Paths *)

(** [matchPath]: [Err] when a segment does not decode, [Ok None] when the path
    is another one.  A pattern has at most one parameter here, so the
    parameters are the list of their values. *)
Fixpoint match_segments (want got : list string) : result string (option (list jstr)) :=
  match want, got with
  | [], [] => Ok (Some [])
  | w :: want', g :: got' =>
      if String.prefix ":" w then
        if bool_decide (g = "") then Ok None
        else match decodeURIComponent g with
             | None => Err "URI malformed"
             | Some v =>
                 rest ← match_segments want' got';
                 Ok (option_map (cons v) rest)
             end
      else if bool_decide (w = g) then match_segments want' got' else Ok None
  | _, _ => Ok None
  end.

Definition matchPath (pattern pathname : string) : result string (option (list jstr)) :=
  let want := split_on "/" pattern in
  let got := split_on "/" pathname in
  if bool_decide (length want = length got) then match_segments want got else Ok None.

Definition AUTH_PREFIX : string := "/api/auth".
Definition WEBHOOK_PATH : string := "/api/auth/dodopayments/webhooks".

Definition owns (pathname : string) : bool :=
  bool_decide (pathname = AUTH_PREFIX)
  || String.prefix "/api/auth/" pathname
  || bool_decide (pathname = "/v1/auth/lookup")
  || bool_decide (pathname = "/v1/auth/config")
  || bool_decide (pathname = "/v1/me")
  || bool_decide (pathname = "/v1/servers")
  || String.prefix "/v1/servers/" pathname
  || bool_decide (pathname = "/v1/billing")
  || String.prefix "/v1/billing/" pathname
  || bool_decide (pathname = "/v1/pair/request").

(** ** Headers *)

Definition trim_header (s : string) : string := to_ascii (trim (js s)).

(** [clientIp] of [http.ts]: the header, whoever sent it. *)
Definition clientIp (forwarded peer : option string) : string :=
  let candidate := trim_header <$> (forwarded ≫= fun f => head (split_on "," f)) in
  match truthy candidate with
  | Some c => c
  | None => default "unknown" (truthy peer)
  end.

(** [applyCors]: the headers set. *)
Definition applyCors (corsOrigins : list string) (origin : option string) : list (string * string) :=
  ("Vary", "Origin") ::
  match truthy origin with
  | Some o =>
      if bool_decide (o ∈ corsOrigins) then
        [("Access-Control-Allow-Origin", o);
         ("Access-Control-Allow-Credentials", "true");
         ("Access-Control-Allow-Methods", "GET, POST, PATCH, DELETE, OPTIONS");
         ("Access-Control-Allow-Headers", "Content-Type, Authorization, Cookie");
         ("Access-Control-Expose-Headers", "set-auth-token");
         ("Access-Control-Max-Age", "600")]
      else []
  | None => []
  end.

(** ** Bodies *)

(** A field of a JSON object. *)
Inductive Field := Absent | Str (s : jstr) | Other.

(** [v] is a number or a string with its [Number(v)], or something else, with
    what [z.coerce.number()] makes of it. *)
Record Fields := mkFields {
  f_name : Field;
  f_publicKey : Field;
  f_hostname : Field;
  f_platform : Field;
  f_cliVersion : Field;
  f_serverId : Field;
  f_deviceLabel : Field;
  f_version : option Q;
  f_plan : Field;
  f_interval : Field;
  f_email : Field;
}.

Definition emptyFields : Fields :=
  mkFields Absent Absent Absent Absent Absent Absent Absent None Absent Absent Absent.

Inductive RawBody := TooLarge | NotJson | Value (v : Fields).

(** [readBody]: the status and the message of a refusal; the value itself when
    there was one, for [upgradeRequired]. *)
Inductive BodyResult (A : Type) :=
| Parsed (data : A)
| Refused (status : Z) (error : string) (raw : option Fields).
Arguments Parsed {A} data.
Arguments Refused {A} status error raw.

Definition readBody {A} (schema : Fields -> option A) (b : RawBody) : BodyResult A :=
  match b with
  | TooLarge => Refused 413 "Request body is too large." None
  | NotJson => Refused 400 "Body must be valid JSON." None
  | Value v =>
      match schema v with
      | Some data => Parsed data
      | None => Refused 400 "Invalid request body." (Some v)
      end
  end.

Definition is_hex (c : Z) : bool := match hexValue c with Some _ => true | None => false end.

(** [toLowerCase] of an ASCII letter. *)
Definition lower_ascii (c : Z) : Z := if (65 <=? c) && (c <=? 90) then c + 32 else c.

Definition PublicKey (f : Field) : option string :=
  match f with
  | Str s => if Nat.eqb (length s) 64 && forallb is_hex s then Some (to_ascii (map lower_ascii s)) else None
  | _ => None
  end.

Definition len (s : jstr) : Z := Z.of_nat (length s).

Definition ServerName (f : Field) : option jstr :=
  match f with
  | Str s => let s := trim s in if (1 <=? len s) && (len s <=? 64) then Some s else None
  | _ => None
  end.

(** [z.string().trim().max(n).optional()]. *)
Definition optional_string (n : Z) (f : Field) : option (option jstr) :=
  match f with
  | Absent => Some None
  | Str s => let s := trim s in if len s <=? n then Some (Some s) else None
  | Other => None
  end.

Record RegisterInput := mkRegister {
  ri_name : jstr;
  ri_publicKey : string;
  ri_hostname : option jstr;
  ri_platform : option jstr;
  ri_cliVersion : option jstr;
}.

Definition RegisterServerBody (v : Fields) : option RegisterInput :=
  name ← ServerName (f_name v);
  publicKey ← PublicKey (f_publicKey v);
  hostname ← optional_string 255 (f_hostname v);
  platform ← optional_string 64 (f_platform v);
  cliVersion ← optional_string 32 (f_cliVersion v);
  Some (mkRegister name publicKey hostname platform cliVersion).

Definition RenameServerBody (v : Fields) : option jstr := ServerName (f_name v).

(** [UNSAFE] of [display-label.ts]. *)
Definition unsafe (c : Z) : bool :=
  (c <=? 31) || ((127 <=? c) && (c <=? 159)) || ((8203 <=? c) && (c <=? 8207))
  || ((8234 <=? c) && (c <=? 8238)) || ((8294 <=? c) && (c <=? 8297)).

Definition MAX_LABEL_LENGTH : Z := 120.

Definition sanitizeLabel (raw : jstr) (maxLength : Z) : jstr :=
  slice 0 (Z.to_nat maxLength) (trim (filter (fun c => unsafe c = false) raw)).

Definition displayLabel (raw : option jstr) (fallback : jstr) : jstr :=
  let clean := sanitizeLabel (default [] raw) MAX_LABEL_LENGTH in
  if decide (clean = []) then fallback else clean.

Record PairRequestInput := mkPairRequest { pr_serverId : jstr; pr_deviceLabel : jstr }.

Definition PairRequestBody (v : Fields) : option PairRequestInput :=
  _ ← ProtocolVersionSchema (f_version v);
  match f_serverId v, f_deviceLabel v with
  | Str serverId, Str label =>
      if (8 <=? len serverId) && (len serverId <=? 64) && (len label <=? MAX_LABEL_LENGTH)
      then Some (mkPairRequest serverId (sanitizeLabel label MAX_LABEL_LENGTH))
      else None
  | _, _ => None
  end.

(** [CheckoutRequest] of [billing/index.ts]: [true] is yearly. *)
Definition CheckoutRequest (v : Fields) : option bool :=
  match f_plan v with
  | Other => None
  | Str s => if decide (s = js "pro") then Some tt else None
  | Absent => Some tt
  end ≫= fun _ =>
  match f_interval v with
  | Other => None
  | Str s => if decide (s = js "yearly") then Some true
             else if decide (s = js "monthly") then Some false else None
  | Absent => Some false
  end.

(** [/^[^\s@]+@[^\s@]+\.[^\s@]+$/]: one at sign, no space, and after it a dot
    with something on both sides. *)
Fixpoint take_while {A} (p : A -> bool) (l : list A) : list A :=
  match l with
  | [] => []
  | x :: l' => if p x then x :: take_while p l' else []
  end.

Definition email_shape (s : jstr) : bool :=
  let plain c := negb (is_space c) && negb (c =? 64) in
  let user := take_while plain s in
  match drop_while plain s with
  | 64 :: host =>
      negb (bool_decide (user = [])) && forallb plain host
      && existsb (fun n => (1 <=? n)%nat && (S n <? length host)%nat
                           && bool_decide (host !! n = Some 46)) (seq 0 (length host))
  | _ => false
  end.

(** ** Unicode *)

Class Unicode := {
  (** [normalize("NFKD")], [toLowerCase], and [localeCompare]. *)
  normalize_nfkd : jstr -> jstr;
  toLowerCase : jstr -> jstr;
  localeCompare : jstr -> jstr -> Z;
}.

(** What they do to ASCII. *)
Fixpoint compare_units (a b : jstr) : Z :=
  match a, b with
  | [], [] => 0
  | [], _ => -1
  | _, [] => 1
  | x :: a', y :: b' => if x <? y then -1 else if y <? x then 1 else compare_units a' b'
  end.

#[export] Instance ascii_unicode : Unicode := {
  normalize_nfkd := fun s => s;
  toLowerCase := map lower_ascii;
  localeCompare := compare_units;
}.

Section Unicode.
Context `{!Unicode}.

Definition LookupBody (v : Fields) : option jstr :=
  match f_email v with
  | Str s =>
      let s := trim s in
      if (3 <=? len s) && (len s <=? 320) && email_shape s
      then Some (toLowerCase s) else None
  | _ => None
  end.

Definition slug_char (c : Z) : bool :=
  ((97 <=? c) && (c <=? 122)) || ((48 <=? c) && (c <=? 57)).

(** [replace(/[^a-z0-9]+/g, "-")]; [within] while inside a run already
    replaced. *)
Fixpoint dash_runs (within : bool) (s : jstr) : jstr :=
  match s with
  | [] => []
  | c :: s' =>
      if slug_char c then c :: dash_runs false s'
      else if within then dash_runs true s' else 45 :: dash_runs true s'
  end.

Definition slugify (name : jstr) : jstr :=
  let s := normalize_nfkd name in
  let s := filter (fun c => negb ((768 <=? c) && (c <=? 879)) = true) s in
  let s := dash_runs false (toLowerCase s) in
  let s := strip_end (Z.eqb 45) (drop_while (Z.eqb 45) s) in
  let slug := slice 0 48 s in
  if decide (slug = []) then js "server" else slug.
End Unicode.

Example zoe : slugify (js "  Zo's MacBook (2) ") = js "zo-s-macbook-2". Proof. reflexivity. Qed.
Example no_name : slugify (js "!!!") = js "server". Proof. reflexivity. Qed.
