(* ===== verification/Mailbox.v ===== *)
(** * Mailbox: the broker's pending pairings

    [apps/api/src/mailbox.ts].  A [Mailbox] or [Claim] object outlives its
    entry in the store: a socket's handler keeps the reference it was given.
    [boxes] and [claimObjs] are therefore the heap of every object ever made
    (an object's reference is its id, which [id()] draws afresh), while
    [mailboxes], [claims] and [bySlot] are the three maps of the closure.
    A sink is the socket it writes to; what it writes is appended to [sent].
    The random ids are arguments of the operations that draw them. *)

From S2P Require Import Prelude Protocol.

Definition MAILBOX_TTL_MS : Z := 3 * 60 * 1000.
Definition MAX_MAILBOXES_PER_SLOT : Z := MAX_PEERS_PER_SLOT.
Definition MAX_LIVE_MAILBOXES : Z := 10000.
Definition CLAIM_ATTACH_TTL_MS : Z := 15 * 1000.
Definition MAX_PENDING : nat := 16.

Record Mailbox := mkMailbox {
  mb_id : string;
  mb_slot : string;
  mb_createdAt : Z;
  mb_expiresAt : Z;
  mb_claimedBy : option string;
  mb_peer : option string;
  mb_sink : option sock;
  mb_pending : list PairingServerMessage;
}.

Record Claim := mkClaim {
  cl_id : string;
  cl_slot : string;
  cl_createdAt : Z;
  cl_expiresAt : Z;
  cl_sink : option sock;
  cl_pending : list PairingServerMessage;
  (** peer handle and mailbox id, in insertion order *)
  cl_peers : list (string * string);
}.

Record MailboxStore := mkStore {
  boxes : gmap string Mailbox;
  claimObjs : gmap string Claim;
  mailboxes : gset string;
  claims : gset string;
  bySlot : gmap string (list string);
  sent : list output;
}.

(** ** Field updates *)

Definition mb_with_claim (c peer : string) (m : Mailbox) : Mailbox :=
  mkMailbox (mb_id m) (mb_slot m) (mb_createdAt m) (mb_expiresAt m)
    (Some c) (Some peer) (mb_sink m) (mb_pending m).
Definition mb_with_sink (s : option sock) (p : list PairingServerMessage) (m : Mailbox) : Mailbox :=
  mkMailbox (mb_id m) (mb_slot m) (mb_createdAt m) (mb_expiresAt m)
    (mb_claimedBy m) (mb_peer m) s p.
Definition cl_with_sink (s : option sock) (p : list PairingServerMessage) (c : Claim) : Claim :=
  mkClaim (cl_id c) (cl_slot c) (cl_createdAt c) (cl_expiresAt c) s p (cl_peers c).
Definition cl_with_expires (e : Z) (c : Claim) : Claim :=
  mkClaim (cl_id c) (cl_slot c) (cl_createdAt c) e (cl_sink c) (cl_pending c) (cl_peers c).
Definition cl_with_peers (ps : list (string * string)) (c : Claim) : Claim :=
  mkClaim (cl_id c) (cl_slot c) (cl_createdAt c) (cl_expiresAt c) (cl_sink c)
    (cl_pending c) ps.

Definition set_boxes (b : gmap string Mailbox) (st : MailboxStore) : MailboxStore :=
  mkStore b (claimObjs st) (mailboxes st) (claims st) (bySlot st) (sent st).
Definition set_claimObjs (b : gmap string Claim) (st : MailboxStore) : MailboxStore :=
  mkStore (boxes st) b (mailboxes st) (claims st) (bySlot st) (sent st).
Definition set_mailboxes (b : gset string) (st : MailboxStore) : MailboxStore :=
  mkStore (boxes st) (claimObjs st) b (claims st) (bySlot st) (sent st).
Definition set_claims (b : gset string) (st : MailboxStore) : MailboxStore :=
  mkStore (boxes st) (claimObjs st) (mailboxes st) b (bySlot st) (sent st).
Definition set_bySlot (b : gmap string (list string)) (st : MailboxStore) : MailboxStore :=
  mkStore (boxes st) (claimObjs st) (mailboxes st) (claims st) b (sent st).

(** [socket.send] and [socket.close]: append to what has been written. *)
Definition emit (os : list output) (st : MailboxStore) : MailboxStore :=
  mkStore (boxes st) (claimObjs st) (mailboxes st) (claims st) (bySlot st) (sent st ++ os).

(** [mailboxes.get(id)] and [claims.get(id)]. *)
Definition lookup_mailbox (st : MailboxStore) (id : string) : option Mailbox :=
  if decide (id ∈ mailboxes st) then boxes st !! id else None.
Definition lookup_claim (st : MailboxStore) (id : string) : option Claim :=
  if decide (id ∈ claims st) then claimObjs st !! id else None.

(** ** The operations *)

Definition createMailboxStore : MailboxStore := mkStore ∅ ∅ ∅ ∅ ∅ [].

Definition is_expired (expiresAt now : Z) : bool := expiresAt <=? now.

Definition removeMailbox (id : string) (st : MailboxStore) : MailboxStore :=
  match lookup_mailbox st id with
  | None => st
  | Some mailbox =>
      let st := set_mailboxes (mailboxes st ∖ {[id]}) st in
      match bySlot st !! mb_slot mailbox with
      | None => st
      | Some slotSet =>
          let slotSet := filter (fun x => x <> id) slotSet in
          set_bySlot (if decide (slotSet = []) then delete (mb_slot mailbox) (bySlot st)
                      else <[mb_slot mailbox := slotSet]> (bySlot st)) st
      end
  end.

(** The loop of [createMailbox] and of [liveMailboxesForSlot] over a copy of
    the slot's ids: dead entries are removed, live ones collected in order. *)
Fixpoint expire_slot (ids : list string) (now : Z) (st : MailboxStore)
    : list Mailbox * MailboxStore :=
  match ids with
  | [] => ([], st)
  | mailboxId :: ids =>
      match lookup_mailbox st mailboxId with
      | Some existing =>
          if is_expired (mb_expiresAt existing) now
          then expire_slot ids now (removeMailbox mailboxId st)
          else let '(live, st) := expire_slot ids now st in (existing :: live, st)
      | None => expire_slot ids now (removeMailbox mailboxId st)
      end
  end.

(** Open a mailbox on a slot under the fresh id [newId], or [None] when the
    slot or the store is full. *)
Definition createMailbox (ttlMs : Z) (slot newId : string) (now : Z) (st : MailboxStore)
    : option Mailbox * MailboxStore :=
  let '(live, st) := expire_slot (default [] (bySlot st !! slot)) now st in
  let liveOnSlot := Z.of_nat (length live) in
  if MAX_MAILBOXES_PER_SLOT <=? liveOnSlot then (None, st)
  else if MAX_LIVE_MAILBOXES <=? Z.of_nat (size (mailboxes st)) then (None, st)
  else
    let mailbox := mkMailbox newId slot now (now + ttlMs) None None None [] in
    let st := set_boxes (<[newId := mailbox]> (boxes st)) st in
    let st := set_mailboxes ({[newId]} ∪ mailboxes st) st in
    let slotSet := default [] (bySlot st !! slot) in
    let slotSet := if decide (newId ∈ slotSet) then slotSet else slotSet ++ [newId] in
    (Some mailbox, set_bySlot (<[slot := slotSet]> (bySlot st)) st).

Definition getMailbox (id : string) (now : Z) (st : MailboxStore)
    : option Mailbox * MailboxStore :=
  match lookup_mailbox st id with
  | None => (None, st)
  | Some mailbox =>
      if is_expired (mb_expiresAt mailbox) now then (None, removeMailbox id st)
      else (Some mailbox, st)
  end.

(** Every mailbox on a slot that is live and unclaimed. *)
Definition liveMailboxesForSlot (slot : string) (now : Z) (st : MailboxStore)
    : list Mailbox * MailboxStore :=
  match bySlot st !! slot with
  | None => ([], st)
  | Some slotSet =>
      let '(live, st) := expire_slot slotSet now st in
      (filter (fun m => mb_claimedBy m = None) live, st)
  end.

(** Spend the guess: bind a mailbox to a claim, once and only once. *)
Definition claimMailbox (mailboxId claimId peer : string) (st : MailboxStore)
    : bool * MailboxStore :=
  match boxes st !! mailboxId with
  | Some mailbox =>
      match mb_claimedBy mailbox with
      | Some _ => (false, st)
      | None =>
          (true, set_boxes (<[mailboxId := mb_with_claim claimId peer mailbox]> (boxes st)) st)
      end
  | None => (false, st)
  end.

Definition destroyMailbox := removeMailbox.

Definition createClaim (slot newId : string) (now : Z) (st : MailboxStore)
    : Claim * MailboxStore :=
  let claim := mkClaim newId slot now (now + CLAIM_ATTACH_TTL_MS) None [] [] in
  (claim, set_claims ({[newId]} ∪ claims st)
            (set_claimObjs (<[newId := claim]> (claimObjs st)) st)).

Definition getClaim (id : string) (now : Z) (st : MailboxStore)
    : option Claim * MailboxStore :=
  match lookup_claim st id with
  | None => (None, st)
  | Some claim =>
      if is_expired (cl_expiresAt claim) now
      then (None, set_claims (claims st ∖ {[id]}) st)
      else (Some claim, st)
  end.

Definition extendClaim (ttlMs : Z) (claimId : string) (now : Z) (st : MailboxStore)
    : MailboxStore :=
  set_claimObjs (alter (cl_with_expires (now + ttlMs)) claimId (claimObjs st)) st.

Definition destroyClaim (id : string) (st : MailboxStore) : MailboxStore :=
  set_claims (claims st ∖ {[id]}) st.

(** [deliver(target, message)] on a mailbox and on a claim: send, or buffer
    until the socket attaches. *)
Definition deliver_mailbox (id : string) (message : PairingServerMessage)
    (st : MailboxStore) : MailboxStore :=
  match boxes st !! id with
  | None => st
  | Some m =>
      match mb_sink m with
      | Some s => emit [SendPair s message] st
      | None =>
          if decide (length (mb_pending m) < MAX_PENDING)%nat
          then set_boxes (<[id := mb_with_sink None (mb_pending m ++ [message]) m]> (boxes st)) st
          else st
      end
  end.

Definition deliver_claim (id : string) (message : PairingServerMessage)
    (st : MailboxStore) : MailboxStore :=
  match claimObjs st !! id with
  | None => st
  | Some c =>
      match cl_sink c with
      | Some s => emit [SendPair s message] st
      | None =>
          if decide (length (cl_pending c) < MAX_PENDING)%nat
          then set_claimObjs (<[id := cl_with_sink None (cl_pending c ++ [message]) c]> (claimObjs st)) st
          else st
      end
  end.

(** [attach(target, sink)]: set the sink and flush what was buffered. *)
Definition attach_mailbox (id : string) (s : sock) (st : MailboxStore) : MailboxStore :=
  match boxes st !! id with
  | None => st
  | Some m =>
      emit (map (SendPair s) (mb_pending m))
        (set_boxes (<[id := mb_with_sink (Some s) [] m]> (boxes st)) st)
  end.

Definition attach_claim (id : string) (s : sock) (st : MailboxStore) : MailboxStore :=
  match claimObjs st !! id with
  | None => st
  | Some c =>
      emit (map (SendPair s) (cl_pending c))
        (set_claimObjs (<[id := cl_with_sink (Some s) [] c]> (claimObjs st)) st)
  end.

(** [mailbox.sink = null], written by the mailbox socket's [close]. *)
Definition clear_sink (id : string) (st : MailboxStore) : MailboxStore :=
  set_boxes (alter (fun m => mb_with_sink None (mb_pending m) m) id (boxes st)) st.

(** [claim.peers.set(peer, id)] and [claim.peers.delete(peer)] on the object. *)
Definition set_peer (claimId peer mailboxId : string) (st : MailboxStore) : MailboxStore :=
  set_claimObjs (alter (fun c => cl_with_peers (assoc_set peer mailboxId (cl_peers c)) c)
                   claimId (claimObjs st)) st.
Definition delete_peer (claimId peer : string) (st : MailboxStore) : MailboxStore :=
  set_claimObjs (alter (fun c => cl_with_peers (assoc_del peer (cl_peers c)) c)
                   claimId (claimObjs st)) st.

Definition removeAll (ids : list string) (st : MailboxStore) : MailboxStore :=
  foldr removeMailbox st ids.

Definition mailbox_dead (now : Z) (st : MailboxStore) (id : string) : bool :=
  match boxes st !! id with
  | Some m => is_expired (mb_expiresAt m) now
  | None => false
  end.
Definition claim_dead (now : Z) (st : MailboxStore) (id : string) : bool :=
  match claimObjs st !! id with
  | Some c => is_expired (cl_expiresAt c) now
  | None => false
  end.

(** [sweep(now)]: expire mailboxes, then claims. *)
Definition sweep (now : Z) (st : MailboxStore) : MailboxStore :=
  let dead := filter (fun id => mailbox_dead now st id = true) (elements (mailboxes st)) in
  let st := removeAll dead st in
  set_claims (filter (fun id => claim_dead now st id = false) (claims st)) st.

Definition stats (st : MailboxStore) : Z * Z :=
  (Z.of_nat (size (mailboxes st)), Z.of_nat (size (claims st))).

(** ** What one operation may do to a mailbox object

    [mb_evolves m m']: identity, slot and deadlines are fixed, and a claim
    once written is never rewritten. *)
Definition mb_evolves (m m' : Mailbox) : Prop :=
  mb_id m' = mb_id m /\ mb_slot m' = mb_slot m /\
  mb_createdAt m' = mb_createdAt m /\ mb_expiresAt m' = mb_expiresAt m /\
  (forall c, mb_claimedBy m = Some c ->
     mb_claimedBy m' = Some c /\ mb_peer m' = mb_peer m).

(** [store_le st st']: objects evolve, a destroyed mailbox stays destroyed,
    and what has been sent stays sent. *)
Record store_le (st st' : MailboxStore) : Prop := mkLe {
  le_box : forall id m, boxes st !! id = Some m ->
    exists m', boxes st' !! id = Some m' /\ mb_evolves m m' /\
               (id ∉ mailboxes st -> id ∉ mailboxes st');
  le_sent : sent st `prefix_of` sent st';
}.

#[export] Instance mb_evolves_preorder : PreOrder mb_evolves.
Proof.
  split; [by intros m; repeat split|].
  intros a b c (?&?&?&?&Hab) (?&?&?&?&Hbc). do 4 (split; [congruence|]).
  intros cid Hc. destruct (Hab _ Hc) as [Hb <-]. by apply Hbc.
Qed.

#[export] Instance store_le_preorder : PreOrder store_le.
Proof.
  split.
  - intros st. split; [|done]. intros id m Hm. exists m. by repeat split.
  - intros a b c [Hab Sab] [Hbc Sbc]. split; [|by etrans].
    intros id m Hm. destruct (Hab _ _ Hm) as (m' & Hm' & He & Hd).
    destruct (Hbc _ _ Hm') as (m'' & Hm'' & He' & Hd').
    exists m''. split; [done|]. split; [by etrans|]. auto.
Qed.

(** Updating one object in place. *)
Lemma store_le_update st id f :
  (forall m, boxes st !! id = Some m -> mb_evolves m (f m)) ->
  store_le st (set_boxes (alter f id (boxes st)) st).
Proof.
  intros Hf. split; [|done]. intros id' m Hm. simpl.
  rewrite lookup_alter. case_decide; subst.
  - rewrite Hm. simpl. exists (f m). split; [done|]. split; [by apply Hf|done].
  - exists m. by rewrite Hm.
Qed.

Lemma store_le_insert st id m m' :
  boxes st !! id = Some m -> mb_evolves m m' ->
  store_le st (set_boxes (<[id := m']> (boxes st)) st).
Proof.
  intros Hm He. split; [|done]. intros id' m0 Hm0. simpl.
  destruct (decide (id = id')) as [->|Hne].
  - rewrite lookup_insert_eq. simplify_eq. by exists m'.
  - rewrite lookup_insert_ne by done. by exists m0.
Qed.

Lemma store_le_same st st' :
  boxes st' = boxes st -> mailboxes st' ⊆ mailboxes st ->
  sent st `prefix_of` sent st' -> store_le st st'.
Proof.
  intros Hb Hm Hs. split; [|done]. rewrite Hb.
  intros id m Hid. exists m. split; [done|]. split; [done|]. set_solver.
Qed.

Lemma emit_le os st : store_le st (emit os st).
Proof. apply store_le_same; [done|done|]. by apply prefix_app_r. Qed.

Lemma removeMailbox_frame id st :
  boxes (removeMailbox id st) = boxes st /\
  claimObjs (removeMailbox id st) = claimObjs st /\
  claims (removeMailbox id st) = claims st /\
  sent (removeMailbox id st) = sent st /\
  mailboxes (removeMailbox id st) ⊆ mailboxes st.
Proof. unfold removeMailbox. repeat case_match; simpl; repeat split; try done; apply subseteq_difference_l; done. Qed.

Lemma removeMailbox_le id st : store_le st (removeMailbox id st).
Proof.
  destruct (removeMailbox_frame id st) as (Hb & _ & _ & Hs & Hm).
  apply store_le_same; [done|done|]. by rewrite Hs.
Qed.

Lemma expire_slot_le ids now st : store_le st (expire_slot ids now st).2.
Proof.
  revert st. induction ids as [|id ids IH]; intros st; [done|]. simpl.
  repeat case_match; simpl.
  - etrans; [apply removeMailbox_le|apply IH].
  - specialize (IH st). by destruct (expire_slot ids now st); simplify_eq.
  - etrans; [apply removeMailbox_le|apply IH].
Qed.

Lemma expire_slot_boxes ids now st : boxes (expire_slot ids now st).2 = boxes st.
Proof.
  revert st. induction ids as [|id ids IH]; intros st; [done|]. simpl.
  repeat case_match; simpl; rewrite ?IH.
  - by destruct (removeMailbox_frame id st).
  - specialize (IH st). by destruct (expire_slot ids now st); simplify_eq.
  - by destruct (removeMailbox_frame id st).
Qed.

Lemma createMailbox_le ttl slot newId now st :
  boxes st !! newId = None -> store_le st (createMailbox ttl slot newId now st).2.
Proof.
  intros Hfresh. unfold createMailbox.
  pose proof (expire_slot_le (default [] (bySlot st !! slot)) now st) as Hle.
  pose proof (expire_slot_boxes (default [] (bySlot st !! slot)) now st) as Hb.
  destruct (expire_slot _ now st) as [live st']. simpl in *.
  case_match; [done|]; case_match; [done|]. simpl. etrans; [exact Hle|].
  split; [|done]. simpl. intros id m Hm. rewrite Hb in *. exists m.
  assert (newId <> id) by congruence.
  rewrite lookup_insert_ne by done. split; [done|]. split; [done|].
  destruct Hle as [Hle _]. destruct (Hle id m Hm) as (_ & _ & _ & Hd).
  rewrite elem_of_union, elem_of_singleton. naive_solver.
Qed.

Lemma getMailbox_le id now st : store_le st (getMailbox id now st).2.
Proof. unfold getMailbox. repeat case_match; try done. apply removeMailbox_le. Qed.

Lemma liveMailboxesForSlot_le slot now st :
  store_le st (liveMailboxesForSlot slot now st).2.
Proof.
  unfold liveMailboxesForSlot. destruct (bySlot st !! slot) as [ids|]; [|done].
  pose proof (expire_slot_le ids now st) as Hle. by destruct (expire_slot ids now st).
Qed.

Lemma claimMailbox_le id c p st : store_le st (claimMailbox id c p st).2.
Proof.
  unfold claimMailbox. repeat case_match; try done. simpl.
  eapply store_le_insert; [done|]. repeat split; simpl; congruence.
Qed.

Lemma set_claimObjs_le b st : store_le st (set_claimObjs b st).
Proof. by apply store_le_same. Qed.
Lemma set_claims_le b st : store_le st (set_claims b st).
Proof. by apply store_le_same. Qed.

Lemma getClaim_le id now st : store_le st (getClaim id now st).2.
Proof. unfold getClaim. repeat case_match; try done. apply set_claims_le. Qed.

Lemma mb_evolves_sink s p m : mb_evolves m (mb_with_sink s p m).
Proof. by repeat split. Qed.

Lemma deliver_mailbox_le id msg st : store_le st (deliver_mailbox id msg st).
Proof.
  unfold deliver_mailbox. repeat case_match; try done; [apply emit_le|].
  eapply store_le_insert; [done|apply mb_evolves_sink].
Qed.

Lemma deliver_claim_le id msg st : store_le st (deliver_claim id msg st).
Proof.
  unfold deliver_claim. repeat case_match; try done;
    [apply emit_le|apply set_claimObjs_le].
Qed.

Lemma attach_mailbox_le id s st : store_le st (attach_mailbox id s st).
Proof.
  unfold attach_mailbox. case_match; [|done]. etrans; [|apply emit_le].
  eapply store_le_insert; [done|apply mb_evolves_sink].
Qed.

Lemma attach_claim_le id s st : store_le st (attach_claim id s st).
Proof.
  unfold attach_claim. case_match; [|done].
  etrans; [|apply emit_le]. apply set_claimObjs_le.
Qed.

Lemma clear_sink_le id st : store_le st (clear_sink id st).
Proof. apply store_le_update. intros m _. apply mb_evolves_sink. Qed.

Lemma removeAll_le ids st : store_le st (removeAll ids st).
Proof.
  induction ids as [|id ids IH]; [done|]. simpl.
  etrans; [exact IH|apply removeMailbox_le].
Qed.

Lemma sweep_le now st : store_le st (sweep now st).
Proof. unfold sweep. etrans; [apply removeAll_le|apply set_claims_le]. Qed.

#[export] Hint Resolve emit_le removeMailbox_le createMailbox_le getMailbox_le
  liveMailboxesForSlot_le claimMailbox_le set_claimObjs_le set_claims_le
  getClaim_le deliver_mailbox_le deliver_claim_le attach_mailbox_le
  attach_claim_le clear_sink_le sweep_le : mtmux.

(** ** The store's invariant

    The three maps agree with each other and with the objects, no slot holds
    more than [MAX_MAILBOXES_PER_SLOT] mailboxes and the store no more than
    [MAX_LIVE_MAILBOXES]. *)
Record store_wf (st : MailboxStore) : Prop := mkWf {
  wf_id : forall id m, boxes st !! id = Some m -> mb_id m = id;
  wf_live : forall id, id ∈ mailboxes st -> exists m ids,
    boxes st !! id = Some m /\ bySlot st !! mb_slot m = Some ids /\ id ∈ ids;
  wf_slot : forall slot ids, bySlot st !! slot = Some ids ->
    ids <> [] /\ NoDup ids /\ Z.of_nat (length ids) <= MAX_MAILBOXES_PER_SLOT /\
    (forall id, id ∈ ids ->
       id ∈ mailboxes st /\ exists m, boxes st !! id = Some m /\ mb_slot m = slot);
  wf_total : Z.of_nat (size (mailboxes st)) <= MAX_LIVE_MAILBOXES;
}.

Definition box_keys (st : MailboxStore) : gmap string (string * string) :=
  (fun m => (mb_id m, mb_slot m)) <$> boxes st.

Lemma box_keys_lookup st st' id m :
  box_keys st' = box_keys st -> boxes st' !! id = Some m ->
  exists m0, boxes st !! id = Some m0 /\ mb_id m0 = mb_id m /\ mb_slot m0 = mb_slot m.
Proof.
  intros Hk Hm. apply (f_equal (fun k => k !! id)) in Hk.
  unfold box_keys in Hk. rewrite !lookup_fmap, Hm in Hk.
  destruct (boxes st !! id) as [m0|]; simplify_eq/=. by exists m0.
Qed.

(** An operation that touches no map and no object's id or slot. *)
Lemma store_wf_frame st st' :
  store_wf st -> mailboxes st' = mailboxes st -> bySlot st' = bySlot st ->
  box_keys st' = box_keys st -> store_wf st'.
Proof.
  intros [Hid Hlive Hslot Htot] Hm Hs Hk. split; rewrite ?Hm, ?Hs.
  - intros id m Hb. destruct (box_keys_lookup _ _ _ _ Hk Hb) as (m0&Hm0&<-&_).
    by apply Hid.
  - intros id Hin. destruct (Hlive id Hin) as (m & ids & Hb & Hids & Hel).
    destruct (box_keys_lookup st' st id m) as (m' & Hm' & _ & Hsl); [done|done|].
    exists m', ids. by rewrite Hsl.
  - intros slot ids Hids. destruct (Hslot slot ids Hids) as (Hne & Hnd & Hlen & Hall).
    repeat (split; [done|]). intros id Hin.
    destruct (Hall id Hin) as (Hml & m & Hb & <-). split; [done|].
    destruct (box_keys_lookup st' st id m) as (m' & Hm' & _ & Hsl); [done|done|].
    by exists m'.
  - done.
Qed.

Lemma box_keys_update st id m m' :
  boxes st !! id = Some m -> mb_id m' = mb_id m -> mb_slot m' = mb_slot m ->
  box_keys (set_boxes (<[id := m']> (boxes st)) st) = box_keys st.
Proof.
  intros Hm Hi Hs. unfold box_keys. simpl. rewrite fmap_insert, Hi, Hs.
  apply insert_id. by rewrite lookup_fmap, Hm.
Qed.

Lemma store_wf_insert st id m m' :
  store_wf st -> boxes st !! id = Some m -> mb_id m' = mb_id m ->
  mb_slot m' = mb_slot m -> store_wf (set_boxes (<[id := m']> (boxes st)) st).
Proof.
  intros Hwf Hm Hi Hs. eapply store_wf_frame; [done|done|done|].
  by eapply box_keys_update.
Qed.

Lemma store_wf_set_claimObjs b st : store_wf st -> store_wf (set_claimObjs b st).
Proof. intros Hwf. by apply (store_wf_frame st). Qed.
Lemma store_wf_set_claims b st : store_wf st -> store_wf (set_claims b st).
Proof. intros Hwf. by apply (store_wf_frame st). Qed.
Lemma store_wf_emit os st : store_wf st -> store_wf (emit os st).
Proof. intros Hwf. by apply (store_wf_frame st). Qed.

Lemma createMailboxStore_wf : store_wf createMailboxStore.
Proof.
  split; simpl; try done.
Qed.

(** Under the invariant, removal is exact. *)
Lemma removeMailbox_mailboxes id st :
  store_wf st -> mailboxes (removeMailbox id st) = mailboxes st ∖ {[id]}.
Proof.
  intros Hwf. unfold removeMailbox, lookup_mailbox.
  destruct (decide (id ∈ mailboxes st)) as [Hin|Hin]; [|set_solver].
  destruct (wf_live st Hwf id Hin) as (m & ids & -> & Hids & _).
  simpl. by rewrite Hids.
Qed.

Lemma filter_length_le {A} (P : A -> Prop) `{!forall x, Decision (P x)} l n :
  Z.of_nat (length l) <= n -> Z.of_nat (length (filter P l)) <= n.
Proof. pose proof (length_filter P l). lia. Qed.

(** A live mailbox other than the removed one keeps its place. *)
Lemma removeMailbox_live id st id' :
  store_wf st -> id' ∈ mailboxes st -> id' <> id ->
  exists m ids, boxes st !! id' = Some m /\
    bySlot (removeMailbox id st) !! mb_slot m = Some ids /\ id' ∈ ids.
Proof.
  intros [_ Hlive _ _] Hin Hne. destruct (Hlive id' Hin) as (m' & ids' & Hb' & Hs' & Hel).
  exists m'. unfold removeMailbox, lookup_mailbox. case_decide as Hd; [|by exists ids'].
  destruct (Hlive id Hd) as (m & ids & Hbm & Hs & Hel0). rewrite Hbm. simpl. rewrite Hs. simpl.
  destruct (decide (mb_slot m = mb_slot m')) as [Heq|Hneq].
  - rewrite Heq, Hs' in Hs. simplify_eq. rewrite Heq.
    assert (id' ∈ filter (fun x => x <> id) ids) as Hf by (by apply list_elem_of_filter).
    case_decide as Hnil; [rewrite Hnil in Hf; by apply not_elem_of_nil in Hf|].
    rewrite lookup_insert_eq. by eexists.
  - exists ids'. split; [done|]. split; [|done].
    case_decide; [by rewrite lookup_delete_ne|by rewrite lookup_insert_ne].
Qed.

(** A slot's ids, all live but [id]. *)
Definition slot_without (id : string) (st : MailboxStore) (slot : string) (ids : list string) : Prop :=
  ids <> [] /\ NoDup ids /\ Z.of_nat (length ids) <= MAX_MAILBOXES_PER_SLOT /\
  (forall id0, id0 ∈ ids -> id0 ∈ mailboxes st ∖ {[id]} /\
     exists m, boxes st !! id0 = Some m /\ mb_slot m = slot).

Lemma slot_without_other id st slot ids :
  store_wf st -> bySlot st !! slot = Some ids ->
  (id ∉ mailboxes st \/ exists m, boxes st !! id = Some m /\ mb_slot m <> slot) ->
  slot_without id st slot ids.
Proof.
  intros [_ _ Hslot _] Hs Hor. destruct (Hslot _ _ Hs) as (?&?&?&Hall).
  repeat (split; [done|]). intros id0 Hid0.
  destruct (Hall _ Hid0) as (Hin0 & m0 & Hm0 & Hsl0). split; [|by exists m0].
  apply elem_of_difference. split; [done|]. rewrite not_elem_of_singleton. intros ->.
  destruct Hor as [?|(m & Hm & ?)]; [done|]. congruence.
Qed.

Lemma removeMailbox_slot id st slot ids :
  store_wf st -> bySlot (removeMailbox id st) !! slot = Some ids -> slot_without id st slot ids.
Proof.
  intros Hwf Hs'. pose proof Hwf as [_ Hlive Hslot _]. unfold removeMailbox, lookup_mailbox in Hs'.
  destruct (decide (id ∈ mailboxes st)) as [Hd|Hd]; [|by apply slot_without_other; [|..|left]].
  destruct (Hlive id Hd) as (m & ids0 & Hbm & Hs & Hel0). rewrite Hbm in Hs'. simpl in Hs'.
  rewrite Hs in Hs'. simpl in Hs'.
  destruct (decide (mb_slot m = slot)) as [<-|Hneq].
  2:{ apply slot_without_other; [done| |right; by exists m].
      case_decide; [by rewrite lookup_delete_ne in Hs'|by rewrite lookup_insert_ne in Hs']. }
  case_decide; [by rewrite lookup_delete_eq in Hs'|].
  rewrite lookup_insert_eq in Hs'. simplify_eq.
  destruct (Hslot _ _ Hs) as (_ & Hnd & Hlen & Hall).
  split; [done|]. split; [by apply NoDup_filter|]. split; [by apply filter_length_le|].
  intros x [Hne Hx]%list_elem_of_filter. destruct (Hall _ Hx) as (Hin0 & Hm0).
  split; [|done]. by apply elem_of_difference; rewrite not_elem_of_singleton.
Qed.

Lemma removeMailbox_wf id st : store_wf st -> store_wf (removeMailbox id st).
Proof.
  intros Hwf. pose proof (removeMailbox_mailboxes id st Hwf) as Hml.
  destruct (removeMailbox_frame id st) as (Hb & _).
  split; rewrite ?Hb, ?Hml; clear Hml Hb.
  - apply Hwf.
  - intros id' [Hin Hne]%elem_of_difference. rewrite not_elem_of_singleton in Hne.
    by apply removeMailbox_live.
  - intros slot ids Hs. by apply (removeMailbox_slot id st).
  - pose proof (wf_total st Hwf). assert (size (mailboxes st ∖ {[id]}) <= size (mailboxes st))%nat
      by (apply subseteq_size; set_solver). lia.
Qed.

Lemma expire_slot_wf ids now st : store_wf st -> store_wf (expire_slot ids now st).2.
Proof.
  revert st. induction ids as [|id ids IH]; intros st Hwf; [done|]. simpl.
  destruct (lookup_mailbox st id) as [m|]; [|by apply IH, removeMailbox_wf].
  case_match; [by apply IH, removeMailbox_wf|].
  specialize (IH st Hwf). by destruct (expire_slot ids now st).
Qed.

(** ** The loop over a slot *)

(** Everything the loop returns is live in the store it leaves ... *)
Lemma expire_slot_sound ids now st m :
  store_wf st -> m ∈ (expire_slot ids now st).1 ->
  mb_id m ∈ ids /\ boxes st !! mb_id m = Some m /\ now < mb_expiresAt m /\
  mb_id m ∈ mailboxes st.
Proof.
  revert st. induction ids as [|id ids IH]; intros st Hwf; simpl;
    [by intros ?%not_elem_of_nil|].
  assert (m ∈ (expire_slot ids now (removeMailbox id st)).1 ->
    mb_id m ∈ id :: ids /\ boxes st !! mb_id m = Some m /\ now < mb_expiresAt m /\
    mb_id m ∈ mailboxes st) as Hrm.
  { intros Hin. destruct (IH _ (removeMailbox_wf id st Hwf) Hin) as (?&Hb&?&Hm).
    destruct (removeMailbox_frame id st) as (Hbe&_&_&_&Hsub). rewrite Hbe in Hb.
    split; [by right|]. split; [done|]. split; [done|]. by apply Hsub. }
  destruct (lookup_mailbox st id) as [e|] eqn:He; [|done].
  case_match eqn:Hexp; [done|].
  specialize (IH st Hwf). destruct (expire_slot ids now st) as [live st'].
  simpl in *. intros [->|Hin]%elem_of_cons.
  - unfold lookup_mailbox in He. case_decide; [|done].
    rewrite (wf_id st Hwf _ _ He). repeat split; [left|done| |done].
    unfold is_expired in Hexp. lia.
  - destruct (IH Hin) as (?&?&?&?). repeat split; try done. by right.
Qed.

(** ... and everything it leaves in the store, it returns. *)
Lemma expire_slot_complete ids now st id :
  store_wf st -> id ∈ ids -> id ∈ mailboxes (expire_slot ids now st).2 ->
  id ∈ map mb_id (expire_slot ids now st).1.
Proof.
  revert st. induction ids as [|id0 ids IH]; intros st Hwf; simpl;
    [by intros ?%not_elem_of_nil|].
  assert (id ∈ id0 :: ids ->
    id ∈ mailboxes (expire_slot ids now (removeMailbox id0 st)).2 ->
    id ∈ map mb_id (expire_slot ids now (removeMailbox id0 st)).1) as Hrm.
  { intros [->|Hin]%elem_of_cons Hml; [|by apply IH; [apply removeMailbox_wf| |]].
    exfalso.
    destruct (expire_slot_le ids now (removeMailbox id0 st)) as [Hle _].
    pose proof (expire_slot_wf ids now _ (removeMailbox_wf id0 st Hwf)) as Hwf'.
    destruct (wf_live _ Hwf' _ Hml) as (m & _ & Hb & _).
    rewrite expire_slot_boxes in Hb.
    destruct (Hle _ _ Hb) as (_ & _ & _ & Hd). apply Hd; [|done].
    rewrite removeMailbox_mailboxes by done. set_solver. }
  destruct (lookup_mailbox st id0) as [e|] eqn:He; [|done].
  case_match; [done|].
  specialize (IH st Hwf). destruct (expire_slot ids now st) as [live st'].
  simpl in *. intros [->|Hin]%elem_of_cons Hml; [|right; by apply IH].
  unfold lookup_mailbox in He. case_decide; [|done].
  rewrite (wf_id st Hwf _ _ He). left.
Qed.

(** After the loop the slot holds exactly the mailboxes it returned, so
    counting them counts the slot. *)
Lemma expire_slot_count slot now st :
  store_wf st ->
  let '(live, st') := expire_slot (default [] (bySlot st !! slot)) now st in
  (length (default [] (bySlot st' !! slot)) <= length live)%nat.
Proof.
  intros Hwf. set (ids := default [] (bySlot st !! slot)).
  pose proof (expire_slot_wf ids now st Hwf) as Hwf'.
  pose proof (expire_slot_boxes ids now st) as Hb.
  pose proof (expire_slot_complete ids now st) as Hc.
  pose proof (expire_slot_le ids now st) as [Hle _].
  destruct (expire_slot ids now st) as [live st'] eqn:Hrun. simpl in *.
  rewrite <- (length_map mb_id live).
  destruct (bySlot st' !! slot) as [ids'|] eqn:Hs'; simpl; [|lia].
  destruct (wf_slot _ Hwf' _ _ Hs') as (_ & Hnd & _ & Hall).
  apply submseteq_length, NoDup_submseteq; [done|].
  intros id Hid. destruct (Hall id Hid) as (Hml & m & Hm & Hsl).
  apply Hc; [done| |done]. rewrite Hb in Hm.
  destruct (decide (id ∈ mailboxes st)) as [Hin|Hin].
  - destruct (wf_live _ Hwf _ Hin) as (m' & ids0 & Hm' & Hs & Hel).
    simplify_eq. subst ids. by rewrite Hs.
  - exfalso. destruct (Hle _ _ Hm) as (_ & _ & _ & Hd). by apply Hd.
Qed.

(** The store with a fresh mailbox put on [slot]. *)
Definition with_new (m : Mailbox) (st : MailboxStore) : MailboxStore :=
  set_bySlot (<[mb_slot m := default [] (bySlot st !! mb_slot m) ++ [mb_id m]]> (bySlot st))
    (set_mailboxes ({[mb_id m]} ∪ mailboxes st)
       (set_boxes (<[mb_id m := m]> (boxes st)) st)).

Lemma fresh_not_live id st : store_wf st -> boxes st !! id = None -> id ∉ mailboxes st.
Proof. intros [_ Hlive _ _] Hn Hin. destruct (Hlive _ Hin) as (m & _ & Hm & _). congruence. Qed.

Lemma fresh_not_on_slot id slot st :
  store_wf st -> boxes st !! id = None -> id ∉ default [] (bySlot st !! slot).
Proof.
  intros Hwf Hn. destruct (bySlot st !! slot) as [ids|] eqn:Hs; simpl; [|by apply not_elem_of_nil].
  intros Hin. destruct (wf_slot st Hwf _ _ Hs) as (_&_&_&Hall).
  destruct (Hall _ Hin) as [Hl _]. by eapply fresh_not_live.
Qed.

Lemma with_new_slot m st slot ids :
  store_wf st -> boxes st !! mb_id m = None ->
  Z.of_nat (length (default [] (bySlot st !! mb_slot m))) < MAX_MAILBOXES_PER_SLOT ->
  bySlot (with_new m st) !! slot = Some ids ->
  ids <> [] /\ NoDup ids /\ Z.of_nat (length ids) <= MAX_MAILBOXES_PER_SLOT /\
  (forall id, id ∈ ids -> id ∈ mailboxes (with_new m st) /\
     exists m', boxes (with_new m st) !! id = Some m' /\ mb_slot m' = slot).
Proof.
  intros Hwf Hfresh Hcap. simpl.
  assert (forall slot ids id, bySlot st !! slot = Some ids -> id ∈ ids ->
    id ∈ {[mb_id m]} ∪ mailboxes st /\
    exists m', <[mb_id m := m]> (boxes st) !! id = Some m' /\ mb_slot m' = slot) as Hold.
  { intros s l id Hs Hel. destruct (wf_slot st Hwf _ _ Hs) as (_&_&_&Hall).
    destruct (Hall id Hel) as (Hm & m' & Hbm & Hsl). split; [apply elem_of_union; by right|].
    exists m'. by rewrite lookup_insert_ne by congruence. }
  destruct (decide (mb_slot m = slot)) as [<-|Hne].
  2:{ rewrite lookup_insert_ne by done. intros Hs.
      destruct (wf_slot st Hwf _ _ Hs) as (?&?&?&_). repeat (split; [done|]).
      intros id Hel. by eapply Hold. }
  rewrite lookup_insert_eq. intros Heq. simplify_eq.
  split; [by destruct (default [] _)|]. split; [|split].
  - apply NoDup_app. split.
    { destruct (bySlot st !! mb_slot m) as [ids|] eqn:Hs; [|constructor].
      by destruct (wf_slot st Hwf _ _ Hs) as (_&?&_). }
    split; [|apply NoDup_singleton]. intros x Hx ->%list_elem_of_singleton.
    by apply (fresh_not_on_slot (mb_id m) (mb_slot m) st).
  - rewrite length_app. simpl. lia.
  - intros id [Hel| ->%list_elem_of_singleton]%elem_of_app.
    + destruct (bySlot st !! mb_slot m) as [ids|] eqn:Hs; simpl in Hel;
        [by eapply Hold|by apply not_elem_of_nil in Hel].
    + split; [apply elem_of_union; left; by apply elem_of_singleton|].
      rewrite lookup_insert_eq. by eexists.
Qed.

Lemma with_new_wf m st :
  store_wf st -> boxes st !! mb_id m = None ->
  Z.of_nat (length (default [] (bySlot st !! mb_slot m))) < MAX_MAILBOXES_PER_SLOT ->
  Z.of_nat (size (mailboxes st)) < MAX_LIVE_MAILBOXES -> store_wf (with_new m st).
Proof.
  intros Hwf Hfresh Hcap Htot. pose proof Hwf as [Hid Hlive _ _]. split.
  - intros id m'. simpl. destruct (decide (mb_id m = id)) as [<-|Hne].
    + rewrite lookup_insert_eq. intros. by simplify_eq.
    + rewrite lookup_insert_ne by done. apply Hid.
  - simpl. intros id [->%elem_of_singleton|Hin]%elem_of_union.
    + rewrite lookup_insert_eq. eexists _, _. split; [done|]. simpl.
      rewrite lookup_insert_eq. split; [done|]. apply elem_of_app. right. left.
    + destruct (Hlive id Hin) as (m' & ids & Hm & Hs & Hel). exists m'.
      rewrite lookup_insert_ne by congruence.
      destruct (decide (mb_slot m' = mb_slot m)) as [Heq|Hne].
      * exists (ids ++ [mb_id m]). rewrite Heq, lookup_insert_eq, <- Heq, Hs. simpl.
        split; [done|]. split; [done|]. apply elem_of_app. by left.
      * exists ids. by rewrite lookup_insert_ne by done.
  - intros slot ids Hs. by apply (with_new_slot m st).
  - simpl. rewrite size_union by (by apply disjoint_singleton_l, fresh_not_live).
    rewrite size_singleton. lia.
Qed.

Lemma createMailbox_wf ttl slot newId now st :
  store_wf st -> boxes st !! newId = None ->
  store_wf (createMailbox ttl slot newId now st).2.
Proof.
  intros Hwf Hfresh. unfold createMailbox.
  pose proof (expire_slot_count slot now st Hwf) as Hcount.
  pose proof (expire_slot_boxes (default [] (bySlot st !! slot)) now st) as Hb.
  pose proof (expire_slot_wf (default [] (bySlot st !! slot)) now st Hwf) as Hwf'.
  destruct (expire_slot _ now st) as [live st']. simpl in *.
  rewrite <- Hb in Hfresh. clear Hb Hwf st.
  case_match eqn:Hcap; [done|]. case_match eqn:Htot; [done|]. simpl.
  rewrite decide_False by by apply fresh_not_on_slot.
  apply (with_new_wf (mkMailbox newId slot now (now + ttl) None None None []) st');
    simpl; [done|done|lia|lia].
Qed.

(** ** The invariant is preserved by every operation *)

Lemma getMailbox_wf id now st : store_wf st -> store_wf (getMailbox id now st).2.
Proof. unfold getMailbox. intros. repeat case_match; try done. by apply removeMailbox_wf. Qed.

Lemma liveMailboxesForSlot_wf slot now st :
  store_wf st -> store_wf (liveMailboxesForSlot slot now st).2.
Proof.
  intros Hwf. unfold liveMailboxesForSlot.
  destruct (bySlot st !! slot) as [ids|]; [|done].
  pose proof (expire_slot_wf ids now st Hwf) as Hwf'. by destruct (expire_slot ids now st).
Qed.

Lemma claimMailbox_wf id c p st : store_wf st -> store_wf (claimMailbox id c p st).2.
Proof.
  intros Hwf. unfold claimMailbox. repeat case_match; try done.
  by eapply store_wf_insert.
Qed.

Lemma createClaim_wf slot newId now st :
  store_wf st -> store_wf (createClaim slot newId now st).2.
Proof. intros Hwf. simpl. by apply store_wf_set_claims, store_wf_set_claimObjs. Qed.

Lemma getClaim_wf id now st : store_wf st -> store_wf (getClaim id now st).2.
Proof. unfold getClaim. intros. repeat case_match; try done. by apply store_wf_set_claims. Qed.

Lemma deliver_mailbox_wf id msg st : store_wf st -> store_wf (deliver_mailbox id msg st).
Proof.
  intros Hwf. unfold deliver_mailbox.
  repeat case_match; try done; [by apply store_wf_emit|by eapply store_wf_insert].
Qed.

Lemma deliver_claim_wf id msg st : store_wf st -> store_wf (deliver_claim id msg st).
Proof.
  intros Hwf. unfold deliver_claim.
  repeat case_match; try done; [by apply store_wf_emit|by apply store_wf_set_claimObjs].
Qed.

Lemma attach_mailbox_wf id s st : store_wf st -> store_wf (attach_mailbox id s st).
Proof.
  intros Hwf. unfold attach_mailbox. case_match; [|done].
  apply store_wf_emit. by eapply store_wf_insert.
Qed.

Lemma attach_claim_wf id s st : store_wf st -> store_wf (attach_claim id s st).
Proof.
  intros Hwf. unfold attach_claim. case_match; [|done].
  by apply store_wf_emit, store_wf_set_claimObjs.
Qed.

Lemma clear_sink_wf id st : store_wf st -> store_wf (clear_sink id st).
Proof.
  intros Hwf. unfold clear_sink. destruct (boxes st !! id) as [m|] eqn:Hm.
  - apply (store_wf_frame st); [done|done|done|]. unfold box_keys. simpl.
    apply map_eq. intros id'. rewrite !lookup_fmap, lookup_alter.
    case_decide; subst; [by rewrite Hm|done].
  - apply (store_wf_frame st); [done|done|done|]. unfold box_keys. simpl.
    apply map_eq. intros id'. rewrite !lookup_fmap, lookup_alter.
    case_decide; subst; [by rewrite Hm|done].
Qed.

Lemma removeAll_wf ids st : store_wf st -> store_wf (removeAll ids st).
Proof. intros Hwf. induction ids; [done|]. simpl. by apply removeMailbox_wf. Qed.

Lemma sweep_wf now st : store_wf st -> store_wf (sweep now st).
Proof. intros Hwf. by apply store_wf_set_claims, removeAll_wf. Qed.

#[export] Hint Resolve store_wf_emit store_wf_set_claims store_wf_set_claimObjs
  removeMailbox_wf createMailbox_wf getMailbox_wf liveMailboxesForSlot_wf
  claimMailbox_wf createClaim_wf getClaim_wf deliver_mailbox_wf deliver_claim_wf
  attach_mailbox_wf attach_claim_wf clear_sink_wf sweep_wf : mtmux.

(** ** Functional properties *)

Lemma expire_slot_keeps ids now st id m :
  boxes st !! id = Some m -> id ∈ mailboxes st -> now < mb_expiresAt m ->
  id ∈ mailboxes (expire_slot ids now st).2.
Proof.
  intros Hb Hin Hexp. revert st Hb Hin. induction ids as [|id0 ids IH]; intros st Hb Hin; [done|].
  simpl.
  assert (lookup_mailbox st id0 = None \/ id0 <> id ->
    id ∈ mailboxes (expire_slot ids now (removeMailbox id0 st)).2) as Hrm.
  { intros Hor. destruct (removeMailbox_frame id0 st) as (Hbe&_).
    apply IH; [by rewrite Hbe|]. unfold removeMailbox.
    destruct (lookup_mailbox st id0) as [e|] eqn:He; [|done].
    destruct Hor as [|Hne]; [done|].
    case_match; simpl; apply elem_of_difference; rewrite not_elem_of_singleton; auto. }
  destruct (lookup_mailbox st id0) as [e|] eqn:He; [|by apply Hrm; left].
  case_match eqn:Hx.
  - apply Hrm. right. intros ->. unfold lookup_mailbox in He.
    rewrite decide_True in He by done. simplify_eq. unfold is_expired in Hx. lia.
  - specialize (IH st Hb Hin). by destruct (expire_slot ids now st).
Qed.

(** Fan-out finds exactly the right mailboxes.  [liveMailboxesForSlot]
    returns the mailboxes of the store that sit on the slot, have not expired
    and have never been claimed, all of them and nothing else. *)
Lemma liveMailboxesForSlot_spec slot now st m :
  store_wf st ->
  m ∈ (liveMailboxesForSlot slot now st).1 <->
  boxes st !! mb_id m = Some m /\ mb_id m ∈ mailboxes st /\ mb_slot m = slot /\
  now < mb_expiresAt m /\ mb_claimedBy m = None.
Proof.
  intros Hwf. unfold liveMailboxesForSlot.
  destruct (bySlot st !! slot) as [ids|] eqn:Hs.
  - pose proof (expire_slot_sound ids now st m Hwf) as Hsound.
    pose proof (expire_slot_complete ids now st (mb_id m) Hwf) as Hcomplete.
    pose proof (expire_slot_keeps ids now st (mb_id m) m) as Hkeeps.
    pose proof (expire_slot_sound ids now st) as Hsound'.
    destruct (expire_slot ids now st) as [live st']. simpl in *.
    rewrite list_elem_of_filter. split.
    + intros [Hnone Hin]. destruct (Hsound Hin) as (Hid & Hb & Hexp & Hml).
      destruct (wf_slot _ Hwf _ _ Hs) as (_&_&_&Hall).
      destruct (Hall _ Hid) as (_ & m0 & Hm0 & <-). by simplify_eq.
    + intros (Hb & Hml & Hsl & Hexp & Hnone). split; [done|].
      assert (mb_id m ∈ ids) as Hid.
      { destruct (wf_live _ Hwf _ Hml) as (m0 & ids0 & Hm0 & Hs0 & Hel). by simplify_eq. }
      destruct (proj1 (list_elem_of_fmap mb_id live (mb_id m))) as (m1 & Hm1 & Hin1);
        [by apply Hcomplete, Hkeeps|].
      destruct (Hsound' m1 Hwf Hin1) as (_ & Hb1 & _ & _).
      rewrite <- Hm1, Hb in Hb1. by simplify_eq.
  - simpl. split; [by intros ?%not_elem_of_nil|].
    intros (Hb & Hml & Hsl & _).
    destruct (wf_live _ Hwf _ Hml) as (m0 & ids0 & Hm0 & Hs0 & _). simplify_eq.
Qed.

(** A claim wins exactly when the mailbox was unclaimed, and then owns it. *)
Lemma claimMailbox_spec id c p st m :
  boxes st !! id = Some m ->
  let '(won, st') := claimMailbox id c p st in
  won = bool_decide (mb_claimedBy m = None) /\
  exists m', boxes st' !! id = Some m' /\
    (if won then mb_claimedBy m' = Some c /\ mb_peer m' = Some p else m' = m).
Proof.
  intros Hm. unfold claimMailbox. rewrite Hm.
  destruct (mb_claimedBy m) eqn:Hc; simpl.
  - split; [done|]. by exists m.
  - split; [done|]. rewrite lookup_insert_eq. by eexists.
Qed.

(** ** One relation for both: what every operation does to the store *)

Definition store_step (st st' : MailboxStore) : Prop :=
  store_le st st' /\ (store_wf st -> store_wf st').

#[export] Instance store_step_preorder : PreOrder store_step.
Proof.
  split.
  - by intros st.
  - intros a b c [Hab Wab] [Hbc Wbc]. split; [by etrans|auto].
Qed.

Section Steps.
Context (st : MailboxStore).

Lemma emit_step os : store_step st (emit os st).
Proof. split; auto with mtmux. Qed.
Lemma removeMailbox_step id : store_step st (removeMailbox id st).
Proof. split; auto with mtmux. Qed.
Lemma createMailbox_step ttl slot newId now :
  boxes st !! newId = None -> store_step st (createMailbox ttl slot newId now st).2.
Proof. split; auto with mtmux. Qed.
Lemma getMailbox_step id now : store_step st (getMailbox id now st).2.
Proof. split; auto with mtmux. Qed.
Lemma liveMailboxesForSlot_step slot now :
  store_step st (liveMailboxesForSlot slot now st).2.
Proof. split; auto with mtmux. Qed.
Lemma claimMailbox_step id c p : store_step st (claimMailbox id c p st).2.
Proof. split; auto with mtmux. Qed.
Lemma set_claimObjs_step b : store_step st (set_claimObjs b st).
Proof. split; auto with mtmux. Qed.
Lemma set_claims_step b : store_step st (set_claims b st).
Proof. split; auto with mtmux. Qed.
Lemma createClaim_step slot newId now : store_step st (createClaim slot newId now st).2.
Proof. simpl. etrans; [apply set_claimObjs_step|]. split; auto with mtmux. Qed.
Lemma getClaim_step id now : store_step st (getClaim id now st).2.
Proof. split; auto with mtmux. Qed.
Lemma deliver_mailbox_step id msg : store_step st (deliver_mailbox id msg st).
Proof. split; auto with mtmux. Qed.
Lemma deliver_claim_step id msg : store_step st (deliver_claim id msg st).
Proof. split; auto with mtmux. Qed.
Lemma attach_mailbox_step id s : store_step st (attach_mailbox id s st).
Proof. split; auto with mtmux. Qed.
Lemma attach_claim_step id s : store_step st (attach_claim id s st).
Proof. split; auto with mtmux. Qed.
Lemma clear_sink_step id : store_step st (clear_sink id st).
Proof. split; auto with mtmux. Qed.
Lemma extendClaim_step ttl id now : store_step st (extendClaim ttl id now st).
Proof. apply set_claimObjs_step. Qed.
Lemma destroyClaim_step id : store_step st (destroyClaim id st).
Proof. apply set_claims_step. Qed.
Lemma set_peer_step c p id : store_step st (set_peer c p id st).
Proof. apply set_claimObjs_step. Qed.
Lemma delete_peer_step c p : store_step st (delete_peer c p st).
Proof. apply set_claimObjs_step. Qed.
Lemma sweep_step now : store_step st (sweep now st).
Proof. split; auto with mtmux. Qed.
End Steps.

#[export] Hint Resolve emit_step removeMailbox_step createMailbox_step getMailbox_step
  liveMailboxesForSlot_step claimMailbox_step set_claimObjs_step set_claims_step
  createClaim_step getClaim_step deliver_mailbox_step deliver_claim_step
  attach_mailbox_step attach_claim_step clear_sink_step extendClaim_step
  destroyClaim_step set_peer_step delete_peer_step sweep_step : mtmux.

Lemma createMailbox_None ttl slot newId now st :
  (createMailbox ttl slot newId now st).1 = None ->
  boxes (createMailbox ttl slot newId now st).2 = boxes st.
Proof.
  unfold createMailbox.
  pose proof (expire_slot_boxes (default [] (bySlot st !! slot)) now st) as Hb.
  destruct (expire_slot _ now st) as [live st']. simpl in *.
  by repeat case_match.
Qed.

(** A new mailbox is live, unclaimed, on the slot asked for, and its deadline
    is the TTL away. *)
Lemma createMailbox_Some ttl slot newId now st m :
  (createMailbox ttl slot newId now st).1 = Some m ->
  m = mkMailbox newId slot now (now + ttl) None None None [] /\
  boxes (createMailbox ttl slot newId now st).2 !! newId = Some m /\
  newId ∈ mailboxes (createMailbox ttl slot newId now st).2.
Proof.
  unfold createMailbox. destruct (expire_slot _ now st) as [live st']. simpl.
  case_match; [done|]. case_match; [done|]. simpl. intros Hm. simplify_eq.
  rewrite lookup_insert_eq. repeat split; try done.
  apply elem_of_union. left. by apply elem_of_singleton.
Qed.
