(* ===== verification/PairingBroker.v ===== *)
(** * PairingBroker: brokering one pairing

    The pairing half of [apps/api/src/broker.ts]: the HTTP entry points
    [pairNew] and [pairClaim], and the two symmetric sockets
    [attachMailboxSocket] and [attachClaimSocket] with the [message] and
    [close] of the handles they return.  The closure variables of
    [createBroker] are the record [PairBroker]; a handle's closure
    ([mailbox], [established]; [claim]) is an entry of [mbHandles] or
    [clHandles] under its socket.  Every handler runs to completion and reads
    one clock value [now].  Random draws (ids, slots, peer handles) are
    arguments, and a raw frame arrives parsed ([None]: malformed). *)

From Stdlib Require Import QArith.
From S2P Require Import Prelude RateLimit Protocol Mailbox.
#[local] Open Scope Z_scope.

Definition SLOT_DRAWS : nat := 12.
Definition GLOBAL_KEY : string := "*".

(** [retryAfterSeconds(random)], [random()] being [rnd / 5] of the unit. *)
Definition retryAfterSeconds (rnd : Z) : Z := 3 + rnd mod 5.

Definition slotKey (slot : string) : string := "slot:" +:+ slot.

Record Payload := mkPayload { p_share : string; p_ad : string; p_sid : string }.

Record PairBroker := mkPB {
  store : MailboxStore;
  claimLimiter : RateLimiter.Limiter;
  mailboxLimiter : RateLimiter.Limiter;
  slotClaimLimiter : RateLimiter.Limiter;
  globalClaimLimiter : RateLimiter.Limiter;
  discoverLimiter : RateLimiter.Limiter;
  upgradeLimiter : RateLimiter.Limiter;
  minProtocolVersion : Z;
  advisory : string;
  latestCli : string;
  claimPayloads : gmap string Payload;
  mbHandles : gmap sock (string * bool);
  clHandles : gmap sock string;
}.

Definition createBroker (minProtocol : Z) (adv cli : string) : PairBroker :=
  mkPB createMailboxStore
    (RateLimiter.createRateLimiter 5 60000) (RateLimiter.createRateLimiter 10 60000)
    (RateLimiter.createRateLimiter 4 60000) (RateLimiter.createRateLimiter 200 60000)
    (RateLimiter.createRateLimiter 30 60000) (RateLimiter.createRateLimiter 60 60000)
    minProtocol adv cli ∅ ∅ ∅.

Definition set_store (st : MailboxStore) (b : PairBroker) : PairBroker :=
  mkPB st (claimLimiter b) (mailboxLimiter b) (slotClaimLimiter b) (globalClaimLimiter b)
    (discoverLimiter b) (upgradeLimiter b) (minProtocolVersion b) (advisory b) (latestCli b)
    (claimPayloads b) (mbHandles b) (clHandles b).
Definition set_claimLimiter (l : RateLimiter.Limiter) (b : PairBroker) : PairBroker :=
  mkPB (store b) l (mailboxLimiter b) (slotClaimLimiter b) (globalClaimLimiter b)
    (discoverLimiter b) (upgradeLimiter b) (minProtocolVersion b) (advisory b) (latestCli b)
    (claimPayloads b) (mbHandles b) (clHandles b).
Definition set_mailboxLimiter (l : RateLimiter.Limiter) (b : PairBroker) : PairBroker :=
  mkPB (store b) (claimLimiter b) l (slotClaimLimiter b) (globalClaimLimiter b)
    (discoverLimiter b) (upgradeLimiter b) (minProtocolVersion b) (advisory b) (latestCli b)
    (claimPayloads b) (mbHandles b) (clHandles b).
Definition set_guessLimiters (sl gl : RateLimiter.Limiter) (b : PairBroker) : PairBroker :=
  mkPB (store b) (claimLimiter b) (mailboxLimiter b) sl gl
    (discoverLimiter b) (upgradeLimiter b) (minProtocolVersion b) (advisory b) (latestCli b)
    (claimPayloads b) (mbHandles b) (clHandles b).
Definition set_otherLimiters (dl ul : RateLimiter.Limiter) (b : PairBroker) : PairBroker :=
  mkPB (store b) (claimLimiter b) (mailboxLimiter b) (slotClaimLimiter b) (globalClaimLimiter b)
    dl ul (minProtocolVersion b) (advisory b) (latestCli b)
    (claimPayloads b) (mbHandles b) (clHandles b).
Definition set_payloads (p : gmap string Payload) (b : PairBroker) : PairBroker :=
  mkPB (store b) (claimLimiter b) (mailboxLimiter b) (slotClaimLimiter b) (globalClaimLimiter b)
    (discoverLimiter b) (upgradeLimiter b) (minProtocolVersion b) (advisory b) (latestCli b)
    p (mbHandles b) (clHandles b).
Definition set_mbHandles (h : gmap sock (string * bool)) (b : PairBroker) : PairBroker :=
  mkPB (store b) (claimLimiter b) (mailboxLimiter b) (slotClaimLimiter b) (globalClaimLimiter b)
    (discoverLimiter b) (upgradeLimiter b) (minProtocolVersion b) (advisory b) (latestCli b)
    (claimPayloads b) h (clHandles b).
Definition set_clHandles (h : gmap sock string) (b : PairBroker) : PairBroker :=
  mkPB (store b) (claimLimiter b) (mailboxLimiter b) (slotClaimLimiter b) (globalClaimLimiter b)
    (discoverLimiter b) (upgradeLimiter b) (minProtocolVersion b) (advisory b) (latestCli b)
    (claimPayloads b) (mbHandles b) h.

(** [store.f(...)] for an operation that returns nothing. *)
Definition on_store (f : MailboxStore -> MailboxStore) (b : PairBroker) : PairBroker :=
  set_store (f (store b)) b.

(** ** HTTP *)

Inductive HttpBody :=
| ErrorBody
| TooOldBody (minProtocol : Z)
| PairNewBody (mailboxId slot : string) (expiresAt ttlMs : Z)
| PairClaimBody (claimId : string) (expiresAt : Z)
| IpBody (ip : string)
| VersionBody (protocol floor : Z) (minCli : string) (latest advisory : option string).

Record HttpResult := mkHttp {
  status : Z;
  body : HttpBody;
  retryAfter : option Z;
}.

(** The raw [v] of a body: a number or a string, each with what [Number(v)]
    gives ([None]: not finite), or anything else. *)
Inductive RawV := VNumber (n : option Q) | VString (n : option Q) | VOther.

(** 426 for a caller that does not speak the current protocol, or [None]. *)
Definition upgradeRequired (declared : RawV) (b : PairBroker) : option HttpResult :=
  let version := match declared with VNumber n | VString n => n | VOther => None end in
  if meetsProtocolFloor version (minProtocolVersion b) then None
  else Some (mkHttp 426 (TooOldBody (minProtocolVersion b)) None).

Definition socketVersionAccepted (declared : option Q) (b : PairBroker) : bool :=
  meetsProtocolFloor declared (minProtocolVersion b).

(** [Math.ceil(ms / 1000)]. *)
Definition ceil_s (ms : Z) : Z := (ms + 999) / 1000.

Inductive SlotSpace := typed | scan.

(** The loop of [pairNew]: draw slots until one takes the mailbox. *)
Fixpoint drawSlots (draws : list string) (newId : string) (now : Z) (st : MailboxStore)
    : option Mailbox * MailboxStore :=
  match draws with
  | [] => (None, st)
  | slot :: draws =>
      match createMailbox MAILBOX_TTL_MS slot newId now st with
      | (Some mailbox, st) => (Some mailbox, st)
      | (None, st) => drawSlots draws newId now st
      end
  end.

(** [parsed] is [PairNewRequest.safeParse(rawBody)]'s optional [space];
    [draw] the successive results of the chosen generator. *)
Definition pairNew (ip : string) (v : RawV) (parsed : option (option SlotSpace))
    (draw : SlotSpace -> list string) (newId : string) (rnd now : Z) (b : PairBroker)
    : HttpResult * PairBroker :=
  let '(ok, lim) := RateLimiter.take ip now (mailboxLimiter b) in
  if negb ok then
    let '(ms, lim) := RateLimiter.retryAfterMs ip now lim in
    (mkHttp 429 ErrorBody (Some (ceil_s ms)), set_mailboxLimiter lim b)
  else
    let b := set_mailboxLimiter lim b in
    match upgradeRequired v b with
    | Some tooOld => (tooOld, b)
    | None =>
        let space := match parsed with Some sp => default typed sp | None => typed end in
        match drawSlots (take SLOT_DRAWS (draw space)) newId now (store b) with
        | (None, st) =>
            (mkHttp 503 ErrorBody (Some (retryAfterSeconds rnd)), set_store st b)
        | (Some mailbox, st) =>
            (mkHttp 200 (PairNewBody (mb_id mailbox) (mb_slot mailbox) (mb_expiresAt mailbox)
                           (mb_expiresAt mailbox - mb_createdAt mailbox)) None,
             set_store st b)
        end
    end.

(** A valid [PairClaimRequest] body. *)
Record ClaimBody := mkClaimBody { cb_slot : string; cb_share : string; cb_ad : string; cb_sid : string }.

Definition pairClaim (ip : string) (v : RawV) (parsed : option ClaimBody) (newId : string)
    (now : Z) (b : PairBroker) : HttpResult * PairBroker :=
  let '(ok, lim) := RateLimiter.take ip now (claimLimiter b) in
  if negb ok then
    let '(ms, lim) := RateLimiter.retryAfterMs ip now lim in
    (mkHttp 429 ErrorBody (Some (Z.max 1 (ceil_s ms))), set_claimLimiter lim b)
  else
    let b := set_claimLimiter lim b in
    match upgradeRequired v b with
    | Some tooOld => (tooOld, b)
    | None =>
        match parsed with
        | None => (mkHttp 400 ErrorBody None, b)
        | Some req =>
            let '(claim, st) := createClaim (cb_slot req) newId now (store b) in
            let b := set_store st b in
            let payload := mkPayload (cb_share req) (cb_ad req) (cb_sid req) in
            (mkHttp 200 (PairClaimBody (cl_id claim) (cl_expiresAt claim)) None,
             set_payloads (<[cl_id claim := payload]> (claimPayloads b)) b)
        end
    end.

Definition discover (ip : string) (now : Z) (b : PairBroker) : HttpResult * PairBroker :=
  let '(ok, lim) := RateLimiter.take ip now (discoverLimiter b) in
  if negb ok then
    let '(ms, lim) := RateLimiter.retryAfterMs ip now lim in
    (mkHttp 429 ErrorBody (Some (Z.max 1 (ceil_s ms))), set_otherLimiters lim (upgradeLimiter b) b)
  else (mkHttp 200 (IpBody ip) None, set_otherLimiters lim (upgradeLimiter b) b).

Definition nonempty (s : string) : option string :=
  if decide (s = "") then None else Some s.

Definition version (b : PairBroker) : HttpResult :=
  mkHttp 200 (VersionBody PROTOCOL_VERSION (minProtocolVersion b) MIN_PAIR_CLI_VERSION
                (nonempty (latestCli b)) (nonempty (advisory b))) None.

Definition allowUpgrade (ip : string) (now : Z) (b : PairBroker) : bool * PairBroker :=
  let '(ok, lim) := RateLimiter.take ip now (upgradeLimiter b) in
  (ok, set_otherLimiters (discoverLimiter b) lim b).

(** ** WS /v1/pair/:mailboxId, whoever opened the mailbox *)

Definition attachMailboxSocket (mailboxId : string) (s : sock) (now : Z) (b : PairBroker)
    : PairBroker :=
  let '(found, st) := getMailbox mailboxId now (store b) in
  let b := set_store st b in
  match found with
  | None =>
      on_store (emit [SendPair s (PairFailedMessage None expired); CloseSocket s 1008]) b
  | Some mailbox =>
      match mb_sink mailbox with
      | Some _ => on_store (emit [CloseSocket s 1008]) b
      | None =>
          let b := on_store (attach_mailbox mailboxId s) b in
          let b := on_store (deliver_mailbox mailboxId
                     (PairReadyMessage (mb_id mailbox) (mb_slot mailbox) (mb_expiresAt mailbox))) b in
          set_mbHandles (<[s := (mailboxId, false)]> (mbHandles b)) b
      end
  end.

(** The claim this mailbox was burned by, if the two still agree. *)
Definition claimFor (box : Mailbox) (now : Z) (st : MailboxStore)
    : option Claim * MailboxStore :=
  match mb_claimedBy box, mb_peer box with
  | Some cid, Some peer =>
      match getClaim cid now st with
      | (None, st) => (None, st)
      | (Some claim, st) =>
          if decide (assoc_get peer (cl_peers claim) = Some (mb_id box))
          then (Some claim, st) else (None, st)
      end
  | _, _ => (None, st)
  end.

Definition set_established (s : sock) (mailboxId : string) (b : PairBroker) : PairBroker :=
  set_mbHandles (<[s := (mailboxId, true)]> (mbHandles b)) b.

(** The messages other than [pair:close], once the peer is known to be the
    one this mailbox was claimed by and the claim still agrees. *)
Definition mailbox_forward (s : sock) (mailboxId : string) (claim : Claim) (peer : string)
    (msg : PairingClientMessage) (b : PairBroker) : PairBroker :=
  match msg with
  | PairShareMessage _ share ad =>
      let sid := match claimPayloads b !! cl_id claim with
                 | Some payload => p_sid payload
                 | None => "00000000000000000000000000000000"
                 end in
      on_store (deliver_claim (cl_id claim) (PairPeerShareMessage peer share ad sid)) b
  | PairConfirmMessage _ tag =>
      set_established s mailboxId
        (on_store (deliver_claim (cl_id claim) (PairPeerConfirmMessage peer tag)) b)
  | PairEstablishMessage _ sealedDescriptor =>
      let b := on_store (deliver_claim (cl_id claim)
                 (PairEstablishedMessage peer sealedDescriptor)) b in
      let b := set_established s mailboxId b in
      let b := on_store (destroyMailbox mailboxId) b in
      on_store (delete_peer (cl_id claim) peer) b
  | PairCloseMessage _ _ => b
  end.

Definition msg_peer (msg : PairingClientMessage) : option string :=
  match msg with
  | PairShareMessage p _ _ | PairConfirmMessage p _ | PairEstablishMessage p _ => Some p
  | PairCloseMessage p _ => p
  end.

Definition mailbox_message (s : sock) (parsed : option PairingClientMessage) (now : Z)
    (b : PairBroker) : PairBroker :=
  match mbHandles b !! s with
  | None => b
  | Some (mailboxId, _) =>
      match parsed, boxes (store b) !! mailboxId with
      | None, _ => on_store (emit [CloseSocket s 1008]) b
      | Some _, None => b
      | Some (PairCloseMessage mpeer _), Some mailbox =>
          let '(found, st) := claimFor mailbox now (store b) in
          let b := set_store st b in
          let b := match found, mb_peer mailbox with
                   | Some claim, Some peer =>
                       on_store (deliver_claim (cl_id claim)
                         (PairFailedMessage (Some peer)
                            (if mpeer is Some _ then confirmation_failed else peer_gone))) b
                   | _, _ => b
                   end in
          on_store (emit [CloseSocket s 1000]) (on_store (destroyMailbox mailboxId) b)
      | Some msg, Some mailbox =>
          match mb_peer mailbox with
          | None => on_store (emit [CloseSocket s 1008]) b
          | Some peer =>
              if decide (msg_peer msg <> Some peer) then on_store (emit [CloseSocket s 1008]) b
              else
                let '(found, st) := claimFor mailbox now (store b) in
                let b := set_store st b in
                match found with
                | None => on_store (deliver_mailbox mailboxId
                            (PairFailedMessage (Some peer) peer_gone)) b
                | Some claim => mailbox_forward s mailboxId claim peer msg b
                end
          end
      end
  end.

Definition mailbox_close (s : sock) (b : PairBroker) : PairBroker :=
  match mbHandles b !! s with
  | None => b
  | Some (mailboxId, true) => on_store (clear_sink mailboxId) b
  | Some (mailboxId, false) => on_store (destroyMailbox mailboxId) b
  end.

(** ** WS /v1/claim/:claimId, whoever quoted the slot *)

(** Drop a claim and its payload. *)
Definition forgetClaim (claimId : string) (b : PairBroker) : PairBroker :=
  set_payloads (delete claimId (claimPayloads b)) (on_store (destroyClaim claimId) b).

(** The two guessing budgets, in order; the first refusal stops the loop. *)
Definition chargeBudgets (slot : string) (now : Z) (b : PairBroker) : bool * PairBroker :=
  let '(ok, sl) := RateLimiter.take (slotKey slot) now (slotClaimLimiter b) in
  if negb ok then (false, set_guessLimiters sl (globalClaimLimiter b) b)
  else
    let '(ok, gl) := RateLimiter.take GLOBAL_KEY now (globalClaimLimiter b) in
    (ok, set_guessLimiters sl gl b).

(** The fan-out loop: each live mailbox, with the peer handle drawn for it. *)
Fixpoint fanOut (claimId : string) (payload : Payload) (live : list (Mailbox * string))
    (st : MailboxStore) : MailboxStore :=
  match live with
  | [] => st
  | (mailbox, peer) :: live =>
      match claimMailbox (mb_id mailbox) claimId peer st with
      | (false, st) => fanOut claimId payload live st
      | (true, st) =>
          let st := set_peer claimId peer (mb_id mailbox) st in
          let st := deliver_mailbox (mb_id mailbox)
                      (PairPeerShareMessage peer (p_share payload) (p_ad payload) (p_sid payload)) st in
          fanOut claimId payload live st
      end
  end.

(** Fan a freshly attached claim out, if its payload is still held. *)
Definition fanOutClaim (claimId slot : string) (peerHandles : list string) (now : Z)
    (b : PairBroker) : PairBroker :=
  match claimPayloads b !! claimId with
  | None => b
  | Some payload =>
      let '(live, st) := liveMailboxesForSlot slot now (store b) in
      set_store (fanOut claimId payload (zip live peerHandles) st) b
  end.

(** Nothing was waiting: say so and end the claim; else hand out the handle. *)
Definition settleClaim (claimId : string) (s : sock) (b : PairBroker) : PairBroker :=
  match claimObjs (store b) !! claimId with
  | Some claim =>
      if decide (cl_peers claim = []) then
        let b := on_store (emit [SendPair s (PairFailedMessage None peer_gone)]) b in
        on_store (emit [CloseSocket s 1000]) (forgetClaim claimId b)
      else set_clHandles (<[s := claimId]> (clHandles b)) b
  | None => b
  end.

Definition attachClaimSocket (claimId : string) (s : sock) (peerHandles : list string)
    (now : Z) (b : PairBroker) : PairBroker :=
  let '(found, st) := getClaim claimId now (store b) in
  let b := set_store st b in
  match found with
  | None =>
      on_store (emit [SendPair s (PairFailedMessage None expired); CloseSocket s 1008]) b
  | Some claim =>
      match cl_sink claim with
      | Some _ => on_store (emit [CloseSocket s 1008]) b
      | None =>
          let '(ok, b) := chargeBudgets (cl_slot claim) now b in
          if negb ok then
            let b := on_store (emit [SendPair s (PairFailedMessage None rate_limited)]) b in
            on_store (emit [CloseSocket s 1013]) (forgetClaim claimId b)
          else
            let b := on_store (attach_claim claimId s) b in
            let b := on_store (extendClaim MAILBOX_TTL_MS claimId now) b in
            let b := fanOutClaim claimId (cl_slot claim) peerHandles now b in
            settleClaim claimId s b
      end
  end.

(** The mailbox this claim owns under [peer], or [None]. *)
Definition ownedMailbox (claim : Claim) (peer : string) (now : Z) (st : MailboxStore)
    : option Mailbox * MailboxStore :=
  match assoc_get peer (cl_peers claim) with
  | None => (None, st)
  | Some mailboxId =>
      match getMailbox mailboxId now st with
      | (None, st) => (None, st)
      | (Some mailbox, st) =>
          if decide (mb_claimedBy mailbox = Some (cl_id claim))
          then (Some mailbox, st) else (None, st)
      end
  end.

(** Deliver a last word to a mailbox and destroy it. *)
Definition finish_mailbox (id : string) (m : PairingServerMessage) (st : MailboxStore)
    : MailboxStore := destroyMailbox id (deliver_mailbox id m st).

Definition claim_message (s : sock) (parsed : option PairingClientMessage) (now : Z)
    (b : PairBroker) : PairBroker :=
  match clHandles b !! s with
  | None => b
  | Some claimId =>
      match parsed, claimObjs (store b) !! claimId with
      | None, _ => on_store (emit [CloseSocket s 1008]) b
      | Some _, None => b
      | Some (PairCloseMessage (Some peer) _), Some claim =>
          let '(owned, st) := ownedMailbox claim peer now (store b) in
          let b := set_store st b in
          let b := match owned with
                   | Some mailbox =>
                       on_store (finish_mailbox (mb_id mailbox)
                         (PairFailedMessage (Some peer) confirmation_failed)) b
                   | None => b
                   end in
          on_store (delete_peer claimId peer) b
      | Some (PairCloseMessage None _), Some claim =>
          on_store (emit [CloseSocket s 1000]) (forgetClaim claimId b)
      | Some msg, Some claim =>
          match msg_peer msg with
          | None => b
          | Some peer =>
              let '(owned, st) := ownedMailbox claim peer now (store b) in
              let b := set_store st b in
              match owned, msg with
              | None, _ => on_store (deliver_claim claimId
                             (PairFailedMessage (Some peer) peer_gone)) b
              | Some mailbox, PairConfirmMessage _ tag =>
                  on_store (deliver_mailbox (mb_id mailbox) (PairPeerConfirmMessage peer tag)) b
              | Some mailbox, PairEstablishMessage _ sealedDescriptor =>
                  let b := on_store (finish_mailbox (mb_id mailbox)
                             (PairEstablishedMessage peer sealedDescriptor)) b in
                  on_store (delete_peer claimId peer) b
              | Some _, _ => on_store (emit [CloseSocket s 1008]) b
              end
          end
      end
  end.

(** The loop of the claim socket's [close] over its peers. *)
Fixpoint burnPeers (claim : Claim) (peers : list string) (now : Z) (st : MailboxStore)
    : MailboxStore :=
  match peers with
  | [] => st
  | peer :: peers =>
      match ownedMailbox claim peer now st with
      | (None, st) => burnPeers claim peers now st
      | (Some mailbox, st) =>
          burnPeers claim peers now
            (finish_mailbox (mb_id mailbox) (PairFailedMessage (Some peer) confirmation_failed) st)
      end
  end.

Definition claim_close (s : sock) (now : Z) (b : PairBroker) : PairBroker :=
  match clHandles b !! s with
  | None => b
  | Some claimId =>
      match claimObjs (store b) !! claimId with
      | None => b
      | Some claim =>
          forgetClaim claimId (on_store (burnPeers claim (map fst (cl_peers claim)) now) b)
      end
  end.

(** ** The periodic cleanup *)

Definition sweepClaimPayloads (now : Z) (b : PairBroker) : PairBroker :=
  foldr (fun claimId b =>
           let '(found, st) := getClaim claimId now (store b) in
           let b := set_store st b in
           match found with
           | Some _ => b
           | None => set_payloads (delete claimId (claimPayloads b)) b
           end) b (map fst (map_to_list (claimPayloads b))).

Definition sweepPairing (now : Z) (b : PairBroker) : PairBroker :=
  sweepClaimPayloads now (on_store (sweep now) b).
