(* ===== verification/PairingSafety.v ===== *)
(** * PairingSafety: what the pairing broker guarantees

    The handlers of [PairingBroker] as a transition system, one constructor
    per HTTP call, socket event and sweep, with the freshness of the random
    draws as premises; and the properties of every state it reaches. *)

From Stdlib Require Import QArith.
From S2P Require Import Prelude RateLimit Protocol Mailbox PairingBroker.
#[local] Open Scope Z_scope.

(** ** Every handler is a store step *)

(** Replace [let '(x, st') := op in ...] by its components, keeping [op]'s
    step in the context. *)
Ltac let_step lem x st' :=
  let H := fresh "Hstep" in let E := fresh "Hrun" in
  pose proof lem as H;
  match type of H with
  | store_step _ (?e.2) => destruct e as [x st'] eqn:E; simpl in H
  end.

Lemma drawSlots_step draws newId now st :
  boxes st !! newId = None -> store_step st (drawSlots draws newId now st).2.
Proof.
  revert st. induction draws as [|slot draws IH]; intros st Hf; [done|]. simpl.
  let_step (createMailbox_step st MAILBOX_TTL_MS slot newId now Hf) found st'.
  destruct found as [m|]; [done|]. etrans; [done|]. apply IH.
  pose proof (createMailbox_None MAILBOX_TTL_MS slot newId now st) as Hb.
  rewrite Hrun in Hb. simpl in Hb. by rewrite Hb.
Qed.

Lemma pairNew_step ip v parsed draw newId rnd now b :
  boxes (store b) !! newId = None ->
  store_step (store b) (store (pairNew ip v parsed draw newId rnd now b).2).
Proof.
  intros Hf. unfold pairNew.
  destruct (RateLimiter.take _ _ _) as [[] lim]; simpl.
  2:{ by destruct (RateLimiter.retryAfterMs _ _ _). }
  destruct (upgradeRequired _ _); [done|].
  match goal with |- context [drawSlots ?d ?n ?t ?s] =>
    let_step (drawSlots_step d n t s Hf) found st' end.
  by destruct found.
Qed.

Lemma pairClaim_step ip v parsed newId now b :
  store_step (store b) (store (pairClaim ip v parsed newId now b).2).
Proof.
  unfold pairClaim.
  destruct (RateLimiter.take _ _ _) as [[] lim]; simpl.
  2:{ by destruct (RateLimiter.retryAfterMs _ _ _). }
  destruct (upgradeRequired _ _); [done|]. destruct parsed as [req|]; [|done]. simpl.
  apply (createClaim_step (store b) (cb_slot req) newId now).
Qed.

Lemma attachMailboxSocket_step id s now b :
  store_step (store b) (store (attachMailboxSocket id s now b)).
Proof.
  unfold attachMailboxSocket. let_step (getMailbox_step (store b) id now) found st'.
  destruct found as [m|]; [destruct (mb_sink m)|]; simpl;
    (etrans; [exact Hstep|]); [apply emit_step| |apply emit_step].
  etrans; [apply attach_mailbox_step|apply deliver_mailbox_step].
Qed.

Lemma claimFor_step m now st : store_step st (claimFor m now st).2.
Proof.
  unfold claimFor. destruct (mb_claimedBy m) as [cid|]; [|done].
  destruct (mb_peer m) as [peer|]; [|done].
  let_step (getClaim_step st cid now) found st'.
  destruct found; simpl; [by case_decide|done].
Qed.

Lemma mailbox_forward_step s id c p msg b :
  store_step (store b) (store (mailbox_forward s id c p msg b)).
Proof.
  destruct msg; simpl; try done; auto with mtmux.
  etrans; [apply deliver_claim_step|].
  etrans; [apply removeMailbox_step|apply delete_peer_step].
Qed.

Lemma mailbox_message_step s parsed now b :
  store_step (store b) (store (mailbox_message s parsed now b)).
Proof.
  unfold mailbox_message. destruct (mbHandles b !! s) as [[id est]|]; [|done].
  destruct parsed as [msg|]; [|apply emit_step].
  destruct (boxes (store b) !! id) as [m|]; [|by destruct msg].
  let_step (claimFor_step m now (store b)) found st'.
  assert (forall peer msg, store_step (store b)
    (store (match found with
            | None => on_store (deliver_mailbox id (PairFailedMessage (Some peer) peer_gone))
                        (set_store st' b)
            | Some claim => mailbox_forward s id claim peer msg (set_store st' b)
            end))) as Hfw.
  { intros peer msg'. etrans; [exact Hstep|]. destruct found.
    - apply (mailbox_forward_step s id c peer msg' (set_store st' b)).
    - apply deliver_mailbox_step. }
  destruct msg as [p sh ad|p tag|p sd|mpeer reason];
    try (destruct (mb_peer m) as [peer|]; [case_decide; [apply emit_step|apply Hfw]|apply emit_step]).
  etrans; [exact Hstep|].
  assert (forall st, store_step st (emit [CloseSocket s 1000] (destroyMailbox id st))) as Hend.
  { intros st. etrans; [apply removeMailbox_step|apply emit_step]. }
  destruct found as [c|]; [destruct (mb_peer m) as [peer|]|]; simpl; [|apply Hend..].
  etrans; [apply deliver_claim_step|apply Hend].
Qed.

Lemma mailbox_close_step s b : store_step (store b) (store (mailbox_close s b)).
Proof.
  unfold mailbox_close. destruct (mbHandles b !! s) as [[id []]|]; simpl;
    [apply clear_sink_step|apply removeMailbox_step|done].
Qed.

Lemma fanOut_step cid pl live st : store_step st (fanOut cid pl live st).
Proof.
  revert st. induction live as [|[m peer] live IH]; intros st; [done|]. simpl.
  let_step (claimMailbox_step st (mb_id m) cid peer) won st'.
  destruct won; (etrans; [exact Hstep|]); [|apply IH].
  etrans; [apply set_peer_step|]. etrans; [apply deliver_mailbox_step|apply IH].
Qed.

Lemma chargeBudgets_store slot now b : store (chargeBudgets slot now b).2 = store b.
Proof.
  unfold chargeBudgets. destruct (RateLimiter.take _ _ _) as [[] sl]; [|done]. simpl.
  by destruct (RateLimiter.take _ _ _) as [[] gl].
Qed.

Lemma fanOutClaim_step cid slot ps now b :
  store_step (store b) (store (fanOutClaim cid slot ps now b)).
Proof.
  unfold fanOutClaim. destruct (claimPayloads b !! cid) as [pl|]; [|done].
  let_step (liveMailboxesForSlot_step (store b) slot now) live st.
  etrans; [exact Hstep|apply fanOut_step].
Qed.

Lemma settleClaim_step cid s b : store_step (store b) (store (settleClaim cid s b)).
Proof.
  unfold settleClaim. destruct (claimObjs (store b) !! cid); [|done].
  case_decide; [|done]. simpl.
  etrans; [apply emit_step|]. etrans; [apply destroyClaim_step|apply emit_step].
Qed.

Lemma attachClaimSocket_step cid s ps now b :
  store_step (store b) (store (attachClaimSocket cid s ps now b)).
Proof.
  unfold attachClaimSocket. let_step (getClaim_step (store b) cid now) found st'.
  etrans; [exact Hstep|]. clear Hstep.
  destruct found as [c|]; [|apply emit_step].
  destruct (cl_sink c); [apply emit_step|].
  pose proof (chargeBudgets_store (cl_slot c) now (set_store st' b)) as Hst.
  destruct (chargeBudgets _ _ _) as [ok b1]. simpl in Hst. rewrite <- Hst.
  destruct ok; simpl; [|etrans; [apply emit_step|]; etrans; [apply destroyClaim_step|apply emit_step]].
  etrans; [apply (attach_claim_step _ cid s)|].
  etrans; [apply (extendClaim_step _ MAILBOX_TTL_MS cid now)|].
  etrans; [|apply settleClaim_step]. etrans; [|apply fanOutClaim_step]. done.
Qed.

Lemma ownedMailbox_step c p now st : store_step st (ownedMailbox c p now st).2.
Proof.
  unfold ownedMailbox. destruct (assoc_get p (cl_peers c)) as [id|]; [|done].
  let_step (getMailbox_step st id now) found st'.
  destruct found; simpl; [by case_decide|done].
Qed.

Lemma finish_mailbox_step id m st : store_step st (finish_mailbox id m st).
Proof. etrans; [apply deliver_mailbox_step|apply removeMailbox_step]. Qed.

Lemma claim_message_step s parsed now b :
  store_step (store b) (store (claim_message s parsed now b)).
Proof.
  unfold claim_message. destruct (clHandles b !! s) as [cid|]; [|done].
  destruct parsed as [msg|]; [|apply emit_step].
  destruct (claimObjs (store b) !! cid) as [c|]; [|by destruct msg as [| | |[]]].
  destruct msg as [p sh ad|p tag|p sd|[p|] reason]; simpl.
  1-4: let_step (ownedMailbox_step c p now (store b)) owned st'; (etrans; [exact Hstep|]);
       destruct owned; simpl; auto with mtmux.
  - etrans; [apply finish_mailbox_step|apply delete_peer_step].
  - etrans; [apply finish_mailbox_step|apply delete_peer_step].
  - etrans; [apply destroyClaim_step|apply emit_step].
Qed.

Lemma burnPeers_step c ps now st : store_step st (burnPeers c ps now st).
Proof.
  revert st. induction ps as [|p ps IH]; intros st; [done|]. simpl.
  let_step (ownedMailbox_step c p now st) owned st'.
  destruct owned; (etrans; [exact Hstep|]); [|apply IH].
  etrans; [apply finish_mailbox_step|apply IH].
Qed.

Lemma claim_close_step s now b : store_step (store b) (store (claim_close s now b)).
Proof.
  unfold claim_close. destruct (clHandles b !! s) as [cid|]; [|done].
  destruct (claimObjs (store b) !! cid) as [c|]; [|done]. simpl.
  etrans; [apply burnPeers_step|apply destroyClaim_step].
Qed.

Lemma sweepClaimPayloads_step now b : store_step (store b) (store (sweepClaimPayloads now b)).
Proof.
  unfold sweepClaimPayloads. generalize (map fst (map_to_list (claimPayloads b))).
  intros ids. induction ids as [|id ids IH]; [done|]. simpl.
  etrans; [exact IH|].
  match goal with |- context [getClaim id now ?s] =>
    let_step (getClaim_step s id now) found st' end.
  by destruct found.
Qed.

Lemma sweepPairing_step now b : store_step (store b) (store (sweepPairing now b)).
Proof.
  unfold sweepPairing. etrans; [|apply sweepClaimPayloads_step]. apply sweep_step.
Qed.

(** ** The transition system *)

Definition out_sock (o : output) : sock :=
  match o with
  | SendPair s _ | SendTunnel s _ | SendRequest s _ | CloseSocket s _ => s
  end.

(** A freshly upgraded socket: no object holds it and nothing was written on it. *)
Record sock_fresh (s : sock) (b : PairBroker) : Prop := mkFresh {
  fresh_mb : mbHandles b !! s = None;
  fresh_cl : clHandles b !! s = None;
  fresh_sent : Forall (fun o => out_sock o <> s) (sent (store b));
  fresh_sink : forall cid c, claimObjs (store b) !! cid = Some c -> cl_sink c <> Some s;
}.

Inductive pstep (b : PairBroker) : PairBroker -> Prop :=
| st_new ip v parsed draw newId rnd now :
    boxes (store b) !! newId = None ->
    pstep b (pairNew ip v parsed draw newId rnd now b).2
| st_claim ip v parsed newId now :
    claimObjs (store b) !! newId = None ->
    pstep b (pairClaim ip v parsed newId now b).2
| st_discover ip now : pstep b (discover ip now b).2
| st_upgrade ip now : pstep b (allowUpgrade ip now b).2
| st_attach_mailbox id s now :
    sock_fresh s b -> pstep b (attachMailboxSocket id s now b)
| st_mailbox_message s parsed now : pstep b (mailbox_message s parsed now b)
| st_mailbox_close s : pstep b (mailbox_close s b)
| st_attach_claim cid s ps now :
    sock_fresh s b -> pstep b (attachClaimSocket cid s ps now b)
| st_claim_message s parsed now : pstep b (claim_message s parsed now b)
| st_claim_close s now : pstep b (claim_close s now b)
| st_sweep now : pstep b (sweepPairing now b).

Definition reachable (b : PairBroker) : Prop :=
  exists minProtocol adv cli, rtc pstep (createBroker minProtocol adv cli) b.

Lemma pstep_store_step b b' : pstep b b' -> store_step (store b) (store b').
Proof.
  destruct 1.
  - by apply pairNew_step.
  - apply pairClaim_step.
  - unfold discover. destruct (RateLimiter.take _ _ _) as [[] lim]; [done|]. simpl.
    by destruct (RateLimiter.retryAfterMs _ _ _).
  - unfold allowUpgrade. by destruct (RateLimiter.take _ _ _).
  - apply attachMailboxSocket_step.
  - apply mailbox_message_step.
  - apply mailbox_close_step.
  - apply attachClaimSocket_step.
  - apply claim_message_step.
  - apply claim_close_step.
  - apply sweepPairing_step.
Qed.

Lemma psteps_store_step b b' : rtc pstep b b' -> store_step (store b) (store b').
Proof. induction 1 as [|b b1 b2 H1 _ IH]; [done|]. etrans; [by apply pstep_store_step|done]. Qed.

Lemma reachable_wf b : reachable b -> store_wf (store b).
Proof.
  intros (f & a & c & Hr). destruct (psteps_store_step _ _ Hr) as [_ Hwf].
  apply Hwf, createMailboxStore_wf.
Qed.

Lemma reachable_step b b' : reachable b -> pstep b b' -> reachable b'.
Proof.
  intros (f & a & c & Hr) Hs. exists f, a, c. etrans; [exact Hr|]. by apply rtc_once.
Qed.

(** ** One guess per code *)

(** C1: a code buys one guess.  Once a mailbox has been claimed, or destroyed,
    no sequence of broker events whatever makes it claimable again: the claim
    and peer handle written on it never change, and no later fan-out on any
    slot contains it. *)
Theorem guess_spent_once b b' id m :
  reachable b -> rtc pstep b b' -> boxes (store b) !! id = Some m ->
  mb_claimedBy m <> None \/ id ∉ mailboxes (store b) ->
  exists m', boxes (store b') !! id = Some m' /\
    (forall c, mb_claimedBy m = Some c ->
       mb_claimedBy m' = Some c /\ mb_peer m' = mb_peer m) /\
    (forall slot now x, x ∈ (liveMailboxesForSlot slot now (store b')).1 -> mb_id x <> id).
Proof.
  intros Hreach Hsteps Hm Hspent.
  destruct (psteps_store_step _ _ Hsteps) as [[Hle _] Hwf].
  specialize (Hwf (reachable_wf _ Hreach)).
  destruct (Hle _ _ Hm) as (m' & Hm' & (_&_&_&_&Hc) & Hdead).
  exists m'. split; [done|]. split; [done|].
  intros slot now x Hx Heq. apply liveMailboxesForSlot_spec in Hx; [|done].
  destruct Hx as (Hb & Hin & _ & _ & Hnone). rewrite Heq in *. simplify_eq.
  destruct Hspent as [Hs|Hs]; [|by apply Hdead].
  destruct (mb_claimedBy m) as [c|]; [|done]. destruct (Hc c) as [? _]; [done|congruence].
Qed.

(** ** Capacity *)

(** The live mailboxes of a list of slots. *)
Definition mailboxes_on (slots : list string) (st : MailboxStore) : list string :=
  slots ≫= fun slot => default [] (bySlot st !! slot).

(** Squatting is worthless.  In every reachable state a slot holds at
    most two mailboxes, so a space of [n] slots holds at most [2 n] pending
    pairings; the store holds at most 10,000; and a mailbox is in the store
    exactly when its slot lists it. *)
Theorem slot_capacity b slots :
  reachable b ->
  Z.of_nat (length (mailboxes_on slots (store b))) <= 2 * Z.of_nat (length slots) /\
  Z.of_nat (size (mailboxes (store b))) <= 10000 /\
  (forall id m, boxes (store b) !! id = Some m ->
     id ∈ mailboxes (store b) <-> id ∈ mailboxes_on [mb_slot m] (store b)).
Proof.
  intros Hr%reachable_wf. split; [|split; [by apply wf_total|]].
  - induction slots as [|slot slots IH]; [done|].
    change (mailboxes_on (slot :: slots) (store b)) with
      (default [] (bySlot (store b) !! slot) ++ mailboxes_on slots (store b)).
    rewrite length_app. cbn [length].
    destruct (bySlot (store b) !! slot) as [ids|] eqn:Hs; simpl in *; [|lia].
    destruct (wf_slot _ Hr _ _ Hs) as (_&_&Hlen&_).
    unfold MAX_MAILBOXES_PER_SLOT, MAX_PEERS_PER_SLOT in Hlen. lia.
  - intros id m Hm. unfold mailboxes_on. simpl. rewrite app_nil_r. split.
    + intros Hin. destruct (wf_live _ Hr _ Hin) as (m' & ids & Hm' & Hs & Hel).
      simplify_eq. by rewrite Hs.
    + destruct (bySlot (store b) !! mb_slot m) as [ids|] eqn:Hs; simpl;
        [|by intros ?%not_elem_of_nil].
      intros Hel. destruct (wf_slot _ Hr _ _ Hs) as (_&_&_&Hall). by apply Hall.
Qed.

(** ** No liveness oracle *)

(** The claim POST reveals nothing.  Its answer is the same whatever is
    waiting on the slot: two brokers that differ only in their mailboxes,
    claims and sockets give the same response. *)
Theorem pairClaim_no_oracle ip v parsed newId now b st :
  (pairClaim ip v parsed newId now (set_store st b)).1 =
  (pairClaim ip v parsed newId now b).1.
Proof.
  unfold pairClaim. simpl.
  destruct (RateLimiter.take _ _ _) as [[] lim]; simpl.
  2:{ by destruct (RateLimiter.retryAfterMs _ _ _). }
  unfold upgradeRequired. simpl.
  destruct (meetsProtocolFloor _ _); [|done]. by destruct parsed.
Qed.
