(* ===== verification/PairingExchange.v ===== *)
(** * PairingExchange: routing and the single CPace attempt

    The invariant that ties the broker's sockets, routing tables and mailbox
    objects together, and what follows from it: a code's holder sees at most
    one peer-share in its life, conversations never cross, and every way a
    claim can end burns the codes it touched. *)

From Stdlib Require Import QArith.
From S2P Require Import Prelude RateLimit Protocol Mailbox PairingBroker PairingSafety.
#[local] Open Scope Z_scope.

(** ** Counting peer-shares *)

Definition is_share (m : PairingServerMessage) : bool :=
  match m with PairPeerShareMessage _ _ _ _ => true | _ => false end.

(** A peer-share written on a socket that belongs to mailbox [id]; [H] maps a
    socket to the mailbox it was attached to. *)
Definition share_to (H : gmap sock string) (id : string) (o : output) : bool :=
  match o with
  | SendPair s m => is_share m && bool_decide (H !! s = Some id)
  | _ => false
  end.

Definition count {A} (p : A -> bool) (l : list A) : nat :=
  length (filter (fun x => p x = true) l).

Lemma count_app {A} (p : A -> bool) l1 l2 : count p (l1 ++ l2) = (count p l1 + count p l2)%nat.
Proof. unfold count. by rewrite filter_app, length_app. Qed.

Lemma count_none {A} (p : A -> bool) l : Forall (fun x => p x = false) l -> count p l = 0%nat.
Proof.
  intros Hl. unfold count. rewrite filter_none; [done|].
  rewrite Forall_forall in Hl. intros x Hx. by rewrite Hl.
Qed.

Lemma count_map {A B} (p : B -> bool) (f : A -> B) l : count p (map f l) = count (fun x => p (f x)) l.
Proof.
  unfold count. induction l as [|x l IH]; [done|]. simpl.
  destruct (p (f x)) eqn:E.
  - rewrite !filter_cons_True by done. simpl. by rewrite IH.
  - by rewrite !filter_cons_False by congruence.
Qed.

(** Every peer-share mailbox [id] has been sent, or has waiting for it. *)
Definition shares (H : gmap sock string) (id : string) (m : Mailbox) (os : list output) : nat :=
  (count (share_to H id) os + count is_share (mb_pending m))%nat.

Definition share_budget (m : Mailbox) : nat :=
  match mb_claimedBy m with Some _ => 1 | None => 0 end.

(** ** The invariant *)

Record route_inv (H : gmap sock string) (st : MailboxStore) : Prop := mkRoute {
  ri_mid : forall id m, boxes st !! id = Some m -> mb_id m = id;
  ri_cid : forall cid c, claimObjs st !! cid = Some c -> cl_id c = cid;
  ri_route : forall cid c peer mid,
    claimObjs st !! cid = Some c -> assoc_get peer (cl_peers c) = Some mid ->
    exists m, boxes st !! mid = Some m /\ mb_claimedBy m = Some cid /\ mb_peer m = Some peer;
  ri_mbsink : forall id m s, boxes st !! id = Some m -> mb_sink m = Some s -> H !! s = Some id;
  ri_clsink : forall cid c s, claimObjs st !! cid = Some c -> cl_sink c = Some s -> H !! s = None;
  ri_dom : forall s id, H !! s = Some id -> is_Some (boxes st !! id);
  ri_shares : forall id m, boxes st !! id = Some m ->
    (shares H id m (sent st) <= share_budget m)%nat;
}.

(** Operations that leave the objects and the output alone. *)
Lemma route_inv_frame H st st' :
  route_inv H st -> boxes st' = boxes st -> claimObjs st' = claimObjs st ->
  sent st' = sent st -> route_inv H st'.
Proof. intros [] Hb Hc Hs. split; rewrite ?Hb, ?Hc, ?Hs; eauto. Qed.

Lemma removeMailbox_route H id st : route_inv H st -> route_inv H (removeMailbox id st).
Proof.
  intros Hi. destruct (removeMailbox_frame id st) as (?&?&?&?&?).
  by eapply route_inv_frame.
Qed.

Lemma expire_slot_frame ids now st :
  claimObjs (expire_slot ids now st).2 = claimObjs st /\
  sent (expire_slot ids now st).2 = sent st.
Proof.
  revert st. induction ids as [|id ids IH]; intros st; [done|]. simpl.
  destruct (removeMailbox_frame id st) as (_&Hc&_&Hs&_).
  destruct (IH (removeMailbox id st)) as [Hc' Hs']. rewrite Hc in Hc'. rewrite Hs in Hs'.
  destruct (lookup_mailbox st id) as [e|]; [|done].
  case_match; [done|]. specialize (IH st). by destruct (expire_slot ids now st).
Qed.

Lemma getMailbox_route H id now st : route_inv H st -> route_inv H (getMailbox id now st).2.
Proof. intros Hi. unfold getMailbox. repeat case_match; try done. by apply removeMailbox_route. Qed.

Lemma getClaim_route H id now st : route_inv H st -> route_inv H (getClaim id now st).2.
Proof. intros Hi. unfold getClaim. repeat case_match; try done. by eapply route_inv_frame. Qed.

Lemma destroyClaim_route H id st : route_inv H st -> route_inv H (destroyClaim id st).
Proof. intros Hi. by eapply route_inv_frame. Qed.

Lemma liveMailboxesForSlot_route H slot now st :
  route_inv H st -> route_inv H (liveMailboxesForSlot slot now st).2.
Proof.
  intros Hi. unfold liveMailboxesForSlot. destruct (bySlot st !! slot) as [ids|]; [|done].
  pose proof (expire_slot_boxes ids now st). destruct (expire_slot_frame ids now st).
  destruct (expire_slot ids now st). by eapply route_inv_frame.
Qed.

Lemma removeAll_route H ids st : route_inv H st -> route_inv H (removeAll ids st).
Proof. intros Hi. induction ids; [done|]. simpl. by apply removeMailbox_route. Qed.

Lemma sweep_route H now st : route_inv H st -> route_inv H (sweep now st).
Proof. intros Hi. unfold sweep. eapply route_inv_frame; [by eapply removeAll_route|done..]. Qed.

(** Writing anything but a peer-share to a mailbox's socket. *)
Lemma emit_route H os st :
  route_inv H st -> (forall id, Forall (fun o => share_to H id o = false) os) ->
  route_inv H (emit os st).
Proof.
  intros [] Hos. split; eauto. simpl. intros id m Hm. unfold shares.
  rewrite count_app, (count_none _ os) by done.
  specialize (ri_shares0 id m Hm). unfold shares in ri_shares0. lia.
Qed.

(** Rewriting one mailbox object without touching its claim or its sink. *)
Lemma box_update_route H id m p os st :
  route_inv H st -> boxes st !! id = Some m ->
  (count is_share p + count (share_to H id) os + count (share_to H id) (sent st)
   <= share_budget m)%nat ->
  (forall id', id' <> id -> Forall (fun o => share_to H id' o = false) os) ->
  route_inv H (emit os (set_boxes (<[id := mb_with_sink (mb_sink m) p m]> (boxes st)) st)).
Proof.
  intros [] Hm Hcount Hos. split; simpl; try done.
  - intros id' m'. destruct (decide (id = id')) as [<-|Hne].
    + rewrite lookup_insert_eq. intros. simplify_eq/=. by apply ri_mid0.
    + rewrite lookup_insert_ne by done. eauto.
  - intros cid c peer mid Hc Hp. destruct (ri_route0 _ _ _ _ Hc Hp) as (m' & Hm' & ? & ?).
    destruct (decide (id = mid)) as [<-|Hne].
    + rewrite lookup_insert_eq. simplify_eq. by eexists.
    + rewrite lookup_insert_ne by done. by exists m'.
  - intros id' m' s. destruct (decide (id = id')) as [<-|Hne].
    + rewrite lookup_insert_eq. intros. simplify_eq/=. by eapply ri_mbsink0.
    + rewrite lookup_insert_ne by done. eauto.
  - intros s id' Hs. rewrite lookup_insert_is_Some'. right. by eapply ri_dom0.
  - intros id' m'. destruct (decide (id = id')) as [<-|Hne].
    + rewrite lookup_insert_eq. intros. simplify_eq/=.
      unfold shares, share_budget in *. simpl. rewrite count_app. lia.
    + rewrite lookup_insert_ne by done. intros Hm'. unfold shares.
      rewrite count_app, (count_none _ os) by auto.
      specialize (ri_shares0 _ _ Hm'). unfold shares in ri_shares0. lia.
Qed.

Lemma emit_nil st : emit [] st = st.
Proof. destruct st. unfold emit. simpl. by rewrite app_nil_r. Qed.

Lemma deliver_mailbox_route H id msg st :
  route_inv H st -> is_share msg = false -> route_inv H (deliver_mailbox id msg st).
Proof.
  intros Hi Hns. unfold deliver_mailbox.
  destruct (boxes st !! id) as [m|] eqn:Hm; [|done].
  destruct (mb_sink m) as [s|] eqn:Hs.
  - apply emit_route; [done|]. intros id'. repeat constructor. simpl. by rewrite Hns.
  - case_decide; [|done].
    pose proof (box_update_route H id m (mb_pending m ++ [msg]) [] st Hi Hm) as Hx.
    rewrite Hs, emit_nil in Hx. apply Hx; [|done].
    pose proof (ri_shares _ _ Hi _ _ Hm) as Hsh. unfold shares in Hsh.
    rewrite count_app, (count_none _ [msg]) by (by repeat constructor).
    change (count (share_to H id) []) with 0%nat. lia.
Qed.

(** Rewriting one claim object, and writing on sockets of no mailbox. *)
Lemma claim_update_route H cid c c' os st :
  route_inv H st -> claimObjs st !! cid = Some c -> cl_id c' = cl_id c ->
  (forall peer mid, assoc_get peer (cl_peers c') = Some mid ->
     exists m, boxes st !! mid = Some m /\ mb_claimedBy m = Some cid /\ mb_peer m = Some peer) ->
  (forall s, cl_sink c' = Some s -> H !! s = None) ->
  (forall id, Forall (fun o => share_to H id o = false) os) ->
  route_inv H (emit os (set_claimObjs (<[cid := c']> (claimObjs st)) st)).
Proof.
  intros Hi Hc Hid Hp Hs Hos. apply emit_route; [|done]. destruct Hi. split; simpl; eauto.
  - intros cid' c0. destruct (decide (cid = cid')) as [<-|Hne].
    + rewrite lookup_insert_eq. intros. simplify_eq/=. rewrite Hid. by apply ri_cid0.
    + rewrite lookup_insert_ne by done. eauto.
  - intros cid' c0 peer mid. destruct (decide (cid = cid')) as [<-|Hne].
    + rewrite lookup_insert_eq. intros. simplify_eq/=. by apply Hp.
    + rewrite lookup_insert_ne by done. eauto.
  - intros cid' c0 s. destruct (decide (cid = cid')) as [<-|Hne].
    + rewrite lookup_insert_eq. intros. simplify_eq/=. by apply Hs.
    + rewrite lookup_insert_ne by done. eauto.
Qed.

Lemma share_to_other H s m id : H !! s = None -> share_to H id (SendPair s m) = false.
Proof. intros Hs. simpl. rewrite Hs. by destruct (is_share m). Qed.

Lemma deliver_claim_route H cid msg st : route_inv H st -> route_inv H (deliver_claim cid msg st).
Proof.
  intros Hi. unfold deliver_claim. destruct (claimObjs st !! cid) as [c|] eqn:Hc; [|done].
  destruct (cl_sink c) as [s|] eqn:Hs.
  - apply emit_route; [done|]. intros id. repeat constructor.
    eapply share_to_other, ri_clsink; eauto.
  - case_decide; [|done]. rewrite <- emit_nil.
    eapply claim_update_route; eauto; [|done]. simpl. intros. by eapply ri_route.
Qed.

Lemma alter_claim_route H cid f st :
  route_inv H st ->
  (forall c, claimObjs st !! cid = Some c -> cl_id (f c) = cl_id c /\ cl_sink (f c) = cl_sink c /\
     (forall peer mid, assoc_get peer (cl_peers (f c)) = Some mid ->
        exists m, boxes st !! mid = Some m /\ mb_claimedBy m = Some cid /\ mb_peer m = Some peer)) ->
  route_inv H (set_claimObjs (alter f cid (claimObjs st)) st).
Proof.
  intros Hi Hf. destruct (claimObjs st !! cid) as [c|] eqn:Hc.
  - destruct (Hf c eq_refl) as (Hid & Hsk & Hp).
    replace (alter f cid (claimObjs st)) with (<[cid := f c]> (claimObjs st)).
    2:{ apply map_eq. intros i. rewrite lookup_alter.
        destruct (decide (cid = i)) as [<-|Hne]; [by rewrite lookup_insert_eq, Hc|].
        by rewrite lookup_insert_ne. }
    rewrite <- emit_nil. eapply claim_update_route; eauto.
    intros s. rewrite Hsk. by eapply ri_clsink.
  - eapply route_inv_frame; [done|done| |done]. simpl.
    apply map_eq. intros i. rewrite lookup_alter.
    destruct (decide (cid = i)) as [<-|Hne]; [by rewrite Hc|done].
Qed.

Lemma extendClaim_route H ttl cid now st :
  route_inv H st -> route_inv H (extendClaim ttl cid now st).
Proof.
  intros Hi. apply alter_claim_route; [done|]. intros c Hc. repeat split.
  simpl. intros. by eapply ri_route.
Qed.

Lemma delete_peer_route H cid p st : route_inv H st -> route_inv H (delete_peer cid p st).
Proof.
  intros Hi. apply alter_claim_route; [done|]. intros c Hc. repeat split.
  simpl. intros peer mid. destruct (decide (peer = p)) as [->|Hne].
  - by rewrite assoc_get_del_eq.
  - rewrite assoc_get_del_ne by done. by eapply ri_route.
Qed.

Lemma set_peer_route H cid p mid st m :
  route_inv H st -> boxes st !! mid = Some m -> mb_claimedBy m = Some cid ->
  mb_peer m = Some p -> route_inv H (set_peer cid p mid st).
Proof.
  intros Hi Hm Hc Hp. apply alter_claim_route; [done|]. intros c Hcl. repeat split.
  simpl. intros peer mid'. destruct (decide (peer = p)) as [->|Hne].
  - rewrite assoc_get_set_eq. intros. simplify_eq. by exists m.
  - rewrite assoc_get_set_ne by done. by eapply ri_route.
Qed.

Lemma createClaim_route H slot newId now st :
  route_inv H st -> claimObjs st !! newId = None ->
  route_inv H (createClaim slot newId now st).2.
Proof.
  intros [] Hf. split; simpl; eauto.
  - intros cid c. destruct (decide (newId = cid)) as [<-|Hne].
    + rewrite lookup_insert_eq. intros. by simplify_eq.
    + rewrite lookup_insert_ne by done. eauto.
  - intros cid c peer mid. destruct (decide (newId = cid)) as [<-|Hne].
    + rewrite lookup_insert_eq. intros. by simplify_eq/=.
    + rewrite lookup_insert_ne by done. eauto.
  - intros cid c s. destruct (decide (newId = cid)) as [<-|Hne].
    + rewrite lookup_insert_eq. intros. by simplify_eq/=.
    + rewrite lookup_insert_ne by done. eauto.
Qed.

(** A fresh mailbox has been sent nothing: no socket was attached to its id. *)
Lemma no_shares_fresh H id os :
  (forall s, H !! s <> Some id) -> count (share_to H id) os = 0%nat.
Proof.
  intros Hs. apply count_none, Forall_forall. intros [s m|s m|s m|s c] _; simpl; try done.
  rewrite bool_decide_eq_false_2 by done. by destruct (is_share m).
Qed.

Lemma insert_box_route H newId slot now ttl st :
  route_inv H st -> boxes st !! newId = None ->
  route_inv H (set_boxes (<[newId := mkMailbox newId slot now (now + ttl) None None None []]>
    (boxes st)) st).
Proof.
  intros [] Hf. split; simpl; eauto.
  - intros id m. destruct (decide (newId = id)) as [<-|Hne].
    + rewrite lookup_insert_eq. intros. by simplify_eq.
    + rewrite lookup_insert_ne by done. eauto.
  - intros cid c peer mid Hc Hp. destruct (ri_route0 _ _ _ _ Hc Hp) as (m & Hm & ? & ?).
    exists m. by rewrite lookup_insert_ne by congruence.
  - intros id m s. destruct (decide (newId = id)) as [<-|Hne].
    + rewrite lookup_insert_eq. intros. by simplify_eq/=.
    + rewrite lookup_insert_ne by done. eauto.
  - intros s id Hs. rewrite lookup_insert_is_Some'. right. by eapply ri_dom0.
  - intros id m. destruct (decide (newId = id)) as [<-|Hne].
    + rewrite lookup_insert_eq. intros. simplify_eq/=. unfold shares.
      rewrite no_shares_fresh; [simpl; unfold count; simpl; lia|].
      intros s Hs. destruct (ri_dom0 _ _ Hs). congruence.
    + rewrite lookup_insert_ne by done. eauto.
Qed.

Lemma createMailbox_route H ttl slot newId now st :
  route_inv H st -> boxes st !! newId = None ->
  route_inv H (createMailbox ttl slot newId now st).2.
Proof.
  intros Hi Hf. unfold createMailbox.
  pose proof (expire_slot_boxes (default [] (bySlot st !! slot)) now st) as Hb.
  pose proof (expire_slot_frame (default [] (bySlot st !! slot)) now st) as [Hc Hs].
  destruct (expire_slot _ now st) as [live st']. simpl in *.
  assert (route_inv H st') as Hi' by (by eapply route_inv_frame).
  case_match; [done|]. case_match; [done|]. simpl.
  eapply route_inv_frame; [apply (insert_box_route H newId slot now ttl st' Hi')|..]; try done.
  by rewrite Hb.
Qed.

(** ** The one peer-share: claiming a mailbox and telling its holder *)

Lemma claim_box_route H id m c p st :
  route_inv H st -> boxes st !! id = Some m -> mb_claimedBy m = None ->
  route_inv H (set_boxes (<[id := mb_with_claim c p m]> (boxes st)) st).
Proof.
  intros [] Hm Hn. split; simpl; eauto.
  - intros id' m'. destruct (decide (id = id')) as [<-|Hne].
    + rewrite lookup_insert_eq. intros. simplify_eq/=. by apply ri_mid0.
    + rewrite lookup_insert_ne by done. eauto.
  - intros cid cl peer mid Hc Hp. destruct (ri_route0 _ _ _ _ Hc Hp) as (m' & Hm' & ? & ?).
    exists m'. rewrite lookup_insert_ne; [done|]. intros ->. congruence.
  - intros id' m' s. destruct (decide (id = id')) as [<-|Hne].
    + rewrite lookup_insert_eq. intros. simplify_eq/=. by eapply ri_mbsink0.
    + rewrite lookup_insert_ne by done. eauto.
  - intros s id' Hs. rewrite lookup_insert_is_Some'. right. by eapply ri_dom0.
  - intros id' m'. destruct (decide (id = id')) as [<-|Hne].
    + rewrite lookup_insert_eq. intros. simplify_eq/=.
      specialize (ri_shares0 _ _ Hm). unfold shares, share_budget in *. simpl in *.
      rewrite Hn in ri_shares0. lia.
    + rewrite lookup_insert_ne by done. eauto.
Qed.

Lemma deliver_share_route H id m msg st :
  route_inv H st -> boxes st !! id = Some m -> mb_claimedBy m <> None ->
  shares H id m (sent st) = 0%nat -> route_inv H (deliver_mailbox id msg st).
Proof.
  intros Hi Hm Hc Hz. unfold deliver_mailbox. rewrite Hm.
  assert (share_budget m = 1%nat) as Hb.
  { unfold share_budget. by destruct (mb_claimedBy m). }
  unfold shares in Hz.
  assert (forall p os, (count is_share p <= count is_share (mb_pending m))%nat -> 
    (length os <= 1)%nat -> (count is_share p + count (share_to H id) os + count (share_to H id) (sent st)
      <= share_budget m)%nat) as Hos.
  { intros p os Hp Hl. unfold count at 2. pose proof (length_filter (fun x => share_to H id x = true) os). lia. }
  destruct (mb_sink m) as [s|] eqn:Hs.
  - pose proof (box_update_route H id m (mb_pending m) [SendPair s msg] st Hi Hm) as Hx.
    assert (mb_with_sink (mb_sink m) (mb_pending m) m = m) as Hid by (by destruct m).
    rewrite Hid, insert_id in Hx by done.
    replace (emit [SendPair s msg] st)
      with (emit [SendPair s msg] (set_boxes (boxes st) st)) by (by destruct st).
    apply Hx; [apply Hos; simpl; lia|].
    intros id' Hne. repeat constructor. simpl.
    rewrite (ri_mbsink _ _ Hi _ _ _ Hm Hs), bool_decide_eq_false_2 by congruence.
    by destruct (is_share msg).
  - case_decide; [|done].
    pose proof (box_update_route H id m (mb_pending m ++ [msg]) [] st Hi Hm) as Hx.
    rewrite Hs, emit_nil in Hx. apply Hx; [|done].
    rewrite count_app. change (count (share_to H id) []) with 0%nat.
    assert (count is_share [msg] <= 1)%nat by apply (length_filter (fun x => is_share x = true) [msg]).
    lia.
Qed.

Lemma claimMailbox_true id c p st m :
  boxes st !! id = Some m -> mb_claimedBy m = None ->
  claimMailbox id c p st =
  (true, set_boxes (<[id := mb_with_claim c p m]> (boxes st)) st).
Proof. intros Hm Hc. unfold claimMailbox. by rewrite Hm, Hc. Qed.

Lemma fanOut_route H cid pl live st :
  route_inv H st -> route_inv H (fanOut cid pl live st).
Proof.
  revert st. induction live as [|[m peer] live IH]; intros st Hi; [done|]. simpl.
  destruct (boxes st !! mb_id m) as [m0|] eqn:Hm.
  2:{ unfold claimMailbox. rewrite Hm. by apply IH. }
  destruct (mb_claimedBy m0) eqn:Hc.
  { unfold claimMailbox. rewrite Hm, Hc. by apply IH. }
  rewrite (claimMailbox_true _ _ _ _ m0) by done. apply IH.
  pose proof (ri_shares _ _ Hi _ _ Hm) as Hz. unfold share_budget in Hz. rewrite Hc in Hz.
  apply (deliver_share_route H (mb_id m) (mb_with_claim cid peer m0)); simpl; [|by rewrite lookup_insert_eq|done|].
  - eapply set_peer_route; [by apply claim_box_route|simpl; apply lookup_insert_eq|done|done].
  - unfold shares in *. simpl. lia.
Qed.

(** ** Sockets *)

Lemma share_to_insert H s id0 id o :
  H !! s = None -> out_sock o <> s -> share_to (<[s := id0]> H) id o = share_to H id o.
Proof.
  intros Hs Ho. destruct o as [s' m|s' m|s' m|s' c]; simpl in *; try done.
  by rewrite lookup_insert_ne.
Qed.

Lemma count_ext {A} (p q : A -> bool) l :
  Forall (fun x => p x = q x) l -> count p l = count q l.
Proof.
  unfold count. induction 1 as [|x l Hx _ IH]; [done|].
  rewrite !filter_cons, Hx. case_decide; simpl; by rewrite ?IH.
Qed.

Lemma attach_mailbox_route H id s st :
  route_inv H st -> is_Some (boxes st !! id) -> H !! s = None ->
  Forall (fun o => out_sock o <> s) (sent st) ->
  (forall cid c, claimObjs st !! cid = Some c -> cl_sink c <> Some s) ->
  route_inv (<[s := id]> H) (attach_mailbox id s st).
Proof.
  intros [] [m Hm] Hs Hsent Hcl. unfold attach_mailbox. rewrite Hm.
  assert (forall id', count (share_to (<[s:=id]> H) id') (sent st) = count (share_to H id') (sent st)) as Hold.
  { intros id'. apply count_ext. eapply Forall_impl; [exact Hsent|]. simpl.
    intros o Ho. by apply share_to_insert. }
  split; simpl; eauto.
  - intros id' m'. destruct (decide (id = id')) as [<-|Hne].
    + rewrite lookup_insert_eq. intros. simplify_eq/=. by apply ri_mid0.
    + rewrite lookup_insert_ne by done. eauto.
  - intros cid c peer mid Hc Hp. destruct (ri_route0 _ _ _ _ Hc Hp) as (m' & Hm' & ? & ?).
    destruct (decide (id = mid)) as [<-|Hne].
    + rewrite lookup_insert_eq. simplify_eq. by eexists.
    + rewrite lookup_insert_ne by done. by exists m'.
  - intros id' m' s'. destruct (decide (id = id')) as [<-|Hne].
    + intros Hm' Hs'. rewrite lookup_insert_eq in Hm'. simplify_eq/=.
      apply lookup_insert_eq.
    + rewrite lookup_insert_ne by done. intros Hm' Hs'.
      pose proof (ri_mbsink0 _ _ _ Hm' Hs'). rewrite lookup_insert_ne; congruence.
  - intros cid c s' Hc Hs'. rewrite lookup_insert_ne; [eauto|]. intros <-. by eapply Hcl.
  - intros s' id'. rewrite lookup_insert_is_Some'. destruct (decide (s = s')) as [<-|Hne].
    + rewrite lookup_insert_eq. intros. simplify_eq. by left.
    + rewrite lookup_insert_ne by done. eauto.
  - intros id' m'. unfold shares. rewrite count_app, Hold, count_map.
    destruct (decide (id = id')) as [<-|Hne].
    + rewrite lookup_insert_eq. intros. simplify_eq/=.
      rewrite (count_ext _ is_share).
      2:{ apply Forall_forall. intros x _.
          by rewrite lookup_insert_eq, bool_decide_eq_true_2, andb_true_r. }
      specialize (ri_shares0 _ _ Hm). unfold shares, share_budget in *. simpl.
      change (count is_share []) with 0%nat. lia.
    + rewrite lookup_insert_ne by done. intros Hm'.
      rewrite (count_none _ (mb_pending m)).
      2:{ apply Forall_forall. intros x _. simpl. rewrite lookup_insert_eq.
          rewrite bool_decide_eq_false_2 by congruence. apply andb_false_r. }
      specialize (ri_shares0 _ _ Hm'). unfold shares in ri_shares0. lia.
Qed.

Lemma attach_claim_route H cid s st :
  route_inv H st -> H !! s = None -> route_inv H (attach_claim cid s st).
Proof.
  intros Hi Hs. unfold attach_claim. destruct (claimObjs st !! cid) as [c|] eqn:Hc; [|done].
  eapply claim_update_route; eauto; simpl.
  - intros. by eapply ri_route.
  - intros s' ?. by simplify_eq.
  - intros id. apply Forall_map, Forall_forall. intros m _. by apply share_to_other.
Qed.

Lemma clear_sink_route H id st : route_inv H st -> route_inv H (clear_sink id st).
Proof.
  intros []. unfold clear_sink.
  assert (forall id' m', alter (fun m => mb_with_sink None (mb_pending m) m) id (boxes st) !! id' = Some m' ->
    exists m0, boxes st !! id' = Some m0 /\ (m' = m0 \/ m' = mb_with_sink None (mb_pending m0) m0)) as Halt.
  { intros id' m'. rewrite lookup_alter. case_decide; subst; [|by eauto].
    destruct (boxes st !! id') as [m0|]; simpl; [|done]. intros. simplify_eq. eauto. }
  split; simpl; eauto.
  - intros id' m' Hm'. destruct (Halt _ _ Hm') as (m0 & Hm0 & [->| ->]); exact (ri_mid0 _ _ Hm0).
  - intros cid c peer mid Hc Hp. destruct (ri_route0 _ _ _ _ Hc Hp) as (m & Hm & ? & ?).
    rewrite lookup_alter. case_decide; subst; [|by exists m]. rewrite Hm. simpl. by eexists.
  - intros id' m' s Hm' Hs. destruct (Halt _ _ Hm') as (m0 & Hm0 & [->| ->]); [eauto|done].
  - intros s id' Hs. rewrite lookup_alter. destruct (ri_dom0 _ _ Hs) as [m Hm].
    case_decide; subst; rewrite Hm; by eexists.
  - intros id' m' Hm'. destruct (Halt _ _ Hm') as (m0 & Hm0 & [->| ->]); exact (ri_shares0 _ m0 Hm0).
Qed.

(** ** The invariant of the broker *)

Definition socks (b : PairBroker) : gmap sock string := fst <$> mbHandles b.

Definition exchange_inv (b : PairBroker) : Prop := route_inv (socks b) (store b).

Create HintDb route.
#[export] Hint Resolve removeMailbox_route getMailbox_route getClaim_route destroyClaim_route
  liveMailboxesForSlot_route sweep_route deliver_claim_route extendClaim_route
  delete_peer_route attach_claim_route clear_sink_route fanOut_route : route.

Lemma emit_plain_route H os st :
  route_inv H st ->
  Forall (fun o => match o with SendPair _ m => is_share m = false | _ => True end) os ->
  route_inv H (emit os st).
Proof.
  intros Hi Hos. apply emit_route; [done|]. intros id.
  eapply Forall_impl; [exact Hos|]. intros [s m|s m|s m|s c] Ho; simpl; try done.
  by rewrite Ho.
Qed.

Ltac plain := apply emit_plain_route; [|by repeat constructor].

(** As [let_step], for an operation's [route_inv] lemma. *)
Ltac let_route lem x st' :=
  let H := fresh "Hroute" in let E := fresh "Hrun" in
  pose proof lem as H;
  match type of H with
  | route_inv _ (?e.2) => destruct e as [x st'] eqn:E; simpl in H
  end.

Lemma drawSlots_route H draws newId now st :
  route_inv H st -> boxes st !! newId = None -> route_inv H (drawSlots draws newId now st).2.
Proof.
  revert st. induction draws as [|slot draws IH]; intros st Hi Hf; [done|]. simpl.
  let_route (createMailbox_route H MAILBOX_TTL_MS slot newId now st Hi Hf) found st'.
  destruct found as [m|]; [done|]. apply IH; [done|].
  pose proof (createMailbox_None MAILBOX_TTL_MS slot newId now st) as Hb.
  rewrite Hrun in Hb. simpl in Hb. by rewrite Hb.
Qed.

Lemma pairNew_inv ip v parsed draw newId rnd now b :
  exchange_inv b -> boxes (store b) !! newId = None ->
  exchange_inv (pairNew ip v parsed draw newId rnd now b).2.
Proof.
  intros Hi Hf. unfold pairNew.
  destruct (RateLimiter.take _ _ _) as [[] lim]; simpl.
  2:{ by destruct (RateLimiter.retryAfterMs _ _ _). }
  destruct (upgradeRequired _ _); [done|].
  match goal with |- context [drawSlots ?d ?n ?t ?s] =>
    let_route (drawSlots_route _ d n t s Hi Hf) found st' end.
  by destruct found.
Qed.

Lemma pairClaim_inv ip v parsed newId now b :
  exchange_inv b -> claimObjs (store b) !! newId = None ->
  exchange_inv (pairClaim ip v parsed newId now b).2.
Proof.
  intros Hi Hf. unfold pairClaim.
  destruct (RateLimiter.take _ _ _) as [[] lim]; simpl.
  2:{ by destruct (RateLimiter.retryAfterMs _ _ _). }
  destruct (upgradeRequired _ _); [done|]. destruct parsed as [req|]; [|done]. simpl.
  by apply (createClaim_route _ (cb_slot req) newId now).
Qed.

Lemma attachMailboxSocket_inv id s now b :
  exchange_inv b -> sock_fresh s b -> exchange_inv (attachMailboxSocket id s now b).
Proof.
  intros Hi [Hmb Hcl Hsent Hsink]. unfold exchange_inv, attachMailboxSocket.
  assert (claimObjs (getMailbox id now (store b)).2 = claimObjs (store b) /\
          sent (getMailbox id now (store b)).2 = sent (store b) /\
          (forall m, (getMailbox id now (store b)).1 = Some m ->
             boxes (getMailbox id now (store b)).2 !! id = Some m)) as (Hc & Hs & Hb).
  { unfold getMailbox, lookup_mailbox. destruct (removeMailbox_frame id (store b)) as (?&?&_&?&_).
    case_decide; simpl; [|done].
    destruct (boxes (store b) !! id) as [m|] eqn:E; simpl; [|done].
    case_match; simpl; [done|]. split; [done|]. split; [done|]. intros. by simplify_eq. }
  let_route (getMailbox_route (socks b) id now (store b) Hi) found st'. simpl in *.
  destruct found as [m|]; [|by plain].
  destruct (mb_sink m); [by plain|]. simpl.
  apply deliver_mailbox_route; [|done].
  unfold socks. simpl. rewrite fmap_insert. simpl.
  apply attach_mailbox_route; [done|eexists; by apply Hb| |by rewrite Hs|by rewrite Hc].
  by rewrite lookup_fmap, Hmb.
Qed.

Lemma claimFor_route H m now st : route_inv H st -> route_inv H (claimFor m now st).2.
Proof.
  intros Hi. unfold claimFor. destruct (mb_claimedBy m) as [cid|]; [|done].
  destruct (mb_peer m) as [peer|]; [|done].
  let_route (getClaim_route H cid now st Hi) found st'.
  destruct found; simpl; [by case_decide|done].
Qed.

Lemma socks_established s id est b :
  mbHandles b !! s = Some (id, est) -> socks (set_established s id b) = socks b.
Proof.
  intros Hs. unfold socks, set_established. simpl. rewrite fmap_insert. simpl.
  apply insert_id. by rewrite lookup_fmap, Hs.
Qed.

Lemma mailbox_forward_inv s id est c p msg b :
  exchange_inv b -> mbHandles b !! s = Some (id, est) ->
  exchange_inv (mailbox_forward s id c p msg b).
Proof.
  intros Hi Hs. unfold exchange_inv in *.
  destruct msg; simpl; auto with route.
  - change (socks _) with (socks (set_established s id b)).
    rewrite (socks_established s id est) by done. auto with route.
  - change (socks _) with (socks (set_established s id b)).
    rewrite (socks_established s id est) by done.
    apply delete_peer_route, removeMailbox_route. auto with route.
Qed.

Lemma mailbox_message_inv s parsed now b :
  exchange_inv b -> exchange_inv (mailbox_message s parsed now b).
Proof.
  intros Hi. unfold mailbox_message. destruct (mbHandles b !! s) as [[id est]|] eqn:Hs; [|done].
  destruct parsed as [msg|]; [|by plain].
  destruct (boxes (store b) !! id) as [m|]; [|by destruct msg].
  let_route (claimFor_route (socks b) m now (store b) Hi) found st'.
  assert (forall peer msg, exchange_inv
    (match found with
     | None => on_store (deliver_mailbox id (PairFailedMessage (Some peer) peer_gone))
                 (set_store st' b)
     | Some claim => mailbox_forward s id claim peer msg (set_store st' b)
     end)) as Hfw.
  { intros peer msg'. destruct found; [|by apply deliver_mailbox_route].
    by apply (mailbox_forward_inv _ _ est). }
  destruct msg as [p sh ad|p tag|p sd|mpeer reason];
    try (destruct (mb_peer m) as [peer|]; [case_decide; [by plain|apply Hfw]|by plain]).
  destruct found as [c|]; [destruct (mb_peer m) as [peer|]|];
    plain; apply removeMailbox_route; try done.
  by apply deliver_claim_route.
Qed.

Lemma mailbox_close_inv s b : exchange_inv b -> exchange_inv (mailbox_close s b).
Proof.
  intros Hi. unfold mailbox_close.
  destruct (mbHandles b !! s) as [[id []]|]; [|by apply removeMailbox_route|done].
  by apply clear_sink_route.
Qed.

Lemma settleClaim_inv cid s b : exchange_inv b -> exchange_inv (settleClaim cid s b).
Proof.
  intros Hi. unfold settleClaim. destruct (claimObjs (store b) !! cid); [|done].
  case_decide; [|done]. plain. apply destroyClaim_route. by plain.
Qed.

Lemma fanOutClaim_inv cid slot ps now b :
  exchange_inv b -> exchange_inv (fanOutClaim cid slot ps now b).
Proof.
  intros Hi. unfold fanOutClaim. destruct (claimPayloads b !! cid); [|done].
  let_route (liveMailboxesForSlot_route (socks b) slot now (store b) Hi) live st.
  by apply fanOut_route.
Qed.

Lemma chargeBudgets_socks slot now b : socks (chargeBudgets slot now b).2 = socks b.
Proof.
  unfold chargeBudgets. destruct (RateLimiter.take _ _ _) as [[] sl]; [|done]. simpl.
  by destruct (RateLimiter.take _ _ _) as [[] gl].
Qed.

Lemma attachClaimSocket_inv cid s ps now b :
  exchange_inv b -> mbHandles b !! s = None -> exchange_inv (attachClaimSocket cid s ps now b).
Proof.
  intros Hi Hmb. unfold attachClaimSocket.
  let_route (getClaim_route (socks b) cid now (store b) Hi) found st'.
  destruct found as [c|]; [|by plain].
  destruct (cl_sink c); [by plain|].
  pose proof (chargeBudgets_store (cl_slot c) now (set_store st' b)) as Hst.
  pose proof (chargeBudgets_socks (cl_slot c) now (set_store st' b)) as Hso.
  destruct (chargeBudgets _ _ _) as [ok b1]. simpl in Hst, Hso.
  assert (exchange_inv b1) as Hi1 by (unfold exchange_inv; by rewrite Hst, Hso).
  assert (socks b1 !! s = None) as Hs by (rewrite Hso; unfold socks; simpl; by rewrite lookup_fmap, Hmb).
  destruct ok; simpl.
  - apply settleClaim_inv, fanOutClaim_inv, extendClaim_route. by apply attach_claim_route.
  - plain. apply destroyClaim_route. by plain.
Qed.

Lemma ownedMailbox_route H c p now st : route_inv H st -> route_inv H (ownedMailbox c p now st).2.
Proof.
  intros Hi. unfold ownedMailbox. destruct (assoc_get p (cl_peers c)) as [id|]; [|done].
  let_route (getMailbox_route H id now st Hi) found st'.
  destruct found; simpl; [by case_decide|done].
Qed.

Lemma finish_mailbox_route H id m st :
  route_inv H st -> is_share m = false -> route_inv H (finish_mailbox id m st).
Proof. intros Hi Hm. by apply removeMailbox_route, deliver_mailbox_route. Qed.

Lemma claim_message_inv s parsed now b :
  exchange_inv b -> exchange_inv (claim_message s parsed now b).
Proof.
  intros Hi. unfold claim_message. destruct (clHandles b !! s) as [cid|]; [|done].
  destruct parsed as [msg|]; [|by plain].
  destruct (claimObjs (store b) !! cid) as [c|]; [|by destruct msg as [| | |[]]].
  destruct msg as [p sh ad|p tag|p sd|[p|] reason]; simpl.
  1-4: let_route (ownedMailbox_route (socks b) c p now (store b) Hi) owned st';
       destruct owned; simpl; try (by apply deliver_claim_route).
  - by plain.
  - by apply deliver_mailbox_route.
  - by apply delete_peer_route, finish_mailbox_route.
  - by apply delete_peer_route, finish_mailbox_route.
  - by apply delete_peer_route.
  - plain. by apply destroyClaim_route.
Qed.

Lemma burnPeers_route H c ps now st : route_inv H st -> route_inv H (burnPeers c ps now st).
Proof.
  revert st. induction ps as [|p ps IH]; intros st Hi; [done|]. simpl.
  let_route (ownedMailbox_route H c p now st Hi) owned st'.
  destruct owned; apply IH; [by apply finish_mailbox_route|done].
Qed.

Lemma claim_close_inv s now b : exchange_inv b -> exchange_inv (claim_close s now b).
Proof.
  intros Hi. unfold claim_close. destruct (clHandles b !! s) as [cid|]; [|done].
  destruct (claimObjs (store b) !! cid) as [c|]; [|done].
  by apply destroyClaim_route, burnPeers_route.
Qed.

Lemma sweepPairing_inv now b : exchange_inv b -> exchange_inv (sweepPairing now b).
Proof.
  intros Hi. unfold sweepPairing.
  assert (exchange_inv (on_store (sweep now) b)) as Hi' by (by apply sweep_route).
  revert Hi'. generalize (on_store (sweep now) b). clear. intros b Hi.
  unfold sweepClaimPayloads. generalize (map fst (map_to_list (claimPayloads b))).
  intros ids. induction ids as [|id ids IH]; [done|]. simpl.
  match goal with |- context [getClaim id now ?s] =>
    let_route (getClaim_route _ id now s IH) found st' end.
  by destruct found.
Qed.

Lemma pstep_inv b b' : exchange_inv b -> pstep b b' -> exchange_inv b'.
Proof.
  intros Hi. destruct 1 as [| |ip now|ip now|id s now Hf| | |cid s ps now [Hmb]| | |].
  - by apply pairNew_inv.
  - by apply pairClaim_inv.
  - unfold discover. destruct (RateLimiter.take _ _ _) as [[] lim]; [done|]. simpl.
    by destruct (RateLimiter.retryAfterMs _ _ _).
  - unfold allowUpgrade. by destruct (RateLimiter.take _ _ _).
  - by apply attachMailboxSocket_inv.
  - by apply mailbox_message_inv.
  - by apply mailbox_close_inv.
  - by apply attachClaimSocket_inv.
  - by apply claim_message_inv.
  - by apply claim_close_inv.
  - by apply sweepPairing_inv.
Qed.

Lemma reachable_inv b : reachable b -> exchange_inv b.
Proof.
  intros (f & a & c & Hr). remember (createBroker f a c) as b0 eqn:Hb0.
  assert (exchange_inv b0) as Hi by (subst; by split).
  clear Hb0. induction Hr; [done|]. by eauto using pstep_inv.
Qed.

(** ** One CPace attempt per code *)

(** C4: a code's holder hears one guess.  In every reachable state, the
    peer-shares written on the sockets of a mailbox, together with those
    buffered for it, are at most one; and none at all while it is unclaimed. *)
Theorem single_share b id m :
  reachable b -> boxes (store b) !! id = Some m ->
  (shares (socks b) id m (sent (store b)) <= 1)%nat /\
  (mb_claimedBy m = None -> shares (socks b) id m (sent (store b)) = 0%nat).
Proof.
  intros Hr%reachable_inv Hm. pose proof (ri_shares _ _ Hr _ _ Hm) as Hs.
  unfold share_budget in Hs. split.
  - destruct (mb_claimedBy m); lia.
  - intros Hn. rewrite Hn in Hs. lia.
Qed.

(** Conversations never cross.  In every reachable state, if two peer
    handles of any two claims route to one mailbox, they are the same handle
    of the same claim, and that mailbox names exactly that claim and handle
    in return; so what a mailbox's holder sends back can reach one claim. *)
Theorem routing_exclusive b cid1 cid2 c1 c2 p1 p2 mid :
  reachable b ->
  claimObjs (store b) !! cid1 = Some c1 -> claimObjs (store b) !! cid2 = Some c2 ->
  assoc_get p1 (cl_peers c1) = Some mid -> assoc_get p2 (cl_peers c2) = Some mid ->
  cid1 = cid2 /\ p1 = p2 /\
  exists m, boxes (store b) !! mid = Some m /\ mb_id m = mid /\
    mb_claimedBy m = Some cid1 /\ mb_peer m = Some p1.
Proof.
  intros Hr%reachable_inv H1 H2 Hp1 Hp2.
  destruct (ri_route _ _ Hr _ _ _ _ H1 Hp1) as (m & Hm & ? & ?).
  destruct (ri_route _ _ Hr _ _ _ _ H2 Hp2) as (m' & Hm' & ? & ?).
  simplify_eq. split; [congruence|]. split; [congruence|].
  exists m. repeat split; try done. by eapply ri_mid.
Qed.

(** ** A claim's socket touches its own mailboxes and no other *)

(** [untouched id m st st']: the mailbox object, its liveness and the traffic
    on its socket are what they were. *)
Record untouched (id : string) (m : Mailbox) (st st' : MailboxStore) : Prop := mkUntouched {
  un_box : boxes st' !! id = boxes st !! id;
  un_live : id ∈ mailboxes st' <-> id ∈ mailboxes st;
  un_sent : exists os, sent st' = sent st ++ os /\
    Forall (fun o => match o with SendPair s _ => mb_sink m <> Some s | _ => True end) os;
}.

#[export] Instance untouched_preorder id m : PreOrder (untouched id m).
Proof.
  split.
  - intros st. split; [done|done|]. exists []. by rewrite app_nil_r.
  - intros a b c [Hb1 Hl1 (o1&Hs1&Hf1)] [Hb2 Hl2 (o2&Hs2&Hf2)].
    split; [congruence|by rewrite Hl2|]. exists (o1 ++ o2).
    rewrite Hs2, Hs1, app_assoc. split; [done|]. by apply Forall_app.
Qed.

Section Isolation.
Context (H : gmap sock string) (cid : string) (id : string) (m : Mailbox).
Context (Hother : mb_claimedBy m <> Some cid).

Lemma untouched_emit_plain st os :
  Forall (fun o => match o with SendPair s _ => mb_sink m <> Some s | _ => True end) os ->
  untouched id m st (emit os st).
Proof. intros Hos. split; [done|done|]. by exists os. Qed.

Lemma untouched_removeMailbox id' st : id' <> id -> untouched id m st (removeMailbox id' st).
Proof.
  intros Hne. destruct (removeMailbox_frame id' st) as (Hb&_&_&Hs&_).
  split; [by rewrite Hb| |exists []; by rewrite app_nil_r].
  unfold removeMailbox. repeat case_match; simpl; set_solver.
Qed.

Lemma untouched_frame st st' :
  boxes st' = boxes st -> mailboxes st' = mailboxes st -> sent st' = sent st ->
  untouched id m st st'.
Proof.
  intros Hb Hm Hs. split; [by rewrite Hb|by rewrite Hm|].
  exists []. by rewrite app_nil_r.
Qed.

Lemma untouched_deliver_mailbox id' m' msg st :
  route_inv H st -> boxes st !! id = Some m -> boxes st !! id' = Some m' -> id' <> id ->
  untouched id m st (deliver_mailbox id' msg st).
Proof.
  intros Hi Hm Hm' Hne. unfold deliver_mailbox. rewrite Hm'.
  destruct (mb_sink m') as [s|] eqn:Hs.
  - apply untouched_emit_plain. repeat constructor. intros Hs'.
    pose proof (ri_mbsink _ _ Hi _ _ _ Hm Hs').
    pose proof (ri_mbsink _ _ Hi _ _ _ Hm' Hs). congruence.
  - case_decide; [|done]. split; simpl; [by rewrite lookup_insert_ne|done|].
    exists []. by rewrite app_nil_r.
Qed.

Lemma untouched_deliver_claim msg st :
  route_inv H st -> boxes st !! id = Some m -> untouched id m st (deliver_claim cid msg st).
Proof.
  intros Hi Hm. unfold deliver_claim.
  destruct (claimObjs st !! cid) as [c|] eqn:Hc; [|done].
  destruct (cl_sink c) as [s|] eqn:Hs.
  - apply untouched_emit_plain. repeat constructor. intros Hs'.
    pose proof (ri_mbsink _ _ Hi _ _ _ Hm Hs').
    pose proof (ri_clsink _ _ Hi _ _ _ Hc Hs). congruence.
  - case_decide; [|done]. by apply untouched_frame.
Qed.

(** The mailbox a claim owns under a peer is one it claimed. *)
Lemma ownedMailbox_owned c peer now st :
  route_inv H st -> claimObjs st !! cid = Some c -> boxes st !! id = Some m ->
  untouched id m st (ownedMailbox c peer now st).2 /\
  (forall m', (ownedMailbox c peer now st).1 = Some m' ->
     boxes (ownedMailbox c peer now st).2 !! mb_id m' = Some m' /\ mb_id m' <> id).
Proof.
  intros Hi Hc Hm. unfold ownedMailbox.
  destruct (assoc_get peer (cl_peers c)) as [mid|] eqn:Hp; [|done].
  destruct (ri_route _ _ Hi _ _ _ _ Hc Hp) as (m0 & Hm0 & Hc0 & _).
  assert (mid <> id) as Hne by congruence.
  unfold getMailbox, lookup_mailbox. destruct (decide (mid ∈ mailboxes st)); [|done].
  rewrite Hm0. destruct (is_expired (mb_expiresAt m0) now).
  { split; [by apply untouched_removeMailbox|done]. }
  case_decide; simpl; [|done]. split; [done|]. intros m' ?. simplify_eq.
  by rewrite (ri_mid _ _ Hi _ _ Hm0).
Qed.

Lemma untouched_finish id' m' msg st :
  route_inv H st -> boxes st !! id = Some m -> boxes st !! id' = Some m' -> id' <> id ->
  untouched id m st (finish_mailbox id' msg st).
Proof.
  intros Hi Hm Hm' Hne. unfold finish_mailbox.
  etrans; [by eapply untouched_deliver_mailbox|]. by apply untouched_removeMailbox.
Qed.
End Isolation.

Lemma claim_message_untouched b s cid id m parsed now :
  exchange_inv b -> clHandles b !! s = Some cid -> boxes (store b) !! id = Some m ->
  mb_claimedBy m <> Some cid ->
  untouched id m (store b) (store (claim_message s parsed now b)).
Proof.
  intros Hi Hs Hm Hother. unfold claim_message. rewrite Hs.
  destruct parsed as [msg|]; [|by apply untouched_emit_plain; repeat constructor].
  destruct (claimObjs (store b) !! cid) as [c|] eqn:Hc; [|by destruct msg as [| | |[]]].
  assert (forall p st, untouched id m st (delete_peer cid p st)) as Hdp
    by (intros; by apply untouched_frame).
  destruct msg as [p sh ad|p tag|p sd|[p|] reason]; simpl.
  5:{ etrans; [by apply (untouched_frame id m _ (destroyClaim cid (store b)))|].
      apply untouched_emit_plain. by repeat constructor. }
  all: destruct (ownedMailbox_owned (socks b) cid id m Hother c p now (store b) Hi Hc Hm)
         as [Hu Ho];
       pose proof (ownedMailbox_route (socks b) c p now (store b) Hi) as Hi';
       destruct (ownedMailbox c p now (store b)) as [owned st'] eqn:Hrun; simpl in *;
       assert (boxes st' !! id = Some m) as Hm' by (by rewrite (un_box _ _ _ _ Hu));
       (etrans; [exact Hu|]);
       (destruct owned as [m'|]; [destruct (Ho m' eq_refl) as [Hm1 Hne]|]); simpl;
       try (by eapply untouched_deliver_claim); try apply Hdp.
  - apply untouched_emit_plain. by repeat constructor.
  - by eapply untouched_deliver_mailbox.
  - etrans; [|apply Hdp]. by eapply untouched_finish.
  - etrans; [|apply Hdp]. by eapply untouched_finish.
Qed.

Lemma deliver_mailbox_claimObjs id msg st :
  claimObjs (deliver_mailbox id msg st) = claimObjs st.
Proof. unfold deliver_mailbox. by repeat case_match. Qed.

Lemma finish_mailbox_claimObjs id msg st :
  claimObjs (finish_mailbox id msg st) = claimObjs st.
Proof.
  unfold finish_mailbox, destroyMailbox.
  destruct (removeMailbox_frame id (deliver_mailbox id msg st)) as (_&->&_).
  apply deliver_mailbox_claimObjs.
Qed.

Lemma ownedMailbox_claimObjs c p now st :
  claimObjs (ownedMailbox c p now st).2 = claimObjs st.
Proof.
  unfold ownedMailbox, getMailbox. repeat case_match; simplify_eq/=; try done;
    by destruct (removeMailbox_frame s st) as (_&?&_).
Qed.

Lemma burnPeers_untouched H cid id m c ps now st :
  route_inv H st -> claimObjs st !! cid = Some c -> boxes st !! id = Some m ->
  mb_claimedBy m <> Some cid -> untouched id m st (burnPeers c ps now st).
Proof.
  intros Hi Hc Hm Hother. revert st Hi Hc Hm.
  induction ps as [|p ps IH]; intros st Hi Hc Hm; [done|]. simpl.
  destruct (ownedMailbox_owned H cid id m Hother c p now st Hi Hc Hm) as [Hu Ho].
  pose proof (ownedMailbox_route H c p now st Hi) as Hi'.
  pose proof (ownedMailbox_claimObjs c p now st) as Hc'.
  destruct (ownedMailbox c p now st) as [owned st'] eqn:Hrun; simpl in *.
  assert (boxes st' !! id = Some m) as Hm' by (by rewrite (un_box _ _ _ _ Hu)).
  etrans; [exact Hu|].
  destruct owned as [m'|]; [destruct (Ho m' eq_refl) as [Hm1 Hne]|].
  2:{ apply IH; [done|by rewrite Hc'|done]. }
  assert (untouched id m st' (finish_mailbox (mb_id m')
    (PairFailedMessage (Some p) confirmation_failed) st')) as Hf by (by eapply untouched_finish).
  etrans; [exact Hf|]. apply IH.
  - by apply finish_mailbox_route.
  - by rewrite finish_mailbox_claimObjs, Hc'.
  - by rewrite (un_box _ _ _ _ Hf).
Qed.

(** A claim's socket has no reach beyond the codes it burned.  Whatever a
    claimant sends, well-formed or not, on whatever peer handle, and when its
    socket closes, a mailbox claimed by somebody else, or by nobody, keeps
    its state and its liveness and is sent nothing. *)
Theorem claim_isolation b s cid id m parsed now :
  reachable b -> clHandles b !! s = Some cid -> boxes (store b) !! id = Some m ->
  mb_claimedBy m <> Some cid ->
  untouched id m (store b) (store (claim_message s parsed now b)) /\
  untouched id m (store b) (store (claim_close s now b)).
Proof.
  intros Hr%reachable_inv Hs Hm Hother. split; [by eapply claim_message_untouched|].
  unfold claim_close. rewrite Hs.
  destruct (claimObjs (store b) !! cid) as [c|] eqn:Hc; [|done].
  etrans; [by eapply burnPeers_untouched|]. by apply untouched_frame.
Qed.

(** ** Every way a claim can end burns its codes *)

Lemma removeMailbox_gone id st : is_Some (boxes st !! id) -> id ∉ mailboxes (removeMailbox id st).
Proof.
  intros [m Hm]. unfold removeMailbox, lookup_mailbox.
  case_decide as Hin; [|done]. rewrite Hm. case_match; simpl; set_solver.
Qed.

(** One turn of the loop: whatever the peer routed to is gone. *)
Lemma burn_one H cid c p mid now st :
  route_inv H st -> claimObjs st !! cid = Some c -> assoc_get p (cl_peers c) = Some mid ->
  mid ∉ mailboxes (burnPeers c [p] now st).
Proof.
  intros Hi Hc Hp. destruct (ri_route _ _ Hi _ _ _ _ Hc Hp) as (m & Hm & Hcl & _).
  simpl. unfold ownedMailbox. rewrite Hp. unfold getMailbox, lookup_mailbox.
  destruct (decide (mid ∈ mailboxes st)) as [Hin|]; [|done]. rewrite Hm.
  destruct (is_expired (mb_expiresAt m) now).
  { apply removeMailbox_gone. eauto. }
  rewrite (ri_cid _ _ Hi _ _ Hc). rewrite decide_True by done.
  rewrite (ri_mid _ _ Hi _ _ Hm). apply removeMailbox_gone.
  destruct (deliver_mailbox_le mid (PairFailedMessage (Some p) confirmation_failed) st) as [Hle _].
  destruct (Hle _ _ Hm) as (m' & Hm' & _). eauto.
Qed.

Lemma burnPeers_app c ps1 ps2 now st :
  burnPeers c (ps1 ++ ps2) now st = burnPeers c ps2 now (burnPeers c ps1 now st).
Proof.
  revert st. induction ps1 as [|p ps IH]; intros st; [done|]. simpl.
  destruct (ownedMailbox c p now st) as [[m|] st']; apply IH.
Qed.

Lemma burnPeers_claimObjs c ps now st : claimObjs (burnPeers c ps now st) = claimObjs st.
Proof.
  revert st. induction ps as [|p ps IH]; intros st; [done|]. simpl.
  pose proof (ownedMailbox_claimObjs c p now st) as Hc.
  destruct (ownedMailbox c p now st) as [[m|] st']; simpl in Hc; rewrite IH; [|done].
  by rewrite finish_mailbox_claimObjs.
Qed.

Lemma burnPeers_all H cid c ps p mid now st :
  route_inv H st -> claimObjs st !! cid = Some c -> assoc_get p (cl_peers c) = Some mid ->
  p ∈ ps -> mid ∉ mailboxes (burnPeers c ps now st).
Proof.
  intros Hi Hc Hp (l1 & l2 & ->)%list_elem_of_split.
  change (p :: l2) with ([p] ++ l2). rewrite !burnPeers_app.
  pose proof (burnPeers_route H c l1 now st Hi) as Hi1.
  assert (claimObjs (burnPeers c l1 now st) !! cid = Some c) as Hc1 by (by rewrite burnPeers_claimObjs).
  pose proof (burn_one H cid c p mid now _ Hi1 Hc1 Hp) as Hgone.
  pose proof (burnPeers_route H c [p] now _ Hi1) as Hi2.
  destruct (ri_route _ _ Hi2 cid c p mid) as (m & Hm & _); [by rewrite burnPeers_claimObjs|done|].
  destruct (burnPeers_step c l2 now (burnPeers c [p] now (burnPeers c l1 now st))) as [[Hle _] _].
  destruct (Hle _ _ Hm) as (m' & _ & _ & Hd). by apply Hd.
Qed.

(** Abandoning an attempt burns it.  When a claim's socket closes, for
    any reason and at any moment, every mailbox its peer handles still route
    to is destroyed, the claim is gone from the store and its CPace payload is
    dropped. *)
Theorem claim_close_burns b s cid c now :
  reachable b -> clHandles b !! s = Some cid -> claimObjs (store b) !! cid = Some c ->
  (forall p mid, assoc_get p (cl_peers c) = Some mid ->
     mid ∉ mailboxes (store (claim_close s now b))) /\
  cid ∉ claims (store (claim_close s now b)) /\
  claimPayloads (claim_close s now b) !! cid = None.
Proof.
  intros Hr%reachable_inv Hs Hc. unfold claim_close. rewrite Hs, Hc. simpl. split; [|split].
  - intros p mid Hp. apply (burnPeers_all (socks b) cid c _ p mid); [done..|].
    apply assoc_get_elem in Hp. apply list_elem_of_fmap. by exists (p, mid).
  - set_solver.
  - by apply lookup_delete_eq.
Qed.

(** C18: a wrong guess burns the code.  When a claimant reports that
    confirmation failed on [peer], the mailbox it owns under that handle is
    destroyed, its holder is told [confirmation_failed] on its socket (or on
    attaching), and the handle routes nowhere any more. *)
Theorem wrong_guess_burns b s cid c peer mid m reason now :
  reachable b -> clHandles b !! s = Some cid -> claimObjs (store b) !! cid = Some c ->
  assoc_get peer (cl_peers c) = Some mid -> lookup_mailbox (store b) mid = Some m ->
  now < mb_expiresAt m ->
  let b' := claim_message s (Some (PairCloseMessage (Some peer) reason)) now b in
  mid ∉ mailboxes (store b') /\
  (exists c', claimObjs (store b') !! cid = Some c' /\ assoc_get peer (cl_peers c') = None) /\
  (forall hs, mb_sink m = Some hs ->
     sent (store b') = sent (store b) ++
       [SendPair hs (PairFailedMessage (Some peer) confirmation_failed)]).
Proof.
  intros Hr%reachable_inv Hs Hc Hp Hm Hexp.
  unfold lookup_mailbox in Hm. case_decide as Hin; [|done].
  destruct (ri_route _ _ Hr _ _ _ _ Hc Hp) as (m' & Hm' & Hcl & _). simplify_eq.
  assert (ownedMailbox c peer now (store b) = (Some m, store b)) as Hown.
  { unfold ownedMailbox, getMailbox, lookup_mailbox.
    rewrite Hp, decide_True, Hm by done. unfold is_expired.
    rewrite (proj2 (Z.leb_gt _ _)) by done.
    by rewrite (ri_cid _ _ Hr _ _ Hc), decide_True. }
  unfold claim_message. rewrite Hs, Hc, Hown. simpl. rewrite (ri_mid _ _ Hr _ _ Hm).
  split; [|split].
  - apply removeMailbox_gone.
    destruct (deliver_mailbox_le mid (PairFailedMessage (Some peer) confirmation_failed) (store b)) as [Hle _].
    destruct (Hle _ _ Hm) as (m' & Hm' & _). eauto.
  - rewrite finish_mailbox_claimObjs, lookup_alter, decide_True, Hc by done.
    eexists. split; [done|]. apply assoc_get_del_eq.
  - intros hs Hhs. unfold finish_mailbox, destroyMailbox.
    destruct (removeMailbox_frame mid (deliver_mailbox mid
      (PairFailedMessage (Some peer) confirmation_failed) (store b))) as (_&_&_&Hsent&_).
    simpl in Hsent. rewrite Hsent. unfold deliver_mailbox. by rewrite Hm, Hhs.
Qed.

(** ** A claim burns every code on its slot *)


(** ** A claim burns every code on its slot *)

(** The mailbox a claim routes [peer] to. *)
Definition peer_of (st : MailboxStore) (cid peer : string) : option string :=
  claimObjs st !! cid ≫= fun c => assoc_get peer (cl_peers c).

(** The turn of the fan-out loop that wins a mailbox. *)
Definition fan_one (cid : string) (pl : Payload) (m : Mailbox) (peer : string)
    (st : MailboxStore) : MailboxStore :=
  deliver_mailbox (mb_id m) (PairPeerShareMessage peer (p_share pl) (p_ad pl) (p_sid pl))
    (set_peer cid peer (mb_id m)
       (set_boxes (<[mb_id m := mb_with_claim cid peer m]> (boxes st)) st)).

Lemma fanOut_cons cid pl m peer live st :
  boxes st !! mb_id m = Some m -> mb_claimedBy m = None ->
  fanOut cid pl ((m, peer) :: live) st = fanOut cid pl live (fan_one cid pl m peer st).
Proof. intros Hm Hc. simpl. by rewrite (claimMailbox_true _ _ _ _ m). Qed.

Lemma deliver_mailbox_box id id' msg st :
  id <> id' -> boxes (deliver_mailbox id msg st) !! id' = boxes st !! id'.
Proof.
  intros Hne. unfold deliver_mailbox. repeat case_match; try done. simpl.
  by rewrite lookup_insert_ne.
Qed.

Lemma fan_one_box cid pl m peer st id :
  id <> mb_id m -> boxes (fan_one cid pl m peer st) !! id = boxes st !! id.
Proof.
  intros Hne. unfold fan_one. rewrite deliver_mailbox_box by done. simpl.
  by rewrite lookup_insert_ne.
Qed.

Lemma fan_one_peer cid pl m peer st p :
  is_Some (claimObjs st !! cid) ->
  peer_of (fan_one cid pl m peer st) cid p =
  (if decide (p = peer) then Some (mb_id m) else peer_of st cid p).
Proof.
  intros [c Hc]. unfold fan_one, peer_of. rewrite deliver_mailbox_claimObjs. simpl.
  rewrite lookup_alter, decide_True, Hc by done. simpl.
  case_decide; subst; [by rewrite assoc_get_set_eq|by rewrite assoc_get_set_ne].
Qed.

Lemma fan_one_claim cid pl m peer st :
  is_Some (claimObjs st !! cid) -> is_Some (claimObjs (fan_one cid pl m peer st) !! cid).
Proof.
  intros [c Hc]. unfold fan_one. rewrite deliver_mailbox_claimObjs. simpl.
  rewrite lookup_alter, decide_True, Hc by done. by eexists.
Qed.

(** What a won mailbox looks like: claimed, routed, and its holder told. *)
Record claimed_by (cid : string) (pl : Payload) (m : Mailbox) (peer : string)
    (st : MailboxStore) : Prop := mkClaimedBy {
  cb_box : exists m', boxes st !! mb_id m = Some m' /\ mb_claimedBy m' = Some cid /\
    mb_peer m' = Some peer /\
    (mb_sink m = None -> (length (mb_pending m) < MAX_PENDING)%nat ->
     PairPeerShareMessage peer (p_share pl) (p_ad pl) (p_sid pl) ∈ mb_pending m');
  cb_route : peer_of st cid peer = Some (mb_id m);
  cb_told : forall hs, mb_sink m = Some hs ->
    SendPair hs (PairPeerShareMessage peer (p_share pl) (p_ad pl) (p_sid pl)) ∈ sent st;
}.

Lemma fan_one_claimed cid pl m peer st :
  boxes st !! mb_id m = Some m -> is_Some (claimObjs st !! cid) ->
  claimed_by cid pl m peer (fan_one cid pl m peer st).
Proof.
  intros Hm Hc. split.
  - unfold fan_one, deliver_mailbox. simpl. rewrite lookup_insert_eq. simpl.
    destruct (mb_sink m) eqn:Hs; simpl.
    { rewrite lookup_insert_eq. by eexists. }
    case_decide; simpl; rewrite lookup_insert_eq; eexists; (split; [done|]); simpl;
      repeat (split; [done|]); intros _ Hlt; [|by apply H in Hlt].
    apply elem_of_app. right. by left.
  - rewrite fan_one_peer by done. by rewrite decide_True.
  - intros hs Hs. unfold fan_one, deliver_mailbox. simpl. rewrite lookup_insert_eq. simpl.
    rewrite Hs. simpl. apply elem_of_app. right. by left.
Qed.

Lemma claimed_by_frame cid pl m peer st st' :
  claimed_by cid pl m peer st -> boxes st' !! mb_id m = boxes st !! mb_id m ->
  peer_of st' cid peer = peer_of st cid peer -> sent st `prefix_of` sent st' ->
  claimed_by cid pl m peer st'.
Proof.
  intros [Hb Hr Ht] Eb Er [os Es]. split; [by rewrite Eb|by rewrite Er|].
  intros hs Hs. rewrite Es. apply elem_of_app. left. by apply Ht.
Qed.

(** The rest of the loop keeps what the first turns won. *)
Lemma fanOut_frame cid pl live st id p :
  is_Some (claimObjs st !! cid) ->
  Forall (fun mp => boxes st !! mb_id mp.1 = Some mp.1 /\ mb_claimedBy mp.1 = None) live ->
  NoDup (map (fun mp => mb_id mp.1) live) ->
  id ∉ map (fun mp => mb_id mp.1) live -> p ∉ map snd live ->
  boxes (fanOut cid pl live st) !! id = boxes st !! id /\
  peer_of (fanOut cid pl live st) cid p = peer_of st cid p.
Proof.
  revert st. induction live as [|[m peer] live IH]; intros st Hc Hall Hnd Hid Hp; [done|].
  apply Forall_cons in Hall as [[Hm Hcl] Hall]. simpl in *.
  apply NoDup_cons in Hnd as [Hnin Hnd].
  rewrite not_elem_of_cons in Hid, Hp. destruct Hid, Hp.
  rewrite (claimMailbox_true _ _ _ _ m) by done.
  change (deliver_mailbox _ _ _) with (fan_one cid pl m peer st).
  destruct (IH (fan_one cid pl m peer st)) as [-> ->]; try done.
  - by apply fan_one_claim.
  - rewrite Forall_forall in *. intros [m' p'] Hin. destruct (Hall _ Hin). simpl in *.
    rewrite fan_one_box; [done|]. intros Heq. apply Hnin. rewrite <- Heq.
    apply list_elem_of_fmap. by exists (m', p').
  - by rewrite fan_one_box, fan_one_peer, decide_False by done.
Qed.

Lemma fanOut_claims_all cid pl live st m peer :
  is_Some (claimObjs st !! cid) ->
  Forall (fun mp => boxes st !! mb_id mp.1 = Some mp.1 /\ mb_claimedBy mp.1 = None) live ->
  NoDup (map (fun mp => mb_id mp.1) live) -> NoDup (map snd live) ->
  (m, peer) ∈ live -> claimed_by cid pl m peer (fanOut cid pl live st).
Proof.
  revert st. induction live as [|[m0 p0] live IH];
    intros st Hc Hall Hnd Hndp Hin; [by apply not_elem_of_nil in Hin|].
  pose proof Hall as [[Hm Hcl] Hall']%Forall_cons. simpl in *.
  pose proof Hnd as [Hnin Hnd']%NoDup_cons. pose proof Hndp as [Hninp Hndp']%NoDup_cons.
  rewrite (claimMailbox_true _ _ _ _ m0) by done.
  change (deliver_mailbox _ _ _) with (fan_one cid pl m0 p0 st).
  assert (Forall (fun mp => boxes (fan_one cid pl m0 p0 st) !! mb_id mp.1 = Some mp.1 /\
                            mb_claimedBy mp.1 = None) live) as Hall1.
  { rewrite Forall_forall in *. intros [m' p'] Hin'. destruct (Hall' _ Hin'). simpl in *.
    rewrite fan_one_box; [done|]. intros Heq. apply Hnin. rewrite <- Heq.
    apply list_elem_of_fmap. by exists (m', p'). }
  pose proof (fan_one_claim cid pl m0 p0 st Hc) as Hc1.
  apply elem_of_cons in Hin as [Heq|Hin]; [|by apply IH]. simplify_eq.
  destruct (fanOut_frame cid pl live (fan_one cid pl m0 p0 st) (mb_id m0) p0) as [Eb Er]; try done.
  eapply claimed_by_frame; [by apply fan_one_claimed|done|done|].
  destruct (fanOut_step cid pl live (fan_one cid pl m0 p0 st)) as [[_ Hs] _]. exact Hs.
Qed.

Lemma expire_slot_ids ids now st :
  store_wf st -> map mb_id (expire_slot ids now st).1 `sublist_of` ids.
Proof.
  revert st. induction ids as [|id ids IH]; intros st Hwf; [done|]. simpl.
  destruct (lookup_mailbox st id) as [e|] eqn:He.
  2:{ apply sublist_cons, IH. by apply removeMailbox_wf. }
  case_match; [apply sublist_cons, IH; by apply removeMailbox_wf|].
  specialize (IH st Hwf). destruct (expire_slot ids now st) as [live st']. simpl in *.
  unfold lookup_mailbox in He. case_decide; [|done].
  rewrite (wf_id _ Hwf _ _ He). by apply sublist_skip.
Qed.

Lemma liveMailboxesForSlot_NoDup slot now st :
  store_wf st -> NoDup (map mb_id (liveMailboxesForSlot slot now st).1).
Proof.
  intros Hwf. unfold liveMailboxesForSlot. destruct (bySlot st !! slot) as [ids|] eqn:Hs.
  2:{ apply NoDup_nil_2. }
  pose proof (expire_slot_ids ids now st Hwf) as Hsub.
  destruct (expire_slot ids now st) as [live st']. simpl in *.
  destruct (wf_slot _ Hwf _ _ Hs) as (_ & Hnd & _).
  eapply sublist_NoDup; [exact Hnd|]. etrans; [|exact Hsub].
  apply (fmap_sublist mb_id). apply sublist_filter.
Qed.

(** The store a fresh claim fans out on. *)
Definition attached_store (cid : string) (s : sock) (now : Z) (st : MailboxStore) : MailboxStore :=
  extendClaim MAILBOX_TTL_MS cid now (attach_claim cid s st).

Lemma attachClaimSocket_ok b cid s ps now c :
  lookup_claim (store b) cid = Some c -> now < cl_expiresAt c -> cl_sink c = None ->
  (chargeBudgets (cl_slot c) now b).1 = true ->
  attachClaimSocket cid s ps now b =
  settleClaim cid s (fanOutClaim cid (cl_slot c) ps now
    (set_store (attached_store cid s now (store b)) (chargeBudgets (cl_slot c) now b).2)).
Proof.
  intros Hc Hexp Hsink Hok. unfold attachClaimSocket, getClaim. rewrite Hc.
  unfold is_expired. rewrite (proj2 (Z.leb_gt _ _)) by done. rewrite Hsink.
  replace (set_store (store b) b) with b by (by destruct b).
  pose proof (chargeBudgets_store (cl_slot c) now b) as Hst.
  destruct (chargeBudgets (cl_slot c) now b) as [ok b1]. simpl in *. subst ok. simpl.
  unfold on_store. simpl. by rewrite Hst.
Qed.

Lemma chargeBudgets_payloads slot now b :
  claimPayloads (chargeBudgets slot now b).2 = claimPayloads b.
Proof.
  unfold chargeBudgets. destruct (RateLimiter.take _ _ _) as [[] sl]; [|done]. simpl.
  by destruct (RateLimiter.take _ _ _) as [[] gl].
Qed.

Lemma attached_store_frame cid s now st :
  boxes (attached_store cid s now st) = boxes st /\
  mailboxes (attached_store cid s now st) = mailboxes st /\
  bySlot (attached_store cid s now st) = bySlot st /\
  store_step st (attached_store cid s now st) /\
  (forall c, claimObjs st !! cid = Some c ->
     exists c', claimObjs (attached_store cid s now st) !! cid = Some c' /\
       cl_peers c' = cl_peers c).
Proof.
  unfold attached_store. split; [|split; [|split; [|split]]].
  1-3: unfold attach_claim; by case_match.
  - etrans; [apply attach_claim_step|apply extendClaim_step].
  - intros c Hc. unfold attach_claim. rewrite Hc. simpl.
    rewrite lookup_alter, decide_True, lookup_insert_eq by done. by eexists.
Qed.

Lemma settleClaim_frame cid s b :
  boxes (store (settleClaim cid s b)) = boxes (store b) /\
  claimObjs (store (settleClaim cid s b)) = claimObjs (store b) /\
  sent (store b) `prefix_of` sent (store (settleClaim cid s b)).
Proof.
  unfold settleClaim. destruct (claimObjs (store b) !! cid); [|done].
  case_decide; [|done]. simpl. repeat split. rewrite <- app_assoc. by apply prefix_app_r.
Qed.

Lemma zip_covers {A B} (l : list A) (k : list B) x :
  x ∈ l -> (length l <= length k)%nat -> exists y, (x, y) ∈ zip l k.
Proof.
  intros Hx Hlen. rewrite <- (fst_zip l k Hlen) in Hx.
  apply list_elem_of_fmap in Hx as ([x' y] & -> & Hin). by exists y.
Qed.

Lemma zip_snd_NoDup {A B} (l : list A) (k : list B) :
  NoDup k -> NoDup (map snd (zip l k)).
Proof.
  intros Hnd. eapply sublist_NoDup; [exact Hnd|]. clear Hnd. revert k.
  induction l as [|x l IH]; intros [|y k]; simpl; try apply sublist_nil_l.
  by apply sublist_skip.
Qed.

Lemma live_length slot now st :
  store_wf st -> (length (liveMailboxesForSlot slot now st).1 <= 2)%nat.
Proof.
  intros Hwf. unfold liveMailboxesForSlot. destruct (bySlot st !! slot) as [ids|] eqn:Hs; [|simpl; lia].
  pose proof (expire_slot_ids ids now st Hwf) as Hsub%sublist_length.
  destruct (expire_slot ids now st) as [live st']. simpl in *. rewrite length_map in Hsub.
  pose proof (length_filter (fun m => mb_claimedBy m = None) live).
  destruct (wf_slot _ Hwf _ _ Hs) as (_ & _ & Hlen & _).
  unfold MAX_MAILBOXES_PER_SLOT, MAX_PEERS_PER_SLOT in Hlen. lia.
Qed.

Lemma liveMailboxesForSlot_frame slot now st :
  boxes (liveMailboxesForSlot slot now st).2 = boxes st /\
  claimObjs (liveMailboxesForSlot slot now st).2 = claimObjs st.
Proof.
  unfold liveMailboxesForSlot. destruct (bySlot st !! slot) as [ids|]; [|done].
  pose proof (expire_slot_boxes ids now st). destruct (expire_slot_frame ids now st).
  by destruct (expire_slot ids now st).
Qed.

(** Quoting a slot burns every code on it.  When a claim's socket attaches
    within the guessing budgets, every pending mailbox of its slot that is
    live and unclaimed is bound to that claim under a handle of its own, the
    claim routes the handle to it, and its holder is sent the claimant's share
    (on its socket, or in its buffer unless that is full). *)
Theorem attach_claims_slot b cid s ps now c pl id m :
  reachable b -> lookup_claim (store b) cid = Some c -> now < cl_expiresAt c ->
  cl_sink c = None -> claimPayloads b !! cid = Some pl ->
  (chargeBudgets (cl_slot c) now b).1 = true -> NoDup ps -> (2 <= length ps)%nat ->
  lookup_mailbox (store b) id = Some m -> mb_slot m = cl_slot c ->
  now < mb_expiresAt m -> mb_claimedBy m = None ->
  exists peer, peer ∈ ps /\ claimed_by cid pl m peer (store (attachClaimSocket cid s ps now b)).
Proof.
  intros Hr Hc Hexp Hsink Hpl Hok Hnd Hlen Hm Hsl Hmexp Hun.
  rewrite (attachClaimSocket_ok b cid s ps now c) by done.
  pose proof (chargeBudgets_payloads (cl_slot c) now b) as Hpls.
  destruct (chargeBudgets (cl_slot c) now b) as [ok b1]. simpl in *.
  destruct (attached_store_frame cid s now (store b)) as (Hb & Hml & Hby & [_ Hwf] & Hcl).
  specialize (Hwf (reachable_wf _ Hr)).
  set (st := attached_store cid s now (store b)) in *.
  unfold lookup_mailbox in Hm. case_decide as Hin; [|done].
  assert (mb_id m = id) as Hid by (by eapply ri_mid; [apply (reachable_inv _ Hr)|]). subst id.
  pose proof (liveMailboxesForSlot_spec (cl_slot c) now st) as Hspec.
  pose proof (liveMailboxesForSlot_NoDup (cl_slot c) now st Hwf) as Hndl.
  pose proof (live_length (cl_slot c) now st Hwf) as Hll.
  assert (boxes (liveMailboxesForSlot (cl_slot c) now st).2 = boxes st /\
          claimObjs (liveMailboxesForSlot (cl_slot c) now st).2 = claimObjs st) as [Hbe Hce].
  { apply liveMailboxesForSlot_frame. }
  unfold fanOutClaim. simpl. rewrite Hpls, Hpl.
  destruct (liveMailboxesForSlot (cl_slot c) now st) as [live st'] eqn:Hrun. simpl in *.
  assert (m ∈ live) as Hmin by (apply Hspec; [done|]; by rewrite Hb, Hml).
  destruct (zip_covers live ps m) as [peer Hz]; [done|lia|].
  exists peer. split; [by eapply elem_of_zip_r|].
  destruct (settleClaim_frame cid s (set_store (fanOut cid pl (zip live ps) st') (set_store st b1)))
    as (Eb & Ec & Es). simpl in *.
  eapply claimed_by_frame; [|by rewrite Eb|by unfold peer_of; rewrite Ec|exact Es].
  apply fanOut_claims_all; [| | | |done].
  - rewrite Hce. unfold lookup_claim in Hc. case_decide; [|done].
    destruct (Hcl _ Hc) as (c' & Hc' & _). eauto.
  - apply Forall_forall. intros [m0 p0] Hz0. simpl.
    apply elem_of_zip_l, Hspec in Hz0; [|done]. rewrite Hbe. tauto.
  - rewrite <- (map_map fst mb_id). 
    assert (map fst (zip live ps) = live) as -> by (apply fst_zip; lia). done.
  - by apply zip_snd_NoDup.
Qed.

(** ** The two ways a claim can fail to attach *)

Lemma attachClaimSocket_refused b cid s ps now c :
  lookup_claim (store b) cid = Some c -> now < cl_expiresAt c -> cl_sink c = None ->
  (chargeBudgets (cl_slot c) now b).1 = false ->
  store (attachClaimSocket cid s ps now b) =
    emit [CloseSocket s 1013] (destroyClaim cid
      (emit [SendPair s (PairFailedMessage None rate_limited)] (store b))) /\
  claimPayloads (attachClaimSocket cid s ps now b) = delete cid (claimPayloads b) /\
  clHandles (attachClaimSocket cid s ps now b) = clHandles (chargeBudgets (cl_slot c) now b).2.
Proof.
  intros Hc Hexp Hsink Hok. unfold attachClaimSocket, getClaim. rewrite Hc.
  unfold is_expired. rewrite (proj2 (Z.leb_gt _ _)) by done. rewrite Hsink.
  replace (set_store (store b) b) with b by (by destruct b).
  pose proof (chargeBudgets_store (cl_slot c) now b) as Hst.
  pose proof (chargeBudgets_payloads (cl_slot c) now b) as Hpl.
  destruct (chargeBudgets (cl_slot c) now b) as [ok b1]. simpl in *. subst ok. simpl.
  by rewrite Hst, Hpl.
Qed.

(** A guess over budget spends nothing.  When the slot's or the broker's
    guessing budget refuses a claim, the claimant is told [rate_limited] and
    its socket closed with 1013; the claim and its payload are forgotten; and
    every mailbox is exactly as it was, still live and still unclaimed. *)
Theorem refused_guess_spends_nothing b cid s ps now c :
  lookup_claim (store b) cid = Some c -> now < cl_expiresAt c -> cl_sink c = None ->
  (chargeBudgets (cl_slot c) now b).1 = false ->
  let b' := attachClaimSocket cid s ps now b in
  boxes (store b') = boxes (store b) /\ mailboxes (store b') = mailboxes (store b) /\
  cid ∉ claims (store b') /\ claimPayloads b' !! cid = None /\
  sent (store b') = sent (store b) ++
    [SendPair s (PairFailedMessage None rate_limited); CloseSocket s 1013].
Proof.
  intros Hc Hexp Hsink Hok b'.
  destruct (attachClaimSocket_refused b cid s ps now c) as (Hst & Hpl & _); [done..|].
  unfold b'. rewrite Hst, Hpl. simpl. split; [done|]. split; [done|]. split; [set_solver|].
  split; [apply lookup_delete_eq|]. by rewrite <- app_assoc.
Qed.

Lemma attach_claim_sent cid s st c :
  claimObjs st !! cid = Some c -> cl_pending c = [] ->
  sent (attach_claim cid s st) = sent st.
Proof. intros Hc Hp. unfold attach_claim. rewrite Hc. simpl. by rewrite Hp, app_nil_r. Qed.

(** An empty slot answers late, and only on the socket.  A claim with no
    peers whose slot holds nothing live and unclaimed is told [peer_gone] on
    its own socket, which is closed with 1000; the claim and its payload are
    gone. *)
Theorem attach_nothing_waiting b cid s ps now c pl :
  reachable b -> lookup_claim (store b) cid = Some c -> now < cl_expiresAt c ->
  cl_sink c = None -> cl_peers c = [] -> cl_pending c = [] ->
  claimPayloads b !! cid = Some pl -> (chargeBudgets (cl_slot c) now b).1 = true ->
  (forall m, boxes (store b) !! mb_id m = Some m -> mb_id m ∈ mailboxes (store b) ->
     mb_slot m = cl_slot c -> now < mb_expiresAt m -> mb_claimedBy m <> None) ->
  let b' := attachClaimSocket cid s ps now b in
  sent (store b') = sent (store b) ++
    [SendPair s (PairFailedMessage None peer_gone); CloseSocket s 1000] /\
  cid ∉ claims (store b') /\ claimPayloads b' !! cid = None.
Proof.
  intros Hr Hc Hexp Hsink Hpeers Hpend Hpl Hok Hnone b'. unfold b'. clear b'.
  rewrite (attachClaimSocket_ok b cid s ps now c) by done.
  pose proof (chargeBudgets_payloads (cl_slot c) now b) as Hpls.
  destruct (chargeBudgets (cl_slot c) now b) as [ok b1]. simpl in *.
  destruct (attached_store_frame cid s now (store b)) as (Hb & Hml & _ & [_ Hwf] & Hcl).
  specialize (Hwf (reachable_wf _ Hr)).
  assert (claimObjs (store b) !! cid = Some c) as Hc0
    by (unfold lookup_claim in Hc; by case_decide).
  destruct (Hcl _ Hc0) as (c' & Hc' & Hp'). rewrite Hpeers in Hp'.
  pose proof (attach_claim_sent cid s (store b) c Hc0 Hpend) as Hs.
  change (sent (attach_claim cid s (store b)))
    with (sent (attached_store cid s now (store b))) in Hs.
  set (st := attached_store cid s now (store b)) in *.
  assert ((liveMailboxesForSlot (cl_slot c) now st).1 = []) as Hempty.
  { apply elem_of_nil_inv. intros m Hm. apply liveMailboxesForSlot_spec in Hm; [|done].
    rewrite Hb, Hml in Hm. destruct Hm as (?&?&?&?&?). by apply (Hnone m). }
  unfold fanOutClaim. simpl. rewrite Hpls, Hpl.
  destruct (liveMailboxesForSlot_frame (cl_slot c) now st) as [_ Hce].
  assert (sent (liveMailboxesForSlot (cl_slot c) now st).2 = sent st) as Hse.
  { unfold liveMailboxesForSlot. destruct (bySlot st !! cl_slot c) as [ids|]; [|done].
    destruct (expire_slot_frame ids now st) as [_ He]. by destruct (expire_slot ids now st). }
  destruct (liveMailboxesForSlot (cl_slot c) now st) as [live st']. simpl in *. subst live.
  unfold settleClaim. simpl. rewrite Hce, Hc', decide_True by done. simpl.
  rewrite Hse, Hs, <- app_assoc. split; [done|]. split; [set_solver|].
  by apply lookup_delete_eq.
Qed.
