(* ===== verification/PairingTraces.v ===== *)
(** * PairingTraces: concrete runs of the pairing broker

    A whole pairing through the handlers of [PairingBroker], for payloads of
    any content, and concrete reachable states at which the theorems of
    [PairingSafety] and [PairingExchange] are applied. *)

From Stdlib Require Import QArith.
From S2P Require Import Prelude RateLimit Protocol Mailbox PairingBroker PairingSafety.
From S2P Require Import PairingExchange.
#[local] Open Scope Z_scope.

(** ** A pairing from end to end *)

Definition v2 : RawV := VNumber (Some 2%Q).

Section Handshake.
Context (share ad sid share' ad' tag tag' descriptor : string).

Definition opened : PairBroker :=
  attachMailboxSocket "m1" 1%nat 1010
    (pairNew "10.0.0.1" v2 (Some None) (fun _ => ["123"%string]) "m1" 0 1000
       (createBroker 2 "" "")).2.

Definition quoted : PairBroker :=
  attachClaimSocket "c1" 2%nat ["p1"; "p2"]%string 2010
    (pairClaim "10.0.0.2" v2 (Some (mkClaimBody "123" share ad sid)) "c1" 2000 opened).2.

(** The holder answers with its share and tag, the claimant confirms, and
    the holder hands the sealed descriptor over. *)
Definition paired : PairBroker :=
  mailbox_message 1%nat (Some (PairEstablishMessage "p1" descriptor)) 2050
    (claim_message 2%nat (Some (PairConfirmMessage "p1" tag')) 2040
       (mailbox_message 1%nat (Some (PairConfirmMessage "p1" tag)) 2030
          (mailbox_message 1%nat (Some (PairShareMessage "p1" share' ad')) 2020 quoted))).

Lemma handshake_messages :
  sent (store paired) =
    [SendPair 1 (PairReadyMessage "m1" "123" 181000);
     SendPair 1 (PairPeerShareMessage "p1" share ad sid);
     SendPair 2 (PairPeerShareMessage "p1" share' ad' sid);
     SendPair 2 (PairPeerConfirmMessage "p1" tag);
     SendPair 1 (PairPeerConfirmMessage "p1" tag');
     SendPair 2 (PairEstablishedMessage "p1" descriptor)].
Proof. vm_compute. reflexivity. Qed.

(** The broker carries a pairing through.  On a fresh broker, a device
    that opens a mailbox and one that quotes its slot exchange exactly the
    five messages of the handshake, in order and unaltered, whatever their
    content; the mailbox is gone afterwards and the claim stays connected. *)
Theorem handshake_end_to_end :
  sent (store paired) =
    [SendPair 1 (PairReadyMessage "m1" "123" 181000);
     SendPair 1 (PairPeerShareMessage "p1" share ad sid);
     SendPair 2 (PairPeerShareMessage "p1" share' ad' sid);
     SendPair 2 (PairPeerConfirmMessage "p1" tag);
     SendPair 1 (PairPeerConfirmMessage "p1" tag');
     SendPair 2 (PairEstablishedMessage "p1" descriptor)] /\
  mailboxes (store paired) = ∅ /\ "c1"%string ∈ claims (store paired).
Proof.
  split; [apply handshake_messages|]. split; [vm_compute; reflexivity|].
  change (claims (store paired)) with (claims (store quoted)).
  vm_compute. reflexivity.
Qed.
End Handshake.

(** ** Reachable states *)

Definition fresh_check (s : sock) (b : PairBroker) : bool :=
  bool_decide (mbHandles b !! s = None) && bool_decide (clHandles b !! s = None)
  && bool_decide (Forall (fun o => out_sock o <> s) (sent (store b)))
  && bool_decide (map_Forall (fun _ c => cl_sink c <> Some s) (claimObjs (store b))).

Lemma fresh_check_sound s b : fresh_check s b = true -> sock_fresh s b.
Proof.
  unfold fresh_check. rewrite !andb_true_iff, !bool_decide_eq_true.
  intros [[[? ?] ?] Hc]. by split.
Qed.

(** Two codes opened on slot 123 by two holders, one of them attached, and a
    third on slot 456. *)
Definition w1 : PairBroker := (pairNew "10.0.0.1" v2 (Some None) (fun _ => ["123"%string]) "m1" 0 1000
  (createBroker 2 "" "")).2.
Definition w2 : PairBroker := attachMailboxSocket "m1" 1%nat 1010 w1.
Definition w3 : PairBroker :=
  (pairNew "10.0.0.3" v2 None (fun _ => ["123"%string]) "m2" 0 1020 w2).2.
Definition w4 : PairBroker :=
  (pairNew "10.0.0.4" v2 None (fun _ => ["456"%string]) "m3" 0 1030 w3).2.
Definition quote1 : ClaimBody := mkClaimBody "123" "share" "ad" "sid".
Definition w5 : PairBroker := (pairClaim "10.0.0.2" v2 (Some quote1) "c1" 2000 w4).2.
Definition w6 : PairBroker := attachClaimSocket "c1" 2%nat ["p1"; "p2"]%string 2010 w5.

Ltac fresh_by_compute := vm_compute; reflexivity.

Lemma w0_reachable : reachable (createBroker 2 "" "").
Proof. exists 2, ""%string, ""%string. apply rtc_refl. Defined.

Lemma w1_step : pstep (createBroker 2 "" "") w1.
Proof. unfold w1. apply st_new. fresh_by_compute. Defined.
Lemma w2_step : pstep w1 w2.
Proof. unfold w2. apply st_attach_mailbox, fresh_check_sound. fresh_by_compute. Defined.
Lemma w3_step : pstep w2 w3.
Proof. unfold w3. apply st_new. fresh_by_compute. Defined.
Lemma w4_step : pstep w3 w4.
Proof. unfold w4. apply st_new. fresh_by_compute. Defined.
Lemma w5_step : pstep w4 w5.
Proof. unfold w5. apply st_claim. fresh_by_compute. Defined.
Lemma w6_step : pstep w5 w6.
Proof. unfold w6. apply st_attach_claim, fresh_check_sound. fresh_by_compute. Defined.

Lemma w4_reachable : reachable w4.
Proof.
  eauto using reachable_step, w0_reachable, w1_step, w2_step, w3_step, w4_step.
Defined.
Lemma w5_reachable : reachable w5.
Proof. exact (reachable_step _ _ w4_reachable w5_step). Defined.
Lemma w6_reachable : reachable w6.
Proof. exact (reachable_step _ _ w5_reachable w6_step). Defined.

Definition w7 : PairBroker := claim_close 2%nat 2020 w6.

Definition box (b : PairBroker) (id : string) : Mailbox :=
  default (mkMailbox "" "" 0 0 None None None []) (boxes (store b) !! id).
Definition clm (b : PairBroker) (id : string) : Claim :=
  default (mkClaim "" "" 0 0 None [] []) (claimObjs (store b) !! id).

(** ** The theorems at those states *)

Lemma guess_spent_once_witness :
  exists m', boxes (store w7) !! "m1"%string = Some m' /\
    (forall c, mb_claimedBy (box w6 "m1") = Some c ->
       mb_claimedBy m' = Some c /\ mb_peer m' = mb_peer (box w6 "m1")) /\
    (forall slot now x, x ∈ (liveMailboxesForSlot slot now (store w7)).1 -> mb_id x <> "m1"%string).
Proof.
  apply (guess_spent_once w6 w7 "m1" (box w6 "m1")).
  - exact w6_reachable.
  - apply rtc_once. apply (st_claim_close w6 2%nat 2020).
  - vm_compute. reflexivity.
  - left. vm_compute. discriminate.
Defined.

Lemma slot_capacity_witness :
  Z.of_nat (length (mailboxes_on ["123"; "456"]%string (store w4))) <= 2 * 2 /\
  Z.of_nat (size (mailboxes (store w4))) <= 10000 /\
  (forall id m, boxes (store w4) !! id = Some m ->
     id ∈ mailboxes (store w4) <-> id ∈ mailboxes_on [mb_slot m] (store w4)).
Proof. exact (slot_capacity w4 ["123"; "456"]%string w4_reachable). Defined.

Lemma single_share_witness :
  boxes (store w6) !! "m1"%string = Some (box w6 "m1") /\
  (shares (socks w6) "m1" (box w6 "m1") (sent (store w6)) <= 1)%nat /\
  (mb_claimedBy (box w6 "m1") = None ->
   shares (socks w6) "m1" (box w6 "m1") (sent (store w6)) = 0%nat).
Proof.
  assert (boxes (store w6) !! "m1"%string = Some (box w6 "m1")) as Hm
    by (vm_compute; reflexivity).
  split; [exact Hm|]. exact (single_share w6 "m1" (box w6 "m1") w6_reachable Hm).
Defined.

Lemma routing_exclusive_witness :
  assoc_get "p1"%string (cl_peers (clm w6 "c1")) = Some "m1"%string /\
  "c1"%string = "c1"%string /\ "p1"%string = "p1"%string /\
  exists m, boxes (store w6) !! "m1"%string = Some m /\ mb_id m = "m1"%string /\
    mb_claimedBy m = Some "c1"%string /\ mb_peer m = Some "p1"%string.
Proof.
  assert (claimObjs (store w6) !! "c1"%string = Some (clm w6 "c1")) as Hc
    by (vm_compute; reflexivity).
  assert (assoc_get "p1"%string (cl_peers (clm w6 "c1")) = Some "m1"%string) as Hp
    by (vm_compute; reflexivity).
  split; [exact Hp|].
  exact (routing_exclusive w6 "c1" "c1" _ _ "p1" "p1" "m1" w6_reachable Hc Hc Hp Hp).
Defined.

Lemma claim_isolation_witness :
  let msg := Some (PairCloseMessage (Some "p1"%string) None) in
  untouched "m3" (box w6 "m3") (store w6) (store (claim_message 2%nat msg 2030 w6)) /\
  untouched "m3" (box w6 "m3") (store w6) (store (claim_close 2%nat 2030 w6)).
Proof.
  apply (claim_isolation w6 2%nat "c1" "m3" (box w6 "m3")).
  - exact w6_reachable.
  - vm_compute. reflexivity.
  - vm_compute. reflexivity.
  - vm_compute. discriminate.
Defined.

Lemma claim_close_burns_witness :
  (forall p mid, assoc_get p (cl_peers (clm w6 "c1")) = Some mid ->
     mid ∉ mailboxes (store (claim_close 2%nat 2020 w6))) /\
  "c1"%string ∉ claims (store (claim_close 2%nat 2020 w6)) /\
  claimPayloads (claim_close 2%nat 2020 w6) !! "c1"%string = None.
Proof.
  apply (claim_close_burns w6 2%nat "c1" (clm w6 "c1") 2020);
    [exact w6_reachable | vm_compute; reflexivity | vm_compute; reflexivity].
Defined.

Lemma wrong_guess_burns_witness :
  let b' := claim_message 2%nat (Some (PairCloseMessage (Some "p1"%string) None)) 2030 w6 in
  "m1"%string ∉ mailboxes (store b') /\
  (exists c', claimObjs (store b') !! "c1"%string = Some c' /\
     assoc_get "p1"%string (cl_peers c') = None) /\
  (forall hs, mb_sink (box w6 "m1") = Some hs ->
     sent (store b') = sent (store w6) ++
       [SendPair hs (PairFailedMessage (Some "p1"%string) confirmation_failed)]).
Proof.
  apply (wrong_guess_burns w6 2%nat "c1" (clm w6 "c1") "p1" "m1" (box w6 "m1") None 2030);
    [exact w6_reachable | vm_compute; reflexivity..].
Defined.

Lemma NoDup_p12 : NoDup ["p1"; "p2"]%string.
Proof. apply (bool_decide_unpack _). vm_compute. exact I. Defined.

Lemma attach_claims_slot_witness :
  exists peer, peer ∈ ["p1"; "p2"]%string /\
    claimed_by "c1" (mkPayload "share" "ad" "sid") (box w5 "m2") peer
      (store (attachClaimSocket "c1" 2%nat ["p1"; "p2"]%string 2010 w5)).
Proof.
  apply (attach_claims_slot w5 "c1" 2%nat ["p1"; "p2"]%string 2010 (clm w5 "c1")
           (mkPayload "share" "ad" "sid") "m2" (box w5 "m2"));
    [exact w5_reachable | vm_compute; reflexivity | vm_compute; reflexivity
    | vm_compute; reflexivity | vm_compute; reflexivity | vm_compute; reflexivity
    | exact NoDup_p12 | simpl; lia | vm_compute; reflexivity..].
Defined.

(** The slot's budget is four guesses a minute. *)
Definition w_spent : PairBroker :=
  set_guessLimiters (RateLimiter.takes [(slotKey "123", 1900); (slotKey "123", 1901);
    (slotKey "123", 1902); (slotKey "123", 1903)] (slotClaimLimiter w5)).2
    (globalClaimLimiter w5) w5.

Lemma refused_guess_spends_nothing_witness :
  let b' := attachClaimSocket "c1" 2%nat ["p1"; "p2"]%string 2010 w_spent in
  boxes (store b') = boxes (store w_spent) /\
  mailboxes (store b') = mailboxes (store w_spent) /\
  "c1"%string ∉ claims (store b') /\ claimPayloads b' !! "c1"%string = None /\
  sent (store b') = sent (store w_spent) ++
    [SendPair 2%nat (PairFailedMessage None rate_limited); CloseSocket 2%nat 1013].
Proof.
  apply (refused_guess_spends_nothing w_spent "c1" 2%nat ["p1"; "p2"]%string 2010 (clm w5 "c1"));
    vm_compute; reflexivity.
Defined.

(** A claim on a slot where nothing waits. *)
Definition quote9 : ClaimBody := mkClaimBody "999" "share" "ad" "sid".
Definition w9 : PairBroker := (pairClaim "10.0.0.2" v2 (Some quote9) "c9" 2000 w4).2.

Lemma w9_reachable : reachable w9.
Proof.
  eapply reachable_step; [exact w4_reachable|].
  unfold w9. apply st_claim. fresh_by_compute.
Defined.

Lemma w9_none : map_Forall (fun _ m => mb_slot m <> "999"%string) (boxes (store w9)).
Proof. apply (bool_decide_unpack _). vm_compute. exact I. Defined.

Lemma attach_nothing_waiting_witness :
  let b' := attachClaimSocket "c9" 2%nat [] 2010 w9 in
  sent (store b') = sent (store w9) ++
    [SendPair 2%nat (PairFailedMessage None peer_gone); CloseSocket 2%nat 1000] /\
  "c9"%string ∉ claims (store b') /\ claimPayloads b' !! "c9"%string = None.
Proof.
  apply (attach_nothing_waiting w9 "c9" 2%nat [] 2010 (clm w9 "c9") (mkPayload "share" "ad" "sid"));
    [exact w9_reachable | vm_compute; reflexivity.. | ].
  intros m Hm _ Hsl. destruct (w9_none _ _ Hm Hsl).
Defined.
