(* ===== verification/Bytes.v ===== *)
(** * Bytes: byte strings and their encodings

    [packages/crypto/src/bytes.ts].  A [Uint8Array] is the list of its
    elements, each in [[0, 256)] ([is_bytes]); a [Number] that only takes
    integer values is a [Z], and the bitwise operators act on its 32-bit image
    as ECMA-262 says ([ToInt32], [ToUint32]).  [bytesToHex], [hexToBytes],
    [randomBytes], [concatBytes] and [utf8ToBytes] are re-exports of
    [@noble/hashes]: concatenation is [++], the others are parameters of the
    components that use them. *)

From S2P Require Import Prelude.

Abbreviation bytes := (list Z).

Definition is_byte (b : Z) : Prop := 0 <= b < 256.
Definition is_bytes (bs : bytes) : Prop := Forall is_byte bs.

Definition ToUint32 (n : Z) : Z := n mod 2 ^ 32.
Definition ToInt32 (n : Z) : Z :=
  let u := n mod 2 ^ 32 in if u <? 2 ^ 31 then u else u - 2 ^ 32.

(** ** LEB128 and the length-prefixed concatenation *)

Definition LEB_FUEL : nat := 5.

(** The [do ... while (n > 0)] loop of [leb128]; [n >>>= 7] first reduces [n]
    to 32 bits, so five turns always end it ([leb128_fuel]). *)
Fixpoint leb128_loop (fuel : nat) (n : Z) : bytes :=
  match fuel with
  | O => []
  | S fuel =>
      let byte := Z.land n 127 in
      let n := Z.shiftr (ToUint32 n) 7 in
      if 0 <? n then Z.lor byte 128 :: leb128_loop fuel n else [byte]
  end.

Inductive LebError := NotNonNegative.

Definition leb128 (value : Z) : result LebError bytes :=
  if value <? 0 then Err NotNonNegative else Ok (leb128_loop LEB_FUEL value).

(** [leb128(value.length)], a length being never negative. *)
Definition leb_length (value : bytes) : bytes :=
  leb128_loop LEB_FUEL (Z.of_nat (length value)).

Definition prependLen (value : bytes) : bytes := leb_length value ++ value.

Definition lvCat (values : list bytes) : bytes := values ≫= prependLen.

(** ** Constant-time equality *)

Definition constantTimeEqual (a b : bytes) : bool :=
  if Nat.eqb (length a) (length b)
  then foldl (fun diff p => Z.lor diff (Z.lxor p.1 p.2)) 0 (zip a b) =? 0
  else false.

(** ** base64url *)

Definition B64URL_ALPHABET : jstr :=
  js "ABCDEFGHIJKLMNOPQRSTUVWXYZabcdefghijklmnopqrstuvwxyz0123456789-_".

Definition b64char (i : Z) : Z := nth (Z.to_nat i) B64URL_ALPHABET 0.

Fixpoint bytesToBase64Url (bs : bytes) : jstr :=
  match bs with
  | [] => []
  | [b0] => [b64char (Z.shiftr b0 2); b64char (Z.lor (Z.shiftl (Z.land b0 3) 4) (Z.shiftr 0 4))]
  | [b0; b1] =>
      [b64char (Z.shiftr b0 2);
       b64char (Z.lor (Z.shiftl (Z.land b0 3) 4) (Z.shiftr b1 4));
       b64char (Z.lor (Z.shiftl (Z.land b1 15) 2) (Z.shiftr 0 6))]
  | b0 :: b1 :: b2 :: bs =>
      b64char (Z.shiftr b0 2)
      :: b64char (Z.lor (Z.shiftl (Z.land b0 3) 4) (Z.shiftr b1 4))
      :: b64char (Z.lor (Z.shiftl (Z.land b1 15) 2) (Z.shiftr b2 6))
      :: b64char (Z.land b2 63)
      :: bytesToBase64Url bs
  end.

(** [B64URL_ALPHABET.indexOf(char)], [None] for a negative result. *)
Definition b64index (c : Z) : option Z :=
  Z.of_nat ∘ fst <$> list_find (fun x => x = c) B64URL_ALPHABET.

Inductive B64Error := InvalidCharacter.

(** The loop of [base64UrlToBytes] over the characters left, from [bits] and
    [acc], giving what it still writes. *)
Fixpoint b64_loop (clean : jstr) (bits acc : Z) : result B64Error bytes :=
  match clean with
  | [] => Ok []
  | char :: clean =>
      match b64index char with
      | None => Err InvalidCharacter
      | Some index =>
          let acc := Z.lor (ToInt32 (Z.shiftl acc 6)) index in
          let bits := bits + 6 in
          if 8 <=? bits then
            let bits := bits - 8 in
            rest ← b64_loop clean bits acc;
            Ok (Z.land (Z.shiftr acc bits) 255 :: rest)
          else b64_loop clean bits acc
      end
  end.

Definition base64UrlToBytes (text : jstr) : result B64Error bytes :=
  b64_loop (strip_end (fun c => c =? 61) text) 0 0.

(** [wipe]: the buffer, overwritten. *)
Definition wipe (bs : bytes) : bytes := map (fun _ => 0) bs.

(** ** LEB128 decodes *)

(** The reference decoder: value and the bytes left over. *)
Fixpoint unleb (bs : bytes) : option (Z * bytes) :=
  match bs with
  | [] => None
  | b :: bs =>
      if b <? 128 then Some (b, bs)
      else '(v, rest) ← unleb bs; Some (b - 128 + 128 * v, rest)
  end.

(** Or-ing a value below [2^k] into the bits above is an addition. *)
Lemma lor_shift a b k : 0 <= k -> 0 <= a < 2 ^ k -> Z.lor a (b * 2 ^ k) = a + b * 2 ^ k.
Proof.
  intros Hk Ha. rewrite <- Z.shiftl_mul_pow2 by lia.
  assert (Z.land a (Z.shiftl b k) = 0) as Hland.
  { apply Z.bits_inj'. intros n Hn. rewrite Z.land_spec, Z.bits_0.
    destruct (Z.lt_ge_cases n k) as [Hlt|Hge].
    - by rewrite Z.shiftl_spec_low, andb_false_r.
    - rewrite <- (Z.mod_small a (2 ^ k)) by done.
      by rewrite Z.mod_pow2_bits_high by lia. }
  by rewrite Z.add_nocarry_lxor, Z.lxor_lor by done.
Qed.

Lemma land_ones_mod n k : 0 <= k -> Z.land n (Z.ones k) = n mod 2 ^ k.
Proof. intros. by apply Z.land_ones. Qed.

(** One turn of the loop, as arithmetic. *)
Lemma leb128_loop_S fuel n :
  leb128_loop (S fuel) n =
  (if 0 <? ToUint32 n / 128 then n mod 128 + 128 :: leb128_loop fuel (ToUint32 n / 128)
   else [n mod 128]).
Proof.
  cbn [leb128_loop]. change 127 with (Z.ones 7). rewrite land_ones_mod by lia.
  rewrite Z.shiftr_div_pow2 by lia. change (2 ^ 7) with 128.
  pose proof (Z.mod_pos_bound n 128). case_match; [|done].
  f_equal. pose proof (lor_shift (n mod 128) 1 7) as Hl.
  change (1 * 2 ^ 7) with 128 in Hl. apply Hl; change (2 ^ 7) with 128; lia.
Qed.

Lemma ToUint32_range n : 0 <= ToUint32 n < 2 ^ 32.
Proof. unfold ToUint32. apply Z.mod_pos_bound. lia. Qed.

Lemma ToUint32_small n : 0 <= n < 2 ^ 32 -> ToUint32 n = n.
Proof. unfold ToUint32. apply Z.mod_small. Qed.

Lemma div_128_lt f n : n < 2 ^ (7 * Z.of_nat (S f)) -> n / 128 < 2 ^ (7 * Z.of_nat f).
Proof.
  intros Hf. apply Z.div_lt_upper_bound; [lia|].
  replace (7 * Z.of_nat (S f)) with (7 + 7 * Z.of_nat f) in Hf by lia.
  by rewrite Z.pow_add_r in Hf by lia.
Qed.

(** Five turns are enough: with the low 32 bits below [2^(7 f)], any further
    fuel changes nothing. *)
Lemma leb128_loop_fuel f g n :
  0 <= n < 2 ^ 32 -> n < 2 ^ (7 * Z.of_nat f) -> (0 < f <= g)%nat ->
  leb128_loop g n = leb128_loop f n.
Proof.
  revert g n. induction f as [|f IH]; intros [|g] n Hn Hf Hle; try lia.
  rewrite !leb128_loop_S, ToUint32_small by done.
  case_match; [|done]. f_equal. pose proof (div_128_lt f n Hf).
  apply IH; [dlia|done|]. destruct f; [|lia].
  change (2 ^ (7 * Z.of_nat 0)) with 1 in *. lia.
Qed.

(** Decoding what the loop wrote, whatever follows it. *)
Lemma unleb_loop f n rest :
  0 <= n < 2 ^ 32 -> n < 2 ^ (7 * Z.of_nat f) -> (0 < f)%nat ->
  unleb (leb128_loop f n ++ rest) = Some (n, rest).
Proof.
  revert n. induction f as [|f IH]; intros n Hn Hf Hpos; [lia|].
  rewrite leb128_loop_S, ToUint32_small by done.
  pose proof (Z.mod_pos_bound n 128 ltac:(lia)).
  pose proof (Z.div_mod n 128 ltac:(lia)) as Hdm.
  case_match eqn:Hb.
  - cbn [unleb app]. rewrite (proj2 (Z.ltb_ge _ 128)) by lia.
    pose proof (div_128_lt f n Hf) as Hlt.
    rewrite IH; [simpl; do 2 f_equal; lia|dlia|done|].
    destruct f; [|lia]. change (2 ^ (7 * Z.of_nat 0)) with 1 in Hlt. lia.
  - cbn [unleb app]. rewrite (proj2 (Z.ltb_lt _ 128)) by lia. do 2 f_equal. lia.
Qed.

Lemma unleb_leb n rest :
  0 <= n < 2 ^ 32 -> unleb (leb128_loop LEB_FUEL n ++ rest) = Some (n, rest).
Proof. intros Hn. apply unleb_loop; unfold LEB_FUEL; [lia| |lia]. simpl. lia. Qed.

(** ** The length-prefixed concatenation is unambiguous *)

Definition short (v : bytes) : Prop := Z.of_nat (length v) < 2 ^ 32.

(** Reading one field back. *)
Definition read_field (bs : bytes) : option (bytes * bytes) :=
  '(len, rest) ← unleb bs;
  Some (take (Z.to_nat len) rest, drop (Z.to_nat len) rest).

Lemma read_prependLen v rest : short v -> read_field (prependLen v ++ rest) = Some (v, rest).
Proof.
  intros Hv. unfold read_field, prependLen, leb_length. rewrite <- app_assoc.
  unfold short in Hv. rewrite unleb_leb by lia. simpl.
  by rewrite Nat2Z.id, drop_app_length, take_app_length.
Qed.

Lemma lvCat_cons v vs : lvCat (v :: vs) = prependLen v ++ lvCat vs.
Proof. done. Qed.

Lemma lvCat_inj xs ys :
  Forall short xs -> Forall short ys -> lvCat xs = lvCat ys -> xs = ys.
Proof.
  intros Hx. revert ys. induction Hx as [|x xs Hx _ IH]; intros ys Hy Heq.
  - destruct Hy as [|y ys Hy _]; [done|].
    pose proof (read_prependLen y (lvCat ys) Hy) as Hr.
    by rewrite <- lvCat_cons, <- Heq in Hr.
  - destruct Hy as [|y ys Hy Hys].
    + pose proof (read_prependLen x (lvCat xs) Hx) as Hr.
      by rewrite <- lvCat_cons, Heq in Hr.
    + pose proof (read_prependLen x (lvCat xs) Hx) as H1.
      pose proof (read_prependLen y (lvCat ys) Hy) as H2.
      rewrite <- lvCat_cons in H1, H2. rewrite Heq, H2 in H1. simplify_eq.
      f_equal. by apply IH.
Qed.

(** The transcript encoding is unambiguous.  Two lists of fields, each
    field below 4 GiB, that [lvCat] maps to the same bytes are the same list,
    field by field and in number; so no two CPace inputs share a transcript. *)
Theorem lvCat_injective xs ys :
  Forall short xs -> Forall short ys -> lvCat xs = lvCat ys -> xs = ys.
Proof. apply lvCat_inj. Qed.

Lemma lvCat_injective_witness :
  [[1; 2]; []; [255]] = [[1; 2]; []; [255]].
Proof.
  apply (lvCat_injective [[1; 2]; []; [255]] [[1; 2]; []; [255]]);
    [repeat constructor; unfold short; simpl; lia..|reflexivity].
Defined.

(** Above 32 bits the encoding wraps: [leb128] sees the low 32 bits only. *)
Lemma leb128_wraps n : leb128_loop LEB_FUEL n = leb128_loop LEB_FUEL (ToUint32 n).
Proof.
  unfold LEB_FUEL. rewrite !(leb128_loop_S 4).
  pose proof (ToUint32_range n). rewrite (ToUint32_small (ToUint32 n)) by done.
  replace (ToUint32 n mod 128) with (n mod 128); [done|].
  unfold ToUint32. change (2 ^ 32) with 4294967296. dlia.
Qed.

(** ** Equality *)

Lemma diff_zero l d : foldl (fun diff p => Z.lor diff (Z.lxor p.1 p.2)) d l = 0 <->
  d = 0 /\ Forall (fun p => p.1 = p.2) l.
Proof.
  revert d. induction l as [|[x y] l IH]; intros d; simpl.
  - split; [by intros ->|by intros [-> _]].
  - rewrite IH, Z.lor_eq_0_iff, Z.lxor_eq_0_iff, Forall_cons. simpl. tauto.
Qed.

(** [constantTimeEqual] is equality, on buffers of any length. *)
Lemma constantTimeEqual_iff a b : constantTimeEqual a b = true <-> a = b.
Proof.
  unfold constantTimeEqual. destruct (Nat.eqb_spec (length a) (length b)) as [Hlen|Hlen].
  - rewrite Z.eqb_eq, diff_zero. split; [|intros ->; split; [done|]].
    + intros [_ Hall]. revert b Hlen Hall.
      induction a as [|x a IH]; intros [|y b] Hlen Hall; try done.
      apply Forall_cons in Hall as [Hxy Hall]. simpl in *. f_equal; [done|].
      apply IH; [lia|done].
    + clear. induction b; simpl; constructor; done.
  - split; [done|]. by intros ->.
Qed.

(** ** base64url *)

Lemma b64index_char i : 0 <= i < 64 -> b64index (b64char i) = Some i.
Proof.
  intros Hi.
  assert (forallb (fun n => bool_decide (b64index (b64char (Z.of_nat n)) = Some (Z.of_nat n)))
    (seq 0 64) = true) as Hall by (vm_compute; reflexivity).
  rewrite forallb_forall in Hall. specialize (Hall (Z.to_nat i)).
  rewrite Z2Nat.id, bool_decide_eq_true in Hall by lia. apply Hall.
  apply in_seq. lia.
Qed.

Lemma b64char_pad i : 0 <= i < 64 -> b64char i <> 61.
Proof.
  intros Hi.
  assert (forallb (fun n => negb (b64char (Z.of_nat n) =? 61)) (seq 0 64) = true) as Hall
    by (vm_compute; reflexivity).
  rewrite forallb_forall in Hall. specialize (Hall (Z.to_nat i)).
  rewrite Z2Nat.id in Hall by lia. intros Heq. rewrite Heq in Hall.
  assert (In (Z.to_nat i) (seq 0 64)) as Hin by (apply in_seq; lia). by apply Hall in Hin.
Qed.

(** What one character does to the accumulator, up to the bits that matter. *)
Definition b64_acc (acc index : Z) : Z := Z.lor (ToInt32 (Z.shiftl acc 6)) index.

Lemma ToInt32_mod n : ToInt32 n mod 2 ^ 32 = n mod 2 ^ 32.
Proof. unfold ToInt32. change (2 ^ 32) with 4294967296. case_match; dlia. Qed.

Lemma b64_acc_mod acc i : 0 <= i < 64 -> b64_acc acc i mod 16384 = (acc * 64 + i) mod 16384.
Proof.
  intros Hi. unfold b64_acc. rewrite Z.shiftl_mul_pow2 by lia. change (2 ^ 6) with 64.
  pose proof (ToInt32_mod (acc * 64)) as Hm. change (2 ^ 32) with 4294967296 in Hm.
  set (t := ToInt32 (acc * 64)) in *. clearbody t.
  assert (t = t / 64 * 2 ^ 6) as -> by (change (2 ^ 6) with 64; dlia).
  rewrite Z.lor_comm, lor_shift by (change (2 ^ 6) with 64; lia).
  change (2 ^ 6) with 64. dlia.
Qed.

Lemma b64_out acc k : 0 <= k -> Z.land (Z.shiftr acc k) 255 = acc / 2 ^ k mod 256.
Proof.
  intros Hk. change 255 with (Z.ones 8). rewrite land_ones_mod by lia.
  by rewrite Z.shiftr_div_pow2.
Qed.

(** The encoder's three index computations, as arithmetic. *)
Lemma b64_i0 b : Z.shiftr b 2 = b / 4.
Proof. by rewrite Z.shiftr_div_pow2. Qed.

Lemma b64_i1 b b' : is_byte b' ->
  Z.lor (Z.shiftl (Z.land b 3) 4) (Z.shiftr b' 4) = b mod 4 * 16 + b' / 16.
Proof.
  intros [? ?]. change 3 with (Z.ones 2). rewrite land_ones_mod by lia.
  rewrite Z.shiftr_div_pow2, Z.shiftl_mul_pow2, Z.lor_comm by lia.
  rewrite lor_shift by (change (2 ^ 4) with 16; dlia).
  change (2 ^ 2) with 4. change (2 ^ 4) with 16. lia.
Qed.

Lemma b64_i2 b b' : is_byte b' ->
  Z.lor (Z.shiftl (Z.land b 15) 2) (Z.shiftr b' 6) = b mod 16 * 4 + b' / 64.
Proof.
  intros [? ?]. change 15 with (Z.ones 4). rewrite land_ones_mod by lia.
  rewrite Z.shiftr_div_pow2, Z.shiftl_mul_pow2, Z.lor_comm by lia.
  rewrite lor_shift by (change (2 ^ 6) with 64; change (2 ^ 2) with 4; dlia).
  change (2 ^ 6) with 64. change (2 ^ 4) with 16. change (2 ^ 2) with 4. lia.
Qed.

Lemma b64_i3 b : Z.land b 63 = b mod 64.
Proof. change 63 with (Z.ones 6). by rewrite land_ones_mod. Qed.

Lemma is_byte_0 : is_byte 0.
Proof. unfold is_byte. lia. Qed.

(** One decoder step on an encoded index. *)
Lemma b64_loop_char i clean bits acc : 0 <= i < 64 ->
  b64_loop (b64char i :: clean) bits acc =
  (if 8 <=? bits + 6 then
     rest ← b64_loop clean (bits - 2) (b64_acc acc i);
     Ok (b64_acc acc i / 2 ^ (bits - 2) mod 256 :: rest)
   else b64_loop clean (bits + 6) (b64_acc acc i)).
Proof.
  intros Hi. cbn [b64_loop]. rewrite b64index_char by done. fold (b64_acc acc i).
  case_match; [|done]. replace (bits + 6 - 8) with (bits - 2) by lia.
  by rewrite b64_out by lia.
Qed.

Section Group.
Context (b0 b1 b2 acc : Z) (H0 : is_byte b0) (H1 : is_byte b1) (H2 : is_byte b2).

#[local] Abbreviation i0 := (b0 / 4).
#[local] Abbreviation i1 := (b0 mod 4 * 16 + b1 / 16).
#[local] Abbreviation i2 := (b1 mod 16 * 4 + b2 / 64).
#[local] Abbreviation i3 := (b2 mod 64).
#[local] Abbreviation a1 := (b64_acc acc i0).
#[local] Abbreviation a2 := (b64_acc a1 i1).
#[local] Abbreviation a3 := (b64_acc a2 i2).
#[local] Abbreviation a4 := (b64_acc a3 i3).

Lemma group_range : (0 <= i0 < 64 /\ 0 <= i1 < 64) /\ (0 <= i2 < 64 /\ 0 <= i3 < 64).
Proof. pose proof H0; pose proof H1; pose proof H2. unfold is_byte in *. repeat split; dlia. Qed.

Lemma group_out1 : a2 / 2 ^ 4 mod 256 = b0.
Proof.
  pose proof (b64_acc_mod acc i0 (proj1 (proj1 group_range))) as E1.
  pose proof (b64_acc_mod a1 i1 (proj2 (proj1 group_range))) as E2.
  pose proof H0 as B0. pose proof H1 as B1. revert E2. generalize a2. revert E1. generalize a1.
  unfold is_byte in B0, B1. intros x1 E1 x2 E2. change (2 ^ 4) with 16. dlia.
Qed.

Lemma group_out2 : a3 / 2 ^ 2 mod 256 = b1.
Proof.
  pose proof (b64_acc_mod a1 i1 (proj2 (proj1 group_range))) as E2.
  pose proof (b64_acc_mod a2 i2 (proj1 (proj2 group_range))) as E3.
  pose proof H1 as B1. pose proof H2 as B2. revert E3. generalize a3. revert E2. generalize a2.
  generalize a1. unfold is_byte in B1, B2. intros x1 x2 E2 x3 E3. change (2 ^ 2) with 4. dlia.
Qed.

Lemma group_out3 : a4 / 2 ^ 0 mod 256 = b2.
Proof.
  pose proof (b64_acc_mod a2 i2 (proj1 (proj2 group_range))) as E3.
  pose proof (b64_acc_mod a3 i3 (proj2 (proj2 group_range))) as E4.
  pose proof H2 as B2. revert E4. generalize a4. revert E3. generalize a3.
  generalize a2. unfold is_byte in B2. intros x2 x3 E3 x4 E4. change (2 ^ 0) with 1. dlia.
Qed.

Lemma b64_group rest :
  exists acc', b64_loop (b64char i0 :: b64char i1 :: b64char i2 :: b64char i3 :: rest) 0 acc
    = (tl ← b64_loop rest 0 acc'; Ok (b0 :: b1 :: b2 :: tl)).
Proof.
  destruct group_range as [[R0 R1] [R2 R3]]. exists a4.
  rewrite b64_loop_char by done. cbn [Z.leb Z.add].
  change (8 <=? 0 + 6) with false. change (0 + 6) with 6. cbv iota.
  rewrite b64_loop_char by done. change (8 <=? 6 + 6) with true.
  change (6 - 2) with 4. cbv iota. rewrite group_out1.
  rewrite b64_loop_char by done. change (8 <=? 4 + 6) with true.
  change (4 - 2) with 2. cbv iota. rewrite group_out2.
  rewrite b64_loop_char by done. change (8 <=? 2 + 6) with true.
  change (2 - 2) with 0. cbv iota. rewrite group_out3.
  by destruct (b64_loop rest 0 a4).
Qed.

Lemma b64_group2 :
  b64_loop [b64char i0; b64char i1; b64char i2] 0 acc = Ok [b0; b1].
Proof.
  destruct group_range as [[R0 R1] [R2 _]].
  rewrite b64_loop_char by done. change (8 <=? 0 + 6) with false.
  change (0 + 6) with 6. cbv iota. rewrite b64_loop_char by done.
  change (8 <=? 6 + 6) with true. change (6 - 2) with 4. cbv iota. rewrite group_out1.
  rewrite b64_loop_char by done. change (8 <=? 4 + 6) with true.
  change (4 - 2) with 2. cbv iota. by rewrite group_out2.
Qed.

Lemma b64_group1 : b64_loop [b64char i0; b64char i1] 0 acc = Ok [b0].
Proof.
  destruct group_range as [[R0 R1] _].
  rewrite b64_loop_char by done. change (8 <=? 0 + 6) with false.
  change (0 + 6) with 6. cbv iota. rewrite b64_loop_char by done.
  change (8 <=? 6 + 6) with true. change (6 - 2) with 4. cbv iota. by rewrite group_out1.
Qed.
End Group.

(** Lists three elements at a time, as the encoder walks them. *)
Lemma list_ind3 {A} (P : list A -> Prop) :
  P [] -> (forall x, P [x]) -> (forall x y, P [x; y]) ->
  (forall x y z l, P l -> P (x :: y :: z :: l)) -> forall l, P l.
Proof.
  intros H0 H1 H2 H3.
  assert (forall n l, (length l <= n)%nat -> P l) as Hn.
  { induction n as [|n IH]; intros [|x [|y [|z l]]] Hl; try done; simpl in Hl; try lia.
    apply H3, IH. lia. }
  intros l. by apply (Hn (length l)).
Qed.

Lemma b64_loop_encode bs acc :
  is_bytes bs -> b64_loop (bytesToBase64Url bs) 0 acc = Ok bs.
Proof.
  revert acc. induction bs as [|b0|b0 b1|b0 b1 b2 bs IH] using list_ind3; intros acc Hbs; [done|..];
    repeat (apply Forall_cons in Hbs as [? Hbs]); cbn [bytesToBase64Url].
  - rewrite b64_i0, b64_i1 by apply is_byte_0. by apply (b64_group1 b0 0 0); auto using is_byte_0.
  - rewrite b64_i0, b64_i1, b64_i2 by auto using is_byte_0.
    by apply (b64_group2 b0 b1 0); auto using is_byte_0.
  - rewrite b64_i0, b64_i1, b64_i2, b64_i3 by done.
    destruct (b64_group b0 b1 b2 acc) with (rest := bytesToBase64Url bs) as [acc' ->]; try done.
    by rewrite IH.
Qed.

(** The encoder never writes the padding character. *)
Lemma bytesToBase64Url_no_pad bs :
  is_bytes bs -> Forall (fun c => c <> 61) (bytesToBase64Url bs).
Proof.
  induction bs as [|b0|b0 b1|b0 b1 b2 bs IH] using list_ind3; intros Hbs; [constructor|..];
    repeat (apply Forall_cons in Hbs as [? Hbs]); cbn [bytesToBase64Url];
    rewrite ?b64_i0, ?b64_i1, ?b64_i2, ?b64_i3 by auto using is_byte_0;
    repeat (apply Forall_cons; split); auto;
    apply b64char_pad; unfold is_byte in *; dlia.
Qed.

Lemma strip_end_none {A} (p : A -> bool) l :
  Forall (fun x => p x = false) l -> strip_end p l = l.
Proof.
  intros Hl. unfold strip_end. apply Forall_reverse in Hl.
  destruct (reverse l) as [|x r] eqn:Hr; simpl.
  - apply (f_equal reverse) in Hr. by rewrite reverse_involutive in Hr.
  - apply Forall_cons in Hl as [-> _]. by rewrite <- Hr, reverse_involutive.
Qed.

Lemma base64url_rt bs : is_bytes bs -> base64UrlToBytes (bytesToBase64Url bs) = Ok bs.
Proof.
  intros Hbs. unfold base64UrlToBytes. rewrite strip_end_none; [by apply b64_loop_encode|].
  eapply Forall_impl; [by apply bytesToBase64Url_no_pad|]. intros c Hc. by apply Z.eqb_neq.
Qed.

(** Base64url round trip.  Decoding what [bytesToBase64Url] wrote gives
    the bytes back, for every byte string of any length. *)
Theorem base64url_roundtrip bs :
  is_bytes bs -> base64UrlToBytes (bytesToBase64Url bs) = Ok bs.
Proof. apply base64url_rt. Qed.

Lemma base64url_roundtrip_witness :
  bytesToBase64Url [0; 255; 16; 131] = js "AP8Qgw" /\
  base64UrlToBytes (bytesToBase64Url [0; 255; 16; 131]) = Ok [0; 255; 16; 131].
Proof.
  split; [vm_compute; reflexivity|].
  apply base64url_roundtrip. repeat constructor; unfold is_byte; lia.
Defined.
