(* ===== verification/Noble.v ===== *)
(** * Noble: the interfaces of the cryptographic libraries

    mtmux calls [@noble/curves], [@noble/hashes], [@noble/ciphers] and
    [node:crypto].  None of that code is in the repository, so it enters the
    model as operations of type classes, one class per primitive, and what
    the code relies on as laws of a second class.  [Toy] holds concrete,
    executable instances that satisfy the laws, at which the theorems that
    use them are instantiated. *)

From S2P Require Import Prelude Bytes.

(** [bytesToHex] and [hexToBytes]; the latter throws on malformed text. *)
Class Hex := {
  bytesToHex : bytes -> string;
  hexToBytes : string -> result unit bytes;
}.
Class HexLaws `{Hex} := {
  hex_roundtrip bs : is_bytes bs -> hexToBytes (bytesToHex bs) = Ok bs;
}.

(** A hash: [sha256] or [sha512]. *)
Class Sha256 := sha256 : bytes -> bytes.

(** [crypto.createHmac("sha256", key).update(text, "utf8").digest()], already
    in base64url as [deriveTunnelId] asks for it. *)
Class HmacText := hmacBase64url : bytes -> string -> string.

(** [ed25519]: [verify] throws ([None]) on a malformed point or signature. *)
Class Ed25519 := {
  ed_getPublicKey : bytes -> bytes;
  ed_sign : bytes -> bytes -> bytes;
  ed_verify : bytes -> bytes -> bytes -> option bool;
}.
Class Ed25519Laws `{Ed25519} := {
  ed_sign_verify msg sk : ed_verify (ed_sign msg sk) msg (ed_getPublicKey sk) = Some true;
}.

(** [hkdf(sha256, ikm, salt, info, length)]; its output has that length. *)
Class Hkdf := hkdf : bytes -> bytes -> bytes -> nat -> bytes.
Class HkdfLaws `{Hkdf} := {
  hkdf_length ikm salt info n : length (hkdf ikm salt info n) = n;
  hkdf_bytes ikm salt info n : is_bytes (hkdf ikm salt info n);
}.

(** [hmac(sha256, key, message)]. *)
Class HmacBytes := hmac_sha256 : bytes -> bytes -> bytes.

Class HmacLaws `{HmacBytes} := {
  hmac_bytes key msg : is_bytes (hmac_sha256 key msg);
}.

(** AES-256-GCM of WebCrypto or of [@noble/ciphers], with the additional data
    last; [decrypt] throws ([None]) when the tag does not fit. *)
Class Aead := {
  aead_encrypt : bytes -> bytes -> bytes -> bytes -> bytes;
  aead_decrypt : bytes -> bytes -> bytes -> bytes -> option bytes;
}.
Class AeadLaws `{Aead} := {
  aead_roundtrip key iv aad plaintext :
    aead_decrypt key iv aad (aead_encrypt key iv aad plaintext) = Some plaintext;
  aead_tag key iv aad plaintext : (16 <= length (aead_encrypt key iv aad plaintext))%nat;
  aead_bytes key iv aad plaintext :
    is_bytes key -> is_bytes iv -> is_bytes aad -> is_bytes plaintext ->
    is_bytes (aead_encrypt key iv aad plaintext);
}.

(** [sha512]. *)
Class Sha512 := sha512 : bytes -> bytes.

(** [ristretto255.Point] and [ristretto255_hasher.deriveToCurve].  [multiply]
    throws ([None]) unless the scalar is in [[1, n)], and [n] is above
    [2^252]; [fromBytes] throws on anything but a canonical encoding. *)
Class Ristretto := {
  point : Type;
  deriveToCurve : bytes -> point;
  pt_multiply : point -> Z -> option point;
  pt_is0 : point -> bool;
  pt_toBytes : point -> bytes;
  pt_fromBytes : bytes -> option point;
}.
Class RistrettoLaws `{Ristretto} := {
  pt_multiply_valid P a : 1 <= a < 2 ^ 252 -> is_Some (pt_multiply P a);
  pt_multiply_zero P : pt_multiply P 0 = None;
  pt_multiply_comm P a b Q R :
    pt_multiply P a = Some Q -> pt_multiply P b = Some R -> pt_multiply Q b = pt_multiply R a;
  pt_fromBytes_toBytes P : pt_fromBytes (pt_toBytes P) = Some P;
  pt_toBytes_length P : length (pt_toBytes P) = 32%nat;
  pt_toBytes_bytes P : is_bytes (pt_toBytes P);
}.

(** [x25519]: [getSharedSecret] throws ([None]) on a degenerate result. *)
Class X25519 := {
  x_getPublicKey : bytes -> bytes;
  x_getSharedSecret : bytes -> bytes -> option bytes;
}.
Class X25519Laws `{X25519} := {
  x_shared_comm a b : x_getSharedSecret a (x_getPublicKey b) = x_getSharedSecret b (x_getPublicKey a);
}.

(** PBKDF2-HMAC-SHA-256 of a password, a salt, an iteration count and an
    output length: WebCrypto's and [@noble/hashes]'. *)
Class Pbkdf2 := {
  subtle_pbkdf2 : bytes -> bytes -> Z -> nat -> bytes;
  noble_pbkdf2 : bytes -> bytes -> Z -> nat -> bytes;
}.
Class Pbkdf2Laws `{Pbkdf2} := {
  pbkdf2_same password salt iterations n :
    subtle_pbkdf2 password salt iterations n = noble_pbkdf2 password salt iterations n;
  pbkdf2_length password salt iterations n :
    length (noble_pbkdf2 password salt iterations n) = n;
}.

(** [utf8ToBytes] of a literal: a Rocq string is the list of its bytes. *)
Definition utf8 (s : string) : bytes :=
  map (fun a => Z.of_N (Ascii.N_of_ascii a)) (String.list_ascii_of_string s).

(** [s.length] of a string given by its UTF-8 bytes: a UTF-16 unit per leading
    byte, and one more for a four-byte sequence. *)
Definition utf16_length (s : string) : Z :=
  foldr (fun b n => n + (if (128 <=? b) && (b <? 192) then 0 else if 240 <=? b then 2 else 1)) 0
    (utf8 s).

(** An ASCII string from its code units. *)
Definition ascii_str (s : jstr) : string :=
  String.string_of_list_ascii (map (fun c => Ascii.ascii_of_N (Z.to_N c)) s).

Lemma utf8_app s t : utf8 (s +:+ t) = utf8 s ++ utf8 t.
Proof. induction s as [|a s IH]; [done|]. unfold utf8 in *. simpl. by rewrite IH. Qed.

Lemma utf8_injective s t : utf8 s = utf8 t -> s = t.
Proof.
  revert t. induction s as [|a s IH]; intros [|b t]; try done.
  unfold utf8. simpl. intros [= Hab Hst]. apply N2Z.inj in Hab.
  rewrite <- (Ascii.ascii_N_embedding a), <- (Ascii.ascii_N_embedding b), Hab.
  f_equal. by apply IH.
Qed.

(** ** Executable instances *)

Module Toy.

Definition hexDigit (n : Z) : Ascii.ascii :=
  Ascii.ascii_of_N (Z.to_N (if n <? 10 then 48 + n else 87 + n)).

Fixpoint toHex (bs : bytes) : string :=
  match bs with
  | [] => ""
  | b :: bs => String (hexDigit (b / 16)) (String (hexDigit (b mod 16)) (toHex bs))
  end.

Definition hexValue (a : Ascii.ascii) : option Z :=
  let n := Z.of_N (Ascii.N_of_ascii a) in
  if (48 <=? n) && (n <=? 57) then Some (n - 48)
  else if (97 <=? n) && (n <=? 102) then Some (n - 87) else None.

Fixpoint ofHex (s : string) : result unit bytes :=
  match s with
  | EmptyString => Ok []
  | String a (String b s) =>
      match hexValue a, hexValue b with
      | Some x, Some y => rest ← ofHex s; Ok (x * 16 + y :: rest)
      | _, _ => Err tt
      end
  | _ => Err tt
  end.

#[export] Instance hex : Hex := { bytesToHex := toHex; hexToBytes := ofHex }.

Lemma hexValue_digit n : 0 <= n < 16 -> hexValue (hexDigit n) = Some n.
Proof.
  intros Hn.
  assert (forallb (fun k => bool_decide (hexValue (hexDigit (Z.of_nat k)) = Some (Z.of_nat k)))
    (seq 0 16) = true) as Hall by (vm_compute; reflexivity).
  rewrite forallb_forall in Hall. specialize (Hall (Z.to_nat n)).
  rewrite Z2Nat.id, bool_decide_eq_true in Hall by lia. apply Hall, in_seq. lia.
Qed.

#[export] Instance hex_laws : HexLaws.
Proof.
  split. intros bs Hbs. induction Hbs as [|b bs Hb _ IH]; [done|].
  unfold is_byte in Hb. simpl in *.
  rewrite !hexValue_digit by dlia. rewrite IH. simpl. do 2 f_equal. dlia.
Qed.

(** A hash that keeps what it is given, padded to 32 bytes. *)
#[export] Instance sha : Sha256 := fun bs => bs ++ replicate (32 - length bs) 0.

#[export] Instance hmac : HmacText := fun key text => text.

(** The signature is the secret key and the message themselves. *)
#[export] Instance ed : Ed25519 := {
  ed_getPublicKey sk := sk;
  ed_sign msg sk := sk ++ msg;
  ed_verify sig msg pk := Some (bool_decide (sig = pk ++ msg));
}.
#[export] Instance ed_laws : Ed25519Laws.
Proof. split. intros msg sk. simpl. by rewrite bool_decide_eq_true_2. Qed.

(** Key material first, then zeros. *)
#[export] Instance kdf : Hkdf := fun ikm salt info n =>
  take n (map (fun b => b mod 256) (ikm ++ salt ++ info) ++ replicate n 0).
#[export] Instance kdf_laws : HkdfLaws.
Proof.
  split; intros ikm salt info n; unfold hkdf, kdf.
  - rewrite length_take, length_app, length_replicate. lia.
  - apply Forall_take, Forall_app. split.
    + apply Forall_fmap, Forall_true. intros b. unfold is_byte. simpl. dlia.
    + apply Forall_replicate. unfold is_byte. lia.
Qed.

#[export] Instance hmac_b : HmacBytes := fun key msg => map (fun b => b mod 256) (key ++ msg).
#[export] Instance hmac_laws : HmacLaws.
Proof.
  split. intros key msg. apply Forall_fmap, Forall_true. intros b. unfold is_byte. simpl. dlia.
Qed.

(** The ciphertext carries everything it was made from, after a tag's worth of
    zeros; a field is self-delimiting. *)
Fixpoint delimited (bs : bytes) : bytes :=
  match bs with [] => [0] | b :: bs => 1 :: b :: delimited bs end.

Definition aead_header (key iv aad : bytes) : bytes :=
  replicate 16 0 ++ delimited key ++ delimited iv ++ delimited aad.

#[export] Instance aead : Aead := {
  aead_encrypt key iv aad plaintext := aead_header key iv aad ++ plaintext;
  aead_decrypt key iv aad ct :=
    let header := aead_header key iv aad in
    if decide (take (length header) ct = header) then Some (drop (length header) ct) else None;
}.
Lemma delimited_bytes bs : is_bytes bs -> is_bytes (delimited bs).
Proof.
  induction 1 as [|b bs Hb _ IH]; simpl; [by repeat constructor|].
  constructor; [by unfold is_byte|]. by constructor.
Qed.

#[export] Instance aead_laws : AeadLaws.
Proof.
  split; intros key iv aad pt; cbn [aead_encrypt aead_decrypt aead].
  - rewrite take_app_length. rewrite decide_True by done. by rewrite drop_app_length.
  - rewrite length_app. unfold aead_header. rewrite length_app, length_replicate. lia.
  - intros Hk Hi Ha Hp. unfold aead_header. repeat apply Forall_app_2; try apply delimited_bytes; try done.
    apply Forall_replicate. unfold is_byte. lia.
Qed.

(** Only what was sealed opens. *)
Lemma aead_opens key iv aad ct pt :
  aead_decrypt key iv aad ct = Some pt -> ct = aead_encrypt key iv aad pt.
Proof.
  cbn [aead_encrypt aead_decrypt aead]. case_decide as Hd; [|done]. intros [= <-].
  rewrite <- (take_drop (length (aead_header key iv aad)) ct) at 1. by rewrite Hd.
Qed.

Lemma delimited_inj xs ys r r' :
  delimited xs ++ r = delimited ys ++ r' -> xs = ys /\ r = r'.
Proof.
  revert ys. induction xs as [|x xs IH]; intros [|y ys] Heq; simplify_eq/=; [done|].
  by destruct (IH ys) as [-> ->].
Qed.

(** A ciphertext tells all it was made of. *)
Lemma aead_encrypt_inj key iv aad pt key' iv' aad' pt' :
  aead_encrypt key iv aad pt = aead_encrypt key' iv' aad' pt' ->
  key = key' /\ iv = iv' /\ aad = aad' /\ pt = pt'.
Proof.
  cbn [aead_encrypt aead]. unfold aead_header. rewrite <- !app_assoc. intros Heq.
  apply app_inv_head in Heq. do 3 (apply delimited_inj in Heq as [-> Heq]). done.
Qed.

#[export] Instance sha5 : Sha512 := fun bs => bs ++ replicate (64 - length bs) 0.

(** The additive group of integers modulo the order of ristretto255, a point
    encoded as its 32 bytes. *)
Definition order : Z := 2 ^ 252 + 27742317777372353535851937790883648493.

Definition in_order (v : Z) : Prop := 0 <= v < order.

Lemma mod_in_order v : in_order (v mod order).
Proof. apply Z.mod_pos_bound. reflexivity. Qed.

Definition elt : Type := dsig in_order.
Definition to_elt (v : Z) : elt := dexist (v mod order) (mod_in_order v).

Fixpoint le_bytes (n : nat) (v : Z) : bytes :=
  match n with O => [] | S n => v mod 256 :: le_bytes n (v / 256) end.
Definition le_value (bs : bytes) : Z := foldr (fun b v => v * 256 + b) 0 bs.

Lemma le_value_bytes n v : 0 <= v < 256 ^ Z.of_nat n -> le_value (le_bytes n v) = v.
Proof.
  revert v. induction n as [|n IH]; intros v Hv; [simpl in *; lia|].
  rewrite Nat2Z.inj_succ, Z.pow_succ_r in Hv by lia.
  change (le_value (le_bytes (S n) v)) with (le_value (le_bytes n (v / 256)) * 256 + v mod 256).
  rewrite IH; [dlia|]. split; [dlia|]. apply Z.div_lt_upper_bound; lia.
Qed.

Lemma le_bytes_ok n v : length (le_bytes n v) = n /\ is_bytes (le_bytes n v).
Proof.
  revert v. induction n as [|n IH]; intros v; [by split; [|constructor]|].
  destruct (IH (v / 256)) as [Hl Hb]. simpl. split; [by rewrite Hl|].
  constructor; [unfold is_byte; dlia|done].
Qed.

#[export] Instance group : Ristretto := {
  point := elt;
  deriveToCurve bs := to_elt (le_value bs);
  pt_multiply P a := if bool_decide (1 <= a < order) then Some (to_elt (`P * a)) else None;
  pt_is0 P := bool_decide (`P = 0);
  pt_toBytes P := le_bytes 32 (`P);
  pt_fromBytes bs :=
    let v := le_value bs in
    if bool_decide (le_bytes 32 v = bs /\ in_order v) then Some (to_elt v) else None;
}.

Lemma to_elt_val (P : elt) : to_elt (`P) = P.
Proof. apply dsig_eq. simpl. apply Z.mod_small. exact (proj2_dsig P). Qed.

#[export] Instance group_laws : RistrettoLaws.
Proof.
  split; cbn [point deriveToCurve pt_multiply pt_is0 pt_toBytes pt_fromBytes group].
  - intros P a Ha. rewrite bool_decide_true; [by eexists|]. unfold order. lia.
  - intros P. by rewrite bool_decide_false by lia.
  - intros P a b Q R. case_bool_decide; [|done]. case_bool_decide; [|done].
    intros [= <-] [= <-]. f_equal. apply dsig_eq. simpl.
    rewrite !Z.mul_mod_idemp_l by done. f_equal. lia.
  - intros P. destruct (proj2_dsig P) as [Hlo Hhi].
    rewrite le_value_bytes by (split; [done|]; by apply (Z.lt_trans _ _ _ Hhi)).
    rewrite bool_decide_true by done. f_equal. apply to_elt_val.
  - intros P. apply le_bytes_ok.
  - intros P. apply le_bytes_ok.
Qed.

(** A commutative exchange: the sum of the two keys, byte by byte. *)
#[export] Instance x : X25519 := {
  x_getPublicKey sk := sk;
  x_getSharedSecret sk pk := Some (zip_with (fun a b => (a + b) mod 256) sk pk);
}.
#[export] Instance x_laws : X25519Laws.
Proof.
  split. intros a b. cbn [x_getSharedSecret x_getPublicKey x]. f_equal.
  revert b. induction a as [|u a IH]; intros [|v b]; simpl; try done. by rewrite IH, Z.add_comm.
Qed.

Definition stretch (password salt : bytes) (iterations : Z) (n : nat) : bytes :=
  take n (map (fun b => b mod 256) (password ++ salt ++ [iterations]) ++ replicate n 0).

#[export] Instance pbkdf : Pbkdf2 := { subtle_pbkdf2 := stretch; noble_pbkdf2 := stretch }.
#[export] Instance pbkdf_laws : Pbkdf2Laws.
Proof.
  split; intros password salt iterations n; cbn [subtle_pbkdf2 noble_pbkdf2 pbkdf]; [done|].
  unfold stretch. rewrite length_take, length_app, length_replicate. lia.
Qed.

End Toy.
