(* ===== verification/DeviceKey.v ===== *)
(** * DeviceKey: long-lived device identity

    [packages/crypto/src/device-key.ts]: the fingerprint that names a device,
    the domain-separated challenge, and the serialised key pair. *)

From S2P Require Import Prelude Bytes Noble.

Section DeviceKey.
Context `{!Hex, !Sha256, !Ed25519}.

(** [utf8ToBytes] of an ASCII literal is its code units. *)
Definition CHALLENGE_DOMAIN : bytes := js "mtmux/v1 device-challenge".
Definition CHALLENGE_BYTES : Z := 32.

Record DeviceKeyPair := mkDeviceKey {
  dk_deviceId : string;
  dk_publicKey : bytes;
  dk_secretKey : bytes;
}.

Definition deviceIdFor (publicKey : bytes) : string :=
  bytesToHex (take 8 (sha256 publicKey)).

(** [generateDeviceKey] on the secret key it draws. *)
Definition generateDeviceKey (secretKey : bytes) : DeviceKeyPair :=
  let publicKey := ed_getPublicKey secretKey in
  mkDeviceKey (deviceIdFor publicKey) publicKey secretKey.

Definition signChallenge (secretKey challenge : bytes) : bytes :=
  ed_sign (CHALLENGE_DOMAIN ++ challenge) secretKey.

Definition verifyChallenge (publicKey challenge signature : bytes) : bool :=
  match ed_verify signature (CHALLENGE_DOMAIN ++ challenge) publicKey with
  | Some ok => ok
  | None => false
  end.

Record StoredDeviceKey := mkStoredKey {
  sk_deviceId : string;
  sk_publicKey : string;
  sk_secretKey : string;
}.

Definition encodeDeviceKey (pair : DeviceKeyPair) : StoredDeviceKey :=
  mkStoredKey (dk_deviceId pair) (bytesToHex (dk_publicKey pair))
    (bytesToHex (dk_secretKey pair)).

Inductive DeviceKeyError := BadHex | Malformed | IdMismatch.

Definition unhex (text : string) : result DeviceKeyError bytes :=
  match hexToBytes text with Ok b => Ok b | Err _ => Err BadHex end.

Definition decodeDeviceKey (stored : StoredDeviceKey) : result DeviceKeyError DeviceKeyPair :=
  publicKey ← unhex (sk_publicKey stored);
  secretKey ← unhex (sk_secretKey stored);
  if negb (Nat.eqb (length publicKey) 32) || negb (Nat.eqb (length secretKey) 32)
  then Err Malformed
  else
    let deviceId := deviceIdFor publicKey in
    if negb (bool_decide (sk_deviceId stored = ""))
       && negb (bool_decide (sk_deviceId stored = deviceId))
    then Err IdMismatch
    else Ok (mkDeviceKey deviceId publicKey secretKey).

(** ** Theorems *)

(** A signed challenge verifies under the signer's key. *)
Lemma sign_verify `{!Ed25519Laws} secretKey challenge :
  verifyChallenge (ed_getPublicKey secretKey) challenge (signChallenge secretKey challenge) = true.
Proof. unfold verifyChallenge, signChallenge. by rewrite ed_sign_verify. Qed.

(** A stored device key reads back, and only with its own id.  Decoding
    what [encodeDeviceKey] wrote for a generated key pair of the right size
    gives that pair; decoding anything gives a pair whose id is the
    fingerprint of its public key, whatever id the file claims. *)
Theorem decode_device_key `{!HexLaws} :
  (forall secretKey,
     is_bytes secretKey -> length secretKey = 32%nat ->
     is_bytes (ed_getPublicKey secretKey) -> length (ed_getPublicKey secretKey) = 32%nat ->
     decodeDeviceKey (encodeDeviceKey (generateDeviceKey secretKey)) =
     Ok (generateDeviceKey secretKey)) /\
  (forall stored pair, decodeDeviceKey stored = Ok pair ->
     dk_deviceId pair = deviceIdFor (dk_publicKey pair) /\
     length (dk_publicKey pair) = 32%nat /\ length (dk_secretKey pair) = 32%nat /\
     (sk_deviceId stored = "" \/ sk_deviceId stored = dk_deviceId pair)).
Proof.
  split.
  - intros sk Hsk Hlen Hpk Hplen. unfold decodeDeviceKey, unhex. simpl.
    rewrite !hex_roundtrip by done. simpl. rewrite Hlen, Hplen. simpl.
    rewrite (bool_decide_eq_true_2 (deviceIdFor _ = deviceIdFor _)) by done.
    by rewrite andb_false_r.
  - intros stored pair. unfold decodeDeviceKey.
    destruct (unhex (sk_publicKey stored)) as [pk|]; simpl; [|done].
    destruct (unhex (sk_secretKey stored)) as [sk|]; simpl; [|done].
    destruct (Nat.eqb_spec (length pk) 32); simpl; [|done].
    destruct (Nat.eqb_spec (length sk) 32); simpl; [|done].
    case_match eqn:Hid; [done|]. intros [= <-]. simpl. repeat split; try done.
    repeat case_bool_decide; simpl in *; auto; done.
Qed.
End DeviceKey.
