(* ===== verification/Accounts.v ===== *)
(** * Accounts: entitlements, the server registry, billing and their routes

    [apps/api/src/entitlements.ts], [accounts/servers.ts],
    [billing/subscriptions.ts], [billing/webhooks.ts], [accounts/routes.ts],
    [accounts/public.ts] and [accounts/index.ts] as programs over the tables
    of AccountsDb.  better-auth's session lookup, its request handler and the
    payment provider's webhook plugin are parameters ([Session], [Plugin]). *)

From stdpp Require Import pretty.
From S2P Require Import Prelude RateLimit Plans AccountsDb AccountsHttp Noble DeviceKey.

#[local] Open Scope string_scope.
#[local] Open Scope list_scope.
#[local] Open Scope Z_scope.

(** ** Entitlements *)

Inductive Reason :=
| UsedItsTraffic (shown month : string)
| PlanCoversServers (plan : PlanId) (limit : Z)
| PlanTrustsBrowsers (plan : PlanId) (limit : Z)
| RenamingIsPro
| PlanLimit.

Record Decision := mkDecision {
  d_allowed : bool;
  d_reason : option Reason;
  d_trialStarted : bool;
}.

Definition ALLOWED : Decision := mkDecision true None false.
Definition TRIAL_STARTED : Decision := mkDecision true None true.
Definition refusal (r : Reason) : Decision := mkDecision false (Some r) false.

Definition of_user (userId : string) (s : Subscription) : bool := bool_decide (sub_userId s = userId).

Definition resolvable (s : Subscription) : ResolvableSubscription :=
  mkResolvable (sub_plan s) (sub_trialStartedAt s) (sub_trialEndsAt s).

Definition resolveFor (userId : string) (now : Z) : Api PlanResolution :=
  row ← select (fun d => first (of_user userId) (db_subscriptions d));
  mret (resolvePlan (resolvable <$> row) now).

(** [resolveFor(userId)] and [planFor]: [now] is the clock. *)
Definition resolveNow (userId : string) : Api PlanResolution :=
  now ← clock; resolveFor userId now.

Definition planFor (userId : string) : Api PlanId :=
  r ← resolveNow userId; mret (res_plan r).

(** [values({...})] of [startTrial]. *)
Definition trial_row (userId : string) (now : Z) : Subscription :=
  mkSubscription userId None None None "none" "free" None false
    (Some now) (Some (now + TRIAL_MS)) now now.

(** [set: {...}] of [startTrial]. *)
Definition set_trial (now : Z) (s : Subscription) : Subscription :=
  mkSubscription (sub_userId s) (sub_dodoCustomerId s) (sub_dodoSubscriptionId s)
    (sub_productId s) (sub_status s) (sub_plan s) (sub_currentPeriodEnd s)
    (sub_cancelAtPeriodEnd s) (Some now) (Some (now + TRIAL_MS)) (sub_createdAt s) now.

(** [setWhere]. *)
Definition never_trialled (s : Subscription) : bool := bool_decide (sub_trialStartedAt s = None).

Definition start_trial_stmt (userId : string) (now : Z) (d : Db) : result string (Db * Z) :=
  match first (of_user userId) (db_subscriptions d) with
  | None => if has_user userId d then
              let '(t, n) := upsert (of_user userId) (trial_row userId now) never_trialled
                               (set_trial now) (db_subscriptions d) in
              Ok (with_subscriptions t d, n)
            else Err FOREIGN_KEY
  | Some _ =>
      let '(t, n) := upsert (of_user userId) (trial_row userId now) never_trialled
                       (set_trial now) (db_subscriptions d) in
      Ok (with_subscriptions t d, n)
  end.

Definition startTrial (userId : string) (now : Z) : Api bool :=
  changes ← write (start_trial_stmt userId now);
  mret (0 <? changes).

Definition withTrial (userId : string) (plan : PlanId) (evaluate : PlanId -> Api Decision)
    : Api Decision :=
  now ← clock;
  decision ← evaluate plan;
  if d_allowed decision then mret decision
  else if bool_decide (plan = TRIAL_PLAN) then mret decision
  else
    resolution ← resolveFor userId now;
    if negb (bool_decide (tr_status (res_trial resolution) = TrialNone)) then mret decision
    else
      underTrial ← evaluate TRIAL_PLAN;
      if negb (d_allowed underTrial) then mret decision
      else
        started ← startTrial userId now;
        mret (if started : bool then TRIAL_STARTED else ALLOWED).

Record MonthUsage := mkMonth {
  mu_month : string;
  mu_bytes : Z;
  mu_seconds : Z;
  mu_sessions : Z;
  mu_servers : Z;
}.

(** [where user_id = ? and day like 'YYYY-MM%']. *)
Definition in_month (userId month : string) (u : TunnelUsage) : bool :=
  bool_decide (tu_userId u = userId) && String.prefix month (tu_day u).

Definition sum_of {R} (f : R -> Z) (t : list R) : Z := foldr (fun r n => f r + n) 0 t.

Definition usage_rows (userId month : string) (d : Db) : list TunnelUsage :=
  filter (fun u => in_month userId month u = true) (db_tunnelUsage d).

Definition of_owner (userId : string) (s : Server) : bool := bool_decide (sv_userId s = userId).

Definition servers_of (userId : string) (d : Db) : list Server :=
  filter (fun s => of_owner userId s = true) (db_servers d).

Definition usageThisMonth (userId : string) (now : Z) : Api MonthUsage :=
  let month := monthKey now in
  rows ← select (usage_rows userId month);
  servers ← select (fun d => Z.of_nat (length (servers_of userId d)));
  mret (mkMonth month (sum_of tu_bytes rows) (sum_of tu_seconds rows) (sum_of tu_sessions rows) servers).

Definition evaluateTunnel (userId : string) (candidate : PlanId) : Api Decision :=
  match pl_monthlyBytes (PLANS candidate) with
  | None => mret ALLOWED
  | Some limit =>
      now ← clock;
      used ← usageThisMonth userId now;
      mret (if exceeds (mu_bytes used) (Some limit)
            then refusal (UsedItsTraffic (formatBytes limit) (mu_month used)) else ALLOWED)
  end.

Definition checkTunnel (userId : option string) : Api Decision :=
  match truthy userId with
  | None => mret ALLOWED
  | Some userId =>
      plan ← planFor userId;
      withTrial userId plan (evaluateTunnel userId)
  end.

Definition evaluateServers (userId : string) (candidate : PlanId) : Api Decision :=
  match pl_servers (PLANS candidate) with
  | None => mret ALLOWED
  | Some limit =>
      used ← select (fun d => Z.of_nat (length (servers_of userId d)));
      mret (if exceeds used (Some limit) then refusal (PlanCoversServers candidate limit) else ALLOWED)
  end.

Definition checkServerLimit (userId : string) : Api Decision :=
  plan ← planFor userId;
  withTrial userId plan (evaluateServers userId).

Definition trusted_of (serverId : jstr) (d : Db) : list ServerDevice :=
  filter (fun x => bool_decide (sd_serverId x = serverId) && bool_decide (sd_revokedAt x = None) = true)
    (db_serverDevices d).

Definition evaluateDevices (serverId : jstr) (candidate : PlanId) : Api Decision :=
  match pl_devicesPerServer (PLANS candidate) with
  | None => mret ALLOWED
  | Some limit =>
      used ← select (fun d => Z.of_nat (length (trusted_of serverId d)));
      mret (if exceeds used (Some limit) then refusal (PlanTrustsBrowsers candidate limit) else ALLOWED)
  end.

Definition checkDevice (userId : string) (serverId : jstr) (plan : PlanId) : Api Decision :=
  withTrial userId plan (evaluateDevices serverId).

Definition checkRename (userId : string) (plan : PlanId) : Api Decision :=
  withTrial userId plan (fun candidate =>
    mret (if pl_namedServers (PLANS candidate) then ALLOWED else refusal RenamingIsPro)).

Definition tunnelMinutesFor (plan : PlanId) : option Z := pl_tunnelMinutes (PLANS plan).

Definition on_day (userId day : string) (u : TunnelUsage) : bool :=
  bool_decide (tu_userId u = userId) && bool_decide (tu_day u = day).

Definition add_usage (bytes seconds now : Z) (u : TunnelUsage) : TunnelUsage :=
  mkUsage (tu_userId u) (tu_day u) (tu_bytes u + bytes) (tu_seconds u + seconds)
    (tu_sessions u + 1) now.

Definition usage_stmt (userId day : string) (bytes seconds now : Z) (d : Db)
    : result string (Db * unit) :=
  match first (on_day userId day) (db_tunnelUsage d) with
  | None => if has_user userId d then
              Ok (with_tunnelUsage (upsert (on_day userId day) (mkUsage userId day bytes seconds 1 now)
                    (fun _ => true) (add_usage bytes seconds now) (db_tunnelUsage d)).1 d, tt)
            else Err FOREIGN_KEY
  | Some _ =>
      Ok (with_tunnelUsage (upsert (on_day userId day) (mkUsage userId day bytes seconds 1 now)
            (fun _ => true) (add_usage bytes seconds now) (db_tunnelUsage d)).1 d, tt)
  end.

(** [bytes] and [seconds] are whole numbers, so [Math.round] keeps them. *)
Definition recordUsage (userId : string) (bytes seconds : Z) : Api unit :=
  if (bytes <=? 0) && (seconds <=? 0) then mret tt
  else
    now ← clock;
    write (usage_stmt userId (dayKey now) (Z.max 0 bytes) (Z.max 0 seconds) now).

(** ** The server registry *)

Record ServerView := mkView {
  v_id : jstr;
  v_name : jstr;
  v_slug : jstr;
  v_publicKey : string;
  v_online : bool;
  v_lastSeenAt : option Z;
  v_platform : option jstr;
  v_cliVersion : option jstr;
}.

Inductive RegisterOutcome :=
| Registered (serverId : jstr) (created : bool)
| Limited (reason : Reason)
| Conflict.

Section Registry.
Context `{!Unicode} (onlineWindowSeconds : Z).

Definition onlineWindowMs : Z := onlineWindowSeconds * 1000.

Definition view_of (now : Z) (row : Server) : ServerView :=
  mkView (sv_id row) (sv_name row) (sv_slug row) (sv_publicKey row)
    (match sv_lastSeenAt row with Some t => now - t <? onlineWindowMs | None => false end)
    (sv_lastSeenAt row) (sv_platform row) (sv_cliVersion row).

Definition list_servers (userId : string) (now : Z) : Api (list ServerView) :=
  rows ← select (servers_of userId);
  mret (sort_cmp (fun a b => localeCompare (v_name a) (v_name b)) (view_of now <$> rows)).

Definition has_key (publicKey : string) (s : Server) : bool := bool_decide (sv_publicKey s = publicKey).
Definition has_id (serverId : jstr) (s : Server) : bool := bool_decide (sv_id s = serverId).
Definition owned_by (userId : string) (serverId : jstr) (s : Server) : bool :=
  has_id serverId s && of_owner userId s.

Definition SLUG_TRIES : Z := 1000.

(** [uniqueSlug]: the base, a number after it, or three random bytes. *)
Definition slug_candidate (base : jstr) (n : Z) : jstr := base ++ js "-" ++ js (pretty n).

Definition uniqueSlug (userId : string) (name : jstr) (exceptId : option jstr) : Api jstr :=
  let base := slugify name in
  select (servers_of userId) ≫= fun rows : list Server =>
  let taken := sv_slug <$> filter (fun s : Server => Some (sv_id s) <> exceptId) rows in
  if negb (bool_decide (base ∈ taken)) then mret base
  else
    match head (filter (fun c : jstr => c ∉ taken) (slug_candidate base <$> seqZ 2 (SLUG_TRIES - 2))) with
    | Some candidate => mret candidate
    | None => r ← random_hex; mret (base ++ js "-" ++ r)
    end.

(** [set: {...}] of a returning machine. *)
Definition returning (input : RegisterInput) (row : Server) (now : Z) (s : Server) : Server :=
  let or {A} (a b : option A) := match a with Some x => Some x | None => b end in
  mkServer (sv_id s) (sv_userId s) (sv_name s) (sv_slug s) (sv_publicKey s)
    (or (ri_hostname input) (sv_hostname row)) (or (ri_platform input) (sv_platform row))
    (or (ri_cliVersion input) (sv_cliVersion row)) (Some now) now.

Definition update_servers (p : Server -> bool) (f : Server -> Server) : Api Z :=
  write (fun d => let '(t, n) := update p f (db_servers d) in Ok (with_servers t d, n)).

(** Two rows the unique indexes let into one table. *)
Definition distinct (a b : Server) : bool :=
  negb (bool_decide (sv_id a = sv_id b))
  && negb (bool_decide (sv_publicKey a = sv_publicKey b))
  && negb (bool_decide (sv_userId a = sv_userId b) && bool_decide (sv_slug a = sv_slug b)).

Definition insert_server (row : Server) (d : Db) : result string (Db * unit) :=
  if negb (forallb (distinct row) (db_servers d)) then Err UNIQUE
  else if negb (has_user (sv_userId row) d) then Err FOREIGN_KEY
  else Ok (with_servers (db_servers d ++ [row]) d, tt).

Definition register (userId : string) (input : RegisterInput) (canAddServer : Api Decision)
    : Api (RegisterOutcome * bool) :=
  existing ← select (fun d => first (has_key (ri_publicKey input)) (db_servers d));
  match existing with
  | Some row =>
      if negb (bool_decide (sv_userId row = userId)) then mret (Conflict, false)
      else
        now ← clock;
        _ ← update_servers (has_id (sv_id row)) (returning input row now);
        mret (Registered (sv_id row) false, false)
  | None =>
      decision ← canAddServer;
      if negb (d_allowed decision)
      then mret (Limited (default PlanLimit (d_reason decision)), d_trialStarted decision)
      else
        r ← random_id;
        let id := js "srv_" ++ r in
        slug ← uniqueSlug userId (ri_name input) None;
        now ← clock;
        _ ← write (insert_server (mkServer id userId (ri_name input) slug (ri_publicKey input)
                     (ri_hostname input) (ri_platform input) (ri_cliVersion input) (Some now) now));
        mret (Registered id true, d_trialStarted decision)
  end.

Definition ownerOf (publicKey : string) : Api (option (string * jstr)) :=
  row ← select (fun d => first (has_key publicKey) (db_servers d));
  mret (match row with Some s => Some (sv_userId s, sv_id s) | None => None end).

Definition seen (now : Z) (s : Server) : Server :=
  mkServer (sv_id s) (sv_userId s) (sv_name s) (sv_slug s) (sv_publicKey s) (sv_hostname s)
    (sv_platform s) (sv_cliVersion s) (Some now) (sv_updatedAt s).

Definition heartbeat (userId : string) (serverId : jstr) : Api bool :=
  now ← clock;
  changes ← update_servers (owned_by userId serverId) (seen now);
  mret (0 <? changes).

Definition renamed (name slug : jstr) (now : Z) (s : Server) : Server :=
  mkServer (sv_id s) (sv_userId s) name slug (sv_publicKey s) (sv_hostname s)
    (sv_platform s) (sv_cliVersion s) (sv_lastSeenAt s) now.

(** The update of a rename, with the index on (user, slug). *)
Definition rename_stmt (userId : string) (serverId name slug : jstr) (now : Z) (d : Db)
    : result string (Db * Z) :=
  if existsb (owned_by userId serverId) (db_servers d)
     && existsb (fun s => of_owner userId s && bool_decide (sv_slug s = slug)
                          && negb (has_id serverId s)) (db_servers d)
  then Err UNIQUE
  else let '(t, n) := update (owned_by userId serverId) (renamed name slug now) (db_servers d) in
       Ok (with_servers t d, n).

Definition rename (userId : string) (serverId name : jstr) : Api bool :=
  slug ← uniqueSlug userId name (Some serverId);
  now ← clock;
  changes ← write (rename_stmt userId serverId name slug now);
  mret (0 <? changes).

(** [delete], with the cascade to [server_devices]. *)
Definition remove_stmt (userId : string) (serverId : jstr) (d : Db) : result string (Db * Z) :=
  let gone := filter (fun s => owned_by userId serverId s = true) (db_servers d) in
  Ok (with_serverDevices
        (drop_rows (fun x => bool_decide (sd_serverId x ∈ (sv_id <$> gone))) (db_serverDevices d))
        (with_servers (drop_rows (owned_by userId serverId) (db_servers d)) d),
      Z.of_nat (length gone)).

Definition remove (userId : string) (serverId : jstr) : Api bool :=
  changes ← write (remove_stmt userId serverId);
  mret (0 <? changes).
End Registry.

(** ** The mirror of the subscriptions *)

Record SubscriptionState := mkState {
  ss_status : string;
  ss_plan : PlanId;
  ss_planSource : Source;
  ss_trial : TrialState;
  ss_dodoCustomerId : option string;
  ss_dodoSubscriptionId : option string;
  ss_productId : option string;
  ss_currentPeriodEnd : option Z;
  ss_cancelAtPeriodEnd : bool;
}.

Definition FREE_STATE : SubscriptionState :=
  mkState "none" DEFAULT_PLAN SourceFree NO_TRIAL None None None None false.

Definition readSubscription (userId : string) : Api SubscriptionState :=
  now ← clock;
  row ← select (fun d => first (of_user userId) (db_subscriptions d));
  mret (match row with
        | None => FREE_STATE
        | Some row =>
            let resolved := resolvePlan (Some (resolvable row)) now in
            mkState (sub_status row) (res_plan resolved) (res_source resolved) (res_trial resolved)
              (sub_dodoCustomerId row) (sub_dodoSubscriptionId row) (sub_productId row)
              (sub_currentPeriodEnd row) (sub_cancelAtPeriodEnd row)
        end).

Record MirrorInput := mkMirror {
  mi_userId : string;
  mi_status : string;
  mi_plan : PlanId;
  mi_dodoCustomerId : option string;
  mi_dodoSubscriptionId : option string;
  mi_productId : option string;
  mi_currentPeriodEnd : option Z;
  mi_cancelAtPeriodEnd : option bool;
}.

Definition mirror_row (i : MirrorInput) (now : Z) : Subscription :=
  mkSubscription (mi_userId i) (mi_dodoCustomerId i) (mi_dodoSubscriptionId i) (mi_productId i)
    (mi_status i) (plan_name (mi_plan i)) (mi_currentPeriodEnd i)
    (default false (mi_cancelAtPeriodEnd i)) None None now now.

(** [set: {...}]: the trial's columns are not among them. *)
Definition set_mirror (i : MirrorInput) (now : Z) (s : Subscription) : Subscription :=
  mkSubscription (sub_userId s) (mi_dodoCustomerId i) (mi_dodoSubscriptionId i) (mi_productId i)
    (mi_status i) (plan_name (mi_plan i)) (mi_currentPeriodEnd i)
    (default false (mi_cancelAtPeriodEnd i)) (sub_trialStartedAt s) (sub_trialEndsAt s)
    (sub_createdAt s) now.

Definition mirror_stmt (i : MirrorInput) (now : Z) (d : Db) : result string (Db * unit) :=
  let t := (upsert (of_user (mi_userId i)) (mirror_row i now) (fun _ => true) (set_mirror i now)
              (db_subscriptions d)).1 in
  match first (of_user (mi_userId i)) (db_subscriptions d) with
  | None => if has_user (mi_userId i) d then Ok (with_subscriptions t d, tt) else Err FOREIGN_KEY
  | Some _ => Ok (with_subscriptions t d, tt)
  end.

Definition mirrorSubscription (i : MirrorInput) : Api unit :=
  now ← clock; write (mirror_stmt i now).

Record Hints := mkHints {
  (** [metadata?.userId], when it is a string. *)
  hi_metadata : option string;
  hi_customerId : option string;
  hi_email : option string;
}.

Definition has_customer (c : string) (u : User) : bool := bool_decide (u_dodoCustomerId u = Some c).
Definition mirrors_customer (c : string) (s : Subscription) : bool :=
  bool_decide (sub_dodoCustomerId s = Some c).
Definition has_email (e : string) (u : User) : bool := bool_decide (u_email u = e).

Definition resolve_by_email (h : Hints) : Api (option string) :=
  match truthy (hi_email h) with
  | None => mret None
  | Some e =>
      row ← select (fun d => first (has_email e) (db_user d));
      mret (match row with Some u => Some (u_id u) | None => None end)
  end.

Definition resolveUserId (h : Hints) : Api (option string) :=
  match truthy (hi_metadata h) with
  | Some userId => mret (Some userId)
  | None =>
      match truthy (hi_customerId h) with
      | None => resolve_by_email h
      | Some c =>
          row ← select (fun d => first (has_customer c) (db_user d));
          match row with
          | Some u => mret (Some (u_id u))
          | None =>
              mirrored ← select (fun d => first (mirrors_customer c) (db_subscriptions d));
              match mirrored with
              | Some s => mret (Some (sub_userId s))
              | None => resolve_by_email h
              end
          end
      end
  end.

Definition set_customer (c : string) (u : User) : User :=
  mkUser (u_id u) (u_email u) (u_name u) (Some c).

Definition linkCustomer (userId customerId : string) : Api Z :=
  write (fun d => let '(t, n) := update (fun u => bool_decide (u_id u = userId))
                                   (set_customer customerId) (db_user d) in
                  Ok (with_user t d, n)).

(** ** Webhooks *)

Record WebhookData := mkWebhookData {
  wd_subscription_id : string;
  wd_product_id : string;
  wd_status : string;
  wd_cancel_at_next_billing_date : option bool;
  wd_next_billing_date : option Z;
  wd_metadata_userId : option string;
  wd_customer_id : string;
  wd_email : option string;
}.

Inductive SubscriptionEvent :=
| Active | Renewed | OnHold | Cancelled | Expired | Failed | PlanChanged | Updated.

Inductive WebhookEvent :=
| OnSubscription (kind : SubscriptionEvent) (data : WebhookData)
| OnPaymentSucceeded
| OnPaymentFailed
(** An event without a handler. *)
| OnOther.

Definition claim_stmt (id type : string) (now : Z) (d : Db) : result string (Db * Z) :=
  match first (fun e => bool_decide (we_id e = id)) (db_webhookEvents d) with
  | Some _ => Ok (d, 0)
  | None => Ok (with_webhookEvents (db_webhookEvents d ++ [mkWebhookRow id type now]) d, 1)
  end.

(** [true] is ["claimed"]. *)
Definition claimDelivery (id type : string) : Api bool :=
  now ← clock;
  changes ← write (claim_stmt id type now);
  mret (negb (changes =? 0)).

Definition releaseDelivery (id : string) : Api unit :=
  write (fun d => Ok (with_webhookEvents
    (drop_rows (fun e => bool_decide (we_id e = id)) (db_webhookEvents d)) d, tt)).

Definition mirror_of (c : Catalogue) (userId : string) (data : WebhookData) : MirrorInput :=
  mkMirror userId (wd_status data)
    (planForStatus (wd_status data) (planForProduct c (Some (wd_product_id data))))
    (Some (wd_customer_id data)) (Some (wd_subscription_id data)) (Some (wd_product_id data))
    (wd_next_billing_date data)
    (Some (default false (wd_cancel_at_next_billing_date data))).

(** [apply] of [createWebhookHandlers]. *)
Definition apply_webhook (c : Catalogue) (data : WebhookData) : Api unit :=
  userId ← resolveUserId (mkHints (wd_metadata_userId data) (Some (wd_customer_id data)) (wd_email data));
  match userId with
  | None => mret tt
  | Some userId =>
      _ ← linkCustomer userId (wd_customer_id data);
      mirrorSubscription (mirror_of c userId data)
  end.

Definition webhook_handlers (c : Catalogue) (e : WebhookEvent) : Api unit :=
  match e with
  | OnSubscription _ data => apply_webhook c data
  | OnPaymentSucceeded | OnPaymentFailed | OnOther => mret tt
  end.

(** ** Requests *)

Record Request := mkRequest {
  rq_method : string;
  rq_pathname : string;
  rq_origin : option string;
  rq_forwarded : option string;
  rq_peer : option string;
  rq_webhookId : option string;
  (** Cookies and [Authorization]. *)
  rq_credentials : string;
  (** The body, for the schemas; and, of a webhook, the type it claims. *)
  rq_body : RawBody;
  rq_type : option string;
}.

Record LookupResult := mkLookup {
  lk_exists : bool;
  lk_hasPassword : bool;
  lk_hasPasskey : bool;
  lk_providers : list string;
}.

Record AuthConfigResult := mkAuthConfig {
  ac_emailPassword : bool;
  ac_passkeys : bool;
  ac_magicLink : bool;
  ac_passwordReset : bool;
  ac_providers : list string;
}.

Inductive Payload :=
| PError (error : string)
| PLimited (reason : option Reason) (upgradeUrl : string)
| PMe (userId email : string) (resolved : PlanResolution)
| PServers (servers : list ServerView)
| PRegistered (serverId : jstr) (resolved : PlanResolution) (justStarted : bool)
| PRenamed (trialStarted : bool)
| PBilling (state : SubscriptionState) (usage : MonthUsage) (billingEnabled : bool)
| PUrl (url : string)
| PDuplicate
| PStub (plan : PlanId)
| PAuthConfig (c : AuthConfigResult)
| PLookup (r : LookupResult)
| PTooOld (minProtocol : Z).

Inductive Reply :=
| Json (status : Z) (payload : Payload)
| TooMany (retryAfter : Z)
| NoContent
(** What the broker, better-auth and the webhook plugin answer. *)
| FromBroker (deviceId : string) (deviceLabel : jstr) (accountEmail : string)
| FromAuth
| FromPlugin (status : Z).

Record AccountsConfig := mkConfig {
  cf_catalogue : Catalogue;
  (** There is a payment provider's key. *)
  cf_dodo : bool;
  cf_billingEnabled : bool;
  cf_upgradeUrl : string;
  cf_corsOrigins : list string;
  cf_onlineWindowSeconds : Z;
  cf_emailEnabled : bool;
  cf_socialProviderIds : list string;
}.

(** What a checkout is created with. *)
Record Order := mkOrder {
  or_product : string;
  or_customer : string + string * string;
  or_userId : string;
}.

(** better-auth, as far as the source calls it. *)
Class Session := {
  getSession : string -> Z -> Db -> result string (option User);
}.

(** The payment provider and its plugin for better-auth.  [verified] is what a
    request says once its signature is accepted; [refused] the status of one
    whose signature is not; [crashed] the status when a handler threw, [None]
    when the exception goes through. *)
Class Plugin := {
  verified : Request -> option WebhookEvent;
  refused : Request -> Z;
  crashed : string -> option Z;
  checkoutSession : Order -> Draw -> result string (option string);
  portalSession : string -> Draw -> result string string;
}.

Definition ok_status (s : Z) : bool := (200 <=? s) && (s <=? 299).

(** Its documentation: anything but a verified delivery that was handled is
    answered with something other than a 2xx, and retried. *)
Class PluginLaws `{!Plugin} := {
  refused_not_ok r : ok_status (refused r) = false;
  crashed_not_ok e s : crashed e = Some s -> ok_status s = false;
}.

Definition LimiterOf := World -> RateLimiter.Limiter.

Definition with_reads l w := mkWorld (w_db w) l (w_writes w) (w_lookups w).
Definition with_writes l w := mkWorld (w_db w) (w_reads w) l (w_lookups w).
Definition with_lookups l w := mkWorld (w_db w) (w_reads w) (w_writes w) l.

(** [limiter.take(key)]; a refusal comes with [retryAfterMs] in seconds. *)
Definition take_from (get : World -> RateLimiter.Limiter)
    (set : RateLimiter.Limiter -> World -> World) (key : string) : Api (option Z) :=
  step (fun d w =>
    let '(ok, l) := RateLimiter.take key (dr_now d) (get w) in
    if ok : bool then (set l w, Ok None)
    else let '(ms, l) := RateLimiter.retryAfterMs key (dr_now d) l in
         (set l w, Ok (Some (ceil_div ms 1000)))).

Definition take_budget (is_read : bool) (key : string) : Api (option Z) :=
  if is_read then take_from w_reads with_reads key else take_from w_writes with_writes key.

Section Routes.
Context `{!Unicode, !Session, !Plugin, !Hex, !Sha256} (config : AccountsConfig).

(** [RouteDeps]: whether there is a broker, and its version floor. *)
Context (brokerAttached : bool) (upgradeRequired : option Fields -> option Z).

Notation list_servers := (list_servers (cf_onlineWindowSeconds config)).

Record AuthedUser := mkAuthed {
  au_id : string;
  au_email : string;
  au_name : string;
  au_plan : PlanId;
  au_customerId : option string;
}.

(** [billing.checkout], [portal] and [summary]. *)
Definition checkout (user : AuthedUser) (interval : Interval) : Api (string + string) :=
  if negb (cf_dodo config) || negb (cf_billingEnabled config)
  then mret (inr "Billing is not configured.")
  else match productIdFor (cf_catalogue config) pro interval with
       | None => mret (inr "That plan is not available.")
       | Some productId =>
           let customer := match truthy (au_customerId user) with
                           | Some c => inl c
                           | None => inr (au_email user, au_name user)
                           end in
           url ← step (fun d w => (w, checkoutSession (mkOrder productId customer (au_id user)) d));
           mret (match truthy url with Some u => inl u | None => inr "Checkout is unavailable." end)
       end.

Definition portal (customerId : option string) : Api (string + string) :=
  if negb (cf_dodo config) then mret (inr "Billing is not configured.")
  else match truthy customerId with
       | None => mret (inr "This account has no billing history yet.")
       | Some c => link ← step (fun d w => (w, portalSession c d)); mret (inl link)
       end.

Definition summary (userId : string) : Api Payload :=
  state ← readSubscription userId;
  now ← clock;
  usage ← usageThisMonth userId now;
  mret (PBilling state usage (cf_billingEnabled config)).

Definition url_reply (outcome : string + string) : Reply :=
  match outcome with inl url => Json 200 (PUrl url) | inr reason => Json 503 (PError reason) end.

Definition match_path (pattern pathname : string) : Api (option (list jstr)) :=
  match matchPath pattern pathname with Ok m => Ret m | Err e => Throw e end.

Definition is_route (r : Request) (method pathname : string) : bool :=
  bool_decide (rq_pathname r = pathname) && bool_decide (rq_method r = method).

Definition on_pair_request (r : Request) (user : AuthedUser) : Api Reply :=
  match readBody PairRequestBody (rq_body r) with
  | Refused status error raw =>
      mret (match upgradeRequired raw with
            | Some minProtocol => Json 426 (PTooOld minProtocol)
            | None => Json status (PError error)
            end)
  | Parsed body =>
      if negb brokerAttached then mret (Json 503 (PError "Requested pairing is unavailable."))
      else
        now ← clock;
        list_servers (au_id user) now ≫= fun owned : list ServerView =>
        match head (filter (fun s : ServerView => v_id s = pr_serverId body) owned) with
        | None => mret (Json 404 (PError "No such machine on this account."))
        | Some server =>
            match hexToBytes (v_publicKey server) with
            | Err _ => Throw "malformed hex"
            | Ok key => mret (FromBroker (deviceIdFor key) (pr_deviceLabel body) (au_email user))
            end
        end
  end.

Definition on_register (r : Request) (user : AuthedUser) : Api Reply :=
  match readBody RegisterServerBody (rq_body r) with
  | Refused status error _ => mret (Json status (PError error))
  | Parsed body =>
      res ← register (au_id user) body (checkServerLimit (au_id user));
      let '(outcome, trialStarted) := res : RegisterOutcome * bool in
      match outcome with
      | Limited reason => mret (Json 402 (PLimited (Some reason) (cf_upgradeUrl config)))
      | Conflict => mret (Json 409 (PError "This machine is already registered to another account."))
      | Registered serverId created =>
          resolved ← resolveNow (au_id user);
          mret (Json (if created : bool then 201 else 200) (PRegistered serverId resolved trialStarted))
      end
  end.

Definition on_rename (r : Request) (user : AuthedUser) (serverId : jstr) : Api Reply :=
  current ← resolveNow (au_id user);
  decision ← checkRename (au_id user) (res_plan current);
  if negb (d_allowed decision)
  then mret (Json 402 (PLimited (d_reason decision) (cf_upgradeUrl config)))
  else match readBody RenameServerBody (rq_body r) with
       | Refused status error _ => mret (Json status (PError error))
       | Parsed name =>
           found ← rename (au_id user) serverId name;
           mret (if negb found then Json 404 (PError "No such server.")
                 else Json 200 (PRenamed (d_trialStarted decision)))
       end.

Definition on_billing (r : Request) (user : AuthedUser) : Api (option Reply) :=
  if is_route r "GET" "/v1/billing" then
    payload ← summary (au_id user); mret (Some (Json 200 payload))
  else if is_route r "POST" "/v1/billing/checkout" then
    match readBody CheckoutRequest (rq_body r) with
    | Refused status error _ => mret (Some (Json status (PError error)))
    | Parsed isYearly =>
        outcome ← checkout user (if isYearly : bool then yearly else monthly);
        mret (Some (url_reply outcome))
    end
  else if is_route r "POST" "/v1/billing/portal" then
    subscription ← readSubscription (au_id user);
    outcome ← portal (match au_customerId user with
                      | Some c => Some c
                      | None => ss_dodoCustomerId subscription
                      end);
    mret (Some (url_reply outcome))
  else mret None.

(** The routes that name a server, then billing. *)
Definition on_server (r : Request) (user : AuthedUser) : Api (option Reply) :=
  beat ← match_path "/v1/servers/:id/heartbeat" (rq_pathname r);
  match beat ≫= head with
  | Some serverId =>
      if bool_decide (rq_method r = "POST") then
        found ← heartbeat (au_id user) serverId;
        mret (Some (if negb found then Json 404 (PError "No such server.") else NoContent))
      else on_billing r user
  | None =>
      server ← match_path "/v1/servers/:id" (rq_pathname r);
      match server ≫= head with
      | Some serverId =>
          if bool_decide (rq_method r = "PATCH") then
            reply ← on_rename r user serverId; mret (Some reply)
          else if bool_decide (rq_method r = "DELETE") then
            found ← remove (au_id user) serverId;
            mret (Some (if negb found then Json 404 (PError "No such server.") else NoContent))
          else on_billing r user
      | None => on_billing r user
      end
  end.

Definition handleAccountRoute (r : Request) (user : AuthedUser) : Api (option Reply) :=
  if is_route r "GET" "/v1/me" then
    resolved ← resolveNow (au_id user);
    mret (Some (Json 200 (PMe (au_id user) (au_email user) resolved)))
  else if is_route r "GET" "/v1/servers" then
    now ← clock;
    servers ← list_servers (au_id user) now;
    mret (Some (Json 200 (PServers servers)))
  else if is_route r "POST" "/v1/pair/request" then
    reply ← on_pair_request r user; mret (Some reply)
  else if is_route r "POST" "/v1/servers/register" then
    reply ← on_register r user; mret (Some reply)
  else on_server r user.

(** ** Before anyone is signed in *)

Definition authConfig : AuthConfigResult :=
  mkAuthConfig true true (cf_emailEnabled config) (cf_emailEnabled config) (cf_socialProviderIds config).

Definition string_compare (a b : string) : Z := compare_units (js a) (js b).

(** [[...new Set(l)].sort()]. *)
Definition sorted_set (l : list string) : list string := sort_cmp string_compare (reverse (remove_dups (reverse l))).

Definition lookupAccount (email : jstr) : Api LookupResult :=
  found ← select (fun d => first (fun u => bool_decide (map lower_ascii (js (u_email u)) = email)) (db_user d));
  match found with
  | None => mret (mkLookup false false false [])
  | Some found =>
      select (fun d => filter (fun a => ac_userId a = u_id found) (db_account d)) ≫= fun accounts : list Account =>
      passkeys ← select (fun d => Z.of_nat (length (filter (fun p => pk_userId p = u_id found) (db_passkey d))));
      mret (mkLookup true (bool_decide (Exists (fun a => ac_providerId a = "credential") accounts))
              (0 <? passkeys)
              (sorted_set (filter (fun id : string => id <> "credential" /\ id <> "passkey")
                             (ac_providerId <$> accounts))))
  end.

Definition handlePublicRoute (r : Request) : Api (option Reply) :=
  if is_route r "GET" "/v1/auth/config" then mret (Some (Json 200 (PAuthConfig authConfig)))
  else if is_route r "POST" "/v1/auth/lookup" then
    over ← take_from w_lookups with_lookups ("lookup:" +:+ clientIp (rq_forwarded r) (rq_peer r));
    match over with
    | Some after => mret (Some (TooMany after))
    | None =>
        match readBody LookupBody (rq_body r) with
        | Refused status error _ => mret (Some (Json status (PError error)))
        | Parsed email => result ← lookupAccount email; mret (Some (Json 200 (PLookup result)))
        end
    end
  else mret None.

(** ** The door *)

Definition authenticate (credentials : string) : Api (option AuthedUser) :=
  attempt
    (session ← step (fun d w => (w, getSession credentials (dr_now d) (w_db w)));
     match session with
     | None => mret None
     | Some user =>
         plan ← planFor (u_id user);
         mret (Some (mkAuthed (u_id user) (u_email user) (u_name user) plan (u_dodoCustomerId user)))
     end)
    (fun _ => Ret None).

(** [auth.handler] on the webhook's path. *)
Definition plugin_handler (r : Request) : Api Z :=
  match verified r with
  | None => mret (refused r)
  | Some event =>
      attempt (_ ← webhook_handlers (cf_catalogue config) event; mret 200)
        (fun e => match crashed e with Some s => Ret s | None => Throw e end)
  end.

Definition handleWebhook (r : Request) : Api Reply :=
  match rq_body r with
  | TooLarge => mret (Json 413 (PError "Webhook body is too large."))
  | _ =>
      match truthy (rq_webhookId r) with
      | None => mret (Json 400 (PError "Missing webhook-id."))
      | Some deliveryId =>
          let type := String.substring 0 64 (default "unknown" (rq_type r)) in
          claimed ← claimDelivery deliveryId type;
          if negb claimed then mret (Json 200 PDuplicate)
          else
            status ← attempt (plugin_handler r) (fun e => _ ← releaseDelivery deliveryId; Throw e);
            _ ← (if ok_status status then mret tt else releaseDelivery deliveryId);
            mret (FromPlugin status)
      end
  end.

Definition handleRequest (r : Request) : Api (option Reply) :=
  if negb (owns (rq_pathname r)) then mret None
  else if bool_decide (rq_method r = "OPTIONS") then mret (Some NoContent)
  else if is_route r "POST" WEBHOOK_PATH then reply ← handleWebhook r; mret (Some reply)
  else if String.prefix AUTH_PREFIX (rq_pathname r) then
    over ← take_budget (bool_decide (rq_method r = "GET"))
             ("auth:" +:+ clientIp (rq_forwarded r) (rq_peer r));
    mret (Some (match over with Some after => TooMany after | None => FromAuth end))
  else
    public ← handlePublicRoute r;
    match public with
    | Some reply => mret (Some reply)
    | None =>
        user ← authenticate (rq_credentials r);
        match user with
        | None => mret (Some (Json 401 (PError "Sign in first: mtmux login.")))
        | Some user =>
            over ← take_budget (bool_decide (rq_method r = "GET")) (au_id user);
            match over with
            | Some after => mret (Some (TooMany after))
            | None =>
                handled ← handleAccountRoute r user;
                mret (Some (default (Json 404 (PError "Not found.")) handled))
            end
        end
    end.

(** [checkDevice] of the mounted unit: anonymous is allowed. *)
Definition accounts_checkDevice (userId : option string) (serverId : jstr) : Api Decision :=
  match truthy userId with
  | None => mret ALLOWED
  | Some userId => plan ← planFor userId; checkDevice userId serverId plan
  end.

(** The stub, when there is no database. *)
Definition stub_handleRequest (r : Request) : option Reply :=
  if owns (rq_pathname r) then Some (Json 503 (PStub DEFAULT_PLAN)) else None.
Definition stub_authenticate : option AuthedUser := None.
Definition stub_ownerOfDevice (publicKey : string) : option (string * jstr) := None.
Definition stub_checkTunnel (userId : option string) : Decision := ALLOWED.
Definition stub_checkDevice (userId : option string) (serverId : jstr) : Decision := ALLOWED.
End Routes.
