(* ===== verification/AccountsTables.v ===== *)
(** * AccountsTables: what every statement keeps of the tables

    [db_ok]: the tables are well-typed (keys unique, references to rows that
    exist, columns in the ranges the schemas and [slugify] promise).  Each
    write of Accounts keeps it; what else a write may change is [Guarantee]. *)

From stdpp Require Import pretty.
From S2P Require Import Prelude Plans AccountsDb AccountsHttp Accounts.

#[local] Open Scope string_scope.
#[local] Open Scope list_scope.
#[local] Open Scope Z_scope.

(** ** Unique keys *)

Definition unique_by {R K} (key : R -> K) (t : list R) : Prop :=
  forall i j a b, t !! i = Some a -> t !! j = Some b -> key a = key b -> i = j.

Lemma unique_by_NoDup {R K} (key : R -> K) t : unique_by key t <-> NoDup (key <$> t).
Proof.
  rewrite NoDup_alt. split.
  - intros U i j k Hi Hj. rewrite list_lookup_fmap in Hi, Hj.
    destruct (t !! i) as [a|] eqn:Ea; [|done]. destruct (t !! j) as [b|] eqn:Eb; [|done].
    simplify_eq/=. eapply U; eauto; congruence.
  - intros N i j a b Ha Hb E. apply (N i j (key a)); rewrite list_lookup_fmap;
      [by rewrite Ha|by rewrite Hb, E].
Qed.

Lemma unique_elem {R K} (key : R -> K) t a b :
  unique_by key t -> a ∈ t -> b ∈ t -> key a = key b -> a = b.
Proof.
  intros U [i Hi]%list_elem_of_lookup [j Hj]%list_elem_of_lookup E.
  pose proof (U i j a b Hi Hj E). by simplify_eq.
Qed.

Lemma unique_by_drop {R K} (key : R -> K) p t : unique_by key t -> unique_by key (drop_rows p t).
Proof.
  rewrite !unique_by_NoDup. intros N. eapply sublist_NoDup; [exact N|].
  apply (fmap_sublist key), sublist_filter.
Qed.

Lemma unique_by_snoc {R K} (key : R -> K) t r :
  unique_by key t -> (forall x, x ∈ t -> key x <> key r) -> unique_by key (t ++ [r]).
Proof.
  rewrite !unique_by_NoDup, fmap_app. intros N Hr. apply NoDup_app. split; [done|]. split.
  - intros k (x & Hk & Hx)%list_elem_of_fmap Hr'%list_elem_of_singleton. apply (Hr x); congruence.
  - apply NoDup_singleton.
Qed.

Lemma lookup_update {R} (p : R -> bool) f t i a :
  (update p f t).1 !! i = Some a ->
  exists a0, t !! i = Some a0 /\ a = if p a0 then f a0 else a0.
Proof.
  unfold update. simpl. rewrite list_lookup_fmap. destruct (t !! i) as [a0|]; [|done].
  intros [= <-]. eauto.
Qed.

Lemma unique_by_update {R K} (key : R -> K) p f t :
  (forall r, key (f r) = key r) -> unique_by key t -> unique_by key (update p f t).1.
Proof.
  intros Hk U i j a b (a0 & Ha & ->)%lookup_update (b0 & Hb & ->)%lookup_update E.
  apply (U i j a0 b0 Ha Hb). destruct (p a0), (p b0); rewrite ?Hk in E; done.
Qed.

Lemma unique_by_upsert {R K} (key : R -> K) same fresh ok set t :
  (forall r, key (set r) = key r) ->
  (forall r, r ∈ t -> same r = false -> key r <> key fresh) ->
  unique_by key t -> unique_by key (upsert same fresh ok set t).1.
Proof.
  intros Hset Hfresh U. unfold upsert. destruct (first same t) eqn:E.
  - by apply unique_by_update.
  - simpl. apply unique_by_snoc; [done|]. intros x Hx. apply Hfresh; [done|].
    by eapply first_None in E.
Qed.

Lemma Forall_update {R} (P : R -> Prop) p f t :
  (forall r, P r -> p r = true -> P (f r)) -> Forall P t -> Forall P (update p f t).1.
Proof.
  intros Hf. rewrite !Forall_forall. intros HP x (r & Hr & [[-> _]|[-> Hp]])%elem_of_update;
    [by apply HP|]. apply Hf; [by apply HP|done].
Qed.

Lemma Forall_upsert {R} (P : R -> Prop) same fresh ok set t :
  P fresh -> (forall r, P r -> same r = true -> ok r = true -> P (set r)) -> Forall P t ->
  Forall P (upsert same fresh ok set t).1.
Proof.
  intros Hf Hs. rewrite !Forall_forall.
  intros HP x [[-> _]|[Hx|(r & Hr & H1 & H2 & ->)]]%elem_of_upsert; [done|by apply HP|].
  apply Hs; [by apply HP|done..].
Qed.

Lemma Forall_drop {R} (P : R -> Prop) p (t : list R) : Forall P t -> Forall P (drop_rows p t).
Proof. rewrite !Forall_forall. intros HP x [Hx _]%elem_of_drop_rows. by apply HP. Qed.

(** ** Well-typed tables *)

Definition is_user (userId : string) (d : Db) : Prop :=
  exists u, u ∈ db_user d /\ u_id u = userId.

Lemma has_user_true userId d : has_user userId d = true <-> is_user userId d.
Proof.
  unfold has_user. destruct (first _ _) as [u|] eqn:E.
  - apply first_Some in E as [Hu Hid]. apply bool_decide_eq_true in Hid.
    split; [|done]. intros _. by exists u.
  - split; [done|]. intros (u & Hu & Hid). eapply first_None in E; [|exact Hu].
    by apply bool_decide_eq_false in E.
Qed.

(** A slug is addressable: not empty, of [a-z0-9-], and no longer than one
    that was cut at 48 and had a number or six digits put after it. *)
Definition slug_unit (c : Z) : bool := slug_char c || (c =? 45).

Record slug_ok (s : jstr) : Prop := {
  slug_units : Forall (fun c => slug_unit c = true) s;
  slug_nonempty : s <> [];
  slug_start : forall c, head s = Some c -> c <> 45;
  slug_length : (length s <= 55)%nat;
}.

Definition name_ok (s : jstr) : Prop := (1 <= length s <= 64)%nat.

(** 64 hexadecimal digits, lower case. *)
Definition hex_unit (c : Z) : bool := is_digit c || ((97 <=? c) && (c <=? 102)).
Definition key_ok (k : string) : Prop :=
  length (js k) = 64%nat /\ Forall (fun c => hex_unit c = true) (js k).

Record server_ok (s : Server) : Prop := {
  srv_slug : slug_ok (sv_slug s);
  srv_name : name_ok (sv_name s);
  srv_key : key_ok (sv_publicKey s);
}.

(** A plan is one of the two, and a trial that started ends seven days on. *)
Record sub_ok (s : Subscription) : Prop := {
  sub_plan_ok : sub_plan s = "free" \/ sub_plan s = "pro";
  sub_trial_ok : sub_trialEndsAt s = (fun t => t + TRIAL_MS) <$> sub_trialStartedAt s;
}.

Record usage_ok (u : TunnelUsage) : Prop := {
  usage_bytes : 0 <= tu_bytes u;
  usage_seconds : 0 <= tu_seconds u;
  usage_sessions : 1 <= tu_sessions u;
}.

Record db_ok (d : Db) : Prop := {
  ok_users : unique_by u_id (db_user d);
  ok_emails : unique_by u_email (db_user d);
  ok_subs : unique_by sub_userId (db_subscriptions d);
  ok_sub_rows : Forall (fun s => sub_ok s /\ is_user (sub_userId s) d) (db_subscriptions d);
  ok_usage : unique_by (fun u => (tu_userId u, tu_day u)) (db_tunnelUsage d);
  ok_usage_rows : Forall (fun u => usage_ok u /\ is_user (tu_userId u) d) (db_tunnelUsage d);
  ok_events : unique_by we_id (db_webhookEvents d);
  ok_server_ids : unique_by sv_id (db_servers d);
  ok_server_keys : unique_by sv_publicKey (db_servers d);
  ok_server_slugs : unique_by (fun s => (sv_userId s, sv_slug s)) (db_servers d);
  ok_server_rows : Forall (fun s => server_ok s /\ is_user (sv_userId s) d) (db_servers d);
  ok_devices : Forall (fun x => exists s, s ∈ db_servers d /\ sv_id s = sd_serverId x)
                 (db_serverDevices d);
}.

Lemma newDb_ok : db_ok newDb.
Proof. constructor; try (intros ?????; done); constructor. Qed.

(** A row of [subscriptions], by its user. *)
Definition sub_of (userId : string) (d : Db) : option Subscription :=
  first (of_user userId) (db_subscriptions d).

Lemma sub_of_Some userId d s : sub_of userId d = Some s -> s ∈ db_subscriptions d /\ sub_userId s = userId.
Proof. intros [Hs Hu]%first_Some. by apply bool_decide_eq_true in Hu. Qed.

Lemma sub_of_elem d s : db_ok d -> s ∈ db_subscriptions d -> sub_of (sub_userId s) d = Some s.
Proof.
  intros Hd Hs. destruct (sub_of (sub_userId s) d) as [s'|] eqn:E.
  - apply sub_of_Some in E as [Hs' E]. f_equal.
    by apply (unique_elem sub_userId (db_subscriptions d)); [apply Hd|..].
  - eapply first_None in E; [|exact Hs]. by apply bool_decide_eq_false in E.
Qed.

(** ** What a write may change *)

(** [userId]'s trial has started, then. *)
Definition trial_at (userId : string) (d : Db) : option Z := sub_of userId d ≫= sub_trialStartedAt.

Inductive Token := Trial (userId : string) | Delivery (id : string).

#[export] Instance Token_eq_dec : EqDecision Token.
Proof. solve_decision. Defined.

Definition present (t : Token) (d : Db) : Prop :=
  match t with
  | Trial userId => trial_at userId d <> None
  | Delivery id => id ∈ (we_id <$> db_webhookEvents d)
  end.

#[export] Instance present_dec t d : base.Decision (present t d).
Proof. destruct t; simpl; apply _. Defined.

(** What names a machine and its owner: all but when it was seen and what it
    says it runs. *)
Definition identity (s : Server) : jstr * string * jstr * jstr * string :=
  (sv_id s, sv_userId s, sv_name s, sv_slug s, sv_publicKey s).

Definition listed (i : jstr * string * jstr * jstr * string) (d : Db) : Prop :=
  i ∈ (identity <$> db_servers d).

(** [Paid]: whom a request may put on a paid plan.  [Signed]: whom it speaks
    for. *)
Record Guarantee (Paid Signed : string -> Prop) (d d' : Db) : Prop := {
  g_ok : db_ok d';
  g_users : forall u, is_user u d -> is_user u d';
  g_trial : forall u t, trial_at u d = Some t -> trial_at u d' = Some t;
  g_pro : forall s', s' ∈ db_subscriptions d' -> sub_plan s' = "pro" ->
            (exists s, s ∈ db_subscriptions d /\ sub_userId s = sub_userId s' /\ sub_plan s = "pro")
            \/ Paid (sub_userId s');
  g_servers : forall s, s ∈ db_servers d -> listed (identity s) d' \/ Signed (sv_userId s);
  g_no_others : forall s', s' ∈ db_servers d' -> listed (identity s') d \/ Signed (sv_userId s');
}.

Lemma elem_listed s d : s ∈ db_servers d -> listed (identity s) d.
Proof. intros Hs. apply list_elem_of_fmap. by exists s. Qed.

#[export] Hint Resolve elem_listed : core.

Lemma guarantee_refl Paid Signed d : db_ok d -> Guarantee Paid Signed d d.
Proof. intros Hd. constructor; eauto. Qed.

#[export] Hint Resolve guarantee_refl : core.

(** A write that leaves [subscriptions] and [servers] alone. *)
Lemma guarantee_other Paid Signed d d' :
  db_ok d' -> (forall u, is_user u d -> is_user u d') ->
  db_subscriptions d' = db_subscriptions d -> db_servers d' = db_servers d ->
  Guarantee Paid Signed d d'.
Proof.
  intros Hd Hu Hs Hv. constructor; try done; unfold trial_at, sub_of; rewrite ?Hs; eauto;
    intros s ?; left; apply list_elem_of_fmap; exists s; by rewrite ?Hv in *.
Qed.

Lemma update_none {R} (p : R -> bool) f t : filter (fun r => p r = true) t = [] -> (update p f t).1 = t.
Proof.
  induction t as [|x t IH]; [done|]. rewrite filter_cons. unfold update in *. simpl in *.
  case_decide as Hx; [done|]. intros Hn. rewrite IH by done. by destruct (p x).
Qed.

Lemma update_some {R} (p : R -> bool) f t r : r ∈ t -> p r = true -> 0 < (update p f t).2.
Proof.
  intros Hr Hp. unfold update. simpl.
  assert (r ∈ filter (fun r => p r = true) t) as Hin by (apply list_elem_of_filter; auto).
  destruct (filter _ t); [by apply elem_of_nil in Hin|simpl; lia].
Qed.

Lemma with_same_subscriptions d : with_subscriptions (db_subscriptions d) d = d.
Proof. by destruct d. Qed.

(** A row under another key is found as before. *)
Lemma first_update_other {R} (q p : R -> bool) f t :
  (forall r, p r = true -> q r = false /\ q (f r) = false) ->
  first q (update p f t).1 = first q t.
Proof.
  intros Hq. unfold first, update. simpl. f_equal. induction t as [|x t IH]; [done|]. simpl.
  rewrite !filter_cons, IH. destruct (p x) eqn:Hp; [|done].
  destruct (Hq x Hp) as [H1 H2]. rewrite H1, H2. done.
Qed.

Lemma first_upsert_other {R} (q same : R -> bool) fresh ok set t :
  (forall r, same r = true -> q r = false /\ q (set r) = false) -> q fresh = false ->
  first q (upsert same fresh ok set t).1 = first q t.
Proof.
  intros Hq Hf. unfold upsert. destruct (first same t).
  - apply first_update_other. intros x [Hx _]%andb_prop. auto.
  - unfold first. simpl. rewrite filter_app, filter_cons_False, app_nil_r; [done|]. congruence.
Qed.

(** ** Writes of [subscriptions] *)

Lemma upsert_keeps {R} (same : R -> bool) fresh ok set t r :
  r ∈ t -> r ∈ (upsert same fresh ok set t).1
           \/ same r = true /\ ok r = true /\ set r ∈ (upsert same fresh ok set t).1.
Proof.
  intros Hr. unfold upsert. destruct (first same t) eqn:E; simpl.
  - destruct (same r && ok r) eqn:Hp.
    + right. apply andb_prop in Hp as Hp'. split_and!; [tauto..|].
      apply list_elem_of_fmap. exists r. by rewrite Hp.
    + left. apply list_elem_of_fmap. exists r. by rewrite Hp.
  - left. apply elem_of_app. by left.
Qed.

Lemma has_row_user u d s : db_ok d -> sub_of u d = Some s -> is_user u d.
Proof.
  intros Hd [Hs <-]%sub_of_Some. pose proof (ok_sub_rows d Hd) as F.
  rewrite Forall_forall in F. by apply F.
Qed.

Lemma is_user_subscriptions u t d : is_user u (with_subscriptions t d) <-> is_user u d.
Proof. done. Qed.

Section SubscriptionWrite.
Context (u : string) (fresh : Subscription) (ok : Subscription -> bool) (set : Subscription -> Subscription).
Hypothesis fresh_user : sub_userId fresh = u.
Hypothesis set_user : forall s, sub_userId (set s) = sub_userId s.
Hypothesis fresh_ok : sub_ok fresh.
Hypothesis set_ok : forall s, sub_ok s -> sub_ok (set s).
(** What is written over never un-starts or restarts a trial. *)
Hypothesis set_trial_kept : forall s t, ok s = true -> sub_trialStartedAt s = Some t ->
  sub_trialStartedAt (set s) = Some t.

Let after (d : Db) : Db :=
  with_subscriptions (upsert (of_user u) fresh ok set (db_subscriptions d)).1 d.

Lemma sub_write_ok d : db_ok d -> is_user u d -> db_ok (after d).
Proof.
  intros Hd Hu. destruct Hd. constructor; try assumption; simpl.
  - apply unique_by_upsert; [done| |done]. intros r _ Hr%bool_decide_eq_false.
    by rewrite fresh_user.
  - apply Forall_upsert; [by rewrite fresh_user| |done].
    intros r [Hr Hr'] _ _. rewrite set_user. auto.
Qed.

Lemma sub_write_trial d v t : db_ok d -> is_user u d -> trial_at v d = Some t -> trial_at v (after d) = Some t.
Proof.
  intros Hd Hu. unfold trial_at. destruct (sub_of v d) as [s|] eqn:E; [|done]. simpl. intros Ht.
  pose proof (sub_write_ok d Hd Hu) as Hd'. apply sub_of_Some in E as [Hs <-].
  destruct (upsert_keeps (of_user u) fresh ok set _ s Hs) as [Hs'|(_ & Hok & Hs')].
  - by rewrite (sub_of_elem (after d) s Hd' Hs').
  - rewrite <- set_user, (sub_of_elem (after d) (set s) Hd' Hs'). simpl. eauto.
Qed.

Lemma sub_write_guarantee (Paid Signed : string -> Prop) d :
  (sub_plan fresh = "pro" -> Paid u) ->
  (forall s, sub_userId s = u -> sub_plan (set s) = "pro" -> sub_plan s = "pro" \/ Paid u) ->
  db_ok d -> is_user u d -> Guarantee Paid Signed d (after d).
Proof.
  intros Hf Hs Hd Hu. constructor; eauto using sub_write_ok, sub_write_trial.
  intros s' Hs' Hpro.
  apply elem_of_upsert in Hs' as [[-> _]|[Hs'|(s & Hin & Hsame%bool_decide_eq_true & _ & ->)]].
  - right. rewrite fresh_user. auto.
  - left. by exists s'.
  - destruct (Hs s Hsame Hpro); [left; exists s; by rewrite set_user|right].
    by rewrite set_user, Hsame.
Qed.
End SubscriptionWrite.

Section Writes.
Context (Paid Signed : string -> Prop).
Notation G := (Guarantee Paid Signed).

Lemma trial_row_ok u now : sub_ok (trial_row u now).
Proof. constructor; simpl; auto. Qed.

Lemma set_trial_ok now s : sub_ok s -> sub_ok (set_trial now s).
Proof. intros [Hp _]. by constructor. Qed.

(** The statement of [startTrial] counts a row exactly when the trial had not
    started, and then it has. *)
Lemma start_trial_spec u now d d' n :
  db_ok d -> start_trial_stmt u now d = Ok (d', n) ->
  G d d' /\ db_webhookEvents d' = db_webhookEvents d
  /\ (forall v, v <> u -> trial_at v d' = trial_at v d)
  /\ (if 0 <? n then trial_at u d = None /\ trial_at u d' = Some now else d' = d).
Proof.
  intros Hd H. unfold start_trial_stmt in H.
  set (t := upsert (of_user u) (trial_row u now) never_trialled (set_trial now) (db_subscriptions d)) in H.
  assert (is_user u d /\ d' = with_subscriptions t.1 d /\ n = t.2) as (Hu & -> & ->).
  { destruct (first (of_user u) (db_subscriptions d)) as [s|] eqn:E.
    - destruct t eqn:Et. simplify_eq. split; [by eapply has_row_user|done].
    - destruct (has_user u d) eqn:Hh; [|done]. destruct t eqn:Et. simplify_eq.
      split; [by apply has_user_true|done]. }
  assert (forall s t0, never_trialled s = true -> sub_trialStartedAt s = Some t0 ->
            sub_trialStartedAt (set_trial now s) = Some t0) as Hkept.
  { intros s t0 Hn%bool_decide_eq_true Ht. congruence. }
  pose proof (sub_write_ok u (trial_row u now) never_trialled (set_trial now) eq_refl
                (fun _ => eq_refl) (trial_row_ok u now) (set_trial_ok now) d Hd Hu) as Hd'.
  fold t in Hd'. split_and!.
  - apply sub_write_guarantee; auto using trial_row_ok, set_trial_ok; simpl; done.
  - done.
  - intros v Hv. unfold trial_at, sub_of. simpl. unfold t.
    rewrite first_upsert_other; [done| |]; unfold of_user; simpl.
    + intros r Hr%bool_decide_eq_true. rewrite Hr. by rewrite bool_decide_eq_false_2.
    + by rewrite bool_decide_eq_false_2.
  - unfold t, upsert in *. destruct (first (of_user u) (db_subscriptions d)) as [s|] eqn:E.
    + apply first_Some in E as E'. destruct E' as [Hs Hsu%bool_decide_eq_true].
      destruct (sub_trialStartedAt s) as [t0|] eqn:Ht.
      * assert (filter (fun r => of_user u r && never_trialled r = true) (db_subscriptions d) = []) as Hnil.
        { apply elem_of_nil_inv. intros x (Hx & Hin)%list_elem_of_filter.
          apply andb_prop in Hx as [Hx%bool_decide_eq_true Hnt%bool_decide_eq_true].
          assert (x = s) as ->; [|congruence].
          apply (unique_elem sub_userId (db_subscriptions d)); [apply Hd|done..|congruence]. }
        rewrite update_none by done. unfold update. simpl. rewrite Hnil. apply with_same_subscriptions.
      * assert (of_user u s && never_trialled s = true) as Hp.
        { unfold of_user, never_trialled. by rewrite Hsu, Ht, !bool_decide_eq_true_2. }
        rewrite (proj2 (Z.ltb_lt 0 _)) by exact (update_some _ _ _ s Hs Hp).
        split; [unfold trial_at, sub_of; by rewrite E|]. unfold trial_at.
        assert (sub_of u (with_subscriptions (update (fun r => of_user u r && never_trialled r)
                  (set_trial now) (db_subscriptions d)).1 d) = Some (set_trial now s)) as ->; [|done].
        rewrite <- Hsu at 1. apply (sub_of_elem _ (set_trial now s) Hd').
        apply list_elem_of_fmap. exists s. by rewrite Hp.
    + split; [unfold trial_at, sub_of; by rewrite E|]. unfold trial_at.
      cbn [fst]. assert (sub_of u (with_subscriptions (db_subscriptions d ++ [trial_row u now]) d)
              = Some (trial_row u now)) as ->; [|done].
      apply (sub_of_elem _ (trial_row u now) Hd'). apply elem_of_app. right. by left.
Qed.

Lemma mirror_row_ok i now : sub_ok (mirror_row i now).
Proof. constructor; simpl; [destruct (mi_plan i); auto|done]. Qed.

Lemma set_mirror_ok i now s : sub_ok s -> sub_ok (set_mirror i now s).
Proof. intros [_ Ht]. constructor; simpl; [destruct (mi_plan i); auto|done]. Qed.

Lemma mirror_guarantee i now d d' x :
  (mi_plan i = pro -> Paid (mi_userId i)) ->
  db_ok d -> mirror_stmt i now d = Ok (d', x) ->
  G d d' /\ db_webhookEvents d' = db_webhookEvents d /\ (forall v, trial_at v d' = trial_at v d).
Proof.
  intros Hpaid Hd H. unfold mirror_stmt in H.
  set (t := upsert (of_user (mi_userId i)) (mirror_row i now) (fun _ => true) (set_mirror i now)
              (db_subscriptions d)) in H.
  assert (is_user (mi_userId i) d /\ d' = with_subscriptions t.1 d) as (Hu & ->).
  { destruct (first (of_user (mi_userId i)) (db_subscriptions d)) as [s|] eqn:E.
    - simplify_eq. split; [by eapply has_row_user|done].
    - destruct (has_user (mi_userId i) d) eqn:Hh; [|done]. simplify_eq.
      split; [by apply has_user_true|done]. }
  assert (plan_name (mi_plan i) = "pro" -> Paid (mi_userId i)) as Hpaid' by (by destruct (mi_plan i); auto).
  pose proof (sub_write_ok (mi_userId i) (mirror_row i now) (fun _ => true) (set_mirror i now) eq_refl
                (fun _ => eq_refl) (mirror_row_ok i now) (set_mirror_ok i now) d Hd Hu) as Hd'.
  fold t in Hd'. split_and!; [|done|].
  - apply sub_write_guarantee; auto using mirror_row_ok, set_mirror_ok.
  - intros v. destruct (trial_at v d) as [t0|] eqn:Ht.
    { apply sub_write_trial; auto using mirror_row_ok, set_mirror_ok. }
    unfold trial_at in *. destruct (sub_of v (with_subscriptions t.1 d)) as [s'|] eqn:E; [|done]. simpl.
    apply sub_of_Some in E as [Hs' <-].
    apply elem_of_upsert in Hs' as [[-> _]|[Hs'|(s & Hs & _ & _ & ->)]]; [done|..].
    + by rewrite (sub_of_elem d s' Hd Hs') in Ht.
    + simpl in Ht. by rewrite (sub_of_elem d s Hd Hs) in Ht.
Qed.

Lemma link_guarantee u c d :
  db_ok d -> G d (with_user (update (fun x => bool_decide (u_id x = u)) (set_customer c) (db_user d)).1 d).
Proof.
  intros Hd. set (d' := with_user _ d).
  assert (forall v, is_user v d -> is_user v d') as Hu.
  { intros v (x & Hx & Hid). unfold is_user, d'. simpl.
    exists (if bool_decide (u_id x = u) then set_customer c x else x). split.
    - apply list_elem_of_fmap. by exists x.
    - by case_match. }
  apply guarantee_other; [|done..].
  destruct Hd. constructor; try assumption; simpl; [by apply unique_by_update..| | |];
    (eapply Forall_impl; [eassumption|]; simpl; intros ? [? ?]; auto).
Qed.

Lemma events_ok t d : unique_by we_id t -> db_ok d -> db_ok (with_webhookEvents t d).
Proof. intros Ht Hd. destruct Hd. by constructor. Qed.

Lemma claim_spec id type now d d' n :
  db_ok d -> claim_stmt id type now d = Ok (d', n) ->
  G d d' /\ db_subscriptions d' = db_subscriptions d /\
  (if n =? 0 then d' = d else ~ present (Delivery id) d
     /\ forall x, present (Delivery x) d' <-> present (Delivery x) d \/ x = id).
Proof.
  intros Hd. unfold claim_stmt.
  destruct (first _ _) as [e|] eqn:E; intros [= <- <-]; [split; [by apply guarantee_refl|done]|].
  simpl. pose proof (proj1 (first_None _ _) E) as Hnone.
  assert (db_ok (with_webhookEvents (db_webhookEvents d ++ [mkWebhookRow id type now]) d)) as Hd'.
  { apply events_ok; [|done]. apply unique_by_snoc; [apply Hd|]. simpl.
    intros x Hx. by apply Hnone, bool_decide_eq_false in Hx. }
  split_and!; [by apply guarantee_other|done| |].
  - intros (x & Hid & Hx)%list_elem_of_fmap. apply Hnone, bool_decide_eq_false in Hx. congruence.
  - intros x. rewrite fmap_app, elem_of_app. simpl. by rewrite list_elem_of_singleton.
Qed.

Lemma release_spec id d :
  db_ok d ->
  let d' := with_webhookEvents (drop_rows (fun e => bool_decide (we_id e = id)) (db_webhookEvents d)) d in
  G d d' /\ forall x, present (Delivery x) d' <-> present (Delivery x) d /\ x <> id.
Proof.
  intros Hd d'. split.
  - apply guarantee_other; try done. apply events_ok; [|done]. apply unique_by_drop, Hd.
  - intros x. unfold d'. simpl. rewrite !list_elem_of_fmap. split.
    + intros (e & -> & [He Hne%bool_decide_eq_false]%elem_of_drop_rows). split; [by exists e|done].
    + intros [(e & -> & He) Hne]. exists e. split; [done|]. apply elem_of_drop_rows.
      split; [done|]. by apply bool_decide_eq_false.
Qed.

Lemma usage_guarantee u day b s now d d' x :
  0 <= b -> 0 <= s -> db_ok d -> usage_stmt u day b s now d = Ok (d', x) ->
  G d d' /\ db_webhookEvents d' = db_webhookEvents d /\ db_subscriptions d' = db_subscriptions d.
Proof.
  intros Hb Hs Hd H. unfold usage_stmt in H.
  set (t := upsert (on_day u day) (mkUsage u day b s 1 now) (fun _ => true) (add_usage b s now)
              (db_tunnelUsage d)) in H.
  assert (is_user u d /\ d' = with_tunnelUsage t.1 d) as (Hu & ->).
  { destruct (first (on_day u day) (db_tunnelUsage d)) as [r|] eqn:E.
    - simplify_eq. split; [|done]. apply first_Some in E as [Hr Hk].
      apply andb_prop in Hk as [<-%bool_decide_eq_true _].
      pose proof (ok_usage_rows d Hd) as F. rewrite Forall_forall in F. by apply F.
    - destruct (has_user u d) eqn:Hh; [|done]. simplify_eq. split; [by apply has_user_true|done]. }
  split; [|done]. apply guarantee_other; try done.
  destruct Hd. constructor; try assumption; simpl; unfold t.
  - apply unique_by_upsert; [done| |done]. unfold on_day. intros r _ Hr [= H1 H2].
    by rewrite H1, H2, !bool_decide_eq_true_2 in Hr.
  - apply Forall_upsert; [|simpl|done].
    + split; [constructor; simpl; lia|done].
    + intros r [[H1 H2 H3] Hr] _ _. split; [constructor; simpl; lia|done].
Qed.

(** *** Writes of [servers] *)

Lemma servers_ok t x d :
  unique_by sv_id t -> unique_by sv_publicKey t -> unique_by (fun s => (sv_userId s, sv_slug s)) t ->
  Forall (fun s => server_ok s /\ is_user (sv_userId s) d) t ->
  Forall (fun x => exists s, s ∈ t /\ sv_id s = sd_serverId x) x ->
  db_ok d -> db_ok (with_serverDevices x (with_servers t d)).
Proof. intros ????? Hd. destruct Hd. by constructor. Qed.

Lemma with_same_devices t d : with_servers t d = with_serverDevices (db_serverDevices d) (with_servers t d).
Proof. done. Qed.

Lemma server_row d s : db_ok d -> s ∈ db_servers d -> server_ok s /\ is_user (sv_userId s) d.
Proof. intros Hd Hs. pose proof (ok_server_rows d Hd) as F. rewrite Forall_forall in F. by apply F. Qed.

(** An update that leaves every name and owner alone. *)
Lemma refresh_guarantee p f d :
  (forall s, identity (f s) = identity s) -> db_ok d ->
  G d (with_servers (update p f (db_servers d)).1 d).
Proof.
  intros Hf Hd.
  assert (forall s, sv_id (f s) = sv_id s /\ sv_userId (f s) = sv_userId s /\ sv_name (f s) = sv_name s
            /\ sv_slug (f s) = sv_slug s /\ sv_publicKey (f s) = sv_publicKey s) as Hf'.
  { intros s. specialize (Hf s). by injection Hf as -> -> -> -> ->. }
  assert (db_ok (with_servers (update p f (db_servers d)).1 d)) as Hd'.
  { rewrite with_same_devices. destruct Hd as [? ? ? ? ? ? ? Hi Hk Hs Hr Hx].
    apply servers_ok; [..|by constructor].
    - apply unique_by_update; [|done]. intros r. apply Hf'.
    - apply unique_by_update; [|done]. intros r. apply Hf'.
    - apply unique_by_update; [|done]. intros r. destruct (Hf' r) as (? & ? & ? & ? & ?). congruence.
    - apply Forall_update; [|done]. intros r [[H1 H2 H3] H4] _.
      destruct (Hf' r) as (_ & E2 & E3 & E4 & E5). rewrite E2. split; [|done].
      by constructor; rewrite ?E3, ?E4, ?E5.
    - eapply Forall_impl; [exact Hx|]. simpl. intros x (s & Hs' & Hid).
      exists (if p s then f s else s). split; [apply list_elem_of_fmap; by exists s|].
      destruct (p s); [|done]. by rewrite (proj1 (Hf' s)). }
  constructor; try done; try by left.
  - intros s' Hs' Hpro. left. by exists s'.
  - intros s Hs. left. apply list_elem_of_fmap. exists (if p s then f s else s). split.
    + by destruct (p s).
    + apply list_elem_of_fmap. by exists s.
  - intros s' (s & Hs & [[-> _]|[-> _]])%elem_of_update; left; [by apply elem_listed|].
    rewrite Hf. by apply elem_listed.
Qed.

Lemma insert_guarantee row d d' x :
  Signed (sv_userId row) -> server_ok row -> db_ok d -> insert_server row d = Ok (d', x) -> G d d'.
Proof.
  intros Hsig Hrow Hd. unfold insert_server.
  destruct (forallb (distinct row) (db_servers d)) eqn:Hall; [|done]. simpl.
  destruct (has_user (sv_userId row) d) eqn:Hu; [|done]. simpl. intros [= <- _].
  apply has_user_true in Hu.
  assert (forall s, s ∈ db_servers d -> sv_id s <> sv_id row /\ sv_publicKey s <> sv_publicKey row
            /\ (sv_userId s, sv_slug s) <> (sv_userId row, sv_slug row)) as Hdist.
  { intros s Hs. rewrite forallb_forall in Hall. specialize (Hall s (proj1 (list_elem_of_In _ _) Hs)).
    unfold distinct in Hall. apply andb_prop in Hall as [[H1 H2]%andb_prop H3].
    apply negb_true_iff in H1, H2, H3. apply bool_decide_eq_false in H1, H2.
    split_and!; [congruence..|]. intros [= E1 E2].
    by rewrite E1, E2, !bool_decide_eq_true_2 in H3. }
  assert (db_ok (with_servers (db_servers d ++ [row]) d)) as Hd'.
  { rewrite with_same_devices. destruct Hd as [? ? ? ? ? ? ? Hi Hk Hs Hr Hx].
    apply servers_ok; [..|by constructor].
    1-3: apply unique_by_snoc; [done|]; intros s Hin; apply (Hdist s Hin).
    - apply Forall_app. split; [done|]. by apply Forall_singleton.
    - eapply Forall_impl; [exact Hx|]. simpl. intros x0 (s & Hs' & Hid). exists s.
      split; [apply elem_of_app; by left|done]. }
  constructor; try done; try by left.
  - intros s' Hs' Hpro. left. by exists s'.
  - intros s Hs. left. apply elem_listed. apply elem_of_app. by left.
  - intros s' [Hs'| ->%list_elem_of_singleton]%elem_of_app; [left; by apply elem_listed|by right].
Qed.

Lemma remove_guarantee u i d d' n :
  Signed u -> db_ok d -> remove_stmt u i d = Ok (d', n) -> G d d'.
Proof.
  intros Hsig Hd [= <- _].
  set (t := drop_rows (owned_by u i) (db_servers d)).
  set (x := drop_rows _ (db_serverDevices d)).
  assert (db_ok (with_serverDevices x (with_servers t d))) as Hd'.
  { destruct Hd as [? ? ? ? ? ? ? Hi Hk Hs Hr Hx]. apply servers_ok; [..|by constructor].
    1-3: by apply unique_by_drop.
    - by apply Forall_drop.
    - apply Forall_forall. intros y [Hy Hgone%bool_decide_eq_false]%elem_of_drop_rows.
      rewrite Forall_forall in Hx. destruct (Hx y Hy) as (s & Hs' & Hid). exists s. split; [|done].
      apply elem_of_drop_rows. split; [done|]. destruct (owned_by u i s) eqn:Ho; [|done].
      exfalso. apply Hgone. rewrite <- Hid. apply list_elem_of_fmap. exists s. split; [done|].
      by apply list_elem_of_filter. }
  constructor; try done; try by left.
  - intros s' Hs' Hpro. left. by exists s'.
  - intros s Hs. destruct (owned_by u i s) eqn:Ho.
    + right. apply andb_prop in Ho as [_ Ho%bool_decide_eq_true]. by rewrite Ho.
    + left. apply elem_listed. simpl. by apply elem_of_drop_rows.
  - intros s' [Hs' _]%elem_of_drop_rows. left. by apply elem_listed.
Qed.

Lemma rename_unique u i name slug now d d' n :
  db_ok d -> rename_stmt u i name slug now d = Ok (d', n) ->
  unique_by (fun s => (sv_userId s, sv_slug s)) (update (owned_by u i) (renamed name slug now) (db_servers d)).1.
Proof.
  intros Hd H. unfold rename_stmt in H. destruct (_ && _) eqn:Hc in H; [done|].
  assert (forall a b, a ∈ db_servers d -> b ∈ db_servers d -> owned_by u i a = true ->
            owned_by u i b = false -> (sv_userId a, slug) <> (sv_userId b, sv_slug b)) as Hno.
  { intros a b Ha Hb Hpa Hpb [= E1 E2]. apply andb_false_iff in Hc as [Hc|Hc].
    - assert (existsb (owned_by u i) (db_servers d) = true) as Ht; [|congruence].
      apply existsb_exists. exists a. by rewrite <- list_elem_of_In.
    - apply andb_prop in Hpa as [_ Hu%bool_decide_eq_true].
      assert (existsb (fun s => of_owner u s && bool_decide (sv_slug s = slug) && negb (has_id i s))
                (db_servers d) = true) as Ht; [|congruence].
      apply existsb_exists. exists b. rewrite <- list_elem_of_In. split; [done|].
      assert (of_owner u b = true) as Hub by (apply bool_decide_eq_true; congruence).
      rewrite Hub. unfold owned_by in Hpb. rewrite Hub, andb_true_r in Hpb. rewrite Hpb.
      by rewrite bool_decide_eq_true_2. }
  intros j k a b (a0 & Ha & ->)%lookup_update (b0 & Hb & ->)%lookup_update E.
  pose proof (list_elem_of_lookup_2 _ _ _ Ha) as Ha'. pose proof (list_elem_of_lookup_2 _ _ _ Hb) as Hb'.
  destruct (owned_by u i a0) eqn:Pa, (owned_by u i b0) eqn:Pb; simpl in E.
  - apply andb_prop in Pa as [Pa%bool_decide_eq_true _]. apply andb_prop in Pb as [Pb%bool_decide_eq_true _].
    apply (ok_server_ids d Hd j k a0 b0 Ha Hb). congruence.
  - by destruct (Hno a0 b0 Ha' Hb' Pa Pb).
  - destruct (Hno b0 a0 Hb' Ha' Pb Pa). by rewrite E.
  - by apply (ok_server_slugs d Hd j k a0 b0).
Qed.

Lemma rename_guarantee u i name slug now d d' n :
  Signed u -> name_ok name -> slug_ok slug -> db_ok d ->
  rename_stmt u i name slug now d = Ok (d', n) -> G d d'.
Proof.
  intros Hsig Hname Hslug Hd H. pose proof (rename_unique u i name slug now d d' n Hd H) as Huniq.
  unfold rename_stmt in H. destruct (_ && _) in H; [done|]. injection H as <- _.
  set (f := renamed name slug now) in *. set (p := owned_by u i) in *.
  assert (db_ok (with_servers (update p f (db_servers d)).1 d)) as Hd'.
  { rewrite with_same_devices. destruct Hd as [? ? ? ? ? ? ? Hi Hk Hs Hr Hx].
    apply servers_ok; [..|by constructor]; [by apply unique_by_update..|done| |].
    - apply Forall_update; [|done]. intros r [[H1 H2 H3] H4] _. split; [by constructor|done].
    - eapply Forall_impl; [exact Hx|]. simpl. intros x (s & Hs' & Hid).
      exists (if p s then f s else s). split; [apply list_elem_of_fmap; by exists s|].
      by destruct (p s). }
  assert (forall s, p s = true -> Signed (sv_userId s)) as Hp.
  { intros s [_ Ho%bool_decide_eq_true]%andb_prop. by rewrite Ho. }
  constructor; try done; try by left.
  - intros s' Hs' Hpro. left. by exists s'.
  - intros s Hs. destruct (p s) eqn:E; [right; by apply Hp|left].
    apply elem_listed, list_elem_of_fmap. exists s. by rewrite E.
  - intros s' (s & Hs & [[-> _]|[-> E]])%elem_of_update; [left; by apply elem_listed|right].
    by apply Hp in E.
Qed.
End Writes.

(** ** Slugs and bodies *)

Lemma drop_while_suffix {A} (p : A -> bool) l : exists t, l = t ++ drop_while p l.
Proof.
  induction l as [|x l [t IH]]; [by exists []|]. simpl. destruct (p x); [|by exists []].
  exists (x :: t). simpl. by rewrite <- IH.
Qed.

Lemma strip_end_prefix {A} (p : A -> bool) l : exists t, l = strip_end p l ++ t.
Proof.
  destruct (drop_while_suffix p (reverse l)) as [t Ht]. exists (reverse t). unfold strip_end.
  rewrite <- reverse_app, <- Ht. by rewrite reverse_involutive.
Qed.

Lemma head_drop_while {A} (p : A -> bool) l x : head (drop_while p l) = Some x -> p x = false.
Proof. induction l as [|y l IH]; [done|]. simpl. destruct (p y) eqn:E; [done|]. by intros [= <-]. Qed.

Lemma dash_runs_units w s : Forall (fun c => slug_unit c = true) (dash_runs w s).
Proof.
  revert w. induction s as [|c s IH]; intros w; simpl; [done|].
  destruct (slug_char c) eqn:E; [constructor; [by unfold slug_unit; rewrite E|done]|].
  destruct w; [done|]. by constructor.
Qed.

Lemma slugify_ok `{!Unicode} name : slug_ok (slugify name) /\ (length (slugify name) <= 48)%nat.
Proof.
  unfold slugify. set (s0 := toLowerCase _).
  pose proof (dash_runs_units false s0) as Hu. set (s1 := dash_runs false s0) in *.
  destruct (drop_while_suffix (Z.eqb 45) s1) as [t1 H1]. set (s2 := drop_while (Z.eqb 45) s1) in *.
  destruct (strip_end_prefix (Z.eqb 45) s2) as [t2 H2]. set (s3 := strip_end (Z.eqb 45) s2) in *.
  assert (Forall (fun c => slug_unit c = true) s3) as Hu3.
  { rewrite H1, H2 in Hu. apply Forall_app in Hu as [_ Hu]. by apply Forall_app in Hu as [Hu _]. }
  case_decide as Hn.
  { split; [|simpl; lia]. constructor; [by repeat constructor|done|by intros c [= <-]|simpl; lia]. }
  unfold slice in *. rewrite Nat.sub_0_r, drop_0 in *. split; [|rewrite length_take; lia].
  constructor; [by apply Forall_take|done| |rewrite length_take; lia].
  intros c Hc. assert (head s2 = Some c) as Hc2.
  { rewrite H2. destruct s3; [done|]. simpl in *. done. }
  apply head_drop_while in Hc2. lia.
Qed.

Lemma slug_suffix_ok base t :
  slug_ok base -> (length base <= 48)%nat -> Forall (fun c => slug_unit c = true) t ->
  (length t <= 6)%nat -> slug_ok (base ++ js "-" ++ t).
Proof.
  intros [Hu Hn Hs _] Hl Ht Hlt. constructor.
  - apply Forall_app. split; [done|]. by constructor.
  - by destruct base.
  - destruct base; [done|]. done.
  - rewrite !length_app. simpl. lia.
Qed.

Lemma slug_candidate_ok base n :
  slug_ok base -> (length base <= 48)%nat -> 2 <= n < SLUG_TRIES -> slug_ok (slug_candidate base n).
Proof.
  intros Hb Hl Hn.
  assert (Forall (fun n => Forall (fun c => slug_unit c = true) (js (pretty n))
                           /\ (length (js (pretty n)) <= 6)%nat) (seqZ 2 (SLUG_TRIES - 2))) as Hall.
  { apply (bool_decide_unpack _). vm_compute. exact I. }
  rewrite Forall_forall in Hall. destruct (Hall n) as [H1 H2]; [apply elem_of_seqZ; unfold SLUG_TRIES in *; lia|].
  by apply slug_suffix_ok.
Qed.

(** What a draw must look like, to be what the source draws. *)
Definition draw_ok (d : Draw) : Prop :=
  length (dr_hex d) = 6%nat /\ Forall (fun c => hex_unit c = true) (dr_hex d).

Lemma hex_is_slug c : hex_unit c = true -> slug_unit c = true.
Proof. unfold hex_unit, slug_unit, slug_char, is_digit. lia. Qed.

Lemma ServerName_ok f name : ServerName f = Some name -> name_ok name.
Proof.
  unfold ServerName, len, name_ok. destruct f as [|s|]; [done| |done].
  destruct (_ && _) eqn:E; [|done]. intros [= <-]. lia.
Qed.

Lemma js_to_ascii s : Forall (fun c => 0 <= c < 256) s -> js (to_ascii s) = s.
Proof.
  intros Hs. unfold js, to_ascii. rewrite String.list_ascii_of_string_of_list_ascii, map_map.
  induction Hs as [|c s Hc _ IH]; [done|]. simpl. rewrite IH, Ascii.N_ascii_embedding by lia.
  by rewrite Z2N.id by lia.
Qed.

Lemma lower_hex c : is_hex c = true -> hex_unit (lower_ascii c) = true /\ 0 <= lower_ascii c < 256.
Proof.
  unfold is_hex, hexValue. intros Hc.
  assert (48 <= c <= 57 \/ 65 <= c <= 70 \/ 97 <= c <= 102) as Hr.
  { destruct ((48 <=? c) && (c <=? 57)) eqn:E1; [lia|].
    destruct ((65 <=? c) && (c <=? 70)) eqn:E2; [lia|].
    destruct ((97 <=? c) && (c <=? 102)) eqn:E3; [lia|done]. }
  unfold hex_unit, lower_ascii, is_digit. destruct ((65 <=? c) && (c <=? 90)) eqn:E; lia.
Qed.

Lemma PublicKey_ok f k : PublicKey f = Some k -> key_ok k.
Proof.
  unfold PublicKey. destruct f as [|s|]; [done| |done].
  destruct (_ && _) eqn:E; [|done]. intros [= <-]. apply andb_prop in E as [E1 E2].
  apply Nat.eqb_eq in E1. rewrite forallb_forall in E2.
  assert (Forall (fun c => hex_unit c = true /\ 0 <= c < 256) (map lower_ascii s)) as Hall.
  { apply Forall_forall. intros c (c0 & -> & Hc)%list_elem_of_fmap.
    specialize (E2 c0 (proj1 (list_elem_of_In _ _) Hc)).
    by apply lower_hex. }
  unfold key_ok. rewrite js_to_ascii.
  - rewrite length_map. split; [done|]. eapply Forall_impl; [exact Hall|]. by intros c [H1 H2].
  - eapply Forall_impl; [exact Hall|]. by intros c [H1 H2].
Qed.

Lemma RegisterServerBody_ok v input :
  RegisterServerBody v = Some input -> name_ok (ri_name input) /\ key_ok (ri_publicKey input).
Proof.
  unfold RegisterServerBody. destruct (ServerName (f_name v)) eqn:E1; [|done]. simpl.
  destruct (PublicKey (f_publicKey v)) eqn:E2; [|done]. simpl.
  destruct (optional_string 255 _); [|done]. simpl. destruct (optional_string 64 _); [|done]. simpl.
  destruct (optional_string 32 _); [|done]. simpl. intros [= <-]. simpl.
  split; [by eapply ServerName_ok|by eapply PublicKey_ok].
Qed.
