(* ===== verification/AccountsLogic.v ===== *)
(** * AccountsLogic: reasoning about a handler among others

    [safe]: whatever the other handlers do between its steps, each step of a
    handler keeps the tables well-typed and stays within its [Guarantee].  A
    started trial and a claimed delivery are tokens: the step that brings one
    into the tables hands it to its handler, and only the handler that holds
    a token takes it out again. *)

From S2P Require Import Prelude RateLimit Plans AccountsDb AccountsHttp Noble DeviceKey Accounts AccountsTables.

#[local] Open Scope string_scope.
#[local] Open Scope list_scope.
#[local] Open Scope Z_scope.

Inductive moves (g : option Token) (d d' : Db) : option Token -> Prop :=
| stay : (forall t, present t d' <-> present t d) -> moves g d d' g
| taken t : g = None -> ~ present t d ->
    (forall t', present t' d' <-> present t' d \/ t' = t) -> moves g d d' (Some t)
| given t : g = Some t -> (forall t', present t' d' <-> present t' d /\ t' <> t) -> moves g d d' None.

Section Logic.
Context (Paid Signed : string -> Prop).
Notation G := (Guarantee Paid Signed).

Fixpoint safe {A} (Q : option Token -> result string A -> Prop) (g : option Token) (p : Api A) : Prop :=
  match p with
  | Ret a => Q g (Ok a)
  | Throw e => Q g (Err e)
  | Step B q k =>
      forall d w w' r, draw_ok d -> db_ok (w_db w) -> (forall t, g = Some t -> present t (w_db w)) ->
        q d w = (w', r) ->
        G (w_db w) (w_db w') /\ exists g', moves g (w_db w) (w_db w') g' /\ safe Q g' (k r)
  end.

Lemma safe_mono {A} (Q Q' : option Token -> result string A -> Prop) g p :
  (forall g r, Q g r -> Q' g r) -> safe Q g p -> safe Q' g p.
Proof.
  intros HQ. revert g. induction p as [a|e|B q k IH]; intros g; simpl; [apply HQ|apply HQ|].
  intros Hs d w w' r Hd Hw Hg E. destruct (Hs d w w' r Hd Hw Hg E) as [HG (g' & Hm & Hk)].
  split; [done|]. exists g'. auto.
Qed.

Lemma safe_bind {A B} (Q : option Token -> result string A -> Prop) Q' g (p : Api A) (f : A -> Api B) :
  safe Q g p ->
  (forall g a, Q g (Ok a) -> safe Q' g (f a)) ->
  (forall g e, Q g (Err e) -> Q' g (Err e)) ->
  safe Q' g (p ≫= f).
Proof.
  intros Hp Hf He. revert g Hp. induction p as [a|e|C q k IH]; intros g; simpl; [apply Hf|apply He|].
  intros Hs d w w' r Hd Hw Hg E. destruct (Hs d w w' r Hd Hw Hg E) as [HG (g' & Hm & Hk)].
  split; [done|]. exists g'. split; [done|]. by apply IH.
Qed.

Lemma safe_attempt {A} (Q Q' : option Token -> result string A -> Prop) g (p : Api A) h :
  safe Q g p ->
  (forall g a, Q g (Ok a) -> Q' g (Ok a)) ->
  (forall g e, Q g (Err e) -> safe Q' g (h e)) ->
  safe Q' g (attempt p h).
Proof.
  intros Hp Ha Hh. revert g Hp. induction p as [a|e|C q k IH]; intros g; simpl; [apply Ha|apply Hh|].
  intros Hs d w w' r Hd Hw Hg E. destruct (Hs d w w' r Hd Hw Hg E) as [HG (g' & Hm & Hk)].
  split; [done|]. exists g'. split; [done|]. by apply IH.
Qed.

Lemma safe_step {B} (Q : option Token -> result string B -> Prop) g q :
  (forall d w w' r, draw_ok d -> db_ok (w_db w) -> (forall t, g = Some t -> present t (w_db w)) ->
     q d w = (w', r) ->
     G (w_db w) (w_db w') /\ exists g', moves g (w_db w) (w_db w') g' /\ Q g' r) ->
  safe Q g (step q).
Proof.
  intros H d w w' r Hd Hw Hg E. destruct (H d w w' r Hd Hw Hg E) as [HG (g' & Hm & HQ)].
  split; [done|]. exists g'. split; [done|]. by destruct r.
Qed.

(** ** Handlers that move no token *)

Definition quiet {A} (P : A -> Prop) (p : Api A) : Prop :=
  forall g, safe (fun g' r => g' = g /\ forall a, r = Ok a -> P a) g p.

Definition any {A} (a : A) : Prop := True.

Lemma hush_ret {A} (P : A -> Prop) a : P a -> quiet P (mret a).
Proof. intros Ha g. split; [done|]. by intros _ [= <-]. Qed.

Lemma quiet_throw {A} (P : A -> Prop) e : quiet P (Throw e).
Proof. intros g. done. Qed.

Lemma hush_bind {A B} (P : A -> Prop) (P' : B -> Prop) p (f : A -> Api B) :
  quiet P p -> (forall a, P a -> quiet P' (f a)) -> quiet P' (p ≫= f).
Proof.
  intros Hp Hf g. eapply safe_bind; [apply Hp|..]; simpl.
  - intros g' a [-> Ha]. by apply Hf, Ha.
  - intros g' e [-> _]. done.
Qed.

Lemma quiet_mono {A} (P P' : A -> Prop) p : (forall a, P a -> P' a) -> quiet P p -> quiet P' p.
Proof. intros HP Hp g. eapply safe_mono; [|apply Hp]. simpl. naive_solver. Qed.

Lemma quiet_any {A} (P : A -> Prop) p : quiet P p -> quiet any p.
Proof. by apply quiet_mono. Qed.

Lemma quiet_attempt {A} (P : A -> Prop) p h :
  quiet P p -> (forall e, quiet P (h e)) -> quiet P (attempt p h).
Proof.
  intros Hp Hh g. eapply safe_attempt; [apply Hp|done|]. intros g' e [-> _]. apply Hh.
Qed.

(** A step that leaves the database alone. *)
Lemma quiet_step {B} (P : B -> Prop) q :
  (forall d w w' r, draw_ok d -> db_ok (w_db w) -> q d w = (w', r) ->
     w_db w' = w_db w /\ forall b, r = Ok b -> P b) ->
  quiet P (step q).
Proof.
  intros H g. apply safe_step. intros d w w' r Hd Hw _ E. destruct (H d w w' r Hd Hw E) as [-> HP].
  split; [by apply guarantee_refl|]. exists g. split; [by apply stay|done].
Qed.

Lemma quiet_clock : quiet any clock.
Proof. apply quiet_step. by intros d w w' r _ _ [= <- <-]. Qed.

Lemma quiet_random_id : quiet any random_id.
Proof. apply quiet_step. by intros d w w' r _ _ [= <- <-]. Qed.

Lemma quiet_random_hex :
  quiet (fun r => length r = 6%nat /\ Forall (fun c => hex_unit c = true) r) random_hex.
Proof. apply quiet_step. intros d w w' r Hd _ [= <- <-]. split; [done|]. by intros _ [= <-]. Qed.

Lemma quiet_select {B} (f : Db -> B) : quiet (fun b => exists d, db_ok d /\ b = f d) (select f).
Proof.
  apply quiet_step. intros d w w' r _ Hw [= <- <-]. split; [done|]. intros b [= <-]. eauto.
Qed.

Lemma hush_write {B} (f : Db -> result string (Db * B)) :
  (forall d d' b, db_ok d -> f d = Ok (d', b) -> G d d' /\ forall t, present t d' <-> present t d) ->
  quiet any (write f).
Proof.
  intros H g. apply safe_step. intros d w w' r _ Hw _ E.
  destruct (f (w_db w)) as [[db b]|e] eqn:Ef; injection E as <- <-; simpl.
  - destruct (H _ _ _ Hw Ef) as [HG Hp]. split; [done|]. exists g. split; [by apply stay|done].
  - split; [by apply guarantee_refl|]. exists g. split; [by apply stay|done].
Qed.

(** Present tokens depend on two tables. *)
Lemma present_same d d' :
  db_webhookEvents d' = db_webhookEvents d -> db_subscriptions d' = db_subscriptions d ->
  forall t, present t d' <-> present t d.
Proof. intros He Hs [u|x]; simpl; unfold trial_at, sub_of; by rewrite ?He, ?Hs. Qed.

(** ** Entitlements *)

Lemma quiet_resolveFor u now : quiet any (resolveFor u now).
Proof. eapply hush_bind; [apply quiet_select|]. intros; by apply hush_ret. Qed.

Lemma quiet_resolveNow u : quiet any (resolveNow u).
Proof. eapply hush_bind; [apply quiet_clock|]. intros now _. apply quiet_resolveFor. Qed.

Lemma quiet_planFor u : quiet any (planFor u).
Proof. eapply hush_bind; [apply quiet_resolveNow|]. intros; by apply hush_ret. Qed.

Lemma quiet_usage u now : quiet any (usageThisMonth u now).
Proof.
  eapply hush_bind; [apply quiet_select|]. intros rows _.
  eapply hush_bind; [apply quiet_select|]. intros; by apply hush_ret.
Qed.

Definition plain (d : Decision) : Prop := d_trialStarted d = false.

Lemma quiet_evaluateTunnel u p : quiet plain (evaluateTunnel u p).
Proof.
  unfold evaluateTunnel. destruct (pl_monthlyBytes _) as [l|]; [|by apply hush_ret].
  eapply hush_bind; [apply quiet_clock|]. intros now _.
  eapply hush_bind; [apply quiet_usage|]. intros m _. apply hush_ret. by case_match.
Qed.

Lemma quiet_evaluateServers u p : quiet plain (evaluateServers u p).
Proof.
  unfold evaluateServers. destruct (pl_servers _) as [l|]; [|by apply hush_ret].
  eapply hush_bind; [apply quiet_select|]. intros m _. apply hush_ret. by case_match.
Qed.

Lemma quiet_evaluateDevices i p : quiet plain (evaluateDevices i p).
Proof.
  unfold evaluateDevices. destruct (pl_devicesPerServer _) as [l|]; [|by apply hush_ret].
  eapply hush_bind; [apply quiet_select|]. intros m _. apply hush_ret. by case_match.
Qed.

(** The statement of [startTrial] takes the token exactly when it counts. *)
Lemma safe_startTrial u now :
  safe (fun g r => match r with Ok true => g = Some (Trial u) | _ => g = None end) None (startTrial u now).
Proof.
  unfold startTrial. eapply (safe_bind (fun g r => match r with
    | Ok n => if 0 <? n then g = Some (Trial u) else g = None | Err _ => g = None end)).
  - apply safe_step. intros d w w' r _ Hw _ E.
    destruct (start_trial_stmt u now (w_db w)) as [[db n]|e] eqn:Ef; injection E as <- <-; simpl.
    + destruct (start_trial_spec Paid Signed u now _ _ _ Hw Ef) as (HG & Hev & Hother & Hn).
      split; [done|]. destruct (0 <? n).
      * destruct Hn as [H0 H1]. exists (Some (Trial u)). split; [|done]. apply taken; [done|simpl; rewrite H0; intros Hp; by apply Hp|].
        intros [v|x]; simpl.
        -- destruct (decide (v = u)) as [->|Hne]; [rewrite H1; naive_solver|].
           rewrite Hother by done. naive_solver.
        -- rewrite Hev. naive_solver.
      * exists None. subst. split; [by apply stay|done].
    + split; [by apply guarantee_refl|]. exists None. split; [by apply stay|done].
  - intros g n Hg. simpl in *. by destruct (0 <? n).
  - done.
Qed.

(** An announcement is made by who holds the trial. *)
Definition announces (u : string) (g : option Token) (r : result string Decision) : Prop :=
  (g = None \/ g = Some (Trial u)) /\
  forall d, r = Ok d -> d_trialStarted d = true -> g = Some (Trial u).

Lemma announces_plain u d : plain d -> announces u None (Ok d).
Proof. intros Hd. split; [by left|]. unfold plain in Hd. intros d' [= <-]. congruence. Qed.

Lemma announces_err u e : announces u None (Err e).
Proof. split; [by left|]. intros d [=]. Qed.

Lemma safe_withTrial u plan evaluate :
  (forall p, quiet plain (evaluate p)) -> safe (announces u) None (withTrial u plan evaluate).
Proof.
  intros Hev. unfold withTrial.
  eapply safe_bind; [apply quiet_clock| |intros g e [-> _]; apply announces_err].
  intros g now [-> _].
  eapply safe_bind; [apply Hev| |intros g e [-> _]; apply announces_err].
  intros g decision [-> Hd]. specialize (Hd _ eq_refl).
  destruct (d_allowed decision); [by apply announces_plain|].
  destruct (bool_decide _); [by apply announces_plain|].
  eapply safe_bind; [apply quiet_resolveFor| |intros g e [-> _]; apply announces_err].
  intros g res [-> _]. destruct (negb _); [by apply announces_plain|].
  eapply safe_bind; [apply Hev| |intros g e [-> _]; apply announces_err].
  intros g under [-> _]. destruct (negb _); [by apply announces_plain|].
  eapply safe_bind; [apply safe_startTrial| |intros g e ->; apply announces_err].
  intros g [|] ->; simpl; [|by apply announces_plain]. split; [by right|done].
Qed.

Lemma safe_checkTunnel u : u <> "" -> safe (announces u) None (checkTunnel (Some u)).
Proof.
  intros Hu. unfold checkTunnel, truthy. rewrite decide_False by done.
  eapply safe_bind; [apply quiet_planFor| |intros g e [-> _]; apply announces_err].
  intros g plan [-> _]. apply safe_withTrial, quiet_evaluateTunnel.
Qed.

Lemma safe_checkServerLimit u : safe (announces u) None (checkServerLimit u).
Proof.
  eapply safe_bind; [apply quiet_planFor| |intros g e [-> _]; apply announces_err].
  intros g plan [-> _]. apply safe_withTrial, quiet_evaluateServers.
Qed.

Lemma safe_checkDevice u i plan : safe (announces u) None (checkDevice u i plan).
Proof. apply safe_withTrial, quiet_evaluateDevices. Qed.

Lemma safe_checkRename u plan : safe (announces u) None (checkRename u plan).
Proof. apply safe_withTrial. intros p. apply hush_ret. by case_match. Qed.

Lemma quiet_recordUsage u b s : quiet any (recordUsage u b s).
Proof.
  unfold recordUsage. destruct (_ && _); [by apply hush_ret|].
  eapply hush_bind; [apply quiet_clock|]. intros now _. apply hush_write.
  intros d d' x Hd H. apply (usage_guarantee Paid Signed) in H as (HG & He & Hs); [|lia..|done].
  split; [done|]. by apply present_same.
Qed.

(** ** The registry *)

Section Registry.
Context {unicode : Unicode} (window : Z).

Lemma hush_list u now : quiet any (list_servers window u now).
Proof. eapply hush_bind; [apply quiet_select|]. intros; by apply hush_ret. Qed.

Lemma quiet_uniqueSlug u name except : quiet slug_ok (uniqueSlug u name except).
Proof.
  destruct (slugify_ok name) as [Hb Hl]. unfold uniqueSlug.
  eapply hush_bind; [apply quiet_select|]. intros rows _.
  destruct (negb _); [by apply hush_ret|]. destruct (head _) as [c|] eqn:Hc.
  - apply hush_ret.
    match type of Hc with head ?l = _ => assert (c ∈ l) as Hin by (destruct l; [done|injection Hc as ->; left]) end.
    apply list_elem_of_filter in Hin as [_ (n & -> & Hn%elem_of_seqZ)%list_elem_of_fmap].
    apply slug_candidate_ok; [done..|]. unfold SLUG_TRIES in *. lia.
  - eapply hush_bind; [apply quiet_random_hex|]. intros r [Hr Hh]. apply hush_ret.
    apply slug_suffix_ok; [done|done| |lia]. eapply Forall_impl; [exact Hh|]. apply hex_is_slug.
Qed.

Lemma quiet_update_servers p f :
  (forall s, identity (f s) = identity s) -> quiet any (update_servers p f).
Proof.
  intros Hf. apply hush_write. intros d d' n Hd H.
  pose proof (refresh_guarantee Paid Signed p f d Hf Hd) as HG. unfold update in *. simpl in *.
  injection H as <- _. split; [done|]. by apply present_same.
Qed.

Lemma quiet_heartbeat u i : quiet any (heartbeat u i).
Proof.
  eapply hush_bind; [apply quiet_clock|]. intros now _.
  eapply hush_bind; [by apply quiet_update_servers|]. intros; by apply hush_ret.
Qed.

Lemma hush_rename u i name : Signed u -> name_ok name -> quiet any (rename u i name).
Proof.
  intros Hu Hn. eapply hush_bind; [apply quiet_uniqueSlug|]. intros slug Hs.
  eapply hush_bind; [apply quiet_clock|]. intros now _.
  eapply hush_bind; [apply hush_write|intros; by apply hush_ret].
  intros d d' n Hd H. split; [by eapply rename_guarantee|].
  unfold rename_stmt in H. destruct (_ && _) in H; [done|]. injection H as <- _. by apply present_same.
Qed.

Lemma quiet_remove u i : Signed u -> quiet any (remove u i).
Proof.
  intros Hu. eapply hush_bind; [apply hush_write|intros; by apply hush_ret].
  intros d d' n Hd H. split; [by eapply remove_guarantee|]. injection H as <- _. by apply present_same.
Qed.

(** What a registration may announce. *)
Definition tells (u : string) (g : option Token) (r : result string (RegisterOutcome * bool)) : Prop :=
  forall o, r = Ok (o, true) -> g = Some (Trial u).

Lemma tells_not u g o : tells u g (Ok (o, false)).
Proof. intros o' [=]. Qed.

Lemma safe_register u input can :
  Signed u -> name_ok (ri_name input) -> key_ok (ri_publicKey input) ->
  safe (announces u) None can -> safe (tells u) None (register u input can).
Proof.
  intros Hu Hn Hk Hcan. unfold register.
  eapply safe_bind; [apply quiet_select| |intros g e [-> _] o [=]].
  intros g [row|] [-> _].
  - destruct (negb _); [apply tells_not|].
    eapply safe_bind; [apply quiet_clock| |intros g e [-> _] o [=]]. intros g now [-> _].
    eapply safe_bind; [by apply quiet_update_servers| |intros g e [-> _] o [=]].
    intros g n _. apply tells_not.
  - eapply safe_bind; [apply Hcan| |intros g e _ o [=]]. intros g decision [_ Ht].
    specialize (Ht _ eq_refl). destruct (negb _); [intros o [= _ Hd]; auto|].
    eapply safe_bind; [apply quiet_random_id| |intros g' e _ o [=]]. intros g' r [-> _].
    eapply safe_bind; [apply quiet_uniqueSlug| |intros g' e _ o [=]]. intros g' slug [-> Hs].
    eapply safe_bind; [apply quiet_clock| |intros g' e _ o [=]]. intros g' now [-> _].
    eapply safe_bind; [apply hush_write| |intros g' e _ o [=]].
    + intros d d' x Hd H. split.
      * eapply insert_guarantee; [..|exact H]; [done| |done]. constructor; [by apply Hs|done..].
      * unfold insert_server in H. destruct (negb _) in H; [done|]. destruct (negb _) in H; [done|].
        injection H as <- _. by apply present_same.
    + intros g' x [-> _] o [= _ Hd]. auto.
Qed.
End Registry.

(** ** Webhooks *)

Lemma quiet_readSubscription u : quiet any (readSubscription u).
Proof.
  eapply hush_bind; [apply quiet_clock|]. intros now _.
  eapply hush_bind; [apply quiet_select|]. intros; by apply hush_ret.
Qed.

Lemma quiet_by_email h : quiet any (resolve_by_email h).
Proof.
  unfold resolve_by_email. destruct (truthy _); [|by apply hush_ret].
  eapply hush_bind; [apply quiet_select|]. intros; by apply hush_ret.
Qed.

(** The account a delivery is about is the one its metadata names, if any. *)
Lemma quiet_resolveUserId h :
  quiet (fun u => forall x, u = Some x -> truthy (hi_metadata h) = Some x \/ truthy (hi_metadata h) = None)
    (resolveUserId h).
Proof.
  unfold resolveUserId. destruct (truthy (hi_metadata h)) as [u|]; [apply hush_ret; auto|].
  assert (forall p : Api (option string), quiet any p ->
    quiet (fun u => forall x, u = Some x -> None = Some x \/ @None string = None) p) as Hany.
  { intros p. apply quiet_mono. auto. }
  apply Hany. destruct (truthy _) as [c|]; [|apply quiet_by_email].
  eapply hush_bind; [apply quiet_select|]. intros [row|] _; [by apply hush_ret|].
  eapply hush_bind; [apply quiet_select|]. intros [row|] _; [by apply hush_ret|].
  apply quiet_by_email.
Qed.

Lemma quiet_linkCustomer u c : quiet any (linkCustomer u c).
Proof.
  apply hush_write. intros d d' n Hd H.
  pose proof (link_guarantee Paid Signed u c d Hd) as HG. unfold update in *. simpl in *.
  injection H as <- _. split; [done|]. by apply present_same.
Qed.

Lemma quiet_mirror i : (mi_plan i = pro -> Paid (mi_userId i)) -> quiet any (mirrorSubscription i).
Proof.
  intros Hp. eapply hush_bind; [apply quiet_clock|]. intros now _. apply hush_write.
  intros d d' x Hd H. apply (mirror_guarantee Paid Signed) in H as (HG & He & Ht); [|done..].
  split; [done|]. intros [v|y]; simpl; [by rewrite Ht|by rewrite He].
Qed.

(** Whom a delivery may put on a paid plan. *)
Definition pays (c : Catalogue) (data : WebhookData) (u : string) : Prop :=
  planForStatus (wd_status data) (planForProduct c (Some (wd_product_id data))) = pro /\
  (truthy (wd_metadata_userId data) = Some u \/ truthy (wd_metadata_userId data) = None).

Lemma quiet_apply c data :
  (forall u, pays c data u -> Paid u) -> quiet any (apply_webhook c data).
Proof.
  intros Hp. eapply hush_bind; [apply quiet_resolveUserId|]. intros [u|] Hu; [|by apply hush_ret].
  eapply hush_bind; [apply quiet_linkCustomer|]. intros n _. apply quiet_mirror. simpl.
  intros Hpro. apply Hp. split; [done|]. by apply Hu.
Qed.

(** A claim takes the delivery's token; a release gives it back. *)
Lemma safe_claim id type :
  safe (fun g r => g = match r with Ok true => Some (Delivery id) | _ => None end) None
    (claimDelivery id type).
Proof.
  unfold claimDelivery. eapply safe_bind; [apply quiet_clock| |by intros g e [-> _]].
  intros g now [-> _]. eapply (safe_bind (fun g r => match r with
    | Ok n => if n =? 0 then g = None else g = Some (Delivery id) | Err _ => g = None end)).
  - apply safe_step. intros d w w' r _ Hw _ E.
    destruct (claim_stmt id type now (w_db w)) as [[db n]|e] eqn:Ef; injection E as <- <-; simpl.
    + destruct (claim_spec Paid Signed id type now _ _ _ Hw Ef) as (HG & Hs & Hn).
      split; [done|]. destruct (n =? 0).
      * exists None. subst. split; [by apply stay|done].
      * destruct Hn as [H0 H1]. exists (Some (Delivery id)). split; [|done]. apply taken; [done..|].
        intros [v|x]; [|rewrite H1; split; intros [?|?]; simplify_eq; auto].
        simpl. unfold trial_at, sub_of. rewrite Hs. naive_solver.
    + split; [by apply guarantee_refl|]. exists None. split; [by apply stay|done].
  - intros g n Hg. simpl in *. by destruct (n =? 0).
  - done.
Qed.

Lemma safe_release id :
  safe (fun g r => g = None /\ r = Ok tt) (Some (Delivery id)) (releaseDelivery id).
Proof.
  apply safe_step. intros d w w' r _ Hw _ [= <- <-].
  destruct (release_spec Paid Signed id (w_db w) Hw) as [HG Hp]. split; [done|].
  exists None. split; [|done]. eapply given; [done|].
  intros [v|x]; [simpl; naive_solver|]. unfold with_db. simpl w_db. rewrite Hp.
  split; intros [? Hne]; (split; [done|congruence]).
Qed.
End Logic.
