(* ===== verification/AccountsSafety.v ===== *)
(** * AccountsSafety: the account API with any number of requests in flight

    The handlers of Accounts as threads over one database ([Sys]): a request,
    a call of the broker's metering, or a sign-up arrives ([EArrive],
    [ESignUp]); a thread runs one step ([ERun]).  What holds in every run,
    whatever the interleaving: the tables stay well-typed, a trial is had
    once, a delivery is handled once, only a paid-for subscription gives a
    paid plan, and a machine is its owner's. *)

From S2P Require Import Prelude RateLimit Plans AccountsDb AccountsHttp Noble DeviceKey Accounts AccountsTables AccountsLogic.

#[local] Open Scope string_scope.
#[local] Open Scope list_scope.
#[local] Open Scope Z_scope.

(** A reply that says this request started the trial; a delivery acknowledged
    as handled. *)
Definition told (rep : Reply) : Prop :=
  match rep with
  | Json _ (PRegistered _ _ true) | Json _ (PRenamed true) => True
  | _ => False
  end.

Definition acked (rep : Reply) : Prop :=
  match rep with FromPlugin s => ok_status s = true | _ => False end.

Definition dull (rep : Reply) : Prop := ~ told rep /\ ~ acked rep.
Ltac plain_reply := split; simpl; tauto.

Definition odull (o : option Reply) : Prop := forall rep, o = Some rep -> dull rep.

Lemma odull_some rep : dull rep -> odull (Some rep).
Proof. by intros Hr _ [= <-]. Qed.
Lemma odull_none : odull None.
Proof. by intros rep [=]. Qed.

Section Api.
Context {unicode : Unicode} {session : Session} {plugin : Plugin} {hexes : Hex} {sha : Sha256}.
Context (config : AccountsConfig) (brokerAttached : bool) (upgradeRequired : option Fields -> option Z).

(** ** Who a request speaks for, and what it pays for *)

Definition signed_by (r : Request) (u : string) : Prop :=
  exists now d user, getSession (rq_credentials r) now d = Ok (Some user) /\ u_id user = u.

Definition paid_by (r : Request) (u : string) : Prop :=
  exists kind data, verified r = Some (OnSubscription kind data) /\ pays (cf_catalogue config) data u.

(** What the thread of a request holds when it has answered. *)
Definition http_post (r : Request) (g : option Token) (res : result string (option Reply)) : Prop :=
  forall rep, res = Ok (Some rep) ->
    (told rep -> exists u, signed_by r u /\ g = Some (Trial u)) /\
    (acked rep -> exists id, truthy (rq_webhookId r) = Some id /\ g = Some (Delivery id)).

Section Request.
Context (r : Request).
Notation Paid := (paid_by r).
Notation Signed := (signed_by r).
Notation quiet := (quiet Paid Signed).
Notation safe := (safe Paid Signed).
Notation post := (http_post r).

Lemma post_err g e : post g (Err e).
Proof. intros rep [=]. Qed.

Lemma post_dull g o : odull o -> post g (Ok o).
Proof. intros Ho rep [= ->]. destruct (Ho rep eq_refl) as [H1 H2]. by split. Qed.

Lemma safe_dull g p : quiet odull p -> safe post g p.
Proof.
  intros Hp. eapply safe_mono; [|apply Hp]. intros g' [o|e] [-> Ho]; [|apply post_err].
  by apply post_dull, Ho.
Qed.

Ltac dull := apply odull_some; plain_reply.

(** [take]: only the limiters change. *)
Lemma quiet_take get set key :
  (forall l w, w_db (set l w) = w_db w) -> quiet any (take_from get set key).
Proof.
  intros Hset. apply quiet_step. intros d w w' res _ _ E.
  destruct (RateLimiter.take key (dr_now d) (get w)) as [[|] l]; [injection E as <- <-; by rewrite Hset|].
  destruct (RateLimiter.retryAfterMs key (dr_now d) l) as [ms l']. injection E as <- <-. by rewrite Hset.
Qed.

Lemma quiet_budget b key : quiet any (take_budget b key).
Proof. destruct b; by apply quiet_take. Qed.

(** ** Routes *)

Lemma quiet_checkout user interval : quiet any (checkout config user interval).
Proof.
  unfold checkout. destruct (_ || _); [by apply hush_ret|].
  destruct (productIdFor _ _ _); [|by apply hush_ret].
  eapply hush_bind; [|intros; by apply hush_ret].
  apply (quiet_step _ _ any). intros d w w' res _ _ [= <- <-]. by split; [|intros; exact I].
Qed.

Lemma quiet_portal c : quiet any (portal config c).
Proof.
  unfold portal. destruct (negb _); [by apply hush_ret|].
  destruct (truthy c); [|by apply hush_ret].
  eapply hush_bind; [|intros; by apply hush_ret].
  apply (quiet_step _ _ any). intros d w w' res _ _ [= <- <-]. by split; [|intros; exact I].
Qed.

Lemma quiet_summary u : quiet (fun p => dull (Json 200 p)) (summary config u).
Proof.
  eapply hush_bind; [apply quiet_readSubscription|]. intros st _.
  eapply hush_bind; [apply quiet_clock|]. intros now _.
  eapply hush_bind; [apply quiet_usage|]. intros m _. apply hush_ret. plain_reply.
Qed.

Lemma dull_url o : dull (url_reply o).
Proof. destruct o; plain_reply. Qed.

Lemma quiet_on_billing user : quiet odull (on_billing config r user).
Proof.
  unfold on_billing. destruct (is_route r "GET" _).
  { eapply hush_bind; [apply quiet_summary|]. intros p Hp. by apply hush_ret, odull_some. }
  destruct (is_route r "POST" "/v1/billing/checkout").
  { destruct (readBody _ _); [|apply hush_ret; dull].
    eapply hush_bind; [apply quiet_checkout|]. intros o _. apply hush_ret, odull_some, dull_url. }
  destruct (is_route r "POST" _); [|apply hush_ret, odull_none].
  eapply hush_bind; [apply quiet_readSubscription|]. intros st _.
  eapply hush_bind; [apply quiet_portal|]. intros o _. apply hush_ret, odull_some, dull_url.
Qed.

Lemma quiet_on_pair_request user :
  quiet dull (on_pair_request config brokerAttached upgradeRequired r user).
Proof.
  unfold on_pair_request. destruct (readBody _ _); [|case_match; apply hush_ret; plain_reply].
  destruct (negb _); [apply hush_ret; plain_reply|].
  eapply hush_bind; [apply quiet_clock|]. intros now _.
  eapply hush_bind; [apply hush_list|]. intros owned _.
  destruct (head _) as [server|]; [|apply hush_ret; plain_reply].
  destruct (hexToBytes _); [apply hush_ret; plain_reply|apply quiet_throw].
Qed.

(** The post of a route that may announce a trial. *)
Definition tells_reply (u : string) (g : option Token) (res : result string Reply) : Prop :=
  forall rep, res = Ok rep -> ~ acked rep /\ (told rep -> g = Some (Trial u)).

Lemma tells_dull u g rep : dull rep -> tells_reply u g (Ok rep).
Proof. intros [H1 H2] _ [= <-]. split; [done|]. by intros ?%H1. Qed.

Lemma tells_err u g e : tells_reply u g (Err e).
Proof. intros rep [=]. Qed.

Lemma safe_on_register user :
  Signed (au_id user) -> safe (tells_reply (au_id user)) None (on_register config r user).
Proof.
  intros Hs. unfold on_register. destruct (readBody _ (rq_body r)) as [input|] eqn:Eb;
    [|apply tells_dull; plain_reply].
  assert (name_ok (ri_name input) /\ key_ok (ri_publicKey input)) as [Hn Hk].
  { unfold readBody in Eb. destruct (rq_body r) as [| |v]; [done..|].
    destruct (RegisterServerBody v) eqn:E; [|done]. injection Eb as ->. by eapply RegisterServerBody_ok. }
  eapply safe_bind; [apply safe_register; [done..|apply safe_checkServerLimit]| |intros; apply tells_err].
  intros g [[i created|reason|] started] Ht; [|apply tells_dull; plain_reply..].
  eapply safe_bind; [apply quiet_resolveNow| |intros; apply tells_err].
  intros g' res [-> _] rep [= <-]. split; [simpl; tauto|]. destruct started; [|simpl; tauto]. intros _. by eapply Ht.
Qed.

Lemma safe_on_rename user serverId :
  Signed (au_id user) -> safe (tells_reply (au_id user)) None (on_rename config r user serverId).
Proof.
  intros Hs. unfold on_rename.
  eapply safe_bind; [apply quiet_resolveNow| |intros; apply tells_err]. intros g cur [-> _].
  eapply safe_bind; [apply safe_checkRename| |intros; apply tells_err]. intros g decision [_ Ht].
  specialize (Ht _ eq_refl). destruct (negb _); [apply tells_dull; plain_reply|].
  destruct (readBody _ (rq_body r)) as [name|] eqn:Eb; [|apply tells_dull; plain_reply].
  assert (name_ok name) as Hn.
  { unfold readBody in Eb. destruct (rq_body r) as [| |v]; [done..|].
    destruct (RenameServerBody v) eqn:E; [|done]. injection Eb as ->. by eapply ServerName_ok. }
  eapply safe_bind; [by apply hush_rename| |intros; apply tells_err].
  intros g' found [-> _] rep [= <-]. destruct (negb found); [split; simpl; tauto|]. split; [simpl; tauto|].
  simpl. destruct (d_trialStarted decision); [|done]. auto.
Qed.

Lemma post_tells u g rep : Signed u -> tells_reply u g (Ok rep) -> post g (Ok (Some rep)).
Proof.
  intros Hs Ht rep' [= <-]. destruct (Ht _ eq_refl) as [Ha Hto]. split; [|by intros ?%Ha].
  intros Htold. exists u. auto.
Qed.

Lemma safe_then u g (p : Api Reply) :
  Signed u -> safe (tells_reply u) g p -> safe post g (p ≫= fun rep => mret (Some rep)).
Proof.
  intros Hs Hp. eapply safe_bind; [exact Hp| |intros; apply post_err].
  intros g' rep Ht. by eapply post_tells.
Qed.

Lemma safe_on_server user : Signed (au_id user) -> safe post None (on_server config r user).
Proof.
  intros Hs. unfold on_server, match_path.
  destruct (matchPath "/v1/servers/:id/heartbeat" _) as [beat|]; [|apply post_err]. cbn [mbind api_bind].
  destruct (beat ≫= head) as [i|].
  { destruct (bool_decide _); [|apply safe_dull, quiet_on_billing]. apply safe_dull.
    eapply hush_bind; [apply quiet_heartbeat|]. intros found _. apply hush_ret.
    destruct (negb found); dull. }
  destruct (matchPath "/v1/servers/:id" _) as [server|]; [|apply post_err]. cbn [mbind api_bind].
  destruct (server ≫= head) as [i|]; [|apply safe_dull, quiet_on_billing].
  destruct (bool_decide (rq_method r = "PATCH")).
  { eapply safe_then; [done|by apply safe_on_rename]. }
  destruct (bool_decide _); [|apply safe_dull, quiet_on_billing]. apply safe_dull.
  eapply hush_bind; [by apply quiet_remove|]. intros found _. apply hush_ret.
  destruct (negb found); dull.
Qed.

Lemma safe_account_route user :
  Signed (au_id user) ->
  safe post None (handleAccountRoute config brokerAttached upgradeRequired r user).
Proof.
  intros Hs. unfold handleAccountRoute. destruct (is_route r "GET" "/v1/me").
  { apply safe_dull. eapply hush_bind; [apply quiet_resolveNow|]. intros res _. apply hush_ret. dull. }
  destruct (is_route r "GET" _).
  { apply safe_dull. eapply hush_bind; [apply quiet_clock|]. intros now _.
    eapply hush_bind; [apply hush_list|]. intros l _. apply hush_ret. dull. }
  destruct (is_route r "POST" "/v1/pair/request").
  { apply safe_dull. eapply hush_bind; [apply quiet_on_pair_request|]. intros rep Hr.
    by apply hush_ret, odull_some. }
  destruct (is_route r "POST" _); [|by apply safe_on_server].
  eapply safe_then; [done|by apply safe_on_register].
Qed.

(** ** The door *)

Lemma quiet_lookupAccount email : quiet any (lookupAccount email).
Proof.
  eapply hush_bind; [apply quiet_select|]. intros [found|] _; [|by apply hush_ret].
  eapply hush_bind; [apply quiet_select|]. intros accounts _.
  eapply hush_bind; [apply quiet_select|]. intros passkeys _. by apply hush_ret.
Qed.

Lemma quiet_public : quiet odull (handlePublicRoute config r).
Proof.
  unfold handlePublicRoute. destruct (is_route r "GET" _); [apply hush_ret; dull|].
  destruct (is_route r "POST" _); [|apply hush_ret, odull_none].
  eapply hush_bind; [by apply quiet_take|]. intros [after|] _; [apply hush_ret; dull|].
  destruct (readBody _ _); [|apply hush_ret; dull].
  eapply hush_bind; [apply quiet_lookupAccount|]. intros res _. apply hush_ret. dull.
Qed.

Lemma quiet_authenticate :
  quiet (fun o => forall user, o = Some user -> Signed (au_id user)) (authenticate (rq_credentials r)).
Proof.
  apply quiet_attempt; [|intros e; by apply hush_ret].
  eapply hush_bind.
  { apply (quiet_step _ _ (fun o : option User => forall user, o = Some user -> Signed (u_id user))).
    intros d w w' res _ _ [= <- <-]. split; [done|]. intros o Ho user ->.
    by exists (dr_now d), (w_db w), user. }
  intros [user|] Hs; [|by apply hush_ret].
  eapply hush_bind; [apply quiet_planFor|]. intros plan _. apply hush_ret.
  intros u [= <-]. by apply Hs.
Qed.

Lemma quiet_plugin :
  quiet (fun s => ok_status s = true \/ ok_status s = false) (plugin_handler config r).
Proof.
  unfold plugin_handler. destruct (verified r) as [event|] eqn:Ev.
  - apply quiet_attempt.
    + eapply hush_bind; [|intros; apply hush_ret; auto].
      destruct event as [kind data| | |]; [|by apply (hush_ret _ _ any)..].
      apply quiet_apply. intros u Hu. by exists kind, data.
    + intros e. destruct (crashed e); [apply hush_ret; by destruct (ok_status _); auto|apply quiet_throw].
  - apply hush_ret. by destruct (ok_status _); auto.
Qed.

Lemma safe_webhook : safe (fun g res => forall rep, res = Ok rep -> ~ told rep /\
    (acked rep -> exists id, truthy (rq_webhookId r) = Some id /\ g = Some (Delivery id)))
  None (handleWebhook config r).
Proof.
  assert (forall b, b <> TooLarge -> safe (fun g res => forall rep, res = Ok rep -> ~ told rep /\
    (acked rep -> exists id, truthy (rq_webhookId r) = Some id /\ g = Some (Delivery id))) None
    (match truthy (rq_webhookId r) with
      | None => mret (Json 400 (PError "Missing webhook-id."))
      | Some deliveryId =>
          let type := String.substring 0 64 (default "unknown" (rq_type r)) in
          claimed ← claimDelivery deliveryId type;
          if negb claimed then mret (Json 200 PDuplicate)
          else
            status ← attempt (plugin_handler config r) (fun e => _ ← releaseDelivery deliveryId; Throw e);
            _ ← (if ok_status status then mret tt else releaseDelivery deliveryId);
            mret (FromPlugin status)
      end)) as Hmain.
  2: { unfold handleWebhook. destruct (rq_body r) eqn:Eb; [intros rep [= <-]; split; simpl; tauto|by apply (Hmain NotJson)..]. }
  intros _ _. destruct (truthy (rq_webhookId r)) as [id|] eqn:Ei; [|intros rep [= <-]; split; simpl; tauto].
  eapply safe_bind; [apply safe_claim| |by intros g e _ rep [=]].
  intros g [|] ->; [|intros rep [= <-]; split; simpl; tauto].
  eapply (safe_bind _ _ (fun g res => match res with Ok s => g = Some (Delivery id) | Err _ => g = None end)).
  - eapply safe_attempt; [apply quiet_plugin|by intros g s [-> _]|].
    intros g e [-> _]. eapply safe_bind; [apply safe_release|by intros g u [-> _]|by intros g e' [-> _]].
  - intros g status ->. destruct (ok_status status) eqn:Es.
    + intros rep [= <-]. split; [simpl; tauto|]. intros _. by exists id.
    + eapply safe_bind; [apply safe_release| |by intros g e [_ [=]]].
      intros g u _ rep [= <-]. split; [simpl; tauto|]. simpl. by rewrite Es.
  - by intros g e _ rep [=].
Qed.

(** Whatever else runs, a request stays within what it is for. *)
Lemma safe_request :
  safe post None (handleRequest config brokerAttached upgradeRequired r).
Proof.
  unfold handleRequest. destruct (negb _); [apply post_dull, odull_none|].
  destruct (bool_decide _); [apply post_dull; dull|].
  destruct (is_route r "POST" WEBHOOK_PATH).
  { eapply safe_bind; [apply safe_webhook| |intros; apply post_err].
    intros g rep Hr rep' [= <-]. destruct (Hr _ eq_refl) as [H1 H2]. by split; [intros ?%H1|]. }
  destruct (String.prefix _ _).
  { apply safe_dull. eapply hush_bind; [apply quiet_budget|]. intros [after|] _; apply hush_ret; dull. }
  eapply safe_bind; [apply quiet_public| |intros; apply post_err].
  intros g [rep|] [-> Hp]; [apply post_dull; by apply Hp|].
  eapply safe_bind; [apply quiet_authenticate| |intros; apply post_err].
  intros g [user|] [-> Hs]; [|apply post_dull; dull].
  eapply safe_bind; [apply quiet_budget| |intros; apply post_err].
  intros g [after|] [-> _]; [apply post_dull; dull|].
  eapply safe_bind; [apply safe_account_route; by apply (Hs _ eq_refl)| |intros; apply post_err].
  intros g [rep|] Ht; simpl; [exact Ht|]. apply post_dull. dull.
Qed.
End Request.

(** ** Everything at once *)

(** What is asked of the accounts: a request, or a call of the broker. *)
Inductive Call :=
| Http (r : Request)
| CheckTunnel (userId : option string)
| CheckDevice (userId : option string) (serverId : jstr)
| RecordUsage (userId : string) (bytes seconds : Z)
| OwnerOfDevice (publicKey : string).

Inductive Outcome :=
| OReply (reply : option Reply)
| ODecision (d : Decision)
| OOwner (owner : option (string * jstr))
| ODone.

Definition program (c : Call) : Api Outcome :=
  match c with
  | Http r => o ← handleRequest config brokerAttached upgradeRequired r; mret (OReply o)
  | CheckTunnel u => d ← checkTunnel u; mret (ODecision d)
  | CheckDevice u i => d ← accounts_checkDevice u i; mret (ODecision d)
  | RecordUsage u b s => _ ← recordUsage u b s; mret ODone
  | OwnerOfDevice k => o ← ownerOf k; mret (OOwner o)
  end.

Record Sys := mkSys { y_world : World; y_threads : list (Call * Api Outcome) }.

Inductive Event :=
| EArrive (c : Call)
(** One step of a thread, with what it draws. *)
| ERun (i : nat) (d : Draw)
(** better-auth: a new account, and its tables of credentials. *)
| ESignUp (u : User)
| EAuth (accounts : list Account) (passkeys : list Passkey).

Definition newSys (requestsPerMinute writesPerMinute lookupsPerMinute : Z) : Sys :=
  let limiter n := RateLimiter.createRateLimiter n 60000 in
  mkSys (mkWorld newDb (limiter requestsPerMinute) (limiter writesPerMinute) (limiter lookupsPerMinute)) [].

Definition db_of (s : Sys) : Db := w_db (y_world s).

Definition sign_up (u : User) (d : Db) : Db :=
  if existsb (fun x => bool_decide (u_id x = u_id u) || bool_decide (u_email x = u_email u)) (db_user d)
  then d else with_user (db_user d ++ [u]) d.

Definition with_auth (a : list Account) (p : list Passkey) (d : Db) : Db :=
  mkDb (db_user d) a p (db_subscriptions d) (db_tunnelUsage d) (db_webhookEvents d) (db_servers d)
    (db_serverDevices d).

Definition on_db (f : Db -> Db) (s : Sys) : Sys :=
  mkSys (with_db (f (db_of s)) (y_world s)) (y_threads s).

Definition sys_step (e : Event) (s : Sys) : Sys :=
  match e with
  | EArrive c => mkSys (y_world s) (y_threads s ++ [(c, program c)])
  | ERun i d =>
      match y_threads s !! i with
      | Some (c, Step B q k) =>
          let '(w, r) := q d (y_world s) in
          mkSys w (<[i := (c, k r)]> (y_threads s))
      | _ => s
      end
  | ESignUp u => on_db (sign_up u) s
  | EAuth a p => on_db (with_auth a p) s
  end.

Definition sys_run (es : list Event) (s : Sys) : Sys := foldl (fun s e => sys_step e s) s es.

Definition draws_ok (es : list Event) : Prop :=
  Forall (fun e => match e with ERun _ d => draw_ok d | _ => True end) es.

(** ** The invariant *)

Definition Paid_by (c : Call) (u : string) : Prop := match c with Http r => paid_by r u | _ => False end.
Definition Signed_by (c : Call) (u : string) : Prop := match c with Http r => signed_by r u | _ => False end.

(** A call that says a trial was started by it. *)
Definition announced (o : Outcome) : Prop :=
  match o with
  | OReply (Some rep) => told rep
  | ODecision d => d_trialStarted d = true
  | _ => False
  end.

Definition call_user (c : Call) : option string :=
  match c with CheckTunnel u | CheckDevice u _ => u | _ => None end.

Definition call_post (c : Call) (g : option Token) (res : result string Outcome) : Prop :=
  forall o, res = Ok o ->
    (announced o -> exists u, g = Some (Trial u) /\ (Signed_by c u \/ call_user c = Some u)) /\
    (forall r s, c = Http r -> o = OReply (Some (FromPlugin s)) -> ok_status s = true ->
       exists id, truthy (rq_webhookId r) = Some id /\ g = Some (Delivery id)).

Lemma truthy_Some u x : truthy u = Some x -> u = Some x /\ x <> "".
Proof. unfold truthy. destruct u as [s|]; [|done]. case_decide; [done|]. by intros [= ->]. Qed.

Lemma safe_program c : safe (Paid_by c) (Signed_by c) (call_post c) None (program c).
Proof.
  assert (forall P g (d : Decision), announces P g (Ok d) -> d_trialStarted d = true ->
            g = Some (Trial P)) as Hann by (intros P g d [_ Hx] Ht; by eapply Hx).
  destruct c as [r|u|u i|u b s|k]; cbn [program].
  - eapply safe_bind; [apply safe_request| |by intros g e _ o [=]].
    intros g [rep|] Hr o [= <-]; [|split; [done|intros r' s _ [=]]].
    destruct (Hr _ eq_refl) as [H1 H2]. split.
    + intros Ht. destruct (H1 Ht) as (u & Hu & ->). eauto.
    + intros r' s [= ->] [= ->] Hs. by apply H2.
  - unfold checkTunnel. destruct (truthy u) as [x|] eqn:Eu.
    + apply truthy_Some in Eu as [-> Hx].
      eapply safe_bind; [eapply safe_bind; [apply quiet_planFor| |]| |].
      * intros g plan [-> _]. apply safe_withTrial, quiet_evaluateTunnel.
      * intros g e [-> _]. apply announces_err.
      * intros g d Hd o [= <-]. split; [|done]. intros Ht. exists x. split; [by eapply Hann|by right].
      * by intros g e _ o [=].
    + intros o [= <-]. split; [done|]. by intros.
  - unfold accounts_checkDevice. destruct (truthy u) as [x|] eqn:Eu.
    + apply truthy_Some in Eu as [-> Hx].
      eapply safe_bind; [eapply safe_bind; [apply quiet_planFor| |]| |].
      * intros g plan [-> _]. apply safe_checkDevice.
      * intros g e [-> _]. apply announces_err.
      * intros g d Hd o [= <-]. split; [|done]. intros Ht. exists x. split; [by eapply Hann|by right].
      * by intros g e _ o [=].
    + intros o [= <-]. split; [done|]. by intros.
  - eapply safe_bind; [apply quiet_recordUsage| |by intros g e _ o [=]].
    intros g x _ o [= <-]. split; [done|]. by intros.
  - assert (quiet (Paid_by (OwnerOfDevice k)) (Signed_by (OwnerOfDevice k)) any (ownerOf k)) as Hq.
    { eapply hush_bind; [apply quiet_select|]. intros; by apply hush_ret. }
    eapply safe_bind; [apply Hq| |by intros g e _ o [=]].
    intros g x _ o [= <-]. split; [done|]. by intros.
Qed.

Record inv (γ : nat -> option Token) (s : Sys) : Prop := {
  inv_ok : db_ok (db_of s);
  inv_safe : forall i c p, y_threads s !! i = Some (c, p) ->
    safe (Paid_by c) (Signed_by c) (call_post c) (γ i) p;
  inv_none : forall i, y_threads s !! i = None -> γ i = None;
  inv_present : forall i t, γ i = Some t -> present t (db_of s);
  inv_unique : forall i j t, γ i = Some t -> γ j = Some t -> i = j;
  inv_pro : forall x, x ∈ db_subscriptions (db_of s) -> sub_plan x = "pro" ->
    exists i c p, y_threads s !! i = Some (c, p) /\ Paid_by c (sub_userId x);
}.

Lemma newSys_inv a b c : inv (fun _ => None) (newSys a b c).
Proof. constructor; try done. intros x Hx; by apply elem_of_nil in Hx. Qed.

(** Better-auth's writes touch no table of ours but [user]. *)
Lemma on_db_inv γ s f :
  db_ok (f (db_of s)) -> db_subscriptions (f (db_of s)) = db_subscriptions (db_of s) ->
  db_webhookEvents (f (db_of s)) = db_webhookEvents (db_of s) ->
  inv γ s -> inv γ (on_db f s).
Proof.
  intros Hok Hs He [H1 H2 H3 H4 H5 H6]. constructor; try done.
  - intros i t Hi. unfold on_db, db_of at 1. simpl. apply (present_same _ _ He Hs). by apply H4 in Hi.
  - intros x Hx. unfold on_db, db_of in Hx. simpl in Hx. unfold db_of in Hs. rewrite Hs in Hx. by apply H6.
Qed.

Lemma sign_up_ok u d : db_ok d -> db_ok (sign_up u d).
Proof.
  intros Hd. unfold sign_up. destruct (existsb _ _) eqn:Ex; [done|].
  assert (forall x, x ∈ db_user d -> u_id x <> u_id u /\ u_email x <> u_email u) as Hno.
  { intros x Hx. destruct (decide (u_id x = u_id u \/ u_email x = u_email u)) as [Hc|]; [|tauto].
    assert (existsb (fun x => bool_decide (u_id x = u_id u) || bool_decide (u_email x = u_email u))
              (db_user d) = true) as Ht; [|congruence].
    apply existsb_exists. exists x. rewrite <- list_elem_of_In. split; [done|].
    apply orb_true_iff. rewrite !bool_decide_eq_true. done. }
  assert (forall v, is_user v d -> is_user v (with_user (db_user d ++ [u]) d)) as Hu.
  { intros v (x & Hx & Hid). exists x. split; [apply elem_of_app; by left|done]. }
  destruct Hd. constructor; try assumption; simpl.
  1-2: apply unique_by_snoc; [done|]; intros x Hx; apply (Hno x Hx).
  all: eapply Forall_impl; [eassumption|]; simpl; intros ? [? ?]; auto.
Qed.

Lemma present_update (γ : nat -> option Token) g' (i : nat) (s : Sys) d' :
  (forall i t, γ i = Some t -> present t (db_of s)) ->
  (forall i j t, γ i = Some t -> γ j = Some t -> i = j) ->
  moves (γ i) (db_of s) d' g' ->
  let γ' := fun j => if decide (j = i) then g' else γ j in
  (forall j t, γ' j = Some t -> present t d') /\
  (forall j k t, γ' j = Some t -> γ' k = Some t -> j = k).
Proof.
  intros Hp Hu Hm γ'. unfold γ'. destruct Hm as [Hs|t Hn Hnp Ht|t Hg Ht].
  - split.
    + intros j t Hj. apply Hs. case_decide; subst; eauto.
    + intros j k t Hj Hk. repeat case_decide; subst; eauto.
  - split.
    + intros j t' Hj. apply Ht. case_decide; [right; congruence|left; eauto].
    + intros j k t' Hj Hk. repeat case_decide; subst; simplify_eq; eauto;
        exfalso; eauto.
  - split.
    + intros j t' Hj. case_decide; [done|]. apply Ht. split; [eauto|]. intros ->.
      assert (j = i); [|done]. by apply (Hu j i t).
    + intros j k t' Hj Hk. repeat case_decide; subst; simplify_eq; eauto.
Qed.

Lemma acc_step_inv e γ s :
  (match e with ERun _ d => draw_ok d | _ => True end) -> inv γ s -> exists γ', inv γ' (sys_step e s).
Proof.
  intros Hd Hinv. destruct e as [c|i d|u|a p]; simpl.
  - exists γ. destruct Hinv as [H1 H2 H3 H4 H5 H6]. constructor; try done; simpl.
    + intros i c' p [Hi|[Hi Hc]]%lookup_app_Some; [by apply H2|].
      apply list_lookup_singleton_Some in Hc as [Hi0 [= <- <-]].
      rewrite H3; [apply safe_program|]. by apply lookup_ge_None.
    + intros i Hi. apply H3, lookup_ge_None. apply lookup_ge_None in Hi. rewrite length_app in Hi. simpl in Hi. lia.
    + intros x Hx Hpro. destruct (H6 x Hx Hpro) as (i & c' & p & Hi & Hpaid).
      exists i, c', p. split; [by apply lookup_app_l_Some|done].
  - destruct (y_threads s !! i) as [[c [a|er|B q k]]|] eqn:Hi; try by exists γ.
    destruct (q d (y_world s)) as [w r] eqn:Eq. destruct Hinv as [H1 H2 H3 H4 H5 H6].
    destruct (H2 _ _ _ Hi d _ _ _ Hd H1 (H4 i) Eq) as [HG (g' & Hm & Hk)].
    destruct (present_update γ g' i s (w_db w) H4 H5 Hm) as [Hp' Hu'].
    exists (fun j => if decide (j = i) then g' else γ j). constructor; try done; simpl.
    + apply HG.
    + intros j c' p. destruct (decide (j = i)) as [->|Hne].
      * rewrite list_lookup_insert_eq by (by eapply lookup_lt_Some). by intros [= <- <-].
      * rewrite list_lookup_insert_ne by done. apply H2.
    + intros j Hj. apply lookup_ge_None in Hj. rewrite length_insert in Hj.
      rewrite decide_False; [apply H3, lookup_ge_None; lia|]. intros ->.
      apply lookup_lt_Some in Hi. lia.
    + intros x Hx Hpro. destruct (g_pro _ _ _ _ HG x Hx Hpro) as [(x0 & Hx0 & Hid & Hpro0)|Hpaid].
      * destruct (H6 x0 Hx0 Hpro0) as (j & c' & p & Hj & Hpaid). rewrite Hid in Hpaid.
        destruct (decide (j = i)) as [->|Hne].
        -- exists i, c, (k r). rewrite list_lookup_insert_eq by (by eapply lookup_lt_Some).
           simplify_eq. done.
        -- exists j, c', p. by rewrite list_lookup_insert_ne.
      * exists i, c, (k r). by rewrite list_lookup_insert_eq by (by eapply lookup_lt_Some).
  - exists γ. assert (db_ok (sign_up u (db_of s))) as Hok by (apply sign_up_ok, Hinv).
    apply on_db_inv; [done|unfold sign_up; by case_match..|done].
  - exists γ. apply on_db_inv; try done. destruct Hinv as [[] ]. by constructor.
Qed.

Lemma run_from_inv es γ s : draws_ok es -> inv γ s -> exists γ', inv γ' (sys_run es s).
Proof.
  intros Hes. revert γ s. induction Hes as [|e es He _ IH]; intros γ s Hs; simpl; [by exists γ|].
  destruct (acc_step_inv e γ s He Hs) as [γ' Hs']. by eapply IH.
Qed.

(** A step leaves a started trial where it is. *)
Lemma trial_step e s γ u t :
  (match e with ERun _ d => draw_ok d | _ => True end) -> inv γ s ->
  trial_at u (db_of s) = Some t -> trial_at u (db_of (sys_step e s)) = Some t.
Proof.
  intros Hd Hinv Ht. destruct e as [c|i d|x|a p]; simpl; [done| | |done].
  - destruct (y_threads s !! i) as [[c [a|er|B q k]]|] eqn:Hi; try done.
    destruct (q d (y_world s)) as [w r] eqn:Eq.
    destruct (inv_safe _ _ Hinv _ _ _ Hi d _ _ _ Hd (inv_ok _ _ Hinv) (inv_present _ _ Hinv i) Eq) as [HG _].
    by apply (g_trial _ _ _ _ HG).
  - unfold on_db, db_of at 1. simpl. unfold sign_up. by case_match.
Qed.

(** C34: The tables are well-typed in every state any interleaving of requests,
    metering calls and sign-ups can reach: keys are unique, a row belongs to a
    user that exists, a machine has a 64-digit key, a name of 1 to 64
    characters and an addressable slug that no other machine of its account
    has, counters are not negative, a plan is one of the two, and a started
    trial ends exactly seven days after it began. *)
Theorem tables_well_typed es a b c :
  draws_ok es -> db_ok (db_of (sys_run es (newSys a b c))).
Proof.
  intros Hes. destruct (run_from_inv es _ _ Hes (newSys_inv a b c)) as [γ Hinv]. apply Hinv.
Qed.

(** C30: The trial is had once.  Once an account's trial has started, nothing
    moves its start or its end, whatever is requested afterwards; and if two
    calls, at any time and however interleaved, both say they started a trial,
    they did so for different accounts. *)
Theorem trial_once es es' a b c :
  draws_ok (es ++ es') ->
  let s := sys_run es (newSys a b c) in
  let s' := sys_run (es ++ es') (newSys a b c) in
  (forall u t, trial_at u (db_of s) = Some t -> trial_at u (db_of s') = Some t) /\
  exists starter : nat -> string,
    (forall i call o, y_threads s' !! i = Some (call, Ret o) -> announced o ->
       trial_at (starter i) (db_of s') <> None
       /\ (Signed_by call (starter i) \/ call_user call = Some (starter i))) /\
    (forall i j call call' o o', y_threads s' !! i = Some (call, Ret o) ->
       y_threads s' !! j = Some (call', Ret o') -> announced o -> announced o' ->
       starter i = starter j -> i = j).
Proof.
  intros Hes. apply Forall_app in Hes as [Hes Hes'].
  destruct (run_from_inv es _ _ Hes (newSys_inv a b c)) as [γ0 Hinv0]. split.
  - unfold sys_run. rewrite foldl_app. fold (sys_run es (newSys a b c)).
    revert Hinv0. generalize (sys_run es (newSys a b c)). intros s Hs u t Ht.
    revert γ0 s Hs Ht. induction Hes' as [|e es' He _ IH]; intros γ0 s Hs Ht; simpl; [done|].
    destruct (acc_step_inv e γ0 s He Hs) as [γ1 Hs1]. eapply IH; [exact Hs1|]. by eapply trial_step.
  - destruct (run_from_inv (es ++ es') _ _ (proj2 (Forall_app _ _ _) (conj Hes Hes')) (newSys_inv a b c))
      as [γ Hinv]. set (s' := sys_run (es ++ es') _) in *.
    assert (forall i call o, y_threads s' !! i = Some (call, Ret o) -> announced o ->
              exists u, γ i = Some (Trial u) /\ (Signed_by call u \/ call_user call = Some u)) as Hgi.
    { intros i call o Hi Ho. by apply (inv_safe _ _ Hinv _ _ _ Hi o eq_refl). }
    exists (fun i => match γ i with Some (Trial u) => u | _ => "" end). split.
    + intros i call o Hi Ho. destruct (Hgi i call o Hi Ho) as (u & Hg & Hu). rewrite Hg.
      split; [|done]. apply (inv_present _ _ Hinv i (Trial u) Hg).
    + intros i j call call' o o' Hi Hj Ho Ho'.
      destruct (Hgi i call o Hi Ho) as (u & Hg & _). destruct (Hgi j call' o' Hj Ho') as (v & Hg' & _).
      rewrite Hg, Hg'. intros ->. by eapply (inv_unique _ _ Hinv).
Qed.

(** C31: A webhook delivery is acknowledged as handled at most once: of all the
    requests that carry one [webhook-id], however many arrive and overlap, at
    most one is answered with the plugin's 2xx; and while it stands the id
    stays in the table, so that every later one is told it is a duplicate. *)
Theorem delivery_handled_once es a b c id i j r r' si sj :
  draws_ok es ->
  let s := sys_run es (newSys a b c) in
  y_threads s !! i = Some (Http r, Ret (OReply (Some (FromPlugin si)))) -> ok_status si = true ->
  y_threads s !! j = Some (Http r', Ret (OReply (Some (FromPlugin sj)))) -> ok_status sj = true ->
  rq_webhookId r = Some id -> rq_webhookId r' = Some id ->
  i = j /\ id ∈ (we_id <$> db_webhookEvents (db_of s)).
Proof.
  intros Hes s Hi Hoi Hj Hoj Hri Hrj.
  destruct (run_from_inv es _ _ Hes (newSys_inv a b c)) as [γ Hinv]. fold s in Hinv.
  destruct (inv_safe _ _ Hinv _ _ _ Hi _ eq_refl) as [_ H1].
  destruct (inv_safe _ _ Hinv _ _ _ Hj _ eq_refl) as [_ H2].
  destruct (H1 r si eq_refl eq_refl Hoi) as (id1 & E1 & G1).
  destruct (H2 r' sj eq_refl eq_refl Hoj) as (id2 & E2 & G2).
  rewrite Hri in E1. rewrite Hrj in E2.
  apply truthy_Some in E1 as [[= <-] _]. apply truthy_Some in E2 as [[= <-] _].
  split; [by eapply (inv_unique _ _ Hinv)|]. apply (inv_present _ _ Hinv i (Delivery id) G1).
Qed.

(** C32: Nothing but a paid-for subscription puts an account on the paid plan:
    if an account's row says "pro", then a request arrived that the payment
    provider signed, about a subscription that is active or on hold, for one
    of the products on sale, whose metadata names that account or names
    none. *)
Theorem paid_only_if_paid es a b c s :
  draws_ok es ->
  let sys := sys_run es (newSys a b c) in
  s ∈ db_subscriptions (db_of sys) -> sub_plan s = "pro" ->
  exists r kind data, EArrive (Http r) ∈ es /\ verified r = Some (OnSubscription kind data)
    /\ (wd_status data = "active" \/ wd_status data = "on_hold")
    /\ (wd_product_id data = proMonthly (cf_catalogue config)
        \/ wd_product_id data = proYearly (cf_catalogue config))
    /\ (truthy (wd_metadata_userId data) = Some (sub_userId s)
        \/ truthy (wd_metadata_userId data) = None).
Proof.
  intros Hes sys Hs Hpro. destruct (run_from_inv es _ _ Hes (newSys_inv a b c)) as [γ Hinv].
  destruct (inv_pro _ _ Hinv s Hs Hpro) as (i & call & p & Hi & Hpaid).
  destruct call as [r|u|u x|u y z|k]; try done. destruct Hpaid as (kind & data & Hv & Hplan & Hmeta).
  apply planForStatus_pro in Hplan as [Hprod Hst].
  apply planForProduct_pro in Hprod as (pid & [= <-] & _ & Hpid).
  exists r, kind, data. split; [|done]. clear - Hi.
  assert (forall es s0, y_threads (sys_run es s0) !! i = Some (Http r, p) ->
            (exists p0, y_threads s0 !! i = Some (Http r, p0)) \/ EArrive (Http r) ∈ es) as Hin.
  { clear. induction es as [|e es IH]; intros s0 Hi; simpl in Hi; [left; by eexists|].
    destruct (IH _ Hi) as [(p0 & Hp0)|Hin]; [|right; by right].
    destruct e as [c|j d|u|a p1]; simpl in Hp0.
    - apply lookup_app_Some in Hp0 as [Hp0|[_ Hp0]]; [left; by exists p0|].
      apply list_lookup_singleton_Some in Hp0 as [_ [= -> _]]. right. left.
    - destruct (y_threads s0 !! j) as [[c [x|e|B q k]]|] eqn:Hj; try (left; by exists p0).
      destruct (q d (y_world s0)) as [w res]. simpl in Hp0. left.
      destruct (decide (i = j)) as [->|Hne].
      + rewrite list_lookup_insert_eq in Hp0 by (by eapply lookup_lt_Some). simplify_eq. eauto.
      + rewrite list_lookup_insert_ne in Hp0 by done. by exists p0.
    - left. by exists p0.
    - left. by exists p0. }
  destruct (Hin es _ Hi) as [(p0 & Hp0)|?]; done.
Qed.

(** C33: A machine belongs to its owner: a step of any handler removes, renames
    or re-keys a row of the registry, or adds one, only for an account that
    handler's own request is signed in as.  So nobody takes over, renames or
    deletes another account's machine, and no machine appears on an account
    that did not ask. *)
Theorem machine_is_its_owners es a b c i d :
  draws_ok es -> draw_ok d ->
  let s := sys_run es (newSys a b c) in
  let s' := sys_step (ERun i d) s in
  forall row,
    (row ∈ db_servers (db_of s) /\ ~ listed (identity row) (db_of s'))
    \/ (row ∈ db_servers (db_of s') /\ ~ listed (identity row) (db_of s)) ->
    exists r p, y_threads s !! i = Some (Http r, p) /\ signed_by r (sv_userId row).
Proof.
  intros Hes Hd s s' row Hrow. destruct (run_from_inv es _ _ Hes (newSys_inv a b c)) as [γ Hinv].
  unfold s' in Hrow. simpl in Hrow. fold s in Hinv.
  assert (forall A : Prop, (row ∈ db_servers (db_of s) /\ ~ listed (identity row) (db_of s))
            \/ (row ∈ db_servers (db_of s) /\ ~ listed (identity row) (db_of s)) -> A) as Hsame.
  { intros A [[H1 H2]|[H1 H2]]; by apply elem_listed in H1. }
  destruct (y_threads s !! i) as [[call [x|er|B q k]]|] eqn:Hi; try by apply Hsame.
  destruct (q d (y_world s)) as [w res] eqn:Eq.
  destruct (inv_safe _ _ Hinv _ _ _ Hi d _ _ _ Hd (inv_ok _ _ Hinv) (inv_present _ _ Hinv i) Eq) as [HG _].
  unfold db_of at 2 3 in Hrow. simpl in Hrow.
  assert (Signed_by call (sv_userId row)) as Hsig.
  { destruct Hrow as [[H1 H2]|[H1 H2]].
    - by destruct (g_servers _ _ _ _ HG row H1).
    - by destruct (g_no_others _ _ _ _ HG row H1). }
  destruct call as [r| | | |]; try done. by exists r, (Step B q k).
Qed.
End Api.
