(* ===== verification/AccountsBilling.v ===== *)
(** * AccountsBilling: what the account handlers compute

    The functional side of Accounts, a handler run with nobody else about: the
    decision table behind a server limit, what a webhook delivery leaves
    behind, and that the usage counters of a month are the sum of what was
    recorded in it. *)

From stdpp Require Import pretty.
From S2P Require Import Prelude RateLimit Plans AccountsDb AccountsHttp Noble DeviceKey Accounts AccountsTables AccountsLogic.

#[local] Open Scope string_scope.
#[local] Open Scope list_scope.
#[local] Open Scope Z_scope.

(** ** Usage *)

(** One [recordUsage] that reached the database: whose, when, how much. *)
Record Metered := mkMetered { me_userId : string; me_now : Z; me_bytes : Z; me_seconds : Z }.

Definition meter (d : Db) (e : Metered) : Db :=
  match usage_stmt (me_userId e) (dayKey (me_now e)) (me_bytes e) (me_seconds e) (me_now e) d with
  | Ok (d', _) => d'
  | Err _ => d
  end.

Lemma digit_length n : String.length (digit n) = 1%nat.
Proof.
  unfold digit. assert (0 <= n mod 10 < 10) as Hn by (apply Z.mod_pos_bound; lia).
  assert (Forall (fun k => String.length (pretty k) = 1%nat) (seqZ 0 10)) as Hall.
  { apply (bool_decide_unpack _). vm_compute. exact I. }
  rewrite Forall_forall in Hall. apply Hall, elem_of_seqZ. lia.
Qed.

Lemma length_app_string s t : String.length (s +:+ t) = (String.length s + String.length t)%nat.
Proof. induction s as [|a s IH]; [done|]. simpl. by rewrite IH. Qed.

Lemma digits_length w n : String.length (digits w n) = w.
Proof.
  revert n. induction w as [|w IH]; intros n; [done|]. simpl.
  rewrite length_app_string, IH, digit_length. lia.
Qed.

Lemma isoDate_length ms : (10 <= String.length (isoDate ms))%nat.
Proof.
  unfold isoDate. destruct (civil _) as [[y m] d]. rewrite !length_app_string, !digits_length.
  assert (4 <= String.length (iso_year y))%nat; [|simpl; lia].
  unfold iso_year. destruct (_ && _); [by rewrite digits_length|].
  rewrite length_app_string, digits_length. lia.
Qed.

Lemma substring_length n s : (n <= String.length s)%nat -> String.length (String.substring 0 n s) = n.
Proof.
  revert s. induction n as [|n IH]; intros s Hn; [by destruct s|].
  destruct s as [|a s]; simpl in *; [lia|]. rewrite IH; [done|lia].
Qed.

(** [like 'YYYY-MM%'] picks the days whose month it is. *)
Lemma month_prefix t now : String.prefix (monthKey t) (dayKey now) = bool_decide (monthKey t = monthKey now).
Proof.
  assert (String.length (monthKey t) = 7%nat) as Hl.
  { apply substring_length. pose proof (isoDate_length t). lia. }
  destruct (String.prefix (monthKey t) (dayKey now)) eqn:E.
  - apply String.prefix_correct in E. rewrite Hl, <- month_of_day in E.
    by rewrite bool_decide_eq_true_2.
  - rewrite bool_decide_eq_false_2; [done|]. intros Heq.
    assert (String.prefix (monthKey t) (dayKey now) = true); [|congruence].
    apply String.prefix_correct. by rewrite Hl, <- month_of_day.
Qed.

(** The one row a unique key picks. *)
Lemma unique_split {R K} (key : R -> K) (p : R -> bool) t r :
  unique_by key t -> r ∈ t -> p r = true -> (forall x, x ∈ t -> p x = true -> key x = key r) ->
  exists l1 l2, t = l1 ++ r :: l2 /\ forall f, (update p f t).1 = l1 ++ f r :: l2.
Proof.
  intros U Hr Hp Hk. apply list_elem_of_split in Hr as (l1 & l2 & ->). exists l1, l2. split; [done|].
  assert (forall x, x ∈ l1 \/ x ∈ l2 -> p x = false) as Hno.
  { intros x Hx. destruct (p x) eqn:Hpx; [|done]. exfalso.
    rewrite unique_by_NoDup, fmap_app in U. simpl in U.
    assert (key x = key r) as Hkx by (apply Hk; [rewrite elem_of_app, elem_of_cons; tauto|done]).
    apply NoDup_app in U as (_ & Hd & Hc). apply NoDup_cons in Hc as [Hc _].
    destruct Hx as [Hx|Hx].
    - apply (Hd (key x)); [by apply list_elem_of_fmap_2|]. rewrite Hkx. by left.
    - apply Hc. rewrite <- Hkx. by apply list_elem_of_fmap_2. }
  intros f. unfold update. simpl. rewrite map_app. simpl. rewrite Hp.
  assert (forall l, (forall x, x ∈ l -> p x = false) -> map (fun r => if p r then f r else r) l = l) as Hid.
  { induction l as [|x l IH]; intros Hl; [done|]. simpl. rewrite Hl by left. rewrite IH; [done|].
    intros y Hy. apply Hl. by right. }
  rewrite !Hid; auto.
Qed.

Lemma sum_of_app {R} (f : R -> Z) l1 l2 : sum_of f (l1 ++ l2) = sum_of f l1 + sum_of f l2.
Proof. induction l1 as [|x l IH]; simpl; [done|]. unfold sum_of in *. simpl. lia. Qed.

(** What a counter of the month gains: [f] of a fresh row, and the difference
    the update makes. *)
Lemma usage_gain (f : TunnelUsage -> Z) gain u month d e d' x :
  (forall r, f (add_usage (me_bytes e) (me_seconds e) (me_now e) r) = f r + gain) ->
  f (mkUsage (me_userId e) (dayKey (me_now e)) (me_bytes e) (me_seconds e) 1 (me_now e)) = gain ->
  db_ok d ->
  usage_stmt (me_userId e) (dayKey (me_now e)) (me_bytes e) (me_seconds e) (me_now e) d = Ok (d', x) ->
  sum_of f (usage_rows u month d') = sum_of f (usage_rows u month d)
    + (if bool_decide (me_userId e = u) && String.prefix month (dayKey (me_now e)) then gain else 0).
Proof.
  intros Hadd Hfresh Hd H. unfold usage_stmt, upsert in H. unfold usage_rows.
  set (day := dayKey (me_now e)) in *. set (v := me_userId e) in *.
  set (fresh := mkUsage v day (me_bytes e) (me_seconds e) 1 (me_now e)) in *.
  destruct (first (on_day v day) (db_tunnelUsage d)) as [r0|] eqn:E.
  - injection H as <- _. simpl. apply first_Some in E as [Hr0 Hp].
    destruct (unique_split (fun u => (tu_userId u, tu_day u)) (fun r => on_day v day r && true) (db_tunnelUsage d) r0)
      as (l1 & l2 & Ht & Hu); [apply Hd|done|by rewrite Hp| |].
    { intros y _ Hy. rewrite andb_true_r in Hy. unfold on_day in *.
      apply andb_prop in Hy as [<-%bool_decide_eq_true <-%bool_decide_eq_true].
      by apply andb_prop in Hp as [->%bool_decide_eq_true ->%bool_decide_eq_true]. }
    specialize (Hu (add_usage (me_bytes e) (me_seconds e) (me_now e))). unfold update in Hu. simpl in Hu.
    rewrite Hu, Ht. rewrite !filter_app, !sum_of_app, !filter_cons.
    assert (in_month u month r0 = bool_decide (v = u) && String.prefix month day) as Hin.
    { unfold in_month. by apply andb_prop in Hp as [->%bool_decide_eq_true ->%bool_decide_eq_true]. }
    assert (in_month u month (add_usage (me_bytes e) (me_seconds e) (me_now e) r0) = in_month u month r0) as -> by done.
    rewrite Hin. destruct (_ && _); simpl; [rewrite Hadd|]; lia.
  - destruct (has_user v d); [|done]. injection H as <- _. simpl.
    rewrite filter_app, sum_of_app, filter_cons.
    assert (in_month u month fresh = bool_decide (v = u) && String.prefix month day) as -> by done.
    destruct (_ && _); simpl; lia.
Qed.

Definition metered_in (u month : string) (log : list Metered) : list Metered :=
  filter (fun e => me_userId e = u /\ monthKey (me_now e) = month) log.

Definition metered_ok (d : Db) (e : Metered) : Prop :=
  is_user (me_userId e) d /\ 0 <= me_bytes e /\ 0 <= me_seconds e.

Lemma meter_ok d e : db_ok d -> metered_ok d e ->
  exists d', usage_stmt (me_userId e) (dayKey (me_now e)) (me_bytes e) (me_seconds e) (me_now e) d = Ok (d', tt)
    /\ meter d e = d' /\ db_ok d' /\ forall u, is_user u d -> is_user u d'.
Proof.
  intros Hd (Hu%has_user_true & Hb & Hs).
  assert (exists d', usage_stmt (me_userId e) (dayKey (me_now e)) (me_bytes e) (me_seconds e) (me_now e) d
            = Ok (d', tt)) as [d' E].
  { unfold usage_stmt. rewrite Hu. destruct (first _ _); by eexists. }
  exists d'. unfold meter. rewrite E. split_and!; try done;
    apply (usage_guarantee (fun _ => True) (fun _ => True)) in E as (HG & _); try done; apply HG.
Qed.

(** C35: The meter adds up: whatever sessions end, on whatever days and in
    whatever order, the traffic, the seconds and the number of sessions the
    account is told for a month are what they were plus the sum over exactly
    the sessions recorded for that account in that month. *)
Theorem meter_adds_up log d u t :
  db_ok d -> Forall (metered_ok d) log ->
  let d' := foldl meter d log in
  let month := monthKey t in
  let mine := metered_in u month log in
  sum_of tu_bytes (usage_rows u month d') = sum_of tu_bytes (usage_rows u month d) + sum_of me_bytes mine
  /\ sum_of tu_seconds (usage_rows u month d') = sum_of tu_seconds (usage_rows u month d) + sum_of me_seconds mine
  /\ sum_of tu_sessions (usage_rows u month d') = sum_of tu_sessions (usage_rows u month d) + Z.of_nat (length mine).
Proof.
  revert d. induction log as [|e log IH]; intros d Hd Hlog; simpl; [lia|].
  apply Forall_cons in Hlog as [He Hlog].
  destruct (meter_ok d e Hd He) as (d' & E & Hm & Hd' & Hu). rewrite Hm.
  assert (Forall (metered_ok d') log) as Hlog'.
  { eapply Forall_impl; [exact Hlog|]. intros x (H1 & H2 & H3). split_and!; auto. }
  destruct (IH d' Hd' Hlog') as (IH1 & IH2 & IH3). rewrite IH1, IH2, IH3.
  rewrite (usage_gain tu_bytes (me_bytes e) u (monthKey t) d e d' tt) by done.
  rewrite (usage_gain tu_seconds (me_seconds e) u (monthKey t) d e d' tt) by done.
  rewrite (usage_gain tu_sessions 1 u (monthKey t) d e d' tt) by done.
  rewrite month_prefix. unfold metered_in. rewrite filter_cons.
  destruct (decide (me_userId e = u)) as [->|Hne].
  - rewrite (bool_decide_eq_true_2 (u = u)) by done. simpl.
    destruct (decide (monthKey t = monthKey (me_now e))) as [Hmonth|Hmonth].
    + rewrite bool_decide_eq_true_2, decide_True by done. simpl. lia.
    + rewrite bool_decide_eq_false_2 by done. rewrite decide_False by (intros [_ ?]; congruence). lia.
  - rewrite bool_decide_eq_false_2 by done. rewrite decide_False by tauto. simpl. lia.
Qed.

(** ** The limit on machines *)

(** What [checkServerLimit] answers: by the plan, the machines there are, and
    whether the trial is still to be had. *)
Definition limit_spec (res : PlanResolution) (servers : Z) : Decision :=
  match pl_servers (PLANS (res_plan res)) with
  | None => ALLOWED
  | Some limit =>
      if servers <? limit then ALLOWED
      else match tr_status (res_trial res) with
           | TrialNone => TRIAL_STARTED
           | _ => refusal (PlanCoversServers (res_plan res) limit)
           end
  end.

Definition same_clock (draws : nat -> Draw) (now : Z) : Prop := forall n, dr_now (draws n) = now.

Definition resolution (u : string) (now : Z) (d : Db) : PlanResolution :=
  resolvePlan (resolvable <$> sub_of u d) now.

Lemma resolution_plan u now d :
  tr_status (res_trial (resolution u now d)) = TrialNone -> trial_at u d = None.
Proof.
  unfold resolution, resolvePlan, trial_of, trial_at. destruct (sub_of u d) as [s|]; [|done]. simpl.
  destruct (sub_trialStartedAt s) as [t|]; [|done]. simpl.
  destruct (sub_trialEndsAt s) as [e|]; [destruct (now <? e)|]; simpl; by repeat case_match.
Qed.

Lemma startTrial_alone draws now n u w :
  db_ok (w_db w) -> is_user u (w_db w) -> trial_at u (w_db w) = None ->
  exists w', run_alone draws n (startTrial u now) w = (w', Ok true, S n)
    /\ trial_at u (w_db w') = Some now.
Proof.
  intros Hd Hu Ht. unfold startTrial, write. rewrite run_alone_bind, run_alone_step.
  assert (exists d' k, start_trial_stmt u now (w_db w) = Ok (d', k)) as (d' & k & E).
  { unfold start_trial_stmt. apply has_user_true in Hu. rewrite Hu.
    destruct (first _ _); destruct (upsert _ _ _ _ _) as [t' k]; eauto. }
  rewrite E. destruct (start_trial_spec (fun _ => True) (fun _ => True) u now _ _ _ Hd E) as (_ & _ & _ & Hk).
  destruct (0 <? k) eqn:Hlt.
  - exists (with_db d' w). simpl. split; [done|]. apply Hk.
  - exfalso. apply Z.ltb_ge in Hlt. unfold start_trial_stmt in E.
    assert (k = (upsert (of_user u) (trial_row u now) never_trialled (set_trial now)
                   (db_subscriptions (w_db w))).2) as ->.
    { destruct (first _ _); [|destruct (has_user u (w_db w)); [|done]];
        destruct (upsert _ _ _ _ _); by simplify_eq. }
    unfold upsert in Hlt. destruct (first _ _) as [s|] eqn:Es; [|simpl in Hlt; lia].
    unfold trial_at, sub_of in Ht. rewrite Es in Ht. simpl in Ht. apply first_Some in Es as [Hs Hsu].
    assert (0 < (update (fun r => of_user u r && never_trialled r) (set_trial now)
                   (db_subscriptions (w_db w))).2); [|lia].
    apply (update_some _ _ _ s Hs). rewrite Hsu. unfold never_trialled. by rewrite Ht.
Qed.

(** [withTrial] when the check itself answers [ev], reading and no more: the
    trial starts exactly when the check refuses, the account is not on the
    trial's plan, never had the trial, and the trial would help. *)
Definition trial_spec (res : PlanResolution) (plan : PlanId) (ev : PlanId -> Decision) : Decision :=
  if d_allowed (ev plan) then ev plan
  else if bool_decide (plan = TRIAL_PLAN) then ev plan
  else if negb (bool_decide (tr_status (res_trial res) = TrialNone)) then ev plan
  else if negb (d_allowed (ev TRIAL_PLAN)) then ev plan
  else TRIAL_STARTED.

Lemma clock_alone draws now n w :
  same_clock draws now -> run_alone draws n clock w = (w, Ok now, S n).
Proof. intros Hc. unfold clock. by rewrite run_alone_step, Hc. Qed.

Lemma select_alone {B} draws n (f : Db -> B) w :
  run_alone draws n (select f) w = (w, Ok (f (w_db w)), S n).
Proof. unfold select. by rewrite run_alone_step. Qed.

Lemma resolveFor_alone draws n u now w :
  run_alone draws n (resolveFor u now) w = (w, Ok (resolution u now (w_db w)), S n).
Proof. unfold resolveFor. by rewrite run_alone_bind, select_alone. Qed.

Lemma resolveNow_alone draws now n u w :
  same_clock draws now -> run_alone draws n (resolveNow u) w = (w, Ok (resolution u now (w_db w)), S (S n)).
Proof.
  intros Hc. unfold resolveNow. rewrite run_alone_bind, (clock_alone draws now) by done.
  apply resolveFor_alone.
Qed.

Lemma withTrial_alone draws now n u plan evaluate ev w :
  db_ok (w_db w) -> is_user u (w_db w) -> same_clock draws now ->
  (forall p, d_trialStarted (ev p) = false) ->
  (forall p m, exists m', run_alone draws m (evaluate p) w = (w, Ok (ev p), m')) ->
  let decision := trial_spec (resolution u now (w_db w)) plan ev in
  exists w' n', run_alone draws n (withTrial u plan evaluate) w = (w', Ok decision, n')
    /\ (if d_trialStarted decision then trial_at u (w_db w') = Some now else w' = w).
Proof.
  intros Hd Hu Hc Hplain Hev decision. unfold decision, trial_spec, withTrial.
  rewrite run_alone_bind, (clock_alone draws now) by done.
  rewrite run_alone_bind. destruct (Hev plan (S n)) as [m E]. rewrite E.
  destruct (d_allowed (ev plan)); [by exists w, m; simpl; rewrite Hplain|].
  destruct (bool_decide (plan = TRIAL_PLAN)); [by exists w, m; simpl; rewrite Hplain|].
  rewrite run_alone_bind, resolveFor_alone.
  destruct (bool_decide (tr_status _ = TrialNone)) eqn:Et; [|by exists w, (S m); simpl; rewrite Hplain].
  apply bool_decide_eq_true in Et. cbn [negb].
  rewrite run_alone_bind. destruct (Hev TRIAL_PLAN (S m)) as [m' E']. rewrite E'.
  destruct (d_allowed (ev TRIAL_PLAN)); cbn [negb]; [|by exists w, m'; simpl; rewrite Hplain].
  rewrite run_alone_bind.
  destruct (startTrial_alone draws now m' u w Hd Hu (resolution_plan u now (w_db w) Et)) as (w' & E2 & Ht).
  rewrite E2. by exists w', (S m').
Qed.

(** What the limit itself says of so many machines. *)
Definition servers_spec (servers : Z) (p : PlanId) : Decision :=
  match pl_servers (PLANS p) with
  | None => ALLOWED
  | Some limit => if exceeds servers (Some limit) then refusal (PlanCoversServers p limit) else ALLOWED
  end.

Lemma evaluateServers_alone draws u w p m :
  exists m', run_alone draws m (evaluateServers u p) w
    = (w, Ok (servers_spec (Z.of_nat (length (servers_of u (w_db w)))) p), m').
Proof.
  unfold evaluateServers, servers_spec. destruct (pl_servers (PLANS p)); [|by eexists].
  rewrite run_alone_bind, select_alone. by eexists.
Qed.

Lemma limit_spec_eq res servers :
  trial_spec res (res_plan res) (servers_spec servers) = limit_spec res servers.
Proof.
  unfold trial_spec, servers_spec, limit_spec. destruct (res_plan res); simpl; [|done].
  rewrite Z.leb_antisym. destruct (servers <? 1); simpl; [done|].
  by destruct (tr_status (res_trial res)).
Qed.

(** The limit on machines, with nobody else about: a Pro account, or one
    with room, is allowed and nothing changes; a free account that is full and
    never had the trial gets it there and then, from now; one that had it is
    refused, and nothing changes. *)
Theorem server_limit_table draws now u w n :
  db_ok (w_db w) -> is_user u (w_db w) -> same_clock draws now ->
  let d := w_db w in
  let decision := limit_spec (resolution u now d) (Z.of_nat (length (servers_of u d))) in
  exists w' n', run_alone draws n (checkServerLimit u) w = (w', Ok decision, n')
    /\ (if d_trialStarted decision then trial_at u (w_db w') = Some now else w' = w).
Proof.
  intros Hd Hu Hc d decision. unfold decision. rewrite <- limit_spec_eq.
  unfold checkServerLimit, planFor. rewrite !run_alone_bind, (resolveNow_alone draws now) by done.
  apply (withTrial_alone draws now); try done.
  - intros p. unfold servers_spec. by repeat case_match.
  - apply evaluateServers_alone.
Qed.

(** ** A delivery *)

Section Delivery.
Context {plugin : Plugin} {plugin_laws : PluginLaws} (config : AccountsConfig).

(** What the row of [userId] says of a subscription. *)
Definition mirrors (i : MirrorInput) (s : Subscription) : Prop :=
  sub_userId s = mi_userId i /\ sub_status s = mi_status i /\ sub_plan s = plan_name (mi_plan i)
  /\ sub_dodoCustomerId s = mi_dodoCustomerId i /\ sub_dodoSubscriptionId s = mi_dodoSubscriptionId i
  /\ sub_productId s = mi_productId i /\ sub_currentPeriodEnd s = mi_currentPeriodEnd i
  /\ sub_cancelAtPeriodEnd s = default false (mi_cancelAtPeriodEnd i).

Lemma mirror_alone draws now n i w :
  db_ok (w_db w) -> is_user (mi_userId i) (w_db w) -> same_clock draws now ->
  exists d' s, run_alone draws n (mirrorSubscription i) w = (with_db d' w, Ok tt, S (S n))
    /\ sub_of (mi_userId i) d' = Some s /\ mirrors i s
    /\ trial_at (mi_userId i) d' = trial_at (mi_userId i) (w_db w)
    /\ db_webhookEvents d' = db_webhookEvents (w_db w).
Proof.
  intros Hd Hu Hc. unfold mirrorSubscription, write.
  rewrite run_alone_bind, (clock_alone draws now), run_alone_step by done.
  set (t := (upsert (of_user (mi_userId i)) (mirror_row i now) (fun _ => true) (set_mirror i now)
               (db_subscriptions (w_db w))).1).
  assert (mirror_stmt i now (w_db w) = Ok (with_subscriptions t (w_db w), tt)) as E.
  { unfold mirror_stmt. apply has_user_true in Hu. rewrite Hu. by destruct (first _ _). }
  rewrite E. destruct (mirror_guarantee (fun _ => True) (fun _ => True) i now _ _ _ (fun _ => I) Hd E)
    as (HG & He & Ht).
  assert (exists s, s ∈ t /\ mirrors i s) as (s & Hs & Hm).
  { unfold t, upsert. destruct (first _ _) as [s0|] eqn:Ef.
    - apply first_Some in Ef as [Hs0 Hp]. exists (set_mirror i now s0). split.
      + apply list_elem_of_fmap. exists s0. by rewrite Hp.
      + apply bool_decide_eq_true in Hp. by repeat split.
    - exists (mirror_row i now). split; [apply elem_of_app; right; by left|by repeat split]. }
  exists (with_subscriptions t (w_db w)), s. split_and!; try done.
  rewrite <- (proj1 Hm). apply sub_of_elem; [apply HG|done].
Qed.

Lemma mirror_alone_no_user draws now n i w :
  db_ok (w_db w) -> ~ is_user (mi_userId i) (w_db w) -> same_clock draws now ->
  run_alone draws n (mirrorSubscription i) w = (w, Err FOREIGN_KEY, S (S n)).
Proof.
  intros Hd Hu Hc. unfold mirrorSubscription, write.
  rewrite run_alone_bind, (clock_alone draws now), run_alone_step by done.
  assert (has_user (mi_userId i) (w_db w) = false) as Hno.
  { destruct (has_user _ _) eqn:E; [by apply has_user_true in E|done]. }
  unfold mirror_stmt. rewrite Hno. destruct (first _ _) as [s|] eqn:E; [|done].
  exfalso. apply Hu. by eapply has_row_user.
Qed.

(** [apply] with the account in the metadata: link, then mirror. *)
Lemma apply_alone draws n data u w :
  truthy (wd_metadata_userId data) = Some u ->
  run_alone draws n (apply_webhook (cf_catalogue config) data) w =
  run_alone draws (S n) (mirrorSubscription (mirror_of (cf_catalogue config) u data))
    (with_db (with_user (update (fun x => bool_decide (u_id x = u)) (set_customer (wd_customer_id data))
                (db_user (w_db w))).1 (w_db w)) w).
Proof.
  intros Hm. unfold apply_webhook, resolveUserId. cbn [hi_metadata]. rewrite Hm.
  rewrite run_alone_bind. cbn [run_alone mret api_ret].
  unfold linkCustomer, write. by rewrite run_alone_bind, run_alone_step.
Qed.

Lemma claim_alone draws now n id type w :
  same_clock draws now -> ~ present (Delivery id) (w_db w) ->
  run_alone draws n (claimDelivery id type) w =
  (with_db (with_webhookEvents (db_webhookEvents (w_db w) ++ [mkWebhookRow id type now]) (w_db w)) w,
   Ok true, S (S n)).
Proof.
  intros Hc Hnp. unfold claimDelivery, write.
  rewrite !run_alone_bind, (clock_alone draws now), run_alone_bind, run_alone_step by done.
  unfold claim_stmt. destruct (first _ _) as [e|] eqn:E; [|done].
  exfalso. apply Hnp. apply first_Some in E as [He Hid%bool_decide_eq_true].
  apply list_elem_of_fmap. by exists e.
Qed.

(** An id that was claimed is not claimed again, and nothing changes. *)
Lemma taken_alone draws now n id type w :
  same_clock draws now -> present (Delivery id) (w_db w) ->
  run_alone draws n (claimDelivery id type) w = (w, Ok false, S (S n)).
Proof.
  intros Hc Hp. unfold claimDelivery, write.
  rewrite !run_alone_bind, (clock_alone draws now), run_alone_bind, run_alone_step by done.
  unfold claim_stmt. apply list_elem_of_fmap in Hp as (e & -> & He).
  destruct (first _ _) as [e'|] eqn:E.
  - by destruct w.
  - eapply first_None in E; [|exact He]. by apply bool_decide_eq_false in E.
Qed.

(** [handleWebhook] for a request that carries an id. *)
Lemma handle_with_id r id :
  rq_body r <> TooLarge -> truthy (rq_webhookId r) = Some id ->
  handleWebhook config r =
  (claimed ← claimDelivery id (String.substring 0 64 (default "unknown" (rq_type r)));
   if negb claimed then mret (Json 200 PDuplicate)
   else
     status ← attempt (plugin_handler config r) (fun e => _ ← releaseDelivery id; Throw e);
     _ ← (if ok_status status then mret tt else releaseDelivery id);
     mret (FromPlugin status)).
Proof. intros Hb Ht. unfold handleWebhook. rewrite Ht. by destruct (rq_body r). Qed.

Lemma release_alone draws n id w :
  run_alone draws n (releaseDelivery id) w =
  (with_db (with_webhookEvents (drop_rows (fun e => bool_decide (we_id e = id))
     (db_webhookEvents (w_db w))) (w_db w)) w, Ok tt, S n).
Proof. unfold releaseDelivery, write. by rewrite run_alone_step. Qed.

(** A failing plugin, whichever way it fails, ends in a release. *)
Lemma failed_alone draws n r id w w1 e n1 :
  run_alone draws n (_ ← webhook_handlers (cf_catalogue config) e; mret 200) w = (w1, Err FOREIGN_KEY, n1) ->
  verified r = Some e ->
  exists res n', run_alone draws n
    (status ← attempt (plugin_handler config r) (fun e => _ ← releaseDelivery id; Throw e);
     _ ← (if ok_status status then mret tt else releaseDelivery id);
     mret (FromPlugin status)) w
    = (with_db (with_webhookEvents (drop_rows (fun e => bool_decide (we_id e = id))
         (db_webhookEvents (w_db w1))) (w_db w1)) w1, res, n')
    /\ forall s, res = Ok (FromPlugin s) -> ok_status s = false.
Proof.
  intros E Hv. unfold plugin_handler. rewrite Hv.
  rewrite run_alone_bind, run_alone_attempt, run_alone_attempt, E.
  destruct (crashed FOREIGN_KEY) as [s|] eqn:Ec; cbn [run_alone].
  - rewrite (crashed_not_ok _ _ Ec). rewrite run_alone_bind, release_alone.
    eexists _, _. split; [done|]. intros s' [= <-]. by eapply crashed_not_ok.
  - rewrite run_alone_bind, release_alone. eexists _, _. split; [done|]. intros s' [=].
Qed.

Lemma with_db_twice d d' w : with_db d (with_db d' w) = with_db d w.
Proof. done. Qed.

(** A signed delivery about a subscription either takes hold or will be
    tried again.  If the account in its metadata exists, it is acknowledged,
    its id is remembered, the account's row says what the payment provider
    said, and the trial is where it was.  If not, it is not acknowledged, its
    id is forgotten, and no subscription changes.  And an id that is
    remembered is answered as a duplicate, whatever else the request says,
    changing nothing. *)
Theorem delivery_settles draws now n r kind data id u w :
  db_ok (w_db w) -> same_clock draws now ->
  rq_body r <> TooLarge -> rq_webhookId r = Some id -> id <> "" ->
  verified r = Some (OnSubscription kind data) -> wd_metadata_userId data = Some u -> u <> "" ->
  exists w' res n', run_alone draws n (handleWebhook config r) w = (w', res, n') /\
  (present (Delivery id) (w_db w) -> res = Ok (Json 200 PDuplicate) /\ w' = w) /\
  (~ present (Delivery id) (w_db w) -> is_user u (w_db w) ->
     res = Ok (FromPlugin 200) /\ present (Delivery id) (w_db w')
     /\ trial_at u (w_db w') = trial_at u (w_db w)
     /\ exists s, sub_of u (w_db w') = Some s /\ mirrors (mirror_of (cf_catalogue config) u data) s) /\
  (~ present (Delivery id) (w_db w) -> ~ is_user u (w_db w) ->
     (forall s, res = Ok (FromPlugin s) -> ok_status s = false)
     /\ ~ present (Delivery id) (w_db w') /\ db_subscriptions (w_db w') = db_subscriptions (w_db w)).
Proof.
  intros Hd Hc Hb Hid Hid0 Hv Hmeta Hu0.
  assert (truthy (rq_webhookId r) = Some id) as Hti by (rewrite Hid; unfold truthy; by rewrite decide_False).
  assert (truthy (wd_metadata_userId data) = Some u) as Htm
    by (rewrite Hmeta; unfold truthy; by rewrite decide_False).
  rewrite handle_with_id with (id := id), run_alone_bind by done.
  destruct (decide (present (Delivery id) (w_db w))) as [Hp|Hnp].
  { rewrite (taken_alone draws now) by done. eexists w, _, _. by repeat split. }
  rewrite (claim_alone draws now) by done. cbn [negb].
  set (w1 := with_db _ w).
  assert (forall v, is_user v (w_db w1) <-> is_user v (w_db w)) as Hus by done.
  set (w2 := with_db (with_user (update (fun x => bool_decide (u_id x = u)) (set_customer (wd_customer_id data))
                (db_user (w_db w1))).1 (w_db w1)) w1).
  assert (db_ok (w_db w1)) as Hd1.
  { unfold w1. simpl. apply events_ok; [|done]. apply unique_by_snoc; [apply Hd|]. simpl.
    intros x Hx Hex. apply Hnp. rewrite <- Hex. by apply list_elem_of_fmap_2. }
  pose proof (link_guarantee (fun _ => True) (fun _ => True) u (wd_customer_id data) (w_db w1) Hd1) as HG.
  change (Guarantee (fun _ => True) (fun _ => True) (w_db w1) (w_db w2)) in HG.
  set (i := mirror_of (cf_catalogue config) u data).
  destruct (decide (has_user u (w_db w) = true)) as [Hu|Hnu].
  - apply has_user_true in Hu.
    destruct (mirror_alone draws now (S (S (S n))) i w2) as (d' & s & E & Hs & Hm & Ht & He);
      [apply HG|apply HG; by apply Hus|done|].
    exists (with_db d' w2), (Ok (FromPlugin 200)), (S (S (S (S (S n))))). split.
    { rewrite run_alone_bind, run_alone_attempt. unfold plugin_handler. rewrite Hv, run_alone_attempt.
      cbn [webhook_handlers]. rewrite run_alone_bind, (apply_alone draws _ data u) by done.
      fold w2 i. rewrite E. done. }
    split; [intros Hc'; by destruct Hnp|]. split; [|intros _ Hno; by destruct Hno].
    intros _ _. split; [done|]. split.
    { simpl. rewrite He. unfold w2, w1. simpl. rewrite fmap_app, elem_of_app. right. by left. }
    split; [exact Ht|]. by exists s.
  - assert (~ is_user u (w_db w2)) as Hno.
    { intros (x & Hx & Hxu). apply Hnu, has_user_true, Hus.
      apply elem_of_update in Hx as (x0 & Hx0 & [[-> _]|[-> _]]); by exists x0. }
    destruct (failed_alone draws (S (S n)) r id w1 w2 (OnSubscription kind data) (S (S (S (S (S n))))))
      as (res & n' & E & Hres); [|done|].
    { cbn [webhook_handlers]. rewrite run_alone_bind, (apply_alone draws _ data u) by done. fold w2 i.
      by rewrite (mirror_alone_no_user draws now) by (done || apply HG). }
    eexists _, res, n'. split; [exact E|].
    split; [intros Hc'; by destruct Hnp|]. split; [intros _ Hc'; by apply has_user_true in Hc'|].
    intros _ _. split; [done|]. split; [|done].
    intros Hpres. destruct (release_spec (fun _ => True) (fun _ => True) id (w_db w2)) as [_ Hrel]; [apply HG|].
    by apply Hrel in Hpres as [_ Hne].
Qed.
End Delivery.
