(* ===== verification/AccountsTraces.v ===== *)
(** * AccountsTraces: runs of the account API

    Concrete requests, run: the inputs at which the theorems of AccountsSafety
    and AccountsBilling are applied, and runs that fall short of what a
    comment in the source says. *)

From Stdlib Require Import Ascii.
From stdpp Require Import pretty.
From S2P Require Import Prelude RateLimit Plans AccountsDb AccountsHttp Noble DeviceKey Accounts AccountsTables AccountsLogic AccountsSafety AccountsBilling.

#[local] Open Scope string_scope.
#[local] Open Scope list_scope.
#[local] Open Scope Z_scope.

(** [http.ts]'s [clientIp] believes the header whoever sent it; [server.ts]'s
    only from a trusted proxy. *)
Lemma header_names_the_bucket forwarded peer peer' :
  truthy (trim_header <$> (forwarded ≫= fun f => head (split_on ","%char f))) <> None ->
  clientIp forwarded peer = clientIp forwarded peer'.
Proof. unfold clientIp. by destruct (truthy _). Qed.

Module AccountsDemo.

(** A session cookie is the user's id; a signature is the name of the event. *)
#[export] Instance demo_session : Session :=
  { getSession := fun cred now d => Ok (first (fun u => bool_decide (u_id u = cred)) (db_user d)) }.

Definition subscribed (sub status : string) : WebhookData :=
  mkWebhookData sub "pdt_m" status (Some false) (Some 3000000000) (Some "ada") "cus_1" (Some "ada@x.io").

#[export] Instance demo_plugin : Plugin := {
  verified := fun r =>
    if bool_decide (rq_credentials r = "active 1") then Some (OnSubscription Active (subscribed "sub_1" "active"))
    else if bool_decide (rq_credentials r = "active 2") then Some (OnSubscription Active (subscribed "sub_2" "active"))
    else if bool_decide (rq_credentials r = "expired 1") then Some (OnSubscription Expired (subscribed "sub_1" "expired"))
    else None;
  refused := fun _ => 400;
  crashed := fun _ => None;
  checkoutSession := fun o d => Ok (Some "https://checkout");
  portalSession := fun c d => Ok "https://portal";
}.

#[export] Instance demo_laws : PluginLaws.
Proof. by constructor. Qed.

Definition demo_config : AccountsConfig :=
  mkConfig (mkCatalogue "pdt_m" "pdt_y") true true "https://app/upgrade" ["https://app"] 90 true [].

Definition ada : User := mkUser "ada" "ada@x.io" "Ada" None.
Definition bob : User := mkUser "bob" "bob@x.io" "Bob" None.

Definition key (c : Z) : jstr := repeat c 64.

Definition machine (name : string) (k : Z) : Fields :=
  mkFields (Str (js name)) (Str (key k)) Absent Absent Absent Absent Absent None Absent Absent Absent.

Definition request (method path who : string) (body : RawBody) : Request :=
  mkRequest method path None None (Some "127.0.0.1") None who body None.

Definition register_box (who name : string) (k : Z) : Call :=
  Http (request "POST" "/v1/servers/register" who (Value (machine name k))).

Definition webhook (id signature : string) : Request :=
  mkRequest "POST" WEBHOOK_PATH None None (Some "127.0.0.1") (Some id) signature (Value emptyFields) (Some "t").

Definition T0 : Z := 1700000000000.
Definition draw (n : Z) : Draw := mkDraw (T0 + n) (js "id" ++ js (pretty n)) (js "0a1b2c").

(** [n] steps of thread [i]. *)
Definition steps (i n : nat) : list Event := map (fun k => ERun i (draw (Z.of_nat k))) (seq (100 * i) n).

Notation sys_run := (sys_run (hexes := Toy.hex) (sha := Toy.sha) demo_config true (fun _ => None)).
Notation start := (newSys 120 30 10).

Lemma draw_is_ok n : draw_ok (draw n).
Proof. split; [done|]. by repeat constructor. Qed.

Lemma steps_ok i n : draws_ok (steps i n).
Proof. apply Forall_map, Forall_true. intros k. apply draw_is_ok. Qed.

(** Ada registers one machine, then a second, which starts her trial. *)
Definition two_machines : list Event :=
  [ESignUp ada; EArrive (register_box "ada" "My Box" 97)] ++ steps 0 30
  ++ [EArrive (register_box "ada" "my box" 98)] ++ steps 1 40.

Definition reply_of (i : nat) (s : Sys) : option (option Reply) :=
  match y_threads s !! i with Some (_, Ret (OReply o)) => Some o | _ => None end.

Definition slugs_of (s : Sys) : list jstr := sv_slug <$> db_servers (db_of s).

Example first_machine_no_trial :
  match reply_of 0 (sys_run two_machines start) with
  | Some (Some (Json 201 (PRegistered _ res false))) => res_plan res = free
  | _ => False
  end.
Proof. vm_compute. reflexivity. Qed.

Example second_machine_starts_trial :
  match reply_of 1 (sys_run two_machines start) with
  | Some (Some (Json 201 (PRegistered _ res true))) => res_plan res = pro /\ tr_daysLeft (res_trial res) = 7
  | _ => False
  end.
Proof. vm_compute. split; reflexivity. Qed.

Example slugs_apart : slugs_of (sys_run two_machines start) = [js "my-box"; js "my-box-2"].
Proof. vm_compute. reflexivity. Qed.

Lemma two_machines_ok : draws_ok two_machines.
Proof.
  unfold two_machines. repeat (apply Forall_app; split); auto using steps_ok; by repeat constructor.
Qed.

Lemma tables_well_typed_witness :
  draws_ok two_machines /\ db_ok (db_of (sys_run two_machines start)).
Proof. split; [exact two_machines_ok|]. apply tables_well_typed. exact two_machines_ok. Defined.

(** A third machine, and a rename, after the trial started: allowed, and nothing
    more is announced. *)
Definition later : list Event :=
  [EArrive (register_box "ada" "Server" 99)] ++ steps 2 40 ++ [EArrive (CheckTunnel (Some "ada"))] ++ steps 3 10.

Lemma later_ok : draws_ok (two_machines ++ later).
Proof.
  apply Forall_app. split; [exact two_machines_ok|].
  unfold later. repeat (apply Forall_app; split); auto using steps_ok; by repeat constructor.
Qed.

Lemma trial_once_witness :
  draws_ok (two_machines ++ later) /\
  trial_at "ada" (db_of (sys_run two_machines start)) <> None /\
  (forall u t, trial_at u (db_of (sys_run two_machines start)) = Some t ->
     trial_at u (db_of (sys_run (two_machines ++ later) start)) = Some t).
Proof.
  split; [exact later_ok|]. split; [by vm_compute|].
  destruct (trial_once (hexes := Toy.hex) (sha := Toy.sha) demo_config true (fun _ => None)
              two_machines later 120 30 10 later_ok) as [H _]. exact H.
Defined.

(** The payment provider says Ada's subscription is active, and says so again. *)
Definition subscribes : list Event :=
  [ESignUp ada; EArrive (Http (webhook "evt_1" "active 1"))] ++ steps 0 20
  ++ [EArrive (Http (webhook "evt_1" "active 1"))] ++ steps 1 20.

Example retried_is_duplicate :
  reply_of 0 (sys_run subscribes start) = Some (Some (FromPlugin 200)) /\
  reply_of 1 (sys_run subscribes start) = Some (Some (Json 200 PDuplicate)).
Proof. vm_compute. split; reflexivity. Qed.

Lemma subscribes_ok : draws_ok subscribes.
Proof.
  unfold subscribes. repeat (apply Forall_app; split); auto using steps_ok; by repeat constructor.
Qed.

Lemma delivery_handled_once_witness :
  y_threads (sys_run subscribes start) !! 0%nat
    = Some (Http (webhook "evt_1" "active 1"), Ret (OReply (Some (FromPlugin 200)))) /\
  "evt_1" ∈ (we_id <$> db_webhookEvents (db_of (sys_run subscribes start))).
Proof.
  assert (y_threads (sys_run subscribes start) !! 0%nat
    = Some (Http (webhook "evt_1" "active 1"), Ret (OReply (Some (FromPlugin 200))))) as H0
    by (vm_compute; reflexivity).
  split; [exact H0|].
  destruct (delivery_handled_once (hexes := Toy.hex) (sha := Toy.sha) demo_config true (fun _ => None)
              subscribes 120 30 10 "evt_1" 0 0 _ _ 200 200 subscribes_ok H0 eq_refl H0 eq_refl eq_refl eq_refl)
    as [_ H]. exact H.
Defined.

Definition row_of_ada (s : Sys) : option Subscription := sub_of "ada" (db_of s).

Lemma paid_only_if_paid_witness :
  exists s, s ∈ db_subscriptions (db_of (sys_run subscribes start)) /\ sub_plan s = "pro" /\
  exists r kind data, EArrive (Http r) ∈ subscribes /\ verified r = Some (OnSubscription kind data)
    /\ (wd_status data = "active" \/ wd_status data = "on_hold")
    /\ (wd_product_id data = "pdt_m" \/ wd_product_id data = "pdt_y")
    /\ (truthy (wd_metadata_userId data) = Some (sub_userId s)
        \/ truthy (wd_metadata_userId data) = None).
Proof.
  destruct (row_of_ada (sys_run subscribes start)) as [s|] eqn:E; [|by vm_compute in E].
  exists s. apply sub_of_Some in E as [Hs _] || idtac.
  assert (sub_plan s = "pro") as Hpro.
  { destruct (db_subscriptions (db_of (sys_run subscribes start))) as [|s0 [|s1 l]] eqn:Et;
      vm_compute in Et; simplify_eq. apply list_elem_of_singleton in Hs. by subst. }
  split; [exact Hs|]. split; [exact Hpro|].
  exact (paid_only_if_paid (hexes := Toy.hex) (sha := Toy.sha) demo_config true (fun _ => None)
           subscribes 120 30 10 s subscribes_ok Hs Hpro).
Defined.

(** The step that inserts Ada's first machine. *)
Definition before_insert : list Event :=
  [ESignUp ada; EArrive (register_box "ada" "My Box" 97)] ++ steps 0 12.

Definition insert_step : Event := ERun 0 (draw 12).

Lemma machine_is_its_owners_witness :
  exists row, row ∈ db_servers (db_of (sys_step (hexes := Toy.hex) (sha := Toy.sha) demo_config true
                (fun _ => None) insert_step (sys_run before_insert start)))
    /\ exists r p, y_threads (sys_run before_insert start) !! 0%nat = Some (Http r, p)
    /\ signed_by r (sv_userId row).
Proof.
  destruct (db_servers (db_of (sys_step (hexes := Toy.hex) (sha := Toy.sha) demo_config true
                (fun _ => None) insert_step (sys_run before_insert start)))) as [|row l] eqn:E;
    [by vm_compute in E|].
  exists row. split; [by left|].
  apply (machine_is_its_owners (hexes := Toy.hex) (sha := Toy.sha) demo_config true (fun _ => None)
           before_insert 120 30 10 0 (draw 12)).
  - unfold before_insert. repeat (apply Forall_app; split); auto using steps_ok; by repeat constructor.
  - apply draw_is_ok.
  - right. split; [change (row ∈ db_servers (db_of (sys_step (hexes := Toy.hex) (sha := Toy.sha) demo_config true
                (fun _ => None) insert_step (sys_run before_insert start)))); rewrite E; by left|].
    intros Hl. assert (db_servers (db_of (sys_run before_insert start)) = []) as Hnil by (vm_compute; reflexivity).
    unfold listed in Hl. rewrite Hnil in Hl. by apply elem_of_nil in Hl.
Defined.

(** ** Alone *)

Definition with_ada : World :=
  mkWorld (with_user [ada] newDb) (RateLimiter.createRateLimiter 120 60000)
    (RateLimiter.createRateLimiter 30 60000) (RateLimiter.createRateLimiter 10 60000).

Lemma with_ada_ok : db_ok (w_db with_ada).
Proof. apply (sign_up_ok (ada) newDb newDb_ok). Qed.

Lemma ada_is_user : is_user "ada" (w_db with_ada).
Proof. exists ada. split; [by left|done]. Qed.

(** Two sessions in November, one in December. *)
Definition sessions_log : list Metered :=
  [mkMetered "ada" T0 1000 60; mkMetered "ada" (T0 + 86400000) 500 30; mkMetered "ada" (T0 + 30 * 86400000) 7 1].

Example november : monthKey T0 = "2023-11". Proof. vm_compute. reflexivity. Qed.

Lemma meter_adds_up_witness :
  Forall (metered_ok (w_db with_ada)) sessions_log /\
  sum_of tu_bytes (usage_rows "ada" (monthKey T0) (foldl meter (w_db with_ada) sessions_log)) = 1500.
Proof.
  assert (Forall (metered_ok (w_db with_ada)) sessions_log) as Hall.
  { repeat constructor; simpl; try lia; exact ada_is_user. }
  split; [exact Hall|].
  destruct (meter_adds_up sessions_log (w_db with_ada) "ada" T0 with_ada_ok Hall) as [H _].
  rewrite H. vm_compute. reflexivity.
Defined.

Definition at_T0 (n : nat) : Draw := draw 0.

Lemma server_limit_table_witness :
  exists w' n', run_alone at_T0 0 (checkServerLimit "ada") with_ada = (w', Ok ALLOWED, n') /\ w' = with_ada.
Proof.
  destruct (server_limit_table at_T0 T0 "ada" with_ada 0 with_ada_ok ada_is_user (fun _ => eq_refl))
    as (w' & n' & E & H).
  exists w', n'. split; [exact E|exact H].
Defined.

Lemma delivery_settles_witness :
  exists w' n', run_alone at_T0 0 (handleWebhook demo_config (webhook "evt_1" "active 1")) with_ada
    = (w', Ok (FromPlugin 200), n')
  /\ exists s, sub_of "ada" (w_db w') = Some s /\ sub_plan s = "pro".
Proof.
  destruct (delivery_settles demo_config at_T0 T0 0 (webhook "evt_1" "active 1") Active
              (subscribed "sub_1" "active") "evt_1" "ada" with_ada with_ada_ok (fun _ => eq_refl))
    as (w' & res & n' & E & _ & H & _); [done..|].
  destruct H as (-> & _ & _ & s & Hs & Hm); [by apply not_elem_of_nil|exact ada_is_user|].
  exists w', n'. split; [exact E|]. exists s. split; [exact Hs|]. apply Hm.
Defined.

(** ** Runs that fall short of a comment *)

(** A retry that arrives while the first delivery is in hand is acknowledged as
    a duplicate; the first then fails (the account is not there) and lets go of
    the id.  The payment provider has its 2xx, and nothing is recorded. *)
Definition overlapping_retry : list Event :=
  [EArrive (Http (webhook "evt_1" "active 1"))] ++ steps 0 3
  ++ [EArrive (Http (webhook "evt_1" "active 1"))] ++ steps 1 20 ++ steps 0 20.

Lemma acknowledged_and_lost :
  let s := sys_run overlapping_retry start in
  reply_of 1 s = Some (Some (Json 200 PDuplicate)) /\
  db_webhookEvents (db_of s) = [] /\ db_subscriptions (db_of s) = [] /\
  exists e, snd <$> y_threads s !! 0%nat = Some (Throw e).
Proof. vm_compute. repeat split. by eexists. Qed.

(** A request nobody signed, with an id that was seen, gets a 200. *)
Lemma unverified_gets_200 :
  reply_of 2 (sys_run (subscribes ++ [EArrive (Http (webhook "evt_1" "forged"))] ++ steps 2 20) start)
  = Some (Some (Json 200 PDuplicate)).
Proof. vm_compute. reflexivity. Qed.

(** An old subscription's expiry, delivered for the first time after a new one
    became active, takes the plan away. *)
Definition late_expiry : list Event :=
  [ESignUp ada; EArrive (Http (webhook "evt_1" "active 1"))] ++ steps 0 20
  ++ [EArrive (Http (webhook "evt_2" "active 2"))] ++ steps 1 20
  ++ [EArrive (Http (webhook "evt_3" "expired 1"))] ++ steps 2 20.

Lemma old_expiry_downgrades :
  (sub_plan <$> row_of_ada (sys_run late_expiry start)) = Some "free" /\
  (sub_dodoSubscriptionId <$> row_of_ada (sys_run late_expiry start)) = Some (Some "sub_1").
Proof. vm_compute. split; reflexivity. Qed.

(** A checkout is created for an account that already pays. *)
Lemma checkout_while_paying :
  reply_of 2 (sys_run (subscribes ++ [EArrive (Http (request "POST" "/v1/billing/checkout" "ada" (Value emptyFields)))]
                        ++ steps 2 20) start)
  = Some (Some (Json 200 (PUrl "https://checkout"))).
Proof. vm_compute. reflexivity. Qed.

(** A rename whose body does not parse, of a machine that does not exist, spends
    the trial. *)
Lemma trial_spent_on_nothing :
  let s := sys_run ([ESignUp ada; EArrive (Http (request "PATCH" "/v1/servers/srv_none" "ada" NotJson))]
                    ++ steps 0 20) start in
  reply_of 0 s = Some (Some (Json 400 (PError "Body must be valid JSON."))) /\
  trial_at "ada" (db_of s) <> None.
Proof. vm_compute. split; [reflexivity|discriminate]. Qed.

(** The count and the insert are two statements: if anything runs between them,
    two registrations both find room for the one machine. *)
Lemma limit_overrun :
  let s := sys_run ([ESignUp ada; EArrive (register_box "ada" "one" 97); EArrive (register_box "ada" "two" 98)]
                    ++ steps 0 12 ++ steps 1 12 ++ steps 0 5 ++ steps 1 5) start in
  length (servers_of "ada" (db_of s)) = 2%nat /\ trial_at "ada" (db_of s) = None /\ sub_of "ada" (db_of s) = None.
Proof. vm_compute. repeat split; reflexivity. Qed.

(** The cut at 48 characters may leave a dash at the end. *)
Lemma slug_ends_in_dash : last (slugify (repeat 97 47 ++ js " b")) = Some 45.
Proof. vm_compute. reflexivity. Qed.
End AccountsDemo.
