(* ===== verification/Cpace.v ===== *)
(** * Cpace: the balanced PAKE of a pairing

    [packages/crypto/src/cpace.ts], over the ristretto255 and SHA-512
    interfaces of Noble.  The closure [cpaceStart] returns is the record
    [CPaceState] and its [finish] a function of it; the scalar's random bytes
    are an argument.  The group's operations throw where Noble says. *)

From S2P Require Import Prelude Bytes Noble.

Definition DSI : bytes := utf8 "CPaceRistretto255".
Definition DSI_ISK : bytes := utf8 "CPaceRistretto255_ISK".
Definition S_IN_BYTES : Z := 128.
Definition SCALAR_BYTES : nat := 32.
Definition ELEMENT_BYTES : nat := 32.

Definition generatorString (prs ci sid : bytes) : bytes :=
  let lenZpad := Z.max 0 (S_IN_BYTES - 1 - Z.of_nat (length (prependLen prs))
                          - Z.of_nat (length (prependLen DSI))) in
  lvCat [DSI; prs; replicate (Z.to_nat lenZpad) 0; ci; sid].

(** [transcript_ir(Ya, ADa, Yb, ADb)]. *)
Definition transcriptIr (ya ada yb adb : bytes) : bytes := lvCat [ya; ada] ++ lvCat [yb; adb].

Inductive CPaceError :=
| BadScalarLength
| InvalidScalar
| ShareNot32
| ShareNotAnElement
| Identity.

(** 32 random bytes with the top nibble of the last cleared, little-endian. *)
Definition sampleScalar (random : bytes) : result CPaceError Z :=
  if negb (length random =? SCALAR_BYTES)%nat then Err BadScalarLength
  else
    let bytes := alter (fun b => Z.land b 15) (SCALAR_BYTES - 1)%nat random in
    Ok (foldr (fun b value => Z.lor (Z.shiftl value 8) b) 0 bytes).

Record CPaceAd := mkAd { ad_own : bytes; ad_peer : bytes; ad_isInitiator : bool }.

Section Cpace.
Context `{!Sha512, !Ristretto}.

Definition generatorPoint (prs ci sid : bytes) : point :=
  deriveToCurve (sha512 (generatorString prs ci sid)).

Definition calculateGenerator (prs ci sid : bytes) : bytes := pt_toBytes (generatorPoint prs ci sid).

(** [Point.multiply], which throws on a scalar it does not take. *)
Definition multiply (P : point) (scalar : Z) : result CPaceError point :=
  match pt_multiply P scalar with Some Q => Ok Q | None => Err InvalidScalar end.

Definition computeShare (prs ci sid : bytes) (scalar : Z) : result CPaceError bytes :=
  Q ← multiply (generatorPoint prs ci sid) scalar; Ok (pt_toBytes Q).

Record CPaceState := mkCPace { cp_sid : bytes; cp_scalar : Z; cp_share : bytes }.

Definition cpaceStart (password channelId sid scalarSeed : bytes) : result CPaceError CPaceState :=
  scalar ← sampleScalar scalarSeed;
  Q ← multiply (generatorPoint password channelId sid) scalar;
  Ok (mkCPace sid scalar (pt_toBytes Q)).

Definition scalarMultVfy (scalar : Z) (peerShare : bytes) : result CPaceError bytes :=
  if negb (length peerShare =? ELEMENT_BYTES)%nat then Err ShareNot32
  else match pt_fromBytes peerShare with
       | None => Err ShareNotAnElement
       | Some P =>
           shared ← multiply P scalar;
           if pt_is0 shared then Err Identity else Ok (pt_toBytes shared)
       end.

(** What the session key is the hash of. *)
Definition iskInput (sid k ya ada yb adb : bytes) : bytes :=
  lvCat [DSI_ISK; sid; k] ++ transcriptIr ya ada yb adb.

Definition iskInitiatorResponder (sid k ya ada yb adb : bytes) : bytes :=
  sha512 (iskInput sid k ya ada yb adb).

Definition finish (st : CPaceState) (peerShare : bytes) (ad : CPaceAd) : result CPaceError bytes :=
  k ← scalarMultVfy (cp_scalar st) peerShare;
  let transcript :=
    if ad_isInitiator ad then transcriptIr (cp_share st) (ad_own ad) peerShare (ad_peer ad)
    else transcriptIr peerShare (ad_peer ad) (cp_share st) (ad_own ad) in
  Ok (sha512 (lvCat [DSI_ISK; cp_sid st; k] ++ transcript)).
End Cpace.

(** ** Scalars *)

Lemma le_step v b : 0 <= v -> is_byte b -> Z.lor (Z.shiftl v 8) b = v * 256 + b.
Proof.
  unfold is_byte. intros Hv Hb. rewrite Z.lor_comm, Z.shiftl_mul_pow2 by lia.
  rewrite (lor_shift b v 8) by lia. lia.
Qed.

Lemma le_fold_range bs :
  is_bytes bs ->
  0 <= foldr (fun b value => Z.lor (Z.shiftl value 8) b) 0 bs < 256 ^ Z.of_nat (length bs).
Proof.
  induction 1 as [|b bs Hb _ IH]; [simpl; lia|]. simpl foldr. rewrite le_step by lia || done.
  simpl length. rewrite Nat2Z.inj_succ, Z.pow_succ_r by lia. unfold is_byte in Hb. lia.
Qed.

Lemma le_fold_snoc bs b :
  is_bytes bs -> 0 <= b ->
  foldr (fun b value => Z.lor (Z.shiftl value 8) b) 0 (bs ++ [b])
  = b * 256 ^ Z.of_nat (length bs)
    + foldr (fun b value => Z.lor (Z.shiftl value 8) b) 0 bs.
Proof.
  intros Hbs Hb. rewrite foldr_app. simpl (foldr _ 0 [b]).
  assert (Z.lor (Z.shiftl 0 8) b = b) as -> by done.
  revert b Hb. induction Hbs as [|c bs Hc Hbs IH]; intros b Hb; [simpl; lia|].
  assert (0 <= foldr (fun b value => Z.lor (Z.shiftl value 8) b) b bs) as H0.
  { rewrite IH by done. pose proof (le_fold_range bs Hbs).
    assert (0 < 256 ^ Z.of_nat (length bs)) by (apply Z.pow_pos_nonneg; lia). nia. }
  simpl foldr. rewrite !le_step by (done || apply le_fold_range, Hbs).
  rewrite IH by done. simpl length. rewrite Nat2Z.inj_succ, Z.pow_succ_r by lia. lia.
Qed.

(** Every scalar is below the group order, whatever the bytes. *)
Lemma sampleScalar_range random v :
  is_bytes random -> sampleScalar random = Ok v -> 0 <= v < 2 ^ 252.
Proof.
  intros Hr. unfold sampleScalar, SCALAR_BYTES.
  destruct (length random =? 32)%nat eqn:Hl; simpl negb; [|done]. apply Nat.eqb_eq in Hl.
  destruct (exists_last (l:=random)) as (bs & b & ->); [by intros ->|].
  rewrite length_app in Hl. simpl in Hl.
  replace (32 - 1)%nat with (length bs) by lia. rewrite alter_app_r_alt by lia.
  rewrite Nat.sub_diag. intros [= <-]. apply Forall_app in Hr as [Hbs Hb].
  change 15 with (Z.ones 4). cbn [alter list_alter]. rewrite Z.land_ones by lia.
  rewrite le_fold_snoc by done || dlia. pose proof (le_fold_range bs Hbs) as Hrange.
  replace (length bs) with 31%nat in * by lia. change (256 ^ Z.of_nat 31) with (2 ^ 248) in *.
  change (2 ^ 252) with (16 * 2 ^ 248). dlia.
Qed.

(** ** The two ends agree *)

Section Agreement.
Context `{!Sha512, !Ristretto, !RistrettoLaws}.

Lemma cpaceStart_ok pw ci sid seed A :
  cpaceStart pw ci sid seed = Ok A ->
  exists Q, pt_multiply (generatorPoint pw ci sid) (cp_scalar A) = Some Q /\
    cp_share A = pt_toBytes Q /\ cp_sid A = sid /\ sampleScalar seed = Ok (cp_scalar A).
Proof.
  unfold cpaceStart, multiply. destruct (sampleScalar seed) as [s|]; [|done]. simpl.
  destruct (pt_multiply _ s) as [Q|] eqn:HQ; [|done]. intros [= <-]. by exists Q.
Qed.

(** A run starts unless its scalar is zero. *)
Lemma cpaceStart_total pw ci sid seed :
  length seed = SCALAR_BYTES -> is_bytes seed -> sampleScalar seed <> Ok 0 ->
  exists A, cpaceStart pw ci sid seed = Ok A.
Proof.
  intros Hl Hb Hnz. unfold cpaceStart, multiply. destruct (sampleScalar seed) as [s|] eqn:Hs.
  - destruct (sampleScalar_range seed s Hb Hs).
    destruct (pt_multiply_valid (generatorPoint pw ci sid) s) as [Q HQ].
    { assert (s <> 0) by congruence. lia. }
    simpl. rewrite HQ. by eexists.
  - unfold sampleScalar in Hs. by rewrite Hl in Hs.
Qed.

Lemma scalarMultVfy_share scalar P Q :
  pt_multiply P scalar = Some Q ->
  scalarMultVfy scalar (pt_toBytes P) = if pt_is0 Q then Err Identity else Ok (pt_toBytes Q).
Proof.
  intros HQ. unfold scalarMultVfy, multiply, ELEMENT_BYTES.
  rewrite pt_toBytes_length, pt_fromBytes_toBytes. simpl. by rewrite HQ.
Qed.

(** Both ends compute the same element, unless it is refused. *)
Lemma shared_point pw ci sid ra rb A B :
  is_bytes ra -> is_bytes rb ->
  cpaceStart pw ci sid ra = Ok A -> cpaceStart pw ci sid rb = Ok B ->
  exists K, scalarMultVfy (cp_scalar A) (cp_share B)
              = (if pt_is0 K then Err Identity else Ok (pt_toBytes K)) /\
            scalarMultVfy (cp_scalar B) (cp_share A)
              = (if pt_is0 K then Err Identity else Ok (pt_toBytes K)).
Proof.
  intros Hra Hrb HA HB.
  destruct (cpaceStart_ok _ _ _ _ _ HA) as (P & HP & -> & _ & HsA).
  destruct (cpaceStart_ok _ _ _ _ _ HB) as (Q & HQ & -> & _ & HsB).
  pose proof (sampleScalar_range _ _ Hra HsA) as Ha. pose proof (sampleScalar_range _ _ Hrb HsB) as Hb.
  assert (1 <= cp_scalar A) as Ha1.
  { destruct (decide (cp_scalar A = 0)) as [Hz|]; [|lia]. by rewrite Hz, pt_multiply_zero in HP. }
  destruct (pt_multiply_valid Q (cp_scalar A)) as [K HK]; [lia|]. exists K. split.
  - by apply scalarMultVfy_share.
  - apply scalarMultVfy_share. rewrite <- HK. symmetry.
    exact (pt_multiply_comm _ _ _ _ _ HQ HP).
Qed.

Lemma finish_agrees pw ci sid ra rb A B ada adb
    (Hra : is_bytes ra) (Hrb : is_bytes rb)
    (HA : cpaceStart pw ci sid ra = Ok A) (HB : cpaceStart pw ci sid rb = Ok B) :
  finish A (cp_share B) (mkAd ada adb true) = finish B (cp_share A) (mkAd adb ada false) /\
  (finish A (cp_share B) (mkAd ada adb true) = Err Identity \/
   exists k, finish A (cp_share B) (mkAd ada adb true)
             = Ok (iskInitiatorResponder sid k (cp_share A) ada (cp_share B) adb)).
Proof.
  destruct (shared_point _ _ _ _ _ _ _ Hra Hrb HA HB) as (K & HKA & HKB).
  destruct (cpaceStart_ok _ _ _ _ _ HA) as (_ & _ & _ & HsA & _).
  destruct (cpaceStart_ok _ _ _ _ _ HB) as (_ & _ & _ & HsB & _).
  unfold finish. rewrite HKA, HKB, HsA, HsB. destruct (pt_is0 K); [by split; [|left]|].
  split; [done|]. right. by exists (pt_toBytes K).
Qed.
(** Two honest ends agree.  Runs on the same password, channel and session
    id, whatever their scalars, come to the same session key when each is given
    the other's share and associated data, and that key is the draft's
    ISK with the initiator's fields first; or both refuse the same identity
    element. *)
Theorem cpace_agreement pw ci sid ra rb A B ada adb
    (Hra : is_bytes ra) (Hrb : is_bytes rb)
    (HA : cpaceStart pw ci sid ra = Ok A) (HB : cpaceStart pw ci sid rb = Ok B) :
  finish A (cp_share B) (mkAd ada adb true) = finish B (cp_share A) (mkAd adb ada false) /\
  (finish A (cp_share B) (mkAd ada adb true) = Err Identity \/
   exists k, finish A (cp_share B) (mkAd ada adb true)
             = Ok (iskInitiatorResponder sid k (cp_share A) ada (cp_share B) adb)).
Proof. exact (finish_agrees _ _ _ _ _ _ _ _ _ Hra Hrb HA HB). Qed.
End Agreement.

(** ** What the hashes bind *)

Lemma iskInput_lvCat sid k ya ada yb adb :
  iskInput sid k ya ada yb adb = lvCat [DSI_ISK; sid; k; ya; ada; yb; adb].
Proof.
  unfold iskInput, transcriptIr. by rewrite !lvCat_cons, <- !app_assoc.
Qed.

Lemma short_const bs : (length bs < 1000)%nat -> short bs.
Proof. unfold short. lia. Qed.

Lemma generatorString_pad prs :
  exists n, (n <= 127)%nat /\ forall ci sid, generatorString prs ci sid = lvCat [DSI; prs; replicate n 0; ci; sid].
Proof. eexists. split; [|done]. unfold S_IN_BYTES. lia. Qed.

(** Nothing is ambiguous in what the two hashes are given.  The generator
    is derived from bytes that determine password, channel and session id; the
    session key is the hash of bytes that determine the session id, the shared
    element and both ends' share and associated data, so a share or a label
    changed on the way changes what is hashed. *)
Theorem transcript_binding :
  (forall prs ci sid prs' ci' sid',
    Forall short [prs; ci; sid; prs'; ci'; sid'] ->
    generatorString prs ci sid = generatorString prs' ci' sid' ->
    prs = prs' /\ ci = ci' /\ sid = sid') /\
  (forall sid k ya ada yb adb sid' k' ya' ada' yb' adb',
    Forall short [sid; k; ya; ada; yb; adb; sid'; k'; ya'; ada'; yb'; adb'] ->
    iskInput sid k ya ada yb adb = iskInput sid' k' ya' ada' yb' adb' ->
    sid = sid' /\ k = k' /\ ya = ya' /\ ada = ada' /\ yb = yb' /\ adb = adb').
Proof.
  split.
  - intros prs ci sid prs' ci' sid' Hs Heq. rewrite !Forall_cons in Hs. destruct_and!.
    destruct (generatorString_pad prs) as (n & Hn & Hg).
    destruct (generatorString_pad prs') as (n' & Hn' & Hg'). rewrite Hg, Hg' in Heq.
    assert (short DSI) by (by apply short_const; vm_compute; lia).
    assert (short (replicate n 0) /\ short (replicate n' 0)) as [? ?]
      by (split; apply short_const; rewrite length_replicate; lia).
    apply lvCat_inj in Heq; [by simplify_eq|by repeat constructor..].
  - intros * Hs Heq. rewrite !iskInput_lvCat in Heq. rewrite !Forall_cons in Hs. destruct_and!.
    assert (short DSI_ISK) by (by apply short_const; vm_compute; lia).
    apply lvCat_inj in Heq; [by simplify_eq|by repeat constructor..].
Qed.

(** ** A run *)

Module Demo.
Import Toy.

Definition password : bytes := utf8 "716384".
Definition channel : bytes := utf8 "492".
Definition session : bytes := replicate 16 7.
Definition seed_cli : bytes := replicate 32 9.
Definition seed_browser : bytes := replicate 32 201.

Definition start (seed : bytes) : CPaceState :=
  match cpaceStart password channel session seed with
  | Ok A => A
  | Err _ => mkCPace [] 0 []
  end.

Lemma bytes_replicate n b : is_byte b -> is_bytes (replicate n b).
Proof. intros Hb. by apply Forall_replicate. Qed.

Lemma cpace_agreement_witness :
  cpaceStart password channel session seed_cli = Ok (start seed_cli) /\
  cpaceStart password channel session seed_browser = Ok (start seed_browser) /\
  finish (start seed_cli) (cp_share (start seed_browser)) (mkAd (utf8 "cli") (utf8 "Chrome") true)
  = finish (start seed_browser) (cp_share (start seed_cli)) (mkAd (utf8 "Chrome") (utf8 "cli") false).
Proof.
  assert (cpaceStart password channel session seed_cli = Ok (start seed_cli)) as HA
    by (vm_compute; reflexivity).
  assert (cpaceStart password channel session seed_browser = Ok (start seed_browser)) as HB
    by (vm_compute; reflexivity).
  split; [exact HA|]. split; [exact HB|].
  refine (proj1 (cpace_agreement password channel session seed_cli seed_browser _ _
    (utf8 "cli") (utf8 "Chrome") _ _ HA HB)); apply bytes_replicate; unfold is_byte; lia.
Defined.
End Demo.
