(* ===== verification/Kdf.v ===== *)
(** * Kdf: the key schedule hanging off a completed CPace run

    [packages/crypto/src/kdf.ts]: session keys by HKDF under one label each,
    the per-connection subkeys that actually seal, the stored form of the
    session keys, and key confirmation. *)

From S2P Require Import Prelude Bytes Noble.

Definition KEY_BYTES : nat := 32.
Definition SUBKEY_SALT_BYTES : nat := 16.

Definition LABEL_c2s : string := "mtmux/v1 browser→cli".
Definition LABEL_s2c : string := "mtmux/v1 cli→browser".
Definition LABEL_confirm : string := "mtmux/v1 confirm".
Definition LABEL_directToken : string := "mtmux/v1 direct-token".

Inductive Direction := c2s | s2c.
Inductive SubkeyPurpose := frame | descriptor.

#[export] Instance Direction_eq_dec : EqDecision Direction.
Proof. solve_decision. Defined.
#[export] Instance SubkeyPurpose_eq_dec : EqDecision SubkeyPurpose.
Proof. solve_decision. Defined.

Definition SUBKEY_LABEL (p : SubkeyPurpose) (d : Direction) : string :=
  match p, d with
  | frame, c2s => "mtmux/v2 frame browser→cli"
  | frame, s2c => "mtmux/v2 frame cli→browser"
  | descriptor, c2s => "mtmux/v2 descriptor browser→cli"
  | descriptor, s2c => "mtmux/v2 descriptor cli→browser"
  end.

Record SessionKeys := mkKeys {
  k_c2s : bytes;
  k_s2c : bytes;
  k_confirm : bytes;
  k_directToken : string;
}.

Record StoredSessionKeys := mkStored {
  st_c2s : string;
  st_s2c : string;
  st_confirm : string;
  st_directToken : string;
}.

Inductive KdfError := BadKeyLength | BadSaltLength | BadHex | MalformedKeys | NoDirectToken.

Inductive Role := cli | browser.

Definition role_name (r : Role) : string := match r with cli => "cli" | browser => "browser" end.

Section Kdf.
Context `{!Hex, !Hkdf, !HmacBytes}.

Definition derive (isk transcript : bytes) (label : string) : bytes :=
  hkdf isk transcript (utf8 label) KEY_BYTES.

(** The key a single connection actually seals with. *)
Definition deriveSubkey (key salt : bytes) (label : string) : result KdfError bytes :=
  if negb (length key =? KEY_BYTES)%nat then Err BadKeyLength
  else if negb (length salt =? SUBKEY_SALT_BYTES)%nat then Err BadSaltLength
  else Ok (derive key salt label).

Definition deriveSessionKeys (isk transcript : bytes) : SessionKeys :=
  mkKeys (derive isk transcript LABEL_c2s) (derive isk transcript LABEL_s2c)
    (derive isk transcript LABEL_confirm) (bytesToHex (derive isk transcript LABEL_directToken)).

Definition encodeSessionKeys (keys : SessionKeys) : StoredSessionKeys :=
  mkStored (bytesToHex (k_c2s keys)) (bytesToHex (k_s2c keys)) (bytesToHex (k_confirm keys))
    (k_directToken keys).

(** [hexToBytes], which throws on malformed text. *)
Definition hex_field (s : string) : result KdfError bytes :=
  match hexToBytes s with Ok b => Ok b | Err _ => Err BadHex end.

Definition decodeSessionKeys (stored : StoredSessionKeys) : result KdfError SessionKeys :=
  c ← hex_field (st_c2s stored);
  s ← hex_field (st_s2c stored);
  k ← hex_field (st_confirm stored);
  if negb ((length c =? KEY_BYTES)%nat && (length s =? KEY_BYTES)%nat
           && (length k =? KEY_BYTES)%nat)
  then Err MalformedKeys
  else if (String.length (st_directToken stored) <? 32)%nat then Err NoDirectToken
  else Ok (mkKeys c s k (st_directToken stored)).

Definition confirmationTag (confirmKey : bytes) (role : Role) : bytes :=
  hmac_sha256 confirmKey (utf8 ("mtmux/v1 confirm " +:+ role_name role)).

Definition verifyConfirmation (confirmKey : bytes) (role : Role) (tag : bytes) : bool :=
  constantTimeEqual (confirmationTag confirmKey role) tag.

(** Keys of the right lengths read back from their stored form. *)
Lemma decodeSessionKeys_encode `{!HexLaws} keys :
  is_bytes (k_c2s keys) -> is_bytes (k_s2c keys) -> is_bytes (k_confirm keys) ->
  length (k_c2s keys) = KEY_BYTES -> length (k_s2c keys) = KEY_BYTES ->
  length (k_confirm keys) = KEY_BYTES -> (32 <= String.length (k_directToken keys))%nat ->
  decodeSessionKeys (encodeSessionKeys keys) = Ok keys.
Proof.
  intros Hc Hs Hk Lc Ls Lk Ht. unfold decodeSessionKeys, encodeSessionKeys, hex_field. simpl.
  rewrite !hex_roundtrip by done. simpl. rewrite Lc, Ls, Lk. simpl.
  rewrite (proj2 (Nat.ltb_ge _ _)) by done. by destruct keys.
Qed.

(** A decoded schedule has full-length keys, whatever was stored. *)
Lemma decodeSessionKeys_lengths stored keys :
  decodeSessionKeys stored = Ok keys ->
  length (k_c2s keys) = KEY_BYTES /\ length (k_s2c keys) = KEY_BYTES /\
  length (k_confirm keys) = KEY_BYTES.
Proof.
  unfold decodeSessionKeys, hex_field. intros Hdec.
  destruct (hexToBytes (st_c2s stored)) as [c|]; [|done].
  destruct (hexToBytes (st_s2c stored)) as [s|]; [|done].
  destruct (hexToBytes (st_confirm stored)) as [k|]; [|done]. simpl in Hdec.
  destruct (length c =? KEY_BYTES)%nat eqn:Hc, (length s =? KEY_BYTES)%nat eqn:Hs,
    (length k =? KEY_BYTES)%nat eqn:Hk; simpl in Hdec; try done.
  apply Nat.eqb_eq in Hc, Hs, Hk. by case_match; simplify_eq/=.
Qed.

Lemma SUBKEY_LABEL_inj p d p' d' :
  SUBKEY_LABEL p d = SUBKEY_LABEL p' d' -> p = p' /\ d = d'.
Proof. by destruct p, d, p', d'. Qed.
End Kdf.
