(* ===== verification/Frames.v ===== *)
(** * Frames: sealed frames over a WebSocket

    [packages/crypto/src/frames.ts], and the receiving half of
    [SealedTransport] in [apps/web/src/lib/transport.ts].  AES-GCM and HKDF
    are parameters; the salt a sealer draws is an argument.  The callers
    serialise [seal] and [open] on one object, so each is one step on it.  A
    counter is a [bigint]: an unbounded [Z] with the source's own bound. *)

From S2P Require Import Prelude Bytes Noble Kdf.

Definition COUNTER_BYTES : nat := 8.
Definition SALT_BYTES : nat := SUBKEY_SALT_BYTES.
Definition NONCE_BYTES : nat := 12.
Definition MAX_COUNTER : Z := Z.shiftl 1 64 - 1.

Definition DIRECTION_TAG (d : Direction) : bytes :=
  match d with c2s => [99; 50; 115; 0] | s2c => [115; 50; 99; 0] end.

(** [setBigUint64(offset, value, false)]: big-endian, low [8 n] bits. *)
Fixpoint be_bytes (n : nat) (v : Z) : bytes :=
  match n with
  | O => []
  | S n => Z.land (Z.shiftr v (8 * Z.of_nat n)) 255 :: be_bytes n v
  end.

(** [getBigUint64(0, false)]. *)
Definition be_value (bs : bytes) : Z := foldl (fun acc b => Z.lor (Z.shiftl acc 8) b) 0 bs.

Definition nonceFor (direction : Direction) (counter : Z) : bytes :=
  DIRECTION_TAG direction ++ be_bytes COUNTER_BYTES counter.

Definition readCounter (frame : bytes) : Z := be_value (take COUNTER_BYTES frame).

Inductive FrameError :=
| KeyError (e : KdfError)
| NotAes256
| CounterExhausted
| Truncated
| Replayed (counter highest : Z)
| FailedAuthentication.

Record FrameSealer := mkSealer {
  sl_key : bytes;
  sl_direction : Direction;
  sl_salt : bytes;
  sl_counter : Z;
}.

Record FrameOpener := mkOpener {
  op_key : bytes;
  op_direction : Direction;
  op_highest : option Z;
}.

Section Frames.
Context `{!Hkdf, !Aead}.

Definition importKey (raw : bytes) : result FrameError bytes :=
  if negb (length raw =? 32)%nat then Err NotAes256 else Ok raw.

(** The subkey of a sealer or an opener. *)
Definition frame_key (key salt : bytes) (direction : Direction) (purpose : SubkeyPurpose)
    : result FrameError bytes :=
  match deriveSubkey key salt (SUBKEY_LABEL purpose direction) with
  | Err e => Err (KeyError e)
  | Ok subkey => importKey subkey
  end.

Definition newSealer (key : bytes) (direction : Direction) (purpose : SubkeyPurpose) (salt : bytes)
    : result FrameError FrameSealer :=
  subkey ← frame_key key salt direction purpose;
  Ok (mkSealer subkey direction salt 0).

Definition seal (plaintext : bytes) (s : FrameSealer) : result FrameError bytes * FrameSealer :=
  if MAX_COUNTER <? sl_counter s then (Err CounterExhausted, s)
  else
    let counter := sl_counter s in
    let sealed := aead_encrypt (sl_key s) (nonceFor (sl_direction s) counter) [] plaintext in
    let prefix := if counter =? 0 then sl_salt s else [] in
    (Ok (prefix ++ be_bytes COUNTER_BYTES counter ++ sealed),
     mkSealer (sl_key s) (sl_direction s) (sl_salt s) (counter + 1)).

Definition newOpener (key : bytes) (direction : Direction) (salt : bytes) (purpose : SubkeyPurpose)
    : result FrameError FrameOpener :=
  subkey ← frame_key key salt direction purpose;
  Ok (mkOpener subkey direction None).

Definition open (frame : bytes) (o : FrameOpener) : result FrameError bytes * FrameOpener :=
  if (length frame <=? COUNTER_BYTES)%nat then (Err Truncated, o)
  else
    let counter := readCounter frame in
    let decrypt :=
      match aead_decrypt (op_key o) (nonceFor (op_direction o) counter) []
              (drop COUNTER_BYTES frame) with
      | None => (Err FailedAuthentication, o)
      | Some opened => (Ok opened, mkOpener (op_key o) (op_direction o) (Some counter))
      end in
    match op_highest o with
    | Some highest =>
        if counter <=? highest then (Err (Replayed counter highest), o) else decrypt
    | None => decrypt
    end.

(** Bind to a stream from its first frame, and open that frame. *)
Definition bind (key : bytes) (direction : Direction) (first : bytes) (purpose : SubkeyPurpose)
    : result FrameError (FrameOpener * bytes) :=
  if (length first <=? SALT_BYTES + COUNTER_BYTES)%nat then Err FailedAuthentication
  else
    let salt := take SALT_BYTES first in
    let body := drop SALT_BYTES first in
    if negb (readCounter body =? 0) then Err FailedAuthentication
    else
      opener ← newOpener key direction salt purpose;
      match open body opener with
      | (Ok plaintext, opener) => Ok (opener, plaintext)
      | (Err e, _) => Err e
      end.

Definition sealOnce (key : bytes) (direction : Direction) (plaintext : bytes)
    (purpose : SubkeyPurpose) (salt : bytes) : result FrameError bytes :=
  s ← newSealer key direction purpose salt; (seal plaintext s).1.

Definition openOnce (key : bytes) (direction : Direction) (frame : bytes) (purpose : SubkeyPurpose)
    : result FrameError bytes :=
  '(_, plaintext) ← bind key direction frame purpose; Ok plaintext.

(** ** The two ends of a stream *)

(** A sealer's frames for a list of plaintexts, in order. *)
Fixpoint seal_all (plaintexts : list bytes) (s : FrameSealer) : result FrameError (list bytes) :=
  match plaintexts with
  | [] => Ok []
  | p :: plaintexts =>
      let '(r, s) := seal p s in
      f ← r; fs ← seal_all plaintexts s; Ok (f :: fs)
  end.

(** [SealedTransport.handleFrame] over the frames that arrive: bind on the
    first, open the others, and give the connection up at the first failure. *)
Fixpoint receive (key : bytes) (direction : Direction) (opener : option FrameOpener)
    (frames : list bytes) : list bytes :=
  match frames with
  | [] => []
  | f :: frames =>
      match opener with
      | None =>
          match bind key direction f frame with
          | Ok (o, plaintext) => plaintext :: receive key direction (Some o) frames
          | Err _ => []
          end
      | Some o =>
          match open f o with
          | (Ok plaintext, o) => plaintext :: receive key direction (Some o) frames
          | (Err _, _) => []
          end
      end
  end.
End Frames.

(** ** Counters on the wire *)

Lemma be_bytes_length n v : length (be_bytes n v) = n.
Proof. induction n as [|n IH]; simpl; [done|by rewrite IH]. Qed.

Lemma be_bytes_bytes n v : is_bytes (be_bytes n v).
Proof.
  induction n as [|n IH]; simpl; constructor; [|done]. unfold is_byte.
  change 255 with (Z.ones 8). rewrite Z.land_ones by lia. dlia.
Qed.

(** Reading a byte more. *)
Lemma be_step acc b : is_byte b -> Z.lor (Z.shiftl acc 8) b = acc * 256 + b.
Proof.
  unfold is_byte. intros Hb. rewrite Z.lor_comm, Z.shiftl_mul_pow2 by lia.
  rewrite (lor_shift b acc 8) by lia. lia.
Qed.

Lemma be_value_from acc bs :
  is_bytes bs ->
  foldl (fun acc b => Z.lor (Z.shiftl acc 8) b) acc bs
  = acc * 256 ^ Z.of_nat (length bs) + be_value bs.
Proof.
  unfold be_value. intros Hbs. revert acc. induction Hbs as [|b bs Hb _ IH]; intros acc;
    [simpl; lia|].
  simpl foldl. rewrite IH, (IH (Z.lor _ b)), !be_step by done. simpl length.
  rewrite Nat2Z.inj_succ, Z.pow_succ_r by lia. lia.
Qed.

Lemma be_value_range bs : is_bytes bs -> 0 <= be_value bs < 256 ^ Z.of_nat (length bs).
Proof.
  induction bs as [|b bs IH] using rev_ind; intros Hbs; [unfold be_value; simpl; lia|].
  apply Forall_app in Hbs as [Hbs Hb]. apply Forall_inv in Hb. specialize (IH Hbs).
  unfold be_value in *. rewrite foldl_app. simpl foldl. rewrite be_step by exact Hb.
  rewrite length_app. simpl. rewrite Nat2Z.inj_add, Z.pow_add_r by lia.
  unfold is_byte in Hb. change (256 ^ Z.of_nat 1) with 256. nia.
Qed.

Lemma be_value_bytes n v : be_value (be_bytes n v) = v mod 256 ^ Z.of_nat n.
Proof.
  induction n as [|n IH]; simpl; [by rewrite Z.mod_1_r|].
  unfold be_value. simpl foldl. rewrite be_value_from by apply be_bytes_bytes.
  rewrite be_bytes_length. fold (be_value (be_bytes n v)). rewrite IH.
  change (Z.lor (Z.shiftl 0 8) ?x) with x. change 255 with (Z.ones 8).
  rewrite Z.land_ones, Z.shiftr_div_pow2 by lia.
  replace (2 ^ (8 * Z.of_nat n)) with (256 ^ Z.of_nat n)
    by (rewrite Z.pow_mul_r by lia; reflexivity).
  rewrite Nat2Z.inj_succ, Z.pow_succ_r by lia. rewrite (Z.mul_comm 256).
  assert (0 < 256 ^ Z.of_nat n) by (apply Z.pow_pos_nonneg; lia).
  rewrite Z.rem_mul_r by lia. change (2 ^ 8) with 256. lia.
Qed.

Lemma counter_roundtrip v rest :
  0 <= v <= MAX_COUNTER -> readCounter (be_bytes COUNTER_BYTES v ++ rest) = v.
Proof.
  intros Hv. unfold readCounter.
  replace COUNTER_BYTES with (length (be_bytes COUNTER_BYTES v)) at 1 by apply be_bytes_length.
  rewrite take_app_length, be_value_bytes. apply Z.mod_small.
  change MAX_COUNTER with (256 ^ 8 - 1) in Hv. unfold COUNTER_BYTES. simpl Z.of_nat. lia.
Qed.

(** No two counters of a direction share a nonce. *)
Lemma nonceFor_inj d v d' v' :
  0 <= v <= MAX_COUNTER -> 0 <= v' <= MAX_COUNTER ->
  nonceFor d v = nonceFor d' v' -> d = d' /\ v = v'.
Proof.
  intros Hv Hv' Heq. unfold nonceFor in Heq.
  apply app_inj_1 in Heq as [Hd Hb]; [|by destruct d, d'].
  split; [by destruct d, d'|].
  rewrite <- (counter_roundtrip v []), <- (counter_roundtrip v' []) by done. by rewrite Hb.
Qed.

Lemma readCounter_range f : is_bytes f -> 0 <= readCounter f <= MAX_COUNTER.
Proof.
  intros Hf. unfold readCounter.
  pose proof (be_value_range (take COUNTER_BYTES f) (Forall_take _ _ _ Hf)) as Hr.
  assert (256 ^ Z.of_nat (length (take COUNTER_BYTES f)) <= 256 ^ 8) as Hle.
  { apply Z.pow_le_mono_r; [lia|]. rewrite length_take. unfold COUNTER_BYTES. lia. }
  change MAX_COUNTER with (256 ^ 8 - 1). lia.
Qed.

(** ** A stream, end to end *)

#[local] Arguments be_bytes : simpl never.

Section Stream.
Context `{!Hkdf, !HkdfLaws, !Aead, !AeadLaws}.

Lemma nonceFor_length d v : length (nonceFor d v) = NONCE_BYTES.
Proof. unfold nonceFor. rewrite length_app, be_bytes_length. by destruct d. Qed.

Lemma frame_key_ok key salt dir purpose sub :
  frame_key key salt dir purpose = Ok sub ->
  sub = derive key salt (SUBKEY_LABEL purpose dir) /\ length sub = 32%nat /\
  length salt = SALT_BYTES.
Proof.
  unfold frame_key, deriveSubkey, importKey.
  destruct (length key =? KEY_BYTES)%nat; simpl; [|done].
  destruct (length salt =? SUBKEY_SALT_BYTES)%nat eqn:Hs; simpl; [|done].
  unfold derive. rewrite hkdf_length. simpl. intros [= <-].
  split; [done|]. split; [by rewrite hkdf_length|by apply Nat.eqb_eq in Hs].
Qed.

Lemma newSealer_ok key dir purpose salt s :
  newSealer key dir purpose salt = Ok s ->
  frame_key key salt dir purpose = Ok (sl_key s) /\ sl_direction s = dir /\
  sl_salt s = salt /\ sl_counter s = 0.
Proof.
  unfold newSealer. destruct (frame_key key salt dir purpose); simpl; [|done].
  by intros [= <-].
Qed.

(** A sealed body opens at its counter, if that is news to the opener. *)
Lemma open_sealed sub dir c p h :
  0 <= c <= MAX_COUNTER -> (forall n, h = Some n -> n < c) ->
  open (be_bytes COUNTER_BYTES c ++ aead_encrypt sub (nonceFor dir c) [] p) (mkOpener sub dir h)
  = (Ok p, mkOpener sub dir (Some c)).
Proof.
  intros Hc Hh. unfold open. set (body := be_bytes COUNTER_BYTES c ++ _).
  assert ((length body <=? COUNTER_BYTES)%nat = false) as ->.
  { apply Nat.leb_gt. unfold body. rewrite length_app, be_bytes_length.
    pose proof (aead_tag sub (nonceFor dir c) [] p). lia. }
  assert (readCounter body = c) as Hr by by apply counter_roundtrip. rewrite Hr.
  cbn [op_key op_direction op_highest].
  assert (drop COUNTER_BYTES body = aead_encrypt sub (nonceFor dir c) [] p) as ->.
  { unfold body. rewrite drop_app_length'; [done|by rewrite be_bytes_length]. }
  rewrite aead_roundtrip. destruct h as [n|]; [|done].
  specialize (Hh n eq_refl). by rewrite (proj2 (Z.leb_gt _ _)).
Qed.

Definition frame_body (s : FrameSealer) (p : bytes) : bytes :=
  be_bytes COUNTER_BYTES (sl_counter s)
  ++ aead_encrypt (sl_key s) (nonceFor (sl_direction s) (sl_counter s)) [] p.

Definition next_sealer (s : FrameSealer) : FrameSealer :=
  mkSealer (sl_key s) (sl_direction s) (sl_salt s) (sl_counter s + 1).

Lemma seal_all_cons p ps s fs :
  seal_all (p :: ps) s = Ok fs ->
  sl_counter s <= MAX_COUNTER /\
  exists fs', seal_all ps (next_sealer s) = Ok fs' /\
    fs = ((if sl_counter s =? 0 then sl_salt s else []) ++ frame_body s p) :: fs'.
Proof.
  cbn [seal_all]. unfold seal. destruct (MAX_COUNTER <? sl_counter s) eqn:Hm; [done|].
  change (mkSealer (sl_key s) (sl_direction s) (sl_salt s) (sl_counter s + 1)) with (next_sealer s).
  fold (frame_body s p). intros Hfs. split; [lia|].
  destruct (seal_all ps (next_sealer s)) as [fs'|] eqn:Hr; [|done].
  exists fs'. split; [done|]. by injection Hfs as <-.
Qed.

(** The later frames of an honest stream. *)
Lemma receive_rest key sub dir salt c ps fs :
  1 <= c -> seal_all ps (mkSealer sub dir salt c) = Ok fs ->
  receive key dir (Some (mkOpener sub dir (Some (c - 1)))) fs = ps.
Proof.
  revert c fs. induction ps as [|p ps IH]; intros c fs Hc Hfs; [by injection Hfs as <-|].
  apply seal_all_cons in Hfs as (Hm & fs' & Hr & ->). cbn [sl_counter] in Hm |- *.
  rewrite (proj2 (Z.eqb_neq _ _)), app_nil_l by lia.
  assert (open (frame_body (mkSealer sub dir salt c) p) (mkOpener sub dir (Some (c - 1)))
    = (Ok p, mkOpener sub dir (Some c))) as Ho.
  { apply open_sealed; [lia|]. intros n [= <-]. lia. }
  cbn [receive]. rewrite Ho. f_equal.
  replace c with (c + 1 - 1) at 1 by lia. apply IH; [lia|done].
Qed.

Lemma bind_sealed key dir purpose salt sub p :
  frame_key key salt dir purpose = Ok sub ->
  bind key dir (salt ++ be_bytes COUNTER_BYTES 0 ++ aead_encrypt sub (nonceFor dir 0) [] p) purpose
  = Ok (mkOpener sub dir (Some 0), p).
Proof.
  intros Hk. destruct (frame_key_ok _ _ _ _ _ Hk) as (_ & _ & Hsalt).
  unfold bind. set (body := be_bytes COUNTER_BYTES 0 ++ _).
  assert ((length (salt ++ body) <=? SALT_BYTES + COUNTER_BYTES)%nat = false) as ->.
  { apply Nat.leb_gt. unfold body. rewrite !length_app, be_bytes_length, Hsalt.
    pose proof (aead_tag sub (nonceFor dir 0) [] p). lia. }
  rewrite take_app_length', drop_app_length' by done.
  assert (readCounter body = 0) as -> by (apply counter_roundtrip; done). simpl.
  unfold newOpener. rewrite Hk. simpl. unfold body.
  by rewrite open_sealed by done.
Qed.

Lemma receive_honest key dir salt ps fs s :
  newSealer key dir frame salt = Ok s -> seal_all ps s = Ok fs ->
  receive key dir None fs = ps.
Proof.
  intros Hs Hfs. destruct (newSealer_ok _ _ _ _ _ Hs) as (Hk & Hd & Hsalt & Hc).
  destruct s as [sub d sa c]. cbn [sl_key sl_direction sl_salt sl_counter] in *. subst.
  destruct ps as [|p ps]; [by injection Hfs as <-|].
  apply seal_all_cons in Hfs as (_ & fs' & Hr & ->).
  set (f := _ ++ frame_body _ p).
  assert (bind key dir f frame = Ok (mkOpener sub dir (Some 0), p)) as Hb
    by exact (bind_sealed key dir frame salt sub p Hk).
  cbn [receive]. rewrite Hb.
  f_equal. by apply (receive_rest key sub dir salt 1 ps fs').
Qed.

(** ** What an adversary on the wire can do *)

(** [ct] under key [k] and nonce [iv] is what the sealer of [ps] made of [pt]. *)
Definition sealed_by (sub : bytes) (dir : Direction) (ps : list bytes) (k iv ct pt : bytes) : Prop :=
  k = sub /\ exists i, ps !! i = Some pt /\ iv = nonceFor dir (Z.of_nat i) /\
  ct = aead_encrypt sub iv [] pt.

(** The ciphertexts of the frames that arrive, the first behind its salt. *)
Definition arriving (gs : list bytes) : list bytes :=
  match gs with
  | [] => []
  | g :: rest => drop (SALT_BYTES + COUNTER_BYTES) g :: map (drop COUNTER_BYTES) rest
  end.

(** None of [cts] opens unless the sealer made it. *)
Definition unforged (sub : bytes) (dir : Direction) (ps cts : list bytes) : Prop :=
  forall k iv ct pt, ct ∈ cts -> length k = 32%nat -> length iv = NONCE_BYTES ->
  aead_decrypt k iv [] ct = Some pt -> sealed_by sub dir ps k iv ct pt.

(** An accepted frame carries what was sealed at its counter. *)
Lemma open_unforged sub dir ps f o o' pt :
  unforged sub dir ps [drop COUNTER_BYTES f] -> is_bytes f ->
  Z.of_nat (length ps) <= MAX_COUNTER + 1 -> length (op_key o) = 32%nat ->
  op_direction o = dir -> open f o = (Ok pt, o') ->
  op_key o = sub /\
  exists i, ps !! i = Some pt /\ o' = mkOpener sub dir (Some (Z.of_nat i)) /\
    readCounter f = Z.of_nat i /\ (forall n, op_highest o = Some n -> n < Z.of_nat i).
Proof.
  intros Hun Hf Hlen Hk32 Hdir Ho. unfold open in Ho.
  destruct (length f <=? COUNTER_BYTES)%nat; [done|].
  assert (forall n, op_highest o = Some n -> n < readCounter f) as Hn.
  { intros n Hn. rewrite Hn in Ho. destruct (readCounter f <=? n) eqn:Hc; [done|]. lia. }
  assert (exists opened, aead_decrypt (op_key o) (nonceFor (op_direction o) (readCounter f)) []
    (drop COUNTER_BYTES f) = Some opened /\ pt = opened /\
    o' = mkOpener (op_key o) (op_direction o) (Some (readCounter f))) as (opened & Hdec & -> & ->).
  { destruct (op_highest o) as [n|].
    - destruct (readCounter f <=? n); [done|].
      destruct (aead_decrypt _ _ _ _) as [x|]; [|done]. exists x. by simplify_eq.
    - destruct (aead_decrypt _ _ _ _) as [x|]; [|done]. exists x. by simplify_eq. }
  destruct (Hun _ _ _ _ ltac:(left) Hk32 (nonceFor_length _ _) Hdec) as (Hkey & i & Hi & Hiv & _).
  split; [done|]. exists i. split; [done|].
  assert (readCounter f = Z.of_nat i) as Hci.
  { apply lookup_lt_Some in Hi.
    eapply nonceFor_inj; [by apply readCounter_range| |exact Hiv]. lia. }
  split; [|split; [done|by rewrite <- Hci]]. by rewrite Hci, Hkey, Hdir.
Qed.

Lemma receive_unforged key dir sub ps gs n :
  unforged sub dir ps (map (drop COUNTER_BYTES) gs) -> Forall is_bytes gs ->
  Z.of_nat (length ps) <= MAX_COUNTER + 1 -> length sub = 32%nat ->
  exists idx, StronglySorted lt idx /\ Forall (fun i => (n < i)%nat /\ is_Some (ps !! i)) idx /\
  receive key dir (Some (mkOpener sub dir (Some (Z.of_nat n)))) gs = omap (fun i => ps !! i) idx.
Proof.
  revert n. induction gs as [|g gs IH]; intros n Hun Hgs Hlen H32;
    [exists []; repeat constructor|].
  apply Forall_cons in Hgs as [Hg Hgs]. cbn [receive].
  destruct (open g (mkOpener sub dir (Some (Z.of_nat n)))) as [[pt|e] o'] eqn:Ho;
    [|exists []; repeat constructor].
  destruct (open_unforged sub dir ps g (mkOpener sub dir (Some (Z.of_nat n))) o' pt) as (_ & i & Hi & -> & Hc & Hgt); try done.
  { intros k iv ct p ->%list_elem_of_singleton. apply Hun. left. }
  specialize (Hgt (Z.of_nat n) eq_refl).
  destruct (IH i) as (idx & Hs & Hall & Hr); [|done..|].
  { intros k iv ct p Hct. apply Hun. by right. }
  exists (i :: idx). split; [|split].
  - constructor; [done|]. eapply Forall_impl; [exact Hall|]. by intros ? [? _].
  - constructor; [split; [lia|by eexists]|]. eapply Forall_impl; [exact Hall|].
    intros j [Hj ?]. split; [lia|done].
  - cbn [omap list_omap]. by rewrite Hi, Hr.
Qed.

(** The first frame, bound under whatever salt it brings. *)
Lemma bind_unforged key dir salt s ps g gs o pt :
  newSealer key dir frame salt = Ok s -> Z.of_nat (length ps) <= MAX_COUNTER + 1 ->
  is_bytes g -> unforged (sl_key s) dir ps (arriving (g :: gs)) ->
  bind key dir g frame = Ok (o, pt) ->
  o = mkOpener (sl_key s) dir (Some 0) /\ ps !! 0%nat = Some pt.
Proof.
  intros Hs Hlen Hg Hun Hb. unfold bind in Hb.
  destruct (length g <=? SALT_BYTES + COUNTER_BYTES)%nat; [done|].
  destruct (readCounter (drop SALT_BYTES g) =? 0) eqn:Hc; [|done]. cbn [negb] in Hb.
  unfold newOpener in Hb.
  destruct (frame_key key (take SALT_BYTES g) dir frame) as [sub'|] eqn:Hk'; [|done].
  cbn [mbind result_bind] in Hb.
  destruct (open (drop SALT_BYTES g) (mkOpener sub' dir None)) as [[p|e] o'] eqn:Ho;
    [|done]. injection Hb as -> ->.
  destruct (frame_key_ok _ _ _ _ _ Hk') as (_ & H32' & _).
  destruct (open_unforged (sl_key s) dir ps (drop SALT_BYTES g) (mkOpener sub' dir None) o pt)
    as (Hkey & i & Hi & -> & Hci & _); try done.
  - intros k iv ct q ->%list_elem_of_singleton. rewrite drop_drop. apply Hun. left.
  - by apply Forall_drop.
  - assert (i = 0%nat) as -> by lia. done.
Qed.

End Stream.

(** ** A run *)

Module Demo.
Import Toy.
Definition key : bytes := replicate 32 7.
Definition salt : bytes := replicate 16 1.
Definition plain : list bytes := [[1]; [2; 3]; [4]].
Definition sealer : FrameSealer := mkSealer (derive key salt (SUBKEY_LABEL frame s2c)) s2c salt 0.
Definition sent : list bytes := match seal_all plain sealer with Ok fs => fs | Err _ => [] end.
(** The second frame is dropped and the third comes twice. *)
Definition disturbed : list bytes :=
  match sent with [f0; f1; f2] => [f0; f2; f2] | _ => [] end.

Lemma toy_unforged : unforged (sl_key sealer) s2c plain (arriving disturbed).
Proof.
  intros k iv ct pt Hct Hk Hiv Hdec. apply aead_opens in Hdec.
  assert (forall i p, plain !! i = Some p ->
    ct = aead_encrypt (sl_key sealer) (nonceFor s2c (Z.of_nat i)) [] p ->
    sealed_by (sl_key sealer) s2c plain k iv ct pt) as Hgoal.
  { intros i p Hi Hct'. rewrite Hct' in Hdec.
    apply aead_encrypt_inj in Hdec as (<- & <- & _ & <-). split; [done|]. by exists i. }
  assert (ct = aead_encrypt (sl_key sealer) (nonceFor s2c (Z.of_nat 0)) [] [1] \/
    ct = aead_encrypt (sl_key sealer) (nonceFor s2c (Z.of_nat 2)) [] [4]) as [->| ->].
  { assert (arriving disturbed =
      [aead_encrypt (sl_key sealer) (nonceFor s2c (Z.of_nat 0)) [] [1];
       aead_encrypt (sl_key sealer) (nonceFor s2c (Z.of_nat 2)) [] [4];
       aead_encrypt (sl_key sealer) (nonceFor s2c (Z.of_nat 2)) [] [4]]) as Harr
      by by vm_compute.
    rewrite Harr, !elem_of_cons in Hct. destruct Hct as [?|[?|[?|?%not_elem_of_nil]]]; auto. done. }
  - by apply (Hgoal 0%nat [1]).
  - by apply (Hgoal 2%nat [4]).
Qed.
End Demo.
