(* ===== verification/PairingCode.v ===== *)
(** * PairingCode: the digits a person types and the code a camera reads

    [packages/crypto/src/pairing-code.ts] and [local-code.ts], over the UTF-16
    code units of the typed text.  The random bytes a generator draws are
    arguments: the successive results of [randomBytes]. *)

From S2P Require Import Prelude Bytes.

Definition SLOT_DIGITS : nat := 3.
Definition SECRET_DIGITS : nat := 6.
Definition CODE_DIGITS : nat := SLOT_DIGITS + SECRET_DIGITS.
Definition SLOT_COUNT : Z := 10 ^ Z.of_nat SLOT_DIGITS.
Definition SECRET_COUNT : Z := 10 ^ Z.of_nat SECRET_DIGITS.
Definition QR_SLOT_DIGITS : nat := 4.
Definition QR_SLOT_COUNT : Z := 10 ^ Z.of_nat QR_SLOT_DIGITS.
Definition LONG_SECRET_BYTES : nat := 16.
Definition LONG_SECRET_CHARS : nat := 22.

Record TypedForm := mkTyped {
  tf_slotDigits : nat;
  tf_secretDigits : nat;
  tf_total : nat;
  tf_groups : list nat;
}.
Record LongForm := mkLong { lf_slotDigits : nat; lf_secretChars : nat; lf_total : nat }.

Definition TYPED_FORMS : list TypedForm := [mkTyped 3 6 9 [3; 3; 3]%nat].
Definition LONG_FORMS : list LongForm :=
  [mkLong QR_SLOT_DIGITS LONG_SECRET_CHARS (QR_SLOT_DIGITS + LONG_SECRET_CHARS)].

Definition totals : list nat := map tf_total TYPED_FORMS ++ map lf_total LONG_FORMS.

(** The assertions made at module load. *)
Definition forms_ok : bool :=
  bool_decide (NoDup totals)
  && forallb (fun f => (foldr Nat.add 0 (tf_groups f) =? tf_total f)%nat) TYPED_FORMS.

Definition SLOT_WIDTHS : list nat :=
  map tf_slotDigits TYPED_FORMS ++ map lf_slotDigits LONG_FORMS.
Definition SECRET_WIDTHS : list nat := map tf_secretDigits TYPED_FORMS.

(** [/^\d+$/]. *)
Definition all_digits (s : jstr) : bool := bool_decide (s <> []) && forallb is_digit s.

(** [input.replace(/[\s-]/g, "")]. *)
Definition strip (input : jstr) : jstr :=
  filter (fun c => (is_space c || (c =? 45)) = false) input.

Inductive CodeError := InvalidSlot | InvalidSecret | InvalidCode | BadBound | OutOfBytes.

(** ** Generators *)

(** [Math.ceil(Math.log2(bound) / 8)]. *)
Definition byte_width (bound : Z) : nat := Z.to_nat ((Z.log2_up bound + 7) / 8).

Definition big_endian (bs : bytes) : Z := foldl (fun v b => v * 256 + b) 0 bs.

(** The rejection loop over the draws of [width] bytes. *)
Fixpoint uniform_loop (bound limit : Z) (draws : list bytes) : result CodeError Z :=
  match draws with
  | [] => Err OutOfBytes
  | bs :: draws =>
      let value := big_endian bs in
      if value <? limit then Ok (value mod bound) else uniform_loop bound limit draws
  end.

Definition accept_limit (bound : Z) : Z :=
  2 ^ (Z.of_nat (byte_width bound) * 8) / bound * bound.

Definition uniformBelow (bound : Z) (draws : list bytes) : result CodeError Z :=
  if (bound <=? 0) || (2 ^ 32 <? bound) then Err BadBound
  else uniform_loop bound (accept_limit bound) draws.

(** [String(value).padStart(digits, "0")] for [0 <= value < 10 ^ digits]. *)
Fixpoint pad (value : Z) (digits : nat) : jstr :=
  match digits with
  | O => []
  | S digits => pad (value / 10) digits ++ [48 + value mod 10]
  end.

Definition generateSecret (draws : list bytes) : result CodeError jstr :=
  v ← uniformBelow SECRET_COUNT draws; Ok (pad v SECRET_DIGITS).
Definition generateSlot (draws : list bytes) : result CodeError jstr :=
  v ← uniformBelow SLOT_COUNT draws; Ok (pad v SLOT_DIGITS).
Definition generateQrSlot (draws : list bytes) : result CodeError jstr :=
  v ← uniformBelow QR_SLOT_COUNT draws; Ok (pad v QR_SLOT_DIGITS).
Definition generateLongSecret (random : bytes) : jstr := bytesToBase64Url random.

(** ** Validity and formatting *)

Definition isValidLongSecret (secret : jstr) : bool :=
  (length secret =? LONG_SECRET_CHARS)%nat && forallb is_b64url secret.
Definition isValidSlot (slot : jstr) : bool :=
  all_digits slot && bool_decide (length slot ∈ SLOT_WIDTHS).
Definition isValidSecret (secret : jstr) : bool :=
  all_digits secret && bool_decide (length secret ∈ SECRET_WIDTHS).

Definition formatCode (slot secret : jstr) : result CodeError jstr :=
  if negb (isValidSlot slot) then Err InvalidSlot
  else if negb (isValidSecret secret) then Err InvalidSecret else Ok (slot ++ secret).

Definition formatLongCode (slot secret : jstr) : result CodeError jstr :=
  if negb (isValidSlot slot) then Err InvalidSlot
  else if negb (isValidLongSecret secret) then Err InvalidSecret else Ok (slot ++ secret).

Definition typed_form (n : nat) : option TypedForm :=
  snd <$> list_find (fun f => tf_total f = n) TYPED_FORMS.

(** Strip whatever the user typed down to a known typed length. *)
Definition normalizeCode (input : jstr) : option jstr :=
  let digits := strip input in
  if all_digits digits && bool_decide (is_Some (typed_form (length digits)))
  then Some digits else None.

Fixpoint split_groups (groups : list nat) (digits : jstr) : list jstr :=
  match groups with
  | [] => []
  | size :: groups => take size digits :: split_groups groups (drop size digits)
  end.

Definition codeGroups (code : jstr) : result CodeError (list jstr) :=
  match normalizeCode code with
  | None => Err InvalidCode
  | Some digits =>
      match typed_form (length digits) with
      | Some form => Ok (split_groups (tf_groups form) digits)
      | None => Err InvalidCode
      end
  end.

(** [groups.join(" ")]. *)
Fixpoint join_space (l : list jstr) : jstr :=
  match l with
  | [] => []
  | [g] => g
  | g :: l => g ++ 32 :: join_space l
  end.

Definition formatCodeForDisplay (code : jstr) : result CodeError jstr :=
  groups ← codeGroups code; Ok (join_space groups).

(** ** Parsing *)

Record ParsedCode := mkParsed { pc_slot : jstr; pc_secret : jstr }.

Definition parse_long (input : jstr) : option ParsedCode :=
  let trimmed := trim input in
  match snd <$> list_find (fun f => lf_total f = length trimmed) LONG_FORMS with
  | None => None
  | Some form =>
      let slot := take (lf_slotDigits form) trimmed in
      let secret := drop (lf_slotDigits form) trimmed in
      if negb (all_digits slot) || negb (isValidLongSecret secret) then None
      else Some (mkParsed slot secret)
  end.

Definition parseCode (input : jstr) : option ParsedCode :=
  match normalizeCode input with
  | Some digits =>
      form ← typed_form (length digits);
      Some (mkParsed (take (tf_slotDigits form) digits) (drop (tf_slotDigits form) digits))
  | None => parse_long input
  end.

(** ** The code of a machine without a broker *)

Definition LOCAL_CODE_DIGITS : nat := 6.

(** The inner loop over one draw: digits of the bytes below 250, until six. *)
Fixpoint local_digits (out : jstr) (bs : bytes) : jstr :=
  match bs with
  | [] => out
  | b :: bs =>
      if 250 <=? b then local_digits out bs
      else let out := out ++ [48 + b mod 10] in
           if (length out =? LOCAL_CODE_DIGITS)%nat then out else local_digits out bs
  end.

Fixpoint local_loop (out : jstr) (draws : list bytes) : result CodeError jstr :=
  if negb (length out <? LOCAL_CODE_DIGITS)%nat then Ok out
  else match draws with
       | [] => Err OutOfBytes
       | bs :: draws => local_loop (local_digits out bs) draws
       end.

Definition generateLocalCode (draws : list bytes) : result CodeError jstr := local_loop [] draws.

Definition normalizeLocalCode (input : jstr) : option jstr :=
  let digits := strip input in
  if (length digits =? LOCAL_CODE_DIGITS)%nat && forallb is_digit digits then Some digits else None.

Definition isLocalCode (input : jstr) : bool := bool_decide (is_Some (normalizeLocalCode input)).

Definition formatLocalCodeForDisplay (code : jstr) : result CodeError jstr :=
  match normalizeLocalCode code with
  | None => Err InvalidCode
  | Some digits => Ok (take 3 digits ++ 32 :: drop 3 digits)
  end.

(** ** Stripping, trimming and lengths *)

Lemma forallb_Forall {A} (p : A -> bool) l : forallb p l = true <-> Forall (fun x => p x = true) l.
Proof.
  induction l as [|x l IH]; simpl; [by split|]. by rewrite andb_true_iff, Forall_cons, IH.
Qed.

Definition digits (n : nat) (s : jstr) : Prop := length s = n /\ Forall (fun c => is_digit c = true) s.

(** [n] characters of the base64url alphabet. *)
Definition b64url_chars (n : nat) (s : jstr) : Prop :=
  length s = n /\ Forall (fun c => is_b64url c = true) s.

Definition kept (c : Z) : Prop := (is_space c || (c =? 45)) = false.

Lemma is_space_small c : 32 < c < 127 -> is_space c = false.
Proof.
  intros Hc. unfold is_space. apply orb_false_iff. split; [|lia].
  apply bool_decide_eq_false. rewrite !elem_of_cons, elem_of_nil. lia.
Qed.

Lemma digit_kept c : is_digit c = true -> kept c.
Proof.
  unfold is_digit, kept. intros Hc. rewrite is_space_small by lia. simpl. lia.
Qed.

Lemma b64url_not_space c : is_b64url c = true -> is_space c = false.
Proof. unfold is_b64url, is_digit. intros Hc. apply is_space_small. lia. Qed.

Lemma strip_kept s : Forall kept s -> strip s = s.
Proof.
  unfold strip, kept. induction 1 as [|c s Hc _ IH]; [done|].
  rewrite filter_cons_True by done. by rewrite IH.
Qed.

Lemma strip_app s t : strip (s ++ t) = strip s ++ strip t.
Proof. apply filter_app. Qed.

Lemma strip_space s t : strip (s ++ 32 :: t) = strip s ++ strip t.
Proof. by rewrite strip_app. Qed.

Lemma strip_digits n s : digits n s -> strip s = s.
Proof. intros [_ Hs]. apply strip_kept. eapply Forall_impl; [done|]. apply digit_kept. Qed.

Lemma all_digits_iff s : all_digits s = true <-> s <> [] /\ Forall (fun c => is_digit c = true) s.
Proof.
  unfold all_digits. rewrite andb_true_iff, bool_decide_eq_true. apply and_iff_compat_l.
  apply forallb_Forall.
Qed.

Lemma digits_all n s : (0 < n)%nat -> digits n s -> all_digits s = true.
Proof. intros Hn [Hl Hs]. apply all_digits_iff. split; [|done]. by intros ->; simpl in Hl; lia. Qed.

Lemma digits_app n m s t : digits n s -> digits m t -> digits (n + m) (s ++ t).
Proof.
  intros [Hs Fs] [Ht Ft]. split; [by rewrite length_app, Hs, Ht|by apply Forall_app].
Qed.

Lemma isValidSlot_iff s : isValidSlot s = true <-> digits 3 s \/ digits 4 s.
Proof.
  unfold isValidSlot, digits. rewrite andb_true_iff, all_digits_iff, bool_decide_eq_true.
  change SLOT_WIDTHS with [3; 4]%nat. rewrite !elem_of_cons, elem_of_nil.
  split; [naive_solver|]. intros [[Hl Hs]|[Hl Hs]]; repeat split; try done; try lia;
    by intros ->.
Qed.

Lemma isValidSecret_iff s : isValidSecret s = true <-> digits 6 s.
Proof.
  unfold isValidSecret, digits. rewrite andb_true_iff, all_digits_iff, bool_decide_eq_true.
  change SECRET_WIDTHS with [6]%nat. rewrite list_elem_of_singleton.
  split; [naive_solver|]. intros [Hl Hs]. repeat split; try done. by intros ->.
Qed.

Lemma isValidLongSecret_iff s : isValidLongSecret s = true <-> b64url_chars LONG_SECRET_CHARS s.
Proof.
  unfold isValidLongSecret, b64url_chars. rewrite andb_true_iff, Nat.eqb_eq.
  apply and_iff_compat_l.
  apply forallb_Forall.
Qed.

(** ** Reading codes back *)

Lemma typed_form_9 n : typed_form n = if (n =? 9)%nat then Some (mkTyped 3 6 9 [3; 3; 3]%nat) else None.
Proof.
  unfold typed_form, TYPED_FORMS. simpl. destruct (n =? 9)%nat eqn:Hn.
  - apply Nat.eqb_eq in Hn. by subst.
  - apply Nat.eqb_neq in Hn. by rewrite decide_False by congruence.
Qed.

(** The inputs read as typed: nine digits among separators. *)
Definition typed_reading (input : jstr) : Prop := digits CODE_DIGITS (strip input).

Lemma normalizeCode_iff input d :
  normalizeCode input = Some d <-> typed_reading input /\ d = strip input.
Proof.
  unfold normalizeCode, typed_reading. rewrite typed_form_9.
  destruct (length (strip input) =? 9)%nat eqn:Hl.
  - apply Nat.eqb_eq in Hl. rewrite bool_decide_true, andb_true_r by done.
    destruct (all_digits (strip input)) eqn:Ha.
    + apply all_digits_iff in Ha as [_ Ha].
      split; [intros [= <-]; by repeat split|by intros [_ ->]].
    + split; [done|]. intros [Hd _]. by rewrite (digits_all CODE_DIGITS _ (Nat.lt_0_succ 8) Hd) in Ha.
  - apply Nat.eqb_neq in Hl. rewrite bool_decide_false, andb_false_r by apply is_Some_None.
    split; [done|]. by intros [[Hd _] _].
Qed.

Lemma parseCode_typed input :
  typed_reading input ->
  parseCode input = Some (mkParsed (take 3 (strip input)) (drop 3 (strip input))).
Proof.
  intros Ht. unfold parseCode. assert (normalizeCode input = Some (strip input)) as ->
    by by apply normalizeCode_iff.
  rewrite typed_form_9. by rewrite (proj1 Ht).
Qed.

Lemma parseCode_long input : ~ typed_reading input -> parseCode input = parse_long input.
Proof.
  intros Ht. unfold parseCode. destruct (normalizeCode input) eqn:Hn; [|done].
  by apply normalizeCode_iff in Hn as [? _].
Qed.

Lemma trim_none s : Forall (fun c => is_space c = false) s -> trim s = s.
Proof.
  intros Hs. unfold trim.
  assert (drop_while is_space s = s) as ->.
  { destruct s as [|c s]; [done|]. apply Forall_inv in Hs. simpl. by rewrite Hs. }
  unfold strip_end. assert (drop_while is_space (reverse s) = reverse s) as ->.
  { destruct (reverse s) as [|c r] eqn:Hr; [done|]. simpl.
    assert (c ∈ s) as Hc by (rewrite <- elem_of_reverse, Hr; left).
    rewrite Forall_forall in Hs. by rewrite Hs. }
  apply reverse_involutive.
Qed.

Lemma digits_b64url n s : digits n s -> Forall (fun c => is_b64url c = true) s.
Proof.
  intros [_ Hs]. eapply Forall_impl; [done|]. intros c Hc. simpl in *. unfold is_b64url.
  by rewrite Hc, !orb_true_r.
Qed.

Lemma parse_long_code slot secret :
  digits QR_SLOT_DIGITS slot -> b64url_chars LONG_SECRET_CHARS secret ->
  parse_long (slot ++ secret) = Some (mkParsed slot secret).
Proof.
  intros Hslot Hsec. unfold parse_long. rewrite trim_none.
  - assert (length (slot ++ secret) = 26)%nat as Hl
      by (rewrite length_app, (proj1 Hslot), (proj1 Hsec); done).
    rewrite Hl. simpl. rewrite take_app_length', drop_app_length' by (symmetry; apply Hslot).
    rewrite (digits_all QR_SLOT_DIGITS slot (Nat.lt_0_succ 3) Hslot).
    by rewrite (proj2 (isValidLongSecret_iff _)).
  - apply Forall_app. split; (eapply Forall_impl; [|intros c; apply b64url_not_space]).
    + by eapply digits_b64url.
    + apply Hsec.
Qed.

(** A typed code as it was made. *)
Lemma parseCode_digits slot secret :
  digits 3 slot -> digits 6 secret -> parseCode (slot ++ secret) = Some (mkParsed slot secret).
Proof.
  intros Hs Hx. assert (digits CODE_DIGITS (slot ++ secret)) as Hd by by apply (digits_app 3 6).
  pose proof (strip_digits _ _ Hd) as Hstrip.
  rewrite parseCode_typed by (unfold typed_reading; by rewrite Hstrip).
  rewrite Hstrip. by rewrite take_app_length', drop_app_length' by (symmetry; apply Hs).
Qed.

Lemma codeGroups_typed slot secret :
  digits 3 slot -> digits 6 secret ->
  codeGroups (slot ++ secret) = Ok [slot; take 3 secret; drop 3 secret].
Proof.
  intros Hs Hx. assert (digits CODE_DIGITS (slot ++ secret)) as Hd by by apply (digits_app 3 6).
  assert (strip (slot ++ secret) = slot ++ secret) as Hstrip by by eapply strip_digits.
  unfold codeGroups. rewrite (proj2 (normalizeCode_iff _ (slot ++ secret)))
    by (unfold typed_reading; by rewrite Hstrip).
  rewrite typed_form_9, (proj1 Hd). simpl.
  rewrite !(take_app_length' slot), !(drop_app_length' slot) by (symmetry; apply Hs).
  do 4 f_equal. rewrite take_ge; [done|]. rewrite length_drop, (proj1 Hx). lia.
Qed.

(** A typed code reads back as the slot and secret it was made of, as it
    is printed, as it is grouped on screen, and however else separators are
    put into it; a scanned code reads back exactly unless it happens to hold
    nine digits and nothing else but dashes. *)
Theorem code_roundtrip :
  (forall slot secret, digits 3 slot -> digits 6 secret ->
    exists code shown, formatCode slot secret = Ok code /\
      formatCodeForDisplay code = Ok shown /\ strip shown = code /\
      forall typed, strip typed = code -> parseCode typed = Some (mkParsed slot secret)) /\
  (forall slot secret, digits QR_SLOT_DIGITS slot -> b64url_chars LONG_SECRET_CHARS secret ->
    exists code, formatLongCode slot secret = Ok code /\
      (parseCode code = Some (mkParsed slot secret) <-> ~ digits CODE_DIGITS (strip code))).
Proof.
  split; intros slot secret Hs Hx; exists (slot ++ secret).
  - assert (digits CODE_DIGITS (slot ++ secret)) as Hd by by apply (digits_app 3 6).
    exists (slot ++ 32 :: take 3 secret ++ 32 :: drop 3 secret).
    unfold formatCode, formatCodeForDisplay.
    rewrite (proj2 (isValidSlot_iff _) (or_introl Hs)), (proj2 (isValidSecret_iff _) Hx).
    rewrite codeGroups_typed by done. repeat split; try done.
    + rewrite !strip_space, <- strip_app, take_drop, <- strip_app. by eapply strip_digits.
    + intros typed Ht. rewrite parseCode_typed by (unfold typed_reading; by rewrite Ht).
      rewrite Ht. by rewrite take_app_length', drop_app_length' by (symmetry; apply Hs).
  - unfold formatLongCode.
    rewrite (proj2 (isValidSlot_iff _) (or_intror Hs)), (proj2 (isValidLongSecret_iff _) Hx).
    split; [done|]. split.
    + intros Hp Ht. rewrite (parseCode_typed _ Ht) in Hp. injection Hp as Hslot _.
      assert (length (take 3 (strip (slot ++ secret))) = 4%nat) as Hl by (rewrite Hslot; apply Hs).
      rewrite length_take in Hl. lia.
    + intros Ht. rewrite parseCode_long by done. by apply parse_long_code.
Qed.

(** A scanned code that is read as a typed one. *)
Lemma long_code_read_as_typed :
  let code := js "1234-----------------56789" in
  formatLongCode (js "1234") (js "-----------------56789") = Ok code /\
  parseCode code = Some (mkParsed (js "123") (js "456789")).
Proof. by vm_compute. Qed.

(** [formatCode] accepts a four-digit slot, and [parseCode] rejects the code. *)
Lemma formatCode_long_slot :
  formatCode (js "1234") (js "567890") = Ok (js "1234567890") /\
  parseCode (js "1234567890") = None.
Proof. by vm_compute. Qed.

(** ** The generators *)

(** Every string of [n] bytes, in order. *)
Fixpoint all_draws (n : nat) : list bytes :=
  match n with
  | O => [[]]
  | S n => flat_map (fun bs => map (fun b => bs ++ [Z.of_nat b]) (seq 0 256)) (all_draws n)
  end.

Lemma big_endian_snoc bs b : big_endian (bs ++ [b]) = big_endian bs * 256 + b.
Proof. unfold big_endian. by rewrite foldl_app. Qed.

Definition zseq (n : nat) : list Z := map Z.of_nat (seq 0 n).

Lemma shift_block n k a :
  map (fun b => Z.of_nat n * 256 + Z.of_nat b) (seq a k) = map Z.of_nat (seq (a + n * 256) k).
Proof.
  revert a. induction k as [|k IH]; intros a; [done|]. cbn [seq map]. f_equal; [lia|].
  by rewrite (IH (S a)).
Qed.

Lemma zseq_blocks n :
  flat_map (fun v => map (fun b => v * 256 + Z.of_nat b) (seq 0 256)) (zseq n) = zseq (n * 256).
Proof.
  unfold zseq. induction n as [|n IH]; [done|].
  rewrite (seq_S n), map_app, flat_map_app, IH. cbn [flat_map map]. rewrite app_nil_r.
  replace (S n * 256)%nat with (n * 256 + 256)%nat by lia.
  rewrite seq_app, map_app. f_equal.
  apply (shift_block n 256 0).
Qed.

(** A draw is a number below [256 ^ n], each of them once. *)
Lemma all_draws_values n : map big_endian (all_draws n) = zseq (256 ^ n).
Proof.
  induction n as [|n IH]; [done|]. rewrite Nat.pow_succ_r', Nat.mul_comm, <- zseq_blocks, <- IH.
  cbn [all_draws]. generalize (all_draws n). intros l. induction l as [|bs l IHl]; [done|].
  cbn [flat_map map]. rewrite map_app, IHl. f_equal. rewrite map_map. apply map_ext. intros b.
  apply big_endian_snoc.
Qed.

(** [count p n]: how many of the first [n] numbers satisfy [p]. *)
Definition count (p : Z -> bool) (n : nat) : nat := length (List.filter p (zseq n)).

Lemma count_S p n : count p (S n) = (count p n + if p (Z.of_nat n) then 1 else 0)%nat.
Proof.
  unfold count, zseq. rewrite seq_S, map_app, List.filter_app, length_app. simpl.
  by destruct (p (Z.of_nat n)).
Qed.

Lemma count_add p n m :
  count p (n + m) = (count p n + count (fun v => p (Z.of_nat n + v)%Z) m)%nat.
Proof.
  induction m as [|m IH]; [rewrite Nat.add_0_r; unfold count at 3; simpl; lia|].
  rewrite Nat.add_succ_r, !count_S, IH, Nat2Z.inj_add. lia.
Qed.

Lemma counted_ext p q n :
  (forall v, 0 <= v < Z.of_nat n -> p v = q v) -> count p n = count q n.
Proof.
  induction n as [|n IH]; intros Hpq; [done|]. rewrite !count_S, IH by (intros; apply Hpq; lia).
  by rewrite Hpq by lia.
Qed.

Lemma counted_none n : count (fun _ => false) n = 0%nat.
Proof. induction n as [|n IH]; [done|]. rewrite count_S, IH. done. Qed.

Lemma count_one r n : 0 <= r < Z.of_nat n -> count (fun v => v =? r) n = 1%nat.
Proof.
  induction n as [|n IH]; intros Hr; [lia|]. rewrite count_S.
  destruct (Z.of_nat n =? r) eqn:Hn; [|rewrite IH; lia].
  rewrite (counted_ext _ (fun _ => false)), counted_none; [done|]. intros v Hv. lia.
Qed.

Lemma count_residue b r k :
  0 <= r < Z.of_nat b -> count (fun v => v mod Z.of_nat b =? r) (k * b) = k.
Proof.
  intros Hr. induction k as [|k IH]; [done|].
  replace (S k * b)%nat with (k * b + b)%nat by lia. rewrite count_add, IH.
  rewrite (counted_ext _ (fun v => v =? r)), count_one by done || (intros v Hv;
    rewrite Nat2Z.inj_mul, Z.add_comm, Z.mod_add, Z.mod_small by lia; done). lia.
Qed.

(** Below a multiple of the bound every residue comes up equally often. *)
Lemma count_accepted b r n :
  0 <= r < Z.of_nat b ->
  count (fun v => (v <? Z.of_nat (n / b * b)) && (v mod Z.of_nat b =? r)) n = (n / b)%nat.
Proof.
  intros Hr. pose proof (Nat.Div0.div_mod n b) as Hn.
  set (k := (n / b)%nat) in *. replace n with (k * b + (n - k * b))%nat at 1 by lia.
  rewrite count_add, (counted_ext _ (fun v => v mod Z.of_nat b =? r) (k * b)), count_residue
    by done || (intros v Hv; by rewrite (proj2 (Z.ltb_lt _ _)) by lia).
  rewrite (counted_ext _ (fun _ => false)), counted_none; [lia|].
  intros v Hv. by rewrite (proj2 (Z.ltb_ge _ _)) by lia.
Qed.

#[export] Instance CodeError_eq_dec : EqDecision CodeError.
Proof. solve_decision. Defined.

Lemma span_nat bound : 2 ^ (Z.of_nat (byte_width bound) * 8) = Z.of_nat (256 ^ byte_width bound).
Proof. rewrite Nat2Z.inj_pow. change (Z.of_nat 256) with (2 ^ 8). rewrite <- Z.pow_mul_r by lia. f_equal; lia. Qed.

(** A draw covers the bound. *)
Lemma bound_le_span bound : 0 < bound -> bound <= 2 ^ (Z.of_nat (byte_width bound) * 8).
Proof.
  intros Hb. pose proof (Z.log2_up_nonneg bound). unfold byte_width. rewrite Z2Nat.id by dlia.
  destruct (decide (bound = 1)) as [->|]; [done|].
  trans (2 ^ Z.log2_up bound); [apply Z.log2_up_spec; lia|]. apply Z.pow_le_mono_r; dlia.
Qed.

Lemma uniformBelow_loop bound draws :
  0 < bound <= 2 ^ 32 ->
  uniformBelow bound draws = uniform_loop bound (accept_limit bound) draws.
Proof.
  intros Hb. unfold uniformBelow. by assert ((bound <=? 0) || (2 ^ 32 <? bound) = false) as -> by lia.
Qed.

(** Rejection sampling is unbiased: of all the draws [uniformBelow] can
    make, exactly as many yield one number below the bound as any other, and
    fewer than half are rejected. *)
Theorem uniformBelow_fair bound r :
  0 < bound <= 2 ^ 32 -> 0 <= r < bound ->
  let draws := all_draws (byte_width bound) in
  let yielding v := List.filter (fun bs => bool_decide (uniformBelow bound [bs] = Ok v)) draws in
  Z.of_nat (length (yielding r)) = Z.of_nat (length draws) / bound /\
  Z.of_nat (length draws) < 2 * (bound * Z.of_nat (length (yielding r))).
Proof.
  intros Hb Hr draws yielding. set (n := (256 ^ byte_width bound)%nat).
  assert (length draws = n) as Hlen.
  { rewrite <- (length_map big_endian). unfold draws. rewrite all_draws_values.
    unfold zseq. by rewrite length_map, length_seq. }
  assert (length (yielding r) = count (fun v => (v <? accept_limit bound) && (v mod bound =? r)) n)
    as Hcount.
  { unfold count, n. rewrite <- all_draws_values. fold draws. unfold yielding.
    generalize draws. intros l. induction l as [|bs l IH]; [done|]. cbn [map List.filter].
    assert (uniformBelow bound [bs] = uniform_loop bound (accept_limit bound) [bs]) as ->
      by by apply uniformBelow_loop.
    cbn [uniform_loop]. destruct (big_endian bs <? accept_limit bound); cbn [andb].
    - destruct (big_endian bs mod bound =? r) eqn:He.
      + apply Z.eqb_eq in He. rewrite bool_decide_true by by rewrite He. simpl. by rewrite IH.
      + apply Z.eqb_neq in He. rewrite bool_decide_false by congruence. done.
    - by rewrite bool_decide_false. }
  pose proof (bound_le_span bound ltac:(lia)) as Hspan.
  rewrite Hlen, Hcount. unfold accept_limit. rewrite span_nat in *. fold n in Hspan |- *.
  replace bound with (Z.of_nat (Z.to_nat bound)) in * by lia.
  rewrite <- Nat2Z.inj_div, <- Nat2Z.inj_mul, count_accepted by lia. split; [done|].
  rewrite Nat2Z.inj_div. set (b := Z.of_nat (Z.to_nat bound)) in *.
  assert (1 <= Z.of_nat n / b) by (apply Z.div_le_lower_bound; lia).
  pose proof (Z.div_mod (Z.of_nat n) b ltac:(lia)). pose proof (Z.mod_pos_bound (Z.of_nat n) b ltac:(lia)).
  nia.
Qed.

Lemma uniformBelow_fair_witness :
  let draws := all_draws (byte_width 256) in
  let yielding v := List.filter (fun bs => bool_decide (uniformBelow 256 [bs] = Ok v)) draws in
  Z.of_nat (length (yielding 7)) = 1 /\ 256 < 2 * (256 * Z.of_nat (length (yielding 7))).
Proof. apply (uniformBelow_fair 256 7); lia. Defined.

Lemma uniform_loop_range bound limit draws v :
  0 < bound -> uniform_loop bound limit draws = Ok v -> 0 <= v < bound.
Proof.
  intros Hb. induction draws as [|bs draws IH]; [done|]. cbn [uniform_loop].
  destruct (big_endian bs <? limit); [|done]. intros [= <-]. by apply Z.mod_pos_bound.
Qed.

Lemma pad_digits v n : 0 <= v -> digits n (pad v n).
Proof.
  revert v. induction n as [|n IH]; intros v Hv; [by split|]. cbn [pad].
  rewrite <- Nat.add_1_r. apply digits_app; [apply IH; dlia|]. split; [done|].
  constructor; [|done]. unfold is_digit. dlia.
Qed.

Lemma drawn_digits bound n draws s :
  0 < bound -> (v ← uniformBelow bound draws; Ok (pad v n)) = Ok s -> digits n s.
Proof.
  unfold uniformBelow. intros Hb. destruct ((bound <=? 0) || (2 ^ 32 <? bound)); [done|].
  destruct (uniform_loop _ _ _) as [v|] eqn:Hv; [|done]. intros [= <-].
  destruct (uniform_loop_range _ _ _ _ Hb Hv). by apply pad_digits.
Qed.

(** Whatever a generator returns is what the formatters accept. *)
Lemma generateSlot_digits draws s : generateSlot draws = Ok s -> digits 3 s.
Proof. exact (drawn_digits SLOT_COUNT 3 draws s eq_refl). Qed.

Lemma generateSecret_digits draws s : generateSecret draws = Ok s -> digits 6 s.
Proof. exact (drawn_digits SECRET_COUNT 6 draws s eq_refl). Qed.

Lemma generateQrSlot_digits draws s : generateQrSlot draws = Ok s -> digits 4 s.
Proof. exact (drawn_digits QR_SLOT_COUNT 4 draws s eq_refl). Qed.

Lemma local_digits_ok bs out :
  (length out < 6)%nat -> Forall (fun c => is_digit c = true) out ->
  (length (local_digits out bs) <= 6)%nat /\
  Forall (fun c => is_digit c = true) (local_digits out bs).
Proof.
  revert out. induction bs as [|b bs IH]; intros out Hl Hd; cbn [local_digits];
    [split; [lia|done]|]. destruct (250 <=? b); [by apply IH|].
  assert (Forall (fun c => is_digit c = true) (out ++ [48 + b mod 10])) as Hd'.
  { apply Forall_app. split; [done|]. constructor; [|done]. unfold is_digit.
    pose proof (Z.mod_pos_bound b 10 eq_refl). lia. }
  unfold LOCAL_CODE_DIGITS. rewrite length_app. simpl length.
  destruct (length out + 1 =? 6)%nat eqn:H6.
  - apply Nat.eqb_eq in H6. split; [|done]. rewrite length_app. simpl. lia.
  - apply Nat.eqb_neq in H6. apply IH; [|done]. rewrite length_app. simpl. lia.
Qed.

(** A generated local code is six digits: read back by its own parser, and
    never mistaken for a broker code. *)
Lemma generateLocalCode_ok draws s :
  generateLocalCode draws = Ok s ->
  digits LOCAL_CODE_DIGITS s /\ normalizeLocalCode s = Some s /\ normalizeCode s = None.
Proof.
  intros Hs. assert (digits LOCAL_CODE_DIGITS s) as Hd.
  { unfold generateLocalCode in Hs.
    assert (length (@nil Z) <= 6)%nat as Hl by (simpl; lia).
    assert (Forall (fun c => is_digit c = true) []) as Hf by done.
    revert Hl Hf Hs. generalize (@nil Z). induction draws as [|bs draws IH]; intros out Hl Hf;
      simpl; destruct (length out <? LOCAL_CODE_DIGITS)%nat eqn:H6; simpl; try done.
    - intros [= <-]. apply Nat.ltb_ge in H6. unfold LOCAL_CODE_DIGITS in *. split; [lia|done].
    - apply Nat.ltb_lt in H6. destruct (local_digits_ok bs out H6 Hf). by apply IH.
    - intros [= <-]. apply Nat.ltb_ge in H6. unfold LOCAL_CODE_DIGITS in *. split; [lia|done]. }
  split; [done|]. pose proof (strip_digits _ _ Hd) as Hst.
  unfold normalizeLocalCode, normalizeCode. rewrite Hst, (proj1 Hd), typed_form_9. split.
  - by rewrite (proj2 (forallb_Forall _ _)) by apply Hd.
  - simpl. by rewrite andb_false_r.
Qed.

(** What the assertions at module load check holds. *)
Lemma forms_checked : forms_ok = true.
Proof. by vm_compute. Qed.

Lemma code_roundtrip_witness :
  exists code, formatLongCode (js "4920") (js "AZaz09_-AZaz09_-AZaz09") = Ok code /\
    (parseCode code = Some (mkParsed (js "4920") (js "AZaz09_-AZaz09_-AZaz09"))
     <-> ~ digits CODE_DIGITS (strip code)).
Proof.
  apply (proj2 code_roundtrip); (split; [done|]); repeat constructor.
Defined.
