(* ===== verification/Sas.v ===== *)
(** * Sas: short-authentication-string pairing

    [packages/crypto/src/sas.ts]: the commitment that fixes the browser's
    ephemeral key before the machine's is known, the transcript both ends
    hash, and the six digits a person compares. *)

From S2P Require Import Prelude Bytes Noble PairingCode.

Definition SAS_DIGITS : nat := 6.
Definition COMMIT_DOMAIN : bytes := utf8 "mtmux/v1 rtp-commit".
Definition SAS_LABEL : string := "mtmux/v1 sas".
Definition SAS_BYTES : nat := 8.

Record EphemeralKeyPair := mkEphemeral { eph_secret : bytes; eph_publicKey : bytes }.

(** What a commitment is the hash of. *)
Definition commitInput (publicKey : bytes) (requestId : string) : bytes :=
  COMMIT_DOMAIN ++ lvCat [publicKey; utf8 requestId].

Definition sasTranscript (requestId : string) (commitment browserPublicKey cliPublicKey : bytes)
    : bytes :=
  lvCat [utf8 requestId; commitment; browserPublicKey; cliPublicKey].

Inductive SasError := Degenerate.

(** [(value << 8n) | BigInt(byte)] over the bytes, from zero. *)
Definition sas_value (bs : bytes) : Z := foldl (fun value b => Z.lor (Z.shiftl value 8) b) 0 bs.

Section Sas.
Context `{!Sha256, !Hkdf, !X25519}.

(** [newEphemeralKey] on the secret it draws. *)
Definition newEphemeralKey (secret : bytes) : EphemeralKeyPair :=
  mkEphemeral secret (x_getPublicKey secret).

Definition sasCommitment (publicKey : bytes) (requestId : string) : bytes :=
  sha256 (commitInput publicKey requestId).

Definition verifySasCommitment (commitment publicKey : bytes) (requestId : string) : bool :=
  constantTimeEqual commitment (sasCommitment publicKey requestId).

Definition sasSharedSecret (ownSecret peerPublicKey : bytes) : result SasError bytes :=
  match x_getSharedSecret ownSecret peerPublicKey with
  | None => Err Degenerate
  | Some shared => if forallb (fun byte => byte =? 0) shared then Err Degenerate else Ok shared
  end.

Definition deriveSas (ikm transcript : bytes) : jstr :=
  pad (sas_value (hkdf ikm transcript (utf8 SAS_LABEL) SAS_BYTES) mod 10 ^ Z.of_nat SAS_DIGITS)
    SAS_DIGITS.
End Sas.

Definition formatSas (sas : jstr) : jstr := take 3 sas ++ 32 :: drop 3 sas.

(** ** Properties *)

Lemma commitInput_inj pk r pk' r' :
  short pk -> short (utf8 r) -> short pk' -> short (utf8 r') ->
  commitInput pk r = commitInput pk' r' -> pk = pk' /\ r = r'.
Proof.
  intros H1 H2 H3 H4 Heq. apply app_inv_head, lvCat_inj in Heq; [|by repeat constructor..].
  simplify_eq. split; [done|by apply utf8_injective].
Qed.

Lemma sas_digits `{!Hkdf} ikm transcript : digits SAS_DIGITS (deriveSas ikm transcript).
Proof. apply pad_digits. by apply Z.mod_pos_bound. Qed.

(** Grouping for reading aloud loses nothing. *)
Lemma formatSas_strip `{!Hkdf} ikm transcript :
  strip (formatSas (deriveSas ikm transcript)) = deriveSas ikm transcript.
Proof.
  unfold formatSas. rewrite strip_space, <- strip_app, take_drop.
  by eapply strip_digits, sas_digits.
Qed.
