(* ===== verification/Envelope.v ===== *)
(** * Envelope: encryption at rest behind the device lock

    [packages/crypto/src/envelope.ts]: records sealed under the master key
    with the slot they belong to as additional data, and the master key
    wrapped once per unlock factor.  The nonce a seal draws is an argument;
    whether WebCrypto is there ([subtleOrNull]) is one too.  [JSON.stringify]
    and [JSON.parse] are parameters. *)

From S2P Require Import Prelude Bytes Noble.

Definition LOCK_AAD_PREFIX : string := "mtmux/lock/v1".
Definition MASTER_KEY_BYTES : nat := 32.
Definition NONCE_BYTES : nat := 12.
Definition TAG_BYTES : nat := 16.
Definition FACTOR_SALT_BYTES : nat := 16.
Definition ITERATIONS_WEBCRYPTO : Z := 600000.
Definition ITERATIONS_FALLBACK : Z := 100000.

(** A sealed record as it comes off disk: its version is a claim. *)
Record SealedRecord := mkSealed { sr_v : option Z; sr_nonce : bytes; sr_ct : bytes }.

Inductive FactorKind := pin | passkey.

Record FactorRecord := mkFactor {
  fr_kind : FactorKind;
  fr_id : string;
  fr_salt : bytes;
  fr_iterations : Z;
  fr_wrapped : SealedRecord;
  fr_createdAt : Z;
  fr_label : option string;
}.

Inductive EnvelopeError :=
| NotAes256 (what : string)
| EmptyAad
| UnknownVersion (v : option Z)
| MalformedNonce
| Truncated
| FailedAuthentication
| NotJson
| BadField (what : string)
| EmptyPin
| BadIterations
| NoSalt
| WrongLength.

Definition assertKey (key : bytes) (what : string) : result EnvelopeError unit :=
  if negb (length key =? MASTER_KEY_BYTES)%nat then Err (NotAes256 what) else Ok tt.

Definition aadBytes (aad : string) : result EnvelopeError bytes :=
  if decide (aad = "") then Err EmptyAad else Ok (utf8 aad).

(** ** Field encoding *)

(** [value.includes("|")]. *)
Definition has_bar (value : string) : bool := bool_decide (124 ∈ utf8 value).

Definition field (value what : string) : result EnvelopeError string :=
  if bool_decide (value = "") || has_bar value then Err (BadField what) else Ok value.

Definition recordAad (slot id : string) : result EnvelopeError string :=
  s ← field slot "slot";
  i ← field id "id";
  Ok (LOCK_AAD_PREFIX +:+ "|rec|" +:+ s +:+ "|" +:+ i).

Definition wrapAad (kind id : string) : result EnvelopeError string :=
  k ← field kind "factor kind";
  i ← field id "factor id";
  Ok (LOCK_AAD_PREFIX +:+ "|wrap|" +:+ k +:+ "|" +:+ i).

(** The HKDF label of a factor's wrapping key. *)
Definition wrapInfo (kind id : string) : result EnvelopeError string :=
  k ← field kind "factor kind";
  i ← field id "factor id";
  Ok (LOCK_AAD_PREFIX +:+ " wrap|" +:+ k +:+ "|" +:+ i).

Section Envelope.
Context `{!Aead, !Hkdf, !Pbkdf2}.

(** [generateMasterKey] and the nonce of [seal] are what [randomBytes] drew. *)
Definition generateMasterKey (random : bytes) : bytes := random.

Definition seal (mk plaintext : bytes) (aad : string) (nonce : bytes)
    : result EnvelopeError SealedRecord :=
  _ ← assertKey mk "The master key";
  info ← aadBytes aad;
  Ok (mkSealed (Some 1) nonce (aead_encrypt mk nonce info plaintext)).

Definition open (mk : bytes) (record : SealedRecord) (aad : string) : result EnvelopeError bytes :=
  _ ← assertKey mk "The master key";
  info ← aadBytes aad;
  if decide (sr_v record <> Some 1) then Err (UnknownVersion (sr_v record))
  else if negb (length (sr_nonce record) =? NONCE_BYTES)%nat then Err MalformedNonce
  else if (length (sr_ct record) <? TAG_BYTES)%nat then Err Truncated
  else match aead_decrypt mk (sr_nonce record) info (sr_ct record) with
       | Some plaintext => Ok plaintext
       | None => Err FailedAuthentication
       end.

(** ** Factors *)

Definition pbkdf2Iterations (has_subtle : bool) : Z :=
  if has_subtle then ITERATIONS_WEBCRYPTO else ITERATIONS_FALLBACK.

Definition derivePinKey (has_subtle : bool) (pin : string) (salt : bytes) (iterations : Z)
    : result EnvelopeError bytes :=
  if decide (pin = "") then Err EmptyPin
  else if iterations <? 1 then Err BadIterations
  else if decide (salt = []) then Err NoSalt
  else if has_subtle then Ok (subtle_pbkdf2 (utf8 pin) salt iterations MASTER_KEY_BYTES)
  else Ok (noble_pbkdf2 (utf8 pin) salt iterations MASTER_KEY_BYTES).

(** HKDF without a salt: an empty one. *)
Definition wrappingKey (factorKey : bytes) (kind id : string) : result EnvelopeError bytes :=
  info ← wrapInfo kind id;
  Ok (hkdf factorKey [] (utf8 info) MASTER_KEY_BYTES).

Definition wrapMasterKey (factorKey mk : bytes) (kind id : string) (nonce : bytes)
    : result EnvelopeError SealedRecord :=
  _ ← assertKey mk "The master key";
  wk ← wrappingKey factorKey kind id;
  aad ← wrapAad kind id;
  seal wk mk aad nonce.

Definition unwrapMasterKey (factorKey : bytes) (wrapped : SealedRecord) (kind id : string)
    : result EnvelopeError bytes :=
  wk ← wrappingKey factorKey kind id;
  aad ← wrapAad kind id;
  mk ← open wk wrapped aad;
  if negb (length mk =? MASTER_KEY_BYTES)%nat then Err WrongLength else Ok mk.

Section Json.
Context {V : Type} (stringify : V -> option string) (parse : string -> option V)
  (decode : bytes -> string).

Definition sealJson (mk : bytes) (value : V) (aad : string) (nonce : bytes)
    : result EnvelopeError SealedRecord :=
  match stringify value with
  | None => Err NotJson
  | Some json => seal mk (utf8 json) aad nonce
  end.

Definition openJson (mk : bytes) (record : SealedRecord) (aad : string) : result EnvelopeError V :=
  plaintext ← open mk record aad;
  match parse (decode plaintext) with Some v => Ok v | None => Err NotJson end.
End Json.
End Envelope.

(** ** The additional data is unambiguous *)

Definition barless (s : string) : Prop := s <> "" /\ 124 ∉ utf8 s.

Lemma field_ok value what s : field value what = Ok s <-> s = value /\ barless value.
Proof.
  unfold field, has_bar, barless.
  destruct (decide (value = "")) as [->|Hne]; [by split; [|intros (_ & [] & _)]|].
  rewrite (bool_decide_false _ Hne). simpl. case_bool_decide; split; try done; naive_solver.
Qed.

(** Two lists joined at the first separator. *)
Lemma split_at_bar (c : Z) (xs ys xs' ys' : bytes) :
  c ∉ xs -> c ∉ xs' -> xs ++ c :: ys = xs' ++ c :: ys' -> xs = xs' /\ ys = ys'.
Proof.
  revert xs'. induction xs as [|x xs IH]; intros [|x' xs'] Hx Hx' Heq; simplify_eq/=.
  - done.
  - by destruct Hx'; left.
  - by destruct Hx; left.
  - destruct (IH xs') as [-> ->]; [set_solver..|done|done].
Qed.

Lemma bar_fields (prefix a b a' b' : string) :
  barless a -> barless a' ->
  prefix +:+ a +:+ "|" +:+ b = prefix +:+ a' +:+ "|" +:+ b' -> a = a' /\ b = b'.
Proof.
  intros [_ Ha] [_ Ha'] Heq. apply (f_equal utf8) in Heq. rewrite !utf8_app in Heq.
  apply app_inv_head, split_at_bar in Heq as [Hab Hb]; [|done..].
  by split; apply utf8_injective.
Qed.

Lemma recordAad_ok s i aad :
  recordAad s i = Ok aad ->
  barless s /\ barless i /\ aad = (LOCK_AAD_PREFIX +:+ "|rec|") +:+ s +:+ "|" +:+ i.
Proof.
  unfold recordAad. destruct (field s "slot") as [s'|] eqn:Hs; [|done]. simpl.
  destruct (field i "id") as [i'|] eqn:Hi; [|done]. apply field_ok in Hs as [-> ?], Hi as [-> ?].
  by intros [= <-].
Qed.

Lemma wrapAad_ok k i aad :
  wrapAad k i = Ok aad ->
  barless k /\ barless i /\ aad = (LOCK_AAD_PREFIX +:+ "|wrap|") +:+ k +:+ "|" +:+ i.
Proof.
  unfold wrapAad. destruct (field k _) as [k'|] eqn:Hk; [|done]. simpl.
  destruct (field i _) as [i'|] eqn:Hi; [|done]. apply field_ok in Hk as [-> ?], Hi as [-> ?].
  by intros [= <-].
Qed.

Lemma recordAad_inj s i s' i' aad :
  recordAad s i = Ok aad -> recordAad s' i' = Ok aad -> s = s' /\ i = i'.
Proof.
  intros (Hs & _ & ->)%recordAad_ok (Hs' & _ & Heq)%recordAad_ok. by eapply bar_fields.
Qed.

Lemma wrapAad_inj k i k' i' aad :
  wrapAad k i = Ok aad -> wrapAad k' i' = Ok aad -> k = k' /\ i = i'.
Proof.
  intros (Hs & _ & ->)%wrapAad_ok (Hs' & _ & Heq)%wrapAad_ok. by eapply bar_fields.
Qed.

Lemma recordAad_not_wrap s i k i' aad : recordAad s i = Ok aad -> wrapAad k i' <> Ok aad.
Proof. intros (_ & _ & ->)%recordAad_ok (_ & _ & Heq)%wrapAad_ok. done. Qed.

Lemma recordAad_nonempty s i aad : recordAad s i = Ok aad -> aad <> "".
Proof. intros (_ & _ & ->)%recordAad_ok. done. Qed.

Lemma wrapAad_nonempty k i aad : wrapAad k i = Ok aad -> aad <> "".
Proof. intros (_ & _ & ->)%wrapAad_ok. done. Qed.

(** ** Sealing, opening, wrapping *)

Section Theorems.
Context `{!Aead, !AeadLaws, !Hkdf, !HkdfLaws, !Pbkdf2, !Pbkdf2Laws}.

Lemma seal_ok mk pt aad nonce r :
  seal mk pt aad nonce = Ok r ->
  length mk = MASTER_KEY_BYTES /\ aad <> "" /\
  r = mkSealed (Some 1) nonce (aead_encrypt mk nonce (utf8 aad) pt).
Proof.
  unfold seal, assertKey, aadBytes.
  destruct (length mk =? MASTER_KEY_BYTES)%nat eqn:Hl; simpl; [|done]. apply Nat.eqb_eq in Hl.
  case_decide; simpl; [done|]. by intros [= <-].
Qed.

Lemma open_ok mk r aad pt :
  open mk r aad = Ok pt -> aead_decrypt mk (sr_nonce r) (utf8 aad) (sr_ct r) = Some pt.
Proof.
  unfold open, assertKey, aadBytes. destruct (negb (length mk =? MASTER_KEY_BYTES)%nat); [done|].
  simpl. destruct (decide (aad = "")); [done|]. simpl. case_decide; [done|].
  destruct (negb _); [done|].
  destruct (_ <? TAG_BYTES)%nat; [done|]. by destruct (aead_decrypt _ _ _ _); intros; simplify_eq.
Qed.

(** What was sealed opens, under the same key and additional data. *)
Lemma open_seal mk pt aad nonce r :
  length nonce = NONCE_BYTES -> seal mk pt aad nonce = Ok r -> open mk r aad = Ok pt.
Proof.
  intros Hn (Hk & Ha & ->)%seal_ok. unfold open, assertKey, aadBytes. rewrite Hk. simpl.
  rewrite decide_False by done. simpl. rewrite Hn. simpl.
  pose proof (aead_tag mk nonce (utf8 aad) pt) as Ht.
  rewrite (proj2 (Nat.ltb_ge _ _)) by done. by rewrite aead_roundtrip.
Qed.

Lemma derivePinKey_origin sub sub' pin salt iterations :
  derivePinKey sub pin salt iterations = derivePinKey sub' pin salt iterations.
Proof.
  unfold derivePinKey. do 2 (case_match; [done|]). case_decide; [done|].
  by destruct sub, sub'; rewrite ?pbkdf2_same.
Qed.

Lemma unwrap_wrap fk mk kind id nonce w :
  length nonce = NONCE_BYTES -> wrapMasterKey fk mk kind id nonce = Ok w ->
  unwrapMasterKey fk w kind id = Ok mk.
Proof.
  intros Hn. unfold wrapMasterKey, unwrapMasterKey, assertKey.
  destruct (length mk =? MASTER_KEY_BYTES)%nat eqn:Hl; simpl; [|done].
  destruct (wrappingKey fk kind id) as [wk|]; simpl; [|done].
  destruct (wrapAad kind id) as [aad|]; simpl; [|done]. intros Hs.
  rewrite (open_seal _ _ _ _ _ Hn Hs). simpl. by rewrite Hl.
Qed.

(** A device that was locked opens again.  The master key wrapped under a
    PIN comes back from that PIN with the salt and the iteration count stored at
    enrolment, whichever PBKDF2 implementation the two page loads had, and
    opens every record sealed with it. *)
Theorem lock_reopens sub sub' pin salt iterations fk mk kind id n1 w s i aad pt n2 r
    (Hn1 : length n1 = NONCE_BYTES) (Hn2 : length n2 = NONCE_BYTES)
    (Hfk : derivePinKey sub pin salt iterations = Ok fk)
    (Hw : wrapMasterKey fk mk kind id n1 = Ok w)
    (Haad : recordAad s i = Ok aad) (Hr : seal mk pt aad n2 = Ok r) :
  exists fk', derivePinKey sub' pin salt iterations = Ok fk' /\
    unwrapMasterKey fk' w kind id = Ok mk /\ open mk r aad = Ok pt.
Proof.
  exists fk. rewrite <- (derivePinKey_origin sub). split; [done|].
  split; [exact (unwrap_wrap _ _ _ _ _ _ Hn1 Hw)|exact (open_seal _ _ _ _ _ Hn2 Hr)].
Qed.

(** [log]: every record sealed under [mk], by slot, id and content. *)
Definition sealed_in (mk : bytes) (log : list (string * string * bytes)) (r : SealedRecord) : Prop :=
  forall aad pt, aead_decrypt mk (sr_nonce r) aad (sr_ct r) = Some pt ->
  exists s i a, (s, i, pt) ∈ log /\ recordAad s i = Ok a /\ aad = utf8 a.

(** A record opens in its own slot only.  Whatever bytes somebody with write
    access to the store puts into a slot (another slot's record, an older one,
    or anything altered), as long as nothing decrypts that was not sealed under
    the master key, what opens is something that was sealed for that very slot
    and id. *)
Theorem record_stays_in_place mk log r s i aad pt
    (Hlog : sealed_in mk log r) (Haad : recordAad s i = Ok aad) (Hopen : open mk r aad = Ok pt) :
  (s, i, pt) ∈ log.
Proof.
  apply open_ok in Hopen. destruct (Hlog _ _ Hopen) as (s' & i' & a & Hin & Ha & Heq).
  apply utf8_injective in Heq as <-. destruct (recordAad_inj _ _ _ _ _ Haad Ha) as [-> ->]. done.
Qed.

(** A blob wrapped for one factor opens for no other. *)
Lemma wrap_stays_in_place fk wk w kind id kind' id' aad mk :
  wrapAad kind id = Ok aad ->
  (forall a pt, aead_decrypt wk (sr_nonce w) a (sr_ct w) = Some pt -> a = utf8 aad) ->
  wrappingKey fk kind' id' = Ok wk -> unwrapMasterKey fk w kind' id' = Ok mk ->
  kind' = kind /\ id' = id.
Proof.
  intros Haad Hun Hwk. unfold unwrapMasterKey. rewrite Hwk. simpl.
  destruct (wrapAad kind' id') as [aad'|] eqn:Ha; simpl; [|done].
  destruct (open wk w aad') as [pt|] eqn:Ho; simpl; [|done]. intros _.
  apply open_ok, Hun, utf8_injective in Ho as ->. by eapply wrapAad_inj.
Qed.
End Theorems.

(** ** A locked device *)

Module Demo.
Import Toy.

Definition mk : bytes := replicate 32 5.
Definition n1 : bytes := replicate 12 1.
Definition n2 : bytes := replicate 12 2.
Definition salt : bytes := replicate 16 3.
Definition get {A} (d : A) (r : result EnvelopeError A) : A := match r with Ok a => a | Err _ => d end.
Definition fk : bytes := get [] (derivePinKey true "1234" salt 600000).
Definition wrapped : SealedRecord := get (mkSealed None [] []) (wrapMasterKey fk mk "pin" "tag" n1).
Definition aad : string := get "" (recordAad "keys" "machine-a").
Definition secret : bytes := utf8 "{}".
Definition record : SealedRecord := get (mkSealed None [] []) (seal mk secret aad n2).

Lemma lock_reopens_witness :
  exists fk', derivePinKey false "1234" salt 600000 = Ok fk' /\
    unwrapMasterKey fk' wrapped "pin" "tag" = Ok mk /\ open mk record aad = Ok secret.
Proof.
  apply (lock_reopens true false "1234" salt 600000 fk mk "pin" "tag" n1 wrapped "keys" "machine-a"
    aad secret n2 record); vm_compute; reflexivity.
Defined.

(** Opened in its slot; refused in another machine's. *)
Lemma record_stays_in_place_witness :
  open mk record aad = Ok secret /\
  open mk record (get "" (recordAad "keys" "machine-b")) = Err FailedAuthentication /\
  ("keys", "machine-a", secret) ∈ [("keys", "machine-a", secret); ("keys", "machine-b", [7])].
Proof.
  split; [vm_compute; reflexivity|]. split; [vm_compute; reflexivity|].
  apply (record_stays_in_place mk [("keys", "machine-a", secret); ("keys", "machine-b", [7])] record
    "keys" "machine-a" aad secret); [|vm_compute; reflexivity..].
  intros a pt Hd. apply aead_opens in Hd.
  assert (sr_ct record = aead_encrypt mk n2 (utf8 aad) secret) as Hct by (vm_compute; reflexivity).
  rewrite Hct in Hd. apply aead_encrypt_inj in Hd as (_ & _ & <- & <-).
  exists "keys", "machine-a", aad. split; [by left|]. split; [vm_compute; reflexivity|done].
Defined.
End Demo.
