(* ===== verification/DeviceStore.v ===== *)
(** * DeviceStore: what a browser keeps of the machines it is paired with

    [apps/web/src/lib/session-store.ts], [storage-keys.ts], the state of
    [unlocked.ts], and the callers that compose them: [persist-pairing.ts],
    [forget-session.ts], [forget-machine.ts], [resolve-route.ts].  A browser is
    a disk that its tabs share (the IndexedDB stores and [localStorage]) and
    tabs, each with its module variables, its [sessionStorage] and a heap of
    the [Uint8Array]s that [wipe] zeroes behind every reference to them.  A
    function is a program ([Web]) of what it does between two awaits ([Sync])
    and of what it awaits ([Await]); that awaiting a promise which is already
    settled lets other microtasks in is left out.  JSON is a type class. *)

From S2P Require Import Prelude Bytes Noble Envelope.

(** ** What is stored *)

(** [SealedDescriptor] of [packages/protocol]: how to reach a machine. *)
Record SealedDescriptor := mkDescriptor {
  sd_candidates : list string;
  sd_tunnelId : string;
  sd_deviceId : string;
  sd_publicKey : string;
  sd_label : string;
}.

(** [PairedSession]; a [StoredDescriptor] is one without its token. *)
Record PairedSession := mkSession {
  ps_descriptor : SealedDescriptor;
  ps_preferredCandidate : option string;
  ps_directToken : option string;
  ps_pairedAt : Z;
}.

(** [StoredKeys], by content. *)
Record StoredKeys := mkStoredKeys {
  sk_c2s : bytes;
  sk_s2c : bytes;
  sk_confirm : bytes;
  sk_directToken : string;
  sk_sessionLocks : option (gset string);
}.

(** [UnlockedKeys] in memory: its buffers are references. *)
Record KeyRefs := mkRefs {
  kr_c2s : Z;
  kr_s2c : Z;
  kr_confirm : Z;
  kr_directToken : string;
  kr_sessionLocks : option (gset string);
}.

Inductive KeyRecord := Plain (k : StoredKeys) | Sealed (r : SealedRecord).

Definition isSealed (r : KeyRecord) : bool :=
  match r with Plain _ => false | Sealed _ => true end.

Record LockRecord := mkLock {
  lr_factors : list FactorRecord;
  lr_failedAttempts : Z;
  lr_lockedUntil : option Z;
  lr_wipeAfter10 : bool;
  lr_pinLength : Z;
  lr_idleMinutes : Z;
  lr_lockOnBackground : bool;
  lr_enrolledAt : Z;
}.

(** [CensusSnapshot]: the names of the sessions seen, and when. *)
Record CensusSnapshot := mkSnapshot { cs_sessions : list string; cs_observedAt : Z }.

(** [MachinePrefs]: what a machine is called here and where it is listed. *)
Record MachinePrefs := mkPrefs {
  mp_name : option string;
  mp_order : option Z;
  mp_collapsed : option bool;
}.

(** The stores [openDb] creates, and [localStorage].  [LOCK_STORE] has two
    keys: the lock record and the sealed token of the self-hosted path. *)
Record Disk := mkDisk {
  d_keys : gmap string KeyRecord;
  d_descriptors : gmap string PairedSession;
  d_lock : option LockRecord;
  d_lockToken : option SealedRecord;
  d_census : gmap string CensusSnapshot;
  d_machines : gmap string MachinePrefs;
  d_local : gmap string string;
}.

(** A tab.  [t_jobs] are the async functions started with [void]. *)
Inductive Job := PutDescriptor (s : PairedSession) | DeleteDescriptor (serverId : string).

Record Tab := mkTab {
  t_heap : gmap Z bytes;
  t_next : Z;
  t_masterKeyRef : option Z;
  t_enrolledRef : bool;
  t_localTokenRef : option string;
  t_keys : gmap string KeyRefs;
  t_mirror : option PairedSession;
  t_ceremonyDepth : Z;
  t_disconnect : bool;
  t_link : option KeyRefs;
  t_jobs : list Job;
  t_posted : bool;
}.

(** A fresh load of the page: module variables are gone, [sessionStorage] is not. *)
Definition load_tab (mirror : option PairedSession) : Tab :=
  mkTab ∅ 0 None false None ∅ mirror 0 false None [] false.

(** What a program acts on: the disk, its own tab, and, for each attempt at a
    PIN that got as far as deriving a key, the clock reading it was let in on. *)
Record Env := mkEnv { e_disk : Disk; e_tab : Tab; e_guesses : list Z }.

Definition on_disk (f : Disk -> Disk) (e : Env) : Env :=
  mkEnv (f (e_disk e)) (e_tab e) (e_guesses e).
Definition on_tab (f : Tab -> Tab) (e : Env) : Env :=
  mkEnv (e_disk e) (f (e_tab e)) (e_guesses e).
Definition add_guess (now : Z) (e : Env) : Env :=
  mkEnv (e_disk e) (e_tab e) (e_guesses e ++ [now]).

Definition put_keys (f : gmap string KeyRecord -> gmap string KeyRecord) (d : Disk) : Disk :=
  mkDisk (f (d_keys d)) (d_descriptors d) (d_lock d) (d_lockToken d) (d_census d) (d_machines d)
    (d_local d).
Definition put_descriptors (f : gmap string PairedSession -> gmap string PairedSession) (d : Disk)
    : Disk :=
  mkDisk (d_keys d) (f (d_descriptors d)) (d_lock d) (d_lockToken d) (d_census d) (d_machines d)
    (d_local d).
Definition put_lock (l : option LockRecord) (d : Disk) : Disk :=
  mkDisk (d_keys d) (d_descriptors d) l (d_lockToken d) (d_census d) (d_machines d) (d_local d).
Definition put_lockToken (r : option SealedRecord) (d : Disk) : Disk :=
  mkDisk (d_keys d) (d_descriptors d) (d_lock d) r (d_census d) (d_machines d) (d_local d).
Definition put_census (m : gmap string CensusSnapshot) (d : Disk) : Disk :=
  mkDisk (d_keys d) (d_descriptors d) (d_lock d) (d_lockToken d) m (d_machines d) (d_local d).
Definition put_machines (f : gmap string MachinePrefs -> gmap string MachinePrefs) (d : Disk)
    : Disk :=
  mkDisk (d_keys d) (d_descriptors d) (d_lock d) (d_lockToken d) (d_census d) (f (d_machines d))
    (d_local d).
Definition put_local (f : gmap string string -> gmap string string) (d : Disk) : Disk :=
  mkDisk (d_keys d) (d_descriptors d) (d_lock d) (d_lockToken d) (d_census d) (d_machines d)
    (f (d_local d)).

Definition with_heap (h : gmap Z bytes) (t : Tab) : Tab :=
  mkTab h (t_next t) (t_masterKeyRef t) (t_enrolledRef t) (t_localTokenRef t) (t_keys t)
    (t_mirror t) (t_ceremonyDepth t) (t_disconnect t) (t_link t) (t_jobs t) (t_posted t).
Definition with_masterKey (mk : option Z) (t : Tab) : Tab :=
  mkTab (t_heap t) (t_next t) mk (t_enrolledRef t) (t_localTokenRef t) (t_keys t)
    (t_mirror t) (t_ceremonyDepth t) (t_disconnect t) (t_link t) (t_jobs t) (t_posted t).
Definition with_enrolled (b : bool) (t : Tab) : Tab :=
  mkTab (t_heap t) (t_next t) (t_masterKeyRef t) b (t_localTokenRef t) (t_keys t)
    (t_mirror t) (t_ceremonyDepth t) (t_disconnect t) (t_link t) (t_jobs t) (t_posted t).
Definition setLocalToken (token : option string) (t : Tab) : Tab :=
  mkTab (t_heap t) (t_next t) (t_masterKeyRef t) (t_enrolledRef t) token (t_keys t)
    (t_mirror t) (t_ceremonyDepth t) (t_disconnect t) (t_link t) (t_jobs t) (t_posted t).
Definition with_keys (m : gmap string KeyRefs) (t : Tab) : Tab :=
  mkTab (t_heap t) (t_next t) (t_masterKeyRef t) (t_enrolledRef t) (t_localTokenRef t) m
    (t_mirror t) (t_ceremonyDepth t) (t_disconnect t) (t_link t) (t_jobs t) (t_posted t).
Definition with_mirror (s : option PairedSession) (t : Tab) : Tab :=
  mkTab (t_heap t) (t_next t) (t_masterKeyRef t) (t_enrolledRef t) (t_localTokenRef t) (t_keys t)
    s (t_ceremonyDepth t) (t_disconnect t) (t_link t) (t_jobs t) (t_posted t).
Definition with_ceremony (n : Z) (t : Tab) : Tab :=
  mkTab (t_heap t) (t_next t) (t_masterKeyRef t) (t_enrolledRef t) (t_localTokenRef t) (t_keys t)
    (t_mirror t) n (t_disconnect t) (t_link t) (t_jobs t) (t_posted t).
Definition registerDisconnect (b : bool) (t : Tab) : Tab :=
  mkTab (t_heap t) (t_next t) (t_masterKeyRef t) (t_enrolledRef t) (t_localTokenRef t) (t_keys t)
    (t_mirror t) (t_ceremonyDepth t) b (t_link t) (t_jobs t) (t_posted t).
Definition with_link (l : option KeyRefs) (t : Tab) : Tab :=
  mkTab (t_heap t) (t_next t) (t_masterKeyRef t) (t_enrolledRef t) (t_localTokenRef t) (t_keys t)
    (t_mirror t) (t_ceremonyDepth t) (t_disconnect t) l (t_jobs t) (t_posted t).
Definition with_jobs (l : list Job) (t : Tab) : Tab :=
  mkTab (t_heap t) (t_next t) (t_masterKeyRef t) (t_enrolledRef t) (t_localTokenRef t) (t_keys t)
    (t_mirror t) (t_ceremonyDepth t) (t_disconnect t) (t_link t) l (t_posted t).
Definition with_posted (b : bool) (t : Tab) : Tab :=
  mkTab (t_heap t) (t_next t) (t_masterKeyRef t) (t_enrolledRef t) (t_localTokenRef t) (t_keys t)
    (t_mirror t) (t_ceremonyDepth t) (t_disconnect t) (t_link t) (t_jobs t) b.

(** ** Buffers *)

Definition deref (l : Z) (t : Tab) : bytes := default [] (t_heap t !! l).

Definition alloc (bs : bytes) (t : Tab) : Tab * Z :=
  (mkTab (<[t_next t := bs]> (t_heap t)) (t_next t + 1) (t_masterKeyRef t) (t_enrolledRef t)
     (t_localTokenRef t) (t_keys t) (t_mirror t) (t_ceremonyDepth t) (t_disconnect t) (t_link t)
     (t_jobs t) (t_posted t), t_next t).

(** [bytes.fill(0)]. *)
Definition wipe (l : Z) (t : Tab) : Tab :=
  with_heap (alter (fun bs => replicate (length bs) 0) l (t_heap t)) t.

Definition alloc_keys (k : StoredKeys) (t : Tab) : Tab * KeyRefs :=
  let '(t, a) := alloc (sk_c2s k) t in
  let '(t, b) := alloc (sk_s2c k) t in
  let '(t, c) := alloc (sk_confirm k) t in
  (t, mkRefs a b c (sk_directToken k) (sk_sessionLocks k)).

Definition read_keys (r : KeyRefs) (t : Tab) : StoredKeys :=
  mkStoredKeys (deref (kr_c2s r) t) (deref (kr_s2c r) t) (deref (kr_confirm r) t)
    (kr_directToken r) (kr_sessionLocks r).

Definition wipe_keys (r : KeyRefs) (t : Tab) : Tab :=
  wipe (kr_confirm r) (wipe (kr_s2c r) (wipe (kr_c2s r) t)).

(** ** [unlocked.ts] *)

Definition isUnlocked (t : Tab) : bool := bool_decide (is_Some (t_masterKeyRef t)).
Definition isEnrolled (t : Tab) : bool := t_enrolledRef t.
Definition masterKey (t : Tab) : option Z := t_masterKeyRef t.

Definition setEnrolled (enrolled : bool) (t : Tab) : Tab :=
  if Bool.eqb (t_enrolledRef t) enrolled then t else with_enrolled enrolled t.

Definition setMasterKey (mk : Z) (t : Tab) : Tab :=
  let t := match t_masterKeyRef t with
           | Some old => if decide (old = mk) then t else wipe old t
           | None => t
           end in
  with_enrolled true (with_masterKey (Some mk) t).

Definition cacheKeys (serverId : string) (r : KeyRefs) (t : Tab) : Tab :=
  with_keys (<[serverId := r]> (t_keys t)) t.

Definition cachedKeys (serverId : string) (t : Tab) : option KeyRefs := t_keys t !! serverId.

Definition forget (t : Tab) : Tab :=
  let t := match t_masterKeyRef t with Some mk => wipe mk t | None => t end in
  let t := setLocalToken None (with_masterKey None t) in
  let t := foldr wipe_keys t (map_to_list (t_keys t)).*2 in
  with_keys ∅ t.

(** ** Programs *)

Inductive WebError :=
| IndexedDb
| PairingWhileLocked
| DeviceLocked
| AlreadyLocked
| NoPinYet
| NoDevicePin
| OnlyWay
| Crypto (e : EnvelopeError).

(** What a turn of the event loop finds: the clock, whether the database fails,
    random bytes by call site, and who wins a race of candidates. *)
Record Draw := mkDraw {
  dr_now : Z;
  dr_fault : bool;
  dr_rand : nat -> nat -> bytes;
  dr_winner : option string;
}.

Definition Op (B : Type) : Type := Draw -> Env -> Env * result WebError B.

Inductive Web (A : Type) : Type :=
| Ret (a : A)
| Throw (e : WebError)
| Sync (B : Type) (q : Op B) (k : result WebError B -> Web A)
| Await (B : Type) (q : Op B) (k : result WebError B -> Web A).
Arguments Ret {A} a.
Arguments Throw {A} e.
Arguments Sync {A} B q k.
Arguments Await {A} B q k.

#[export] Instance web_ret : MRet Web := @Ret.
#[export] Instance web_bind : MBind Web := fun A B f =>
  fix go (p : Web A) : Web B :=
    match p with
    | Ret a => f a
    | Throw e => Throw e
    | Sync C q k => Sync C q (fun r => go (k r))
    | Await C q k => Await C q (fun r => go (k r))
    end.

(** [try { p } catch { h }]. *)
Fixpoint attempt {A} (p : Web A) (h : WebError -> Web A) : Web A :=
  match p with
  | Ret a => Ret a
  | Throw e => h e
  | Sync B q k => Sync B q (fun r => attempt (k r) h)
  | Await B q k => Await B q (fun r => attempt (k r) h)
  end.

Definition answer {B} (r : result WebError B) : Web B :=
  match r with Ok b => Ret b | Err e => Throw e end.

Definition sync {B} (q : Op B) : Web B := Sync B q answer.
Definition gets {B} (f : Env -> B) : Web B := sync (fun _ e => (e, Ok (f e))).
Definition modify (f : Env -> Env) : Web unit := sync (fun _ e => (f e, Ok tt)).
Definition clock : Web Z := sync (fun d e => (e, Ok (dr_now d))).
Definition randomBytes (slot n : nat) : Web bytes := sync (fun d e => (e, Ok (dr_rand d slot n))).
Definition new_buffer (bs : bytes) : Web Z :=
  sync (fun _ e => let '(t, l) := alloc bs (e_tab e) in (on_tab (fun _ => t) e, Ok l)).
Definition new_keys (k : StoredKeys) : Web KeyRefs :=
  sync (fun _ e => let '(t, r) := alloc_keys k (e_tab e) in (on_tab (fun _ => t) e, Ok r)).
Definition crypto {B} (r : result EnvelopeError B) : Web B :=
  match r with Ok b => Ret b | Err e => Throw (Crypto e) end.

(** [await] of what is ready. *)
Definition tick : Web unit := Await unit (fun _ e => (e, Ok tt)) answer.

Definition openDb : Web unit :=
  Await unit (fun d e => (e, if dr_fault d then Err IndexedDb else Ok tt)) answer.

(** [tx] and [txMulti]: the transaction, and later the continuation. *)
Definition tx {B} (f : Disk -> Disk * B) : Web B :=
  b ← Await B (fun d e =>
        if dr_fault d then (e, Err IndexedDb)
        else let '(disk, b) := f (e_disk e) in (on_disk (fun _ => disk) e, Ok b)) answer;
  tick ;; Ret b.

Definition tx_get {B} (f : Disk -> B) : Web B := tx (fun d => (d, f d)).
Definition tx_put (f : Disk -> Disk) : Web unit := tx (fun d => (f d, tt)).

(** [for (const x of l) acc = f(x, acc)], in order. *)
Fixpoint loop {X A} (f : X -> A -> Web A) (l : list X) (acc : A) : Web A :=
  match l with [] => Ret acc | x :: l => acc ← f x acc; loop f l acc end.

(** The turn in which a promise settles goes on to the next await. *)
Fixpoint settle {A} (d : Draw) (p : Web A) (e : Env) : Env * Web A :=
  match p with
  | Sync B q k => let '(e', r) := q d e in settle d (k r) e'
  | _ => (e, p)
  end.

Definition turn {A} (d : Draw) (p : Web A) (e : Env) : Env * Web A :=
  match p with
  | Await B q k => let '(e', r) := q d e in settle d (k r) e'
  | _ => settle d p e
  end.

(** A program run with nobody else about, for as many turns as there are draws:
    where it got to.  What comes before the first await happens at once. *)
Fixpoint turns {A} (draws : list Draw) (p : Web A) (e : Env) : Env * Web A :=
  match draws with
  | [] => (e, p)
  | d :: draws => let '(e', p') := turn d p e in turns draws p' e'
  end.

(** The same, to the end. *)
Fixpoint finish {A} (draws : nat -> Draw) (n : nat) (p : Web A) (e : Env)
    : Env * result WebError A * nat :=
  match p with
  | Ret a => (e, Ok a, n)
  | Throw x => (e, Err x, n)
  | Sync B q k => let '(e', r) := q (draws n) e in finish draws n (k r) e'
  | Await B q k => let '(e', r) := q (draws (S n)) e in finish draws (S n) (k r) e'
  end.

Definition ended {A} (p : Web A) : bool :=
  match p with Ret _ | Throw _ => true | _ => false end.

(** ** [storage-keys.ts] *)

Definition TOKEN_KEY : string := "mtmux-token".
Definition LAST_SESSION_KEY : string := "mtmux-last-session".

Definition LEGACY (key : string) : option string :=
  if decide (key = TOKEN_KEY) then Some "ccremote-token"
  else if decide (key = LAST_SESSION_KEY) then Some "ccremote-last-session"
  else None.

Definition readStored (key : string) (m : gmap string string) : gmap string string * option string :=
  match m !! key with
  | Some current => (m, Some current)
  | None =>
      match LEGACY key with
      | None => (m, None)
      | Some legacyKey =>
          match m !! legacyKey with
          | None => (m, None)
          | Some legacy => (delete legacyKey (<[key := legacy]> m), Some legacy)
          end
      end
  end.

Definition writeStored (key value : string) (m : gmap string string) : gmap string string :=
  <[key := value]> m.

Definition clearStored (key : string) (m : gmap string string) : gmap string string :=
  let m := delete key m in
  match LEGACY key with Some legacyKey => delete legacyKey m | None => m end.

Definition readStored_here (key : string) : Web (option string) :=
  sync (fun _ e => let '(m, v) := readStored key (d_local (e_disk e)) in
                   (on_disk (put_local (fun _ => m)) e, Ok v)).

Definition readSelfHostedToken : Web (option string) :=
  held ← gets (fun e => t_localTokenRef (e_tab e));
  match held with Some token => Ret (Some token) | None => readStored_here TOKEN_KEY end.

Definition clearStored_here (key : string) : Web unit :=
  modify (on_disk (put_local (clearStored key))).

(** ** Sealed records *)

(** What goes inside a sealed record: [SealedKeys], whose typed arrays are
    arrays of numbers, or the token of the self-hosted path. *)
Inductive Sealable := SealedKeys (k : StoredKeys) | SealedToken (token : string).

(** [JSON.stringify] and [JSON.parse] of these values, and [TextDecoder]. *)
Class KeysJson := {
  keys_stringify : Sealable -> option string;
  keys_parse : string -> option Sealable;
  text_decode : bytes -> string;
}.
Class KeysJsonLaws `{KeysJson} := {
  keys_parse_back v : exists s, keys_stringify v = Some s /\
    keys_parse (text_decode (utf8 s)) = Some v;
}.

(** [crypto.subtle] is there on a secure origin only. *)
Class Page := { has_subtle : bool }.

Definition toSealedKeys (k : StoredKeys) : Sealable := SealedKeys k.

(** [Uint8Array.from] keeps the low byte of each number. *)
Definition fromSealedKeys (v : Sealable) : option StoredKeys :=
  match v with
  | SealedKeys k =>
      Some (mkStoredKeys (map (fun n => n mod 256) (sk_c2s k)) (map (fun n => n mod 256) (sk_s2c k))
              (map (fun n => n mod 256) (sk_confirm k)) (sk_directToken k) (sk_sessionLocks k))
  | SealedToken _ => None
  end.

Definition serverIdFor (descriptor : SealedDescriptor) : string := sd_deviceId descriptor.

(** [getAll]: in the order of the keys. *)
Definition key_order {A} (a b : string * A) : Z :=
  match String.compare a.1 b.1 with Lt => -1 | Eq => 0 | Gt => 1 end.

Definition entries {A} (m : gmap string A) : list (string * A) :=
  sort_cmp key_order (map_to_list m).

Section SessionStore.
Context {AE : Aead} {JS : KeysJson}.

(** A record of another kind in the slot makes [Uint8Array.from] throw. *)
Definition open_keys (mk : bytes) (r : SealedRecord) (serverId : string)
    : result EnvelopeError StoredKeys :=
  aad ← recordAad "session-keys" serverId;
  v ← openJson keys_parse text_decode mk r aad;
  match fromSealedKeys v with Some k => Ok k | None => Err NotJson end.

Definition seal_keys (mk : bytes) (k : StoredKeys) (serverId : string) (nonce : bytes)
    : result EnvelopeError SealedRecord :=
  aad ← recordAad "session-keys" serverId;
  sealJson keys_stringify mk (toSealedKeys k) aad nonce.

(** ** The keys *)

Definition sealKeysIfUnlocked (serverId : string) (plain : KeyRefs) : Web KeyRecord :=
  e ← gets (fun e => e_tab e);
  if negb (isEnrolled e) then Ret (Plain (read_keys plain e))
  else match masterKey e with
       | None => Throw PairingWhileLocked
       | Some mk =>
           nonce ← randomBytes 0 NONCE_BYTES;
           r ← crypto (seal_keys (deref mk e) (read_keys plain e) serverId nonce);
           Ret (Sealed r)
       end.

Definition saveSessionKeys (serverId : string) (keys : KeyRefs) : Web unit :=
  openDb ;;
  let plain := mkRefs (kr_c2s keys) (kr_s2c keys) (kr_confirm keys) (kr_directToken keys) None in
  record ← sealKeysIfUnlocked serverId plain;
  tx_put (put_keys <[serverId := record]>) ;;
  if isSealed record then modify (on_tab (cacheKeys serverId plain)) else Ret tt.

Definition loadSessionKeys (serverId : string) : Web (option KeyRefs) :=
  cached ← gets (fun e => cachedKeys serverId (e_tab e));
  match cached with
  | Some keys => Ret (Some keys)
  | None =>
      attempt
        (openDb ;;
         stored ← tx_get (fun d => d_keys d !! serverId);
         match stored with
         | None => Ret None
         | Some (Sealed r) =>
             held ← gets (fun e => mk ← masterKey (e_tab e); Some (deref mk (e_tab e)));
             match held with
             | None => Ret None
             | Some mk =>
                 opened ← crypto (open_keys mk r serverId);
                 refs ← new_keys opened;
                 modify (on_tab (cacheKeys serverId refs)) ;;
                 Ret (Some (mkRefs (kr_c2s refs) (kr_s2c refs) (kr_confirm refs)
                              (kr_directToken refs) None))
             end
         | Some (Plain k) =>
             refs ← new_keys (mkStoredKeys (sk_c2s k) (sk_s2c k) (sk_confirm k)
                                (sk_directToken k) None);
             Ret (Some refs)
         end)
        (fun _ => Ret None)
  end.

Definition clearSessionKeys (serverId : string) : Web unit :=
  attempt (openDb ;; tx_put (put_keys (delete serverId))) (fun _ => Ret tt).

(** ** The descriptor *)

Definition without_token (s : PairedSession) : PairedSession :=
  mkSession (ps_descriptor s) (ps_preferredCandidate s) None (ps_pairedAt s).

Definition with_token (token : string) (s : PairedSession) : PairedSession :=
  mkSession (ps_descriptor s) (ps_preferredCandidate s) (Some token) (ps_pairedAt s).

Definition writeMirror (s : PairedSession) : Web unit := modify (on_tab (with_mirror (Some s))).

Definition loadDescriptor : Web (option PairedSession) := gets (fun e => t_mirror (e_tab e)).

Definition clearDescriptorMirror : Web unit := modify (on_tab (with_mirror None)).

Definition start_job (j : Job) : Web unit :=
  modify (on_tab (fun t => with_jobs (t_jobs t ++ [j]) t)).

(** What a job does; its failure is nobody's. *)
Definition job_program (j : Job) : Web unit :=
  match j with
  | PutDescriptor s =>
      attempt (openDb ;;
               tx_put (put_descriptors <[serverIdFor (ps_descriptor s) := without_token s]>))
        (fun _ => Ret tt)
  | DeleteDescriptor serverId =>
      attempt (openDb ;; tx_put (put_descriptors (delete serverId))) (fun _ => Ret tt)
  end.

Definition saveDescriptor (s : PairedSession) : Web unit :=
  writeMirror s ;; start_job (PutDescriptor s).

Definition newest (stored : list PairedSession) : option PairedSession :=
  head (sort_cmp (fun a b => ps_pairedAt b - ps_pairedAt a) stored).

Definition hydrateDescriptor : Web (option PairedSession) :=
  mirrored ← loadDescriptor;
  usable ← match mirrored with
           | Some s =>
               keys ← loadSessionKeys (serverIdFor (ps_descriptor s));
               match keys with
               | Some _ => Ret (Some s)
               | None => clearDescriptorMirror ;; Ret None
               end
           | None => Ret None
           end;
  match usable with
  | Some s => Ret (Some s)
  | None =>
      attempt
        (openDb ;;
         stored ← tx_get (fun d => entries (d_descriptors d));
         match newest stored.*2 with
         | None => Ret None
         | Some s =>
             keys ← loadSessionKeys (serverIdFor (ps_descriptor s));
             match keys with
             | None => Ret None
             | Some k =>
                 let session := with_token (kr_directToken k) s in
                 writeMirror session ;; Ret (Some session)
             end
         end)
        (fun _ => Ret None)
  end.

(** [Promise.all] of the loads; they are independent but for the cache. *)
Definition listPairedServerIds : Web (list string) :=
  attempt
    (openDb ;;
     stored ← tx_get (fun d => entries (d_descriptors d));
     loop (fun s ids =>
             keys ← loadSessionKeys (serverIdFor (ps_descriptor s));
             Ret (match keys with
                  | Some _ => ids ++ [serverIdFor (ps_descriptor s)]
                  | None => ids
                  end))
       stored.*2 [])
    (fun _ => Ret []).

Definition activateDescriptor (serverId : string) : Web (option PairedSession) :=
  attempt
    (openDb ;;
     stored ← tx_get (fun d => d_descriptors d !! serverId);
     match stored with
     | None => Ret None
     | Some s =>
         keys ← loadSessionKeys serverId;
         match keys with
         | None => Ret None
         | Some k =>
             let session := with_token (kr_directToken k) s in
             writeMirror session ;; Ret (Some session)
         end
     end)
    (fun _ => Ret None).

Definition loadDescriptorFor (serverId : string) : Web (option PairedSession) :=
  attempt (openDb ;; tx_get (fun d => d_descriptors d !! serverId)) (fun _ => Ret None).

Definition clearDescriptor : Web unit :=
  session ← loadDescriptor;
  modify (on_tab (with_mirror None)) ;;
  match session with
  | None => Ret tt
  | Some s => start_job (DeleteDescriptor (serverIdFor (ps_descriptor s)))
  end.

Definition names (serverId : string) (s : option PairedSession) : bool :=
  match s with Some s => bool_decide (serverIdFor (ps_descriptor s) = serverId) | None => false end.

Definition clearDescriptorFor (serverId : string) : Web unit :=
  active ← loadDescriptor;
  (if names serverId active then modify (on_tab (with_mirror None)) else Ret tt) ;;
  attempt (openDb ;; tx_put (put_descriptors (delete serverId))) (fun _ => Ret tt).

(** ** Their callers *)

(** [raceCandidates]: the sockets decide. *)
Definition raceCandidates : Web (option string) :=
  winner ← Await (option string) (fun d e => (e, Ok (dr_winner d))) answer; tick ;; Ret winner.

Definition persistPairing (keys : KeyRefs) (descriptor : SealedDescriptor)
    : Web (option string * string) :=
  let serverId := serverIdFor descriptor in
  winner ← raceCandidates;
  saveSessionKeys serverId keys ;;
  now ← clock;
  saveDescriptor (mkSession descriptor winner (Some (kr_directToken keys)) now) ;;
  Ret (winner, serverId).

Definition persistPreferred (session : PairedSession) (winner : option string) : Web unit :=
  current ← loadDescriptor;
  match current with
  | None => Ret tt
  | Some c =>
      if negb (bool_decide (sd_tunnelId (ps_descriptor c) = sd_tunnelId (ps_descriptor session)))
      then Ret tt
      else if decide (ps_preferredCandidate c = winner) then Ret tt
      else saveDescriptor (mkSession (ps_descriptor c) winner (ps_directToken c) (ps_pairedAt c))
  end.

(** [ResolvedRoute]: the candidate that won, and whether the tunnel is used
    ([hosted]: a broker is configured). *)
Definition resolveRoute (hosted : bool) (session : PairedSession) : Web (option string * bool) :=
  winner ← raceCandidates;
  persistPreferred session winner ;;
  match winner with
  | Some w => Ret (Some w, false)
  | None => Ret (None, hosted)
  end.

Definition reresolveActiveRoute (hosted : bool) : Web (option (option string * bool)) :=
  session ← loadDescriptor;
  match session with
  | None => Ret None
  | Some s =>
      keys ← loadSessionKeys (serverIdFor (ps_descriptor s));
      match keys with
      | None => Ret None
      | Some _ => route ← resolveRoute hosted s; Ret (Some route)
      end
  end.

Definition forgetActiveSession : Web unit :=
  session ← loadDescriptor;
  (match session with
   | Some s => clearSessionKeys (serverIdFor (ps_descriptor s))
   | None => Ret tt
   end) ;;
  clearDescriptor.

Definition forgetMachinePrefs (serverId : string) : Web unit :=
  attempt (openDb ;; tx_put (put_machines (delete serverId))) (fun _ => Ret tt).

Definition forgetMachine (serverId : string) : Web unit :=
  clearSessionKeys serverId ;;
  clearDescriptorFor serverId ;;
  forgetMachinePrefs serverId.
End SessionStore.
