(* ===== verification/DeviceLock.v ===== *)
(** * DeviceLock: the lock of a browser, as encryption at rest

    [apps/web/src/lib/lock-store.ts], [lock-controller.ts] and [sign-out.ts]
    over the stores of DeviceStore and the envelope of Envelope, and the
    browser as a whole: tabs that share the disk and run any number of these
    programs at once.  What the lock screen and the settings page do with an
    outcome is not here; clearing the service worker and its caches is left
    out of [eraseDevice], and the screens' stores out of [disconnectDevice]. *)

From S2P Require Import Prelude Bytes Noble Envelope DeviceStore.

Definition FREE_ATTEMPTS : Z := 3.
Definition MAX_LOCKOUT_MS : Z := 15 * 60000.
Definition WIPE_THRESHOLD : Z := 10.
Definition LOCAL_TOKEN_AAD_ID : string := "self-hosted".

Inductive UnlockOutcome :=
| Unlocked
| Wrong (attemptsLeft : option Z)
| Throttled (until : Z)
| Wiped
| NoLock.

(** [lockoutUntil]: exponential from the fourth attempt, capped. *)
Definition lockout_delay (attempts : Z) : Z :=
  Z.min (1000 * 2 ^ (attempts - FREE_ATTEMPTS)) MAX_LOCKOUT_MS.

Definition lockoutUntil (attempts now : Z) : option Z :=
  if attempts <=? FREE_ATTEMPTS then None else Some (now + lockout_delay attempts).

(** [Array.from(bytes, b => b.toString(16).padStart(2, "0")).join("")]. *)
Definition factorId (random : bytes) : string := Toy.toHex random.

Definition kind_name (k : FactorKind) : string :=
  match k with pin => "pin" | passkey => "passkey" end.

Definition is_pin (f : FactorRecord) : bool :=
  match fr_kind f with pin => true | passkey => false end.

Definition with_failed (attempts : Z) (until : option Z) (r : LockRecord) : LockRecord :=
  mkLock (lr_factors r) attempts until (lr_wipeAfter10 r) (lr_pinLength r) (lr_idleMinutes r)
    (lr_lockOnBackground r) (lr_enrolledAt r).

Definition with_factors (fs : list FactorRecord) (r : LockRecord) : LockRecord :=
  mkLock fs (lr_failedAttempts r) (lr_lockedUntil r) (lr_wipeAfter10 r) (lr_pinLength r)
    (lr_idleMinutes r) (lr_lockOnBackground r) (lr_enrolledAt r).

(** What [updateLockSettings] may patch. *)
Record LockPatch := mkPatch {
  lp_wipeAfter10 : option bool;
  lp_idleMinutes : option Z;
  lp_lockOnBackground : option bool;
}.

Definition patched (p : LockPatch) (r : LockRecord) : LockRecord :=
  mkLock (lr_factors r) (lr_failedAttempts r) (lr_lockedUntil r)
    (default (lr_wipeAfter10 r) (lp_wipeAfter10 p)) (lr_pinLength r)
    (default (lr_idleMinutes r) (lp_idleMinutes p))
    (default (lr_lockOnBackground r) (lp_lockOnBackground p)) (lr_enrolledAt r).

(** ** [lock-controller.ts] *)

Inductive LockReason := manual | idle | background | other_tab.

Definition lockNow (reason : LockReason) (t : Tab) : Tab :=
  if negb (isEnrolled t) || negb (isUnlocked t) then t
  else
    let t := if t_disconnect t then with_link None t else t in
    let t := with_mirror None (forget t) in
    match reason with other_tab => t | _ => with_posted true t end.

(** [duringCeremony]: entered, and left again when the timer fires. *)
Definition enter_ceremony (t : Tab) : Tab := with_ceremony (t_ceremonyDepth t + 1) t.
Definition leave_ceremony (t : Tab) : Tab := with_ceremony (Z.max 0 (t_ceremonyDepth t - 1)) t.
Definition ceremonyInProgress (t : Tab) : bool := 0 <? t_ceremonyDepth t.

Section LockStore.
Context {AE : Aead} {HK : Hkdf} {PB : Pbkdf2} {JS : KeysJson} {PG : Page}.

Definition requireMasterKey : Web Z :=
  held ← gets (fun e => masterKey (e_tab e));
  match held with Some mk => Ret mk | None => Throw DeviceLocked end.

Definition readLockRecord : Web (option LockRecord) :=
  attempt (openDb ;; tx_get d_lock) (fun _ => Ret None).

Definition writeLockRecord (r : LockRecord) : Web unit := openDb ;; tx_put (put_lock (Some r)).

Definition hydrateLockState : Web bool :=
  record ← readLockRecord;
  let enrolled := match record with Some r => bool_decide (lr_factors r <> []) | None => false end in
  modify (on_tab (setEnrolled enrolled)) ;; Ret enrolled.

Definition isEnrolledOnDisk : Web bool :=
  here ← gets (fun e => isEnrolled (e_tab e));
  if here : bool then Ret true
  else record ← readLockRecord; Ret (bool_decide (is_Some record)).

(** [await derivePinKey(...)]: the browser computes. *)
Definition derive (pin : string) (salt : bytes) (iterations : Z) : Web bytes :=
  tick ;; crypto (derivePinKey has_subtle pin salt iterations).

Definition localTokenAad : result EnvelopeError string := recordAad "local-token" LOCAL_TOKEN_AAD_ID.

Definition seal_token (mk : bytes) (token : string) (nonce : bytes) : result EnvelopeError SealedRecord :=
  aad ← localTokenAad;
  sealJson keys_stringify mk (SealedToken token) aad nonce.

Definition open_token (mk : bytes) (r : SealedRecord) : result EnvelopeError string :=
  aad ← localTokenAad;
  v ← openJson keys_parse text_decode mk r aad;
  match v with SealedToken token => Ok token | SealedKeys _ => Err NotJson end.

Definition restoreLocalToken (mk : Z) : Web unit :=
  attempt
    (openDb ;;
     sealed ← tx_get d_lockToken;
     match sealed with
     | None => Ret tt
     | Some r =>
         key ← gets (fun e => deref mk (e_tab e));
         token ← crypto (open_token key r);
         modify (on_tab (setLocalToken (Some token)))
     end)
    (fun _ => Ret tt).

(** The records of [KEY_STORE] still in the clear, sealed. *)
Definition seal_existing (mk : Z) (existing : list (string * KeyRecord))
    : Web (list (string * SealedRecord * StoredKeys)) :=
  loop (fun '(i, (serverId, value)) acc =>
          match value with
          | Sealed _ => Ret acc
          | Plain k =>
              key ← gets (fun e => deref mk (e_tab e));
              nonce ← randomBytes (10 + i) NONCE_BYTES;
              r ← crypto (seal_keys key k serverId nonce);
              Ret (acc ++ [(serverId, r, k)])
          end)
    (zip (seq 0 (length existing)) existing) [].

Definition put_sealed (sealedNow : list (string * SealedRecord * StoredKeys))
    (m : gmap string KeyRecord) : gmap string KeyRecord :=
  foldl (fun m '(serverId, r, _) => <[serverId := Sealed r]> m) m sealedNow.

Definition cache_all (sealedNow : list (string * SealedRecord * StoredKeys)) : Web unit :=
  loop (fun '(serverId, _, k) _ =>
          refs ← new_keys k;
          modify (on_tab (cacheKeys serverId refs)))
    sealedNow tt.

(** The token of the self-hosted path, read and sealed. *)
Definition seal_local (mk : Z) : Web (option (string * SealedRecord)) :=
  plainLocalToken ← readStored_here TOKEN_KEY;
  match truthy plainLocalToken with
  | None => Ret None
  | Some token =>
      key ← gets (fun e => deref mk (e_tab e));
      nonce ← randomBytes 4 NONCE_BYTES;
      r ← crypto (seal_token key token nonce);
      Ret (Some (token, r))
  end.

(** The commit, and what follows it. *)
Definition commit (mk : Z) (record : LockRecord) (sealedNow : list (string * SealedRecord * StoredKeys))
    (token : option (string * SealedRecord)) : Web unit :=
  tx_put (fun d =>
    let d := put_keys (put_sealed sealedNow) d in
    let d := match token with Some (_, r) => put_lockToken (Some r) d | None => d end in
    put_lock (Some record) d) ;;
  modify (on_tab (setMasterKey mk)) ;;
  cache_all sealedNow ;;
  match token with
  | Some (token, _) =>
      modify (on_tab (setLocalToken (Some token))) ;; clearStored_here TOKEN_KEY
  | None => Ret tt
  end.

Definition enrollPin (digits : string) (label : option string) : Web unit :=
  already ← isEnrolledOnDisk;
  if already : bool then Throw AlreadyLocked
  else
    random ← randomBytes 0 MASTER_KEY_BYTES;
    mk ← new_buffer (generateMasterKey random);
    let iterations := pbkdf2Iterations has_subtle in
    salt ← randomBytes 1 FACTOR_SALT_BYTES;
    tag ← randomBytes 2 8;
    let id := factorId tag in
    factorKey ← derive digits salt iterations;
    key ← gets (fun e => deref mk (e_tab e));
    nonce ← randomBytes 3 NONCE_BYTES;
    wrapped ← crypto (wrapMasterKey factorKey key "pin" id nonce);
    now ← clock;
    let factor := mkFactor pin id salt iterations wrapped now label in
    let record := mkLock [factor] 0 None false (Z.of_nat (String.length digits)) 15 false now in
    openDb ;;
    existing ← tx_get (fun d => entries (d_keys d));
    sealedNow ← seal_existing mk existing;
    token ← seal_local mk;
    commit mk record sealedNow token.

Definition addFactor (kind : FactorKind) (factorKey : bytes) (label : option string)
    (iterations : option Z) (salt : option bytes) : Web FactorRecord :=
  record ← readLockRecord;
  match record with
  | None => Throw NoPinYet
  | Some record =>
      mk ← requireMasterKey;
      tag ← randomBytes 2 8;
      let id := factorId tag in
      key ← gets (fun e => deref mk (e_tab e));
      nonce ← randomBytes 3 NONCE_BYTES;
      wrapped ← crypto (wrapMasterKey factorKey key (kind_name kind) id nonce);
      now ← clock;
      let factor := mkFactor kind id (default [] salt) (default 0 iterations) wrapped now label in
      writeLockRecord (with_factors (lr_factors record ++ [factor]) record) ;;
      Ret factor
  end.

Definition removeFactor (id : string) : Web unit :=
  record ← readLockRecord;
  match record with
  | None => Ret tt
  | Some record =>
      requireMasterKey ;;
      let factors := filter (fun f => fr_id f <> id) (lr_factors record) in
      if decide (factors = []) then Throw OnlyWay
      else writeLockRecord (with_factors factors record)
  end.

(** [eraseDevice]. *)
Definition eraseDevice : Web unit :=
  modify (on_tab forget) ;;
  modify (on_tab (setEnrolled false)) ;;
  attempt
    (openDb ;;
     tx_put (fun d => put_keys (fun _ => ∅) (put_descriptors (fun _ => ∅)
                        (put_lock None (put_lockToken None (put_census ∅ d))))))
    (fun _ => Ret tt) ;;
  modify (on_tab (with_mirror None)).

(** The body of [unlockWithPin]'s loop: [Some] outcome ends it. *)
Definition try_factor (pin : string) (record : LockRecord) (f : FactorRecord)
    (acc : option UnlockOutcome) : Web (option UnlockOutcome) :=
  match acc with
  | Some outcome => Ret (Some outcome)
  | None =>
      factorKey ← derive pin (fr_salt f) (fr_iterations f);
      attempt
        (key ← crypto (unwrapMasterKey factorKey (fr_wrapped f) (kind_name (fr_kind f)) (fr_id f));
         mk ← new_buffer key;
         writeLockRecord (with_failed 0 None record) ;;
         modify (on_tab (setMasterKey mk)) ;;
         restoreLocalToken mk ;;
         Ret (Some Unlocked))
        (fun _ => Ret None)
  end.

(** Once the throttle lets an attempt through: counted first, then verified. *)
Definition unlock_attempt (pin : string) (record : LockRecord) (now : Z) : Web UnlockOutcome :=
  let pinFactors := filter (fun f => is_pin f = true) (lr_factors record) in
  if decide (pinFactors = []) then Ret NoLock
  else
    let attempts := lr_failedAttempts record + 1 in
    writeLockRecord (with_failed attempts (lockoutUntil attempts now) record) ;;
    modify (add_guess now) ;;
    outcome ← loop (try_factor pin record) pinFactors None;
    match outcome with
    | Some outcome => Ret outcome
    | None =>
        if lr_wipeAfter10 record && (WIPE_THRESHOLD <=? attempts) then eraseDevice ;; Ret Wiped
        else Ret (Wrong (if lr_wipeAfter10 record then Some (WIPE_THRESHOLD - attempts) else None))
    end.

Definition throttled (record : LockRecord) (now : Z) : option Z :=
  match lr_lockedUntil record with
  | Some until => if negb (until =? 0) && (now <? until) then Some until else None
  | None => None
  end.

Definition unlockWithPin (pin : string) : Web UnlockOutcome :=
  record ← readLockRecord;
  match record with
  | None => Ret NoLock
  | Some record =>
      now ← clock;
      match throttled record now with
      | Some until => Ret (Throttled until)
      | None => unlock_attempt pin record now
      end
  end.

Definition unlockWithFactorKey (id : string) (factorKey : bytes) : Web UnlockOutcome :=
  record ← readLockRecord;
  match record with
  | None => Ret NoLock
  | Some record =>
      match head (filter (fun f => fr_id f = id) (lr_factors record)) with
      | None => Ret NoLock
      | Some f =>
          attempt
            (key ← crypto (unwrapMasterKey factorKey (fr_wrapped f) (kind_name (fr_kind f)) (fr_id f));
             mk ← new_buffer key;
             writeLockRecord (with_failed 0 None record) ;;
             modify (on_tab (setMasterKey mk)) ;;
             restoreLocalToken mk ;;
             Ret Unlocked)
            (fun _ => Ret (Wrong None))
      end
  end.

Definition updateLockSettings (patch : LockPatch) : Web unit :=
  record ← readLockRecord;
  match record with
  | None => Ret tt
  | Some record => requireMasterKey ;; writeLockRecord (patched patch record)
  end.

(** ** Per-session lock *)

Definition sessionLocks (serverId : string) (t : Tab) : gset string :=
  default ∅ (k ← cachedKeys serverId t; kr_sessionLocks k).

Definition isSessionLocked (serverId sessionName : string) (t : Tab) : bool :=
  bool_decide (sessionName ∈ sessionLocks serverId t).

Definition setSessionLock (serverId sessionName : string) (locked : bool) : Web unit :=
  mk ← requireMasterKey;
  openDb ;;
  stored ← tx_get (fun d => d_keys d !! serverId);
  match stored with
  | Some (Sealed r) =>
      key ← gets (fun e => deref mk (e_tab e));
      opened ← crypto (open_keys key r serverId);
      let before := default ∅ (sk_sessionLocks opened) in
      let marks := if locked then before ∪ {[sessionName]} else before ∖ {[sessionName]} in
      let next := mkStoredKeys (sk_c2s opened) (sk_s2c opened) (sk_confirm opened)
                    (sk_directToken opened) (Some marks) in
      refs ← new_keys next;
      nonce ← randomBytes 0 NONCE_BYTES;
      sealed ← crypto (seal_keys key next serverId nonce);
      tx_put (put_keys <[serverId := Sealed sealed]>) ;;
      modify (on_tab (cacheKeys serverId refs))
  | _ => Throw NoDevicePin
  end.

(** ** [sign-out.ts] *)

Definition clearCensusCache : Web unit :=
  attempt (openDb ;; tx_put (put_census ∅)) (fun _ => Ret tt).

Definition disconnectDevice : Web unit :=
  modify (on_tab (with_link None)) ;;
  clearStored_here TOKEN_KEY ;;
  clearStored_here LAST_SESSION_KEY ;;
  modify (on_tab (setLocalToken None)) ;;
  session ← loadDescriptor;
  (match session with
   | Some s => clearSessionKeys (serverIdFor (ps_descriptor s))
   | None => Ret tt
   end) ;;
  clearDescriptor ;;
  clearCensusCache.

(** ** Calls *)

(** What a page may call, with its arguments; keys that a pairing hands over
    are given by content. *)
Inductive Call :=
| CHydrateLock
| CEnrollPin (pin : string) (label : option string)
| CAddFactor (kind : FactorKind) (factorKey : bytes) (label : option string)
| CRemoveFactor (id : string)
| CUnlockWithPin (pin : string)
| CUnlockWithFactorKey (id : string) (factorKey : bytes)
| CUpdateLockSettings (patch : LockPatch)
| CSetSessionLock (serverId sessionName : string) (locked : bool)
| CEraseDevice
| CSaveSessionKeys (serverId : string) (keys : StoredKeys)
| CLoadSessionKeys (serverId : string)
| CPersistPairing (keys : StoredKeys) (descriptor : SealedDescriptor)
| CHydrateDescriptor
| CListPaired
| CActivate (serverId : string)
| CReresolve (hosted : bool)
| CForgetActive
| CForgetMachine (serverId : string)
| CDisconnect
| CJob (j : Job).

Inductive Reply :=
| RDone
| RBool (b : bool)
| ROutcome (o : UnlockOutcome)
| RKeys (k : option KeyRefs)
| RSession (s : option PairedSession)
| RIds (ids : list string)
| RRoute (r : option (option string * bool)).

Definition reply {A} (f : A -> Reply) (p : Web A) : Web Reply := a ← p; Ret (f a).

Definition program (c : Call) : Web Reply :=
  match c with
  | CHydrateLock => reply RBool hydrateLockState
  | CEnrollPin digits label => reply (fun _ => RDone) (enrollPin digits label)
  | CAddFactor kind key label => reply (fun _ => RDone) (addFactor kind key label None None)
  | CRemoveFactor id => reply (fun _ => RDone) (removeFactor id)
  | CUnlockWithPin digits => reply ROutcome (unlockWithPin digits)
  | CUnlockWithFactorKey id key => reply ROutcome (unlockWithFactorKey id key)
  | CUpdateLockSettings patch => reply (fun _ => RDone) (updateLockSettings patch)
  | CSetSessionLock sid name locked => reply (fun _ => RDone) (setSessionLock sid name locked)
  | CEraseDevice => reply (fun _ => RDone) eraseDevice
  | CSaveSessionKeys sid k =>
      refs ← new_keys k; reply (fun _ => RDone) (saveSessionKeys sid refs)
  | CLoadSessionKeys sid => reply RKeys (loadSessionKeys sid)
  | CPersistPairing k descriptor =>
      refs ← new_keys k; reply (fun _ => RDone) (persistPairing refs descriptor)
  | CHydrateDescriptor => reply RSession hydrateDescriptor
  | CListPaired => reply RIds listPairedServerIds
  | CActivate sid => reply RSession (activateDescriptor sid)
  | CReresolve hosted => reply RRoute (reresolveActiveRoute hosted)
  | CForgetActive => reply (fun _ => RDone) forgetActiveSession
  | CForgetMachine sid => reply (fun _ => RDone) (forgetMachine sid)
  | CDisconnect => reply (fun _ => RDone) disconnectDevice
  | CJob j => reply (fun _ => RDone) (job_program j)
  end.

(** ** The browser *)

(** The disk, the tabs by number, how many calls were made and what is left of
    each with the tab it is in, and the tabs a lock has still to be told to. *)
Record Browser := mkBrowser {
  b_disk : Disk;
  b_guesses : list Z;
  b_tabs : gmap nat Tab;
  b_calls : nat;
  b_threads : nat -> option (nat * Web Reply);
  b_channel : list nat;
}.

Inductive Event :=
| EOpen (t : nat)
| EReload (t : nat)
| ECall (t : nat) (c : Call) (d : Draw)
| ETurn (i : nat) (d : Draw)
| ELock (t : nat) (reason : LockReason)
| EHear (t : nat)
| EConnect (t : nat) (keys : KeyRefs)
| ERegister (t : nat) (b : bool)
| ECeremony (t : nat) (enter : bool).

Definition env_of (b : Browser) (tab : Tab) : Env := mkEnv (b_disk b) tab (b_guesses b).

(** What a tab posted goes to every other tab. *)
Definition back (t : nat) (e : Env) (b : Browser) : Browser :=
  let others := filter (fun u => u <> t) (map_to_list (b_tabs b)).*1 in
  mkBrowser (e_disk e) (e_guesses e) (<[t := with_posted false (e_tab e)]> (b_tabs b)) (b_calls b) (b_threads b)
    (if t_posted (e_tab e) then b_channel b ++ others else b_channel b).

Definition with_threads (n : nat) (m : nat -> option (nat * Web Reply)) (b : Browser) : Browser :=
  mkBrowser (b_disk b) (b_guesses b) (b_tabs b) n m (b_channel b).
Definition with_channel (l : list nat) (b : Browser) : Browser :=
  mkBrowser (b_disk b) (b_guesses b) (b_tabs b) (b_calls b) (b_threads b) l.

Definition set_thread (i t : nat) (p : Web Reply) (m : nat -> option (nat * Web Reply))
    : nat -> option (nat * Web Reply) :=
  fun j => if decide (j = i) then Some (t, p) else m j.

Definition in_tab (t : nat) (f : Tab -> Tab) (b : Browser) : Browser :=
  match b_tabs b !! t with
  | None => b
  | Some tab => back t (on_tab f (env_of b tab)) b
  end.

(** Closing or reloading a page ends the calls it has under way. *)
Definition end_calls (t : nat) (b : Browser) : Browser :=
  with_threads (b_calls b)
    (fun i => match b_threads b i with
              | Some (u, p) => if decide (u = t) then None else Some (u, p)
              | None => None
              end) b.

Definition reload (t : nat) (b : Browser) : Browser :=
  let b := end_calls t b in
  let b := with_channel (filter (fun u => u <> t) (b_channel b)) b in
  in_tab t (fun tab => load_tab (t_mirror tab)) b.

Definition react (ev : Event) (b : Browser) : Browser :=
  match ev with
  | EOpen t =>
      match b_tabs b !! t with
      | Some _ => b
      | None => mkBrowser (b_disk b) (b_guesses b) (<[t := load_tab None]> (b_tabs b)) (b_calls b)
                  (b_threads b) (b_channel b)
      end
  | EReload t => reload t b
  | ECall t c d =>
      match b_tabs b !! t with
      | Some tab =>
          let '(e, p) := settle d (program c) (env_of b tab) in
          with_threads (S (b_calls b)) (set_thread (b_calls b) t p (b_threads b)) (back t e b)
      | None => b
      end
  | ETurn i d =>
      match b_threads b i with
      | None => b
      | Some (t, p) =>
          match b_tabs b !! t with
          | None => b
          | Some tab =>
              let '(e, p') := turn d p (env_of b tab) in
              with_threads (b_calls b) (set_thread i t p' (b_threads b)) (back t e b)
          end
      end
  | ELock t reason => in_tab t (lockNow reason) b
  | EHear t =>
      if decide (t ∈ b_channel b)
      then in_tab t (lockNow other_tab) (with_channel (filter (fun u => u <> t) (b_channel b)) b)
      else b
  | EConnect t keys => in_tab t (with_link (Some keys)) b
  | ERegister t on => in_tab t (registerDisconnect on) b
  | ECeremony t enter => in_tab t (if enter : bool then enter_ceremony else leave_ceremony) b
  end.

Fixpoint reacts (evs : list Event) (b : Browser) : Browser :=
  match evs with [] => b | ev :: evs => reacts evs (react ev b) end.

(** ** One tab, one call at a time

    A call with the draws of its turns: it ends, or the draws do, and then the
    page is closed where it stands and loaded again.  [LockGate] reads the lock
    record before it renders anything ([hydrateLockState]). *)

Definition calm_draw : Draw := mkDraw 0 false (fun _ n => replicate n 0) None.

Definition gate_load (e : Env) : Env :=
  (finish (fun _ => calm_draw) 0 hydrateLockState (on_tab (fun t => load_tab (t_mirror t)) e)).1.1.

Inductive Move :=
| MCall (c : Call) (draws : list Draw)
| MLock (reason : LockReason)
| MReload.

Definition move (m : Move) (e : Env) : Env :=
  match m with
  | MCall c draws =>
      let '(e', p) := turns draws (program c) e in
      if ended p then e' else gate_load e'
  | MLock reason => on_tab (lockNow reason) e
  | MReload => gate_load e
  end.

Definition moves (ms : list Move) (e : Env) : Env := foldl (fun e m => move m e) e ms.
End LockStore.
