(* ===== verification/DeviceLogic.v ===== *)
(** * DeviceLogic: reasoning about a page's programs

    [wp]: from here on, with draws that are [ok] and whatever else happens
    within [R] at an await, each step of a program is in [G] and the program
    ends in [Q].  One judgement serves a program alone and closed anywhere
    ([R] is equality and [G] an invariant of the state it leaves), and one
    that others interrupt. *)

From S2P Require Import Prelude Bytes Noble Envelope DeviceStore DeviceLock.

Section Wp.
Context (ok : Draw -> Prop) (R G : Env -> Env -> Prop).

Fixpoint wp {A} (p : Web A) (Q : Env -> result WebError A -> Prop) (e : Env) : Prop :=
  match p with
  | Ret a => Q e (Ok a)
  | Throw x => Q e (Err x)
  | Sync B q k => forall d, ok d -> G e (q d e).1 /\ wp (k (q d e).2) Q (q d e).1
  | Await B q k => forall e1, R e e1 -> forall d, ok d ->
      G e1 (q d e1).1 /\ wp (k (q d e1).2) Q (q d e1).1
  end.

Lemma wpd_mono {A} (p : Web A) (Q Q' : Env -> result WebError A -> Prop) e :
  wp p Q e -> (forall e' r, Q e' r -> Q' e' r) -> wp p Q' e.
Proof.
  intros Hp HQ. revert e Hp. induction p as [a|x|B q k IH|B q k IH]; simpl; intros e Hp; auto.
  - intros d Hd. destruct (Hp d Hd). auto.
  - intros e1 He1 d Hd. destruct (Hp e1 He1 d Hd). auto.
Qed.

Definition then_ {A B} (f : A -> Web B) (Q : Env -> result WebError B -> Prop)
    (e : Env) (r : result WebError A) : Prop :=
  match r with Ok a => wp (f a) Q e | Err x => Q e (Err x) end.

Lemma wpd_bind {A B} (p : Web A) (f : A -> Web B) Q e :
  wp p (then_ f Q) e -> wp (p ≫= f) Q e.
Proof.
  revert e. induction p as [a|x|C q k IH|C q k IH]; simpl; intros e Hp; auto.
  - intros d Hd. destruct (Hp d Hd) as [HG Hk]. split; [done|]. by apply IH.
  - intros e1 He1 d Hd. destruct (Hp e1 He1 d Hd) as [HG Hk]. split; [done|]. by apply IH.
Qed.

Definition caught {A} (h : WebError -> Web A) (Q : Env -> result WebError A -> Prop)
    (e : Env) (r : result WebError A) : Prop :=
  match r with Ok a => Q e (Ok a) | Err x => wp (h x) Q e end.

Lemma wp_attempt {A} (p : Web A) h Q e : wp p (caught h Q) e -> wp (attempt p h) Q e.
Proof.
  revert e. induction p as [a|x|C q k IH|C q k IH]; simpl; intros e Hp; auto.
  - intros d Hd. destruct (Hp d Hd) as [HG Hk]. split; [done|]. by apply IH.
  - intros e1 He1 d Hd. destruct (Hp e1 He1 d Hd) as [HG Hk]. split; [done|]. by apply IH.
Qed.

Lemma wp_sync {B} (q : Op B) Q e :
  (forall d, ok d -> G e (q d e).1 /\ Q (q d e).1 (q d e).2) -> wp (sync q) Q e.
Proof. intros Hq d Hd. destruct (Hq d Hd) as [HG HQ]. split; [done|]. by destruct (q d e).2. Qed.

Lemma wp_answer {B} (r : result WebError B) (Q : Env -> result WebError B -> Prop) e :
  Q e r -> wp (answer r) Q e.
Proof. by destruct r. Qed.

Lemma wp_crypto {B} (r : result EnvelopeError B) (Q : Env -> result WebError B -> Prop) e :
  match r with Ok b => Q e (Ok b) | Err x => Q e (Err (Crypto x)) end -> wp (crypto r) Q e.
Proof. by destruct r. Qed.

Lemma wp_loop {X A} (f : X -> A -> Web A) (I : list X -> A -> Env -> Prop)
    (Q : Env -> result WebError A -> Prop) :
  (forall x l acc e, I (x :: l) acc e ->
     wp (f x acc) (fun e' r => match r with Ok acc' => I l acc' e' | Err y => Q e' (Err y) end) e) ->
  (forall acc e, I [] acc e -> Q e (Ok acc)) ->
  forall l acc e, I l acc e -> wp (loop f l acc) Q e.
Proof.
  intros Hf HQ l. induction l as [|x l IH]; intros acc e HI; simpl; [by apply HQ|].
  apply wpd_bind. eapply wpd_mono; [exact (Hf _ _ _ _ HI)|]. intros e' [acc'|y]; simpl; [apply IH|done].
Qed.
End Wp.

#[global] Arguments wp : simpl never.

(** On to what follows, without looking into the programs. *)
Ltac next := cbn [then_ caught].

(** ** What the judgement says of a run *)

Lemma wpd_settle {A} ok R G (p : Web A) Q e d :
  ok d -> wp ok R G p Q e -> wp ok R G (settle d p e).2 Q (settle d p e).1.
Proof.
  intros Hd. revert e. induction p as [a|x|B q k IH|B q k IH]; simpl; intros e Hp; [done|done| |done].
  destruct (Hp d Hd) as [_ Hk]. destruct (q d e) as [e' r] eqn:Hq. simpl in *. by apply IH.
Qed.

(** Each state a lone program leaves satisfies [C]. *)
Definition keeps (C : Env -> Prop) : Env -> Env -> Prop := fun _ e' => C e'.

Lemma settle_keeps {A} ok C (p : Web A) Q e d :
  ok d -> C e -> wp ok eq (keeps C) p Q e -> C (settle d p e).1.
Proof.
  intros Hd. revert e. induction p as [a|x|B q k IH|B q k IH]; simpl; intros e HC Hp; [done|done| |done].
  destruct (Hp d Hd) as [HG Hk]. destruct (q d e) as [e' r] eqn:Hq. simpl in *. by apply IH.
Qed.

Lemma turn_keeps {A} ok C (p : Web A) Q e d :
  ok d -> C e -> wp ok eq (keeps C) p Q e ->
  C (turn d p e).1 /\ wp ok eq (keeps C) (turn d p e).2 Q (turn d p e).1.
Proof.
  intros Hd HC Hp. destruct p as [a|x|B q k|B q k].
  1-3: split; [exact (settle_keeps ok C _ Q e d Hd HC Hp)|exact (wpd_settle _ _ _ _ _ _ _ Hd Hp)].
  simpl in *. destruct (Hp e eq_refl d Hd) as [HG Hk]. destruct (q d e) as [e' r]. simpl in *.
  split; [exact (settle_keeps ok C _ Q e' d Hd HG Hk)|exact (wpd_settle _ _ _ _ _ _ _ Hd Hk)].
Qed.

Lemma turns_keep {A} ok C draws (p : Web A) Q e :
  Forall ok draws -> C e -> wp ok eq (keeps C) p Q e ->
  C (turns draws p e).1 /\ wp ok eq (keeps C) (turns draws p e).2 Q (turns draws p e).1.
Proof.
  intros Hd. revert p e. induction Hd as [|d draws Hd Hds IH]; intros p e HC Hp; simpl; [done|].
  destruct (turn_keeps ok C p Q e d Hd HC Hp) as [HC' Hp']. destruct (turn d p e) as [e' p']. by apply IH.
Qed.

Lemma wp_finish {A} ok G (p : Web A) Q e draws n :
  (forall i, ok (draws i)) -> wp ok eq G p Q e ->
  Q (finish draws n p e).1.1 (finish draws n p e).1.2.
Proof.
  intros Hd. revert n e. induction p as [a|x|B q k IH|B q k IH]; simpl; intros n e Hp; [done|done| |].
  - destruct (Hp _ (Hd n)) as [_ Hk]. destruct (q (draws n) e) as [e' r]. by apply IH.
  - destruct (Hp e eq_refl _ (Hd (S n))) as [_ Hk]. destruct (q (draws (S n)) e) as [e' r]. by apply IH.
Qed.

(** ** Rules for the primitives *)

Section Rules.
Context (ok : Draw -> Prop) (R G : Env -> Env -> Prop).
Notation wp := (wp ok R G).

Lemma wp_gets {B} (f : Env -> B) Q e : G e e -> Q e (Ok (f e)) -> wp (gets f) Q e.
Proof. intros HG HQ. apply wp_sync. intros d _. by split. Qed.

Lemma wp_modify f Q e : G e (f e) -> Q (f e) (Ok tt) -> wp (modify f) Q e.
Proof. intros HG HQ. apply wp_sync. intros d _. by split. Qed.

Lemma wp_clock Q e : G e e -> (forall d, ok d -> Q e (Ok (dr_now d))) -> wp clock Q e.
Proof. intros HG HQ. apply wp_sync. intros d Hd. split; [done|]. by apply HQ. Qed.

Lemma wp_random slot n Q e :
  G e e -> (forall d, ok d -> Q e (Ok (dr_rand d slot n))) -> wp (randomBytes slot n) Q e.
Proof. intros HG HQ. apply wp_sync. intros d Hd. split; [done|]. by apply HQ. Qed.

Lemma wp_new_buffer bs Q e :
  let e' := on_tab (fun t => (alloc bs t).1) e in
  G e e' -> Q e' (Ok (t_next (e_tab e))) -> wp (new_buffer bs) Q e.
Proof. intros e' HG HQ. apply wp_sync. intros d _. by split. Qed.

Lemma wp_new_keys k Q e :
  (forall t r, alloc_keys k (e_tab e) = (t, r) ->
     G e (on_tab (fun _ => t) e) /\ Q (on_tab (fun _ => t) e) (Ok r)) -> wp (new_keys k) Q e.
Proof. intros HQ. apply wp_sync. intros d _. destruct (alloc_keys k (e_tab e)) as [t r]. simpl. auto. Qed.

Lemma wp_tick Q e : (forall e1, R e e1 -> G e1 e1 /\ Q e1 (Ok tt)) -> wp tick Q e.
Proof. intros HQ e1 He1 d Hd. simpl. by apply HQ. Qed.

Lemma wp_openDb Q e :
  (forall e1, R e e1 -> G e1 e1 /\ Q e1 (Ok tt) /\
     ((exists d, ok d /\ dr_fault d = true) -> Q e1 (Err IndexedDb))) -> wp openDb Q e.
Proof.
  intros HQ e1 He1 d Hd. destruct (HQ e1 He1) as (HG & H1 & H2). split; [done|]. apply wp_answer.
  simpl. destruct (dr_fault d) eqn:Hf; [|done]. apply H2. by exists d.
Qed.

Lemma wp_tx {B} (f : Disk -> Disk * B) Q e :
  (forall e1, R e e1 ->
     let e2 := on_disk (fun _ => (f (e_disk e1)).1) e1 in
     G e1 e2 /\ (forall e3, R e2 e3 -> G e3 e3 /\ Q e3 (Ok (f (e_disk e1)).2)) /\
     ((exists d, ok d /\ dr_fault d = true) -> G e1 e1 /\ Q e1 (Err IndexedDb))) ->
  wp (tx f) Q e.
Proof.
  intros HQ. unfold tx. apply wpd_bind. intros e1 He1 d Hd. specialize (HQ e1 He1).
  destruct HQ as (HG & HOk & HErr). destruct (dr_fault d) eqn:Hf.
  - destruct HErr as [HG' HQ']; [by exists d|]. by split.
  - destruct (f (e_disk e1)) as [disk b]. split; [done|]. apply wpd_bind, wp_tick.
    intros e3 He3. by apply HOk.
Qed.

Lemma wpd_get {B} (f : Disk -> B) Q e :
  (forall e1, R e e1 ->
     G e1 e1 /\ (forall e3, R e1 e3 -> G e3 e3 /\ Q e3 (Ok (f (e_disk e1)))) /\
     ((exists d, ok d /\ dr_fault d = true) -> Q e1 (Err IndexedDb))) ->
  wp (tx_get f) Q e.
Proof.
  intros HQ. apply wp_tx. intros e1 He1. destruct (HQ e1 He1) as (HG & HOk & HErr). destruct e1.
  repeat split; auto.
  - apply HOk. done.
  - by apply HOk.
Qed.
End Rules.

(** The same for a program with nobody else about. *)
Section Alone.
Context (ok : Draw -> Prop) (C : Env -> Prop).
Notation wp := (wp ok eq (keeps C)).

Lemma alone_openDb Q e : C e -> Q e (Ok tt) -> Q e (Err IndexedDb) -> wp openDb Q e.
Proof. intros HC H1 H2. apply wp_openDb. by intros e1 <-. Qed.

Lemma alone_get {B} (f : Disk -> B) Q e :
  C e -> Q e (Ok (f (e_disk e))) -> Q e (Err IndexedDb) -> wp (tx_get f) Q e.
Proof. intros HC H1 H2. apply wpd_get. intros e1 <-. split; [done|]. split; [|done]. by intros e3 <-. Qed.

Lemma alone_put (f : Disk -> Disk) Q e :
  C e -> C (on_disk f e) -> Q (on_disk f e) (Ok tt) -> Q e (Err IndexedDb) -> wp (tx_put f) Q e.
Proof.
  intros HC HC' H1 H2. apply wp_tx. intros e1 <-. simpl. split; [done|]. split; [|done].
  by intros e3 <-.
Qed.

Lemma alone_tick Q e : C e -> Q e (Ok tt) -> wp tick Q e.
Proof. intros HC HQ. apply wp_tick. by intros e1 <-. Qed.

(** The database without faults. *)
Hypothesis calm : forall d, ok d -> dr_fault d = false.

Lemma calm_never : ~ exists d, ok d /\ dr_fault d = true.
Proof. intros (d & Hd & Hf). by rewrite (calm d Hd) in Hf. Qed.

Lemma calm_openDb Q e : C e -> Q e (Ok tt) -> wp openDb Q e.
Proof. intros HC H1. apply wp_openDb. intros e1 <-. split; [done|]. split; [done|]. by intros ?%calm_never. Qed.

Lemma calm_get {B} (f : Disk -> B) Q e : C e -> Q e (Ok (f (e_disk e))) -> wp (tx_get f) Q e.
Proof.
  intros HC H1. apply wpd_get. intros e1 <-. split; [done|].
  split; [by intros e3 <-|by intros ?%calm_never].
Qed.

Lemma calm_put (f : Disk -> Disk) Q e :
  C (on_disk f e) -> Q (on_disk f e) (Ok tt) -> wp (tx_put f) Q e.
Proof.
  intros HC H1. apply wp_tx. intros e1 <-. simpl. split; [done|].
  split; [by intros e3 <-|by intros ?%calm_never].
Qed.
End Alone.
