(* ===== verification/DeviceSafety.v ===== *)
(** * DeviceSafety: what the lock keeps to, wherever a page is closed

    One tab, one call at a time, each of them closed anywhere and with a
    database that may fail: no key lies on the disk in the clear next to a
    lock, and none is sealed that nothing opens ([keys_at_rest]).  Enrolling is
    described in full ([enrolled]). *)

From S2P Require Import Prelude Bytes Noble Envelope DeviceStore DeviceLock DeviceLogic.

(** AES-GCM authenticates: what opens a ciphertext, under whatever key, opens
    it to what was sealed. *)
Class AeadBinds `{Aead} := {
  aead_binds key key' iv aad pt pt' :
    aead_decrypt key' iv aad (aead_encrypt key iv aad pt) = Some pt' -> pt' = pt;
}.

Section Sealing.
Context {AE : Aead} {AL : AeadLaws} {HK : Hkdf} {HL : HkdfLaws} {PB : Pbkdf2} {PL : Pbkdf2Laws}
  {JS : KeysJson} {JL : KeysJsonLaws} {PG : Page}.

Lemma openJson_sealJson mk v aad nonce r :
  length nonce = NONCE_BYTES -> sealJson keys_stringify mk v aad nonce = Ok r ->
  openJson keys_parse text_decode mk r aad = Ok v.
Proof.
  intros Hn. unfold sealJson, openJson. destruct (keys_parse_back v) as (s & -> & Hp). intros Hs.
  rewrite (open_seal _ _ _ _ _ Hn Hs). simpl. by rewrite Hp.
Qed.

(** The keys a sealed record gives back. *)
Definition low_bytes (k : StoredKeys) : StoredKeys :=
  mkStoredKeys (map (fun n => n mod 256) (sk_c2s k)) (map (fun n => n mod 256) (sk_s2c k))
    (map (fun n => n mod 256) (sk_confirm k)) (sk_directToken k) (sk_sessionLocks k).

Lemma open_seal_keys mk k sid nonce r :
  length nonce = NONCE_BYTES -> seal_keys mk k sid nonce = Ok r -> open_keys mk r sid = Ok (low_bytes k).
Proof.
  intros Hn. unfold seal_keys, open_keys. destruct (recordAad "session-keys" sid) as [aad|]; simpl; [|done].
  intros Hs. by rewrite (openJson_sealJson _ _ _ _ _ Hn Hs).
Qed.

Lemma open_seal_token mk token nonce r :
  length nonce = NONCE_BYTES -> seal_token mk token nonce = Ok r -> open_token mk r = Ok token.
Proof.
  intros Hn. unfold seal_token, open_token. destruct localTokenAad as [aad|]; simpl; [|done].
  intros Hs. by rewrite (openJson_sealJson _ _ _ _ _ Hn Hs).
Qed.

(** A factor that gives the master key to who has its own key. *)
Definition wraps (mk : bytes) (f : FactorRecord) : Prop :=
  exists fk nonce, length nonce = NONCE_BYTES /\
    wrapMasterKey fk mk (kind_name (fr_kind f)) (fr_id f) nonce = Ok (fr_wrapped f).

Lemma wraps_length mk f : wraps mk f -> length mk = MASTER_KEY_BYTES.
Proof.
  intros (fk & n & _ & Hw). unfold wrapMasterKey, assertKey in Hw.
  destruct (length mk =? MASTER_KEY_BYTES)%nat eqn:Hl; [|done]. by apply Nat.eqb_eq.
Qed.

Context {AB : AeadBinds}.

Lemma unwrap_binds mk f fk mk' :
  wraps mk f -> unwrapMasterKey fk (fr_wrapped f) (kind_name (fr_kind f)) (fr_id f) = Ok mk' -> mk' = mk.
Proof.
  intros (fk0 & n & Hn & Hw). unfold wrapMasterKey, unwrapMasterKey, assertKey in *.
  destruct (negb _); [done|]. simpl in Hw.
  destruct (wrappingKey fk0 _ _) as [wk0|]; [|done]. simpl in Hw.
  destruct (wrapAad _ _) as [aad|]; [|done]. simpl in Hw.
  destruct (wrappingKey fk _ _) as [wk|]; [|done]. simpl.
  apply seal_ok in Hw as (_ & _ & Hw).
  destruct (open wk (fr_wrapped f) aad) as [pt|] eqn:Ho; [|done]. apply open_ok in Ho.
  rewrite Hw in Ho. simpl in Ho. apply aead_binds in Ho as ->. simpl.
  destruct (negb _); [done|]. by intros [= <-].
Qed.
End Sealing.

(** ** Steps that leave the lock alone *)

(** The lock record, what is sealed and the key in memory stay; records of
    machines may go. *)
Record mild (e e' : Env) : Prop := {
  mild_lock : d_lock (e_disk e') = d_lock (e_disk e);
  mild_token : d_lockToken (e_disk e') = d_lockToken (e_disk e);
  mild_keys : d_keys (e_disk e') ⊆ d_keys (e_disk e);
  mild_held : t_masterKeyRef (e_tab e') = t_masterKeyRef (e_tab e);
  mild_enrolled : t_enrolledRef (e_tab e') = t_enrolledRef (e_tab e);
  mild_heap l : l < t_next (e_tab e) -> t_heap (e_tab e') !! l = t_heap (e_tab e) !! l;
  mild_next : t_next (e_tab e) <= t_next (e_tab e');
  mild_guesses : e_guesses e' = e_guesses e;
}.

#[export] Instance mild_preorder : PreOrder mild.
Proof.
  split; [done|]. intros e1 e2 e3 [] []. split; try congruence; [by etrans| |lia].
  intros l Hl. rewrite mild_heap1 by lia. by apply mild_heap0.
Qed.

Definition any (d : Draw) : Prop := True.

(** All its steps are mild. *)
Definition gentle {A} (p : Web A) : Prop := forall e, wp any eq mild p (fun _ _ => True) e.

Lemma gentle_ret {A} (a : A) : gentle (Ret a).
Proof. done. Qed.
Lemma gentle_throw {A} x : gentle (Throw x : Web A).
Proof. done. Qed.

Lemma gentle_bind {A B} (p : Web A) (f : A -> Web B) :
  gentle p -> (forall a, gentle (f a)) -> gentle (p ≫= f).
Proof.
  intros Hp Hf e. apply wpd_bind. eapply wpd_mono; [apply Hp|]. intros e' [a|x] _; simpl; [apply Hf|done].
Qed.

Lemma gentle_attempt {A} (p : Web A) h : gentle p -> (forall x, gentle (h x)) -> gentle (attempt p h).
Proof.
  intros Hp Hh e. apply wp_attempt. eapply wpd_mono; [apply Hp|]. intros e' [a|x] _; simpl; [done|apply Hh].
Qed.

Lemma gentle_loop {X A} (f : X -> A -> Web A) l acc :
  (forall x acc, gentle (f x acc)) -> gentle (loop f l acc).
Proof.
  intros Hf. revert acc. induction l as [|x l IH]; intros acc; simpl; [done|].
  apply gentle_bind; [apply Hf|intros; apply IH].
Qed.

Lemma gentle_sync {B} (q : Op B) : (forall d e, mild e (q d e).1) -> gentle (sync q).
Proof. intros Hq e. apply wp_sync. intros d _. split; [apply Hq|done]. Qed.

Lemma gentle_gets {B} (f : Env -> B) : gentle (gets f).
Proof. by apply gentle_sync. Qed.
Lemma gentle_clock : gentle clock.
Proof. by apply gentle_sync. Qed.
Lemma gentle_random slot n : gentle (randomBytes slot n).
Proof. by apply gentle_sync. Qed.
Lemma gentle_modify f : (forall e, mild e (f e)) -> gentle (modify f).
Proof. intros Hf. apply gentle_sync. intros d e. apply Hf. Qed.
Lemma gentle_crypto {B} (r : result EnvelopeError B) : gentle (crypto r).
Proof. by destruct r. Qed.
Lemma gentle_tick : gentle tick.
Proof. intros e. apply wp_tick. by intros e1 <-. Qed.
Lemma gentle_openDb : gentle openDb.
Proof. intros e. apply wp_openDb. by intros e1 <-. Qed.
Lemma gentle_get {B} (f : Disk -> B) : gentle (tx_get f).
Proof. intros e. apply wpd_get. intros e1 <-. split; [done|]. split; [|done]. by intros e3 <-. Qed.
Lemma gentle_put f : (forall e, mild e (on_disk f e)) -> gentle (tx_put f).
Proof.
  intros Hf e. apply wp_tx. intros e1 <-. simpl. split; [apply Hf|]. split; [|done]. by intros e3 <-.
Qed.

Lemma alloc_mild bs e : mild e (on_tab (fun t => (alloc bs t).1) e).
Proof.
  split; simpl; try done; [|lia]. intros l Hl. rewrite lookup_insert_ne by lia. done.
Qed.

Lemma gentle_new_keys k : gentle (new_keys k).
Proof.
  apply gentle_sync. intros d e. simpl.
  split; simpl; try done; [|lia]. intros l Hl. by rewrite !lookup_insert_ne by lia.
Qed.

Lemma gentle_race : gentle raceCandidates.
Proof. apply gentle_bind; [|intros; apply gentle_bind; [apply gentle_tick|done]]. intros e e1 <- d _. by split. Qed.

Create HintDb gentle.
#[export] Hint Resolve gentle_ret gentle_throw gentle_gets gentle_clock gentle_random gentle_crypto
  gentle_tick gentle_openDb gentle_get gentle_new_keys gentle_race : gentle.

Ltac gentle :=
  repeat first
    [ progress intros
    | solve [auto with gentle]
    | simple apply gentle_modify; intros; by split
    | simple apply gentle_put; intros; split; simpl; try done; try lia; apply delete_subseteq
    | simple apply gentle_attempt
    | simple apply gentle_loop
    | simple apply gentle_bind
    | case_match ].

Section Gentle.
Context {AE : Aead} {HK : Hkdf} {PB : Pbkdf2} {JS : KeysJson} {PG : Page}.

Lemma gentle_loadSessionKeys sid : gentle (loadSessionKeys sid).
Proof. unfold loadSessionKeys. gentle. Qed.
Lemma gentle_clearSessionKeys sid : gentle (clearSessionKeys sid).
Proof. unfold clearSessionKeys. gentle. Qed.
Lemma gentle_saveDescriptor s : gentle (saveDescriptor s).
Proof. unfold saveDescriptor, writeMirror, start_job. gentle. Qed.
Lemma gentle_loadDescriptor : gentle loadDescriptor.
Proof. unfold loadDescriptor. gentle. Qed.
Lemma gentle_clearDescriptor : gentle clearDescriptor.
Proof. unfold clearDescriptor, loadDescriptor, start_job. gentle. Qed.
#[local] Hint Resolve gentle_loadSessionKeys gentle_clearSessionKeys gentle_saveDescriptor
  gentle_loadDescriptor gentle_clearDescriptor : gentle.

Lemma gentle_hydrateDescriptor : gentle hydrateDescriptor.
Proof. unfold hydrateDescriptor, writeMirror, clearDescriptorMirror. gentle. Qed.
Lemma gentle_listPaired : gentle listPairedServerIds.
Proof. unfold listPairedServerIds. gentle. Qed.
Lemma gentle_activate sid : gentle (activateDescriptor sid).
Proof. unfold activateDescriptor, writeMirror. gentle. Qed.
Lemma gentle_reresolve hosted : gentle (reresolveActiveRoute hosted).
Proof. unfold reresolveActiveRoute, resolveRoute, persistPreferred. gentle. Qed.
Lemma gentle_forgetActive : gentle forgetActiveSession.
Proof. unfold forgetActiveSession. gentle. Qed.
Lemma gentle_forgetMachine sid : gentle (forgetMachine sid).
Proof. unfold forgetMachine, clearDescriptorFor, forgetMachinePrefs. gentle. Qed.
Lemma gentle_job j : gentle (job_program j).
Proof. unfold job_program. gentle. Qed.
Lemma gentle_disconnect : gentle disconnectDevice.
Proof. unfold disconnectDevice, clearStored_here, clearCensusCache. gentle. Qed.
Lemma gentle_readLockRecord : gentle readLockRecord.
Proof. unfold readLockRecord. gentle. Qed.
Lemma gentle_restoreLocalToken mk : gentle (restoreLocalToken mk).
Proof. unfold restoreLocalToken. gentle. Qed.
Lemma gentle_derive digits salt n : gentle (derive digits salt n).
Proof. unfold derive. gentle. Qed.
Lemma gentle_requireMasterKey : gentle requireMasterKey.
Proof. unfold requireMasterKey. gentle. Qed.
End Gentle.
#[export] Hint Resolve gentle_loadSessionKeys gentle_hydrateDescriptor gentle_listPaired gentle_activate
  gentle_reresolve gentle_forgetActive gentle_forgetMachine gentle_job gentle_disconnect
  gentle_readLockRecord gentle_restoreLocalToken gentle_derive gentle_requireMasterKey : gentle.

(** ** Keys at rest *)

Section AtRest.
Context {AE : Aead} {AL : AeadLaws} {AB : AeadBinds} {HK : Hkdf} {HL : HkdfLaws} {PB : Pbkdf2}
  {PL : Pbkdf2Laws} {JS : KeysJson} {JL : KeysJsonLaws} {PG : Page}.

Record disk_locked (mk : bytes) (record : LockRecord) (d : Disk) : Prop := {
  dl_factors : lr_factors record <> [];
  dl_wraps f : f ∈ lr_factors record -> wraps mk f;
  dl_keys sid r : d_keys d !! sid = Some r -> exists s k, r = Sealed s /\ open_keys mk s sid = Ok k;
  dl_token r : d_lockToken d = Some r -> exists token, open_token mk r = Ok token;
}.

Record disk_open (d : Disk) : Prop := {
  do_keys sid r : d_keys d !! sid = Some r -> isSealed r = false;
  do_token : d_lockToken d = None;
}.

(** With a lock: every key record is sealed and opens, for its own machine,
    under the one master key each factor gives.  Without: none is sealed. *)
Definition disk_ok (d : Disk) : Prop :=
  match d_lock d with
  | Some record => exists mk, disk_locked mk record d
  | None => disk_open d
  end.

Definition holds (mk : bytes) (l : Z) (t : Tab) : Prop := t_heap t !! l = Some mk /\ l < t_next t.

Definition tab_ok (mk : bytes) (t : Tab) : Prop :=
  t_enrolledRef t = true /\ forall l, t_masterKeyRef t = Some l -> holds mk l t.

(** And the page knows: it is enrolled, and what it holds is that key. *)
Definition sound (e : Env) : Prop :=
  match d_lock (e_disk e) with
  | Some record => exists mk, disk_locked mk record (e_disk e) /\ tab_ok mk (e_tab e)
  | None => disk_open (e_disk e) /\ t_enrolledRef (e_tab e) = false /\ t_masterKeyRef (e_tab e) = None
  end.

Definition ok_disk (e : Env) : Prop := disk_ok (e_disk e).

Lemma sound_disk e : sound e -> ok_disk e.
Proof. unfold sound, ok_disk, disk_ok. destruct (d_lock _); [intros (mk & ? & _); eauto|tauto]. Qed.

Lemma disk_locked_with mk record record' d d' :
  disk_locked mk record d -> lr_factors record' = lr_factors record ->
  d_keys d' ⊆ d_keys d -> d_lockToken d' = d_lockToken d -> disk_locked mk record' d'.
Proof.
  intros [] Hf Hk Ht. split; rewrite ?Hf, ?Ht; auto. intros sid r Hr. eapply dl_keys0, lookup_weaken; done.
Qed.

Lemma disk_open_with d d' :
  disk_open d -> d_keys d' ⊆ d_keys d -> d_lockToken d' = d_lockToken d -> disk_open d'.
Proof.
  intros [] Hk Ht. split; [|by rewrite Ht]. intros sid r Hr. eapply do_keys0, lookup_weaken; done.
Qed.

Lemma holds_mild mk l e e' : mild e e' -> holds mk l (e_tab e) -> holds mk l (e_tab e').
Proof.
  intros Hm [Hl Hn]. split; [|pose proof (mild_next _ _ Hm); lia]. by rewrite (mild_heap _ _ Hm).
Qed.

Lemma tab_ok_mild mk e e' : mild e e' -> tab_ok mk (e_tab e) -> tab_ok mk (e_tab e').
Proof.
  intros Hm [He Hh]. split; [by rewrite (mild_enrolled _ _ Hm)|].
  intros l Hl. rewrite (mild_held _ _ Hm) in Hl. eapply holds_mild; [done|]. by apply Hh.
Qed.

Lemma disk_ok_mild e e' : mild e e' -> ok_disk e -> ok_disk e'.
Proof.
  intros Hm. unfold ok_disk, disk_ok. rewrite (mild_lock _ _ Hm).
  pose proof (mild_keys _ _ Hm). pose proof (mild_token _ _ Hm).
  destruct (d_lock (e_disk e)) as [record|].
  - intros [mk Hd]. exists mk. by eapply disk_locked_with.
  - intros Hd. by eapply disk_open_with.
Qed.

Lemma sound_mild e e' : mild e e' -> sound e -> sound e'.
Proof.
  intros Hm. unfold sound. rewrite (mild_lock _ _ Hm), (mild_enrolled _ _ Hm), (mild_held _ _ Hm).
  pose proof (mild_keys _ _ Hm). pose proof (mild_token _ _ Hm).
  destruct (d_lock (e_disk e)) as [record|].
  - intros (mk & Hd & Ht). exists mk. split; [by eapply disk_locked_with|by eapply tab_ok_mild].
  - intros [Hd ?]. split; [by eapply disk_open_with|done].
Qed.

(** A mild program keeps what mild steps keep, whatever the draws. *)
Lemma gentle_keeps {A} (p : Web A) (ok : Draw -> Prop) (C : Env -> Prop) Q e :
  gentle p -> (forall e1 e2, mild e1 e2 -> C e1 -> C e2) -> C e ->
  (forall e' r, mild e e' -> Q e' r) -> wp ok eq (keeps C) p Q e.
Proof.
  intros Hp HC He HQ. specialize (Hp e). revert e He HQ Hp.
  induction p as [a|x|B q k IH|B q k IH]; simpl; intros e He HQ Hp; [by apply HQ|by apply HQ| |].
  - intros d _. destruct (Hp d I) as [Hm Hk]. split; [by eapply HC|].
    apply IH; [by eapply HC| |done]. intros e' r Hm'. apply HQ. by etrans.
  - intros e1 <- d _. destruct (Hp e eq_refl d I) as [Hm Hk]. split; [by eapply HC|].
    apply IH; [by eapply HC| |done]. intros e' r Hm'. apply HQ. by etrans.
Qed.

(** The draws of a call: enough random bytes; no fault in the calls that
    believe the database. *)
Definition trusting (c : Call) : bool :=
  match c with CHydrateLock | CEraseDevice | CUnlockWithPin _ => true | _ => false end.

Definition sized (d : Draw) : Prop :=
  forall slot n, length (dr_rand d slot n) = n /\ is_bytes (dr_rand d slot n).
Definition calm (d : Draw) : Prop := dr_fault d = false.
Definition fit (faults : bool) (d : Draw) : Prop := sized d /\ (faults = false -> calm d).

Notation alone faults := (wp (fit faults) eq (keeps ok_disk)).

Lemma alone_gentle {A} faults (p : Web A) Q e :
  gentle p -> ok_disk e -> (forall e' r, mild e e' -> Q e' r) -> alone faults p Q e.
Proof. intros Hp He HQ. apply gentle_keeps; [done|exact disk_ok_mild|done|done]. Qed.

Lemma alone_read faults Q e :
  ok_disk e -> Q e (Ok (d_lock (e_disk e))) -> (faults = true -> Q e (Ok None)) ->
  alone faults readLockRecord Q e.
Proof.
  intros HC H1 H2. unfold readLockRecord. apply wp_attempt, wpd_bind, wp_openDb. intros e1 <-.
  split; [done|]. split.
  - simpl. apply wpd_get. intros e1 <-. split; [done|]. split; [by intros e3 <-|].
    intros (d & Hd & Hf). simpl. apply H2. destruct faults; [done|]. destruct Hd as [_ Hc].
    rewrite (Hc eq_refl) in Hf. done.
  - intros (d & Hd & Hf). simpl. apply H2. destruct faults; [done|]. destruct Hd as [_ Hc].
    rewrite (Hc eq_refl) in Hf. done.
Qed.

Lemma alone_write faults record Q e :
  ok_disk e -> ok_disk (on_disk (put_lock (Some record)) e) ->
  Q (on_disk (put_lock (Some record)) e) (Ok tt) -> Q e (Err IndexedDb) ->
  alone faults (writeLockRecord record) Q e.
Proof.
  intros HC HC' H1 H2. unfold writeLockRecord. apply wpd_bind, alone_openDb; simpl; [done| |done].
  by apply alone_put.
Qed.

Lemma put_lock_locked mk record record' d :
  disk_locked mk record d -> lr_factors record' = lr_factors record ->
  disk_locked mk record' (put_lock (Some record') d).
Proof. intros Hd Hf. by eapply disk_locked_with. Qed.

Lemma put_lock_ok e mk record record' :
  disk_locked mk record (e_disk e) -> lr_factors record' = lr_factors record ->
  ok_disk (on_disk (put_lock (Some record')) e).
Proof. intros Hd Hf. exists mk. by eapply put_lock_locked. Qed.

Lemma setMasterKey_ok mk l t :
  holds mk l t -> tab_ok mk (setMasterKey l t).
Proof.
  intros [Hl Hn]. split; [done|]. intros l'. unfold setMasterKey.
  destruct (t_masterKeyRef t) as [old|]; simpl; [case_decide; simpl|]; intros [= <-]; try done.
  split; simpl; [|done]. by rewrite lookup_alter_ne.
Qed.

Lemma alloc_holds bs t : holds bs (t_next t) (alloc bs t).1.
Proof. split; simpl; [by rewrite lookup_insert_eq|lia]. Qed.

(** A call that starts on a sound page, ends on one, and may be closed anywhere. *)
Definition steady (faults : bool) {A} (p : Web A) : Prop :=
  forall e, sound e -> alone faults p (fun e' _ => sound e') e.

Lemma steady_gentle {A} faults (p : Web A) : gentle p -> steady faults p.
Proof. intros Hp e He. apply alone_gentle; [done|by apply sound_disk|]. intros e' r Hm. by eapply sound_mild. Qed.

Lemma steady_bind {A B} faults (p : Web A) (f : A -> Web B) :
  steady faults p -> (forall a, steady faults (f a)) -> steady faults (p ≫= f).
Proof.
  intros Hp Hf e He. apply wpd_bind. eapply wpd_mono; [by apply Hp|].
  intros e' [a|x] He'; next; [by apply Hf|done].
Qed.

Lemma steady_attempt {A} faults (p : Web A) h :
  steady faults p -> (forall x, steady faults (h x)) -> steady faults (attempt p h).
Proof.
  intros Hp Hh e He. apply wp_attempt. eapply wpd_mono; [by apply Hp|].
  intros e' [a|x] He'; next; [done|by apply Hh].
Qed.

Lemma steady_reply {A} faults (f : A -> Reply) p : steady faults p -> steady faults (reply f p).
Proof. intros Hp. apply steady_bind; [done|]. intros a. by apply steady_gentle. Qed.

(** A locked page, seen from the lock. *)
Lemma sound_locked e record :
  sound e -> d_lock (e_disk e) = Some record ->
  exists mk, disk_locked mk record (e_disk e) /\ tab_ok mk (e_tab e).
Proof. unfold sound. intros He Hl. by rewrite Hl in He. Qed.

Lemma sound_intro e record mk :
  d_lock (e_disk e) = Some record -> disk_locked mk record (e_disk e) -> tab_ok mk (e_tab e) -> sound e.
Proof. unfold sound. intros ->. eauto. Qed.

Lemma sound_open e :
  sound e -> d_lock (e_disk e) = None ->
  disk_open (e_disk e) /\ t_enrolledRef (e_tab e) = false /\ t_masterKeyRef (e_tab e) = None.
Proof. unfold sound. intros He Hl. by rewrite Hl in He. Qed.

(** Writing the lock record back with other counters or settings. *)
Lemma steady_write faults e record record' :
  sound e -> d_lock (e_disk e) = Some record -> lr_factors record' = lr_factors record ->
  alone faults (writeLockRecord record')
    (fun e' r => sound e' /\ (r = Ok tt -> e' = on_disk (put_lock (Some record')) e)) e.
Proof.
  intros He Hl Hf. destruct (sound_locked _ _ He Hl) as (mk & Hd & Ht).
  apply alone_write; [by apply sound_disk|by eapply put_lock_ok| |by split].
  split; [|done]. eapply sound_intro; [done|by eapply put_lock_locked|done].
Qed.

Lemma sound_settings (f : LockRecord -> LockRecord) faults e record :
  sound e -> d_lock (e_disk e) = Some record -> lr_factors (f record) = lr_factors record ->
  alone faults (writeLockRecord (f record)) (fun e' _ => sound e') e.
Proof.
  intros He Hl Hf. eapply wpd_mono; [by eapply steady_write|]. by intros e' r [? _].
Qed.

Lemma steady_updateLockSettings faults patch : steady faults (updateLockSettings patch).
Proof.
  intros e He. unfold updateLockSettings. apply wpd_bind, alone_read; [by apply sound_disk| |done].
  next. destruct (d_lock (e_disk e)) as [record|] eqn:Hl; [|done].
  apply wpd_bind. apply alone_gentle; [auto with gentle|by apply sound_disk|].
  intros e' [mk|x] Hm; next; [|by eapply sound_mild].
  assert (d_lock (e_disk e') = Some record) as Hl' by (by rewrite (mild_lock _ _ Hm)).
  apply (sound_settings (patched patch)); [by eapply sound_mild|done..].
Qed.

Lemma disk_locked_factors mk record fs d :
  disk_locked mk record d -> fs <> [] -> (forall f, f ∈ fs -> wraps mk f) ->
  disk_locked mk (with_factors fs record) (put_lock (Some (with_factors fs record)) d).
Proof. intros [] Hne Hfs. by split. Qed.

Lemma sound_factors faults e record mk fs :
  sound e -> d_lock (e_disk e) = Some record ->
  disk_locked mk record (e_disk e) -> tab_ok mk (e_tab e) ->
  fs <> [] -> (forall f, f ∈ fs -> wraps mk f) ->
  alone faults (writeLockRecord (with_factors fs record)) (fun e' _ => sound e') e.
Proof.
  intros He Hl Hd Ht Hne Hfs.
  pose proof (disk_locked_factors _ _ _ _ Hd Hne Hfs) as Hd'.
  apply alone_write; [by apply sound_disk|by exists mk| |done].
  by eapply sound_intro.
Qed.

Lemma steady_removeFactor faults id : steady faults (removeFactor id).
Proof.
  intros e He. unfold removeFactor. apply wpd_bind, alone_read; [by apply sound_disk| |done].
  next. destruct (d_lock (e_disk e)) as [record|] eqn:Hl; [|done].
  apply wpd_bind. apply alone_gentle; [auto with gentle|by apply sound_disk|].
  intros e' [l|x] Hm; next; [|by eapply sound_mild]. case_decide as Hne; [by eapply sound_mild|].
  assert (sound e') as He' by (by eapply sound_mild).
  assert (d_lock (e_disk e') = Some record) as Hl' by (by rewrite (mild_lock _ _ Hm)).
  destruct (sound_locked _ _ He' Hl') as (mk & Hd & Ht).
  eapply sound_factors; [done..|]. intros f [_ Hf]%list_elem_of_filter. by eapply dl_wraps.
Qed.

(** What [requireMasterKey] gives is the key of the lock. *)
Lemma require_holds faults e record mk Q :
  sound e -> d_lock (e_disk e) = Some record -> tab_ok mk (e_tab e) ->
  (forall l, holds mk l (e_tab e) -> Q e (Ok l)) -> Q e (Err DeviceLocked) ->
  alone faults requireMasterKey Q e.
Proof.
  intros He Hl [_ Ht] H1 H2. unfold requireMasterKey. apply wpd_bind, wp_gets; [by apply sound_disk|].
  next. unfold masterKey. destruct (t_masterKeyRef (e_tab e)) as [l|] eqn:Hr; [|done].
  by apply H1, Ht.
Qed.

Lemma holds_deref mk l t : holds mk l t -> deref l t = mk.
Proof. intros [Hl _]. unfold deref. by rewrite Hl. Qed.

Lemma alone_random faults slot n Q e :
  ok_disk e -> (forall bs, length bs = n -> Q e (Ok bs)) -> alone faults (randomBytes slot n) Q e.
Proof. intros HC HQ. apply wp_random; [done|]. intros d [Hd _]. apply HQ, Hd. Qed.

Lemma steady_addFactor faults kind key label iterations salt :
  steady faults (addFactor kind key label iterations salt).
Proof.
  intros e He. unfold addFactor. pose proof (sound_disk _ He) as HC.
  apply wpd_bind, alone_read; [done| |done].
  next. destruct (d_lock (e_disk e)) as [record|] eqn:Hl; [|done].
  destruct (sound_locked _ _ He Hl) as (mk & Hd & Ht).
  apply wpd_bind. eapply require_holds; [done..| |done]. intros l Hh. next.
  apply wpd_bind, alone_random; [done|]. intros tag _. next.
  apply wpd_bind, wp_gets; [done|]. next. rewrite (holds_deref _ _ _ Hh).
  apply wpd_bind, alone_random; [done|]. intros nonce Hn. next.
  apply wpd_bind, wp_crypto. destruct (wrapMasterKey _ _ _ _ _) as [w|] eqn:Hw; [|done]. next.
  apply wpd_bind, wp_clock; [done|]. intros d _. next. apply wpd_bind.
  eapply wpd_mono; [eapply sound_factors; [done..| |]|].
  - intros [? [=]]%app_nil.
  - intros f [Hf| ->%list_elem_of_singleton]%elem_of_app; [by eapply dl_wraps|].
    exists key, nonce. by split.
  - by intros e' [u|x].
Qed.

(** A lock has one master key. *)
Lemma disk_locked_unique mk mk' record d :
  disk_locked mk record d -> disk_locked mk' record d -> mk' = mk.
Proof.
  intros [Hne Hw _ _] [_ Hw' _ _]. destruct (lr_factors record) as [|f fs]; [done|].
  destruct (Hw' f) as (fk & n & Hn & Hf); [left|].
  eapply unwrap_binds; [apply Hw; left|]. by eapply unwrap_wrap.
Qed.

(** ** Saving keys *)

(** A record that may be put into a machine's slot. *)
Definition record_fits (e : Env) (sid : string) (r : KeyRecord) : Prop :=
  match d_lock (e_disk e) with
  | Some record => forall mk, disk_locked mk record (e_disk e) ->
      exists s k, r = Sealed s /\ open_keys mk s sid = Ok k
  | None => isSealed r = false
  end.

Lemma sound_put_key e sid r :
  sound e -> record_fits e sid r -> sound (on_disk (put_keys <[sid := r]>) e).
Proof.
  unfold sound, record_fits. simpl. destruct (d_lock (e_disk e)) as [record|].
  - intros (mk & Hd & Ht) Hr. specialize (Hr mk Hd). exists mk. split; [|done]. destruct Hd. split; simpl; auto.
    intros sid' r'. destruct (decide (sid' = sid)) as [->|Hne].
    + by rewrite lookup_insert_eq; intros [= <-].
    + rewrite lookup_insert_ne by done. auto.
  - intros [[] ?] Hr. split; [|done]. split; simpl; [|done].
    intros sid' r'. destruct (decide (sid' = sid)) as [->|Hne].
    + by rewrite lookup_insert_eq; intros [= <-].
    + rewrite lookup_insert_ne by done. apply do_keys0.
Qed.

Lemma alone_seal faults sid refs Q e :
  sound e -> (forall r, record_fits e sid r -> Q e (Ok r)) -> (forall x, Q e (Err x)) ->
  alone faults (sealKeysIfUnlocked sid refs) Q e.
Proof.
  intros He HOk HErr. pose proof (sound_disk _ He) as HC. unfold sealKeysIfUnlocked.
  apply wpd_bind, wp_gets; [done|]. next. unfold isEnrolled, masterKey. unfold record_fits, sound in *.
  destruct (d_lock (e_disk e)) as [record|].
  - destruct He as (mk & Hd & Hen & Ht). rewrite Hen. cbn [negb].
    destruct (t_masterKeyRef (e_tab e)) as [l|] eqn:Hr; [|apply HErr].
    apply wpd_bind, alone_random; [done|]. intros nonce Hn. next.
    apply wpd_bind, wp_crypto. destruct (seal_keys _ _ _ _) as [s|] eqn:Hs; [|apply HErr]. next.
    apply HOk. intros mk' Hd'. rewrite (disk_locked_unique _ _ _ _ Hd Hd').
    rewrite (holds_deref _ _ _ (Ht l eq_refl)) in Hs. eexists s, _. split; [done|].
    by eapply open_seal_keys.
  - destruct He as (Hd & Hen & Ht). rewrite Hen. cbn [negb]. by apply HOk.
Qed.

Lemma steady_openDb faults : steady faults openDb.
Proof. apply steady_gentle, gentle_openDb. Qed.

Lemma steady_saveSessionKeys faults sid refs : steady faults (saveSessionKeys sid refs).
Proof.
  unfold saveSessionKeys. apply steady_bind; [apply steady_openDb|]. intros _ e He.
  apply wpd_bind, alone_seal; [done| |done]. intros r Hr. next.
  pose proof (sound_put_key _ _ _ He Hr) as He'.
  apply wpd_bind, alone_put; [by apply sound_disk|by apply sound_disk| |done]. next.
  apply (steady_gentle faults); [|done]. destruct (isSealed r); [|done]. gentle.
Qed.

Lemma new_keys_mild k e t r : alloc_keys k (e_tab e) = (t, r) -> mild e (on_tab (fun _ => t) e).
Proof.
  intros [= <- _]. split; simpl; try done; [|lia]. intros l Hl. by rewrite !lookup_insert_ne by lia.
Qed.

(** On an unlocked page: what the handlers hold is the key of the lock. *)
Lemma alone_require faults Q e :
  sound e -> Q e (Err DeviceLocked) ->
  (forall l mk record, holds mk l (e_tab e) -> d_lock (e_disk e) = Some record ->
     disk_locked mk record (e_disk e) -> Q e (Ok l)) ->
  alone faults requireMasterKey Q e.
Proof.
  intros He H1 H2. unfold requireMasterKey. apply wpd_bind, wp_gets; [by apply sound_disk|]. next.
  unfold masterKey, sound in *. destruct (d_lock (e_disk e)) as [record|].
  - destruct He as (mk & Hd & Ht). destruct (t_masterKeyRef (e_tab e)) as [l|] eqn:Hr; [|done].
    apply (H2 l mk record); [by apply Ht|done..].
  - destruct He as (_ & _ & ->). done.
Qed.

Lemma steady_setSessionLock faults sid name locked : steady faults (setSessionLock sid name locked).
Proof.
  intros e He. pose proof (sound_disk _ He) as HC. unfold setSessionLock.
  apply wpd_bind, alone_require; [done|done|]. intros l mk record Hh Hl Hd. next.
  apply wpd_bind, alone_openDb; [done| |done]. next.
  apply wpd_bind, alone_get; [done| |done]. next.
  destruct (d_keys (e_disk e) !! sid) as [[k|r]|]; [done| |done].
  apply wpd_bind, wp_gets; [done|]. next. rewrite (holds_deref _ _ _ Hh).
  apply wpd_bind, wp_crypto. destruct (open_keys mk r sid) as [opened|]; [|done]. next.
  apply wpd_bind, wp_new_keys. intros t refs Ha. pose proof (new_keys_mild _ _ _ _ Ha) as Hm.
  split; [by eapply disk_ok_mild|]. next. set (e1 := on_tab (fun _ => t) e) in *.
  assert (sound e1) as He1 by (by eapply sound_mild).
  apply wpd_bind, alone_random; [by apply sound_disk|]. intros nonce Hn. next.
  apply wpd_bind, wp_crypto. destruct (seal_keys _ _ _ _) as [s|] eqn:Hs; [|done]. next.
  assert (sound (on_disk (put_keys <[sid := Sealed s]>) e1)) as He2.
  { apply sound_put_key; [done|]. unfold record_fits. rewrite (mild_lock _ _ Hm), Hl.
    intros mk' Hd'. rewrite (disk_locked_unique _ _ _ _ Hd Hd') in *. eexists s, _. split; [done|].
    by eapply open_seal_keys. }
  apply wpd_bind, alone_put; [by apply sound_disk|by apply sound_disk| |done]. next.
  apply (steady_gentle faults); [gentle|done].
Qed.

(** ** Unlocking *)

(** A lock with these factors is on the disk. *)
Definition factors_are (fs : list FactorRecord) (e : Env) : Prop :=
  sound e /\ exists record, d_lock (e_disk e) = Some record /\ lr_factors record = fs.

Lemma factors_mild fs e e' : mild e e' -> factors_are fs e -> factors_are fs e'.
Proof. intros Hm [He Hl]. split; [by eapply sound_mild|]. by rewrite (mild_lock _ _ Hm). Qed.

Lemma factors_disk fs e : factors_are fs e -> ok_disk e.
Proof. intros [He _]. by apply sound_disk. Qed.

(** The lock record written back with other counters. *)
Lemma alone_rewrite faults fs record' Q e :
  factors_are fs e -> lr_factors record' = fs ->
  Q e (Err IndexedDb) ->
  (let e' := on_disk (put_lock (Some record')) e in
   factors_are fs e' ->
   (forall l mk, holds mk l (e_tab e) -> (exists r, d_lock (e_disk e) = Some r /\ disk_locked mk r (e_disk e)) ->
      factors_are fs (on_tab (setMasterKey l) e')) -> Q e' (Ok tt)) ->
  alone faults (writeLockRecord record') Q e.
Proof.
  intros [He (r & Hl & Hf)] Hf' H1 H2. destruct (sound_locked _ _ He Hl) as (mk & Hd & Ht).
  assert (lr_factors record' = lr_factors r) as Hff by congruence.
  apply alone_write; [by apply sound_disk|by eapply put_lock_ok| |done].
  apply H2.
  - split; [|by exists record']. eapply sound_intro; [done|by eapply put_lock_locked|done].
  - intros l mk' Hh (r' & Hl' & Hd'). simplify_eq. split; [|by exists record'].
    eapply sound_intro; [done|by eapply put_lock_locked|by apply setMasterKey_ok].
Qed.

(** From the moment a factor has opened: the body of both [try] blocks. *)
Lemma alone_opened {A} faults (a : A) key f record' Q e :
  factors_are (lr_factors record') e -> f ∈ lr_factors record' ->
  (exists fk, unwrapMasterKey fk (fr_wrapped f) (kind_name (fr_kind f)) (fr_id f) = Ok key) ->
  (forall e' r, factors_are (lr_factors record') e' -> Q e' r) ->
  alone faults
    (l ← new_buffer key;
     writeLockRecord record' ;;
     modify (on_tab (setMasterKey l)) ;;
     restoreLocalToken l ;;
     Ret a) Q e.
Proof.
  intros Hfs Hf [fk Hk] HQ. destruct Hfs as [He (r & Hl & Hff)].
  destruct (sound_locked _ _ He Hl) as (mk & Hd & Ht).
  assert (key = mk) as ->. { eapply unwrap_binds; [|exact Hk]. apply (dl_wraps _ _ _ Hd). by rewrite Hff. }
  pose proof (alloc_mild mk e) as Hm.
  assert (factors_are (lr_factors record') (on_tab (fun t => (alloc mk t).1) e)) as Hfs1.
  { eapply factors_mild; [done|]. split; [done|by exists r]. }
  apply wpd_bind, wp_new_buffer; [by eapply factors_disk|]. next.
  apply wpd_bind. eapply alone_rewrite; [done..|by apply HQ|]. intros e' Hfs2 Hset. next.
  assert (factors_are (lr_factors record') (on_tab (setMasterKey (t_next (e_tab e))) e')) as Hfs3.
  { apply (Hset _ mk); [apply alloc_holds|]. by exists r. }
  apply wpd_bind, wp_modify; [by eapply factors_disk|]. next.
  apply wpd_bind. apply alone_gentle; [auto with gentle|by eapply factors_disk|].
  intros e2 [u|x] Hm2; next; by apply HQ; eapply factors_mild.
Qed.

Lemma alone_try_factor faults digits record f acc Q e :
  factors_are (lr_factors record) e -> f ∈ lr_factors record ->
  (forall e' r, factors_are (lr_factors record) e' -> Q e' r) ->
  alone faults (try_factor digits record f acc) Q e.
Proof.
  intros Hfs Hf HQ. unfold try_factor. destruct acc as [o|]; [by apply HQ|].
  apply wpd_bind. apply alone_gentle; [auto with gentle|by eapply factors_disk|].
  intros e1 [fk|x] Hm; next; [|by apply HQ; eapply factors_mild].
  assert (factors_are (lr_factors record) e1) as Hfs1 by (by eapply factors_mild).
  apply wp_attempt, wpd_bind, wp_crypto.
  destruct (unwrapMasterKey _ _ _ _) as [key|] eqn:Hk; next; [|by apply HQ].
  apply (alone_opened faults (Some Unlocked) key f (with_failed 0 None record)); [done|done|by exists fk|].
  intros e' [a|x] Hfs'; next; by apply HQ.
Qed.

Lemma forget_enrolled t : t_enrolledRef (forget t) = t_enrolledRef t.
Proof.
  unfold forget. simpl. set (l := (map_to_list _).*2). clearbody l.
  assert (forall t', t_enrolledRef (foldr wipe_keys t' l) = t_enrolledRef t') as Hw by (intros; by induction l).
  rewrite Hw. simpl. by destruct (t_masterKeyRef t).
Qed.

Lemma forget_held t : t_masterKeyRef (forget t) = None.
Proof.
  unfold forget. simpl. set (l := (map_to_list _).*2). clearbody l.
  assert (forall t', t_masterKeyRef (foldr wipe_keys t' l) = t_masterKeyRef t') as Hw by (intros; by induction l).
  by rewrite Hw.
Qed.

Lemma setEnrolled_enrolled b t : t_enrolledRef (setEnrolled b t) = b.
Proof. unfold setEnrolled. destruct (Bool.eqb _ _) eqn:He; [by apply Bool.eqb_prop|done]. Qed.
Lemma setEnrolled_held b t : t_masterKeyRef (setEnrolled b t) = t_masterKeyRef t.
Proof. unfold setEnrolled. by destruct (Bool.eqb _ _). Qed.

Lemma fit_calm d : fit false d -> dr_fault d = false.
Proof. intros [_ Hc]. by apply Hc. Qed.

(** Erasing from any tab, as long as the database does it. *)
Lemma alone_erase Q e :
  ok_disk e -> (forall e', sound e' -> d_lock (e_disk e') = None -> Q e' (Ok tt)) ->
  alone false eraseDevice Q e.
Proof.
  intros HC HQ. unfold eraseDevice.
  apply wpd_bind, wp_modify; [done|]. next. apply wpd_bind, wp_modify; [done|]. next.
  set (e1 := on_tab (setEnrolled false) _).
  apply wpd_bind, wp_attempt, wpd_bind, calm_openDb; [exact fit_calm|done|]. next.
  apply calm_put; [exact fit_calm|by split|]. next. apply wp_modify; [by split|].
  apply HQ; [|done]. split; [by split|]. simpl.
  by rewrite setEnrolled_enrolled, setEnrolled_held, forget_held.
Qed.

Lemma steady_erase : steady false eraseDevice.
Proof. intros e He. apply alone_erase; [by apply sound_disk|done]. Qed.

Lemma alone_unlock_attempt digits record now e :
  sound e -> d_lock (e_disk e) = Some record ->
  alone false (unlock_attempt digits record now) (fun e' _ => sound e') e.
Proof.
  intros He Hl. unfold unlock_attempt. case_decide as Hp; [done|]. clear Hp.
  assert (factors_are (lr_factors record) e) as Hfs by (split; [done|by exists record]).
  apply wpd_bind. eapply alone_rewrite; [done..|]. intros e1 Hfs1 _. next.
  assert (factors_are (lr_factors record) (add_guess now e1)) as Hfs2 by exact Hfs1.
  apply wpd_bind, wp_modify; [by eapply factors_disk|]. next. apply wpd_bind.
  apply (wp_loop _ _ _ _ (fun l _ e => factors_are (lr_factors record) e /\ l ⊆ lr_factors record)).
  - intros f l acc e2 [Hfs3 Hsub]. apply alone_try_factor; [done|apply Hsub; left|].
    intros e' [o|x] Hfs'; [|by destruct Hfs']. split; [done|]. set_solver.
  - intros [o|] e2 [[He2 _] _]; next; [done|].
    case_match; [|done]. apply wpd_bind, alone_erase; [by apply sound_disk|]. by intros e' ? _.
  - split; [done|]. intros f [_ Hf]%list_elem_of_filter. done.
Qed.

Lemma steady_unlockWithPin digits : steady false (unlockWithPin digits).
Proof.
  intros e He. unfold unlockWithPin. apply wpd_bind, alone_read; [by apply sound_disk| |done]. next.
  destruct (d_lock (e_disk e)) as [record|] eqn:Hl; [|done].
  apply wpd_bind, wp_clock; [by apply sound_disk|]. intros d _. next.
  destruct (throttled record _); [done|]. by apply alone_unlock_attempt.
Qed.

Lemma steady_unlockWithFactorKey faults id key : steady faults (unlockWithFactorKey id key).
Proof.
  intros e He. unfold unlockWithFactorKey. apply wpd_bind, alone_read; [by apply sound_disk| |done]. next.
  destruct (d_lock (e_disk e)) as [record|] eqn:Hl; [|done].
  destruct (head (filter _ _)) as [f|] eqn:Hh; [|done].
  assert (f ∈ lr_factors record) as Hf.
  { apply head_Some_elem_of in Hh. by apply list_elem_of_filter in Hh as [_ Hf]. }
  apply wp_attempt, wpd_bind, wp_crypto. destruct (unwrapMasterKey _ _ _ _) as [k|] eqn:Hk; next; [|done].
  apply (alone_opened faults Unlocked k f (with_failed 0 None record)); [|done|by exists key|].
  - split; [done|by exists record].
  - intros e' [a|x] [He' _]; done.
Qed.

(** ** Enrolling *)

(** [acc] holds each record of [existing] that was in the clear, sealed. *)
Definition sealed_all (key : bytes) (existing : list (string * KeyRecord))
    (acc : list (string * SealedRecord * StoredKeys)) : Prop :=
  (forall sid s k, (sid, s, k) ∈ acc ->
     (sid, Plain k) ∈ existing /\ open_keys key s sid = Ok (low_bytes k)) /\
  (forall sid k, (sid, Plain k) ∈ existing -> exists s, (sid, s, k) ∈ acc).

Lemma sealed_all_nil key : sealed_all key [] [].
Proof. by split; intros; set_solver. Qed.

Lemma sealed_all_skip key existing acc sid r :
  sealed_all key existing acc -> sealed_all key (existing ++ [(sid, Sealed r)]) acc.
Proof. intros [H1 H2]. split; [naive_solver set_solver|]. intros sid' k. set_solver. Qed.

Lemma sealed_all_snoc key existing acc sid s k nonce :
  length nonce = NONCE_BYTES -> seal_keys key k sid nonce = Ok s -> sealed_all key existing acc ->
  sealed_all key (existing ++ [(sid, Plain k)]) (acc ++ [(sid, s, k)]).
Proof.
  intros Hn Hs [H1 H2]. split.
  - intros sid' s' k' [Hin|Hin%list_elem_of_singleton]%elem_of_app.
    + destruct (H1 _ _ _ Hin). set_solver.
    + injection Hin as -> -> ->. split; [set_solver|]. by eapply open_seal_keys.
  - intros sid' k' [Hin|Hin%list_elem_of_singleton]%elem_of_app.
    + destruct (H2 _ _ Hin). set_solver.
    + injection Hin as -> ->. set_solver.
Qed.

Lemma wp_seal_existing ok R G mk key existing Q e :
  (forall d, ok d -> sized d) -> G e e -> holds key mk (e_tab e) ->
  (forall acc, sealed_all key existing acc -> Q e (Ok acc)) ->
  (forall sid k nonce x, (sid, Plain k) ∈ existing -> seal_keys key k sid nonce = Err x ->
     Q e (Err (Crypto x))) ->
  wp ok R G (seal_existing mk existing) Q e.
Proof.
  intros Hok HG Hh HOk HErr. unfold seal_existing.
  apply (wp_loop _ _ _ _ (fun l acc e' => e' = e /\ exists before,
    existing = before ++ l.*2 /\ sealed_all key before acc)).
  - intros [i [sid r]] l acc e' (-> & before & Hex & Hs). destruct r as [k|r]; cycle 1.
    { split; [done|]. exists (before ++ [(sid, Sealed r)]). rewrite <- app_assoc.
      split; [done|]. by apply sealed_all_skip. }
    apply wpd_bind, wp_gets; [done|]. next. rewrite (holds_deref _ _ _ Hh).
    apply wpd_bind, wp_random; [done|]. intros d Hd. next. apply wpd_bind, wp_crypto.
    destruct (seal_keys _ _ _ _) as [s|x] eqn:Hsk; [|eapply HErr; [|done]; rewrite Hex; set_solver].
    next. split; [done|]. exists (before ++ [(sid, Plain k)]). rewrite <- app_assoc. split; [done|].
    eapply sealed_all_snoc; [|exact Hsk|done]. by apply (Hok d Hd).
  - intros acc e' (-> & before & Hex & Hs). apply HOk. simpl in Hex. rewrite app_nil_r in Hex. by subst.
  - split; [done|]. exists []. split; [|apply sealed_all_nil].
    simpl. rewrite snd_zip; [done|]. by rewrite length_seq.
Qed.

Lemma put_sealed_lookup acc m sid r :
  put_sealed acc m !! sid = Some r ->
  (exists s k, (sid, s, k) ∈ acc /\ r = Sealed s) \/
  (m !! sid = Some r /\ forall s k, (sid, s, k) ∉ acc).
Proof.
  unfold put_sealed. revert m. induction acc as [|[[sid' s] k] acc IH]; intros m; simpl.
  { intros Hr. right. split; [done|]. set_solver. }
  intros [(s' & k' & Hin & ->)|[Hr Hno]]%IH; [left; exists s', k'; set_solver|].
  destruct (decide (sid = sid')) as [->|Hne].
  - rewrite lookup_insert_eq in Hr. injection Hr as <-. left. exists s, k. split; [left|done].
  - rewrite lookup_insert_ne in Hr by done. right. split; [done|]. set_solver.
Qed.

Lemma entries_elem {A} (m : gmap string A) sid a : (sid, a) ∈ entries m <-> m !! sid = Some a.
Proof. unfold entries. rewrite sort_cmp_perm. apply elem_of_map_to_list. Qed.

(** With every record sealed, and the lock record: the disk of a locked device. *)
Lemma enrolled_disk key f record d acc token :
  disk_open d -> sealed_all key (entries (d_keys d)) acc -> wraps key f -> lr_factors record = [f] ->
  (forall t r, token = Some (t, r) -> open_token key r = Ok t) ->
  let d1 := put_keys (put_sealed acc) d in
  let d2 := match token with Some (_, r) => put_lockToken (Some r) d1 | None => d1 end in
  disk_locked key record (put_lock (Some record) d2).
Proof.
  intros [Hk Ht] [H1 H2] Hw Hf Htok d1 d2. split.
  - by rewrite Hf.
  - rewrite Hf. by intros f' ->%list_elem_of_singleton.
  - assert (d_keys (put_lock (Some record) d2) = put_sealed acc (d_keys d)) as ->
      by (by destruct token as [[]|]).
    intros sid r [(s & k & Hin & ->)|[Hr Hno]]%put_sealed_lookup.
    + destruct (H1 _ _ _ Hin). eauto.
    + destruct r as [k|s]; [|by specialize (Hk _ _ Hr)].
      destruct (H2 sid k) as [s Hs]; [by apply entries_elem|]. by destruct (Hno s k).
  - intros r. destruct token as [[t r']|]; simpl; [|by rewrite Ht].
    intros [= <-]. eauto.
Qed.

Lemma gentle_cache_all acc : gentle (cache_all acc).
Proof. unfold cache_all. gentle. Qed.

Lemma alone_cache_all faults acc Q e :
  ok_disk e -> (forall e', mild e e' -> e_disk e' = e_disk e -> Q e' (Ok tt)) ->
  alone faults (cache_all acc) Q e.
Proof.
  intros HC HQ. unfold cache_all.
  apply (wp_loop _ _ _ _ (fun _ _ e' => mild e e' /\ e_disk e' = e_disk e)).
  - intros [[sid s] k] l acc' e1 [Hm Hd]. apply wpd_bind, wp_new_keys. intros t refs Ha.
    pose proof (new_keys_mild _ _ _ _ Ha) as Hm1. assert (ok_disk e1) as HC1 by (unfold ok_disk; by rewrite Hd).
    split; [done|]. next. apply wp_modify; [done|]. split; [|done]. etrans; [done|]. etrans; [done|]. by split.
  - intros [] e' [Hm Hd]. by apply HQ.
  - done.
Qed.

(** What enrolling leaves: the factor, the sealed records, the sealed token. *)
Record enrolled (digits : string) (e e' : Env) (key fk : bytes) (f : FactorRecord) (record : LockRecord)
    (acc : list (string * SealedRecord * StoredKeys)) : Prop := {
  en_derive : derivePinKey has_subtle digits (fr_salt f) (fr_iterations f) = Ok fk;
  en_wrap : exists nonce, length nonce = NONCE_BYTES /\
    wrapMasterKey fk key (kind_name (fr_kind f)) (fr_id f) nonce = Ok (fr_wrapped f);
  en_pin : fr_kind f = pin;
  en_lock : d_lock (e_disk e') = Some record;
  en_record : lr_factors record = [f] /\ lr_failedAttempts record = 0 /\ lr_lockedUntil record = None;
  en_disk : disk_locked key record (e_disk e');
  en_tab : tab_ok key (e_tab e');
  en_unlocked : is_Some (t_masterKeyRef (e_tab e'));
  en_sealed : sealed_all key (entries (d_keys (e_disk e))) acc;
  en_keys : d_keys (e_disk e') = put_sealed acc (d_keys (e_disk e));
  en_token token : truthy (readStored TOKEN_KEY (d_local (e_disk e))).2 = Some token ->
    (exists r, d_lockToken (e_disk e') = Some r /\ open_token key r = Ok token) /\
    (readStored TOKEN_KEY (d_local (e_disk e'))).2 = None;
}.

(** Why enrolling may fail. *)
Inductive enroll_fails (faults : bool) (digits : string) (e : Env) : WebError -> Prop :=
| fails_locked : is_Some (d_lock (e_disk e)) -> enroll_fails faults digits e AlreadyLocked
| fails_db : faults = true -> enroll_fails faults digits e IndexedDb
| fails_derive d salt x : fit faults d -> salt = dr_rand d 1%nat FACTOR_SALT_BYTES ->
    derivePinKey has_subtle digits salt (pbkdf2Iterations has_subtle) = Err x ->
    enroll_fails faults digits e (Crypto x)
| fails_wrap d key fk nonce x : fit faults d -> length key = MASTER_KEY_BYTES ->
    wrapMasterKey fk key "pin" (factorId (dr_rand d 2%nat 8%nat)) nonce = Err x ->
    enroll_fails faults digits e (Crypto x)
| fails_seal key sid k nonce x : length key = MASTER_KEY_BYTES ->
    d_keys (e_disk e) !! sid = Some (Plain k) -> seal_keys key k sid nonce = Err x ->
    enroll_fails faults digits e (Crypto x)
| fails_token key token nonce x : length key = MASTER_KEY_BYTES ->
    seal_token key token nonce = Err x -> enroll_fails faults digits e (Crypto x).

Lemma clearStored_none key m : (readStored key (clearStored key m)).2 = None.
Proof.
  unfold readStored, clearStored, LEGACY.
  case_decide; [|case_decide]; subst; simpl; repeat (rewrite ?lookup_delete_eq, ?lookup_delete_ne by done); done.
Qed.

Lemma already_enrolled e : sound e -> is_Some (d_lock (e_disk e)) -> isEnrolled (e_tab e) = true.
Proof. intros He [record Hl]. destruct (sound_locked _ _ He Hl) as (mk & _ & Ht & _). done. Qed.

Lemma alone_isEnrolledOnDisk faults Q e :
  sound e -> (is_Some (d_lock (e_disk e)) -> Q e (Ok true)) ->
  (d_lock (e_disk e) = None -> Q e (Ok false)) -> alone faults isEnrolledOnDisk Q e.
Proof.
  intros He H1 H2. pose proof (sound_disk _ He) as HC. unfold isEnrolledOnDisk.
  apply wpd_bind, wp_gets; [done|]. next. destruct (d_lock (e_disk e)) as [record|] eqn:Hl.
  - rewrite already_enrolled by (rewrite ?Hl; done). by apply H1.
  - destruct (sound_open _ He Hl) as (_ & Hen & _). unfold isEnrolled. rewrite Hen.
    apply wpd_bind, alone_read; [done| |by intros; apply H2].
    rewrite Hl. by apply H2.
Qed.

Lemma alone_seal_local faults mk key Q e :
  ok_disk e -> holds key mk (e_tab e) ->
  (forall e' token, mild e e' -> d_keys (e_disk e') = d_keys (e_disk e) ->
     (fst <$> token) = truthy (readStored TOKEN_KEY (d_local (e_disk e))).2 ->
     (token = None -> e' = on_disk (put_local (fun _ => (readStored TOKEN_KEY (d_local (e_disk e))).1)) e) ->
     (forall t r, token = Some (t, r) -> open_token key r = Ok t) -> Q e' (Ok token)) ->
  (forall e' t nonce x, mild e e' -> seal_token key t nonce = Err x -> Q e' (Err (Crypto x))) ->
  alone faults (seal_local mk) Q e.
Proof.
  intros HC Hh HOk HErr. unfold seal_local, readStored_here.
  apply wpd_bind, wp_sync. intros d _. destruct (readStored TOKEN_KEY _) as [m v] eqn:Hr. cbn [fst snd].
  assert (mild e (on_disk (put_local (fun _ => m)) e)) as Hm by (by split).
  split; [by eapply disk_ok_mild|]. next. destruct (truthy v) as [t|] eqn:Hv.
  - apply wpd_bind, wp_gets; [by eapply disk_ok_mild|]. next.
    rewrite (holds_deref key) by exact Hh.
    apply wpd_bind, alone_random; [by eapply disk_ok_mild|]. intros nonce Hn. next.
    apply wpd_bind, wp_crypto. destruct (seal_token key t nonce) as [r|x] eqn:Hs; next; [|by eapply HErr].
    apply HOk; [done|done|by simpl; rewrite Hv|done|]. intros t' r' [= <- <-]. by eapply open_seal_token.
  - apply HOk; [done|done|by simpl; rewrite Hv|done|done].
Qed.


Lemma alone_clear_token faults (token : option (string * SealedRecord)) Q e :
  ok_disk e -> Q (match token with
                  | Some (t, _) => on_disk (put_local (clearStored TOKEN_KEY)) (on_tab (setLocalToken (Some t)) e)
                  | None => e
                  end) (Ok tt) ->
  alone faults (match token with
                | Some (token, _) => modify (on_tab (setLocalToken (Some token))) ;; clearStored_here TOKEN_KEY
                | None => Ret tt
                end : Web unit) Q e.
Proof.
  intros HC HQ. destruct token as [[t r]|]; [|done].
  apply wpd_bind, wp_modify; [exact HC|]. next. apply wp_modify; [|exact HQ].
  eapply disk_ok_mild; [|exact HC]. by split.
Qed.

Lemma alone_commit faults digits mk key fk f record acc token e0 e :
  d_lock (e_disk e) = None -> disk_open (e_disk e) -> holds key mk (e_tab e) ->
  d_keys (e_disk e) = d_keys (e_disk e0) ->
  (forall t r, token = Some (t, r) -> open_token key r = Ok t) ->
  (fst <$> token) = truthy (readStored TOKEN_KEY (d_local (e_disk e0))).2 ->
  derivePinKey has_subtle digits (fr_salt f) (fr_iterations f) = Ok fk ->
  (exists nonce, length nonce = NONCE_BYTES /\
     wrapMasterKey fk key (kind_name (fr_kind f)) (fr_id f) nonce = Ok (fr_wrapped f)) ->
  fr_kind f = pin -> lr_factors record = [f] -> lr_failedAttempts record = 0 ->
  lr_lockedUntil record = None -> sealed_all key (entries (d_keys (e_disk e0))) acc ->
  alone faults (commit mk record acc token)
    (fun e' r => match r with
                 | Ok _ => enrolled digits e0 e' key fk f record acc
                 | Err x => x = IndexedDb /\ e' = e /\ faults = true
                 end) e.
Proof.
  intros Hl Hopen Hh Hk Htok Htv Hdk Hw Hpin Hrf Hr0 Hr1 Hs. unfold commit.
  assert (disk_locked key record (put_lock (Some record)
    (match token with
     | Some (_, r) => put_lockToken (Some r) (put_keys (put_sealed acc) (e_disk e))
     | None => put_keys (put_sealed acc) (e_disk e)
     end))) as Hd.
  { apply (enrolled_disk key f record (e_disk e) acc token); [done|by rewrite Hk| |done..].
    destruct Hw as (n & Hn & Hw). by exists fk, n. }
  apply wpd_bind, wp_tx. intros e1 <-. cbn [fst snd]. split; [by exists key|]. split.
  2: { intros (d & [_ Hc] & Hf). split; [unfold keeps, ok_disk, disk_ok; by rewrite Hl|]. next.
       destruct faults; [done|]. by rewrite (Hc eq_refl) in Hf. }
  intros e3 <-. split; [by exists key|]. next.
  set (e3 := on_disk _ e). assert (holds key mk (e_tab e3)) as Hh3 by done.
  apply wpd_bind, wp_modify; [by exists key|]. next.
  set (e4 := on_tab (setMasterKey mk) e3).
  apply wpd_bind, alone_cache_all; [by exists key|]. intros e5 Hm5 He5. next.
  apply alone_clear_token; [by eapply disk_ok_mild; [exact Hm5|by exists key]|].
  assert (is_Some (t_masterKeyRef (e_tab e5))) as Hun5 by (rewrite (mild_held _ _ Hm5); by eexists).
  assert (tab_ok key (e_tab e5)) as Ht5 by (eapply tab_ok_mild; [exact Hm5|by apply setMasterKey_ok]).
  set (e6 := match token with Some _ => _ | None => _ end).
  assert (e_disk e6 = match token with Some _ => put_local (clearStored TOKEN_KEY) (e_disk e5) | None => e_disk e5 end)
    as Hd6 by (by destruct token as [[]|]).
  split; try done.
  - rewrite Hd6, He5. by destruct token as [[]|].
  - rewrite Hd6, He5. destruct token as [[]|]; [|done]. by eapply disk_locked_with.
  - by destruct token as [[]|].
  - by destruct token as [[]|].
  - rewrite Hd6, He5. rewrite <- Hk. by destruct token as [[]|].
  - intros t Ht. rewrite Ht in Htv. destruct token as [[t' r]|]; [|done]. injection Htv as ->.
    rewrite Hd6, He5. split; [exists r; split; [done|by eapply Htok]|]. apply clearStored_none.
Qed.

Lemma alone_open_or_fail faults Q e :
  ok_disk e -> Q e (Ok tt) -> (faults = true -> Q e (Err IndexedDb)) -> alone faults openDb Q e.
Proof.
  intros HC H1 H2. apply wp_openDb. intros e1 <-. split; [done|]. split; [done|].
  intros (d & [_ Hc] & Hf). apply H2. destruct faults; [done|]. by rewrite (Hc eq_refl) in Hf.
Qed.

Lemma alone_get_or_fail {B} faults (f : Disk -> B) Q e :
  ok_disk e -> Q e (Ok (f (e_disk e))) -> (faults = true -> Q e (Err IndexedDb)) ->
  alone faults (tx_get f) Q e.
Proof.
  intros HC H1 H2. apply wpd_get. intros e1 <-. split; [done|]. split; [by intros e3 <-|].
  intros (d & [_ Hc] & Hf). apply H2. destruct faults; [done|]. by rewrite (Hc eq_refl) in Hf.
Qed.

Lemma alone_enroll faults digits label e :
  sound e ->
  alone faults (enrollPin digits label)
    (fun e' r => match r with
                 | Ok _ => exists key fk f record acc, enrolled digits e e' key fk f record acc
                 | Err x => sound e' /\ enroll_fails faults digits e x
                 end) e.
Proof.
  intros He. unfold enrollPin.
  apply wpd_bind, alone_isEnrolledOnDisk; [done|by intros; split; [|constructor]|]. intros Hl. next.
  apply wpd_bind, alone_random; [by apply sound_disk|]. intros key Hkey. next.
  pose proof (alloc_mild key e) as Hm1. set (e1 := on_tab (fun t => (alloc key t).1) e) in *.
  assert (sound e1) as He1 by (by eapply sound_mild). pose proof (sound_disk _ He1) as HC1.
  assert (holds key (t_next (e_tab e)) (e_tab e1)) as Hh1 by apply alloc_holds.
  apply wpd_bind, wp_new_buffer; [exact HC1|]. next. change (generateMasterKey key) with key. fold e1. set (mk := t_next (e_tab e)) in *.
  apply wpd_bind, wp_random; [done|]. intros d1 Hd1. next.
  apply wpd_bind, wp_random; [done|]. intros d2 Hd2. next. unfold derive.
  apply wpd_bind, wpd_bind, alone_tick; [done|]. next. apply wp_crypto.
  destruct (derivePinKey _ _ _ _) as [fk|x] eqn:Hfk; next; [|split; [done|exact (fails_derive _ _ _ d1 _ x Hd1 eq_refl Hfk)]].
  apply wpd_bind, wp_gets; [done|]. next. rewrite (holds_deref _ _ _ Hh1).
  apply wpd_bind, alone_random; [done|]. intros nonce Hn. next. apply wpd_bind, wp_crypto.
  destruct (wrapMasterKey _ _ _ _ _) as [w|x] eqn:Hw; next; [|split; [done|exact (fails_wrap _ _ _ d2 key fk nonce x Hd2 Hkey Hw)]].
  apply wpd_bind, wp_clock; [done|]. intros d3 _. next. set (now := dr_now d3).
  apply wpd_bind, alone_open_or_fail; [done| |intros Hf; split; [done|by constructor]]. next.
  apply wpd_bind, alone_get_or_fail; [done| |intros Hf; split; [done|by constructor]]. next.
  apply wpd_bind, (wp_seal_existing _ _ _ _ key); [by intros d [Hd _]|done|exact Hh1| |].
  2: { intros sid k n x Hin Hs. split; [done|]. eapply fails_seal; [done| |done]. by apply entries_elem. }
  intros acc Hacc. next.
  apply wpd_bind, (alone_seal_local _ _ key); [done|exact Hh1| |].
  2: { intros e' t n x Hm Hs. split; [by eapply sound_mild|]. by eapply fails_token. }
  intros e2 token Hm2 Hk2 Htok2 _ Hopen2. next.
  assert (sound e2) as He2 by (by eapply sound_mild).
  assert (d_lock (e_disk e2) = None) as Hl2 by (by rewrite (mild_lock _ _ Hm2)).
  eapply wpd_mono.
  - eapply (alone_commit faults digits mk key fk (mkFactor pin _ _ _ w now label) _ acc token e e2); try done.
    + by destruct (sound_open _ He2 Hl2).
    + by eapply holds_mild.
    + by exists nonce.
  - intros e' [u|x]; [intros Hen; by eexists key, fk, _, _, acc|]. intros (-> & -> & Hf).
    split; [done|by constructor].
Qed.

Lemma enrolled_sound digits e e' key fk f record acc :
  enrolled digits e e' key fk f record acc -> sound e'.
Proof. intros []. by eapply sound_intro. Qed.

Lemma steady_enrollPin faults digits label : steady faults (enrollPin digits label).
Proof.
  intros e He. eapply wpd_mono; [by apply alone_enroll|].
  intros e' [u|x]; [|by intros []]. intros (key & fk & f & record & acc & Hen). by eapply enrolled_sound.
Qed.

(** ** Pages loaded, closed and used *)

Lemma alone_hydrate Q e :
  ok_disk e -> t_masterKeyRef (e_tab e) = None \/ sound e ->
  (forall e', sound e' -> Q e') -> alone false hydrateLockState (fun e' _ => Q e') e.
Proof.
  intros HC Ht HQ. unfold hydrateLockState. apply wpd_bind, alone_read; [done| |done]. next.
  apply wpd_bind, wp_modify; [done|]. next. apply HQ. unfold sound.
  unfold ok_disk, disk_ok in HC. cbn [e_disk e_tab on_tab].
  destruct (d_lock (e_disk e)) as [record|] eqn:Hl.
  - destruct HC as [mk Hd]. rewrite bool_decide_true by apply (dl_factors _ _ _ Hd).
    destruct Ht as [Ht|He].
    + exists mk. split; [done|]. split; [apply setEnrolled_enrolled|].
      intros l. by rewrite setEnrolled_held, Ht.
    + destruct (sound_locked _ _ He Hl) as (mk' & Hd' & Hen & Hh). exists mk'. split; [done|].
      unfold setEnrolled. by rewrite Hen.
  - split; [done|]. rewrite setEnrolled_enrolled, setEnrolled_held. split; [done|].
    destruct Ht as [Ht|He]; [done|]. by apply sound_open.
Qed.

Lemma calm_fit i : fit false ((fun _ : nat => calm_draw) i).
Proof. split; [|done]. intros slot n. split; [apply length_replicate|by apply Forall_replicate]. Qed.

Lemma gate_load_sound e : ok_disk e -> sound (gate_load e).
Proof.
  intros HC. unfold gate_load.
  apply (wp_finish (fit false) (keeps ok_disk) _ (fun e' _ => sound e') _ _ 0 calm_fit).
  by apply (alone_hydrate sound); [|left|].
Qed.

Lemma steady_new_keys faults k : steady faults (new_keys k).
Proof. apply steady_gentle, gentle_new_keys. Qed.

Lemma steady_persistPairing faults refs descriptor : steady faults (persistPairing refs descriptor).
Proof.
  unfold persistPairing. apply steady_bind; [apply steady_gentle; auto with gentle|]. intros winner.
  apply steady_bind; [apply steady_saveSessionKeys|]. intros _. apply steady_gentle.
  apply gentle_bind; [auto with gentle|]. intros now. unfold saveDescriptor, writeMirror, start_job. gentle.
Qed.

Lemma steady_program c : steady (negb (trusting c)) (program c).
Proof.
  destruct c; cbn [program trusting negb].
  - apply steady_reply. intros e He. apply (alone_hydrate sound); [by apply sound_disk|by right|done].
  - apply steady_reply, steady_enrollPin.
  - apply steady_reply, steady_addFactor.
  - apply steady_reply, steady_removeFactor.
  - apply steady_reply, steady_unlockWithPin.
  - apply steady_reply, steady_unlockWithFactorKey.
  - apply steady_reply, steady_updateLockSettings.
  - apply steady_reply, steady_setSessionLock.
  - apply steady_reply, steady_erase.
  - apply steady_bind; [apply steady_new_keys|]. intros r. apply steady_reply, steady_saveSessionKeys.
  - apply steady_reply, steady_gentle; auto with gentle.
  - apply steady_bind; [apply steady_new_keys|]. intros r. apply steady_reply, steady_persistPairing.
  - apply steady_reply, steady_gentle; auto with gentle.
  - apply steady_reply, steady_gentle; auto with gentle.
  - apply steady_reply, steady_gentle; auto with gentle.
  - apply steady_reply, steady_gentle; auto with gentle.
  - apply steady_reply, steady_gentle; auto with gentle.
  - apply steady_reply, steady_gentle; auto with gentle.
  - apply steady_reply, steady_gentle; auto with gentle.
  - apply steady_reply, steady_gentle; auto with gentle.
Qed.

(** The draws a call may meet. *)
Definition fair_move (m : Move) : Prop :=
  match m with MCall c draws => Forall (fit (negb (trusting c))) draws | _ => True end.

Lemma lockNow_cases reason t :
  lockNow reason t = t \/
  t_enrolledRef (lockNow reason t) = t_enrolledRef t /\ t_masterKeyRef (lockNow reason t) = None.
Proof.
  unfold lockNow. destruct (_ || _); [by left|]. right. set (t0 := if t_disconnect t then _ else _).
  assert (t_enrolledRef t0 = t_enrolledRef t) as <- by (by unfold t0; destruct (t_disconnect t)).
  pose proof (forget_enrolled t0). pose proof (forget_held t0). by destruct reason.
Qed.

Lemma lockNow_sound reason e : sound e -> sound (on_tab (lockNow reason) e).
Proof.
  unfold sound. cbn [on_tab e_disk e_tab]. intros He.
  destruct (lockNow_cases reason (e_tab e)) as [->|[H1 H2]]; [done|]. rewrite H1, H2.
  destruct (d_lock (e_disk e)); [|by destruct He as (? & ? & _)].
  destruct He as (mk & Hd & Hen & _). exists mk. split; [done|]. split; [by rewrite H1|]. by rewrite H2.
Qed.

Lemma move_sound m e : fair_move m -> sound e -> sound (move m e).
Proof.
  intros Hm He. destruct m as [c draws|reason|]; simpl in *.
  - pose proof (steady_program c e He) as Hp.
    destruct (turns_keep _ _ _ _ _ _ Hm (sound_disk _ He) Hp) as [HC Hw].
    destruct (turns draws (program c) e) as [e' p]. simpl in *. destruct p; simpl; try by apply gate_load_sound.
    + exact Hw.
    + exact Hw.
  - by apply lockNow_sound.
  - by apply gate_load_sound, sound_disk.
Qed.

Lemma moves_sound ms e : Forall fair_move ms -> sound e -> sound (moves ms e).
Proof.
  intros Hms. unfold moves. revert e. induction Hms as [|m ms Hm _ IH]; intros e He; simpl; [done|].
  by apply IH, move_sound.
Qed.

End AtRest.
