(* ===== verification/DeviceThrottle.v ===== *)
(** * DeviceThrottle: what a locked browser gives who does not know the PIN

    Guesses are counted before they are tried and paced, wherever the page is
    closed and however the database fails ([pins_paced]).  And whatever
    other tabs and other calls do meanwhile, a locked tab changes nothing of
    the lock ([locked_changes_nothing]). *)

From S2P Require Import Prelude Bytes Noble Envelope DeviceStore DeviceLock DeviceLogic DeviceSafety.

Lemma lockout_delay_mono a b : a <= b -> lockout_delay a <= lockout_delay b.
Proof.
  intros Hab. unfold lockout_delay, FREE_ATTEMPTS.
  assert (2 ^ (a - 3) <= 2 ^ (b - 3)); [|lia].
  destruct (decide (a < 3)); [rewrite Z.pow_neg_r by lia; by apply Z.pow_nonneg|].
  apply Z.pow_le_mono_r; lia.
Qed.

Lemma lockout_delay_nonneg a : 0 <= lockout_delay a.
Proof.
  unfold lockout_delay, MAX_LOCKOUT_MS. pose proof (Z.pow_nonneg 2 (a - FREE_ATTEMPTS)). lia.
Qed.

(** Guess [i], the [first + i + 1]st since the last success, costs what its
    number says before the next. *)
Definition paced (first : Z) (guesses : list Z) : Prop :=
  forall i a b, guesses !! i = Some a -> guesses !! S i = Some b ->
    FREE_ATTEMPTS < first + Z.of_nat i + 1 -> a + lockout_delay (first + Z.of_nat i + 1) <= b.

Lemma paced_snoc first gs now :
  paced first gs ->
  (forall a, last gs = Some a -> FREE_ATTEMPTS < first + Z.of_nat (length gs) ->
     a + lockout_delay (first + Z.of_nat (length gs)) <= now) ->
  paced first (gs ++ [now]).
Proof.
  intros Hp Hl i a b Ha Hb Hi. assert (S i < length (gs ++ [now]))%nat as Hlt by (by eapply lookup_lt_Some).
  rewrite length_app in Hlt. simpl in Hlt.
  rewrite lookup_app_l in Ha by lia. destruct (decide (S i = length gs)) as [He|Hne].
  - rewrite list_lookup_middle in Hb by done. injection Hb as <-.
    assert (last gs = Some a) as Hla by (rewrite last_lookup, <- He; done).
    specialize (Hl a Hla). rewrite <- He in Hl. replace (first + Z.of_nat i + 1) with (first + Z.of_nat (S i)) in * by lia.
    auto.
  - rewrite lookup_app_l in Hb by lia. by eapply Hp.
Qed.

Section Throttle.
Context {AE : Aead} {HK : Hkdf} {PB : Pbkdf2} {JS : KeysJson} {PG : Page}.
Context (fs : list FactorRecord) (first : Z).

Definition counted (gs : list Z) (r : LockRecord) : Prop :=
  lr_factors r = fs /\ first + Z.of_nat (length gs) <= lr_failedAttempts r /\
  forall a, last gs = Some a -> FREE_ATTEMPTS < first + Z.of_nat (length gs) ->
    exists until, lr_lockedUntil r = Some until /\ until <> 0 /\
      a + lockout_delay (first + Z.of_nat (length gs)) <= until.

Record kept_out (e : Env) : Prop := {
  ko_held : t_masterKeyRef (e_tab e) = None;
  ko_paced : paced first (e_guesses e);
  ko_counted r : d_lock (e_disk e) = Some r -> counted (e_guesses e) r;
}.

Definition fair (d : Draw) : Prop := 0 <= dr_now d.

Notation alone := (wp fair eq (keeps kept_out)).
Definition holds_out {A} (p : Web A) : Prop := forall e, kept_out e -> alone p (fun e' _ => kept_out e') e.

Lemma kept_out_mild e e' : mild e e' -> kept_out e -> kept_out e'.
Proof.
  intros Hm []. split; [by rewrite (mild_held _ _ Hm)|by rewrite (mild_guesses _ _ Hm)|].
  rewrite (mild_lock _ _ Hm), (mild_guesses _ _ Hm). done.
Qed.

Lemma out_gentle {A} (p : Web A) : gentle p -> holds_out p.
Proof.
  intros Hp e He. apply gentle_keeps; [done|exact kept_out_mild|done|].
  intros e' r Hm. by eapply kept_out_mild.
Qed.

Lemma out_bind {A B} (p : Web A) (f : A -> Web B) :
  holds_out p -> (forall a, holds_out (f a)) -> holds_out (p ≫= f).
Proof.
  intros Hp Hf e He. apply wpd_bind. eapply wpd_mono; [by apply Hp|].
  intros e' [a|x] He'; next; [by apply Hf|done].
Qed.

Lemma out_attempt {A} (p : Web A) h : holds_out p -> (forall x, holds_out (h x)) -> holds_out (attempt p h).
Proof.
  intros Hp Hh e He. apply wp_attempt. eapply wpd_mono; [by apply Hp|].
  intros e' [a|x] He'; next; [done|by apply Hh].
Qed.

Lemma out_reply {A} (f : A -> Reply) p : holds_out p -> holds_out (reply f p).
Proof. intros Hp. apply out_bind; [done|]. intros a. by apply out_gentle. Qed.

(** The lock record, or nothing when the database fails. *)
Lemma out_read Q e :
  kept_out e -> Q e (Ok (d_lock (e_disk e))) -> Q e (Ok None) -> alone readLockRecord Q e.
Proof.
  intros HC H1 H2. unfold readLockRecord. apply wp_attempt, wpd_bind, alone_openDb; [done| |done]. next.
  by apply alone_get.
Qed.

(** Nobody without the key. *)
Lemma out_require Q e : kept_out e -> Q e (Err DeviceLocked) -> alone requireMasterKey Q e.
Proof.
  intros HC HQ. unfold requireMasterKey. apply wpd_bind, wp_gets; [done|]. next.
  unfold masterKey. by rewrite (ko_held _ HC).
Qed.

Lemma out_put (f : Disk -> Disk) : (forall d, d_lock (f d) = d_lock d) -> holds_out (tx_put f).
Proof.
  intros Hf e [H1 H2 H3]. assert (kept_out (on_disk f e)) by (by split; [..|cbn; rewrite Hf]).
  by apply alone_put.
Qed.

Lemma out_saveSessionKeys sid refs : holds_out (saveSessionKeys sid refs).
Proof.
  unfold saveSessionKeys. apply out_bind; [apply out_gentle; auto with gentle|]. intros _.
  apply out_bind; [apply out_gentle; unfold sealKeysIfUnlocked; gentle|]. intros r.
  apply out_bind; [by apply out_put|]. intros _. apply out_gentle. destruct (isSealed r); [|done]. gentle.
Qed.

Lemma out_persistPairing refs descriptor : holds_out (persistPairing refs descriptor).
Proof.
  unfold persistPairing. apply out_bind; [apply out_gentle; auto with gentle|]. intros winner.
  apply out_bind; [apply out_saveSessionKeys|]. intros _. apply out_gentle.
  apply gentle_bind; [auto with gentle|]. intros now. unfold saveDescriptor, writeMirror, start_job. gentle.
Qed.

Lemma out_setEnrolled b : holds_out (modify (on_tab (setEnrolled b))).
Proof.
  intros e [H1 H2 H3]. assert (kept_out (on_tab (setEnrolled b) e)).
  { split; [|done..]. cbn. by rewrite setEnrolled_held. }
  by apply wp_modify.
Qed.

Lemma out_hydrate : holds_out hydrateLockState.
Proof.
  unfold hydrateLockState. apply out_bind; [apply out_gentle; auto with gentle|]. intros r.
  apply out_bind; [apply out_setEnrolled|]. intros _. by apply out_gentle.
Qed.

Lemma out_erase : holds_out eraseDevice.
Proof.
  unfold eraseDevice. apply out_bind.
  { intros e [H1 H2 H3]. assert (kept_out (on_tab forget e)).
    { split; [|done..]. cbn. apply forget_held. }
    by apply wp_modify. }
  intros _. apply out_bind; [apply out_setEnrolled|]. intros _.
  apply out_bind; [|intros _; apply out_gentle; gentle].
  apply out_attempt; [|intros x; by apply out_gentle].
  apply out_bind; [apply out_gentle; auto with gentle|]. intros _ e [H1 H2 H3].
  set (f := fun d : Disk => _). assert (kept_out (on_disk f e)) by (by split).
  by apply alone_put.
Qed.

(** The attempt is on the disk before anything is tried. *)
Lemma counted_next e r now :
  kept_out e -> d_lock (e_disk e) = Some r -> throttled r now = None -> 0 <= now ->
  let n := lr_failedAttempts r + 1 in
  let r' := with_failed n (lockoutUntil n now) r in
  counted (e_guesses e) r' /\ counted (e_guesses e ++ [now]) r' /\ paced first (e_guesses e ++ [now]).
Proof.
  intros [_ Hp Hc] Hl Ht Hnow n r'. destruct (Hc _ Hl) as (Hf & Hn & Hlast).
  assert (forall a, last (e_guesses e) = Some a -> FREE_ATTEMPTS < first + Z.of_nat (length (e_guesses e)) ->
     a + lockout_delay (first + Z.of_nat (length (e_guesses e))) <= now) as Hle.
  { intros a Ha Hfree. destruct (Hlast a Ha Hfree) as (u & Hu & Hu0 & Hau). unfold throttled in Ht.
    rewrite Hu in Ht. destruct (Z.eqb_spec u 0); [done|]. simpl in Ht.
    destruct (Z.ltb_spec now u); [done|lia]. }
  assert (forall m, FREE_ATTEMPTS < m -> m <= n -> exists u, lr_lockedUntil r' = Some u /\ u <> 0 /\
    now + lockout_delay m <= u) as Hnext.
  { intros m Hm Hmn. cbn. unfold lockoutUntil. rewrite (proj2 (Z.leb_gt _ _)) by lia.
    exists (now + lockout_delay n). split; [done|]. pose proof (lockout_delay_mono m n Hmn).
    split; [|lia]. unfold lockout_delay, FREE_ATTEMPTS, MAX_LOCKOUT_MS in *.
    assert (0 < 2 ^ (n - 3)) by (apply Z.pow_pos_nonneg; lia). lia. }
  split; [|split].
  - split; [done|]. split; [simpl; lia|]. intros a Ha Hfree.
    destruct (Hnext (first + Z.of_nat (length (e_guesses e))) Hfree) as (u & Hu & Hu0 & Hnu); [lia|].
    exists u. split; [done|]. split; [done|]. specialize (Hle a Ha Hfree).
    pose proof (lockout_delay_nonneg (first + Z.of_nat (length (e_guesses e)))). lia.
  - split; [done|]. rewrite length_app. simpl. split; [lia|]. intros a Ha Hfree.
    rewrite last_snoc in Ha. injection Ha as <-. apply Hnext; [done|lia].
  - by apply paced_snoc.
Qed.

(** What does not open any of the factors. *)
Definition opens_none (c : Call) : Prop :=
  match c with
  | CUnlockWithPin digits => forall f fk mk, f ∈ fs -> fr_kind f = pin ->
      derivePinKey has_subtle digits (fr_salt f) (fr_iterations f) = Ok fk ->
      unwrapMasterKey fk (fr_wrapped f) (kind_name (fr_kind f)) (fr_id f) <> Ok mk
  | CUnlockWithFactorKey id key => forall f mk, f ∈ fs -> fr_id f = id ->
      unwrapMasterKey key (fr_wrapped f) (kind_name (fr_kind f)) (fr_id f) <> Ok mk
  | CEnrollPin _ _ => False
  | _ => True
  end.

Lemma out_try_factor digits r f acc :
  opens_none (CUnlockWithPin digits) -> f ∈ fs -> fr_kind f = pin -> acc <> Some Unlocked ->
  forall e, kept_out e ->
  alone (try_factor digits r f acc)
    (fun e' res => kept_out e' /\ forall o, res = Ok o -> o = acc) e.
Proof.
  intros Hno Hf Hpin Hacc e He. unfold try_factor. destruct acc as [o|]; [by split; [|intros ? [= <-]]|].
  unfold derive. apply wpd_bind, wpd_bind, alone_tick; [done|]. next. apply wp_crypto.
  destruct (derivePinKey _ _ _ _) as [fk|] eqn:Hd; [|done]. next.
  apply wp_attempt, wpd_bind, wp_crypto.
  destruct (unwrapMasterKey _ _ _ _) as [mk|] eqn:Hu; [by destruct (Hno f fk mk Hf Hpin Hd)|].
  by split; [|intros ? [= <-]].
Qed.

Lemma out_unlockWithPin digits : opens_none (CUnlockWithPin digits) -> holds_out (unlockWithPin digits).
Proof.
  intros Hno e He. unfold unlockWithPin. apply wpd_bind, out_read; [done| |done]. next.
  destruct (d_lock (e_disk e)) as [r|] eqn:Hl; [|done].
  apply wpd_bind, wp_clock; [done|]. intros d Hnow. next.
  destruct (throttled r (dr_now d)) eqn:Ht; [done|]. unfold unlock_attempt. case_decide as Hpf; [done|].
  destruct (counted_next e r (dr_now d) He Hl Ht Hnow) as (H1 & H2 & H3). set (r' := with_failed _ _ r) in *.
  assert (kept_out (on_disk (put_lock (Some r')) e)) as He1.
  { destruct He. split; [done..|]. by intros ? [= <-]. }
  unfold writeLockRecord. apply wpd_bind, wpd_bind, alone_openDb; [done| |done]. next.
  apply alone_put; [done..| |done]. next.
  assert (kept_out (add_guess (dr_now d) (on_disk (put_lock (Some r')) e))) as He2.
  { destruct He. split; [done..|]. by intros ? [= <-]. }
  apply wpd_bind, wp_modify; [done|]. next. apply wpd_bind.
  assert (lr_factors r = fs) as Hfs by (by destruct (ko_counted _ He _ Hl)).
  apply (wp_loop _ _ _ _ (fun l acc e => acc = None /\ kept_out e /\ forall f, f ∈ l -> f ∈ fs /\ fr_kind f = pin)).
  - intros f l acc e3 (-> & He3 & Hin). destruct (Hin f) as [Hff Hfp]; [left|].
    eapply wpd_mono; [by apply out_try_factor|]. intros e4 [o|x] [He4 Ho]; [|done].
    split; [by apply Ho|]. split; [done|]. intros g Hg. apply Hin. by right.
  - intros acc e3 (-> & He3 & _). next. case_match; [|done].
    apply wpd_bind. eapply wpd_mono; [by apply out_erase|]. by intros e4 [u|x] He4.
  - split; [done|]. split; [done|]. intros f [Hp Hin]%list_elem_of_filter. rewrite Hfs in Hin.
    split; [done|]. unfold is_pin in Hp. by destruct (fr_kind f).
Qed.

Lemma out_unlockWithFactorKey id key :
  opens_none (CUnlockWithFactorKey id key) -> holds_out (unlockWithFactorKey id key).
Proof.
  intros Hno e He. unfold unlockWithFactorKey. apply wpd_bind, out_read; [done| |done]. next.
  destruct (d_lock (e_disk e)) as [r|] eqn:Hl; [|done].
  destruct (head _) as [f|] eqn:Hh; [|done].
  apply head_Some_elem_of, list_elem_of_filter in Hh as [Hid Hin].
  destruct (ko_counted _ He _ Hl) as (Hfs & _). rewrite Hfs in Hin.
  apply wp_attempt, wpd_bind, wp_crypto.
  destruct (unwrapMasterKey _ _ _ _) as [mk|] eqn:Hu; [|done]. by destruct (Hno f mk Hin Hid).
Qed.

Ltac without_key :=
  let e := fresh "e" in let He := fresh "He" in
  intros e He; apply wpd_bind, out_read; [done| |done]; next;
  destruct (d_lock (e_disk e)); [by apply wpd_bind, out_require|done].

Lemma out_addFactor kind key label : holds_out (addFactor kind key label None None).
Proof. unfold addFactor. without_key. Qed.
Lemma out_removeFactor id : holds_out (removeFactor id).
Proof. unfold removeFactor. without_key. Qed.
Lemma out_updateLockSettings patch : holds_out (updateLockSettings patch).
Proof. unfold updateLockSettings. without_key. Qed.
Lemma out_setSessionLock sid name locked : holds_out (setSessionLock sid name locked).
Proof. intros e He. unfold setSessionLock. by apply wpd_bind, out_require. Qed.

Lemma out_program c : opens_none c -> holds_out (program c).
Proof.
  intros Hc. destruct c; cbn [program]; try done;
    try (by apply out_reply, out_gentle; auto with gentle).
  - apply out_reply, out_hydrate.
  - apply out_reply, out_addFactor.
  - apply out_reply, out_removeFactor.
  - by apply out_reply, out_unlockWithPin.
  - by apply out_reply, out_unlockWithFactorKey.
  - apply out_reply, out_updateLockSettings.
  - apply out_reply, out_setSessionLock.
  - apply out_reply, out_erase.
  - apply out_bind; [apply out_gentle; auto with gentle|]. intros r. apply out_reply, out_saveSessionKeys.
  - apply out_bind; [apply out_gentle; auto with gentle|]. intros r. apply out_reply, out_persistPairing.
Qed.

Definition outside (m : Move) : Prop :=
  match m with MCall c draws => opens_none c /\ Forall fair draws | _ => True end.

Lemma calm_fair i : fair ((fun _ : nat => calm_draw) i).
Proof. done. Qed.

Lemma gate_load_out e : kept_out e -> kept_out (gate_load e).
Proof.
  intros [H1 H2 H3]. unfold gate_load.
  apply (wp_finish fair (keeps kept_out) _ (fun e' _ => kept_out e') _ _ 0 calm_fair).
  apply out_hydrate. by split.
Qed.

Lemma move_out m e : outside m -> kept_out e -> kept_out (move m e).
Proof.
  intros Hm He. destruct m as [c draws|reason|]; simpl in *.
  - destruct Hm as [Hc Hd]. pose proof (out_program c Hc e He) as Hp.
    destruct (turns_keep _ _ _ _ _ _ Hd He Hp) as [HC Hw].
    destruct (turns draws (program c) e) as [e' p]. simpl in *. destruct p; simpl; try done; by apply gate_load_out.
  - destruct He as [H1 H2 H3]. split; [|done..]. cbn. unfold lockNow, isUnlocked.
    rewrite H1. rewrite orb_true_r. done.
  - by apply gate_load_out.
Qed.

Lemma moves_out ms e : Forall outside ms -> kept_out e -> kept_out (moves ms e).
Proof.
  intros Hms. unfold moves. revert e. induction Hms as [|m ms Hm _ IH]; intros e He; simpl; [done|].
  by apply IH, move_out.
Qed.
End Throttle.


(** ** A locked tab among others *)

Section LockedTab.
Context {AE : Aead} {HK : Hkdf} {PB : Pbkdf2} {JS : KeysJson} {PG : Page}.

(** The calls that change who can open the device, or how. *)
Definition guarded (c : Call) : bool :=
  match c with
  | CAddFactor _ _ _ | CRemoveFactor _ | CUpdateLockSettings _ | CSetSessionLock _ _ _ => true
  | _ => false
  end.

Definition locked_env (e : Env) : Prop := t_masterKeyRef (e_tab e) = None.
Definition stays_locked (_ e : Env) : Prop := locked_env e.
Definition same_disk (e e' : Env) : Prop := e_disk e' = e_disk e.

Notation among := (wp any stays_locked same_disk).

Lemma among_read Q e :
  (forall e1 r, locked_env e1 -> Q e1 (Ok r)) -> among readLockRecord Q e.
Proof.
  intros HQ. unfold readLockRecord. apply wp_attempt, wpd_bind, wp_openDb. intros e1 He1.
  split; [done|]. split; [|intros _; by apply HQ]. next.
  apply wpd_get. intros e2 He2. split; [done|]. split; [|intros _; by apply HQ].
  intros e3 He3. split; [done|]. by apply HQ.
Qed.

Lemma among_require Q e : locked_env e -> Q e (Err DeviceLocked) -> among requireMasterKey Q e.
Proof.
  intros He HQ. unfold requireMasterKey. apply wpd_bind, wp_gets; [done|]. next.
  unfold masterKey. by rewrite He.
Qed.

Lemma guarded_among c e : guarded c = true -> locked_env e -> among (program c) (fun _ _ => True) e.
Proof.
  intros Hc He. destruct c; try done; cbn [program]; apply wpd_bind.
  4: { unfold setSessionLock. by apply wpd_bind, among_require. }
  all: apply wpd_bind, among_read; intros e1 [r|] He1; next; [by apply wpd_bind, among_require|done].
Qed.

(** Where a thread of such a call can be. *)
Definition harmless {A} (p : Web A) : Prop :=
  match p with
  | Sync _ _ _ => False
  | _ => exists Q e, among p Q e
  end.

Lemma settle_among {A} (p : Web A) Q e d :
  among p Q e -> same_disk e (settle d p e).1 /\ harmless (settle d p e).2.
Proof.
  revert e. induction p as [a|x|B q k IH|B q k IH]; intros e Hp; simpl.
  - split; [done|by exists Q, e].
  - split; [done|by exists Q, e].
  - destruct (Hp d I) as [HG Hk]. destruct (q d e) as [e' r]. destruct (IH r e' Hk) as [H1 H2].
    split; [|done]. by etrans.
  - split; [done|by exists Q, e].
Qed.

Lemma turn_harmless {A} (p : Web A) e d :
  locked_env e -> harmless p -> same_disk e (turn d p e).1 /\ harmless (turn d p e).2.
Proof.
  intros He. destruct p as [a|x|B q k|B q k]; simpl; [done|done|done|].
  intros (Q & e0 & Hp). destruct (Hp e He d I) as [HG Hk]. destruct (q d e) as [e' r].
  destruct (settle_among _ _ _ d Hk) as [H1 H2]. split; [|done]. by etrans.
Qed.

(** Every state of a run, and every turn of one thread. *)
Fixpoint always (P : Browser -> Prop) (es : list Event) (b : Browser) : Prop :=
  P b /\ match es with [] => True | ev :: es => always P es (react ev b) end.

Fixpoint turns_of (i : nat) (P : Browser -> Browser -> Prop) (es : list Event) (b : Browser) : Prop :=
  match es with
  | [] => True
  | ev :: es =>
      match ev with ETurn j _ => j = i -> P b (react ev b) | _ => True end /\
      turns_of i P es (react ev b)
  end.

Definition tab_locked (t : nat) (b : Browser) : Prop :=
  forall tab, b_tabs b !! t = Some tab -> t_masterKeyRef tab = None.

(** The call is made, and what is left of it, if anything, is harmless. *)
Definition thread_harmless (t i : nat) (b : Browser) : Prop :=
  (i < b_calls b)%nat /\
  forall u p, b_threads b i = Some (u, p) -> u = t /\ harmless p.

Lemma in_tab_thread t f i u b : thread_harmless u i b -> thread_harmless u i (in_tab t f b).
Proof. unfold in_tab, thread_harmless. by destruct (b_tabs b !! t). Qed.

Lemma react_thread t i ev b :
  tab_locked t b -> thread_harmless t i b ->
  thread_harmless t i (react ev b) /\
  match ev with ETurn j _ => j = i -> b_disk (react ev b) = b_disk b | _ => True end.
Proof.
  intros Ht Hh. pose proof Hh as [Hi Hp].
  destruct ev as [u|u|u c d|j d|u reason|u|u keys|u on|u enter]; cbn [react];
    try by split; [apply in_tab_thread|].
  - split; [|done]. by destruct (b_tabs b !! u).
  - split; [|done]. apply in_tab_thread. split; [done|]. cbn. intros v p.
    destruct (b_threads b i) as [[v' p']|]; [|done]. case_decide; [done|]. intros [= <- <-]. by apply Hp.
  - split; [|done]. destruct (b_tabs b !! u) as [tab|]; [|done].
    destruct (settle _ _ _) as [e' p']. unfold thread_harmless, set_thread. cbn. split; [lia|].
    rewrite decide_False by lia. done.
  - destruct (b_threads b j) as [[u p']|] eqn:Hj; [|by split].
    destruct (b_tabs b !! u) as [tab|] eqn:Hu; [|by split].
    destruct (decide (j = i)) as [->|Hne].
    + destruct (Hp u p' Hj) as [-> Hh']. 
      destruct (turn_harmless p' (env_of b tab) d (Ht tab Hu) Hh') as [H1 H2].
      destruct (turn d p' (env_of b tab)) as [e' p'']. split; [|done]. split; [done|].
      unfold set_thread. cbn. intros v q. rewrite decide_True by done. by intros [= <- <-].
    + destruct (turn d p' (env_of b tab)) as [e' p'']. split; [|done]. split; [done|].
      unfold set_thread. cbn. by rewrite decide_False.
  - split; [|done]. case_decide; [|done]. by apply in_tab_thread.
Qed.

Lemma thread_quiet t i es b :
  always (tab_locked t) es b -> thread_harmless t i b ->
  turns_of i (fun b b' => b_disk b' = b_disk b) es b.
Proof.
  revert b. induction es as [|ev es IH]; intros b Ha Hh; [done|].
  destruct Ha as [Ht Ha]. destruct (react_thread t i ev b Ht Hh) as [Hh' Hd].
  split; [|by apply IH]. destruct ev; try done.
Qed.

(** A locked device cannot be reconfigured.  Let a page that is locked call
    [addFactor], [removeFactor], [updateLockSettings] or [setSessionLock], and
    let anything happen around it: other calls, other tabs that are unlocked,
    locks, reloads, a database that fails.  As long as the page itself stays
    locked, neither the start of the call nor any of its turns changes
    anything on the disk. *)
Theorem locked_changes_nothing t c d es b tab
    (Hc : guarded c = true) (Ht : b_tabs b !! t = Some tab)
    (Hlocked : always (tab_locked t) (ECall t c d :: es) b) :
  b_disk (react (ECall t c d) b) = b_disk b /\
  turns_of (b_calls b) (fun b b' => b_disk b' = b_disk b) es (react (ECall t c d) b).
Proof.
  destruct Hlocked as [Hl Ha].
  assert (among (program c) (fun _ _ => True) (env_of b tab)) as Hp.
  { apply guarded_among; [done|]. by apply Hl. }
  destruct (settle_among _ _ _ d Hp) as [H1 H2].
  assert (b_disk (react (ECall t c d) b) = b_disk b /\
    thread_harmless t (b_calls b) (react (ECall t c d) b)) as [Hd Hh]; [|by split; [|eapply thread_quiet]].
  cbn [react]. rewrite Ht. destruct (settle d (program c) (env_of b tab)) as [e' p].
  split; [done|]. split; [cbn; lia|]. unfold set_thread. cbn. intros u q.
  rewrite decide_True by done. by intros [= <- <-].
Qed.
End LockedTab.
