(* ===== verification/DeviceReturn.v ===== *)
(** * DeviceReturn: a device that is locked opens again, with all its keys

    [enrollPin], a lock or a reload, [unlockWithPin] and [loadSessionKeys] one
    after the other, on a database that works: what was on the disk before
    enrolling comes back, and nothing of it while locked
    ([locked_and_back]). *)

From S2P Require Import Prelude Bytes Noble Envelope DeviceStore DeviceLock DeviceLogic DeviceSafety.

(** Ids of factors are hexadecimal. *)
Lemma toHex_barless bs : is_bytes bs -> bs <> [] -> barless (factorId bs).
Proof.
  assert (forall n, 0 <= n < 16 -> Z.of_N (Ascii.N_of_ascii (Toy.hexDigit n)) <> 124) as Hdigit.
  { intros n Hn. assert (forallb (fun k => negb (Z.of_N (Ascii.N_of_ascii (Toy.hexDigit (Z.of_nat k))) =? 124))
      (seq 0 16) = true) as Hall by (vm_compute; reflexivity).
    rewrite forallb_forall in Hall. specialize (Hall (Z.to_nat n)).
    rewrite Z2Nat.id, negb_true_iff, Z.eqb_neq in Hall by lia. apply Hall, in_seq. lia. }
  intros Hb Hne. split; [by destruct bs|]. clear Hne.
  induction Hb as [|b bs Hb _ IH]; [by intros ?%elem_of_nil|]. unfold is_byte in Hb. cbn.
  intros [He|[He|He]%elem_of_cons]%elem_of_cons.
  - by apply (Hdigit (b / 16)); [dlia|].
  - by apply (Hdigit (b mod 16)); [dlia|].
  - by apply IH.
Qed.

Lemma field_barless s what : barless s -> field s what = Ok s.
Proof. intros Hs. by apply field_ok. Qed.

Lemma recordAad_barless sid : barless sid -> exists aad, recordAad "session-keys" sid = Ok aad.
Proof.
  intros Hs. unfold recordAad. rewrite (field_barless sid) by done. simpl. eauto.
Qed.

Section Return.
Context {AE : Aead} {AL : AeadLaws} {AB : AeadBinds} {HK : Hkdf} {HL : HkdfLaws} {PB : Pbkdf2}
  {PL : Pbkdf2Laws} {JS : KeysJson} {JL : KeysJsonLaws} {PG : Page}.

Lemma sealJson_fine key v aad nonce :
  length key = MASTER_KEY_BYTES -> aad <> "" -> exists r, sealJson keys_stringify key v aad nonce = Ok r.
Proof.
  intros Hk Ha. unfold sealJson. destruct (keys_parse_back v) as (s & -> & _).
  unfold seal, assertKey, aadBytes. rewrite Hk. simpl. rewrite decide_False by done. simpl. eauto.
Qed.

Lemma seal_keys_fine key k sid nonce :
  length key = MASTER_KEY_BYTES -> barless sid -> exists r, seal_keys key k sid nonce = Ok r.
Proof.
  intros Hk Hs. unfold seal_keys. destruct (recordAad_barless sid Hs) as [aad Ha]. rewrite Ha. simpl.
  apply sealJson_fine; [done|]. by eapply recordAad_nonempty.
Qed.

Lemma seal_token_fine key token nonce :
  length key = MASTER_KEY_BYTES -> exists r, seal_token key token nonce = Ok r.
Proof. intros Hk. unfold seal_token. by apply sealJson_fine. Qed.

Lemma wrap_fine fk key id nonce :
  length key = MASTER_KEY_BYTES -> barless id -> exists w, wrapMasterKey fk key "pin" id nonce = Ok w.
Proof.
  intros Hk Hid. unfold wrapMasterKey, assertKey. rewrite Hk. simpl.
  unfold wrappingKey, wrapInfo, wrapAad. rewrite !(field_barless id) by done. simpl.
  unfold seal, assertKey, aadBytes. rewrite hkdf_length. simpl. eauto.
Qed.

Lemma derive_fine digits salt :
  digits <> "" -> length salt = FACTOR_SALT_BYTES ->
  exists fk, derivePinKey has_subtle digits salt (pbkdf2Iterations has_subtle) = Ok fk.
Proof.
  intros Hd Hs. unfold derivePinKey. rewrite decide_False by done.
  replace (pbkdf2Iterations has_subtle <? 1) with false by (by unfold pbkdf2Iterations; destruct has_subtle).
  rewrite decide_False by (by intros ->). destruct has_subtle; eauto.
Qed.

(** Keys that a pairing produced: bytes, under the id of a device. *)
Definition pairings (d : Disk) : Prop :=
  forall sid k, d_keys d !! sid = Some (Plain k) ->
    barless sid /\ is_bytes (sk_c2s k) /\ is_bytes (sk_s2c k) /\ is_bytes (sk_confirm k).

Lemma enroll_never_fails digits e x :
  d_lock (e_disk e) = None -> pairings (e_disk e) -> digits <> "" -> ~ enroll_fails false digits e x.
Proof.
  intros Hl Hp Hd Hf. destruct Hf as [[r Hr]|Hf|d salt x Hfit -> Hx|d key fk nonce x [Hs _] Hk Hx
    |key sid k nonce x Hk Hin Hx|key token nonce x Hk Hx].
  - congruence.
  - done.
  - destruct Hfit as [Hs _]. destruct (derive_fine digits (dr_rand d 1 FACTOR_SALT_BYTES) Hd) as [fk Hfk]; [apply Hs|].
    congruence.
  - destruct (Hs 2%nat 8%nat) as [Hlen Hb].
    destruct (wrap_fine fk key (factorId (dr_rand d 2 8)) nonce Hk) as [w Hw]; [|congruence].
    apply toHex_barless; [done|]. by intros He; rewrite He in Hlen.
  - destruct (Hp _ _ Hin) as [Hsid _]. destruct (seal_keys_fine key k sid nonce Hk Hsid). congruence.
  - destruct (seal_token_fine key token nonce Hk). congruence.
Qed.

(** ** The page in between *)

Lemma gate_load_eq e : gate_load e = on_tab (fun t =>
  setEnrolled (match d_lock (e_disk e) with Some r => bool_decide (lr_factors r <> []) | None => false end)
    (load_tab (t_mirror t))) e.
Proof. by destruct e as [d t g]. Qed.

Lemma forget_keys t : t_keys (forget t) = ∅.
Proof. done. Qed.
Lemma forget_token t : t_localTokenRef (forget t) = None.
Proof.
  unfold forget. simpl. set (l := (map_to_list _).*2). clearbody l.
  assert (forall t', t_localTokenRef (foldr wipe_keys t' l) = t_localTokenRef t') as Hw by (intros; by induction l).
  by rewrite Hw.
Qed.

(** Locked: enrolled, and nothing of the keys in memory. *)
Definition put_away (e1 e2 : Env) : Prop :=
  e_disk e2 = e_disk e1 /\ t_masterKeyRef (e_tab e2) = None /\ t_keys (e_tab e2) = ∅ /\
  t_localTokenRef (e_tab e2) = None.

Lemma lockNow_puts_away reason e :
  t_enrolledRef (e_tab e) = true -> is_Some (t_masterKeyRef (e_tab e)) ->
  put_away e (on_tab (lockNow reason) e).
Proof.
  intros Hen Hun. unfold put_away, lockNow, isEnrolled, isUnlocked. cbn.
  rewrite Hen, bool_decide_true by done. cbn [negb orb]. split; [done|].
  set (t := if t_disconnect _ then _ else _).
  pose proof (forget_held t). pose proof (forget_token t). by destruct reason.
Qed.

Lemma gate_load_puts_away e : put_away e (gate_load e).
Proof.
  rewrite gate_load_eq. unfold put_away, setEnrolled. cbn. split; [done|].
  destruct (match d_lock _ with Some _ => _ | None => _ end); done.
Qed.

(** ** Unlocking with the PIN *)

Definition nothing (e : Env) : Prop := True.
Notation calmly := (wp (fit false) eq (keeps nothing)).

Lemma calmly_gentle {A} (p : Web A) Q e :
  gentle p -> (forall e' r, mild e e' -> Q e' r) -> calmly p Q e.
Proof. intros Hp HQ. by apply gentle_keeps. Qed.

Lemma calmly_openDb Q e : Q e (Ok tt) -> calmly openDb Q e.
Proof. intros HQ. by apply calm_openDb; [exact fit_calm|..]. Qed.
Lemma calmly_get {B} (f : Disk -> B) Q e : Q e (Ok (f (e_disk e))) -> calmly (tx_get f) Q e.
Proof. intros HQ. by apply calm_get; [exact fit_calm|..]. Qed.
Lemma calmly_put f Q e : Q (on_disk f e) (Ok tt) -> calmly (tx_put f) Q e.
Proof. intros HQ. by apply calm_put; [exact fit_calm|..]. Qed.
Lemma calmly_read Q e : Q e (Ok (d_lock (e_disk e))) -> calmly readLockRecord Q e.
Proof.
  intros HQ. unfold readLockRecord. by apply wp_attempt, wpd_bind, calmly_openDb, calmly_get.
Qed.
Lemma calmly_write r Q e : Q (on_disk (put_lock (Some r)) e) (Ok tt) -> calmly (writeLockRecord r) Q e.
Proof. intros HQ. unfold writeLockRecord. by apply wpd_bind, calmly_openDb, calmly_put. Qed.

(** The token that was moved into the lock store, and back in memory. *)
Definition token_of (key : bytes) (d : Disk) : option string :=
  r ← d_lockToken d; match open_token key r with Ok token => Some token | Err _ => None end.

Lemma calmly_restore key l Q e :
  holds key l (e_tab e) ->
  Q (match token_of key (e_disk e) with
     | Some token => on_tab (setLocalToken (Some token)) e
     | None => e
     end) (Ok tt) ->
  calmly (restoreLocalToken l) Q e.
Proof.
  intros Hh HQ. unfold restoreLocalToken, token_of in *.
  apply wp_attempt, wpd_bind, calmly_openDb. next. apply wpd_bind, calmly_get. next.
  destruct (d_lockToken (e_disk e)) as [r|]; [|exact HQ].
  apply wpd_bind, wp_gets; [done|]. next. rewrite (holds_deref _ _ _ Hh). cbn in HQ.
  apply wpd_bind, wp_crypto. destruct (open_token key r) as [token|]; next; [|exact HQ].
  by apply wp_modify.
Qed.

(** A page that holds the key of the lock, with the same machines on the disk. *)
Record opened (key : bytes) (d : Disk) (e : Env) : Prop := {
  op_held : exists l, t_masterKeyRef (e_tab e) = Some l /\ holds key l (e_tab e);
  op_cache : t_keys (e_tab e) = ∅;
  op_keys : d_keys (e_disk e) = d_keys d;
  op_token : t_localTokenRef (e_tab e) = token_of key d;
}.

Lemma calmly_unlock digits key fk f record e :
  d_lock (e_disk e) = Some record -> lr_factors record = [f] -> lr_lockedUntil record = None ->
  fr_kind f = pin -> derivePinKey has_subtle digits (fr_salt f) (fr_iterations f) = Ok fk ->
  unwrapMasterKey fk (fr_wrapped f) (kind_name (fr_kind f)) (fr_id f) = Ok key ->
  t_masterKeyRef (e_tab e) = None -> t_keys (e_tab e) = ∅ -> t_localTokenRef (e_tab e) = None ->
  calmly (unlockWithPin digits) (fun e' r => r = Ok Unlocked /\ opened key (e_disk e) e') e.
Proof.
  intros Hl Hf Hu Hpin Hd Hw Hm Hk Ht. unfold unlockWithPin. apply wpd_bind, calmly_read. rewrite Hl. next.
  apply wpd_bind, wp_clock; [done|]. intros d _. next. unfold throttled, unlock_attempt. rewrite Hu, Hf.
  assert (filter (fun f => is_pin f = true) [f] = [f]) as ->.
  { rewrite filter_cons_True; [done|]. unfold is_pin. by rewrite Hpin. }
  rewrite decide_False by done.
  apply wpd_bind, calmly_write. next. apply wpd_bind, wp_modify; [done|]. next.
  cbn [loop]. apply wpd_bind, wpd_bind. unfold try_factor, derive. apply wpd_bind, wpd_bind, alone_tick; [done|].
  next. apply wp_crypto. rewrite Hd. next. apply wp_attempt, wpd_bind, wp_crypto. rewrite Hw. next.
  apply wpd_bind, wp_new_buffer; [done|]. next. apply wpd_bind, calmly_write. next.
  apply wpd_bind, wp_modify; [done|]. next. apply wpd_bind.
  eapply (calmly_restore key); [by split; cbn; rewrite ?Hm; simpl; [rewrite lookup_insert_eq|lia]|].
  next. split; [done|].
  match goal with |- opened _ _ (match ?t with Some _ => _ | None => _ end) =>
    change t with (token_of key (e_disk e)) end.
  destruct (token_of key (e_disk e)) as [token|] eqn:Htok; split; cbn; rewrite ?Htok, ?Hm; try done;
    (eexists; split; [done|]; split; cbn; rewrite ?Hm; [by rewrite lookup_insert_eq|lia]).
Qed.

(** ** Loading keys *)

Lemma calmly_load_away sid e :
  t_keys (e_tab e) = ∅ -> t_masterKeyRef (e_tab e) = None ->
  (forall r, d_keys (e_disk e) !! sid = Some r -> isSealed r = true) ->
  calmly (loadSessionKeys sid) (fun _ r => r = Ok None) e.
Proof.
  intros Hk Hm Hs. unfold loadSessionKeys. apply wpd_bind, wp_gets; [done|]. next.
  unfold cachedKeys. rewrite Hk, lookup_empty.
  apply wp_attempt, wpd_bind, calmly_openDb. next. apply wpd_bind, calmly_get. next.
  destruct (d_keys (e_disk e) !! sid) as [[k|s]|]; [by specialize (Hs _ eq_refl)| |done].
  apply wpd_bind, wp_gets; [done|]. next. unfold masterKey. by rewrite Hm.
Qed.

(** The keys themselves; which sessions are marked is read elsewhere. *)
Definition unmarked (k : StoredKeys) : StoredKeys :=
  mkStoredKeys (sk_c2s k) (sk_s2c k) (sk_confirm k) (sk_directToken k) None.

Lemma read_new_keys k t t' r :
  alloc_keys k t = (t', r) -> read_keys r t' = k.
Proof.
  intros [= <- <-]. unfold read_keys, deref. cbn.
  repeat (rewrite ?lookup_insert_eq, ?lookup_insert_ne by lia). by destruct k.
Qed.

Lemma calmly_load key sid s k d e :
  opened key d e -> d_keys d !! sid = Some (Sealed s) -> open_keys key s sid = Ok k ->
  calmly (loadSessionKeys sid)
    (fun e' r => exists refs, r = Ok (Some refs) /\ read_keys refs (e_tab e') = unmarked k) e.
Proof.
  intros [(l & Hm & Hh) Hc Hk _] Hs Ho. unfold loadSessionKeys. apply wpd_bind, wp_gets; [done|]. next.
  unfold cachedKeys. rewrite Hc, lookup_empty.
  apply wp_attempt, wpd_bind, calmly_openDb. next. apply wpd_bind, calmly_get. next. rewrite Hk, Hs.
  apply wpd_bind, wp_gets; [done|]. next. unfold masterKey. rewrite Hm. cbn [mbind option_bind].
  rewrite (holds_deref _ _ _ Hh). apply wpd_bind, wp_crypto. rewrite Ho. next.
  apply wpd_bind, wp_new_keys. intros t refs Ha. split; [done|]. next.
  apply wpd_bind, wp_modify; [done|]. next. eexists. split; [done|].
  rewrite <- (read_new_keys _ _ _ _ Ha). reflexivity.
Qed.

(** ** The whole way *)

Lemma put_sealed_some acc m sid : is_Some (m !! sid) -> is_Some (put_sealed acc m !! sid).
Proof.
  unfold put_sealed. revert m. induction acc as [|[[i s] k] acc IH]; intros m Hm; [done|].
  apply IH. destruct (decide (sid = i)) as [->|]; [by rewrite lookup_insert_eq|by rewrite lookup_insert_ne].
Qed.

Lemma low_bytes_id k :
  is_bytes (sk_c2s k) -> is_bytes (sk_s2c k) -> is_bytes (sk_confirm k) -> low_bytes k = k.
Proof.
  assert (forall bs, is_bytes bs -> map (fun n => n mod 256) bs = bs) as Hid.
  { induction 1 as [|b bs Hb _ IH]; [done|]. simpl. rewrite IH, Z.mod_small by done. done. }
  intros H1 H2 H3. unfold low_bytes. rewrite !Hid by done. by destruct k.
Qed.

(** What is on the disk of an enrolled device for a machine that was there. *)
Lemma enrolled_key digits e e' key fk f record acc sid k :
  pairings (e_disk e) -> enrolled digits e e' key fk f record acc ->
  d_keys (e_disk e) !! sid = Some (Plain k) ->
  exists s, d_keys (e_disk e') !! sid = Some (Sealed s) /\ open_keys key s sid = Ok k.
Proof.
  intros Hp Hen Hk. destruct (en_sealed _ _ _ _ _ _ _ _ Hen) as [H1 H2].
  rewrite (en_keys _ _ _ _ _ _ _ _ Hen).
  destruct (put_sealed_some acc (d_keys (e_disk e)) sid) as [r Hr]; [by eexists|].
  destruct (put_sealed_lookup _ _ _ _ Hr) as [(s & k' & Hin & ->)|[Hr' Hno]].
  - exists s. split; [done|]. destruct (H1 _ _ _ Hin) as [Hin' Ho]. apply entries_elem in Hin'.
    rewrite Hk in Hin'. injection Hin' as <-. rewrite Ho. f_equal.
    destruct (Hp _ _ Hk) as (_ & ? & ? & ?). by apply low_bytes_id.
  - destruct (H2 sid k) as [s Hs]; [by apply entries_elem|]. by destruct (Hno s k).
Qed.

Lemma enrolled_token digits e e' key fk f record acc token :
  enrolled digits e e' key fk f record acc ->
  truthy (readStored TOKEN_KEY (d_local (e_disk e))).2 = Some token ->
  token_of key (e_disk e') = Some token.
Proof.
  intros Hen Ht. destruct (en_token _ _ _ _ _ _ _ _ Hen _ Ht) as [(r & Hr & Ho) _].
  unfold token_of. rewrite Hr. simpl. by rewrite Ho.
Qed.

Lemma enrolled_unwraps digits e e' key fk f record acc :
  enrolled digits e e' key fk f record acc ->
  unwrapMasterKey fk (fr_wrapped f) (kind_name (fr_kind f)) (fr_id f) = Ok key.
Proof. intros Hen. destruct (en_wrap _ _ _ _ _ _ _ _ Hen) as (n & Hn & Hw). by eapply unwrap_wrap. Qed.

(** C21: a locked device opens again, with everything it had.  On a device
    without a lock, enrol a PIN; then lock it, or close the page and load it
    again.  The enrolment succeeds; while locked no machine's keys can be
    loaded, and the self-hosted token is neither in memory nor in
    [localStorage]; the same PIN unlocks, the keys of every machine come back
    as they were, and so does the token. *)
Theorem locked_and_back digits label e draws
    (Hdraws : forall i, fit false (draws i)) (He : sound e) (Hnew : d_lock (e_disk e) = None)
    (Hkeys : pairings (e_disk e)) (Hpin : digits <> "") :
  let '(e1, r1, n1) := finish draws 0 (enrollPin digits label) e in
  r1 = Ok tt /\
  forall e2, (exists reason, e2 = on_tab (lockNow reason) e1) \/ e2 = gate_load e1 ->
  (forall sid, (finish draws n1 (loadSessionKeys sid) e2).1.2 = Ok None) /\
  let '(e3, r3, n3) := finish draws n1 (unlockWithPin digits) e2 in
  r3 = Ok Unlocked /\
  (forall sid k, d_keys (e_disk e) !! sid = Some (Plain k) ->
     let '(e4, r4, _) := finish draws n3 (loadSessionKeys sid) e3 in
     exists refs, r4 = Ok (Some refs) /\ read_keys refs (e_tab e4) = unmarked k) /\
  (forall token, truthy (readStored TOKEN_KEY (d_local (e_disk e))).2 = Some token ->
     t_localTokenRef (e_tab e2) = None /\
     (readStored TOKEN_KEY (d_local (e_disk e2))).2 = None /\
     t_localTokenRef (e_tab e3) = Some token).
Proof.
  pose proof (wp_finish _ _ _ _ _ draws 0 Hdraws (alone_enroll false digits label e He)) as H1.
  destruct (finish draws 0 (enrollPin digits label) e) as [[e1 r1] n1]. cbn [fst snd] in H1.
  destruct r1 as [[]|x]; [|destruct H1 as [_ Hf]; by apply enroll_never_fails in Hf].
  destruct H1 as (key & fk & f & record & acc & Hen). split; [done|]. intros e2 He2.
  assert (put_away e1 e2) as (Hd2 & Hm2 & Hc2 & Ht2).
  { destruct He2 as [[reason ->]| ->]; [|apply gate_load_puts_away].
    apply lockNow_puts_away; [by apply (en_tab _ _ _ _ _ _ _ _ Hen)|by apply (en_unlocked _ _ _ _ _ _ _ _ Hen)]. }
  split.
  { intros sid. apply (wp_finish (fit false) (keeps nothing) _ (fun _ r => r = Ok None) _ draws n1 Hdraws).
    apply calmly_load_away; [done..|]. rewrite Hd2. intros r Hr.
    by destruct (dl_keys _ _ _ (en_disk _ _ _ _ _ _ _ _ Hen) _ _ Hr) as (s & k & -> & _). }
  destruct (en_record _ _ _ _ _ _ _ _ Hen) as (Hf & _ & Hu).
  assert (wp (fit false) eq (keeps nothing) (unlockWithPin digits)
    (fun e' r => r = Ok Unlocked /\ opened key (e_disk e2) e') e2) as Hun.
  { eapply (calmly_unlock digits key fk f record); try done; [|by apply (en_pin _ _ _ _ _ _ _ _ Hen)
    |by apply (en_derive _ _ _ _ _ _ _ _ Hen)|by eapply enrolled_unwraps].
    rewrite Hd2. by apply (en_lock _ _ _ _ _ _ _ _ Hen). }
  apply (wp_finish _ _ _ _ _ draws n1 Hdraws) in Hun.
  destruct (finish draws n1 (unlockWithPin digits) e2) as [[e3 r3] n3]. cbn [fst snd] in Hun.
  destruct Hun as [-> Hop]. rewrite Hd2 in *. split; [done|]. split.
  - intros sid k Hk. destruct (enrolled_key _ _ _ _ _ _ _ _ _ _ Hkeys Hen Hk) as (s & Hs & Ho).
    pose proof (wp_finish _ _ _ _ _ draws n3 Hdraws (calmly_load _ _ _ _ _ _ Hop Hs Ho)) as Hload.
    by destruct (finish draws n3 (loadSessionKeys sid) e3) as [[e4 r4] n4].
  - intros token Ht. destruct (en_token _ _ _ _ _ _ _ _ Hen _ Ht) as [_ Hloc].
    split; [done|]. split; [done|]. rewrite (op_token _ _ _ Hop). by eapply enrolled_token.
Qed.
End Return.
