(* ===== verification/DeviceTraces.v ===== *)
(** * DeviceTraces: the device lock on concrete browsers *)

From Stdlib Require Import Ascii.
From S2P Require Import Prelude Bytes Noble Envelope DeviceStore DeviceLock DeviceLogic DeviceSafety DeviceThrottle DeviceReturn.
Import Toy.

Module ToyJson.

Definition keys_tuple (k : StoredKeys) : bytes * bytes * bytes * string * option (gset string) :=
  (sk_c2s k, sk_s2c k, sk_confirm k, sk_directToken k, sk_sessionLocks k).
Definition tuple_keys (x : bytes * bytes * bytes * string * option (gset string)) : StoredKeys :=
  let '(a, b, c, d, l) := x in mkStoredKeys a b c d l.

Definition sealable_sum (v : Sealable) :=
  match v with SealedKeys k => inl (keys_tuple k) | SealedToken t => inr t end.
Definition sum_sealable v :=
  match v with inl k => SealedKeys (tuple_keys k) | inr t => SealedToken t end.

Fixpoint bits (p : positive) : string :=
  match p with
  | xH => EmptyString
  | xO p => String "0"%char (bits p)
  | xI p => String "1"%char (bits p)
  end.

Fixpoint of_bits (s : string) : positive :=
  match s with
  | String "0"%char s => xO (of_bits s)
  | String _ s => xI (of_bits s)
  | EmptyString => xH
  end.

Definition of_utf8 (bs : bytes) : string :=
  String.string_of_list_ascii (map (fun b => Ascii.ascii_of_N (Z.to_N b)) bs).

#[export] Instance json : KeysJson := {
  keys_stringify v := Some (bits (encode (sealable_sum v)));
  keys_parse s := sum_sealable <$> decode (of_bits s);
  text_decode := of_utf8;
}.

Lemma of_bits_bits p : of_bits (bits p) = p.
Proof. induction p; simpl; congruence. Qed.

Lemma of_utf8_utf8 s : of_utf8 (utf8 s) = s.
Proof.
  unfold of_utf8, utf8. induction s as [|a s IH]; [done|]. simpl.
  rewrite N2Z.id, Ascii.ascii_N_embedding. f_equal. exact IH.
Qed.

#[export] Instance json_laws : KeysJsonLaws.
Proof.
  split. intros v. eexists. split; [reflexivity|]. simpl.
  rewrite of_utf8_utf8, of_bits_bits, decode_encode. simpl. by destruct v as [[]|].
Qed.

#[export] Instance binds : AeadBinds.
Proof.
  split. intros k k' iv aad pt pt' Hd. apply aead_opens, aead_encrypt_inj in Hd. naive_solver.
Qed.

#[export] Instance page : Page := { has_subtle := true }.
End ToyJson.
Import ToyJson.

Module DeviceDemo.

Definition rand (slot n : nat) : bytes := replicate n ((Z.of_nat slot + 1) mod 256).
Definition at_ (now : Z) : Draw := mkDraw now false rand None.
Definition failing (now : Z) : Draw := mkDraw now true rand None.
Definition calls (n : nat) (now : Z) : list Draw := replicate n (at_ now).

Definition keysA : StoredKeys := mkStoredKeys [1; 2] [3; 4] [5] "tok-a" None.
Definition keysB : StoredKeys := mkStoredKeys [6] [7] [8] "tok-b" None.
Definition machineA : SealedDescriptor := mkDescriptor ["http://192.168.1.5:14100"] "tnl-a" "aaaa" "11" "a".
Definition machineB : SealedDescriptor := mkDescriptor [] "tnl-b" "bbbb" "22" "b".

Definition disk : Disk := mkDisk ∅ ∅ None None ∅ ∅ {[ TOKEN_KEY := "secret" ]}.
Definition fresh : Env := mkEnv disk (load_tab None) [].
Definition paired : Env := move (MCall (CSaveSessionKeys "aaaa" keysA) (calls 6 0)) fresh.
Definition enrolled_env : Env := move (MCall (CEnrollPin "1234" None) (calls 20 0)) paired.
Definition locked : Env := move (MLock manual) enrolled_env.
Definition settled : Env := move (MCall (CUnlockWithPin "1234") (calls 30 1000)) locked.

(** A browser with these tabs on the disk of [e]. *)
Definition browser (e : Env) (tabs : list (nat * Tab)) : Browser :=
  mkBrowser (e_disk e) [] (list_to_map tabs) 0 (fun _ => None) [].
Definition turns_ (i n : nat) (now : Z) : list Event := replicate n (ETurn i (at_ now)).
Definition said (i : nat) (b : Browser) : option (option Reply) :=
  match b_threads b i with
  | Some (_, Ret r) => Some (Some r)
  | Some (_, Throw _) => Some None
  | _ => None
  end.

(** The page of the lock screen, and one that never went through [LockGate]. *)
Definition gated : Tab := e_tab (gate_load locked).
Definition ungated : Tab := load_tab None.

(** A locked, enrolled device opens [/pair], which is outside [LockGate], in a
    new tab: nothing reads the lock record there, [isEnrolled()] is false, and
    the keys of the machine are written in the clear. *)
Lemma paired_in_the_clear :
  let b := reacts (ECall 0 (CPersistPairing keysB machineB) (at_ 0) :: turns_ 0 8 0)
             (browser locked [(0%nat, ungated)]) in
  said 0 b = Some (Some RDone) /\ is_Some (d_lock (b_disk b)) /\
  d_keys (b_disk b) !! "bbbb" = Some (Plain keysB).
Proof. split; [vm_compute; reflexivity|]. split; [by eexists; vm_compute|vm_compute; reflexivity]. Qed.

(** From a page the gate loaded, the same is refused. *)
Lemma refused_behind_the_gate :
  let b := reacts (ECall 0 (CPersistPairing keysB machineB) (at_ 0) :: turns_ 0 8 0)
             (browser locked [(0%nat, gated)]) in
  said 0 b = Some None /\ d_keys (b_disk b) !! "bbbb" = None.
Proof. split; vm_compute; reflexivity. Qed.

(** Two tabs read the counter before either writes it: two guesses, one count. *)
Lemma two_tabs_one_count :
  let b := reacts ([ECall 0 (CUnlockWithPin "1111") (at_ 0); ECall 1 (CUnlockWithPin "2222") (at_ 0)]
                   ++ turns_ 0 3 0 ++ turns_ 1 3 0 ++ turns_ 0 10 0 ++ turns_ 1 10 0)
             (browser locked [(0%nat, gated); (1%nat, gated)]) in
  said 0 b = Some (Some (ROutcome (Wrong None))) /\ said 1 b = Some (Some (ROutcome (Wrong None))) /\
  b_guesses b = [0; 0] /\ lr_failedAttempts <$> d_lock (b_disk b) = Some 1.
Proof. vm_compute. done. Qed.

(** An unlock that began before another tab added a factor writes the record
    it read back, without that factor. *)
Lemma unlock_drops_a_factor :
  let b := reacts ([ECall 0 (CUnlockWithPin "1234") (at_ 0)] ++ turns_ 0 6 0
                   ++ [ECall 1 (CAddFactor passkey (replicate 32 9) None) (at_ 0)] ++ turns_ 1 10 0
                   ++ turns_ 0 10 0)
             (browser settled [(0%nat, gated); (1%nat, e_tab settled)]) in
  said 0 b = Some (Some (ROutcome Unlocked)) /\ said 1 b = Some (Some RDone) /\
  length <$> (lr_factors <$> d_lock (b_disk b)) = Some 1%nat.
Proof. vm_compute. done. Qed.

(** The keys of a machine saved before two tabs enrol at once: sealed under the
    master key of the first, next to the lock record of the second.  Nothing
    opens them any more. *)
Definition rand2 (slot n : nat) : bytes := replicate n ((Z.of_nat slot + 77) mod 256).
Definition other (now : Z) : Draw := mkDraw now false rand2 None.

Definition enrolled_twice : Browser :=
  reacts ([ECall 0 (CEnrollPin "1234" None) (at_ 0); ECall 1 (CEnrollPin "5678" None) (other 0)]
          ++ turns_ 0 3 0 ++ replicate 3 (ETurn 1 (other 0)) ++ turns_ 0 12 0
          ++ replicate 12 (ETurn 1 (other 0)))
    (browser paired [(0%nat, load_tab None); (1%nat, load_tab None)]).

Definition unlock_and_load (digits : string) (b : Browser) : option (option Reply) * option (option Reply) :=
  let b := reacts (EReload 0 :: ECall 0 CHydrateLock (at_ 0) :: turns_ 2 4 0
                   ++ ECall 0 (CUnlockWithPin digits) (at_ 0) :: turns_ 3 20 0
                   ++ ECall 0 (CLoadSessionKeys "aaaa") (at_ 0) :: turns_ 4 8 0) b in
  (said 3 b, said 4 b).

Lemma enrolled_twice_loses_keys :
  said 0 enrolled_twice = Some (Some RDone) /\ said 1 enrolled_twice = Some (Some RDone) /\
  unlock_and_load "1234" enrolled_twice =
    (Some (Some (ROutcome (Wrong None))), Some (Some (RKeys None))) /\
  unlock_and_load "5678" enrolled_twice =
    (Some (Some (ROutcome Unlocked)), Some (Some (RKeys None))).
Proof. vm_compute. done. Qed.

(** The [catch] that takes a wrong PIN also takes a failure to write the counter
    back: the right PIN is answered [wrong], and at the tenth attempt of a
    device that wipes, it wipes it. *)
Definition wiping : LockRecord -> LockRecord := fun r =>
  patched (mkPatch (Some true) None None) (with_failed 9 None r).
Definition last_try : Env := gate_load (on_disk (fun d => put_lock (wiping <$> d_lock d) d) locked).

Lemma right_pin_wipes :
  let '(e, p) := turns (calls 8 0 ++ [failing 0] ++ calls 10 0) (program (CUnlockWithPin "1234")) last_try in
  match p with Ret r => Some r | _ => None end = Some (ROutcome Wiped) /\
  d_lock (e_disk e) = None /\ d_keys (e_disk e) = ∅.
Proof. vm_compute. done. Qed.

(** A page closed between the commit of the enrolment and what follows keeps
    the token in [localStorage] for good: unlocking does not take it away. *)
Definition cut_short : Env := move (MCall (CEnrollPin "1234" None) (calls 9 0)) paired.

Lemma cut_enrolment_leaves_the_token :
  is_Some (d_lock (e_disk cut_short)) /\
  (readStored TOKEN_KEY (d_local (e_disk cut_short))).2 = Some "secret" /\
  (readStored TOKEN_KEY (d_local (e_disk
     (move (MCall (CUnlockWithPin "1234") (calls 30 0)) cut_short)))).2 = Some "secret".
Proof. split; [by eexists; vm_compute|]. split; vm_compute; reflexivity. Qed.

(** [disconnectDevice] clears the token in memory and in [localStorage]; the
    sealed copy stays, and the next unlock brings it back. *)
Definition signed_out : Env := gate_load (move (MCall CDisconnect (calls 20 0)) settled).

Lemma sign_out_undone_by_unlock :
  t_localTokenRef (e_tab signed_out) = None /\
  (readStored TOKEN_KEY (d_local (e_disk signed_out))).2 = None /\
  t_localTokenRef (e_tab (move (MCall (CUnlockWithPin "1234") (calls 30 0)) signed_out)) = Some "secret".
Proof. vm_compute. done. Qed.

(** A page paired and reloaded is locked, and its [sessionStorage] still holds
    the machine's token. *)
Definition paired_here : Env := move (MCall (CPersistPairing keysA machineA) (calls 12 0)) enrolled_env.

Lemma reload_keeps_the_mirror :
  let e := gate_load paired_here in
  t_enrolledRef (e_tab e) = true /\ t_masterKeyRef (e_tab e) = None /\
  (t_mirror (e_tab e) ≫= ps_directToken) = Some "tok-a" /\
  t_mirror (lockNow manual (e_tab paired_here)) = None.
Proof. vm_compute. done. Qed.

(** [eraseDevice] leaves what machines were called here and the keys of
    [localStorage], and the tabs that are open keep theirs. *)
Definition named : Env :=
  on_disk (put_machines <["aaaa" := mkPrefs (Some "prod") None None]>)
    (on_disk (put_local <[LAST_SESSION_KEY := "deploy"]>) settled).
Definition erased : Browser :=
  reacts (ECall 0 CEraseDevice (at_ 0) :: turns_ 0 8 0)
    (browser named [(0%nat, e_tab named); (1%nat, e_tab settled)]).

Lemma erase_leaves :
  said 0 erased = Some (Some RDone) /\ d_keys (b_disk erased) = ∅ /\ d_lock (b_disk erased) = None /\
  d_machines (b_disk erased) !! "aaaa" = Some (mkPrefs (Some "prod") None None) /\
  d_local (b_disk erased) !! LAST_SESSION_KEY = Some "deploy" /\
  is_Some (b_tabs erased !! 1%nat ≫= t_masterKeyRef).
Proof. vm_compute. repeat split; try done. by eexists. Qed.

(** [forget] zeroes the buffers that a sealed transport still seals with:
    [lockNow] disconnects first, [eraseDevice] does not. *)
Definition loaded : Env := move (MCall (CLoadSessionKeys "aaaa") (calls 8 0)) settled.
Definition linked : Tab :=
  registerDisconnect true (with_link (t_keys (e_tab loaded) !! "aaaa") (e_tab loaded)).
Definition link_key (t : Tab) : option bytes := (fun r => deref (kr_c2s r) t) <$> t_link t.

Lemma erase_zeroes_an_open_link :
  link_key linked = Some [1; 2] /\ link_key (lockNow manual linked) = None /\
  link_key (e_tab (move (MCall CEraseDevice (calls 8 0)) (mkEnv (e_disk loaded) linked []))) = Some [0; 0].
Proof. vm_compute. done. Qed.

(** A machine whose keys are gone hides the others: only the newest descriptor
    is looked at. *)
Definition two_machines : Env :=
  mkEnv (put_descriptors (fun _ => {[ "aaaa" := mkSession machineA None None 1;
                                      "bbbb" := mkSession machineB None None 2 ]})
           (put_keys (fun _ => {[ "aaaa" := Plain keysA ]}) disk)) (load_tab None) [].

Lemma newest_hides_the_rest :
  (finish (fun _ => at_ 0) 0 hydrateDescriptor two_machines).1.2 = Ok None /\
  (finish (fun _ => at_ 0) 0 listPairedServerIds two_machines).1.2 = Ok ["aaaa"].
Proof. vm_compute. done. Qed.

(** ** Where the theorems apply *)

Lemma rand_sized now fault w : sized (mkDraw now fault rand w).
Proof.
  intros slot n. split; [apply length_replicate|]. apply Forall_replicate. unfold is_byte.
  apply Z.mod_pos_bound. done.
Qed.

Lemma at_fit faults now : fit faults (at_ now).
Proof. split; [apply rand_sized|done]. Qed.

Lemma calls_fit faults n now : Forall (fit faults) (calls n now).
Proof. apply Forall_replicate, at_fit. Qed.

Lemma fresh_sound : sound fresh.
Proof.
  assert (d_lock (e_disk fresh) = None) as Hl by reflexivity. unfold sound. rewrite Hl. clear Hl.
  split; [|done]. split; [|done]. intros sid r Hr. vm_compute in Hr. done.
Qed.

(** Saved, enrolled, closed in the middle of saving another machine's keys,
    unlocked, a factor added on a failing database, locked. *)
Definition story : list Move :=
  [MCall (CSaveSessionKeys "aaaa" keysA) (calls 6 0);
   MCall (CEnrollPin "1234" None) (calls 20 0);
   MCall (CSaveSessionKeys "bbbb" keysB) (calls 2 0);
   MCall (CUnlockWithPin "1234") (calls 30 0);
   MCall (CAddFactor passkey (replicate 32 9) None) (calls 5 0 ++ [failing 0]);
   MCall (CSaveSessionKeys "bbbb" keysB) (calls 9 0);
   MLock idle].


Definition lock_of (e : Env) : LockRecord := default (mkLock [] 0 None false 0 0 false 0) (d_lock (e_disk e)).

(** Six guesses as fast as the lock lets them in, the page closed in the middle
    of the second. *)
Definition guesses : list Move :=
  [MCall (CUnlockWithPin "0000") (calls 30 0);
   MCall (CUnlockWithPin "0001") (calls 7 0);
   MCall (CUnlockWithPin "0002") (calls 30 0);
   MCall (CUnlockWithPin "0003") (calls 30 0);
   MCall (CUnlockWithPin "0004") (calls 30 1000);
   MCall (CUnlockWithPin "0004") (calls 30 2000);
   MCall (CRemoveFactor "0101010101010101") (calls 10 2000);
   MCall (CUnlockWithPin "0005") (calls 30 6000)].

Lemma wrong_pin digits :
  match derivePinKey has_subtle digits (replicate 16 2) 600000 with
  | Ok fk => forallb (fun f => match unwrapMasterKey fk (fr_wrapped f) (kind_name (fr_kind f)) (fr_id f) with
                               | Ok _ => false | Err _ => true end) (lr_factors (lock_of locked))
  | Err _ => true
  end = true ->
  opens_none (lr_factors (lock_of locked)) (CUnlockWithPin digits).
Proof.
  intros Hw f fk mk Hf _ Hd Hu.
  assert (forallb (fun f => bool_decide (fr_salt f = replicate 16 2 /\ fr_iterations f = 600000))
    (lr_factors (lock_of locked)) = true) as Hsalt by (vm_compute; reflexivity).
  rewrite forallb_forall in Hsalt. specialize (Hsalt f). rewrite bool_decide_eq_true in Hsalt.
  destruct Hsalt as [Hs Hi]; [by apply list_elem_of_In|]. rewrite Hs, Hi in Hd. rewrite Hd in Hw.
  rewrite forallb_forall in Hw. specialize (Hw f). rewrite Hu in Hw. discriminate Hw.
  by apply list_elem_of_In.
Qed.


(** A locked tab asks for a factor to be removed, for the settings to be
    changed, while an unlocked one adds a factor. *)
Definition two_tabs : Browser := browser settled [(0%nat, gated); (1%nat, e_tab settled)].
Definition around : list Event :=
  [ECall 1 (CAddFactor passkey (replicate 32 9) None) (at_ 0); ETurn 0 (at_ 0); ETurn 1 (at_ 0);
   ETurn 0 (at_ 0); ETurn 1 (at_ 0); ETurn 0 (at_ 0); ETurn 1 (at_ 0); ETurn 1 (at_ 0); ETurn 1 (at_ 0);
   ETurn 1 (at_ 0); ETurn 1 (at_ 0); EReload 1].
Definition remove : Call := CRemoveFactor "0303030303030303".

Lemma locked_changes_nothing_witness :
  said 0 (reacts (ECall 0 remove (at_ 0) :: around) two_tabs) = Some None /\
  length <$> (lr_factors <$> d_lock (b_disk (reacts (ECall 0 remove (at_ 0) :: around) two_tabs))) = Some 2%nat /\
  turns_of (b_calls two_tabs) (fun b b' => b_disk b' = b_disk b) around (react (ECall 0 remove (at_ 0)) two_tabs).
Proof.
  split; [vm_compute; reflexivity|]. split; [vm_compute; reflexivity|].
  refine (proj2 (locked_changes_nothing 0 remove (at_ 0) around two_tabs gated eq_refl eq_refl _)).
  unfold around. cbn [always]. repeat split; intros tab Ht; vm_compute in Ht; by simplify_eq.
Defined.

Lemma paired_sound : sound paired.
Proof.
  apply (moves_sound [MCall (CSaveSessionKeys "aaaa" keysA) (calls 6 0)] fresh); [|exact fresh_sound].
  apply Forall_singleton, calls_fit.
Qed.

Lemma paired_pairings : pairings (e_disk paired).
Proof.
  assert (map_to_list (d_keys (e_disk paired)) = [("aaaa", Plain keysA)]) as Hl by (vm_compute; reflexivity).
  intros sid k Hk. apply elem_of_map_to_list in Hk. rewrite Hl in Hk.
  apply list_elem_of_singleton in Hk. injection Hk as -> ->.
  split; [split; [done|apply (bool_decide_unpack _); vm_compute; exact I]|].
  split; [|split]; repeat (constructor; [unfold is_byte; lia|]); constructor.
Qed.

Lemma locked_and_back_witness :
  let draws := fun _ : nat => at_ 0 in
  let '(e1, r1, n1) := finish draws 0 (enrollPin "1234" None) paired in
  let e2 := gate_load e1 in
  let '(e3, r3, n3) := finish draws n1 (unlockWithPin "1234") e2 in
  r1 = Ok tt /\ r3 = Ok Unlocked /\ t_localTokenRef (e_tab e3) = Some "secret".
Proof.
  pose proof (locked_and_back "1234" None paired (fun _ => at_ 0) (fun _ => at_fit false 0) paired_sound
    eq_refl paired_pairings ltac:(done)) as H. cbv zeta.
  destruct (finish _ 0 (enrollPin "1234" None) paired) as [[e1 r1] n1]. destruct H as [-> H].
  destruct (H (gate_load e1) (or_intror eq_refl)) as [_ Hback].
  destruct (finish _ n1 (unlockWithPin "1234") (gate_load e1)) as [[e3 r3] n3].
  destruct Hback as (-> & _ & Ht). split; [done|]. split; [done|].
  destruct (Ht "secret") as (_ & _ & Hs); [vm_compute; reflexivity|exact Hs].
Defined.
End DeviceDemo.
