(* ===== verification/CliExchange.v ===== *)
(** * CliExchange: the CLI's half of a pairing

    [apps/cli/src/pairing-exchange.ts] and the two flows of
    [pairing-client.ts] that run it.  The closure of [runExchange] is the
    record [Exchange].  A confirmation that awaits the human or the sealing of
    the descriptor is an entry of [suspended] under its own number, resumed by
    a later event; the run's timer and the straggler window are events too
    ([graceTimer]: the window is armed).  What is written to the socket, asked
    and settled are the outputs.  Frames arrive parsed ([None]: dropped), with
    the bytes [derive] draws if it is run; a handler that throws says so. *)

From S2P Require Import Prelude Protocol Bytes Noble Cpace Kdf PairingCode.

Definition AD_CLI : string := "cli".
Definition AD_PEER_MAX : Z := 256.
Definition CLAIM_TIMEOUT_MS : Z := 30000.
Definition NO_MATCH_GRACE_MS : Z := 3000.

Inductive ExchangeSide := claiming | hosting.

#[export] Instance ExchangeSide_eq_dec : EqDecision ExchangeSide.
Proof. solve_decision. Defined.

(** Every way a run fails: the callers' [errors], a sealing that threw, and
    [abort]. *)
Inductive PairingError :=
| NoMatch
| TimedOut
| Lost
| TooManyPeers
| BrokerFailed (reason : FailReason)
| CouldNotComplete
| Cancelled.

Inductive PairingErrorKind := k_expired | k_no_match | k_lost | k_too_many_peers | k_failed.

(** The [kind] each flow gives its errors. *)
Definition error_kind (side : ExchangeSide) (e : PairingError) : PairingErrorKind :=
  match side, e with
  | hosting, NoMatch => k_no_match
  | hosting, TimedOut => k_expired
  | hosting, Lost => k_lost
  | _, _ => k_failed
  end.

Definition describeFailure (reason : FailReason) : string :=
  match reason with
  | expired => "That code has expired."
  | already_claimed => "That code has already been used."
  | confirmation_failed => "The code did not match."
  | rate_limited => "Too many attempts. Wait a minute and try again."
  | peer_gone => "The other device stopped waiting for this code."
  | server_error => "Pairing failed."
  end.

Record PairingResult := mkResult { pr_keys : SessionKeys; pr_peerLabel : string }.

Record Attempt := mkAttempt {
  at_peer : string;
  at_ownShare : bytes;
  at_keys : SessionKeys;
  at_peerAd : string;
}.

Inductive Derived := Attempted (attempt : Attempt) | Reject (reason : string).

(** [pair:peer-share]. *)
Record PeerShare := mkPeerShare { ps_peer : string; ps_share : string; ps_ad : string; ps_sid : string }.

Record ExchangeOptions := mkOptions {
  eo_side : ExchangeSide;
  eo_maxPeers : option Z;
  eo_derive : bytes -> PeerShare -> option Derived;
  eo_gated : bool;
}.

Inductive Stage := Admitting | Sealing.

Record Exchange := mkExchange {
  settled : bool;
  attempts : gmap string Attempt;
  outstanding : Z;
  seen : Z;
  graceTimer : bool;
  suspended : gmap nat (Attempt * Stage);
  nextRun : nat;
}.

Definition newExchange : Exchange := mkExchange false ∅ 0 0 false ∅ 0.

Inductive Output :=
| SocketSend (m : PairingClientMessage)
| SocketClose
| Asked (run : nat) (label : string)
| Seal (run : nat) (keys : SessionKeys)
| Settled (r : result PairingError PairingResult)
| Threw.

(** ** Field updates *)

Definition with_attempts (f : gmap string Attempt -> gmap string Attempt) (x : Exchange) : Exchange :=
  mkExchange (settled x) (f (attempts x)) (outstanding x) (seen x) (graceTimer x) (suspended x) (nextRun x).
Definition with_counts (o s : Z) (x : Exchange) : Exchange :=
  mkExchange (settled x) (attempts x) o s (graceTimer x) (suspended x) (nextRun x).
Definition with_grace (g : bool) (x : Exchange) : Exchange :=
  mkExchange (settled x) (attempts x) (outstanding x) (seen x) g (suspended x) (nextRun x).
Definition with_suspended (f : gmap nat (Attempt * Stage) -> gmap nat (Attempt * Stage)) (x : Exchange)
    : Exchange :=
  mkExchange (settled x) (attempts x) (outstanding x) (seen x) (graceTimer x) (f (suspended x)) (nextRun x).
Definition with_nextRun (n : nat) (x : Exchange) : Exchange :=
  mkExchange (settled x) (attempts x) (outstanding x) (seen x) (graceTimer x) (suspended x) n.
Definition with_settled (x : Exchange) : Exchange :=
  mkExchange true (attempts x) (outstanding x) (seen x) false (suspended x) (nextRun x).

(** ** [runExchange] *)

(** Settling clears both timers and closes the socket; only the first does. *)
Definition finish (r : result PairingError PairingResult) (x : Exchange) : Exchange * list Output :=
  if settled x then (x, []) else (with_settled x, [SocketClose; Settled r]).

Definition peerLabel (attempt : Attempt) : string :=
  if decide (at_peerAd attempt = "") then "browser" else at_peerAd attempt.

Section Exchange.
Context `{!Hex, !HmacBytes} (opts : ExchangeOptions).

(** This peer cannot be the one. *)
Definition ruleOut (peer : string) (x : Exchange) : Exchange * list Output :=
  let x := with_attempts (delete peer) x in
  let x := with_counts (outstanding x - 1) (seen x) x in
  if (seen x =? 0) || (0 <? outstanding x) then (x, [])
  else if match eo_maxPeers opts with Some max => max <=? seen x | None => false end
  then finish (Err NoMatch) x
  else if graceTimer x then (x, [])
  else (with_grace true x, []).

(** Rule a peer out and tell the broker. *)
Definition giveUpOn (peer reason : string) (x : Exchange) : Exchange * list Output :=
  let '(x, out) := ruleOut peer x in
  (x, SocketSend (PairCloseMessage (Some peer) (Some reason)) :: out).

Definition ownConfirm (attempt : Attempt) : Output :=
  SocketSend (PairConfirmMessage (at_peer attempt)
    (bytesToHex (confirmationTag (k_confirm (at_keys attempt)) cli))).

Definition handlePeerShare (random : bytes) (msg : PeerShare) (x : Exchange) : Exchange * list Output :=
  match attempts x !! ps_peer msg with
  | Some _ => (x, [])
  | None =>
      let x := with_grace false x in
      let x := with_counts (outstanding x) (seen x + 1) x in
      if match eo_maxPeers opts with Some max => max <? seen x | None => false end
      then finish (Err TooManyPeers) x
      else
        let x := with_counts (outstanding x + 1) (seen x) x in
        match eo_derive opts random msg with
        | None => (x, [Threw])
        | Some (Reject reason) => giveUpOn (ps_peer msg) reason x
        | Some (Attempted attempt) =>
            (with_attempts <[at_peer attempt := attempt]> x,
             match eo_side opts with
             | hosting =>
                 [SocketSend (PairShareMessage (at_peer attempt) (bytesToHex (at_ownShare attempt)) AD_CLI);
                  ownConfirm attempt]
             | claiming => []
             end)
        end
  end.

(** Up to its next await, a confirmation that got this far. *)
Definition suspend (attempt : Attempt) (stage : Stage) (out : nat -> list Output) (x : Exchange)
    : Exchange * list Output :=
  let run := nextRun x in
  (with_nextRun (S run) (with_suspended <[run := (attempt, stage)]> x), out run).

Definition startSealing (attempt : Attempt) (x : Exchange) : Exchange * list Output :=
  suspend attempt Sealing (fun run => [Seal run (at_keys attempt)]) x.

(** [handlePeerConfirm] up to the first await. *)
Definition handlePeerConfirm (peer tag : string) (x : Exchange) : Exchange * list Output :=
  match attempts x !! peer with
  | None => (x, [])
  | Some attempt =>
      match hexToBytes tag with
      | Err _ => (x, [Threw])
      | Ok tag =>
          if negb (verifyConfirmation (k_confirm (at_keys attempt)) browser tag)
          then giveUpOn peer "confirmation failed" x
          else
            let own := match eo_side opts with claiming => [ownConfirm attempt] | hosting => [] end in
            let '(x, out) :=
              if eo_gated opts
              then suspend attempt Admitting (fun run => [Asked run (peerLabel attempt)]) x
              else startSealing attempt x in
            (x, own ++ out)
      end
  end.

(** The human's answer; [None]: the gate threw. *)
Definition onAdmitted (run : nat) (answer : option bool) (x : Exchange) : Exchange * list Output :=
  match suspended x !! run with
  | Some (attempt, Admitting) =>
      let x := with_suspended (delete run) x in
      if settled x then (x, [])
      else if negb (default false answer)
      then giveUpOn (at_peer attempt) "refused at the machine" x
      else startSealing attempt x
  | _ => (x, [])
  end.

(** The sealed descriptor; [None]: building or sealing it threw. *)
Definition onSealed (run : nat) (sealed : option bytes) (x : Exchange) : Exchange * list Output :=
  match suspended x !! run with
  | Some (attempt, Sealing) =>
      let x := with_suspended (delete run) x in
      match sealed with
      | None => finish (Err CouldNotComplete) x
      | Some sealed =>
          if settled x then (x, [])
          else
            let '(x, out) := finish (Ok (mkResult (at_keys attempt) (peerLabel attempt))) x in
            (x, SocketSend (PairEstablishMessage (at_peer attempt)
                  (ascii_str (bytesToBase64Url sealed))) :: out)
      end
  | _ => (x, [])
  end.

Definition onMessage (parsed : option PairingServerMessage) (random : bytes) (x : Exchange)
    : Exchange * list Output :=
  match parsed with
  | None => (x, [])
  | Some (PairReadyMessage _ _ _) => (x, [])
  | Some (PairFailedMessage (Some peer) reason) =>
      if decide (peer = "") then finish (Err (BrokerFailed reason)) x else ruleOut peer x
  | Some (PairFailedMessage None reason) => finish (Err (BrokerFailed reason)) x
  | Some (PairPeerShareMessage peer share ad sid) => 
      handlePeerShare random (mkPeerShare peer share ad sid) x
  | Some (PairPeerConfirmMessage peer tag) => handlePeerConfirm peer tag x
  | Some (PairEstablishedMessage _ _) => (x, [])
  end.

Inductive Event :=
| Message (m : option PairingServerMessage) (random : bytes)
| Closed
| RunTimeout
| GraceOver
| GateAnswered (run : nat) (answer : option bool)
| DescriptorSealed (run : nat) (sealed : option bytes)
| Abort.

Definition step (e : Event) (x : Exchange) : Exchange * list Output :=
  match e with
  | Message m random => onMessage m random x
  | Closed => finish (Err Lost) x
  | RunTimeout => finish (Err TimedOut) x
  | GraceOver => if graceTimer x then finish (Err NoMatch) x else (x, [])
  | GateAnswered run answer => onAdmitted run answer x
  | DescriptorSealed run sealed => onSealed run sealed x
  | Abort => finish (Err Cancelled) x
  end.

Fixpoint run (es : list Event) (x : Exchange) : Exchange * list Output :=
  match es with
  | [] => (x, [])
  | e :: es =>
      let '(x, out) := step e x in
      let '(x, out') := run es x in (x, out ++ out')
  end.
End Exchange.

(** ** The two flows *)

Section Flows.
Context `{!Hex, !Sha512, !Ristretto, !Hkdf}.

(** [pairWithCode]: quoting a code; its share is fixed before any peer is known. *)
Definition claim_derive (cpace : CPaceState) (random : bytes) (msg : PeerShare) : option Derived :=
  if AD_PEER_MAX <? utf16_length (ps_ad msg) then Some (Reject "oversized associated data")
  else
    match hexToBytes (ps_share msg) with
    | Err _ => Some (Reject "invalid share")
    | Ok share =>
        match Cpace.finish cpace share (mkAd (utf8 AD_CLI) (utf8 (ps_ad msg)) true) with
        | Err _ => Some (Reject "invalid share")
        | Ok isk =>
            Some (Attempted (mkAttempt (ps_peer msg) (cp_share cpace)
              (deriveSessionKeys isk
                (transcriptIr (cp_share cpace) (utf8 AD_CLI) share (utf8 (ps_ad msg))))
              (ps_ad msg)))
        end
    end.

Definition claim_options (cpace : CPaceState) : ExchangeOptions :=
  mkOptions claiming (Some MAX_PEERS_PER_SLOT) (claim_derive cpace) false.

(** What [pairWithCode] does before its socket is open: the run on the code's
    secret, and the claim it posts. *)
Definition pairWithCode (code : jstr) (sid seed : bytes)
    : option (result CPaceError (CPaceState * (jstr * string * string * string))) :=
  parsed ← parseCode code;
  Some (cpace ← cpaceStart (pc_secret parsed) (pc_slot parsed) sid seed;
        Ok (cpace, (pc_slot parsed, bytesToHex (cp_share cpace), AD_CLI, bytesToHex sid))).

(** [hostPairing]: showing a code; a run starts when a peer's session id is
    known, on fresh random bytes. *)
Definition host_derive (secret slot : jstr) (random : bytes) (msg : PeerShare) : option Derived :=
  if AD_PEER_MAX <? utf16_length (ps_ad msg) then Some (Reject "oversized associated data")
  else
    match hexToBytes (ps_sid msg) with
    | Err _ => None
    | Ok sid =>
        match cpaceStart secret slot sid random with
        | Err _ => None
        | Ok cpace =>
            match hexToBytes (ps_share msg) with
            | Err _ => None
            | Ok peerShare =>
                match Cpace.finish cpace peerShare (mkAd (utf8 AD_CLI) (utf8 (ps_ad msg)) false) with
                | Err _ => Some (Reject "invalid share")
                | Ok isk =>
                    Some (Attempted (mkAttempt (ps_peer msg) (cp_share cpace)
                      (deriveSessionKeys isk
                        (transcriptIr peerShare (utf8 (ps_ad msg)) (cp_share cpace) (utf8 AD_CLI)))
                      (ps_ad msg)))
                end
            end
        end
    end.

Definition host_options (secret slot : jstr) (gated : bool) : ExchangeOptions :=
  mkOptions hosting (Some 1) (host_derive secret slot) gated.
End Flows.

Definition mailboxTimeoutMs (expiresAt : Z) (ttlMs : option Z) (now : Z) : Z :=
  codeDeadline expiresAt ttlMs now - now.

(** [cancel]: the mailbox is closed, then the run. *)
Definition cancel (cancelled : bool) (x : Exchange) : bool * (Exchange * list Output) :=
  if cancelled then (true, (x, []))
  else
    let '(x, out) := finish (Err Cancelled) x in
    (true, (x, SocketSend (PairCloseMessage None (Some "cancelled")) :: out)).

(** ** Asking the broker for a mailbox *)

Definition MAILBOX_POST_ATTEMPTS : nat := 3.

Inductive PostError := TooOld | TooManyCodes | Returned (status : Z) | BadResponse | Unavailable.

(** What [fetch] answered: a status, and the body of a success. *)
Fixpoint post_loop {A} (tries : nat) (last : option PostError) (answers : list (Z * option A))
    : result PostError A * nat :=
  match tries, answers with
  | S tries, (status, body) :: answers =>
      if status =? 426 then (Err TooOld, O)
      else if status =? 429 then (Err TooManyCodes, O)
      else if (200 <=? status) && (status <? 300) then
        (match body with Some b => Ok b | None => Err BadResponse end, O)
      else
        let last := Returned status in
        if negb (status =? 503) then (Err last, O)
        else
          let '(r, waits) := post_loop tries (Some last) answers in
          (r, ((if (0 <? tries)%nat then 1 else 0) + waits)%nat)
  | _, _ => (Err (default Unavailable last), O)
  end.

Definition postMailbox {A} (answers : list (Z * option A)) : result PostError A * nat :=
  post_loop MAILBOX_POST_ATTEMPTS None answers.
