(* ===== verification/CliSafety.v ===== *)
(** * CliSafety: what a run of the CLI's exchange guarantees

    Invariants of CliExchange over every sequence of events: the descriptor
    leaves only for a peer whose confirmation verified and, where there is a
    gate, whom the human let in; a run settles at most once, and at its
    timeout; a mailbox answers at most one share; and when a run may say that
    the code did not match. *)

From S2P Require Import Prelude Protocol Bytes Noble Cpace Kdf PairingCode CliExchange.

Section Safety.
Context `{!Hex, !HmacBytes} (opts : ExchangeOptions).

(** What [derive] promises: it keeps the peer's handle. *)
Definition keeps_peer : Prop :=
  forall random msg attempt, eo_derive opts random msg = Some (Attempted attempt) ->
  at_peer attempt = ps_peer msg.

(** The share the attempt was derived from came in. *)
Definition derived_from (es : list Event) (a : Attempt) : Prop :=
  exists share ad sid random,
    Message (Some (PairPeerShareMessage (at_peer a) share ad sid)) random ∈ es /\
    eo_derive opts random (mkPeerShare (at_peer a) share ad sid) = Some (Attempted a).

(** The peer proved it has the attempt's key. *)
Definition confirmed_in (es : list Event) (a : Attempt) : Prop :=
  exists tag t random, Message (Some (PairPeerConfirmMessage (at_peer a) tag)) random ∈ es /\
    hexToBytes tag = Ok t /\ verifyConfirmation (k_confirm (at_keys a)) browser t = true.

(** The human was asked about it and said yes. *)
Definition let_in (es : list Event) (out : list Output) (a : Attempt) : Prop :=
  eo_gated opts = true -> exists r, Asked r (peerLabel a) ∈ out /\ GateAnswered r (Some true) ∈ es.

Record granted (es : list Event) (out : list Output) (a : Attempt) : Prop := {
  gr_derived : derived_from es a;
  gr_confirmed : confirmed_in es a;
  gr_let_in : let_in es out a;
}.

Definition is_establish (o : Output) : bool :=
  match o with SocketSend (PairEstablishMessage _ _) => true | _ => false end.
Definition is_settled (o : Output) : bool := match o with Settled _ => true | _ => false end.

Record exchange_inv (es : list Event) (out : list Output) (x : Exchange) : Prop := {
  ei_attempts p a : attempts x !! p = Some a -> at_peer a = p /\ derived_from es a;
  ei_fresh r s : suspended x !! r = Some s -> (r < nextRun x)%nat;
  ei_admitting r a : suspended x !! r = Some (a, Admitting) ->
    derived_from es a /\ confirmed_in es a /\ Asked r (peerLabel a) ∈ out;
  ei_sealing r a : suspended x !! r = Some (a, Sealing) -> granted es out a;
  ei_open : settled x = false -> Forall (fun o => is_establish o || is_settled o = false) out;
  ei_settled : settled x = true -> exists r, filter is_settled out = [Settled r];
  ei_sent p d : SocketSend (PairEstablishMessage p d) ∈ out ->
    exists a, at_peer a = p /\ granted es out a /\
      Settled (Ok (mkResult (at_keys a) (peerLabel a))) ∈ out;
}.

(** ** More events and outputs *)

Lemma derived_mono es es' a : es ⊆ es' -> derived_from es a -> derived_from es' a.
Proof. intros He (s & ad & sid & r & Hin & Hd). exists s, ad, sid, r. auto. Qed.

Lemma confirmed_mono es es' a : es ⊆ es' -> confirmed_in es a -> confirmed_in es' a.
Proof. intros He (t & b & r & Hin & Hh & Hv). exists t, b, r. auto. Qed.

Lemma granted_mono es es' out out' a :
  es ⊆ es' -> out ⊆ out' -> granted es out a -> granted es' out' a.
Proof.
  intros He Ho [Hd Hc Hl]. split; [by eapply derived_mono|by eapply confirmed_mono|].
  intros Hg. destruct (Hl Hg) as (r & ? & ?). exists r. auto.
Qed.

Lemma sub_app_l {A} (l l' : list A) : l ⊆ l ++ l'.
Proof. intros y Hy. apply elem_of_app. by left. Qed.

Lemma inv_event es e out x : exchange_inv es out x -> exchange_inv (es ++ [e]) out x.
Proof.
  pose proof (sub_app_l es [e]) as He. intros []. split; try done.
  - intros p a Hp. destruct (ei_attempts0 p a Hp) as [? ?]. eauto using derived_mono.
  - intros k a (? & ? & ?)%ei_admitting0. eauto using derived_mono, confirmed_mono.
  - intros k a Hg%ei_sealing0. by eapply granted_mono.
  - intros p d (a & ? & ? & ?)%ei_sent0. exists a. split; [done|]. split; [by eapply granted_mono|done].
Qed.

Lemma open_unsettled out :
  Forall (fun o => is_establish o || is_settled o = false) out -> filter is_settled out = [].
Proof.
  intros Hopen. apply filter_none. intros o Ho. rewrite Forall_forall in Hopen.
  apply Hopen, orb_false_iff in Ho as [_ Ho]. rewrite Ho. tauto.
Qed.

(** ** Steps that neither settle well nor suspend *)

(** Attempts may go; the run may fail. *)
Record quiet (x : Exchange) (r : Exchange * list Output) : Prop := {
  qt_attempts : attempts r.1 ⊆ attempts x;
  qt_suspended : suspended r.1 = suspended x;
  qt_nextRun : nextRun r.1 = nextRun x;
  qt_establish : Forall (fun o => is_establish o = false) r.2;
  qt_settled : settled x = true -> settled r.1 = true /\ filter is_settled r.2 = [];
  qt_open : settled x = false -> settled r.1 = false -> filter is_settled r.2 = [];
  qt_now : settled x = false -> settled r.1 = true -> exists e, filter is_settled r.2 = [Settled e];
}.

Lemma settled_bool (x : Exchange) : settled x = true \/ settled x = false.
Proof. by destruct (settled x); auto. Qed.

Lemma quiet_same x o :
  Forall (fun o => is_establish o = false) o -> filter is_settled o = [] -> quiet x (x, o).
Proof. intros He Hs. split; simpl; intros; try done; congruence. Qed.

Lemma quiet_finish x r : quiet x (finish r x).
Proof.
  unfold finish. destruct (settled x) eqn:Hs; [by apply quiet_same|].
  split; simpl; intros; try done; [by repeat constructor|congruence|by exists r].
Qed.

Lemma quiet_trans_eq x y r :
  attempts y ⊆ attempts x -> suspended y = suspended x -> nextRun y = nextRun x ->
  settled y = settled x -> quiet y r -> quiet x r.
Proof.
  intros Ha Hs Hn Hst []. split; try done; try congruence.
  - by trans (attempts y).
  - rewrite <- Hst. done.
  - rewrite <- Hst. done.
  - rewrite <- Hst. done.
Qed.

Lemma quiet_ruleOut p x : quiet x (ruleOut opts p x).
Proof.
  unfold ruleOut. set (y := with_counts _ _ _).
  apply (quiet_trans_eq x y); [apply delete_subseteq|done..|].
  destruct ((seen y =? 0) || (0 <? outstanding y)); [by apply quiet_same|].
  destruct (match eo_maxPeers opts with Some max => max <=? seen y | None => false end);
    [apply quiet_finish|].
  destruct (graceTimer y); [by apply quiet_same|].
  apply (quiet_trans_eq y (with_grace true y)); try done. by apply quiet_same.
Qed.

Lemma quiet_cons x y o out :
  is_establish o = false -> is_settled o = false -> quiet x (y, out) -> quiet x (y, o :: out).
Proof.
  intros He Hs []. simpl in *.
  assert (filter is_settled (o :: out) = filter is_settled out) as Hf
    by (rewrite filter_cons_False; [done|]; rewrite Hs; tauto).
  split; simpl; rewrite ?Hf; auto.
Qed.

Lemma quiet_giveUpOn p reason x : quiet x (giveUpOn opts p reason x).
Proof.
  unfold giveUpOn. destruct (ruleOut opts p x) as [y out] eqn:Hr.
  apply quiet_cons; [done..|]. rewrite <- Hr. apply quiet_ruleOut.
Qed.

Lemma inv_quiet es out x r :
  exchange_inv es out x -> quiet x r -> exchange_inv es (out ++ r.2) r.1.
Proof.
  pose proof (sub_app_l out r.2) as Ho. intros [] []. split.
  - intros p a Hp. apply ei_attempts0. by eapply lookup_weaken.
  - intros k s. rewrite qt_suspended0, qt_nextRun0. apply ei_fresh0.
  - intros k a. rewrite qt_suspended0. intros (? & ? & ?)%ei_admitting0. auto.
  - intros k a. rewrite qt_suspended0. intros Hg%ei_sealing0. by eapply granted_mono.
  - intros Hs. destruct (settled_bool x) as [Hx|Hx]; [by destruct (qt_settled0 Hx); congruence|].
    apply Forall_app. split; [by apply ei_open0|]. specialize (qt_open0 Hx Hs).
    apply Forall_forall. intros o Hin. rewrite Forall_forall in qt_establish0.
    rewrite (qt_establish0 o Hin). simpl. destruct (is_settled o) eqn:Hse; [|done].
    assert (o ∈ filter is_settled r.2) as Hf by (apply list_elem_of_filter; by rewrite Hse).
    rewrite qt_open0 in Hf. by apply not_elem_of_nil in Hf.
  - intros Hs. rewrite filter_app. destruct (settled_bool x) as [Hx|Hx].
    + destruct (ei_settled0 Hx) as [q ->]. destruct (qt_settled0 Hx) as [_ ->]. by exists q.
    + destruct (qt_now0 Hx Hs) as [q ->]. exists q. by rewrite (open_unsettled out) by auto.
  - intros p d [Hin|Hin]%elem_of_app.
    + destruct (ei_sent0 p d Hin) as (a & ? & ? & ?). exists a.
      split; [done|]. split; [by eapply granted_mono|auto].
    + rewrite Forall_forall in qt_establish0. by specialize (qt_establish0 _ Hin).
Qed.

(** ** The other moves *)

Lemma inv_add_attempt es out x a :
  derived_from es a -> exchange_inv es out x ->
  exchange_inv es out (with_attempts <[at_peer a := a]> x).
Proof.
  intros Hd []. split; try done. simpl. intros p b [[<- <-]|[_ Hb]]%lookup_insert_Some; auto.
Qed.

Lemma inv_resume es out x k :
  exchange_inv es out x -> exchange_inv es out (with_suspended (delete k) x).
Proof.
  intros []. split; try done; simpl; intros j a [_ Hj]%lookup_delete_Some; eauto.
Qed.

(** Waiting for the human. *)
Lemma inv_ask es out x a :
  derived_from es a -> confirmed_in es a -> exchange_inv es out x ->
  let r := suspend a Admitting (fun k => [Asked k (peerLabel a)]) x in
  exchange_inv es (out ++ r.2) r.1.
Proof.
  intros Hd Hc Hinv. set (ask := [Asked (nextRun x) (peerLabel a)]).
  assert (exchange_inv es (out ++ ask) x) as Hinv'
    by (apply (inv_quiet es out x (x, ask)); [done|]; by apply quiet_same; [repeat constructor|]).
  clear Hinv. simpl. destruct Hinv'. split; simpl; try done.
  - intros j s [[<- <-]|[_ Hj]]%lookup_insert_Some; [lia|]. apply ei_fresh0 in Hj. lia.
  - intros j b [[<- [= <-]]|[_ Hj]]%lookup_insert_Some; [|by apply ei_admitting0].
    split; [done|]. split; [done|]. apply elem_of_app. right. by left.
  - intros j b [[<- [=]]|[_ Hj]]%lookup_insert_Some. by apply (ei_sealing0 j).
Qed.

(** Waiting for the descriptor. *)
Lemma inv_seal es out x a :
  granted es out a -> exchange_inv es out x ->
  exchange_inv es (out ++ (startSealing a x).2) (startSealing a x).1.
Proof.
  intros Hg Hinv. set (o := [Seal (nextRun x) (at_keys a)]).
  assert (exchange_inv es (out ++ o) x) as Hinv'
    by (apply (inv_quiet es out x (x, o)); [done|]; by apply quiet_same; [repeat constructor|]).
  apply (granted_mono es es out (out ++ o)) in Hg; [|done|apply sub_app_l].
  clear Hinv. simpl. destruct Hinv'. split; simpl; try done.
  - intros j s [[<- <-]|[_ Hj]]%lookup_insert_Some; [lia|]. apply ei_fresh0 in Hj. lia.
  - intros j b [[<- [=]]|[_ Hj]]%lookup_insert_Some. by apply ei_admitting0.
  - intros j b [[<- [= <-]]|[_ Hj]]%lookup_insert_Some; [done|by apply (ei_sealing0 j)].
Qed.

(** Sending the descriptor settles the run. *)
Lemma inv_establish es out x a d :
  granted es out a -> settled x = false -> exchange_inv es out x ->
  let r := Ok (mkResult (at_keys a) (peerLabel a)) in
  exchange_inv es (out ++ [SocketSend (PairEstablishMessage (at_peer a) d); SocketClose; Settled r])
    (with_settled x).
Proof.
  intros Hg Hs [].
  set (o := [SocketSend (PairEstablishMessage (at_peer a) d); SocketClose;
             Settled (Ok (mkResult (at_keys a) (peerLabel a)))]). pose proof (sub_app_l out o) as Ho.
  split; simpl; try done.
  - intros j b (? & ? & ?)%ei_admitting0. auto.
  - intros j b Hb%ei_sealing0. by eapply granted_mono.
  - intros _. eexists. rewrite filter_app, (open_unsettled out) by auto. done.
  - intros p d' [Hin|Hin]%elem_of_app.
    + destruct (ei_sent0 p d' Hin) as (b & ? & ? & ?). exists b.
      split; [done|]. split; [by eapply granted_mono|auto].
    + exists a. rewrite !elem_of_cons in Hin. destruct Hin as [[= -> _]|[?|[?|?%not_elem_of_nil]]]; try done.
      split; [done|]. split; [by eapply granted_mono|]. apply elem_of_app. right. by do 2 right; left.
Qed.

Hypothesis keeps : keeps_peer.

Ltac quietly := eapply inv_quiet; [eassumption|];
  first [apply quiet_finish|apply quiet_ruleOut|apply quiet_giveUpOn
        |apply quiet_same; by repeat constructor].

Lemma inv_peer_share es out x random msg :
  Message (Some (PairPeerShareMessage (ps_peer msg) (ps_share msg) (ps_ad msg) (ps_sid msg))) random ∈ es ->
  exchange_inv es out x ->
  exchange_inv es (out ++ (handlePeerShare opts random msg x).2) (handlePeerShare opts random msg x).1.
Proof.
  intros Hin Hinv. unfold handlePeerShare.
  destruct (attempts x !! ps_peer msg); [quietly|].
  set (g := with_grace false x). set (y := with_counts (outstanding g) (seen g + 1) g).
  assert (exchange_inv es out y) as Hy by (destruct Hinv; by split).
  destruct (match eo_maxPeers opts with Some max => max <? seen y | None => false end);
    [quietly|].
  set (z := with_counts (outstanding y + 1) (seen y) y).
  assert (exchange_inv es out z) as Hz by (destruct Hy; by split).
  destruct (eo_derive opts random msg) as [[a|reason]|] eqn:Hd.
  - assert (at_peer a = ps_peer msg) as Hp by exact (keeps _ _ _ Hd).
    assert (derived_from es a) as Hda.
    { exists (ps_share msg), (ps_ad msg), (ps_sid msg), random. rewrite Hp. by destruct msg. }
    set (w := with_attempts <[at_peer a := a]> z).
    apply (inv_quiet es out w (w, _)); [by apply inv_add_attempt|].
    destruct (eo_side opts); apply quiet_same; by repeat constructor.
  - quietly.
  - quietly.
Qed.

Lemma inv_peer_confirm es out x random peer tag :
  Message (Some (PairPeerConfirmMessage peer tag)) random ∈ es -> exchange_inv es out x ->
  exchange_inv es (out ++ (handlePeerConfirm opts peer tag x).2) (handlePeerConfirm opts peer tag x).1.
Proof.
  intros Hin Hinv. unfold handlePeerConfirm.
  destruct (attempts x !! peer) as [a|] eqn:Ha; [|quietly].
  destruct (hexToBytes tag) as [t|] eqn:Ht; [|quietly].
  destruct (verifyConfirmation _ browser t) eqn:Hv; simpl negb; cbv iota;
    [|quietly].
  destruct (ei_attempts _ _ _ Hinv _ _ Ha) as [Hp Hd].
  assert (confirmed_in es a) as Hc by (exists tag, t, random; by rewrite Hp).
  set (own := match eo_side opts with claiming => [ownConfirm a] | hosting => [] end).
  assert (exchange_inv es (out ++ own) x) as Hown.
  { apply (inv_quiet es out x (x, own)); [done|].
    unfold own. destruct (eo_side opts); apply quiet_same; by repeat constructor. }
  destruct (eo_gated opts) eqn:Hg.
  - pose proof (inv_ask es (out ++ own) x a Hd Hc Hown) as Hask. simpl in *. by rewrite app_assoc.
  - assert (granted es (out ++ own) a) as Hgr by (split; [done|done|]; intros Hg'; congruence).
    pose proof (inv_seal es (out ++ own) x a Hgr Hown) as Hs.
    destruct (startSealing a x). simpl in *. by rewrite app_assoc.
Qed.

Lemma inv_admitted es out x k answer :
  GateAnswered k answer ∈ es -> exchange_inv es out x ->
  exchange_inv es (out ++ (onAdmitted opts k answer x).2) (onAdmitted opts k answer x).1.
Proof.
  intros Hin Hinv. unfold onAdmitted.
  destruct (suspended x !! k) as [[a []]|] eqn:Hk; try quietly.
  pose proof (inv_resume es out x k Hinv) as Hy. set (y := with_suspended (delete k) x) in *.
  destruct (ei_admitting _ _ _ Hinv _ _ Hk) as (Hd & Hc & Hask).
  destruct (settled y); [quietly|].
  destruct answer as [[]|]; cbn [default from_option id negb]; try quietly.
  apply inv_seal; [|done]. split; [done..|]. intros _. by exists k.
Qed.

Lemma inv_sealed es out x k sealed :
  exchange_inv es out x ->
  exchange_inv es (out ++ (onSealed k sealed x).2) (onSealed k sealed x).1.
Proof.
  intros Hinv. unfold onSealed.
  destruct (suspended x !! k) as [[a []]|] eqn:Hk; try quietly.
  pose proof (inv_resume es out x k Hinv) as Hy. set (y := with_suspended (delete k) x) in *.
  destruct sealed as [d|]; [|quietly].
  destruct (settled y) eqn:Hs; [quietly|].
  unfold finish. rewrite Hs. apply inv_establish; [|done..]. by apply (ei_sealing _ _ _ Hinv k).
Qed.

Lemma inv_step es out x e :
  exchange_inv es out x -> exchange_inv (es ++ [e]) (out ++ (step opts e x).2) (step opts e x).1.
Proof.
  intros Hinv%(inv_event es e).
  assert (e ∈ es ++ [e]) as Hin by (apply elem_of_app; right; by left).
  destruct e as [[m|] random| | | |k answer|k sealed|]; simpl step;
    try quietly.
  - destruct m as [?|peer share ad sid|peer tag|?|[peer|] reason]; simpl onMessage;
      try quietly.
    + by eapply inv_peer_share.
    + by eapply inv_peer_confirm.
    + case_decide; quietly.
  - destruct (graceTimer x); [quietly|quietly].
  - by apply inv_admitted.
  - by apply inv_sealed.
Qed.

Lemma inv_run es es' out x :
  exchange_inv es out x ->
  exchange_inv (es ++ es') (out ++ (run opts es' x).2) (run opts es' x).1.
Proof.
  revert es out x. induction es' as [|e es' IH]; intros es out x Hinv; simpl; [by rewrite !app_nil_r|].
  apply (inv_step es out x e) in Hinv. destruct (step opts e x) as [y o]. simpl in Hinv.
  apply IH in Hinv. destruct (run opts es' y) as [z o']. simpl in *. by rewrite <- !app_assoc in Hinv.
Qed.

Lemma run_inv es : exchange_inv es (run opts es newExchange).2 (run opts es newExchange).1.
Proof.
  apply (inv_run [] es [] newExchange). split; simpl; try done.
  intros p d []%not_elem_of_nil.
Qed.

(** C3: the descriptor goes only to a proven peer.  Whatever the broker and the
    peers send, in whatever order, and whenever the human answers, a
    [pair:establish] leaves only for a peer whose share the run derived a key
    from, whose confirmation tag verified under that key, and, where the flow
    has a gate, about whom the human was asked and said yes; and the run
    settles with that peer's keys. *)
Theorem establish_only_after_proof es p d
    (Hsent : SocketSend (PairEstablishMessage p d) ∈ (run opts es newExchange).2) :
  exists a, at_peer a = p /\ granted es (run opts es newExchange).2 a /\
    Settled (Ok (mkResult (at_keys a) (peerLabel a))) ∈ (run opts es newExchange).2.
Proof. exact (ei_sent _ _ _ (run_inv es) p d Hsent). Qed.

Lemma run_app es es' x :
  run opts (es ++ es') x =
  let '(y, out) := run opts es x in let '(z, out') := run opts es' y in (z, out ++ out').
Proof.
  revert x. induction es as [|e es IH]; intros x; simpl; [by destruct (run opts es' x)|].
  destruct (step opts e x) as [y o]. rewrite IH. destruct (run opts es y) as [z o'].
  destruct (run opts es' z). by rewrite app_assoc.
Qed.

Lemma step_settled e x : settled x = true -> settled (step opts e x).1 = true.
Proof.
  intros Hx. assert (forall r, quiet x r -> settled r.1 = true) as Hq
    by (intros r Hr; by apply (qt_settled _ _ Hr)).
  destruct e as [[m|] random| | | |k answer|k sealed|]; simpl step; try done;
    try (apply Hq, quiet_finish).
  - destruct m as [?|peer share ad sid|peer tag|?|[peer|] reason]; simpl onMessage; try done.
    + unfold handlePeerShare. destruct (attempts x !! _); [done|].
      set (y := with_counts _ _ (with_grace false x)).
      destruct (match eo_maxPeers opts with Some max => max <? seen y | None => false end);
        [by apply (qt_settled _ _ (quiet_finish y _))|].
      destruct (eo_derive _ _ _) as [[]|]; [done| |done].
      by apply (qt_settled _ _ (quiet_giveUpOn _ _ _)).
    + unfold handlePeerConfirm. destruct (attempts x !! _) as [a|]; [|done].
      destruct (hexToBytes tag); [|done].
      destruct (negb _); [apply Hq, quiet_giveUpOn|]. by destruct (eo_gated opts).
    + case_decide; [apply Hq, quiet_finish|apply Hq, quiet_ruleOut].
    + apply Hq, quiet_finish.
  - destruct (graceTimer x); [apply Hq, quiet_finish|done].
  - unfold onAdmitted. destruct (suspended x !! k) as [[a []]|]; [|done..].
    simpl. rewrite Hx. done.
  - unfold onSealed. destruct (suspended x !! k) as [[a []]|]; [done| |done].
    destruct sealed; [|by apply (qt_settled _ _ (quiet_finish _ _))]. simpl. by rewrite Hx.
Qed.

Lemma run_settled es x : settled x = true -> settled (run opts es x).1 = true.
Proof.
  revert x. induction es as [|e es IH]; intros x Hx; [done|]. simpl.
  apply (step_settled e) in Hx. destruct (step opts e x) as [y o]. simpl in Hx.
  apply IH in Hx.
  by destruct (run opts es y).
Qed.

Lemma timeout_settles es : RunTimeout ∈ es -> settled (run opts es newExchange).1 = true.
Proof.
  intros (es1 & es2 & ->)%list_elem_of_split. rewrite run_app.
  destruct (run opts es1 newExchange) as [x o]. simpl.
  assert (settled (finish (Err TimedOut) x).1 = true) as Hs
    by (unfold finish; by destruct (settled x) eqn:Hx).
  destruct (finish (Err TimedOut) x) as [y o']. simpl in Hs. apply (run_settled es2) in Hs.
  by destruct (run opts es2 y).
Qed.

(** A run settles once and in time.  However the events interleave it
    settles at most once; once its timer has fired it has settled; and when it
    has settled with a failure no descriptor has gone to anybody. *)
Theorem settles_once es :
  (length (filter is_settled (run opts es newExchange).2) <= 1)%nat /\
  (RunTimeout ∈ es -> exists r, filter is_settled (run opts es newExchange).2 = [Settled r]) /\
  (forall e p d, Settled (Err e) ∈ (run opts es newExchange).2 ->
     SocketSend (PairEstablishMessage p d) ∉ (run opts es newExchange).2).
Proof.
  pose proof (run_inv es) as [_ _ _ _ Hopen Hset Hsent].
  set (x := (run opts es newExchange).1) in *. set (out := (run opts es newExchange).2) in *.
  split; [|split].
  - destruct (settled_bool x) as [Hx|Hx]; [by destruct (Hset Hx) as [r ->]|].
    rewrite (open_unsettled out) by auto. simpl. lia.
  - intros Ht. by apply Hset, timeout_settles.
  - intros e p d He Hp. destruct (Hsent p d Hp) as (a & _ & _ & Hok).
    destruct (settled_bool x) as [Hx|Hx].
    + destruct (Hset Hx) as [r Hr].
      assert (forall q, Settled q ∈ out -> q = r) as Hone.
      { intros q Hq. assert (Settled q ∈ filter is_settled out) as Hf
          by (apply list_elem_of_filter; by split). rewrite Hr in Hf.
        by apply list_elem_of_singleton in Hf as [= ->]. }
      apply Hone in He, Hok. congruence.
    + apply Hopen in Hx. rewrite Forall_forall in Hx. by specialize (Hx _ He).
Qed.

(** ** How many guesses a run answers *)

Definition is_share (o : Output) : bool :=
  match o with SocketSend (PairShareMessage _ _ _) => true | _ => false end.
Definition shares (out : list Output) : Z := Z.of_nat (length (filter is_share out)).

Lemma shares_app out out' : shares (out ++ out') = shares out + shares out'.
Proof. unfold shares. rewrite filter_app, length_app. lia. Qed.

(** A move that answers nothing and counts nobody. *)
Definition mute (x : Exchange) (r : Exchange * list Output) : Prop :=
  seen r.1 = seen x /\ shares r.2 = 0.

Lemma mute_finish r x : mute x (finish r x).
Proof. unfold finish. by destruct (settled x). Qed.

Lemma mute_ruleOut p x : mute x (ruleOut opts p x).
Proof.
  unfold ruleOut. destruct (_ || _); [done|].
  destruct (match eo_maxPeers opts with Some max => _ | None => _ end); [|by destruct (graceTimer _)].
  split; [by rewrite (proj1 (mute_finish _ _))|apply (proj2 (mute_finish _ _))].
Qed.

Lemma mute_giveUpOn p reason x : mute x (giveUpOn opts p reason x).
Proof.
  unfold giveUpOn. pose proof (mute_ruleOut p x) as [Hs Ho]. destruct (ruleOut opts p x) as [y o].
  split; [done|]. exact Ho.
Qed.

Lemma step_shares e x max :
  eo_maxPeers opts = Some max ->
  seen x <= seen (step opts e x).1 /\
  shares (step opts e x).2 <= seen (step opts e x).1 - seen x /\
  (0 < shares (step opts e x).2 -> seen (step opts e x).1 <= max).
Proof.
  intros Hmax. assert (forall r, mute x r -> seen x <= seen r.1 /\
    shares r.2 <= seen r.1 - seen x /\ (0 < shares r.2 -> seen r.1 <= max)) as Hq
    by (intros r [-> ->]; lia).
  destruct e as [[m|] random| | | |k answer|k sealed|]; simpl step;
    try (by apply Hq); try (apply Hq, mute_finish).
  - destruct m as [?|peer share ad sid|peer tag|?|[peer|] reason]; simpl onMessage; try by apply Hq.
    + unfold handlePeerShare. destruct (attempts x !! _); [by apply Hq|].
      set (y := with_counts _ _ (with_grace false x)). rewrite Hmax.
      assert (seen y = seen x + 1) as Hy by done.
      destruct (max <? seen y) eqn:Hlt;
        [destruct (mute_finish (Err TooManyPeers) y) as [-> ->]; lia|].
      destruct (eo_derive _ _ _) as [[a|reason]|].
      * simpl. destruct (eo_side opts); simpl; unfold shares; simpl; lia.
      * destruct (mute_giveUpOn peer reason (with_counts (outstanding y + 1) (seen y) y)) as [Hs Ho].
        simpl in Hs, Ho |- *. rewrite Hs, Ho. simpl in *. lia.
      * unfold shares. simpl in *. lia.
    + unfold handlePeerConfirm. destruct (attempts x !! _) as [a|]; [|by apply Hq].
      destruct (hexToBytes tag); [|by apply Hq]. destruct (negb _); [by apply Hq, mute_giveUpOn|].
      apply Hq. by destruct (eo_gated opts), (eo_side opts).
    + case_decide; [apply Hq, mute_finish|apply Hq, mute_ruleOut].
    + apply Hq, mute_finish.
  - destruct (graceTimer x); [apply Hq, mute_finish|by apply Hq].
  - unfold onAdmitted. destruct (suspended x !! k) as [[a []]|]; [|by apply Hq..].
    apply Hq. simpl. destruct (settled x); [done|]. destruct (negb _); [|done].
    exact (mute_giveUpOn (at_peer a) _ (with_suspended (delete k) x)).
  - unfold onSealed. destruct (suspended x !! k) as [[a []]|]; [by apply Hq| |by apply Hq].
    apply Hq. destruct sealed; [|exact (mute_finish _ (with_suspended (delete k) x))].
    simpl. destruct (settled x) eqn:Hx; [done|]. unfold finish. simpl. by rewrite Hx.
Qed.

(** A code is worth one guess at its own machine too.  However many peers the
    broker offers and whatever they send, a run answers at most [maxPeers] of
    them with a CPace share: one for a code the machine is showing. *)
Theorem answers_bounded es max
    (Hmax : eo_maxPeers opts = Some max) (Hnonneg : 0 <= max) :
  shares (run opts es newExchange).2 <= max.
Proof.
  assert (forall x, 0 <= seen x -> shares (run opts es x).2 <= Z.max 0 (max - seen x)) as Hgen.
  { clear keeps. induction es as [|e es IH]; intros x Hx; simpl; [unfold shares; simpl; lia|].
    destruct (step_shares e x max Hmax) as (Hmono & Hle & Hpos).
    destruct (step opts e x) as [y o]. simpl in *. assert (0 <= seen y) as Hy by lia.
    specialize (IH y Hy). destruct (run opts es y) as [z o']. simpl in *. rewrite shares_app. lia. }
  specialize (Hgen newExchange). simpl in Hgen. lia.
Qed.

(** ** When a run may say that the code did not match *)

(** The broker reports a peer's failure while the peer is still a candidate,
    and so does the human's refusal find it. *)
Definition fair (e : Event) (x : Exchange) : Prop :=
  match e with
  | Message (Some (PairFailedMessage (Some p) _)) _ => is_Some (attempts x !! p)
  | GateAnswered k _ =>
      forall a, suspended x !! k = Some (a, Admitting) -> is_Some (attempts x !! at_peer a)
  | _ => True
  end.

Fixpoint fair_run (es : list Event) (x : Exchange) : Prop :=
  match es with
  | [] => True
  | e :: es => fair e x /\ fair_run es (step opts e x).1
  end.

Definition counted (x : Exchange) : Prop :=
  Z.of_nat (size (attempts x)) <= outstanding x /\ (graceTimer x = true -> attempts x = ∅).

Lemma counted_finish r x : counted x -> counted (finish r x).1.
Proof. unfold finish. by destruct (settled x); [|intros [? _]]. Qed.

(** Failing says so only when nobody is left. *)
Definition honest (r : Exchange * list Output) : Prop :=
  counted r.1 /\ (Settled (Err NoMatch) ∈ r.2 -> attempts r.1 = ∅).

Lemma honest_finish r x :
  counted x -> (r = Err NoMatch -> attempts x = ∅) -> honest (finish r x).
Proof.
  intros Hc Hr. split; [by apply counted_finish|]. unfold finish.
  destruct (settled x); simpl; [by intros ?%not_elem_of_nil|].
  rewrite !elem_of_cons, elem_of_nil. naive_solver.
Qed.

(** One candidate less: the count still bounds those that are left. *)
Lemma honest_ruleOut p x :
  Z.of_nat (size (delete p (attempts x))) <= outstanding x - 1 ->
  (graceTimer x = true -> attempts x = ∅) -> honest (ruleOut opts p x).
Proof.
  intros Hsize Hg. unfold ruleOut. set (y := with_counts _ _ _).
  assert (counted y) as Hy by (split; [done|]; intros Ht; simpl; rewrite (Hg Ht); apply delete_empty).
  assert (forall z : Exchange, counted z -> honest (z, [])) as Hquiet
    by (intros z Hz; split; [done|]; by intros ?%not_elem_of_nil).
  destruct ((seen y =? 0) || (0 <? outstanding y)) eqn:Hb; [by apply Hquiet|].
  apply orb_false_iff in Hb as [_ Hb]. assert (attempts y = ∅) as Hnone.
  { apply map_size_empty_iff. destruct Hy as [Hle _]. lia. }
  destruct (match eo_maxPeers opts with Some max => _ | None => _ end); [by apply honest_finish|].
  destruct (graceTimer y); [by apply Hquiet|]. apply Hquiet. by destruct Hy.
Qed.

Lemma honest_giveUpOn p reason x :
  Z.of_nat (size (delete p (attempts x))) <= outstanding x - 1 ->
  (graceTimer x = true -> attempts x = ∅) -> honest (giveUpOn opts p reason x).
Proof.
  intros Hs Hg. unfold giveUpOn. destruct (honest_ruleOut p x Hs Hg) as [Hc Hn].
  destruct (ruleOut opts p x) as [y o]. split; [done|]. simpl in *.
  rewrite elem_of_cons. naive_solver.
Qed.

Lemma size_delete_candidate p x :
  counted x -> is_Some (attempts x !! p) ->
  Z.of_nat (size (delete p (attempts x))) <= outstanding x - 1.
Proof.
  intros [Hle _] [a Ha]. rewrite map_size_delete_Some by by eexists.
  assert (size (attempts x) <> 0%nat) as Hne
    by (intros Hz%map_size_empty_iff; by rewrite Hz in Ha). lia.
Qed.

Lemma honest_step e x : counted x -> fair e x -> honest (step opts e x).
Proof.
  intros Hc Hf. pose proof (proj2 Hc) as Hg.
  assert (forall z o, counted z -> Settled (Err NoMatch) ∉ o -> honest (z, o)) as Hq by by split.
  destruct e as [[m|] random| | | |k answer|k sealed|]; simpl step;
    try (apply honest_finish; [done|naive_solver]);
    try (by apply Hq; [|apply not_elem_of_nil]).
  - destruct m as [?|peer share ad sid|peer tag|?|[peer|] reason]; simpl onMessage;
      try (by apply Hq; [|apply not_elem_of_nil]).
    + unfold handlePeerShare.
      destruct (attempts x !! _) eqn:Hp; [by apply Hq; [|apply not_elem_of_nil]|].
      set (y := with_counts _ _ (with_grace false x)).
      assert (counted y) as Hy by (by split; [apply Hc|]).
      destruct (match eo_maxPeers opts with Some max => _ | None => _ end);
        [by apply honest_finish|].
      destruct (eo_derive _ _ _) as [[a|reason]|] eqn:Hd.
      * apply Hq; [|by destruct (eo_side opts); rewrite ?elem_of_cons, elem_of_nil; naive_solver].
        split; [|done]. apply keeps in Hd. rewrite <- Hd in Hp. simpl in Hp |- *.
        rewrite map_size_insert_None by done. destruct Hc. lia.
      * apply honest_giveUpOn; [|done]. simpl. rewrite delete_id by done. destruct Hc. lia.
      * apply Hq; [|rewrite elem_of_cons, elem_of_nil; naive_solver]. split; [|done].
        simpl. destruct Hc. lia.
    + unfold handlePeerConfirm.
      destruct (attempts x !! _) as [a|] eqn:Ha; [|by apply Hq; [|apply not_elem_of_nil]].
      destruct (hexToBytes tag); [|apply Hq; [done|rewrite elem_of_cons, elem_of_nil; naive_solver]].
      destruct (negb _); [apply honest_giveUpOn; [by apply size_delete_candidate|done]|].
      apply Hq; [|by destruct (eo_gated opts), (eo_side opts); simpl;
        rewrite ?elem_of_cons, elem_of_nil; naive_solver]. by destruct (eo_gated opts).
    + case_decide; [by apply honest_finish; [|naive_solver]|].
      apply honest_ruleOut; [by apply size_delete_candidate|done].
    + by apply honest_finish; [|naive_solver].
  - destruct (graceTimer x) eqn:Ht; [|by apply Hq; [|apply not_elem_of_nil]].
    apply honest_finish; [done|]. intros _. by apply Hg.
  - unfold onAdmitted.
    destruct (suspended x !! k) as [[a []]|] eqn:Hk; try (by apply Hq; [|apply not_elem_of_nil]).
    simpl. destruct (settled x); [by apply Hq; [|apply not_elem_of_nil]|].
    destruct (negb _).
    + apply honest_giveUpOn; [|done]. apply (size_delete_candidate _ x Hc), Hf. exact Hk.
    + apply Hq; [done|]. rewrite elem_of_cons, elem_of_nil. naive_solver.
  - unfold onSealed.
    destruct (suspended x !! k) as [[a []]|] eqn:Hk; try (by apply Hq; [|apply not_elem_of_nil]).
    destruct sealed; [|by apply honest_finish]. simpl. destruct (settled x) eqn:Hx;
      [by apply Hq; [|apply not_elem_of_nil]|].
    unfold finish. simpl. rewrite Hx. apply Hq; [by split; [apply Hc|]|].
    rewrite !elem_of_cons, elem_of_nil. naive_solver.
Qed.

Lemma counted_run es x : counted x -> fair_run es x -> counted (run opts es x).1.
Proof.
  revert x. induction es as [|e es IH]; intros x Hc Hf; [done|]. simpl in *.
  destruct Hf as [Hf Hr]. destruct (honest_step e x Hc Hf) as [Hc' _].
  destruct (step opts e x) as [y o]. simpl in *. specialize (IH y Hc' Hr).
  by destruct (run opts es y).
Qed.

(** A run says that the code did not match only when no candidate is left,
    provided failures are reported for peers that are still candidates. *)
Theorem no_match_sound es e
    (Hes : fair_run es newExchange) (He : fair e (run opts es newExchange).1)
    (Hout : Settled (Err NoMatch) ∈ (step opts e (run opts es newExchange).1).2) :
  attempts (step opts e (run opts es newExchange).1).1 = ∅.
Proof.
  apply honest_step; [|done|done]. apply counted_run; [|done]. by split; [simpl|].
Qed.
End Safety.

(** The flows keep the peer's handle. *)
Lemma claim_keeps `{!Hex, !Sha512, !Ristretto, !Hkdf} cpace : keeps_peer (claim_options cpace).
Proof.
  intros random msg a. simpl. unfold claim_derive. destruct (AD_PEER_MAX <? _); [done|].
  destruct (hexToBytes (ps_share msg)); [|done]. destruct (Cpace.finish _ _ _); [|done].
  by intros [= <-].
Qed.

Lemma host_keeps `{!Hex, !Sha512, !Ristretto, !Hkdf} secret slot gated :
  keeps_peer (host_options secret slot gated).
Proof.
  intros random msg a. simpl. unfold host_derive. destruct (AD_PEER_MAX <? _); [done|].
  destruct (hexToBytes (ps_sid msg)); [|done]. destruct (cpaceStart _ _ _ _); [|done].
  destruct (hexToBytes (ps_share msg)); [|done]. destruct (Cpace.finish _ _ _); [|done].
  by intros [= <-].
Qed.

(** ** Runs *)

Module Demo.
Import Toy.

(** Peers whose key is their handle. *)
Definition keys_of (peer : string) : SessionKeys := mkKeys [] [] (utf8 peer) "".
Definition derive_all (random : bytes) (msg : PeerShare) : option Derived :=
  Some (Attempted (mkAttempt (ps_peer msg) [] (keys_of (ps_peer msg)) (ps_ad msg))).
Definition good_tag (peer : string) : string :=
  bytesToHex (confirmationTag (utf8 peer) browser).

Definition showing : ExchangeOptions := mkOptions hosting (Some 1) derive_all true.
Definition quoting : ExchangeOptions := mkOptions claiming (Some 2) derive_all false.

Lemma derive_all_keeps side max gated : keeps_peer (mkOptions side max derive_all gated).
Proof. by intros random msg a [= <-]. Qed.

Definition share (peer : string) : Event :=
  Message (Some (PairPeerShareMessage peer "00" "Safari on iOS" "00")) [].
Definition confirm (peer tag : string) : Event := Message (Some (PairPeerConfirmMessage peer tag)) [].
Definition gone (peer : string) : Event :=
  Message (Some (PairFailedMessage (Some peer) confirmation_failed)) [].

Definition approved : list Event :=
  [share "p1"; share "p1"; confirm "p1" (good_tag "p1"); GateAnswered 0 (Some true);
   DescriptorSealed 1 (Some [1; 2; 3])].

Lemma establish_only_after_proof_witness :
  SocketSend (PairEstablishMessage "p1" "AQID") ∈ (run showing approved newExchange).2 /\
  exists a, at_peer a = "p1"%string /\ granted showing approved (run showing approved newExchange).2 a /\
    Settled (Ok (mkResult (at_keys a) (peerLabel a))) ∈ (run showing approved newExchange).2.
Proof.
  assert (SocketSend (PairEstablishMessage "p1" "AQID") ∈ (run showing approved newExchange).2) as Hin
    by (vm_compute; repeat constructor).
  split; [exact Hin|].
  exact (establish_only_after_proof showing (derive_all_keeps _ _ _) approved "p1" "AQID" Hin).
Defined.

Lemma settles_once_witness :
  (length (filter is_settled (run showing approved newExchange).2) <= 1)%nat.
Proof. exact (proj1 (settles_once showing (derive_all_keeps _ _ _) approved)). Defined.

Lemma answers_bounded_witness :
  shares (run showing [share "p1"; share "p2"; share "p3"] newExchange).2 <= 1.
Proof. apply (answers_bounded showing _ 1 eq_refl). lia. Defined.

(** A decoy on the slot is ruled out, then the real terminal is. *)
Definition ruled_out : list Event := [share "p1"; share "p2"; confirm "p1" "00"].

Lemma no_match_sound_witness :
  attempts (step quoting (confirm "p2" "00") (run quoting ruled_out newExchange).1).1 = ∅.
Proof.
  apply (no_match_sound quoting (derive_all_keeps _ _ _) ruled_out (confirm "p2" "00"));
    [by repeat split|done|].
  vm_compute. repeat constructor.
Defined.

(** The decoy sends a wrong tag and then closes: the broker's report is a second
    ruling out of the same peer, and the run fails although [p2] is still a
    candidate, with the right key. *)
Lemma ruled_out_twice :
  let '(x, out) := run quoting [share "p1"; share "p2"; confirm "p1" "00"; gone "p1"] newExchange in
  Settled (Err NoMatch) ∈ out /\ attempts x !! "p2"%string =
    Some (mkAttempt "p2" [] (keys_of "p2") "Safari on iOS").
Proof. vm_compute. split; [|reflexivity]. repeat constructor. Qed.

(** Two confirmations of one peer ask the human twice. *)
Lemma asked_twice :
  (run showing [share "p1"; confirm "p1" (good_tag "p1"); confirm "p1" (good_tag "p1")] newExchange).2
  = [SocketSend (PairShareMessage "p1" "" AD_CLI);
     SocketSend (PairConfirmMessage "p1" (bytesToHex (confirmationTag (utf8 "p1") cli)));
     Asked 0 "Safari on iOS"; Asked 1 "Safari on iOS"].
Proof. vm_compute. reflexivity. Qed.
End Demo.
