(* ===== verification/BrowserPairing.v ===== *)
(** * BrowserPairing: the browser's half of a pairing

    [apps/web/src/lib/pairing-client.ts]: [startPairing] shows a code and holds
    its mailbox, [joinPairing] quotes a code a terminal shows, [requestAccess]
    asks a machine of the account.  Each closure is a record, from the moment
    its socket is made; what precedes it (the POST and its answer) is a
    function of that answer.  [unsealDescriptor] is awaited, so its outcome is
    an event on an entry of [unsealing].  The parser of a descriptor is a
    parameter; frames arrive parsed ([None]: ignored). *)

From S2P Require Import Prelude Protocol Bytes Noble Cpace Kdf Frames PairingCode Sas.

(** Why a flow failed, as its message says. *)
Inductive Failure :=
| TooOld
| TooManyRequests
| ServiceUnavailable
| Unreachable
| BrokerSaid (reason : FailReason)
| BrokerMisbehaved
| SentInvalid
| EnteredIncorrectly
| ReplyUnreadable
| LostConnection
| NotACode
| TooManyTerminals
| DidNotMatch
| SignInAgain
| MachineBusy
| MachineUnreachable
| Denied (reason : DenyReason)
| UnusableKey.

(** The answer to a POST: [fetch] threw, or a status. *)
Inductive PostAnswer := Threw | Status (code : Z).

Definition res_ok (code : Z) : bool := (200 <=? code) && (code <? 300).

(** [startPairing] and [joinPairing]: the failure of a POST, if it is one. *)
Definition post_failure (a : PostAnswer) : option Failure :=
  match a with
  | Threw => Some Unreachable
  | Status code =>
      if code =? 426 then Some TooOld
      else if code =? 429 then Some TooManyRequests
      else if negb (res_ok code) then Some ServiceUnavailable else None
  end.

(** [requestAccess]. *)
Definition request_failure (a : PostAnswer) : option Failure :=
  match a with
  | Threw => Some Unreachable
  | Status code =>
      if code =? 426 then Some TooOld
      else if code =? 401 then Some SignInAgain
      else if code =? 409 then Some MachineBusy
      else if negb (res_ok code) then Some MachineUnreachable else None
  end.

Section Browser.
Context `{!Hex, !HmacBytes, !Sha256, !Sha512, !Ristretto, !Hkdf, !Aead, !X25519}.
Context {Descriptor : Type} (parseDescriptor : bytes -> option Descriptor).

(** [None]: it threw. *)
Definition unsealDescriptor (keys : SessionKeys) (sealed : string) : option Descriptor :=
  match base64UrlToBytes (js sealed) with
  | Err _ => None
  | Ok blob =>
      match openOnce (k_s2c keys) s2c blob descriptor with
      | Err _ => None
      | Ok opened => parseDescriptor opened
      end
  end.

Inductive Update :=
| Waiting (code : jstr) (expiresAt : Z)
| Verifying
| Asking
| Confirm (sas : jstr)
| Paired (keys : SessionKeys) (d : Descriptor)
| Failed (f : Failure).

Inductive Output :=
| Updated (u : Update)
| Send (m : PairingClientMessage)
| SendReq (m : RequestClientMessage)
| CloseWs
| Unseal (run : nat)
| Uncaught.

(** What the three flows share: [settled], [cancelled] and the descriptors
    being opened. *)
Record Flow := mkFlow {
  fl_settled : bool;
  fl_cancelled : bool;
  unsealing : gmap nat (SessionKeys * string);
  nextUnseal : nat;
}.

Definition newFlow : Flow := mkFlow false false ∅ 0.

Definition settle_flow (f : Flow) : Flow := mkFlow true (fl_cancelled f) (unsealing f) (nextUnseal f).
Definition cancel_flow (f : Flow) : Flow := mkFlow (fl_settled f) true (unsealing f) (nextUnseal f).

Definition fail (why : Failure) (f : Flow) : Flow * list Output :=
  if fl_settled f || fl_cancelled f then (f, []) else (settle_flow f, [CloseWs; Updated (Failed why)]).

(** [void unsealDescriptor(...).then(...).catch(...)]. *)
Definition start_unseal (keys : SessionKeys) (sealed : string) (f : Flow) : Flow * list Output :=
  (mkFlow (fl_settled f) (fl_cancelled f) (<[nextUnseal f := (keys, sealed)]> (unsealing f))
     (S (nextUnseal f)), [Unseal (nextUnseal f)]).

Definition unsealed (run : nat) (f : Flow) : Flow * list Output :=
  match unsealing f !! run with
  | None => (f, [])
  | Some (keys, sealed) =>
      let f := mkFlow (fl_settled f) (fl_cancelled f) (delete run (unsealing f)) (nextUnseal f) in
      match unsealDescriptor keys sealed with
      | None => fail ReplyUnreadable f
      | Some d =>
          if fl_settled f || fl_cancelled f then (f, [])
          else (settle_flow f, [CloseWs; Updated (Paired keys d)])
      end
  end.

(** [onclose], and the handle's [cancel]. *)
Definition ws_closed (f : Flow) : Flow * list Output := fail LostConnection f.
Definition cancelled (f : Flow) : Flow * list Output := (cancel_flow f, [CloseWs]).

(** ** Showing a code *)

Record Showing := mkShowing {
  sh_flow : Flow;
  sh_slot : jstr;
  sh_secret : jstr;
  sh_ownAd : string;
  sh_keys : option SessionKeys;
  sh_peerHandle : option string;
}.

Definition on_sh_flow (r : Flow * list Output) (s : Showing) : Showing * list Output :=
  (mkShowing r.1 (sh_slot s) (sh_secret s) (sh_ownAd s) (sh_keys s) (sh_peerHandle s), r.2).
Definition sh_with_peer (peer : string) (s : Showing) : Showing :=
  mkShowing (sh_flow s) (sh_slot s) (sh_secret s) (sh_ownAd s) (sh_keys s) (Some peer).
Definition sh_with_keys (keys : SessionKeys) (s : Showing) : Showing :=
  mkShowing (sh_flow s) (sh_slot s) (sh_secret s) (sh_ownAd s) (Some keys) (sh_peerHandle s).

(** The mailbox is open: show the code, for as long as it lives here. *)
Definition startPairing (slot secret : jstr) (ownAd : string) (expiresAt : Z) (ttlMs : option Z)
    (now : Z) : Showing * list Output :=
  (mkShowing newFlow slot secret ownAd None None,
   [Updated (Waiting (slot ++ secret) (codeDeadline expiresAt ttlMs now))]).

Definition own_confirm (keys : SessionKeys) (peer : string) : Output :=
  Send (PairConfirmMessage peer (bytesToHex (confirmationTag (k_confirm keys) browser))).

Definition show_peer_share (random : bytes) (peer share ad sid : string) (s : Showing)
    : Showing * list Output :=
  match sh_peerHandle s with
  | Some handle => if decide (peer <> handle) then on_sh_flow (fail BrokerMisbehaved (sh_flow s)) s else (s, [])
  | None =>
      let s := sh_with_peer peer s in
      let verifying := Updated Verifying in
      match hexToBytes sid with
      | Err _ => (s, [verifying; Uncaught])
      | Ok sidBytes =>
          match cpaceStart (sh_secret s) (sh_slot s) sidBytes random with
          | Err _ => (s, [verifying; Uncaught])
          | Ok cpace =>
              match (shareBytes ← ok_option (hexToBytes share);
                     isk ← ok_option (finish cpace shareBytes (mkAd (utf8 (sh_ownAd s)) (utf8 ad) false));
                     Some (shareBytes, isk)) with
              | None =>
                  let '(s, out) := on_sh_flow (fail SentInvalid (sh_flow s)) s in (s, verifying :: out)
              | Some (shareBytes, isk) =>
                  let keys := deriveSessionKeys isk
                    (transcriptIr shareBytes (utf8 ad) (cp_share cpace) (utf8 (sh_ownAd s))) in
                  (sh_with_keys keys s,
                   [verifying; Send (PairShareMessage peer (bytesToHex (cp_share cpace)) (sh_ownAd s));
                    own_confirm keys peer])
              end
          end
      end
  end.

Definition show_message (parsed : option PairingServerMessage) (random : bytes) (now : Z) (s : Showing)
    : Showing * list Output :=
  match parsed with
  | None => (s, [])
  | Some (PairReadyMessage _ _ expiresAt) =>
      (s, [Updated (Waiting (sh_slot s ++ sh_secret s) (codeDeadline expiresAt None now))])
  | Some (PairFailedMessage _ reason) => on_sh_flow (fail (BrokerSaid reason) (sh_flow s)) s
  | Some (PairPeerShareMessage peer share ad sid) => show_peer_share random peer share ad sid s
  | Some (PairPeerConfirmMessage peer tag) =>
      match sh_keys s with
      | Some keys =>
          if decide (Some peer <> sh_peerHandle s) then (s, [])
          else
            match hexToBytes tag with
            | Err _ => (s, [Uncaught])
            | Ok tag =>
                if verifyConfirmation (k_confirm keys) cli tag then (s, [])
                else
                  let '(s, out) := on_sh_flow (fail EnteredIncorrectly (sh_flow s)) s in
                  (s, Send (PairCloseMessage (Some peer) (Some "confirmation failed")) :: out)
            end
      | None => (s, [])
      end
  | Some (PairEstablishedMessage _ sealed) =>
      match sh_keys s with
      | Some keys => on_sh_flow (start_unseal keys sealed (sh_flow s)) s
      | None => (s, [])
      end
  end.

(** ** Claiming a code *)

Record Joining := mkJoining {
  jn_flow : Flow;
  jn_cpace : CPaceState;
  jn_ownAd : string;
  jn_attempts : gmap string SessionKeys;
  jn_outstanding : Z;
  jn_seen : Z;
  jn_grace : bool;
}.

Definition on_jn_flow (r : Flow * list Output) (j : Joining) : Joining * list Output :=
  (mkJoining r.1 (jn_cpace j) (jn_ownAd j) (jn_attempts j) (jn_outstanding j) (jn_seen j)
     (jn_grace j), r.2).
Definition jn_with_attempts (f : gmap string SessionKeys -> gmap string SessionKeys) (j : Joining) : Joining :=
  mkJoining (jn_flow j) (jn_cpace j) (jn_ownAd j) (f (jn_attempts j)) (jn_outstanding j) (jn_seen j)
    (jn_grace j).
Definition jn_with_counts (o s : Z) (j : Joining) : Joining :=
  mkJoining (jn_flow j) (jn_cpace j) (jn_ownAd j) (jn_attempts j) o s (jn_grace j).
Definition jn_with_grace (g : bool) (j : Joining) : Joining :=
  mkJoining (jn_flow j) (jn_cpace j) (jn_ownAd j) (jn_attempts j) (jn_outstanding j) (jn_seen j) g.

(** A failure also ends the straggler window. *)
Definition jn_fail (why : Failure) (j : Joining) : Joining * list Output :=
  if fl_settled (jn_flow j) || fl_cancelled (jn_flow j) then (j, [])
  else on_jn_flow (fail why (jn_flow j)) (jn_with_grace false j).

(** The code as typed or scanned: the run it starts and the claim it posts. *)
Definition joinPairing (code : jstr) (ownAd : string) (sid seed : bytes)
    : option (result CPaceError (Joining * (jstr * string * string * string))) :=
  parsed ← parseCode code;
  Some (cpace ← cpaceStart (pc_secret parsed) (pc_slot parsed) sid seed;
        Ok (mkJoining newFlow cpace ownAd ∅ 0 0 false,
            (pc_slot parsed, bytesToHex (cp_share cpace), ownAd, bytesToHex sid))).

Definition jn_ruleOut (peer : string) (j : Joining) : Joining * list Output :=
  let j := jn_with_attempts (delete peer) j in
  let j := jn_with_counts (jn_outstanding j - 1) (jn_seen j) j in
  if (jn_seen j =? 0) || (0 <? jn_outstanding j) then (j, [])
  else if MAX_PEERS_PER_SLOT <=? jn_seen j then jn_fail DidNotMatch j
  else (jn_with_grace true j, []).

Definition jn_giveUpOn (peer reason : string) (j : Joining) : Joining * list Output :=
  let '(j, out) := jn_ruleOut peer j in
  (j, Send (PairCloseMessage (Some peer) (Some reason)) :: out).

Definition join_peer_share (peer share ad : string) (j : Joining) : Joining * list Output :=
  match jn_attempts j !! peer with
  | Some _ => (j, [])
  | None =>
      let j := jn_with_grace false j in
      let j := jn_with_counts (jn_outstanding j) (jn_seen j + 1) j in
      if MAX_PEERS_PER_SLOT <? jn_seen j then jn_fail TooManyTerminals j
      else
        let j := jn_with_counts (jn_outstanding j + 1) (jn_seen j) j in
        match (shareBytes ← ok_option (hexToBytes share);
               isk ← ok_option (finish (jn_cpace j) shareBytes (mkAd (utf8 (jn_ownAd j)) (utf8 ad) true));
               Some (shareBytes, isk)) with
        | None => jn_giveUpOn peer "invalid share" j
        | Some (shareBytes, isk) =>
            (jn_with_attempts <[peer := deriveSessionKeys isk
               (transcriptIr (cp_share (jn_cpace j)) (utf8 (jn_ownAd j)) shareBytes (utf8 ad))]> j, [])
        end
  end.

Definition join_message (parsed : option PairingServerMessage) (j : Joining) : Joining * list Output :=
  match parsed with
  | None => (j, [])
  | Some (PairReadyMessage _ _ _) => (j, [])
  | Some (PairFailedMessage (Some peer) reason) =>
      if decide (peer = "") then jn_fail (BrokerSaid reason) j else jn_ruleOut peer j
  | Some (PairFailedMessage None reason) => jn_fail (BrokerSaid reason) j
  | Some (PairPeerShareMessage peer share ad _) => join_peer_share peer share ad j
  | Some (PairPeerConfirmMessage peer tag) =>
      match jn_attempts j !! peer with
      | None => (j, [])
      | Some keys =>
          match hexToBytes tag with
          | Err _ => (j, [Uncaught])
          | Ok tag =>
              if negb (verifyConfirmation (k_confirm keys) cli tag)
              then jn_giveUpOn peer "confirmation failed" j
              else (j, [own_confirm keys peer])
          end
      end
  | Some (PairEstablishedMessage peer sealed) =>
      match jn_attempts j !! peer with
      | None => (j, [])
      | Some keys => on_jn_flow (start_unseal keys sealed (jn_flow j)) j
      end
  end.

Definition join_grace_over (j : Joining) : Joining * list Output :=
  if jn_grace j then jn_fail DidNotMatch j else (j, []).

(** ** Asking a machine of the account *)

Record Requesting := mkRequesting {
  rq_flow : Flow;
  rq_ephemeral : EphemeralKeyPair;
  rq_requestId : string;
  rq_commitment : bytes;
  rq_pending : option SessionKeys;
}.

Definition on_rq_flow (r : Flow * list Output) (q : Requesting) : Requesting * list Output :=
  (mkRequesting r.1 (rq_ephemeral q) (rq_requestId q) (rq_commitment q) (rq_pending q), r.2).
Definition rq_with_pending (keys : SessionKeys) (q : Requesting) : Requesting :=
  mkRequesting (rq_flow q) (rq_ephemeral q) (rq_requestId q) (rq_commitment q) (Some keys).

(** The request was minted: the commitment, and the socket that sends it. *)
Definition requestAccess (secret : bytes) (requestId : string) : Requesting :=
  let ephemeral := newEphemeralKey secret in
  mkRequesting newFlow ephemeral requestId (sasCommitment (eph_publicKey ephemeral) requestId) None.

Definition request_open (q : Requesting) : Requesting * list Output :=
  (q, [SendReq (PairCommitMessage (rq_requestId q) (bytesToHex (rq_commitment q)))]).

(** Everything both ends derive from the machine's key. *)
Definition request_secrets (q : Requesting) (cliPublicKey : bytes) : option (bytes * bytes) :=
  ikm ← ok_option (sasSharedSecret (eph_secret (rq_ephemeral q)) cliPublicKey);
  Some (ikm, sasTranscript (rq_requestId q) (rq_commitment q) (eph_publicKey (rq_ephemeral q)) cliPublicKey).

Definition request_message (parsed : option RequestServerMessage) (q : Requesting)
    : Requesting * list Output :=
  match parsed with
  | None => (q, [])
  | Some (RequestDenied _ reason) => on_rq_flow (fail (Denied reason) (rq_flow q)) q
  | Some (RequestAck _ cliPublicKey) =>
      match (pk ← ok_option (hexToBytes cliPublicKey); request_secrets q pk) with
      | None => on_rq_flow (fail UnusableKey (rq_flow q)) q
      | Some (ikm, transcript) =>
          (rq_with_pending (deriveSessionKeys ikm transcript) q,
           [Updated (Confirm (deriveSas ikm transcript));
            SendReq (PairRevealMessage (rq_requestId q) (bytesToHex (eph_publicKey (rq_ephemeral q))))])
      end
  | Some (RequestApproved _ sealed) =>
      match rq_pending q with
      | None => (q, [])
      | Some keys => on_rq_flow (start_unseal keys sealed (rq_flow q)) q
      end
  end.
(** The reply was opened: what is reported are the keys pending by then. *)
Definition request_unsealed (run : nat) (q : Requesting) : Requesting * list Output :=
  match unsealing (rq_flow q) !! run with
  | None => (q, [])
  | Some (keys, sealed) =>
      let f := rq_flow q in
      let f := mkFlow (fl_settled f) (fl_cancelled f) (delete run (unsealing f)) (nextUnseal f) in
      match unsealDescriptor keys sealed, rq_pending q with
      | Some d, Some pending =>
          if fl_settled f || fl_cancelled f then on_rq_flow (f, []) q
          else on_rq_flow (settle_flow f, [CloseWs; Updated (Paired pending d)]) q
      | _, _ => on_rq_flow (fail ReplyUnreadable f) q
      end
  end.
End Browser.
