(* ===== verification/PairingEnds.v ===== *)
(** * PairingEnds: a pairing from one end to the other

    CliExchange and BrowserPairing against each other and through
    PairingBroker.  Each end is given exactly what the broker writes on its
    socket, and the broker exactly what the ends send. *)

From Stdlib Require Import QArith.
From S2P Require Import Prelude RateLimit Protocol Mailbox PairingBroker PairingTraces Bytes Noble Cpace Kdf Frames PairingCode CliExchange BrowserPairing.
#[local] Open Scope Z_scope.

Section Ends.
Context `{!Hex, !HexLaws, !HmacBytes, !HmacLaws, !Sha256, !Sha512, !Ristretto, !RistrettoLaws}.
Context `{!Hkdf, !HkdfLaws, !Aead, !AeadLaws, !X25519}.
Context {Descriptor : Type} (parseDescriptor : bytes -> option Descriptor).

(** ** The pieces *)

Lemma js_ascii_str s : Forall (fun c => 0 <= c < 256) s -> js (ascii_str s) = s.
Proof.
  unfold js, ascii_str. intros Hs. rewrite String.list_ascii_of_string_of_list_ascii, map_map.
  rewrite <- (map_id s) at 2. apply map_ext_in. intros c Hc.
  rewrite <- list_elem_of_In in Hc. rewrite Forall_forall in Hs. apply Hs in Hc.
  rewrite Ascii.N_ascii_embedding by lia. lia.
Qed.

Lemma b64url_ascii bs : is_bytes bs -> Forall (fun c => 0 <= c < 256) (bytesToBase64Url bs).
Proof.
  intros Hbs. assert (forall i, 0 <= b64char i < 256) as Hc.
  { intros i. unfold b64char. destruct (nth_in_or_default (Z.to_nat i) B64URL_ALPHABET 0) as [Hin| ->];
      [|lia].
    assert (forallb (fun c => (0 <=? c) && (c <? 256)) B64URL_ALPHABET = true) as Hall by by vm_compute.
    rewrite forallb_forall in Hall. apply Hall in Hin. lia. }
  induction bs as [|a|a b|a b c bs IH] using list_ind3; cbn [bytesToBase64Url];
    repeat (constructor; [apply Hc|]); try done.
  apply IH. by do 3 apply Forall_inv_tail in Hbs.
Qed.

(** What [sealOnce] made opens, carried as text. *)
Lemma descriptor_roundtrip keys pt salt sealed :
  is_bytes pt -> is_bytes salt ->
  sealOnce (k_s2c keys) s2c pt descriptor salt = Ok sealed ->
  unsealDescriptor parseDescriptor keys (ascii_str (bytesToBase64Url sealed)) = parseDescriptor pt.
Proof.
  intros Hpt Hsalt. unfold sealOnce, newSealer.
  destruct (frame_key (k_s2c keys) salt s2c descriptor) as [sub|] eqn:Hk; [|done].
  destruct (frame_key_ok _ _ _ _ _ Hk) as (Hsub & _ & _). intros Hsealed.
  set (body := be_bytes COUNTER_BYTES 0 ++ aead_encrypt sub (nonceFor s2c 0) [] pt).
  assert (sealed = salt ++ body) as -> by (by injection Hsealed as <-). clear Hsealed.
  unfold unsealDescriptor. assert (is_bytes (salt ++ body)) as Hb.
  { apply Forall_app_2; [done|]. apply Forall_app_2; [apply be_bytes_bytes|].
    apply aead_bytes; [|unfold nonceFor; apply Forall_app_2; [|apply be_bytes_bytes]|by constructor|done].
    - rewrite Hsub. apply hkdf_bytes.
    - repeat constructor; unfold is_byte; lia. }
  rewrite js_ascii_str by by apply b64url_ascii. rewrite base64url_rt by done.
  unfold openOnce, body. by rewrite (bind_sealed _ _ _ _ _ _ Hk).
Qed.

Lemma confirmed_tag key role : verifyConfirmation key role (confirmationTag key role) = true.
Proof. by apply constantTimeEqual_iff. Qed.

Lemma share_bytes pw ci sid seed A : cpaceStart pw ci sid seed = Ok A -> is_bytes (cp_share A).
Proof. intros (Q & _ & -> & _)%cpaceStart_ok. apply pt_toBytes_bytes. Qed.

Lemma sealOnce_total key dir pt purpose salt :
  length key = KEY_BYTES -> length salt = SALT_BYTES ->
  exists sealed, sealOnce key dir pt purpose salt = Ok sealed.
Proof.
  intros Hk Hs. unfold sealOnce, newSealer, frame_key, deriveSubkey, importKey.
  rewrite Hk, Hs. simpl. unfold derive. rewrite hkdf_length. by eexists.
Qed.

(** ** The two ends, each on the other's share *)

Section Pair.
Context (slot secret : jstr) (ownAd : string) (sid ra rc : bytes) (A C : CPaceState) (isk : bytes).
Hypothesis sid_bytes : is_bytes sid.
Hypothesis ra_bytes : is_bytes ra.
Hypothesis rc_bytes : is_bytes rc.
Hypothesis ad_short : utf16_length ownAd <= AD_PEER_MAX.
Hypothesis A_started : cpaceStart secret slot sid ra = Ok A.
Hypothesis C_started : cpaceStart secret slot sid rc = Ok C.
Hypothesis agreed : Cpace.finish A (cp_share C) (mkAd (utf8 ownAd) (utf8 AD_CLI) true) = Ok isk.

(** The keys of the session. *)
Definition pair_keys : SessionKeys :=
  deriveSessionKeys isk (transcriptIr (cp_share A) (utf8 ownAd) (cp_share C) (utf8 AD_CLI)).

Definition cli_attempt (peer : string) : Attempt := mkAttempt peer (cp_share C) pair_keys ownAd.

Lemma host_derives peer :
  host_derive secret slot rc (mkPeerShare peer (bytesToHex (cp_share A)) ownAd (bytesToHex sid))
  = Some (Attempted (cli_attempt peer)).
Proof.
  unfold host_derive. simpl. rewrite (proj2 (Z.ltb_ge _ _)) by done.
  rewrite hex_roundtrip by done. rewrite C_started.
  rewrite hex_roundtrip by by eapply share_bytes.
  rewrite <- (proj1 (finish_agrees _ _ _ _ _ _ _ _ _ ra_bytes rc_bytes A_started C_started)).
  by rewrite agreed.
Qed.

Lemma join_derives j :
  jn_cpace j = A -> jn_ownAd j = ownAd ->
  (shareBytes ← ok_option (hexToBytes (bytesToHex (cp_share C)));
   isk ← ok_option (Cpace.finish (jn_cpace j) shareBytes (mkAd (utf8 (jn_ownAd j)) (utf8 AD_CLI) true));
   Some (shareBytes, isk)) = Some (cp_share C, isk).
Proof.
  intros -> ->. rewrite hex_roundtrip by by eapply share_bytes. simpl. by rewrite agreed.
Qed.

Definition cli_tag : string := bytesToHex (confirmationTag (k_confirm pair_keys) cli).
Definition browser_tag : string := bytesToHex (confirmationTag (k_confirm pair_keys) browser).

Lemma tag_verifies role :
  exists t, hexToBytes (bytesToHex (confirmationTag (k_confirm pair_keys) role)) = Ok t /\
    verifyConfirmation (k_confirm pair_keys) role t = true.
Proof.
  eexists. rewrite hex_roundtrip by apply hmac_bytes. split; [done|apply confirmed_tag].
Qed.

Lemma host_share_step peer x :
  attempts x !! peer = None -> seen x = 0 ->
  handlePeerShare (host_options secret slot true) rc
    (mkPeerShare peer (bytesToHex (cp_share A)) ownAd (bytesToHex sid)) x
  = (with_attempts <[peer := cli_attempt peer]> (with_counts (outstanding x + 1) 1 (with_grace false x)),
     [SocketSend (PairShareMessage peer (bytesToHex (cp_share C)) AD_CLI);
      SocketSend (PairConfirmMessage peer cli_tag)]).
Proof.
  intros Hnone Hseen. unfold handlePeerShare. cbn [ps_peer]. rewrite Hnone.
  cbn [eo_maxPeers host_options seen with_counts with_grace eo_derive]. rewrite Hseen.
  cbn [Z.add Z.ltb Z.compare Pos.compare Pos.compare_cont]. by rewrite host_derives.
Qed.

Lemma host_confirm_step peer tag x t :
  attempts x !! peer = Some (cli_attempt peer) ->
  hexToBytes tag = Ok t -> verifyConfirmation (k_confirm pair_keys) browser t = true ->
  handlePeerConfirm (host_options secret slot true) peer tag x
  = suspend (cli_attempt peer) Admitting (fun run => [Asked run (peerLabel (cli_attempt peer))]) x.
Proof.
  intros Ha Ht Hv. unfold handlePeerConfirm. rewrite Ha, Ht. cbn [at_keys cli_attempt].
  rewrite Hv. done.
Qed.

(** What the terminal does when it is asked, answered and let proceed. *)
Lemma cli_run peer mailbox text expiresAt sealed :
  let es :=
    [Message (Some (PairReadyMessage mailbox text expiresAt)) [];
     Message (Some (PairPeerShareMessage peer (bytesToHex (cp_share A)) ownAd (bytesToHex sid))) rc;
     Message (Some (PairPeerConfirmMessage peer browser_tag)) [];
     GateAnswered 0 (Some true); DescriptorSealed 1 (Some sealed)] in
  (CliExchange.run (host_options secret slot true) es newExchange).2 =
    [SocketSend (PairShareMessage peer (bytesToHex (cp_share C)) AD_CLI);
     SocketSend (PairConfirmMessage peer cli_tag);
     Asked 0 (peerLabel (cli_attempt peer)); Seal 1 pair_keys;
     SocketSend (PairEstablishMessage peer (ascii_str (bytesToBase64Url sealed)));
     SocketClose; Settled (Ok (mkResult pair_keys (peerLabel (cli_attempt peer))))].
Proof.
  cbv zeta. destruct (tag_verifies browser) as (t & Ht & Hv).
  cbn [CliExchange.run step onMessage].
  rewrite (host_share_step peer newExchange) by done. cbn [CliExchange.run step onMessage].
  rewrite (host_confirm_step peer _ _ t) by (done || apply lookup_insert_eq).
  cbn [suspend]. set (x := with_nextRun _ _). cbn [CliExchange.run step].
  assert (suspended x !! 0%nat = Some (cli_attempt peer, Admitting)) as Hx by apply lookup_insert_eq.
  unfold onAdmitted at 1. rewrite Hx. clear Hx.
  set (y := with_suspended (delete 0%nat) x). assert (settled y = false) as -> by done.
  cbn [default from_option id negb startSealing suspend]. set (z := with_nextRun _ _).
  cbn [CliExchange.run step]. unfold onSealed at 1.
  assert (suspended z !! 1%nat = Some (cli_attempt peer, Sealing)) as -> by apply lookup_insert_eq.
  reflexivity.
Qed.

Lemma join_share_step j peer :
  jn_cpace j = A -> jn_ownAd j = ownAd -> jn_attempts j = ∅ -> jn_seen j = 0 ->
  join_peer_share peer (bytesToHex (cp_share C)) AD_CLI j
  = (jn_with_attempts <[peer := pair_keys]>
       (jn_with_counts (jn_outstanding j + 1) 1 (jn_with_grace false j)),
     [] : list (BrowserPairing.Output (Descriptor := Descriptor))).
Proof.
  intros HA Had Ha Hs. unfold join_peer_share. rewrite Ha, lookup_empty.
  set (y := jn_with_counts _ _ (jn_with_grace false j)).
  assert (jn_seen y = 1) as Hy by (simpl; lia). rewrite Hy.
  cbn [Z.ltb Z.compare MAX_PEERS_PER_SLOT Pos.compare Pos.compare_cont].
  rewrite join_derives by done. cbn [jn_cpace jn_with_counts]. unfold y. cbn [jn_cpace jn_ownAd jn_with_counts jn_with_grace jn_outstanding jn_seen].
  rewrite HA, Had, Hs. done.
Qed.

Lemma join_confirm_step j peer :
  jn_attempts j !! peer = Some pair_keys ->
  join_message (Some (PairPeerConfirmMessage peer cli_tag)) j
  = (j, [own_confirm (Descriptor := Descriptor) pair_keys peer]).
Proof.
  intros Ha. destruct (tag_verifies cli) as (t & Ht & Hv). simpl. rewrite Ha.
  unfold cli_tag. rewrite Ht. by rewrite Hv.
Qed.

(** What the browser does with the terminal's three messages. *)
Lemma join_run j peer sealed d :
  jn_cpace j = A -> jn_ownAd j = ownAd -> jn_flow j = newFlow -> jn_attempts j = ∅ -> jn_seen j = 0 ->
  unsealDescriptor parseDescriptor pair_keys sealed = Some d ->
  let '(j1, o1) := join_message (Some (PairPeerShareMessage peer (bytesToHex (cp_share C)) AD_CLI (bytesToHex sid))) j in
  let '(j2, o2) := join_message (Some (PairPeerConfirmMessage peer cli_tag)) j1 in
  let '(j3, o3) := join_message (Some (PairEstablishedMessage peer sealed)) j2 in
  o1 ++ o2 ++ o3 ++ (unsealed parseDescriptor 0 (jn_flow j3)).2 =
    [Send (PairConfirmMessage peer browser_tag); Unseal 0; CloseWs; Updated (Paired pair_keys d)].
Proof.
  intros HA Had Hf Ha Hs Hd. cbn [join_message]. rewrite join_share_step by done.
  set (j1 := jn_with_attempts _ _).
  assert (jn_attempts j1 !! peer = Some pair_keys) as Hj1 by apply lookup_insert_eq.
  assert (jn_flow j1 = newFlow) as Hf1 by (unfold j1; simpl; done).
  pose proof (join_confirm_step j1 peer Hj1) as Hc. cbn [join_message] in Hc. rewrite Hc.
  cbv beta iota. rewrite Hj1. unfold start_unseal. rewrite Hf1.
  cbn [on_jn_flow fst snd unsealed jn_flow]. unfold unsealed.
  cbn [unsealing newFlow nextUnseal fl_settled fl_cancelled].
  rewrite lookup_insert_eq, Hd. reflexivity.
Qed.

End Pair.
End Ends.

(** ** One pairing *)

Module Demo.
Import Toy.

Definition slot : jstr := js "123".
Definition secret : jstr := js "716384".
Definition label : string := "Chrome on macOS".
Definition sid : bytes := replicate 16 7.
Definition ra : bytes := replicate 32 9.
Definition rc : bytes := replicate 32 201.
Definition started (seed : bytes) : CPaceState :=
  match cpaceStart secret slot sid seed with Ok A => A | Err _ => mkCPace [] 0 [] end.
Definition A : CPaceState := started ra.
Definition C : CPaceState := started rc.
Definition isk : bytes :=
  match Cpace.finish A (cp_share C) (mkAd (utf8 label) (utf8 AD_CLI) true) with
  | Ok isk => isk
  | Err _ => []
  end.
Definition salt : bytes := replicate 16 4.
Definition connection : bytes := utf8 "{}".

End Demo.
