(* ===== verification/Tunnel.v ===== *)
(** * Tunnel: live reverse tunnels

    [apps/api/src/tunnel.ts] and the derivation of [tunnel-id.ts].  A tunnel
    id is derived from the device, so two [Tunnel] objects can carry one id;
    the handlers keep references to the objects, and [tunnelObjs] is the heap
    of all of them (references are handed out in order by [nextRef]), while
    [tunnels] and [byDeviceId] are the maps of the closure, [tunnels] in
    insertion order.  A sink is the socket it writes to.  Stream ids are drawn
    by the caller. *)

From S2P Require Import Prelude Protocol Bytes Noble.

Definition ref := nat.

(** ** [tunnel-id.ts] *)

Section TunnelId.
Context `{!HmacText}.

Definition ID_CHARS : nat := 22.

(** A natural number in decimal, as a template literal prints it. *)
Definition decimal (n : Z) : string := pretty (Z.to_N n).

Definition deriveTunnelId (secret : bytes) (deviceId : string) (epoch : Z) : string :=
  "tnl-" +:+ String.substring 0 ID_CHARS
               (hmacBase64url secret (deviceId +:+ ":" +:+ decimal epoch)).
End TunnelId.

(** ** Data *)

Record Stream := mkStream {
  sm_id : string;
  sm_openedAt : Z;
  sm_browser : option sock;
}.

Record Tunnel := mkTunnel {
  tn_id : string;
  tn_deviceId : string;
  tn_publicKey : string;
  tn_createdAt : Z;
  tn_expiresAt : Z;
  tn_bytes : Z;
  tn_userId : option string;
  tn_blocked : option string;
  tn_agent : sock;
  tn_streams : list (string * Stream);
}.

Record Quotas := mkQuotas { maxBytes : Z; maxMinutes : Z; maxStreams : Z }.

Record Registry := mkRegistry {
  quotas : Quotas;
  idSecret : bytes;
  tunnelObjs : gmap ref Tunnel;
  nextRef : ref;
  tunnels : list (string * ref);
  byDeviceId : gmap string string;
  epochs : gmap string Z;
  written : list output;
}.

Definition createTunnelRegistry (q : Quotas) (secret : bytes) : Registry :=
  mkRegistry q secret ∅ 0%nat [] ∅ ∅ [].

(** ** Field updates *)

Definition tn_with_bytes (n : Z) (t : Tunnel) : Tunnel :=
  mkTunnel (tn_id t) (tn_deviceId t) (tn_publicKey t) (tn_createdAt t) (tn_expiresAt t)
    n (tn_userId t) (tn_blocked t) (tn_agent t) (tn_streams t).
Definition tn_with_userId (u : option string) (t : Tunnel) : Tunnel :=
  mkTunnel (tn_id t) (tn_deviceId t) (tn_publicKey t) (tn_createdAt t) (tn_expiresAt t)
    (tn_bytes t) u (tn_blocked t) (tn_agent t) (tn_streams t).
Definition tn_with_blocked (u : option string) (t : Tunnel) : Tunnel :=
  mkTunnel (tn_id t) (tn_deviceId t) (tn_publicKey t) (tn_createdAt t) (tn_expiresAt t)
    (tn_bytes t) (tn_userId t) u (tn_agent t) (tn_streams t).
Definition tn_with_streams (ss : list (string * Stream)) (t : Tunnel) : Tunnel :=
  mkTunnel (tn_id t) (tn_deviceId t) (tn_publicKey t) (tn_createdAt t) (tn_expiresAt t)
    (tn_bytes t) (tn_userId t) (tn_blocked t) (tn_agent t) ss.

Definition set_objs (m : gmap ref Tunnel) (g : Registry) : Registry :=
  mkRegistry (quotas g) (idSecret g) m (nextRef g) (tunnels g) (byDeviceId g) (epochs g) (written g).
Definition set_maps (ts : list (string * ref)) (ds : gmap string string) (g : Registry) : Registry :=
  mkRegistry (quotas g) (idSecret g) (tunnelObjs g) (nextRef g) ts ds (epochs g) (written g).
Definition set_epochs (e : gmap string Z) (g : Registry) : Registry :=
  mkRegistry (quotas g) (idSecret g) (tunnelObjs g) (nextRef g) (tunnels g) (byDeviceId g) e (written g).
Definition write (os : list output) (g : Registry) : Registry :=
  mkRegistry (quotas g) (idSecret g) (tunnelObjs g) (nextRef g) (tunnels g) (byDeviceId g)
    (epochs g) (written g ++ os).

(** Mutating the object behind a reference. *)
Definition update (r : ref) (f : Tunnel -> Tunnel) (g : Registry) : Registry :=
  set_objs (alter f r (tunnelObjs g)) g.

(** [new Tunnel]: a fresh reference. *)
Definition allocate (t : Tunnel) (g : Registry) : ref * Registry :=
  (nextRef g,
   mkRegistry (quotas g) (idSecret g) (<[nextRef g := t]> (tunnelObjs g)) (S (nextRef g))
     (tunnels g) (byDeviceId g) (epochs g) (written g)).

(** The object [tunnels.get(id)] refers to. *)
Definition tunnel_at (g : Registry) (id : string) : option (ref * Tunnel) :=
  r ← assoc_get id (tunnels g); t ← tunnelObjs g !! r; Some (r, t).

(** ** Operations *)

(** [stream.browser?.(message)]. *)
Definition to_browser (m : TunnelServerMessage) (s : Stream) : list output :=
  match sm_browser s with Some b => [SendTunnel b m] | None => [] end.

Definition drop (tunnelId : string) (reason : CloseReason) (g : Registry) : Registry :=
  match tunnel_at g tunnelId with
  | None => g
  | Some (r, tunnel) =>
      let g := write (tn_streams tunnel ≫= fun e => to_browser (TunnelClosedMessage reason) e.2) g in
      let g := update r (tn_with_streams []) g in
      let g := write [SendTunnel (tn_agent tunnel) (TunnelClosedMessage reason)] g in
      let g := set_maps (assoc_del tunnelId (tunnels g))
                 (if decide (byDeviceId g !! tn_deviceId tunnel = Some tunnelId)
                  then delete (tn_deviceId tunnel) (byDeviceId g) else byDeviceId g) g in
      if decide (reason = closed_revoked)
      then set_epochs (<[tn_deviceId tunnel :=
             default 0 (epochs g !! tn_deviceId tunnel) + 1]> (epochs g)) g
      else g
  end.

Definition register `{!HmacText} (deviceId publicKey : string) (agent : sock) (now : Z)
    (g : Registry) : ref * Registry :=
  let g := match byDeviceId g !! deviceId with
           | Some existing => drop existing closed_agent_gone g
           | None => g
           end in
  let id := deriveTunnelId (idSecret g) deviceId (default 0 (epochs g !! deviceId)) in
  let tunnel := mkTunnel id deviceId publicKey now (now + maxMinutes (quotas g) * 60000)
                  0 None None agent [] in
  let '(r, g) := allocate tunnel g in
  (r, set_maps (assoc_set id r (tunnels g)) (<[deviceId := id]> (byDeviceId g)) g).

Definition get (tunnelId : string) (now : Z) (g : Registry) : option (ref * Tunnel) * Registry :=
  match tunnel_at g tunnelId with
  | None => (None, g)
  | Some (r, tunnel) =>
      if tn_expiresAt tunnel <=? now then (None, drop tunnelId closed_expired g)
      else (Some (r, tunnel), g)
  end.

Definition byDevice (deviceId : string) (now : Z) (g : Registry)
    : option (ref * Tunnel) * Registry :=
  match byDeviceId g !! deviceId with
  | Some tunnelId => get tunnelId now g
  | None => (None, g)
  end.

Definition close := drop.

Definition openStream (r : ref) (browser : sock) (newId : string) (now : Z) (g : Registry)
    : option Stream * Registry :=
  match tunnelObjs g !! r with
  | None => (None, g)
  | Some tunnel =>
      if tn_blocked tunnel is Some _ then (None, g)
      else if maxStreams (quotas g) <=? Z.of_nat (length (tn_streams tunnel)) then (None, g)
      else
        let stream := mkStream newId now (Some browser) in
        let g := update r (tn_with_streams (assoc_set newId stream (tn_streams tunnel))) g in
        (Some stream, write [SendTunnel (tn_agent tunnel) (TunnelStreamOpenMessage newId)] g)
  end.

Definition attachBrowser (r : ref) (streamId : string) (browser : sock) (g : Registry)
    : bool * Registry :=
  match tunnelObjs g !! r with
  | None => (false, g)
  | Some tunnel =>
      match assoc_get streamId (tn_streams tunnel) with
      | None => (false, g)
      | Some s =>
          (true, update r (tn_with_streams (assoc_set streamId
                   (mkStream (sm_id s) (sm_openedAt s) (Some browser)) (tn_streams tunnel))) g)
      end
  end.

Definition closeStream (r : ref) (streamId : string) (reason : option string) (g : Registry)
    : Registry :=
  match tunnelObjs g !! r with
  | None => g
  | Some tunnel =>
      match assoc_get streamId (tn_streams tunnel) with
      | None => g
      | Some stream =>
          let g := update r (tn_with_streams (assoc_del streamId (tn_streams tunnel))) g in
          let g := write (to_browser (TunnelServerStreamClose streamId reason) stream) g in
          write [SendTunnel (tn_agent tunnel) (TunnelServerStreamClose streamId reason)] g
      end
  end.

(** Charge bytes against the quota; [false] means the tunnel was dropped. *)
Definition charge (r : ref) (n : Z) (g : Registry) : bool * Registry :=
  match tunnelObjs g !! r with
  | None => (true, g)
  | Some tunnel =>
      let bytes := tn_bytes tunnel + n in
      let g := update r (tn_with_bytes bytes) g in
      if maxBytes (quotas g) <? bytes
      then (false, drop (tn_id tunnel) closed_quota_exceeded g)
      else (true, g)
  end.

(** The loop of [sweep] over the ids it finds. *)
Fixpoint sweepIds (ids : list string) (now : Z) (g : Registry) : Registry :=
  match ids with
  | [] => g
  | tunnelId :: ids =>
      sweepIds ids now
        match tunnel_at g tunnelId with
        | Some (_, tunnel) =>
            if tn_expiresAt tunnel <=? now then drop tunnelId closed_expired g else g
        | None => g
        end
  end.

Definition sweep (now : Z) (g : Registry) : Registry := sweepIds (map fst (tunnels g)) now g.

Definition stats (g : Registry) : Z * Z :=
  (Z.of_nat (length (tunnels g)),
   foldl (fun n e => match tunnelObjs g !! e.2 with
                     | Some t => n + Z.of_nat (length (tn_streams t))
                     | None => n
                     end) 0 (tunnels g)).
