(* ===== verification/TunnelBroker.v ===== *)
(** * TunnelBroker: tunnels and access requests

    The tunnel half of [apps/api/src/broker.ts]: [attachAgentSocket],
    [attachTunnelSocket], [pairRequest] and [attachRequestSocket], with the
    [message] and [close] of the handles they return, metering and the
    periodic cleanup.  A handle's closure is an entry of [agents], [viewers]
    or [askers] under its socket.  [meter] and [settle] are asynchronous: the
    answers of the accounts database arrive as later events
    ([meter_owner], [meter_blocked]); [usage] lists what [recordUsage] was
    given.  A handler that throws (on [hexToBytes]) changes nothing. *)

From S2P Require Import Prelude Protocol Bytes Noble DeviceKey Tunnel.

Definition MAX_PENDING_REQUEST : nat := 8.

Record Request := mkRequest {
  rq_id : string;
  rq_deviceId : string;
  rq_expiresAt : Z;
  rq_deviceLabel : string;
  rq_accountEmail : string;
  rq_forwarded : bool;
  rq_browser : option sock;
  rq_pending : list RequestServerMessage;
}.

(** The closures of the three kinds of handle. *)
Record AgentHandle := mkAgent { ag_challenge : bytes; ag_tunnelId : option string }.
Record ViewerHandle := mkViewer { vw_tunnelId : string; vw_tunnel : ref; vw_stream : string }.

Record TunnelBroker := mkTB {
  reg : Registry;
  requests : gmap string Request;
  pendingByDevice : gmap string string;
  agents : gmap sock AgentHandle;
  viewers : gmap sock ViewerHandle;
  askers : gmap sock string;
  usage : list (string * Z * Z);
}.

Definition createTunnelBroker (q : Quotas) (secret : bytes) : TunnelBroker :=
  mkTB (createTunnelRegistry q secret) ∅ ∅ ∅ ∅ ∅ [].

Definition set_reg (g : Registry) (b : TunnelBroker) : TunnelBroker :=
  mkTB g (requests b) (pendingByDevice b) (agents b) (viewers b) (askers b) (usage b).
Definition set_requests (rs : gmap string Request) (ps : gmap string string)
    (b : TunnelBroker) : TunnelBroker :=
  mkTB (reg b) rs ps (agents b) (viewers b) (askers b) (usage b).
Definition set_agents (h : gmap sock AgentHandle) (b : TunnelBroker) : TunnelBroker :=
  mkTB (reg b) (requests b) (pendingByDevice b) h (viewers b) (askers b) (usage b).
Definition set_viewers (h : gmap sock ViewerHandle) (b : TunnelBroker) : TunnelBroker :=
  mkTB (reg b) (requests b) (pendingByDevice b) (agents b) h (askers b) (usage b).
Definition set_askers (h : gmap sock string) (b : TunnelBroker) : TunnelBroker :=
  mkTB (reg b) (requests b) (pendingByDevice b) (agents b) (viewers b) h (usage b).
Definition set_usage (u : list (string * Z * Z)) (b : TunnelBroker) : TunnelBroker :=
  mkTB (reg b) (requests b) (pendingByDevice b) (agents b) (viewers b) (askers b) u.

(** Writing on sockets. *)
Definition out (os : list output) (b : TunnelBroker) : TunnelBroker := set_reg (write os (reg b)) b.

Definition set_request (id : string) (r : Request) (b : TunnelBroker) : TunnelBroker :=
  set_requests (<[id := r]> (requests b)) (pendingByDevice b) b.

Definition rq_with_browser (s : option sock) (p : list RequestServerMessage) (r : Request) : Request :=
  mkRequest (rq_id r) (rq_deviceId r) (rq_expiresAt r) (rq_deviceLabel r) (rq_accountEmail r)
    (rq_forwarded r) s p.
Definition rq_with_forwarded (r : Request) : Request :=
  mkRequest (rq_id r) (rq_deviceId r) (rq_expiresAt r) (rq_deviceLabel r) (rq_accountEmail r)
    true (rq_browser r) (rq_pending r).

(** ** Requests *)

Definition dropRequest (requestId : string) (b : TunnelBroker) : TunnelBroker :=
  match requests b !! requestId with
  | None => b
  | Some request =>
      set_requests (delete requestId (requests b))
        (if decide (pendingByDevice b !! rq_deviceId request = Some requestId)
         then delete (rq_deviceId request) (pendingByDevice b) else pendingByDevice b) b
  end.

Definition liveRequest (requestId : string) (now : Z) (b : TunnelBroker)
    : option Request * TunnelBroker :=
  match requests b !! requestId with
  | None => (None, b)
  | Some request =>
      if rq_expiresAt request <=? now then (None, dropRequest requestId b)
      else (Some request, b)
  end.

(** Deliver to the browser, buffering until its socket attaches. *)
Definition toBrowser (requestId : string) (message : RequestServerMessage) (b : TunnelBroker)
    : TunnelBroker :=
  match requests b !! requestId with
  | None => b
  | Some request =>
      match rq_browser request with
      | Some s => out [SendRequest s message] b
      | None =>
          if decide (length (rq_pending request) < MAX_PENDING_REQUEST)%nat
          then set_request requestId
                 (rq_with_browser None (rq_pending request ++ [message]) request) b
          else b
      end
  end.

Inductive RequestResult :=
| Refused (status : Z)
| Opened (status : Z) (requestId : string) (expiresAt : Z).

(** Whether the request this machine already has is still undecided. *)
Definition has_pending (deviceId : string) (now : Z) (b : TunnelBroker) : bool * TunnelBroker :=
  match pendingByDevice b !! deviceId with
  | None => (false, b)
  | Some existing =>
      let '(live, b) := liveRequest existing now b in
      (if live is Some _ then true else false, b)
  end.

Definition pairRequest (deviceId deviceLabel accountEmail newId : string) (now : Z)
    (b : TunnelBroker) : RequestResult * TunnelBroker :=
  let '(tunnel, g) := byDevice deviceId now (reg b) in
  let b := set_reg g b in
  match tunnel with
  | None => (Refused 409, b)
  | Some _ =>
      let '(busy, b) := has_pending deviceId now b in
      if busy then (Refused 409, b)
      else
        let request := mkRequest newId deviceId (now + REQUEST_TTL_MS) deviceLabel accountEmail
                         false None [] in
        (Opened 200 newId (now + REQUEST_TTL_MS),
         set_requests (<[newId := request]> (requests b))
           (<[deviceId := newId]> (pendingByDevice b)) b)
  end.

(** ** Metering *)

(** [ownerOfDevice] found the account: [tunnel.userId = owner.userId]. *)
Definition meter_owner (r : ref) (userId : string) (b : TunnelBroker) : TunnelBroker :=
  set_reg (update r (tn_with_userId (Some userId)) (reg b)) b.

(** [checkTunnel] refused: block the tunnel and close it. *)
Definition meter_blocked (r : ref) (reason : option string) (b : TunnelBroker) : TunnelBroker :=
  match tunnelObjs (reg b) !! r with
  | None => b
  | Some tunnel =>
      let g := update r (tn_with_blocked (Some (default "Plan limit reached" reason))) (reg b) in
      set_reg (close (tn_id tunnel) closed_quota_exceeded g) b
  end.

(** Fold a finished tunnel's totals into its owner's usage. *)
Definition settle (tunnel : Tunnel) (now : Z) (b : TunnelBroker) : TunnelBroker :=
  match tn_userId tunnel with
  | None => b
  | Some userId =>
      let seconds := Z.max 0 ((now - tn_createdAt tunnel + 500) / 1000) in
      set_usage (usage b ++ [(userId, tn_bytes tunnel, seconds)]) b
  end.

(** ** WS /v1/agent *)

Section Agent.
Context `{!HmacText, !Hex, !Sha256, !Ed25519}.

Definition attachAgentSocket (s : sock) (challenge : bytes) (b : TunnelBroker) : TunnelBroker :=
  set_agents (<[s := mkAgent challenge None]> (agents b))
    (out [SendTunnel s (TunnelChallengeMessage (bytesToHex challenge))] b).

(** The three checks of a registration; [None]: [hexToBytes] threw. *)
Definition okRegistration (challenge : bytes) (deviceId publicKey echoed signature : string)
    : option bool :=
  match hexToBytes publicKey with
  | Err _ => None
  | Ok pk =>
      if negb (bool_decide (echoed = bytesToHex challenge)) then Some false
      else match hexToBytes signature with
           | Err _ => None
           | Ok sig => Some (verifyChallenge pk challenge sig
                             && bool_decide (deviceIdFor pk = deviceId))
           end
  end.

Definition agent_register (s : sock) (challenge : bytes) (msg : TunnelClientMessage) (now : Z)
    (b : TunnelBroker) : TunnelBroker :=
  match msg with
  | TunnelRegisterMessage deviceId publicKey echoed signature =>
      match okRegistration challenge deviceId publicKey echoed signature with
      | None => b
      | Some false => out [CloseSocket s 1008] b
      | Some true =>
          let '(r, g) := register deviceId publicKey s now (reg b) in
          match tunnelObjs g !! r with
          | None => b
          | Some tunnel =>
              out [SendTunnel s (TunnelReadyMessage (tn_id tunnel))]
                (set_agents (<[s := mkAgent challenge (Some (tn_id tunnel))]> (agents b))
                   (set_reg g b))
          end
      end
  | _ => out [CloseSocket s 1008] b
  end.

(** The three answers of a machine: request id, message, and whether it ends
    the request. *)
Definition answer_of (msg : TunnelClientMessage) : option (string * RequestServerMessage * bool) :=
  match msg with
  | PairRequestAckMessage id k => Some (id, RequestAck id k, false)
  | PairApprovedMessage id d => Some (id, RequestApproved id d, true)
  | PairDeniedMessage id r => Some (id, RequestDenied id r, true)
  | _ => None
  end.

Definition agent_answer (tunnel : Tunnel) (requestId : string) (message : RequestServerMessage)
    (final : bool) (now : Z) (b : TunnelBroker) : TunnelBroker :=
  let '(request, b) := liveRequest requestId now b in
  match request with
  | None => b
  | Some request =>
      if decide (rq_deviceId request <> tn_deviceId tunnel) then b
      else
        let b := toBrowser requestId message b in
        if final then dropRequest requestId b else b
  end.

(** A frame from the machine, charged and passed to the stream's browser. *)
Definition agent_frame (s : sock) (r : ref) (streamId data : string) (b : TunnelBroker)
    : TunnelBroker :=
  let '(ok, g) := charge r (Z.of_nat (String.length data)) (reg b) in
  let b := set_reg g b in
  if negb ok then out [CloseSocket s 1008] b
  else
    match tunnelObjs g !! r with
    | None => b
    | Some tunnel =>
        match assoc_get streamId (tn_streams tunnel) with
        | None => b
        | Some stream => out (to_browser (TunnelServerFrame streamId data) stream) b
        end
    end.

Definition agent_registered (s : sock) (tunnelId : string) (msg : TunnelClientMessage) (now : Z)
    (b : TunnelBroker) : TunnelBroker :=
  let '(found, g) := get tunnelId now (reg b) in
  let b := set_reg g b in
  match found with
  | None => out [CloseSocket s 1000] b
  | Some (r, tunnel) =>
      match msg with
      | TunnelStreamCloseMessage streamId reason =>
          set_reg (closeStream r streamId reason (reg b)) b
      | TunnelFrameMessage streamId data => agent_frame s r streamId data b
      | TunnelRegisterMessage _ _ _ _ => out [CloseSocket s 1008] b
      | _ => match answer_of msg with
             | Some (requestId, message, final) => agent_answer tunnel requestId message final now b
             | None => b
             end
      end
  end.

Definition agent_message (s : sock) (parsed : option TunnelClientMessage) (now : Z)
    (b : TunnelBroker) : TunnelBroker :=
  match agents b !! s with
  | None => b
  | Some h =>
      match parsed with
      | None => out [CloseSocket s 1008] b
      | Some msg =>
          match ag_tunnelId h with
          | None => agent_register s (ag_challenge h) msg now b
          | Some tunnelId => agent_registered s tunnelId msg now b
          end
      end
  end.

Definition agent_close (s : sock) (now : Z) (b : TunnelBroker) : TunnelBroker :=
  match agents b !! s with
  | Some (mkAgent _ (Some tunnelId)) =>
      let '(tunnel, g) := get tunnelId now (reg b) in
      let b := set_reg g b in
      let b := match tunnel with Some (_, t) => settle t now b | None => b end in
      set_reg (close tunnelId closed_agent_gone (reg b)) b
  | _ => b
  end.
End Agent.

(** ** WS /v1/request/:requestId *)

Definition attachRequestSocket (requestId : string) (s : sock) (now : Z) (b : TunnelBroker)
    : TunnelBroker :=
  let '(request, b) := liveRequest requestId now b in
  match request with
  | None => out [SendRequest s (RequestDenied requestId unknown_request); CloseSocket s 1008] b
  | Some request =>
      match rq_browser request with
      | Some _ => out [CloseSocket s 1008] b
      | None =>
          let b := set_request requestId (rq_with_browser (Some s) [] request) b in
          let b := out (map (SendRequest s) (rq_pending request)) b in
          set_askers (<[s := requestId]> (askers b)) b
      end
  end.

(** A commitment or a key, for the machine of a live request. *)
Definition request_forward (requestId : string) (live : Request) (agent : sock)
    (msg : RequestClientMessage) (b : TunnelBroker) : TunnelBroker :=
  match msg with
  | PairCommitMessage _ commitment =>
      if rq_forwarded live then b
      else out [SendTunnel agent (PairRequestMessage requestId commitment
                  (rq_deviceLabel live) (rq_accountEmail live))]
             (set_request requestId (rq_with_forwarded live) b)
  | PairRevealMessage mrequestId browserPublicKey =>
      if negb (rq_forwarded live) then b
      else out [SendTunnel agent (PairServerReveal mrequestId browserPublicKey)] b
  end.

Definition request_message (s : sock) (parsed : option RequestClientMessage) (now : Z)
    (b : TunnelBroker) : TunnelBroker :=
  match askers b !! s with
  | None => b
  | Some requestId =>
      match parsed with
      | None => out [CloseSocket s 1008] b
      | Some msg =>
          let '(live, b) := liveRequest requestId now b in
          match live with
          | None => out [SendRequest s (RequestDenied requestId timeout); CloseSocket s 1000] b
          | Some live =>
              let '(tunnel, g) := byDevice (rq_deviceId live) now (reg b) in
              let b := set_reg g b in
              match tunnel with
              | None => dropRequest requestId
                          (out [SendRequest s (RequestDenied requestId agent_gone)] b)
              | Some (_, tunnel) => request_forward requestId live (tn_agent tunnel) msg b
              end
          end
      end
  end.

Definition request_close (s : sock) (b : TunnelBroker) : TunnelBroker :=
  match askers b !! s with
  | None => b
  | Some requestId => dropRequest requestId b
  end.

(** ** WS /v1/tunnel/:tunnelId *)

Definition attachTunnelSocket (tunnelId : string) (s : sock) (newId : string) (now : Z)
    (b : TunnelBroker) : TunnelBroker :=
  let '(found, g) := get tunnelId now (reg b) in
  let b := set_reg g b in
  match found with
  | None => out [SendTunnel s (TunnelClosedMessage closed_agent_gone); CloseSocket s 1008] b
  | Some (r, _) =>
      match openStream r s newId now g with
      | (None, _) =>
          out [SendTunnel s (TunnelClosedMessage closed_quota_exceeded); CloseSocket s 1008] b
      | (Some stream, g) =>
          set_viewers (<[s := mkViewer tunnelId r (sm_id stream)]> (viewers b))
            (out [SendTunnel s (TunnelStreamOpenMessage (sm_id stream))] (set_reg g b))
      end
  end.

Definition viewer_frame (s : sock) (r : ref) (streamId data : string) (b : TunnelBroker)
    : TunnelBroker :=
  let '(ok, g) := charge r (Z.of_nat (String.length data)) (reg b) in
  let b := set_reg g b in
  if negb ok then out [CloseSocket s 1008] b
  else
    match tunnelObjs g !! r with
    | None => b
    | Some tunnel => out [SendTunnel (tn_agent tunnel) (TunnelServerFrame streamId data)] b
    end.

Definition tunnel_message (s : sock) (parsed : option TunnelClientMessage) (b : TunnelBroker)
    : TunnelBroker :=
  match viewers b !! s with
  | None => b
  | Some (mkViewer _ r streamId) =>
      match parsed with
      | None => out [CloseSocket s 1008] b
      | Some (TunnelStreamCloseMessage id reason) =>
          if decide (id <> streamId) then out [CloseSocket s 1008] b
          else out [CloseSocket s 1000] (set_reg (closeStream r streamId reason (reg b)) b)
      | Some (TunnelFrameMessage id data) =>
          if decide (id <> streamId) then out [CloseSocket s 1008] b
          else viewer_frame s r streamId data b
      | Some _ => out [CloseSocket s 1008] b
      end
  end.

Definition tunnel_close (s : sock) (now : Z) (b : TunnelBroker) : TunnelBroker :=
  match viewers b !! s with
  | None => b
  | Some (mkViewer tunnelId _ streamId) =>
      let '(live, g) := get tunnelId now (reg b) in
      set_reg (match live with
               | Some (r, _) => closeStream r streamId (Some "browser-gone"%string) g
               | None => g
               end) b
  end.

(** ** The periodic cleanup *)

Definition sweepRequests (now : Z) (b : TunnelBroker) : TunnelBroker :=
  foldr (fun requestId b => (liveRequest requestId now b).2) b
    (map fst (map_to_list (requests b))).

Definition sweepTunnels (now : Z) (b : TunnelBroker) : TunnelBroker :=
  let b := sweepRequests now b in set_reg (sweep now (reg b)) b.
