(* ===== verification/TunnelSafety.v ===== *)
(** * TunnelSafety: the tunnel registry's invariant

    What every operation of [Tunnel] does to the registry ([reg_step]): the
    objects keep their identity, what was written stays written, nothing
    rotates an id, and the invariant [reg_wf] (one tunnel per device, quotas
    respected) is preserved. *)

From S2P Require Import Prelude Protocol Bytes Noble Tunnel.

(** ** The step relation on registries *)

(** An object keeps its identity, its deadline and its agent. *)
Definition tn_evolves (t t' : Tunnel) : Prop :=
  tn_id t' = tn_id t /\ tn_deviceId t' = tn_deviceId t /\ tn_publicKey t' = tn_publicKey t /\
  tn_createdAt t' = tn_createdAt t /\ tn_expiresAt t' = tn_expiresAt t /\ tn_agent t' = tn_agent t.

#[export] Instance tn_evolves_preorder : PreOrder tn_evolves.
Proof.
  split; [by intros t; repeat split|].
  intros a b c (?&?&?&?&?&?) (?&?&?&?&?&?). repeat split; congruence.
Qed.

(** Everything but the messages of an access request: the prompt and the key a
    machine is sent, and what a browser is answered. *)
Definition plain (o : output) : Prop :=
  match o with
  | SendTunnel _ (PairRequestMessage _ _ _ _) | SendTunnel _ (PairServerReveal _ _)
  | SendRequest _ _ => False
  | _ => True
  end.

(** What was written stays written, followed by plain messages. *)
Definition plainly (l l' : list output) : Prop := exists os, l' = l ++ os /\ Forall plain os.

#[export] Instance plainly_preorder : PreOrder plainly.
Proof.
  split.
  - intros l. exists []. by rewrite app_nil_r.
  - intros a b c (o1 & -> & H1) (o2 & -> & H2). exists (o1 ++ o2).
    rewrite app_assoc. split; [done|]. by apply Forall_app.
Qed.

Record reg_le (g g' : Registry) : Prop := mkRegLe {
  rl_quotas : quotas g' = quotas g;
  rl_secret : idSecret g' = idSecret g;
  rl_epochs : epochs g' = epochs g;
  rl_written : plainly (written g) (written g');
  rl_objs : forall r t, tunnelObjs g !! r = Some t ->
    exists t', tunnelObjs g' !! r = Some t' /\ tn_evolves t t';
}.

#[export] Instance reg_le_preorder : PreOrder reg_le.
Proof.
  split.
  - intros g. split; try done. intros r t Ht. by exists t.
  - intros a b c [] []. split; [congruence..|by etrans|].
    intros r t Ht. destruct (rl_objs0 _ _ Ht) as (t' & Ht' & He).
    destruct (rl_objs1 _ _ Ht') as (t'' & Ht'' & He'). exists t''. split; [done|by etrans].
Qed.

(** ** The invariant *)

Record tunnel_ok (g : Registry) (id : string) (t : Tunnel) : Prop := mkTunnelOk {
  to_id : tn_id t = id;
  to_device : byDeviceId g !! tn_deviceId t = Some id;
  to_bytes : tn_bytes t <= maxBytes (quotas g);
}.

Record reg_wf (g : Registry) : Prop := mkRegWf {
  rw_live : forall id r, assoc_get id (tunnels g) = Some r ->
    exists t, tunnelObjs g !! r = Some t /\ tunnel_ok g id t;
  rw_nodup : NoDup (map fst (tunnels g));
  rw_fresh : forall r t, tunnelObjs g !! r = Some t -> (r < nextRef g)%nat;
  rw_streams : forall r t, tunnelObjs g !! r = Some t ->
    Z.of_nat (length (tn_streams t)) <= maxStreams (quotas g);
  rw_quotas : 0 <= maxBytes (quotas g) /\ 0 <= maxStreams (quotas g);
}.

Definition reg_step (g g' : Registry) : Prop := reg_wf g -> reg_le g g' /\ reg_wf g'.

#[export] Instance reg_step_preorder : PreOrder reg_step.
Proof.
  split.
  - by intros g.
  - intros a b c Hab Hbc Ha. destruct (Hab Ha) as [? Hb]. destruct (Hbc Hb).
    split; [by etrans|done].
Qed.

Lemma createTunnelRegistry_wf q secret :
  0 <= maxBytes q -> 0 <= maxStreams q -> reg_wf (createTunnelRegistry q secret).
Proof. intros. split; simpl; try done. apply NoDup_nil_2. Qed.

(** ** Small operations *)

Lemma write_wf os g : reg_wf g -> reg_wf (write os g).
Proof.
  intros []. split; try done. intros id r Hr. destruct (rw_live0 _ _ Hr) as (t & Ht & []).
  by exists t.
Qed.

Lemma write_step os g : Forall plain os -> reg_step g (write os g).
Proof.
  intros Hos Hwf. split.
  - split; try done; [by exists os|]. intros r t Ht. by exists t.
  - by apply write_wf.
Qed.

(** Mutating an object's counters and flags. *)
Lemma update_step r f g :
  (forall t, tn_evolves t (f t)) ->
  (forall id t, assoc_get id (tunnels g) = Some r -> tunnelObjs g !! r = Some t ->
     tn_bytes (f t) <= Z.max (tn_bytes t) (maxBytes (quotas g))) ->
  (forall t, tunnelObjs g !! r = Some t ->
     Z.of_nat (length (tn_streams (f t))) <=
     Z.max (Z.of_nat (length (tn_streams t))) (maxStreams (quotas g))) ->
  reg_step g (update r f g).
Proof.
  intros He Hb Hs Hwf. split.
  - split; try done. simpl. intros r' t Ht. rewrite lookup_alter.
    case_decide; subst; rewrite Ht; simpl; by eexists.
  - destruct Hwf. split; simpl; try done.
    + intros id r' Hr. destruct (rw_live0 _ _ Hr) as (t & Ht & [? ? ?]). rewrite lookup_alter.
      destruct (He t) as (Hi & Hd & _). case_decide; subst; rewrite Ht; simpl.
      * eexists. split; [done|]. split; [congruence|by rewrite Hd|].
        specialize (Hb _ _ Hr Ht). simpl. lia.
      * by exists t.
    + intros r' t. rewrite lookup_alter. case_decide; subst; [|by apply rw_fresh0].
      destruct (tunnelObjs g !! r') eqn:Ht; simpl; [|done]. intros _. by eapply rw_fresh0.
    + intros r' t. rewrite lookup_alter. case_decide; subst; [|by apply rw_streams0].
      destruct (tunnelObjs g !! r') as [t0|] eqn:Ht; simpl; [|done]. intros [= <-].
      specialize (Hs _ eq_refl). specialize (rw_streams0 _ _ Ht). simpl. lia.
Qed.

(** Removing a tunnel from the two maps. *)
Lemma unmap_step id t r g :
  tunnel_at g id = Some (r, t) ->
  reg_step g (set_maps (assoc_del id (tunnels g))
    (if decide (byDeviceId g !! tn_deviceId t = Some id)
     then delete (tn_deviceId t) (byDeviceId g) else byDeviceId g) g).
Proof.
  intros Hat Hwf. split; [split; try done; intros r' t' Ht; by exists t'|].
  destruct Hwf. split; simpl; try done; [|by apply assoc_del_NoDup].
  intros id' r' [Hne Hr]%assoc_get_del. destruct (rw_live0 _ _ Hr) as (t' & Ht' & [? ? ?]).
  exists t'. split; [done|]. split; [done| |done]. simpl.
  case_decide; [|done]. rewrite lookup_delete_ne; [done|]. congruence.
Qed.

Lemma tunnel_at_write os g id : tunnel_at (write os g) id = tunnel_at g id.
Proof. done. Qed.

Lemma to_browser_plain m st :
  (forall s, plain (SendTunnel s m)) -> Forall plain (to_browser m st).
Proof. intros Hm. unfold to_browser. case_match; repeat constructor. apply Hm. Qed.

(** ** The operations *)

Lemma drop_step id reason g : reason <> closed_revoked -> reg_step g (drop id reason g).
Proof.
  intros Hr. unfold drop. destruct (tunnel_at g id) as [[r t]|] eqn:Hat; [|done].
  rewrite decide_False by done.
  etrans; [apply (write_step (tn_streams t ≫= fun e => to_browser (TunnelClosedMessage reason) e.2))|].
  { apply Forall_bind, Forall_forall. intros e _. by apply to_browser_plain. }
  etrans; [apply (update_step r (tn_with_streams []))|].
  - intros t'. repeat split.
  - intros id' t' _ _. simpl. lia.
  - intros t' _. simpl. lia.
  - etrans; [apply (write_step [SendTunnel (tn_agent t) (TunnelClosedMessage reason)]);
      by repeat constructor|].
    apply (unmap_step id (tn_with_streams [] t) r).
    unfold tunnel_at in *. simpl.
    destruct (assoc_get id (tunnels g)) as [r'|]; simpl in *; [|done].
    destruct (tunnelObjs g !! r') as [t'|] eqn:Ht'; simpl in *; simplify_eq.
    by rewrite lookup_alter, decide_True, Ht'.
Qed.

Lemma drop_gone id reason g : reg_wf g -> assoc_get id (tunnels (drop id reason g)) = None.
Proof.
  intros Hwf. unfold drop. destruct (tunnel_at g id) as [[r t]|] eqn:Hat.
  - case_decide; simpl; apply assoc_get_del_eq.
  - unfold tunnel_at in Hat. destruct (assoc_get id (tunnels g)) as [r|] eqn:Hr; [|done].
    destruct (rw_live _ Hwf _ _ Hr) as (t & Ht & _). simpl in Hat. by rewrite Ht in Hat.
Qed.

(** After a drop, a device has no tunnel or the one it had under another id. *)
Lemma drop_device id reason g d id' :
  byDeviceId (drop id reason g) !! d = Some id' -> byDeviceId g !! d = Some id'.
Proof.
  unfold drop. destruct (tunnel_at g id) as [[r t]|]; [|done].
  assert (forall m : gmap string string, (if decide (m !! tn_deviceId t = Some id)
    then delete (tn_deviceId t) m else m) !! d = Some id' -> m !! d = Some id') as Hm.
  { intros m. case_decide; [|done]. rewrite lookup_delete. by case_decide. }
  case_decide; simpl; apply Hm.
Qed.

Lemma drop_tunnels id reason g id' r :
  assoc_get id' (tunnels (drop id reason g)) = Some r -> assoc_get id' (tunnels g) = Some r.
Proof.
  unfold drop. destruct (tunnel_at g id) as [[r0 t]|]; [|done].
  case_decide; simpl; by intros [_ ?]%assoc_get_del.
Qed.

Lemma drop_wf id reason g : reason <> closed_revoked -> reg_wf g -> reg_wf (drop id reason g).
Proof. intros Hr Hwf. by apply drop_step. Qed.

(** The state [register] builds its tunnel in: the device has none. *)
Definition evicted (deviceId : string) (g : Registry) : Registry :=
  match byDeviceId g !! deviceId with
  | Some existing => drop existing closed_agent_gone g
  | None => g
  end.

Lemma evicted_step d g : reg_step g (evicted d g).
Proof. unfold evicted. case_match; [by apply drop_step|done]. Qed.

Lemma evicted_none d g id r t :
  reg_wf g -> assoc_get id (tunnels (evicted d g)) = Some r ->
  tunnelObjs (evicted d g) !! r = Some t -> tn_deviceId t <> d.
Proof.
  intros Hwf Hr Ht Hd. destruct (evicted_step d g Hwf) as [_ Hwf'].
  destruct (rw_live _ Hwf' _ _ Hr) as (t' & Ht' & Hok). simplify_eq.
  pose proof (to_device _ _ _ Hok) as Hdev. unfold evicted in Hdev, Hr.
  destruct (byDeviceId g !! tn_deviceId t) as [e|] eqn:He; [|congruence].
  pose proof (drop_device _ _ _ _ _ Hdev) as Hdev'. rewrite He in Hdev'. simplify_eq.
  by rewrite drop_gone in Hr.
Qed.

(** A new object, entered in both maps, for a device that has no tunnel. *)
Lemma enroll_step t g :
  tn_bytes t = 0 -> tn_streams t = [] ->
  (forall id r t', assoc_get id (tunnels g) = Some r -> tunnelObjs g !! r = Some t' ->
     tn_deviceId t' <> tn_deviceId t) ->
  reg_step g (set_maps (assoc_set (tn_id t) (nextRef g) (tunnels g))
    (<[tn_deviceId t := tn_id t]> (byDeviceId g)) (allocate t g).2).
Proof.
  intros Hb Hs Hnone Hwf.
  assert (forall r t', tunnelObjs g !! r = Some t' ->
    <[nextRef g := t]> (tunnelObjs g) !! r = Some t') as Hkeep.
  { intros r t' Ht'. rewrite lookup_insert_ne; [done|].
    pose proof (rw_fresh _ Hwf _ _ Ht'). lia. }
  split.
  - split; try done. intros r t' Ht'. exists t'. split; [by apply Hkeep|done].
  - destruct Hwf as [Hl Hn Hf Hst Hq]. split; simpl; [| | | |done].
    + intros id r. destruct (decide (id = tn_id t)) as [->|Hne].
      * rewrite assoc_get_set_eq. intros. simplify_eq. rewrite lookup_insert_eq.
        exists t. split; [done|]. split; [done|simpl; by rewrite lookup_insert_eq|simpl; lia].
      * rewrite assoc_get_set_ne by done. intros Hr.
        destruct (Hl _ _ Hr) as (t' & Ht' & [Hi Hd Hby]). exists t'. split; [by apply Hkeep|].
        split; [done| |done]. simpl. rewrite lookup_insert_ne; [done|].
        apply not_eq_sym. by apply (Hnone id r).
    + by apply assoc_set_NoDup.
    + intros r t'. destruct (decide (nextRef g = r)) as [<-|Hne]; [lia|].
      rewrite lookup_insert_ne by done. intros Ht'. pose proof (Hf _ _ Ht'). lia.
    + intros r t'. destruct (decide (nextRef g = r)) as [<-|Hne].
      * rewrite lookup_insert_eq. intros. simplify_eq. rewrite Hs. simpl. lia.
      * rewrite lookup_insert_ne by done. apply Hst.
Qed.

Section Register.
Context `{!HmacText}.

(** The tunnel a registration makes, in the state it makes it in. *)
Definition enrolled (d pk : string) (s : sock) (now : Z) (g : Registry) : Tunnel :=
  mkTunnel (deriveTunnelId (idSecret g) d (default 0 (epochs g !! d))) d pk now
    (now + maxMinutes (quotas g) * 60000) 0 None None s [].

Lemma register_eq d pk s now g :
  register d pk s now g =
  (let g1 := evicted d g in let t := enrolled d pk s now g1 in
   (nextRef g1, set_maps (assoc_set (tn_id t) (nextRef g1) (tunnels g1))
     (<[tn_deviceId t := tn_id t]> (byDeviceId g1)) (allocate t g1).2)).
Proof. done. Qed.

Lemma register_step d pk s now g : reg_step g (register d pk s now g).2.
Proof.
  intros Hwf. rewrite register_eq. cbv zeta. cbn [snd].
  destruct (evicted_step d g Hwf) as [Hle Hwf1].
  destruct (enroll_step (enrolled d pk s now (evicted d g)) (evicted d g)) as [Hle2 Hwf2];
    [done|done| |done|split; [by etrans|done]].
  intros id r t. by apply evicted_none.
Qed.

(** The registered tunnel: live, under the derived id, empty. *)
Lemma register_tunnel d pk s now g :
  let '(r, g') := register d pk s now g in
  let t := enrolled d pk s now (evicted d g) in
  tunnelObjs g' !! r = Some t /\ assoc_get (tn_id t) (tunnels g') = Some r /\
  byDeviceId g' !! d = Some (tn_id t).
Proof.
  rewrite register_eq. cbv zeta. simpl.
  by rewrite !lookup_insert_eq, assoc_get_set_eq.
Qed.
End Register.

Lemma get_step id now g : reg_step g (get id now g).2.
Proof.
  unfold get. destruct (tunnel_at g id) as [[r t]|]; [|done].
  case_match; [by apply drop_step|done].
Qed.

Lemma byDevice_step d now g : reg_step g (byDevice d now g).2.
Proof. unfold byDevice. case_match; [apply get_step|done]. Qed.

Lemma tunnel_at_Some g id r t :
  tunnel_at g id = Some (r, t) <-> assoc_get id (tunnels g) = Some r /\ tunnelObjs g !! r = Some t.
Proof.
  unfold tunnel_at. destruct (assoc_get id (tunnels g)) as [r'|]; simpl; [|naive_solver].
  destruct (tunnelObjs g !! r') as [t'|] eqn:Ht; simpl; naive_solver.
Qed.

Lemma get_Some id now g r t g' :
  get id now g = (Some (r, t), g') ->
  g' = g /\ assoc_get id (tunnels g) = Some r /\ tunnelObjs g !! r = Some t /\ now < tn_expiresAt t.
Proof.
  unfold get. destruct (tunnel_at g id) as [[r' t']|] eqn:Hat; [|done].
  case_match eqn:He; [done|]. intros [= <- <- <-]. apply tunnel_at_Some in Hat as [? ?].
  repeat split; try done. lia.
Qed.

Lemma openStream_step r s newId now g : reg_step g (openStream r s newId now g).2.
Proof.
  unfold openStream. destruct (tunnelObjs g !! r) as [t|] eqn:Ht; [|done].
  destruct (tn_blocked t); [done|]. case_match eqn:Hcap; [done|]. simpl.
  etrans; [apply (update_step r)|apply write_step; by repeat constructor].
  - intros t'. repeat split.
  - intros id' t' _ ?. simplify_eq. simpl. lia.
  - intros t' ?. simplify_eq. simpl.
    pose proof (assoc_set_length newId (mkStream newId now (Some s)) (tn_streams t)). lia.
Qed.

Lemma closeStream_step r id reason g : reg_step g (closeStream r id reason g).
Proof.
  unfold closeStream. destruct (tunnelObjs g !! r) as [t|] eqn:Ht; [|done].
  destruct (assoc_get id (tn_streams t)) as [st|]; [|done].
  etrans; [apply (update_step r)|etrans; apply write_step];
    [..|by apply to_browser_plain|by repeat constructor].
  - intros t'. repeat split.
  - intros id' t' _ ?. simplify_eq. simpl. lia.
  - intros t' ?. simplify_eq. simpl. pose proof (assoc_del_length id (tn_streams t)). lia.
Qed.

(** Charging an object and dropping its id commute. *)
Lemma drop_update_bytes id reason r n g :
  drop id reason (update r (tn_with_bytes n) g) = update r (tn_with_bytes n) (drop id reason g).
Proof.
  assert (forall r' (m : gmap ref Tunnel),
    alter (tn_with_streams []) r' (alter (tn_with_bytes n) r m) =
    alter (tn_with_bytes n) r (alter (tn_with_streams []) r' m)) as Hcomm.
  { intros r' m. apply map_eq. intros i. rewrite !lookup_alter.
    repeat case_decide; subst; by destruct (m !! _). }
  unfold drop. destruct (tunnel_at g id) as [[r' t]|] eqn:Hat.
  - apply tunnel_at_Some in Hat as [Hr Ht].
    assert (tunnel_at (update r (tn_with_bytes n) g) id =
      Some (r', if decide (r = r') then tn_with_bytes n t else t)) as ->.
    { apply tunnel_at_Some. split; [done|]. simpl. rewrite lookup_alter.
      case_decide; subst; by rewrite Ht. }
    unfold update, set_objs, write, set_maps, set_epochs. simpl. rewrite Hcomm.
    destruct (decide (r = r')); simpl; by case_decide.
  - assert (tunnel_at (update r (tn_with_bytes n) g) id = None) as ->; [|done].
    unfold tunnel_at in *. simpl. destruct (assoc_get id (tunnels g)) as [r'|]; [|done].
    simpl in *. rewrite lookup_alter. destruct (tunnelObjs g !! r') eqn:Ht; [done|].
    by case_decide; subst; rewrite ?Ht.
Qed.

Lemma charge_step r n g : reg_step g (charge r n g).2.
Proof.
  unfold charge. destruct (tunnelObjs g !! r) as [t|] eqn:Ht; [|done].
  case_match eqn:Hover; simpl.
  - rewrite drop_update_bytes. intros Hwf.
    destruct (drop_step (tn_id t) closed_quota_exceeded g ltac:(done) Hwf) as [Hle Hwf1].
    destruct (update_step r (tn_with_bytes (tn_bytes t + n)) (drop (tn_id t) closed_quota_exceeded g))
      as [Hle2 Hwf2]; [by repeat split| |intros t' _; simpl; lia|done|split; [by etrans|done]].
    intros id t' Hr _. exfalso. pose proof (drop_tunnels _ _ _ _ _ Hr) as Hr0.
    destruct (rw_live _ Hwf _ _ Hr0) as (t0 & Ht0 & Hok). simplify_eq.
    rewrite (to_id _ _ _ Hok), drop_gone in Hr by done. done.
  - apply update_step; [by repeat split| |intros t' _; simpl; lia].
    intros id t' _ Ht'. simplify_eq. simpl in *. lia.
Qed.

Lemma sweepIds_step ids now g : reg_step g (sweepIds ids now g).
Proof.
  revert g. induction ids as [|id ids IH]; intros g; [done|]. simpl.
  destruct (tunnel_at g id) as [[r t]|]; [|apply IH].
  case_match; [|apply IH].
  etrans; [apply (drop_step id closed_expired); done|apply IH].
Qed.

Lemma tunnels_sweep_step now g : reg_step g (sweep now g).
Proof. apply sweepIds_step. Qed.

Lemma attachBrowser_step r id s g : reg_step g (attachBrowser r id s g).2.
Proof.
  unfold attachBrowser. destruct (tunnelObjs g !! r) as [t|] eqn:Ht; [|done].
  destruct (assoc_get id (tn_streams t)) as [st|] eqn:Hst; [|done]. simpl.
  apply update_step; [by repeat split|intros id' t' _ ?; simplify_eq; simpl; lia|].
  intros t' ?. simplify_eq. simpl. rewrite (assoc_set_present id _ _ st) by done. lia.
Qed.

Create HintDb tunnel.
#[export] Hint Resolve write_step get_step byDevice_step openStream_step closeStream_step
  charge_step tunnels_sweep_step register_step : tunnel.

(** What the invariant says of one device and one tunnel. *)
Lemma one_tunnel_per_device g id1 id2 r1 r2 t1 t2 :
  reg_wf g -> tunnel_at g id1 = Some (r1, t1) -> tunnel_at g id2 = Some (r2, t2) ->
  tn_deviceId t1 = tn_deviceId t2 -> id1 = id2 /\ r1 = r2.
Proof.
  intros Hwf [Hr1 Ht1]%tunnel_at_Some [Hr2 Ht2]%tunnel_at_Some Hd.
  destruct (rw_live _ Hwf _ _ Hr1) as (t1' & ? & Hok1).
  destruct (rw_live _ Hwf _ _ Hr2) as (t2' & ? & Hok2). simplify_eq.
  pose proof (to_device _ _ _ Hok1). pose proof (to_device _ _ _ Hok2).
  assert (id1 = id2) as <- by congruence. by simplify_eq.
Qed.
