(* ===== verification/AccessRequests.v ===== *)
(** * AccessRequests: what the tunnel broker guarantees

    The handlers of [TunnelBroker] as a transition system, the invariant of
    its requests, and the properties of every state it reaches: tunnels within
    their quotas and one per device, ids that survive reconnects, a machine
    that is asked once per request, after a commitment and before any key, and
    answers only from the machine that was asked. *)

From S2P Require Import Prelude Protocol Bytes Noble DeviceKey Tunnel TunnelBroker TunnelSafety.

(** ** Prompts *)

(** The prompt of request [rid], on any machine's socket. *)
Definition prompt_of (rid : string) (o : output) : bool :=
  match o with
  | SendTunnel _ (PairRequestMessage r _ _ _) => bool_decide (r = rid)
  | _ => false
  end.

Definition prompts (rid : string) (os : list output) : nat :=
  length (filter (fun o => prompt_of rid o = true) os).

Lemma prompts_app rid l1 l2 : prompts rid (l1 ++ l2) = (prompts rid l1 + prompts rid l2)%nat.
Proof. unfold prompts. by rewrite filter_app, length_app. Qed.

(** Everything but a prompt. *)
Definition quiet (o : output) : Prop :=
  match o with SendTunnel _ (PairRequestMessage _ _ _ _) => False | _ => True end.

Lemma quiet_no_prompt rid o : quiet o -> prompt_of rid o <> true.
Proof. by destruct o as [s m|s [] |s m|s c]. Qed.

Lemma prompts_quiet rid os : Forall quiet os -> prompts rid os = 0%nat.
Proof.
  intros Hos. unfold prompts. rewrite filter_none; [done|].
  rewrite Forall_forall in Hos. intros o Ho. by apply quiet_no_prompt, Hos.
Qed.

Lemma prompts_plainly rid l l' : plainly l l' -> prompts rid l' = prompts rid l.
Proof.
  intros (os & -> & Hos). rewrite prompts_app, (prompts_quiet rid os); [lia|].
  eapply Forall_impl; [exact Hos|]. by intros [s m|s [] |s m|s c].
Qed.

(** ** The invariant of the requests *)

Record req_inv (b : TunnelBroker) : Prop := mkReqInv {
  ri_pending : forall rid r, requests b !! rid = Some r ->
    rq_id r = rid /\ pendingByDevice b !! rq_deviceId r = Some rid;
  ri_once : forall rid, (prompts rid (written (reg b)) <= 1)%nat;
  ri_forwarded : forall rid r, requests b !! rid = Some r ->
    prompts rid (written (reg b)) = if rq_forwarded r then 1%nat else 0%nat;
}.

Section Invariant.
(** The quotas and the secret the broker was started with. *)
Context (q : Quotas) (secret : bytes).

Record reg_good (g : Registry) : Prop := mkRegGood {
  rg_wf : reg_wf g;
  rg_quotas : quotas g = q;
  rg_secret : idSecret g = secret;
  rg_epochs : epochs g = ∅;
}.

Definition broker_inv (b : TunnelBroker) : Prop := reg_good (reg b) /\ req_inv b.

Lemma reg_good_step g g' : reg_step g g' -> reg_good g -> reg_good g' /\ reg_le g g'.
Proof.
  intros Hs [Hwf ? ? ?]. destruct (Hs Hwf) as [Hle Hwf']. split; [|done].
  destruct Hle. split; [done|congruence..].
Qed.

(** Handlers that leave the requests alone. *)
Lemma inv_frame b b' :
  reg_step (reg b) (reg b') -> requests b' = requests b ->
  pendingByDevice b' = pendingByDevice b -> broker_inv b -> broker_inv b'.
Proof.
  intros Hstep Hr Hp [Hwf []]. destruct (reg_good_step _ _ Hstep Hwf) as [Hwf' Hle]. split; [done|].
  pose proof (fun rid => prompts_plainly rid _ _ (rl_written _ _ Hle)) as Hq.
  split; intros; rewrite ?Hq; rewrite ?Hr, ?Hp in *; eauto.
Qed.

Lemma out_inv os b : Forall quiet os -> broker_inv b -> broker_inv (out os b).
Proof.
  intros Hos [[] []]. split; [split; [by apply write_wf|done..]|].
  split; simpl; [done|..]; intros; rewrite prompts_app, (prompts_quiet _ os) by done;
    rewrite Nat.add_0_r; eauto.
Qed.

Lemma set_reg_inv g b : reg_step (reg b) g -> broker_inv b -> broker_inv (set_reg g b).
Proof. intros Hg. by apply inv_frame. Qed.

Lemma dropRequest_inv rid b : broker_inv b -> broker_inv (dropRequest rid b).
Proof.
  intros [Hwf []]. unfold dropRequest.
  destruct (requests b !! rid) as [r|] eqn:Hr; [|done]. split; [done|].
  split; simpl; [|done|].
  - intros rid' r' Hr'. apply lookup_delete_Some in Hr' as [Hne Hr'].
    destruct (ri_pending0 _ _ Hr') as [Hid Hp]. split; [done|].
    case_decide; [|done]. rewrite lookup_delete_ne; [done|]. congruence.
  - intros rid' r' Hr'. apply lookup_delete_Some in Hr' as [_ Hr']. by apply ri_forwarded0.
Qed.

Lemma liveRequest_inv rid now b : broker_inv b -> broker_inv (liveRequest rid now b).2.
Proof.
  intros Hi. unfold liveRequest. destruct (requests b !! rid); [|done].
  case_match; [by apply dropRequest_inv|done].
Qed.

Lemma liveRequest_Some rid now b r b' :
  liveRequest rid now b = (Some r, b') -> b' = b /\ requests b !! rid = Some r.
Proof.
  unfold liveRequest. destruct (requests b !! rid); [|done]. case_match; [done|]. by intros [= <- <-].
Qed.

(** Rewriting a request without touching what the invariant reads. *)
Lemma set_request_inv rid r r' b :
  requests b !! rid = Some r -> rq_id r' = rq_id r -> rq_deviceId r' = rq_deviceId r ->
  rq_forwarded r' = rq_forwarded r -> broker_inv b -> broker_inv (set_request rid r' b).
Proof.
  intros Hr Hid Hd Hf [Hwf []]. split; [done|]. split; simpl; [|done|].
  - intros rid' r0. destruct (decide (rid = rid')) as [<-|Hne].
    + rewrite lookup_insert_eq. intros. simplify_eq. rewrite Hid, Hd. by apply ri_pending0.
    + rewrite lookup_insert_ne by done. apply ri_pending0.
  - intros rid' r0. destruct (decide (rid = rid')) as [<-|Hne].
    + rewrite lookup_insert_eq. intros. simplify_eq. rewrite Hf. by apply ri_forwarded0.
    + rewrite lookup_insert_ne by done. apply ri_forwarded0.
Qed.

Lemma toBrowser_inv rid m b : broker_inv b -> broker_inv (toBrowser rid m b).
Proof.
  intros Hi. unfold toBrowser. destruct (requests b !! rid) as [r|] eqn:Hr; [|done].
  destruct (rq_browser r); [apply out_inv; [by repeat constructor|done]|].
  case_decide; [|done]. by eapply set_request_inv.
Qed.

(** ** Opening a request *)

Lemma has_pending_inv d now b : broker_inv b -> broker_inv (has_pending d now b).2.
Proof.
  intros Hi. unfold has_pending. destruct (pendingByDevice b !! d) as [e|]; [|done].
  pose proof (liveRequest_inv e now b Hi). by destruct (liveRequest e now b).
Qed.

(** A machine that is not busy has no request at all. *)
Lemma has_pending_false d now b rid r :
  broker_inv b -> (has_pending d now b).1 = false ->
  requests (has_pending d now b).2 !! rid = Some r -> rq_deviceId r <> d.
Proof.
  intros Hi. unfold has_pending. destruct (pendingByDevice b !! d) as [e|] eqn:He.
  - destruct (liveRequest e now b) as [[?|] b1] eqn:Hl; [done|]. simpl. intros _ Hr Hd.
    pose proof (liveRequest_inv e now b Hi) as [_ Hi']. rewrite Hl in Hi'. simpl in Hi'.
    destruct (ri_pending _ Hi' _ _ Hr) as [_ Hp]. unfold liveRequest in Hl.
    destruct (requests b !! e) as [re|] eqn:Hre.
    + case_match; simplify_eq. unfold dropRequest in Hr, Hp. rewrite Hre in Hr, Hp. simpl in *.
      apply lookup_delete_Some in Hr as [Hne Hr].
      destruct Hi as [_ Hi]. destruct (ri_pending _ Hi _ _ Hr) as [_ Hp']. congruence.
    + congruence.
  - simpl. intros _ Hr Hd. destruct Hi as [_ Hi].
    destruct (ri_pending _ Hi _ _ Hr) as [_ Hp]. congruence.
Qed.

(** A request id that has never been used. *)
Record request_fresh (rid : string) (b : TunnelBroker) : Prop := mkReqFresh {
  rf_none : requests b !! rid = None;
  rf_unseen : prompts rid (written (reg b)) = 0%nat;
}.

Lemma request_fresh_frame rid b b' :
  plainly (written (reg b)) (written (reg b')) -> requests b' ⊆ requests b ->
  request_fresh rid b -> request_fresh rid b'.
Proof.
  intros Hq Hsub [Hn Hu]. split; [|by rewrite (prompts_plainly rid _ _ Hq)].
  destruct (requests b' !! rid) eqn:Hr; [|done]. by rewrite (lookup_weaken _ _ _ _ Hr Hsub) in Hn.
Qed.

Lemma dropRequest_sub rid b :
  requests (dropRequest rid b) ⊆ requests b /\ reg (dropRequest rid b) = reg b.
Proof.
  unfold dropRequest. destruct (requests b !! rid); [|done]. simpl. split; [apply delete_subseteq|done].
Qed.

Lemma has_pending_sub d now b :
  requests (has_pending d now b).2 ⊆ requests b /\ reg (has_pending d now b).2 = reg b.
Proof.
  unfold has_pending, liveRequest. destruct (pendingByDevice b !! d) as [e|]; [|done].
  destruct (requests b !! e) as [r|]; [|done].
  destruct (rq_expiresAt r <=? now); [apply dropRequest_sub|done].
Qed.

Lemma pairRequest_inv d label email newId now b :
  request_fresh newId b -> broker_inv b ->
  broker_inv (pairRequest d label email newId now b).2.
Proof.
  intros Hf Hi. unfold pairRequest.
  pose proof (byDevice_step d now (reg b)) as Hstep.
  destruct (byDevice d now (reg b)) as [tun g]. simpl in Hstep.
  pose proof (set_reg_inv g b Hstep Hi) as Hi1.
  assert (request_fresh newId (set_reg g b)) as Hf1.
  { apply (request_fresh_frame newId b); [|done|exact Hf]. apply (rl_written _ _ (proj2 (reg_good_step _ _ Hstep (proj1 Hi)))). }
  destruct tun; [|done].
  pose proof (has_pending_inv d now _ Hi1) as Hi2.
  pose proof (has_pending_false d now (set_reg g b)) as Hfree.
  destruct (has_pending_sub d now (set_reg g b)) as [Hsub Hreg].
  destruct (has_pending d now (set_reg g b)) as [busy b2]. simpl in *.
  destruct busy; [done|]. simpl.
  assert (request_fresh newId b2) as [Hn Hu].
  { apply (request_fresh_frame newId (set_reg g b)); [|exact Hsub|exact Hf1]. by rewrite Hreg. }
  destruct Hi2 as [Hwf Hri]. split; [done|]. pose proof Hri as Hri0. destruct Hri. split; simpl; [|done|].
  - intros rid r. destruct (decide (newId = rid)) as [<-|Hne].
    + rewrite lookup_insert_eq. intros. simplify_eq/=. by rewrite lookup_insert_eq.
    + rewrite lookup_insert_ne by done. intros Hr. destruct (ri_pending0 _ _ Hr) as [? ?].
      split; [done|]. rewrite lookup_insert_ne; [done|].
      apply not_eq_sym. by apply (Hfree rid r).
  - intros rid r. destruct (decide (newId = rid)) as [<-|Hne].
    + rewrite lookup_insert_eq. intros. simplify_eq/=. done.
    + rewrite lookup_insert_ne by done. apply ri_forwarded0.
Qed.

(** ** Forwarding a commitment *)

Lemma prompt_of_iff rid s r c l e :
  prompt_of rid (SendTunnel s (PairRequestMessage r c l e)) = bool_decide (r = rid).
Proof. done. Qed.

Lemma prompts_one rid s r c l e :
  prompts rid [SendTunnel s (PairRequestMessage r c l e)] = if decide (r = rid) then 1%nat else 0%nat.
Proof.
  unfold prompts. rewrite filter_cons, prompt_of_iff. case_decide as Hp; simpl;
    case_decide; try done; apply bool_decide_eq_true in Hp || (exfalso; apply Hp, bool_decide_eq_true); done.
Qed.

Lemma commit_inv rid r agent c b :
  requests b !! rid = Some r -> rq_forwarded r = false -> broker_inv b ->
  broker_inv (out [SendTunnel agent (PairRequestMessage rid c (rq_deviceLabel r) (rq_accountEmail r))]
    (set_request rid (rq_with_forwarded r) b)).
Proof.
  intros Hr Hf [Hwf Hri]. split.
  - destruct Hwf. split; [by apply write_wf|done..].
  - destruct Hri. pose proof (ri_forwarded0 _ _ Hr) as Hz. rewrite Hf in Hz.
    split; simpl.
    + intros rid' r0. destruct (decide (rid = rid')) as [<-|Hne].
      * rewrite lookup_insert_eq. intros. simplify_eq. exact (ri_pending0 _ _ Hr).
      * rewrite lookup_insert_ne by done. apply ri_pending0.
    + intros rid'. rewrite prompts_app, prompts_one. specialize (ri_once0 rid').
      case_decide; subst; lia.
    + intros rid' r0. rewrite prompts_app, prompts_one. destruct (decide (rid = rid')) as [<-|Hne].
      * rewrite lookup_insert_eq. intros. simplify_eq. simpl. lia.
      * rewrite lookup_insert_ne by done. intros Hr0. rewrite (ri_forwarded0 _ _ Hr0). by case_match.
Qed.

Lemma request_forward_inv rid r agent msg b :
  requests b !! rid = Some r -> broker_inv b -> broker_inv (request_forward rid r agent msg b).
Proof.
  intros Hr Hi. destruct msg; simpl.
  - destruct (rq_forwarded r) eqn:Hf; [done|]. by apply commit_inv.
  - case_match; [done|]. by apply out_inv; [repeat constructor|].
Qed.

(** ** Every handler preserves the invariant *)

Ltac quiet_out := apply out_inv; [by repeat constructor|].


Context `{!HmacText, !Hex, !Sha256, !Ed25519}.

Lemma set_agents_inv h b : broker_inv b -> broker_inv (set_agents h b).
Proof. by apply inv_frame. Qed.
Lemma set_askers_inv h b : broker_inv b -> broker_inv (set_askers h b).
Proof. by apply inv_frame. Qed.
Lemma set_viewers_inv h b : broker_inv b -> broker_inv (set_viewers h b).
Proof. by apply inv_frame. Qed.
Lemma set_usage_inv u b : broker_inv b -> broker_inv (set_usage u b).
Proof. by apply inv_frame. Qed.

Lemma attachAgentSocket_inv s ch b : broker_inv b -> broker_inv (attachAgentSocket s ch b).
Proof. intros Hi. apply set_agents_inv. by quiet_out. Qed.

Lemma agent_register_inv s ch msg now b : broker_inv b -> broker_inv (agent_register s ch msg now b).
Proof.
  intros Hi. unfold agent_register. destruct msg; try by quiet_out.
  destruct (okRegistration _ _ _ _ _) as [[]|]; [|by quiet_out|done].
  pose proof (register_step deviceId publicKey s now (reg b)) as Hs.
  destruct (register deviceId publicKey s now (reg b)) as [r g]. simpl in Hs.
  destruct (tunnelObjs g !! r); [|done].
  quiet_out. apply set_agents_inv. by apply set_reg_inv.
Qed.

Lemma agent_answer_inv t rid m f now b : broker_inv b -> broker_inv (agent_answer t rid m f now b).
Proof.
  intros Hi. unfold agent_answer. pose proof (liveRequest_inv rid now b Hi) as Hi1.
  destruct (liveRequest rid now b) as [[r|] b1]; simpl in Hi1; [|done].
  case_decide; [done|]. destruct f; [apply dropRequest_inv|]; by apply toBrowser_inv.
Qed.

Lemma charge_set_inv r n b : broker_inv b -> broker_inv (set_reg (charge r n (reg b)).2 b).
Proof. apply set_reg_inv, charge_step. Qed.

Lemma agent_frame_inv s r id data b : broker_inv b -> broker_inv (agent_frame s r id data b).
Proof.
  intros Hi. unfold agent_frame. pose proof (charge_set_inv r (Z.of_nat (String.length data)) b Hi) as Hi1.
  destruct (charge _ _ _) as [ok g]. simpl in Hi1. destruct ok; simpl; [|by quiet_out].
  destruct (tunnelObjs g !! r) as [t|]; [|done]. destruct (assoc_get id (tn_streams t)); [|done].
  apply out_inv; [|done]. unfold to_browser. by case_match; repeat constructor.
Qed.

Lemma agent_registered_inv s tid msg now b :
  broker_inv b -> broker_inv (agent_registered s tid msg now b).
Proof.
  intros Hi. unfold agent_registered.
  pose proof (set_reg_inv _ b (get_step tid now (reg b)) Hi) as Hi1.
  destruct (get tid now (reg b)) as [[[r t]|] g]; simpl in Hi1; [|by quiet_out].
  destruct msg; simpl; try by apply agent_answer_inv.
  - by quiet_out.
  - apply set_reg_inv; [apply closeStream_step|done].
  - by apply agent_frame_inv.
Qed.

Lemma agent_message_inv s parsed now b : broker_inv b -> broker_inv (agent_message s parsed now b).
Proof.
  intros Hi. unfold agent_message. destruct (agents b !! s) as [[ch [tid|]]|]; [..|done];
    (destruct parsed; [|by quiet_out]); [by apply agent_registered_inv|by apply agent_register_inv].
Qed.

Lemma settle_inv t now b : broker_inv b -> broker_inv (settle t now b).
Proof. intros Hi. unfold settle. case_match; [by apply set_usage_inv|done]. Qed.

Lemma settle_reg t now b : reg (settle t now b) = reg b.
Proof. unfold settle. by case_match. Qed.

Lemma agent_close_inv s now b : broker_inv b -> broker_inv (agent_close s now b).
Proof.
  intros Hi. unfold agent_close. destruct (agents b !! s) as [[ch [tid|]]|]; [|done..].
  pose proof (set_reg_inv _ b (get_step tid now (reg b)) Hi) as Hi1.
  destruct (get tid now (reg b)) as [tun g]. simpl in Hi1.
  apply set_reg_inv; [by apply drop_step|]. destruct tun as [[r t]|]; [by apply settle_inv|done].
Qed.

Lemma attachRequestSocket_inv rid s now b :
  broker_inv b -> broker_inv (attachRequestSocket rid s now b).
Proof.
  intros Hi. unfold attachRequestSocket. pose proof (liveRequest_inv rid now b Hi) as Hi1.
  destruct (liveRequest rid now b) as [[r|] b1] eqn:Hl; simpl in Hi1; [|by quiet_out].
  apply liveRequest_Some in Hl as [-> Hr]. destruct (rq_browser r); [by quiet_out|].
  apply set_askers_inv, out_inv; [by apply Forall_map, Forall_forall|].
  by eapply set_request_inv.
Qed.

Lemma request_message_inv s parsed now b :
  broker_inv b -> broker_inv (request_message s parsed now b).
Proof.
  intros Hi. unfold request_message. destruct (askers b !! s) as [rid|]; [|done].
  destruct parsed as [msg|]; [|by quiet_out]. pose proof (liveRequest_inv rid now b Hi) as Hi1.
  destruct (liveRequest rid now b) as [[r|] b1] eqn:Hl; simpl in Hi1; [|by quiet_out].
  apply liveRequest_Some in Hl as [-> Hr].
  pose proof (set_reg_inv _ b (byDevice_step (rq_deviceId r) now (reg b)) Hi) as Hi2.
  destruct (byDevice _ now (reg b)) as [[[tr t]|] g]; simpl in Hi2.
  - by apply request_forward_inv.
  - apply dropRequest_inv. by quiet_out.
Qed.

Lemma request_close_inv s b : broker_inv b -> broker_inv (request_close s b).
Proof. intros Hi. unfold request_close. case_match; [by apply dropRequest_inv|done]. Qed.

Lemma attachTunnelSocket_inv tid s newId now b :
  broker_inv b -> broker_inv (attachTunnelSocket tid s newId now b).
Proof.
  intros Hi. unfold attachTunnelSocket.
  pose proof (set_reg_inv _ b (get_step tid now (reg b)) Hi) as Hi1.
  destruct (get tid now (reg b)) as [[[r t]|] g]; simpl in Hi1; [|by quiet_out].
  pose proof (set_reg_inv _ (set_reg g b) (openStream_step r s newId now g) Hi1) as Hi2.
  destruct (openStream r s newId now g) as [[st|] g2]; simpl in Hi2; [|by quiet_out].
  apply set_viewers_inv. quiet_out. exact Hi2.
Qed.

Lemma tunnel_message_inv s parsed b : broker_inv b -> broker_inv (tunnel_message s parsed b).
Proof.
  intros Hi. unfold tunnel_message. destruct (viewers b !! s) as [[tid r sid]|]; [|done].
  destruct parsed as [msg|]; [|by quiet_out]. destruct msg; try by quiet_out.
  - case_decide; [by quiet_out|]. quiet_out. apply set_reg_inv; [apply closeStream_step|done].
  - case_decide; [by quiet_out|]. unfold viewer_frame.
    pose proof (charge_set_inv r (Z.of_nat (String.length data)) b Hi) as Hi1.
    destruct (charge _ _ _) as [ok g]. simpl in Hi1. destruct ok; simpl; [|by quiet_out].
    destruct (tunnelObjs g !! r) as [t|]; [|done]. by quiet_out.
Qed.

Lemma tunnel_close_inv s now b : broker_inv b -> broker_inv (tunnel_close s now b).
Proof.
  intros Hi. unfold tunnel_close. destruct (viewers b !! s) as [[tid r sid]|]; [|done].
  pose proof (get_step tid now (reg b)) as Hg.
  destruct (get tid now (reg b)) as [[[r' t]|] g]; simpl in Hg; apply set_reg_inv; try done.
  etrans; [exact Hg|apply closeStream_step].
Qed.

Lemma meter_owner_inv r u b : broker_inv b -> broker_inv (meter_owner r u b).
Proof.
  apply set_reg_inv, update_step; [by repeat split|intros; simpl; lia|intros; simpl; lia].
Qed.

Lemma meter_blocked_inv r reason b : broker_inv b -> broker_inv (meter_blocked r reason b).
Proof.
  unfold meter_blocked. destruct (tunnelObjs (reg b) !! r); [|done].
  apply set_reg_inv. etrans; [|by apply drop_step].
  apply update_step; [by repeat split|intros; simpl; lia|intros; simpl; lia].
Qed.

Lemma sweepTunnels_inv now b : broker_inv b -> broker_inv (sweepTunnels now b).
Proof.
  intros Hi. unfold sweepTunnels.
  assert (broker_inv (sweepRequests now b)) as Hi1.
  { unfold sweepRequests. generalize (map fst (map_to_list (requests b))). intros ids.
    induction ids as [|id ids IH]; [done|]. simpl. by apply liveRequest_inv. }
  apply set_reg_inv; [apply tunnels_sweep_step|done].
Qed.

(** ** The transition system *)

Inductive tstep (b : TunnelBroker) : TunnelBroker -> Prop :=
| ts_agent s challenge : agents b !! s = None -> tstep b (attachAgentSocket s challenge b)
| ts_agent_message s parsed now : tstep b (agent_message s parsed now b)
| ts_agent_close s now : tstep b (agent_close s now b)
| ts_owner r userId : tstep b (meter_owner r userId b)
| ts_blocked r reason : tstep b (meter_blocked r reason b)
| ts_request deviceId label email newId now :
    request_fresh newId b -> tstep b (pairRequest deviceId label email newId now b).2
| ts_attach_request requestId s now : tstep b (attachRequestSocket requestId s now b)
| ts_request_message s parsed now : tstep b (request_message s parsed now b)
| ts_request_close s : tstep b (request_close s b)
| ts_viewer tunnelId s newId now : tstep b (attachTunnelSocket tunnelId s newId now b)
| ts_viewer_message s parsed : tstep b (tunnel_message s parsed b)
| ts_viewer_close s now : tstep b (tunnel_close s now b)
| ts_sweep now : tstep b (sweepTunnels now b).

Definition treachable (b : TunnelBroker) : Prop := rtc tstep (createTunnelBroker q secret) b.

Lemma tstep_inv b b' : broker_inv b -> tstep b b' -> broker_inv b'.
Proof.
  intros Hi. destruct 1.
  - by apply attachAgentSocket_inv.
  - by apply agent_message_inv.
  - by apply agent_close_inv.
  - by apply meter_owner_inv.
  - by apply meter_blocked_inv.
  - by apply pairRequest_inv.
  - by apply attachRequestSocket_inv.
  - by apply request_message_inv.
  - by apply request_close_inv.
  - by apply attachTunnelSocket_inv.
  - by apply tunnel_message_inv.
  - by apply tunnel_close_inv.
  - by apply sweepTunnels_inv.
Qed.

Definition quotas_ok : Prop := 0 <= maxBytes q /\ 0 <= maxStreams q.

Lemma treachable_inv b : quotas_ok -> treachable b -> broker_inv b.
Proof.
  intros [Hb Hs] Hr. unfold treachable in Hr.
  remember (createTunnelBroker q secret) as b0 eqn:Hb0.
  assert (broker_inv b0) as Hi.
  { subst. split; [split; [by apply createTunnelRegistry_wf|done..]|]. split; simpl; try done.
    intros rid. unfold prompts. simpl. lia. }
  clear Hb0. induction Hr; [done|]. eauto using tstep_inv.
Qed.


(** ** Tunnels *)

(** Tunnels stay within their quotas.  In every reachable state a device
    has at most one live tunnel, and every live tunnel carries at most
    [maxStreams] streams and has forwarded at most [maxBytes] bytes. *)
Theorem tunnel_quotas b :
  quotas_ok -> treachable b ->
  (forall id1 id2 r1 r2 t1 t2,
     tunnel_at (reg b) id1 = Some (r1, t1) -> tunnel_at (reg b) id2 = Some (r2, t2) ->
     tn_deviceId t1 = tn_deviceId t2 -> id1 = id2 /\ r1 = r2) /\
  (forall id r t, tunnel_at (reg b) id = Some (r, t) ->
     tn_bytes t <= maxBytes q /\ Z.of_nat (length (tn_streams t)) <= maxStreams q).
Proof.
  intros Hq Hr. destruct (treachable_inv _ Hq Hr) as [[Hwf Hqs _ _] _]. split.
  - intros *. by apply one_tunnel_per_device.
  - intros id r t [Hid Ht]%tunnel_at_Some. rewrite <- Hqs.
    destruct (rw_live _ Hwf _ _ Hid) as (t' & ? & Hok). simplify_eq.
    split; [apply (to_bytes _ _ _ Hok)|by eapply rw_streams].
Qed.

(** A tunnel id survives every reconnect.  Whatever has happened on the
    broker, a device that registers is given the id derived from the secret
    and its device id at epoch 0, the same one every time, and is told so. *)
Theorem tunnel_id_stable b s ch d pk echoed sig now :
  quotas_ok -> treachable b -> agents b !! s = Some (mkAgent ch None) ->
  okRegistration ch d pk echoed sig = Some true ->
  let b' := agent_message s (Some (TunnelRegisterMessage d pk echoed sig)) now b in
  let id := deriveTunnelId secret d 0 in
  agents b' !! s = Some (mkAgent ch (Some id)) /\
  last (written (reg b')) = Some (SendTunnel s (TunnelReadyMessage id)) /\
  exists r t, tunnel_at (reg b') id = Some (r, t) /\ tn_deviceId t = d /\ tn_agent t = s.
Proof.
  intros Hq Hr Hs Hok. destruct (treachable_inv _ Hq Hr) as [Hg _].
  unfold agent_message. rewrite Hs. cbn [ag_tunnelId ag_challenge]. unfold agent_register.
  rewrite Hok.
  pose proof (register_tunnel d pk s now (reg b)) as Ht.
  destruct (reg_good_step _ _ (evicted_step d (reg b)) Hg) as [[_ _ Hsec Hep] _].
  destruct (register d pk s now (reg b)) as [r g] eqn:Hreg.
  destruct Ht as (Ht & Hmap & _). rewrite Ht.
  assert (tn_id (enrolled d pk s now (evicted d (reg b))) = deriveTunnelId secret d 0) as Hid.
  { simpl. by rewrite Hsec, Hep, lookup_empty. }
  rewrite Hid in *. simpl. rewrite lookup_insert_eq. split; [done|].
  split; [by rewrite last_snoc|]. exists r, (enrolled d pk s now (evicted d (reg b))).
  split; [by apply tunnel_at_Some|done].
Qed.

(** A stale socket's close kills the live tunnel.  When an agent has
    reconnected, its device's tunnel keeps its id but is served by the new
    socket [s2]; if the old socket [s1], registered under the same id, closes
    after that, the broker drops the new tunnel and tells [s2] that the agent
    is gone. *)
Theorem stale_close_drops_live_tunnel b s1 s2 ch1 id r t now :
  quotas_ok -> treachable b -> s1 <> s2 ->
  agents b !! s1 = Some (mkAgent ch1 (Some id)) ->
  tunnel_at (reg b) id = Some (r, t) -> tn_agent t = s2 -> now < tn_expiresAt t ->
  let b' := agent_close s1 now b in
  tunnel_at (reg b') id = None /\
  exists os, written (reg b') = written (reg b) ++ os /\
    SendTunnel s2 (TunnelClosedMessage closed_agent_gone) ∈ os.
Proof.
  intros Hq Hr Hne Hs Hat Hag Hexp. destruct (treachable_inv _ Hq Hr) as [[Hwf _ _ _] _].
  unfold agent_close. rewrite Hs. unfold get. rewrite Hat, (proj2 (Z.leb_gt _ _)) by done.
  assert (reg (settle t now (set_reg (reg b) b)) = reg b) as Hreg
    by exact (settle_reg t now (set_reg (reg b) b)).
  rewrite Hreg. cbv zeta. unfold close. cbn [set_reg reg]. split.
  - unfold tunnel_at. by rewrite drop_gone.
  - unfold drop. rewrite Hat. rewrite decide_False by done. simpl.
    eexists. rewrite <- app_assoc. split; [done|]. subst s2.
    apply elem_of_app. right. by left.
Qed.
(** ** Access requests *)

Lemma liveRequest_reg rid now b b1 : liveRequest rid now b = (None, b1) -> reg b1 = reg b.
Proof.
  unfold liveRequest. destruct (requests b !! rid); [|by intros [= <-]].
  case_match; [|done]. intros [= <-]. apply dropRequest_sub.
Qed.

(** A machine is asked once, and sees no key before a commitment.  In
    every reachable state, a machine has at most one undecided request; each
    request id has prompted at most once; and a browser's key is passed to a
    machine only by a request whose commitment was forwarded before. *)
Theorem prompted_once b :
  quotas_ok -> treachable b ->
  (forall rid1 rid2 r1 r2, requests b !! rid1 = Some r1 -> requests b !! rid2 = Some r2 ->
     rq_deviceId r1 = rq_deviceId r2 -> rid1 = rid2) /\
  (forall rid, (prompts rid (written (reg b)) <= 1)%nat) /\
  (forall s rid mid key now os agent, askers b !! s = Some rid ->
     written (reg (request_message s (Some (PairRevealMessage mid key)) now b)) =
       written (reg b) ++ os ->
     SendTunnel agent (PairServerReveal mid key) ∈ os ->
     prompts rid (written (reg b)) = 1%nat).
Proof.
  intros Hq Hr. destruct (treachable_inv _ Hq Hr) as [Hg [Hp Ho Hf]]. split; [|split; [done|]].
  - intros rid1 rid2 r1 r2 Hr1 Hr2 Hd. destruct (Hp _ _ Hr1) as [_ P1], (Hp _ _ Hr2) as [_ P2].
    congruence.
  - intros s rid mid key now os agent Hs Hw Hin. unfold request_message in Hw. rewrite Hs in Hw.
    destruct (liveRequest rid now b) as [[r|] b1] eqn:Hl.
    + apply liveRequest_Some in Hl as [-> Hr']. rewrite (Hf _ _ Hr').
      destruct (rq_forwarded r) eqn:Hfw; [done|]. exfalso.
      destruct (reg_good_step _ _ (byDevice_step (rq_deviceId r) now (reg b)) Hg) as [_ Hle].
      destruct (rl_written _ _ Hle) as (os' & Hw' & Hno). rewrite Forall_forall in Hno.
      destruct (byDevice (rq_deviceId r) now (reg b)) as [[[tr t]|] g]; simpl in Hw, Hw'.
      * rewrite Hfw in Hw. simpl in Hw. rewrite Hw' in Hw. apply app_inv_head in Hw as ->.
        by apply Hno in Hin.
      * destruct (dropRequest_sub rid (out [SendRequest s (RequestDenied rid agent_gone)]
          (set_reg g b))) as [_ Hd]. rewrite Hd in Hw. simpl in Hw.
        rewrite Hw', <- app_assoc in Hw. apply app_inv_head in Hw as <-.
        apply elem_of_app in Hin as [Hin|Hin]; [by apply Hno in Hin|].
        by apply list_elem_of_singleton in Hin.
    + exfalso. apply liveRequest_reg in Hl. simpl in Hw. rewrite Hl in Hw.
      apply app_inv_head in Hw as <-.
      by apply elem_of_cons in Hin as [|[|?%not_elem_of_nil]%elem_of_cons].
Qed.
(** What one step of a socket may do to requests of other machines: leave
    request [rid] as it is, and write answers only to browsers of requests
    that belong to device [d]. *)
Record minds_device (d : string) (now : Z) (b b' : TunnelBroker) : Prop := mkMinds {
  md_requests : forall rid req, requests b !! rid = Some req -> rq_deviceId req <> d ->
    now < rq_expiresAt req -> requests b' !! rid = Some req;
  md_answers : exists os, written (reg b') = written (reg b) ++ os /\
    forall s m, SendRequest s m ∈ os ->
      exists rid req, requests b !! rid = Some req /\ rq_deviceId req = d /\
        rq_browser req = Some s;
}.

Lemma minds_plain d now b b' :
  requests b' = requests b -> plainly (written (reg b)) (written (reg b')) ->
  minds_device d now b b'.
Proof.
  intros Hr (os & Hw & Hos). split; [intros; by rewrite Hr|]. exists os. split; [done|].
  rewrite Forall_forall in Hos. by intros s m ?%Hos.
Qed.

Lemma plainly_out os b : Forall plain os -> plainly (written (reg b)) (written (reg (out os b))).
Proof. intros Hos. by exists os. Qed.

Lemma dropRequest_lookup rid b rid' :
  requests (dropRequest rid b) !! rid' = if decide (rid = rid') then None else requests b !! rid'.
Proof.
  unfold dropRequest. destruct (requests b !! rid) eqn:Hr; simpl.
  - by rewrite lookup_delete.
  - by case_decide; subst.
Qed.

Lemma toBrowser_lookup rid m b rid' :
  rid <> rid' -> requests (toBrowser rid m b) !! rid' = requests b !! rid'.
Proof.
  intros Hne. unfold toBrowser. repeat case_match; try done. simpl. by rewrite lookup_insert_ne.
Qed.

Lemma agent_answer_minds t rid m f now b :
  minds_device (tn_deviceId t) now b (agent_answer t rid m f now b).
Proof.
  unfold agent_answer, liveRequest. destruct (requests b !! rid) as [req|] eqn:Hreq.
  2:{ by apply minds_plain. }
  destruct (rq_expiresAt req <=? now) eqn:Hexp; simpl.
  - destruct (dropRequest_sub rid b) as [_ Hreg]. split.
    + intros rid' req' Hr' _ Hlive. rewrite dropRequest_lookup, decide_False; [done|].
      intros ->. simplify_eq. lia.
    + exists []. rewrite Hreg, app_nil_r. split; [done|]. by intros s m' ?%not_elem_of_nil.
  - case_decide as Hd; [by apply minds_plain|].
    assert (minds_device (tn_deviceId t) now b (toBrowser rid m b)) as Hto.
    { split.
      - intros rid' req' Hr' Hd' _. rewrite toBrowser_lookup; [done|]. intros ->. by simplify_eq.
      - unfold toBrowser. rewrite Hreq. destruct (rq_browser req) as [s|] eqn:Hs.
        + eexists. split; [done|]. intros s' m' Hin%list_elem_of_singleton. simplify_eq. eauto.
        + exists []. rewrite app_nil_r. split; [by case_decide|]. by intros s m' ?%not_elem_of_nil. }
    destruct f; [|done]. destruct Hto as [Hr Ha]. split.
    + intros rid' req' Hr' Hd' Hl. rewrite dropRequest_lookup, decide_False; [by apply Hr|].
      intros ->. by simplify_eq.
    + destruct (dropRequest_sub rid (toBrowser rid m b)) as [_ ->]. done.
Qed.

Lemma charge_plain r n b : broker_inv b ->
  plainly (written (reg b)) (written (charge r n (reg b)).2).
Proof.
  intros [Hg _]. by destruct (reg_good_step _ _ (charge_step r n (reg b)) Hg) as [_ []].
Qed.

Lemma closeStream_plain r id reason b : broker_inv b ->
  plainly (written (reg b)) (written (closeStream r id reason (reg b))).
Proof.
  intros [Hg _]. by destruct (reg_good_step _ _ (closeStream_step r id reason (reg b)) Hg) as [_ []].
Qed.

Lemma plainly_snoc l l' os : plainly l l' -> Forall plain os -> plainly l (l' ++ os).
Proof. intros Hl Hos. etrans; [exact Hl|]. by exists os. Qed.

Lemma agent_frame_minds d s r id data now b :
  broker_inv b -> minds_device d now b (agent_frame s r id data b).
Proof.
  intros Hi. pose proof (charge_plain r (Z.of_nat (String.length data)) b Hi) as Hp.
  unfold agent_frame. destruct (charge _ _ _) as [ok g]. simpl in Hp.
  destruct ok; simpl.
  - destruct (tunnelObjs g !! r) as [t|]; [|by apply minds_plain].
    destruct (assoc_get id (tn_streams t)); [|by apply minds_plain].
    apply minds_plain; [done|]. apply plainly_snoc; [done|by apply to_browser_plain].
  - apply minds_plain; [done|]. apply plainly_snoc; [done|by repeat constructor].
Qed.

Lemma set_reg_id b : set_reg (reg b) b = b.
Proof. by destruct b. Qed.

(** C29: only the machine that was asked can answer.  Whatever a registered
    agent sends, the requests of every other device stay as they are and
    their browsers hear nothing; and a browser's own tunnel socket, which has
    proved nothing about any device, can neither answer nor alter a request. *)
Theorem only_asked_machine_answers b s parsed now :
  quotas_ok -> treachable b ->
  (forall ch tid r t, agents b !! s = Some (mkAgent ch (Some tid)) ->
     tunnel_at (reg b) tid = Some (r, t) -> now < tn_expiresAt t ->
     minds_device (tn_deviceId t) now b (agent_message s parsed now b)) /\
  (requests (tunnel_message s parsed b) = requests b /\
   pendingByDevice (tunnel_message s parsed b) = pendingByDevice b /\
   plainly (written (reg b)) (written (reg (tunnel_message s parsed b)))).
Proof.
  intros Hq Hr. pose proof (treachable_inv _ Hq Hr) as Hi. split.
  - intros ch tid r t Hs Hat Hexp. unfold agent_message. rewrite Hs. cbn [ag_tunnelId].
    destruct parsed as [msg|]; [|apply minds_plain; [done|by apply plainly_out; repeat constructor]].
    unfold agent_registered, get. rewrite Hat, (proj2 (Z.leb_gt _ _)) by done.
    rewrite set_reg_id. destruct msg; simpl; try by apply agent_answer_minds.
    + apply minds_plain; [done|by apply plainly_out; repeat constructor].
    + apply minds_plain; [done|by apply closeStream_plain].
    + by apply agent_frame_minds.
  - unfold tunnel_message. destruct (viewers b !! s) as [[tid r sid]|]; [|done].
    assert (forall c, requests (out [CloseSocket s c] b) = requests b /\
      pendingByDevice (out [CloseSocket s c] b) = pendingByDevice b /\
      plainly (written (reg b)) (written (reg (out [CloseSocket s c] b)))) as Hclose.
    { intros c. split; [done|]. split; [done|]. by apply plainly_out; repeat constructor. }
    destruct parsed as [msg|]; [|apply Hclose]. destruct msg; try apply Hclose.
    + case_decide; [apply Hclose|]. split; [done|]. split; [done|].
      simpl. apply plainly_snoc; [by apply closeStream_plain|by repeat constructor].
    + case_decide; [apply Hclose|]. unfold viewer_frame.
      pose proof (charge_plain r (Z.of_nat (String.length data)) b Hi) as Hp.
      destruct (charge _ _ _) as [ok g]. simpl in Hp. destruct ok; simpl.
      * destruct (tunnelObjs g !! r); [|done]. split; [done|]. split; [done|].
        simpl. apply plainly_snoc; [done|by repeat constructor].
      * split; [done|]. split; [done|]. apply plainly_snoc; [done|by repeat constructor].
Qed.

(** An agent socket serves a device only after proving it holds its key.
    When a message makes a socket a registered one, it was a registration
    that echoed the socket's own challenge, carried a valid signature of that
    challenge under the offered public key, and named the device id that is
    that key's fingerprint; and the tunnel it serves is that device's. *)
Theorem registration_authenticated b s ch parsed now tid :
  agents b !! s = Some (mkAgent ch None) ->
  agents (agent_message s parsed now b) !! s = Some (mkAgent ch (Some tid)) ->
  exists d pk echoed sig pkb sigb,
    parsed = Some (TunnelRegisterMessage d pk echoed sig) /\
    echoed = bytesToHex ch /\ hexToBytes pk = Ok pkb /\ hexToBytes sig = Ok sigb /\
    verifyChallenge pkb ch sigb = true /\ deviceIdFor pkb = d /\
    exists r t, tunnel_at (reg (agent_message s parsed now b)) tid = Some (r, t) /\
      tn_deviceId t = d /\ tn_publicKey t = pk /\ tn_agent t = s.
Proof.
  intros Hs. unfold agent_message. rewrite Hs. cbn [ag_tunnelId ag_challenge].
  destruct parsed as [msg|]; [|simpl; rewrite Hs; congruence]. unfold agent_register.
  destruct msg as [d pk echoed sig| | | | | ]; try (simpl; rewrite Hs; congruence).
  destruct (okRegistration ch d pk echoed sig) as [[]|] eqn:Hok;
    try (simpl; rewrite Hs; congruence).
  pose proof (register_tunnel d pk s now (reg b)) as Ht.
  destruct (register d pk s now (reg b)) as [r g]. destruct Ht as (Ht & Hmap & _). rewrite Ht.
  simpl. rewrite lookup_insert_eq. intros [= <-].
  unfold okRegistration in Hok. destruct (hexToBytes pk) as [pkb|] eqn:Hpk; [|done].
  case_bool_decide as Hecho; [|done]. simpl in Hok.
  destruct (hexToBytes sig) as [sigb|] eqn:Hsig; [|done]. simplify_eq.
  apply andb_true_iff in Hok as [Hv Hd%bool_decide_eq_true].
  exists d, pk, (bytesToHex ch), sig, pkb, sigb. repeat (split; [done|]).
  exists r, (enrolled d pk s now (evicted d (reg b))). split; [by apply tunnel_at_Some|done].
Qed.
End Invariant.

(** ** Concrete runs of the tunnel broker

    An agent that registers, reconnects and is asked for access, with the
    executable instances of [Noble.Toy]; the theorems of [AccessRequests],
    [DeviceKey] are applied at the states it goes through. *)

#[local] Existing Instances Toy.hex Toy.hex_laws Toy.sha Toy.hmac Toy.ed Toy.ed_laws.

Definition q0 : Quotas := mkQuotas 1000 60 2.
Definition secret0 : bytes := [1; 2; 3].
Definition key0 : bytes := replicate 32 7.
Definition device0 : string := deviceIdFor key0.

Definition register_with (challenge : bytes) : TunnelClientMessage :=
  TunnelRegisterMessage device0 (bytesToHex key0) (bytesToHex challenge)
    (bytesToHex (signChallenge key0 challenge)).

Definition x0 : TunnelBroker := createTunnelBroker q0 secret0.
Definition x1 : TunnelBroker := attachAgentSocket 1%nat [9] x0.
Definition x2 : TunnelBroker := agent_message 1%nat (Some (register_with [9])) 100 x1.
Definition x3 : TunnelBroker := attachAgentSocket 2%nat [8] x2.
(** The agent has reconnected on socket 2. *)
Definition x4 : TunnelBroker := agent_message 2%nat (Some (register_with [8])) 200 x3.
Definition x5 : TunnelBroker := (pairRequest device0 "Phone" "a@b.c" "req-1" 300 x4).2.
Definition x6 : TunnelBroker := attachRequestSocket "req-1" 5%nat 310 x5.
Definition x7 : TunnelBroker :=
  request_message 5%nat (Some (PairCommitMessage "req-1" "commitment")) 320 x6.
Definition x8 : TunnelBroker := attachTunnelSocket (deriveTunnelId secret0 device0 0) 6%nat "str-1" 330 x7.

Ltac by_compute := vm_compute; reflexivity.

Lemma x1_step : tstep x0 x1. Proof. unfold x1. apply ts_agent. by_compute. Defined.
Lemma x2_step : tstep x1 x2. Proof. apply ts_agent_message. Defined.
Lemma x3_step : tstep x2 x3. Proof. unfold x3. apply ts_agent. by_compute. Defined.
Lemma x4_step : tstep x3 x4. Proof. apply ts_agent_message. Defined.
Lemma x5_step : tstep x4 x5.
Proof. unfold x5. apply ts_request. split; by_compute. Defined.
Lemma x6_step : tstep x5 x6. Proof. apply ts_attach_request. Defined.
Lemma x7_step : tstep x6 x7. Proof. apply ts_request_message. Defined.
Lemma x8_step : tstep x7 x8. Proof. apply ts_viewer. Defined.

Lemma x3_reachable : treachable q0 secret0 x3.
Proof.
  exact (rtc_l _ _ _ _ x1_step (rtc_l _ _ _ _ x2_step (rtc_once _ _ x3_step))).
Defined.
Lemma x4_reachable : treachable q0 secret0 x4.
Proof. exact (rtc_r _ _ _ x3_reachable x4_step). Defined.
Lemma x8_reachable : treachable q0 secret0 x8.
Proof.
  exact (rtc_r _ _ _ (rtc_r _ _ _ (rtc_r _ _ _ (rtc_r _ _ _ x4_reachable x5_step) x6_step)
    x7_step) x8_step).
Defined.

Lemma q0_ok : quotas_ok q0.
Proof. unfold quotas_ok, q0. simpl. lia. Defined.

(** The whole exchange as it was written on the sockets. *)
Example x8_written :
  let id := deriveTunnelId secret0 device0 0 in
  written (reg x8) =
    [SendTunnel 1 (TunnelChallengeMessage "09"); SendTunnel 1 (TunnelReadyMessage id);
     SendTunnel 2 (TunnelChallengeMessage "08");
     SendTunnel 1 (TunnelClosedMessage closed_agent_gone); SendTunnel 2 (TunnelReadyMessage id);
     SendTunnel 2 (PairRequestMessage "req-1" "commitment" "Phone" "a@b.c");
     SendTunnel 2 (TunnelStreamOpenMessage "str-1"); SendTunnel 6 (TunnelStreamOpenMessage "str-1")].
Proof. by_compute. Qed.

(** ** The theorems at those states *)

Lemma tunnel_quotas_witness :
  (forall id1 id2 r1 r2 t1 t2,
     tunnel_at (reg x8) id1 = Some (r1, t1) -> tunnel_at (reg x8) id2 = Some (r2, t2) ->
     tn_deviceId t1 = tn_deviceId t2 -> id1 = id2 /\ r1 = r2) /\
  (forall id r t, tunnel_at (reg x8) id = Some (r, t) ->
     tn_bytes t <= 1000 /\ Z.of_nat (length (tn_streams t)) <= 2).
Proof. exact (tunnel_quotas q0 secret0 x8 q0_ok x8_reachable). Defined.

Lemma tunnel_id_stable_witness :
  let b' := agent_message 2%nat (Some (register_with [8])) 200 x3 in
  let id := deriveTunnelId secret0 device0 0 in
  agents b' !! 2%nat = Some (mkAgent [8] (Some id)) /\
  last (written (reg b')) = Some (SendTunnel 2%nat (TunnelReadyMessage id)) /\
  exists r t, tunnel_at (reg b') id = Some (r, t) /\ tn_deviceId t = device0 /\ tn_agent t = 2%nat.
Proof.
  apply (tunnel_id_stable q0 secret0 x3 2%nat [8] device0 _ _ _ 200 q0_ok x3_reachable); by_compute.
Defined.

Definition live_tunnel (b : TunnelBroker) : ref * Tunnel :=
  default (0%nat, mkTunnel "" "" "" 0 0 0 None None 0%nat [])
    (tunnel_at (reg b) (deriveTunnelId secret0 device0 0)).

Lemma stale_close_drops_live_tunnel_witness :
  let id := deriveTunnelId secret0 device0 0 in
  let b' := agent_close 1%nat 300 x4 in
  tunnel_at (reg b') id = None /\
  exists os, written (reg b') = written (reg x4) ++ os /\
    SendTunnel 2%nat (TunnelClosedMessage closed_agent_gone) ∈ os.
Proof.
  apply (stale_close_drops_live_tunnel q0 secret0 x4 1%nat 2%nat [9]
           (deriveTunnelId secret0 device0 0) (live_tunnel x4).1 (live_tunnel x4).2 300
           q0_ok x4_reachable); [discriminate | by_compute..].
Defined.

Lemma prompted_once_witness :
  (forall rid1 rid2 r1 r2, requests x7 !! rid1 = Some r1 -> requests x7 !! rid2 = Some r2 ->
     rq_deviceId r1 = rq_deviceId r2 -> rid1 = rid2) /\
  (forall rid, (prompts rid (written (reg x7)) <= 1)%nat) /\
  (forall s rid mid key now os agent, askers x7 !! s = Some rid ->
     written (reg (request_message s (Some (PairRevealMessage mid key)) now x7)) =
       written (reg x7) ++ os ->
     SendTunnel agent (PairServerReveal mid key) ∈ os ->
     prompts rid (written (reg x7)) = 1%nat).
Proof.
  apply (prompted_once q0 secret0 x7 q0_ok).
  exact (rtc_r _ _ _ (rtc_r _ _ _ (rtc_r _ _ _ x4_reachable x5_step) x6_step) x7_step).
Defined.

Lemma only_asked_machine_answers_witness :
  let answer := Some (PairApprovedMessage "req-1"%string "descriptor"%string) in
  (forall ch tid r t, agents x8 !! 2%nat = Some (mkAgent ch (Some tid)) ->
     tunnel_at (reg x8) tid = Some (r, t) -> 340 < tn_expiresAt t ->
     minds_device (tn_deviceId t) 340 x8 (agent_message 2%nat answer 340 x8)) /\
  (requests (tunnel_message 2%nat answer x8) = requests x8 /\
   pendingByDevice (tunnel_message 2%nat answer x8) = pendingByDevice x8 /\
   plainly (written (reg x8)) (written (reg (tunnel_message 2%nat answer x8)))).
Proof.
  exact (only_asked_machine_answers q0 secret0 x8 2%nat
           (Some (PairApprovedMessage "req-1"%string "descriptor"%string)) 340 q0_ok x8_reachable).
Defined.

Lemma registration_authenticated_witness :
  exists d pk echoed sig pkb sigb,
    Some (register_with [8]) = Some (TunnelRegisterMessage d pk echoed sig) /\
    echoed = bytesToHex [8] /\ hexToBytes pk = Ok pkb /\ hexToBytes sig = Ok sigb /\
    verifyChallenge pkb [8] sigb = true /\ deviceIdFor pkb = d /\
    exists r t, tunnel_at (reg x4) (deriveTunnelId secret0 device0 0) = Some (r, t) /\
      tn_deviceId t = d /\ tn_publicKey t = pk /\ tn_agent t = 2%nat.
Proof.
  apply (registration_authenticated x3 2%nat [8] (Some (register_with [8])) 200
           (deriveTunnelId secret0 device0 0)); by_compute.
Defined.

Lemma decode_device_key_witness :
  (forall secretKey,
     is_bytes secretKey -> length secretKey = 32%nat ->
     is_bytes (ed_getPublicKey secretKey) -> length (ed_getPublicKey secretKey) = 32%nat ->
     decodeDeviceKey (encodeDeviceKey (generateDeviceKey secretKey)) =
     Ok (generateDeviceKey secretKey)) /\
  (forall stored pair, decodeDeviceKey stored = Ok pair ->
     dk_deviceId pair = deviceIdFor (dk_publicKey pair) /\
     length (dk_publicKey pair) = 32%nat /\ length (dk_secretKey pair) = 32%nat /\
     (sk_deviceId stored = "" \/ sk_deviceId stored = dk_deviceId pair)).
Proof. exact (@decode_device_key Toy.hex Toy.sha Toy.ed Toy.hex_laws). Defined.
