(* ===== verification/TunnelAgent.v ===== *)
(** * TunnelAgent: the machine's end of the reverse tunnel

    [apps/cli/src/tunnel-agent.ts].  The closure of [createTunnelAgent] is the
    record [Agent].  A [Stream] object outlives its entry in the [streams] map
    (its callbacks and its promise chain hold on to it), so objects live in a
    heap.  [chain] is the queue of the jobs chained on it; the head job may be
    suspended at one of its awaits, and a later [Resume] takes it on, with
    anything else happening in between.  What WebCrypto computes is fixed when
    it is called.  The ephemeral secrets and salts drawn, the clock and the
    sockets made are arguments.  Lines are strings; [decode] is [TextDecoder]. *)

From S2P Require Import Prelude Protocol Bytes Noble DeviceKey Kdf Frames PairingCode Sas.

Definition KEEPALIVE_MS : Z := 30000.
Definition KEEPALIVE_DEADLINE_MS : Z := 75000.
Definition MAX_KEYRING : nat := 64.
Definition BASE_BACKOFF_MS : Z := 1000.
Definition MAX_BACKOFF_MS : Z := 30000.

(** [defaultRetry] on a random number [rnd / den] below one: half the capped
    delay, and up to half of it again. *)
Definition retry_delay (attempt rnd den : Z) : Z :=
  let capped := Z.min (BASE_BACKOFF_MS * 2 ^ attempt) MAX_BACKOFF_MS in
  capped / 2 + rnd * (capped / 2) / den.

Record PeerIdentity := mkPeer { pi_deviceId : string; pi_label : string; pi_restored : bool }.
Record KeyringEntry := mkEntry { ke_keys : SessionKeys; ke_peer : option PeerIdentity }.

Inductive AgentStatus := connecting | registered | disconnected | outdated | stopped_.

#[export] Instance AgentStatus_eq_dec : EqDecision AgentStatus.
Proof. solve_decision. Defined.

Record PendingAccess := mkPending {
  pa_commitment : bytes;
  pa_deviceLabel : string;
  pa_accountEmail : string;
  pa_ephemeral : EphemeralKeyPair;
}.

Record AccessRequest := mkAccess {
  ac_requestId : string;
  ac_sas : jstr;
  ac_deviceLabel : string;
  ac_accountEmail : string;
  ac_keys : SessionKeys;
}.

Inductive AccessDecision := Approved (sealedDescriptor : string) | NotApproved (reason : option DenyReason).

Inductive Job := SealLine (line : string) | OpenFrame (data : string).

(** The awaits of a job: a seal, with the held lines left to flush after it; a
    trial of the keyring entry at an index; the gate; an open. *)
Inductive Await :=
| Sealing (sealed : result FrameError bytes) (held : list string) (flushing : bool)
| Trying (blob : bytes) (index : nat) (entry : KeyringEntry)
| Admitting (entry : KeyringEntry) (line : string)
| Opening (opened : result FrameError bytes).

Record Stream := mkStream {
  ts_id : string;
  ts_opener : option FrameOpener;
  ts_sealer : option FrameSealer;
  ts_peer : option PeerIdentity;
  ts_await : option Await;
  ts_chain : list Job;
  ts_localOpen : bool;
  ts_toLocal : list string;
  ts_toBroker : list string;
  ts_closed : bool;
}.

Record Agent := mkAgent {
  broker : option sock;
  tunnelId : option string;
  status : AgentStatus;
  attempt : Z;
  stopped : bool;
  keepalive : option sock;
  lastInboundAt : Z;
  streams : gmap string nat;
  objects : gmap nat Stream;
  nextObject : nat;
  accessRequests : gmap string PendingAccess;
  asking : gmap nat string;
  nextAsking : nat;
  keyring : list KeyringEntry;
}.

Definition createTunnelAgent : Agent :=
  mkAgent None None disconnected 0 false None 0 ∅ ∅ 0 ∅ ∅ 0 [].

Inductive AgentOutput :=
| ToBroker (s : sock) (m : TunnelClientMessage)
| BrokerConnect (s : sock)
| BrokerClose (s : sock)
| BrokerTerminate (s : sock)
| BrokerPing (s : sock)
| LocalConnect (o : nat)
| LocalSend (o : nat) (line : string)
| LocalClose (o : nat)
| StatusIs (st : AgentStatus)
| TunnelReady (id : string)
| StreamBound (peer : option PeerIdentity)
| AskAdmit (o : nat) (peer : option PeerIdentity)
| AskAccess (k : nat) (req : AccessRequest)
| ScheduleRetry (attempt : Z)
| AgentThrew.

(** ** Field updates *)

Definition st_bind (op : FrameOpener) (sl : FrameSealer) (peer : option PeerIdentity) (s : Stream) : Stream :=
  mkStream (ts_id s) (Some op) (Some sl) peer (ts_await s) (ts_chain s) (ts_localOpen s) (ts_toLocal s)
    (ts_toBroker s) (ts_closed s).
Definition st_opener (op : FrameOpener) (s : Stream) : Stream :=
  mkStream (ts_id s) (Some op) (ts_sealer s) (ts_peer s) (ts_await s) (ts_chain s) (ts_localOpen s)
    (ts_toLocal s) (ts_toBroker s) (ts_closed s).
Definition st_sealer (sl : FrameSealer) (s : Stream) : Stream :=
  mkStream (ts_id s) (ts_opener s) (Some sl) (ts_peer s) (ts_await s) (ts_chain s) (ts_localOpen s)
    (ts_toLocal s) (ts_toBroker s) (ts_closed s).
Definition st_await (w : option Await) (s : Stream) : Stream :=
  mkStream (ts_id s) (ts_opener s) (ts_sealer s) (ts_peer s) w (ts_chain s) (ts_localOpen s) (ts_toLocal s)
    (ts_toBroker s) (ts_closed s).
Definition st_chain (c : list Job) (s : Stream) : Stream :=
  mkStream (ts_id s) (ts_opener s) (ts_sealer s) (ts_peer s) (ts_await s) c (ts_localOpen s) (ts_toLocal s)
    (ts_toBroker s) (ts_closed s).
Definition st_local (open : bool) (held : list string) (s : Stream) : Stream :=
  mkStream (ts_id s) (ts_opener s) (ts_sealer s) (ts_peer s) (ts_await s) (ts_chain s) open held
    (ts_toBroker s) (ts_closed s).
Definition st_toBroker (held : list string) (s : Stream) : Stream :=
  mkStream (ts_id s) (ts_opener s) (ts_sealer s) (ts_peer s) (ts_await s) (ts_chain s) (ts_localOpen s)
    (ts_toLocal s) held (ts_closed s).
Definition st_close (s : Stream) : Stream :=
  mkStream (ts_id s) (ts_opener s) (ts_sealer s) (ts_peer s) (ts_await s) (ts_chain s) (ts_localOpen s)
    (ts_toLocal s) (ts_toBroker s) true.

Definition set_objects (f : gmap nat Stream -> gmap nat Stream) (a : Agent) : Agent :=
  mkAgent (broker a) (tunnelId a) (status a) (attempt a) (stopped a) (keepalive a) (lastInboundAt a)
    (streams a) (f (objects a)) (nextObject a) (accessRequests a) (asking a) (nextAsking a) (keyring a).
Definition set_streams (f : gmap string nat -> gmap string nat) (a : Agent) : Agent :=
  mkAgent (broker a) (tunnelId a) (status a) (attempt a) (stopped a) (keepalive a) (lastInboundAt a)
    (f (streams a)) (objects a) (nextObject a) (accessRequests a) (asking a) (nextAsking a) (keyring a).
Definition set_nextObject (n : nat) (a : Agent) : Agent :=
  mkAgent (broker a) (tunnelId a) (status a) (attempt a) (stopped a) (keepalive a) (lastInboundAt a)
    (streams a) (objects a) n (accessRequests a) (asking a) (nextAsking a) (keyring a).
Definition set_broker (b : option sock) (a : Agent) : Agent :=
  mkAgent b (tunnelId a) (status a) (attempt a) (stopped a) (keepalive a) (lastInboundAt a)
    (streams a) (objects a) (nextObject a) (accessRequests a) (asking a) (nextAsking a) (keyring a).
Definition set_tunnelId (t : option string) (a : Agent) : Agent :=
  mkAgent (broker a) t (status a) (attempt a) (stopped a) (keepalive a) (lastInboundAt a)
    (streams a) (objects a) (nextObject a) (accessRequests a) (asking a) (nextAsking a) (keyring a).
Definition set_status (st : AgentStatus) (a : Agent) : Agent :=
  mkAgent (broker a) (tunnelId a) st (attempt a) (stopped a) (keepalive a) (lastInboundAt a)
    (streams a) (objects a) (nextObject a) (accessRequests a) (asking a) (nextAsking a) (keyring a).
Definition set_attempt (n : Z) (a : Agent) : Agent :=
  mkAgent (broker a) (tunnelId a) (status a) n (stopped a) (keepalive a) (lastInboundAt a)
    (streams a) (objects a) (nextObject a) (accessRequests a) (asking a) (nextAsking a) (keyring a).
Definition set_stopped (b : bool) (a : Agent) : Agent :=
  mkAgent (broker a) (tunnelId a) (status a) (attempt a) b (keepalive a) (lastInboundAt a)
    (streams a) (objects a) (nextObject a) (accessRequests a) (asking a) (nextAsking a) (keyring a).
Definition set_keepalive (k : option sock) (a : Agent) : Agent :=
  mkAgent (broker a) (tunnelId a) (status a) (attempt a) (stopped a) k (lastInboundAt a)
    (streams a) (objects a) (nextObject a) (accessRequests a) (asking a) (nextAsking a) (keyring a).
Definition set_lastInboundAt (now : Z) (a : Agent) : Agent :=
  mkAgent (broker a) (tunnelId a) (status a) (attempt a) (stopped a) (keepalive a) now
    (streams a) (objects a) (nextObject a) (accessRequests a) (asking a) (nextAsking a) (keyring a).
Definition set_accessRequests (f : gmap string PendingAccess -> gmap string PendingAccess) (a : Agent) : Agent :=
  mkAgent (broker a) (tunnelId a) (status a) (attempt a) (stopped a) (keepalive a) (lastInboundAt a)
    (streams a) (objects a) (nextObject a) (f (accessRequests a)) (asking a) (nextAsking a) (keyring a).
Definition set_asking (f : gmap nat string -> gmap nat string) (n : nat) (a : Agent) : Agent :=
  mkAgent (broker a) (tunnelId a) (status a) (attempt a) (stopped a) (keepalive a) (lastInboundAt a)
    (streams a) (objects a) (nextObject a) (accessRequests a) (f (asking a)) n (keyring a).
Definition set_keyring (k : list KeyringEntry) (a : Agent) : Agent :=
  mkAgent (broker a) (tunnelId a) (status a) (attempt a) (stopped a) (keepalive a) (lastInboundAt a)
    (streams a) (objects a) (nextObject a) (accessRequests a) (asking a) (nextAsking a) k.

(** A step that writes is a pair; [a >> f] runs [f] after it. *)
Definition then_ (r : Agent * list AgentOutput) (f : Agent -> Agent * list AgentOutput)
    : Agent * list AgentOutput :=
  let '(a, out) := r in let '(a, out') := f a in (a, out ++ out').
Declare Scope agent_scope.
Notation "r '>>' f" := (then_ r f) (at level 61, left associativity) : agent_scope.
#[local] Open Scope agent_scope.

Definition with_object (o : nat) (f : Stream -> Agent -> Agent * list AgentOutput) (a : Agent)
    : Agent * list AgentOutput :=
  match objects a !! o with Some s => f s a | None => (a, []) end.

Definition put (o : nat) (s : Stream) (a : Agent) : Agent := set_objects <[o := s]> a.

(** ** Streams *)

(** [broker?.send]. *)
Definition send (m : TunnelClientMessage) (a : Agent) : Agent * list AgentOutput :=
  (a, match broker a with Some s => [ToBroker s m] | None => [] end).

Definition setStatus (next : AgentStatus) (a : Agent) : Agent * list AgentOutput :=
  (set_status next a, [StatusIs next]).

(** By id: whatever stream the id names now. *)
Definition dropStream (streamId reason : string) (tellBroker : bool) (a : Agent)
    : Agent * list AgentOutput :=
  match streams a !! streamId with
  | None => (a, [])
  | Some o =>
      with_object o (fun s a =>
        if ts_closed s then (a, [])
        else
          (set_streams (delete streamId) (put o (st_close s) a), [LocalClose o])
          >> (fun a => if tellBroker then send (TunnelStreamCloseMessage streamId (Some reason)) a
                       else (a, []))) a
  end.

Fixpoint drop_all (ids : list string) (reason : string) (tellBroker : bool) (a : Agent)
    : Agent * list AgentOutput :=
  match ids with
  | [] => (a, [])
  | id :: ids => dropStream id reason tellBroker a >> drop_all ids reason tellBroker
  end.

Definition teardownStreams (a : Agent) : Agent * list AgentOutput :=
  let '(a, out) := drop_all (map fst (map_to_list (streams a))) "agent shutting down" false a in
  (set_streams (fun _ => ∅) a, out).

Definition writeLocal (o : nat) (line : string) (a : Agent) : Agent * list AgentOutput :=
  with_object o (fun s a =>
    if ts_localOpen s then (a, [LocalSend o line])
    else (put o (st_local false (ts_toLocal s ++ [line]) s) a, [])) a.

Section Agent.
Context `{!Hex, !Sha256, !Ed25519, !Hkdf, !Aead, !X25519}.
Context (decode : bytes -> string) (deviceKey : DeviceKeyPair).
Context (gated : bool) (canAsk : bool).

(** ** Jobs *)

(** [stream.sealer.seal(line)] up to its await. *)
Definition start_seal (o : nat) (line : string) (held : list string) (flushing : bool) (s : Stream)
    (sl : FrameSealer) (a : Agent) : Agent :=
  let '(r, sl) := seal (utf8 line) sl in
  put o (st_await (Some (Sealing r held flushing)) (st_sealer sl s)) a.

(** Whose job failed, for the [catch] of its chain. *)
Definition job_failed (flushing : bool) : string := if flushing then "open failed" else "seal failed".

(** The next entry of the keyring, whatever it holds by now. *)
Definition try_entry (o : nat) (blob : bytes) (index : nat) (a : Agent) : Agent * list AgentOutput :=
  with_object o (fun s a =>
    match keyring a !! index with
    | Some entry => (put o (st_await (Some (Trying blob index entry)) s) a, [])
    | None => dropStream (ts_id s) "no matching pairing" true a
    end) a.

(** A job up to its first await, or to its end. *)
Definition start_job (o : nat) (j : Job) (a : Agent) : Agent * list AgentOutput :=
  with_object o (fun s a =>
    match j with
    | SealLine line =>
        match ts_sealer s with
        | None => (put o (st_toBroker (ts_toBroker s ++ [line]) s) a, [])
        | Some sl => (start_seal o line [] false s sl a, [])
        end
    | OpenFrame data =>
        match base64UrlToBytes (js data) with
        | Err _ => dropStream (ts_id s) "malformed frame" true a
        | Ok blob =>
            match ts_opener s with
            | None => try_entry o blob 0 a
            | Some op =>
                let '(r, op') := open blob op in
                (put o (st_await (Some (Opening r)) (st_opener op' s)) a, [])
            end
        end
    end) a.

(** Run the jobs of a chain while none of them awaits. *)
Fixpoint run_chain (o : nat) (jobs : list Job) (a : Agent) : Agent * list AgentOutput :=
  match jobs with
  | [] => (a, [])
  | j :: jobs =>
      with_object o (fun s a =>
        match ts_await s with
        | Some _ => (put o (st_chain (j :: jobs) s) a, [])
        | None => start_job o j (put o (st_chain jobs s) a) >> run_chain o jobs
        end) a
  end.

Definition enqueue (o : nat) (j : Job) (a : Agent) : Agent * list AgentOutput :=
  with_object o (fun s a =>
    match ts_await s with
    | Some _ => (put o (st_chain (ts_chain s ++ [j]) s) a, [])
    | None => run_chain o (ts_chain s ++ [j]) a
    end) a.

(** Lines held back while no key was known. *)
Definition flush (o : nat) (held : list string) (a : Agent) : Agent * list AgentOutput :=
  match held with
  | [] => (a, [])
  | line :: held =>
      with_object o (fun s a =>
        match ts_sealer s with
        | None => (put o (st_toBroker (ts_toBroker s ++ line :: held) s) a, [])
        | Some sl => (start_seal o line held true s sl a, [])
        end) a
  end.

(** The stream was let in: tell, forward the line, flush. *)
Definition let_through (o : nat) (entry : KeyringEntry) (line : string) (a : Agent)
    : Agent * list AgentOutput :=
  with_object o (fun s a =>
    let held := ts_toBroker s in
    (put o (st_toBroker [] s) a, [StreamBound (ke_peer entry)])
    >> writeLocal o line >> flush o held) a.

(** What a job does when its await is over.  [salt] is what a new sealer would
    draw; [answer] what the gate said ([None]: it threw). *)
Definition resume_job (o : nat) (salt : bytes) (answer : option bool) (a : Agent)
    : Agent * list AgentOutput :=
  with_object o (fun s a =>
    let await := ts_await s in
    let s := st_await None s in
    let a := put o s a in
    match await with
    | None => (a, [])
    | Some (Sealing r held flushing) =>
        match r with
        | Err _ => dropStream (ts_id s) (job_failed flushing) true a
        | Ok sealed =>
            (if ts_closed s then (a, [])
             else send (TunnelFrameMessage (ts_id s) (ascii_str (bytesToBase64Url sealed))) a)
            >> flush o held
        end
    | Some (Trying blob index entry) =>
        match bind (k_c2s (ke_keys entry)) c2s blob frame with
        | Err _ => try_entry o blob (S index) a
        | Ok (op, plaintext) =>
            let line := decode plaintext in
            if ts_closed s then (a, [])
            else
              match newSealer (k_s2c (ke_keys entry)) s2c frame salt with
              | Err _ => dropStream (ts_id s) "open failed" true (put o (st_opener op s) a)
              | Ok sl =>
                  let s := st_bind op sl (ke_peer entry) s in
                  if gated then
                    (put o (st_await (Some (Admitting entry line)) s) a, [AskAdmit o (ke_peer entry)])
                  else let_through o entry line (put o s a)
              end
        end
    | Some (Admitting entry line) =>
        match answer with
        | None => dropStream (ts_id s) "open failed" true a
        | Some false => if ts_closed s then (a, []) else dropStream (ts_id s) "not approved" true a
        | Some true => if ts_closed s then (a, []) else let_through o entry line a
        end
    | Some (Opening (Ok plaintext)) =>
        if ts_closed s then (a, []) else writeLocal o (decode plaintext) a
    | Some (Opening (Err _)) => dropStream (ts_id s) "frame authentication failed" true a
    end) a.

Definition resume (o : nat) (salt : bytes) (answer : option bool) (a : Agent) : Agent * list AgentOutput :=
  resume_job o salt answer a
  >> (fun a => with_object o (fun s a =>
        match ts_await s with Some _ => (a, []) | None => run_chain o (ts_chain s) a end) a).

Definition openStream (streamId : string) (a : Agent) : Agent * list AgentOutput :=
  let o := nextObject a in
  let s := mkStream streamId None None None None [] false [] [] false in
  (set_nextObject (S o) (set_streams <[streamId := o]> (put o s a)), [LocalConnect o]).

Definition local_open (o : nat) (a : Agent) : Agent * list AgentOutput :=
  with_object o (fun s a =>
    (put o (st_local true [] s) a, map (LocalSend o) (ts_toLocal s))) a.
Definition local_message (o : nat) (line : string) (a : Agent) : Agent * list AgentOutput :=
  enqueue o (SealLine line) a.
Definition local_close (o : nat) (a : Agent) : Agent * list AgentOutput :=
  with_object o (fun s a =>
    if ts_closed s then (a, []) else dropStream (ts_id s) "local closed" true a) a.

(** ** Access requests *)

(** Check the commitment, derive what the human compares; [None]: deny. *)
Definition access_secrets (requestId : string) (pending : PendingAccess) (browserPublicKeyHex : string)
    : option (SessionKeys * jstr) :=
  browserPublicKey ← ok_option (hexToBytes browserPublicKeyHex);
  if negb (verifySasCommitment (pa_commitment pending) browserPublicKey requestId) then None
  else
    ikm ← ok_option (sasSharedSecret (eph_secret (pa_ephemeral pending)) browserPublicKey);
    let transcript := sasTranscript requestId (pa_commitment pending) browserPublicKey
                        (eph_publicKey (pa_ephemeral pending)) in
    Some (deriveSessionKeys ikm transcript, deriveSas ikm transcript).

Definition decideAccess (requestId : string) (pending : PendingAccess) (browserPublicKeyHex : string)
    (a : Agent) : Agent * list AgentOutput :=
  match access_secrets requestId pending browserPublicKeyHex with
  | None => send (PairDeniedMessage requestId commitment_failed) a
  | Some (keys, sas) =>
      if negb canAsk then send (PairDeniedMessage requestId no_tty) a
      else
        let k := nextAsking a in
        (set_asking <[k := requestId]> (S k) a,
         [AskAccess k (mkAccess requestId sas (pa_deviceLabel pending) (pa_accountEmail pending) keys)])
  end.

(** The decision; [None]: asking threw. *)
Definition access_decided (k : nat) (decision : option AccessDecision) (a : Agent)
    : Agent * list AgentOutput :=
  match asking a !! k with
  | None => (a, [])
  | Some requestId =>
      let a := set_asking (delete k) (nextAsking a) a in
      match decision with
      | None => send (PairDeniedMessage requestId refused) a
      | Some (NotApproved reason) => send (PairDeniedMessage requestId (default refused reason)) a
      | Some (Approved sealed) => send (PairApprovedMessage requestId sealed) a
      end
  end.

(** ** The broker's messages *)

Definition handle (m : TunnelServerMessage) (secret : bytes) (a : Agent) : Agent * list AgentOutput :=
  match m with
  | TunnelChallengeMessage challenge =>
      match hexToBytes challenge with
      | Err _ => (a, [AgentThrew])
      | Ok bytes =>
          send (TunnelRegisterMessage (dk_deviceId deviceKey) (bytesToHex (dk_publicKey deviceKey)) challenge
                  (bytesToHex (signChallenge (dk_secretKey deviceKey) bytes))) a
      end
  | TunnelReadyMessage id =>
      setStatus registered (set_attempt 0 (set_tunnelId (Some id) a))
      >> (fun a => (a, [TunnelReady id]))
  | TunnelStreamOpenMessage streamId => openStream streamId a
  | TunnelServerFrame streamId data =>
      match streams a !! streamId with
      | None => (a, [])
      | Some o => with_object o (fun s a => if ts_closed s then (a, []) else enqueue o (OpenFrame data) a) a
      end
  | TunnelServerStreamClose streamId _ => dropStream streamId "browser closed" false a
  | PairRequestMessage requestId commitment deviceLabel accountEmail =>
      match hexToBytes commitment with
      | Err _ => (a, [AgentThrew])
      | Ok commitment =>
          let ephemeral := newEphemeralKey secret in
          send (PairRequestAckMessage requestId (bytesToHex (eph_publicKey ephemeral)))
            (set_accessRequests <[requestId := mkPending commitment deviceLabel accountEmail ephemeral]> a)
      end
  | PairServerReveal requestId browserPublicKey =>
      match accessRequests a !! requestId with
      | None => (a, [])
      | Some pending =>
          decideAccess requestId pending browserPublicKey (set_accessRequests (delete requestId) a)
      end
  | TunnelClosedMessage reason =>
      setStatus disconnected a >> teardownStreams
      >> (fun a => (a, match broker a with Some s => [BrokerClose s] | None => [] end))
  end.

(** ** The connection *)

Definition connect (s : sock) (now : Z) (a : Agent) : Agent * list AgentOutput :=
  if stopped a then (a, [])
  else
    setStatus connecting a
    >> (fun a => (set_lastInboundAt now (set_keepalive (Some s) (set_broker (Some s) a)), [BrokerConnect s])).

(** A tick of the timer that watches [s]. *)
Definition keepalive_tick (s : sock) (now : Z) (a : Agent) : Agent * list AgentOutput :=
  if decide (keepalive a <> Some s) then (a, [])
  else if decide (broker a <> Some s) then (set_keepalive None a, [])
  else if KEEPALIVE_DEADLINE_MS <? now - lastInboundAt a
  then (set_keepalive None a, [BrokerTerminate s])
  else (a, [BrokerPing s]).

Definition broker_alive (now : Z) (a : Agent) : Agent := set_lastInboundAt now a.

Definition unsupported (code : Z) (a : Agent) : Agent * list AgentOutput :=
  if negb (code =? 426) then (a, [])
  else setStatus outdated (set_keepalive None (set_stopped true a)).

Definition broker_message (parsed : option TunnelServerMessage) (secret : bytes) (now : Z) (a : Agent)
    : Agent * list AgentOutput :=
  let a := broker_alive now a in
  match parsed with Some m => handle m secret a | None => (a, []) end.

Definition broker_close (s : sock) (a : Agent) : Agent * list AgentOutput :=
  if decide (broker a <> Some s) then (a, [])
  else
    teardownStreams (set_tunnelId None (set_broker None (set_keepalive None a)))
    >> (fun a =>
          if stopped a then if decide (status a <> outdated) then setStatus stopped_ a else (a, [])
          else
            setStatus disconnected a
            >> (fun a => (set_attempt (attempt a + 1) a, [ScheduleRetry (attempt a)]))).

(** ** The agent's interface *)

Definition start (s : sock) (now : Z) (a : Agent) : Agent * list AgentOutput :=
  connect s now (set_attempt 0 (set_stopped false a)).

Definition stop (a : Agent) : Agent * list AgentOutput :=
  teardownStreams (set_keepalive None (set_stopped true a))
  >> (fun a => (set_broker None a, match broker a with Some s => [BrokerClose s] | None => [] end))
  >> setStatus stopped_.

Definition addSessionKeys (keys : SessionKeys) (peer : option PeerIdentity) (a : Agent) : Agent :=
  let k := keyring a ++ [mkEntry keys peer] in
  set_keyring (if (MAX_KEYRING <? length k)%nat then drop 1 k else k) a.

Definition belongs_to (deviceId : string) (peer : option PeerIdentity) : bool :=
  match peer with Some p => bool_decide (pi_deviceId p = deviceId) | None => false end.

Definition bound_to (deviceId : string) (a : Agent) (o : nat) : bool :=
  match objects a !! o with Some s => belongs_to deviceId (ts_peer s) | None => false end.

(** The ids of the streams bound to a device. *)
Definition streams_of (deviceId : string) (a : Agent) : list string :=
  map fst (filter (fun p => bound_to deviceId a p.2) (map_to_list (streams a))).

Definition removeSessionKeys (deviceId : string) (a : Agent) : Z * (Agent * list AgentOutput) :=
  let kept := filter (fun e => negb (belongs_to deviceId (ke_peer e))) (keyring a) in
  (Z.of_nat (length (keyring a)) - Z.of_nat (length kept),
   drop_all (streams_of deviceId a) "revoked" true (set_keyring kept a)).
End Agent.
