(* ===== verification/AgentSafety.v ===== *)
(** * AgentSafety: what the agent lets through

    The agent of [TunnelAgent] as a state machine over whatever happens to it,
    and what holds on every run of it: only what paired devices sealed reaches
    the machine's own relay, only what was sealed for them leaves for the
    broker, and nothing passes the gate unasked. *)

From S2P Require Import Prelude Protocol Bytes Noble DeviceKey Kdf Frames PairingCode Sas TunnelAgent.
#[local] Open Scope agent_scope.

(** What can happen to an agent: a call of its interface, a message or an
    event of one of its sockets, a timer, or an await that is over. *)
Inductive AgentEvent :=
| Start (s : sock) (now : Z)
| Stop
| Retry (s : sock) (now : Z)
| BrokerMessage (parsed : option TunnelServerMessage) (secret : bytes) (now : Z)
| BrokerAlive (now : Z)
| BrokerClosed (s : sock)
| Unsupported (code : Z)
| Tick (s : sock) (now : Z)
| Resumed (o : nat) (salt : bytes)
| Gate (o : nat) (answer : option bool)
| LocalOpened (o : nat)
| LocalLine (o : nat) (line : string)
| LocalClosed (o : nat)
| AddKeys (keys : SessionKeys) (peer : option PeerIdentity)
| RemoveKeys (deviceId : string)
| Decided (k : nat) (decision : option AccessDecision).

Definition awaits_gate (w : Await) : bool := match w with Admitting _ _ => true | _ => false end.

(** An await can only be over if it was entered. *)
Definition enabled (ev : AgentEvent) (a : Agent) : bool :=
  match ev with
  | Resumed o _ => match objects a !! o ≫= ts_await with Some w => negb (awaits_gate w) | None => false end
  | Gate o _ => match objects a !! o ≫= ts_await with Some w => awaits_gate w | None => false end
  | _ => true
  end.

Section Run.
Context `{!Hex, !Sha256, !Ed25519, !Hkdf, !Aead, !X25519}.
Context (decode : bytes -> string) (deviceKey : DeviceKeyPair) (gated canAsk : bool).

Definition agent_step (ev : AgentEvent) (a : Agent) : Agent * list AgentOutput :=
  match ev with
  | Start s now => start s now a
  | Stop => stop a
  | Retry s now => connect s now a
  | BrokerMessage parsed secret now => broker_message deviceKey canAsk parsed secret now a
  | BrokerAlive now => (broker_alive now a, [])
  | BrokerClosed s => broker_close s a
  | Unsupported code => unsupported code a
  | Tick s now => keepalive_tick s now a
  | Resumed o salt => resume decode gated o salt None a
  | Gate o answer => resume decode gated o [] answer a
  | LocalOpened o => local_open o a
  | LocalLine o line => local_message o line a
  | LocalClosed o => local_close o a
  | AddKeys keys peer => (addSessionKeys keys peer a, [])
  | RemoveKeys deviceId => (removeSessionKeys deviceId a).2
  | Decided k decision => access_decided k decision a
  end.

Fixpoint agent_run (evs : list AgentEvent) (a : Agent) : option (Agent * list AgentOutput) :=
  match evs with
  | [] => Some (a, [])
  | ev :: evs =>
      if enabled ev a then
        let '(a, out) := agent_step ev a in
        '(a, out') ← agent_run evs a; Some (a, out ++ out')
      else None
  end.

Lemma agent_run_app evs ev a :
  agent_run (evs ++ [ev]) a =
  '(b, out) ← agent_run evs a;
  if enabled ev b then Some ((agent_step ev b).1, out ++ (agent_step ev b).2) else None.
Proof.
  revert a. induction evs as [|e evs IH]; intros a; cbn [agent_run app mbind option_bind].
  - destruct (enabled ev a); [|done]. destruct (agent_step ev a) as [b out]. cbn. by rewrite app_nil_r.
  - destruct (enabled e a); [|done]. destruct (agent_step e a) as [b out]. rewrite IH.
    destruct (agent_run evs b) as [[c out']|]; cbn [mbind option_bind]; [|done].
    destruct (enabled ev c); cbn [mbind option_bind]; [|done]. by rewrite (assoc_L app).
Qed.

(** Induction on a run, the last event first. *)
Lemma agent_run_ind (P : list AgentEvent -> Agent -> list AgentOutput -> Prop) :
  P [] createTunnelAgent [] ->
  (forall evs a out ev, agent_run evs createTunnelAgent = Some (a, out) -> P evs a out ->
     enabled ev a = true -> P (evs ++ [ev]) (agent_step ev a).1 (out ++ (agent_step ev a).2)) ->
  forall evs a out, agent_run evs createTunnelAgent = Some (a, out) -> P evs a out.
Proof.
  intros Hnil Hstep evs. induction evs as [|ev evs IH] using rev_ind; intros a out Hrun.
  - by injection Hrun as <- <-.
  - rewrite agent_run_app in Hrun. destruct (agent_run evs createTunnelAgent) as [[b out']|] eqn:Hb;
      cbn [mbind option_bind] in Hrun; [|done].
    destruct (enabled ev b) eqn:Hen; [|done]. injection Hrun as <- <-. by eapply Hstep; [|apply IH|].
Qed.
End Run.

(** ** Composing steps *)

(** [r] leaves a state satisfying [I] and writes only what satisfies [Q]. *)
Definition step_ok (I : Agent -> Prop) (Q : AgentOutput -> Prop) (r : Agent * list AgentOutput) : Prop :=
  I r.1 /\ Forall Q r.2.

Lemma step_ret I Q a out : I a -> Forall Q out -> step_ok I Q (a, out).
Proof. done. Qed.

Lemma step_seq (I J : Agent -> Prop) Q r f :
  step_ok I Q r -> (forall a, I a -> step_ok J Q (f a)) -> step_ok J Q (r >> f).
Proof.
  destruct r as [a out]. intros [Ha Hout] Hf. unfold then_. specialize (Hf a Ha).
  destruct (f a) as [b out']. destruct Hf. split; [done|]. by apply Forall_app.
Qed.

Lemma step_object (I : Agent -> Prop) Q o f a :
  I a -> (forall s, objects a !! o = Some s -> step_ok I Q (f s a)) -> step_ok I Q (with_object o f a).
Proof. intros Ha Hf. unfold with_object. destruct (objects a !! o) eqn:Ho; [by apply Hf|]. split; [done|constructor]. Qed.

Lemma send_ok (I : Agent -> Prop) (Q : AgentOutput -> Prop) m a :
  I a -> (forall s, Q (ToBroker s m)) -> step_ok I Q (send m a).
Proof. intros Ha Hm. split; [done|]. cbn. destruct (broker a); repeat constructor; auto. Qed.

(** ** Only what the paired devices sealed *)

Section Traffic.
Context `{!Hex, !Sha256, !Ed25519, !Hkdf, !Aead, !X25519}.
Context (decode : bytes -> string) (deviceKey : DeviceKeyPair) (gated canAsk : bool).

(** A frame of one of [key]'s subkeys, its salt in front or not, opens as [pt]. *)
Definition authentic (key : bytes) (dir : Direction) (blob pt : bytes) : Prop :=
  exists salt skip, (skip = 0%nat \/ skip = SALT_BYTES) /\
  aead_decrypt (derive key salt (SUBKEY_LABEL frame dir)) (nonceFor dir (readCounter (drop skip blob))) []
    (drop COUNTER_BYTES (drop skip blob)) = Some pt.

(** The frame a sealer of [key] makes of [pt] at counter [c]. *)
Definition frame_of (key : bytes) (dir : Direction) (salt : bytes) (c : Z) (pt : bytes) : bytes :=
  (if c =? 0 then salt else []) ++ be_bytes COUNTER_BYTES c
  ++ aead_encrypt (derive key salt (SUBKEY_LABEL frame dir)) (nonceFor dir c) [] pt.

Section Invariant.
Context (evs : list AgentEvent).

Definition added (e : KeyringEntry) : Prop := AddKeys (ke_keys e) (ke_peer e) ∈ evs.
Definition received (data : string) : Prop :=
  exists streamId secret now, BrokerMessage (Some (TunnelServerFrame streamId data)) secret now ∈ evs.
Definition said (line : string) : Prop := exists o, LocalLine o line ∈ evs.

(** A line of a frame that arrived, sealed under a pairing's key. *)
Definition inbound (line : string) : Prop :=
  exists e data blob pt, added e /\ received data /\ base64UrlToBytes (js data) = Ok blob /\
    authentic (k_c2s (ke_keys e)) c2s blob pt /\ line = decode pt.

(** A frame under a pairing's key of a line the relay said. *)
Definition outbound (blob : bytes) : Prop :=
  exists e line salt c, added e /\ said line /\
    blob = frame_of (k_s2c (ke_keys e)) s2c salt c (utf8 line).

Definition opener_ok (op : FrameOpener) : Prop :=
  op_direction op = c2s /\
  exists e salt, added e /\ op_key op = derive (k_c2s (ke_keys e)) salt (SUBKEY_LABEL frame c2s).
Definition sealer_ok (sl : FrameSealer) : Prop :=
  sl_direction sl = s2c /\
  exists e, added e /\ sl_key sl = derive (k_s2c (ke_keys e)) (sl_salt sl) (SUBKEY_LABEL frame s2c).
Definition arrived (blob : bytes) : Prop :=
  exists data, received data /\ base64UrlToBytes (js data) = Ok blob.

Definition await_ok (w : Await) : Prop :=
  match w with
  | Sealing r held _ => Forall said held /\ forall blob, r = Ok blob -> outbound blob
  | Trying blob _ e => added e /\ arrived blob
  | Admitting _ line => inbound line
  | Opening r => forall pt, r = Ok pt -> inbound (decode pt)
  end.
Definition job_ok (j : Job) : Prop :=
  match j with SealLine line => said line | OpenFrame data => received data end.

Definition stream_ok (s : Stream) : Prop :=
  (forall op, ts_opener s = Some op -> opener_ok op) /\
  (forall sl, ts_sealer s = Some sl -> sealer_ok sl) /\
  (forall w, ts_await s = Some w -> await_ok w) /\
  Forall job_ok (ts_chain s) /\ Forall inbound (ts_toLocal s) /\ Forall said (ts_toBroker s).

Definition traffic_inv (a : Agent) : Prop :=
  map_Forall (fun _ => stream_ok) (objects a) /\ Forall added (keyring a).

Definition traffic_ok (x : AgentOutput) : Prop :=
  match x with
  | LocalSend _ line => inbound line
  | ToBroker _ (TunnelFrameMessage _ data) =>
      exists blob, data = ascii_str (bytesToBase64Url blob) /\ outbound blob
  | _ => True
  end.

#[local] Notation fine := (step_ok traffic_inv traffic_ok).

(** *** The ciphers *)

Lemma authentic_open key skip salt f h op' pt :
  skip = 0%nat \/ skip = SALT_BYTES ->
  open (drop skip f) (mkOpener (derive key salt (SUBKEY_LABEL frame c2s)) c2s h) = (Ok pt, op') ->
  authentic key c2s f pt.
Proof.
  intros Hskip. unfold open. destruct (_ <=? _)%nat; [done|]. cbn [op_key op_direction op_highest].
  intros Hopen. exists salt, skip. split; [done|].
  destruct h as [n|]; [destruct (_ <=? n); [done|]|]; destruct (aead_decrypt _ _ _ _); naive_solver.
Qed.

Lemma frame_key_derive key salt dir sub :
  frame_key key salt dir frame = Ok sub -> sub = derive key salt (SUBKEY_LABEL frame dir).
Proof. unfold frame_key, deriveSubkey, importKey. repeat case_match; naive_solver. Qed.

Lemma open_same f op r op' :
  open f op = (r, op') -> op_key op' = op_key op /\ op_direction op' = op_direction op.
Proof. unfold open. repeat case_match; naive_solver. Qed.

Lemma opened_ok f op r op' :
  open f op = (r, op') -> opener_ok op -> arrived f ->
  opener_ok op' /\ forall pt, r = Ok pt -> inbound (decode pt).
Proof.
  intros Hopen [Hd (e & salt & He & Hk)] (data & Hrec & Hdata).
  destruct (open_same _ _ _ _ Hopen) as [Hk' Hd']. split.
  - split; [by rewrite Hd'|]. exists e, salt. by rewrite Hk'.
  - intros pt ->. exists e, data, f, pt. split_and!; try done.
    destruct op as [k d h]. cbn in Hk, Hd. subst.
    eapply (authentic_open _ 0); [by left|]. by rewrite drop_0.
Qed.

Lemma bound_ok e f op pt :
  bind (k_c2s (ke_keys e)) c2s f frame = Ok (op, pt) -> added e -> arrived f ->
  opener_ok op /\ inbound (decode pt).
Proof.
  intros Hbind He (data & Hrec & Hdata). unfold bind in Hbind.
  destruct (_ <=? _)%nat; [done|]. destruct (negb _); [done|]. unfold newOpener in Hbind.
  destruct (frame_key _ _ _ _) as [sub|] eqn:Hsub; [|done]. apply frame_key_derive in Hsub as ->.
  cbn [mbind result_bind] in Hbind. destruct (open _ _) as [[p|] op'] eqn:Hopen; [|done].
  injection Hbind as -> ->. destruct (open_same _ _ _ _ Hopen) as [Hk Hd]. split.
  - split; [done|]. by exists e, (take SALT_BYTES f).
  - exists e, data, f, pt. split_and!; try done.
    eapply (authentic_open _ SALT_BYTES); [by right|exact Hopen].
Qed.

Lemma newSealer_fine e salt sl :
  newSealer (k_s2c (ke_keys e)) s2c frame salt = Ok sl -> added e -> sealer_ok sl.
Proof.
  unfold newSealer. destruct (frame_key _ _ _ _) as [sub|] eqn:Hsub; [|done].
  apply frame_key_derive in Hsub as ->. intros [= <-] He. split; [done|]. by exists e.
Qed.

Lemma sealed_ok line sl r sl' :
  seal (utf8 line) sl = (r, sl') -> sealer_ok sl -> said line ->
  sealer_ok sl' /\ forall blob, r = Ok blob -> outbound blob.
Proof.
  intros Hseal [Hd (e & He & Hk)] Hl. unfold seal in Hseal.
  destruct sl as [k d salt c]. cbn in Hd, Hk, Hseal |- *. subst.
  destruct (MAX_COUNTER <? c); injection Hseal as <- <-; (split; [split; [done|]; by exists e|]); [done|].
  intros blob [= <-]. by exists e, line, salt, c.
Qed.

(** *** The operations *)

Lemma put_fine a o s : traffic_inv a -> stream_ok s -> traffic_inv (put o s a).
Proof. intros [Ho Hk] Hs. split; [|done]. by apply map_Forall_insert_2. Qed.

Lemma object_fine a o s : traffic_inv a -> objects a !! o = Some s -> stream_ok s.
Proof. intros [Ho _] Hs. by apply (Ho o). Qed.

#[local] Ltac field := intros (? & ? & ? & ? & ? & ?); intros; split_and!; cbn; try done; by intros ? [= <-].

Lemma await_fine s w : stream_ok s -> (forall w', w = Some w' -> await_ok w') -> stream_ok (st_await w s).
Proof. field. Qed.
Lemma chain_fine s c : stream_ok s -> Forall job_ok c -> stream_ok (st_chain c s).
Proof. field. Qed.
Lemma local_fine s b l : stream_ok s -> Forall inbound l -> stream_ok (st_local b l s).
Proof. field. Qed.
Lemma toBroker_fine s l : stream_ok s -> Forall said l -> stream_ok (st_toBroker l s).
Proof. field. Qed.
Lemma opener_fine s op : stream_ok s -> opener_ok op -> stream_ok (st_opener op s).
Proof. field. Qed.
Lemma sealer_fine s sl : stream_ok s -> sealer_ok sl -> stream_ok (st_sealer sl s).
Proof. field. Qed.
Lemma bind_fine s op sl p : stream_ok s -> opener_ok op -> sealer_ok sl -> stream_ok (st_bind op sl p s).
Proof. field. Qed.
Lemma close_fine s : stream_ok s -> stream_ok (st_close s).
Proof. field. Qed.

Lemma dropStream_fine id reason tell a : traffic_inv a -> fine (dropStream id reason tell a).
Proof.
  intros Ha. unfold dropStream. destruct (streams a !! id) as [o|]; [|by apply step_ret].
  apply step_object; [done|]. intros s Hs. destruct (ts_closed s); [by apply step_ret|].
  apply step_seq with (I := traffic_inv).
  - split; [|by repeat constructor]. apply (put_fine a o (st_close s)); [done|].
    by apply close_fine, (object_fine a o).
  - intros b Hb. destruct tell; [by apply send_ok|by apply step_ret].
Qed.

Lemma drop_all_fine ids reason tell a : traffic_inv a -> fine (drop_all ids reason tell a).
Proof.
  revert a. induction ids as [|id ids IH]; intros a Ha; [by apply step_ret|].
  cbn [drop_all]. by apply step_seq with (I := traffic_inv); [apply dropStream_fine|].
Qed.

Lemma teardown_fine a : traffic_inv a -> fine (teardownStreams a).
Proof.
  intros Ha. unfold teardownStreams.
  pose proof (drop_all_fine (map fst (map_to_list (streams a))) "agent shutting down" false a Ha) as H'.
  destruct (drop_all _ _ _ a) as [b out]. exact H'.
Qed.

Lemma writeLocal_fine o line a : traffic_inv a -> inbound line -> fine (writeLocal o line a).
Proof.
  intros Ha Hl. apply step_object; [done|]. intros s Hs. apply (object_fine a o s Ha) in Hs.
  destruct (ts_localOpen s); [apply step_ret; [done|by repeat constructor]|].
  apply step_ret; [|done]. apply put_fine; [done|]. apply local_fine; [done|].
  destruct Hs as (_ & _ & _ & _ & ? & _). apply Forall_app. by repeat constructor.
Qed.

Lemma start_seal_fine o line held flushing s sl a :
  traffic_inv a -> stream_ok s -> said line -> Forall said held -> sealer_ok sl ->
  traffic_inv (start_seal o line held flushing s sl a).
Proof.
  intros Ha Hs Hl Hh Hsl. unfold start_seal. destruct (seal (utf8 line) sl) as [r sl'] eqn:Hseal.
  destruct (sealed_ok _ _ _ _ Hseal Hsl Hl) as [Hsl' Hr].
  apply put_fine; [done|]. apply await_fine; [by apply sealer_fine|]. by intros ? [= <-].
Qed.

Lemma try_entry_fine o f index a : traffic_inv a -> arrived f -> fine (try_entry o f index a).
Proof.
  intros Ha Hf. apply step_object; [done|]. intros s Hs.
  destruct (keyring a !! index) as [e|] eqn:He; [|by apply dropStream_fine].
  apply step_ret; [|done]. apply put_fine; [done|]. apply await_fine; [by eapply object_fine|].
  intros w [= <-]. split; [|done]. destruct Ha as [_ Hk]. by eapply Forall_lookup_1.
Qed.

Lemma start_job_fine o j a : traffic_inv a -> job_ok j -> fine (start_job o j a).
Proof.
  intros Ha Hj. apply step_object; [done|]. intros s Hs. apply (object_fine a o s Ha) in Hs.
  destruct j as [line|data]; cbn in Hj |- *.
  - destruct (ts_sealer s) as [sl|] eqn:Hsl; apply step_ret; try done.
    + apply start_seal_fine; try done. by apply Hs.
    + apply put_fine; [done|]. apply toBroker_fine; [done|].
      destruct Hs as (_ & _ & _ & _ & _ & ?). apply Forall_app. by repeat constructor.
  - destruct (base64UrlToBytes (js data)) as [f|] eqn:Hf; [|by apply dropStream_fine].
    assert (arrived f) as Harr by by exists data.
    destruct (ts_opener s) as [op|] eqn:Hop; [|by apply try_entry_fine].
    destruct (open f op) as [r op'] eqn:Hopen.
    destruct (opened_ok _ _ _ _ Hopen) as [Hop' Hr]; [by apply Hs|done|].
    apply step_ret; [|done]. apply put_fine; [done|].
    apply await_fine; [by apply opener_fine|]. by intros ? [= <-].
Qed.

Lemma run_chain_fine o jobs a : traffic_inv a -> Forall job_ok jobs -> fine (run_chain o jobs a).
Proof.
  revert a. induction jobs as [|j jobs IH]; intros a Ha Hjobs; [by apply step_ret|].
  cbn [run_chain]. apply step_object; [done|]. intros s Hs. apply (object_fine a o s Ha) in Hs.
  apply Forall_cons in Hjobs as Hj. destruct Hj as [Hj Hjs].
  destruct (ts_await s).
  - apply step_ret; [|done]. apply put_fine; [done|]. by apply chain_fine.
  - apply step_seq with (I := traffic_inv); [|by intros; apply IH].
    apply start_job_fine; [|done]. apply put_fine; [done|]. by apply chain_fine.
Qed.

Lemma enqueue_fine o j a : traffic_inv a -> job_ok j -> fine (enqueue o j a).
Proof.
  intros Ha Hj. apply step_object; [done|]. intros s Hs. apply (object_fine a o s Ha) in Hs.
  assert (Forall job_ok (ts_chain s ++ [j])) as Hc.
  { apply Forall_app. split; [by apply Hs|by repeat constructor]. }
  destruct (ts_await s); [|by apply run_chain_fine].
  apply step_ret; [|done]. apply put_fine; [done|]. by apply chain_fine.
Qed.

Lemma flush_fine o held a : traffic_inv a -> Forall said held -> fine (flush o held a).
Proof.
  intros Ha Hh. destruct held as [|line held]; [by apply step_ret|]. cbn [flush].
  apply step_object; [done|]. intros s Hs. apply (object_fine a o s Ha) in Hs.
  destruct (ts_sealer s) as [sl|] eqn:Hsl; apply step_ret; try done.
  - apply Forall_cons in Hh as [? ?]. apply start_seal_fine; try done. by apply Hs.
  - apply put_fine; [done|]. apply toBroker_fine; [done|].
    apply Forall_app. split; [by apply Hs|done].
Qed.

Lemma let_through_fine o e line a : traffic_inv a -> inbound line -> fine (let_through o e line a).
Proof.
  intros Ha Hl. apply step_object; [done|]. intros s Hs. apply (object_fine a o s Ha) in Hs.
  apply step_seq with (I := traffic_inv); [apply step_seq with (I := traffic_inv)|].
  - apply step_ret; [|by repeat constructor]. apply put_fine; [done|]. by apply toBroker_fine.
  - intros b Hb. by apply writeLocal_fine.
  - intros b Hb. apply flush_fine; [done|]. by apply Hs.
Qed.

Lemma trial_fine o salt f index e s a :
  traffic_inv a -> stream_ok s -> added e -> arrived f -> objects a !! o = Some s ->
  fine (match bind (k_c2s (ke_keys e)) c2s f frame with
        | Err _ => try_entry o f (S index) a
        | Ok (op, plaintext) =>
            if ts_closed s then (a, [])
            else
              match newSealer (k_s2c (ke_keys e)) s2c frame salt with
              | Err _ => dropStream (ts_id s) "open failed" true (put o (st_opener op s) a)
              | Ok sl =>
                  if gated then
                    (put o (st_await (Some (Admitting e (decode plaintext))) (st_bind op sl (ke_peer e) s)) a,
                     [AskAdmit o (ke_peer e)])
                  else let_through o e (decode plaintext) (put o (st_bind op sl (ke_peer e) s) a)
              end
        end).
Proof.
  intros Ha Hs He Hf Ho. destruct (bind _ _ f frame) as [[op pt]|] eqn:Hbind; [|by apply try_entry_fine].
  destruct (bound_ok _ _ _ _ Hbind He Hf) as [Hop Hpt]. destruct (ts_closed s); [by apply step_ret|].
  destruct (newSealer _ _ _ _) as [sl|] eqn:Hsl.
  - apply newSealer_fine in Hsl; [|done]. pose proof (bind_fine s op sl (ke_peer e) Hs Hop Hsl) as Hs'.
    destruct gated.
    + apply step_ret; [|by repeat constructor]. apply put_fine; [done|].
      apply await_fine; [done|]. by intros ? [= <-].
    + apply let_through_fine; [|done]. by apply put_fine.
  - apply dropStream_fine, put_fine; [done|]. by apply opener_fine.
Qed.

Lemma resume_job_fine o salt answer a : traffic_inv a -> fine (resume_job decode gated o salt answer a).
Proof.
  intros Ha. apply step_object; [done|]. intros s Hs. apply (object_fine a o s Ha) in Hs.
  assert (stream_ok (st_await None s)) as Hs' by by apply await_fine.
  pose proof (put_fine a o _ Ha Hs') as Ha'.
  destruct (ts_await s) as [[[blob|e] held fl|f index e|e line|[pt|e]]|] eqn:Hw;
    [| | | | | |by apply step_ret]; destruct Hs as (_ & _ & Haw & _);
    specialize (Haw _ Hw); cbn [await_ok] in Haw; cbv beta iota zeta.
  - destruct Haw as [Hheld Hout]. apply step_seq with (I := traffic_inv);
      [|by intros; apply flush_fine].
    destruct (ts_closed (st_await None s)); [by apply step_ret|]. apply send_ok; [done|].
    intros ?. exists blob. auto.
  - by apply dropStream_fine.
  - destruct Haw. apply (trial_fine o salt f index e (st_await None s)); try done.
    apply lookup_insert_eq.
  - destruct answer as [[]|]; [| |by apply dropStream_fine];
      (destruct (ts_closed (st_await None s)); [by apply step_ret|]).
    + by apply let_through_fine.
    + by apply dropStream_fine.
  - destruct (ts_closed (st_await None s)); [by apply step_ret|]. apply writeLocal_fine; auto.
  - by apply dropStream_fine.
Qed.

Lemma resume_fine o salt answer a : traffic_inv a -> fine (resume decode gated o salt answer a).
Proof.
  intros Ha. apply step_seq with (I := traffic_inv); [by apply resume_job_fine|].
  intros b Hb. apply step_object; [done|]. intros s Hs. apply (object_fine b o s Hb) in Hs.
  destruct (ts_await s); [by apply step_ret|]. apply run_chain_fine; [done|apply Hs].
Qed.

Lemma openStream_fine id a : traffic_inv a -> fine (openStream id a).
Proof.
  intros [Ho Hk]. apply step_ret; [|by repeat constructor]. split; [|done].
  apply map_Forall_insert_2; [|done]. by split_and!.
Qed.

Lemma decideAccess_fine id pending key a : traffic_inv a -> fine (decideAccess canAsk id pending key a).
Proof.
  intros Ha. unfold decideAccess. destruct (access_secrets _ _ _) as [[keys sas]|]; [|by apply send_ok].
  destruct canAsk; cbn; [|by apply send_ok]. by apply step_ret; [|repeat constructor].
Qed.

Lemma handle_fine m secret a :
  traffic_inv a -> (forall id data, m = TunnelServerFrame id data -> received data) ->
  fine (handle deviceKey canAsk m secret a).
Proof.
  intros Ha Hm. destruct m as [ch|id|id|id why|id data|why|id com lab em|id key]; cbn [handle].
  - destruct (hexToBytes ch); [by apply send_ok|by apply step_ret; [|repeat constructor]].
  - apply step_seq with (I := traffic_inv); [|intros b Hb]; (apply step_ret; [done|by repeat constructor]).
  - by apply openStream_fine.
  - by apply dropStream_fine.
  - destruct (streams a !! id) as [o|]; [|by apply step_ret].
    apply step_object; [done|]. intros s _. destruct (ts_closed s); [by apply step_ret|].
    apply enqueue_fine; [done|]. by eapply Hm.
  - apply step_seq with (I := traffic_inv); [apply step_seq with (I := traffic_inv)|].
    + by apply step_ret; [|repeat constructor].
    + intros b Hb. by apply teardown_fine.
    + intros b Hb. apply step_ret; [done|]. by destruct (broker b); repeat constructor.
  - destruct (hexToBytes com); [by apply send_ok|by apply step_ret; [|repeat constructor]].
  - destruct (accessRequests a !! id); [|by apply step_ret]. by apply decideAccess_fine.
Qed.

#[local] Ltac quiet := apply step_ret; [done|by repeat constructor].

Lemma connect_fine s now a : traffic_inv a -> fine (connect s now a).
Proof.
  intros Ha. unfold connect. destruct (stopped a); [quiet|].
  by apply step_seq with (I := traffic_inv); [quiet|intros; quiet].
Qed.

Lemma broker_close_fine s a : traffic_inv a -> fine (broker_close s a).
Proof.
  intros Ha. unfold broker_close. case_decide; [quiet|].
  apply step_seq with (I := traffic_inv); [by apply teardown_fine|].
  intros b Hb. destruct (stopped b); [case_decide; quiet|].
  by apply step_seq with (I := traffic_inv); [quiet|intros; quiet].
Qed.

Lemma stop_fine a : traffic_inv a -> fine (stop a).
Proof.
  intros Ha. apply step_seq with (I := traffic_inv); [apply step_seq with (I := traffic_inv)|].
  - by apply teardown_fine.
  - intros b Hb. destruct (broker b); quiet.
  - intros b Hb. quiet.
Qed.

Lemma addSessionKeys_fine keys peer a :
  traffic_inv a -> AddKeys keys peer ∈ evs -> traffic_inv (addSessionKeys keys peer a).
Proof.
  intros [Ho Hk] Hev. split; [done|]. cbn [keyring addSessionKeys set_keyring].
  assert (Forall added (keyring a ++ [mkEntry keys peer])) as Hk'
    by (apply Forall_app; by repeat constructor).
  destruct (_ <? _)%nat; [by apply Forall_drop|done].
Qed.

Lemma removeSessionKeys_fine id a : traffic_inv a -> fine (removeSessionKeys id a).2.
Proof.
  intros [Ho Hk]. apply drop_all_fine. split; [done|]. cbn.
  rewrite Forall_forall in Hk |- *. intros e [_ He]%list_elem_of_filter. auto.
Qed.

Lemma access_decided_fine k d a : traffic_inv a -> fine (access_decided k d a).
Proof.
  intros Ha. unfold access_decided. destruct (asking a !! k) as [id|]; [|quiet].
  by destruct d as [[|]|]; apply send_ok.
Qed.

Lemma agent_step_fine ev a :
  ev ∈ evs -> traffic_inv a -> fine (agent_step decode deviceKey gated canAsk ev a).
Proof.
  intros Hev Ha. destruct ev; cbn [agent_step].
  - by apply connect_fine.
  - by apply stop_fine.
  - by apply connect_fine.
  - unfold broker_message. destruct parsed as [m|]; [|quiet]. apply handle_fine; [done|].
    intros id data ->. by exists id, secret, now.
  - quiet.
  - by apply broker_close_fine.
  - unfold unsupported. destruct (negb _); quiet.
  - unfold keepalive_tick. repeat case_decide; try quiet. destruct (_ <? _); quiet.
  - by apply resume_fine.
  - by apply resume_fine.
  - apply step_object; [done|]. intros s Hs. apply (object_fine a o s Ha) in Hs. apply step_ret.
    + by apply put_fine, local_fine.
    + destruct Hs as (_ & _ & _ & _ & Hl & _). by apply Forall_map.
  - apply enqueue_fine; [done|]. by exists o.
  - apply step_object; [done|]. intros s Hs. destruct (ts_closed s); [quiet|by apply dropStream_fine].
  - apply step_ret; [|done]. by apply addSessionKeys_fine.
  - by apply removeSessionKeys_fine.
  - by apply access_decided_fine.
Qed.
End Invariant.

Lemma traffic_run evs a out :
  agent_run decode deviceKey gated canAsk evs createTunnelAgent = Some (a, out) ->
  forall all, evs ⊆ all -> step_ok (traffic_inv all) (traffic_ok all) (a, out).
Proof.
  intros Hrun. pattern evs, a, out. revert evs a out Hrun. apply agent_run_ind.
  - intros all _. by apply step_ret; [split; [apply map_Forall_empty|constructor]|constructor].
  - intros evs a out ev _ IH _ all Hall.
    destruct (IH all) as [Ha Hout]; [set_solver|].
    destruct (agent_step_fine all ev a) as [Ha' Hout']; [set_solver|done|].
    apply step_ret; [done|]. by apply Forall_app.
Qed.

(** C7: only what a paired device sealed reaches the machine's own relay, and
    only what is sealed for one leaves it.  Whatever the broker does (frames
    invented, replayed, reordered or sent on the wrong stream, streams opened
    twice or closed at any moment) and however the awaits interleave, each line
    written to a loopback socket is the plaintext of a frame that arrived and
    authenticates under a subkey of a schedule that was added to the keyring;
    and each frame handed to the broker is a line the relay said, sealed under
    such a schedule. *)
Theorem only_paired_traffic evs a out
    (Hrun : agent_run decode deviceKey gated canAsk evs createTunnelAgent = Some (a, out)) :
  (forall o line, LocalSend o line ∈ out -> inbound evs line) /\
  (forall s streamId data, ToBroker s (TunnelFrameMessage streamId data) ∈ out ->
     exists blob, data = ascii_str (bytesToBase64Url blob) /\ outbound evs blob).
Proof.
  destruct (traffic_run evs a out Hrun evs ltac:(done)) as [_ Hout]. rewrite Forall_forall in Hout.
  split; [intros o line Hin|intros s streamId data Hin]; exact (Hout _ Hin).
Qed.
End Traffic.

(** ** The gate *)

(** The ids the broker opened streams under. *)
Definition opens (ev : AgentEvent) : list string :=
  match ev with BrokerMessage (Some (TunnelStreamOpenMessage id)) _ _ => [id] | _ => [] end.

Section Gate.
Context `{!Hex, !Sha256, !Ed25519, !Hkdf, !Aead, !X25519}.
Context (decode : bytes -> string) (deviceKey : DeviceKeyPair) (gated canAsk : bool).

Section Invariant.
Context (evs : list AgentEvent).

(** The gate, if there is one, let the stream of [o] in. *)
Definition admitted (o : nat) : Prop := gated = true -> Gate o (Some true) ∈ evs.

Definition waits (s : Stream) : bool := match ts_await s with Some w => awaits_gate w | None => false end.

(** What is bound is waiting at the gate or past it; [ex] is excused. *)
Definition stream_gate (ex : option nat) (o : nat) (s : Stream) : Prop :=
  (ts_toLocal s <> [] -> admitted o) /\
  (ts_closed s = false -> ts_opener s <> None -> waits s = true \/ admitted o \/ ex = Some o) /\
  (forall r, ts_await s = Some (Opening r) -> ts_opener s <> None).

(** The map of streams and the heap agree. *)
Record heap_wf (ids : list string) (heap : gmap nat Stream) (listed : gmap string nat) (next : nat) : Prop := {
  open_listed : forall o s, heap !! o = Some s -> ts_closed s = false -> listed !! ts_id s = Some o;
  listed_open : forall id o, listed !! id = Some o ->
    exists s, heap !! o = Some s /\ ts_id s = id /\ ts_closed s = false;
  allocated : forall o s, heap !! o = Some s -> (o < next)%nat;
  listed_opened : forall id, is_Some (listed !! id) -> id ∈ ids;
}.

Definition heap_ok (ids : list string) (a : Agent) : Prop :=
  heap_wf ids (objects a) (streams a) (nextObject a).

Definition gate_inv (ids : list string) (ex : option nat) (a : Agent) : Prop :=
  heap_ok ids a /\ map_Forall (stream_gate ex) (objects a).

Definition gate_ok (x : AgentOutput) : Prop := match x with LocalSend o _ => admitted o | _ => True end.

Definition idle (o : nat) (a : Agent) : Prop := forall s, objects a !! o = Some s -> ts_await s = None.

Lemma put_heap ids a o s s' :
  heap_ok ids a -> objects a !! o = Some s -> ts_id s' = ts_id s -> ts_closed s' = ts_closed s ->
  heap_ok ids (put o s' a).
Proof.
  intros [A1 A2 A3 A4] Ho Hid Hc. split; cbn; [| | |exact A4].
  - intros o' s'' Hs''. destruct (decide (o' = o)) as [->|Hne].
    + rewrite lookup_insert_eq in Hs''. injection Hs'' as <-. rewrite Hid, Hc. by apply A1.
    + rewrite lookup_insert_ne in Hs'' by done. by apply A1.
  - intros id o' Hl. destruct (A2 id o' Hl) as (s'' & Hs'' & Hi & Hcl).
    destruct (decide (o' = o)) as [->|Hne].
    + rewrite lookup_insert_eq. exists s'. rewrite Hs'' in Ho. injection Ho as ->. by rewrite Hid, Hc.
    + rewrite lookup_insert_ne by done. eauto.
  - intros o' s'' Hs''. destruct (decide (o' = o)) as [->|Hne]; [by eapply A3|].
    rewrite lookup_insert_ne in Hs'' by done. by eapply A3.
Qed.

Lemma put_gate ids ex a o s s' :
  gate_inv ids ex a -> objects a !! o = Some s -> ts_id s' = ts_id s -> ts_closed s' = ts_closed s ->
  stream_gate ex o s' -> gate_inv ids ex (put o s' a).
Proof.
  intros [Hh Hs] Ho Hid Hc Hg. split; [by eapply put_heap|]. by apply map_Forall_insert_2.
Qed.

Lemma put_idle a o s : ts_await s = None -> idle o (put o s a).
Proof. intros Hs s'. cbn. rewrite lookup_insert_eq. by intros [= <-]. Qed.

(** Closing the stream an id names. *)
Lemma close_heap ids a o s id :
  heap_ok ids a -> streams a !! id = Some o -> objects a !! o = Some s ->
  heap_ok ids (set_streams (delete id) (put o (st_close s) a)).
Proof.
  intros [A1 A2 A3 A4] Hid Ho. split; cbn.
  - intros o' s' Hs' Hc. destruct (decide (o' = o)) as [->|Hne].
    + rewrite lookup_insert_eq in Hs'. by injection Hs' as <-.
    + rewrite lookup_insert_ne in Hs' by done. specialize (A1 _ _ Hs' Hc).
      rewrite lookup_delete_ne; [done|]. intros Heq. congruence.
  - intros id' o' [Hne Hl]%lookup_delete_Some. destruct (A2 _ _ Hl) as (s' & Hs' & Hi & Hc).
    destruct (A2 _ _ Hid) as (s0 & Hs0 & Hi0 & _). exists s'. split; [|done].
    rewrite lookup_insert_ne; [done|]. intros <-. congruence.
  - intros o' s' Hs'. destruct (decide (o' = o)) as [->|Hne]; [by eapply A3|].
    rewrite lookup_insert_ne in Hs' by done. by eapply A3.
  - intros id' [x [_ Hx]%lookup_delete_Some]. apply A4. by exists x.
Qed.

Lemma close_gate ex o s : stream_gate ex o s -> stream_gate ex o (st_close s).
Proof. by intros (? & ? & ?). Qed.

(** *** The operations *)

Lemma dropStream_cases ids id reason tell a :
  heap_ok ids a ->
  (streams a !! id = None /\ dropStream id reason tell a = (a, [])) \/
  (exists o s, streams a !! id = Some o /\ objects a !! o = Some s /\ ts_closed s = false /\
     dropStream id reason tell a =
     (set_streams (delete id) (put o (st_close s) a),
      LocalClose o ::
      (if tell then match broker a with
                    | Some b => [ToBroker b (TunnelStreamCloseMessage id (Some reason))]
                    | None => []
                    end
       else []))).
Proof.
  intros Hh. unfold dropStream. destruct (streams a !! id) as [o|] eqn:Hid; [|by left]. right.
  destruct (listed_open _ _ _ _ Hh _ _ Hid) as (s & Hs & _ & Hc). exists o, s. split_and!; try done.
  unfold with_object. rewrite Hs, Hc. cbn. by destruct tell.
Qed.

#[local] Notation gated_step ids ex := (step_ok (gate_inv ids ex) gate_ok).

Lemma dropStream_gate ids ex id reason tell a :
  gate_inv ids ex a -> gated_step ids ex (dropStream id reason tell a).
Proof.
  intros [Hh Hs]. destruct (dropStream_cases ids id reason tell a Hh)
    as [[_ ->]|(o & s & Hid & Ho & _ & ->)]; [by apply step_ret|].
  apply step_ret.
  - split; [by apply close_heap|]. cbn. apply map_Forall_insert_2; [|done].
    by apply close_gate, (Hs o).
  - constructor; [done|]. destruct tell, (broker a); by repeat constructor.
Qed.

(** An excused stream that is dropped needs no excuse. *)
Lemma dropStream_excused ids o s reason tell a :
  gate_inv ids (Some o) a -> objects a !! o = Some s ->
  gated_step ids None (dropStream (ts_id s) reason tell a).
Proof.
  intros Hg Ho. pose proof (dropStream_gate ids (Some o) (ts_id s) reason tell a Hg) as [[Hh Hs] Hout].
  split; [|done]. split; [done|]. intros o' s' Hs'. destruct (Hs o' s' Hs') as (A1 & A2 & A3).
  split_and!; [done| |done]. intros Hc Hop. destruct (A2 Hc Hop) as [?|[?|[= <-]]]; [auto..|].
  exfalso. destruct Hg as [Hg _].
  destruct (dropStream_cases ids (ts_id s) reason tell a Hg) as [[Hid Heq]|(o' & s0 & Hid & Ho' & _ & Heq)];
    rewrite Heq in Hs'; cbn in Hs'.
  - assert (s' = s) as -> by congruence. pose proof (open_listed _ _ _ _ Hg o s Ho Hc). congruence.
  - destruct (decide (o' = o)) as [->|Hne].
    + rewrite lookup_insert_eq in Hs'. by injection Hs' as <-.
    + rewrite lookup_insert_ne in Hs' by done. assert (s' = s) as -> by congruence.
      pose proof (open_listed _ _ _ _ Hg o s Ho Hc). congruence.
Qed.

Lemma drop_all_gate ids ex l reason tell a :
  gate_inv ids ex a -> gated_step ids ex (drop_all l reason tell a).
Proof.
  revert a. induction l as [|id l IH]; intros a Ha; [by apply step_ret|].
  cbn [drop_all]. by apply step_seq with (I := gate_inv ids ex); [apply dropStream_gate|].
Qed.

Lemma drop_all_streams ids l reason tell a :
  heap_ok ids a ->
  heap_ok ids (drop_all l reason tell a).1 /\
  streams (drop_all l reason tell a).1 = filter (fun p => p.1 ∉ l) (streams a).
Proof.
  revert a. induction l as [|id l IH]; intros a Hh; cbn [drop_all].
  { split; [done|]. symmetry. apply map_filter_id. intros. apply not_elem_of_nil. }
  assert (heap_ok ids (dropStream id reason tell a).1 /\
    streams (dropStream id reason tell a).1 = delete id (streams a)) as [Hh' Hd].
  { destruct (dropStream_cases ids id reason tell a Hh) as [[Hid ->]|(o & s & Hid & Ho & _ & ->)].
    - split; [done|]. symmetry. by apply delete_id.
    - split; [by apply close_heap|done]. }
  unfold then_. destruct (dropStream id reason tell a) as [b out]. cbn in Hh', Hd.
  specialize (IH b Hh'). destruct (drop_all l reason tell b) as [c out']. cbn in IH |- *.
  destruct IH as [? ->]. split; [done|]. rewrite Hd. apply map_eq. intros id'.
  apply option_eq. intros o. rewrite !map_lookup_filter_Some, lookup_delete_Some. cbn.
  rewrite not_elem_of_cons. naive_solver.
Qed.

Lemma teardown_gate ids ex a :
  gate_inv ids ex a ->
  gated_step ids ex (teardownStreams a) /\ streams (teardownStreams a).1 = ∅.
Proof.
  intros Ha. unfold teardownStreams. set (l := map fst _).
  pose proof (drop_all_gate ids ex l "agent shutting down" false a Ha) as [Hg Hout].
  destruct (drop_all_streams ids l "agent shutting down" false a (proj1 Ha)) as [_ Hst].
  destruct (drop_all l _ false a) as [b out]. cbn in Hg, Hout, Hst.
  assert (streams b = ∅) as Hemp.
  { apply map_empty. intros id. rewrite Hst. apply map_lookup_filter_None. right.
    intros o Ho Hl. apply Hl.
    apply list_elem_of_In, (in_map fst _ (id, o)), list_elem_of_In. by apply elem_of_map_to_list. }
  split; [|done]. split; [|done]. cbn. destruct Hg as [[A1 A2 A3 A4] Hs]. split; [|done].
  rewrite Hemp in *. by split; cbn; [exact A1|exact A2|..].
Qed.

Lemma await_gate ex o s w :
  stream_gate ex o s -> ts_await s = None ->
  (forall r, w = Some (Opening r) -> ts_opener s <> None) -> stream_gate ex o (st_await w s).
Proof.
  intros (A1 & A2 & _) Hidle Hw. split_and!; [done| |exact Hw]. intros Hc Hop.
  destruct (A2 Hc Hop) as [Hwait|?]; [|by right]. unfold waits in Hwait. by rewrite Hidle in Hwait.
Qed.

Lemma writeLocal_gate ids ex o line a :
  gate_inv ids ex a -> admitted o -> gated_step ids ex (writeLocal o line a).
Proof.
  intros Ha Hadm. apply step_object; [done|]. intros s Hs.
  destruct (ts_localOpen s); [apply step_ret; [done|by repeat constructor]|].
  apply step_ret; [|done]. eapply put_gate; [done..|].
  destruct Ha as [_ Ha]. destruct (Ha o s Hs) as (A1 & A2 & A3). by split_and!; auto.
Qed.

Lemma start_seal_gate ids ex o line held flushing s sl a :
  gate_inv ids ex a -> objects a !! o = Some s -> ts_await s = None ->
  gate_inv ids ex (start_seal o line held flushing s sl a).
Proof.
  intros Ha Hs Hidle. unfold start_seal. destruct (seal _ _) as [r sl'].
  eapply put_gate; [done..|]. apply await_gate; [|done|done]. exact (proj2 Ha o s Hs).
Qed.

Lemma try_entry_gate ids ex o f index a :
  gate_inv ids ex a -> idle o a -> gated_step ids ex (try_entry o f index a).
Proof.
  intros Ha Hidle. apply step_object; [done|]. intros s Hs.
  destruct (keyring a !! index) as [e|]; [|by apply dropStream_gate].
  apply step_ret; [|done]. eapply put_gate; [done..|].
  apply await_gate; [by apply (proj2 Ha o)|by apply Hidle|done].
Qed.

Lemma start_job_gate ids ex o j a :
  gate_inv ids ex a -> idle o a -> gated_step ids ex (start_job o j a).
Proof.
  intros Ha Hidle. apply step_object; [done|]. intros s Hs.
  pose proof (proj2 Ha o s Hs) as Hg. specialize (Hidle s Hs) as Hw.
  destruct j as [line|data].
  - destruct (ts_sealer s) as [sl|] eqn:Hsl; (apply step_ret; [|done]).
    + by apply start_seal_gate.
    + by eapply put_gate.
  - destruct (base64UrlToBytes (js data)) as [f|]; [|by apply dropStream_gate].
    destruct (ts_opener s) as [op|] eqn:Hop; [|by apply try_entry_gate].
    destruct (open f op) as [r op']. apply step_ret; [|done]. eapply put_gate; [done..|].
    apply await_gate; [|done|done]. destruct Hg as (A1 & A2 & A3). split_and!; [done| |done].
    intros Hc _. apply A2; [done|]. by rewrite Hop.
Qed.

Lemma run_chain_gate ids ex o jobs a :
  gate_inv ids ex a -> gated_step ids ex (run_chain o jobs a).
Proof.
  revert a. induction jobs as [|j jobs IH]; intros a Ha; [by apply step_ret|].
  cbn [run_chain]. apply step_object; [done|]. intros s Hs. pose proof (proj2 Ha o s Hs) as Hg.
  destruct (ts_await s) eqn:Hw.
  - apply step_ret; [|done]. by eapply put_gate.
  - apply step_seq with (I := gate_inv ids ex); [|by apply IH].
    apply start_job_gate; [by eapply put_gate|by apply put_idle].
Qed.

Lemma enqueue_gate ids ex o j a : gate_inv ids ex a -> gated_step ids ex (enqueue o j a).
Proof.
  intros Ha. apply step_object; [done|]. intros s Hs. pose proof (proj2 Ha o s Hs) as Hg.
  destruct (ts_await s); [|by apply run_chain_gate]. apply step_ret; [|done]. by eapply put_gate.
Qed.

Lemma flush_gate ids ex o held a :
  gate_inv ids ex a -> idle o a -> gated_step ids ex (flush o held a).
Proof.
  intros Ha Hidle. destruct held as [|line held]; [by apply step_ret|]. cbn [flush].
  apply step_object; [done|]. intros s Hs. pose proof (proj2 Ha o s Hs) as Hg.
  destruct (ts_sealer s) as [sl|]; (apply step_ret; [|done]).
  - apply start_seal_gate; [done..|by apply Hidle].
  - by eapply put_gate.
Qed.

Lemma writeLocal_idle o line a : idle o a -> idle o (writeLocal o line a).1.
Proof.
  intros Hidle. unfold writeLocal, with_object. destruct (objects a !! o) as [s|] eqn:Hs; [|done].
  destruct (ts_localOpen s); [done|]. apply put_idle. exact (Hidle s Hs).
Qed.

(** Past the gate: everything of the stream may go through. *)
Lemma let_through_gate ids o e line a :
  gate_inv ids (Some o) a -> idle o a -> admitted o -> gated_step ids None (let_through o e line a).
Proof.
  intros Ha Hidle Hadm. assert (gate_inv ids None a) as Hn.
  { destruct Ha as [Hh Hs]. split; [done|]. intros o' s' Hs'. destruct (Hs o' s' Hs') as (A1 & A2 & A3).
    split_and!; [done| |done]. intros Hc Hop. destruct (A2 Hc Hop) as [?|[?|[= <-]]]; auto. }
  apply step_object; [done|]. intros s Hs. specialize (Hidle s Hs).
  apply step_seq with (I := fun a => gate_inv ids None a /\ idle o a).
  - apply step_seq with (I := fun a => gate_inv ids None a /\ idle o a).
    + apply step_ret; [|by repeat constructor]. split; [|by apply put_idle].
      eapply put_gate; [done..|]. exact (proj2 Hn o s Hs).
    + intros b [Hb Hi]. destruct (writeLocal_gate ids None o line b Hb Hadm).
      split; [|done]. split; [done|]. by apply writeLocal_idle.
  - intros b [Hb Hi]. by apply flush_gate.
Qed.

(** The gate's answers are those of the run. *)
Definition answered (o : nat) (answer : option bool) : Prop := answer = Some true -> admitted o.

Lemma trial_gate ids o salt f index e s a :
  gate_inv ids (Some o) a -> objects a !! o = Some s -> ts_await s = None ->
  (ts_closed s = false -> ts_opener s <> None -> admitted o) ->
  gated_step ids None
    (match bind (k_c2s (ke_keys e)) c2s f frame with
     | Err _ => try_entry o f (S index) a
     | Ok (op, plaintext) =>
         if ts_closed s then (a, [])
         else
           match newSealer (k_s2c (ke_keys e)) s2c frame salt with
           | Err _ => dropStream (ts_id s) "open failed" true (put o (st_opener op s) a)
           | Ok sl =>
               if gated then
                 (put o (st_await (Some (Admitting e (decode plaintext))) (st_bind op sl (ke_peer e) s)) a,
                  [AskAdmit o (ke_peer e)])
               else let_through o e (decode plaintext) (put o (st_bind op sl (ke_peer e) s) a)
           end
     end).
Proof.
  intros Ha Hs Hw Hadm. pose proof (proj2 Ha o s Hs) as (A1 & A2 & A3).
  assert (gate_inv ids None a) as Hn.
  { destruct Ha as [Hh Hst]. split; [done|]. intros o' s' Hs'. destruct (Hst o' s' Hs') as (B1 & B2 & B3).
    split_and!; [done| |done]. intros Hc Hop. destruct (B2 Hc Hop) as [?|[?|[= <-]]]; [auto..|].
    right; left. apply Hadm; congruence. }
  destruct (bind _ _ f frame) as [[op pt]|]; [|apply try_entry_gate; [done|]; intros s'; congruence].
  destruct (ts_closed s) eqn:Hc; [by apply step_ret|]. destruct (newSealer _ _ _ _) as [sl|].
  - destruct gated eqn:Hgated.
    + apply step_ret; [|by repeat constructor]. eapply put_gate; [done..|]. by split_and!; auto.
    + assert (admitted o) as Hin by (unfold admitted; by rewrite Hgated).
      apply let_through_gate; [|by apply put_idle|done]. eapply put_gate; [done..|]. by split_and!; auto.
  - change (ts_id s) with (ts_id (st_opener op s)). apply (dropStream_excused _ o).
    + eapply put_gate; [done..|]. split_and!; auto.
    + apply lookup_insert_eq.
Qed.

Lemma resume_job_gate ids o salt answer a :
  gate_inv ids None a ->
  (forall s, objects a !! o = Some s -> waits s = true -> answered o answer) ->
  gated_step ids None (resume_job decode gated o salt answer a).
Proof.
  intros Ha Hans. apply step_object; [done|]. intros s Hs. specialize (Hans s Hs).
  pose proof (proj2 Ha o s Hs) as Hg. destruct Hg as (A1 & A2 & A3).
  assert (gate_inv ids (Some o) (put o (st_await None s) a)) as Hex.
  { eapply put_gate; [|done..|].
    - destruct Ha as [Hh Hst]. split; [done|]. intros o' s' Hs'.
      destruct (Hst o' s' Hs') as (B1 & B2 & B3). split_and!; [done| |done].
      intros Hc Hop. destruct (B2 Hc Hop) as [?|[?|?]]; auto.
    - split_and!; auto. }
  assert (waits s = false -> gate_inv ids None (put o (st_await None s) a)) as Hn.
  { intros Hw. eapply put_gate; [done..|]. split_and!; [done| |done].
    intros Hc Hop. destruct (A2 Hc Hop) as [?|?]; [congruence|auto]. }
  assert (objects (put o (st_await None s) a) !! o = Some (st_await None s)) as Hl
    by apply lookup_insert_eq.
  assert (idle o (put o (st_await None s) a)) as Hidle by by apply put_idle.
  destruct (ts_await s) as [[[blob|er] held fl|f index e|e line|[pt|er]]|] eqn:Hw;
    cbv beta iota zeta; unfold waits in Hans, Hn, A2; rewrite Hw in Hans, Hn, A2;
    cbn [awaits_gate] in Hans, Hn, A2.
  - specialize (Hn eq_refl).
    apply step_seq with (I := fun a => gate_inv ids None a /\ idle o a);
      [|intros b [Hb Hi]; by apply flush_gate].
    destruct (ts_closed (st_await None s)); [by apply step_ret|]. by apply send_ok.
  - by apply dropStream_gate, Hn.
  - apply (trial_gate ids o salt f index e (st_await None s)); try done.
    intros Hc Hop. destruct (A2 Hc Hop) as [?|[?|?]]; done.
  - specialize (Hans eq_refl). destruct answer as [[]|].
    + destruct (ts_closed (st_await None s)) eqn:Hc; [|by apply let_through_gate; auto].
      apply step_ret; [|done]. eapply put_gate; [done..|]. split_and!; [done| |done].
      cbn in Hc |- *. congruence.
    + destruct (ts_closed (st_await None s)) eqn:Hc; [|by apply (dropStream_excused ids o)].
      apply step_ret; [|done]. eapply put_gate; [done..|]. split_and!; [done| |done].
      cbn in Hc |- *. congruence.
    + by apply (dropStream_excused ids o).
  - specialize (Hn eq_refl). destruct (ts_closed (st_await None s)) eqn:Hc; [by apply step_ret|].
    apply writeLocal_gate; [done|]. destruct (A2 Hc (A3 _ eq_refl)) as [?|[?|?]]; done.
  - by apply dropStream_gate, Hn.
  - by apply step_ret; [apply Hn|].
Qed.

Lemma resume_gate ids o salt answer a :
  gate_inv ids None a ->
  (forall s, objects a !! o = Some s -> waits s = true -> answered o answer) ->
  gated_step ids None (resume decode gated o salt answer a).
Proof.
  intros Ha Hans. apply step_seq with (I := gate_inv ids None); [by apply resume_job_gate|].
  intros b Hb. apply step_object; [done|]. intros s Hs.
  destruct (ts_await s); [by apply step_ret|]. by apply run_chain_gate.
Qed.

Lemma openStream_gate ids id a :
  gate_inv ids None a -> id ∉ ids -> gated_step (ids ++ [id]) None (openStream id a).
Proof.
  intros [[A1 A2 A3 A4] Hs] Hid. apply step_ret; [|by repeat constructor].
  assert (objects a !! nextObject a = None) as Hfresh.
  { destruct (objects a !! nextObject a) as [s|] eqn:Ho; [|done]. apply A3 in Ho. lia. }
  split.
  - split; cbn.
    + intros o s Ho Hc. destruct (decide (o = nextObject a)) as [->|Hne].
      * rewrite lookup_insert_eq in Ho. injection Ho as <-. apply lookup_insert_eq.
      * rewrite lookup_insert_ne in Ho by done. specialize (A1 _ _ Ho Hc).
        rewrite lookup_insert_ne; [done|]. intros ->. apply Hid, A4. by eexists.
    + intros id' o Hl. destruct (decide (id' = id)) as [->|Hne].
      * rewrite lookup_insert_eq in Hl. injection Hl as <-. rewrite lookup_insert_eq. by eexists.
      * rewrite lookup_insert_ne in Hl by done. destruct (A2 _ _ Hl) as (s & Ho & ?).
        exists s. rewrite lookup_insert_ne; [done|]. intros <-. congruence.
    + intros o s Ho. destruct (decide (o = nextObject a)) as [->|Hne]; [lia|].
      rewrite lookup_insert_ne in Ho by done. apply A3 in Ho. lia.
    + intros id' [o Hl]. destruct (decide (id' = id)) as [->|Hne]; [set_solver|].
      rewrite lookup_insert_ne in Hl by done. apply elem_of_app. left. apply A4. by exists o.
  - cbn. apply map_Forall_insert_2; [|done]. by split_and!.
Qed.

#[local] Ltac quiet := apply step_ret; [done|by repeat constructor].
#[local] Notation inv ids := (gate_inv ids None).

Lemma decideAccess_gate ids id pending key a :
  inv ids a -> gated_step ids None (decideAccess canAsk id pending key a).
Proof.
  intros Ha. unfold decideAccess. destruct (access_secrets _ _ _) as [[keys sas]|]; [|by apply send_ok].
  destruct canAsk; cbn; [quiet|by apply send_ok].
Qed.

(** Every message but the opening of a stream keeps the ids. *)
Lemma handle_gate ids m secret a :
  inv ids a -> (forall id, m <> TunnelStreamOpenMessage id) ->
  gated_step ids None (handle deviceKey canAsk m secret a).
Proof.
  intros Ha Hm. destruct m as [ch|id|id|id why|id data|why|id com lab em|id key]; cbn [handle].
  - destruct (hexToBytes ch); [by apply send_ok|quiet].
  - apply step_seq with (I := inv ids); [quiet|intros b Hb; quiet].
  - by destruct (Hm id).
  - by apply dropStream_gate.
  - destruct (streams a !! id) as [o|]; [|quiet]. apply step_object; [done|].
    intros s _. destruct (ts_closed s); [quiet|by apply enqueue_gate].
  - apply step_seq with (I := inv ids); [apply step_seq with (I := inv ids)|].
    + quiet.
    + intros b Hb. by apply teardown_gate.
    + intros b Hb. destruct (broker b); quiet.
  - destruct (hexToBytes com); [by apply send_ok|quiet].
  - destruct (accessRequests a !! id); [|quiet]. by apply decideAccess_gate.
Qed.

Lemma connect_gate ids s now a : inv ids a -> gated_step ids None (connect s now a).
Proof.
  intros Ha. unfold connect. destruct (stopped a); [quiet|].
  by apply step_seq with (I := inv ids); [quiet|intros; quiet].
Qed.

Lemma broker_close_gate ids s a : inv ids a -> gated_step ids None (broker_close s a).
Proof.
  intros Ha. unfold broker_close. case_decide; [quiet|].
  apply step_seq with (I := inv ids); [by apply teardown_gate|].
  intros b Hb. destruct (stopped b); [case_decide; quiet|].
  by apply step_seq with (I := inv ids); [quiet|intros; quiet].
Qed.

Lemma stop_gate ids a : inv ids a -> gated_step ids None (stop a).
Proof.
  intros Ha. apply step_seq with (I := inv ids); [apply step_seq with (I := inv ids)|].
  - by apply teardown_gate.
  - intros b Hb. destruct (broker b); quiet.
  - intros b Hb. quiet.
Qed.

Lemma agent_step_same ids ev a :
  ev ∈ evs -> enabled ev a = true -> opens ev = [] -> inv ids a ->
  gated_step ids None (agent_step decode deviceKey gated canAsk ev a).
Proof.
  intros Hev Hen Hop Ha. destruct ev; cbn [agent_step].
  - by apply connect_gate.
  - by apply stop_gate.
  - by apply connect_gate.
  - unfold broker_message. destruct parsed as [m|]; [|quiet]. apply handle_gate; [done|]. by intros id ->.
  - quiet.
  - by apply broker_close_gate.
  - unfold unsupported. destruct (negb _); quiet.
  - unfold keepalive_tick. repeat case_decide; try quiet. destruct (_ <? _); quiet.
  - by apply resume_gate.
  - apply resume_gate; [done|]. intros s _ _ -> _. exact Hev.
  - apply step_object; [done|]. intros s Hs. pose proof (proj2 Ha o s Hs) as (A1 & A2 & A3). apply step_ret.
    + eapply put_gate; [done..|]. by split_and!.
    + apply Forall_map, Forall_forall. intros line Hline. apply A1. intros Heq.
      rewrite Heq in Hline. by apply not_elem_of_nil in Hline.
  - by apply enqueue_gate.
  - apply step_object; [done|]. intros s Hs. destruct (ts_closed s); [quiet|by apply dropStream_gate].
  - quiet.
  - by apply drop_all_gate.
  - unfold access_decided. destruct (asking a !! k) as [id|]; [|quiet]. by destruct decision as [[|]|]; apply send_ok.
Qed.

Lemma agent_step_gate ids ev a :
  ev ∈ evs -> enabled ev a = true -> NoDup (ids ++ opens ev) -> inv ids a ->
  gated_step (ids ++ opens ev) None (agent_step decode deviceKey gated canAsk ev a).
Proof.
  intros Hev Hen Hnd Ha. destruct (opens ev) as [|id l] eqn:Hop.
  { rewrite app_nil_r. by apply agent_step_same. }
  destruct ev; try done. destruct parsed as [[]|]; try done. injection Hop as <- <-.
  apply NoDup_app in Hnd as (_ & Hnd & _). apply openStream_gate; [done|].
  intros Hin. apply (Hnd _ Hin). left.
Qed.
End Invariant.

Lemma gate_run evs a out :
  agent_run decode deviceKey gated canAsk evs createTunnelAgent = Some (a, out) ->
  NoDup (evs ≫= opens) ->
  forall all, evs ⊆ all -> step_ok (gate_inv all (evs ≫= opens) None) (gate_ok all) (a, out).
Proof.
  intros Hrun. pattern evs, a, out. revert evs a out Hrun. apply agent_run_ind.
  - intros _ all _. apply step_ret; [|done]. split; [|apply map_Forall_empty].
    split; cbn; try done. by intros id [o Ho].
  - intros evs a out ev _ IH Hen Hnd all Hall. rewrite bind_app in Hnd |- *. cbn [mbind list_bind] in Hnd |- *.
    rewrite app_nil_r in Hnd |- *. destruct (IH (proj1 (proj1 (NoDup_app _ _) Hnd)) all) as [Ha Hout]; [set_solver|].
    destruct (agent_step_gate all (evs ≫= opens) ev a) as [Ha' Hout']; [set_solver|done..|].
    apply step_ret; [done|]. by apply Forall_app.
Qed.

(** C8: nothing passes the gate unasked.  An agent with a gate writes a line to
    the relay on a stream only if the gate was asked about that very stream
    and said yes (never on a refusal, nor when asking failed, nor while the
    answer is out, however many frames are queued behind it), as long as the
    broker opens no stream id twice. *)
Theorem gate_holds evs a out o line
    (Hrun : agent_run decode deviceKey gated canAsk evs createTunnelAgent = Some (a, out))
    (Hgated : gated = true) (Hopens : NoDup (evs ≫= opens)) :
  LocalSend o line ∈ out -> Gate o (Some true) ∈ evs.
Proof.
  destruct (gate_run evs a out Hrun Hopens evs ltac:(done)) as [_ Hout]. rewrite Forall_forall in Hout.
  intros Hin. exact (Hout _ Hin Hgated).
Qed.
End Gate.
