(* ===== verification/AgentAccess.v ===== *)
(** * AgentAccess: who the agent lets pair, and for how long

    The rest of what [TunnelAgent] promises: an approval answers a human who
    was shown the digits of a committed key, a removed device is gone, a lost
    broker is called again with bounded delays; and runs that show where the
    code falls short of it. *)

From S2P Require Import Prelude Protocol Bytes Noble DeviceKey Kdf Frames PairingCode Sas TunnelAgent AgentSafety.
#[local] Open Scope agent_scope.

(** ** What the streams leave alone *)

Record Aside := mkAside {
  as_requests : gmap string PendingAccess;
  as_asking : gmap nat string;
  as_keyring : list KeyringEntry;
  as_broker : option sock;
  as_stopped : bool;
}.

Definition aside (a : Agent) : Aside :=
  mkAside (accessRequests a) (asking a) (keyring a) (broker a) (stopped a).

(** No word on a pairing request, and no call to try again. *)
Definition aside_ok (x : AgentOutput) : Prop :=
  match x with
  | AskAccess _ _ | ToBroker _ (PairApprovedMessage _ _) | ScheduleRetry _ => False
  | _ => True
  end.

Section Aside.
Context `{!Hex, !Sha256, !Ed25519, !Hkdf, !Aead, !X25519}.
Context (decode : bytes -> string) (deviceKey : DeviceKeyPair) (gated canAsk : bool).
Context (v : Aside).

Definition apart (a : Agent) : Prop := aside a = v.
#[local] Notation quiet := (step_ok apart aside_ok).
#[local] Ltac hush := apply step_ret; [done|by repeat constructor].

Lemma dropStream_aside id reason tell a : apart a -> quiet (dropStream id reason tell a).
Proof.
  intros Ha. unfold dropStream. destruct (streams a !! id) as [o|]; [|hush].
  apply step_object; [done|]. intros s _. destruct (ts_closed s); [hush|].
  apply step_seq with (I := apart); [hush|]. intros b Hb. destruct tell; [by apply send_ok|hush].
Qed.

Lemma drop_all_aside l reason tell a : apart a -> quiet (drop_all l reason tell a).
Proof.
  revert a. induction l as [|id l IH]; intros a Ha; [hush|].
  by apply step_seq with (I := apart); [apply dropStream_aside|].
Qed.

Lemma teardown_aside a : apart a -> quiet (teardownStreams a).
Proof.
  intros Ha. unfold teardownStreams.
  pose proof (drop_all_aside (map fst (map_to_list (streams a))) "agent shutting down" false a Ha) as Hall.
  destruct (drop_all _ _ _ a) as [b out]. exact Hall.
Qed.

Lemma writeLocal_aside o line a : apart a -> quiet (writeLocal o line a).
Proof. intros Ha. apply step_object; [done|]. intros s _. destruct (ts_localOpen s); hush. Qed.

Lemma start_seal_aside o line held fl s sl a : apart a -> apart (start_seal o line held fl s sl a).
Proof. intros Ha. unfold start_seal. by destruct (seal _ _). Qed.

Lemma try_entry_aside o f index a : apart a -> quiet (try_entry o f index a).
Proof.
  intros Ha. apply step_object; [done|]. intros s _.
  destruct (keyring a !! index); [hush|by apply dropStream_aside].
Qed.

Lemma start_job_aside o j a : apart a -> quiet (start_job o j a).
Proof.
  intros Ha. apply step_object; [done|]. intros s _. destruct j as [line|data].
  - destruct (ts_sealer s); [|hush]. apply step_ret; [by apply start_seal_aside|done].
  - destruct (base64UrlToBytes _) as [f|]; [|by apply dropStream_aside].
    destruct (ts_opener s) as [op|]; [|by apply try_entry_aside]. destruct (open f op). hush.
Qed.

Lemma run_chain_aside o jobs a : apart a -> quiet (run_chain o jobs a).
Proof.
  revert a. induction jobs as [|j jobs IH]; intros a Ha; [hush|]. cbn [run_chain].
  apply step_object; [done|]. intros s _. destruct (ts_await s); [hush|].
  by apply step_seq with (I := apart); [apply start_job_aside|].
Qed.

Lemma enqueue_aside o j a : apart a -> quiet (enqueue o j a).
Proof.
  intros Ha. apply step_object; [done|]. intros s _. destruct (ts_await s); [hush|by apply run_chain_aside].
Qed.

Lemma flush_aside o held a : apart a -> quiet (flush o held a).
Proof.
  intros Ha. destruct held as [|line held]; [hush|]. apply step_object; [done|]. intros s _.
  destruct (ts_sealer s); [|hush]. apply step_ret; [by apply start_seal_aside|done].
Qed.

Lemma let_through_aside o e line a : apart a -> quiet (let_through o e line a).
Proof.
  intros Ha. apply step_object; [done|]. intros s _.
  apply step_seq with (I := apart); [apply step_seq with (I := apart)|]; [hush|..]; intros b Hb.
  - by apply writeLocal_aside.
  - by apply flush_aside.
Qed.

Lemma resume_aside o salt answer a : apart a -> quiet (resume decode gated o salt answer a).
Proof.
  intros Ha. apply step_seq with (I := apart).
  - apply step_object; [done|]. intros s _.
    destruct (ts_await s) as [[[blob|er] held fl|f index e|e line|[pt|er]]|];
      cbv beta iota zeta; try by apply dropStream_aside.
    + apply step_seq with (I := apart); [|intros b Hb; by apply flush_aside].
      destruct (ts_closed _); [hush|by apply send_ok].
    + destruct (bind _ _ f frame) as [[op pt]|]; [|by apply try_entry_aside].
      destruct (ts_closed _); [hush|]. destruct (newSealer _ _ _ _); [|by apply dropStream_aside].
      destruct gated; [hush|by apply let_through_aside].
    + destruct answer as [[]|]; [| |by apply dropStream_aside].
      * destruct (ts_closed _); [hush|by apply let_through_aside].
      * destruct (ts_closed _); [hush|by apply dropStream_aside].
    + destruct (ts_closed _); [hush|by apply writeLocal_aside].
    + hush.
  - intros b Hb. apply step_object; [done|]. intros s _.
    destruct (ts_await s); [hush|by apply run_chain_aside].
Qed.

(** The events that do touch a pairing request, the keyring or the connection. *)
Definition touches (ev : AgentEvent) : bool :=
  match ev with
  | Start _ _ | Stop | Retry _ _ | BrokerClosed _ | Unsupported _ | AddKeys _ _ | RemoveKeys _ | Decided _ _
  | BrokerMessage (Some (PairRequestMessage _ _ _ _ | PairServerReveal _ _)) _ _ => true
  | _ => false
  end.

Lemma handle_aside m secret a :
  touches (BrokerMessage (Some m) secret 0) = false -> apart a -> quiet (handle deviceKey canAsk m secret a).
Proof.
  intros Hm Ha. destruct m as [ch|id|id|id why|id data|why|id com lab em|id key]; cbn [handle]; try done.
  - destruct (hexToBytes ch); [by apply send_ok|hush].
  - apply step_seq with (I := apart); [hush|intros b Hb; hush].
  - hush.
  - by apply dropStream_aside.
  - destruct (streams a !! id) as [o|]; [|hush]. apply step_object; [done|].
    intros s _. destruct (ts_closed s); [hush|by apply enqueue_aside].
  - apply step_seq with (I := apart); [apply step_seq with (I := apart)|]; [hush|..]; intros b Hb.
    + by apply teardown_aside.
    + destruct (broker b); hush.
Qed.

Lemma agent_step_aside ev a :
  touches ev = false -> apart a -> quiet (agent_step decode deviceKey gated canAsk ev a).
Proof.
  intros Hev Ha. destruct ev; try done; cbn [agent_step].
  - unfold broker_message. destruct parsed as [m|]; [by apply handle_aside|hush].
  - unfold keepalive_tick. repeat case_decide; try hush. destruct (_ <? _); hush.
  - by apply resume_aside.
  - by apply resume_aside.
  - apply step_object; [done|]. intros s _. apply step_ret; [done|]. apply Forall_map.
    by apply Forall_true.
  - by apply enqueue_aside.
  - apply step_object; [done|]. intros s _. destruct (ts_closed s); [hush|by apply dropStream_aside].
Qed.
End Aside.

(** ** Approvals *)

Section Access.
Context `{!Hex, !Sha256, !Ed25519, !Hkdf, !Aead, !X25519}.
Context (decode : bytes -> string) (deviceKey : DeviceKeyPair) (gated canAsk : bool).

(** A request the broker announced, with the key drawn for it. *)
Definition requested (evs : list AgentEvent) (id : string) (p : PendingAccess) : Prop :=
  exists commitment secret now,
    BrokerMessage (Some (PairRequestMessage id commitment (pa_deviceLabel p) (pa_accountEmail p))) secret now ∈ evs /\
    hexToBytes commitment = Ok (pa_commitment p) /\ pa_ephemeral p = newEphemeralKey secret.

(** The key revealed for [req] is the one committed to, and what the human is
    shown and the keys at stake are derived from it. *)
Definition committed (evs : list AgentEvent) (req : AccessRequest) : Prop :=
  exists p keyHex key ikm secret now,
    requested evs (ac_requestId req) p /\
    BrokerMessage (Some (PairServerReveal (ac_requestId req) keyHex)) secret now ∈ evs /\
    hexToBytes keyHex = Ok key /\
    pa_commitment p = sasCommitment key (ac_requestId req) /\
    x_getSharedSecret (eph_secret (pa_ephemeral p)) key = Some ikm /\
    let transcript := sasTranscript (ac_requestId req) (pa_commitment p) key (eph_publicKey (pa_ephemeral p)) in
    ac_sas req = deriveSas ikm transcript /\ ac_keys req = deriveSessionKeys ikm transcript /\
    ac_deviceLabel req = pa_deviceLabel p /\ ac_accountEmail req = pa_accountEmail p.

Definition access_ok (evs : list AgentEvent) (out : list AgentOutput) (x : AgentOutput) : Prop :=
  match x with
  | AskAccess _ req => committed evs req
  | ToBroker _ (PairApprovedMessage id sealed) =>
      exists k req, AskAccess k req ∈ out /\ ac_requestId req = id /\
        Decided k (Some (Approved sealed)) ∈ evs
  | _ => True
  end.

Record access_inv (evs : list AgentEvent) (out : list AgentOutput) (a : Agent) : Prop := {
  pending_requested : forall id p, accessRequests a !! id = Some p -> requested evs id p;
  asking_asked : forall k id, asking a !! k = Some id ->
    exists req, AskAccess k req ∈ out /\ ac_requestId req = id;
  outputs_fine : Forall (access_ok evs out) out;
}.

Lemma requested_mono evs evs' id p : evs ⊆ evs' -> requested evs id p -> requested evs' id p.
Proof. intros Hsub (c & s & n & ? & ?). exists c, s, n. auto. Qed.

Lemma access_ok_mono evs evs' out out' x :
  evs ⊆ evs' -> out ⊆ out' -> access_ok evs out x -> access_ok evs' out' x.
Proof.
  intros He Ho. destruct x; try done; cbn.
  - destruct m; try done. intros (k & req & ? & ? & ?). exists k, req. auto.
  - intros (p & kh & key & ikm & s & n & ? & ? & ?). exists p, kh, key, ikm, s, n.
    split; [by eapply requested_mono|]. auto.
Qed.

(** One more event: what it does to the requests is what it must. *)
Lemma access_extend evs out a ev a' out' :
  access_inv evs out a ->
  (forall id p, accessRequests a' !! id = Some p ->
     accessRequests a !! id = Some p \/ requested (evs ++ [ev]) id p) ->
  (forall k id, asking a' !! k = Some id ->
     asking a !! k = Some id \/ exists req, AskAccess k req ∈ out' /\ ac_requestId req = id) ->
  Forall (access_ok (evs ++ [ev]) (out ++ out')) out' ->
  access_inv (evs ++ [ev]) (out ++ out') a'.
Proof.
  intros [B1 B2 B3] C1 C2 C3. split.
  - intros id p Hp. destruct (C1 _ _ Hp) as [Hold|?]; [|done].
    eapply requested_mono; [|by apply B1]. set_solver.
  - intros k id Hk. destruct (C2 _ _ Hk) as [Hold|(req & ? & ?)].
    + destruct (B2 _ _ Hold) as (req & ? & ?). exists req. set_solver.
    + exists req. set_solver.
  - apply Forall_app. split; [|done]. eapply Forall_impl; [exact B3|].
    intros x. apply access_ok_mono; set_solver.
Qed.

Lemma access_secrets_committed id p keyHex keys sas :
  access_secrets id p keyHex = Some (keys, sas) ->
  exists key ikm, hexToBytes keyHex = Ok key /\ pa_commitment p = sasCommitment key id /\
    x_getSharedSecret (eph_secret (pa_ephemeral p)) key = Some ikm /\
    let transcript := sasTranscript id (pa_commitment p) key (eph_publicKey (pa_ephemeral p)) in
    sas = deriveSas ikm transcript /\ keys = deriveSessionKeys ikm transcript.
Proof.
  unfold access_secrets. destruct (hexToBytes keyHex) as [key|]; cbn [ok_option mbind option_bind]; [|done].
  destruct (verifySasCommitment _ key id) eqn:Hv; cbn [negb]; [|done].
  unfold sasSharedSecret. destruct (x_getSharedSecret _ key) as [ikm|] eqn:Hx; [|done].
  destruct (forallb _ ikm); cbn [ok_option mbind option_bind]; [done|]. intros [= <- <-].
  exists key, ikm. split_and!; try done. by apply constantTimeEqual_iff.
Qed.

#[local] Notation step ev a := (agent_step decode deviceKey gated canAsk ev a).
#[local] Notation inv_after evs out ev r :=
  (let '(a', out') := r in access_inv (evs ++ [ev]) (out ++ out') a').

(** A message sent, at most a request and a question fewer. *)
Lemma access_send evs out a ev b m :
  access_inv evs out a ->
  (forall id p, accessRequests b !! id = Some p -> accessRequests a !! id = Some p) ->
  (forall k id, asking b !! k = Some id -> asking a !! k = Some id) ->
  (forall s, access_ok (evs ++ [ev]) out (ToBroker s m)) ->
  inv_after evs out ev (send m b).
Proof.
  intros Ha Hreq Hask Hm. eapply access_extend; [exact Ha|..].
  - intros id p Hp. left. auto.
  - intros k id Hk. left. auto.
  - cbn. destruct (broker b); constructor; [|done]. eapply access_ok_mono; [done| |by apply Hm]. set_solver.
Qed.

Lemma request_access evs out a id com lab em secret now :
  access_inv evs out a ->
  let ev := BrokerMessage (Some (PairRequestMessage id com lab em)) secret now in
  inv_after evs out ev (step ev a).
Proof.
  intros Ha. cbn [agent_step broker_message handle].
  destruct (hexToBytes com) as [c|] eqn:Hc; [|eapply access_extend; eauto; by repeat constructor].
  eapply access_extend; [exact Ha| |by left|].
  - intros id' p. cbn. intros [[<- <-]|[_ Hp]]%lookup_insert_Some; [right|by left].
    exists com, secret, now. split_and!; [|done..]. apply elem_of_app. right. left.
  - cbn. destruct (broker a); by repeat constructor.
Qed.

Lemma reveal_access evs out a id key secret now :
  access_inv evs out a ->
  let ev := BrokerMessage (Some (PairServerReveal id key)) secret now in
  inv_after evs out ev (step ev a).
Proof.
  intros Ha. cbn [agent_step broker_message handle accessRequests broker_alive set_lastInboundAt].
  destruct (accessRequests a !! id) as [p|] eqn:Hp; [|by eapply access_extend; eauto].
  assert (forall id' p', delete id (accessRequests a) !! id' = Some p' ->
    accessRequests a !! id' = Some p') as Hdel by by intros id' p' [_ ?]%lookup_delete_Some.
  unfold decideAccess.
  destruct (access_secrets id p key) as [[keys sas]|] eqn:Hsec; [|by apply access_send with (a := a)].
  destruct (negb canAsk); [by apply access_send with (a := a)|]. eapply access_extend; [exact Ha| | |].
  - intros id' p' Hp'. left. by apply Hdel.
  - intros k' id'. cbn. intros [[<- <-]|[_ ?]]%lookup_insert_Some; [right|by left].
    eexists. split; [left|done].
  - constructor; [|done].
    destruct (access_secrets_committed _ _ _ _ _ Hsec) as (kb & ikm & Hk & Hcom & Hx & Hs & Hks).
    exists p, key, kb, ikm, secret, now. cbn [ac_requestId ac_sas ac_keys ac_deviceLabel ac_accountEmail].
    split_and!; try done; [|apply elem_of_app; right; left].
    eapply requested_mono; [|by apply (pending_requested _ _ _ Ha)]. set_solver.
Qed.

Lemma decided_access evs out a k d :
  access_inv evs out a -> inv_after evs out (Decided k d) (step (Decided k d) a).
Proof.
  intros Ha. cbn [agent_step]. unfold access_decided.
  destruct (asking a !! k) as [id|] eqn:Hk; [|by eapply access_extend; eauto].
  assert (forall k' id', delete k (asking a) !! k' = Some id' -> asking a !! k' = Some id') as Hdel
    by by intros k' id' [_ ?]%lookup_delete_Some.
  destruct d as [[sealed|why]|]; (apply access_send with (a := a); [done..|]); intros s; try done.
  destruct (asking_asked _ _ _ Ha _ _ Hk) as (req & Hreq & Hid). exists k, req.
  split_and!; try done. apply elem_of_app. right. left.
Qed.

(** What says nothing on requests changes nothing. *)
Definition aside_access (x : AgentOutput) : Prop :=
  match x with AskAccess _ _ | ToBroker _ (PairApprovedMessage _ _) => False | _ => True end.

Lemma apart_access evs out a ev b out' :
  access_inv evs out a -> accessRequests b = accessRequests a -> asking b = asking a ->
  Forall aside_access out' -> access_inv (evs ++ [ev]) (out ++ out') b.
Proof.
  intros Ha Hreq Hask Hout. eapply access_extend; [exact Ha|..].
  - intros id p. left. congruence.
  - intros k id. left. congruence.
  - eapply Forall_impl; [exact Hout|]. intros [] Hx; try done. by destruct m.
Qed.

Lemma aside_weaken out : Forall aside_ok out -> Forall aside_access out.
Proof. intros Hout. eapply Forall_impl; [exact Hout|]. by intros [] Hx. Qed.

(** The requests as they were. *)
Definition keeps (a b : Agent) : Prop := accessRequests b = accessRequests a /\ asking b = asking a.

(** A step of the connection, over the streams it tears down. *)
Lemma apart_step evs out a ev r :
  access_inv evs out a ->
  step_ok (keeps a) aside_access r ->
  inv_after evs out ev r.
Proof. destruct r as [b out']. intros Ha [[? ?] ?]. by eapply apart_access. Qed.

Lemma teardown_access a :
  step_ok (fun b => accessRequests b = accessRequests a /\ asking b = asking a /\
             broker b = broker a /\ stopped b = stopped a) aside_access (teardownStreams a) /\
  Forall aside_ok (teardownStreams a).2.
Proof.
  destruct (teardown_aside (aside a) a eq_refl) as [Hap Hout]. unfold apart, aside in Hap.
  injection Hap as ? ? ? ? ?. split; [|done]. split; [by split_and!|by apply aside_weaken].
Qed.

#[local] Ltac hush := apply step_ret; [done|by repeat constructor].

Lemma connection_access evs out a ev :
  access_inv evs out a ->
  match ev with Start _ _ | Stop | Retry _ _ | BrokerClosed _ | Unsupported _ => True | _ => False end ->
  inv_after evs out ev (step ev a).
Proof.
  intros Ha Hev. apply apart_step with (a := a); [done|]. destruct ev; try done; cbn [agent_step].
  - by apply step_seq with (I := keeps a);
      [hush|intros b []; hush].
  - destruct (teardown_access (set_keepalive None (set_stopped true a))) as [[(Hr & Hk & _) Hout] _].
    unfold stop. apply step_seq with (I := keeps a);
      [apply step_seq with (I := keeps a)|].
    + done.
    + intros b []. destruct (broker b); hush.
    + intros b []. hush.
  - unfold connect. destruct (stopped a); [hush|].
    by apply step_seq with (I := keeps a);
      [hush|intros b []; hush].
  - unfold broker_close. case_decide; [hush|].
    destruct (teardown_access (set_tunnelId None (set_broker None (set_keepalive None a)))) as [[(Hr & Hk & _) Hout] _].
    apply step_seq with (I := keeps a); [done|].
    intros b []. destruct (stopped b); [case_decide; hush|hush].
  - unfold unsupported. destruct (negb _); hush.
Qed.

Lemma touched_access evs out a ev :
  access_inv evs out a -> touches ev = true -> inv_after evs out ev (step ev a).
Proof.
  intros Ha Hev. destruct ev as [| | |[m|] secret now| | | | | | | | | |keys peer|d|k d]; try done;
    try by apply connection_access.
  - destruct m; try done; [by apply request_access|by apply reveal_access].
  - by apply apart_access with (a := a).
  - cbn [agent_step removeSessionKeys snd]. set (kept := filter _ (keyring a)).
    destruct (drop_all_aside (mkAside (accessRequests a) (asking a) kept (broker a) (stopped a))
      (streams_of d a) "revoked" true (set_keyring kept a) eq_refl) as [Hap Hout].
    destruct (drop_all _ _ _ _) as [b out']. unfold apart, aside in Hap. cbn in Hap, Hout.
    injection Hap as Hreq Hask _ _ _. apply apart_access with (a := a); try done. by apply aside_weaken.
  - by apply decided_access.
Qed.

Lemma access_run evs a out :
  agent_run decode deviceKey gated canAsk evs createTunnelAgent = Some (a, out) -> access_inv evs out a.
Proof.
  intros Hrun. pattern evs, a, out. revert evs a out Hrun. apply agent_run_ind.
  - split; [intros id p|intros k id|constructor]; cbn; by rewrite lookup_empty.
  - intros evs a out ev _ Ha _. destruct (touches ev) eqn:Hev.
    + pose proof (touched_access evs out a ev Ha Hev) as Hstep.
      by destruct (agent_step decode deviceKey gated canAsk ev a).
    + destruct (agent_step_aside decode deviceKey gated canAsk (aside a) ev a Hev eq_refl) as [Hap Hout].
      unfold apart, aside in Hap. destruct (agent_step decode deviceKey gated canAsk ev a) as [b out'].
      cbn in Hap, Hout |- *. injection Hap as Hreq Hask _ _ _. apply apart_access with (a := a); try done. by apply aside_weaken.
Qed.

(** C6: the agent approves a pairing request only on a human's word about the
    key the browser was committed to.  On every run, whatever the broker
    sends, each approval it returns is the decision on a question put to the
    human; and the digits of every question, and the keys an approval would
    hand out, are derived from a revealed key that matches the commitment that
    was announced with the request, before the agent's own fresh key was
    shown. *)
Theorem approval_needs_commitment evs a out
    (Hrun : agent_run decode deviceKey gated canAsk evs createTunnelAgent = Some (a, out)) :
  (forall s id sealed, ToBroker s (PairApprovedMessage id sealed) ∈ out ->
     exists k req, AskAccess k req ∈ out /\ ac_requestId req = id /\
       Decided k (Some (Approved sealed)) ∈ evs) /\
  (forall k req, AskAccess k req ∈ out -> committed evs req).
Proof.
  pose proof (outputs_fine _ _ _ (access_run evs a out Hrun)) as Hout. rewrite Forall_forall in Hout.
  split; [intros s id sealed Hin|intros k req Hin]; exact (Hout _ Hin).
Qed.
End Access.

(** ** Removing a device *)

Section Removal.
Context `{!Hex, !Sha256, !Ed25519, !Hkdf, !Aead, !X25519}.
Context (decode : bytes -> string) (deviceKey : DeviceKeyPair) (gated canAsk : bool).

(** Closing streams changes nobody's device and tells of each one. *)
Lemma drop_all_told ids l reason a :
  heap_ok ids a ->
  (forall o s', objects (drop_all l reason true a).1 !! o = Some s' ->
     exists s, objects a !! o = Some s /\ ts_peer s' = ts_peer s) /\
  (forall id o, id ∈ l -> streams a !! id = Some o ->
     LocalClose o ∈ (drop_all l reason true a).2 /\
     forall b, broker a = Some b ->
       ToBroker b (TunnelStreamCloseMessage id (Some reason)) ∈ (drop_all l reason true a).2).
Proof.
  revert a. induction l as [|i l IH]; intros a Hh; cbn [drop_all].
  { split; [eauto|]. by intros id o ?%not_elem_of_nil. }
  destruct (dropStream_cases ids i reason true a Hh) as [[Hi Heq]|(o & s & Hi & Ho & Hc & Heq)];
    rewrite Heq; cbn [then_].
  - destruct (IH a Hh) as [IH1 IH2]. destruct (drop_all l reason true a) as [b out]. cbn in *.
    split; [done|]. intros id o' [->|Hin]%elem_of_cons Hid; [congruence|by apply IH2].
  - assert (heap_ok ids (set_streams (delete i) (put o (st_close s) a))) as Hh' by by apply close_heap.
    destruct (IH _ Hh') as [IH1 IH2].
    destruct (drop_all l reason true (set_streams (delete i) (put o (st_close s) a))) as [b out].
    cbn in IH1, IH2 |- *. split.
    + intros o' s' Hs'. destruct (IH1 o' s' Hs') as (s1 & Hs1 & Hp).
      destruct (decide (o' = o)) as [->|Hne].
      * rewrite lookup_insert_eq in Hs1. injection Hs1 as <-. by exists s.
      * rewrite lookup_insert_ne in Hs1 by done. eauto.
    + intros id o' Hin Hid. destruct (decide (id = i)) as [->|Hne].
      * assert (o' = o) as -> by congruence. split; [left|]. intros bk ->. right. left.
      * apply elem_of_cons in Hin as [?|Hin]; [done|].
        destruct (IH2 id o' Hin) as [Hl Ht]; [by rewrite lookup_delete_ne|].
        split; [right; apply elem_of_app; by right|].
        intros bk Hbk. right. apply elem_of_app. right. by apply Ht.
Qed.

Lemma streams_of_spec d a id o :
  streams a !! id = Some o -> id ∈ streams_of d a <-> bound_to d a o = true.
Proof.
  intros Hid. unfold streams_of. rewrite list_elem_of_In, in_map_iff. split.
  - intros ([id' o'] & Hfst & Hin). cbn in Hfst. subst id'.
    apply list_elem_of_In, list_elem_of_filter in Hin as [Hb Hin].
    apply elem_of_map_to_list in Hin. rewrite Hid in Hin. injection Hin as <-. by apply Is_true_true.
  - intros Hb. exists (id, o). split; [done|]. apply list_elem_of_In, list_elem_of_filter.
    split; [by apply Is_true_true|]. by apply elem_of_map_to_list.
Qed.

(** Removing a device removes it.  Whatever the agent went through before,
    [removeSessionKeys] leaves no key schedule of the device and no live stream
    bound to it, closes the loopback socket of each such stream and tells the
    broker, touches no other device's schedules (whose order it keeps) or
    streams, and returns how many schedules went. *)
Theorem removed_device_is_gone evs a out d n a' out'
    (Hrun : agent_run decode deviceKey gated canAsk evs createTunnelAgent = Some (a, out))
    (Hopens : NoDup (evs ≫= opens)) (Hrem : removeSessionKeys d a = (n, (a', out'))) :
  (forall e, e ∈ keyring a' -> belongs_to d (ke_peer e) = false) /\
  keyring a' `sublist_of` keyring a /\
  (forall e, e ∈ keyring a -> belongs_to d (ke_peer e) = false -> e ∈ keyring a') /\
  n = Z.of_nat (length (keyring a)) - Z.of_nat (length (keyring a')) /\
  (forall id o, streams a !! id = Some o -> bound_to d a o = true ->
     streams a' !! id = None /\ LocalClose o ∈ out' /\
     forall b, broker a = Some b -> ToBroker b (TunnelStreamCloseMessage id (Some "revoked")) ∈ out') /\
  (forall id o, streams a' !! id = Some o <-> streams a !! id = Some o /\ bound_to d a o = false).
Proof.
  destruct (gate_run decode deviceKey gated canAsk evs a out Hrun Hopens evs ltac:(done)) as [[Hh _] _].
  unfold removeSessionKeys in Hrem. set (kept := filter _ (keyring a)) in Hrem.
  destruct (drop_all_aside (mkAside (accessRequests a) (asking a) kept (broker a) (stopped a))
    (streams_of d a) "revoked" true (set_keyring kept a) eq_refl) as [Hap _].
  destruct (drop_all_streams (evs ≫= opens) (streams_of d a) "revoked" true (set_keyring kept a) Hh) as [_ Hst].
  destruct (drop_all_told (evs ≫= opens) (streams_of d a) "revoked" (set_keyring kept a) Hh) as [_ Htold].
  destruct (drop_all _ _ _ _) as [b out1]. injection Hrem as <- <- <-.
  unfold apart, aside in Hap. cbn in Hap, Hst, Htold. injection Hap as _ _ Hk _ _. rewrite Hk.
  assert (forall id o, streams b !! id = Some o <-> streams a !! id = Some o /\ bound_to d a o = false) as Hlive.
  { intros id o. rewrite Hst, map_lookup_filter_Some. cbn. split; intros [Hid Hb]; (split; [done|]).
    - apply not_true_is_false. by rewrite <- (streams_of_spec d a id o Hid).
    - rewrite (streams_of_spec d a id o Hid). by rewrite Hb. }
  split_and!; try done.
  - intros e [He _]%list_elem_of_filter. by apply negb_prop_elim, Is_true_false in He.
  - apply sublist_filter.
  - intros e He Hb. apply list_elem_of_filter. split; [by rewrite Hb|done].
  - intros id o Hid Hb. destruct (Htold id o) as [Hc Ht]; [by apply (streams_of_spec d a id o)|done|].
    split; [|done]. destruct (streams b !! id) as [o'|] eqn:Hs; [|done].
    apply Hlive in Hs as [? ?]. congruence.
Qed.
End Removal.

(** ** Coming back *)

(** The backoff: from half a second to half a minute, whatever is drawn. *)
Lemma retry_delay_bounds n rnd den :
  0 <= n -> 0 <= rnd < den -> BASE_BACKOFF_MS / 2 <= retry_delay n rnd den < MAX_BACKOFF_MS.
Proof.
  intros Hn Hrnd. unfold retry_delay, BASE_BACKOFF_MS, MAX_BACKOFF_MS.
  assert (1 <= 2 ^ n) as Hpow by (pose proof (Z.pow_pos_nonneg 2 n); lia).
  set (h := Z.min (1000 * 2 ^ n) 30000 / 2).
  assert (500 <= h <= 15000) as Hh by (subst h; split; [apply Z.div_le_lower_bound|apply Z.div_le_upper_bound]; lia).
  assert (0 <= rnd * h / den < h) as Hq.
  2:{ change (1000 / 2) with 500. generalize dependent (rnd * h / den). clearbody h. lia. }
  split; [apply Z.div_pos; nia|]. apply Z.div_lt_upper_bound; nia.
Qed.

Section Liveness.
Context `{!Hex, !Sha256, !Ed25519, !Hkdf, !Aead, !X25519}.
Context (decode : bytes -> string) (deviceKey : DeviceKeyPair) (gated canAsk : bool).

(** A call to try again that has not run yet. *)
Definition retry_due (evs : list AgentEvent) : Prop :=
  exists pre ev post b out n,
    evs = pre ++ ev :: post /\
    agent_run decode deviceKey gated canAsk pre createTunnelAgent = Some (b, out) /\
    ScheduleRetry n ∈ (agent_step decode deviceKey gated canAsk ev b).2 /\
    forall s now, Retry s now ∉ post.

Definition connected_or_due (evs : list AgentEvent) (a : Agent) : Prop :=
  stopped a = false -> is_Some (broker a) \/ retry_due evs.

Lemma retry_due_snoc evs ev :
  (forall s now, ev <> Retry s now) -> retry_due evs -> retry_due (evs ++ [ev]).
Proof.
  intros Hev (pre & e & post & b & out & n & -> & Hrun & Hs & Hno).
  exists pre, e, (post ++ [ev]), b, out, n. split_and!; [by rewrite <- (assoc_L app)|done|done|].
  intros s now [Hin|Hin%list_elem_of_singleton]%elem_of_app; [by eapply Hno|by eapply Hev].
Qed.

Lemma connected_same evs ev a b :
  (forall s now, ev <> Retry s now) -> broker b = broker a -> stopped b = stopped a ->
  connected_or_due evs a -> connected_or_due (evs ++ [ev]) b.
Proof.
  intros Hev Hb Hs Ha Hst. rewrite Hb. destruct Ha as [?|?]; [congruence|by left|right].
  by apply retry_due_snoc.
Qed.

Lemma connected_step evs a out ev :
  agent_run decode deviceKey gated canAsk evs createTunnelAgent = Some (a, out) ->
  connected_or_due evs a ->
  connected_or_due (evs ++ [ev]) (agent_step decode deviceKey gated canAsk ev a).1.
Proof.
  intros Hrun Ha. destruct (touches ev) eqn:Htouch.
  - destruct ev as [s now| |s now|[m|] secret now| |s|code| | | | | | |keys peer|d|k d]; try done; cbn [agent_step].
    + intros _. left. by eexists.
    + intros Hst. exfalso. revert Hst. unfold stop.
      destruct (teardown_access (set_keepalive None (set_stopped true a))) as [[(_ & _ & _ & Hs) _] _].
      destruct (teardownStreams _) as [b out']. cbn in Hs |- *. by rewrite Hs.
    + unfold connect. destruct (stopped a) eqn:Hs; [intros Hst; cbn in Hst; congruence|].
      intros _. left. by eexists.
    + apply connected_same with (a := a); try done; destruct m; try done; cbn [broker_message handle];
        repeat case_match; try done; unfold decideAccess; repeat case_match; done.
    + unfold broker_close. case_decide; [by apply connected_same with (a := a)|].
      destruct (teardown_access (set_tunnelId None (set_broker None (set_keepalive None a)))) as [[(_ & _ & _ & Hs) _] _].
      destruct (teardownStreams _) as [b out'] eqn:Htd. cbn in Hs |- *. rewrite Hs.
      destruct (stopped a) eqn:Hst; [case_decide; intros Hf; cbn in Hf; congruence|].
      intros _. right. exists evs, (BrokerClosed s), [], a, out, (attempt b). split_and!; try done.
      * cbn [agent_step]. unfold broker_close. destruct (decide (broker a <> Some s)); [done|].
        rewrite Htd. cbn. rewrite Hs.
        cbn. apply elem_of_app. right. right. left.
      * intros s' now. apply not_elem_of_nil.
    + unfold unsupported. destruct (negb _); [by apply connected_same with (a := a)|done].
    + by apply connected_same with (a := a).
    + set (kept := filter (fun e => negb (belongs_to d (ke_peer e))) (keyring a)).
      destruct (drop_all_aside (mkAside (accessRequests a) (asking a) kept (broker a) (stopped a))
        (streams_of d a) "revoked" true (set_keyring kept a) eq_refl) as [Hap _].
      injection Hap as _ _ _ Hb Hs. by apply connected_same with (a := a).
    + apply connected_same with (a := a); try done; unfold access_decided; repeat case_match; done.
  - destruct (agent_step_aside decode deviceKey gated canAsk (aside a) ev a Htouch eq_refl) as [Hap _].
    unfold apart, aside in Hap. injection Hap as _ _ _ Hb Hs. apply connected_same with (a := a); try done.
    by intros s now ->.
Qed.

(** An agent that was started does not give up.  After any run in which it
    was started, unless it was stopped or told that it is outdated, it holds a
    broker socket or has a reconnection scheduled that has not run; losing the
    broker, in any state, schedules one.  (The delay is between half a second
    and half a minute: [retry_delay_bounds].) *)
Theorem never_gives_up evs a out
    (Hrun : agent_run decode deviceKey gated canAsk evs createTunnelAgent = Some (a, out)) :
  (exists s now, Start s now ∈ evs) -> stopped a = false -> is_Some (broker a) \/ retry_due evs.
Proof.
  assert ((exists s now, Start s now ∈ evs) -> connected_or_due evs a) as Hall; [|done].
  pattern evs, a, out. revert evs a out Hrun. apply agent_run_ind.
  - intros (s & now & Hin). by apply not_elem_of_nil in Hin.
  - intros evs a out ev Hrun IH _ (s & now & [Hin|Hin%list_elem_of_singleton]%elem_of_app).
    + eapply connected_step; [exact Hrun|]. apply IH. eauto.
    + subst ev. intros _. left. cbn. by eexists.
Qed.
End Liveness.

(** ** Runs of the agent

    Concrete runs of [TunnelAgent] on toy ciphers: the ones the theorems apply
    to, and the ones that show where the code does less than it means to. *)

Module AgentDemo.
Import Toy.

Definition keys : SessionKeys := mkKeys (replicate 32 7) (replicate 32 8) (replicate 32 9) "token".
Definition phone : PeerIdentity := mkPeer "phone" "iPhone" true.
Definition machine : DeviceKeyPair := mkDeviceKey "machine" [1] [1].
Definition salt : bytes := replicate 16 1.

(** The browser's frames, as the broker relays them. *)
Definition sealed : list string :=
  match newSealer (k_c2s keys) c2s frame salt with
  | Ok sl => match seal_all [utf8 "auth"; utf8 "ls"] sl with
             | Ok fs => map (fun f => ascii_str (bytesToBase64Url f)) fs
             | Err _ => []
             end
  | Err _ => []
  end.
Definition first : string := nth 0 sealed "".
Definition second : string := nth 1 sealed "".

Definition from_broker (m : TunnelServerMessage) : AgentEvent := BrokerMessage (Some m) [] 1.
Definition opened : list AgentEvent :=
  [Start 5 0; AddKeys keys (Some phone); from_broker (TunnelReadyMessage "t");
   from_broker (TunnelStreamOpenMessage "s"); LocalOpened 0].

#[local] Notation play gated evs := (agent_run ascii_str machine gated true evs createTunnelAgent).
Definition state (r : option (Agent * list AgentOutput)) : Agent :=
  match r with Some (a, _) => a | None => createTunnelAgent end.
Definition written (r : option (Agent * list AgentOutput)) : list AgentOutput :=
  match r with Some (_, out) => out | None => [] end.

(** GateAnswered at the gate: both frames reach the relay, its line goes back. *)
Definition session : list AgentEvent :=
  opened ++ [from_broker (TunnelServerFrame "s" first); from_broker (TunnelServerFrame "s" second);
             LocalLine 0 "welcome"; Resumed 0 salt; Gate 0 (Some true); Resumed 0 []; Resumed 0 []].

Lemma played gated evs :
  match play gated evs with Some _ => true | None => false end = true ->
  play gated evs = Some (state (play gated evs), written (play gated evs)).
Proof. by destruct (play gated evs) as [[a out]|]. Qed.

Lemma session_runs :
  play true session = Some (state (play true session), written (play true session)).
Proof. apply (played true session). by vm_compute. Qed.

Lemma only_paired_traffic_witness :
  LocalSend 0 "ls" ∈ written (play true session) /\
  inbound ascii_str session "ls" /\
  exists blob, outbound session blob.
Proof.
  assert (LocalSend 0 "ls" ∈ written (play true session)) as Hin.
  { apply list_elem_of_In. vm_compute. tauto. }
  destruct (only_paired_traffic ascii_str machine true true session _ _ session_runs)
    as [Hlocal Hbroker].
  split; [exact Hin|]. split; [exact (Hlocal 0%nat "ls" Hin)|].
  assert (exists data, ToBroker 5 (TunnelFrameMessage "s" data) ∈ written (play true session)) as [data Hd].
  { eexists. apply list_elem_of_In. vm_compute. do 9 right. left. reflexivity. }
  destruct (Hbroker _ _ _ Hd) as (blob & _ & Hblob). by exists blob.
Defined.

Lemma gate_holds_witness :
  LocalSend 0 "ls" ∈ written (play true session) /\ Gate 0 (Some true) ∈ session.
Proof.
  assert (LocalSend 0 "ls" ∈ written (play true session)) as Hin.
  { apply list_elem_of_In. vm_compute. tauto. }
  split; [exact Hin|].
  apply (gate_holds ascii_str machine true true session _ _ 0%nat "ls" session_runs eq_refl);
    [|exact Hin]. apply (bool_decide_unpack _). vm_compute. exact I.
Defined.

(** A broker that opens the stream again while the human is asked: the refusal
    lands on the second object, and what was queued on the first goes through. *)
Definition reopened : list AgentEvent :=
  opened ++ [from_broker (TunnelServerFrame "s" first); from_broker (TunnelServerFrame "s" second);
             Resumed 0 salt; from_broker (TunnelStreamOpenMessage "s"); Gate 0 (Some false); Resumed 0 []].

Lemma refused_stream_goes_through :
  LocalSend 0 "ls" ∈ written (play true reopened) /\ Gate 0 (Some true) ∉ reopened.
Proof.
  split; [apply list_elem_of_In; vm_compute; tauto|].
  intros Hin%list_elem_of_In. repeat (destruct Hin as [Hin|Hin]; [discriminate Hin|]). done.
Qed.

(** A device removed while its first frame is on trial is let in afterwards. *)
Definition removed : list AgentEvent :=
  opened ++ [from_broker (TunnelServerFrame "s" first); RemoveKeys "phone"; Resumed 0 salt].

Lemma removed_while_on_trial :
  keyring (state (play false removed)) = [] /\
  LocalSend 0 "auth" ∈ written (play false removed) /\
  bound_to "phone" (state (play false removed)) 0 = true /\
  streams (state (play false removed)) !! "s" = Some 0%nat.
Proof. split_and!; try by vm_compute. apply list_elem_of_In. vm_compute. tauto. Qed.

(** Removing one device makes a trial under way skip the next one. *)
Definition tablet : PeerIdentity := mkPeer "tablet" "iPad" true.
Definition tablet_keys : SessionKeys := mkKeys (replicate 32 4) (replicate 32 5) (replicate 32 6) "other".
Definition skipped : list AgentEvent :=
  [Start 5 0; AddKeys tablet_keys (Some tablet); AddKeys keys (Some phone);
   from_broker (TunnelStreamOpenMessage "s"); from_broker (TunnelServerFrame "s" first);
   RemoveKeys "tablet"; Resumed 0 salt].

Lemma paired_device_refused :
  keyring (state (play false skipped)) = [mkEntry keys (Some phone)] /\
  ToBroker 5 (TunnelStreamCloseMessage "s" (Some "no matching pairing")) ∈ written (play false skipped).
Proof. split; [by vm_compute|]. apply list_elem_of_In. vm_compute. tauto. Qed.

(** A stopped agent still names its tunnel. *)
Lemma stopped_with_tunnel :
  let a := state (play false (opened ++ [Stop; BrokerClosed 5])) in
  status a = stopped_ /\ broker a = None /\ tunnelId a = Some "t".
Proof. by vm_compute. Qed.

(** A pairing request, answered, revealed, asked about and approved. *)
Definition browserSecret : bytes := replicate 32 3.
Definition browserKey : bytes := x_getPublicKey browserSecret.
Definition asked : list AgentEvent :=
  [Start 5 0;
   BrokerMessage (Some (PairRequestMessage "r" (bytesToHex (sasCommitment browserKey "r")) "Mac" "me@x")) (replicate 32 2) 1;
   from_broker (PairServerReveal "r" (bytesToHex browserKey));
   Decided 0 (Some (Approved "sealed"))].

Lemma asked_runs :
  play false asked = Some (state (play false asked), written (play false asked)).
Proof. apply (played false asked). by vm_compute. Qed.

Lemma approval_needs_commitment_witness :
  ToBroker 5 (PairApprovedMessage "r" "sealed") ∈ written (play false asked) /\
  exists k req, AskAccess k req ∈ written (play false asked) /\ committed asked req.
Proof.
  assert (ToBroker 5 (PairApprovedMessage "r" "sealed") ∈ written (play false asked)) as Hin.
  { apply list_elem_of_In. vm_compute. tauto. }
  split; [exact Hin|].
  destruct (approval_needs_commitment ascii_str machine false true asked _ _ asked_runs)
    as [Happ Hask].
  destruct (Happ 5%nat "r" "sealed" Hin) as (k & req & Hreq & _). exists k, req.
  split; [exact Hreq|exact (Hask k req Hreq)].
Defined.

(** The device is removed after its session began. *)
Definition live : list AgentEvent :=
  opened ++ [from_broker (TunnelServerFrame "s" first); Resumed 0 salt].

Lemma live_runs :
  play false live = Some (state (play false live), written (play false live)).
Proof. apply (played false live). by vm_compute. Qed.

Lemma removed_device_is_gone_witness :
  let a := state (play false live) in
  streams a !! "s" = Some 0%nat /\
  streams (removeSessionKeys "phone" a).2.1 !! "s" = None /\
  LocalClose 0 ∈ (removeSessionKeys "phone" a).2.2.
Proof.
  assert (streams (state (play false live)) !! "s" = Some 0%nat) as Hs by by vm_compute.
  split; [exact Hs|].
  destruct (removed_device_is_gone ascii_str machine false true live _ _ "phone"
    (removeSessionKeys "phone" (state (play false live))).1
    (removeSessionKeys "phone" (state (play false live))).2.1
    (removeSessionKeys "phone" (state (play false live))).2.2 live_runs)
    as (_ & _ & _ & _ & Hlive & _).
  - apply (bool_decide_unpack _). vm_compute. exact I.
  - by destruct (removeSessionKeys "phone" (state (play false live))) as [? [? ?]].
  - destruct (Hlive "s" 0%nat Hs) as (? & ? & _); [by vm_compute|]. by split.
Defined.

(** The broker goes away. *)
Definition lost : list AgentEvent := opened ++ [BrokerClosed 5].
Lemma lost_runs :
  play false lost = Some (state (play false lost), written (play false lost)).
Proof. apply (played false lost). by vm_compute. Qed.

Lemma never_gives_up_witness :
  stopped (state (play false lost)) = false /\
  (is_Some (broker (state (play false lost))) \/ retry_due ascii_str machine false true lost).
Proof.
  split; [by vm_compute|].
  apply (never_gives_up ascii_str machine false true _ _ _ lost_runs).
  - exists 5%nat, 0. left.
  - by vm_compute.
Defined.
End AgentDemo.
