(* ===== verification/AccessEnds.v ===== *)
(** * AccessEnds: asking a machine of the account, from one end to the other

    [requestAccess] of BrowserPairing against the agent of TunnelAgent: what
    both ends come to hold when the relay in between is honest, what equal
    transcripts pin down when it is not, and how a dishonest one gets around
    the digits. *)

From S2P Require Import Prelude Protocol Bytes Noble DeviceKey Kdf Frames PairingCode Sas BrowserPairing PairingEnds TunnelAgent.
#[local] Open Scope Z_scope.

Section Access.
Context `{!Hex, !HexLaws, !HmacBytes, !Sha256, !Sha512, !Ristretto, !Ed25519}.
Context `{!Hkdf, !HkdfLaws, !Aead, !AeadLaws, !X25519, !X25519Laws}.
Context {Descriptor : Type} (parseDescriptor : bytes -> option Descriptor).
Context (deviceKey : DeviceKeyPair).

(** ** One exchange *)

Section Honest.
Context (requestId label email : string) (sb sa : bytes) (ikm : bytes).
Hypothesis sb_public : is_bytes (x_getPublicKey sb).
Hypothesis sa_public : is_bytes (x_getPublicKey sa).
Hypothesis hash_bytes : is_bytes (sasCommitment (x_getPublicKey sb) requestId).
Hypothesis shared : x_getSharedSecret sb (x_getPublicKey sa) = Some ikm.
Hypothesis not_degenerate : forallb (fun byte => byte =? 0) ikm = false.

Definition access_transcript : bytes :=
  sasTranscript requestId (sasCommitment (x_getPublicKey sb) requestId) (x_getPublicKey sb) (x_getPublicKey sa).
Definition access_keys : SessionKeys := deriveSessionKeys ikm access_transcript.
Definition access_sas : jstr := deriveSas ikm access_transcript.

Lemma request_agrees :
  request_secrets (requestAccess sb requestId) (x_getPublicKey sa) = Some (ikm, access_transcript).
Proof.
  unfold request_secrets, sasSharedSecret. cbn [requestAccess rq_ephemeral eph_secret newEphemeralKey].
  by rewrite shared, not_degenerate.
Qed.

Definition machine_pending : PendingAccess :=
  mkPending (sasCommitment (x_getPublicKey sb) requestId) label email (newEphemeralKey sa).

Lemma machine_agrees :
  access_secrets requestId machine_pending (bytesToHex (x_getPublicKey sb)) = Some (access_keys, access_sas).
Proof.
  unfold access_secrets. rewrite hex_roundtrip by done. cbn [ok_option mbind option_bind machine_pending pa_commitment].
  unfold verifySasCommitment. rewrite (proj2 (constantTimeEqual_iff _ _) eq_refl). cbn [negb].
  unfold sasSharedSecret. cbn [machine_pending eph_secret eph_publicKey newEphemeralKey pa_ephemeral].
  by rewrite x_shared_comm, shared, not_degenerate.
Qed.

(** What the browser writes, given what the machine answers. *)
Definition browser_run (sealed : string) : Requesting * list (BrowserPairing.Output (Descriptor := Descriptor)) :=
  let q := requestAccess sb requestId in
  let '(q, o0) := request_open q in
  let '(q, o1) := request_message (Some (RequestAck requestId (bytesToHex (x_getPublicKey sa)))) q in
  let '(q, o2) := request_message (Some (RequestApproved requestId sealed)) q in
  let '(q, o3) := request_unsealed parseDescriptor 0 q in
  (q, o0 ++ o1 ++ o2 ++ o3).

(** C5: a machine of the account is reached by asking.  Whatever the two fresh
    keys, when the relay hands each end what the other sent: the machine asks
    its human with the very digits the browser shows, both ends hold the same
    session keys, and once the human says yes the browser opens the descriptor
    the machine sealed and settles with them. *)
Theorem access_completes salt pt d
    (Hsalt : is_bytes salt /\ length salt = SALT_BYTES) (Hpt : is_bytes pt)
    (Hd : parseDescriptor pt = Some d) (s : sock) (a : Agent)
    (Hbroker : broker a = Some s) :
  exists sealed,
    sealOnce (k_s2c access_keys) s2c pt descriptor salt = Ok sealed /\
    let commitment := bytesToHex (sasCommitment (x_getPublicKey sb) requestId) in
    let text := ascii_str (bytesToBase64Url sealed) in
    let req := mkAccess requestId access_sas label email access_keys in
    (browser_run text).2 =
      [SendReq (PairCommitMessage requestId commitment);
       Updated (Confirm access_sas); SendReq (PairRevealMessage requestId (bytesToHex (x_getPublicKey sb)));
       Unseal 0; CloseWs; Updated (Paired access_keys d)] /\
    let '(a1, o1) := handle deviceKey true (PairRequestMessage requestId commitment label email) sa a in
    let '(a2, o2) := handle deviceKey true (PairServerReveal requestId (bytesToHex (x_getPublicKey sb))) [] a1 in
    let '(a3, o3) := access_decided (nextAsking a) (Some (Approved text)) a2 in
    o1 = [ToBroker s (PairRequestAckMessage requestId (bytesToHex (x_getPublicKey sa)))] /\
    o2 = [AskAccess (nextAsking a) req] /\
    o3 = [ToBroker s (PairApprovedMessage requestId text)].
Proof.
  destruct Hsalt as [Hsb Hsl].
  destruct (sealOnce_total (k_s2c access_keys) s2c pt descriptor salt) as [sealed Hsealed];
    [apply hkdf_length|done|].
  exists sealed. split; [done|]. cbv zeta. split.
  - unfold browser_run, request_open, request_message at 1 2. rewrite hex_roundtrip by done.
    cbn [ok_option mbind option_bind]. rewrite request_agrees. cbn [mbind option_bind].
    fold access_keys access_sas. cbn [rq_pending rq_with_pending on_rq_flow start_unseal fst snd].
    unfold request_unsealed. cbn [rq_flow unsealing nextUnseal requestAccess newFlow rq_pending rq_with_pending].
    rewrite lookup_insert_eq. rewrite (descriptor_roundtrip parseDescriptor access_keys pt salt sealed) by done.
    rewrite Hd. done.
  - cbn [handle]. rewrite hex_roundtrip by done. unfold send. cbn [broker set_accessRequests].
    rewrite Hbroker. cbn [accessRequests set_accessRequests]. rewrite lookup_insert_eq.
    unfold decideAccess. fold machine_pending. rewrite machine_agrees. cbn [negb].
    unfold access_decided. cbn [asking set_asking set_accessRequests nextAsking]. rewrite lookup_insert_eq.
    unfold send. cbn [broker set_asking set_accessRequests]. by rewrite Hbroker.
Qed.
End Honest.

(** ** A relay in between *)

(** Equal transcripts leave nobody in between: the request, the commitment and
    both keys are the same at the two ends. *)
Lemma sasTranscript_inj id com kb kc id' com' kb' kc' :
  Forall short [utf8 id; com; kb; kc] -> Forall short [utf8 id'; com'; kb'; kc'] ->
  sasTranscript id com kb kc = sasTranscript id' com' kb' kc' ->
  id = id' /\ com = com' /\ kb = kb' /\ kc = kc'.
Proof.
  intros Hs Hs' Heq. apply lvCat_inj in Heq; [|done..]. simplify_eq. split_and!; try done.
  by apply utf8_injective.
Qed.

(** But the browser takes an answer whenever one comes: the keys it will use
    and the digits it shows are those of the last one, also of one that comes
    after its own key was revealed. *)
Lemma second_answer_replaces q cliKey pk ikm transcript :
  hexToBytes cliKey = Ok pk -> request_secrets q pk = Some (ikm, transcript) ->
  rq_pending (request_message (Descriptor := Descriptor) (Some (RequestAck (rq_requestId q) cliKey)) q).1
    = Some (deriveSessionKeys ikm transcript) /\
  Updated (Confirm (deriveSas ikm transcript))
    ∈ (request_message (Descriptor := Descriptor) (Some (RequestAck (rq_requestId q) cliKey)) q).2.
Proof.
  intros Hhex Hsec. unfold request_message. rewrite Hhex. cbn [ok_option mbind option_bind].
  rewrite Hsec. split; [done|left].
Qed.
End Access.

Module AccessDemo.
Import Toy.

Definition browserSecret : bytes := replicate 32 3.
Definition machineSecret : bytes := replicate 32 2.
Definition machine : DeviceKeyPair := mkDeviceKey "machine" [1] [1].
Definition agent : Agent := set_broker (Some 5%nat) createTunnelAgent.
Definition salt : bytes := replicate 16 4.
Definition connection : bytes := utf8 "{}".

Lemma access_completes_witness :
  exists sealed, sealOnce (k_s2c (access_keys "r" browserSecret machineSecret (replicate 32 5))) s2c connection
                   descriptor salt = Ok sealed.
Proof.
  destruct (access_completes (fun bs => Some bs) machine "r" "Mac" "me@x" browserSecret machineSecret
    (replicate 32 5)) with (salt := salt) (pt := connection) (d := connection) (s := 5%nat) (a := agent)
    as (sealed & Hsealed & _);
    [apply Forall_replicate; unfold is_byte; lia..
    |apply (bool_decide_unpack _); vm_compute; exact I
    |by vm_compute|by vm_compute
    |split; [apply (bool_decide_unpack _); vm_compute; exact I|reflexivity]
    |apply (bool_decide_unpack _); vm_compute; exact I
    |reflexivity|reflexivity|].
  exists sealed. exact Hsealed.
Defined.

(** A relay that first answers with any key of its own, learns the browser's,
    and only then picks the key to answer with again, for its digits. *)
Definition relayToMachine : bytes := replicate 32 9.
Definition relayFirst : bytes := replicate 32 11.
Definition machineSas : jstr :=
  match access_secrets "r"
          (mkPending (sasCommitment (x_getPublicKey relayToMachine) "r") "Mac" "me@x" (newEphemeralKey machineSecret))
          (bytesToHex (x_getPublicKey relayToMachine)) with
  | Some (_, sas) => sas
  | None => []
  end.
(** Found knowing the browser's key: these two share what the relay and the
    machine share. *)
Definition relaySecond : bytes := replicate 32 8.

Definition fooled : Requesting * list (BrowserPairing.Output (Descriptor := bytes)) :=
  let q := requestAccess browserSecret "r" in
  let '(q, o1) := request_message (Some (RequestAck "r" (bytesToHex (x_getPublicKey relayFirst)))) q in
  let '(q, o2) := request_message (Some (RequestAck "r" (bytesToHex (x_getPublicKey relaySecond)))) q in
  (q, o1 ++ o2).

Lemma digits_ground_after_reveal :
  machineSas <> [] /\
  last fooled.2 = Some (SendReq (PairRevealMessage "r" (bytesToHex (x_getPublicKey browserSecret)))) /\
  SendReq (PairRevealMessage "r" (bytesToHex (x_getPublicKey browserSecret))) ∈ take 2 fooled.2 /\
  Updated (Confirm machineSas) ∈ drop 2 fooled.2 /\
  x_getPublicKey relaySecond <> x_getPublicKey machineSecret.
Proof.
  split_and!; try by vm_compute.
  - apply list_elem_of_In. vm_compute. tauto.
  - apply list_elem_of_In. vm_compute. tauto.
Qed.
End AccessDemo.
