(* ===== verification/Grants.v ===== *)
(** * Grants: what one shared credential may touch

    [packages/protocol/src/grants.ts] and [apps/relay/src/grant.ts].  A
    nullable field is an [option]; the clock and the running tmux server's pid
    are arguments. *)

From S2P Require Import Prelude.

Record GrantSession := mkGS { gs_id : string; gs_name : string }.

Inductive GrantScope :=
| ScopeAll
| ScopeSessions (sessions : list GrantSession)
| ScopeRecordings (recordings : list string).

Inductive GrantFiles := files_none | files_read | files_write.

#[export] Instance GrantSession_eq_dec : EqDecision GrantSession.
Proof. solve_decision. Defined.
#[export] Instance GrantFiles_eq_dec : EqDecision GrantFiles.
Proof. solve_decision. Defined.

Record GrantRecord := mkGrant {
  gr_id : string;
  gr_label : string;
  gr_scope : GrantScope;
  gr_readOnly : bool;
  gr_files : GrantFiles;
  gr_createdAt : Z;
  gr_expiresAt : option Z;
  gr_revokedAt : option Z;
  gr_tmuxServerPid : option Z;
  gr_tokenHash : string;
  gr_peerDeviceId : option string;
}.

(** Whether a grant is usable right now. Order: revoked, then expired. *)
Definition isGrantActive (grant : GrantRecord) (now : Z) : bool :=
  match gr_revokedAt grant with
  | Some _ => false
  | None =>
      match gr_expiresAt grant with
      | Some expiresAt => negb (expiresAt <=? now)
      | None => true
      end
  end.

Definition FULL_GRANT : GrantRecord :=
  mkGrant "grn_full" "This machine" ScopeAll false files_write 0 None None None
    "0000000000000000000000000000000000000000000000000000000000000000" None.

Definition isFullGrant (grant : GrantRecord) : bool :=
  match gr_scope grant with ScopeAll => true | _ => false end.

(** A session as the checks see it: an optional id and a name. *)
Record SessionRef := mkSession { ss_id : option string; ss_name : string }.

Definition hasId (id : string) (sessions : list GrantSession) : bool :=
  existsb (fun s => bool_decide (gs_id s = id)) sessions.
Definition hasName (name : string) (sessions : list GrantSession) : bool :=
  existsb (fun s => bool_decide (gs_name s = name)) sessions.

(** The grant's ids provably belong to a dead tmux server. *)
Definition serverChanged (grant : GrantRecord) (tmuxServerPid : option Z) : bool :=
  match gr_tmuxServerPid grant, tmuxServerPid with
  | Some pinned, Some running => negb (pinned =? running)
  | _, _ => false
  end.

(** May this grant touch this session?  An empty id is no id. *)
Definition allowsSession (grant : GrantRecord) (session : SessionRef)
    (tmuxServerPid : option Z) : bool :=
  match gr_scope grant with
  | ScopeAll => true
  | ScopeRecordings _ => false
  | ScopeSessions sessions =>
      let idMatched := match ss_id session with
                       | Some id => if decide (id = "") then false else hasId id sessions
                       | None => false
                       end in
      if idMatched then true
      else if negb (serverChanged grant tmuxServerPid) then false
      else hasName (ss_name session) sessions
  end.

(** May this grant be told about an event naming this session? *)
Definition allowsSessionName (grant : GrantRecord) (name : string) : bool :=
  match gr_scope grant with
  | ScopeAll => true
  | ScopeSessions sessions => hasName name sessions
  | ScopeRecordings _ => false
  end.

Definition allowsRecording (grant : GrantRecord) (id : string) : bool :=
  match gr_scope grant with
  | ScopeAll => true
  | ScopeRecordings recordings => bool_decide (id ∈ recordings)
  | ScopeSessions _ => false
  end.

Definition isRecordingsGrant (grant : GrantRecord) : bool :=
  match gr_scope grant with ScopeRecordings _ => true | _ => false end.

(** Filter a session list down to what this grant may see. *)
Definition visibleSessions (grant : GrantRecord) (sessions : list SessionRef)
    (tmuxServerPid : option Z) : list SessionRef :=
  if isFullGrant grant then sessions
  else filter (fun s => allowsSession grant s tmuxServerPid = true) sessions.

(** The earlier of two deadlines, where null means "no deadline". *)
Definition minNullable (a b : option Z) : option Z :=
  match a, b with
  | None, _ => b
  | _, None => a
  | Some x, Some y => Some (Z.min x y)
  end.

Definition narrowerFiles (a b : GrantFiles) : GrantFiles :=
  if decide (a = files_none \/ b = files_none) then files_none
  else if decide (a = files_read \/ b = files_read) then files_read
  else files_write.

Definition narrowerScope (a b : GrantScope) : GrantScope :=
  match a, b with
  | ScopeAll, _ => b
  | _, ScopeAll => a
  | ScopeSessions s, ScopeSessions t =>
      ScopeSessions (filter (fun x => gs_id x ∈ map gs_id t) s)
  | ScopeRecordings r, ScopeRecordings t => ScopeRecordings (filter (fun id => id ∈ t) r)
  | ScopeSessions _, ScopeRecordings _ => ScopeSessions []
  | ScopeRecordings _, ScopeSessions _ => ScopeRecordings []
  end.

(** Combine two grants into one no wider than either. *)
Definition narrower (a b : GrantRecord) : GrantRecord :=
  mkGrant (gr_id a) (gr_label a) (narrowerScope (gr_scope a) (gr_scope b))
    (gr_readOnly a || gr_readOnly b) (narrowerFiles (gr_files a) (gr_files b))
    (gr_createdAt a) (minNullable (gr_expiresAt a) (gr_expiresAt b))
    (minNullable (gr_revokedAt a) (gr_revokedAt b)) (gr_tmuxServerPid a)
    (gr_tokenHash a) (gr_peerDeviceId a).

(** ** Theorems *)

Lemma hasId_In id l : hasId id l = true <-> exists s, s ∈ l /\ gs_id s = id.
Proof.
  unfold hasId. rewrite existsb_exists. split; intros (s & Hs & Hid); exists s.
  - split; [by apply list_elem_of_In|by apply bool_decide_eq_true in Hid].
  - split; [by apply list_elem_of_In|by apply bool_decide_eq_true].
Qed.

Lemma hasName_In name l : hasName name l = true <-> exists s, s ∈ l /\ gs_name s = name.
Proof.
  unfold hasName. rewrite existsb_exists. split; intros (s & Hs & Hid); exists s.
  - split; [by apply list_elem_of_In|by apply bool_decide_eq_true in Hid].
  - split; [by apply list_elem_of_In|by apply bool_decide_eq_true].
Qed.

(** The id test of [allowsSession]. *)
Definition idMatched (session : SessionRef) (sessions : list GrantSession) : Prop :=
  exists id, ss_id session = Some id /\ id <> "" /\ hasId id sessions = true.

(** Matching is by id, and by name only across a tmux restart. *)
Lemma allowsSession_iff grant session pid sessions :
  gr_scope grant = ScopeSessions sessions ->
  allowsSession grant session pid = true <->
  idMatched session sessions \/
  (serverChanged grant pid = true /\ hasName (ss_name session) sessions = true).
Proof.
  intros Hs. unfold allowsSession, idMatched. rewrite Hs.
  destruct (serverChanged grant pid), (hasName (ss_name session) sessions),
    (ss_id session) as [id|]; try destruct (decide (id = "")) as [->|];
    try destruct (hasId id sessions) eqn:Hid; simpl; naive_solver.
Qed.

Lemma idMatched_sub session s t : s ⊆ t -> idMatched session s -> idMatched session t.
Proof.
  intros Hst (id & Hid & Hne & (x & Hx & Heq)%hasId_In). exists id. split; [done|].
  split; [done|]. apply hasId_In. exists x. split; [by apply Hst|done].
Qed.

Lemma hasName_sub name s t : s ⊆ t -> hasName name s = true -> hasName name t = true.
Proof.
  intros Hst (x & Hx & Heq)%hasName_In. apply hasName_In. exists x. split; [by apply Hst|done].
Qed.

(** A grant over fewer sessions, pinned to the same server, allows fewer. *)
Lemma allowsSession_sub g g' session pid s s' :
  gr_scope g = ScopeSessions s -> gr_scope g' = ScopeSessions s' -> s ⊆ s' ->
  gr_tmuxServerPid g = gr_tmuxServerPid g' ->
  allowsSession g session pid = true -> allowsSession g' session pid = true.
Proof.
  intros Hs Hs' Hsub Hpid. rewrite (allowsSession_iff g _ _ s), (allowsSession_iff g' _ _ s') by done.
  intros [Hm|[Hc Hn]]; [left; by eapply idMatched_sub|]. right.
  unfold serverChanged in *. rewrite <- Hpid. split; [done|by eapply hasName_sub].
Qed.

Lemma narrower_sessions_a a b session pid :
  allowsSession (narrower a b) session pid = true -> allowsSession a session pid = true.
Proof.
  destruct (gr_scope a) as [|s|r] eqn:Ha.
  - intros _. unfold allowsSession. by rewrite Ha.
  - destruct (gr_scope b) as [|t|t] eqn:Hb.
    + by apply (allowsSession_sub _ a session pid s s); simpl; rewrite ?Ha, ?Hb.
    + apply (allowsSession_sub _ a session pid (filter (fun x => gs_id x ∈ map gs_id t) s) s);
        simpl; rewrite ?Ha, ?Hb; try done. intros x [_ Hx]%list_elem_of_filter. done.
    + apply (allowsSession_sub _ a session pid [] s); simpl; rewrite ?Ha, ?Hb; try done.
      apply list_subseteq_nil.
  - unfold allowsSession. simpl. rewrite Ha. by destruct (gr_scope b).
Qed.

Lemma narrower_scope_ids a b u session :
  gr_scope (narrower a b) = ScopeSessions u -> idMatched session u ->
  gr_scope b = ScopeAll \/ exists t, gr_scope b = ScopeSessions t /\ idMatched session t.
Proof.
  simpl. intros Hu (id & Hid & Hne & (x & Hx & Heq)%hasId_In).
  destruct (gr_scope a) as [|s|r], (gr_scope b) as [|t|t]; simplify_eq/=; try (by left).
  - right. exists u. split; [done|]. exists (gs_id x). rewrite hasId_In. eauto.
  - apply list_elem_of_filter in Hx as [Hx _]. right. exists t. split; [done|].
    exists (gs_id x). rewrite hasId_In. apply list_elem_of_fmap in Hx as (y & Hy & Hin). eauto 10.
  - by apply not_elem_of_nil in Hx.
Qed.

(** While ids decide, the second grant is a bound too. *)
Lemma narrower_sessions_b a b session pid :
  serverChanged a pid = false ->
  allowsSession (narrower a b) session pid = true -> allowsSession b session pid = true.
Proof.
  intros Hpid Hal. destruct (gr_scope (narrower a b)) as [|u|u] eqn:Hu.
  - simpl in Hu. unfold allowsSession. by destruct (gr_scope a), (gr_scope b).
  - destruct (proj1 (allowsSession_iff _ session pid u Hu) Hal) as [Hm|[Hc _]].
    2:{ change (serverChanged a pid = true) in Hc. congruence. }
    pose proof (narrower_scope_ids a b u session Hu Hm) as [Hb|(t & Hb & Hmt)].
    + unfold allowsSession. by rewrite Hb.
    + apply (allowsSession_iff _ _ _ t Hb). by left.
  - unfold allowsSession in Hal. by rewrite Hu in Hal.
Qed.

Lemma narrower_recordings a b rec :
  allowsRecording (narrower a b) rec = true ->
  allowsRecording a rec = true /\ allowsRecording b rec = true.
Proof.
  unfold allowsRecording. simpl.
  destruct (gr_scope a) as [|s|r], (gr_scope b) as [|t|t]; simpl; try done.
  rewrite !bool_decide_eq_true. intros [? ?]%list_elem_of_filter. done.
Qed.

Definition files_le (f g : GrantFiles) : Prop := f = files_none \/ g = files_write \/ f = g.

Lemma narrowerFiles_le f g : files_le (narrowerFiles f g) f /\ files_le (narrowerFiles f g) g.
Proof. unfold files_le. destruct f, g; vm_compute; auto. Qed.

Lemma minNullable_active a b now :
  isGrantActive (narrower a b) now = isGrantActive a now && isGrantActive b now.
Proof.
  unfold isGrantActive. simpl.
  destruct (gr_revokedAt a), (gr_revokedAt b), (gr_expiresAt a), (gr_expiresAt b);
    simpl; rewrite ?andb_false_r, ?andb_true_r; try done. lia.
Qed.

(** Narrowing never widens.  [narrower a b] allows only sessions that [a]
    allows, whatever tmux server runs, and as long as ids decide only sessions
    that [b] allows; only recordings that both allow; no more file access than
    either; it is read-only when either is, and active only when both are. *)
Theorem narrower_no_wider a b session pid rec now :
  (allowsSession (narrower a b) session pid = true -> allowsSession a session pid = true) /\
  (serverChanged a pid = false ->
   allowsSession (narrower a b) session pid = true -> allowsSession b session pid = true) /\
  (allowsRecording (narrower a b) rec = true ->
   allowsRecording a rec = true /\ allowsRecording b rec = true) /\
  (files_le (gr_files (narrower a b)) (gr_files a) /\
   files_le (gr_files (narrower a b)) (gr_files b)) /\
  gr_readOnly (narrower a b) = (gr_readOnly a || gr_readOnly b) /\
  isGrantActive (narrower a b) now = isGrantActive a now && isGrantActive b now.
Proof.
  split; [apply narrower_sessions_a|]. split; [apply narrower_sessions_b|].
  split; [apply narrower_recordings|]. split; [apply narrowerFiles_le|].
  split; [done|apply minNullable_active].
Qed.

(** ** Where it does widen *)

(** A grant over one session pinned to tmux server 1, and one over another
    session pinned to the running server 2; ids restarted at [$0]. *)
Definition stale_grant : GrantRecord :=
  mkGrant "grn_a" "a" (ScopeSessions [mkGS "$0" "work"]) false files_none 0 None None (Some 1) "" None.
Definition fresh_grant : GrantRecord :=
  mkGrant "grn_b" "b" (ScopeSessions [mkGS "$0" "other"]) false files_none 0 None None (Some 2) "" None.
Definition work_now : SessionRef := mkSession (Some "$5"%string) "work".

(** Narrowing can widen across a tmux restart.  The intersection is by id
    alone but keeps the first grant's server pid, so after a restart it
    matches by name a session that the second grant refuses. *)
Theorem narrower_wider_than_b :
  allowsSession (narrower stale_grant fresh_grant) work_now (Some 2) = true /\
  allowsSession fresh_grant work_now (Some 2) = false.
Proof. by split. Qed.

(** The list a holder is shown is exactly what it may touch. *)
Lemma visibleSessions_spec grant sessions pid s :
  s ∈ visibleSessions grant sessions pid <-> s ∈ sessions /\ allowsSession grant s pid = true.
Proof.
  unfold visibleSessions. destruct (isFullGrant grant) eqn:Hf.
  - split; [|by intros [? _]]. intros Hs. split; [done|].
    unfold isFullGrant in Hf. unfold allowsSession. by destruct (gr_scope grant).
  - rewrite list_elem_of_filter. tauto.
Qed.

(** A reused id admits a stranger.  An id match decides even when the ids
    provably belong to a dead tmux server: after a restart, whatever session
    has been given an id the grant was pinned to is allowed, under any name. *)
Theorem stale_id_admits_stranger grant sessions pinned session pid
    (Hscope : gr_scope grant = ScopeSessions sessions)
    (Hdead : serverChanged grant pid = true)
    (Hpinned : pinned ∈ sessions) (Hreal : gs_id pinned <> "")
    (Hreused : ss_id session = Some (gs_id pinned)) :
  allowsSession grant session pid = true.
Proof.
  apply (allowsSession_iff _ _ _ sessions Hscope). left.
  exists (gs_id pinned). split; [done|]. split; [done|]. apply hasId_In. by exists pinned.
Qed.

Lemma stale_id_admits_stranger_witness :
  serverChanged stale_grant (Some 2) = true /\
  allowsSession stale_grant (mkSession (Some "$0"%string) "secrets") (Some 2) = true.
Proof.
  split; [by vm_compute|].
  apply (stale_id_admits_stranger stale_grant [mkGS "$0" "work"] (mkGS "$0" "work"));
    try by vm_compute. by left.
Defined.
