(* ===== verification/Policy.v ===== *)
(** * Policy: the single gate of the relay

    [apps/relay/src/policy.ts].  [enforce] reads a message's fields by name,
    so a message is its [type] with the fields the gate looks at, [None] where
    the field is absent or not a string.  What tmux answers is an argument
    ([Tmux]), [None] where the call throws. *)

From S2P Require Import Prelude Grants.

Inductive SessionArg := arg_name | arg_oldName.

(** The level a message needs, ["read"] or ["write"]. *)
Inductive FileNeed := need_read | need_write.

#[export] Instance FileNeed_eq_dec : EqDecision FileNeed.
Proof. solve_decision. Defined.

Definition needed_level (f : FileNeed) : GrantFiles :=
  match f with need_read => files_read | need_write => files_write end.

Record Policy := mkPolicy {
  po_write : bool;
  po_files : option FileNeed;
  po_paneId : bool;
  po_windowId : bool;
  po_sessionArg : option SessionArg;
  po_fullScopeOnly : bool;
  po_recordingTarget : bool;
}.

(** One field of a policy literal; a literal is the list of those it sets. *)
Inductive PolicyField :=
| Write
| Files (f : FileNeed)
| PaneId
| WindowId
| SessionArgIs (a : SessionArg)
| FullScopeOnly
| RecordingTarget.

Definition set_field (p : Policy) (f : PolicyField) : Policy :=
  match f with
  | Write => mkPolicy true (po_files p) (po_paneId p) (po_windowId p) (po_sessionArg p)
               (po_fullScopeOnly p) (po_recordingTarget p)
  | Files g => mkPolicy (po_write p) (Some g) (po_paneId p) (po_windowId p) (po_sessionArg p)
               (po_fullScopeOnly p) (po_recordingTarget p)
  | PaneId => mkPolicy (po_write p) (po_files p) true (po_windowId p) (po_sessionArg p)
               (po_fullScopeOnly p) (po_recordingTarget p)
  | WindowId => mkPolicy (po_write p) (po_files p) (po_paneId p) true (po_sessionArg p)
               (po_fullScopeOnly p) (po_recordingTarget p)
  | SessionArgIs a => mkPolicy (po_write p) (po_files p) (po_paneId p) (po_windowId p) (Some a)
               (po_fullScopeOnly p) (po_recordingTarget p)
  | FullScopeOnly => mkPolicy (po_write p) (po_files p) (po_paneId p) (po_windowId p)
               (po_sessionArg p) true (po_recordingTarget p)
  | RecordingTarget => mkPolicy (po_write p) (po_files p) (po_paneId p) (po_windowId p)
               (po_sessionArg p) (po_fullScopeOnly p) true
  end.

Definition policy (fs : list PolicyField) : Policy :=
  foldl set_field (mkPolicy false None false false None false false) fs.

Definition RECORDINGS_GRANT_ALLOWED : list string := ["ping"; "recording:list"; "recording:fetch"].

Definition POLICY : list (string * Policy) :=
  [("auth", policy []);
   ("ping", policy []);
   ("session:list", policy []);
   ("session:create", policy [Write; FullScopeOnly]);
   ("session:attach", policy [SessionArgIs arg_name]);
   ("session:detach", policy []);
   ("session:kill", policy [Write; SessionArgIs arg_name]);
   ("session:rename", policy [Write; SessionArgIs arg_oldName; FullScopeOnly]);
   ("session:windows", policy [SessionArgIs arg_name]);
   ("terminal:input", policy [Write]);
   ("terminal:resize", policy []);
   ("command:send", policy [Write]);
   ("command:interrupt", policy [Write]);
   ("command:eof", policy [Write]);
   ("command:clear", policy [Write]);
   ("command:suspend", policy [Write]);
   ("file:list", policy [Files need_read]);
   ("file:read", policy [Files need_read]);
   ("file:stat", policy [Files need_read]);
   ("file:watch", policy [Files need_read]);
   ("file:unwatch", policy []);
   ("file:write", policy [Files need_write]);
   ("file:create", policy [Files need_write]);
   ("file:mkdir", policy [Files need_write]);
   ("file:delete", policy [Files need_write]);
   ("file:rename", policy [Files need_write]);
   ("file:upload", policy [Files need_write]);
   ("pane:list", policy []);
   ("pane:split", policy [Write]);
   ("pane:select", policy [Write; PaneId]);
   ("pane:zoom", policy [Write]);
   ("pane:step", policy [Write]);
   ("pane:resize", policy [Write; PaneId]);
   ("pane:kill", policy [Write; PaneId]);
   ("pane:swap", policy [Write; PaneId]);
   ("pane:capture", policy [PaneId]);
   ("window:list", policy []);
   ("window:create", policy [Write]);
   ("window:select", policy [Write; WindowId]);
   ("window:step", policy [Write]);
   ("window:kill", policy [Write; WindowId]);
   ("window:rename", policy [Write; WindowId]);
   ("window:layout", policy [Write]);
   ("layout:rotate", policy [Write]);
   ("tmux:prefix", policy [Write]);
   ("tmux:copy-mode", policy []);
   ("tmux:scroll", policy []);
   ("tmux:scroll-to", policy []);
   ("tmux:scroll-state", policy []);
   ("tmux:exit-copy-mode", policy []);
   ("recording:start", policy [Write; RecordingTarget]);
   ("recording:stop", policy [Write]);
   ("recording:delete", policy [Write]);
   ("recording:list", policy []);
   ("recording:fetch", policy []);
   ("device:approve", policy [Write; FullScopeOnly])].

(** Every discriminator of the [ClientMessage] union, in its order. *)
Definition clientMessageTypes : list string :=
  ["auth"; "ping"; "terminal:input"; "terminal:resize"; "session:list";
   "session:create"; "session:attach"; "session:detach"; "session:kill";
   "session:rename"; "file:list"; "file:read"; "file:stat"; "file:watch";
   "file:unwatch"; "file:write"; "file:create"; "file:mkdir"; "file:delete";
   "file:rename"; "file:upload"; "command:send"; "command:interrupt"; "command:eof";
   "command:clear"; "command:suspend"; "pane:list"; "pane:split"; "pane:select";
   "pane:zoom"; "pane:step"; "pane:resize"; "pane:kill"; "window:list";
   "window:create"; "window:select"; "window:step"; "window:kill"; "pane:swap";
   "window:rename"; "window:layout"; "layout:rotate"; "tmux:prefix"; "tmux:copy-mode";
   "tmux:scroll"; "tmux:scroll-to"; "tmux:scroll-state"; "tmux:exit-copy-mode";
   "pane:capture"; "session:windows"; "recording:start"; "recording:stop";
   "recording:list"; "recording:delete"; "recording:fetch"; "device:approve"].

(** ** The environment and the result *)

Record Tmux := mkTmux {
  listSessions : option (list SessionRef);
  listPanes : string -> option (list string);
  listWindows : string -> option (list string);
}.

Record Target := mkTarget { tg_session : option string; tg_paneId : option string }.

Record Msg := mkMsg {
  m_type : string;
  m_id : option string;
  m_name : option string;
  m_oldName : option string;
  m_target : option Target;
}.

Inductive DenyCode :=
| ACCESS_DENIED | READ_ONLY | SESSION_NOT_FOUND | NOT_ATTACHED | PANE_NOT_FOUND
| INVALID_MESSAGE | WINDOW_NOT_FOUND.

#[export] Instance DenyCode_eq_dec : EqDecision DenyCode.
Proof. solve_decision. Defined.

(** A refusal carries its code and its wording. *)
Abbreviation EnforceResult := (result (DenyCode * string) unit).

Definition deny (code : DenyCode) (message : string) : EnforceResult := Err (code, message).

(** A name between double quotes. *)
Definition quoted (name : string) : string :=
  String (Ascii.ascii_of_nat 34) (name +:+ String (Ascii.ascii_of_nat 34) EmptyString).

Definition notFound (name : string) : EnforceResult :=
  deny SESSION_NOT_FOUND ("Session " +:+ quoted name +:+ " not found").

Record EnforceContext := mkCtx {
  cx_grant : GrantRecord;
  cx_attachedSession : option string;
  cx_tmuxServerPid : option Z;
}.

(** ** The scope checks *)

Definition find_session (name : string) (sessions : list SessionRef) : option SessionRef :=
  snd <$> list_find (fun s => ss_name s = name) sessions.

Definition sessionInScope (tmux : Tmux) (ctx : EnforceContext) (name : string) : bool :=
  if isFullGrant (cx_grant ctx) then true
  else match listSessions tmux with
       | None => false
       | Some sessions =>
           match find_session name sessions with
           | None => false
           | Some found => allowsSession (cx_grant ctx) found (cx_tmuxServerPid ctx)
           end
       end.

Definition paneBelongs (tmux : Tmux) (session paneId : string) : bool :=
  match listPanes tmux session with
  | None => false
  | Some panes => bool_decide (paneId ∈ panes)
  end.

Definition windowBelongs (tmux : Tmux) (session windowId : string) : bool :=
  match listWindows tmux session with
  | None => false
  | Some windows => bool_decide (windowId ∈ windows)
  end.

(** ** The checks of [enforce], in order *)

Definition check_files (needed : option FileNeed) (held : GrantFiles) : EnforceResult :=
  match needed with
  | None => Ok tt
  | Some f =>
      let enough := match f with
                    | need_read => bool_decide (held = files_read \/ held = files_write)
                    | need_write => bool_decide (held = files_write)
                    end in
      if enough then Ok tt
      else deny ACCESS_DENIED "File access is not part of this share."
  end.

(** The session attached to, the empty name counting as none. *)
Definition attached (ctx : EnforceContext) : option string := truthy (cx_attachedSession ctx).

Definition check_target (tmux : Tmux) (ctx : EnforceContext) (target : option Target)
    : EnforceResult :=
  let name := target ≫= tg_session in
  let pane := target ≫= tg_paneId in
  _ ← (match name with
       | Some name => if sessionInScope tmux ctx name then Ok tt else notFound name
       | None => Ok tt
       end);
  match pane with
  | Some paneId =>
      if isFullGrant (cx_grant ctx) then Ok tt
      else
        let session := match name with
                       | Some name => truthy (Some name)
                       | None => attached ctx
                       end in
        match session with
        | None => deny NOT_ATTACHED "No session attached"
        | Some session =>
            if paneBelongs tmux session paneId then Ok tt
            else deny PANE_NOT_FOUND ("Pane " +:+ quoted paneId +:+ " not found")
        end
  | None => Ok tt
  end.

Definition session_field (arg : SessionArg) (msg : Msg) : option string :=
  match arg with arg_name => m_name msg | arg_oldName => m_oldName msg end.

Definition check_sessionArg (tmux : Tmux) (ctx : EnforceContext) (arg : option SessionArg)
    (msg : Msg) : EnforceResult :=
  match arg with
  | None => Ok tt
  | Some arg =>
      match session_field arg msg with
      | Some name => if sessionInScope tmux ctx name then Ok tt else notFound name
      | None => Ok tt
      end
  end.

Definition check_id (tmux : Tmux) (ctx : EnforceContext) (p : Policy) (msg : Msg)
    : EnforceResult :=
  if po_paneId p || po_windowId p then
    match m_id msg with
    | None => deny INVALID_MESSAGE "Missing target id."
    | Some id =>
        match attached ctx with
        | None => deny NOT_ATTACHED "No session attached"
        | Some session =>
            if po_paneId p then
              if paneBelongs tmux session id then Ok tt
              else deny PANE_NOT_FOUND ("Pane " +:+ quoted id +:+ " not found")
            else if windowBelongs tmux session id then Ok tt
            else deny WINDOW_NOT_FOUND ("Window " +:+ quoted id +:+ " not found")
        end
    end
  else Ok tt.

(** [if (bad) return deny(...)]. *)
Definition refuse_if (bad : bool) (code : DenyCode) (message : string) : EnforceResult :=
  if bad then deny code message else Ok tt.

Definition enforce (tmux : Tmux) (now : Z) (ctx : EnforceContext) (msg : Msg) : EnforceResult :=
  match assoc_get (m_type msg) POLICY with
  | None => deny ACCESS_DENIED "Not permitted."
  | Some p =>
      let grant := cx_grant ctx in
      _ ← refuse_if (negb (isGrantActive grant now)) ACCESS_DENIED "This share has expired.";
      _ ← refuse_if (isRecordingsGrant grant
                    && negb (bool_decide (m_type msg ∈ RECORDINGS_GRANT_ALLOWED)))
            ACCESS_DENIED "This share is a recording, not a session.";
      _ ← refuse_if (po_write p && gr_readOnly grant) READ_ONLY "This is a read-only session.";
      _ ← refuse_if (po_fullScopeOnly p && negb (isFullGrant grant))
            ACCESS_DENIED "Not permitted for a shared session.";
      _ ← check_files (po_files p) (gr_files grant);
      _ ← (if po_recordingTarget p then check_target tmux ctx (m_target msg) else Ok tt);
      _ ← check_sessionArg tmux ctx (po_sessionArg p) msg;
      check_id tmux ctx p msg
  end.

(** ** What the gate lets through *)

(** A session name in scope: real, and allowed by the grant under its id. *)
Definition in_scope (tmux : Tmux) (ctx : EnforceContext) (name : string) : Prop :=
  isFullGrant (cx_grant ctx) = true \/
  exists sessions found, listSessions tmux = Some sessions /\
    find_session name sessions = Some found /\
    allowsSession (cx_grant ctx) found (cx_tmuxServerPid ctx) = true.

Definition has_pane (tmux : Tmux) (session id : string) : Prop :=
  exists panes, listPanes tmux session = Some panes /\ id ∈ panes.
Definition has_window (tmux : Tmux) (session id : string) : Prop :=
  exists windows, listWindows tmux session = Some windows /\ id ∈ windows.

(** What a recording target must satisfy. *)
Definition target_ok (tmux : Tmux) (ctx : EnforceContext) (target : option Target) : Prop :=
  (forall name, target ≫= tg_session = Some name -> in_scope tmux ctx name) /\
  (forall pane, target ≫= tg_paneId = Some pane -> isFullGrant (cx_grant ctx) = false ->
   exists session,
     match target ≫= tg_session with Some n => truthy (Some n) | None => attached ctx end
       = Some session /\ has_pane tmux session pane).

(** The declarative reading of the table: what must hold of a message for the
    relay to act on it. *)
Record permitted (tmux : Tmux) (now : Z) (ctx : EnforceContext) (msg : Msg) (p : Policy)
    : Prop := mkPermitted {
  pm_active : isGrantActive (cx_grant ctx) now = true;
  pm_recordings : isRecordingsGrant (cx_grant ctx) = true -> m_type msg ∈ RECORDINGS_GRANT_ALLOWED;
  pm_write : po_write p = true -> gr_readOnly (cx_grant ctx) = false;
  pm_full : po_fullScopeOnly p = true -> isFullGrant (cx_grant ctx) = true;
  pm_files : forall f, po_files p = Some f -> files_le (needed_level f) (gr_files (cx_grant ctx));
  pm_target : po_recordingTarget p = true -> target_ok tmux ctx (m_target msg);
  pm_session : forall arg name, po_sessionArg p = Some arg -> session_field arg msg = Some name ->
    in_scope tmux ctx name;
  pm_id : po_paneId p || po_windowId p = true ->
    exists id session, m_id msg = Some id /\ attached ctx = Some session /\
      if po_paneId p then has_pane tmux session id else has_window tmux session id;
}.

Lemma sessionInScope_iff tmux ctx name :
  sessionInScope tmux ctx name = true <-> in_scope tmux ctx name.
Proof.
  unfold sessionInScope, in_scope. destruct (isFullGrant (cx_grant ctx)); [naive_solver|].
  destruct (listSessions tmux) as [ss|]; [|naive_solver].
  destruct (find_session name ss) eqn:Hf; naive_solver.
Qed.

Lemma paneBelongs_iff tmux s id : paneBelongs tmux s id = true <-> has_pane tmux s id.
Proof.
  unfold paneBelongs, has_pane. destruct (listPanes tmux s); [|naive_solver].
  rewrite bool_decide_eq_true. naive_solver.
Qed.

Lemma windowBelongs_iff tmux s id : windowBelongs tmux s id = true <-> has_window tmux s id.
Proof.
  unfold windowBelongs, has_window. destruct (listWindows tmux s); [|naive_solver].
  rewrite bool_decide_eq_true. naive_solver.
Qed.

(** A chain of checks succeeds when each does. *)
Lemma check_bind (m k : EnforceResult) : (_ ← m; k) = Ok tt <-> m = Ok tt /\ k = Ok tt.
Proof. destruct m as [[]|]; simpl; naive_solver. Qed.

Lemma if_ok (b : bool) (c : DenyCode) (s : string) :
  (if b then Ok tt else deny c s) = Ok tt <-> b = true.
Proof. by destruct b. Qed.

Lemma refuse_if_ok b c s : refuse_if b c s = Ok tt <-> b = false.
Proof. by destruct b. Qed.

Lemma check_files_ok needed held :
  check_files needed held = Ok tt <-> forall f, needed = Some f -> files_le (needed_level f) held.
Proof.
  unfold check_files, files_le, needed_level. destruct needed as [[]|], held; simpl;
    split; try naive_solver; intros H; specialize (H _ eq_refl); naive_solver.
Qed.

Lemma check_target_ok tmux ctx target :
  check_target tmux ctx target = Ok tt <-> target_ok tmux ctx target.
Proof.
  unfold check_target, target_ok. rewrite check_bind.
  assert ((match target ≫= tg_session with
           | Some name => if sessionInScope tmux ctx name then Ok tt else notFound name
           | None => Ok tt
           end) = Ok tt <->
    forall name, target ≫= tg_session = Some name -> in_scope tmux ctx name) as ->.
  { destruct (target ≫= tg_session) as [n|]; [|naive_solver].
    unfold notFound. rewrite if_ok, sessionInScope_iff. naive_solver. }
  f_equiv. destruct (target ≫= tg_paneId) as [pane|]; [|naive_solver].
  destruct (isFullGrant (cx_grant ctx)); [naive_solver|].
  set (session := match target ≫= tg_session with Some n => truthy (Some n) | None => attached ctx end).
  destruct session as [s|]; [|naive_solver].
  rewrite if_ok, paneBelongs_iff. naive_solver.
Qed.

Lemma check_sessionArg_ok tmux ctx arg msg :
  check_sessionArg tmux ctx arg msg = Ok tt <->
  forall a name, arg = Some a -> session_field a msg = Some name -> in_scope tmux ctx name.
Proof.
  unfold check_sessionArg. destruct arg as [a|]; [|naive_solver].
  destruct (session_field a msg) as [n|] eqn:Hf; [|naive_solver].
  unfold notFound. rewrite if_ok, sessionInScope_iff. naive_solver.
Qed.

Lemma check_id_ok tmux ctx p msg :
  check_id tmux ctx p msg = Ok tt <->
  (po_paneId p || po_windowId p = true ->
   exists id session, m_id msg = Some id /\ attached ctx = Some session /\
     if po_paneId p then has_pane tmux session id else has_window tmux session id).
Proof.
  unfold check_id. destruct (po_paneId p || po_windowId p); [|naive_solver].
  destruct (m_id msg) as [id|]; [|naive_solver]. destruct (attached ctx) as [s|]; [|naive_solver].
  destruct (po_paneId p); rewrite if_ok, ?paneBelongs_iff, ?windowBelongs_iff; naive_solver.
Qed.

(** The gate and its declarative reading agree. *)
Lemma enforce_permitted tmux now ctx msg :
  enforce tmux now ctx msg = Ok tt <->
  exists p, assoc_get (m_type msg) POLICY = Some p /\ permitted tmux now ctx msg p.
Proof.
  unfold enforce. destruct (assoc_get (m_type msg) POLICY) as [p|]; [|naive_solver].
  rewrite !check_bind, !refuse_if_ok, check_files_ok, check_sessionArg_ok, check_id_ok.
  assert ((if po_recordingTarget p then check_target tmux ctx (m_target msg) else Ok tt) = Ok tt <->
    (po_recordingTarget p = true -> target_ok tmux ctx (m_target msg))) as ->.
  { destruct (po_recordingTarget p); [|naive_solver]. rewrite check_target_ok. naive_solver. }
  assert (forall b c, b && negb c = false <-> (b = true -> c = true)) as Hif
    by (intros [] []; simpl; intuition congruence).
  rewrite (Hif (isRecordingsGrant _)), (Hif (po_fullScopeOnly p)), bool_decide_eq_true,
    negb_false_iff.
  assert (po_write p && gr_readOnly (cx_grant ctx) = false <->
    (po_write p = true -> gr_readOnly (cx_grant ctx) = false)) as ->
    by (destruct (po_write p), (gr_readOnly (cx_grant ctx)); simpl; intuition congruence).
  split.
  - intros (H1&H2&H3&H4&H5&H6&H7&H8). exists p. split; [done|].
    constructor; [exact H1|exact H2|exact H3|exact H4|exact H5|exact H6| |exact H8].
    intros arg name. apply H7.
  - intros (p' & Hp & [H1 H2 H3 H4 H5 H6 H7 H8]). injection Hp as <-.
    exact (conj H1 (conj H2 (conj H3 (conj H4 (conj H5 (conj H6 (conj H7 H8))))))).
Qed.

(** C11: the gate implements the table.  [enforce] answers OK exactly for the
    messages the table permits: the grant is active, a recordings grant sends
    only what is allow-listed, a read-only one nothing that writes, a scoped
    one nothing for the full grant alone, files within its level, every named
    session real and in scope, every pane or window id one of the attached
    session's. *)
Theorem enforce_iff tmux now ctx msg :
  enforce tmux now ctx msg = Ok tt <->
  exists p, assoc_get (m_type msg) POLICY = Some p /\ permitted tmux now ctx msg p.
Proof. apply enforce_permitted. Qed.

(** Every message type of the protocol has a row: the exhaustiveness the table
    relies on, and the refusal of an unknown type is not reached by them. *)
Lemma policy_total : Forall (fun t => is_Some (assoc_get t POLICY)) clientMessageTypes.
Proof. apply (bool_decide_unpack _). vm_compute. exact I. Qed.

(** ** What a restricted grant may send *)

(** The message types whose row satisfies [ok]. *)
Definition types_with (ok : Policy -> bool) : list string :=
  map fst (filter (fun r => ok (snd r) = true) POLICY).

Definition READ_ONLY_TYPES : list string :=
  ["auth"; "ping"; "session:list"; "session:attach"; "session:detach"; "session:windows";
   "terminal:resize"; "file:list"; "file:read"; "file:stat"; "file:watch"; "file:unwatch";
   "file:write"; "file:create"; "file:mkdir"; "file:delete"; "file:rename"; "file:upload";
   "pane:list"; "pane:capture"; "window:list"; "tmux:copy-mode"; "tmux:scroll";
   "tmux:scroll-to"; "tmux:scroll-state"; "tmux:exit-copy-mode"; "recording:list";
   "recording:fetch"].

Definition FILE_WRITE_TYPES : list string :=
  ["file:write"; "file:create"; "file:mkdir"; "file:delete"; "file:rename"; "file:upload"].

Lemma read_only_types : types_with (fun p => negb (po_write p)) = READ_ONLY_TYPES.
Proof. by vm_compute. Qed.

Lemma file_write_types :
  types_with (fun p => bool_decide (po_files p = Some need_write)) = FILE_WRITE_TYPES.
Proof. by vm_compute. Qed.

Lemma full_only_types :
  types_with po_fullScopeOnly = ["session:create"; "session:rename"; "device:approve"].
Proof. by vm_compute. Qed.

Lemma in_types_with ok t p : assoc_get t POLICY = Some p -> ok p = true -> t ∈ types_with ok.
Proof.
  intros Hp Hok. apply list_elem_of_fmap. exists (t, p). split; [done|].
  apply list_elem_of_filter. split; [done|]. by apply assoc_get_elem.
Qed.

Lemma POLICY_keys : NoDup (map fst POLICY).
Proof. apply (bool_decide_unpack _). vm_compute. exact I. Qed.

Lemma types_with_in ok t :
  t ∈ types_with ok -> exists p, assoc_get t POLICY = Some p /\ ok p = true.
Proof.
  intros ([t' p] & -> & [Hok Hin]%list_elem_of_filter)%list_elem_of_fmap. exists p.
  split; [|done]. by apply assoc_get_NoDup; [apply POLICY_keys|].
Qed.

(** What a restricted grant can reach.  A message the gate lets through on
    a read-only grant is one of the reads, the view moves and (where its file
    level says so) the file operations; on a recordings grant one of three; on
    a scoped grant never the creation or renaming of a session or the
    admission of a device; and with no file access never a file operation but
    the removal of one's own watch. *)
Theorem restricted_grants tmux now ctx msg (H : enforce tmux now ctx msg = Ok tt) :
  isGrantActive (cx_grant ctx) now = true /\
  (gr_readOnly (cx_grant ctx) = true -> m_type msg ∈ READ_ONLY_TYPES) /\
  (isRecordingsGrant (cx_grant ctx) = true ->
   m_type msg ∈ ["ping"; "recording:list"; "recording:fetch"]) /\
  (isFullGrant (cx_grant ctx) = false ->
   m_type msg ∉ ["session:create"; "session:rename"; "device:approve"]) /\
  (gr_files (cx_grant ctx) <> files_write -> m_type msg ∉ FILE_WRITE_TYPES).
Proof.
  apply enforce_permitted in H as (p & Hp & [Hact Hrec Hwr Hfull Hfiles _ _ _]).
  split; [done|]. split; [|split; [done|split]].
  - intros Hro. rewrite <- read_only_types. apply (in_types_with _ _ p Hp).
    destruct (po_write p); [|done]. rewrite Hwr in Hro; done.
  - intros Hnf. rewrite <- full_only_types.
    intros (q & Hq & Hok)%types_with_in. rewrite Hp in Hq. injection Hq as <-.
    rewrite Hfull in Hnf; done.
  - intros Hnf. rewrite <- file_write_types.
    intros (q & Hq & Hok)%types_with_in. rewrite Hp in Hq. injection Hq as <-.
    apply bool_decide_eq_true in Hok. specialize (Hfiles _ Hok). simpl in Hfiles.
    destruct Hfiles as [?|[?|?]]; congruence.
Qed.

(** ** No oracle *)

(** Names are unique, as in a tmux server. *)
Definition unique_names (sessions : list SessionRef) : Prop := NoDup (map ss_name sessions).

Lemma find_session_iff name sessions s :
  unique_names sessions ->
  find_session name sessions = Some s <-> s ∈ sessions /\ ss_name s = name.
Proof.
  unfold unique_names, find_session. intros Hnd. split.
  - intros ([i x] & Hf & [= ->])%fmap_Some. apply list_find_Some in Hf as (Hl & Hn & _).
    split; [by eapply list_elem_of_lookup_2|done].
  - intros [Hs Hn]. destruct (list_find_elem_of (fun t => ss_name t = name) _ s Hs Hn)
      as [[i x] Hf].
    rewrite Hf. simpl. f_equal. apply list_find_Some in Hf as (Hl & Hx & _).
    apply list_elem_of_lookup in Hs as [j Hj].
    assert (i = j) as -> by (apply (NoDup_lookup (map ss_name sessions) i j name); [exact Hnd| |];
      rewrite list_lookup_fmap; [rewrite Hl|rewrite Hj]; simpl; congruence).
    congruence.
Qed.

(** In scope means visible under that name. *)
Lemma in_scope_visible tmux ctx name sessions :
  listSessions tmux = Some sessions -> unique_names sessions ->
  in_scope tmux ctx name <->
  isFullGrant (cx_grant ctx) = true \/
  name ∈ map ss_name (visibleSessions (cx_grant ctx) sessions (cx_tmuxServerPid ctx)).
Proof.
  intros Hl Hu. unfold in_scope. f_equiv. rewrite list_elem_of_fmap. split.
  - intros (ss & s & Hs & Hf & Ha). rewrite Hl in Hs. injection Hs as <-.
    apply (find_session_iff _ _ _ Hu) in Hf as [Hin Hn].
    exists s. rewrite visibleSessions_spec. done.
  - intros (s & -> & [Hin Ha]%visibleSessions_spec). exists sessions, s.
    rewrite (find_session_iff _ _ _ Hu). done.
Qed.

(** Two machines that look alike to a holder: the sessions it may see are the
    same, and so are the panes of each of them and of the attached session. *)
Record same_view (ctx : EnforceContext) (t1 t2 : Tmux) (l1 l2 : list SessionRef) : Prop :=
  mkSameView {
  sv_list1 : listSessions t1 = Some l1;
  sv_list2 : listSessions t2 = Some l2;
  sv_unique1 : unique_names l1;
  sv_unique2 : unique_names l2;
  sv_visible : visibleSessions (cx_grant ctx) l1 (cx_tmuxServerPid ctx)
               = visibleSessions (cx_grant ctx) l2 (cx_tmuxServerPid ctx);
  sv_panes : forall name,
    name ∈ map ss_name (visibleSessions (cx_grant ctx) l1 (cx_tmuxServerPid ctx)) \/
    attached ctx = Some name -> listPanes t1 name = listPanes t2 name;
  sv_windows : forall name, attached ctx = Some name -> listWindows t1 name = listWindows t2 name;
}.

Lemma same_view_scope ctx t1 t2 l1 l2 name :
  same_view ctx t1 t2 l1 l2 -> sessionInScope t1 ctx name = sessionInScope t2 ctx name.
Proof.
  intros [H1 H2 U1 U2 Hv _ _]. apply eq_bool_prop_intro. rewrite !Is_true_true.
  rewrite !sessionInScope_iff, (in_scope_visible t1 ctx name l1 H1 U1),
    (in_scope_visible t2 ctx name l2 H2 U2), Hv. done.
Qed.

Lemma same_view_panes ctx t1 t2 l1 l2 name pane :
  same_view ctx t1 t2 l1 l2 ->
  name ∈ map ss_name (visibleSessions (cx_grant ctx) l1 (cx_tmuxServerPid ctx)) \/
  attached ctx = Some name ->
  paneBelongs t1 name pane = paneBelongs t2 name pane.
Proof. intros [_ _ _ _ _ Hp _] Hn. unfold paneBelongs. by rewrite (Hp name Hn). Qed.

Lemma same_view_windows ctx t1 t2 l1 l2 name w :
  same_view ctx t1 t2 l1 l2 -> attached ctx = Some name ->
  windowBelongs t1 name w = windowBelongs t2 name w.
Proof. intros [_ _ _ _ _ _ Hw] Hn. unfold windowBelongs. by rewrite (Hw name Hn). Qed.

Lemma same_view_target ctx t1 t2 l1 l2 target :
  same_view ctx t1 t2 l1 l2 -> check_target t1 ctx target = check_target t2 ctx target.
Proof.
  intros Hv. unfold check_target. destruct (target ≫= tg_session) as [name|]; simpl.
  - rewrite <- (same_view_scope _ _ _ _ _ name Hv).
    destruct (sessionInScope t1 ctx name) eqn:Hs; simpl; [|done].
    destruct (target ≫= tg_paneId) as [pane|], (isFullGrant (cx_grant ctx)) eqn:Hf; try done.
    destruct (decide (name = "")); [done|].
    rewrite (same_view_panes _ _ _ _ _ name pane Hv); [done|]. left.
    apply sessionInScope_iff, (in_scope_visible _ _ _ _ (sv_list1 _ _ _ _ _ Hv)
      (sv_unique1 _ _ _ _ _ Hv)) in Hs as [Hs|Hs]; [congruence|done].
  - destruct (target ≫= tg_paneId) as [pane|], (isFullGrant (cx_grant ctx)); try done.
    destruct (attached ctx) as [name|] eqn:Ha; [|done].
    rewrite (same_view_panes _ _ _ _ _ name pane Hv); [done|by right].
Qed.

Lemma same_view_id ctx t1 t2 l1 l2 p msg :
  same_view ctx t1 t2 l1 l2 -> check_id t1 ctx p msg = check_id t2 ctx p msg.
Proof.
  intros Hv. unfold check_id. destruct (m_id msg) as [id|]; [|done].
  destruct (attached ctx) as [name|] eqn:Ha; [|done].
  rewrite (same_view_panes _ _ _ _ _ name id Hv) by (by right).
  by rewrite (same_view_windows _ _ _ _ _ name id Hv Ha).
Qed.

(** The gate is no oracle.  The answer to any message, its wording
    included, is the same on two machines whose visible sessions are the same,
    whatever other sessions they run: a session out of scope and a session
    that does not exist cannot be told apart. *)
Theorem enforce_no_oracle ctx t1 t2 l1 l2 now msg (Hview : same_view ctx t1 t2 l1 l2) :
  enforce t1 now ctx msg = enforce t2 now ctx msg.
Proof.
  unfold enforce. destruct (assoc_get (m_type msg) POLICY) as [p|]; [|done].
  rewrite (same_view_target _ _ _ _ _ (m_target msg) Hview).
  rewrite (same_view_id _ _ _ _ _ p msg Hview).
  unfold check_sessionArg. destruct (po_sessionArg p) as [arg|]; [|done].
  destruct (session_field arg msg) as [name|]; [|done].
  by rewrite (same_view_scope _ _ _ _ _ name Hview).
Qed.

(** ** A gap in the table *)

(** [pane:zoom] carries a pane id that the gate never checks.  Any active
    grant that may write and is not for recordings is allowed to zoom any
    pane id, attached or not, whatever panes tmux has: the table's row asks
    for [write] alone, while every other message naming a pane has [paneId]. *)
Theorem pane_zoom_unchecked tmux now ctx id
    (Hactive : isGrantActive (cx_grant ctx) now = true)
    (Hwrite : gr_readOnly (cx_grant ctx) = false)
    (Hlive : isRecordingsGrant (cx_grant ctx) = false) :
  enforce tmux now ctx (mkMsg "pane:zoom" id None None None) = Ok tt.
Proof.
  unfold enforce. change (assoc_get (m_type _) POLICY) with (Some (policy [Write])).
  cbn. by rewrite Hactive, Hlive, Hwrite.
Qed.

(** ** Witnesses *)

Definition demo_share : GrantRecord :=
  mkGrant "grn_1" "one session" (ScopeSessions [mkGS "$1" "work"]) false files_none 0
    (Some 1000) None (Some 7) "" None.
Definition demo_watch : GrantRecord :=
  mkGrant "grn_2" "watch" (ScopeSessions [mkGS "$1" "work"]) true files_none 0
    (Some 1000) None (Some 7) "" None.
Definition demo_ctx (g : GrantRecord) : EnforceContext := mkCtx g (Some "work"%string) (Some 7).
Definition sess (id name : string) : SessionRef := mkSession (Some id) name.

(** Two machines: the second also runs [secret]. *)
Definition demo_list1 : list SessionRef := [sess "$1" "work"].
Definition demo_list2 : list SessionRef := [sess "$0" "secret"; sess "$1" "work"].
Definition demo_panes (name : string) : option (list string) :=
  if decide (name = "work") then Some ["%1"] else None.
Definition demo_tmux1 : Tmux := mkTmux (Some demo_list1) demo_panes demo_panes.
Definition demo_tmux2 : Tmux := mkTmux (Some demo_list2) demo_panes demo_panes.

Lemma restricted_grants_witness :
  enforce demo_tmux1 5 (demo_ctx demo_watch) (mkMsg "pane:capture" (Some "%1"%string) None None None)
    = Ok tt /\ "pane:capture"%string ∈ READ_ONLY_TYPES.
Proof.
  split; [by vm_compute|].
  apply (restricted_grants demo_tmux1 5 (demo_ctx demo_watch)
    (mkMsg "pane:capture" (Some "%1"%string) None None None)); by vm_compute.
Defined.

Lemma enforce_no_oracle_witness :
  enforce demo_tmux1 5 (demo_ctx demo_share) (mkMsg "session:attach" None (Some "secret"%string) None None)
  = enforce demo_tmux2 5 (demo_ctx demo_share)
      (mkMsg "session:attach" None (Some "secret"%string) None None).
Proof.
  apply (enforce_no_oracle _ _ _ demo_list1 demo_list2). constructor; try done;
    apply (bool_decide_unpack _); vm_compute; exact I.
Defined.

Lemma pane_zoom_unchecked_witness :
  enforce demo_tmux1 5 (demo_ctx demo_share) (mkMsg "pane:zoom" (Some "%99"%string) None None None)
  = Ok tt.
Proof. apply (pane_zoom_unchecked demo_tmux1 5 (demo_ctx demo_share)); by vm_compute. Defined.
