(* ===== verification/Paths.v ===== *)
(** * Paths: the file system the relay reads and writes

    What [apps/relay/src/file-service.ts] uses of [node:path] and [node:fs]:
    POSIX paths, a tree with symbolic links, the kernel's path walk, Node's
    [realpathSync] and the calls that read or change the tree.  A tree maps the
    path of each node, from the root, to the node.  A symbolic link's target is
    kept parsed: it climbs first, if at all, and then descends (a target that
    climbs after descending is not represented; there [realpathSync], which
    resolves targets lexically, and the kernel disagree).  Times, owners, hard
    links and special files are left out, and every directory is open to the
    process; a file has the access bits [fs.access] looks at. *)

From S2P Require Import Prelude Bytes.

(** ** [node:path] *)

Definition SEP : Z := 47.
Definition DOT : jstr := [46].
Definition DOTDOT : jstr := [46; 46].

(** [s.split("/")]. *)
Fixpoint split_sep (s : jstr) : list jstr :=
  match s with
  | [] => [[]]
  | c :: s' =>
      if c =? SEP then [] :: split_sep s'
      else match split_sep s' with h :: t => (c :: h) :: t | [] => [[c]] end
  end.

Abbreviation Path := (list jstr).

(** One segment on top of the directory reached so far. *)
Definition step_seg (dir : Path) (seg : jstr) : Path :=
  if decide (seg = [] \/ seg = DOT) then dir
  else if decide (seg = DOTDOT) then take (length dir - 1) dir
  else dir ++ [seg].

(** [path.resolve(p)] in the working directory [cwd]: an absolute path without
    [.] and [..], as the list of its segments. *)
Definition resolve (cwd : Path) (p : jstr) : Path :=
  fold_left step_seg (split_sep p) (match p with c :: _ => if c =? SEP then [] else cwd | [] => cwd end).

(** Its text. *)
Definition render (p : Path) : jstr := concat (map (cons SEP) p).
Definition show (p : Path) : jstr := match p with [] => [SEP] | _ => render p end.

(** [path.dirname] and [path.basename] of such a path; [path.join(d, b)] of one
    with a single segment is [d ++ [b]]. *)
Definition dirname (p : Path) : Path := take (length p - 1) p.
Definition basename (p : Path) : jstr := default [] (last p).

Definition startsWith (s prefix : jstr) : bool := bool_decide (prefix `prefix_of` s).

(** A name a directory can hold. *)
Definition seg_ok (s : jstr) : Prop := s <> [] /\ s <> DOT /\ s <> DOTDOT /\ SEP ∉ s.

(** ** The tree *)

Record Mode := mkMode { m_read : bool; m_write : bool }.

(** Where a link's target starts: at the root, or [n] directories up. *)
Inductive LinkBase := FromRoot | Up (n : nat).

Inductive Node :=
| File (content : bytes) (mode : Mode)
| Dir
| Link (base : LinkBase) (names : Path).

Abbreviation FS := (gmap Path Node).

Inductive Errno := ENOENT | ENOTDIR | ELOOP | EEXIST | EISDIR | EACCES | ENOTEMPTY | EINVAL | EBUSY.

Definition node_at (fs : FS) (q : Path) : option Node :=
  match q with [] => Some Dir | _ => fs !! q end.

Definition base_dir (dir : Path) (b : LinkBase) : Path :=
  match b with FromRoot => [] | Up n => take (length dir - n) dir end.

(** ** Walking a path *)

(** Symbolic links a walk of the kernel follows at most. *)
Definition MAX_LINKS : nat := 40.

(** The kernel's walk from directory [dir] along [rest]: the node it ends at.
    With [missing], the last component need not exist ([O_CREAT]). *)
Fixpoint walk (links : nat) (missing : bool) (fs : FS) : Path -> Path -> result Errno Path :=
  fix go (dir rest : Path) : result Errno Path :=
    match rest with
    | [] => Ok dir
    | s :: rest' =>
        match fs !! (dir ++ [s]) with
        | None =>
            match rest' with
            | [] => if missing then Ok (dir ++ [s]) else Err ENOENT
            | _ => Err ENOENT
            end
        | Some (File _ _) => match rest' with [] => Ok (dir ++ [s]) | _ => Err ENOTDIR end
        | Some Dir => go (dir ++ [s]) rest'
        | Some (Link b names) =>
            match links with
            | O => Err ELOOP
            | S links => walk links missing fs (base_dir dir b) (names ++ rest')
            end
        end
    end.

(** Node's [realpathSync]: component by component, a link being followed once
    [statSync] has found that the kernel can follow it, which renews the
    kernel's limit; [fuel] bounds the links followed in all. *)
Fixpoint real (fuel : nat) (fs : FS) : Path -> Path -> result Errno Path :=
  fix go (dir rest : Path) : result Errno Path :=
    match rest with
    | [] => Ok dir
    | s :: rest' =>
        match fs !! (dir ++ [s]) with
        | None => Err ENOENT
        | Some (File _ _) => match rest' with [] => Ok (dir ++ [s]) | _ => Err ENOTDIR end
        | Some Dir => go (dir ++ [s]) rest'
        | Some (Link b names) =>
            match fuel with
            | O => Err ELOOP
            | S fuel =>
                match walk MAX_LINKS false fs dir [s] with
                | Err e => Err e
                | Ok _ => real fuel fs (base_dir dir b) (names ++ rest')
                end
            end
        end
    end.

(** The links of one component are at most [MAX_LINKS] ([real_fuel]). *)
Definition realpathSync (fs : FS) (p : Path) : result Errno Path :=
  real (MAX_LINKS * length p) fs [] p.

(** ** Calls *)

(** [stat]: it follows links. *)
Definition os_stat (fs : FS) (p : Path) : result Errno Node :=
  q ← walk MAX_LINKS false fs [] p;
  match node_at fs q with Some n => Ok n | None => Err ENOENT end.

Definition os_readFile (fs : FS) (p : Path) : result Errno bytes :=
  n ← os_stat fs p;
  match n with
  | File c m => if m_read m then Ok c else Err EACCES
  | Dir => Err EISDIR
  | Link _ _ => Err ELOOP
  end.

(** [readdir(p, { withFileTypes: true })]: the names and the nodes themselves. *)
Definition child_of (q : Path) (e : Path * Node) : option (jstr * Node) :=
  match last e.1 with
  | Some s => if decide (e.1 = q ++ [s]) then Some (s, e.2) else None
  | None => None
  end.
Definition os_readdir (fs : FS) (p : Path) : result Errno (list (jstr * Node)) :=
  q ← walk MAX_LINKS false fs [] p;
  match node_at fs q with
  | Some Dir => Ok (omap (child_of q) (map_to_list fs))
  | Some _ => Err ENOTDIR
  | None => Err ENOENT
  end.

Definition os_access (bit : Mode -> bool) (fs : FS) (p : Path) : result Errno unit :=
  n ← os_stat fs p;
  match n with File _ m => if bit m then Ok tt else Err EACCES | _ => Ok tt end.

(** [open] for writing with [O_CREAT], then the whole content from the old:
    [writeFile] truncates, [appendFile] does not. *)
Definition os_write (contents : bytes -> bytes) (fs : FS) (p : Path) : result Errno FS :=
  q ← walk MAX_LINKS true fs [] p;
  match node_at fs q with
  | None => Ok (<[q := File (contents []) (mkMode true true)]> fs)
  | Some (File c m) => if m_write m then Ok (<[q := File (contents c) m]> fs) else Err EACCES
  | Some Dir => Err EISDIR
  | Some (Link _ _) => Err ELOOP
  end.

(** The entry a path names, the last component not being followed. *)
Definition os_entry (fs : FS) (p : Path) : result Errno Path :=
  match p with
  | [] => Err EBUSY
  | _ =>
      d ← walk MAX_LINKS false fs [] (dirname p);
      match node_at fs d with
      | Some Dir => Ok (d ++ [basename p])
      | _ => Err ENOTDIR
      end
  end.

(** [open] with [O_EXCL], and [mkdir]. *)
Definition os_make (n : Node) (fs : FS) (p : Path) : result Errno FS :=
  q ← os_entry fs p;
  match fs !! q with Some _ => Err EEXIST | None => Ok (<[q := n]> fs) end.

Definition under (q x : Path) : Prop := q `prefix_of` x.
#[export] Instance under_dec q x : Decision (under q x).
Proof. unfold under. apply _. Defined.

Definition prune (q : Path) (fs : FS) : FS := filter (fun e => ~ under q e.1) fs.

(** [rm]: of a directory only with [recursive]. *)
Definition os_rm (recursive : bool) (fs : FS) (p : Path) : result Errno FS :=
  q ← os_entry fs p;
  match fs !! q with
  | None => Err ENOENT
  | Some Dir => if recursive then Ok (prune q fs) else Err EISDIR
  | Some _ => Ok (delete q fs)
  end.

Definition reroot (q r x : Path) : Path := if decide (under q x) then r ++ drop (length q) x else x.
Definition move (q r : Path) (fs : FS) : FS :=
  list_to_map (map (fun e => (reroot q r e.1, e.2)) (map_to_list (prune r fs))).

Definition is_empty_dir (q : Path) (fs : FS) : bool :=
  bool_decide (omap (child_of q) (map_to_list fs) = []).

Definition os_rename (fs : FS) (old new : Path) : result Errno FS :=
  q ← os_entry fs old;
  r ← os_entry fs new;
  match fs !! q with
  | None => Err ENOENT
  | Some n =>
      if decide (q = r) then Ok fs
      else if decide (under q r) then Err EINVAL
      else match n, fs !! r with
           | _, None => Ok (move q r fs)
           | Dir, Some Dir => if is_empty_dir r fs then Ok (move q r fs) else Err ENOTEMPTY
           | Dir, Some _ => Err ENOTDIR
           | _, Some Dir => Err EISDIR
           | _, Some _ => Ok (move q r fs)
           end
  end.

(** ** Paths and their text *)

Lemma split_sep_no_sep s : Forall (fun seg => SEP ∉ seg) (split_sep s).
Proof.
  induction s as [|c s IH]; simpl; [repeat constructor; apply not_elem_of_nil|].
  destruct (Z.eqb_spec c SEP) as [|Hc]; [constructor; [apply not_elem_of_nil|done]|].
  destruct (split_sep s) as [|h t]; inversion IH; subst; repeat constructor; set_solver.
Qed.

Lemma step_seg_ok dir seg :
  Forall seg_ok dir -> SEP ∉ seg -> Forall seg_ok (step_seg dir seg).
Proof.
  intros Hd Hs. unfold step_seg. repeat case_decide; [done|by apply Forall_take|].
  apply Forall_app; split; [done|]. repeat constructor; naive_solver.
Qed.

Lemma resolve_ok cwd p : Forall seg_ok cwd -> Forall seg_ok (resolve cwd p).
Proof.
  intros Hcwd. unfold resolve.
  assert (Forall seg_ok (match p with c :: _ => if c =? SEP then [] else cwd | [] => cwd end)) as H1
    by (destruct p; [done|]; by destruct (_ =? _)).
  revert H1. generalize (match p with c :: _ => if c =? SEP then [] else cwd | [] => cwd end).
  induction (split_sep_no_sep p) as [|seg l Hseg Hl IH]; intros dir Hdir; [done|].
  simpl. apply IH. by apply step_seg_ok.
Qed.

Lemma seg_app_prefix (x y : jstr) u v :
  SEP ∉ x -> SEP ∉ y -> x ++ SEP :: u `prefix_of` y ++ v ->
  (v = [] \/ exists v', v = SEP :: v') -> x = y.
Proof.
  revert y. induction x as [|c x IH]; intros [|c' y] Hx Hy Hp Hv.
  - done.
  - simpl in Hp. apply prefix_cons_inv_1 in Hp as <-. set_solver.
  - exfalso. simpl in Hp. destruct Hv as [->|[v' ->]]; [by apply prefix_nil_not in Hp|].
    apply prefix_cons_inv_1 in Hp as ->. set_solver.
  - simpl in Hp. pose proof (prefix_cons_inv_1 _ _ _ _ Hp) as ->.
    apply prefix_cons_inv_2 in Hp. f_equal. eapply IH; [| |exact Hp|done]; set_solver.
Qed.

Lemma seg_app_inj (x y : jstr) u v :
  SEP ∉ x -> SEP ∉ y -> x ++ u = y ++ v ->
  (u = [] \/ exists u', u = SEP :: u') -> (v = [] \/ exists v', v = SEP :: v') -> x = y.
Proof.
  revert y. induction x as [|c x IH]; intros [|d y] Hx Hy He Hu Hv; simpl in *.
  - done.
  - destruct Hu as [->|[u' ->]]; [done|]. injection He as <- _. set_solver.
  - destruct Hv as [->|[v' ->]]; [done|]. injection He as -> _. set_solver.
  - injection He as -> He. f_equal. eapply IH; [| |exact He|done|done]; set_solver.
Qed.

Lemma render_tail p : render p = [] \/ exists v, render p = SEP :: v.
Proof. destruct p as [|x p]; [by left|right]. by eexists. Qed.

(** A directory's text and a separator start the text of what is below it. *)
Lemma render_prefix a b :
  Forall seg_ok a -> Forall seg_ok b ->
  render b ++ [SEP] `prefix_of` render a <-> b `prefix_of` a /\ b <> a.
Proof.
  intros Ha Hb. revert a Ha. induction Hb as [|x b Hx Hb IH]; intros a Ha.
  - destruct a as [|y a]; simpl; [split; [by intros ?%prefix_nil_not|by intros [_ []]]|].
    split; [split; [apply prefix_nil|done]|]. intros _. apply prefix_cons, prefix_nil.
  - destruct Ha as [|y a Hy Ha].
    { simpl. split; [by intros ?%prefix_nil_not|]. by intros [?%prefix_nil_not _]. }
    change (render (x :: b)) with (SEP :: x ++ render b).
    change (render (y :: a)) with (SEP :: y ++ render a).
    rewrite <-app_comm_cons, <-app_assoc. split.
    + intros Hp%prefix_cons_inv_2.
      assert (x = y) as ->.
      { destruct (render_tail b) as [Hr|[v Hr]]; rewrite Hr in Hp;
          (eapply seg_app_prefix; [apply Hx|apply Hy|exact Hp|apply render_tail]). }
      apply prefix_app_inv in Hp. apply IH in Hp as [Hp Hne]; [|done].
      split; [by apply prefix_cons|congruence].
    + intros [Hp Hne]. pose proof (prefix_cons_inv_1 _ _ _ _ Hp) as ->.
      apply prefix_cons_inv_2 in Hp. apply prefix_cons, prefix_app, IH; [done|].
      split; [done|congruence].
Qed.

Lemma render_inj a b : Forall seg_ok a -> Forall seg_ok b -> render a = render b -> a = b.
Proof.
  intros Ha Hb. revert a Ha. induction Hb as [|x b Hx Hb IH]; intros a Ha Heq.
  - by destruct Ha.
  - destruct Ha as [|y a Hy Ha]; [done|].
    change (SEP :: y ++ render a = SEP :: x ++ render b) in Heq. injection Heq as Heq.
    assert (y = x) as ->.
    { eapply seg_app_inj; [apply Hy|apply Hx|exact Heq|apply render_tail|apply render_tail]. }
    apply app_inv_head in Heq. f_equal. by apply IH.
Qed.

Lemma show_inj a b : Forall seg_ok a -> Forall seg_ok b -> show a = show b -> a = b.
Proof.
  intros Ha Hb. destruct Ha as [|x a Hx Ha], Hb as [|y b Hy Hb]; try done.
  - change ([SEP] = SEP :: y ++ render b -> [] = y :: b). intros [= He].
    destruct Hy as [Hy _]. by destruct y.
  - change (SEP :: x ++ render a = [SEP] -> x :: a = []). intros [= He].
    destruct Hx as [Hx _]. by destruct x.
  - apply render_inj; by constructor.
Qed.

(** ** Walks *)

(** A path of directories, each of them a directory of the tree itself. *)
Inductive dir_path (fs : FS) : Path -> Prop :=
| dir_root : dir_path fs []
| dir_step d s : dir_path fs d -> fs !! (d ++ [s]) = Some Dir -> dir_path fs (d ++ [s]).

(** A path without links on it: what [realpathSync] returns. *)
Definition canonical (fs : FS) (q : Path) : Prop :=
  dir_path fs q \/
  exists d s c m, q = d ++ [s] /\ dir_path fs d /\ fs !! q = Some (File c m).

Lemma dir_path_prefix fs d q : dir_path fs q -> d `prefix_of` q -> dir_path fs d.
Proof.
  induction 1 as [|q s Hq IH Hs]; intros Hp; [by apply prefix_nil_inv in Hp as ->; constructor|].
  destruct Hp as [k Hk]. destruct k as [|t k _] using rev_ind.
  - rewrite app_nil_r in Hk. subst. by constructor.
  - rewrite app_assoc in Hk. apply app_inj_tail in Hk as [-> ->]. apply IH. by exists k.
Qed.

Lemma base_dir_path fs d b : dir_path fs d -> dir_path fs (base_dir d b).
Proof.
  intros Hd. destruct b as [|n]; simpl; [constructor|].
  eapply dir_path_prefix; [exact Hd|]. apply prefix_take.
Qed.

Lemma dir_path_at fs d : dir_path fs d -> node_at fs d = Some Dir.
Proof. intros [|d' s Hd Hs]; [done|]. unfold node_at. by destruct (d' ++ [s]). Qed.

Lemma node_at_snoc fs d s : node_at fs (d ++ [s]) = fs !! (d ++ [s]).
Proof. unfold node_at. destruct (d ++ [s]) eqn:Hd; [by destruct d|done]. Qed.

Lemma canonical_no_link fs q b names : canonical fs q -> node_at fs q <> Some (Link b names).
Proof.
  intros [Hd|(d & s & c & m & -> & _ & Hs)]; [by rewrite (dir_path_at _ _ Hd)|].
  by rewrite node_at_snoc, Hs.
Qed.

(** The names of links are names. *)
Definition link_ok (n : Node) : Prop := match n with Link _ names => Forall seg_ok names | _ => True end.
Definition links_ok (fs : FS) : Prop := forall q n, fs !! q = Some n -> link_ok n.

Lemma dirname_snoc (d : Path) s : dirname (d ++ [s]) = d.
Proof. unfold dirname. rewrite length_app. simpl. by rewrite Nat.add_sub, take_app_length. Qed.
Lemma basename_snoc (d : Path) s : basename (d ++ [s]) = s.
Proof. unfold basename. by rewrite last_snoc. Qed.
Lemma path_snoc (p : Path) : p = [] \/ p = dirname p ++ [basename p].
Proof.
  destruct p as [|s p _] using rev_ind; [by left|right]. by rewrite dirname_snoc, basename_snoc.
Qed.

Section Walks.
Context (fs : FS).

Lemma walk_cons links missing dir s rest :
  walk links missing fs dir (s :: rest) =
  match fs !! (dir ++ [s]) with
  | None =>
      match rest with
      | [] => if missing then Ok (dir ++ [s]) else Err ENOENT
      | _ => Err ENOENT
      end
  | Some (File _ _) => match rest with [] => Ok (dir ++ [s]) | _ => Err ENOTDIR end
  | Some Dir => walk links missing fs (dir ++ [s]) rest
  | Some (Link b names) =>
      match links with
      | O => Err ELOOP
      | S links => walk links missing fs (base_dir dir b) (names ++ rest)
      end
  end.
Proof. by destruct links. Qed.

Lemma walk_nil links missing dir : walk links missing fs dir [] = Ok dir.
Proof. by destruct links. Qed.

Lemma real_cons fuel dir s rest :
  real fuel fs dir (s :: rest) =
  match fs !! (dir ++ [s]) with
  | None => Err ENOENT
  | Some (File _ _) => match rest with [] => Ok (dir ++ [s]) | _ => Err ENOTDIR end
  | Some Dir => real fuel fs (dir ++ [s]) rest
  | Some (Link b names) =>
      match fuel with
      | O => Err ELOOP
      | S fuel =>
          match walk MAX_LINKS false fs dir [s] with
          | Err e => Err e
          | Ok _ => real fuel fs (base_dir dir b) (names ++ rest)
          end
      end
  end.
Proof. by destruct fuel. Qed.

Lemma real_nil fuel dir : real fuel fs dir [] = Ok dir.
Proof. by destruct fuel. Qed.

(** Induction on the links left, then on the components left. *)
Lemma walk_ind (P : nat -> Path -> Path -> Prop) :
  (forall links dir, P links dir []) ->
  (forall links dir s rest,
     (fs !! (dir ++ [s]) = Some Dir -> P links (dir ++ [s]) rest) ->
     (forall b names l, fs !! (dir ++ [s]) = Some (Link b names) -> links = S l ->
        P l (base_dir dir b) (names ++ rest)) ->
     P links dir (s :: rest)) ->
  forall links dir rest, P links dir rest.
Proof.
  intros Hnil Hcons links. induction links as [|links IHl]; intros dir rest; revert dir;
    (induction rest as [|s rest IHr]; intros dir; [done|apply Hcons; [by intros _|]]).
  - done.
  - by intros b names l _ [= <-].
Qed.

Lemma real_canonical fuel dir rest q :
  dir_path fs dir -> real fuel fs dir rest = Ok q -> canonical fs q.
Proof.
  revert fuel dir rest. apply (walk_ind (fun fuel dir rest =>
    dir_path fs dir -> real fuel fs dir rest = Ok q -> canonical fs q)).
  - intros fuel dir Hd. rewrite real_nil. intros [= <-]. by left.
  - intros fuel dir s rest IHd IHl Hd. rewrite real_cons.
    destruct (fs !! (dir ++ [s])) as [[c m| |b names]|] eqn:Hs; [..|done].
    + destruct rest; [|done]. intros [= <-]. right. eauto 10.
    + apply IHd; [done|]. by constructor.
    + destruct fuel as [|fuel]; [done|]. destruct (walk _ _ _ _ _); [|done].
      eapply IHl; [done|done|]. by apply base_dir_path.
Qed.

Lemma realpathSync_root : realpathSync fs [] = Ok [].
Proof. done. Qed.

Lemma realpathSync_canonical p q : realpathSync fs p = Ok q -> canonical fs q.
Proof. apply real_canonical. constructor. Qed.

(** A walk ends at a node without links on its way or, where that is allowed,
    at a name a directory does not have. *)
Lemma walk_ends links missing dir rest q :
  dir_path fs dir -> walk links missing fs dir rest = Ok q ->
  canonical fs q \/
  missing = true /\ fs !! q = None /\ exists d s, q = d ++ [s] /\ dir_path fs d.
Proof.
  revert links dir rest. apply (walk_ind (fun links dir rest =>
    dir_path fs dir -> walk links missing fs dir rest = Ok q -> _)).
  - intros links dir Hd. rewrite walk_nil. intros [= <-]. by left; left.
  - intros links dir s rest IHd IHl Hd. rewrite walk_cons.
    destruct (fs !! (dir ++ [s])) as [[c m| |b names]|] eqn:Hs.
    + destruct rest; [|done]. intros [= <-]. left; right. eauto 10.
    + apply IHd; [done|]. by constructor.
    + destruct links as [|links]; [done|].
      eapply IHl; [done|done|]. by apply base_dir_path.
    + destruct rest; [|done]. destruct missing; [|done]. intros [= <-]. eauto 10.
Qed.

(** Directories cost no links. *)
Lemma walk_dirs links missing d rest :
  dir_path fs d -> walk links missing fs [] (d ++ rest) = walk links missing fs d rest.
Proof.
  intros Hd. revert rest. induction Hd as [|d s Hd IH Hs]; intros rest; [done|].
  rewrite <-app_assoc, IH. cbn [app]. by rewrite walk_cons, Hs.
Qed.

Lemma real_dirs fuel d rest :
  dir_path fs d -> real fuel fs [] (d ++ rest) = real fuel fs d rest.
Proof.
  intros Hd. revert rest. induction Hd as [|d s Hd IH Hs]; intros rest; [done|].
  rewrite <-app_assoc, IH. cbn [app]. by rewrite real_cons, Hs.
Qed.

Lemma walk_canonical links missing q : canonical fs q -> walk links missing fs [] q = Ok q.
Proof.
  intros [Hd|(d & s & c & m & -> & Hd & Hs)].
  - rewrite <-(app_nil_r q) at 1. rewrite walk_dirs by done. apply walk_nil.
  - by rewrite walk_dirs, walk_cons, Hs.
Qed.

(** More links allowed, the same walk; and a walk that succeeds succeeds on
    the way. *)
Lemma walk_more links links' missing dir rest q :
  (links <= links')%nat ->
  walk links missing fs dir rest = Ok q -> walk links' missing fs dir rest = Ok q.
Proof.
  revert links dir rest links'. apply (walk_ind (fun links dir rest => forall links',
    (links <= links')%nat ->
    walk links missing fs dir rest = Ok q -> walk links' missing fs dir rest = Ok q)).
  - intros links dir links' _. by rewrite !walk_nil.
  - intros links dir s rest IHd IHl links' Hle. rewrite !walk_cons.
    destruct (fs !! (dir ++ [s])) as [[c m| |b names]|] eqn:Hs; [done| |..|done].
    + by apply IHd.
    + destruct links as [|links]; [done|]. destruct links' as [|links']; [lia|].
      eapply IHl; [done|done|lia].
Qed.

Lemma walk_app links missing dir a b q :
  walk links missing fs dir (a ++ b) = Ok q ->
  is_ok (walk links missing fs dir a) = true.
Proof.
  revert links dir a. apply (walk_ind (fun links dir a =>
    walk links missing fs dir (a ++ b) = Ok q -> is_ok (walk links missing fs dir a) = true)).
  - intros links dir _. by rewrite walk_nil.
  - intros links dir s a IHd IHl. rewrite <-app_comm_cons, !walk_cons.
    destruct (fs !! (dir ++ [s])) as [[c m| |lb names]|] eqn:Hs.
    + by destruct a, b.
    + by apply IHd.
    + destruct links as [|links]; [done|]. rewrite app_assoc. by apply IHl.
    + destruct a; [|done]. by destruct b, missing.
Qed.

(** Where the kernel finds a node, [realpathSync] finds the same. *)
Lemma walk_real links fuel dir rest q :
  (links <= MAX_LINKS)%nat -> (links <= fuel)%nat ->
  walk links false fs dir rest = Ok q -> real fuel fs dir rest = Ok q.
Proof.
  revert links dir rest fuel. apply (walk_ind (fun links dir rest => forall fuel,
    (links <= MAX_LINKS)%nat -> (links <= fuel)%nat ->
    walk links false fs dir rest = Ok q -> real fuel fs dir rest = Ok q)).
  - intros links dir fuel _ _. by rewrite walk_nil, real_nil.
  - intros links dir s rest IHd IHl fuel Hm Hle Hw. rewrite real_cons.
    pose proof (walk_app links false dir [s] rest q Hw) as Hs1. revert Hw. rewrite walk_cons.
    destruct (fs !! (dir ++ [s])) as [[c m| |b names]|] eqn:Hs; [done| |..|by destruct rest].
    + by apply IHd.
    + destruct links as [|links]; [done|]. destruct fuel as [|fuel]; [lia|].
      destruct (walk (S links) false fs dir [s]) as [q1|] eqn:H1; [|done].
      rewrite (walk_more _ MAX_LINKS _ _ _ _ Hm H1). eapply IHl; [done|done|lia|lia].
Qed.

(** What follows a resolved prefix, with the fuel that is left. *)
Definition beyond (fuel : nat) (q b : Path) : result Errno Path :=
  match node_at fs q, b with
  | Some (File _ _), _ :: _ => Err ENOTDIR
  | _, _ => real fuel fs q b
  end.

Lemma real_app fuel1 fuel2 dir a b q :
  dir_path fs dir -> real fuel1 fs dir a = Ok q ->
  exists fuel3, (fuel2 <= fuel3)%nat /\
    real (fuel1 + fuel2) fs dir (a ++ b) = beyond fuel3 q b.
Proof.
  revert fuel1 dir a. apply (walk_ind (fun fuel1 dir a =>
    dir_path fs dir -> real fuel1 fs dir a = Ok q -> exists fuel3, (fuel2 <= fuel3)%nat /\
    real (fuel1 + fuel2) fs dir (a ++ b) = beyond fuel3 q b)); unfold beyond.
  - intros fuel1 dir Hd. rewrite real_nil. intros [= <-]. exists (fuel1 + fuel2)%nat.
    split; [lia|]. by rewrite (dir_path_at _ _ Hd).
  - intros fuel1 dir s rest IHd IHl Hd. rewrite <-app_comm_cons, !real_cons.
    destruct (fs !! (dir ++ [s])) as [[c m| |lb names]|] eqn:Hs; [| | |done].
    + destruct rest; [|done]. intros [= <-]. exists fuel2. split; [done|].
      rewrite node_at_snoc, Hs. destruct b; [by rewrite real_nil|done].
    + apply IHd; [done|]. by constructor.
    + destruct fuel1 as [|fuel1]; [done|]. cbn [Nat.add].
      destruct (walk _ _ _ _ _); [|done]. rewrite app_assoc. apply IHl; [done|done|].
      by apply base_dir_path.
Qed.

Lemma beyond_dir fuel q b : dir_path fs q -> beyond fuel q b = real fuel fs q b.
Proof. intros Hq. unfold beyond. by rewrite (dir_path_at _ _ Hq). Qed.

(** The fuel of [realpathSync] is enough: more changes nothing. *)
Lemma real_fuel fuel fuel' dir rest :
  dir_path fs dir ->
  (MAX_LINKS * length rest <= fuel)%nat -> (MAX_LINKS * length rest <= fuel')%nat ->
  real fuel fs dir rest = real fuel' fs dir rest.
Proof.
  revert dir fuel fuel'. induction rest as [|s rest IH]; intros dir fuel fuel' Hd Hf Hf'.
  { by rewrite !real_nil. }
  simpl length in *. destruct (walk MAX_LINKS false fs dir [s]) as [q|e] eqn:Hw.
  - assert (forall f, (MAX_LINKS * S (length rest) <= f)%nat ->
      exists f3, (MAX_LINKS * length rest <= f3)%nat /\
      real f fs dir (s :: rest) = beyond f3 q rest) as Hstep.
    { intros f Hle.
      destruct (real_app MAX_LINKS (f - MAX_LINKS) dir [s] rest q Hd) as (f3 & ? & He).
      - by eapply walk_real.
      - exists f3. split; [lia|]. rewrite <-He. f_equal. lia. }
    destruct (Hstep fuel Hf) as (f3 & ? & ->), (Hstep fuel' Hf') as (f3' & ? & ->).
    destruct (walk_ends _ _ _ _ _ Hd Hw) as [[Hq|(d & t & c & m & -> & Hd' & Ht)]|[? _]]; [| |done].
    + rewrite !beyond_dir by done. by apply IH.
    + unfold beyond. rewrite node_at_snoc, Ht. destruct rest; [by rewrite !real_nil|done].
  - rewrite !real_cons. rewrite walk_cons in Hw.
    destruct (fs !! (dir ++ [s])) as [[c m| |b names]|] eqn:Hs; [done| |..|done].
    + apply IH; [by constructor|lia..].
    + destruct fuel; [unfold MAX_LINKS in Hf; lia|].
      destruct fuel'; [unfold MAX_LINKS in Hf'; lia|]. by rewrite walk_cons, Hs, Hw.
Qed.

(** Where the kernel finds a node, [realpathSync] finds the same one. *)
Lemma walk_realpathSync p q :
  walk MAX_LINKS false fs [] p = Ok q -> realpathSync fs p = Ok q.
Proof.
  intros Hw. unfold realpathSync. destruct p as [|s p]; [by rewrite real_nil, <-(walk_nil MAX_LINKS false)|].
  eapply walk_real; [done| |done]. cbn [length]. lia.
Qed.

(** A name in a resolved directory that [realpathSync] cannot resolve, the
    kernel cannot either: the name is missing, or a link that leads nowhere. *)
Lemma unresolved p d s e :
  realpathSync fs (p ++ [s]) = Err e -> realpathSync fs p = Ok d ->
  is_ok (walk MAX_LINKS false fs [] (d ++ [s])) = false.
Proof.
  intros He Hp. destruct (walk MAX_LINKS false fs [] (d ++ [s])) as [q|] eqn:Hw; [|done]. exfalso.
  unfold realpathSync in *. rewrite length_app, Nat.mul_add_distr_l in He. simpl length in He.
  destruct (real_app _ (MAX_LINKS * 1) [] p [s] d ltac:(constructor) Hp) as (f3 & Hf3 & Heq).
  rewrite Heq in He. destruct (realpathSync_canonical _ _ Hp) as [Hd|(d' & t & c & m & -> & Hd' & Ht)].
  - rewrite beyond_dir in He by done. rewrite walk_dirs in Hw by done.
    rewrite (walk_real _ f3 _ _ _ (le_n _) ltac:(lia) Hw) in He. done.
  - rewrite <-app_assoc in Hw. rewrite walk_dirs in Hw by done. cbn [app] in Hw.
    by rewrite walk_cons, Ht in Hw.
Qed.

Lemma real_seg_ok fuel dir rest q :
  links_ok fs -> Forall seg_ok dir -> Forall seg_ok rest ->
  real fuel fs dir rest = Ok q -> Forall seg_ok q.
Proof.
  intros Hl. revert fuel dir rest. apply (walk_ind (fun fuel dir rest =>
    Forall seg_ok dir -> Forall seg_ok rest -> real fuel fs dir rest = Ok q -> Forall seg_ok q)).
  - intros fuel dir Hd _. rewrite real_nil. by intros [= <-].
  - intros fuel dir s rest IHd IHl Hd [Hs Hr]%Forall_cons. rewrite real_cons.
    assert (Forall seg_ok (dir ++ [s])) as Hds by (apply Forall_app; split; [done|by constructor]).
    destruct (fs !! (dir ++ [s])) as [[c m| |b names]|] eqn:Hn; [..|done].
    + destruct rest; [|done]. by intros [= <-].
    + by apply IHd.
    + destruct fuel as [|fuel]; [done|]. destruct (walk _ _ _ _ _); [|done].
      eapply IHl; [done|done| |].
      * destruct b; simpl; [constructor|by apply Forall_take].
      * apply Forall_app; split; [|done]. exact (Hl _ _ Hn).
Qed.

(** Creating a file takes a directory to put it in. *)
Lemma walk_parent links missing dir a s :
  is_ok (walk links missing fs dir (a ++ [s])) = true ->
  is_ok (walk links false fs dir a) = true.
Proof.
  revert links dir a. apply (walk_ind (fun links dir a =>
    is_ok (walk links missing fs dir (a ++ [s])) = true -> is_ok (walk links false fs dir a) = true)).
  - intros links dir _. by rewrite walk_nil.
  - intros links dir t a IHd IHl. rewrite <-app_comm_cons, !walk_cons.
    destruct (fs !! (dir ++ [t])) as [[c m| |lb names]|] eqn:Hs.
    + by destruct a.
    + by apply IHd.
    + destruct links as [|links]; [done|]. rewrite app_assoc. by apply IHl.
    + by destruct a.
Qed.
End Walks.

(** ** What a call changes *)

Definition changed (fs fs' : FS) (x : Path) : Prop := fs' !! x <> fs !! x.

Lemma changed_insert fs q n x : changed fs (<[q := n]> fs) x -> x = q.
Proof. unfold changed. destruct (decide (x = q)); [done|]. by rewrite lookup_insert_ne. Qed.

Lemma changed_delete fs q x : changed fs (delete q fs) x -> x = q.
Proof. unfold changed. destruct (decide (x = q)); [done|]. by rewrite lookup_delete_ne. Qed.

Lemma prune_lookup fs q x : prune q fs !! x = if decide (under q x) then None else fs !! x.
Proof.
  unfold prune. rewrite map_lookup_filter. destruct (fs !! x); simpl; repeat case_guard; by case_decide.
Qed.

Lemma changed_prune fs q x : changed fs (prune q fs) x -> under q x.
Proof. unfold changed. rewrite prune_lookup. by case_decide. Qed.

Lemma reroot_under q r x : under q x -> under r (reroot q r x).
Proof. intros Hu. unfold reroot. rewrite decide_True by done. by eexists. Qed.

Lemma reroot_inj q r x y :
  ~ under r x -> ~ under r y -> reroot q r x = reroot q r y -> x = y.
Proof.
  unfold reroot. intros Hx Hy. repeat case_decide; intros Heq.
  - apply app_inv_head in Heq. destruct H as [k ->], H0 as [k' ->].
    rewrite !drop_app_length in Heq. by subst.
  - exfalso. apply Hy. rewrite <-Heq. by eexists.
  - exfalso. apply Hx. rewrite Heq. by eexists.
  - done.
Qed.

Lemma move_lookup fs q r x :
  ~ under q x -> ~ under r x -> move q r fs !! x = fs !! x.
Proof.
  intros Hq Hr. unfold move. set (l := map _ _).
  assert (NoDup l.*1) as Hnd.
  { unfold l. rewrite <-list_fmap_compose.
    apply NoDup_fmap_2_strong; [|by apply NoDup_map_to_list].
    intros [y n] [z m] Hy%elem_of_map_to_list Hz%elem_of_map_to_list Heq. simpl in Heq.
    rewrite prune_lookup in Hy, Hz. case_decide; [done|]. case_decide; [done|].
    assert (y = z) as -> by (by eapply reroot_inj). congruence. }
  destruct (fs !! x) as [n|] eqn:Hx.
  - apply elem_of_list_to_map_1; [done|]. apply list_elem_of_fmap. exists (x, n). split.
    + unfold reroot. by rewrite decide_False.
    + apply elem_of_map_to_list. by rewrite prune_lookup, decide_False.
  - apply not_elem_of_list_to_map_1. intros ([y n] & Hy & Hin)%list_elem_of_fmap.
    apply list_elem_of_fmap in Hin as ([z m] & [= -> ->] & Hz%elem_of_map_to_list). simpl in Hy.
    rewrite prune_lookup in Hz. case_decide as Hu; [done|]. unfold reroot in Hy.
    case_decide; [|congruence]. apply Hr. rewrite Hy. by eexists.
Qed.

Lemma changed_move fs q r x : changed fs (move q r fs) x -> under q x \/ under r x.
Proof.
  intros Hc. destruct (decide (under q x)), (decide (under r x)); [tauto..|].
  exfalso. apply Hc. by apply move_lookup.
Qed.

(** ** Writing a file keeps the ways to it *)

Section Insert.
Context (fs : FS) (r : Path) (c : bytes) (m : Mode).
Hypothesis fileish : fs !! r = None \/ exists c0 m0, fs !! r = Some (File c0 m0).

Notation fs' := (<[r := File c m]> fs).

Lemma insert_other x n : fs !! x = Some n -> (forall c0 m0, n <> File c0 m0) -> fs' !! x = Some n.
Proof.
  intros Hx Hn. rewrite lookup_insert_ne; [done|]. intros ->. destruct fileish as [|(? & ? & ?)]; naive_solver.
Qed.

Lemma insert_file x c0 m0 : fs !! x = Some (File c0 m0) -> exists c1 m1, fs' !! x = Some (File c1 m1).
Proof.
  intros Hx. destruct (decide (x = r)) as [->|]; [rewrite lookup_insert_eq|rewrite lookup_insert_ne by done]; eauto.
Qed.

Lemma dir_path_insert d : dir_path fs d -> dir_path fs' d.
Proof. induction 1; constructor; [done|]. by apply insert_other. Qed.

Lemma walk_insert links dir rest q :
  walk links false fs dir rest = Ok q -> walk links false fs' dir rest = Ok q.
Proof.
  revert links dir rest. apply (walk_ind fs (fun links dir rest =>
    walk links false fs dir rest = Ok q -> walk links false fs' dir rest = Ok q)).
  - intros links dir. by rewrite !walk_nil.
  - intros links dir s rest IHd IHl. rewrite !walk_cons.
    destruct (fs !! (dir ++ [s])) as [[c0 m0| |b names]|] eqn:Hs.
    + by destruct (insert_file _ _ _ Hs) as (? & ? & ->).
    + rewrite (insert_other _ _ Hs) by done. auto.
    + rewrite (insert_other _ _ Hs) by done. destruct links; [done|]. by eapply IHl.
    + by destruct rest.
Qed.

Lemma real_insert fuel dir rest q : real fuel fs dir rest = Ok q -> real fuel fs' dir rest = Ok q.
Proof.
  revert fuel dir rest. apply (walk_ind fs (fun fuel dir rest =>
    real fuel fs dir rest = Ok q -> real fuel fs' dir rest = Ok q)).
  - intros fuel dir. by rewrite !real_nil.
  - intros fuel dir s rest IHd IHl. rewrite !real_cons.
    destruct (fs !! (dir ++ [s])) as [[c0 m0| |b names]|] eqn:Hs; [| | |done].
    + by destruct (insert_file _ _ _ Hs) as (? & ? & ->).
    + rewrite (insert_other _ _ Hs) by done. auto.
    + rewrite (insert_other _ _ Hs) by done. destruct fuel; [done|].
      destruct (walk _ _ _ _ _) as [q1|] eqn:Hw; [|done]. rewrite (walk_insert _ _ _ _ Hw).
      by eapply IHl.
Qed.

Lemma realpathSync_insert p q : realpathSync fs p = Ok q -> realpathSync fs' p = Ok q.
Proof. apply real_insert. Qed.
End Insert.

(** One name further than a resolved directory. *)
Lemma realpathSync_snoc fs a s d :
  realpathSync fs a = Ok d -> dir_path fs d ->
  (exists n, fs !! (d ++ [s]) = Some n /\ forall b names, n <> Link b names) ->
  realpathSync fs (a ++ [s]) = Ok (d ++ [s]).
Proof.
  intros Ha Hd (n & Hn & Hl). unfold realpathSync.
  rewrite length_app, Nat.mul_add_distr_l.
  destruct (real_app fs _ (MAX_LINKS * length [s]) [] a [s] d (dir_root fs) Ha) as (f3 & _ & ->).
  rewrite beyond_dir, real_cons, Hn by done. destruct n; [done|by rewrite real_nil|by destruct (Hl base names)].
Qed.

Lemma realpathSync_dir fs d : dir_path fs d -> realpathSync fs d = Ok d.
Proof.
  intros Hd. apply walk_realpathSync, walk_canonical. by left.
Qed.

(** Opening a path of directories and a name in the last of them to write. *)
Lemma os_write_file f fs d t :
  dir_path fs d ->
  os_write f fs (d ++ [t]) =
  match fs !! (d ++ [t]) with
  | None => Ok (<[d ++ [t] := File (f []) (mkMode true true)]> fs)
  | Some (File c m) => if m_write m then Ok (<[d ++ [t] := File (f c) m]> fs) else Err EACCES
  | Some Dir => Err EISDIR
  | Some (Link b names) => os_write f fs (d ++ [t])
  end.
Proof.
  intros Hd. unfold os_write. rewrite walk_dirs, walk_cons by done.
  destruct (fs !! (d ++ [t])) as [[c m| |]|] eqn:Ht; [| |done|].
  - simpl. by rewrite node_at_snoc, Ht.
  - rewrite walk_nil. simpl. by rewrite node_at_snoc, Ht.
  - simpl. by rewrite node_at_snoc, Ht.
Qed.

Lemma os_entry_dir fs d t : dir_path fs d -> os_entry fs (d ++ [t]) = Ok (d ++ [t]).
Proof.
  intros Hd. unfold os_entry. rewrite dirname_snoc, basename_snoc.
  rewrite (walk_canonical fs MAX_LINKS false d) by (by left). simpl.
  rewrite (dir_path_at _ _ Hd). by destruct d.
Qed.
