(* ===== verification/FileService.v ===== *)
(** * FileService: the file browser of the relay

    [apps/relay/src/file-service.ts] over the tree of Paths, the file cases of
    [routeMessage] in [apps/relay/src/message-router.ts] behind its gate, and
    the [/file] endpoint of [apps/relay/src/server.ts] once the request is
    admitted.  An operation checks its path and then acts on the tree, as one
    step: what another process does to the tree between the two is not
    modelled.  Decoded base64, UTF-8 and [localeCompare] are parameters;
    times of files are left out. *)

From S2P Require Import Prelude Bytes Grants Paths.

Definition MAX_FILE_SIZE : Z := 100 * 1024.
Definition MAX_WRITE_SIZE : Z := 1 * 1024 * 1024.
Definition MAX_UPLOAD_SIZE : Z := 10 * 1024 * 1024.

(** What an operation throws, by its message. *)
Inductive FileError :=
| AccessDenied
| NotAFile
| TooLargeToWrite (bytes : Z)
| CannotDeleteRoot
| UploadTooLarge (newSize : Z)
| Os (e : Errno).

(** Resolved path to accumulated byte count. *)
Abbreviation UploadState := (gmap Path Z).

(** What the operations of one connection act on. *)
Record Disk := mkDisk { tree : FS; uploads : UploadState }.

Definition FileM (A : Type) : Type := Disk -> result FileError A * Disk.
#[export] Instance FileM_ret : MRet FileM := fun A a d => (Ok a, d).
#[export] Instance FileM_bind : MBind FileM := fun A B f m d =>
  match m d with (Ok a, d) => f a d | (Err e, d) => (Err e, d) end.

Definition throw {A} (e : FileError) : FileM A := fun d => (Err e, d).
Definition ask {A} (q : FS -> result Errno A) : FileM A := fun d =>
  (match q (tree d) with Ok a => Ok a | Err e => Err (Os e) end, d).
Definition change (op : FS -> result Errno FS) : FileM unit := fun d =>
  match op (tree d) with Ok fs => (Ok tt, mkDisk fs (uploads d)) | Err e => (Err (Os e), d) end.
(** [await x.catch(() => {})]. *)
Definition attempt (m : FileM unit) : FileM unit := fun d => (Ok tt, (m d).2).
Definition get_upload (p : Path) : FileM Z := fun d => (Ok (default 0 (uploads d !! p)), d).
Definition set_uploads (f : UploadState -> UploadState) : FileM unit := fun d =>
  (Ok tt, mkDisk (tree d) (f (uploads d))).

Inductive EntryType := type_file | type_directory | type_symlink | type_other.
#[export] Instance EntryType_eq_dec : EqDecision EntryType.
Proof. solve_decision. Defined.

Record FileEntry := mkEntry { fe_name : jstr; fe_path : jstr; fe_type : EntryType; fe_size : Z }.

Record FileStat := mkStat {
  fst_name : jstr; fst_path : jstr; fst_type : EntryType; fst_size : Z;
  fst_permissions : string; fst_isReadable : bool; fst_isWritable : bool;
}.

(** The process: its working directory, [$HOME], [$MTMUX_CONFIG_DIR] and the
    configured allowed paths. *)
Record Process := mkProcess {
  cwd : Path;
  homedir : jstr;
  configDirEnv : option jstr;
  allowedPaths : list jstr;
}.

Section Resolution.
Context (proc : Process).

Definition realpathResolve (fs : FS) (targetPath : jstr) : Path :=
  let resolved := resolve (cwd proc) targetPath in
  match realpathSync fs resolved with
  | Ok q => q
  | Err _ =>
      let parent := dirname resolved in
      let base := basename resolved in
      match realpathSync fs parent with
      | Ok q => q ++ [base]
      | Err _ => resolved
      end
  end.

(** [path.join]; its result is only ever resolved again. *)
Definition path_join (a b : jstr) : jstr := a ++ [SEP] ++ b.

Definition deniedRoots : list jstr :=
  let home := homedir proc in
  let configDir := default (path_join home (js ".mtmux")) (configDirEnv proc) in
  [configDir; path_join home (js ".tmuxremote"); path_join home (js ".ssh");
   path_join home (js ".aws"); path_join home (js ".gnupg");
   path_join (path_join home (js ".config")) (js "gh"); path_join home (js ".kube")].

(** Resolved once, in the tree the process started in. *)
Definition DENIED_ROOTS (started : FS) : list Path := map (realpathResolve started) deniedRoots.
End Resolution.

Definition isWithin (resolved root : jstr) : bool :=
  bool_decide (resolved = root) || startsWith resolved (root ++ [SEP]).

Section FileService.
Context (proc : Process) (DENIED_ROOTS : list Path).
Context {Text : Type} (utf8_encode : Text -> bytes) (utf8_decode : bytes -> Text).
Context (localeCompare : jstr -> jstr -> Z) (dirSize : Z).

Definition isPathDenied (fs : FS) (targetPath : jstr) : bool :=
  let resolved := realpathResolve proc fs targetPath in
  existsb (fun root => isWithin (show resolved) (show root)) DENIED_ROOTS.

Definition isPathAllowed (fs : FS) (targetPath : jstr) : bool :=
  let resolved := realpathResolve proc fs targetPath in
  if existsb (fun root => isWithin (show resolved) (show root)) DENIED_ROOTS then false
  else existsb (fun allowed =>
         let resolvedAllowed := realpathResolve proc fs allowed in
         isWithin (show resolved) (show resolvedAllowed)) (allowedPaths proc).

Definition assertPathAllowed (targetPath : jstr) : FileM Path := fun d =>
  let resolved := realpathResolve proc (tree d) targetPath in
  if negb (isPathAllowed (tree d) targetPath) then throw AccessDenied d else (Ok resolved, d).

Definition fileTypeFromDirent (n : Node) : EntryType :=
  match n with File _ _ => type_file | Dir => type_directory | Link _ _ => type_symlink end.

(** [stat.size]; a directory's is up to the file system. *)
Definition stat_size (n : Node) : Z :=
  match n with File c _ => Z.of_nat (length c) | _ => dirSize end.

Definition entry_order (a b : FileEntry) : Z :=
  if decide (fe_type a = type_directory /\ fe_type b <> type_directory) then -1
  else if decide (fe_type a <> type_directory /\ fe_type b = type_directory) then 1
  else localeCompare (fe_name a) (fe_name b).

(** The entries that can be statted; a link is statted through. *)
Definition list_entry (fs : FS) (resolved : Path) (entry : jstr * Node) : option FileEntry :=
  let fullPath := resolved ++ [entry.1] in
  match os_stat fs fullPath with
  | Ok stat => Some (mkEntry entry.1 (show fullPath) (fileTypeFromDirent entry.2) (stat_size stat))
  | Err _ => None
  end.

Definition listDirectory (dirPath : jstr) : FileM (list FileEntry) :=
  resolved ← assertPathAllowed dirPath;
  entries ← ask (fun fs => os_readdir fs resolved);
  results ← ask (fun fs => Ok (omap (list_entry fs resolved) entries));
  mret (sort_cmp entry_order results).

Definition is_file (n : Node) : bool := match n with File _ _ => true | _ => false end.

Definition readFile (filePath : jstr) : FileM (Text * bool) :=
  resolved ← assertPathAllowed filePath;
  stat ← ask (fun fs => os_stat fs resolved);
  if negb (is_file stat) then throw NotAFile
  else
    content ← ask (fun fs => os_readFile fs resolved);
    if MAX_FILE_SIZE <? stat_size stat
    then mret (utf8_decode (take (Z.to_nat MAX_FILE_SIZE) content), true)
    else mret (utf8_decode content, false).

Definition stat_type (n : Node) : EntryType :=
  match n with File _ _ => type_file | Dir => type_directory | Link _ _ => type_symlink end.

Definition permissions_of (fs : FS) (resolved : Path) : string :=
  if is_ok (os_access m_read fs resolved) then
    if is_ok (os_access m_write fs resolved) then "rw" else "r"
  else "-".

Definition getStats (filePath : jstr) : FileM FileStat :=
  resolved ← assertPathAllowed filePath;
  stat ← ask (fun fs => os_stat fs resolved);
  permissions ← ask (fun fs => Ok (permissions_of fs resolved));
  mret (mkStat (basename resolved) (show resolved) (stat_type stat) (stat_size stat) permissions
    (bool_decide (permissions <> "-"%string)) (bool_decide (permissions = "rw"%string))).

Definition writeFile (filePath : jstr) (content : Text) : FileM Z :=
  resolved ← assertPathAllowed filePath;
  let data := utf8_encode content in
  let size := Z.of_nat (length data) in
  if MAX_WRITE_SIZE <? size then throw (TooLargeToWrite size)
  else
    ask (fun fs => os_access m_write fs resolved) ;;
    change (fun fs => os_write (fun _ => data) fs resolved) ;;
    mret size.

Definition createFile (filePath : jstr) (content : option Text) : FileM unit :=
  resolved ← assertPathAllowed filePath;
  let data := match content with Some c => utf8_encode c | None => [] end in
  change (fun fs => os_make (File data (mkMode true true)) fs resolved).

Definition mkdir (dirPath : jstr) : FileM unit :=
  resolved ← assertPathAllowed dirPath;
  change (fun fs => os_make Dir fs resolved).

Definition is_root (fs : FS) (resolved : Path) : bool :=
  existsb (fun allowed => bool_decide (realpathResolve proc fs allowed = resolved)) (allowedPaths proc).

Definition deleteFile (filePath : jstr) : FileM unit :=
  resolved ← assertPathAllowed filePath;
  isRoot ← ask (fun fs => Ok (is_root fs resolved));
  if (isRoot : bool) then throw CannotDeleteRoot
  else change (fun fs => os_rm true fs resolved).

Definition renameFile (oldPath newPath : jstr) : FileM unit :=
  resolvedOld ← assertPathAllowed oldPath;
  resolvedNew ← assertPathAllowed newPath;
  change (fun fs => os_rename fs resolvedOld resolvedNew).

(** [fs.rm(p, { force: true })] fails on anything that is there and cannot go. *)
Definition rm_force (p : Path) : FileM unit := attempt (change (fun fs => os_rm false fs p)).

Definition handleUpload (filePath : jstr) (chunk : bytes) (final : bool) : FileM unit :=
  resolved ← assertPathAllowed filePath;
  currentSize ← get_upload resolved;
  let newSize := currentSize + Z.of_nat (length chunk) in
  if MAX_UPLOAD_SIZE <? newSize then
    set_uploads (delete resolved) ;;
    rm_force resolved ;;
    throw (UploadTooLarge newSize)
  else
    change (fun fs => os_write (fun old => if currentSize =? 0 then chunk else old ++ chunk) fs resolved) ;;
    if final then set_uploads (delete resolved) else set_uploads (<[resolved := newSize]>).

(** Its promise never rejects. *)
Definition cleanupUploads : FileM unit := fun d =>
  let d := foldl (fun d resolved => (rm_force resolved d).2) d (map fst (map_to_list (uploads d))) in
  (Ok tt, mkDisk (tree d) ∅).

Definition defaultBrowsePath (home : option jstr) : Path :=
  resolve (cwd proc) (default (default [SEP] home) (head (allowedPaths proc))).

(** ** [routeMessage], the file cases *)

Inductive FileMessage :=
| FileList (path : jstr)
| FileRead (path : jstr)
| FileStatQuery (path : jstr)
| FileWatch (path : jstr)
| FileUnwatch (path : jstr)
| FileWrite (path : jstr) (content : Text)
| FileCreate (path : jstr) (content : option Text)
| FileMkdir (path : jstr)
| FileDelete (path : jstr)
| FileRename (oldPath newPath : jstr)
| FileUpload (path : jstr) (content : bytes) (final : bool).

Inductive FileOp := op_create | op_mkdir | op_delete | op_rename | op_upload.

Inductive FileReply :=
| ErrorAccessDenied
| ErrorHandler (e : FileError)
| ErrorWatchFailed (e : FileError)
| FileListReply (path : jstr) (entries : list FileEntry)
| FileContentReply (path : jstr) (content : Text) (truncated : bool)
| FileStatReply (stat : FileStat)
| FileWriteResult (path : jstr) (r : result FileError Z)
| FileOpResult (op : FileOp) (path : jstr) (r : result FileError unit).

(** The watchers of a connection: the path it asked for, and the directory
    watched for it. *)
Record FileConn := mkFileConn { disk : Disk; watchers : gmap jstr Path }.

Definition on_disk {A} (m : FileM A) (reply : result FileError A -> list FileReply)
    (c : FileConn) : FileConn * list FileReply :=
  let '(r, d) := m (disk c) in (mkFileConn d (watchers c), reply r).

(** A case whose error the handler's last [catch] reports. *)
Definition or_error {A} (reply : A -> FileReply) (r : result FileError A) : list FileReply :=
  match r with Ok a => [reply a] | Err e => [ErrorHandler e] end.

Definition watchDirectory (dirPath : jstr) : FileM Path := assertPathAllowed dirPath.

Definition route_file (msg : FileMessage) (c : FileConn) : FileConn * list FileReply :=
  let allowed p := isPathAllowed (tree (disk c)) p in
  let gate (p : jstr) (k : FileConn * list FileReply) :=
    if negb (allowed p) then (c, [ErrorAccessDenied]) else k in
  match msg with
  | FileList p => gate p (on_disk (listDirectory p) (or_error (FileListReply p)) c)
  | FileRead p =>
      gate p (on_disk (readFile p) (or_error (fun ct => FileContentReply p ct.1 ct.2)) c)
  | FileStatQuery p => gate p (on_disk (getStats p) (or_error FileStatReply) c)
  | FileWatch p =>
      gate p
        (match watchers c !! p with
         | Some _ => (c, [])
         | None =>
             match watchDirectory p (disk c) with
             | (Ok dir, d) => (mkFileConn d (<[p := dir]> (watchers c)), [])
             | (Err e, d) => (mkFileConn d (watchers c), [ErrorWatchFailed e])
             end
         end)
  | FileUnwatch p => (mkFileConn (disk c) (delete p (watchers c)), [])
  | FileWrite p content => gate p (on_disk (writeFile p content) (fun r => [FileWriteResult p r]) c)
  | FileCreate p content =>
      gate p (on_disk (createFile p content) (fun r => [FileOpResult op_create p r]) c)
  | FileMkdir p => gate p (on_disk (mkdir p) (fun r => [FileOpResult op_mkdir p r]) c)
  | FileDelete p => gate p (on_disk (deleteFile p) (fun r => [FileOpResult op_delete p r]) c)
  | FileRename old new =>
      if negb (allowed old) || negb (allowed new) then (c, [ErrorAccessDenied])
      else on_disk (renameFile old new) (fun r => [FileOpResult op_rename new r]) c
  | FileUpload p chunk final =>
      gate p (on_disk (handleUpload p chunk final)
        (fun r => match r with
                  | Ok _ => if final then [FileOpResult op_upload p r] else []
                  | Err _ => [FileOpResult op_upload p r]
                  end) c)
  end.

(** ** The [/file] endpoint *)

Inductive FileResponse :=
| NoFiles
| MissingPath
| HttpAccessDenied
| HttpNotAFile
| RangeNotSatisfiable (size : Z)
| PartialContent (first last size : Z) (length : Z) (body : bytes)
| WholeContent (size : Z) (body : bytes)
| NotFound
(** The status line is out when the handler or its stream throws: the [catch]
    writes a second one, which throws again. *)
| ThrewAfterHeaders.

(** [createReadStream(p, { start, end })] throws when [start > end], and the
    stream reports an error when the file cannot be opened. *)
Definition read_stream (content : result Errno bytes) (start last : Z) : option bytes :=
  if last <? start then None
  else
    match content with
    | Ok content => Some (slice (Z.to_nat start) (Z.to_nat (last + 1)) content)
    | Err _ => None
    end.

(** [range] is the pair the header's expression matched. *)
Definition serve_file (files : GrantFiles) (fs : FS) (filePath : option jstr)
    (range : option (Z * option Z)) : FileResponse :=
  if decide (files = files_none) then NoFiles
  else
    match filePath with
    | None | Some [] => MissingPath
    | Some filePath =>
        if negb (isPathAllowed fs filePath) then HttpAccessDenied
        else
          let resolved := resolve (cwd proc) filePath in
          match os_stat fs resolved with
          | Err _ => NotFound
          | Ok stat =>
              if negb (is_file stat) then HttpNotAFile
              else
                let size := stat_size stat in
                let content := os_readFile fs resolved in
                match range with
                | Some (start, last) =>
                    if size <=? start then RangeNotSatisfiable size
                    else
                      let clampedEnd := Z.min (default (size - 1) last) (size - 1) in
                      match read_stream content start clampedEnd with
                      | Some body =>
                          PartialContent start clampedEnd size (clampedEnd - start + 1) body
                      | None => ThrewAfterHeaders
                      end
                | None =>
                    match content with
                    | Ok content => WholeContent size content
                    | Err _ => ThrewAfterHeaders
                    end
                end
          end
    end.
End FileService.
