(* ===== verification/FileSafety.v ===== *)
(** * FileSafety: what the file browser can reach

    Paths that pass [isPathAllowed] resolve inside an allowed root and outside
    every denied one; reads stay there, changes stay there but for the runs
    that are exhibited; an upload puts its chunks together again. *)

From S2P Require Import Prelude Bytes Grants Paths FileService.

(** ** Containment *)

Lemma isWithin_spec a b :
  Forall seg_ok a -> Forall seg_ok b ->
  isWithin (show a) (show b) = true <-> a = b \/ b <> [] /\ under b a.
Proof.
  intros Ha Hb. unfold isWithin, startsWith. rewrite orb_true_iff, !bool_decide_eq_true.
  assert (show a = show b <-> a = b) as -> by (split; [by apply show_inj|by intros ->]).
  destruct b as [|y b].
  - split; [|naive_solver]. intros [?|Hp]; [by left|]. exfalso.
    change ([SEP] ++ [SEP] `prefix_of` show a) in Hp. destruct Ha as [|x a Hx Ha].
    + by apply prefix_cons_inv_2, prefix_nil_not in Hp.
    + destruct Hx as (Hne & _ & _ & Hs). destruct x as [|c x]; [done|].
      change (SEP :: [SEP] `prefix_of` SEP :: c :: x ++ render a) in Hp.
      apply prefix_cons_inv_2, prefix_cons_inv_1 in Hp as <-. set_solver.
  - destruct Ha as [|x a Hx Ha].
    + change (show []) with [SEP]. split.
      * intros [?|Hp]; [by left|]. exfalso.
        change (show (y :: b)) with (SEP :: y ++ render b) in Hp.
        apply prefix_length in Hp. rewrite length_app in Hp. simpl in Hp. lia.
      * intros [?|[_ Hu]]; [by left|]. by apply prefix_nil_not in Hu.
    + change (show (x :: a)) with (render (x :: a)). change (show (y :: b)) with (render (y :: b)).
      rewrite render_prefix by first [assumption | by constructor]. unfold under.
      split; [intros [?|[? _]]|intros [?|[_ ?]]]; [by left|by right| by left|].
      destruct (decide (x :: a = y :: b)) as [|Hne]; [by left|right]. split; [done|congruence].
Qed.

Section Resolved.
Context (proc : Process).

Notation resolved_in := (realpathResolve proc).

(** ** Calls on a resolved path *)

(** The three ways [realpathResolve] answers. *)
Lemma realpathResolve_cases fs p :
  let r := resolved_in fs p in
  canonical fs r \/
  exists d s, r = d ++ [s] /\ is_ok (walk MAX_LINKS false fs [] r) = false /\
    (canonical fs d \/ is_ok (walk MAX_LINKS false fs [] d) = false).
Proof.
  unfold realpathResolve. set (resolved := resolve (cwd proc) p).
  destruct (realpathSync fs resolved) eqn:Hq; [left; by eapply realpathSync_canonical|].
  destruct (path_snoc resolved) as [He|He]; [by rewrite He, realpathSync_root in Hq|]. right.
  destruct (realpathSync fs (dirname resolved)) as [d|] eqn:Hd.
  - exists d, (basename resolved). split; [done|]. rewrite He in Hq.
    split; [by eapply unresolved|left; by eapply realpathSync_canonical].
  - exists (dirname resolved), (basename resolved). split; [done|].
    assert (forall a e, realpathSync fs a = Err e -> is_ok (walk MAX_LINKS false fs [] a) = false) as Hno.
    { intros a e' Hr. destruct (walk MAX_LINKS false fs [] a) eqn:Hw; [|done].
      apply walk_realpathSync in Hw. congruence. }
    split; [|right]; by eapply Hno.
Qed.

Lemma walk_resolved fs p q : walk MAX_LINKS false fs [] (resolved_in fs p) = Ok q -> q = resolved_in fs p.
Proof.
  intros Hw. destruct (realpathResolve_cases fs p) as [Hc|(d & s & Hr & Hno & _)].
  - rewrite walk_canonical in Hw by done. by injection Hw.
  - by rewrite Hw in Hno.
Qed.

Lemma os_stat_resolved fs p n :
  os_stat fs (resolved_in fs p) = Ok n -> node_at fs (resolved_in fs p) = Some n.
Proof.
  unfold os_stat. destruct (walk _ _ _ _ _) as [q|] eqn:Hw; [|done]. simpl.
  apply walk_resolved in Hw as ->. by destruct (node_at _ _); intros [= ->].
Qed.

Lemma node_at_file fs q c m : node_at fs q = Some (File c m) -> fs !! q = Some (File c m).
Proof. by destruct q. Qed.

Lemma os_readFile_stat fs p content :
  os_readFile fs p = Ok content -> exists m, os_stat fs p = Ok (File content m).
Proof.
  unfold os_readFile. destruct (os_stat fs p) as [[c m| |]|]; simpl; try done.
  destruct (m_read m); [|done]. intros [= ->]. by exists m.
Qed.

Lemma os_entry_resolved fs p q : os_entry fs (resolved_in fs p) = Ok q -> q = resolved_in fs p.
Proof.
  intros He. destruct (path_snoc (resolved_in fs p)) as [Hr|Hr]; [by rewrite Hr in He|].
  revert He. unfold os_entry. destruct (resolved_in fs p) as [|s0 r0] eqn:Hr0; [done|].
  rewrite <-Hr0 in *. intros He.
  assert (walk MAX_LINKS false fs [] (dirname (resolved_in fs p)) = Ok (dirname (resolved_in fs p)) \/
    is_ok (walk MAX_LINKS false fs [] (dirname (resolved_in fs p))) = false) as [Hw|Hw].
  { destruct (realpathResolve_cases fs p) as [Hc|(d & s & Hrr & _ & [Hd|Hd])].
    - left. destruct Hc as [Hc|(d & s & c & m & Hrr & Hc & _)].
      + apply walk_canonical. left. eapply dir_path_prefix; [exact Hc|].
        rewrite Hr at 2. by eexists.
      + rewrite Hrr, dirname_snoc. apply walk_canonical. by left.
    - left. rewrite Hrr, dirname_snoc. by apply walk_canonical.
    - right. by rewrite Hrr, dirname_snoc. }
  - rewrite Hw in He. simpl in He. destruct (node_at _ _) as [[]|]; [done| |done|done].
    injection He as <-. by rewrite <-Hr.
  - by destruct (walk _ _ _ _ _).
Qed.

(** Opening a resolved path to write reaches that path, unless a link that
    leads nowhere is in its place. *)
Lemma walk_write_resolved fs p q :
  (forall b names, node_at fs (resolved_in fs p) <> Some (Link b names)) ->
  walk MAX_LINKS true fs [] (resolved_in fs p) = Ok q -> q = resolved_in fs p.
Proof.
  intros Hlink Hw. destruct (realpathResolve_cases fs p) as [Hc|(d & s & Hr & Hno & Hd)].
  - rewrite walk_canonical in Hw by done. by injection Hw.
  - destruct Hd as [Hd|Hd].
    + rewrite Hr in Hw, Hlink |- *. setoid_rewrite node_at_snoc in Hlink. destruct Hd as [Hd|(d' & t & c & m & -> & Hd' & Ht)].
      * rewrite walk_dirs, walk_cons in Hw by done.
        destruct (fs !! (d ++ [s])) as [[c m| |b names]|] eqn:Hs.
        -- by injection Hw.
        -- rewrite walk_nil in Hw. by injection Hw.
        -- by destruct (Hlink b names).
        -- by injection Hw.
      * rewrite <-app_assoc, walk_dirs in Hw by done. cbn [app] in Hw.
        by rewrite walk_cons, Ht in Hw.
    + rewrite Hr in Hw. pose proof (walk_parent fs MAX_LINKS true [] d s) as Hp.
      rewrite Hw in Hp. by rewrite Hp in Hd.
Qed.
End Resolved.

Section Safety.
Context (proc : Process) (DENIED : list Path).
Context {Text : Type} (utf8_encode : Text -> bytes) (utf8_decode : bytes -> Text).
Context (localeCompare : jstr -> jstr -> Z) (dirSize : Z).
Context (Hcwd : Forall seg_ok (cwd proc)).

Notation resolved_in := (realpathResolve proc).
Notation allowed_in := (isPathAllowed proc DENIED).

Lemma realpathResolve_ok fs p : links_ok fs -> Forall seg_ok (resolved_in fs p).
Proof.
  intros Hl. unfold realpathResolve. pose proof (resolve_ok _ p Hcwd) as Hr.
  set (resolved := resolve (cwd proc) p) in *.
  assert (forall a q, Forall seg_ok a -> realpathSync fs a = Ok q -> Forall seg_ok q) as Hreal.
  { intros a q Ha. by apply real_seg_ok. }
  destruct (realpathSync fs resolved) eqn:Hq; [exact (Hreal _ _ Hr Hq)|].
  destruct (realpathSync fs (dirname resolved)) eqn:Hd; [|done].
  destruct (path_snoc resolved) as [He|He]; [by rewrite He, realpathSync_root in Hq|].
  rewrite He in Hr. apply Forall_app in Hr as [Hd' Hb]. apply Forall_app. split; [|done].
  exact (Hreal _ _ Hd' Hd).
Qed.

Context (Hdenied : Forall (fun d => d <> [] /\ Forall seg_ok d) DENIED).

(** Inside an allowed root, outside every denied one. *)
Definition permitted (fs : FS) (q : Path) : Prop :=
  (exists a, a ∈ allowedPaths proc /\ under (resolved_in fs a) q) /\
  (forall d, d ∈ DENIED -> ~ under d q).

Lemma isPathAllowed_permitted fs p :
  links_ok fs -> allowed_in fs p = true -> permitted fs (resolved_in fs p).
Proof.
  intros Hl. unfold isPathAllowed. pose proof (realpathResolve_ok fs p Hl) as Hok.
  destruct (existsb _ DENIED) eqn:Hden; [done|]. intros (a & Ha & Hw)%existsb_exists. split.
  - exists a. split; [by apply list_elem_of_In|].
    apply isWithin_spec in Hw as [->|[_ ?]]; [by exists []; rewrite app_nil_r|done|done|].
    by apply realpathResolve_ok.
  - intros d Hd Hu. rewrite Forall_forall in Hdenied. destruct (Hdenied d Hd) as [Hne Hdok].
    assert (existsb (fun root => isWithin (show (resolved_in fs p)) (show root)) DENIED = true) as Ht.
    { apply existsb_exists. exists d. split; [by apply list_elem_of_In|].
      apply isWithin_spec; auto. }
    congruence.
Qed.

(** ** Reads *)

Notation listDirectory := (listDirectory proc DENIED localeCompare dirSize).
Notation readFile := (readFile proc DENIED utf8_decode dirSize).
Notation getStats := (getStats proc DENIED dirSize).
Notation serve_file := (serve_file proc DENIED dirSize).

Lemma assert_ok p d :
  assertPathAllowed proc DENIED p d =
  if allowed_in (tree d) p then (Ok (resolved_in (tree d) p), d) else (Err AccessDenied, d).
Proof. unfold assertPathAllowed. by destruct (allowed_in _ _). Qed.

Lemma readFile_reads p d text tr d' :
  readFile p d = (Ok (text, tr), d') ->
  allowed_in (tree d) p = true /\ d' = d /\
  exists c m, tree d !! resolved_in (tree d) p = Some (File c m) /\
    text = utf8_decode (take (Z.to_nat MAX_FILE_SIZE) c) /\
    tr = bool_decide (MAX_FILE_SIZE < Z.of_nat (length c)).
Proof.
  unfold FileService.readFile, mbind, FileM_bind. rewrite assert_ok.
  destruct (allowed_in (tree d) p); [|done]. unfold ask at 1.
  destruct (os_stat _ _) as [n|] eqn:Hst; [|done]. pose proof (os_stat_resolved _ _ _ _ Hst) as Hn.
  destruct n as [c m| |]; [|done..]. simpl. unfold ask.
  destruct (os_readFile _ _) as [c'|] eqn:Hr; [|done].
  apply os_readFile_stat in Hr as [m' Hr]. rewrite Hst in Hr. injection Hr as <- _.
  apply node_at_file in Hn. intros He. split; [done|].
  destruct (MAX_FILE_SIZE <? Z.of_nat (length c)) eqn:Hlen; injection He as <- <- <-;
    (split; [done|]; exists c, m; split; [done|]).
  - split; [done|]. symmetry. apply bool_decide_eq_true. lia.
  - rewrite take_ge by lia. split; [done|]. symmetry. apply bool_decide_eq_false. lia.
Qed.

Lemma listDirectory_lists p d entries d' :
  listDirectory p d = (Ok entries, d') ->
  allowed_in (tree d) p = true /\ d' = d /\
  let q := resolved_in (tree d) p in node_at (tree d) q = Some Dir /\
  forall e, e ∈ entries -> exists n, tree d !! (q ++ [fe_name e]) = Some n /\
    fe_path e = show (q ++ [fe_name e]) /\ fe_type e = fileTypeFromDirent n.
Proof.
  unfold FileService.listDirectory, mbind, FileM_bind. rewrite assert_ok.
  destruct (allowed_in (tree d) p); [|done]. unfold ask.
  destruct (os_readdir _ _) as [entries0|] eqn:Hr; [|done]. unfold mret, FileM_ret.
  intros [= <- <-]. split; [done|]. split; [done|].
  set (q := realpathResolve proc (tree d) p) in *. revert Hr. unfold os_readdir.
  destruct (walk _ _ _ _ _) as [q'|] eqn:Hw; [|done]. apply walk_resolved in Hw as ->.
  change (realpathResolve proc (tree d) p) with q. simpl.
  destruct (node_at (tree d) q) as [[]|] eqn:Hq; [done| |done|done].
  intros [= <-]. split; [done|]. intros e. rewrite sort_cmp_perm.
  intros ([s n] & Hin & He)%list_elem_of_omap.
  apply list_elem_of_omap in Hin as ([x n'] & Hin%elem_of_map_to_list & Hc).
  unfold child_of in Hc. simpl in Hc. destruct (last x) as [s'|]; [|done].
  case_decide as Hx; [|done]. injection Hc as -> ->. subst x.
  unfold list_entry in He. destruct (os_stat _ _); [|done]. injection He as <-. simpl.
  by exists n.
Qed.

Lemma serve_file_serves files fs p range body :
  (exists size, serve_file files fs (Some p) range = WholeContent size body) \/
  (exists first last size len, serve_file files fs (Some p) range = PartialContent first last size len body) ->
  files <> files_none /\ allowed_in fs p = true /\
  exists c m i j, fs !! resolved_in fs p = Some (File c m) /\ body = slice i j c.
Proof.
  unfold FileService.serve_file. case_decide as Hf; [naive_solver|].
  destruct p as [|x p]; [naive_solver|].
  destruct (allowed_in fs (x :: p)); [|naive_solver]. simpl negb. cbv iota.
  destruct (os_stat fs (resolve _ _)) as [n|] eqn:Hst; [|naive_solver].
  destruct n as [c m| |]; [|naive_solver..]. simpl is_file. simpl negb. cbv iota zeta.
  assert (fs !! resolved_in fs (x :: p) = Some (File c m)) as Hn.
  { revert Hst. unfold os_stat. destruct (walk _ _ _ _ _) as [q|] eqn:Hw; [|done]. simpl.
    apply walk_realpathSync in Hw. unfold realpathResolve. rewrite Hw.
    destruct (node_at fs q) eqn:Hn; [|done]. intros [= ->]. by apply node_at_file. }
  assert (forall c', os_readFile fs (resolve (cwd proc) (x :: p)) = Ok c' -> c' = c) as Hread.
  { intros c' Hr. apply os_readFile_stat in Hr as [m' Hr]. rewrite Hst in Hr. by injection Hr. }
  intros Hres. split; [done|]. split; [done|]. exists c, m.
  destruct range as [[start last]|].
  - destruct (_ <=? start); [naive_solver|]. unfold read_stream in Hres.
    destruct (_ <? start); [naive_solver|].
    destruct (os_readFile _ _) as [c'|]; [|naive_solver]. rewrite (Hread c' eq_refl) in Hres.
    destruct Hres as [(? & ?)|(? & ? & ? & ? & [= <- <- <- <- <-])]; [done|]. by do 2 eexists.
  - destruct (os_readFile _ _) as [c'|]; [|naive_solver]. rewrite (Hread c' eq_refl) in Hres.
    destruct Hres as [(? & [= <- <-])|(? & ? & ? & ? & ?)]; [|done].
    exists 0%nat, (length c). split; [done|]. unfold slice. rewrite drop_0, Nat.sub_0_r.
    by rewrite firstn_all.
Qed.

(** ** Changes *)

(** An operation of the connection: what it changes lies where [place] says. *)
Definition confined {A : Type} (place : FS -> Path -> Prop) (m : FileM A) : Prop :=
  forall d r d', m d = (r, d') -> forall x, changed (tree d) (tree d') x -> place (tree d) x.

Lemma confined_ask {A B : Type} (place : FS -> Path -> Prop) (q : FS -> result Errno A) (k : A -> FileM B) :
  (forall a, confined place (k a)) -> confined place (ask q ≫= k).
Proof.
  intros Hk d r d'. unfold mbind, FileM_bind, ask.
  destruct (q (tree d)); [apply Hk|]. intros [= <- <-] x Hx. by destruct Hx.
Qed.

Lemma confined_same {A : Type} (place : FS -> Path -> Prop) (m : FileM A) :
  (forall d, tree (m d).2 = tree d) -> confined place m.
Proof. intros Hm d r d' He x Hx. specialize (Hm d). rewrite He in Hm. simpl in Hm. destruct Hx. by rewrite Hm. Qed.

(** After the check, only the resolved path matters. *)
Lemma confined_assert {A : Type} (place : FS -> Path -> Prop) p (k : Path -> FileM A) :
  (forall d r d', allowed_in (tree d) p = true -> k (resolved_in (tree d) p) d = (r, d') ->
     forall x, changed (tree d) (tree d') x -> place (tree d) x) ->
  confined place (assertPathAllowed proc DENIED p ≫= k).
Proof.
  intros Hk d r d'. unfold mbind, FileM_bind. rewrite assert_ok.
  destruct (allowed_in (tree d) p) eqn:Ha; [by apply Hk|]. intros [= <- <-] x Hx. by destruct Hx.
Qed.

Lemma change_changes op d r d' x :
  change op d = (r, d') -> changed (tree d) (tree d') x ->
  exists fs', op (tree d) = Ok fs' /\ changed (tree d) fs' x.
Proof.
  unfold change. destruct (op (tree d)) as [fs'|]; intros [= <- <-]; [eauto|]. intros Hx.
  by destruct Hx.
Qed.

Lemma os_make_changes n fs p fs' x :
  os_make n fs (resolved_in fs p) = Ok fs' -> changed fs fs' x -> x = resolved_in fs p.
Proof.
  unfold os_make. destruct (os_entry _ _) as [q|] eqn:He; [|done]. simpl.
  apply os_entry_resolved in He as ->. destruct (fs !! _); [done|]. intros [= <-].
  apply changed_insert.
Qed.

Lemma os_rm_changes b fs p fs' x :
  os_rm b fs (resolved_in fs p) = Ok fs' -> changed fs fs' x -> under (resolved_in fs p) x.
Proof.
  unfold os_rm. destruct (os_entry _ _) as [q|] eqn:He; [|done]. simpl.
  apply os_entry_resolved in He as ->.
  assert (forall y, changed fs (delete (resolved_in fs p) fs) y -> under (resolved_in fs p) y) as Hdel.
  { intros y ->%changed_delete. by exists []; rewrite app_nil_r. }
  destruct (fs !! _) as [[]|]; [| | |done].
  - intros [= <-]. apply Hdel.
  - destruct b; [|done]. intros [= <-]. apply changed_prune.
  - intros [= <-]. apply Hdel.
Qed.

(** Not recursive, it takes one entry. *)
Lemma os_rm_one fs p fs' x :
  os_rm false fs (resolved_in fs p) = Ok fs' -> changed fs fs' x -> x = resolved_in fs p.
Proof.
  unfold os_rm. destruct (os_entry _ _) as [q|] eqn:He; [|done]. simpl.
  apply os_entry_resolved in He as ->.
  destruct (fs !! _) as [[]|]; intros [= <-]; apply changed_delete.
Qed.

Lemma os_rename_changes fs p p' fs' x :
  os_rename fs (resolved_in fs p) (resolved_in fs p') = Ok fs' -> changed fs fs' x ->
  under (resolved_in fs p) x \/ under (resolved_in fs p') x.
Proof.
  unfold os_rename. destruct (os_entry fs (resolved_in fs p)) as [q|] eqn:He; [|done]. simpl.
  destruct (os_entry fs (resolved_in fs p')) as [r|] eqn:He'; [|done]. simpl.
  apply os_entry_resolved in He as ->. apply os_entry_resolved in He' as ->.
  intros Hr Hx.
  assert (fs' = fs \/ fs' = move (resolved_in fs p) (resolved_in fs p') fs) as [->| ->].
  { repeat case_match; simplify_eq; tauto. }
  - by destruct Hx.
  - exact (changed_move _ _ _ _ Hx).
Qed.

Lemma os_write_changes f fs p fs' x :
  (forall b names, node_at fs (resolved_in fs p) <> Some (Link b names)) ->
  os_write f fs (resolved_in fs p) = Ok fs' -> changed fs fs' x -> x = resolved_in fs p.
Proof.
  intros Hl. unfold os_write. destruct (walk _ _ _ _ _) as [q|] eqn:Hw; [|done]. simpl.
  apply walk_write_resolved in Hw as ->; [|done].
  destruct (node_at _ _) as [[c m| |]|]; [|done..|]; [destruct (m_write m); [|done]|];
    intros [= <-]; apply changed_insert.
Qed.

(** A file that can be accessed is no link that leads nowhere. *)
Lemma os_access_no_link bit fs p u :
  os_access bit fs (resolved_in fs p) = Ok u ->
  forall b names, node_at fs (resolved_in fs p) <> Some (Link b names).
Proof.
  unfold os_access, os_stat. destruct (walk _ _ _ _ _) as [q|] eqn:Hw; [|done]. intros _ b names.
  pose proof (walk_resolved _ _ _ _ Hw) as ->.
  destruct (walk_ends _ _ _ _ _ _ (dir_root fs) Hw) as [Hc|[? _]]; [|done].
  by apply canonical_no_link.
Qed.
Ltac unchanged := let Hx := fresh in intros [= <- <-] ? Hx; by destruct Hx.

Definition at_path (p : jstr) (fs : FS) (x : Path) : Prop :=
  allowed_in fs p = true /\ x = resolved_in fs p.
Definition below_path (p : jstr) (fs : FS) (x : Path) : Prop :=
  allowed_in fs p = true /\ under (resolved_in fs p) x.

Lemma writeFile_confined p content :
  confined (at_path p) (writeFile proc DENIED utf8_encode p content).
Proof.
  apply confined_assert. intros d r d' Ha. cbv beta zeta. destruct (_ <? _); [unchanged|].
  unfold mbind, FileM_bind, ask, change.
  destruct (os_access _ _ _) as [u|] eqn:Hacc; [|unchanged].
  destruct (os_write _ _ _) as [fs'|] eqn:Hw; intros [= <- <-] x Hx; [|by destruct Hx].
  split; [done|]. eapply os_write_changes; [by eapply os_access_no_link|exact Hw|exact Hx].
Qed.

(** The operations that are a check and one call. *)
Lemma one_call_confined (place : FS -> Path -> Prop) (p : jstr) (op : Path -> FS -> result Errno FS) :
  (forall fs fs' x, allowed_in fs p = true -> op (resolved_in fs p) fs = Ok fs' ->
     changed fs fs' x -> place fs x) ->
  confined place (resolved ← assertPathAllowed proc DENIED p; change (op resolved)).
Proof.
  intros Hop. apply confined_assert. intros d r d' Ha He x Hx.
  destruct (change_changes _ _ _ _ _ He Hx) as (fs' & Hfs & Hc). by eapply Hop.
Qed.

Lemma createFile_confined p content :
  confined (at_path p) (createFile proc DENIED utf8_encode p content).
Proof.
  apply (one_call_confined _ p (fun r fs => os_make _ fs r)). intros fs fs' x Ha Ho Hx.
  split; [done|]. by eapply os_make_changes.
Qed.

Lemma mkdir_confined p : confined (at_path p) (mkdir proc DENIED p).
Proof.
  apply (one_call_confined _ p (fun r fs => os_make Dir fs r)). intros fs fs' x Ha Ho Hx.
  split; [done|]. by eapply os_make_changes.
Qed.

Lemma deleteFile_confined p : confined (below_path p) (deleteFile proc DENIED p).
Proof.
  apply confined_assert. intros d r d' Ha. unfold mbind, FileM_bind, ask.
  destruct (is_root _ _ _); [unchanged|]. intros He x Hx.
  destruct (change_changes _ _ _ _ _ He Hx) as (fs' & Hfs & Hc).
  split; [done|]. by eapply os_rm_changes.
Qed.

Lemma renameFile_confined old new :
  confined (fun fs x => below_path old fs x \/ below_path new fs x) (renameFile proc DENIED old new).
Proof.
  apply confined_assert. intros d r d' Ha. unfold mbind, FileM_bind. rewrite assert_ok.
  destruct (allowed_in (tree d) new) eqn:Ha'; [|unchanged]. intros He x Hx.
  destruct (change_changes _ _ _ _ _ He Hx) as (fs' & Hfs & Hc).
  destruct (os_rename_changes _ _ _ _ _ Hfs Hc); [by left|by right].
Qed.

Lemma handleUpload_confined p chunk final :
  confined (fun fs x => allowed_in fs p = true /\
    ((exists b names, node_at fs (resolved_in fs p) = Some (Link b names)) \/
     x = resolved_in fs p))
    (handleUpload proc DENIED p chunk final).
Proof.
  apply confined_assert. intros d r d' Ha.
  unfold mbind, FileM_bind, get_upload, set_uploads, rm_force, attempt. cbv beta zeta iota.
  destruct (_ <? _).
  - unfold change. cbn [tree uploads]. destruct (os_rm _ _ _) as [fs'|] eqn:Hrm; [|unchanged].
    intros [= <- <-] x Hx. split; [done|right]. by eapply os_rm_one.
  - unfold change. destruct (os_write _ _ _) as [fs'|] eqn:Hw; [|unchanged].
    intros He x Hx. assert (tree d' = fs') as He' by (by destruct final; injection He as <- <-).
    rewrite He' in Hx. split; [done|].
    destruct (node_at (tree d) (realpathResolve proc (tree d) p)) as [[c m| |b names]|] eqn:Hn;
      [right|right|left; eauto|right];
      (eapply os_write_changes; [|exact Hw|exact Hx]; intros ??; by rewrite Hn).
Qed.
Lemma reads_confined {A : Type} (m : FileM A) place : (forall d, (m d).2 = d) -> confined place m.
Proof. intros Hm. apply confined_same. intros d. by rewrite Hm. Qed.

Lemma getStats_reads p d : (getStats p d).2 = d.
Proof.
  unfold FileService.getStats, mbind, FileM_bind, ask. rewrite assert_ok.
  destruct (allowed_in _ _); [|done]. by destruct (os_stat _ _).
Qed.

Lemma readFile_pure p d : (readFile p d).2 = d.
Proof.
  unfold FileService.readFile, mbind, FileM_bind, ask. rewrite assert_ok.
  destruct (allowed_in _ _); [|done]. destruct (os_stat _ _) as [[c m| |]|]; [|done..]. simpl.
  destruct (os_readFile _ _); [|done]. by destruct (_ <? _).
Qed.

Lemma listDirectory_pure p d : (listDirectory p d).2 = d.
Proof.
  unfold FileService.listDirectory, mbind, FileM_bind, ask. rewrite assert_ok.
  destruct (allowed_in _ _); [|done]. by destruct (os_readdir _ _).
Qed.

Notation route_file :=
  (route_file proc DENIED utf8_encode utf8_decode localeCompare dirSize).

Lemma on_disk_changes {A : Type} (m : FileM A) reply c place x :
  confined place m ->
  changed (tree (disk c)) (tree (disk (on_disk (Text := Text) m reply c).1)) x ->
  place (tree (disk c)) x.
Proof.
  intros Hm. unfold on_disk. destruct (m (disk c)) as [r d] eqn:He. simpl. by apply (Hm _ _ _ He).
Qed.

(** Whether a message may take a directory's content with it. *)
Definition takes_below (msg : FileMessage (Text := Text)) : bool :=
  match msg with FileDelete _ | FileRename _ _ => true | _ => false end.

(** The upload that follows a link that leads nowhere. *)
Definition through_link (fs : FS) (msg : FileMessage (Text := Text)) : Prop :=
  exists p chunk final b names, msg = FileUpload p chunk final /\
    node_at fs (resolved_in fs p) = Some (Link b names).

(** ** Uploads *)

(** A path that names a file, or no file yet, of a directory. *)
Definition target (fs : FS) (r : Path) : Prop :=
  exists d t, r = d ++ [t] /\ dir_path fs d /\
    (fs !! r = None \/ exists c m, fs !! r = Some (File c m) /\ m_write m = true).

Definition mode_of (fs : FS) (r : Path) : Mode :=
  match fs !! r with Some (File _ m) => m | _ => mkMode true true end.

Lemma target_fileish fs r :
  target fs r -> fs !! r = None \/ exists c m, fs !! r = Some (File c m).
Proof. intros (d & t & _ & _ & [?|(c & m & ? & _)]); [by left|right; eauto]. Qed.

(** Writing the target moves no path above it. *)
Lemma resolve_stable fs r c m a :
  target fs r -> under (resolved_in fs a) r ->
  resolved_in (<[r := File c m]> fs) a = resolved_in fs a.
Proof.
  intros Ht. pose proof (target_fileish _ _ Ht) as Hf. destruct Ht as (d & t & -> & Hd & _).
  unfold realpathResolve. set (R := resolve (cwd proc) a).
  destruct (realpathSync fs R) as [q|] eqn:Hq; [by rewrite (realpathSync_insert _ _ _ _ Hf _ _ Hq)|].
  destruct (path_snoc R) as [HR|HR]; [by rewrite HR, realpathSync_root in Hq|].
  assert (forall x y, under (x ++ [y]) (d ++ [t]) -> x = d /\ y = t \/ under (x ++ [y]) d) as Hsplit.
  { intros x y [k Hk]. destruct k as [|z k _] using rev_ind.
    - rewrite app_nil_r in Hk. apply app_inj_tail in Hk as [-> ->]. by left.
    - rewrite app_assoc in Hk. apply app_inj_tail in Hk as [-> _]. right. by exists k. }
  assert (forall x y, under (x ++ [y]) d -> dir_path fs x /\ fs !! (x ++ [y]) = Some Dir) as Hdir.
  { intros x y Hu. pose proof (dir_path_prefix _ _ _ Hd Hu) as Hxy. split.
    - eapply dir_path_prefix; [exact Hxy|]. by eexists.
    - rewrite <-node_at_snoc. by apply dir_path_at. }
  revert Hq. generalize dependent (basename R). generalize dependent (dirname R).
  intros A b HR Hq. rewrite HR in *. clear HR R.
  destruct (realpathSync fs A) as [P|] eqn:HP.
  - intros [[-> ->]|Hu]%Hsplit.
    + rewrite (realpathSync_snoc _ A t d); [done| | |].
      * by apply realpathSync_insert.
      * by apply dir_path_insert.
      * rewrite lookup_insert_eq. by eexists; split.
    + exfalso. apply Hdir in Hu as [HPd HPb].
      rewrite (realpathSync_snoc _ A b P) in Hq; [done|done|done|]. by eexists; split.
  - intros Hu. exfalso.
    assert (dir_path fs A) as HA.
    { apply Hsplit in Hu as [[-> _]|Hu]; [done|exact (proj1 (Hdir _ _ Hu))]. }
    by rewrite (realpathSync_dir _ _ HA) in HP.
Qed.

Lemma allowed_stable fs p c m :
  m_write m = true ->
  links_ok fs -> allowed_in fs p = true -> target fs (resolved_in fs p) ->
  let fs' := <[resolved_in fs p := File c m]> fs in
  resolved_in fs' p = resolved_in fs p /\ allowed_in fs' p = true /\ target fs' (resolved_in fs p).
Proof.
  intros Hm Hl Ha Ht fs'. set (r := realpathResolve proc fs p) in *.
  assert (under r r) as Hrr by (by exists []; rewrite app_nil_r).
  assert (resolved_in fs' p = r) as Hr by (by apply resolve_stable).
  split; [done|]. split.
  - revert Ha. unfold isPathAllowed. rewrite Hr. fold r. destruct (existsb _ DENIED); [done|].
    intros (a & Hin & Hw)%existsb_exists. apply existsb_exists. exists a. split; [done|].
    assert (under (resolved_in fs a) r) as Hu.
    { pose proof Hw as Hw'. apply isWithin_spec in Hw'; [|by apply realpathResolve_ok..].
      by destruct Hw' as [<-|[_ ?]]. }
    cbv zeta in *. unfold fs'. by rewrite resolve_stable.
  - pose proof (target_fileish _ _ Ht) as Hf. destruct Ht as (d & t & Heq & Hd & Hw).
    exists d, t. split; [done|]. split; [by apply dir_path_insert|].
    right. exists c. unfold fs'. rewrite lookup_insert_eq. exists m. by split.
Qed.
Lemma links_ok_insert fs r c m : links_ok fs -> links_ok (<[r := File c m]> fs).
Proof. intros Hl q n. rewrite lookup_insert. case_decide; [by intros [= <-]|apply Hl]. Qed.

Lemma target_mode fs r : target fs r -> m_write (mode_of fs r) = true.
Proof. intros (d & t & _ & _ & [Hr|(c & m & Hr & Hm)]); unfold mode_of; by rewrite Hr. Qed.

Definition content_of (fs : FS) (r : Path) : bytes :=
  match fs !! r with Some (File c _) => c | _ => [] end.

Lemma os_write_target f fs r :
  target fs r -> os_write f fs r = Ok (<[r := File (f (content_of fs r)) (mode_of fs r)]> fs).
Proof.
  intros (d & t & -> & Hd & Hr). rewrite os_write_file by done. unfold content_of, mode_of.
  destruct Hr as [Hr|(c & m & Hr & Hm)]; rewrite Hr; [done|by rewrite Hm].
Qed.

Lemma os_rm_target fs r u :
  target fs r -> tree (attempt (change (fun fs => os_rm false fs r)) (mkDisk fs u)).2 = delete r fs /\
  uploads (attempt (change (fun fs => os_rm false fs r)) (mkDisk fs u)).2 = u.
Proof.
  intros Ht. pose proof (target_fileish _ _ Ht) as Hf. destruct Ht as (d & t & -> & Hd & _).
  unfold attempt, change, os_rm. cbn [tree]. rewrite os_entry_dir by done. cbn [mbind result_bind].
  destruct Hf as [Hr|(c & m & Hr)]; rewrite Hr; [|done]. simpl. by rewrite delete_id.
Qed.

Notation handleUpload := (handleUpload proc DENIED).

(** What a client sends of one file: its chunks, the last one marked. *)
Definition upload_all (p : jstr) (chunks : list bytes) (last : bytes) : FileM unit :=
  foldr (fun chunk rest => handleUpload p chunk false ;; rest) (handleUpload p last true) chunks.

Definition size_of (l : bytes) : Z := Z.of_nat (length l).

(** An upload under way has written [acc]. *)
Record uploading (p : jstr) (acc : bytes) (d : Disk) : Prop := {
  up_links : links_ok (tree d);
  up_allowed : allowed_in (tree d) p = true;
  up_target : target (tree d) (resolved_in (tree d) p);
  up_count : default 0 (uploads d !! resolved_in (tree d) p) = size_of acc;
  up_content : acc = [] \/ content_of (tree d) (resolved_in (tree d) p) = acc;
}.

Definition uploaded (p : jstr) (acc : bytes) (d : Disk) : FS :=
  let r := resolved_in (tree d) p in <[r := File acc (mode_of (tree d) r)]> (tree d).

Lemma handleUpload_fits p acc d chunk final :
  uploading p acc d -> size_of (acc ++ chunk) <= MAX_UPLOAD_SIZE ->
  handleUpload p chunk final d =
  (Ok tt, mkDisk (uploaded p (acc ++ chunk) d)
     (let r := resolved_in (tree d) p in
      if final then delete r (uploads d) else <[r := size_of (acc ++ chunk)]> (uploads d))).
Proof.
  intros [Hl Ha Ht Hn Hc] Hs. unfold FileService.handleUpload, mbind, FileM_bind. rewrite assert_ok, Ha.
  unfold get_upload, set_uploads, uploaded. cbv zeta. rewrite Hn.
  unfold size_of in *. rewrite length_app, Nat2Z.inj_add in Hs |- *.
  rewrite (proj2 (Z.ltb_ge _ _) Hs). unfold change. rewrite os_write_target by done.
  assert ((if Z.of_nat (length acc) =? 0 then chunk
           else content_of (tree d) (realpathResolve proc (tree d) p) ++ chunk) = acc ++ chunk) as ->.
  { destruct Hc as [->| ->]; [done|]. by destruct acc. }
  by destruct final.
Qed.

Lemma handleUpload_exceeds p acc d chunk final :
  uploading p acc d -> MAX_UPLOAD_SIZE < size_of (acc ++ chunk) ->
  exists d', handleUpload p chunk final d = (Err (UploadTooLarge (size_of (acc ++ chunk))), d') /\
    tree d' = delete (resolved_in (tree d) p) (tree d) /\
    uploads d' = delete (resolved_in (tree d) p) (uploads d).
Proof.
  intros [Hl Ha Ht Hn Hc] Hs. unfold FileService.handleUpload, mbind, FileM_bind. rewrite assert_ok, Ha.
  unfold get_upload, set_uploads. cbv zeta. rewrite Hn.
  unfold size_of in *. rewrite length_app, Nat2Z.inj_add in Hs |- *.
  rewrite (proj2 (Z.ltb_lt _ _) Hs). unfold rm_force. cbn [tree uploads].
  pose proof (os_rm_target _ _ (delete (resolved_in (tree d) p) (uploads d)) Ht) as [H1 H2].
  destruct (attempt _ _) as [r d'] eqn:Hatt.
  assert (r = Ok tt) as -> by (by injection Hatt as <- _). unfold throw. by exists d'.
Qed.

Lemma uploading_next p acc d chunk :
  uploading p acc d ->
  uploading p (acc ++ chunk) (mkDisk (uploaded p (acc ++ chunk) d)
    (<[resolved_in (tree d) p := size_of (acc ++ chunk)]> (uploads d))).
Proof.
  intros [Hl Ha Ht Hn Hc].
  destruct (allowed_stable (tree d) p (acc ++ chunk) _ (target_mode _ _ Ht) Hl Ha Ht) as (Hr & Ha' & Ht').
  split; unfold uploaded; cbn [tree uploads]; rewrite ?Hr; try done.
  - by apply links_ok_insert.
  - by rewrite lookup_insert_eq.
  - right. unfold content_of. by rewrite lookup_insert_eq.
Qed.

Lemma upload_all_run p chunks last acc d :
  uploading p acc d ->
  let r := resolved_in (tree d) p in
  let data := acc ++ concat chunks ++ last in
  (size_of data <= MAX_UPLOAD_SIZE ->
     upload_all p chunks last d = (Ok tt, mkDisk (uploaded p data d) (delete r (uploads d)))) /\
  (MAX_UPLOAD_SIZE < size_of data ->
     exists n d', upload_all p chunks last d = (Err (UploadTooLarge n), d') /\
       tree d' = delete r (tree d) /\ uploads d' = delete r (uploads d)).
Proof.
  revert acc d. induction chunks as [|chunk chunks IH]; intros acc d Hup; cbv zeta; cbn [concat upload_all foldr app].
  - split; intros Hs; [by rewrite (handleUpload_fits _ _ _ _ _ Hup Hs)|].
    destruct (handleUpload_exceeds _ _ _ _ true Hup Hs) as (d' & -> & ? & ?). by eexists _, d'.
  - rewrite <-app_assoc, (app_assoc acc). unfold mbind, FileM_bind.
    destruct (decide (size_of (acc ++ chunk) <= MAX_UPLOAD_SIZE)) as [Hs|Hs].
    + rewrite (handleUpload_fits _ _ _ _ _ Hup Hs). cbv beta zeta iota.
      pose proof (uploading_next _ _ _ chunk Hup) as Hup'.
      destruct (allowed_stable (tree d) p (acc ++ chunk) _ (target_mode _ _ (up_target _ _ _ Hup))
        (up_links _ _ _ Hup) (up_allowed _ _ _ Hup) (up_target _ _ _ Hup)) as (Hr & _ & _).
      specialize (IH _ _ Hup'). cbv zeta in IH. unfold uploaded in *. cbn [tree uploads] in IH.
      rewrite Hr in IH. unfold mode_of in IH at 2. rewrite lookup_insert_eq, insert_insert_eq in IH.
      rewrite !delete_insert_eq in IH. exact IH.
    + apply Z.nle_gt in Hs.
      destruct (handleUpload_exceeds _ _ _ _ false Hup Hs) as (d' & -> & ? & ?). split.
      * intros Hs'. unfold size_of in *. rewrite !length_app in Hs'. rewrite !length_app in Hs. lia.
      * intros _. by eexists _, d'.
Qed.

(** ** Saving and reading back *)

Lemma readFile_file p d c m :
  allowed_in (tree d) p = true -> canonical (tree d) (resolved_in (tree d) p) ->
  tree d !! resolved_in (tree d) p = Some (File c m) -> m_read m = true ->
  resolved_in (tree d) p <> [] ->
  readFile p d =
  (Ok (utf8_decode (take (Z.to_nat MAX_FILE_SIZE) c), MAX_FILE_SIZE <? size_of c), d).
Proof.
  intros Ha Hc Hn Hm Hne. unfold FileService.readFile, mbind, FileM_bind. rewrite assert_ok, Ha.
  assert (os_stat (tree d) (resolved_in (tree d) p) = Ok (File c m)) as Hst.
  { unfold os_stat. rewrite walk_canonical by done. cbn [mbind result_bind].
    unfold node_at. destruct (realpathResolve proc (tree d) p); [done|by rewrite Hn]. }
  assert (os_readFile (tree d) (resolved_in (tree d) p) = Ok c) as Hr.
  { unfold os_readFile. rewrite Hst. simpl. by rewrite Hm. }
  unfold ask. rewrite Hst. cbn [is_file negb stat_size]. rewrite Hr.
  change (Z.of_nat (length c)) with (size_of c).
  destruct (Z.ltb_spec MAX_FILE_SIZE (size_of c)); [done|]. unfold mret, FileM_ret.
  rewrite take_ge; [done|]. unfold size_of in *. lia.
Qed.

Lemma target_canonical fs r c m : target fs r -> canonical (<[r := File c m]> fs) r.
Proof.
  intros Ht. pose proof (target_fileish _ _ Ht) as Hf. destruct Ht as (d & t & -> & Hd & _).
  right. exists d, t, c, m. split; [done|]. split; [by apply dir_path_insert|]. apply lookup_insert_eq.
Qed.

Lemma saved_reads p d data :
  links_ok (tree d) -> allowed_in (tree d) p = true ->
  let r := resolved_in (tree d) p in
  target (tree d) r -> m_read (mode_of (tree d) r) = true ->
  forall u, let d' := mkDisk (<[r := File data (mode_of (tree d) r)]> (tree d)) u in
  readFile p d' = (Ok (utf8_decode (take (Z.to_nat MAX_FILE_SIZE) data), MAX_FILE_SIZE <? size_of data), d').
Proof.
  intros Hl Ha r. subst r. intros Ht Hm u d'.
  destruct (allowed_stable (tree d) p data _ (target_mode _ _ Ht) Hl Ha Ht) as (Hr & Ha' & _).
  apply readFile_file with (m := mode_of (tree d) (realpathResolve proc (tree d) p)); subst d'; cbn [tree]; try done.
  - rewrite Hr. by apply target_canonical.
  - rewrite Hr. apply lookup_insert_eq.
  - rewrite Hr. destruct Ht as (d0 & t & Heq & _). rewrite Heq. by destruct d0.
Qed.

Lemma writeFile_target p content d size d' :
  writeFile proc DENIED utf8_encode p content d = (Ok size, d') ->
  allowed_in (tree d) p = true /\ size = size_of (utf8_encode content) /\ size <= MAX_WRITE_SIZE /\
  let r := resolved_in (tree d) p in target (tree d) r /\
  (exists c, tree d !! r = Some (File c (mode_of (tree d) r))) /\
  d' = mkDisk (<[r := File (utf8_encode content) (mode_of (tree d) r)]> (tree d)) (uploads d).
Proof.
  unfold writeFile, mbind, FileM_bind. rewrite assert_ok.
  destruct (allowed_in (tree d) p); [|done]. cbv zeta.
  destruct (Z.ltb_spec MAX_WRITE_SIZE (Z.of_nat (length (utf8_encode content)))) as [|Hs]; [done|].
  unfold ask. destruct (os_access _ _ _) as [u|] eqn:Hacc; [|done]. unfold change.
  destruct (os_write _ _ _) as [fs'|] eqn:Hw; [|done]. unfold mret, FileM_ret.
  intros [= <- <-]. do 3 (split; [done|]).
  revert Hacc. unfold os_access, os_stat.
  destruct (walk _ _ _ _ _) as [q|] eqn:Hwalk; [|done]. pose proof (walk_resolved _ _ _ _ Hwalk) as ->.
  destruct (walk_ends _ _ _ _ _ _ (dir_root _) Hwalk) as [[Hd|(e & t & c & m & Hr & Hd & Hn)]|[? _]]; [| |done].
  - exfalso. revert Hw. unfold os_write. rewrite walk_canonical by (by left). simpl.
    by rewrite (dir_path_at _ _ Hd).
  - simpl. intros Hacc.
    assert (m_write m = true) as Hm.
    { rewrite Hr, node_at_snoc, <-Hr, Hn in Hacc. simpl in Hacc. by destruct (m_write m). }
    assert (target (tree d) (resolved_in (tree d) p)) as Ht by (exists e, t; eauto 10).
    rewrite os_write_target in Hw by done. injection Hw as <-. split; [done|]. split; [|done].
    exists c. unfold mode_of. by rewrite Hn.
Qed.

(** What was written is what is read back at the same path: of a file
    saved over another up to the first 100 KB, the rest being reported as cut. *)
Theorem write_reads_back p content d size d' :
  links_ok (tree d) ->
  writeFile proc DENIED utf8_encode p content d = (Ok size, d') ->
  m_read (mode_of (tree d) (resolved_in (tree d) p)) = true ->
  let data := utf8_encode content in
  size = size_of data /\ size <= MAX_WRITE_SIZE /\
  readFile p d' = (Ok (utf8_decode (take (Z.to_nat MAX_FILE_SIZE) data), MAX_FILE_SIZE <? size), d').
Proof.
  intros Hl (Ha & -> & Hs & Ht & _ & ->)%writeFile_target Hm data. split; [done|]. split; [done|].
  by apply saved_reads.
Qed.
End Safety.

(** ** The file browser on a concrete home directory

    Runs of FileService on a home directory with credentials in it: the ones
    the theorems of FileSafety apply to, and the ones that show what the deny
    list and the [/file] endpoint do not stop. *)

Module FileDemo.
Definition rw : Mode := mkMode true true.
Definition home : Path := [js "home"; js "u"].

Definition tree0 : FS :=
  list_to_map
    [([js "home"], Dir); (home, Dir);
     (home ++ [js "notes.txt"], File [1; 2; 3] rw);
     (home ++ [js ".ssh"], Dir);
     (home ++ [js ".ssh"; js "id_rsa"], File [7; 7; 7; 7] rw);
     (home ++ [js ".config"], Dir);
     (home ++ [js ".config"; js "gh"], Dir);
     (home ++ [js ".config"; js "gh"; js "hosts.yml"], File [9; 9] rw);
     (home ++ [js "shortcut"], Link (Up 0) [js ".ssh"]);
     (home ++ [js "key"], Link (Up 0) [js ".ssh"; js "id_rsa"]);
     (home ++ [js "planted"], Link (Up 0) [js ".ssh"; js "authorized_keys"])].

Definition user : Process := mkProcess [] (js "/home/u") None [js "/home/u"].
Definition denied : list Path := DENIED_ROOTS user tree0.
Definition disk0 : Disk := mkDisk tree0 ∅.
Definition id_text (b : bytes) : bytes := b.
Definition cmp (a b : jstr) : Z := 0.

Notation allowed := (isPathAllowed user denied).
Notation read := (readFile user denied id_text 4096).
Notation route := (route_file user denied id_text id_text cmp 4096).

#[local] Instance seg_ok_dec s : Decision (seg_ok s).
Proof. unfold seg_ok. apply _. Defined.
#[local] Instance link_ok_dec n : Decision (link_ok n).
Proof. destruct n; apply _. Defined.

Lemma cwd_ok : Forall seg_ok (cwd user).
Proof. constructor. Defined.

Lemma denied_ok : Forall (fun d => d <> [] /\ Forall seg_ok d) denied.
Proof. apply (bool_decide_unpack _). vm_compute. exact I. Defined.

Lemma tree0_ok : links_ok tree0.
Proof.
  apply (bool_decide_unpack (map_Forall (fun _ n => link_ok n) tree0)). vm_compute. exact I.
Defined.

Lemma notes_target : target tree0 (home ++ [js "notes.txt"]).
Proof.
  exists home, (js "notes.txt"). split; [done|]. split.
  - change home with (([] ++ [js "home"]) ++ [js "u"]). repeat constructor; by vm_compute.
  - right. exists [1; 2; 3], rw. by vm_compute.
Defined.

(** The deny list holds, through a link as well. *)
Example denied_paths :
  (allowed tree0 (js "/home/u/notes.txt"), allowed tree0 (js "/home/u/.ssh/id_rsa"),
   allowed tree0 (js "/home/u/shortcut/id_rsa"), allowed tree0 (js "/home/u/x/../.ssh"),
   allowed tree0 (js "/home/u/.sshfoo")) = (true, false, false, false, true).
Proof. vm_compute. reflexivity. Qed.


(** Renaming moves what is below with it: here out of the deny list's reach. *)
Definition rename_config : FileMessage :=
  FileRename (Text := bytes) (js "/home/u/.config") (js "/home/u/elsewhere").
Definition conn0 : FileConn := mkFileConn disk0 ∅.



Lemma write_reads_back_witness :
  exists d', writeFile user denied id_text (js "/home/u/notes.txt") [5; 6] disk0 = (Ok 2, d') /\
    read (js "/home/u/notes.txt") d' = (Ok ([5; 6], false), d').
Proof.
  exists (writeFile user denied id_text (js "/home/u/notes.txt") [5; 6] disk0).2.
  split; [vm_compute; reflexivity|].
  refine (proj2 (proj2 (write_reads_back user denied id_text id_text 4096 cwd_ok
    (js "/home/u/notes.txt") [5; 6] disk0 2 _ tree0_ok _ _))); vm_compute; reflexivity.
Defined.

(** ** What is not stopped *)

(** The token under [.config/gh] is refused; after renaming [.config], which
    is not, it is handed out. *)
Lemma rename_defeats_denial :
  allowed tree0 (js "/home/u/.config/gh/hosts.yml") = false /\
  let c := (route rename_config conn0).1 in
  (read (js "/home/u/elsewhere/gh/hosts.yml") (disk c)).1 = Ok ([9; 9], false).
Proof. split; vm_compute; reflexivity. Qed.

(** A link that leads nowhere is taken for the file to create: the upload is
    checked at the link and written where it points. *)
Lemma upload_follows_dangling_link :
  allowed tree0 (js "/home/u/.ssh/authorized_keys") = false /\
  let '(r, d) := handleUpload user denied (js "/home/u/planted") [42] true disk0 in
  r = Ok tt /\ tree d !! (home ++ [js ".ssh"; js "authorized_keys"]) = Some (File [42] rw).
Proof. split; [vm_compute; reflexivity|]. vm_compute. split; reflexivity. Qed.

(** A listing stats through links: the size of a denied file shows. *)
Lemma listing_stats_through_links :
  allowed tree0 (js "/home/u/key") = false /\
  exists entries, (listDirectory user denied cmp 4096 (js "/home/u") disk0).1 = Ok entries /\
    mkEntry (js "key") (js "/home/u/key") type_symlink 4 ∈ entries.
Proof.
  split; [vm_compute; reflexivity|]. eexists. split; [vm_compute; reflexivity|].
  apply list_elem_of_In. vm_compute. tauto.
Qed.

(** A range that ends before it starts throws after the status line. *)
Lemma backward_range_throws :
  serve_file user denied 4096 files_read tree0 (Some (js "/home/u/notes.txt")) (Some (2, Some 1))
  = ThrewAfterHeaders.
Proof. vm_compute. reflexivity. Qed.

(** Allowing [/] allows nothing below it. *)
Lemma root_allows_only_itself :
  let anyone := mkProcess [] (js "/home/u") None [js "/"] in
  isPathAllowed anyone denied tree0 (js "/home/u/notes.txt") = false /\
  isPathAllowed anyone denied tree0 (js "/") = true.
Proof. split; vm_compute; reflexivity. Qed.
End FileDemo.
