(* ===== verification/Cast.v ===== *)
(** * Cast: terminal recordings in the asciinema format

    [packages/cast/src]: [format.ts] (encoding, and a parser that survives a
    torn file), [timeline.ts] (what a player draws at a time) and [writer.ts].
    Text is its UTF-16 units.  A time is a rational: the code's [number]s
    without their rounding, but for [toFixed], which is written out.  JSON
    values are an inductive type; [JSON.stringify] and [JSON.parse] are a type
    class with what is documented of them as laws, and [CastToy] an instance. *)

From Stdlib Require Import QArith Qround Lqa.
From S2P Require Import Prelude Bytes.

#[local] Open Scope Z_scope.

(** ** JSON *)

Inductive Json :=
| JNull
| JBool (b : bool)
| JNumber (q : Q)
| JString (s : jstr)
| JArray (l : list Json)
| JObject (fields : list (jstr * Json)).

Class JsonCodec := {
  stringify : Json -> jstr;
  parse : jstr -> option Json;
}.

(** A JSON text is one line without indentation and reads back; an array's
    starts with its bracket and no shorter piece of it is JSON. *)
Class JsonLaws `{JsonCodec} := {
  json_roundtrip v : parse (stringify v) = Some v;
  json_one_line v : 10 ∉ stringify v;
  json_not_blank v : trim (stringify v) <> [];
  json_torn l p : p `prefix_of` stringify (JArray l) -> p <> [] ->
    p <> stringify (JArray l) -> parse p = None /\ trim p <> [];
}.

(** ** [format.ts] *)

Inductive CastEventType := output | resize.
#[export] Instance CastEventType_eq_dec : EqDecision CastEventType.
Proof. solve_decision. Defined.

Record CastEvent := mkEvent { ev_time : Q; ev_type : CastEventType; ev_data : jstr }.

Record CastHeader := mkHeader {
  ch_width : Z;
  ch_height : Z;
  ch_timestamp : option Z;
  ch_idle_time_limit : option Z;
  ch_title : option jstr;
  ch_term : option jstr;
}.

(** A parsed header is whatever JSON had [version] 2. *)
Record Cast := mkCast { ca_header : Json; ca_events : list CastEvent; ca_truncated : bool }.

Definition TIME_PRECISION : Z := 6.

(** [Number(seconds.toFixed(6))]: the nearest multiple, the larger of two. *)
Definition formatTime (seconds : Q) : Q :=
  Qred (Qmake (Qfloor (seconds * inject_Z (10 ^ TIME_PRECISION) + (1 # 2)))
              (Z.to_pos (10 ^ TIME_PRECISION))).

Definition NEWLINE : Z := 10.

Definition json_int (n : Z) : Json := JNumber (inject_Z n).
Definition optional (key : string) (v : option Json) : list (jstr * Json) :=
  match v with Some v => [(js key, v)] | None => [] end.

Definition header_json (h : CastHeader) : Json :=
  JObject ([(js "version", json_int 2); (js "width", json_int (ch_width h));
            (js "height", json_int (ch_height h))]
    ++ optional "timestamp" (json_int <$> ch_timestamp h)
    ++ optional "idle_time_limit" (json_int <$> ch_idle_time_limit h)
    ++ optional "title" (JString <$> ch_title h)
    ++ optional "env" ((fun term => JObject [(js "TERM", JString term)]) <$> ch_term h)).

Definition type_name (t : CastEventType) : jstr :=
  match t with output => js "o" | resize => js "r" end.

Definition event_json (e : CastEvent) : Json :=
  JArray [JNumber (formatTime (ev_time e)); JString (type_name (ev_type e)); JString (ev_data e)].

Inductive CastError := EmptyRecording | HeaderNotJson | UnsupportedVersion.

(** A property of a value; [header?.version] of anything else is undefined. *)
Definition field (key : string) (v : Json) : option Json :=
  match v with JObject fields => assoc_get (js key) fields | _ => None end.

Definition isVersion2 (v : Json) : bool :=
  match field "version" v with Some (JNumber q) => Qeq_bool q 2 | _ => false end.

Definition isCastEventType (v : Json) : option CastEventType :=
  match v with
  | JString s =>
      if decide (s = js "o") then Some output else if decide (s = js "r") then Some resize else None
  | _ => None
  end.

(** An array of a number, a type and a string, whatever follows. *)
Definition event_of (v : Json) : option CastEvent :=
  match v with
  | JArray (JNumber t :: ty :: JString data :: _) =>
      ty ← isCastEventType ty; Some (mkEvent t ty data)
  | _ => None
  end.

(** [text.split("\n")]. *)
Fixpoint split_lines (s : jstr) : list jstr :=
  match s with
  | [] => [[]]
  | c :: s' =>
      if c =? NEWLINE then [] :: split_lines s'
      else match split_lines s' with h :: t => (c :: h) :: t | [] => [[c]] end
  end.

(** [lines.join("\n")]. *)
Fixpoint join_lines (l : list jstr) : jstr :=
  match l with
  | [] => []
  | [s] => s
  | s :: l' => s ++ NEWLINE :: join_lines l'
  end.

Section Format.
Context `{JsonCodec}.

Definition encodeHeader (h : CastHeader) : jstr := stringify (header_json h).
Definition encodeEvent (e : CastEvent) : jstr := stringify (event_json e).
Definition encodeCast (h : CastHeader) (events : list CastEvent) : jstr :=
  join_lines ((encodeHeader h :: map encodeEvent events) ++ [[]]).

(** The loop over the lines after the header. *)
Fixpoint parse_events (lines : list jstr) : list CastEvent * bool :=
  match lines with
  | [] => ([], false)
  | line :: rest =>
      let '(events, truncated) := parse_events rest in
      if decide (trim line = []) then (events, truncated)
      else
        match parse line with
        | None => (events, match rest with [] => true | _ => truncated end)
        | Some v =>
            match event_of v with
            | Some e => (e :: events, truncated)
            | None => (events, truncated)
            end
        end
  end.

Definition parseCast (text : jstr) : result CastError Cast :=
  match split_lines text with
  | [] => Err EmptyRecording
  | headerLine :: lines =>
      if decide (trim headerLine = []) then Err EmptyRecording
      else
        match parse headerLine with
        | None => Err HeaderNotJson
        | Some header =>
            if negb (isVersion2 header) then Err UnsupportedVersion
            else
              let '(events, truncated) := parse_events lines in
              Ok (mkCast header events truncated)
        end
  end.
End Format.

Definition castDuration (events : list CastEvent) : Q :=
  match last events with Some e => ev_time e | None => 0%Q end.

(** A decimal numeral of a non-negative integer. *)
Definition numeral (n : Z) : jstr := js (pretty (Z.to_N n)).

Definition encodeSize (cols rows : Z) : jstr := numeral cols ++ js "x" ++ numeral rows.

(** [Number] of a string of digits. *)
Definition number_of (digits : jstr) : Z := foldl (fun n c => n * 10 + (c - 48)) 0 digits.

Fixpoint span_digits (s : jstr) : jstr * jstr :=
  match s with
  | c :: s' => if is_digit c then let '(d, r) := span_digits s' in (c :: d, r) else ([], s)
  | [] => ([], [])
  end.

(** [/^(\d+)x(\d+)$/]. *)
Definition parseSize (data : jstr) : option (Z * Z) :=
  let '(cols, rest) := span_digits data in
  match rest with
  | 120 :: rest =>
      let '(rows, rest) := span_digits rest in
      if decide (cols <> [] /\ rows <> [] /\ rest = []) then Some (number_of cols, number_of rows)
      else None
  | _ => None
  end.

(** ** [timeline.ts] *)

Record CompiledCast := mkCompiled {
  cc_duration : Q;
  cc_cumulativeBytes : list Z;
  cc_totalBytes : Z;
}.

Definition data_bytes (e : CastEvent) : Z :=
  match ev_type e with output => Z.of_nat (length (ev_data e)) | resize => 0 end.

Fixpoint cumulative (total : Z) (events : list CastEvent) : list Z * Z :=
  match events with
  | [] => ([], total)
  | e :: events =>
      let '(offsets, sum) := cumulative (total + data_bytes e) events in (total :: offsets, sum)
  end.

Definition compileCast (events : list CastEvent) : CompiledCast :=
  let '(offsets, sum) := cumulative 0 events in mkCompiled (castDuration events) offsets sum.

(** The binary search; [fuel] bounds its turns. *)
Fixpoint index_loop (fuel : nat) (events : list CastEvent) (t : Q) (low high found : Z) : Z :=
  match fuel with
  | O => found
  | S fuel =>
      if low <=? high then
        let mid := Z.shiftr (low + high) 1 in
        match events !! Z.to_nat mid with
        | Some e =>
            if Qle_bool (ev_time e) t then index_loop fuel events t (mid + 1) high mid
            else index_loop fuel events t low (mid - 1) found
        | None => found
        end
      else found
  end.

Definition indexAt (events : list CastEvent) (t : Q) : Z :=
  index_loop (S (length events)) events t 0 (Z.of_nat (length events) - 1) (-1).

Definition sliceUpTo (events : list CastEvent) (t : Q) : list CastEvent :=
  slice 0 (Z.to_nat (indexAt events t + 1)) events.

Definition sliceBetween (events : list CastEvent) (from to : Q) : list CastEvent :=
  if Qle_bool to from then []
  else slice (Z.to_nat (indexAt events from + 1)) (Z.to_nat (indexAt events to + 1)) events.

(** The loop stops at the first event after [t]. *)
Fixpoint size_loop (size : Z * Z) (events : list CastEvent) (t : Q) : Z * Z :=
  match events with
  | [] => size
  | e :: events =>
      if negb (Qle_bool (ev_time e) t) then size
      else if decide (ev_type e <> resize) then size_loop size events t
      else size_loop (default size (parseSize (ev_data e))) events t
  end.

Definition sizeAt (width height : Z) (events : list CastEvent) (t : Q) : Z * Z :=
  size_loop (width, height) events t.

Fixpoint squash_loop (limit previousSource shift : Q) (events : list CastEvent) : list CastEvent :=
  match events with
  | [] => []
  | e :: events =>
      let gap := (ev_time e - previousSource)%Q in
      let shift := if Qle_bool gap limit then shift else (shift + (gap - limit))%Q in
      mkEvent (ev_time e - shift)%Q (ev_type e) (ev_data e)
        :: squash_loop limit (ev_time e) shift events
  end.

Definition squashIdle (events : list CastEvent) (limit : Q) : list CastEvent :=
  if Qle_bool limit 0 then events else squash_loop limit 0 0 events.

Definition textOf (events : list CastEvent) : jstr :=
  concat (map (fun e => match ev_type e with output => ev_data e | resize => [] end) events).

(** ** Lines *)

Lemma split_lines_one s : NEWLINE ∉ s -> split_lines s = [s].
Proof.
  induction s as [|c s IH]; intros Hs; [done|]. apply not_elem_of_cons in Hs as [Hc Hs].
  simpl. destruct (Z.eqb_spec c NEWLINE); [congruence|]. by rewrite IH.
Qed.

Lemma split_lines_cons s u : NEWLINE ∉ s -> split_lines (s ++ NEWLINE :: u) = s :: split_lines u.
Proof.
  induction s as [|c s IH]; intros Hs; [done|]. apply not_elem_of_cons in Hs as [Hc Hs].
  simpl. destruct (Z.eqb_spec c NEWLINE); [congruence|]. by rewrite IH.
Qed.

(** The lines after the first, given everything that follows it. *)
Definition lines_after (q : jstr) : list jstr :=
  match q with [] => [] | _ :: q => split_lines q end.

Lemma split_lines_after s q :
  NEWLINE ∉ s -> q = [] \/ head q = Some NEWLINE -> split_lines (s ++ q) = s :: lines_after q.
Proof.
  intros Hs [->|Hq]; [by rewrite app_nil_r, split_lines_one|].
  destruct q as [|c q]; [done|]. injection Hq as ->. by rewrite split_lines_cons.
Qed.

(** Either a prefix stops inside the first part or it contains it. *)
Lemma prefix_app_cases {A} `{EqDecision A} (p a b : list A) :
  p `prefix_of` a ++ b -> p `prefix_of` a /\ p <> a \/ exists q, p = a ++ q /\ q `prefix_of` b.
Proof.
  revert p. induction a as [|x a IH]; intros p Hp; [right; by exists p|].
  destruct p as [|y p]; [left; split; [apply prefix_nil|done]|].
  pose proof (prefix_cons_inv_1 _ _ _ _ Hp) as ->. apply prefix_cons_inv_2 in Hp.
  destruct (IH _ Hp) as [[Hpre Hne]|(q & -> & Hq)].
  - left. split; [by apply prefix_cons|congruence].
  - right. by exists q.
Qed.

(** ** Writing and reading *)

(** What is left of an event once its time is written with six decimals. *)
Definition rounded (e : CastEvent) : CastEvent :=
  mkEvent (formatTime (ev_time e)) (ev_type e) (ev_data e).

Lemma event_of_json e : event_of (event_json e) = Some (rounded e).
Proof. unfold rounded. by destruct e as [t [] d]. Qed.

Lemma header_version h : isVersion2 (header_json h) = true.
Proof. reflexivity. Qed.

Section Laws.
Context `{!JsonCodec, !JsonLaws}.

Definition cast_body (events : list CastEvent) : jstr :=
  concat (map (fun e => NEWLINE :: encodeEvent e) events).

Lemma encodeCast_body h events :
  encodeCast h events = encodeHeader h ++ cast_body events ++ [NEWLINE].
Proof.
  unfold encodeCast. generalize (encodeHeader h). induction events as [|e events IH]; intros s.
  - simpl. done.
  - change (s ++ NEWLINE :: join_lines ((encodeEvent e :: map encodeEvent events) ++ [[]])
      = s ++ cast_body (e :: events) ++ [NEWLINE]).
    rewrite IH. unfold cast_body. simpl. by rewrite <-app_assoc.
Qed.

Lemma encodeEvent_line e : NEWLINE ∉ encodeEvent e.
Proof. apply json_one_line. Qed.

Lemma parse_event_line e rest :
  parse_events (encodeEvent e :: rest) =
  (rounded e :: (parse_events rest).1, (parse_events rest).2).
Proof.
  simpl. destruct (parse_events rest) as [events tr]. unfold encodeEvent.
  rewrite decide_False by apply json_not_blank. by rewrite json_roundtrip, event_of_json.
Qed.

(** A piece of the body that stops after [k] events and [torn]. *)
Definition torn_at (events : list CastEvent) (k : nat) (torn : jstr) : Prop :=
  torn = [] \/ torn = [NEWLINE] \/
  exists piece e, torn = NEWLINE :: piece /\ piece <> [] /\ events !! k = Some e /\
    piece `prefix_of` encodeEvent e /\ piece <> encodeEvent e.

Lemma body_head events : head (cast_body events ++ [NEWLINE]) = Some NEWLINE.
Proof. by destruct events. Qed.

Lemma body_prefix_head q events :
  q `prefix_of` cast_body events ++ [NEWLINE] -> q = [] \/ head q = Some NEWLINE.
Proof.
  intros [k Hk]. destruct q as [|d q]; [by left|right]. pose proof (body_head events) as Hh.
  by rewrite Hk in Hh.
Qed.

Lemma parse_cut events q :
  q `prefix_of` cast_body events ++ [NEWLINE] ->
  exists k torn, q = cast_body (take k events) ++ torn /\ torn_at events k torn /\
    parse_events (lines_after q) = (map rounded (take k events), bool_decide (1 < length torn)%nat).
Proof.
  revert q. induction events as [|e events IH]; intros q Hq.
  - exists 0%nat, q. split; [done|]. destruct q as [|c q]; [by split; [left|]|].
    pose proof (prefix_cons_inv_1 _ _ _ _ Hq) as ->. apply prefix_cons_inv_2, prefix_nil_inv in Hq as ->.
    split; [by right; left|done].
  - destruct q as [|c q]; [exists 0%nat, []; by split; [|split; [left|]]|].
    unfold cast_body in Hq. simpl in Hq. rewrite <-app_assoc in Hq.
    pose proof (prefix_cons_inv_1 _ _ _ _ Hq) as ->. apply prefix_cons_inv_2 in Hq.
    apply prefix_app_cases in Hq as [[Hp Hne]|(q' & -> & Hq')].
    + exists 0%nat, (NEWLINE :: q). split; [done|]. destruct q as [|c q].
      { split; [by right; left|]. done. }
      assert (NEWLINE ∉ c :: q) as Hnl.
      { destruct Hp as [k Hk]. intros Hin. apply (encodeEvent_line e). rewrite Hk.
        apply elem_of_app. by left. }
      split; [right; right; by exists (c :: q), e|].
      cbn [lines_after take map length]. rewrite split_lines_one by done.
      destruct (json_torn _ _ Hp ltac:(done) Hne) as [Hnone Hblank].
      cbn [parse_events]. rewrite decide_False by done. by rewrite Hnone.
    + change (q' `prefix_of` cast_body events ++ [NEWLINE]) in Hq'.
      destruct (IH q' Hq') as (k & torn & -> & Ht & Hparse).
      exists (S k), torn. split; [unfold cast_body; simpl; by rewrite <-app_assoc|]. split; [done|].
      cbn [lines_after]. rewrite split_lines_after; [|apply encodeEvent_line|].
      * by rewrite parse_event_line, Hparse.
      * by eapply body_prefix_head.
Qed.

(** C37: A recording cut anywhere after its header parses to exactly the events
    whose lines are whole, and says whether the cut went through a line. *)
Theorem cut_anywhere h events p :
  p `prefix_of` encodeCast h events -> encodeHeader h `prefix_of` p ->
  exists k torn, p = encodeHeader h ++ cast_body (take k events) ++ torn /\
    torn_at events k torn /\
    parseCast p = Ok (mkCast (header_json h) (map rounded (take k events))
                        (bool_decide (1 < length torn)%nat)).
Proof.
  rewrite encodeCast_body. intros Hp [q ->]. apply prefix_app_inv in Hp.
  destruct (parse_cut events q Hp) as (k & torn & -> & Ht & Hparse). exists k, torn.
  split; [done|]. split; [done|]. unfold parseCast.
  rewrite split_lines_after; [|apply json_one_line|].
  - rewrite decide_False by apply json_not_blank. unfold encodeHeader.
    rewrite json_roundtrip, header_version, Hparse. done.
  - by eapply body_prefix_head.
Qed.

(** A whole recording reads back. *)
Lemma cast_roundtrip h events :
  parseCast (encodeCast h events) = Ok (mkCast (header_json h) (map rounded events) false).
Proof.
  rewrite encodeCast_body. unfold parseCast.
  rewrite split_lines_after; [|apply json_one_line|right; apply body_head].
  rewrite decide_False by apply json_not_blank. unfold encodeHeader.
  rewrite json_roundtrip, header_version. cbn [negb].
  assert (parse_events (lines_after (cast_body events ++ [NEWLINE])) = (map rounded events, false)) as ->; [|done].
  induction events as [|e events IH]; [done|]. unfold cast_body. cbn [map concat app lines_after].
  rewrite <-app_assoc, split_lines_after; [|apply encodeEvent_line|right; apply body_head].
  fold (cast_body events). by rewrite parse_event_line, IH.
Qed.
End Laws.

(** ** Seeking *)

Definition by_time (a b : CastEvent) : Prop := (ev_time a <= ev_time b)%Q.
Definition in_order (events : list CastEvent) : Prop := StronglySorted by_time events.

Definition at_or_before (t : Q) (e : CastEvent) : bool := Qle_bool (ev_time e) t.

(** The events a seek to [t] replays, found by looking at every one. *)
Definition played (events : list CastEvent) (t : Q) : list CastEvent :=
  filter (fun e => at_or_before t e = true) events.

Lemma played_take events t :
  in_order events -> played events t = take (length (played events t)) events.
Proof.
  intros Hs. induction Hs as [|e events Hs IH Hall]; [done|]. unfold played in *. rewrite filter_cons.
  case_decide as Ht; [simpl; by f_equal|].
  assert (filter (fun e => at_or_before t e = true) events = []) as ->; [|done].
  clear IH Hs. induction Hall as [|x events Hx Hall IH]; [done|]. rewrite filter_cons_False; [done|].
  unfold at_or_before, by_time in *. rewrite Qle_bool_iff in *. intros Hle. apply Ht. lra.
Qed.

Lemma played_lookup events t i e :
  in_order events -> events !! i = Some e ->
  at_or_before t e = true <-> (i < length (played events t))%nat.
Proof.
  intros Hs. revert i. induction Hs as [|x events Hs IH Hall]; intros i Hi; [done|].
  unfold played in *. rewrite filter_cons. destruct i as [|i]; simpl in Hi.
  - injection Hi as ->. case_decide as Ht; simpl; [split; [lia|done]|]. split; [done|].
    intros Hlt.
    destruct (filter _ events) as [|y l] eqn:Hf; [simpl in Hlt; lia|].
    assert (y ∈ filter (fun e => at_or_before t e = true) events) as Hy by (rewrite Hf; left).
    apply list_elem_of_filter in Hy as [Hy Hin]. rewrite Forall_forall in Hall.
    specialize (Hall y Hin). unfold at_or_before, by_time in *. rewrite Qle_bool_iff in *. lra.
  - rewrite (IH i Hi). case_decide as Ht; simpl; [lia|]. split; [|lia].
    intros Hlt. exfalso. apply Ht. apply (IH i Hi) in Hlt.
    rewrite Forall_forall in Hall. specialize (Hall e (list_elem_of_lookup_2 _ _ _ Hi)).
    unfold at_or_before, by_time in *. rewrite Qle_bool_iff in *. lra.
Qed.

Lemma index_loop_spec events t fuel low high found :
  in_order events -> 0 <= low -> high < Z.of_nat (length events) ->
  found = low - 1 ->
  low <= Z.of_nat (length (played events t)) <= high + 1 ->
  (Z.to_nat (high - low + 1) < fuel)%nat ->
  index_loop fuel events t low high found = Z.of_nat (length (played events t)) - 1.
Proof.
  intros Hs. revert low high found. induction fuel as [|fuel IH]; intros low high found Hl Hh -> Hc Hf; [lia|].
  simpl. destruct (Z.leb_spec low high); [|lia].
  rewrite Z.shiftr_div_pow2 by lia. change (2 ^ 1) with 2.
  assert (low <= (low + high) / 2 <= high) as Hm.
  { split; [apply Z.div_le_lower_bound|apply Z.div_le_upper_bound]; lia. }
  destruct (events !! Z.to_nat ((low + high) / 2)) as [e|] eqn:He; [|apply lookup_ge_None in He; lia].
  pose proof (played_lookup events t _ e Hs He) as Hp. unfold at_or_before in Hp.
  destruct (Qle_bool (ev_time e) t).
  - apply IH; lia.
  - apply IH; lia.
Qed.

Lemma indexAt_spec events t :
  in_order events -> indexAt events t = Z.of_nat (length (played events t)) - 1.
Proof.
  intros Hs. apply index_loop_spec; try lia; [done|]. split; [lia|].
  pose proof (length_filter (fun e => at_or_before t e = true) events). unfold played. lia.
Qed.

Lemma sliceUpTo_played events t : in_order events -> sliceUpTo events t = played events t.
Proof.
  intros Hs. unfold sliceUpTo, slice. rewrite indexAt_spec, drop_0 by done.
  rewrite (played_take events t) at 2 by done. f_equal. lia.
Qed.

Lemma played_mono events from to :
  (from <= to)%Q -> (length (played events from) <= length (played events to))%nat.
Proof.
  intros Hle. unfold played. induction events as [|e events IH]; [done|]. rewrite !filter_cons.
  unfold at_or_before in *. repeat case_decide; simpl; try lia.
  exfalso. rewrite Qle_bool_iff in *. lra.
Qed.

Lemma sliceBetween_spec events from to :
  in_order events -> (from < to)%Q ->
  sliceUpTo events from ++ sliceBetween events from to = sliceUpTo events to.
Proof.
  intros Hs Hlt. unfold sliceBetween.
  destruct (Qle_bool to from) eqn:Hle; [apply Qle_bool_iff in Hle; lra|].
  unfold sliceUpTo, slice. rewrite !indexAt_spec by done. rewrite !drop_0.
  pose proof (played_mono events from to ltac:(lra)) as Hm.
  set (a := length (played events from)) in *. set (b := length (played events to)) in *.
  replace (Z.to_nat (Z.of_nat a - 1 + 1) - 0)%nat with a by lia.
  replace (Z.to_nat (Z.of_nat b - 1 + 1) - 0)%nat with b by lia.
  replace (Z.to_nat (Z.of_nat a - 1 + 1)) with a by lia.
  replace (Z.to_nat (Z.of_nat b - 1 + 1)) with b by lia.
  rewrite <-(take_drop a (take b events)), take_take, Nat.min_l by lia. f_equal.
  by rewrite skipn_firstn_comm.
Qed.

(** The slices of successive frames. *)
Fixpoint frames (events : list CastEvent) (from : Q) (ts : list Q) : list CastEvent :=
  match ts with
  | [] => []
  | t :: ts => sliceBetween events from t ++ frames events t ts
  end.

(** The binary search replays exactly the events at or before the time
    sought, as a scan of all of them would, and frames at advancing times
    play every event between the first and the last once, in order. *)
Theorem frames_tile events from ts :
  in_order events -> StronglySorted Qlt (from :: ts) ->
  sliceUpTo events from = played events from /\
  played events from ++ frames events from ts = played events (default from (last ts)).
Proof.
  intros Hs Hts. split; [by apply sliceUpTo_played|]. revert from Hts.
  induction ts as [|t ts IH]; intros from Hts; [by rewrite app_nil_r|].
  apply StronglySorted_inv in Hts as [Hts Hall]. apply Forall_cons in Hall as [Hlt _].
  cbn [frames]. rewrite app_assoc, <-sliceUpTo_played by done.
  rewrite sliceBetween_spec, sliceUpTo_played by done. rewrite IH by done.
  rewrite !last_cons. by destruct (last ts).
Qed.

(** ** Squashing idle time *)

Fixpoint gaps (previous : Q) (events : list CastEvent) : list Q :=
  match events with
  | [] => []
  | e :: events => (ev_time e - previous)%Q :: gaps (ev_time e) events
  end.

Lemma squash_gaps limit previous shift events :
  Forall2 Qeq (gaps (previous - shift) (squash_loop limit previous shift events))
    (map (fun gap => if Qle_bool gap limit then gap else limit) (gaps previous events)).
Proof.
  revert previous shift. induction events as [|e events IH]; intros previous shift; [constructor|].
  simpl. constructor; [|apply IH].
  destruct (Qle_bool (ev_time e - previous) limit); ring.
Qed.

(** Squashing keeps every event and its data, and turns every pause
    longer than the limit into one of exactly the limit, shorter ones as they
    were. *)
Theorem squash_caps_gaps events limit :
  (0 < limit)%Q ->
  map ev_data (squashIdle events limit) = map ev_data events /\
  map ev_type (squashIdle events limit) = map ev_type events /\
  Forall2 Qeq (gaps 0 (squashIdle events limit))
    (map (fun gap => if Qle_bool gap limit then gap else limit) (gaps 0 events)).
Proof.
  intros Hl. unfold squashIdle.
  destruct (Qle_bool limit 0) eqn:Hle; [apply Qle_bool_iff in Hle; lra|].
  assert (forall p s, map ev_data (squash_loop limit p s events) = map ev_data events /\
    map ev_type (squash_loop limit p s events) = map ev_type events) as Hmap.
  { clear. induction events as [|e events IH]; intros p s; [done|]. simpl.
    split; f_equal; apply IH. }
  destruct (Hmap 0%Q 0%Q). split_and!; [done..|].
  pose proof (squash_gaps limit 0 0 events) as Hg.
  assert (forall p q l, (p == q)%Q -> Forall2 Qeq (gaps p l) (gaps q l)) as Hp.
  { intros p q [|e l] Heq; constructor; [by rewrite Heq|].
    generalize (ev_time e). induction l as [|x l IH]; intros y; constructor; [done|apply IH]. }
  pose proof (Hp 0%Q (0 - 0)%Q (squash_loop limit 0 0 events) ltac:(ring)) as Hp0.
  clear Hp Hmap. revert Hp0 Hg. generalize (gaps (0 - 0) (squash_loop limit 0 0 events)) as mid.
  generalize (gaps 0 (squash_loop limit 0 0 events)) as a.
  generalize (map (fun gap => if Qle_bool gap limit then gap else limit) (gaps 0 events)) as c.
  intros c a mid Ha. revert c. induction Ha as [|x y a mid Hxy Ha IH]; intros c Hc; inversion Hc; subst; constructor.
  - by etrans.
  - by apply IH.
Qed.

(** ** An executable instance

    A value as the bits of its number in stdpp's enumeration of trees, closed
    by a letter: not JSON's grammar, but what its laws ask for. *)

Module CastToy.
Abbreviation leaf := (bool + (Z * positive + list Z))%type.

Fixpoint to_tree (v : Json) : countable.gen_tree leaf :=
  match v with
  | JNull => countable.GenNode 0 []
  | JBool b => countable.GenLeaf (inl b)
  | JNumber q => countable.GenLeaf (inr (inl (Qnum q, Qden q)))
  | JString s => countable.GenLeaf (inr (inr s))
  | JArray l => countable.GenNode 1 (map to_tree l)
  | JObject fields =>
      countable.GenNode 2 (map (fun kv =>
        countable.GenNode 3 [countable.GenLeaf (inr (inr kv.1)); to_tree kv.2]) fields)
  end.

Fixpoint from_tree (t : countable.gen_tree leaf) : Json :=
  match t with
  | countable.GenLeaf (inl b) => JBool b
  | countable.GenLeaf (inr (inl (n, d))) => JNumber (Qmake n d)
  | countable.GenLeaf (inr (inr s)) => JString s
  | countable.GenNode 1 l => JArray (map from_tree l)
  | countable.GenNode 2 l =>
      JObject (map (fun t => match t with
        | countable.GenNode 3 [countable.GenLeaf (inr (inr k)); v] => (k, from_tree v)
        | _ => ([], JNull) end) l)
  | countable.GenNode _ _ => JNull
  end.

Fixpoint from_to_tree (v : Json) : from_tree (to_tree v) = v.
Proof.
  destruct v as [| |[n d]| |l|fields]; simpl; try done; f_equal.
  - induction l as [|v l IH]; [done|]. simpl. f_equal; [apply from_to_tree|apply IH].
  - induction fields as [|[k v] l IH]; [done|]. simpl. f_equal; [f_equal; apply from_to_tree|apply IH].
Qed.

Fixpoint bits (p : positive) : jstr :=
  match p with xH => [101] | xO p => 48 :: bits p | xI p => 49 :: bits p end.
Fixpoint unbits (s : jstr) : option positive :=
  match s with
  | [c] => if c =? 101 then Some xH else None
  | c :: s => if c =? 48 then xO <$> unbits s else if c =? 49 then xI <$> unbits s else None
  | [] => None
  end.

#[export] Instance toy_codec : JsonCodec := {
  stringify v := bits (encode (to_tree v));
  parse s := from_tree <$> (p ← unbits s; decode p);
}.

Lemma bits_cons p : exists c s, bits p = c :: s /\ is_space c = false.
Proof. destruct p; by do 2 eexists. Qed.

Lemma unbits_bits p : unbits (bits p) = Some p.
Proof.
  induction p as [p IH|p IH|]; [| |done]; simpl; rewrite IH;
    destruct (bits_cons p) as (c & s & -> & _); done.
Qed.

Lemma bits_torn p s : s `prefix_of` bits p -> s <> bits p -> unbits s = None.
Proof.
  revert s. induction p as [p IH|p IH|]; intros s Hp Hne; (destruct s as [|c s]; [done|]);
    pose proof (prefix_cons_inv_1 _ _ _ _ Hp) as ->; apply prefix_cons_inv_2 in Hp.
  - assert (unbits s = None) as Hn by (apply IH; [done|intros ->; by apply Hne]).
    destruct s as [|d s]; [done|]. cbn in *. by rewrite Hn.
  - assert (unbits s = None) as Hn by (apply IH; [done|intros ->; by apply Hne]).
    destruct s as [|d s]; [done|]. cbn in *. by rewrite Hn.
  - apply prefix_nil_inv in Hp as ->. done.
Qed.

Lemma trim_visible c s : is_space c = false -> trim (c :: s) <> [].
Proof.
  intros Hc. unfold trim, strip_end. cbn [drop_while]. rewrite Hc.
  assert (forall l, c ∈ l -> drop_while is_space l <> []) as Hd.
  { induction l as [|x l IH]; [by intros ?%not_elem_of_nil|]. intros [->|Hin]%elem_of_cons; simpl.
    - by rewrite Hc.
    - destruct (is_space x); [by apply IH|done]. }
  intros Hr. apply (Hd (reverse (c :: s))); [apply elem_of_reverse; left|].
  by rewrite <-(reverse_involutive (drop_while _ _)), Hr.
Qed.

#[export] Instance toy_laws : JsonLaws.
Proof.
  split.
  - intros v. cbn. rewrite unbits_bits. cbn. rewrite decode_encode. cbn. by rewrite from_to_tree.
  - intros v. cbn. generalize (encode (to_tree v)). induction p; cbn; set_solver.
  - intros v. cbn. destruct (bits_cons (encode (to_tree v))) as (c & s & -> & Hc). by apply trim_visible.
  - intros l p Hp Hne Hneq. cbn in *. split; [by rewrite (bits_torn _ _ Hp Hneq)|].
    destruct p as [|c p]; [done|]. apply trim_visible.
    destruct (bits_cons (encode (to_tree (JArray l)))) as (c' & s & Hb & Hc). cbn in Hb. rewrite Hb in Hp.
    by rewrite (prefix_cons_inv_1 _ _ _ _ Hp).
Qed.

Definition header : CastHeader := mkHeader 80 24 None (Some 2) (Some (js "work")) None.
Definition hello : CastEvent := mkEvent (1 # 2) output (js "hello").
Definition bye : CastEvent := mkEvent (7 # 2) output (js "bye").

Definition recording : jstr := encodeCast header [hello; bye].
(** All of the first event and a piece of the second. *)
Definition cut : jstr :=
  take (length (encodeHeader header) + length (encodeEvent hello) + 5) recording.

Lemma cut_anywhere_witness :
  parseCast cut = Ok (mkCast (header_json header) [rounded hello] true) /\
  exists k torn, cut = encodeHeader header ++ cast_body (take k [hello; bye]) ++ torn /\
    torn_at [hello; bye] k torn /\
    parseCast cut = Ok (mkCast (header_json header) (map rounded (take k [hello; bye]))
                          (bool_decide (1 < length torn)%nat)).
Proof.
  split; [vm_compute; reflexivity|].
  apply (cut_anywhere header [hello; bye] cut); [apply prefix_take|].
  apply (bool_decide_unpack _). vm_compute. exact I.
Defined.

Lemma frames_tile_witness :
  sliceUpTo [hello; bye] 1 = [hello] /\
  played [hello; bye] 1 ++ frames [hello; bye] 1 [2; 3; 4]%Q = [hello; bye].
Proof.
  assert (in_order [hello; bye]) as Ho by (repeat constructor; discriminate).
  assert (StronglySorted Qlt [1; 2; 3; 4]%Q) as Ht by (repeat constructor).
  destruct (frames_tile [hello; bye] 1 [2; 3; 4]%Q Ho Ht) as [H1 H2].
  split; [rewrite H1|rewrite H2]; vm_compute; reflexivity.
Defined.

Lemma squash_caps_gaps_witness :
  Forall2 Qeq (gaps 0 (squashIdle [hello; bye] 2)) [1 # 2; 2]%Q.
Proof. exact (proj2 (proj2 (squash_caps_gaps [hello; bye] 2 eq_refl))). Defined.
End CastToy.
