(* ===== verification/CastWriter.v ===== *)
(** * CastWriter: appending a recording as it happens

    [packages/cast/src/writer.ts].  The closure of [createCastWriter] is the
    record [CastWriter], from the moment the file is open; what is written to
    the stream is [cw_out].  The two readings of the clock an append makes are
    arguments. *)

From Stdlib Require Import QArith Qround Lqa.
From stdpp Require Import sorting.
From S2P Require Import Prelude Bytes Cast.

#[local] Open Scope Z_scope.

Inductive StopReason := requested | limit | error.

Record CastWriterOptions := mkWriterOptions {
  wo_cols : Z;
  wo_rows : Z;
  wo_title : option jstr;
  wo_term : option jstr;
  wo_idleTimeLimit : option Z;
  wo_maxBytes : option Z;
  wo_maxMs : option Z;
}.

Record CastWriter := mkWriter {
  cw_options : CastWriterOptions;
  cw_startedAt : Z;
  cw_bytes : Z;
  cw_events : Z;
  cw_stopped : bool;
  cw_stopReason : option StopReason;
  cw_cols : Z;
  cw_rows : Z;
  cw_closing : option StopReason;
  cw_out : list jstr;
}.

(** [Buffer.byteLength] of a string of UTF-16 units: a lone surrogate is
    written as the three bytes of U+FFFD. *)
Fixpoint byteLength (s : jstr) : Z :=
  match s with
  | [] => 0
  | c :: s' =>
      if c <? 128 then 1 + byteLength s'
      else if c <? 2048 then 2 + byteLength s'
      else
        match s' with
        | d :: s'' =>
            if (55296 <=? c) && (c <? 56320) && (56320 <=? d) && (d <? 57344)
            then 4 + byteLength s''
            else 3 + byteLength s'
        | [] => 3
        end
  end.

(** An option that is set and truthy. *)
Definition truthy_int (v : option Z) : option Z :=
  match v with Some 0 | None => None | Some n => Some n end.
Definition truthy_str (v : option jstr) : option jstr :=
  match v with Some [] | None => None | Some s => Some s end.

Definition writer_header (options : CastWriterOptions) (date : Z) : CastHeader :=
  mkHeader (wo_cols options) (wo_rows options) (Some (date / 1000))
    (truthy_int (wo_idleTimeLimit options)) (truthy_str (wo_title options)) (truthy_str (wo_term options)).

Section Writer.
Context `{!JsonCodec}.

Definition createCastWriter (options : CastWriterOptions) (startedAt date : Z) : CastWriter :=
  mkWriter options startedAt 0 0 false None (wo_cols options) (wo_rows options) None
    [encodeHeader (writer_header options date) ++ [NEWLINE]].

Definition elapsed (now : Z) (w : CastWriter) : Q :=
  formatTime ((now - cw_startedAt w) # 1000).

Definition append (e : CastEvent) (w : CastWriter) : CastWriter :=
  let line := encodeEvent e ++ [NEWLINE] in
  mkWriter (cw_options w) (cw_startedAt w) (cw_bytes w + byteLength line) (cw_events w + 1)
    (cw_stopped w) (cw_stopReason w) (cw_cols w) (cw_rows w) (cw_closing w) (cw_out w ++ [line]).

Definition overLimit (now : Z) (w : CastWriter) : bool :=
  match wo_maxBytes (cw_options w) with
  | Some maxBytes => maxBytes <=? cw_bytes w
  | None => false
  end
  || match wo_maxMs (cw_options w) with
     | Some maxMs => maxMs <=? now - cw_startedAt w
     | None => false
     end.

Definition stop (reason : StopReason) (w : CastWriter) : CastWriter * StopReason :=
  match cw_closing w with
  | Some closing => (w, closing)
  | None =>
      (mkWriter (cw_options w) (cw_startedAt w) (cw_bytes w) (cw_events w) true (Some reason)
         (cw_cols w) (cw_rows w) (Some reason) (cw_out w), reason)
  end.

Definition stop_if_over (later : Z) (w : CastWriter) : CastWriter :=
  if overLimit later w then (stop limit w).1 else w.

Definition write (data : jstr) (now later : Z) (w : CastWriter) : CastWriter :=
  if cw_stopped w || bool_decide (data = []) then w
  else stop_if_over later (append (mkEvent (elapsed now w) output data) w).

Definition with_size (cols rows : Z) (w : CastWriter) : CastWriter :=
  mkWriter (cw_options w) (cw_startedAt w) (cw_bytes w) (cw_events w) (cw_stopped w)
    (cw_stopReason w) cols rows (cw_closing w) (cw_out w).

Definition resize (cols rows : Z) (now later : Z) (w : CastWriter) : CastWriter :=
  if cw_stopped w then w
  else if (cols =? cw_cols w) && (rows =? cw_rows w) then w
  else
    let w := with_size cols rows w in
    stop_if_over later (append (mkEvent (elapsed now w) Cast.resize (encodeSize cols rows)) w).

(** ** Runs *)

Inductive WriterOp :=
| Write (data : jstr) (now later : Z)
| Resize (cols rows now later : Z)
| Stop (reason : StopReason).

Definition writer_step (w : CastWriter) (op : WriterOp) : CastWriter :=
  match op with
  | Write data now later => write data now later w
  | Resize cols rows now later => resize cols rows now later w
  | Stop reason => (stop reason w).1
  end.

Definition writer_run (options : CastWriterOptions) (startedAt date : Z) (ops : list WriterOp)
    : CastWriter :=
  foldl writer_step (createCastWriter options startedAt date) ops.

(** The clock of a run does not go back. *)
Definition op_now (op : WriterOp) : option Z :=
  match op with Write _ now _ | Resize _ _ now _ => Some now | Stop _ => None end.
Definition clock_ok (startedAt : Z) (ops : list WriterOp) : Prop :=
  StronglySorted Z.le (startedAt :: omap op_now ops).
End Writer.

(** ** Times *)

Lemma micros_pos : inject_Z (10 ^ TIME_PRECISION) == 1000000.
Proof. reflexivity. Qed.

Lemma formatTime_idem q : formatTime (formatTime q) = formatTime q.
Proof.
  unfold formatTime. set (n := Qfloor _) at 2. apply Qred_complete.
  assert (Qfloor (Qred (n # Z.to_pos (10 ^ TIME_PRECISION)) * inject_Z (10 ^ TIME_PRECISION) + (1 # 2)) = n) as ->;
    [|done].
  rewrite Qred_correct.
  assert ((n # Z.to_pos (10 ^ TIME_PRECISION)) * inject_Z (10 ^ TIME_PRECISION) == inject_Z n)%Q as ->.
  { change (Z.to_pos (10 ^ TIME_PRECISION)) with 1000000%positive.
    change (10 ^ TIME_PRECISION) with 1000000. unfold Qeq. simpl. lia. }
  apply Z.le_antisymm.
  - assert (inject_Z (Qfloor (inject_Z n + (1 # 2))) < inject_Z (n + 1))%Q as Hlt.
    { eapply Qle_lt_trans; [apply Qfloor_le|]. rewrite inject_Z_plus.
      change (inject_Z 1) with 1%Q. lra. }
    rewrite <-Zlt_Qlt in Hlt. lia.
  - rewrite <-(Qfloor_Z n) at 1. apply Qfloor_resp_le. lra.
Qed.

Lemma formatTime_mono p q : (p <= q)%Q -> (formatTime p <= formatTime q)%Q.
Proof.
  intros Hle. unfold formatTime. rewrite !Qred_correct.
  assert (Qfloor (p * inject_Z (10 ^ TIME_PRECISION) + (1 # 2))
    <= Qfloor (q * inject_Z (10 ^ TIME_PRECISION) + (1 # 2))) as Hf.
  { apply Qfloor_resp_le, Qplus_le_compat; [|lra]. apply Qmult_le_compat_r; [done|].
    rewrite micros_pos. lra. }
  revert Hf. generalize (Qfloor (p * inject_Z (10 ^ TIME_PRECISION) + (1 # 2))).
  generalize (Qfloor (q * inject_Z (10 ^ TIME_PRECISION) + (1 # 2))). intros a b Hab.
  unfold Qle. cbn [Qnum Qden]. by apply Z.mul_le_mono_nonneg_r.
Qed.

(** ** What a run leaves on disk *)

Section File.
Context `{!JsonCodec} (options : CastWriterOptions) (startedAt date : Z).
Hypothesis positive : forall m, wo_maxBytes options = Some m -> 0 < m.

Definition lines_bytes (events : list CastEvent) : Z :=
  foldr (fun e n => byteLength (encodeEvent e ++ [NEWLINE]) + n) 0 events.

Lemma lines_bytes_snoc events e :
  lines_bytes (events ++ [e]) = lines_bytes events + byteLength (encodeEvent e ++ [NEWLINE]).
Proof. induction events as [|x events IH]; simpl; [lia|]. unfold lines_bytes in *. simpl. lia. Qed.

Lemma encodeCast_snoc h events e :
  encodeCast h (events ++ [e]) = encodeCast h events ++ encodeEvent e ++ [NEWLINE].
Proof.
  rewrite !encodeCast_body. unfold cast_body. rewrite map_app, concat_app. simpl.
  by rewrite app_nil_r, <-!app_assoc.
Qed.

(** The events appended so far, at clock reading [now]. *)
Record written (now : Z) (w : CastWriter) (events : list CastEvent) : Prop := {
  wr_options : cw_options w = options;
  wr_started : cw_startedAt w = startedAt;
  wr_out : concat (cw_out w) = encodeCast (writer_header options date) events;
  wr_bytes : cw_bytes w = lines_bytes events;
  wr_events : cw_events w = Z.of_nat (length events);
  wr_rounded : map rounded events = events;
  wr_order : in_order events;
  wr_now : Forall (fun e => (ev_time e <= formatTime ((now - startedAt) # 1000))%Q) events;
  wr_running : cw_stopped w = false ->
    cw_closing w = None /\ forall m, wo_maxBytes options = Some m -> cw_bytes w < m;
  wr_stopped : cw_stopped w = true -> is_Some (cw_stopReason w) /\ cw_closing w = cw_stopReason w;
  wr_limit : forall m, wo_maxBytes options = Some m -> lines_bytes (removelast events) < m;
}.

Lemma written_create now : written now (createCastWriter options startedAt date) [].
Proof.
  split; simpl; try done.
  - by rewrite app_nil_r, encodeCast_body.
  - constructor.
Qed.

Lemma written_later now now' w events :
  now <= now' -> written now w events -> written now' w events.
Proof.
  intros Hle [H1 H2 H3 H4 H5 H6 H7 H8 H9 H10 H11]. split; try done.
  eapply Forall_impl; [exact H8|]. intros e He. simpl.
  eapply Qle_trans; [exact He|]. apply formatTime_mono. unfold Qle. simpl. lia.
Qed.

Lemma written_stop now w events reason : written now w events -> written now (stop reason w).1 events.
Proof.
  intros Hw. unfold stop. destruct (cw_closing w) eqn:Hc; [done|]. destruct Hw. split; try done.
Qed.

Lemma written_append now later w events ty data cols rows :
  written now w events -> cw_stopped w = false ->
  exists e, ev_type e = ty /\ ev_data e = data /\
  written now (stop_if_over later (append (mkEvent (elapsed now w) ty data) (with_size cols rows w)))
    (events ++ [e]).
Proof.
  intros [H1 H2 H3 H4 H5 H6 H7 H8 H9 H10 H11] Hrun. destruct (H9 Hrun) as [Hc Hb].
  exists (mkEvent (elapsed now w) ty data). split; [done|]. split; [done|].
  set (e := mkEvent _ _ _). set (w' := append e (with_size cols rows w)).
  assert (forall w2, cw_options w2 = cw_options w' -> cw_startedAt w2 = cw_startedAt w' ->
    cw_out w2 = cw_out w' -> cw_bytes w2 = cw_bytes w' -> cw_events w2 = cw_events w' ->
    (cw_stopped w2 = false -> cw_closing w2 = None /\ forall m, wo_maxBytes options = Some m -> cw_bytes w2 < m) ->
    (cw_stopped w2 = true -> is_Some (cw_stopReason w2) /\ cw_closing w2 = cw_stopReason w2) ->
    written now w2 (events ++ [e])) as written_but_over.
  { intros w2 Ho Hs Hout Hby Hev Hr Hst.
    split; rewrite ?Ho, ?Hs, ?Hout, ?Hby, ?Hev; try done;
      unfold w', append, with_size; cbn [cw_out cw_bytes cw_events].
    - rewrite concat_app, H3, encodeCast_snoc. simpl. by rewrite app_nil_r.
    - by rewrite H4, lines_bytes_snoc.
    - rewrite H5, length_app. simpl. lia.
    - rewrite map_app, H6. unfold e, rounded, elapsed. simpl. by rewrite formatTime_idem.
    - apply StronglySorted_app_2; [|done|by repeat constructor].
      intros x y Hx ->%list_elem_of_singleton. rewrite Forall_forall in H8. unfold by_time, e, elapsed.
      cbn [ev_time]. rewrite H2. by apply H8.
    - apply Forall_app. split; [done|]. constructor; [|done]. unfold e, elapsed. cbn [ev_time].
      rewrite H2. apply Qle_refl.
    - intros Hs2. destruct (Hr Hs2) as [Hcl Hm]. rewrite Hby in Hm. by split.
    - intros m Hm. rewrite removelast_last, <-H4. by apply Hb. }
  unfold stop_if_over, overLimit, stop.
  replace (cw_options w') with options by (by rewrite <-H1).
  replace (cw_closing w') with (@None StopReason) by (by rewrite <-Hc).
  destruct (_ || _) eqn:Hover.
  - apply written_but_over; done.
  - apply written_but_over; try done.
    + intros _. split; [done|]. intros m Hm. rewrite Hm in Hover.
      apply orb_false_iff in Hover as [Hlt _]. by apply Z.leb_gt in Hlt.
Qed.

(** What an operation appends: the data of a write that is not empty, a size
    that is new; nothing once stopped. *)
Definition appended (w : CastWriter) (op : WriterOp) : list (CastEventType * jstr) :=
  if cw_stopped w then []
  else
    match op with
    | Write data _ _ => match data with [] => [] | _ => [(output, data)] end
    | Resize cols rows _ _ =>
        if (cols =? cw_cols w) && (rows =? cw_rows w) then []
        else [(Cast.resize, encodeSize cols rows)]
    | Stop _ => []
    end.

Definition recorded (e : CastEvent) : CastEventType * jstr := (ev_type e, ev_data e).

Lemma written_step now now' w events op :
  written now w events -> now <= now' -> (forall n, op_now op = Some n -> now' = n) ->
  exists more, written now' (writer_step w op) (events ++ more) /\
    map recorded more = appended w op.
Proof.
  intros Hw Hle Hop. apply (written_later _ now') in Hw; [|done]. unfold appended.
  destruct op as [data n later|cols rows n later|reason]; simpl in *.
  - rewrite <-(Hop n eq_refl). unfold write. destruct (cw_stopped w) eqn:Hst.
    { exists []. by rewrite app_nil_r. }
    destruct data as [|c data]; [exists []; by rewrite app_nil_r|]. simpl.
    destruct (written_append now' later w events output (c :: data) (cw_cols w) (cw_rows w) Hw Hst)
      as (e & <- & Hd & Hw'). exists [e]. split; [|by unfold recorded; simpl; rewrite Hd].
    by destruct w.
  - rewrite <-(Hop n eq_refl). unfold resize. destruct (cw_stopped w) eqn:Hst.
    { exists []. by rewrite app_nil_r. }
    destruct (_ && _); [exists []; by rewrite app_nil_r|].
    destruct (written_append now' later w events Cast.resize (encodeSize cols rows) cols rows Hw Hst)
      as (e & <- & Hd & Hw'). exists [e]. by split; [|unfold recorded; simpl; rewrite Hd].
  - exists []. rewrite app_nil_r. split; [by apply written_stop|]. by destruct (cw_stopped w).
Qed.

Fixpoint all_appended (w : CastWriter) (ops : list WriterOp) : list (CastEventType * jstr) :=
  match ops with
  | [] => []
  | op :: ops => appended w op ++ all_appended (writer_step w op) ops
  end.

Lemma written_run ops : forall now w events,
  written now w events -> StronglySorted Z.le (now :: omap op_now ops) ->
  exists now' more, written now' (foldl writer_step w ops) (events ++ more) /\
    map recorded more = all_appended w ops.
Proof.
  induction ops as [|op ops IH]; intros now w events Hw Hs.
  { exists now, []. by rewrite app_nil_r. }
  set (now' := default now (op_now op)).
  assert (now <= now' /\ StronglySorted Z.le (now' :: omap op_now ops)) as [Hle Hs'].
  { unfold now'. simpl in Hs. destruct (op_now op) as [n|]; simpl in *; [|by split; [lia|]].
    apply StronglySorted_inv in Hs as [Hs Hall]. apply Forall_cons in Hall as [? _]. by split. }
  destruct (written_step now now' w events op Hw Hle) as (more & Hw' & Hmore).
  { intros n Hn. unfold now'. by rewrite Hn. }
  destruct (IH now' _ _ Hw' Hs') as (now2 & more2 & Hw2 & Hmore2).
  exists now2, (more ++ more2). rewrite app_assoc. split; [done|].
  by rewrite map_app, Hmore, Hmore2.
Qed.
End File.

(** However a recording is fed, the file on disk parses, unless torn, to
    exactly what was appended, in order of time; the counters agree with it,
    only its last line can cross the byte limit, and a writer that still runs
    is below it. *)
Theorem file_is_what_was_appended `{!JsonCodec, !JsonLaws} options startedAt date ops :
  (forall m, wo_maxBytes options = Some m -> 0 < m) -> clock_ok startedAt ops ->
  let w := writer_run options startedAt date ops in
  exists events,
    map recorded events = all_appended (createCastWriter options startedAt date) ops /\
    in_order events /\
    parseCast (concat (cw_out w)) =
      Ok (mkCast (header_json (writer_header options date)) events false) /\
    cw_events w = Z.of_nat (length events) /\ cw_bytes w = lines_bytes events /\
    forall m, wo_maxBytes options = Some m ->
      lines_bytes (removelast events) < m /\ (cw_stopped w = false -> cw_bytes w < m).
Proof.
  intros Hpos Hclock w.
  destruct (written_run options startedAt date ops startedAt _ []
    (written_create options startedAt date Hpos startedAt) Hclock) as (now & events & Hw & Hmap).
  rewrite app_nil_l in Hw. exists events. destruct Hw. split; [done|]. split; [done|]. split.
  { unfold w, writer_run. rewrite wr_out0, cast_roundtrip. simpl. by rewrite wr_rounded0. }
  split; [done|]. split; [done|]. intros m Hm. split; [by apply wr_limit0|].
  intros Hst. by apply (wr_running0 Hst).
Qed.

(** The first reason given is the one kept. *)
Lemma first_reason_stays `{!JsonCodec} reason reason' w :
  (stop reason' (stop reason w).1).2 = (stop reason w).2.
Proof. unfold stop at 2 3. destruct (cw_closing w) eqn:Hc; simpl; [|done]. unfold stop. by rewrite Hc. Qed.

Module WriterDemo.
Import CastToy.

Definition options : CastWriterOptions := mkWriterOptions 80 24 (Some (js "work")) None (Some 2) (Some 300) None.
Definition ops : list WriterOp :=
  [Write (js "a") 100 100; Resize 80 24 150 150; Resize 90 24 200 201; Write (js "b") 300 300;
   Stop requested; Write (js "c") 400 400].

Lemma file_is_what_was_appended_witness :
  exists events,
    map recorded events = [(output, js "a"); (Cast.resize, js "90x24")] /\
    parseCast (concat (cw_out (writer_run options 100 5000 ops))) =
    Ok (mkCast (header_json (writer_header options 5000)) events false) /\
    cw_stopReason (writer_run options 100 5000 ops) = Some limit.
Proof.
  assert (forall m, wo_maxBytes options = Some m -> 0 < m) as Hpos by (intros m [= <-]; lia).
  assert (clock_ok 100 ops) as Hc by (repeat constructor; lia).
  destruct (file_is_what_was_appended options 100 5000 ops Hpos Hc) as (events & Hm & _ & Hp & _).
  exists events. split; [rewrite Hm; vm_compute; reflexivity|]. split; [exact Hp|].
  vm_compute. reflexivity.
Defined.
End WriterDemo.
