(* ===== verification/Recordings.v ===== *)
(** * Recordings: the index of recordings and the recorder of the relay

    [apps/relay/src/recordings-index.ts], [apps/relay/src/recorder.ts], the
    row schema of [packages/protocol/src/recordings.ts] and the streaming of a
    recording in [apps/relay/src/message-router.ts].  The index file is the
    list of its rows.  [put], [patch] and [remove] load it, and save it a
    while later: each call is a job that has loaded or not.  A [start] and a
    [stop] are cut at their awaits too.  The pty, the FIFO and the tmux calls
    are outputs and outcomes; a recording object is kept in a heap under its
    id, since its callbacks outlive its entry in [active]. *)

From Stdlib Require Import QArith.
From S2P Require Import Prelude Bytes Grants Cast CastWriter.

#[local] Open Scope Z_scope.

(** ** Rows *)

Inductive RecordingTarget :=
| SessionTarget (session : jstr)
| PaneTarget (session paneId : jstr).
#[export] Instance RecordingTarget_eq_dec : EqDecision RecordingTarget.
Proof. solve_decision. Defined.

Inductive RecordingStopReason := by_request | by_limit | by_end | by_interruption | by_error.
#[export] Instance RecordingStopReason_eq_dec : EqDecision RecordingStopReason.
Proof. solve_decision. Defined.

Record RecordingInfo := mkRecording {
  ri_id : string;
  ri_filename : jstr;
  ri_target : RecordingTarget;
  ri_title : jstr;
  ri_cols : Z;
  ri_rows : Z;
  ri_startedAt : Z;
  ri_endedAt : option Z;
  ri_bytes : Z;
  ri_events : Z;
  ri_truncated : bool;
  ri_stopReason : option RecordingStopReason;
}.

Definition isRecordingLive (r : RecordingInfo) : bool := bool_decide (ri_endedAt r = None).

Definition MAX_TOTAL_BYTES : Z := 1024 * 1024 * 1024.
Definition MAX_RECORDING_BYTES : Z := 16 * 1024 * 1024.
Definition MAX_RECORDING_MS : Z := 4 * 60 * 60 * 1000.
Definition IDLE_TIME_LIMIT_SECONDS : Z := 2.

(** ** Names *)

Definition ID_ALPHABET : jstr := js "abcdefghijklmnopqrstuvwxyz234567".

Definition newRecordingId (random : bytes) : jstr :=
  js "rec_" ++ map (fun b => default 0 (ID_ALPHABET !! Z.to_nat (b mod 32))) random.

(** [[A-Za-z0-9_-]]. *)
Definition is_slug (c : Z) : bool := is_b64url c.

(** [s.replace("T", "-")]: the first one. *)
Fixpoint replace_first (from to : Z) (s : jstr) : jstr :=
  match s with
  | [] => []
  | c :: s => if c =? from then to :: s else c :: replace_first from to s
  end.

Definition slug_bool (c : Z) : Prop := is_slug c = true.
Definition not_date_sep (c : Z) : Prop := c <> 45 /\ c <> 58.
#[export] Instance slug_bool_dec c : Decision (slug_bool c).
Proof. unfold slug_bool. apply _. Defined.
#[export] Instance not_date_sep_dec c : Decision (not_date_sep c).
Proof. unfold not_date_sep. apply _. Defined.

(** [iso] is [at.toISOString()]. *)
Definition recordingFilename (id label iso : jstr) : jstr :=
  let stamp := slice 0 15 (replace_first 84 45 (filter not_date_sep iso)) in
  let slug := match slice 0 32 (filter slug_bool label) with [] => js "session" | s => s end in
  stamp ++ js "-" ++ slug ++ js "-" ++ id ++ js ".cast".

(** [/^[A-Za-z0-9._/-]+$/]. *)
Definition is_safe (c : Z) : bool := is_slug c || (c =? 46) || (c =? 47).

Inductive RecordingError :=
| ALREADY_RECORDING | SESSION_NOT_FOUND | UNSAFE_PATH | CaptureFailed.

Definition assertShellSafePath (path : jstr) : result RecordingError unit :=
  if bool_decide (path <> []) && forallb is_safe path then Ok tt else Err UNSAFE_PATH.

(** ** The index *)

Definition index_get (id : string) (rows : list RecordingInfo) : option RecordingInfo :=
  find (fun r => bool_decide (ri_id r = id)) rows.

Definition other_row (id : string) (r : RecordingInfo) : Prop := ri_id r <> id.
#[export] Instance other_row_dec id r : Decision (other_row id r).
Proof. unfold other_row. apply _. Defined.

Definition put (recording : RecordingInfo) (rows : list RecordingInfo) : list RecordingInfo :=
  filter (other_row (ri_id recording)) rows ++ [recording].

(** The fields a [stop] changes. *)
Record Changes := mkChanges {
  cg_endedAt : Z; cg_bytes : Z; cg_events : Z; cg_stopReason : RecordingStopReason;
}.
Definition apply_changes (c : Changes) (r : RecordingInfo) : RecordingInfo :=
  mkRecording (ri_id r) (ri_filename r) (ri_target r) (ri_title r) (ri_cols r) (ri_rows r)
    (ri_startedAt r) (Some (cg_endedAt c)) (cg_bytes c) (cg_events c) (ri_truncated r)
    (Some (cg_stopReason c)).

(** [None]: no such row, and nothing is saved. *)
Definition patch (id : string) (changes : Changes) (rows : list RecordingInfo)
    : option (list RecordingInfo * RecordingInfo) :=
  existing ← index_get id rows;
  let updated := apply_changes changes existing in
  Some (map (fun r => if decide (ri_id r = id) then updated else r) rows, updated).

Definition remove (id : string) (rows : list RecordingInfo) : option (list RecordingInfo * RecordingInfo) :=
  existing ← index_get id rows;
  Some (filter (other_row id) rows, existing).

Definition startedRecording (id : string) (filename : jstr) (target : RecordingTarget) (title : jstr)
    (cols rows startedAt : Z) : RecordingInfo :=
  mkRecording id filename target title cols rows startedAt None 0 0 false None.

(** ** The startup sweep *)

Definition close_row (row : RecordingInfo) : RecordingInfo :=
  match ri_endedAt row with
  | Some _ => row
  | None =>
      mkRecording (ri_id row) (ri_filename row) (ri_target row) (ri_title row) (ri_cols row)
        (ri_rows row) (ri_startedAt row) (Some (ri_startedAt row)) (ri_bytes row) (ri_events row)
        true (Some by_interruption)
  end.

Fixpoint keep_loop (maxTotalBytes total : Z) (kept evicted rows : list RecordingInfo)
    : list RecordingInfo * list RecordingInfo :=
  match rows with
  | [] => (kept, evicted)
  | row :: rows =>
      if (maxTotalBytes <? total + ri_bytes row) && bool_decide (kept <> [])
      then keep_loop maxTotalBytes total kept (evicted ++ [row]) rows
      else keep_loop maxTotalBytes (total + ri_bytes row) (kept ++ [row]) evicted rows
  end.

Definition sweep_rows (maxTotalBytes : Z) (rows : list RecordingInfo)
    : list RecordingInfo * list RecordingInfo :=
  let newestFirst := sort_by (fun r => - ri_startedAt r) (map close_row rows) in
  keep_loop maxTotalBytes 0 [] [] newestFirst.

(** The rows saved, and the files deleted. *)
Definition sweepRecordings (maxTotalBytes : Z) (rows : list RecordingInfo)
    : list RecordingInfo * list jstr :=
  let '(kept, evicted) := sweep_rows maxTotalBytes rows in
  (sort_by ri_startedAt kept, map ri_filename evicted).

(** ** Who sees what *)

(** The row of a recording under way is the live object. *)
Definition live_row (live : list RecordingInfo) (r : RecordingInfo) : RecordingInfo :=
  default r (index_get (ri_id r) live).
Definition allowed_row (grant : GrantRecord) (r : RecordingInfo) : Prop :=
  allowsRecording grant (ri_id r) = true.
#[export] Instance allowed_row_dec grant r : Decision (allowed_row grant r).
Proof. unfold allowed_row. apply _. Defined.
Definition visibleRecordings (grant : GrantRecord) (rows live : list RecordingInfo)
    : list RecordingInfo :=
  filter (allowed_row grant) (map (live_row live) rows).

Definition visibleRecording (grant : GrantRecord) (id : string) (rows : list RecordingInfo)
    : option RecordingInfo :=
  if negb (allowsRecording grant id) then None else index_get id rows.

Definition RECORDING_CHUNK_BYTES : nat := 64 * 1024.

Record Chunk := mkChunk { ck_offset : nat; ck_data : bytes; ck_totalBytes : nat; ck_final : bool }.

(** The loop of [streamRecording] on a file that holds still; [fuel] bounds
    its turns. *)
Fixpoint stream_loop (fuel : nat) (content : bytes) (total position : nat) : list Chunk :=
  match fuel with
  | O => []
  | S fuel =>
      let data := take RECORDING_CHUNK_BYTES (drop position content) in
      let bytesRead := length data in
      let final := (total <=? position + bytesRead)%nat in
      let position' := (position + bytesRead)%nat in
      mkChunk position data total final
        :: (if final then [] else if (position' <? total)%nat
            then stream_loop fuel content total position' else [])
  end.

Definition streamRecording (content : bytes) (offset : nat) : list Chunk :=
  let total := length content in
  stream_loop (S total) content total (Nat.min offset total).

(** ** The recorder *)

(** An [ActiveRecording], with the timer that polls the size. *)
Record Recording := mkRec { rc_info : RecordingInfo; rc_writer : CastWriter; rc_poll : bool }.

(** A call of the index that is under way, with the rows it has loaded. *)
Inductive Job :=
| PutJob (id : string) (info : RecordingInfo)
| PatchJob (id : string) (changes : Changes)
| RemoveJob (id : string).

Record Recorder := mkRecorder {
  objects : gmap string Recording;
  active : list string;
  rows : list RecordingInfo;
  casts : gset jstr;
  starting : gmap nat (RecordingTarget * jstr);
  stopping : gmap nat (string * RecordingStopReason);
  jobs : gmap nat (Job * option (list RecordingInfo));
  nextJob : nat;
}.

Inductive RecorderOutput :=
| Refused (call : nat) (e : RecordingError)
| TornDown (id : string)
| Indexed (id : string)
| StoppedAs (row : option RecordingInfo)
| Unlinked (filename : jstr).

Definition no_recorder (rows : list RecordingInfo) : Recorder := mkRecorder ∅ [] rows ∅ ∅ ∅ ∅ 0.

Definition set_objects f s :=
  mkRecorder (f (objects s)) (active s) (rows s) (casts s) (starting s) (stopping s) (jobs s) (nextJob s).
Definition set_active a s :=
  mkRecorder (objects s) a (rows s) (casts s) (starting s) (stopping s) (jobs s) (nextJob s).
Definition set_rows r s :=
  mkRecorder (objects s) (active s) r (casts s) (starting s) (stopping s) (jobs s) (nextJob s).
Definition set_casts c s :=
  mkRecorder (objects s) (active s) (rows s) c (starting s) (stopping s) (jobs s) (nextJob s).
Definition set_starting f s :=
  mkRecorder (objects s) (active s) (rows s) (casts s) (f (starting s)) (stopping s) (jobs s) (nextJob s).
Definition set_stopping f s :=
  mkRecorder (objects s) (active s) (rows s) (casts s) (starting s) (f (stopping s)) (jobs s) (nextJob s).
Definition set_jobs f s :=
  mkRecorder (objects s) (active s) (rows s) (casts s) (starting s) (stopping s) (f (jobs s)) (nextJob s).

Definition add_job (j : Job) (s : Recorder) : Recorder :=
  mkRecorder (objects s) (active s) (rows s) (casts s) (starting s) (stopping s)
    (<[nextJob s := (j, None)]> (jobs s)) (S (nextJob s)).
Definition add_stopping (id : string) (reason : RecordingStopReason) (s : Recorder) : Recorder :=
  mkRecorder (objects s) (active s) (rows s) (casts s) (starting s)
    (<[nextJob s := (id, reason)]> (stopping s)) (jobs s) (S (nextJob s)).

Definition with_writer (f : CastWriter -> CastWriter) (r : Recording) : Recording :=
  mkRec (rc_info r) (f (rc_writer r)) (rc_poll r).
Definition with_poll (b : bool) (r : Recording) : Recording := mkRec (rc_info r) (rc_writer r) b.

Definition listActive (s : Recorder) : list RecordingInfo :=
  omap (fun id => rc_info <$> objects s !! id) (active s).
Definition isRecording (id : string) (s : Recorder) : bool := bool_decide (id ∈ active s).

Definition same_target (target t : RecordingTarget) : bool :=
  match t, target with
  | SessionTarget s, SessionTarget s' => bool_decide (s = s')
  | PaneTarget _ p, PaneTarget _ p' => bool_decide (p = p')
  | _, _ => false
  end.
Definition activeFor (target : RecordingTarget) (s : Recorder) : option RecordingInfo :=
  find (fun r => same_target target (ri_target r)) (listActive s).

Definition target_session (t : RecordingTarget) : jstr :=
  match t with SessionTarget s | PaneTarget s _ => s end.

Definition not_id (id x : string) : Prop := x <> id.
#[export] Instance not_id_dec id x : Decision (not_id id x).
Proof. unfold not_id. apply _. Defined.
Definition drop_active (id : string) (s : Recorder) : Recorder :=
  set_active (filter (not_id id) (active s)) s.

Section Recorder.
Context `{!JsonCodec}.

(** [start], up to its first await. *)
Definition start_call (call : nat) (target : RecordingTarget) (title : jstr) (s : Recorder)
    : Recorder * list RecorderOutput :=
  match activeFor target s with
  | Some _ => (s, [Refused call ALREADY_RECORDING])
  | None => (set_starting <[call := (target, title)]> s, [])
  end.

(** [start], from the answers of tmux to the capture: [id] and [iso] name the
    file, which is opened exclusively. *)
Definition start_opened (call : nat) (exists_ : bool) (id : string) (iso : jstr) (cols rows : Z)
    (now date : Z) (s : Recorder) : Recorder * list RecorderOutput :=
  match starting s !! call with
  | None => (s, [])
  | Some (target, title) =>
      let s := set_starting (delete call) s in
      if negb exists_ then (s, [Refused call SESSION_NOT_FOUND])
      else
        let title := match trim title with [] => target_session target | t => t end in
        let filename := recordingFilename (js id) (target_session target) iso in
        if decide (filename ∈ casts s) then (s, [Refused call CaptureFailed])
        else
          let options := mkWriterOptions cols rows (Some title) (Some (js "xterm-256color"))
            (Some IDLE_TIME_LIMIT_SECONDS) (Some MAX_RECORDING_BYTES) (Some MAX_RECORDING_MS) in
          let info := startedRecording id filename target title cols rows date in
          let recording := mkRec info (createCastWriter options now date) false in
          (set_casts ({[filename]} ∪ casts s)
             (set_objects <[id := recording]> (set_active (active s ++ [id]) s)), [])
  end.

(** [start], after the capture: indexed if it works, undone if not. *)
Definition start_captured (call : nat) (id : string) (ok : bool) (s : Recorder)
    : Recorder * list RecorderOutput :=
  match objects s !! id with
  | None => (s, [])
  | Some recording =>
      if ok then (add_job (PutJob id (rc_info recording)) s, [])
      else
        (add_job (RemoveJob id)
           (set_objects (alter (with_writer (fun w => (stop error w).1)) id) (drop_active id s)),
         [Refused call CaptureFailed])
  end.

(** [stop], up to its first await. *)
Definition stop_call (id : string) (reason : RecordingStopReason) (s : Recorder)
    : Recorder * list RecorderOutput :=
  if negb (isRecording id s) then (s, [StoppedAs (index_get id (rows s))])
  else
    (add_stopping id reason (set_objects (alter (with_poll false) id) (drop_active id s)), [TornDown id]).

Definition stop_if_full (id : string) (s : Recorder) : Recorder * list RecorderOutput :=
  match objects s !! id with
  | Some r => if cw_stopped (rc_writer r) then stop_call id by_limit s else (s, [])
  | None => (s, [])
  end.

(** The pty or the FIFO has data. *)
Definition on_data (id : string) (data : jstr) (now later : Z) (s : Recorder)
    : Recorder * list RecorderOutput :=
  stop_if_full id (set_objects (alter (with_writer (write data now later)) id) s).

(** The frame a pane's capture starts with. *)
Definition first_frame (id : string) (screen : jstr) (now later : Z) (s : Recorder)
    : Recorder * list RecorderOutput :=
  (set_objects (alter (with_writer (write ([27; 91; 72; 27; 91; 50; 74] ++ screen) now later)) id) s, []).

(** The poll's timer, while it is set. *)
Definition on_poll (id : string) (cols rows now later : Z) (s : Recorder)
    : Recorder * list RecorderOutput :=
  match objects s !! id with
  | Some r =>
      if rc_poll r
      then stop_if_full id (set_objects (alter (with_writer (resize cols rows now later)) id) s)
      else (s, [])
  | None => (s, [])
  end.

Definition of_writer (r : StopReason) : RecordingStopReason :=
  match r with requested => by_request | limit => by_limit | error => by_error end.

(** [stop], once the capture is torn down: the writer, then the index. *)
Definition stop_closing (call : nat) (date : Z) (s : Recorder) : Recorder * list RecorderOutput :=
  match stopping s !! call with
  | None => (s, [])
  | Some (id, reason) =>
      let s := set_stopping (delete call) s in
      match objects s !! id with
      | None => (s, [])
      | Some r =>
          let w := rc_writer r in
          let stopReason :=
            if cw_stopped w then default reason (of_writer <$> cw_stopReason w) else reason in
          let w := (stop (if decide (stopReason = by_limit) then limit else requested) w).1 in
          (add_job (PatchJob id (mkChanges date (cw_bytes w) (cw_events w) stopReason))
             (set_objects (alter (with_writer (fun _ => w)) id) s), [])
      end
  end.

Definition job_load (j : nat) (s : Recorder) : Recorder * list RecorderOutput :=
  match jobs s !! j with
  | Some (job, None) => (set_jobs <[j := (job, Some (rows s))]> s, [])
  | _ => (s, [])
  end.

Definition job_save (j : nat) (s : Recorder) : Recorder * list RecorderOutput :=
  match jobs s !! j with
  | Some (job, Some loaded) =>
      let s := set_jobs (delete j) s in
      match job with
      | PutJob id info =>
          (set_objects (alter (with_poll true) id) (set_rows (put info loaded) s), [Indexed id])
      | PatchJob id changes =>
          match patch id changes loaded with
          | Some (saved, row) => (set_rows saved s, [StoppedAs (Some row)])
          | None => (s, [StoppedAs None])
          end
      | RemoveJob id =>
          match remove id loaded with
          | Some (saved, row) =>
              (set_casts (casts s ∖ {[ri_filename row]}) (set_rows saved s), [Unlinked (ri_filename row)])
          | None => (s, [])
          end
      end
  | _ => (s, [])
  end.

Inductive RecorderEvent :=
| StartCall (call : nat) (target : RecordingTarget) (title : jstr)
| StartOpened (call : nat) (exists_ : bool) (id : string) (iso : jstr) (cols rows now date : Z)
| StartCaptured (call : nat) (id : string) (ok : bool)
| FirstFrame (id : string) (screen : jstr) (now later : Z)
| Data (id : string) (data : jstr) (now later : Z)
| Poll (id : string) (cols rows now later : Z)
| StopCall (id : string) (reason : RecordingStopReason)
| StopClosing (call : nat) (date : Z)
| RemoveCall (id : string)
| JobLoad (j : nat)
| JobSave (j : nat).

Definition recorder_step (s : Recorder) (e : RecorderEvent) : Recorder * list RecorderOutput :=
  match e with
  | StartCall call target title => start_call call target title s
  | StartOpened call b id iso cols rows now date => start_opened call b id iso cols rows now date s
  | StartCaptured call id ok => start_captured call id ok s
  | FirstFrame id screen now later => first_frame id screen now later s
  | Data id data now later => on_data id data now later s
  | Poll id cols rows now later => on_poll id cols rows now later s
  | StopCall id reason => stop_call id reason s
  | StopClosing call date => stop_closing call date s
  | RemoveCall id => (add_job (RemoveJob id) s, [])
  | JobLoad j => job_load j s
  | JobSave j => job_save j s
  end.

Fixpoint recorder_run (s : Recorder) (es : list RecorderEvent) : Recorder * list RecorderOutput :=
  match es with
  | [] => (s, [])
  | e :: es =>
      let '(s, out) := recorder_step s e in
      let '(s, outs) := recorder_run s es in (s, out ++ outs)
  end.

(** [stopAll]: one [stop] per recording under way. *)
Definition stopAll (reason : RecordingStopReason) (s : Recorder) : list RecorderEvent :=
  map (fun id => StopCall id reason) (active s).
End Recorder.
