(* ===== verification/RecordingsSafety.v ===== *)
(** * RecordingsSafety: what the recordings of a machine keep to

    Names that are safe in a shell command, a sweep that keeps to its budget,
    a stream that is the file, a recording torn down once; and runs of the
    recorder in which calls of the index overtake each other. *)

From Stdlib Require Import QArith.
From S2P Require Import Prelude Bytes Grants Cast CastWriter Recordings.

#[local] Open Scope Z_scope.

(** ** Names *)

(** What a name is made of: no separator among it. *)
Definition is_name (c : Z) : bool := is_slug c || (c =? 46).

Abbreviation all_name s := (Forall (fun c => is_name c = true) s).
Abbreviation all_safe s := (Forall (fun c => is_safe c = true) s).

Lemma is_name_safe c : is_name c = true -> is_safe c = true.
Proof. unfold is_safe, is_name. by intros ->. Qed.

Lemma is_slug_name c : is_slug c = true -> is_name c = true.
Proof. unfold is_name. by intros ->. Qed.

Lemma Forall_forallb {A} (p : A -> bool) l : Forall (fun x => p x = true) l <-> forallb p l = true.
Proof. rewrite forallb_forall, Forall_forall. by setoid_rewrite list_elem_of_In. Qed.

Lemma newRecordingId_name random : all_name (newRecordingId random).
Proof.
  unfold newRecordingId. apply Forall_app. split; [by apply Forall_forallb|].
  apply Forall_forall. intros c (b & -> & _)%list_elem_of_fmap.
  assert (all_name ID_ALPHABET) as Hall by (apply Forall_forallb; by vm_compute).
  assert (0 <= b mod 32 < 32) as Hb by (apply Z.mod_pos_bound; lia).
  destruct (ID_ALPHABET !! Z.to_nat (b mod 32)) as [c|] eqn:Hc.
  - rewrite Forall_lookup in Hall. by eapply Hall.
  - apply lookup_ge_None in Hc. change (length ID_ALPHABET) with 32%nat in Hc. lia.
Qed.

(** What [toISOString] is made of. *)
Definition is_iso (c : Z) : bool := is_digit c || bool_decide (c ∈ js "-:.TZ").

Lemma is_iso_name c : is_iso c = true -> not_date_sep c -> is_name c = true.
Proof.
  unfold is_iso, is_name, is_slug, is_b64url. intros [Hd|Hd]%orb_prop [Hm Hc].
  - by rewrite Hd, !orb_true_r.
  - apply bool_decide_eq_true in Hd. repeat (apply elem_of_cons in Hd as [->|Hd]); try done.
    by apply not_elem_of_nil in Hd.
Qed.

Lemma replace_first_name to s : is_name to = true -> all_name s -> all_name (replace_first 84 to s).
Proof.
  intros Ht Hs. induction Hs as [|c s Hc Hs IH]; simpl; [done|]. by case_match; constructor.
Qed.

Lemma slice_Forall {A} (P : A -> Prop) i j l : Forall P l -> Forall P (slice i j l).
Proof. intros Hl. by apply Forall_take, Forall_drop. Qed.

Lemma recordingFilename_name random label iso :
  Forall (fun c => is_iso c = true) iso ->
  all_name (recordingFilename (newRecordingId random) label iso).
Proof.
  intros Hiso. unfold recordingFilename.
  assert (all_name (slice 0 15 (replace_first 84 45 (filter not_date_sep iso)))) as Hstamp.
  { apply slice_Forall, replace_first_name; [done|]. apply Forall_forall.
    intros c [Hc Hin]%list_elem_of_filter. rewrite Forall_forall in Hiso. by apply is_iso_name; auto. }
  assert (all_name (slice 0 32 (filter slug_bool label))) as Hslug.
  { apply slice_Forall, Forall_forall. intros c [Hc _]%list_elem_of_filter. by apply is_slug_name. }
  assert (all_name (match slice 0 32 (filter slug_bool label) with [] => js "session" | s => s end)) as Hs.
  { destruct (slice 0 32 _); [apply Forall_forallb; by vm_compute|done]. }
  rewrite !Forall_app. split_and!; [done| |done| |apply newRecordingId_name|];
    apply Forall_forallb; by vm_compute.
Qed.

(** Whatever the session is called, the file name of a recording and of
    its FIFO hold no separator and only characters the shell takes as they
    are: below a safe directory [assertShellSafePath] accepts them. *)
Theorem filename_shell_safe random label iso dir suffix :
  Forall (fun c => is_iso c = true) iso -> all_safe dir -> suffix = [] \/ suffix = js ".pipe" ->
  let name := recordingFilename (newRecordingId random) label iso in
  47 ∉ name ++ suffix /\ assertShellSafePath (dir ++ [47] ++ name ++ suffix) = Ok tt.
Proof.
  intros Hiso Hdir Hsuffix name.
  assert (all_name (name ++ suffix)) as Hname.
  { apply Forall_app. split; [by apply recordingFilename_name|].
    destruct Hsuffix as [->| ->]; [done|]. apply Forall_forallb. by vm_compute. }
  split.
  - intros Hin. rewrite Forall_forall in Hname. by specialize (Hname _ Hin).
  - unfold assertShellSafePath. rewrite bool_decide_eq_true_2 by (by destruct dir).
    simpl andb. rewrite (proj1 (Forall_forallb _ _)); [done|].
    apply Forall_app. split; [done|]. constructor; [done|].
    eapply Forall_impl; [exact Hname|]. apply is_name_safe.
Qed.

(** ** The sweep *)

Definition bytes_of (rows : list RecordingInfo) : Z := foldr (fun r n => ri_bytes r + n) 0 rows.

Lemma bytes_of_app a b : bytes_of (a ++ b) = bytes_of a + bytes_of b.
Proof. induction a as [|r a IH]; simpl; [done|]. unfold bytes_of in *. simpl. lia. Qed.

Lemma bytes_of_perm a b : a ≡ₚ b -> bytes_of a = bytes_of b.
Proof. induction 1; unfold bytes_of in *; simpl; lia. Qed.

Lemma keep_loop_spec max rows : forall total kept evicted kept' evicted',
  keep_loop max total kept evicted rows = (kept', evicted') ->
  total = bytes_of kept -> Forall (fun r => 0 <= ri_bytes r) rows ->
  bytes_of kept <= max \/ length kept = 1%nat ->
  exists more out, kept' = kept ++ more /\ evicted' = evicted ++ out /\ rows ≡ₚ more ++ out /\
    (bytes_of kept' <= max \/ length kept' = 1%nat) /\
    (kept = [] -> take 1 kept' = take 1 rows) /\
    Forall (fun r => exists before, before `prefix_of` kept' /\ max < bytes_of before + ri_bytes r) out.
Proof.
  induction rows as [|row rows IH]; intros total kept evicted kept' evicted' He Ht Hb Hk; simpl in He.
  { injection He as <- <-. exists [], []. rewrite !app_nil_r. split_and!; try done. by intros ->. }
  apply Forall_cons in Hb as [Hr Hb].
  destruct ((max <? total + ri_bytes row) && bool_decide (kept <> [])) eqn:Hc.
  - apply andb_prop in Hc as [Hlt Hne]. apply bool_decide_eq_true in Hne. apply Z.ltb_lt in Hlt.
    destruct (IH _ _ _ _ _ He Ht Hb Hk) as (more & out & -> & -> & Hp & Hk' & _ & Hout).
    exists more, (row :: out). rewrite <-app_assoc. split_and!; try done.
    + rewrite Hp. apply Permutation_middle.
    + constructor; [|done]. exists kept. split; [by eexists|]. lia.
  - destruct (IH _ _ _ _ _ He) as (more & out & -> & -> & Hp & Hk' & _ & Hout).
    + rewrite bytes_of_app. simpl. lia.
    + done.
    + rewrite bytes_of_app, length_app. simpl. destruct kept as [|x kept]; [right; done|left].
      apply andb_false_iff in Hc as [Hc|Hc]; [|done]. apply Z.ltb_ge in Hc. simpl in *. lia.
    + rewrite <-app_assoc in *. exists (row :: more), out.
      split_and!; try done; [by rewrite Hp|by intros ->].
Qed.

(** The sweep closes every row left open, loses none, keeps the newest
    and what fits of the rest: the kept ones fit the budget unless it is the
    newest alone, and whatever is dropped would not have fitted after the
    newer ones kept before it; the files dropped are those rows'. *)
Theorem sweep_keeps_to_budget max rows :
  Forall (fun r => 0 <= ri_bytes r) rows -> 0 <= max ->
  let newest := sort_by (fun r => - ri_startedAt r) (map close_row rows) in
  exists kept dropped,
    sweepRecordings max rows = (sort_by ri_startedAt kept, map ri_filename dropped) /\
    kept ++ dropped ≡ₚ map close_row rows /\
    Forall (fun r => is_Some (ri_endedAt r)) (kept ++ dropped) /\
    (bytes_of kept <= max \/ length kept = 1%nat) /\ take 1 kept = take 1 newest /\
    Forall (fun r => exists before, before `prefix_of` kept /\ max < bytes_of before + ri_bytes r) dropped.
Proof.
  intros Hb Hmax newest. unfold sweepRecordings, sweep_rows. fold newest.
  destruct (keep_loop max 0 [] [] newest) as [kept dropped] eqn:He.
  assert (newest ≡ₚ map close_row rows) as Hperm by apply sort_by_perm.
  destruct (keep_loop_spec max newest 0 [] [] kept dropped He eq_refl) as (more & out & Hk & Hd & Hp & Hfit & Hnew & Hout).
  { rewrite Hperm. apply Forall_fmap. eapply Forall_impl; [exact Hb|]. intros r Hr. unfold compose, close_row.
    by destruct (ri_endedAt r). }
  { left. simpl. lia. }
  simpl in Hk, Hd. subst more out. exists kept, dropped. split_and!; try done; [by rewrite <-Hp| |by apply Hnew].
  rewrite <-Hp, Hperm. apply Forall_fmap, Forall_forall. intros r _. unfold compose, close_row.
  destruct (ri_endedAt r) eqn:Hr; [by rewrite Hr|]. by eexists.
Qed.

(** ** Streaming *)

Lemma stream_loop_all fuel content position :
  (position <= length content)%nat -> (length content - position < fuel)%nat ->
  concat (map ck_data (stream_loop fuel content (length content) position)) = drop position content /\
  exists init last, stream_loop fuel content (length content) position = init ++ [last] /\
    ck_final last = true /\ Forall (fun c => ck_final c = false) init.
Proof.
  revert position. induction fuel as [|fuel IH]; intros position Hp Hf; [lia|].
  cbn [stream_loop map concat].
  assert (length (take RECORDING_CHUNK_BYTES (drop position content))
    = Nat.min RECORDING_CHUNK_BYTES (length content - position)) as Hlen
    by (by rewrite length_take, length_drop).
  rewrite Hlen. destruct (Nat.leb_spec (length content) (position + Nat.min RECORDING_CHUNK_BYTES (length content - position))) as [Hle|Hgt].
  - simpl. rewrite app_nil_r. split; [|by exists []; eexists]. apply take_ge. rewrite length_drop. lia.
  - assert (Nat.min RECORDING_CHUNK_BYTES (length content - position) = RECORDING_CHUNK_BYTES) as Hm by lia.
    rewrite Hm in Hgt |- *. rewrite (proj2 (Nat.ltb_lt _ _) Hgt).
    assert (0 < RECORDING_CHUNK_BYTES)%nat as Hpos by (unfold RECORDING_CHUNK_BYTES; lia).
    destruct (IH (position + RECORDING_CHUNK_BYTES)%nat) as [Hc (init & last & Heq & Hl & Hi)]; [lia|lia|].
    cbn [ck_data]. split.
    + rewrite Hc, <-drop_drop. apply take_drop.
    + rewrite Heq. exists (mkChunk position (take RECORDING_CHUNK_BYTES (drop position content)) (length content) false :: init), last.
      split_and!; [done|done|by constructor].
Qed.

(** A recording is streamed from the offset asked for to its end, and
    exactly the last chunk, one even for an empty file, says it is the last. *)
Theorem stream_is_the_file content offset :
  concat (map ck_data (streamRecording content offset)) = drop offset content /\
  exists init last, streamRecording content offset = init ++ [last] /\
    ck_final last = true /\ Forall (fun c => ck_final c = false) init.
Proof.
  unfold streamRecording.
  destruct (stream_loop_all (S (length content)) content (Nat.min offset (length content))) as [Hc Hl];
    [lia|lia|].
  split; [|exact Hl]. rewrite Hc. destruct (decide (offset <= length content)%nat).
  - by rewrite Nat.min_l.
  - rewrite Nat.min_r by lia. by rewrite !drop_ge by lia.
Qed.

(** ** A recording is torn down once *)

Definition is_teardown (id : string) (o : RecorderOutput) : bool :=
  match o with TornDown id' => bool_decide (id' = id) | _ => false end.
Definition teardown_of (id : string) (o : RecorderOutput) : Prop := is_teardown id o = true.
#[local] Instance teardown_of_dec id o : Decision (teardown_of id o).
Proof. unfold teardown_of. apply _. Defined.
Definition teardowns (id : string) (out : list RecorderOutput) : nat := length (filter (teardown_of id) out).

Section Once.
Context `{!JsonCodec}.

(** The ids drawn are new. *)
Definition fresh (s : Recorder) (e : RecorderEvent) : Prop :=
  match e with StartOpened _ _ id _ _ _ _ _ => objects s !! id = None | _ => True end.

Fixpoint fresh_run (s : Recorder) (es : list RecorderEvent) : Prop :=
  match es with
  | [] => True
  | e :: es => fresh s e /\ fresh_run (recorder_step s e).1 es
  end.

Record recorder_ok (s : Recorder) : Prop := {
  ok_nodup : NoDup (active s);
  ok_known : forall id, id ∈ active s -> is_Some (objects s !! id);
}.

(** Whether a recording can still be torn down. *)
Definition budget (s : Recorder) (id : string) : nat :=
  if decide (id ∈ active s) then 1 else if decide (objects s !! id = None) then 1 else 0.

Lemma teardowns_app id a b : teardowns id (a ++ b) = (teardowns id a + teardowns id b)%nat.
Proof. unfold teardowns. by rewrite filter_app, length_app. Qed.

Definition fine (s s' : Recorder) (out : list RecorderOutput) : Prop :=
  recorder_ok s' /\ forall id, (teardowns id out + budget s' id <= budget s id)%nat.

(** A step that keeps [active] and which ids have an object. *)
Lemma fine_same s s' out :
  recorder_ok s -> active s' = active s ->
  (forall id, objects s' !! id = None <-> objects s !! id = None) ->
  (forall id, teardowns id out = 0%nat) -> fine s s' out.
Proof.
  intros [Hnd Hk] Ha Ho Ht. split.
  - split; rewrite ?Ha; [done|]. intros id Hin%Hk. destruct (objects s' !! id) eqn:He; [by eexists|].
    apply Ho in He. rewrite He in Hin. by destruct Hin.
  - intros id. rewrite Ht. unfold budget. rewrite Ha. repeat case_decide; naive_solver lia.
Qed.

Lemma alter_none f id (m : gmap string Recording) x : alter f id m !! x = None <-> m !! x = None.
Proof. rewrite lookup_alter. case_decide; subst; destruct (m !! _); naive_solver. Qed.

Lemma fine_drop s id s' out :
  recorder_ok s -> id ∈ active s -> active s' = filter (not_id id) (active s) ->
  (forall x, objects s' !! x = None <-> objects s !! x = None) ->
  (forall x, teardowns x out <= if decide (x = id) then 1 else 0)%nat -> fine s s' out.
Proof.
  intros [Hnd Hk] Hin Ha Ho Ht. split.
  - split; rewrite ?Ha; [by apply NoDup_filter|]. intros x [_ Hx%Hk]%list_elem_of_filter.
    destruct (objects s' !! x) eqn:He; [by eexists|]. apply Ho in He. rewrite He in Hx. by destruct Hx.
  - intros x. specialize (Ht x). unfold budget. rewrite Ha.
    assert (x ∈ filter (not_id id) (active s) <-> x <> id /\ x ∈ active s) as Hf
      by (rewrite list_elem_of_filter; done).
    destruct (decide (x = id)) as [->|Hne].
    + rewrite (decide_False (P := id ∈ filter _ _)) by naive_solver.
      rewrite (decide_True (P := id ∈ active s)) by done.
      rewrite decide_False; [lia|]. intros Hn%Ho. apply Hk in Hin. rewrite Hn in Hin. by destruct Hin.
    + repeat case_decide; naive_solver lia.
Qed.

Lemma stop_call_fine id reason s :
  recorder_ok s -> fine s (stop_call id reason s).1 (stop_call id reason s).2.
Proof.
  intros Hok. unfold stop_call, isRecording. destruct (decide (id ∈ active s)) as [Hin|Hin].
  - rewrite bool_decide_eq_true_2 by done. apply (fine_drop s id); try done.
    + intros x. apply alter_none.
    + intros x. change (teardowns x [TornDown id] <= if decide (x = id) then 1 else 0)%nat.
      unfold teardowns. rewrite filter_cons.
      destruct (decide (x = id)) as [->|Hne]; [case_decide; simpl; lia|].
      rewrite decide_False; [done|]. unfold teardown_of, is_teardown.
      intros Heq%bool_decide_eq_true. congruence.
  - rewrite bool_decide_eq_false_2 by done. by apply fine_same.
Qed.

Lemma fine_trans s s1 s2 out : 
  active s1 = active s -> (forall id, objects s1 !! id = None <-> objects s !! id = None) ->
  fine s1 s2 out -> fine s s2 out.
Proof.
  intros Ha Ho [Hok Hb]. split; [done|]. intros id. etrans; [apply Hb|]. unfold budget. rewrite Ha.
  repeat case_decide; naive_solver lia.
Qed.
Lemma fine_full id s s1 :
  recorder_ok s -> active s1 = active s -> (forall x, objects s1 !! x = None <-> objects s !! x = None) ->
  fine s (stop_if_full id s1).1 (stop_if_full id s1).2.
Proof.
  intros Hok Ha Ho. assert (recorder_ok s1) as Hok1.
  { destruct Hok as [Hnd Hk]. split; rewrite ?Ha; [done|]. intros x Hx%Hk.
    destruct (objects s1 !! x) eqn:He; [by eexists|]. apply Ho in He. rewrite He in Hx. by destruct Hx. }
  unfold stop_if_full. destruct (objects s1 !! id) as [r|]; [|by apply fine_same].
  destruct (cw_stopped (rc_writer r)); [|by apply fine_same].
  eapply fine_trans; [done|done|]. by apply stop_call_fine.
Qed.

Lemma recorder_step_fine s e :
  recorder_ok s -> fresh s e -> fine s (recorder_step s e).1 (recorder_step s e).2.
Proof.
  intros Hok Hf. destruct e; simpl in *.
  - unfold start_call. destruct (activeFor _ _); by apply fine_same.
  - unfold start_opened. destruct (starting s !! call) as [[target title]|]; [|by apply fine_same].
    destruct exists_; [|by apply fine_same]. simpl. case_decide; [by apply fine_same|]. simpl.
    destruct Hok as [Hnd Hk].
    assert (id ∉ active s) as Hn by (intros Hin%Hk; rewrite Hf in Hin; by destruct Hin).
    split; [split; simpl|].
    + apply NoDup_app. split_and!; [done| |apply NoDup_singleton].
      by intros x Hx ->%list_elem_of_singleton.
    + intros x [Hx%Hk| ->%list_elem_of_singleton]%elem_of_app;
        [|rewrite lookup_insert_eq; by eexists].
      destruct (decide (x = id)) as [->|]; [rewrite lookup_insert_eq; by eexists|by rewrite lookup_insert_ne].
    + intros x. unfold budget, teardowns. simpl.
      destruct (decide (x = id)) as [->|Hne].
      * rewrite (decide_False (P := id ∈ active s)), (decide_True (P := objects s !! id = None)) by done.
        repeat case_decide; lia.
      * assert (x ∈ active s ++ [id] <-> x ∈ active s) as Hx
          by (rewrite elem_of_app, list_elem_of_singleton; naive_solver).
        rewrite lookup_insert_ne by done. repeat case_decide; naive_solver lia.
  - unfold start_captured. destruct (objects s !! id) as [r|] eqn:Ho; [|by apply fine_same].
    destruct ok; [by apply fine_same|].
    destruct (decide (id ∈ active s)) as [Hin|Hin].
    + apply (fine_drop s id); try done.
      * intros x. apply alter_none.
      * intros x. unfold teardowns. simpl. case_decide; lia.
    + apply fine_same; try done; [|intros x; apply alter_none]. simpl. apply filter_all.
      intros x Hx ->. done.
  - unfold first_frame. apply fine_same; try done. intros x. apply alter_none.
  - apply fine_full; try done. intros x. apply alter_none.
  - unfold on_poll. destruct (objects s !! id) as [r|]; [|by apply fine_same].
    destruct (rc_poll r); [|by apply fine_same]. apply fine_full; try done. intros x. apply alter_none.
  - by apply stop_call_fine.
  - unfold stop_closing. destruct (stopping s !! call) as [[id reason]|]; [|by apply fine_same].
    simpl. destruct (objects s !! id); [|by apply fine_same]. apply fine_same; try done.
    intros x. apply alter_none.
  - by apply fine_same.
  - unfold job_load. destruct (jobs s !! j) as [[job []]|]; by apply fine_same.
  - unfold job_save. destruct (jobs s !! j) as [[job [loaded|]]|]; [|by apply fine_same..].
    destruct job as [id info|id c|id].
    + apply fine_same; try done. intros x. apply alter_none.
    + destruct (patch _ _ _) as [[saved row]|]; by apply fine_same.
    + destruct (remove _ _) as [[saved row]|]; by apply fine_same.
Qed.

(** However starts, stops, data, polls and index calls interleave, the
    capture of a recording is torn down at most once. *)
Theorem torn_down_once s es id :
  recorder_ok s -> fresh_run s es ->
  (teardowns id (recorder_run s es).2 <= 1)%nat.
Proof.
  intros Hok Hf. enough (teardowns id (recorder_run s es).2 <= budget s id)%nat as Hle.
  { etrans; [exact Hle|]. unfold budget. repeat case_decide; lia. }
  revert s Hok Hf. induction es as [|e es IH]; intros s Hok Hf; [simpl; unfold teardowns; simpl; lia|].
  destruct Hf as [He Hf]. simpl. destruct (recorder_step_fine s e Hok He) as [Hok' Hb].
  destruct (recorder_step s e) as [s1 out]. simpl in *. specialize (IH s1 Hok' Hf).
  destruct (recorder_run s1 es) as [s2 outs]. simpl in *. rewrite teardowns_app. specialize (Hb id). lia.
Qed.
End Once.

(** ** The index, one call after the other *)

Lemma find_row_In id (rows : list RecordingInfo) r : index_get id rows = Some r -> r ∈ rows /\ ri_id r = id.
Proof.
  unfold index_get. intros Hf. apply find_some in Hf as [Hin Hid].
  split; [by apply list_elem_of_In|]. by apply bool_decide_eq_true in Hid.
Qed.

Lemma index_get_app id a b :
  index_get id (a ++ b) = match index_get id a with Some r => Some r | None => index_get id b end.
Proof. unfold index_get. induction a as [|x a IH]; simpl; [done|]. by case_bool_decide. Qed.

Lemma index_get_other id rows : index_get id (filter (other_row id) rows) = None.
Proof.
  destruct (index_get id (filter (other_row id) rows)) as [r|] eqn:Hr; [|done].
  apply find_row_In in Hr as [[Hne _]%list_elem_of_filter Heq]. done.
Qed.

Lemma put_get info rows : index_get (ri_id info) (put info rows) = Some info.
Proof. unfold put. rewrite index_get_app, index_get_other. unfold index_get. simpl. by rewrite bool_decide_eq_true_2. Qed.

Lemma patch_get id c rows row :
  index_get id rows = Some row ->
  exists saved, patch id c rows = Some (saved, apply_changes c row) /\
    index_get id saved = Some (apply_changes c row).
Proof.
  intros Hr. unfold patch. rewrite Hr. simpl. eexists. split; [done|].
  pose proof (find_row_In _ _ _ Hr) as [_ Hid]. unfold index_get in *.
  induction rows as [|x rows IH]; simpl in *; [done|].
  destruct (decide (ri_id x = id)) as [Hx|Hx].
  - rewrite bool_decide_eq_true_2 in Hr by done. injection Hr as ->. simpl. by rewrite bool_decide_eq_true_2.
  - rewrite bool_decide_eq_false_2 in Hr by done. rewrite bool_decide_eq_false_2 by done. by apply IH.
Qed.

Lemma remove_get id rows saved row : remove id rows = Some (saved, row) -> index_get id saved = None.
Proof.
  unfold remove. destruct (index_get id rows); [|done]. simpl. intros [= <- _]. apply index_get_other.
Qed.

(** ** Runs *)

Module RecordingsDemo.
Import CastToy.

Definition iso : jstr := js "2024-05-17T12:34:56.789Z".
Definition target : RecordingTarget := SessionTarget (js "work; rm -rf ~").
Definition row (id : string) (at_ bytes : Z) (ended : option Z) : RecordingInfo :=
  mkRecording id (js id) target (js "t") 80 24 at_ ended bytes 0 false None.

Lemma filename_shell_safe_witness :
  let name := recordingFilename (newRecordingId (replicate 16 7)) (js "work; rm -rf ~") iso in
  name = js "20240517-123456-workrm-rf-rec_hhhhhhhhhhhhhhhh.cast" /\
  assertShellSafePath (js "/home/u/.mtmux/recordings" ++ [47] ++ name ++ js ".pipe") = Ok tt.
Proof.
  split; [vm_compute; reflexivity|].
  refine (proj2 (filename_shell_safe (replicate 16 7) (js "work; rm -rf ~") iso
    (js "/home/u/.mtmux/recordings") (js ".pipe") _ _ _)).
  - apply Forall_forallb. vm_compute. reflexivity.
  - apply Forall_forallb. vm_compute. reflexivity.
  - right. reflexivity.
Defined.

Definition two_rows : list RecordingInfo := [row "a" 1 6 (Some 2); row "b" 3 6 None].

Lemma sweep_keeps_to_budget_witness :
  map ri_id (sweepRecordings 10 two_rows).1 = ["b"%string] /\
  exists kept dropped,
    sweepRecordings 10 two_rows = (sort_by ri_startedAt kept, map ri_filename dropped) /\
    (bytes_of kept <= 10 \/ length kept = 1%nat).
Proof.
  split; [vm_compute; reflexivity|].
  assert (Forall (fun r => 0 <= ri_bytes r) two_rows) as Hb by (repeat constructor; simpl; lia).
  destruct (sweep_keeps_to_budget 10 two_rows Hb ltac:(lia)) as (kept & dropped & He & _ & _ & Hfit & _).
  exists kept, dropped. by split.
Defined.

Definition opened (call : nat) (id : string) (t0 : Z) : RecorderEvent :=
  StartOpened call true id iso 80 24 t0 (1000 * t0).

(** One recording from start to stop, the index keeping up. *)
Definition life : list RecorderEvent :=
  [StartCall 7 target (js " my title "); opened 7 "r1" 0; StartCaptured 7 "r1" true; JobLoad 0; JobSave 0;
   Data "r1" (js "hello") 10 10; Data "r1" (js "world") 20 20;
   StopCall "r1" by_request; StopCall "r1" by_end; StopClosing 1 5000; JobLoad 2; JobSave 2].

Lemma torn_down_once_witness :
  (teardowns "r1" (recorder_run (no_recorder []) life).2 <= 1)%nat /\
  ri_endedAt <$> index_get "r1" (rows (recorder_run (no_recorder []) life).1) = Some (Some 5000) /\
  ri_events <$> index_get "r1" (rows (recorder_run (no_recorder []) life).1) = Some 2.
Proof.
  split.
  - apply torn_down_once.
    + split; [constructor|]. intros id Hin. by apply not_elem_of_nil in Hin.
    + vm_compute. repeat split.
  - split; vm_compute; reflexivity.
Defined.

(** ** What the awaits let through *)

(** Two starts of one session pass the check before either is registered. *)
Definition twice : list RecorderEvent :=
  [StartCall 0 target []; StartCall 1 target []; opened 0 "r1" 0; opened 1 "r2" 0].

Lemma recorded_twice :
  map ri_target (listActive (recorder_run (no_recorder []) twice).1) = [target; target] /\
  (recorder_run (no_recorder []) twice).2 = [].
Proof. split; vm_compute; reflexivity. Qed.

(** [stopAll] patches the index once per recording, all at the same time: the
    last to save wins, and the other recording stays under way. *)
Definition both_running : Recorder :=
  (recorder_run (no_recorder [])
    [StartCall 0 target []; opened 0 "r1" 0; StartCaptured 0 "r1" true; JobLoad 0; JobSave 0;
     StartCall 1 (PaneTarget (js "w") (js "%1")) []; opened 1 "r2" 0; StartCaptured 1 "r2" true;
     JobLoad 1; JobSave 1]).1.

Lemma stopAll_loses_a_stop :
  map ri_endedAt (rows both_running) = [None; None] /\
  let es := stopAll by_end both_running
    ++ [StopClosing 2 9000; StopClosing 3 9000; JobLoad 4; JobLoad 5; JobSave 4; JobSave 5] in
  map (fun r => (ri_id r, ri_endedAt r)) (rows (recorder_run both_running es).1)
  = [("r1"%string, None); ("r2"%string, Some 9000)].
Proof. split; vm_compute; reflexivity. Qed.

(** A session that exits before its recording is indexed: the stop finds no
    row, the row is then written as under way, and its poll is never cleared. *)
Lemma ended_before_indexed :
  let s := (recorder_run (no_recorder [])
    [StartCall 0 target []; opened 0 "r1" 0; StartCaptured 0 "r1" true; JobLoad 0;
     StopCall "r1" by_end; StopClosing 1 9000; JobLoad 2; JobSave 2; JobSave 0]).1 in
  map ri_endedAt (rows s) = [None] /\ isRecording "r1" s = false /\
  rc_poll <$> objects s !! "r1"%string = Some true.
Proof. split_and!; vm_compute; reflexivity. Qed.

(** A capture that fails is undone before it was ever indexed: [remove] finds
    no row, and the file stays. *)
Lemma failed_capture_leaves_file :
  let '(s, out) := recorder_run (no_recorder [])
    [StartCall 0 target []; opened 0 "r1" 0; StartCaptured 0 "r1" false; JobLoad 0; JobSave 0] in
  out = [Refused 0 CaptureFailed] /\ rows s = [] /\ bool_decide (casts s = ∅) = false.
Proof. vm_compute. split_and!; reflexivity. Qed.

(** The sweep drops what does not fit, which need not be the oldest. *)
Lemma sweep_keeps_an_older_one :
  (sweepRecordings 10 [row "old" 1 2 (Some 1); row "middle" 2 9 (Some 2); row "new" 3 6 (Some 3)]).1
  = [row "old" 1 2 (Some 1); row "new" 3 6 (Some 3)].
Proof. vm_compute. reflexivity. Qed.
End RecordingsDemo.
