(* ===== verification/RelayClient.v ===== *)
(** * RelayClient: the browser's connection to a relay

    [apps/web/src/lib/ws-client.ts] over the seam of
    [apps/web/src/lib/transport.ts], and the attach state machine of
    [apps/web/src/lib/attach-state.ts].  A transport is its number; the client
    holds on to one at a time, but each it made may still call it back, so the
    phase of all of them is kept.  What the seam promises ([Transport.close]:
    "a closed transport must never call back") and what a socket does (one
    open, then messages, then one close) is the condition [calls_back] of an
    event.  A timer is its number too: one that is overwritten before it is
    cleared still fires.  Handlers are outputs; one that calls the client back
    from inside its notification is not modelled. *)

From S2P Require Import Prelude.

#[local] Open Scope string_scope.
#[local] Open Scope list_scope.
#[local] Open Scope Z_scope.

Inductive Status := connecting_ | connected | reconnecting | disconnected.
#[export] Instance Status_eq_dec : EqDecision Status.
Proof. solve_decision. Defined.

(** A client message: its type, and the rest of it. *)
Record ClientMessage := mkMsg { cm_type : string; cm_body : Z }.
#[export] Instance ClientMessage_eq_dec : EqDecision ClientMessage.
Proof. solve_decision. Defined.

Inductive ServerMessage :=
| AuthSuccess
| AuthFailure
| Pong (timestamp : Z)
| OtherMessage (body : Z).
#[export] Instance ServerMessage_eq_dec : EqDecision ServerMessage.
Proof. solve_decision. Defined.

Definition MIN_RECONNECT_DELAY : Z := 1000.
Definition MAX_RECONNECT_DELAY : Z := 30000.
Definition STALE_ROUTE_AFTER : Z := 3.
Definition MAX_PENDING_MESSAGES : nat := 50.
Definition PONG_TIMEOUT_MS : Z := 25000.
Definition MAX_BUFFERED : Z := 1048576.

Definition DROP_WHEN_DISCONNECTED : list string :=
  ["terminal:input"; "terminal:resize"; "command:send"; "tmux:prefix"; "tmux:scroll";
   "tmux:scroll-to"; "tmux:exit-copy-mode"; "session:attach"; "session:detach"].

Definition shouldQueue (msg : ClientMessage) : bool :=
  if decide (cm_type msg = "ping") then false
  else negb (bool_decide (cm_type msg ∈ DROP_WHEN_DISCONNECTED)).

(** A transport that was made: not open yet, open ([isOpen]), no longer open
    but not yet reported closed, and over: closed from here, or reported. *)
Inductive Phase := Fresh | Opened | Shut | Over.
#[export] Instance Phase_eq_dec : EqDecision Phase.
Proof. solve_decision. Defined.

Record Client := mkClient {
  transport : option nat;
  transports : gmap nat Phase;
  made : nat;
  makeTransport : nat;
  reconnectDelay : Z;
  reconnectTimer : option nat;
  timers : gset nat;
  timersMade : nat;
  pingTimer : bool;
  intentionalClose : bool;
  status : Status;
  latency : option Z;
  reconnectCount : Z;
  lastPongAt : Z;
  pendingMessages : list ClientMessage;
  connecting : bool;
  routeStaleAsked : bool;
}.

Inductive ClientOutput :=
| StatusIs (s : Status)
| Opens (t : nat) (route : nat)
| Closes (t : nat)
| SendsAuth (t : nat)
| Sends (t : nat) (msg : ClientMessage)
| DroppedMessages (n : nat)
| RouteStale
| TimerSet (delay : Z)
| Delivers (msg : ServerMessage).

Definition new_client (route : nat) : Client :=
  mkClient None ∅ 0 route MIN_RECONNECT_DELAY None ∅ 0 false false disconnected None 0 0 [] false false.

(** ** Fields *)

Definition set_transport (t : option nat) (c : Client) : Client :=
  mkClient t (transports c) (made c) (makeTransport c) (reconnectDelay c) (reconnectTimer c) (timers
    c) (timersMade c) (pingTimer c) (intentionalClose c) (status c) (latency c) (reconnectCount c)
    (lastPongAt c) (pendingMessages c) (connecting c) (routeStaleAsked c).
Definition set_transports (m : gmap nat Phase) (c : Client) : Client :=
  mkClient (transport c) m (made c) (makeTransport c) (reconnectDelay c) (reconnectTimer c) (timers
    c) (timersMade c) (pingTimer c) (intentionalClose c) (status c) (latency c) (reconnectCount c)
    (lastPongAt c) (pendingMessages c) (connecting c) (routeStaleAsked c).
Definition set_made (t : nat) (m : gmap nat Phase) (c : Client) : Client :=
  mkClient (Some t) m (S t) (makeTransport c) (reconnectDelay c) (reconnectTimer c) (timers c)
    (timersMade c) (pingTimer c) (intentionalClose c) (status c) (latency c) (reconnectCount c)
    (lastPongAt c) (pendingMessages c) (connecting c) (routeStaleAsked c).
Definition set_makeTransport (r : nat) (c : Client) : Client :=
  mkClient (transport c) (transports c) (made c) r (reconnectDelay c) (reconnectTimer c) (timers c)
    (timersMade c) (pingTimer c) (intentionalClose c) (status c) (latency c) (reconnectCount c)
    (lastPongAt c) (pendingMessages c) (connecting c) (routeStaleAsked c).
Definition set_delay (d : Z) (c : Client) : Client :=
  mkClient (transport c) (transports c) (made c) (makeTransport c) d (reconnectTimer c) (timers c)
    (timersMade c) (pingTimer c) (intentionalClose c) (status c) (latency c) (reconnectCount c)
    (lastPongAt c) (pendingMessages c) (connecting c) (routeStaleAsked c).
Definition set_timer (i : option nat) (s : gset nat) (c : Client) : Client :=
  mkClient (transport c) (transports c) (made c) (makeTransport c) (reconnectDelay c) i s
    (timersMade c) (pingTimer c) (intentionalClose c) (status c) (latency c) (reconnectCount c)
    (lastPongAt c) (pendingMessages c) (connecting c) (routeStaleAsked c).
Definition arm  (c : Client) : Client :=
  mkClient (transport c) (transports c) (made c) (makeTransport c) (reconnectDelay c) (Some
    (timersMade c)) ({[timersMade c]} ∪ timers c) (S (timersMade c)) (pingTimer c) (intentionalClose
    c) (status c) (latency c) (reconnectCount c) (lastPongAt c) (pendingMessages c) (connecting c)
    (routeStaleAsked c).
Definition set_ping (b : bool) (c : Client) : Client :=
  mkClient (transport c) (transports c) (made c) (makeTransport c) (reconnectDelay c)
    (reconnectTimer c) (timers c) (timersMade c) b (intentionalClose c) (status c) (latency c)
    (reconnectCount c) (lastPongAt c) (pendingMessages c) (connecting c) (routeStaleAsked c).
Definition set_intentional (b : bool) (c : Client) : Client :=
  mkClient (transport c) (transports c) (made c) (makeTransport c) (reconnectDelay c)
    (reconnectTimer c) (timers c) (timersMade c) (pingTimer c) b (status c) (latency c)
    (reconnectCount c) (lastPongAt c) (pendingMessages c) (connecting c) (routeStaleAsked c).
Definition set_status (s : Status) (c : Client) : Client :=
  mkClient (transport c) (transports c) (made c) (makeTransport c) (reconnectDelay c)
    (reconnectTimer c) (timers c) (timersMade c) (pingTimer c) (intentionalClose c) s (latency c)
    (reconnectCount c) (lastPongAt c) (pendingMessages c) (connecting c) (routeStaleAsked c).
Definition set_count (n : Z) (c : Client) : Client :=
  mkClient (transport c) (transports c) (made c) (makeTransport c) (reconnectDelay c)
    (reconnectTimer c) (timers c) (timersMade c) (pingTimer c) (intentionalClose c) (status c)
    (latency c) n (lastPongAt c) (pendingMessages c) (connecting c) (routeStaleAsked c).
Definition set_pong (l : option Z) (n : Z) (c : Client) : Client :=
  mkClient (transport c) (transports c) (made c) (makeTransport c) (reconnectDelay c)
    (reconnectTimer c) (timers c) (timersMade c) (pingTimer c) (intentionalClose c) (status c) l
    (reconnectCount c) n (pendingMessages c) (connecting c) (routeStaleAsked c).
Definition set_pending (l : list ClientMessage) (c : Client) : Client :=
  mkClient (transport c) (transports c) (made c) (makeTransport c) (reconnectDelay c)
    (reconnectTimer c) (timers c) (timersMade c) (pingTimer c) (intentionalClose c) (status c)
    (latency c) (reconnectCount c) (lastPongAt c) l (connecting c) (routeStaleAsked c).
Definition set_connecting (b : bool) (c : Client) : Client :=
  mkClient (transport c) (transports c) (made c) (makeTransport c) (reconnectDelay c)
    (reconnectTimer c) (timers c) (timersMade c) (pingTimer c) (intentionalClose c) (status c)
    (latency c) (reconnectCount c) (lastPongAt c) (pendingMessages c) b (routeStaleAsked c).
Definition set_asked (b : bool) (c : Client) : Client :=
  mkClient (transport c) (transports c) (made c) (makeTransport c) (reconnectDelay c)
    (reconnectTimer c) (timers c) (timersMade c) (pingTimer c) (intentionalClose c) (status c)
    (latency c) (reconnectCount c) (lastPongAt c) (pendingMessages c) (connecting c) b.
(** Run one after the other, the outputs in order. *)
Definition and_then (r : Client * list ClientOutput) (f : Client -> Client * list ClientOutput)
    : Client * list ClientOutput :=
  let s := f r.1 in (s.1, (r.2 ++ s.2)).
Notation "r >> f" := (and_then r f) (at level 50, left associativity) : client_scope.
Delimit Scope client_scope with client.
#[local] Open Scope client_scope.

Definition setStatus (s : Status) (c : Client) : Client * list ClientOutput :=
  (set_status s c, [StatusIs s]).

(** [this.transport?.close(); this.transport = null]. *)
Definition closeTransport (c : Client) : Client * list ClientOutput :=
  match transport c with
  | Some t => (set_transport None (set_transports (<[t := Over]> (transports c)) c), [Closes t])
  | None => (c, [])
  end.

(** [clearTimeout(this.reconnectTimer); this.reconnectTimer = null]. *)
Definition clearTimer (c : Client) : Client :=
  match reconnectTimer c with
  | Some i => set_timer None (timers c ∖ {[i]}) c
  | None => c
  end.

Definition stopPing (c : Client) : Client := set_ping false c.

(** ** Connecting *)

Definition makes (c : Client) : Client * list ClientOutput :=
  (set_made (made c) (<[made c := Fresh]> (transports c)) c, [Opens (made c) (makeTransport c)]).

Definition connect (c : Client) : Client * list ClientOutput :=
  let c := clearTimer c in
  if connecting c then (c, [])
  else
    closeTransport c
    >> (fun c => (set_connecting true (set_intentional false c), []))
    >> (fun c => setStatus (if 0 <? reconnectCount c then reconnecting else connecting_) c)
    >> makes.

Definition scheduleReconnect (c : Client) : Client * list ClientOutput :=
  if intentionalClose c then (c, [])
  else
    let c := set_count (reconnectCount c + 1) c in
    (if (STALE_ROUTE_AFTER <=? reconnectCount c) && negb (routeStaleAsked c)
     then (set_asked true c, [RouteStale]) else (c, []))
    >> (fun c => (set_delay (Z.min (reconnectDelay c * 2) MAX_RECONNECT_DELAY) (arm c),
                  [TimerSet (reconnectDelay c)])).

(** A timer fires: it is spent, whichever it is. *)
Definition timer_fires (i : nat) (c : Client) : Client * list ClientOutput :=
  connect (set_timer None (timers c ∖ {[i]}) c).

(** ** Sending *)

Definition is_open (c : Client) : option nat :=
  t ← transport c; p ← transports c !! t; if decide (p = Opened) then Some t else None.

Definition send (msg : ClientMessage) (c : Client) : Client * list ClientOutput :=
  match (if decide (status c = connected) then is_open c else None) with
  | Some t => (c, [Sends t msg])
  | None =>
      if negb (shouldQueue msg) then (c, [])
      else
        let pending := (pendingMessages c ++ [msg]) in
        if (MAX_PENDING_MESSAGES <? length pending)%nat then
          let dropped := (length pending - MAX_PENDING_MESSAGES)%nat in
          (set_pending (drop dropped pending) c, [DroppedMessages dropped])
        else (set_pending pending c, [])
  end.

Fixpoint send_all (messages : list ClientMessage) (c : Client) : Client * list ClientOutput :=
  match messages with
  | [] => (c, [])
  | msg :: messages => send msg c >> send_all messages
  end.

Definition flushPendingMessages (c : Client) : Client * list ClientOutput :=
  send_all (pendingMessages c) (set_pending [] c).

Definition startPing (now : Z) (c : Client) : Client := set_ping true (set_pong (latency c) now c).

Definition dropConnection (c : Client) : Client * list ClientOutput :=
  closeTransport c
  >> (fun c => setStatus reconnecting (stopPing (set_connecting false c)))
  >> scheduleReconnect.

(** The ping timer, every ten seconds while it is set. *)
Definition ping_tick (now buffered : Z) (c : Client) : Client * list ClientOutput :=
  if negb (pingTimer c) then (c, [])
  else if negb (lastPongAt c =? 0) && (PONG_TIMEOUT_MS <? now - lastPongAt c) then dropConnection c
  else if bool_decide (transport c <> None) && (MAX_BUFFERED <? buffered) then dropConnection c
  else send (mkMsg "ping" now) c.

(** ** What a transport calls back *)

Definition set_phase (t : nat) (p : Phase) (c : Client) : Client :=
  set_transports (<[t := p]> (transports c)) c.

Definition on_open (t : nat) (c : Client) : Client * list ClientOutput :=
  let c := set_phase t Opened c in
  (c, match transport c with Some t' => [SendsAuth t'] | None => [] end).

(** [auth:success] opens the gate: a fresh ladder, the pings, then the queue. *)
Definition ready (now : Z) (c : Client) : Client :=
  startPing now (set_asked false (set_count 0 (set_delay MIN_RECONNECT_DELAY c))).

Definition on_success (now : Z) (c : Client) : Client * list ClientOutput :=
  setStatus connected (set_connecting false c) >> (fun c => flushPendingMessages (ready now c)).

Definition on_failure (c : Client) : Client * list ClientOutput :=
  closeTransport (set_connecting false (set_intentional true c)) >> setStatus disconnected.

(** [None]: a frame that does not parse. *)
Definition on_message (msg : option ServerMessage) (now : Z) (c : Client) : Client * list ClientOutput :=
  match msg with
  | None => (c, [])
  | Some msg =>
      match msg with
      | AuthSuccess => on_success now c
      | AuthFailure => on_failure c
      | Pong timestamp => (set_pong (Some (now - timestamp)) now c, [])
      | OtherMessage _ => (c, [])
      end
      >> (fun c => (c, [Delivers msg]))
  end.

Definition on_close (t : nat) (c : Client) : Client * list ClientOutput :=
  let c := stopPing (set_connecting false (set_phase t Over c)) in
  if negb (intentionalClose c) then setStatus reconnecting c >> scheduleReconnect
  else setStatus disconnected c.

(** ** What the app calls *)

Definition disconnect (c : Client) : Client * list ClientOutput :=
  closeTransport (clearTimer (stopPing (set_connecting false (set_intentional true c))))
  >> setStatus disconnected.

Definition reconnectNow (c : Client) : Client * list ClientOutput :=
  if intentionalClose c then (c, []) else connect (set_delay MIN_RECONNECT_DELAY c).

Definition setTransport (route : nat) (c : Client) : Client * list ClientOutput :=
  let c := set_asked false (set_makeTransport route c) in
  if intentionalClose c then (c, [])
  else connect (set_connecting false (set_delay MIN_RECONNECT_DELAY c)).

(** ** Runs *)

Inductive ClientEvent :=
| Connect | Disconnect | ReconnectNow | SetTransport (route : nat)
| Send (msg : ClientMessage)
| TransportOpens (t : nat)
| TransportMessage (t : nat) (msg : option ServerMessage) (now : Z)
| TransportShuts (t : nat)   (** [isOpen] is false before the close is reported *)
| TransportCloses (t : nat)
| TimerFires (i : nat)
| PingTick (now buffered : Z).

Definition client_step (c : Client) (e : ClientEvent) : Client * list ClientOutput :=
  match e with
  | Connect => connect c
  | Disconnect => disconnect c
  | ReconnectNow => reconnectNow c
  | SetTransport route => setTransport route c
  | Send msg => send msg c
  | TransportOpens t => on_open t c
  | TransportMessage _ msg now => on_message msg now c
  | TransportShuts t => (set_phase t Shut c, [])
  | TransportCloses t => on_close t c
  | TimerFires i => if decide (i ∈ timers c) then timer_fires i c else (c, [])
  | PingTick now buffered => ping_tick now buffered c
  end.

(** What may come: a socket opens once and before it says anything, and is
    silent once it is over. *)
Definition calls_back (c : Client) (e : ClientEvent) : Prop :=
  match e with
  | TransportOpens t => transports c !! t = Some Fresh
  | TransportMessage t _ _ => transports c !! t = Some Opened \/ transports c !! t = Some Shut
  | TransportShuts t => transports c !! t = Some Opened
  | TransportCloses t => exists p, transports c !! t = Some p /\ p <> Over
  | _ => True
  end.

Definition client_trace : Type := list (ClientEvent * list ClientOutput).

Inductive client_run (c : Client) : client_trace -> Client -> Prop :=
| run_nil : client_run c [] c
| run_snoc trace c' e : client_run c trace c' -> calls_back c' e ->
    client_run c (trace ++ [(e, (client_step c' e).2)]) (client_step c' e).1.

(** ** [attach-state.ts] *)

Inductive AttachState :=
| Idle
| Attaching (name attachId : string)
| Attached (name attachId : string).

Inductive AttachEvent :=
| RequestAttach (name attachId : string)
| ServerAttached (name : string) (attachId : option string)
| Detach
| ConnectionLost.

Definition reduceAttach (state : AttachState) (event : AttachEvent) : AttachState :=
  match event with
  | RequestAttach name attachId =>
      match state with
      | Attached current _ => if decide (current = name) then state else Attaching name attachId
      | _ => Attaching name attachId
      end
  | ServerAttached name attachId =>
      match state with
      | Attaching wanted id =>
          let matches := match attachId with
                         | Some a => bool_decide (a = id)
                         | None => bool_decide (name = wanted)
                         end in
          if negb matches then state else Attached wanted id
      | _ => state
      end
  | Detach => Idle
  | ConnectionLost =>
      match state with Idle => state | Attaching n i | Attached n i => Attaching n i end
  end.

Definition shouldWriteOutput (state : AttachState) : bool :=
  match state with Attached _ _ => true | _ => false end.

Definition needsAttach (state : AttachState) (desired : string) : bool :=
  match state with Attached name _ => negb (bool_decide (name = desired)) | _ => true end.

Definition attachedName (state : AttachState) : option string :=
  match state with Idle => None | Attaching n _ | Attached n _ => Some n end.
