(* ===== verification/RelayClientSafety.v ===== *)
(** * RelayClientSafety: what the browser's connection keeps true

    The client of [RelayClient] refines a machine of five modes, whatever the
    transports and the timers do within the seam's contract ([mode_refines]);
    one transport at most is live and one timer at most is out; what is given
    to [send] is sent in order, kept, or reported lost ([accounting]). *)

From S2P Require Import Prelude RelayClient.

#[local] Open Scope string_scope.
#[local] Open Scope list_scope.
#[local] Open Scope Z_scope.

#[local] Strategy expand [client_step timer_fires ready and_then].

(** ** The abstract machine *)

Inductive Mode := New | Dialling | Online | Waiting | Stopped.
#[export] Instance Mode_eq_dec : EqDecision Mode.
Proof. solve_decision. Defined.

(** [edge m e m']: from [m], the event [e] may lead to [m']. *)
Definition edge (m : Mode) (e : ClientEvent) (m' : Mode) : Prop :=
  match e with
  | Connect => m' = Dialling
  | Disconnect => m' = Stopped
  | ReconnectNow | SetTransport _ => m' = match m with Stopped => Stopped | _ => Dialling end
  | TransportMessage _ (Some AuthSuccess) _ => (m = Dialling \/ m = Online) /\ m' = Online
  | TransportMessage _ (Some AuthFailure) _ => (m = Dialling \/ m = Online) /\ m' = Stopped
  | TransportCloses _ => (m = Dialling \/ m = Online) /\ m' = Waiting
  | TimerFires i => m' = m \/ (m = Waiting /\ m' = Dialling)
  | PingTick _ _ => m' = m \/ ((m = Dialling \/ m = Online) /\ m' = Waiting)
  | TransportOpens _ | TransportMessage _ _ _ | TransportShuts _ | Send _ => m' = m
  end.

Definition alive (c : Client) : Prop :=
  exists t p, transport c = Some t /\ transports c !! t = Some p /\ p <> Over.

(** What holds in every mode: only the transport held may be live, and only
    the timer held may be out. *)
Record base (c : Client) : Prop := {
  b_current : forall t p, transports c !! t = Some p -> p <> Over -> transport c = Some t;
  b_made : forall t p, transports c !! t = Some p -> (t < made c)%nat;
  b_held : forall t, transport c = Some t -> is_Some (transports c !! t);
  b_timers : forall i, i ∈ timers c -> reconnectTimer c = Some i;
  b_delay : MIN_RECONNECT_DELAY <= reconnectDelay c <= MAX_RECONNECT_DELAY;
  b_pending : (length (pendingMessages c) <= MAX_PENDING_MESSAGES)%nat;
  b_queueable : Forall (fun m => shouldQueue m = true) (pendingMessages c);
}.

Inductive in_mode (c : Client) : Mode -> Prop :=
| in_New : transports c = ∅ -> transport c = None -> connecting c = false -> status c = disconnected ->
    reconnectTimer c = None -> intentionalClose c = false -> pingTimer c = false -> in_mode c New
| in_Dialling : alive c -> connecting c = true -> status c = connecting_ \/ status c = reconnecting ->
    reconnectTimer c = None -> intentionalClose c = false -> in_mode c Dialling
| in_Online : alive c -> connecting c = false -> status c = connected ->
    (is_open c <> None -> pendingMessages c = []) ->
    (forall t, transport c = Some t -> transports c !! t <> Some Fresh) ->
    reconnectTimer c = None -> intentionalClose c = false -> in_mode c Online
| in_Waiting i : ~ alive c -> connecting c = false -> status c = reconnecting ->
    reconnectTimer c = Some i -> i ∈ timers c -> intentionalClose c = false -> pingTimer c = false ->
    in_mode c Waiting
| in_Stopped : ~ alive c -> connecting c = false -> status c <> connected ->
    reconnectTimer c = None -> intentionalClose c = true -> in_mode c Stopped.

Definition inv (c : Client) (m : Mode) : Prop := base c /\ in_mode c m.

(** ** The operations *)

Lemma new_inv route : inv (new_client route) New.
Proof.
  split; [split; cbn; try set_solver; unfold MIN_RECONNECT_DELAY, MAX_RECONNECT_DELAY, MAX_PENDING_MESSAGES; lia
         | by constructor].
Qed.

Lemma dead_over c t p : base c -> ~ alive c -> transports c !! t = Some p -> p = Over.
Proof.
  intros B D E. destruct (decide (p = Over)) as [|N]; [done|].
  destruct D. exists t, p. split_and!; [by apply (b_current c B t p)|done|done].
Qed.

(** Only these fields of a client matter to [base]. *)
Lemma base_same c c' : base c ->
  transport c' = transport c -> transports c' = transports c -> made c' = made c ->
  reconnectTimer c' = reconnectTimer c -> timers c' = timers c ->
  pendingMessages c' = pendingMessages c ->
  MIN_RECONNECT_DELAY <= reconnectDelay c' <= MAX_RECONNECT_DELAY -> base c'.
Proof.
  intros [] E1 E2 E3 E4 E5 E6 E7. by split; rewrite ?E1, ?E2, ?E3, ?E4, ?E5, ?E6.
Qed.

Lemma alive_same c c' : transport c' = transport c -> transports c' = transports c ->
  alive c' <-> alive c.
Proof. unfold alive. by intros -> ->. Qed.

Lemma closeTransport_dead c : base c ->
  base (closeTransport c).1 /\ ~ alive (closeTransport c).1 /\
  exists m, (closeTransport c).1 = set_transport None (set_transports m c).
Proof.
  intros B. unfold closeTransport. destruct (transport c) as [t|] eqn:E.
  - split_and!; [|by intros (?&?&?&_)|by eexists].
    split; cbn; try apply B.
    + intros u p L N. destruct (decide (u = t)) as [->|Ne]; [by rewrite lookup_insert_eq in L; simplify_eq|].
      rewrite lookup_insert_ne in L by done. pose proof (b_current c B u p L N). congruence.
    + intros u p L. destruct (decide (u = t)) as [->|Ne].
      * destruct (b_held c B t E) as [q Q]. by apply (b_made c B t q).
      * rewrite lookup_insert_ne in L by done. by apply (b_made c B u p).
    + done.
  - cbn. split_and!; [done|unfold alive; rewrite E; by intros (?&?&?&_)|].
    exists (transports c). destruct c; cbn in *. by subst.
Qed.

Lemma clearTimer_base c : base c ->
  base (clearTimer c) /\ timers (clearTimer c) = ∅ /\ reconnectTimer (clearTimer c) = None /\
  clearTimer c = set_timer None (timers (clearTimer c)) c.
Proof.
  intros B. unfold clearTimer. destruct (reconnectTimer c) as [i|] eqn:E; cbn.
  - assert (timers c ∖ {[i]} = ∅) as Z.
    { apply set_eq. intros j. pose proof (b_timers c B j). set_solver. }
    rewrite Z. split_and!; try done. destruct B. split; cbn; try done; set_solver.
  - assert (timers c = ∅) as Z.
    { apply set_eq. intros j. pose proof (b_timers c B j). rewrite E in *. set_solver. }
    split_and!; try done. destruct c; cbn in *. by subst.
Qed.

Lemma and_then_fst r f : (and_then r f).1 = (f r.1).1.
Proof. done. Qed.

Lemma and_then_say r o : (and_then r (fun c => (c, o))).1 = r.1.
Proof. done. Qed.

Lemma and_then_said r o : (and_then r (fun c => (c, o))).2 = r.2 ++ o.
Proof. done. Qed.

Lemma fst_eq {A B} (x : A) (y : B) p : p = (x, y) -> p.1 = x.
Proof. by intros ->. Qed.

Lemma and_then_pair c out f : and_then (c, out) f = ((f c).1, out ++ (f c).2).
Proof. done. Qed.

Lemma connect_dials c : base c -> connecting c = false -> inv (connect c).1 Dialling.
Proof.
  intros B N. destruct (clearTimer_base c B) as (B1 & T1 & T2 & E1).
  unfold connect. cbn zeta. rewrite E1 at 1. cbn [connecting set_timer]. rewrite N.
  rewrite !and_then_fst. destruct (closeTransport_dead (clearTimer c) B1) as (B2 & D & m & E2).
  set (c2 := (closeTransport (clearTimer c)).1) in *. cbn.
  assert (timers c2 = ∅) as T3 by (rewrite E2; done).
  split.
  - destruct B2 as [C2 M2 H2 I2 L2 P2 Q2]. split; cbn; rewrite ?T3; try done.
    + intros t p L Np. destruct (decide (t = made c2)) as [->|Ne]; [done|].
      rewrite lookup_insert_ne in L by done. pose proof (C2 t p L Np) as Q.
      destruct D. by exists t, p.
    + intros t p L. destruct (decide (t = made c2)) as [->|Ne]; [lia|].
      rewrite lookup_insert_ne in L by done. pose proof (M2 t p L). lia.
    + intros t [= <-]. rewrite lookup_insert_eq. eauto.
  - constructor; cbn; try done.
    + exists (made c2), Fresh. split_and!; [done|apply lookup_insert_eq|done].
    + case_match; auto.
    + by rewrite E2.
Qed.

Lemma connect_busy c : base c -> in_mode c Dialling -> (connect c) = (c, []).
Proof.
  intros B M. inversion M as [|A C S T I| | |]; subst. unfold connect, clearTimer.
  by rewrite T, C.
Qed.

Lemma connect_inv c m : base c -> in_mode c m -> inv (connect c).1 Dialling.
Proof.
  intros B M. destruct (decide (m = Dialling)) as [->|N].
  - by rewrite connect_busy.
  - apply connect_dials; [done|]. by inversion M.
Qed.

Lemma schedule_waits c : base c -> ~ alive c -> connecting c = false -> status c = reconnecting ->
  timers c = ∅ -> pingTimer c = false -> intentionalClose c = false ->
  inv (scheduleReconnect c).1 Waiting.
Proof.
  intros B D C S T P I. unfold scheduleReconnect. rewrite I, and_then_fst. cbn zeta.
  set (c1 := fst (if _ && _ then _ else _)).
  assert (exists a n, c1 = set_asked a (set_count n c)) as (a & n & ->).
  { unfold c1. clear. case_match; [exists true, (reconnectCount c + 1)|exists (routeStaleAsked c), (reconnectCount c + 1)];
      by destruct c. }
  split.
  - destruct B. split; cbn; try done; [set_solver|].
    unfold MIN_RECONNECT_DELAY, MAX_RECONNECT_DELAY in *. lia.
  - apply (in_Waiting _ (timersMade c)); cbn; try done. set_solver.
Qed.

Lemma no_timers c : base c -> reconnectTimer c = None -> timers c = ∅.
Proof. intros B E. apply set_eq. intros j. pose proof (b_timers c B j). rewrite E in *. set_solver. Qed.

Lemma drop_waits c : base c -> reconnectTimer c = None -> intentionalClose c = false ->
  inv (dropConnection c).1 Waiting.
Proof.
  intros B T I. unfold dropConnection. rewrite !and_then_fst.
  destruct (closeTransport_dead c B) as (B1 & D & m & E).
  apply schedule_waits; cbn; try done.
  - by apply (base_same _ _ B1); try done; apply B1.
  - rewrite E. cbn. by rewrite no_timers.
  - by rewrite E.
Qed.

Lemma drop_stopped c : inv c Stopped -> inv (dropConnection c).1 Stopped.
Proof.
  intros [B M]. inversion M as [| | | |A C S T I]; subst. unfold dropConnection. rewrite !and_then_fst.
  destruct (closeTransport_dead c B) as (B1 & D & m & E).
  unfold scheduleReconnect. cbn. rewrite E. cbn. rewrite I. cbn. rewrite <- E.
  split.
  - by apply (base_same _ _ B1); try done; rewrite E; cbn; try apply B.
  - constructor; cbn; try done. all: by rewrite ?E.
Qed.

(** ** Sending *)

Definition sendable (c : Client) : option nat := if decide (status c = connected) then is_open c else None.

Lemma set_pending_twice l l' c : set_pending l (set_pending l' c) = set_pending l c.
Proof. by destruct c. Qed.
Lemma set_pending_same c : set_pending (pendingMessages c) c = c.
Proof. by destruct c. Qed.

Lemma send_sends msg c t : sendable c = Some t -> send msg c = (c, [Sends t msg]).
Proof. unfold sendable, send. by intros ->. Qed.

Lemma send_keeps msg c l : sendable c = None -> shouldQueue msg = true -> (length l < MAX_PENDING_MESSAGES)%nat ->
  send msg (set_pending l c) = (set_pending (l ++ [msg]) c, []).
Proof.
  unfold sendable, send. intros E Q L.
  change (if decide (status (set_pending l c) = connected) then is_open (set_pending l c) else None)
    with (if decide (status c = connected) then is_open c else None).
  rewrite E, Q. cbn [negb pendingMessages set_pending].
  rewrite length_app. cbn [length]. rewrite (proj2 (Nat.ltb_ge _ _)) by lia.
  by rewrite set_pending_twice.
Qed.

Lemma send_all_sends ms c t : sendable c = Some t -> send_all ms c = (c, Sends t <$> ms).
Proof.
  intros E. induction ms as [|m ms IH]; [done|]. cbn [send_all]. rewrite (send_sends m c t E).
  unfold and_then. cbn [fst snd]. by rewrite IH.
Qed.

Lemma send_all_keeps ms l c : sendable c = None -> Forall (fun m => shouldQueue m = true) ms ->
  (length l + length ms <= MAX_PENDING_MESSAGES)%nat ->
  send_all ms (set_pending l c) = (set_pending (l ++ ms) c, []).
Proof.
  intros E. revert l. induction ms as [|m ms IH]; intros l Q L; [by rewrite app_nil_r|].
  apply Forall_cons in Q as [Q1 Q2]. cbn [length] in L. cbn [send_all].
  rewrite send_keeps by (done || lia). unfold and_then. cbn [fst snd].
  rewrite IH by (try done; rewrite length_app; cbn; lia). by rewrite <- app_assoc.
Qed.

Lemma flush_spec c : base c -> flushPendingMessages c =
  match sendable c with
  | Some t => (set_pending [] c, Sends t <$> pendingMessages c)
  | None => (c, [])
  end.
Proof.
  intros B. unfold flushPendingMessages. destruct (sendable c) as [t|] eqn:E.
  - by apply send_all_sends.
  - rewrite send_all_keeps; [by rewrite app_nil_l, set_pending_same|done|apply B|apply B].
Qed.

Lemma flush_fst c : base c -> (flushPendingMessages c).1 =
  set_pending (match sendable c with Some _ => [] | None => pendingMessages c end) c.
Proof. intros B. rewrite (flush_spec c B). destruct (sendable c); [done|]. by rewrite set_pending_same. Qed.

Lemma send_spec msg c : exists l, (send msg c).1 = set_pending l c /\
  (sendable c <> None -> l = pendingMessages c) /\
  (base c -> (length l <= MAX_PENDING_MESSAGES)%nat /\ Forall (fun m => shouldQueue m = true) l).
Proof.
  unfold send. fold (sendable c). destruct (sendable c) as [t|] eqn:E.
  - exists (pendingMessages c). rewrite set_pending_same. split_and!; [done|done|intros []; done].
  - destruct (shouldQueue msg) eqn:Q; cbn [negb].
    2:{ exists (pendingMessages c). rewrite set_pending_same. split_and!; [done|done|intros []; done]. }
    assert (base c -> Forall (fun m => shouldQueue m = true) (pendingMessages c ++ [msg])) as F.
    { intros B. apply Forall_app. split; [apply B|by constructor]. }
    case_match eqn:H; cbn [fst]; eexists; split_and!; try done; intros B; split; auto.
    + rewrite length_drop. apply Nat.ltb_lt in H. lia.
    + by apply Forall_drop, F.
    + by apply Nat.ltb_ge in H.
Qed.

Lemma pending_inv l c m : inv c m ->
  (length l <= MAX_PENDING_MESSAGES)%nat -> Forall (fun m => shouldQueue m = true) l ->
  (sendable c <> None -> l = pendingMessages c) -> inv (set_pending l c) m.
Proof.
  intros [B M] L F K. split; [destruct B; by split|].
  destruct M; econstructor; cbn; try done.
  intros N. change (is_open c <> None) in N. rewrite <- (H2 N).
  apply K. unfold sendable. by rewrite H1, decide_True.
Qed.

Lemma send_inv msg c m : inv c m -> inv (send msg c).1 m.
Proof.
  intros I. destruct (send_spec msg c) as (l & -> & K & F).
  apply pending_inv; [done|apply F, I..|done].
Qed.

(** ** Events *)

Lemma live_mode c m t p : inv c m -> transports c !! t = Some p -> p <> Over ->
  transport c = Some t /\ alive c /\ reconnectTimer c = None /\ intentionalClose c = false /\
  (m = Dialling \/ m = Online).
Proof.
  intros [B M] L N. pose proof (b_current c B t p L N) as E.
  assert (alive c) as A by by exists t, p.
  destruct M; try done; try (split_and!; auto; done). by rewrite H in L.
Qed.

Lemma set_phase_base c t p q : base c -> transports c !! t = Some p -> p <> Over -> base (set_phase t q c).
Proof.
  intros B L N. pose proof (b_current c B t p L N) as E. destruct B as [C M H I D P Q].
  split; cbn; try done; intros u.
  - intros r Lr Nr. destruct (decide (u = t)) as [->|Ne]; [done|].
    rewrite lookup_insert_ne in Lr by done. by apply (C u r).
  - intros r Lr. destruct (decide (u = t)) as [->|Ne]; [by apply (M t p)|].
    rewrite lookup_insert_ne in Lr by done. by apply (M u r).
  - intros Eu. assert (u = t) as -> by congruence. rewrite lookup_insert_eq. eauto.
Qed.

Lemma set_phase_inv c m t p q : inv c m -> transports c !! t = Some p -> p <> Over -> q <> Over -> q <> Fresh ->
  (q = Opened -> m = Dialling) -> inv (set_phase t q c) m.
Proof.
  intros I L N Nq Nf K. destruct (live_mode c m t p I L N) as (E & A & T & Ic & Dm).
  destruct I as [B M]. split; [by apply (set_phase_base c t p q)|].
  assert (alive (set_phase t q c)) as A'.
  { exists t, q. split_and!; [done|cbn; apply lookup_insert_eq|done]. }
  destruct M; try by destruct Dm. 
  - by constructor.
  - constructor; try done.
    + intros N'. destruct N'. unfold is_open. cbn. rewrite E. cbn.
      rewrite lookup_insert_eq. cbn. rewrite decide_False; [done|]. intros ->. by specialize (K eq_refl).
    + intros u Eu. cbn in *. assert (u = t) as -> by congruence. rewrite lookup_insert_eq. congruence.
Qed.

(** The client [auth:success] leaves, before it flushes. *)
Notation authed now c := (ready now (set_status connected (set_connecting false c))).

Lemma setStatus_then s c f :
  and_then (setStatus s c) f = ((f (set_status s c)).1, [StatusIs s] ++ (f (set_status s c)).2).
Proof. reflexivity. Qed.

Lemma on_success_eq now c : on_success now c =
  ((flushPendingMessages (authed now c)).1, StatusIs connected :: (flushPendingMessages (authed now c)).2).
Proof. unfold on_success. rewrite setStatus_then. reflexivity. Qed.

Lemma on_message_fst msg now c : (on_message msg now c).1 =
  match msg with
  | Some AuthSuccess => (on_success now c).1
  | Some AuthFailure => (on_failure c).1
  | Some (Pong timestamp) => set_pong (Some (now - timestamp)) now c
  | _ => c
  end.
Proof.
  destruct msg as [msg|]; [|reflexivity]. unfold on_message. rewrite and_then_say.
  destruct msg; reflexivity.
Qed.

Lemma success_fst now c : base (authed now c) -> (on_message (Some AuthSuccess) now c).1 =
  set_pending (match sendable (authed now c) with Some _ => [] | None => pendingMessages (authed now c) end)
    (authed now c).
Proof.
  intros B. transitivity ((on_success now c).1); [apply on_message_fst|].
  rewrite (fst_eq _ _ _ (on_success_eq now c)). exact (flush_fst _ B).
Qed.

Lemma authed_base now c : base c -> base (authed now c).
Proof.
  intros []. split; cbn; try assumption.
  unfold MIN_RECONNECT_DELAY, MAX_RECONNECT_DELAY. lia.
Qed.

Lemma flush_online c : base c -> alive c -> connecting c = false -> status c = connected ->
  (forall t, transport c = Some t -> transports c !! t <> Some Fresh) ->
  reconnectTimer c = None -> intentionalClose c = false ->
  inv (set_pending (match sendable c with Some _ => [] | None => pendingMessages c end) c) Online.
Proof.
  intros B A C S F T I. split.
  - destruct B. split; cbn; try done; destruct (sendable c); cbn; (lia || done || constructor).
  - constructor; cbn; try done. intros O. change (is_open c <> None) in O.
    unfold sendable. rewrite decide_True by done. by destruct (is_open c).
Qed.

Lemma auth_success c m t p now : inv c m -> transports c !! t = Some p -> p <> Over -> p <> Fresh ->
  inv (on_message (Some AuthSuccess) now c).1 Online.
Proof.
  intros I L N F. destruct (live_mode c m t p I L N) as (E & A & T & Ic & Dm). destruct I as [B _].
  rewrite (success_fst now c (authed_base now c B)).
  apply (flush_online (authed now c)); [by apply authed_base|by apply (alive_same c)|reflexivity|reflexivity| |exact T|exact Ic].
  intros u Eu. change (transport c = Some u) in Eu. change (transports c !! u <> Some Fresh). congruence.
Qed.

Lemma auth_failure c m t p now : inv c m -> transports c !! t = Some p -> p <> Over ->
  inv (on_message (Some AuthFailure) now c).1 Stopped.
Proof.
  intros I L N. destruct (live_mode c m t p I L N) as (E & A & T & Ic & Dm). destruct I as [B _].
  rewrite on_message_fst. unfold on_failure. rewrite !and_then_fst.
  set (c1 := set_connecting false (set_intentional true c)).
  assert (base c1) as B1 by (apply (base_same c); try done; apply B).
  destruct (closeTransport_dead c1 B1) as (B2 & D & k & E2).
  split; cbn.
  - apply (base_same _ _ B2); try done; apply B2.
  - constructor; cbn; try done; by rewrite ?E2.
Qed.

Lemma close_waits c m t p : inv c m -> transports c !! t = Some p -> p <> Over ->
  inv (on_close t c).1 Waiting.
Proof.
  intros I L N. destruct (live_mode c m t p I L N) as (E & A & T & Ic & Dm). destruct I as [B _].
  unfold on_close. cbn zeta. cbn [intentionalClose stopPing set_ping set_connecting set_phase set_transports].
  rewrite Ic. cbn [negb]. rewrite and_then_fst. cbn [fst setStatus].
  pose proof (set_phase_base c t p Over B L N) as B1.
  apply schedule_waits; cbn; try done.
  - apply (base_same _ _ B1); try done. apply B1.
  - intros (u & q & Eu & Lu & Nq). cbn in *. assert (u = t) as -> by congruence.
    rewrite lookup_insert_eq in Lu. congruence.
  - by rewrite no_timers.
Qed.

Lemma disconnect_stops c : base c -> inv (disconnect c).1 Stopped.
Proof.
  intros B. unfold disconnect. rewrite and_then_fst.
  set (c1 := stopPing _). assert (base c1) as B1 by (apply (base_same c); try done; apply B).
  destruct (clearTimer_base c1 B1) as (B2 & T1 & T2 & E2).
  destruct (closeTransport_dead _ B2) as (B3 & D & k & E3).
  split; cbn.
  - apply (base_same _ _ B3); try done; apply B3.
  - constructor; cbn; try done; rewrite E3; cbn; try done. all: by rewrite E2.
Qed.

Lemma tick_inv c m now buffered : inv c m ->
  exists m', edge m (PingTick now buffered) m' /\ inv (ping_tick now buffered c).1 m'.
Proof.
  intros I. unfold ping_tick. destruct (pingTimer c) eqn:P; cbn [negb]; [|exists m; split; [by left|done]].
  assert (exists m', edge m (PingTick now buffered) m' /\ inv (dropConnection c).1 m') as D.
  { destruct I as [B M]. destruct (decide (m = Stopped)) as [->|N].
    - exists Stopped. split; [by left|]. by apply drop_stopped.
    - exists Waiting. destruct M; try congruence.
      all: split; [by right; auto|]. all: by apply drop_waits. }
  do 2 (case_match; [exact D|]).
  exists m. split; [by left|]. by apply send_inv.
Qed.

Lemma fires_inv c m i : inv c m ->
  exists m', edge m (TimerFires i) m' /\ inv (client_step c (TimerFires i)).1 m'.
Proof.
  intros [B M]. cbn [client_step]. destruct (decide (i ∈ timers c)) as [E|N].
  2:{ exists m. split; [by left|done]. }
  pose proof (b_timers c B i E) as T.
  exists Dialling. split; [right; inversion M; try congruence; done|].
  apply connect_dials; [|inversion M; cbn; congruence].
  destruct B. split; cbn; try done. intros j J. assert (reconnectTimer c = Some j) by set_solver.
  set_solver.
Qed.

Lemma idle_inv c m a r d : inv c m -> MIN_RECONNECT_DELAY <= d <= MAX_RECONNECT_DELAY ->
  inv (set_asked a (set_makeTransport r (set_delay d c))) m.
Proof. intros [B M] D. split; [by destruct B; split|by destruct M; econstructor]. Qed.

Lemma intentional_mode c m : inv c m -> intentionalClose c = bool_decide (m = Stopped).
Proof. by intros [_ []]. Qed.

Lemma reconnect_inv c m : inv c m ->
  inv (reconnectNow c).1 (match m with Stopped => Stopped | _ => Dialling end).
Proof.
  intros I. unfold reconnectNow. rewrite (intentional_mode c m I).
  case_bool_decide as S; [by rewrite S in *|].
  replace (match m with Stopped => Stopped | _ => Dialling end) with Dialling by by destruct m.
  pose proof I as [B M].
  apply (connect_inv _ m); [|by destruct M; econstructor].
  destruct B. split; cbn; try done; unfold MIN_RECONNECT_DELAY, MAX_RECONNECT_DELAY; lia.
Qed.

Lemma setTransport_inv c m route : inv c m ->
  inv (setTransport route c).1 (match m with Stopped => Stopped | _ => Dialling end).
Proof.
  intros I. unfold setTransport. cbn zeta. cbn [intentionalClose set_asked set_makeTransport].
  rewrite (intentional_mode c m I). pose proof I as [B M]. case_bool_decide as S.
  - subst. split; [by destruct B; split|by inversion M; subst; constructor].
  - replace (match m with Stopped => Stopped | _ => Dialling end) with Dialling by by destruct m.
    apply connect_dials; [|done].
    destruct B. split; cbn; try done; unfold MIN_RECONNECT_DELAY, MAX_RECONNECT_DELAY; lia.
Qed.

Lemma message_inv c m t msg now : inv c m -> calls_back c (TransportMessage t msg now) ->
  exists m', edge m (TransportMessage t msg now) m' /\ inv (on_message msg now c).1 m'.
Proof.
  intros I K.
  assert (exists p, transports c !! t = Some p /\ p <> Over /\ p <> Fresh) as (p & L & N & F).
  { destruct K as [K|K]; by eexists. }
  destruct (live_mode c m t p I L N) as (_ & _ & _ & _ & D).
  destruct msg as [[]|]; cbn [edge].
  - exists Online. split; [done|]. by apply (auth_success c m t p).
  - exists Stopped. split; [done|]. by apply (auth_failure c m t p).
  - exists m. split; [done|]. rewrite on_message_fst. destruct I as [B M].
    split; [by destruct B; split|by destruct M; econstructor].
  - exists m. by rewrite on_message_fst.
  - exists m. by rewrite on_message_fst.
Qed.

Lemma step_inv c m e : inv c m -> calls_back c e ->
  exists m', edge m e m' /\ inv (client_step c e).1 m'.
Proof.
  intros I K. pose proof I as [B M]. destruct e as [| | |route|msg|t|t msg now|t|t|i|now buffered].
  - exists Dialling. split; [done|]. by apply (connect_inv c m).
  - exists Stopped. split; [done|]. by apply disconnect_stops.
  - eexists. split; [done|]. by apply reconnect_inv.
  - eexists. split; [done|]. by apply setTransport_inv.
  - exists m. split; [done|]. by apply send_inv.
  - exists m. split; [done|]. apply (set_phase_inv c m t Fresh); try done. intros _.
    destruct (live_mode c m t Fresh I K) as (E & _ & _ & _ & [D|D]); try done.
    subst. inversion M as [| |? ? ? ? F| |]; subst. by destruct (F t).
  - by apply message_inv.
  - exists m. split; [done|]. by apply (set_phase_inv c m t Opened).
  - destruct K as (p & L & N). exists Waiting.
    destruct (live_mode c m t p I L N) as (_ & _ & _ & _ & D).
    split; [done|]. by apply (close_waits c m t p).
  - by apply fires_inv.
  - by apply tick_inv.
Qed.

(** ** Runs *)

(** A path of the abstract machine, one edge per event. *)
Inductive mode_path (m : Mode) : list ClientEvent -> Mode -> Prop :=
| path_nil : mode_path m [] m
| path_snoc es m' e m'' : mode_path m es m' -> edge m' e m'' -> mode_path m (es ++ [e]) m''.

Lemma client_run_inv route trace c : client_run (new_client route) trace c ->
  exists m, mode_path New trace.*1 m /\ inv c m.
Proof.
  induction 1 as [|trace c e R (m & P & I) K].
  - exists New. split; [constructor|apply new_inv].
  - destruct (step_inv c m e I K) as (m' & E & I'). exists m'. split; [|done].
    rewrite fmap_app. cbn. by apply path_snoc with m.
Qed.

(** C38: whatever the app, the transports and the timers do within the seam's
    contract, the client is in one of five modes and moves between them as
    the abstract machine does; at most the transport it holds is live and at
    most the timer it holds is out.  Away from [New] and [Stopped] it is
    never stuck: it dials on a live transport, is online on one, or waits for
    a timer that is out. *)
Theorem mode_refines route trace c : client_run (new_client route) trace c ->
  exists m, mode_path New trace.*1 m /\ in_mode c m /\
    (forall t p, transports c !! t = Some p -> p <> Over -> transport c = Some t) /\
    (forall i, i ∈ timers c -> reconnectTimer c = Some i) /\
    (m <> New -> m <> Stopped -> alive c \/ exists i, i ∈ timers c).
Proof.
  intros R. destruct (client_run_inv route trace c R) as (m & P & B & M). exists m.
  split_and!; [done|done|apply B|apply B|]. intros N1 N2. destruct M; eauto; done.
Qed.

(** *** What is given to [send] *)

Definition given_of (e : ClientEvent) : list ClientMessage :=
  match e with Send msg => if shouldQueue msg then [msg] else [] | _ => [] end.

Definition sent_of (o : ClientOutput) : list ClientMessage :=
  match o with Sends _ msg => if shouldQueue msg then [msg] else [] | _ => [] end.

Definition lost_of (o : ClientOutput) : nat := match o with DroppedMessages n => n | _ => 0 end.

Definition sends (o : ClientOutput) : bool := match o with Sends _ _ => true | _ => false end.

Definition given (trace : client_trace) : list ClientMessage := trace ≫= (fun s => given_of s.1).
Definition sent (out : list ClientOutput) : list ClientMessage := out ≫= sent_of.
Definition lost (out : list ClientOutput) : nat := sum_list (lost_of <$> out).
Definition outputs (trace : client_trace) : list ClientOutput := trace ≫= snd.

(** A step that neither sends nor forgets. *)
Definition mute (c : Client) (r : Client * list ClientOutput) : Prop :=
  pendingMessages r.1 = pendingMessages c /\ existsb sends r.2 = false /\ lost r.2 = 0%nat.

Lemma sent_app a b : sent (a ++ b) = sent a ++ sent b.
Proof. apply bind_app. Qed.
Lemma lost_app a b : lost (a ++ b) = (lost a + lost b)%nat.
Proof. unfold lost. by rewrite fmap_app, sum_list_with_app. Qed.

Lemma mute_then c r f : mute c r -> (forall c', pendingMessages c' = pendingMessages c -> mute c' (f c')) ->
  mute c (and_then r f).
Proof.
  intros (P & S & L) F. destruct (F r.1 P) as (P' & S' & L'). unfold mute. cbn [and_then fst snd].
  rewrite existsb_app, lost_app, S, L, S', L'. split_and!; [by rewrite P'|done|done].
Qed.

Lemma silent_sent out : existsb sends out = false -> sent out = [].
Proof.
  induction out as [|o out IH]; [done|]. cbn. intros [S1 S2]%orb_false_iff. unfold sent. cbn.
  unfold sent in IH. rewrite (IH S2). by destruct o.
Qed.

Lemma mute_close c : mute c (closeTransport c).
Proof. unfold closeTransport. by destruct (transport c). Qed.
Lemma mute_from c c' r : pendingMessages c = pendingMessages c' -> mute c r -> mute c' r.
Proof. unfold mute. by intros ->. Qed.

Lemma mute_connect c : mute c (connect c).
Proof.
  unfold connect. cbn zeta. apply (mute_from (clearTimer c)); [by unfold clearTimer; case_match|].
  case_match; [done|]. repeat (apply mute_then; [|by intros]). apply mute_close.
Qed.

Lemma mute_schedule c : mute c (scheduleReconnect c).
Proof.
  unfold scheduleReconnect. case_match; [done|]. cbn zeta.
  apply (mute_from (set_count (reconnectCount c + 1) c)); [done|].
  apply mute_then; [by case_match|by intros].
Qed.

Lemma mute_drop c : mute c (dropConnection c).
Proof.
  unfold dropConnection. apply mute_then; [apply mute_then|intros; apply mute_schedule]; [apply mute_close|].
  by intros.
Qed.

Lemma mute_on_close t c : mute c (on_close t c).
Proof.
  unfold on_close. cbn zeta. case_match; [|done].
  apply mute_then; [done|]. intros. apply mute_schedule.
Qed.

Lemma mute_failure c : mute c (on_failure c).
Proof.
  unfold on_failure. apply mute_then; [|by intros].
  apply (mute_from (set_connecting false (set_intentional true c))); [done|apply mute_close].
Qed.

Lemma mute_disconnect c : mute c (disconnect c).
Proof.
  unfold disconnect. apply mute_then; [|by intros].
  eapply mute_from; [|apply mute_close]. unfold clearTimer. by case_match.
Qed.

(** What one step does with what it had and what it was given. *)
Definition accounts (c : Client) (g : list ClientMessage) (r : Client * list ClientOutput) : Prop :=
  sublist (sent r.2 ++ pendingMessages r.1) (pendingMessages c ++ g) /\
  (length (sent r.2) + length (pendingMessages r.1) + lost r.2 = length (pendingMessages c) + length g)%nat.

Lemma mute_accounts c r : mute c r -> accounts c [] r.
Proof. intros (P & S%silent_sent & L). unfold accounts. rewrite P, S, L, app_nil_r. cbn. split; [done|lia]. Qed.

Lemma sent_fmap t ms : Forall (fun m => shouldQueue m = true) ms ->
  sent (Sends t <$> ms) = ms /\ lost (Sends t <$> ms) = 0%nat.
Proof.
  induction 1 as [|m ms Q _ [IH1 IH2]]; [done|]. unfold sent, lost in *. cbn. rewrite Q, IH1.
  by split; [|lia].
Qed.

Lemma flush_accounts c : base c -> accounts c [] (flushPendingMessages c).
Proof.
  intros B. rewrite (flush_spec c B). destruct (sendable c) as [t|]; [|by apply mute_accounts].
  unfold accounts. cbn [fst snd pendingMessages set_pending].
  destruct (sent_fmap t _ (b_queueable c B)) as [-> ->]. rewrite !app_nil_r. cbn. split; [done|lia].
Qed.

Lemma flushed_when_sendable c m : inv c m -> sendable c <> None -> pendingMessages c = [].
Proof.
  unfold sendable. intros [_ M] S. destruct (decide (status c = connected)) as [E|]; [|done].
  destruct M; try congruence; auto. by destruct H1 as [|]; congruence.
Qed.

Lemma send_accounts c m msg : inv c m -> accounts c (given_of (Send msg)) (send msg c).
Proof.
  intros I. cbn [given_of]. destruct (sendable c) as [t|] eqn:S.
  - rewrite (send_sends msg c t S). unfold accounts, sent, lost. cbn.
    rewrite (flushed_when_sendable c m I) by by rewrite S.
    destruct (shouldQueue msg); cbn; split; (done || lia).
  - unfold send. fold (sendable c). rewrite S. destruct (shouldQueue msg) eqn:Q; cbn [negb].
    2:{ by apply mute_accounts. }
    unfold accounts, sent, lost. case_match eqn:E; cbn [fst snd pendingMessages set_pending].
    + cbn. split.
      * apply sublist_drop.
      * apply Nat.ltb_lt in E. rewrite length_drop, length_app in *. cbn in *. lia.
    + cbn. rewrite length_app. cbn. split; [done|lia].
Qed.

Lemma accounts_then c g c' out r : accounts c g (c', out) -> accounts c' [] r ->
  accounts c g (r.1, out ++ r.2).
Proof.
  intros [S1 L1] [S2 L2]. unfold accounts in *. cbn [fst snd] in *.
  rewrite app_nil_r in S2. rewrite sent_app, lost_app, length_app. cbn in L2. split; [|lia].
  rewrite <- app_assoc. etrans; [|exact S1]. by apply sublist_app.
Qed.

Lemma accounts_say c g c' out o : accounts c g (c', out) -> existsb sends o = false -> lost o = 0%nat ->
  accounts c g (c', out ++ o).
Proof.
  intros A S L. apply (accounts_then c g c' out (c', o) A).
  by apply mute_accounts.
Qed.

Lemma success_accounts c now : base c -> accounts c [] (on_success now c).
Proof.
  intros B. rewrite on_success_eq. pose proof (flush_accounts (authed now c) (authed_base now c B)) as A.
  apply (accounts_then c [] (authed now c) [StatusIs connected] (flushPendingMessages (authed now c))); [|done].
  unfold accounts. cbn. rewrite app_nil_r. split; [done|lia].
Qed.

Lemma message_accounts c m msg now : inv c m -> accounts c [] (on_message msg now c).
Proof.
  intros I. destruct msg as [msg|]; [|by apply mute_accounts].
  unfold on_message. set (r := match msg with AuthSuccess => _ | _ => _ end).
  assert (accounts c [] r) as A.
  { destruct msg; unfold r; [apply success_accounts, I|apply mute_accounts, mute_failure|by apply mute_accounts..]. }
  destruct r as [c' out]. rewrite and_then_pair. by apply accounts_say.
Qed.

Lemma tick_accounts c m now buffered : inv c m -> accounts c [] (ping_tick now buffered c).
Proof.
  intros I. unfold ping_tick. case_match; [by apply mute_accounts|].
  do 2 (case_match; [apply mute_accounts, mute_drop|]).
  exact (send_accounts c m (mkMsg "ping" now) I).
Qed.

Lemma step_accounts c m e : inv c m -> accounts c (given_of e) (client_step c e).
Proof.
  intros I. destruct e; cbn [given_of client_step].
  - apply mute_accounts, mute_connect.
  - apply mute_accounts, mute_disconnect.
  - apply mute_accounts. unfold reconnectNow. case_match; [done|].
    eapply mute_from; [|apply mute_connect]. done.
  - apply mute_accounts. unfold setTransport. cbn zeta. case_match; [done|].
    eapply mute_from; [|apply mute_connect]. done.
  - by apply (send_accounts c m).
  - apply mute_accounts. unfold on_open, mute. cbn. by case_match.
  - by apply (message_accounts c m).
  - by apply mute_accounts.
  - apply mute_accounts, mute_on_close.
  - apply mute_accounts. case_match; [|done]. unfold timer_fires. eapply mute_from; [|apply mute_connect]. done.
  - by apply (tick_accounts c m).
Qed.

Lemma outputs_snoc trace s : outputs (trace ++ [s]) = outputs trace ++ s.2.
Proof. unfold outputs. rewrite bind_app. cbn. by rewrite app_nil_r. Qed.
Lemma given_snoc trace s : given (trace ++ [s]) = given trace ++ given_of s.1.
Proof. unfold given. rewrite bind_app. cbn. by rewrite app_nil_r. Qed.

(** Of the messages that may wait (not keystrokes, not attaches, not
    pings), none is lost unheard: along any run, those sent and then those
    still queued are, in order and without repetition, a subsequence of those
    given to [send]; and the ones missing are as many as were reported
    dropped. *)
Theorem accounting route trace c : client_run (new_client route) trace c ->
  sublist (sent (outputs trace) ++ pendingMessages c) (given trace) /\
  (length (sent (outputs trace)) + length (pendingMessages c) + lost (outputs trace) = length (given trace))%nat.
Proof.
  induction 1 as [|trace c e R [S L] K]; [done|].
  destruct (client_run_inv _ _ _ R) as (m & _ & I).
  destruct (step_accounts c m e I) as [S' L'].
  rewrite outputs_snoc, given_snoc, sent_app, lost_app, !length_app. cbn [fst snd] in *. split; [|lia].
  rewrite <- app_assoc. etrans; [by apply sublist_app; [reflexivity|exact S']|].
  rewrite app_assoc. by apply sublist_app.
Qed.

(** *** Nothing is said before the far end has accepted the token *)

(** A step that does not end online, or changes nothing that matters there. *)
Definition keeps_online (c : Client) (r : Client * list ClientOutput) : Prop :=
  status r.1 = connected -> status c = connected /\ transport r.1 = transport c.

Lemma keeps_schedule c : status c <> connected -> keeps_online c (scheduleReconnect c).
Proof.
  intros N. unfold keeps_online, scheduleReconnect. case_match; [done|]. cbn zeta. rewrite and_then_fst. cbn.
  by case_match.
Qed.

Lemma schedule_status c : status (scheduleReconnect c).1 = status c.
Proof. unfold scheduleReconnect. case_match; [done|]. cbn zeta. rewrite and_then_fst. cbn. by case_match. Qed.

Lemma keeps_drop c : keeps_online c (dropConnection c).
Proof. unfold keeps_online, dropConnection. rewrite !and_then_fst, schedule_status. done. Qed.

Lemma keeps_connect c c' : status c' = status c -> transport c' = transport c -> keeps_online c (connect c').
Proof.
  intros E1 E2. unfold keeps_online, connect, clearTimer. cbn zeta.
  destruct (reconnectTimer c'); cbn; case_match; cbn; rewrite ?E1, ?E2; try done; by case_match.
Qed.

Lemma keeps_send msg c : keeps_online c (send msg c).
Proof. destruct (send_spec msg c) as (l & E & _). unfold keeps_online. by rewrite E. Qed.

Lemma step_keeps_online c m e : inv c m -> calls_back c e ->
  status (client_step c e).1 = connected ->
  (exists t now, e = TransportMessage t (Some AuthSuccess) now /\ transport (client_step c e).1 = Some t) \/
  (status c = connected /\ transport (client_step c e).1 = transport c).
Proof.
  intros I K S.
  destruct e as [| | |route|msg|t|t msg now|t|t|i|now buffered];
    [| | | | | |destruct msg as [[]|]|..];
    lazymatch goal with
    | |- (exists _ _, TransportMessage _ (Some AuthSuccess) _ = _ /\ _) \/ _ => left
    | _ => right; revert S; cbn [client_step]
    end.
  - by apply keeps_connect.
  - done.
  - change (keeps_online c (reconnectNow c)). unfold reconnectNow. case_match; [done|]. by apply keeps_connect.
  - change (keeps_online c (setTransport route c)). unfold setTransport. cbn zeta.
    case_match; [done|]. by apply keeps_connect.
  - apply keeps_send.
  - done.
  - exists t, now. split; [done|]. cbn [client_step].
    assert (exists p, transports c !! t = Some p /\ p <> Over) as (p & L & N) by (destruct K; by eexists).
    destruct (live_mode c m t p I L N) as (E & _). destruct I as [B _].
    by rewrite (success_fst now c (authed_base now c B)).
  - by rewrite on_message_fst.
  - by rewrite on_message_fst.
  - by rewrite on_message_fst.
  - by rewrite on_message_fst.
  - done.
  - unfold on_close. cbn zeta. case_match; [|done]. by rewrite and_then_fst, schedule_status.
  - case_match; [|done]. by apply keeps_connect.
  - change (keeps_online c (ping_tick now buffered c)). unfold ping_tick.
    case_match; [done|]. do 2 (case_match; [apply keeps_drop|]). apply keeps_send.
Qed.

Lemma mute_no_sends c r t msg : mute c r -> Sends t msg ∈ r.2 -> False.
Proof.
  intros (_ & S & _) E. assert (existsb sends r.2 = true) as X; [|congruence].
  apply existsb_exists. exists (Sends t msg). split; [by apply list_elem_of_In|done].
Qed.

Lemma send_says c msg t msg' : Sends t msg' ∈ (send msg c).2 -> msg' = msg /\ sendable c = Some t.
Proof.
  unfold send. fold (sendable c). destruct (sendable c) as [u|]; [|repeat case_match; set_solver].
  cbn. intros ?%list_elem_of_singleton. by simplify_eq.
Qed.

Lemma sendable_current c t : sendable c = Some t -> status c = connected /\ transport c = Some t.
Proof.
  unfold sendable, is_open. destruct (decide (status c = connected)); [|done].
  destruct (transport c) as [u|]; [|done]. cbn. destruct (transports c !! u); [|done]. cbn.
  case_decide; [|done]. by intros [= ->].
Qed.

Lemma flush_says c t msg : base c -> Sends t msg ∈ (flushPendingMessages c).2 ->
  transport c = Some t /\ msg ∈ pendingMessages c.
Proof.
  intros B. rewrite (flush_spec c B). destruct (sendable c) as [v|] eqn:Q; cbn [snd]; [|set_solver].
  intros (msg' & ? & P)%list_elem_of_fmap. simplify_eq. split; [by apply sendable_current|done].
Qed.

Lemma snd_eq {A B} (x : A) (y : B) p : p = (x, y) -> p.2 = y.
Proof. by intros ->. Qed.

Lemma success_says now c t msg : base c -> Sends t msg ∈ (on_success now c).2 ->
  transport c = Some t /\ msg ∈ pendingMessages c.
Proof.
  intros B. rewrite (snd_eq _ _ _ (on_success_eq now c)). intros [S|S]%elem_of_cons; [done|].
  exact (flush_says _ t msg (authed_base now c B) S).
Qed.

Lemma message_says msg' now c t msg : base c -> Sends t msg ∈ (on_message msg' now c).2 ->
  msg' = Some AuthSuccess /\ transport c = Some t /\ msg ∈ pendingMessages c.
Proof.
  intros B. destruct msg' as [msg'|]; [|set_solver]. unfold on_message. rewrite and_then_said.
  intros [S|S]%elem_of_app; [|set_solver].
  destruct msg'; [|by destruct (mute_no_sends _ _ _ _ (mute_failure c) S)|set_solver..].
  split; [done|]. exact (success_says now c t msg B S).
Qed.

Lemma setTransport_says route c t msg : Sends t msg ∈ (setTransport route c).2 -> False.
Proof.
  unfold setTransport. cbn zeta. case_match; [set_solver|]. apply mute_no_sends with (1 := mute_connect _).
Qed.

Lemma reconnect_says c t msg : Sends t msg ∈ (reconnectNow c).2 -> False.
Proof.
  unfold reconnectNow. case_match; [set_solver|]. apply mute_no_sends with (1 := mute_connect _).
Qed.

Lemma fires_says i c t msg : Sends t msg ∈ (client_step c (TimerFires i)).2 -> False.
Proof.
  cbn [client_step]. case_match; [|set_solver]. unfold timer_fires.
  apply mute_no_sends with (1 := mute_connect _).
Qed.

Lemma tick_says now buffered c t msg : Sends t msg ∈ (ping_tick now buffered c).2 ->
  msg = mkMsg "ping" now /\ sendable c = Some t.
Proof.
  unfold ping_tick. case_match; [set_solver|].
  do 2 (case_match; [by intros []%(mute_no_sends _ _ _ _ (mute_drop c))|]). apply send_says.
Qed.

(** Where a sent message comes from. *)
Lemma step_sends c m e t msg : inv c m -> calls_back c e -> Sends t msg ∈ (client_step c e).2 ->
  ((e = Send msg \/ exists now buffered, e = PingTick now buffered /\ msg = mkMsg "ping" now) /\
     status c = connected /\ transport c = Some t) \/
  (exists now, e = TransportMessage t (Some AuthSuccess) now /\ msg ∈ pendingMessages c).
Proof.
  intros I K S.
  destruct e as [| | |route|msg'|u|u msg' now|u|u|i|now buffered].
  - by destruct (mute_no_sends _ _ _ _ (mute_connect c) S).
  - by destruct (mute_no_sends _ _ _ _ (mute_disconnect c) S).
  - by apply reconnect_says in S.
  - by apply setTransport_says in S.
  - left. destruct (send_says c msg' t msg S) as [E Y]. clear S. subst. split; [by left|].
    by apply sendable_current.
  - unfold client_step, on_open in S; cbn in S; case_match; set_solver.
  - right. destruct (message_says msg' now c t msg (proj1 I) S) as (E & Et & P). clear S. subst.
    exists now. split; [|done].
    assert (exists p, transports c !! u = Some p /\ p <> Over) as (p & L & N) by (destruct K; by eexists).
    destruct (live_mode c m u p I L N) as (Eu & _). congruence.
  - cbn in S; set_solver.
  - by destruct (mute_no_sends _ _ _ _ (mute_on_close u c) S).
  - by apply fires_says in S.
  - left. destruct (tick_says now buffered c t msg S) as [E Y]. clear S. subst. split; [right; eauto|].
    by apply sendable_current.
Qed.

Lemma last_event (trace : client_trace) e out : e ∈ (trace ++ [(e, out)]).*1.
Proof. rewrite fmap_app. apply elem_of_app. right. by apply list_elem_of_singleton. Qed.

Definition accepted (trace : client_trace) (t : nat) : Prop :=
  exists now, TransportMessage t (Some AuthSuccess) now ∈ trace.*1.

Lemma accepted_snoc trace s t : accepted trace t -> accepted (trace ++ [s]) t.
Proof. intros [now A]. exists now. rewrite fmap_app. set_solver. Qed.

Lemma online_accepted route trace c : client_run (new_client route) trace c -> status c = connected ->
  exists t, transport c = Some t /\ accepted trace t.
Proof.
  induction 1 as [|trace c e R IH K]; [done|]. intros S.
  destruct (client_run_inv _ _ _ R) as (m & _ & I).
  destruct (step_keeps_online c m e I K S) as [(t & now & -> & E)|[E1 E2]].
  - exists t. split; [exact E|]. exists now. apply last_event.
  - destruct (IH E1) as (t & Et & A). exists t. split; [congruence|]. by apply accepted_snoc.
Qed.

(** Only the token is sent to a far end that has not accepted it: what
    goes out on a transport goes out after that transport's [auth:success], or
    in answer to it.  And what must not outlive a disconnect (keystrokes,
    resizes, scrolls, attaches) goes out in the very call that sent it, or
    never. *)
Theorem sends_after_acceptance route trace e out c t msg :
  client_run (new_client route) trace c -> (e, out) ∈ trace -> Sends t msg ∈ out ->
  accepted trace t /\
  (shouldQueue msg = false -> e = Send msg \/ exists now buffered, e = PingTick now buffered).
Proof.
  induction 1 as [|trace c f R IH K]; [set_solver|]. intros E S.
  apply elem_of_app in E as [E|E%list_elem_of_singleton].
  { destruct (IH E S) as [A B]. split; [by apply accepted_snoc|done]. }
  simplify_eq. destruct (client_run_inv _ _ _ R) as (m & _ & I).
  destruct (step_sends c m f t msg I K S) as [(D & C & T)|(now & -> & P)].
  - split; [|naive_solver]. destruct (online_accepted _ _ _ R C) as (u & Eu & A).
    simplify_eq. by apply accepted_snoc.
  - split; [exists now; apply last_event|].
    destruct I as [B _]. pose proof (proj1 (Forall_forall _ _) (b_queueable c B) msg P). cbn in *. congruence.
Qed.

(** *** Coming back *)

Lemma connect_fresh c : base c -> connecting c = false ->
  transport (connect c).1 = Some (made c) /\ transports (connect c).1 !! made c = Some Fresh /\
  pendingMessages (connect c).1 = pendingMessages c /\ existsb sends (connect c).2 = false.
Proof.
  intros B N. destruct (mute_connect c) as (P & S & _). split_and!; [| |done|done]; clear P S.
  all: unfold connect; cbn zeta.
  all: destruct (clearTimer_base c B) as (B1 & _ & _ & E1).
  all: assert (connecting (clearTimer c) = false) as -> by by rewrite E1.
  all: assert (made (closeTransport (clearTimer c)).1 = made c) as E2
    by (destruct (closeTransport_dead _ B1) as (_ & _ & m & ->); by rewrite E1).
  - rewrite !and_then_fst. cbn. by rewrite E2.
  - rewrite !and_then_fst. cbn. rewrite E2. apply lookup_insert_eq.
Qed.

Lemma fires_fresh c m i : inv c m -> i ∈ timers c -> connecting c = false ->
  transport (client_step c (TimerFires i)).1 = Some (made c) /\
  transports (client_step c (TimerFires i)).1 !! made c = Some Fresh /\
  pendingMessages (client_step c (TimerFires i)).1 = pendingMessages c /\
  existsb sends (client_step c (TimerFires i)).2 = false.
Proof.
  intros [B M] E N. unfold client_step. rewrite decide_True by done. unfold timer_fires.
  apply (connect_fresh (set_timer None (timers c ∖ {[i]}) c)); [|exact N].
  destruct B as [? ? ? T ? ? ?]. split; cbn; try done.
  intros j J. pose proof (T i E). assert (reconnectTimer c = Some j) by set_solver. set_solver.
Qed.

Lemma outputs_three e1 o1 e2 o2 e3 o3 :
  outputs ([(e1, o1)] ++ [(e2, o2)] ++ [(e3, o3)]) = o1 ++ o2 ++ o3.
Proof. unfold outputs. cbn. by rewrite app_nil_r. Qed.

Lemma opened_success now c t : base c -> transport c = Some t -> transports c !! t = Some Opened ->
  status (client_step c (TransportMessage t (Some AuthSuccess) now)).1 = connected /\
  pendingMessages (client_step c (TransportMessage t (Some AuthSuccess) now)).1 = [] /\
  sent (client_step c (TransportMessage t (Some AuthSuccess) now)).2 = pendingMessages c.
Proof.
  intros B E L. change (client_step c (TransportMessage t (Some AuthSuccess) now)) with (on_message (Some AuthSuccess) now c).
  pose proof (authed_base now c B) as B'.
  assert (sendable (authed now c) = Some t) as S.
  { unfold sendable. rewrite decide_True by done. unfold is_open.
    change (transport (authed now c)) with (transport c). change (transports (authed now c)) with (transports c).
    rewrite E. cbn. by rewrite L. }
  split_and!.
  - by rewrite (success_fst now c B').
  - by rewrite (success_fst now c B'), S.
  - unfold on_message. rewrite and_then_said, (snd_eq _ _ _ (on_success_eq now c)).
    rewrite (flush_spec _ B'), S, sent_app. cbn [snd].
    destruct (sent_fmap t _ (b_queueable c B)) as [Q _].
    change (pendingMessages (authed now c)) with (pendingMessages c).
    unfold sent in *. cbn. by rewrite Q, app_nil_r.
Qed.

Lemma opens_then t c : transports (client_step c (TransportOpens t)).1 !! t = Some Opened /\
  transport (client_step c (TransportOpens t)).1 = transport c /\
  pendingMessages (client_step c (TransportOpens t)).1 = pendingMessages c /\
  existsb sends (client_step c (TransportOpens t)).2 = false.
Proof. unfold client_step, on_open. cbn. split_and!; [apply lookup_insert_eq|done|done|by case_match]. Qed.

(** A client that waits can always come back: its timer fires, the
    transport it then makes opens and accepts the token, and the client is
    online with its queue sent in order and empty. *)
Theorem recovers route trace c i now : client_run (new_client route) trace c -> i ∈ timers c ->
  exists trace' c', client_run (new_client route) (trace ++ trace') c' /\
    trace'.*1 = [TimerFires i; TransportOpens (made c); TransportMessage (made c) (Some AuthSuccess) now] /\
    status c' = connected /\ pendingMessages c' = [] /\ sent (outputs trace') = pendingMessages c.
Proof.
  intros R E. destruct (client_run_inv _ _ _ R) as (m & _ & I).
  assert (connecting c = false) as N.
  { pose proof I as [B M]. pose proof (b_timers c B i E). destruct M; congruence. }
  destruct (fires_fresh c m i I E N) as (Et & L & P & S).
  pose proof (run_snoc _ _ _ (TimerFires i) R Logic.I) as R1.
  set (s1 := client_step c (TimerFires i)) in *. clearbody s1.
  pose proof (run_snoc _ _ _ (TransportOpens (made c)) R1 L) as R2.
  destruct (opens_then (made c) s1.1) as (L2 & E2 & P2 & S2). rewrite Et in E2. rewrite P in P2.
  set (s2 := client_step s1.1 (TransportOpens (made c))) in *. clearbody s2.
  pose proof (run_snoc _ _ _ (TransportMessage (made c) (Some AuthSuccess) now) R2 (or_introl L2)) as R3.
  destruct (client_run_inv _ _ _ R2) as (m2 & _ & I2).
  destruct (opened_success now s2.1 (made c) (proj1 I2) E2 L2) as (Q1 & Q2 & Q3).
  set (s3 := client_step s2.1 (TransportMessage (made c) (Some AuthSuccess) now)) in *. clearbody s3.
  rewrite <- !app_assoc in R3. eexists _, _. split; [exact R3|]. split_and!; [reflexivity|exact Q1|exact Q2|].
  rewrite outputs_three, !sent_app.
  by rewrite (silent_sent _ S), (silent_sent _ S2), !app_nil_l, Q3, P2.
Qed.

(** ** The attach machine *)

Definition attach_run (es : list AttachEvent) : AttachState := foldl reduceAttach Idle es.

(** [state] wants the session of attempt [i], asked for in [es] and not given
    up since; attached only if that attempt was answered. *)
Definition wanted (es : list AttachEvent) (n i : string) (answered : bool) : Prop :=
  exists pre post, es = pre ++ RequestAttach n i :: post /\ Detach ∉ post /\
    (answered = true -> exists name a, ServerAttached name a ∈ post /\ (a = Some i \/ (a = None /\ name = n))).

Lemma wanted_later es n i b e : wanted es n i b -> e <> Detach -> wanted (es ++ [e]) n i b.
Proof.
  intros (pre & post & -> & D & A) N. exists pre, (post ++ [e]). rewrite <- app_assoc. split_and!; [done| |].
  - rewrite not_elem_of_app, list_elem_of_singleton. naive_solver.
  - intros Hb. destruct (A Hb) as (name & a & E & M). exists name, a. split; [set_solver|done].
Qed.

Lemma wanted_less es n i b : wanted es n i b -> wanted es n i false.
Proof. intros (pre & post & E & D & _). by exists pre, post. Qed.

Lemma attach_inv es : match attach_run es with
  | Idle => True
  | Attaching n i => wanted es n i false
  | Attached n i => wanted es n i true
  end.
Proof.
  induction es as [|e es IH] using rev_ind; [done|]. unfold attach_run in *. rewrite foldl_snoc.
  assert (forall n i, e = RequestAttach n i -> wanted (es ++ [e]) n i false) as New.
  { intros n i ->. exists es, []. split_and!; [done|set_solver|done]. }
  destruct e as [n i|name a| |], (foldl reduceAttach Idle es) as [|m j|m j]; cbn; try done;
    try by apply New.
  - case_decide; [by apply wanted_later|by apply New].
  - destruct (negb _) eqn:N; [by apply wanted_later|].
    destruct IH as (pre & post & -> & D & _). exists pre, (post ++ [ServerAttached name a]).
    rewrite <- app_assoc. split_and!; [done| |].
    + rewrite not_elem_of_app, list_elem_of_singleton. naive_solver.
    + intros _. exists name, a. split; [set_solver|].
      apply negb_false_iff in N. destruct a; case_bool_decide; subst; auto; done.
  - by apply wanted_later.
  - by apply wanted_later.
  - by apply (wanted_less _ _ _ true), wanted_later.
Qed.

(** What is written to the terminal is the session's that was asked for last:
    output is shown only between the answer to the attempt in force and the
    next attempt, detach or lost connection. *)
Theorem attached_by_its_ack es n i : attach_run es = Attached n i -> wanted es n i true.
Proof. intros E. pose proof (attach_inv es) as W. by rewrite E in W. Qed.

(** ** Runs on concrete clients *)

Module ClientDemo.

Definition may_call_back (c : Client) (e : ClientEvent) : bool :=
  match e with
  | TransportOpens t => bool_decide (transports c !! t = Some Fresh)
  | TransportMessage t _ _ =>
      bool_decide (transports c !! t = Some Opened) || bool_decide (transports c !! t = Some Shut)
  | TransportShuts t => bool_decide (transports c !! t = Some Opened)
  | TransportCloses t => match transports c !! t with Some p => negb (bool_decide (p = Over)) | None => false end
  | _ => true
  end.

Lemma may_call_back_spec c e : may_call_back c e = true -> calls_back c e.
Proof.
  destruct e; cbn [may_call_back calls_back]; try done.
  - apply bool_decide_eq_true.
  - intros [?%bool_decide_eq_true|?%bool_decide_eq_true]%orb_true_iff; auto.
  - apply bool_decide_eq_true.
  - destruct (transports c !! t); [|done]. intros ?%negb_true_iff%bool_decide_eq_false. eauto.
Qed.

Fixpoint exec (c : Client) (es : list ClientEvent) (trace : client_trace) : option (client_trace * Client) :=
  match es with
  | [] => Some (trace, c)
  | e :: es =>
      if may_call_back c e
      then let s := client_step c e in exec s.1 es (trace ++ [(e, s.2)]) else None
  end.

Lemma exec_run c0 es : forall c trace trace' c', client_run c0 trace c ->
  exec c es trace = Some (trace', c') -> client_run c0 trace' c'.
Proof.
  induction es as [|e es IH]; intros c trace trace' c' R; cbn [exec].
  - by intros [= <- <-].
  - destruct (may_call_back c e) eqn:K; [|done]. cbn zeta. apply IH.
    by apply run_snoc; [|apply may_call_back_spec].
Qed.

Definition input : ClientMessage := mkMsg "terminal:input" 7.
Definition listing : ClientMessage := mkMsg "session:list" 0.

(** Online, then the line drops; a keystroke is lost, a listing waits. *)
Definition session : list ClientEvent :=
  [Connect; TransportOpens 0; TransportMessage 0 (Some AuthSuccess) 1000; Send input;
   TransportShuts 0; Send input; Send listing; TransportCloses 0].
Definition back : list ClientEvent :=
  session ++ [TimerFires 0; TransportOpens 1; TransportMessage 1 (Some AuthSuccess) 3000].

Definition session_end : client_trace * Client := default ([], new_client 0) (exec (new_client 0) session []).
Definition back_end : client_trace * Client := default ([], new_client 0) (exec (new_client 0) back []).

Lemma exec_default es : bool_decide (is_Some (exec (new_client 0) es [])) = true ->
  let r := default ([], new_client 0) (exec (new_client 0) es []) in client_run (new_client 0) r.1 r.2.
Proof.
  intros H%bool_decide_eq_true. destruct (exec (new_client 0) es []) as [[trace c]|] eqn:E; [|by destruct H].
  by apply (exec_run _ es (new_client 0) []); [constructor|].
Qed.

Lemma session_end_runs : client_run (new_client 0) session_end.1 session_end.2.
Proof. apply exec_default. vm_compute. reflexivity. Qed.
Lemma back_runs : client_run (new_client 0) back_end.1 back_end.2.
Proof. apply exec_default. vm_compute. reflexivity. Qed.

Lemma mode_refines_witness : exists m, mode_path New session_end.1.*1 m /\ in_mode session_end.2 m.
Proof.
  destruct (mode_refines 0 session_end.1 session_end.2 session_end_runs) as (m & P & M & _).
  by exists m.
Defined.

Lemma accounting_witness : sublist (sent (outputs back_end.1) ++ pendingMessages back_end.2) [listing].
Proof. exact (proj1 (accounting 0 back_end.1 back_end.2 back_runs)). Defined.

Lemma sends_after_acceptance_witness : accepted back_end.1 0 /\ accepted back_end.1 1.
Proof.
  split.
  - apply (sends_after_acceptance 0 back_end.1 (Send input) [Sends 0 input] back_end.2 0 input back_runs).
    + apply list_elem_of_In. vm_compute. tauto.
    + apply list_elem_of_In. vm_compute. tauto.
  - apply (sends_after_acceptance 0 back_end.1 (TransportMessage 1 (Some AuthSuccess) 3000)
             [StatusIs connected; Sends 1 listing; Delivers AuthSuccess] back_end.2 1 listing back_runs).
    + apply list_elem_of_In. vm_compute. tauto.
    + apply list_elem_of_In. vm_compute. tauto.
Defined.

Lemma recovers_witness : exists trace' c',
  client_run (new_client 0) (session_end.1 ++ trace') c' /\
  status c' = connected /\ sent (outputs trace') = [listing].
Proof.
  destruct (recovers 0 session_end.1 session_end.2 0 3000 session_end_runs) as (trace' & c' & R & _ & S & _ & Q).
  - apply (bool_decide_unpack _). vm_compute. exact I.
  - exists trace', c'. split; [exact R|]. split; [exact S|]. rewrite Q. vm_compute. reflexivity.
Defined.

(** [connect] on a healthy connection replaces it: what its guard looks at
    is an attempt in progress, not an open transport. *)
Lemma connect_replaces_open :
  (connect (default ([], new_client 0) (exec (new_client 0)
     [Connect; TransportOpens 0; TransportMessage 0 (Some AuthSuccess) 1000] [])).2).2 =
    [Closes 0; StatusIs connecting_; Opens 1 0].
Proof. vm_compute. reflexivity. Qed.

(** A refused token leaves the ping timer of the connection before it
    running: 25 seconds later the client says it is reconnecting, and no
    timer is out to do so. *)
Definition refused : list ClientEvent :=
  [Connect; TransportOpens 0; TransportMessage 0 (Some AuthSuccess) 1000; ReconnectNow;
   TransportOpens 1; TransportMessage 1 (Some AuthFailure) 2000; PingTick 31000 0].
Definition refused_end : client_trace * Client := default ([], new_client 0) (exec (new_client 0) refused []).

Theorem refused_says_reconnecting : client_run (new_client 0) refused_end.1 refused_end.2 /\
  status refused_end.2 = reconnecting /\ intentionalClose refused_end.2 = true /\
  timers refused_end.2 = ∅ /\ transport refused_end.2 = None.
Proof. split; [apply exec_default; vm_compute; reflexivity|]. vm_compute. done. Qed.

(** A transport that reports its close twice, which the contract rules out:
    the first timer is forgotten but still fires, and tears down the
    connection that came back. *)
Definition twice_closed : Client :=
  foldl (fun c e => (client_step c e).1) (new_client 0)
    [Connect; TransportOpens 0; TransportMessage 0 (Some AuthSuccess) 1000;
     TransportCloses 0; TransportCloses 0;
     TimerFires 0; TransportOpens 1; TransportMessage 1 (Some AuthSuccess) 2500].

Theorem second_close_drops_healthy : status twice_closed = connected /\ 1%nat ∈ timers twice_closed /\
  (client_step twice_closed (TimerFires 1)).2 = [Closes 1; StatusIs connecting_; Opens 2 0].
Proof.
  split_and!; [vm_compute; reflexivity| |vm_compute; reflexivity].
  apply (bool_decide_unpack _). vm_compute. exact I.
Qed.
End ClientDemo.
