(* ===== verification/SealedTransport.v ===== *)
(** * SealedTransport: the relay protocol over the broker's tunnel

    [SealedTransport] of [apps/web/src/lib/transport.ts]: a line is sealed and
    framed on its way out, a frame is opened on its way in.  Both directions
    are promise chains: [outbound] and [inbound] are the jobs not begun, and
    the job at an [await] is [sealing] or [opening]; anything may happen in
    between.  A transport is connected once, as [RelayClient] does.  What
    WebCrypto computes is [Frames]; [decode] is [TextDecoder]. *)

From S2P Require Import Prelude Protocol Bytes Noble Kdf Frames.

#[local] Open Scope string_scope.
#[local] Open Scope list_scope.
#[local] Open Scope Z_scope.

(** The socket: [null], or its [readyState]. *)
Inductive Socket := NoSocket | ConnectingWs | OpenWs | ClosingWs | ClosedWs.
#[export] Instance Socket_eq_dec : EqDecision Socket.
Proof. solve_decision. Defined.

Record Sealed := mkSealed {
  st_ws : Socket;
  st_detached : bool;
  st_streamId : option string;
  st_sealer : FrameSealer;
  st_opener : option FrameOpener;
  st_queued : list string;
  st_outbound : list (string * string);
  st_sealing : option (string * result FrameError bytes);
  st_inbound : list string;
  st_opening : option bytes;
}.

(** What the transport does: calls its handlers, and writes to its socket. *)
Inductive SealedOutput :=
| CallsOpen
| CallsMessage (text : string)
| CallsClose
| Writes (streamId data : string).

Inductive SealedEvent :=
| SocketOpens
| SocketMessage (parsed : option TunnelServerMessage)
| SocketCloses
| SocketShuts                       (** [readyState] leaves [OPEN] *)
| SendText (text : string)
| CloseTransport
| SealStarts | SealEnds             (** the head of [outbound] *)
| OpenStarts | OpenEnds.            (** the head of [inbound] *)

Section Sealed.
Context `{!Hkdf, !Aead}.
Context (decode : bytes -> string) (keys : SessionKeys).

(** [connect], whose socket is made, or is not. *)
Definition sealed_connect (salt : bytes) (constructs : bool) : result FrameError (Sealed * list SealedOutput) :=
  sealer ← newSealer (k_c2s keys) c2s frame salt;
  Ok (mkSealed (if constructs then ConnectingWs else NoSocket) false None sealer None [] [] None [] None,
      if constructs then [] else [CallsClose]).

Definition sealed_close (t : Sealed) : Sealed :=
  mkSealed NoSocket true None (st_sealer t) (st_opener t) (st_queued t) (st_outbound t) (st_sealing t)
    (st_inbound t) (st_opening t).

Definition sealed_isOpen (t : Sealed) : bool :=
  bool_decide (st_ws t = OpenWs) && bool_decide (st_streamId t <> None).

Definition set_ws (w : Socket) (t : Sealed) : Sealed :=
  mkSealed w (st_detached t) (st_streamId t) (st_sealer t) (st_opener t) (st_queued t) (st_outbound t)
    (st_sealing t) (st_inbound t) (st_opening t).
Definition set_out (q : list string) (o : list (string * string)) (t : Sealed) : Sealed :=
  mkSealed (st_ws t) (st_detached t) (st_streamId t) (st_sealer t) (st_opener t) q o (st_sealing t)
    (st_inbound t) (st_opening t).
Definition set_sealing (s : FrameSealer) (o : list (string * string))
    (j : option (string * result FrameError bytes)) (t : Sealed) : Sealed :=
  mkSealed (st_ws t) (st_detached t) (st_streamId t) s (st_opener t) (st_queued t) o j
    (st_inbound t) (st_opening t).
Definition set_stream (id : string) (t : Sealed) : Sealed :=
  mkSealed (st_ws t) (st_detached t) (Some id) (st_sealer t) (st_opener t) (st_queued t) (st_outbound t)
    (st_sealing t) (st_inbound t) (st_opening t).
Definition set_in (i : list string) (j : option bytes) (o : option FrameOpener) (t : Sealed) : Sealed :=
  mkSealed (st_ws t) (st_detached t) (st_streamId t) (st_sealer t) o (st_queued t) (st_outbound t)
    (st_sealing t) i j.

Definition sealed_send (text : string) (t : Sealed) : Sealed :=
  match st_streamId t with
  | None => set_out (st_queued t ++ [text]) (st_outbound t) t
  | Some id => set_out (st_queued t) (st_outbound t ++ [(id, text)]) t
  end.

Definition handleControl (msg : TunnelServerMessage) (t : Sealed) : Sealed * list SealedOutput :=
  match msg with
  | TunnelStreamOpenMessage id =>
      let t := set_stream id t in
      (foldl (fun t text => sealed_send text t) (set_out [] (st_outbound t) t) (st_queued t), [CallsOpen])
  | TunnelServerStreamClose _ _ | TunnelClosedMessage _ => (sealed_close t, [CallsClose])
  | _ => (t, [])
  end.

(** [ws.onmessage]; [None] is a message that does not parse. *)
Definition socket_message (parsed : option TunnelServerMessage) (t : Sealed) : Sealed * list SealedOutput :=
  if st_detached t then (t, [])
  else
    match parsed with
    | None => (t, [])
    | Some (TunnelServerFrame _ data) => (set_in (st_inbound t ++ [data]) (st_opening t) (st_opener t) t, [])
    | Some msg => handleControl msg t
    end.

(** [handleFrame] up to its [await], and [catch]. *)
Definition frame_fails (t : Sealed) : Sealed * list SealedOutput := (sealed_close t, [CallsClose]).

Definition open_starts (t : Sealed) : Sealed * list SealedOutput :=
  match st_opening t, st_inbound t with
  | None, data :: rest =>
      let t := set_in rest None (st_opener t) t in
      if st_detached t then (t, [])
      else
        match base64UrlToBytes (js data) with
        | Err _ => frame_fails t
        | Ok bytes => (set_in rest (Some bytes) (st_opener t) t, [])
        end
  | _, _ => (t, [])
  end.

(** Bind on the first frame, open the others. *)
Definition accept (opener : option FrameOpener) (bytes : bytes) : option (FrameOpener * Bytes.bytes) :=
  match opener with
  | None => match bind (k_s2c keys) s2c bytes frame with Ok (o, p) => Some (o, p) | Err _ => None end
  | Some o => match open bytes o with (Ok p, o) => Some (o, p) | (Err _, _) => None end
  end.

Definition open_ends (t : Sealed) : Sealed * list SealedOutput :=
  match st_opening t with
  | None => (t, [])
  | Some bytes =>
      match accept (st_opener t) bytes with
      | Some (o, plaintext) =>
          (set_in (st_inbound t) None (Some o) t,
           if st_detached t then [] else [CallsMessage (decode plaintext)])
      | None => frame_fails (set_in (st_inbound t) None (st_opener t) t)
      end
  end.

Definition seal_starts (t : Sealed) : Sealed :=
  match st_sealing t, st_outbound t with
  | None, (id, text) :: rest =>
      let '(sealed, sealer) := seal (utf8 text) (st_sealer t) in
      set_sealing sealer rest (Some (id, sealed)) t
  | _, _ => t
  end.

Definition seal_ends (t : Sealed) : Sealed * list SealedOutput :=
  match st_sealing t with
  | None => (t, [])
  | Some (id, sealed) =>
      (set_sealing (st_sealer t) (st_outbound t) None t,
       match sealed with
       | Err _ => []
       | Ok sealed =>
           if st_detached t || negb (bool_decide (st_ws t = OpenWs)) then []
           else [Writes id (ascii_str (bytesToBase64Url sealed))]
       end)
  end.

Definition sealed_step (t : Sealed) (e : SealedEvent) : Sealed * list SealedOutput :=
  match e with
  | SocketOpens => (if decide (st_ws t = ConnectingWs) then set_ws OpenWs t else t, [])
  | SocketMessage parsed =>
      match st_ws t with OpenWs => socket_message parsed t | _ => (t, []) end
  | SocketCloses =>
      match st_ws t with
      | NoSocket | ClosedWs => (t, [])
      | _ => (set_ws ClosedWs t, if st_detached t then [] else [CallsClose])
      end
  | SocketShuts =>
      (match st_ws t with ConnectingWs | OpenWs => set_ws ClosingWs t | _ => t end, [])
  | SendText text => (sealed_send text t, [])
  | CloseTransport => (sealed_close t, [])
  | SealStarts => (seal_starts t, [])
  | SealEnds => seal_ends t
  | OpenStarts => open_starts t
  | OpenEnds => open_ends t
  end.

Fixpoint sealed_run (t : Sealed) (es : list SealedEvent) : Sealed * list SealedOutput :=
  match es with
  | [] => (t, [])
  | e :: es =>
      let s := sealed_step t e in
      let r := sealed_run s.1 es in (r.1, s.2 ++ r.2)
  end.

Lemma sealed_run_snoc t es e :
  sealed_run t (es ++ [e]) =
    ((sealed_step (sealed_run t es).1 e).1, (sealed_run t es).2 ++ (sealed_step (sealed_run t es).1 e).2).
Proof.
  revert t. induction es as [|f es IH]; intros t; cbn; [by rewrite app_nil_r|].
  rewrite IH. cbn. by rewrite app_assoc.
Qed.

(** ** Outbound: frames leave in the order of the calls *)

(** What sealing [ps] one after the other makes, up to the first refusal, and
    the sealer after. *)
Fixpoint seal_upto (ps : list bytes) (s : FrameSealer) : list bytes :=
  match ps with
  | [] => []
  | p :: ps => match seal p s with (Ok f, s) => f :: seal_upto ps s | (Err _, _) => [] end
  end.

Definition sealer_after (ps : list bytes) (s : FrameSealer) : FrameSealer :=
  foldl (fun s p => (seal p s).2) s ps.

Lemma seal_refused p q s e s' : seal p s = (Err e, s') -> s' = s /\ seal q s = (Err CounterExhausted, s).
Proof. unfold seal. destruct (MAX_COUNTER <? sl_counter s); [|done]. by intros [= _ <-]. Qed.

Lemma sealer_refused ps s : seal_upto ps s = [] -> ps <> [] -> sealer_after ps s = s /\ (forall q, exists e, seal q s = (Err e, s)).
Proof.
  induction ps as [|p ps IH]; [done|]. cbn. destruct (seal p s) as [[f|e] s'] eqn:E; [done|]. intros _ _.
  destruct (seal_refused p p s e s' E) as [-> _]. cbn.
  assert (forall q, exists e, seal q s = (Err e, s)) as R.
  { intros q. destruct (seal_refused p q s e s E) as [_ X]. eauto. }
  split; [|done]. clear IH E. induction ps as [|q ps IH]; [done|]. cbn. destruct (R q) as [e' ->]. exact IH.
Qed.

Lemma seal_upto_snoc ps p s : seal_upto (ps ++ [p]) s =
  seal_upto ps s ++ match seal p (sealer_after ps s) with (Ok f, _) => [f] | _ => [] end.
Proof.
  revert s. induction ps as [|q ps IH]; intros s; cbn; [by destruct (seal p s) as [[]]|].
  destruct (seal q s) as [[f|e] s'] eqn:E; cbn [snd].
  - by rewrite IH.
  - destruct (sealer_refused (q :: ps) s) as [A R]; [cbn; by rewrite E|done|].
    cbn in A. rewrite E in A. cbn in A. rewrite A. by destruct (R p) as [e' ->].
Qed.

Lemma seal_upto_more ps qs s : seal_upto ps s `prefix_of` seal_upto (ps ++ qs) s.
Proof.
  revert s. induction ps as [|p ps IH]; intros s; cbn; [apply prefix_nil|].
  destruct (seal p s) as [[f|e] s']; [|done]. by apply prefix_cons.
Qed.

Definition texts (es : list SealedEvent) : list string :=
  omap (fun e => match e with SendText text => Some text | _ => None end) es.
Definition written (out : list SealedOutput) : list string :=
  omap (fun o => match o with Writes _ data => Some data | _ => None end) out.
Definition line (f : bytes) : string := ascii_str (bytesToBase64Url f).

Definition current (j : option (string * result FrameError bytes)) (s : FrameSealer) (cur : list string) : Prop :=
  match j, cur with
  | None, [] => True
  | Some (_, r), [text] => r = (seal (utf8 text) s).1
  | _, _ => False
  end.

(** The outbound chain of [t], once [calls] were made and [lines] written. *)
Definition out_inv (s0 : FrameSealer) (calls : list string) (lines : list string) (t : Sealed) : Prop :=
  (st_streamId t <> None -> st_queued t = []) /\
  exists fin cur, calls = fin ++ cur ++ (st_outbound t).*2 ++ st_queued t /\
    current (st_sealing t) (sealer_after (utf8 <$> fin) s0) cur /\
    st_sealer t = sealer_after (utf8 <$> (fin ++ cur)) s0 /\
    lines `prefix_of` (line <$> seal_upto (utf8 <$> fin) s0) /\
    (st_ws t = OpenWs -> st_detached t = false -> lines = line <$> seal_upto (utf8 <$> fin) s0) /\
    (st_ws t = ConnectingWs -> fin = [] /\ cur = [] /\ st_outbound t = [] /\ st_streamId t = None).

Lemma flush_queued ts id t : st_streamId t = Some id ->
  foldl (fun t text => sealed_send text t) t ts = set_out (st_queued t) (st_outbound t ++ (pair id <$> ts)) t.
Proof.
  revert t. induction ts as [|x ts IH]; intros t E; cbn.
  - rewrite app_nil_r. by destruct t.
  - unfold sealed_send at 2. rewrite E, IH by done. unfold set_out. cbn. by rewrite <- app_assoc.
Qed.

Lemma written_app a b : written (a ++ b) = written a ++ written b.
Proof. apply omap_app. Qed.

Lemma out_close s0 calls lines t : out_inv s0 calls lines t -> out_inv s0 calls lines (sealed_close t).
Proof.
  intros (Q & fin & cur & C & J & S & P & _ & _). split; [done|].
  exists fin, cur. cbn. split_and!; done.
Qed.

Lemma out_send s0 calls lines t text : out_inv s0 calls lines t ->
  out_inv s0 (calls ++ [text]) lines (sealed_send text t).
Proof.
  intros (Q & fin & cur & C & J & S & P & W & K). unfold sealed_send.
  destruct (st_streamId t) as [id|] eqn:E.
  - split; cbn; [intros _; by apply Q|]. exists fin, cur. rewrite Q in C |- * by done.
    split_and!; try done; [|intros X; destruct (K X) as (_ & _ & _ & ?); done].
    rewrite fmap_app. cbn. rewrite C, !app_nil_r, <- !app_assoc. done.
  - split; cbn; [by rewrite E|]. exists fin, cur. split_and!; try done.
    + by rewrite C, <- !app_assoc.
    + intros X. destruct (K X) as (? & ? & ? & ?). by rewrite E.
Qed.

Lemma out_control s0 calls lines t msg : st_ws t <> ConnectingWs -> out_inv s0 calls lines t ->
  out_inv s0 calls lines (handleControl msg t).1.
Proof.
  intros N I. unfold handleControl. destruct msg; try done; try by apply out_close.
  cbn [fst]. rewrite (flush_queued _ streamId) by done. destruct I as (Q & fin & cur & C & J & S & P & W & K).
  split; [done|]. exists fin, cur. cbn. split_and!; try done.
  rewrite C, app_nil_r, fmap_app. do 3 f_equal. rewrite <- list_fmap_compose.
  by rewrite <- (list_fmap_id (st_queued t)) at 1.
Qed.

Lemma out_seal_starts s0 calls lines t : out_inv s0 calls lines t -> out_inv s0 calls lines (seal_starts t).
Proof.
  intros I. unfold seal_starts. destruct (st_sealing t) as [|] eqn:Ej; [done|].
  destruct (st_outbound t) as [|[id text] rest] eqn:Eo; [done|].
  destruct I as (Q & fin & cur & C & J & S & P & W & K). rewrite Ej in J. destruct cur; [|done].
  rewrite app_nil_r in S. destruct (seal (utf8 text) (st_sealer t)) as [r s'] eqn:E.
  split; [done|]. exists fin, [text]. cbn. split_and!; try done.
  - by rewrite C, Eo.
  - by rewrite <- S, E.
  - rewrite fmap_app. unfold sealer_after in *. rewrite foldl_app, <- S. cbn. by rewrite E.
  - intros X. destruct (K X) as (_ & _ & Z & _). by rewrite Eo in Z.
Qed.

Lemma out_seal_ends s0 calls lines t : out_inv s0 calls lines t ->
  out_inv s0 calls (lines ++ written (seal_ends t).2) (seal_ends t).1.
Proof.
  intros I. unfold seal_ends. destruct (st_sealing t) as [[id r]|] eqn:Ej; [|by rewrite app_nil_r].
  destruct I as (Q & fin & cur & C & J & S & P & W & K). rewrite Ej in J.
  destruct cur as [|text []]; try done. cbn in J.
  split; [done|]. exists (fin ++ [text]), []. cbn [fst snd].
  assert (line <$> seal_upto (utf8 <$> (fin ++ [text])) s0 = (line <$> seal_upto (utf8 <$> fin) s0) ++
     match r with Ok f => [line f] | Err _ => [] end) as U.
  { rewrite fmap_app. cbn. rewrite seal_upto_snoc, fmap_app, J.
    f_equal. by destruct (seal _ _) as [[]]. }
  rewrite U. cbn. split_and!.
  - by rewrite C, <- !app_assoc.
  - done.
  - by rewrite app_nil_r.
  - destruct r as [f|]; [|by rewrite !app_nil_r].
    case_match eqn:G; cbn; [rewrite app_nil_r; etrans; [exact P|apply prefix_app_r; reflexivity]|].
    apply orb_false_iff in G as [G1 G2%negb_false_iff%bool_decide_eq_true].
    by rewrite (W G2 G1).
  - intros X1 X2. rewrite (W X1 X2). f_equal. destruct r as [f|]; [|done].
    by rewrite X2, bool_decide_true.
  - intros X. by destruct (K X) as (_ & ? & _).
Qed.

Lemma out_ws s0 calls lines t w : w <> ConnectingWs -> (w = OpenWs -> st_ws t = ConnectingWs) ->
  out_inv s0 calls lines t -> out_inv s0 calls lines (set_ws w t).
Proof.
  intros N F (Q & fin & cur & C & J & S & P & W & K). split; [done|]. exists fin, cur. cbn.
  split_and!; try done. intros X _. destruct (K (F X)) as (-> & _).
  by apply prefix_nil_inv in P.
Qed.

Lemma out_same s0 calls lines t i j o : out_inv s0 calls lines t -> out_inv s0 calls lines (set_in i j o t).
Proof. done. Qed.

Lemma out_step s0 calls lines t e : out_inv s0 calls lines t ->
  out_inv s0 (calls ++ texts [e]) (lines ++ written (sealed_step t e).2)
    (sealed_step t e).1.
Proof.
  intros I. destruct e; cbn [texts omap list_omap sealed_step fst snd]; rewrite ?app_nil_r.
  - case_decide; [|done]. by apply out_ws.
  - assert (st_ws t <> ConnectingWs -> out_inv s0 calls (lines ++ written (socket_message parsed t).2)
      (socket_message parsed t).1) as A.
    { intros N. unfold socket_message. case_match; [by rewrite app_nil_r|].
      destruct parsed as [msg|]; [|by rewrite app_nil_r].
      assert (lines ++ written (handleControl msg t).2 = lines) as E by (destruct msg; cbn; by rewrite app_nil_r).
      pose proof (out_control s0 calls lines t msg N I) as B.
      destruct msg; cbn [fst snd]; try (by rewrite E); by rewrite app_nil_r. }
    destruct (st_ws t) eqn:E; cbn [fst snd]; rewrite ?app_nil_r; try done; by apply A.
  - assert (written (if st_detached t then [] else [CallsClose]) = []) as E by by destruct (st_detached t).
    destruct (st_ws t) eqn:Ew; cbn [fst snd]; rewrite ?E, app_nil_r; try done; by apply out_ws.
  - destruct (st_ws t) eqn:Ew; try done; by apply out_ws.
  - by apply out_send.
  - by apply out_close.
  - by apply out_seal_starts.
  - by apply out_seal_ends.
  - unfold open_starts. repeat (case_match; cbn [fst snd]; rewrite ?app_nil_r; try done).
    by apply (out_close s0 calls lines (set_in _ _ _ t)).
  - unfold open_ends. repeat (case_match; cbn [fst snd]; rewrite ?app_nil_r; try done).
    by apply (out_close s0 calls lines (set_in _ _ _ t)).
Qed.

(** ** Inbound: what arrives is opened in order, up to the first failure *)

Definition arrival (t : Sealed) (e : SealedEvent) : list string :=
  match e with
  | SocketMessage (Some (TunnelServerFrame _ data)) =>
      match st_ws t with
      | OpenWs => if st_detached t then [] else [data]
      | _ => []
      end
  | _ => []
  end.
(** The frames that reach the transport's handler. *)
Fixpoint arrived (t : Sealed) (es : list SealedEvent) : list string :=
  match es with [] => [] | e :: es => arrival t e ++ arrived (sealed_step t e).1 es end.
Definition delivered (out : list SealedOutput) : list string :=
  omap (fun o => match o with CallsMessage text => Some text | _ => None end) out.

(** The bytes of the frames, up to the first that is not base64url. *)
Fixpoint decoded (data : list string) : list bytes :=
  match data with
  | [] => []
  | d :: data => match base64UrlToBytes (js d) with Ok f => f :: decoded data | Err _ => [] end
  end.

(** What [receive] hands on of [data], decoded. *)
Definition heard (opener : option FrameOpener) (data : list string) : list string :=
  decode <$> receive (k_s2c keys) s2c opener (decoded data).

Lemma receive_accept o f fs : receive (k_s2c keys) s2c o (f :: fs) =
  match accept o f with Some (o', p) => p :: receive (k_s2c keys) s2c (Some o') fs | None => [] end.
Proof.
  cbn [receive]. destruct o; unfold accept; [by destruct (open f _) as [[]]|].
  by destruct (bind _ _ _ _) as [[]|].
Qed.

(** [fin] was opened to the last, leaving [o]. *)
Inductive opened : list string -> option FrameOpener -> list string -> Prop :=
| opened_nil : opened [] None []
| opened_snoc fin o says d f o' p : opened fin o says -> base64UrlToBytes (js d) = Ok f ->
    accept o f = Some (o', p) -> opened (fin ++ [d]) (Some o') (says ++ [decode p]).

Lemma opened_heard fin o says rest : opened fin o says -> heard None (fin ++ rest) = says ++ heard o rest.
Proof.
  intros R. revert rest. induction R as [|fin o says d f o' p R IH B A]; intros rest; [done|].
  rewrite <- !app_assoc, IH. f_equal. unfold heard. cbn [app decoded]. by rewrite B, receive_accept, A.
Qed.

Lemma heard_more o a b : heard o a `prefix_of` heard o (a ++ b).
Proof.
  revert o. induction a as [|d a IH]; intros o; [apply prefix_nil|]. unfold heard in *. cbn [app decoded].
  destruct (base64UrlToBytes (js d)) as [f|]; [|done]. rewrite !receive_accept.
  destruct (accept o f) as [[o' p]|]; [|done]. cbn. by apply prefix_cons.
Qed.

Definition in_inv (data : list string) (says : list string) (t : Sealed) : Prop :=
  says `prefix_of` heard None data /\
  (st_detached t = false -> exists fin cur, data = fin ++ cur ++ st_inbound t /\
    opened fin (st_opener t) says /\
    match st_opening t with
    | None => cur = []
    | Some f => exists d, cur = [d] /\ base64UrlToBytes (js d) = Ok f
    end).

Lemma in_detached data says t : in_inv data says t -> forall u, st_detached u = true -> in_inv data says u.
Proof. intros [P _] u D. split; [done|]. congruence. Qed.

Lemma in_data data says t d : in_inv data says t -> st_detached t = false ->
  in_inv (data ++ [d]) says (set_in (st_inbound t ++ [d]) (st_opening t) (st_opener t) t).
Proof.
  intros [P F] D. split; [etrans; [exact P|apply heard_more]|]. intros _. cbn.
  destruct (F D) as (fin & cur & -> & R & J). exists fin, cur. by rewrite <- !app_assoc.
Qed.

Lemma in_starts data says t : in_inv data says t ->
  in_inv data (says ++ delivered (open_starts t).2) (open_starts t).1.
Proof.
  intros I. unfold open_starts. destruct (st_opening t) eqn:Ej; [by rewrite app_nil_r|].
  destruct (st_inbound t) as [|d rest] eqn:Ei; [by rewrite app_nil_r|]. cbn zeta. cbn [st_detached set_in].
  destruct (st_detached t) eqn:D; cbn [fst snd].
  { rewrite app_nil_r. by apply (in_detached _ _ t I). }
  destruct (base64UrlToBytes (js d)) as [f|] eqn:B; cbn [fst snd delivered]; rewrite app_nil_r.
  - destruct I as [P F]. split; [done|]. intros _. destruct (F D) as (fin & cur & E & R & J).
    rewrite Ej in J. subst cur. exists fin, [d]. cbn. split_and!; [by rewrite E, Ei|done|by exists d].
  - by apply (in_detached _ _ t I).
Qed.

Lemma in_ends data says t : in_inv data says t ->
  in_inv data (says ++ delivered (open_ends t).2) (open_ends t).1.
Proof.
  intros I. unfold open_ends. destruct (st_opening t) as [f|] eqn:Ej; [|by rewrite app_nil_r].
  destruct (st_detached t) eqn:D.
  { destruct (accept (st_opener t) f) as [[o p]|]; cbn [fst snd];
      rewrite ?app_nil_r; by apply (in_detached _ _ t I). }
  destruct I as [P F]. destruct (F D) as (fin & cur & E & R & J). rewrite Ej in J.
  destruct J as (d & -> & B).
  destruct (accept (st_opener t) f) as [[o p]|] eqn:A; cbn [fst snd].
  - pose proof (opened_snoc _ _ _ _ _ _ _ R B A) as R'. split.
    + rewrite E, app_assoc, (opened_heard _ _ _ _ R'). by apply prefix_app_r.
    + intros _. exists (fin ++ [d]), []. cbn. by rewrite E, <- app_assoc.
  - cbn. rewrite app_nil_r. split; [done|]. done.
Qed.

Lemma in_message data says t parsed : in_inv data says t ->
  let r := sealed_step t (SocketMessage parsed) in
  in_inv (data ++ arrival t (SocketMessage parsed)) (says ++ delivered r.2) r.1.
Proof.
  intros I. cbn [sealed_step arrival].
  assert (in_inv (data ++ match parsed with
                          | Some (TunnelServerFrame _ d) => if st_detached t then [] else [d]
                          | _ => [] end)
            (says ++ delivered (socket_message parsed t).2) (socket_message parsed t).1) as A.
  { unfold socket_message. destruct (st_detached t) eqn:D.
    { cbn. destruct parsed as [[]|]; by rewrite !app_nil_r. }
    destruct parsed as [[]|]; cbn [handleControl fst snd delivered omap list_omap]; rewrite ?app_nil_r; try done.
    - rewrite (flush_queued _ streamId) by done. done.
    - by apply (in_detached _ _ t I).
    - by apply in_data.
    - by apply (in_detached _ _ t I). }
  destruct (st_ws t); try exact A; cbn; destruct parsed as [[]|]; by rewrite !app_nil_r.
Qed.

Lemma in_step data says t e : in_inv data says t ->
  in_inv (data ++ arrival t e) (says ++ delivered (sealed_step t e).2)
    (sealed_step t e).1.
Proof.
  intros I. destruct e; cbn [arrival sealed_step fst snd]; rewrite ?app_nil_r.
  - by case_decide.
  - by apply in_message.
  - assert (delivered (if st_detached t then [] else [CallsClose]) = []) as E by by destruct (st_detached t).
    destruct (st_ws t); cbn [fst snd]; by rewrite ?E, app_nil_r.
  - by destruct (st_ws t).
  - unfold sealed_send. by destruct (st_streamId t).
  - by apply (in_detached _ _ t I).
  - unfold seal_starts. repeat (case_match; try done).
  - unfold seal_ends. repeat (case_match; cbn [fst snd]; rewrite ?app_nil_r; try done).
  - by apply in_starts.
  - by apply in_ends.
Qed.

Lemma arrived_snoc t es e : arrived t (es ++ [e]) = arrived t es ++ arrival (sealed_run t es).1 e.
Proof.
  revert t. induction es as [|f es IH]; intros t; cbn; [by rewrite app_nil_r|]. by rewrite IH, app_assoc.
Qed.

Lemma delivered_app a b : delivered (a ++ b) = delivered a ++ delivered b.
Proof. apply omap_app. Qed.
Lemma texts_app a b : texts (a ++ b) = texts a ++ texts b.
Proof. apply omap_app. Qed.

Lemma run_invs s0 t0 es : st_sealer t0 = s0 -> st_ws t0 <> OpenWs -> st_streamId t0 = None ->
  st_queued t0 = [] -> st_outbound t0 = [] -> st_sealing t0 = None -> st_inbound t0 = [] ->
  st_opening t0 = None -> st_opener t0 = None ->
  out_inv s0 (texts es) (written (sealed_run t0 es).2) (sealed_run t0 es).1 /\
  in_inv (arrived t0 es) (delivered (sealed_run t0 es).2) (sealed_run t0 es).1.
Proof.
  intros E1 E2 E3 E4 E5 E6 E7 E8 E9. induction es as [|e es [IH1 IH2]] using rev_ind.
  - split; cbn.
    + split; [done|]. exists [], []. cbn. rewrite E4, E5, E6. split_and!; done.
    + split; [done|]. intros _. exists [], []. rewrite E7, E8, E9. split_and!; [done|constructor|done].
  - rewrite sealed_run_snoc, texts_app, arrived_snoc. cbn [fst snd]. rewrite written_app, delivered_app.
    split; [by apply out_step|by apply in_step].
Qed.

Lemma fmap_prefix {A B} (f : A -> B) xs ys : xs `prefix_of` ys -> (f <$> xs) `prefix_of` (f <$> ys).
Proof. intros [zs ->]. rewrite fmap_app. by apply prefix_app_r. Qed.

(** Nothing is at an [await], nothing waits, and the stream is up. *)
Definition settled (t : Sealed) : Prop :=
  st_ws t = OpenWs /\ st_detached t = false /\ st_streamId t <> None /\
  st_outbound t = [] /\ st_sealing t = None /\ st_inbound t = [] /\ st_opening t = None.

(** C39: through the tunnel, both directions are streams.  Whatever order the
    sealings, the openings, the socket and the calls come in: what a sealed
    transport has written is the frames of the first of the texts given to
    [send], in order and under the counters of one sealer, the first behind
    its salt; and what it has handed on is what a receiver of the frames that
    arrived, taken one after the other, accepts before its first failure.
    Once nothing is under way, it is all of them. *)
Theorem transport_is_a_stream salt constructs t0 out0 s0 es :
  sealed_connect salt constructs = Ok (t0, out0) -> newSealer (k_c2s keys) c2s frame salt = Ok s0 ->
  let r := sealed_run t0 es in
  written r.2 `prefix_of` (line <$> seal_upto (utf8 <$> texts es) s0) /\
  delivered r.2 `prefix_of` heard None (arrived t0 es) /\
  (settled r.1 -> written r.2 = line <$> seal_upto (utf8 <$> texts es) s0 /\
                  delivered r.2 = heard None (arrived t0 es)).
Proof.
  intros C S. unfold sealed_connect in C. rewrite S in C. cbn [mbind result_bind] in C. injection C as <- <-.
  set (t0 := mkSealed _ _ _ _ _ _ _ _ _ _). cbn zeta.
  destruct (run_invs s0 t0 es) as [I [J F]]; try done; [by destruct constructs|].
  destruct I as (Q & fin & cur & E & G & _ & P & W & _). split_and!; [|done|].
  - rewrite E, fmap_app. etrans; [exact P|]. apply fmap_prefix, seal_upto_more.
  - intros (S1 & S2 & S3 & S4 & S5 & S6 & S7). rewrite (W S1 S2). split.
    + rewrite S5 in G. destruct cur; [|done]. by rewrite E, S4, (Q S3), !app_nil_r.
    + destruct (F S2) as (fin' & cur' & -> & R & K). rewrite S7 in K. subst cur'. rewrite S6.
      cbn. by rewrite (opened_heard _ _ _ _ R), app_nil_r.
Qed.

(** ** After [close] *)

Lemma detached_step t e : st_detached t = true ->
  st_detached (sealed_step t e).1 = true /\
  (st_opening t = None -> st_opening (sealed_step t e).1 = None /\ (sealed_step t e).2 = []) /\
  ((sealed_step t e).2 = [] \/ (sealed_step t e).2 = [CallsClose] /\ st_opening (sealed_step t e).1 = None).
Proof.
  intros D. destruct e; cbn [sealed_step fst snd];
    unfold socket_message, sealed_send, seal_starts, seal_ends, open_starts, open_ends;
    cbn zeta; cbn [st_detached set_in]; rewrite ?D;
    repeat case_match; cbn; split_and!; auto; try done; by intros ?; simplify_eq.
Qed.

(** What a transport that was closed still does: [close] stops it from calling
    its handlers and from writing, but for one thing.  A frame it was opening
    at that moment, and that fails, is reported as a close; and only that. *)
Theorem quiet_after_close t es : st_detached t = true ->
  ((sealed_run t es).2 = [] \/ (sealed_run t es).2 = [CallsClose]) /\
  (st_opening t = None -> (sealed_run t es).2 = []).
Proof.
  revert t. induction es as [|e es IH]; intros t D; [cbn; auto|].
  destruct (detached_step t e D) as (D' & Q & S). cbn [sealed_run snd].
  destruct (IH _ D') as [[E|E] F].
  - rewrite E, app_nil_r. split; [|by intros O; apply Q]. destruct S as [S|[S _]]; auto.
  - split.
    + destruct S as [->|[S O]]; [by right|]. rewrite (F O) in E. done.
    + intros O. destruct (Q O) as [O' ->]. exact (F O').
Qed.
End Sealed.

(** ** Runs *)

Module SealedDemo.
Import Toy.

Definition keys : SessionKeys := mkKeys (replicate 32 5) (replicate 32 7) [] "".
Definition salt : bytes := replicate 16 3.
Definition as_text (bs : bytes) : string := ascii_str bs.

Definition t0 : Sealed :=
  match sealed_connect keys salt true with
  | Ok (t, _) => t
  | Err _ => mkSealed NoSocket true None (mkSealer [] c2s [] 0) None [] [] None [] None
  end.
Definition s0 : FrameSealer :=
  match newSealer (k_c2s keys) c2s frame salt with Ok s => s | Err _ => mkSealer [] c2s [] 0 end.

(** The machine's end, on a salt of its own. *)
Definition theirs : list string :=
  match newSealer (k_s2c keys) s2c frame (replicate 16 9) with
  | Ok s => line <$> seal_upto [utf8 "one"; utf8 "two"] s
  | Err _ => []
  end.
Definition arrives (i : nat) : SealedEvent :=
  SocketMessage (Some (TunnelServerFrame "s1" (default "" (theirs !! i)))).

(** Two lines before the stream is there, one after; two frames in. *)
Definition talk : list SealedEvent :=
  [SendText "auth"; SocketOpens; SendText "list"; SocketMessage (Some (TunnelStreamOpenMessage "s1"));
   SealStarts; SendText "ping"; SealEnds; arrives 0; SealStarts; OpenStarts; arrives 1; SealEnds;
   OpenEnds; OpenStarts; SealStarts; OpenEnds; SealEnds].

Lemma transport_is_a_stream_witness :
  written (sealed_run as_text keys t0 talk).2 = line <$> seal_upto (utf8 <$> ["auth"; "list"; "ping"]) s0 /\
  delivered (sealed_run as_text keys t0 talk).2 = ["one"; "two"].
Proof.
  destruct (transport_is_a_stream as_text keys salt true t0 [] s0 talk) as (_ & _ & S).
  - vm_compute. reflexivity.
  - vm_compute. reflexivity.
  - destruct S as [S1 S2].
    + vm_compute. repeat split; discriminate.
    + split; [exact S1|]. rewrite S2. vm_compute. reflexivity.
Defined.

(** A frame is at its [await] when the app closes the transport (and dials
    again); it fails; and the closed transport calls back. *)
Theorem closed_transport_calls_back :
  let t := (sealed_run as_text keys t0
              [SocketOpens; SocketMessage (Some (TunnelStreamOpenMessage "s1"));
               SocketMessage (Some (TunnelServerFrame "s1" "AAAA")); OpenStarts; CloseTransport]).1 in
  st_detached t = true /\ (sealed_step as_text keys t OpenEnds).2 = [CallsClose].
Proof. vm_compute. done. Qed.

(** A frame is at its [await] when the socket closes: its line is handed on
    after the close is. *)
Theorem line_after_close :
  (sealed_run as_text keys t0
     [SocketOpens; SocketMessage (Some (TunnelStreamOpenMessage "s1")); arrives 0; OpenStarts;
      SocketCloses; OpenEnds]).2 = [CallsOpen; CallsClose; CallsMessage "one"].
Proof. vm_compute. reflexivity. Qed.
End SealedDemo.
