(* ===== verification/Seam.v ===== *)
(** * Seam: what RelayClient may rely on from a transport

    [DirectTransport] of [apps/web/src/lib/transport.ts], and the promise of
    the [Transport] interface as an automaton on what a transport calls back.
    The direct transport keeps it ([direct_keeps_the_seam]); the sealed one
    does but for a frame it is opening when the connection ends
    ([SealedTransport.SealedDemo]). *)

From S2P Require Import Prelude RelayClient SealedTransport.

#[local] Open Scope list_scope.

(** ** The promise: one open, then messages, then one close, then silence *)

Definition call_phase (p : Phase) (o : SealedOutput) : option Phase :=
  match o, p with
  | CallsOpen, Fresh => Some Opened
  | CallsMessage _, (Opened | Shut) => Some p
  | CallsClose, (Fresh | Opened | Shut) => Some Over
  | Writes _ _, _ => Some p
  | _, _ => None
  end.

Fixpoint keeps_seam (p : Phase) (calls : list SealedOutput) : option Phase :=
  match calls with
  | [] => Some p
  | o :: calls => p ← call_phase p o; keeps_seam p calls
  end.

Lemma keeps_seam_app p a b : keeps_seam p (a ++ b) = p ← keeps_seam p a; keeps_seam p b.
Proof. revert p. induction a as [|o a IH]; intros p; [done|]. cbn. destruct (call_phase p o); [apply IH|done]. Qed.

(** The promise is what the client assumes: a call the automaton allows is an
    event [calls_back] allows, and the client follows with its own phase. *)
Definition call_event (t : nat) (o : SealedOutput) (msg : option ServerMessage) (now : Z) : option ClientEvent :=
  match o with
  | CallsOpen => Some (TransportOpens t)
  | CallsMessage _ => Some (TransportMessage t msg now)
  | CallsClose => Some (TransportCloses t)
  | Writes _ _ => None
  end.

Lemma call_allowed c t p p' o msg now e : transports c !! t = Some p -> call_phase p o = Some p' ->
  call_event t o msg now = Some e -> calls_back c e.
Proof.
  intros L P E. destruct o; cbn in E; simplify_eq; cbn; rewrite L; destruct p; cbn in P; simplify_eq; eauto.
Qed.

(** ** [DirectTransport], connected once *)

Record Direct := mkDirect { dt_ws : Socket; dt_detached : bool }.

Inductive DirectEvent :=
| DirectOpens | DirectMessage (text : string) | DirectShuts | DirectCloses | DirectClose.

Definition direct_connect (constructs : bool) : Direct * list SealedOutput :=
  if constructs then (mkDirect ConnectingWs false, []) else (mkDirect NoSocket false, [CallsClose]).

Definition direct_close (d : Direct) : Direct := mkDirect NoSocket true.

Definition direct_isOpen (d : Direct) : bool := bool_decide (dt_ws d = OpenWs).

(** [send] writes if the socket is open. *)
Definition direct_send (text : string) (d : Direct) : list string := if direct_isOpen d then [text] else [].

(** A socket opens from [CONNECTING], says things while it is open, and closes
    once. *)
Definition direct_step (d : Direct) (e : DirectEvent) : Direct * list SealedOutput :=
  let calls o := if dt_detached d then [] else [o] in
  match e, dt_ws d with
  | DirectOpens, ConnectingWs => (mkDirect OpenWs (dt_detached d), calls CallsOpen)
  | DirectMessage text, OpenWs => (d, calls (CallsMessage text))
  | DirectShuts, (ConnectingWs | OpenWs) => (mkDirect ClosingWs (dt_detached d), [])
  | DirectCloses, (ConnectingWs | OpenWs | ClosingWs) => (mkDirect ClosedWs (dt_detached d), calls CallsClose)
  | DirectClose, _ => (direct_close d, [])
  | _, _ => (d, [])
  end.

Fixpoint direct_run (d : Direct) (es : list DirectEvent) : list SealedOutput :=
  match es with
  | [] => []
  | e :: es => (direct_step d e).2 ++ direct_run (direct_step d e).1 es
  end.

Definition direct_phase (d : Direct) : Phase :=
  if dt_detached d then Over
  else match dt_ws d with ConnectingWs => Fresh | OpenWs => Opened | ClosingWs => Shut | NoSocket | ClosedWs => Over end.

(** The automaton is in [p] when the transport is [d]. *)
Definition follows (p : Phase) (d : Direct) : Prop :=
  match direct_phase d with
  | Fresh => p = Fresh | Opened => p = Opened | Shut => p <> Over | Over => True
  end.

Lemma direct_step_follows p d e : follows p d ->
  exists p', keeps_seam p (direct_step d e).2 = Some p' /\ follows p' (direct_step d e).1.
Proof.
  unfold follows. destruct d as [w b], e, w, b; cbn; intros F; subst; eexists; split; eauto; try done.
  destruct p; done.
Qed.

Lemma over_is_silent d es : direct_phase d = Over -> direct_run d es = [].
Proof.
  revert d. induction es as [|e es IH]; intros d D; [done|]. cbn.
  destruct d as [w b], e, w, b; cbn in *; try done; by apply IH.
Qed.

(** What a direct transport calls back is what the seam promises, whatever its
    socket does and whenever it is closed; and once it is closed it is
    silent. *)
Theorem direct_keeps_the_seam constructs es :
  let '(d, out) := direct_connect constructs in
  is_Some (keeps_seam Fresh (out ++ direct_run d es)) /\
  forall pre post, es = pre ++ DirectClose :: post ->
    direct_run d es = direct_run d pre.
Proof.
  destruct constructs; cbn.
  - split.
    + assert (forall p d, follows p d -> is_Some (keeps_seam p (direct_run d es))) as A; [|by apply A].
      induction es as [|e es IH]; intros p d F; [by eexists|].
      cbn. rewrite keeps_seam_app. destruct (direct_step_follows p d e F) as (p' & -> & F'). by apply IH.
    + intros pre post ->. generalize (mkDirect ConnectingWs false). induction pre as [|e pre IH]; intros d; cbn.
      * by rewrite over_is_silent by done.
      * by rewrite IH.
  - split.
    + rewrite over_is_silent by done. by eexists.
    + intros pre post _. by rewrite !over_is_silent.
Qed.
