(* ===== verification/Tmux.v ===== *)
(** * Tmux: what the relay asks of tmux, and how it reads the answers

    [apps/relay/src/tmux-manager.ts] and [apps/relay/src/tmux-clone.ts].  Every
    function is a program of [tmux] calls ([Prog]): tmux answers each with its
    standard output or fails with a message, and anything may happen between
    two calls.  An argument vector is a list of strings, as [execFile] takes
    it: no shell reads it.  A listing comes back as a [jstr]; [text] is a field
    of it as the strings of the rest of the relay.  A date is its instant. *)

From stdpp Require Import pretty.
From S2P Require Import Prelude.

#[local] Open Scope string_scope.
#[local] Open Scope list_scope.
#[local] Open Scope Z_scope.

(** ** Programs of tmux calls *)

Definition Answer : Type := result string jstr.

Inductive Prog (A : Type) : Type :=
| Ret (a : A)
| Throw (message : string)
| Exec (argv : list string) (k : Answer -> Prog A).
Arguments Ret {A} a.
Arguments Throw {A} message.
Arguments Exec {A} argv k.

#[export] Instance prog_ret : MRet Prog := @Ret.
#[export] Instance prog_bind : MBind Prog := fun A B f =>
  fix go (p : Prog A) : Prog B :=
    match p with
    | Ret a => f a
    | Throw e => Throw e
    | Exec argv k => Exec argv (fun r => go (k r))
    end.

(** [try { p } catch (e) { h(e) }]. *)
Fixpoint attempt {A} (p : Prog A) (h : string -> Prog A) : Prog A :=
  match p with
  | Ret a => Ret a
  | Throw e => h e
  | Exec argv k => Exec argv (fun r => attempt (k r) h)
  end.

(** A call that must succeed. *)
Definition exec (argv : list string) : Prog jstr :=
  Exec argv (fun r => match r with Ok stdout => Ret stdout | Err e => Throw e end).

(** [runs p calls r]: asked [calls] and answered as they say, [p] ends in [r]. *)
Inductive runs {A} : Prog A -> list (list string * Answer) -> result string A -> Prop :=
| runs_ret a : runs (Ret a) [] (Ok a)
| runs_throw e : runs (Throw e) [] (Err e)
| runs_exec argv k r calls res : runs (k r) calls res -> runs (Exec argv k) ((argv, r) :: calls) res.

(** The same against a server that answers from a state of its own. *)
Fixpoint serve {A S} (server : list string -> S -> S * Answer) (p : Prog A) (s : S) : S * result string A :=
  match p with
  | Ret a => (s, Ok a)
  | Throw e => (s, Err e)
  | Exec argv k => let r := server argv s in serve server (k r.2) r.1
  end.

(** ** Reading a listing *)

(** A code point as UTF-8, and a string of code units: pairs of surrogates are
    one code point, a surrogate alone is U+FFFD. *)
Definition utf8_point (c : Z) : list Z :=
  if c <? 128 then [c]
  else if c <? 2048 then [192 + c / 64; 128 + c mod 64]
  else if c <? 65536 then [224 + c / 4096; 128 + c / 64 mod 64; 128 + c mod 64]
  else [240 + c / 262144; 128 + c / 4096 mod 64; 128 + c / 64 mod 64; 128 + c mod 64].

Definition is_high (c : Z) : bool := (55296 <=? c) && (c <? 56320).
Definition is_low (c : Z) : bool := (56320 <=? c) && (c <? 57344).

Fixpoint utf8_units (s : jstr) : list Z :=
  match s with
  | [] => []
  | c :: rest =>
      match rest with
      | d :: rest' =>
          if is_high c && is_low d
          then utf8_point (65536 + (c - 55296) * 1024 + (d - 56320)) ++ utf8_units rest'
          else utf8_point (if is_high c || is_low c then 65533 else c) ++ utf8_units rest
      | [] => utf8_point (if is_high c || is_low c then 65533 else c)
      end
  end.

Definition text (s : jstr) : string :=
  String.string_of_list_ascii (map (fun b => Ascii.ascii_of_N (Z.to_N b)) (utf8_units s)).

(** [s.split(c)]. *)
Fixpoint split_on (c : Z) (s : jstr) : list jstr :=
  match s with
  | [] => [[]]
  | x :: s =>
      if x =? c then [] :: split_on c s
      else match split_on c s with l :: ls => (x :: l) :: ls | [] => [[x]] end
  end.

(** [stdout.trim().split("\n").filter(Boolean)]. *)
Definition lines_of (stdout : jstr) : list jstr :=
  filter (fun l => l <> []) (split_on 10 (trim stdout)).

(** [parseInt(s, 10)]; [None] is [NaN]. *)
Fixpoint digits_value (acc : Z) (s : jstr) : Z :=
  match s with
  | c :: s => if is_digit c then digits_value (acc * 10 + (c - 48)) s else acc
  | [] => acc
  end.

Definition parseInt (s : option jstr) : option Z :=
  s ← s;
  let s := drop_while is_space s in
  let '(sign, s) := match s with 43 :: s => (1, s) | 45 :: s => (-1, s) | _ => (1, s) end in
  match s with
  | c :: _ => if is_digit c then Some (sign * digits_value 0 s) else None
  | [] => None
  end.

(** [x === "1"]. *)
Definition is_one (s : option jstr) : bool := bool_decide (s = Some (js "1")).
(** [x || undefined]. *)
Definition nonempty (s : option jstr) : option jstr :=
  match s with Some [] => None | s => s end.

(** [new Date(parseInt(s, 10) * 1000).toISOString()], its instant. *)
Definition date_of (s : option jstr) : result string Z :=
  match parseInt s with
  | Some n => if Z.abs (n * 1000) <=? 8640000000000000 then Ok (n * 1000) else Err "Invalid time value"
  | None => Err "Invalid time value"
  end.

Definition dimensions_of (width height : option jstr) : option (option Z * option Z) :=
  match nonempty width, nonempty height with
  | Some w, Some h => Some (parseInt (Some w), parseInt (Some h))
  | _, _ => None
  end.

Record SessionInfo := mkSessionInfo {
  si_name : string;
  si_id : option string;
  si_windows : option Z;
  si_attached : bool;
  si_created : Z;
  si_activity : Z;
  si_dimensions : option (option Z * option Z);
}.

Record WindowInfo := mkWindowInfo {
  wi_id : string;
  wi_index : option Z;
  wi_name : option string;
  wi_active : bool;
  wi_paneCount : option Z;
  wi_layout : option string;
  wi_activity : bool;
  wi_zoomed : bool;
  wi_dimensions : option (option Z * option Z);
}.

Record PaneInfo := mkPaneInfo {
  pi_id : string;
  pi_index : option Z;
  pi_windowId : option string;
  pi_active : bool;
  pi_zoomed : bool;
  pi_dimensions : option Z * option Z;
  pi_position : option Z * option Z;
  pi_command : option string;
  pi_path : option string;
}.

Definition session_of_line (line : jstr) : result string SessionInfo :=
  let f := split_on 9 line in
  created ← date_of (f !! 4%nat);
  activity ← date_of (f !! 5%nat);
  Ok (mkSessionInfo (text (default [] (f !! 0%nat))) (text <$> f !! 1%nat) (parseInt (f !! 2%nat))
        (is_one (f !! 3%nat)) created activity (dimensions_of (f !! 6%nat) (f !! 7%nat))).

Definition window_of_line (line : jstr) : WindowInfo :=
  let f := split_on 9 line in
  mkWindowInfo (text (default [] (f !! 0%nat))) (parseInt (f !! 1%nat)) (text <$> f !! 2%nat)
    (is_one (f !! 3%nat)) (parseInt (f !! 4%nat)) (text <$> f !! 5%nat) (is_one (f !! 8%nat))
    (is_one (f !! 9%nat)) (dimensions_of (f !! 6%nat) (f !! 7%nat)).

Definition pane_of_line (line : jstr) : PaneInfo :=
  let f := split_on 9 line in
  mkPaneInfo (text (default [] (f !! 0%nat))) (parseInt (f !! 1%nat)) (text <$> f !! 2%nat)
    (is_one (f !! 3%nat)) (is_one (f !! 4%nat) && is_one (f !! 3%nat))
    (parseInt (f !! 5%nat), parseInt (f !! 6%nat)) (parseInt (f !! 7%nat), parseInt (f !! 8%nat))
    (text <$> nonempty (f !! 9%nat)) (text <$> nonempty (f !! 10%nat)).

Fixpoint map_result {A B} (f : A -> result string B) (l : list A) : result string (list B) :=
  match l with
  | [] => Ok []
  | x :: l => y ← f x; ys ← map_result f l; Ok (y :: ys)
  end.

(** [message.includes(sub)]. *)
Definition includes (sub s : string) : bool :=
  match String.index 0 sub s with Some _ => true | None => false end.

(** [/-[A-Za-z]*Z/.test(s)]: [armed] inside the letters after a dash. *)
Definition is_letter (c : Z) : bool := ((65 <=? c) && (c <=? 90)) || ((97 <=? c) && (c <=? 122)).
Fixpoint dash_Z (armed : bool) (s : jstr) : bool :=
  match s with
  | [] => false
  | c :: s => if armed && (c =? 90) then true
              else dash_Z ((c =? 45) || (armed && is_letter c)) s
  end.

(** ** [tmux-manager.ts] *)

Definition DEFAULT_CAPTURE_LINES : Z := 2000.

Definition F_SESSIONS : string := "#{session_name}	#{session_id}	#{session_windows}	#{session_attached}	#{session_created}	#{session_activity}	#{window_width}	#{window_height}".
Definition F_WINDOWS : string := "#{window_id}	#{window_index}	#{window_name}	#{window_active}	#{window_panes}	#{window_layout}	#{window_width}	#{window_height}	#{window_activity_flag}	#{window_zoomed_flag}".
Definition F_PANES : string := "#{pane_id}	#{pane_index}	#{window_id}	#{pane_active}	#{window_zoomed_flag}	#{pane_width}	#{pane_height}	#{pane_left}	#{pane_top}	#{pane_current_command}	#{pane_current_path}".

Inductive Split := split_h | split_v.
Inductive Way := way_U | way_D | way_L | way_R.
Definition split_flag (d : Split) : string := match d with split_h => "-h" | split_v => "-v" end.
Definition way_flag (d : Way) : string :=
  match d with way_U => "-U" | way_D => "-D" | way_L => "-L" | way_R => "-R" end.

Record ScrollState := mkScroll { ss_position : Z; ss_historySize : Z; ss_paneHeight : Z; ss_inMode : bool }.

Section Manager.
Context (tmuxSocket : string) (tmuxDefaultShell : string).

Definition tmuxArgs : list string := if decide (tmuxSocket = "") then [] else ["-S"; tmuxSocket].

(** A call whose output is not looked at. *)
Definition command (argv : list string) : Prog unit := exec (tmuxArgs ++ argv) ≫= fun _ => Ret tt.
Definition query (argv : list string) : Prog jstr := exec (tmuxArgs ++ argv).

Definition of_result {A} (r : result string A) : Prog A := match r with Ok a => Ret a | Err e => Throw e end.

Definition captureArgs (target : string) (lines : Z) (escapes : bool) : list string :=
  ["capture-pane"; "-t"; target; "-p"] ++ (if escapes then ["-e"] else []) ++ ["-S"; "-" +:+ pretty lines].

Definition listSessions : Prog (list SessionInfo) :=
  attempt
    (stdout ← query ["list-sessions"; "-F"; F_SESSIONS];
     of_result (map_result session_of_line (lines_of stdout)))
    (fun msg => if includes "no server running" msg || includes "no sessions" msg then Ret [] else Throw msg).

(** The times are the clock's when the answer is in. *)
Definition createSession (name cwd command : option string) : Prog (Z -> SessionInfo) :=
  stdout ← query (["new-session"; "-d"; "-P"; "-F"; "#{session_name}	#{session_id}"]
    ++ (match truthy name with Some n => ["-s"; n] | None => [] end)
    ++ (match truthy cwd with Some d => ["-c"; d] | None => [] end)
    ++ (match truthy command with Some c => [c] | None => [tmuxDefaultShell] end));
  let f := split_on 9 (trim stdout) in
  Ret (fun now => mkSessionInfo (text (default [] (f !! 0%nat))) (text <$> f !! 1%nat) (Some 1) false now now None).

Definition killSession (name : string) : Prog unit := command ["kill-session"; "-t"; name].
Definition renameSession (oldName newName : string) : Prog unit :=
  command ["rename-session"; "-t"; oldName; newName].

Definition sessionExists (name : string) : Prog bool :=
  attempt (_ ← query ["has-session"; "-t"; name]; Ret true) (fun _ => Ret false).

Definition sendKeys (session keys : string) : Prog unit := command ["send-keys"; "-t"; session; keys; "Enter"].
Definition sendInterrupt (session : string) : Prog unit := command ["send-keys"; "-t"; session; "C-c"].

Definition capturePane (session : string) : Prog jstr := query (captureArgs session DEFAULT_CAPTURE_LINES true).
Definition capturePaneById (paneId : string) : Prog jstr := query (captureArgs paneId DEFAULT_CAPTURE_LINES false).

Definition listWindows (session : string) : Prog (list WindowInfo) :=
  stdout ← query ["list-windows"; "-t"; session; "-F"; F_WINDOWS];
  Ret (map window_of_line (lines_of stdout)).

Definition currentWindowId (session : string) : Prog string :=
  stdout ← query ["display-message"; "-p"; "-t"; session; "#{window_id}"];
  Ret (text (trim stdout)).

Definition stepWindow (session : string) (delta : Z) : Prog unit :=
  command [if 0 <=? delta then "next-window" else "previous-window"; "-t"; session].

(** [cache] is the module's [selectPaneSupportsZ]; the answer is its new value. *)
Definition supportsSelectPaneZ (cache : option bool) : Prog bool :=
  match cache with
  | Some b => Ret b
  | None => attempt (stdout ← query ["list-commands"; "select-pane"]; Ret (dash_Z false stdout))
              (fun _ => Ret false)
  end.

Definition stepPane (session : string) (delta : Z) (cache : option bool) : Prog bool :=
  z ← supportsSelectPaneZ cache;
  _ ← command (["select-pane"] ++ (if (z : bool) then ["-Z"] else [])
        ++ ["-t"; session +:+ ":." +:+ (if 0 <=? delta then "+" else "-")]);
  Ret z.

Definition listPanes (session : string) (windowId : option string) : Prog (list PaneInfo) :=
  stdout ← query (["list-panes"]
    ++ (match truthy windowId with Some w => ["-t"; session +:+ ":" +:+ w] | None => ["-s"; "-t"; session] end)
    ++ ["-F"; F_PANES]);
  Ret (map pane_of_line (lines_of stdout)).

Definition splitPane (session : string) (direction : Split) : Prog unit :=
  command ["split-window"; "-t"; session; split_flag direction].

Definition selectPane (paneId : string) (cache : option bool) : Prog bool :=
  z ← supportsSelectPaneZ cache;
  _ ← command (["select-pane"] ++ (if (z : bool) then ["-Z"] else []) ++ ["-t"; paneId]);
  Ret z.

Definition zoomPane (session : string) (paneId : option string) (desired : option bool) : Prog unit :=
  let target := default session paneId in
  match desired with
  | None => command ["resize-pane"; "-t"; target; "-Z"]
  | Some desired =>
      stdout ← query ["display-message"; "-p"; "-t"; target; "#{window_zoomed_flag}	#{pane_active}"];
      let f := split_on 9 (trim stdout) in
      let windowZoomed := is_one (f !! 0%nat) in
      let thisPaneZoomed := windowZoomed && is_one (f !! 1%nat) in
      if Bool.eqb desired thisPaneZoomed then Ret tt
      else command (if desired && windowZoomed then ["select-pane"; "-Z"; "-t"; target]
                    else ["resize-pane"; "-t"; target; "-Z"])
  end.

Definition resizePane (paneId : string) (direction : Way) (amount : Z) : Prog unit :=
  command ["resize-pane"; "-t"; paneId; way_flag direction; pretty amount].
Definition killPane (paneId : string) : Prog unit := command ["kill-pane"; "-t"; paneId].
Definition createWindow (session : string) (name : option string) : Prog unit :=
  command (["new-window"; "-t"; session]
    ++ (match truthy name with Some n => ["-n"; n] | None => [] end) ++ [tmuxDefaultShell]).
Definition selectWindow (windowId : string) : Prog unit := command ["select-window"; "-t"; windowId].
Definition killWindow (windowId : string) : Prog unit := command ["kill-window"; "-t"; windowId].
Definition swapPane (paneId : string) (direction : Way) : Prog unit :=
  command ["swap-pane"; "-t"; paneId; way_flag direction].
Definition renameWindow (windowId name : string) : Prog unit := command ["rename-window"; "-t"; windowId; name].
Definition selectLayout (session preset : string) : Prog unit := command ["select-layout"; "-t"; session; preset].
Definition rotateLayout (session : string) : Prog unit := command ["rotate-window"; "-t"; session].
Definition sendPrefix (session : string) : Prog unit := command ["send-prefix"; "-t"; session].
Definition enterCopyMode (session : string) : Prog unit := command ["copy-mode"; "-t"; session].

Definition scroll_num (value : option jstr) : Z :=
  match parseInt value with Some n => if 0 <? n then n else 0 | None => 0 end.

Definition scroll_of (stdout : jstr) : ScrollState :=
  let f := split_on 9 (trim stdout) in
  mkScroll (scroll_num (f !! 1%nat)) (scroll_num (f !! 2%nat)) (scroll_num (f !! 3%nat)) (is_one (f !! 0%nat)).

Definition readScrollState (session : string) : Prog ScrollState :=
  stdout ← query ["display-message"; "-p"; "-t"; session;
    "#{pane_in_mode}	#{scroll_position}	#{history_size}	#{pane_height}"];
  Ret (scroll_of stdout).

Definition isInCopyMode (session : string) : Prog bool :=
  s ← readScrollState session; Ret (ss_inMode s).

(** [lines] is an integer: the schema says so. *)
Definition scrollHistory (session : string) (lines : Z) : Prog ScrollState :=
  if lines =? 0 then readScrollState session
  else
    before ← readScrollState session;
    _ ← (if ss_inMode before then Ret tt else command ["copy-mode"; "-e"; "-t"; session]);
    _ ← command ["send-keys"; "-t"; session; "-X"; "-N"; pretty (Z.abs lines);
                 if 0 <? lines then "scroll-up" else "scroll-down"];
    readScrollState session.

Definition scrollToPosition (session : string) (position : Z) : Prog ScrollState :=
  let target := Z.max 0 position in
  state ← readScrollState session;
  let clamped := Z.min target (ss_historySize state) in
  let delta := clamped - (if ss_inMode state then ss_position state else 0) in
  if delta =? 0 then Ret state else scrollHistory session delta.

Definition exitCopyMode (session : string) : Prog unit :=
  inMode ← isInCopyMode session;
  if (inMode : bool) then command ["send-keys"; "-t"; session; "-X"; "cancel"] else Ret tt.

(** ** [tmux-clone.ts] *)

Definition CLONE_PREFIX : string := "__mtmux_".
Definition isCloneSession (name : string) : bool := String.prefix CLONE_PREFIX name.

Definition safe_char (a : Ascii.ascii) : bool := is_b64url (Z.of_N (Ascii.N_of_ascii a)).
(** [part.replace(/[^A-Za-z0-9_-]/g, "")]. *)
Definition sanitise (part : string) : string :=
  String.string_of_list_ascii (filter (fun a => safe_char a = true) (String.list_ascii_of_string part)).

Definition cloneNameFor (grantId connId : string) : string :=
  CLONE_PREFIX +:+ sanitise grantId +:+ "_" +:+ sanitise connId.
Definition recordingCloneNameFor (recordingId : string) : string :=
  CLONE_PREFIX +:+ "rec_" +:+ sanitise recordingId.

(** Never throws. *)
Definition destroyClone (name : string) : Prog unit :=
  if negb (isCloneSession name) then Ret tt
  else attempt (command ["kill-session"; "-t"; name]) (fun _ => Ret tt).

Definition LOCKDOWN : list (string * string) :=
  [("prefix", "None"); ("prefix2", "None"); ("key-table", "mtmux-locked"); ("detach-on-destroy", "on")].
Definition RECORDING_LOCKDOWN : list (string * string) := LOCKDOWN ++ [("aggressive-resize", "off")].

Fixpoint set_options (name : string) (options : list (string * string)) : Prog unit :=
  match options with
  | [] => Ret tt
  | (option, value) :: options =>
      _ ← command ["set-option"; "-t"; name; option; value]; set_options name options
  end.

Definition locked_clone (target name : string) (options : list (string * string)) : Prog string :=
  _ ← command ["new-session"; "-d"; "-t"; target; "-s"; name];
  _ ← attempt (set_options name options) (fun err => _ ← destroyClone name; Throw err);
  Ret name.

Definition createReadOnlyClone (target grantId connId : string) : Prog string :=
  locked_clone target (cloneNameFor grantId connId) LOCKDOWN.
Definition createRecordingClone (target recordingId : string) : Prog string :=
  locked_clone target (recordingCloneNameFor recordingId) RECORDING_LOCKDOWN.

Fixpoint destroy_all (names : list string) : Prog unit :=
  match names with [] => Ret tt | n :: names => _ ← destroyClone n; destroy_all names end.

(** [None] of the listing: no server. *)
Definition sweepOrphanClones : Prog Z :=
  names ← attempt (stdout ← query ["list-sessions"; "-F"; "#{session_name}"];
                   Ret (Some (map text (lines_of stdout))))
            (fun _ => Ret None);
  match (names : option (list string)) with
  | None => Ret 0
  | Some names =>
      let orphans := filter (fun n => isCloneSession n = true) names in
      _ ← destroy_all orphans; Ret (Z.of_nat (length orphans))
  end.
End Manager.
