(* ===== verification/TmuxSafety.v ===== *)
(** * TmuxSafety: what the calls to tmux amount to

    Whatever tmux answers: a viewing clone is handed out only when all its
    options are set, and is taken down otherwise ([clone_locked_down]); the
    boot sweep ends only clones ([sweep_kills_only_clones]); a listing is read
    back row by row ([listing_read_back]).  Against a tmux that does what its
    manual says: a zoom request is idempotent ([zoom_as_asked]) and a scroll
    bar's position is reached ([scroll_reaches]). *)

From stdpp Require Import pretty.
From S2P Require Import Prelude Tmux.
#[local] Open Scope string_scope.
#[local] Open Scope list_scope.
#[local] Open Scope Z_scope.

(** ** Runs of composed programs *)

Lemma runs_bind {A B} (p : Prog A) (f : A -> Prog B) calls r : runs (p ≫= f) calls r ->
  (exists a c1 c2, calls = c1 ++ c2 /\ runs p c1 (Ok a) /\ runs (f a) c2 r) \/
  (exists e, r = Err e /\ runs p calls (Err e)).
Proof.
  revert calls r. induction p as [a|e|argv k IH]; intros calls r R.
  - left. exists a, [], calls. split_and!; [done|constructor|done].
  - right. inversion R; subst. exists e. split; [done|constructor].
  - inversion R as [| |argv' k' ans calls' res R']; subst.
    destruct (IH ans _ _ R') as [(a & c1 & c2 & -> & R1 & R2)|(e & -> & R1)].
    + left. exists a, ((argv, ans) :: c1), c2. split_and!; [done|by constructor|done].
    + right. exists e. split; [done|by constructor].
Qed.

Lemma runs_attempt {A} (p : Prog A) h calls r : runs (attempt p h) calls r ->
  (exists a, r = Ok a /\ runs p calls (Ok a)) \/
  (exists e c1 c2, calls = c1 ++ c2 /\ runs p c1 (Err e) /\ runs (h e) c2 r).
Proof.
  revert calls r. induction p as [a|e|argv k IH]; intros calls r R.
  - left. inversion R; subst. exists a. split; [done|constructor].
  - right. exists e, [], calls. split_and!; [done|constructor|done].
  - inversion R as [| |argv' k' ans calls' res R']; subst.
    destruct (IH ans _ _ R') as [(a & -> & R1)|(e & c1 & c2 & -> & R1 & R2)].
    + left. exists a. split; [done|by constructor].
    + right. exists e, ((argv, ans) :: c1), c2. split_and!; [done|by constructor|done].
Qed.

Lemma runs_exec_inv argv calls r : runs (exec argv) calls r -> calls = [(argv, r)].
Proof.
  intros R. inversion R as [| |? ? ans ? ? R']; subst. destruct ans; by inversion R'; subst.
Qed.

Lemma runs_ret_inv {A} (a : A) calls r : runs (Ret a) calls r -> calls = [] /\ r = Ok a.
Proof. by inversion 1. Qed.

Lemma runs_throw_inv {A} e calls (r : result string A) : runs (Throw e) calls r -> calls = [] /\ r = Err e.
Proof. by inversion 1. Qed.

(** Every program answers, whatever tmux does. *)
Lemma serve_runs {A S} (server : list string -> S -> S * Answer) (p : Prog A) s :
  exists calls, runs p calls (serve server p s).2.
Proof.
  revert s. induction p as [a|e|argv k IH]; intros s; cbn.
  - eexists. constructor.
  - eexists. constructor.
  - destruct (IH (server argv s).2 (server argv s).1) as [calls R]. eexists. by constructor.
Qed.

Lemma serve_bind {A B S} (server : list string -> S -> S * Answer) (p : Prog A) (f : A -> Prog B) s :
  serve server (p ≫= f) s =
    match (serve server p s).2 with
    | Ok a => serve server (f a) (serve server p s).1
    | Err e => ((serve server p s).1, Err e)
    end.
Proof. revert s. induction p as [a|e|argv k IH]; intros s; cbn; [done|done|]. apply IH. Qed.

Section Safety.
Context (tmuxSocket : string).

Notation argv := (fun args => tmuxArgs tmuxSocket ++ args).
Notation command := (command tmuxSocket).

Lemma runs_command args calls r : runs (command args) calls r ->
  exists ans, calls = [(argv args, ans)] /\ r = match ans with Ok _ => Ok tt | Err e => Err e end.
Proof.
  unfold Tmux.command. intros R. destruct (runs_bind _ _ _ _ R) as [(a & c1 & c2 & -> & R1 & R2)|(e & -> & R1)].
  - apply runs_ret_inv in R2 as [-> ->]. rewrite (runs_exec_inv _ _ _ R1). by eexists.
  - rewrite (runs_exec_inv _ _ _ R1). by eexists.
Qed.

(** ** Clones *)

(** The call that sets an option, and the call that ends a session. *)
Definition set_call (name : string) (o : string * string) : list string :=
  argv ["set-option"; "-t"; name; o.1; o.2].
Definition kill_call (name : string) : list string := argv ["kill-session"; "-t"; name].
Definition new_call (target name : string) : list string :=
  argv ["new-session"; "-d"; "-t"; target; "-s"; name].

(** All of [calls] were answered. *)
Definition answered (calls : list (list string * Answer)) : Prop := Forall (fun c => is_ok c.2 = true) calls.

Lemma runs_set_options name options calls r : runs (set_options tmuxSocket name options) calls r ->
  (r = Ok tt /\ calls.*1 = set_call name <$> options /\ answered calls) \/
  (exists done o rest e, r = Err e /\ options = done ++ o :: rest /\
     calls.*1 = set_call name <$> (done ++ [o]) /\
     exists calls', calls = calls' ++ [(set_call name o, Err e)] /\ answered calls').
Proof.
  revert calls r. induction options as [|[o v] options IH]; intros calls r R; cbn [set_options] in R.
  - apply runs_ret_inv in R as [-> ->]. left. split_and!; [done|done|constructor].
  - destruct (runs_bind _ _ _ _ R) as [([] & c1 & c2 & -> & R1 & R2)|(e & -> & R1)].
    + destruct (runs_command _ _ _ R1) as ([out|e] & -> & [= ]).
      destruct (IH _ _ R2) as [(-> & E & A)|(done & o' & rest & e & -> & -> & E & calls' & -> & A)].
      * left. split_and!; [done|cbn; by rewrite E|by constructor].
      * right. exists ((o, v) :: done), o', rest, e. split_and!; [done|done|cbn; by rewrite E|].
        exists ((set_call name (o, v), Ok out) :: calls'). split; [done|by constructor].
    + destruct (runs_command _ _ _ R1) as ([out|e'] & -> & [= ->]). right.
      exists [], (o, v), options, e'. split_and!; [done|done|done|]. exists []. split; [done|constructor].
Qed.

(** A clone made of [target] under [name], with [options]. *)
Lemma locked_clone_cases target name options calls r :
  isCloneSession name = true -> runs (locked_clone tmuxSocket target name options) calls r ->
  (r = Ok name /\ calls.*1 = new_call target name :: (set_call name <$> options) /\ answered calls) \/
  (exists e, r = Err e /\ calls = [(new_call target name, Err e)]) \/
  (exists e calls' ans, r = Err e /\ calls = calls' ++ [(kill_call name, ans)] /\
     head calls'.*1 = Some (new_call target name)).
Proof.
  intros N R. unfold locked_clone in R.
  destruct (runs_bind _ _ _ _ R) as [([] & c1 & c2 & -> & R1 & R2)|(e & -> & R1)].
  2:{ destruct (runs_command _ _ _ R1) as ([out|e'] & -> & [= ->]). right. left. by exists e'. }
  destruct (runs_command _ _ _ R1) as ([out|e] & -> & [= ]).
  destruct (runs_bind _ _ _ _ R2) as [([] & c3 & c4 & -> & R3 & R4)|(e & -> & R3)].
  - apply runs_ret_inv in R4 as [-> ->].
    destruct (runs_attempt _ _ _ _ R3) as [([] & _ & R5)|(e & c5 & c6 & -> & R5 & R6)].
    + destruct (runs_set_options _ _ _ _ R5) as [(_ & E & A)|(? & ? & ? & ? & [=] & _)].
      left. split_and!; [done|cbn; by rewrite app_nil_r, E|]. rewrite app_nil_r. by constructor.
    + destruct (runs_bind _ _ _ _ R6) as [(? & ? & ? & _ & _ & R7)|(? & [=] & _)].
      by apply runs_throw_inv in R7 as [_ [=]].
  - right. right. destruct (runs_attempt _ _ _ _ R3) as [(? & [=] & _)|(e' & c5 & c6 & -> & R5 & R6)].
    destruct (runs_bind _ _ _ _ R6) as [([] & c7 & c8 & -> & R7 & R8)|(e'' & [= <-] & R7)].
    + apply runs_throw_inv in R8 as [-> [= ->]]. unfold destroyClone in R7. rewrite N in R7. cbn [negb] in R7.
      destruct (runs_attempt _ _ _ _ R7) as [(? & _ & R9)|(e3 & c9 & c10 & -> & R9 & R10)].
      * destruct (runs_command _ _ _ R9) as (ans & -> & _).
        exists e', ((new_call target name, Ok out) :: c5), ans. split_and!; [done|by rewrite app_nil_r|done].
      * apply runs_ret_inv in R10 as [-> _]. destruct (runs_command _ _ _ R9) as (ans & -> & _).
        exists e', ((new_call target name, Ok out) :: c5), ans. split_and!; [done|by rewrite !app_nil_r|done].
    + unfold destroyClone in R7. rewrite N in R7. cbn [negb] in R7.
      destruct (runs_attempt _ _ _ _ R7) as [(? & [=] & _)|(e3 & c9 & c10 & -> & R9 & R10)].
      by apply runs_ret_inv in R10 as [_ [=]].
Qed.

Lemma is_clone name : isCloneSession (CLONE_PREFIX +:+ name) = true.
Proof. unfold isCloneSession. by induction name. Qed.

(** A viewer's clone is locked down or not there.  Whatever tmux answers
    and in between whatever else happens: [createReadOnlyClone] returns a name
    only after the clone was made on the target asked for and each of its
    options was set (no prefix key, an empty key table); if an option fails it
    throws, and the last thing it asks is the end of that clone. *)
Theorem clone_locked_down target grantId connId calls r :
  runs (createReadOnlyClone tmuxSocket target grantId connId) calls r ->
  let name := cloneNameFor grantId connId in
  match r with
  | Ok n => n = name /\ calls.*1 = new_call target name :: (set_call name <$> LOCKDOWN) /\ answered calls
  | Err e => calls = [(new_call target name, Err e)] \/
             (exists calls' ans, calls = calls' ++ [(kill_call name, ans)])
  end.
Proof.
  intros R. assert (isCloneSession (cloneNameFor grantId connId) = true) as N by apply is_clone.
  destruct (locked_clone_cases _ _ _ _ _ N R) as [(-> & E & A)|[(e & -> & ->)|(e & calls' & ans & -> & -> & _)]].
  - done.
  - by left.
  - right. by eexists _, _.
Qed.

(** The session a call ends, if it is one that ends a session. *)
Definition kills (name : string) (c : list string * Answer) : Prop := c.1 = kill_call name.

Lemma runs_destroy name calls r : runs (destroyClone tmuxSocket name) calls r ->
  r = Ok tt /\ if isCloneSession name then exists ans, calls = [(kill_call name, ans)] else calls = [].
Proof.
  unfold destroyClone. destruct (isCloneSession name); cbn [negb].
  - intros R. destruct (runs_attempt _ _ _ _ R) as [([] & -> & R1)|(e & c1 & c2 & -> & R1 & R2)].
    + destruct (runs_command _ _ _ R1) as (ans & -> & _). by eauto.
    + apply runs_ret_inv in R2 as [-> ->]. destruct (runs_command _ _ _ R1) as (ans & -> & _).
      rewrite app_nil_r. by eauto.
  - by intros [-> ->]%runs_ret_inv.
Qed.

Lemma runs_destroy_all names calls r : Forall (fun n => isCloneSession n = true) names ->
  runs (destroy_all tmuxSocket names) calls r -> r = Ok tt /\ calls.*1 = kill_call <$> names.
Proof.
  intros F. revert calls r. induction F as [|n names N F IH]; intros calls r R; cbn [destroy_all] in R.
  - by apply runs_ret_inv in R as [-> ->].
  - destruct (runs_bind _ _ _ _ R) as [([] & c1 & c2 & -> & R1 & R2)|(e & -> & R1)].
    + destruct (runs_destroy _ _ _ R1) as [_ K]. rewrite N in K. destruct K as [ans ->].
      destruct (IH _ _ R2) as [-> E]. by rewrite fmap_app, E.
    + by destruct (runs_destroy _ _ _ R1) as [[=] _].
Qed.

(** The sweep at start-up never fails; it ends each clone that is listed, once,
    and nothing that is not a clone; its answer is how many. *)
Theorem sweep_kills_only_clones calls r : runs (sweepOrphanClones tmuxSocket) calls r ->
  exists names, r = Ok (Z.of_nat (length names)) /\ Forall (fun n => isCloneSession n = true) names /\
    calls.*1 = argv ["list-sessions"; "-F"; "#{session_name}"] :: (kill_call <$> names) /\
    (forall stdout, head calls = Some (argv ["list-sessions"; "-F"; "#{session_name}"], Ok stdout) ->
       names = filter (fun n => isCloneSession n = true) (map text (lines_of stdout))).
Proof.
  unfold sweepOrphanClones. intros R.
  assert (forall calls (r : result string (option (list string))),
    runs (attempt (stdout ← query tmuxSocket ["list-sessions"; "-F"; "#{session_name}"];
                   Ret (Some (map text (lines_of stdout)))) (fun _ => Ret None)) calls r ->
    exists ans, calls = [(argv ["list-sessions"; "-F"; "#{session_name}"], ans)] /\
      r = Ok (match ans with Ok stdout => Some (map text (lines_of stdout)) | Err _ => None end)) as Listing.
  { clear. intros calls r R. destruct (runs_attempt _ _ _ _ R) as [(a & -> & R1)|(e & c1 & c2 & -> & R1 & R2)].
    - destruct (runs_bind _ _ _ _ R1) as [(out & c1 & c2 & -> & R2 & R3)|(? & [=] & _)].
      apply runs_ret_inv in R3 as [-> [= ->]]. rewrite (runs_exec_inv _ _ _ R2). by exists (Ok out).
    - apply runs_ret_inv in R2 as [-> ->].
      destruct (runs_bind _ _ _ _ R1) as [(out & c3 & c4 & -> & R2 & R3)|(e' & [= <-] & R2)].
      + by apply runs_ret_inv in R3 as [_ [=]].
      + rewrite app_nil_r, (runs_exec_inv _ _ _ R2). by exists (Err e). }
  destruct (runs_bind _ _ _ _ R) as [(o & c1 & c2 & -> & R1 & R2)|(e & _ & R1)].
  2:{ by destruct (Listing _ _ R1) as (? & _ & [=]). }
  destruct (Listing _ _ R1) as (ans & -> & [= ->]). destruct ans as [out|e].
  - set (names := filter _ _) in R2.
    assert (Forall (fun n => isCloneSession n = true) names) as F.
    { apply Forall_forall. intros n [? _]%list_elem_of_filter. done. }
    destruct (runs_bind _ _ _ _ R2) as [([] & c3 & c4 & -> & R3 & R4)|(e & _ & R3)].
    2:{ by destruct (runs_destroy_all _ _ _ F R3) as [[=] _]. }
    apply runs_ret_inv in R4 as [-> ->]. destruct (runs_destroy_all _ _ _ F R3) as [_ E].
    exists names. rewrite app_nil_r. cbn. rewrite E. split_and!; try done. by intros stdout [= ->].
  - apply runs_ret_inv in R2 as [-> ->]. exists []. split_and!; [done|constructor|done|done].
Qed.
End Safety.

(** *** Names of clones *)

Lemma sanitise_safe part : Forall (fun a => safe_char a = true) (String.list_ascii_of_string (sanitise part)).
Proof.
  unfold sanitise. rewrite String.list_ascii_of_string_of_list_ascii.
  apply Forall_forall. by intros a [? _]%list_elem_of_filter.
Qed.

Lemma list_ascii_app s t : String.list_ascii_of_string (s +:+ t) =
  String.list_ascii_of_string s ++ String.list_ascii_of_string t.
Proof. induction s as [|a s IH]; [done|]. cbn. by rewrite <- IH. Qed.

Lemma list_ascii_inj s t : String.list_ascii_of_string s = String.list_ascii_of_string t -> s = t.
Proof.
  intros E. rewrite <- (String.string_of_list_ascii_of_string s), <- (String.string_of_list_ascii_of_string t).
  by rewrite E.
Qed.

(** Nothing in a clone's name means anything to tmux (no [:] and no [.]). *)
Lemma cloneNameFor_safe grantId connId :
  Forall (fun a => safe_char a = true) (String.list_ascii_of_string (cloneNameFor grantId connId)).
Proof.
  unfold cloneNameFor. rewrite !list_ascii_app. repeat (apply Forall_app; split); try apply sanitise_safe.
  all: apply (bool_decide_unpack _); vm_compute; exact I.
Qed.

Lemma last_part_inj (c : Ascii.ascii) l1 l2 r1 r2 : c ∉ r1 -> c ∉ r2 ->
  l1 ++ c :: r1 = l2 ++ c :: r2 -> r1 = r2.
Proof.
  intros N1 N2 E. apply (f_equal reverse) in E. rewrite !reverse_app, !reverse_cons, <- !app_assoc in E.
  cbn in E. assert (forall r r' (t t' : list Ascii.ascii), c ∉ r -> c ∉ r' -> r ++ c :: t = r' ++ c :: t' -> r = r') as H.
  { induction r as [|x r IH]; intros [|y r'] t t' M1 M2 X; cbn in X; simplify_eq; try done.
    - by destruct M2; left.
    - by destruct M1; left.
    - f_equal. apply (IH r' t t'); [set_solver|set_solver|done]. }
  apply (H (reverse r1) (reverse r2)) in E; [by apply (inj reverse)|by rewrite elem_of_reverse..].
Qed.

Definition underscore : Ascii.ascii := Ascii.ascii_of_N 95.

(** Connections have clones of their own, whatever their grants: ids of
    connections hold no underscore. *)
Lemma cloneNameFor_inj g1 c1 g2 c2 :
  underscore ∉ String.list_ascii_of_string (sanitise c1) -> underscore ∉ String.list_ascii_of_string (sanitise c2) ->
  cloneNameFor g1 c1 = cloneNameFor g2 c2 -> sanitise c1 = sanitise c2.
Proof.
  intros N1 N2 E. apply list_ascii_inj. apply (f_equal String.list_ascii_of_string) in E.
  unfold cloneNameFor in E. rewrite !list_ascii_app in E.
  change (String.list_ascii_of_string "_") with [underscore] in E.
  rewrite !(assoc (++)) in E. rewrite <- !(assoc (++) _ [underscore]) in E.
  by apply (last_part_inj underscore) in E.
Qed.

(** ** Listings *)

(** What tmux prints: fields joined by tabs, rows ended by newlines. *)
Fixpoint join (c : Z) (parts : list jstr) : jstr :=
  match parts with
  | [] => []
  | p :: parts => match parts with [] => p | _ => p ++ c :: join c parts end
  end.
Definition row (fields : list jstr) : jstr := join 9 fields.
Definition listing (rows : list (list jstr)) : jstr := join 10 (row <$> rows) ++ [10].

Lemma split_on_ne c s : split_on c s <> [].
Proof. destruct s as [|x s]; cbn; [done|]. case_match; [done|]. by case_match. Qed.

Lemma split_on_part c p s : c ∉ p -> split_on c (p ++ c :: s) = p :: split_on c s.
Proof.
  induction p as [|x p IH]; intros N; cbn.
  - by rewrite Z.eqb_refl.
  - rewrite (proj2 (Z.eqb_neq x c)) by set_solver. rewrite IH by set_solver. done.
Qed.

Lemma split_on_last c p : c ∉ p -> split_on c p = [p].
Proof.
  induction p as [|x p IH]; intros N; cbn; [done|].
  rewrite (proj2 (Z.eqb_neq x c)) by set_solver. by rewrite IH by set_solver.
Qed.

Lemma split_join c parts : parts <> [] -> Forall (fun p => c ∉ p) parts -> split_on c (join c parts) = parts.
Proof.
  intros N F. induction F as [|p parts P F IH]; [done|]. cbn.
  destruct parts as [|q parts]; [by apply split_on_last|]. by rewrite split_on_part, IH.
Qed.

(** Text that [trim] leaves alone, a newline after it or not. *)
Definition solid (s : jstr) : Prop :=
  (exists c t, s = c :: t /\ is_space c = false) /\ (exists c t, s = t ++ [c] /\ is_space c = false).

Lemma trim_solid s : solid s -> trim (s ++ [10]) = s.
Proof.
  intros [(c & t & E & C) (d & u & F & D)]. unfold trim.
  assert (drop_while is_space (s ++ [10]) = s ++ [10]) as -> by (rewrite E; cbn; by rewrite C).
  unfold strip_end. assert (drop_while is_space (reverse (s ++ [10])) = reverse s) as ->.
  { rewrite F, !reverse_app. cbn. by rewrite D. }
  apply reverse_involutive.
Qed.

Lemma join_app c p parts : parts <> [] -> join c (p :: parts) = p ++ c :: join c parts.
Proof. by destruct parts. Qed.

Lemma filter_id {A} (P : A -> Prop) `{!forall x, Decision (P x)} (l : list A) :
  Forall P l -> filter P l = l.
Proof. induction 1 as [|x l Hx _ IH]; [done|]. by rewrite filter_cons_True, IH. Qed.

Lemma lines_of_listing rows : rows <> [] -> Forall (fun r => row r <> [] /\ 10 ∉ row r) rows ->
  solid (join 10 (row <$> rows)) -> lines_of (listing rows) = row <$> rows.
Proof.
  intros N F S. unfold lines_of, listing. rewrite trim_solid by done. rewrite split_join.
  - apply filter_id, Forall_fmap. eapply Forall_impl; [exact F|]. by intros r [? _].
  - by destruct rows.
  - apply Forall_fmap. eapply Forall_impl; [exact F|]. by intros r [_ ?].
Qed.

(** Digits, and the number they are. *)
Definition digits (s : jstr) (n : Z) : Prop :=
  s <> [] /\ Forall (fun c => is_digit c = true) s /\ digits_value 0 s = n.

Lemma digit_char c : is_digit c = true -> 48 <= c <= 57.
Proof. unfold is_digit. lia. Qed.

Lemma digit_not_space c : is_digit c = true -> is_space c = false.
Proof.
  intros D%digit_char. assert (c = 48 \/ c = 49 \/ c = 50 \/ c = 51 \/ c = 52 \/ c = 53 \/ c = 54 \/ c = 55 \/ c = 56 \/ c = 57) as H by lia.
  destruct H as [->|[->|[->|[->|[->|[->|[->|[->|[->| ->]]]]]]]]]; reflexivity.
Qed.

Lemma parseInt_digits s n : digits s n -> parseInt (Some s) = Some n.
Proof.
  intros (N & F & V). destruct s as [|c s]; [done|]. apply Forall_cons in F as [D F].
  unfold parseInt. cbn [mbind option_bind drop_while]. rewrite (digit_not_space c D).
  pose proof (digit_char c D) as B.
  assert (match c :: s with 43 :: s0 => (1, s0) | 45 :: s0 => (-1, s0) | _ => (1, c :: s) end = (1, c :: s)) as ->.
  { destruct c as [|c|c]; try lia. do 7 (destruct c as [c|c|]; try done; try lia). }
  rewrite D. by rewrite Z.mul_1_l, V.
Qed.

(** A row of [list-sessions] and what it says. *)
Record SessionRow := mkRow {
  ro_name : jstr; ro_id : jstr; ro_windows : jstr; ro_clients : jstr;
  ro_created : jstr; ro_activity : jstr; ro_width : jstr; ro_height : jstr;
  ro_n : Z; ro_k : Z; ro_c : Z; ro_a : Z; ro_w : Z; ro_h : Z;
}.

Definition fields_of (r : SessionRow) : list jstr :=
  [ro_name r; ro_id r; ro_windows r; ro_clients r;
   ro_created r; ro_activity r; ro_width r; ro_height r].

Definition info_of (r : SessionRow) : SessionInfo :=
  mkSessionInfo (text (ro_name r)) (Some (text (ro_id r))) (Some (ro_n r)) (ro_k r =? 1)
    (ro_c r * 1000) (ro_a r * 1000) (Some (Some (ro_w r), Some (ro_h r))).

(** What tmux guarantees of a row: the fields hold no tab and no newline, a
    name begins with no space, and the counts and sizes are numbers, a one
    being printed [1].  The fourth field counts the attached clients, so a
    session is reported attached when exactly one client is. *)
Record row_ok (r : SessionRow) : Prop := {
  rk_name : 9 ∉ ro_name r /\ 10 ∉ ro_name r /\ exists c t, ro_name r = c :: t /\ is_space c = false;
  rk_id : 9 ∉ ro_id r /\ 10 ∉ ro_id r;
  rk_windows : digits (ro_windows r) (ro_n r);
  rk_clients : digits (ro_clients r) (ro_k r) /\ is_one (Some (ro_clients r)) = (ro_k r =? 1);
  rk_created : digits (ro_created r) (ro_c r) /\ 0 <= ro_c r <= 8640000000000;
  rk_activity : digits (ro_activity r) (ro_a r) /\ 0 <= ro_a r <= 8640000000000;
  rk_width : digits (ro_width r) (ro_w r);
  rk_height : digits (ro_height r) (ro_h r);
}.

Lemma digits_no s n c : digits s n -> c = 9 \/ c = 10 -> c ∉ s.
Proof.
  intros (_ & F & _) C M. rewrite Forall_forall in F. specialize (F c M). apply digit_char in F. lia.
Qed.

Lemma fields_clean r c : row_ok r -> c = 9 \/ c = 10 -> Forall (fun p => c ∉ p) (fields_of r).
Proof.
  intros [(N9 & N10 & _) (I9 & I10) W [K _] [C _] [A _] X Y] E. unfold fields_of.
  repeat constructor; try (by eapply digits_no); by destruct E as [-> | ->].
Qed.

Lemma join_clean c d parts : c <> d -> Forall (fun p => c ∉ p) parts -> c ∉ join d parts.
Proof.
  intros N F. induction F as [|p parts P F IH]; [cbn; set_solver|]. cbn. destruct parts; [done|].
  rewrite not_elem_of_app, not_elem_of_cons. split_and!; [done|done|]. exact IH.
Qed.

Lemma session_of_row r : row_ok r -> session_of_line (row (fields_of r)) = Ok (info_of r).
Proof.
  intros K. unfold session_of_line, row. rewrite split_join; [|done|apply fields_clean; auto].
  destruct K as [_ _ W [_ K] [C Cb] [A Ab] X Y]. unfold fields_of. cbn [lookup list_lookup].
  unfold date_of. rewrite (parseInt_digits _ _ C), (parseInt_digits _ _ A).
  rewrite !(proj2 (Z.leb_le _ _)) by lia. cbn [mbind result_bind].
  rewrite (parseInt_digits _ _ W). unfold info_of, dimensions_of, nonempty.
  destruct X as (X1 & X2), Y as (Y1 & Y2). destruct (ro_width r) eqn:Ew; [done|]. destruct (ro_height r) eqn:Eh; [done|].
  rewrite <- Ew, <- Eh in *. rewrite (parseInt_digits _ (ro_w r)), (parseInt_digits _ (ro_h r)) by (split; done).
  cbn [fst snd fmap option_fmap option_map default]. by rewrite K.
Qed.

Lemma join_ends c parts q d : parts <> [] -> last parts = Some (q ++ [d]) ->
  exists t, join c parts = t ++ [d].
Proof.
  intros N. induction parts as [|p parts IH]; [done|]. destruct parts as [|p' parts].
  - cbn. intros [= ->]. by eexists.
  - intros L. rewrite join_app by done. destruct IH as [t ->]; [done|exact L|].
    exists (p ++ c :: t). by rewrite <- app_assoc.
Qed.

Lemma digits_end s n : digits s n -> exists q d, s = q ++ [d] /\ is_space d = false.
Proof.
  intros (N & F & _). destruct s as [|d q _] using rev_ind; [done|]. exists q, d. split; [done|].
  apply Forall_app in F as [_ F]. apply Forall_cons in F as [D _]. by apply digit_not_space.
Qed.

Lemma row_solid r : row_ok r ->
  (exists c t, row (fields_of r) = c :: t /\ is_space c = false) /\
  (exists q d, row (fields_of r) = q ++ [d] /\ is_space d = false).
Proof.
  intros K. split.
  - destruct K as [(_ & _ & c & t & E & S) _ _ _ _ _ _]. unfold row, fields_of. cbn. rewrite E. by eexists _, _.
  - destruct (digits_end _ _ (rk_height r K)) as (q & d & E & S).
    destruct (join_ends 9 (fields_of r) q d) as [t T]; [done|by rewrite <- E|].
    exists t, d. by split.
Qed.

Lemma listing_solid rows : rows <> [] -> Forall row_ok rows -> solid (join 10 (row <$> (fields_of <$> rows))).
Proof.
  intros N F. split.
  - destruct F as [|r rows R F]; [done|]. destruct (row_solid r R) as [(c & t & E & S) _].
    rewrite !fmap_cons, E. destruct (row <$> (fields_of <$> rows)) as [|p parts] eqn:P.
    + cbn. by eexists _, _.
    + rewrite join_app by done. by eexists _, _.
  - assert (exists r, last rows = Some r /\ row_ok r) as (r & L & R).
    { destruct rows as [|r rows _] using rev_ind; [done|]. exists r. rewrite last_snoc. split; [done|].
      apply Forall_app in F as [_ F]. by apply Forall_cons in F as [? _]. }
    destruct (row_solid r R) as [_ (q & d & E & S)].
    destruct (join_ends 10 (row <$> (fields_of <$> rows)) q d) as [t T].
    + by destruct rows.
    + by rewrite !fmap_last, L, <- E.
    + exists d, t. by split.
Qed.

Lemma map_result_ok {A B} (f : A -> result string B) g l : (forall x, x ∈ l -> f x = Ok (g x)) ->
  map_result f l = Ok (g <$> l).
Proof.
  induction l as [|x l IH]; intros H; [done|]. cbn [map_result]. rewrite H by left. cbn [mbind result_bind].
  rewrite IH by (intros; apply H; by right). done.
Qed.

(** A listing is read back as it was printed: of the rows tmux lists, in
    order, every session with its name, id, counts, times and size; and an
    error that says there is no server is an empty list. *)
Theorem listing_read_back tmuxSocket rows calls r : Forall row_ok rows -> runs (listSessions tmuxSocket) calls r ->
  exists ans, calls = [(tmuxArgs tmuxSocket ++ ["list-sessions"; "-F"; F_SESSIONS], ans)] /\
    (ans = Ok (listing (fields_of <$> rows)) -> r = Ok (info_of <$> rows)) /\
    (forall e, ans = Err e -> r = if includes "no server running" e || includes "no sessions" e then Ok [] else Err e).
Proof.
  intros F R. unfold listSessions in R.
  assert (map_result session_of_line (lines_of (listing (fields_of <$> rows))) = Ok (info_of <$> rows)) as M.
  { destruct rows as [|r0 rows']; [reflexivity|]. rewrite lines_of_listing.
    - rewrite (map_result_ok _ (fun l => default (mkSessionInfo "" None None false 0 0 None)
        (ok_option (session_of_line l)))).
      + f_equal. rewrite <- !list_fmap_compose. apply Forall_fmap_ext_1.
        eapply Forall_impl; [exact F|]. intros x X. unfold compose. by rewrite session_of_row.
      + intros l (fs & -> & (x & -> & X)%list_elem_of_fmap)%list_elem_of_fmap.
        rewrite Forall_forall in F. by rewrite session_of_row by by apply F.
    - done.
    - apply Forall_fmap. eapply Forall_impl; [exact F|]. intros x X. split.
      + destruct (row_solid x X) as [(c & t & -> & _) _]. done.
      + apply join_clean; [done|]. apply fields_clean; auto.
    - by apply listing_solid. }
  destruct (runs_attempt _ _ _ _ R) as [(a & -> & R1)|(e & c1 & c2 & -> & R1 & R2)].
  - destruct (runs_bind _ _ _ _ R1) as [(out & c1 & c2 & -> & R2 & R3)|(? & [=] & _)].
    rewrite (runs_exec_inv _ _ _ R2). exists (Ok out).
    destruct (map_result session_of_line (lines_of out)) as [infos|e] eqn:E; cbn in R3;
      [apply runs_ret_inv in R3 as [-> [= ->]]|by apply runs_throw_inv in R3 as [_ [=]]].
    split_and!; [done| |done]. intros [= ->]. congruence.
  - destruct (runs_bind _ _ _ _ R1) as [(out & c3 & c4 & -> & R3 & R4)|(e' & [= <-] & R3)].
    + destruct (map_result session_of_line (lines_of out)) as [infos|e'] eqn:E; cbn in R4;
        [by apply runs_ret_inv in R4 as [_ [=]]|apply runs_throw_inv in R4 as [-> [= ->]]].
      rewrite (runs_exec_inv _ _ _ R3). exists (Ok out). split_and!; [|intros [= ->]; congruence|done].
      case_match; [apply runs_ret_inv in R2 as [-> _]|apply runs_throw_inv in R2 as [-> _]]; done.
    + rewrite (runs_exec_inv _ _ _ R3). exists (Err e). split_and!; [|done|].
      * case_match; [apply runs_ret_inv in R2 as [-> _]|apply runs_throw_inv in R2 as [-> _]]; done.
      * intros e' [= <-]. case_match; [by apply runs_ret_inv in R2 as [_ ->]|by apply runs_throw_inv in R2 as [_ ->]].
Qed.

(** ** Zoom *)

Definition bit (b : bool) : jstr := if b then js "1" else js "0".

(** The manual, of the window of pane [target]: [display-message] says whether
    the window is zoomed and the pane is its active one; [resize-pane -Z]
    toggles the zoom, and zooms on the pane; [select-pane -Z] keeps the window
    zoomed on the pane it selects. *)
Class ZoomLaws {S} (tmuxSocket target : string) (server : list string -> S -> S * Answer)
    (zoomed active : S -> bool) : Prop := {
  zl_show s : server (tmuxArgs tmuxSocket
      ++ ["display-message"; "-p"; "-t"; target; "#{window_zoomed_flag}	#{pane_active}"]) s
    = (s, Ok (row [bit (zoomed s); bit (active s)] ++ [10]));
  zl_on s : zoomed s = false -> exists s' out,
    server (tmuxArgs tmuxSocket ++ ["resize-pane"; "-t"; target; "-Z"]) s = (s', Ok out) /\
    zoomed s' = true /\ active s' = true;
  zl_off s : zoomed s = true -> exists s' out,
    server (tmuxArgs tmuxSocket ++ ["resize-pane"; "-t"; target; "-Z"]) s = (s', Ok out) /\ zoomed s' = false;
  zl_move s : zoomed s = true -> exists s' out,
    server (tmuxArgs tmuxSocket ++ ["select-pane"; "-Z"; "-t"; target]) s = (s', Ok out) /\
    zoomed s' = true /\ active s' = true;
}.

Lemma bits_read z a : is_one (split_on 9 (trim (row [bit z; bit a] ++ [10])) !! 0%nat) = z /\
  is_one (split_on 9 (trim (row [bit z; bit a] ++ [10])) !! 1%nat) = a.
Proof. by destruct z, a. Qed.

Lemma serve_command {S} (server : list string -> S -> S * Answer) tmuxSocket args s s' out :
  server (tmuxArgs tmuxSocket ++ args) s = (s', Ok out) ->
  serve server (command tmuxSocket args) s = (s', Ok tt).
Proof. intros E. cbn. by rewrite E. Qed.

(** Asking for a zoom is idempotent: whatever the window shows, a request
    to zoom a pane, or not to, leaves that pane zoomed, or not; a request for
    what is already so changes nothing.  So two taps that cross on the wire do
    not undo each other. *)
Theorem zoom_as_asked {S} tmuxSocket target (server : list string -> S -> S * Answer) zoomed active
    `{!ZoomLaws tmuxSocket target server zoomed active} session desired s :
  exists s', serve server (zoomPane tmuxSocket session (Some target) (Some desired)) s = (s', Ok tt) /\
    zoomed s' && active s' = desired /\ (zoomed s && active s = desired -> s' = s).
Proof.
  unfold zoomPane, query. change (default session (Some target)) with target.
  rewrite serve_bind. cbn [serve exec]. rewrite zl_show. cbn [fst snd serve].
  destruct (bits_read (zoomed s) (active s)) as [-> ->].
  destruct (Bool.eqb desired (zoomed s && active s)) eqn:E.
  - apply Bool.eqb_prop in E. exists s. by split_and!.
  - apply Bool.eqb_false_iff in E. destruct (zoomed s) eqn:Z; cbn [andb] in *.
    + destruct desired; cbn [andb].
      * destruct (zl_move s Z) as (s' & out & X & Z' & A'). exists s'.
        rewrite (serve_command _ _ _ _ _ _ X), Z', A'. split_and!; [done|done|]. intros Ha. by rewrite Ha in E.
      * destruct (zl_off s Z) as (s' & out & X & Z'). exists s'.
        rewrite (serve_command _ _ _ _ _ _ X), Z'. split_and!; [done|done|]. intros Ha. by rewrite Ha in E.
    + rewrite andb_false_r. destruct desired; [|done].
      destruct (zl_on s Z) as (s' & out & X & Z' & A'). exists s'.
      rewrite (serve_command _ _ _ _ _ _ X), Z', A'. by split_and!.
Qed.

(** ** Scrolling *)

(** The manual, of the active pane of [session]: copy mode is entered at the
    bottom; scrolling moves by lines and stops at either end, and reaching the
    bottom may leave copy mode; what [display-message] says. *)
Record Pane := mkPane { pn_inMode : bool; pn_position : Z; pn_history : Z; pn_height : Z }.
Definition pane_at (p : Pane) : Z := if pn_inMode p then pn_position p else 0.

Class ScrollLaws {S} (tmuxSocket session : string) (server : list string -> S -> S * Answer) (pane : S -> Pane) : Prop := {
  sc_range s : 0 <= pn_position (pane s) <= pn_history (pane s) /\ 0 <= pn_height (pane s);
  sc_show s : exists ps hs ws,
    server (tmuxArgs tmuxSocket ++ ["display-message"; "-p"; "-t"; session;
      "#{pane_in_mode}	#{scroll_position}	#{history_size}	#{pane_height}"]) s
      = (s, Ok (row [bit (pn_inMode (pane s)); ps; hs; ws] ++ [10])) /\
    (if pn_inMode (pane s) then digits ps (pn_position (pane s)) else ps = []) /\
    digits hs (pn_history (pane s)) /\ digits ws (pn_height (pane s));
  sc_enter s : pn_inMode (pane s) = false -> exists s' out,
    server (tmuxArgs tmuxSocket ++ ["copy-mode"; "-e"; "-t"; session]) s = (s', Ok out) /\
    pane s' = mkPane true 0 (pn_history (pane s)) (pn_height (pane s));
  sc_up s n : pn_inMode (pane s) = true -> 0 < n <= pn_history (pane s) -> exists s' out,
    server (tmuxArgs tmuxSocket ++ ["send-keys"; "-t"; session; "-X"; "-N"; pretty n; "scroll-up"]) s = (s', Ok out) /\
    pane s' = mkPane true (Z.min (pn_position (pane s) + n) (pn_history (pane s))) (pn_history (pane s)) (pn_height (pane s));
  sc_down s n : pn_inMode (pane s) = true -> 0 < n <= pn_history (pane s) -> exists s' out b,
    server (tmuxArgs tmuxSocket ++ ["send-keys"; "-t"; session; "-X"; "-N"; pretty n; "scroll-down"]) s = (s', Ok out) /\
    pane s' = mkPane b (Z.max 0 (pn_position (pane s) - n)) (pn_history (pane s)) (pn_height (pane s)) /\
    (b = false -> pn_position (pane s) - n <= 0);
}.

(** What the relay says of a pane. *)
Definition scroll_state (p : Pane) : ScrollState :=
  mkScroll (pane_at p) (pn_history p) (pn_height p) (pn_inMode p).

Section Scroll.
Context {S : Type} (tmuxSocket session : string) (server : list string -> S -> S * Answer) (pane : S -> Pane).
Context `{!ScrollLaws tmuxSocket session server pane}.

Lemma scroll_num_digits s n : digits s n -> 0 <= n -> scroll_num (Some s) = n.
Proof. intros D N. unfold scroll_num. rewrite (parseInt_digits _ _ D). case_match eqn:E; lia. Qed.

Lemma serve_read s : serve server (readScrollState tmuxSocket session) s = (s, Ok (scroll_state (pane s))).
Proof.
  destruct (sc_show s) as (ps & hs & ws & E & P & H & W). pose proof (sc_range s) as R.
  unfold readScrollState, query. rewrite serve_bind. cbn [serve exec]. rewrite E. cbn [fst snd serve].
  do 2 f_equal. unfold scroll_of.
  assert (solid (row [bit (pn_inMode (pane s)); ps; hs; ws])) as Sd.
  { split.
    - destruct (pn_inMode (pane s)); eexists _, _; split; reflexivity.
    - destruct (digits_end _ _ W) as (q & d & Ew & D).
      destruct (join_ends 9 [bit (pn_inMode (pane s)); ps; hs; ws] q d) as [t T]; [done|by rewrite <- Ew|].
      exists d, t. by split. }
  rewrite trim_solid by done. unfold row. rewrite split_join; [|done|].
  2:{ assert (9 ∉ bit (pn_inMode (pane s))) as B
        by (destruct (pn_inMode (pane s)); apply (bool_decide_unpack _); vm_compute; exact I).
      assert (9 ∉ ps) as Np by (destruct (pn_inMode (pane s)); [by eapply digits_no; [|left]|subst; set_solver]).
      repeat constructor; try done; by eapply digits_no; [|left]. }
  cbn [lookup list_lookup]. rewrite (scroll_num_digits hs _ H), (scroll_num_digits ws _ W) by lia.
  unfold scroll_state, pane_at. destruct (pn_inMode (pane s)).
  - by rewrite (scroll_num_digits ps _ P) by lia.
  - subst. reflexivity.
Qed.

Lemma serve_scroll s lines : lines <> 0 -> Z.abs lines <= pn_history (pane s) -> (lines < 0 -> pn_inMode (pane s) = true) ->
  exists s', serve server (scrollHistory tmuxSocket session lines) s = (s', Ok (scroll_state (pane s'))) /\
    pane_at (pane s') = Z.max 0 (Z.min (pane_at (pane s) + lines) (pn_history (pane s))).
Proof.
  intros N A D. pose proof (sc_range s) as R. unfold scrollHistory. rewrite (proj2 (Z.eqb_neq _ _)) by done.
  rewrite serve_bind, serve_read. cbn [snd fst ss_inMode scroll_state]. rewrite serve_bind.
  assert (exists s1, serve server (if pn_inMode (pane s) then Ret tt else command tmuxSocket ["copy-mode"; "-e"; "-t"; session]) s = (s1, Ok tt) /\
    pn_inMode (pane s1) = true /\ pn_position (pane s1) = pane_at (pane s) /\ pn_history (pane s1) = pn_history (pane s)) as (s1 & E1 & M1 & P1 & H1).
  { unfold pane_at. destruct (pn_inMode (pane s)) eqn:M; [by exists s|].
    destruct (sc_enter s M) as (s1 & out & E & P). exists s1. rewrite (serve_command _ _ _ _ _ _ E), P. done. }
  rewrite E1. cbn [fst snd]. rewrite serve_bind.
  destruct (0 <? lines) eqn:L.
  - apply Z.ltb_lt in L. rewrite Z.abs_eq by lia.
    destruct (sc_up s1 lines M1) as (s2 & out & E2 & P2); [lia|]. rewrite (serve_command _ _ _ _ _ _ E2). cbn [fst snd].
    exists s2. rewrite serve_read. split; [done|]. unfold pane_at at 1. rewrite P2, P1, H1. cbn.
    unfold pane_at. destruct (pn_inMode (pane s)); lia.
  - apply Z.ltb_ge in L. rewrite Z.abs_neq by lia.
    destruct (sc_down s1 (- lines) M1) as (s2 & out & b & E2 & P2 & B); [lia|].
    rewrite (serve_command _ _ _ _ _ _ E2). cbn [fst snd].
    exists s2. rewrite serve_read. split; [done|]. unfold pane_at at 1. rewrite P2. cbn.
    rewrite P1 in *. unfold pane_at in *. rewrite D in * by lia. destruct b; [lia|]. specialize (B eq_refl). lia.
Qed.

(** A scroll bar's position is where the view ends up, or the end of the
    history if it lies beyond; and the answer says so.  The distance is
    reckoned from where the pane is, so asking twice changes nothing more. *)
Theorem scroll_reaches s position : exists s',
  serve server (scrollToPosition tmuxSocket session position) s = (s', Ok (scroll_state (pane s'))) /\
  pane_at (pane s') = Z.min (Z.max 0 position) (pn_history (pane s)).
Proof.
  pose proof (sc_range s) as R. unfold scrollToPosition. rewrite serve_bind, serve_read.
  cbn [snd fst ss_historySize ss_inMode ss_position scroll_state].
  assert ((if pn_inMode (pane s) then pane_at (pane s) else 0) = pane_at (pane s)) as ->
    by (unfold pane_at; by destruct (pn_inMode (pane s))).
  case_match eqn:E.
  - exists s. split; [done|]. lia.
  - apply Z.eqb_neq in E. destruct (serve_scroll s (Z.min (Z.max 0 position) (pn_history (pane s)) - pane_at (pane s))) as (s' & E' & P).
    + done.
    + unfold pane_at. destruct (pn_inMode (pane s)); lia.
    + unfold pane_at. destruct (pn_inMode (pane s)); [done|lia].
    + exists s'. split; [done|]. rewrite P. lia.
Qed.
End Scroll.

(** ** The tmux adapters on concrete servers

    The hypotheses of [TmuxSafety]'s theorems hold of servers written out here,
    and the adapters run against a server that resolves a target the way the
    manual says: a session of exactly that name, else the one session whose
    name it begins. *)

(** ** A server of sessions *)

Definition Sessions : Type := list (string * list (string * string)).

(** [target-session] of the manual: exact names come first, then beginnings. *)
Definition resolve (target : string) (s : Sessions) : option string :=
  if decide (target ∈ s.*1) then Some target
  else match filter (fun n => String.prefix target n = true) s.*1 with [n] => Some n | _ => None end.

Definition on_target (target : string) (s : Sessions) (f : string -> Sessions) : Sessions * Answer :=
  match resolve target s with
  | Some n => (f n, Ok [])
  | None => (s, Err ("can't find session: " +:+ target))
  end.

Definition tmux_server (argv : list string) (s : Sessions) : Sessions * Answer :=
  match argv with
  | ["kill-session"; "-t"; t] => on_target t s (fun n => filter (fun e => e.1 <> n) s)
  | ["has-session"; "-t"; t] => on_target t s (fun _ => s)
  | ["new-session"; "-d"; "-t"; t; "-s"; name] =>
      if decide (name ∈ s.*1) then (s, Err ("duplicate session: " +:+ name))
      else on_target t s (fun _ => s ++ [(name, [])])
  | ["set-option"; "-t"; t; o; v] =>
      on_target t s (fun n => map (fun e => if decide (e.1 = n) then (n, e.2 ++ [(o, v)]) else e) s)
  | ["list-sessions"; "-F"; "#{session_name}"] => (s, Ok (js (String.concat (String (Ascii.ascii_of_N 10) "") s.*1)))
  | _ => (s, Err "unknown command")
  end.

Definition plain (names : list string) : Sessions := map (fun n => (n, [])) names.

(** A grant's clone is made beside the session it views, with its four options
    set, and the sweep of the next start takes it and leaves the owner's. *)
Example a_clone_and_the_sweep :
  let r := serve tmux_server (createReadOnlyClone "" "work" "g1" "c-1") (plain ["work"; "home"]) in
  r = ([("work", []); ("home", []); ("__mtmux_g1_c-1", LOCKDOWN)], Ok "__mtmux_g1_c-1") /\
  serve tmux_server (sweepOrphanClones "") r.1 = (plain ["work"; "home"], Ok 1).
Proof. split; vm_compute; reflexivity. Qed.

(** [-t name] is a beginning too: asking for the end of [work] when it has
    gone ends [workshop], and [sessionExists] says that [work] is there. *)
Example kill_ends_a_namesake :
  serve tmux_server (killSession "" "work") (plain ["home"; "workshop"]) = (plain ["home"], Ok tt) /\
  (serve tmux_server (sessionExists "" "work") (plain ["home"; "workshop"])).2 = Ok true.
Proof. split; vm_compute; reflexivity. Qed.

(** So a clone torn down twice takes another connection's: the second end of
    [conn-1]'s ends [conn-12]'s. *)
Example second_destroy_takes_another :
  let s := plain ["work"; cloneNameFor "g" "conn-1"; cloneNameFor "g" "conn-12"] in
  let s1 := (serve tmux_server (destroyClone "" (cloneNameFor "g" "conn-1")) s).1 in
  s1 = plain ["work"; cloneNameFor "g" "conn-12"] /\
  (serve tmux_server (destroyClone "" (cloneNameFor "g" "conn-1")) s1).1 = plain ["work"].
Proof. split; vm_compute; reflexivity. Qed.

(** Two clients on a session: [session_attached] is their number, and [2] is
    not [1]. *)
Example two_clients_unattached :
  (fun i => (si_name i, si_attached i)) <$>
    default [] (ok_option (map_result session_of_line (lines_of (js
      "one	$0	1	1	0	0	80	24
two	$1	1	2	0	0	80	24"))))
  = [("one", true); ("two", false)].
Proof. vm_compute. reflexivity. Qed.

(** The whole listing is trimmed before it is cut into lines, so the name of
    its first session loses a leading space and no longer names it. *)
Example leading_space_lost :
  si_name <$> default [] (ok_option (map_result session_of_line (lines_of (js
    " a	$0	1	0	0	0	80	24
 b	$1	1	0	0	0	80	24"))))
  = ["a"; " b"].
Proof. vm_compute. reflexivity. Qed.

(** ** Witnesses *)

Definition locked_calls : list (list string * Answer) :=
  (fun a => (a, Ok [])) <$>
    (new_call "" "work" (cloneNameFor "g1" "c-1") :: (set_call "" (cloneNameFor "g1" "c-1") <$> LOCKDOWN)).

Lemma clone_locked_down_witness :
  let name := cloneNameFor "g1" "c-1" in
  name = "__mtmux_g1_c-1" /\ locked_calls.*1 = new_call "" "work" name :: (set_call "" name <$> LOCKDOWN) /\
  answered locked_calls.
Proof.
  assert (runs (createReadOnlyClone "" "work" "g1" "c-1") locked_calls (Ok "__mtmux_g1_c-1")) as R
    by (repeat constructor).
  destruct (clone_locked_down "" "work" "g1" "c-1" locked_calls (Ok "__mtmux_g1_c-1") R) as (-> & E & A).
  split; [reflexivity|split; [exact E|exact A]].
Defined.

Definition row_work : SessionRow :=
  mkRow (js "work") (js "$0") (js "3") (js "2") (js "1700000000") (js "1700000100") (js "80") (js "24")
    3 2 1700000000 1700000100 80 24.

Lemma row_work_ok : row_ok row_work.
Proof.
  split; repeat split; try (by apply (bool_decide_unpack _); vm_compute; exact I); try (by vm_compute);
    try (by repeat constructor).
  eexists _, _. split; reflexivity.
Qed.

Lemma listing_read_back_witness :
  exists ans, [(["list-sessions"; "-F"; F_SESSIONS], ans)] =
    [(["list-sessions"; "-F"; F_SESSIONS], Ok (listing (fields_of <$> [row_work])) : Answer)] /\
  (ans = Ok (listing (fields_of <$> [row_work])) ->
   Ok [mkSessionInfo "work" (Some "$0") (Some 3) false 1700000000000 1700000100000 (Some (Some 80, Some 24))]
   = Ok (info_of <$> [row_work]) :> result string _).
Proof.
  assert (runs (listSessions "") [(["list-sessions"; "-F"; F_SESSIONS], Ok (listing (fields_of <$> [row_work])))]
    (Ok [mkSessionInfo "work" (Some "$0") (Some 3) false 1700000000000 1700000100000 (Some (Some 80, Some 24))])) as R.
  { apply runs_exec. vm_compute. constructor. }
  destruct (listing_read_back "" [row_work] _ _ (Forall_cons_2 _ _ _ row_work_ok (Forall_nil_2 _)) R) as (ans & E & F & _).
  exists ans. split; [symmetry; exact E|exact F].
Defined.

(** A window of two panes: whether it is zoomed, whether the pane is active. *)
Definition window_server (argv : list string) (s : bool * bool) : (bool * bool) * Answer :=
  match argv with
  | "display-message" :: _ => (s, Ok (row [bit s.1; bit s.2] ++ [10]))
  | "resize-pane" :: _ => (if s.1 then (false, s.2) else (true, true), Ok [])
  | "select-pane" :: _ => ((s.1, true), Ok [])
  | _ => (s, Err "unknown command")
  end.

#[export] Instance window_laws : ZoomLaws "" "%1" window_server fst snd.
Proof.
  split; [done|..]; intros [z a]; cbn; intros E; subst; eexists _, _; (split; [reflexivity|]); by cbn.
Qed.

Lemma zoom_as_asked_witness : exists s',
  serve window_server (zoomPane "" "work" (Some "%1") (Some true)) (true, false) = (s', Ok tt) /\
  s'.1 && s'.2 = true /\ (false = true -> s' = (true, false)).
Proof. exact (zoom_as_asked "" "%1" window_server fst snd "work" true (true, false)). Defined.

(** A pane of a hundred lines of history: in copy mode or not, and where. *)
Definition three (n : Z) : jstr := [48 + n / 100; 48 + n / 10 mod 10; 48 + n mod 10].
Definition numbers : list Z := seqZ 0 101.
Definition number_of (s : string) : Z := default 0 (list_find (fun n => pretty n = s) numbers ≫= fun r => Some r.2).

Definition view (s : bool * Z) : Pane := mkPane s.1 (Z.max 0 (Z.min s.2 100)) 100 24.
Definition pane_server (argv : list string) (s : bool * Z) : (bool * Z) * Answer :=
  match argv with
  | "display-message" :: _ =>
      (s, Ok (row [bit s.1; if s.1 then three (pn_position (view s)) else []; js "100"; js "24"] ++ [10]))
  | "copy-mode" :: _ => ((true, 0), Ok [])
  | ["send-keys"; _; _; _; _; n; "scroll-up"] => ((s.1, pn_position (view s) + number_of n), Ok [])
  | ["send-keys"; _; _; _; _; n; "scroll-down"] =>
      let p := pn_position (view s) - number_of n in ((0 <? p, p), Ok [])
  | _ => (s, Err "unknown command")
  end.

Lemma three_digits n : 0 <= n <= 100 -> digits (three n) n.
Proof.
  intros R.
  assert (forallb (fun n => forallb is_digit (three n) && (digits_value 0 (three n) =? n)) numbers = true) as F
    by (vm_compute; reflexivity).
  assert (In n numbers) as M by (apply list_elem_of_In, elem_of_seqZ; lia).
  pose proof (proj1 (forallb_forall _ _) F n M) as [D V]%andb_true_iff.
  split_and!; [done| |by apply Z.eqb_eq].
  apply Forall_forall. intros c C%list_elem_of_In. by apply (proj1 (forallb_forall _ _) D).
Qed.

Lemma number_of_pretty n : 0 <= n <= 100 -> number_of (pretty n) = n.
Proof.
  intros R. assert (forallb (fun n => number_of (pretty n) =? n) numbers = true) as F by (vm_compute; reflexivity).
  apply Z.eqb_eq. apply (proj1 (forallb_forall _ _) F). apply list_elem_of_In, elem_of_seqZ. lia.
Qed.

#[export] Instance pane_laws : ScrollLaws "" "work" pane_server view.
Proof.
  split.
  - intros [m p]. cbn. lia.
  - intros [m p]. eexists _, _, _. split; [reflexivity|]. split_and!.
    + destruct m; [apply three_digits; cbn; lia|done].
    + by repeat constructor.
    + by repeat constructor.
  - intros [m p] _. eexists _, _. by split.
  - intros [m p] n M R. cbn in M, R. subst. eexists _, _. split; [reflexivity|].
    rewrite number_of_pretty by lia. unfold view. cbn. f_equal. lia.
  - intros [m p] n M R. cbn in M, R. subst. eexists _, _, _. split; [reflexivity|].
    rewrite number_of_pretty by lia. unfold view. cbn. split.
    + f_equal. lia.
    + intros E. apply Z.ltb_ge in E. lia.
Qed.

Lemma scroll_reaches_witness : exists s',
  serve pane_server (scrollToPosition "" "work" 250) (true, 30) = (s', Ok (scroll_state (view s'))) /\
  pane_at (view s') = 100.
Proof. exact (scroll_reaches "" "work" pane_server view (true, 30) 250). Defined.
