(* ===== verification/Router.v ===== *)
(** * Router: what an admitted connection's messages do

    [apps/relay/src/message-router.ts] with the PTY of
    [apps/relay/src/pty-bridge.ts] and the queue, the teardown and the
    broadcasts of [apps/relay/src/connection-manager.ts].  A handler is a
    program ([Route]) of the steps it takes between two awaits ([Atomic],
    [Spawn]) and of what it awaits: tmux ([Call]) and the gate ([Judge]).  A
    connection handles one message at a time; anything else may happen at an
    await: other connections, the bridges, a hang-up.  Connections and bridges
    are objects, by number.  Only admitted connections are here; files,
    recordings and approvals are handed on ([OElsewhere]). *)

From stdpp Require Import pretty.
From S2P Require Import Prelude Grants Policy Tmux.

#[local] Open Scope string_scope.
#[local] Open Scope list_scope.
#[local] Open Scope Z_scope.

(** ** Messages *)

Record Size := mkSize { cols : Z; rows : Z }.

#[export] Instance Size_eq_dec : EqDecision Size.
Proof. solve_decision. Defined.

Inductive ClientMessage :=
| MAuth
| MPing (timestamp : Z)
| MSessionList
| MSessionCreate (name cwd command : option string)
| MSessionAttach (name : string) (size : option Size) (capture : bool) (attachId : option string)
| MSessionDetach
| MSessionKill (name : string)
| MSessionRename (oldName newName : string)
| MSessionWindows (name : string)
| MTerminalInput (data : jstr)
| MTerminalResize (size : Size)
| MCommandSend (command : jstr)
| MCommandInterrupt
| MCommandEof
| MCommandClear
| MCommandSuspend
| MPaneList
| MPaneSplit (direction : Split)
| MPaneSelect (id : string)
| MPaneZoom (id : option string) (zoomed : option bool)
| MPaneStep (delta : Z)
| MPaneResize (id : string) (direction : Way) (amount : Z)
| MPaneKill (id : string)
| MPaneSwap (id : string) (direction : Way)
| MPaneCapture (id : string)
| MWindowList
| MWindowCreate (name : option string)
| MWindowSelect (id : string)
| MWindowStep (delta : Z)
| MWindowKill (id : string)
| MWindowRename (id name : string)
| MWindowLayout (preset : string)
| MLayoutRotate
| MTmuxPrefix
| MTmuxCopyMode
| MTmuxScroll (lines : Z)
| MTmuxScrollTo (position : Z)
| MTmuxScrollState
| MTmuxExitCopyMode
(** [file:*], [recording:*] and [device:approve]. *)
| MElsewhere (fields : Msg).

(** The fields the gate reads by name. *)
Definition gate_fields (m : ClientMessage) : Msg :=
  let plain t := mkMsg t None None None None in
  let with_id t id := mkMsg t id None None None in
  let with_name t n := mkMsg t None (Some n) None None in
  match m with
  | MAuth => plain "auth"
  | MPing _ => plain "ping"
  | MSessionList => plain "session:list"
  | MSessionCreate name _ _ => mkMsg "session:create" None name None None
  | MSessionAttach name _ _ _ => with_name "session:attach" name
  | MSessionDetach => plain "session:detach"
  | MSessionKill name => with_name "session:kill" name
  | MSessionRename oldName _ => mkMsg "session:rename" None None (Some oldName) None
  | MSessionWindows name => with_name "session:windows" name
  | MTerminalInput _ => plain "terminal:input"
  | MTerminalResize _ => plain "terminal:resize"
  | MCommandSend _ => plain "command:send"
  | MCommandInterrupt => plain "command:interrupt"
  | MCommandEof => plain "command:eof"
  | MCommandClear => plain "command:clear"
  | MCommandSuspend => plain "command:suspend"
  | MPaneList => plain "pane:list"
  | MPaneSplit _ => plain "pane:split"
  | MPaneSelect id => with_id "pane:select" (Some id)
  | MPaneZoom id _ => with_id "pane:zoom" id
  | MPaneStep _ => plain "pane:step"
  | MPaneResize id _ _ => with_id "pane:resize" (Some id)
  | MPaneKill id => with_id "pane:kill" (Some id)
  | MPaneSwap id _ => with_id "pane:swap" (Some id)
  | MPaneCapture id => with_id "pane:capture" (Some id)
  | MWindowList => plain "window:list"
  | MWindowCreate name => mkMsg "window:create" None name None None
  | MWindowSelect id => with_id "window:select" (Some id)
  | MWindowStep _ => plain "window:step"
  | MWindowKill id => with_id "window:kill" (Some id)
  | MWindowRename id name => mkMsg "window:rename" (Some id) (Some name) None None
  | MWindowLayout _ => plain "window:layout"
  | MLayoutRotate => plain "layout:rotate"
  | MTmuxPrefix => plain "tmux:prefix"
  | MTmuxCopyMode => plain "tmux:copy-mode"
  | MTmuxScroll _ => plain "tmux:scroll"
  | MTmuxScrollTo _ => plain "tmux:scroll-to"
  | MTmuxScrollState => plain "tmux:scroll-state"
  | MTmuxExitCopyMode => plain "tmux:exit-copy-mode"
  | MElsewhere fields => fields
  end.

Inductive Reply :=
| RPong (timestamp : Z)
| RError (code message : string)
| RSessionList (sessions : list SessionInfo)
| RSessionCreated (session : SessionInfo)
| RSessionAttached (name : string) (attachId : option string)
| RSessionKilled (name : string)
| RSessionExited (name : string) (exitCode : option Z)
| RSessionWindows (name : string) (windows : list WindowInfo) (panes : list PaneInfo)
| RTerminalOutput (data : jstr)
| RPaneList (panes : list PaneInfo) (windowId : string)
| RPaneChanged (panes : list PaneInfo) (windowId : string)
| RPaneCaptured (id : string) (content : jstr)
| RWindowList (windows : list WindowInfo) (sessionName : option string)
| RWindowChanged (windows : list WindowInfo) (sessionName : string)
| RScrollState (position historySize paneHeight : Z) (inMode : bool).

(** ** State *)

(** A [PtyBridge] and what the closure of the attach that made it holds. *)
Record Bridge := mkBridge {
  br_conn : nat;
  br_name : string;
  br_attachId : option string;
  br_captured : option jstr;
  br_target : string;
  br_readOnly : bool;
  br_readyFired : bool;
  br_readyTimer : bool;
  br_detaching : bool;
  br_spawnError : option string;
  br_killed : bool;
  br_exited : bool;
  br_paused : bool;
  br_drainTimer : bool;
}.

(** The part of a [ConnectionState] the router works on.  [rc_live] is whether
    the registry has it, [rc_open] whether its socket is [OPEN]. *)
Record RConn := mkRConn {
  rc_grant : GrantRecord;
  rc_open : bool;
  rc_live : bool;
  rc_pty : option nat;
  rc_attached : option string;
  rc_lastSize : option Size;
  rc_clone : option string;
  rc_window : option string;
}.

(** [zcache] is [selectPaneSupportsZ]. *)
Record World := mkWorld {
  conns : list RConn;
  bridges : list Bridge;
  zcache : option bool;
  clock : Z;
}.

Inductive Output :=
| OSend (conn : nat) (m : Reply)
| OSpawn (conn : nat) (argv : list string) (size : Size)
| OKill (bridge : nat)
| OWrite (bridge : nat) (data : jstr)
| OResize (bridge : nat) (size : Size)
| OPause (bridge : nat)
| OResume (bridge : nat)
| OElsewhere (conn : nat) (m : Msg)
(** A tmux call of a handler of [conn], and its answer. *)
| OCalled (conn : nat) (argv : list string) (answer : Answer).

(** ** Programs *)

Inductive Route (A : Type) : Type :=
| Return (a : A)
| Raise (e : string)
| Atomic (f : World -> World * list Output) (k : World -> Route A)
| Spawn (argv : list string) (size : Size) (k : option string -> Route A)
| Call (argv : list string) (k : Answer -> Route A)
| Judge (now : Z) (ctx : EnforceContext) (msg : Msg) (k : result (DenyCode * string) unit -> Route A).
Arguments Return {A} a.
Arguments Raise {A} e.
Arguments Atomic {A} f k.
Arguments Spawn {A} argv size k.
Arguments Call {A} argv k.
Arguments Judge {A} now ctx msg k.

#[export] Instance route_ret : MRet Route := @Return.
#[export] Instance route_bind : MBind Route := fun A B f =>
  fix go (p : Route A) : Route B :=
    match p with
    | Return a => f a
    | Raise e => Raise e
    | Atomic g k => Atomic g (fun w => go (k w))
    | Spawn argv size k => Spawn argv size (fun r => go (k r))
    | Call argv k => Call argv (fun r => go (k r))
    | Judge now ctx msg k => Judge now ctx msg (fun r => go (k r))
    end.

(** [try { p } catch (e) { h(e) }]. *)
Fixpoint rescue {A} (p : Route A) (h : string -> Route A) : Route A :=
  match p with
  | Return a => Return a
  | Raise e => h e
  | Atomic g k => Atomic g (fun w => rescue (k w) h)
  | Spawn argv size k => Spawn argv size (fun r => rescue (k r) h)
  | Call argv k => Call argv (fun r => rescue (k r) h)
  | Judge now ctx msg k => Judge now ctx msg (fun r => rescue (k r) h)
  end.

(** [await p], for a program of tmux calls. *)
Fixpoint await {A} (p : Prog A) : Route A :=
  match p with
  | Ret a => Return a
  | Throw e => Raise e
  | Exec argv k => Call argv (fun r => await (k r))
  end.

Definition get : Route World := Atomic (fun w => (w, [])) Return.
Definition modify (f : World -> World) : Route unit := Atomic (fun w => (f w, [])) (fun _ => Return tt).
Definition emit (f : World -> list Output) : Route unit := Atomic (fun w => (w, f w)) (fun _ => Return tt).

(** Run a program to its next await; [spawnError] is what [pty.spawn] throws
    if it is called on the way. *)
Fixpoint settle {A} (spawnError : option string) (p : Route A) (w : World) : World * list Output * Route A :=
  match p with
  | Atomic f k =>
      let r := f w in
      let s := settle spawnError (k w) r.1 in (s.1.1, r.2 ++ s.1.2, s.2)
  | Spawn argv size k => settle spawnError (k spawnError) w
  | _ => (w, [], p)
  end.

(** ** Field updates *)

Definition set_conns (f : list RConn -> list RConn) (w : World) : World :=
  mkWorld (f (conns w)) (bridges w) (zcache w) (clock w).
Definition set_bridges (f : list Bridge -> list Bridge) (w : World) : World :=
  mkWorld (conns w) (f (bridges w)) (zcache w) (clock w).
Definition set_zcache (z : option bool) (w : World) : World := mkWorld (conns w) (bridges w) z (clock w).
Definition set_clock (now : Z) (w : World) : World := mkWorld (conns w) (bridges w) (zcache w) now.
Definition on_conn (c : nat) (f : RConn -> RConn) : World -> World := set_conns (alter f c).
Definition on_bridge (b : nat) (f : Bridge -> Bridge) : World -> World := set_bridges (alter f b).

Definition set_pty (p : option nat) (rc : RConn) : RConn :=
  mkRConn (rc_grant rc) (rc_open rc) (rc_live rc) p (rc_attached rc) (rc_lastSize rc) (rc_clone rc) (rc_window rc).
(** [attachedSession] and [lastSize], which are always set together. *)
Definition set_attached (name : option string) (size : option Size) (rc : RConn) : RConn :=
  mkRConn (rc_grant rc) (rc_open rc) (rc_live rc) (rc_pty rc) name size (rc_clone rc) (rc_window rc).
Definition set_lastSize (size : option Size) (rc : RConn) : RConn :=
  mkRConn (rc_grant rc) (rc_open rc) (rc_live rc) (rc_pty rc) (rc_attached rc) size (rc_clone rc) (rc_window rc).
Definition set_clone (name : option string) (rc : RConn) : RConn :=
  mkRConn (rc_grant rc) (rc_open rc) (rc_live rc) (rc_pty rc) (rc_attached rc) (rc_lastSize rc) name (rc_window rc).
Definition set_window (id : option string) (rc : RConn) : RConn :=
  mkRConn (rc_grant rc) (rc_open rc) (rc_live rc) (rc_pty rc) (rc_attached rc) (rc_lastSize rc) (rc_clone rc) id.
Definition set_open (open : bool) (rc : RConn) : RConn :=
  mkRConn (rc_grant rc) open (rc_live rc) (rc_pty rc) (rc_attached rc) (rc_lastSize rc) (rc_clone rc) (rc_window rc).
Definition set_live (live : bool) (rc : RConn) : RConn :=
  mkRConn (rc_grant rc) (rc_open rc) live (rc_pty rc) (rc_attached rc) (rc_lastSize rc) (rc_clone rc) (rc_window rc).
Definition drop_pty (rc : RConn) : RConn := set_attached None None (set_pty None rc).

(** The readiness of a bridge: its flag and its timer. *)
Definition set_ready (fired timer : bool) (br : Bridge) : Bridge :=
  mkBridge (br_conn br) (br_name br) (br_attachId br) (br_captured br) (br_target br) (br_readOnly br)
    fired timer (br_detaching br) (br_spawnError br) (br_killed br) (br_exited br) (br_paused br) (br_drainTimer br).
(** [markDetaching()] and [kill()]. *)
Definition set_killed (br : Bridge) : Bridge :=
  mkBridge (br_conn br) (br_name br) (br_attachId br) (br_captured br) (br_target br) (br_readOnly br)
    (br_readyFired br) false true (br_spawnError br) true (br_exited br) (br_paused br) (br_drainTimer br).
Definition set_exited (err : option string) (br : Bridge) : Bridge :=
  mkBridge (br_conn br) (br_name br) (br_attachId br) (br_captured br) (br_target br) (br_readOnly br)
    (br_readyFired br) false (br_detaching br) err (br_killed br) true (br_paused br) (br_drainTimer br).
Definition set_pause (paused timer : bool) (br : Bridge) : Bridge :=
  mkBridge (br_conn br) (br_name br) (br_attachId br) (br_captured br) (br_target br) (br_readOnly br)
    (br_readyFired br) (br_readyTimer br) (br_detaching br) (br_spawnError br) (br_killed br) (br_exited br)
    paused timer.

(** ** Sending *)

(** [sendJson]: nothing on a socket that is not open. *)
Definition to_conn (c : nat) (m : Reply) (w : World) : list Output :=
  match conns w !! c with Some rc => if rc_open rc then [OSend c m] else [] | None => [] end.

Definition send (c : nat) (m : Reply) : Route unit := emit (to_conn c m).
Definition sendError (c : nat) (code message : string) : Route unit := send c (RError code message).

(** Every other connection of the registry, in order. *)
Definition others (c : nat) (w : World) : list (nat * RConn) :=
  filter (fun e => e.1 <> c /\ rc_live e.2 = true) (imap pair (conns w)).

Definition broadcastWhere (build : RConn -> option Reply) (c : nat) (w : World) : list Output :=
  others c w ≫= fun e => match build e.2 with Some m => to_conn e.1 m w | None => [] end.

Definition broadcast (c : nat) (build : RConn -> option Reply) : Route unit :=
  emit (broadcastWhere build c).

(** A field of the connection, now. *)
Definition field {A} (c : nat) (f : RConn -> option A) : Route (option A) :=
  w ← get; Return (conns w !! c ≫= f).
Definition grant_of (c : nat) (w : World) : GrantRecord := from_option rc_grant FULL_GRANT (conns w !! c).

(** ** Which sessions a connection is told of *)

Definition ref_of (s : SessionInfo) : SessionRef := mkSession (si_id s) (si_name s).
Definition real_sessions (all : list SessionInfo) : list SessionInfo :=
  filter (fun s => isCloneSession (si_name s) = false) all.
Definition visible_to (grant : GrantRecord) (real : list SessionInfo) : list SessionInfo :=
  if isFullGrant grant then real else filter (fun s => allowsSession grant (ref_of s) None = true) real.

Definition canSee (grant : GrantRecord) (name : string) : bool :=
  if isCloneSession name then false else allowsSessionName grant name.

(** One list per grant id, made for the first connection that has it. *)
Fixpoint lists_by_grant (everything : list SessionInfo) (cache : list (string * list SessionInfo))
    (cs : list (nat * RConn)) (w : World) : list Output :=
  match cs with
  | [] => []
  | (i, rc) :: cs =>
      let key := gr_id (rc_grant rc) in
      let visible := match assoc_get key cache with
                     | Some visible => visible
                     | None => visible_to (rc_grant rc) everything
                     end in
      to_conn i (RSessionList visible) w
        ++ lists_by_grant everything (assoc_set key visible cache) cs w
  end.

(** ** The handlers *)

Section Handlers.
Context (tmuxSocket tmuxDefaultShell : string).

Definition sessionsVisibleTo (c : nat) : Route (list SessionInfo) :=
  all ← await (listSessions tmuxSocket);
  w ← get;
  Return (visible_to (grant_of c w) (real_sessions all)).

Definition currentWindowPanes (session : string) : Route (list PaneInfo * string) :=
  windowId ← await (currentWindowId tmuxSocket session);
  panes ← await (listPanes tmuxSocket session (Some windowId));
  Return (panes, windowId).

Definition attached_to (session : string) (m : Reply) (other : RConn) : option Reply :=
  if decide (rc_attached other = Some session) then Some m else None.

Definition announceLayout (c : nat) (session : string) : Route string :=
  windows ← await (listWindows tmuxSocket session);
  layout ← currentWindowPanes session;
  let windowMsg := RWindowChanged windows session in
  let paneMsg := RPaneChanged (layout : list PaneInfo * string).1 layout.2 in
  _ ← send c windowMsg;
  _ ← send c paneMsg;
  _ ← broadcast c (attached_to session windowMsg);
  _ ← broadcast c (attached_to session paneMsg);
  Return layout.2.

Definition sendScrollState (c : nat) (s : ScrollState) : Route unit :=
  send c (RScrollState (if ss_inMode s then ss_position s else 0) (ss_historySize s) (ss_paneHeight s) (ss_inMode s)).

(** [supportsSelectPaneZ] caches its answer before the next call is made. *)
Definition with_Z (p : option bool -> Prog bool) : Route unit :=
  w ← get;
  z ← await (supportsSelectPaneZ tmuxSocket (zcache w));
  _ ← modify (set_zcache (Some z));
  _ ← await (p (Some z));
  Return tt.

(** [conn.pty]'s end, if it has one, and the clone's. *)
Definition kill_pty (c : nat) : Route unit :=
  p ← field c rc_pty;
  match (p : option nat) with
  | Some b =>
      _ ← Atomic (fun w => (on_bridge b set_killed w, [OKill b])) Return;
      modify (on_conn c (set_pty None))
  | None => Return tt
  end.

Definition destroy_clone_of (c : nat) : Route unit :=
  clone ← field c rc_clone;
  match (clone : option string) with
  | Some name => _ ← await (destroyClone tmuxSocket name); modify (on_conn c (set_clone None))
  | None => Return tt
  end.

Definition attach_argv (readOnly : bool) (target : string) : list string :=
  tmuxArgs tmuxSocket ++ ["attach-session"] ++ (if readOnly then ["-r"] else []) ++ ["-t"; target].

Definition connId (c : nat) : string := "conn-" +:+ pretty (S c).

Definition createPtyBridge (c : nat) (name target : string) (size : option Size) (readOnly : bool)
    (attachId : option string) (captured : option jstr) : Route (result string Bridge) :=
  let sz := default (mkSize 80 24) size in
  let argv := attach_argv readOnly target in
  _ ← emit (fun _ => [OSpawn c argv sz]);
  Spawn argv sz (fun spawnError =>
    Return (match spawnError with
            | Some err => Err err
            | None => Ok (mkBridge c name attachId captured target readOnly false true false None false false false false)
            end)).

Definition session_attach (c : nat) (name : string) (size : option Size) (capture : bool)
    (attachId : option string) : Route unit :=
  _ ← kill_pty c;
  _ ← modify (on_conn c (set_attached None None));
  _ ← destroy_clone_of c;
  exists_ ← (if isCloneSession name then Return false else await (sessionExists tmuxSocket name));
  if negb exists_ then sendError c "SESSION_NOT_FOUND" ("Session " +:+ quoted name +:+ " not found")
  else
    captured ← (if capture
                then rescue (x ← await (capturePane tmuxSocket name); Return (Some x)) (fun _ => Return None)
                else Return None);
    w ← get;
    let grant := grant_of c w in
    target ← (if gr_readOnly grant
              then rescue (clone ← await (createReadOnlyClone tmuxSocket name (gr_id grant) (connId c));
                           _ ← modify (on_conn c (set_clone (Some clone)));
                           Return (Some clone))
                     (fun _ => Return None)
              else Return (Some name));
    match (target : option string) with
    | None => sendError c "ATTACH_FAILED" "Could not open a read-only view."
    | Some target =>
        r ← createPtyBridge c name target size (gr_readOnly grant) attachId captured;
        match (r : result string Bridge) with
        | Err err => _ ← destroy_clone_of c; sendError c "PTY_SPAWN_FAILED" err
        | Ok bridge =>
            modify (fun w => on_conn c (fun rc => set_attached (Some name) size
                                          (set_pty (Some (length (bridges w))) rc))
                               (set_bridges (fun l => l ++ [bridge]) w))
        end
    end.

(** [if (!conn.attachedSession) ...]: the empty name is none. *)
Definition attached_or (c : nat) (k : string -> Route unit) : Route unit :=
  s ← field c rc_attached;
  match truthy s with
  | Some s => k s
  | None => sendError c "NOT_ATTACHED" "No session attached"
  end.

(** [conn.attachedSession] read again after an await: it may be [null] by then,
    and [execFile] takes no [null] argument. *)
Definition still_attached (c : nat) : Route string :=
  s ← field c rc_attached;
  match (s : option string) with Some s => Return s | None => Raise "ERR_INVALID_ARG_TYPE" end.

Definition then_announce (c : nat) (p : Prog unit) : Route string :=
  _ ← await p; s ← still_attached c; announceLayout c s.

Definition write_pty (c : nat) (data : jstr) (absent : Route unit) : Route unit :=
  p ← field c rc_pty;
  match (p : option nat) with Some b => emit (fun _ => [OWrite b data]) | None => absent end.

Definition not_attached (c : nat) : Route unit := sendError c "NOT_ATTACHED" "No session attached".

Definition set_active (c : nat) (windowId : option string) : Route unit := modify (on_conn c (set_window windowId)).

Definition session_rename (c : nat) (oldName newName : string) : Route unit :=
  renameExists ← await (sessionExists tmuxSocket oldName);
  if negb renameExists
  then sendError c "SESSION_NOT_FOUND" ("Session " +:+ quoted oldName +:+ " not found")
  else
    _ ← await (renameSession tmuxSocket oldName newName);
    visible ← sessionsVisibleTo c;
    _ ← send c (RSessionList visible);
    everything ← await (listSessions tmuxSocket);
    emit (fun w => lists_by_grant (real_sessions everything) [] (others c w) w).

Definition terminal_resize (c : nat) (size : Size) : Route unit :=
  p ← field c rc_pty;
  match (p : option nat) with
  | None => not_attached c
  | Some b =>
      last ← field c rc_lastSize;
      if decide (last = Some size) then Return tt
      else _ ← modify (on_conn c (set_lastSize (Some size))); emit (fun _ => [OResize b size])
  end.

Definition window_kill (c : nat) (id : string) : Route unit :=
  windowId ← then_announce c (killWindow tmuxSocket id);
  active ← field c rc_window;
  if decide (active = Some id) then set_active c (truthy (Some windowId)) else Return tt.

(** [terminal:*] and [command:*]. *)
Definition on_terminal (c : nat) (msg : ClientMessage) : Route unit :=
  match msg with
  | MTerminalInput data => write_pty c data (not_attached c)
  | MTerminalResize size => terminal_resize c size
  | MCommandSend command => write_pty c (command ++ [13]) (not_attached c)
  | MCommandInterrupt =>
      s ← field c rc_attached;
      match truthy s with Some s => await (sendInterrupt tmuxSocket s) | None => Return tt end
  | MCommandEof => write_pty c [4] (Return tt)
  | MCommandClear => write_pty c [27; 91; 50; 74; 27; 91; 72] (Return tt)
  | MCommandSuspend => write_pty c [26] (Return tt)
  | _ => Return tt
  end.

(** The panes of the current window, and stepping between windows and panes. *)
Definition on_panes (c : nat) (msg : ClientMessage) : Route unit :=
  match msg with
  | MPaneList =>
      attached_or c (fun s =>
        layout ← currentWindowPanes s;
        send c (RPaneList (layout : list PaneInfo * string).1 layout.2))
  | MPaneSplit direction =>
      attached_or c (fun s => _ ← then_announce c (splitPane tmuxSocket s direction); Return tt)
  | MPaneSelect id =>
      attached_or c (fun _ =>
        _ ← with_Z (selectPane tmuxSocket id);
        s ← still_attached c;
        windowId ← announceLayout c s;
        set_active c (Some windowId))
  | MPaneZoom id zoomed =>
      attached_or c (fun s => _ ← then_announce c (zoomPane tmuxSocket s (truthy id) zoomed); Return tt)
  | MPaneResize id direction amount =>
      attached_or c (fun _ => _ ← then_announce c (resizePane tmuxSocket id direction amount); Return tt)
  | MPaneKill id => attached_or c (fun _ => _ ← then_announce c (killPane tmuxSocket id); Return tt)
  | MWindowStep delta =>
      attached_or c (fun s =>
        windowId ← then_announce c (stepWindow tmuxSocket s delta);
        set_active c (Some windowId))
  | MPaneStep delta =>
      attached_or c (fun s =>
        _ ← with_Z (stepPane tmuxSocket s delta);
        s ← still_attached c;
        _ ← announceLayout c s;
        Return tt)
  | _ => Return tt
  end.

(** The windows of the session and their layout. *)
Definition on_windows (c : nat) (msg : ClientMessage) : Route unit :=
  match msg with
  | MWindowList =>
      attached_or c (fun s =>
        windows ← await (listWindows tmuxSocket s);
        now ← field c rc_attached;
        send c (RWindowList windows now))
  | MWindowCreate name =>
      attached_or c (fun s =>
        windowId ← then_announce c (createWindow tmuxSocket tmuxDefaultShell s name);
        set_active c (Some windowId))
  | MWindowSelect id =>
      attached_or c (fun _ =>
        _ ← await (selectWindow tmuxSocket id);
        _ ← set_active c (Some id);
        s ← still_attached c;
        _ ← announceLayout c s;
        Return tt)
  | MWindowKill id => attached_or c (fun _ => window_kill c id)
  | MPaneSwap id direction =>
      attached_or c (fun _ => _ ← then_announce c (swapPane tmuxSocket id direction); Return tt)
  | MWindowRename id name =>
      attached_or c (fun _ => _ ← then_announce c (renameWindow tmuxSocket id name); Return tt)
  | MWindowLayout preset =>
      attached_or c (fun s => _ ← then_announce c (selectLayout tmuxSocket s preset); Return tt)
  | MLayoutRotate => attached_or c (fun s => _ ← then_announce c (rotateLayout tmuxSocket s); Return tt)
  | _ => Return tt
  end.

(** [tmux:*], and the text of a pane. *)
Definition on_tmux (c : nat) (msg : ClientMessage) : Route unit :=
  match msg with
  | MTmuxPrefix => attached_or c (fun s => await (sendPrefix tmuxSocket s))
  | MTmuxCopyMode => attached_or c (fun s => await (enterCopyMode tmuxSocket s))
  | MTmuxScroll lines =>
      attached_or c (fun s => st ← await (scrollHistory tmuxSocket s lines); sendScrollState c st)
  | MTmuxScrollTo position =>
      attached_or c (fun s => st ← await (scrollToPosition tmuxSocket s position); sendScrollState c st)
  | MTmuxScrollState =>
      attached_or c (fun s => st ← await (readScrollState tmuxSocket s); sendScrollState c st)
  | MTmuxExitCopyMode =>
      attached_or c (fun s =>
        _ ← await (exitCopyMode tmuxSocket s);
        s ← still_attached c;
        st ← await (readScrollState tmuxSocket s);
        sendScrollState c st)
  | MPaneCapture id =>
      attached_or c (fun _ =>
        content ← await (capturePaneById tmuxSocket id); send c (RPaneCaptured id content))
  | _ => Return tt
  end.

(** The cases of [routeMessage]'s switch. *)
Definition dispatch (c : nat) (msg : ClientMessage) : Route unit :=
  match msg with
  | MAuth => sendError c "ALREADY_AUTHENTICATED" "This connection is already authenticated."
  | MPing timestamp => send c (RPong timestamp)
  | MSessionList => visible ← sessionsVisibleTo c; send c (RSessionList visible)
  | MSessionCreate name cwd command =>
      made ← await (createSession tmuxSocket tmuxDefaultShell name cwd command);
      w ← get;
      let session : SessionInfo := made (clock w) in
      _ ← send c (RSessionCreated session);
      broadcast c (fun other =>
        if canSee (rc_grant other) (si_name session) then Some (RSessionCreated session) else None)
  | MSessionAttach name size capture attachId => session_attach c name size capture attachId
  | MSessionDetach =>
      _ ← kill_pty c; _ ← modify (on_conn c (set_attached None None)); destroy_clone_of c
  | MSessionKill name =>
      _ ← await (killSession tmuxSocket name);
      _ ← send c (RSessionKilled name);
      broadcast c (fun other => if canSee (rc_grant other) name then Some (RSessionKilled name) else None)
  | MSessionRename oldName newName => session_rename c oldName newName
  | MSessionWindows name =>
      windows ← await (listWindows tmuxSocket name);
      panes ← await (listPanes tmuxSocket name None);
      send c (RSessionWindows name windows panes)
  | MElsewhere fields => emit (fun _ => [OElsewhere c fields])
  | MTerminalInput _ | MTerminalResize _ | MCommandSend _ | MCommandInterrupt | MCommandEof
  | MCommandClear | MCommandSuspend => on_terminal c msg
  | MPaneList | MPaneSplit _ | MPaneSelect _ | MPaneZoom _ _ | MPaneResize _ _ _ | MPaneKill _
  | MWindowStep _ | MPaneStep _ => on_panes c msg
  | MWindowList | MWindowCreate _ | MWindowSelect _ | MWindowKill _ | MPaneSwap _ _
  | MWindowRename _ _ | MWindowLayout _ | MLayoutRotate => on_windows c msg
  | MTmuxPrefix | MTmuxCopyMode | MTmuxScroll _ | MTmuxScrollTo _ | MTmuxScrollState
  | MTmuxExitCopyMode | MPaneCapture _ => on_tmux c msg
  end.

Definition code_name (code : DenyCode) : string :=
  match code with
  | ACCESS_DENIED => "ACCESS_DENIED" | READ_ONLY => "READ_ONLY"
  | SESSION_NOT_FOUND => "SESSION_NOT_FOUND" | NOT_ATTACHED => "NOT_ATTACHED"
  | PANE_NOT_FOUND => "PANE_NOT_FOUND" | INVALID_MESSAGE => "INVALID_MESSAGE"
  | WINDOW_NOT_FOUND => "WINDOW_NOT_FOUND"
  end.

Definition routeMessage (c : nat) (msg : ClientMessage) : Route unit :=
  w ← get;
  Judge (clock w) (mkCtx (grant_of c w) (conns w !! c ≫= rc_attached) None) (gate_fields msg) (fun verdict =>
    match verdict with
    | Err (code, message) => sendError c (code_name code) message
    | Ok _ => rescue (dispatch c msg) (fun e => sendError c "HANDLER_ERROR" e)
    end).

(** [removeConnection]; the watchers and uploads are FileService's. *)
Definition removeConnection (c : nat) : Route unit :=
  _ ← kill_pty c; _ ← destroy_clone_of c; modify (on_conn c (set_live false)).
End Handlers.

(** ** A bridge's events *)

Definition OUTPUT_HIGH_WATER : Z := 8 * 1024 * 1024.
Definition OUTPUT_LOW_WATER : Z := 1 * 1024 * 1024.

Definition owns (w : World) (br : Bridge) (b : nat) : bool :=
  bool_decide ((conns w !! br_conn br ≫= rc_pty) = Some b).

(** [onReady]: the acknowledgement, then the replay. *)
Definition on_ready (br : Bridge) (w : World) : list Output :=
  to_conn (br_conn br) (RSessionAttached (br_name br) (truthy (br_attachId br))) w
    ++ match br_captured br with
       | Some (c :: rest) => to_conn (br_conn br) (RTerminalOutput (c :: rest)) w
       | _ => []
       end.

Definition fireReady (b : nat) (br : Bridge) (timer : bool) (w : World) : World * list Output :=
  match br_spawnError br with
  | Some _ => (on_bridge b (set_ready (br_readyFired br) timer) w, [])
  | None => if br_readyFired br then (on_bridge b (set_ready true timer) w, [])
            else (on_bridge b (set_ready true timer) w, on_ready br w)
  end.

(** The router's [onData]; [buffered] is the socket's [bufferedAmount]. *)
Definition on_output (b : nat) (br : Bridge) (data : jstr) (buffered : Z) (w : World) : World * list Output :=
  if negb (owns w br b) then (on_bridge b (set_pause (br_paused br) false) w, [])
  else
    let sent := to_conn (br_conn br) (RTerminalOutput data) w in
    if negb (br_paused br) && (OUTPUT_HIGH_WATER <? buffered)
    then (on_bridge b (set_pause true true) w, sent ++ [OPause b])
    else (w, sent).

Definition pty_data (b : nat) (data : jstr) (buffered : Z) (w : World) : World * list Output :=
  match bridges w !! b with
  | None => (w, [])
  | Some br =>
      let r := if br_readyFired br then (w, []) else fireReady b br false w in
      let s := on_output b br data buffered r.1 in
      (s.1, r.2 ++ s.2)
  end.

Definition ready_timeout (b : nat) (w : World) : World * list Output :=
  match bridges w !! b with
  | Some br => if br_readyTimer br then fireReady b br false w else (w, [])
  | None => (w, [])
  end.

(** The connection lets go of the bridge, if it is still its own. *)
Definition release (b : nat) (br : Bridge) (w : World) : World :=
  if owns w br b then on_conn (br_conn br) drop_pty w else w.

Definition pty_exit (b : nat) (exitCode : Z) (w : World) : World * list Output :=
  match bridges w !! b with
  | None => (w, [])
  | Some br =>
      if br_exited br then (w, [])
      else if negb (br_readyFired br) && negb (br_detaching br) then
        match br_spawnError br with
        | Some err => (on_bridge b (set_exited (Some err)) w, [])
        | None =>
            let err := "tmux attach-session exited with code " +:+ pretty exitCode +:+ " before ready" in
            let w := on_bridge b (set_exited (Some err)) w in
            (release b br w, to_conn (br_conn br) (RError "PTY_SPAWN_FAILED" err) w)
        end
      else
        let w := on_bridge b (set_exited (br_spawnError br)) w in
        if br_detaching br then (w, [])
        else (release b br w, to_conn (br_conn br) (RSessionExited (br_name br) (Some exitCode)) w)
  end.

(** One tick of the drain timer. *)
Definition drain_tick (b : nat) (buffered : Z) (w : World) : World * list Output :=
  match bridges w !! b with
  | Some br =>
      if negb (br_drainTimer br) then (w, [])
      else if negb (owns w br b) then (on_bridge b (set_pause (br_paused br) false) w, [])
      else if buffered <=? OUTPUT_LOW_WATER then (on_bridge b (set_pause false false) w, [OResume b])
      else (w, [])
  | None => (w, [])
  end.

(** ** The relay: connections, their queues and what is in progress *)

(** A connection's queue: the handler that runs, the messages behind it, and
    [conn.closing]; [ln_teardown] is set while the close event waits for the
    queue to drain. *)
Record Line := mkLine {
  ln_task : option (Route unit);
  ln_queue : list ClientMessage;
  ln_closing : bool;
  ln_teardown : bool;
}.

Record System := mkSystem {
  sy_world : World;
  sy_lines : list Line;
  (** The removals in progress, with the connection each removes. *)
  sy_removals : list (nat * Route unit);
}.

Inductive REvent :=
(** A connection is admitted. *)
| Joined (grant : GrantRecord)
| Received (conn : nat) (m : ClientMessage)
(** tmux answers the handler of [conn]; the gate does. *)
| Answered (conn : nat) (answer : Answer) (spawnError : option string)
| Judged (conn : nat) (tmux : Policy.Tmux)
(** The socket is closed from this side, its close event comes, the queue has
    drained, the machine hangs up. *)
| HungUp (conn : nat)
| Closed (conn : nat)
| Drained (conn : nat)
| Disconnected (conn : nat)
| RemovalAnswered (removal : nat) (answer : Answer)
| PtyData (bridge : nat) (data : jstr) (buffered : Z)
| ReadyTimeout (bridge : nat)
| PtyExit (bridge : nat) (exitCode : Z)
| DrainTick (bridge : nat) (buffered : Z)
| Tick (now : Z).

Definition set_world (w : World) (s : System) : System := mkSystem w (sy_lines s) (sy_removals s).
Definition set_line (c : nat) (f : Line -> Line) (s : System) : System :=
  mkSystem (sy_world s) (alter f c (sy_lines s)) (sy_removals s).
Definition with_task (t : option (Route unit)) (q : list ClientMessage) (l : Line) : Line :=
  mkLine t q (ln_closing l) (ln_teardown l).

Section Machine.
Context (tmuxSocket tmuxDefaultShell : string).

(** A handler that has ended makes way for the next message. *)
Definition next_task (c : nat) (p : Route unit) (q : list ClientMessage) (w : World)
    : option (Route unit) * list ClientMessage :=
  match p with
  | Return _ | Raise _ =>
      match q with
      | [] => (None, [])
      | m :: q => (Some (settle None (routeMessage tmuxSocket tmuxDefaultShell c m) w).2, q)
      end
  | p => (Some p, q)
  end.

(** The handler of [c] goes on as [p]. *)
Definition proceed (c : nat) (spawnError : option string) (p : Route unit) (q : list ClientMessage) (s : System)
    : System * list Output :=
  let r := settle spawnError p (sy_world s) in
  let t := next_task c r.2 q r.1.1 in
  (set_line c (with_task t.1 t.2) (set_world r.1.1 s), r.1.2).

(** A removal goes on, or is done. *)
Definition removal_goes (c : nat) (p : Route unit) (put : Route unit -> System -> System) (s : System)
    : System * list Output :=
  let r := settle None p (sy_world s) in
  (put r.2 (set_world r.1.1 s), r.1.2).

Definition start_removal (c : nat) (s : System) : System * list Output :=
  removal_goes c (removeConnection tmuxSocket c)
    (fun p s => mkSystem (sy_world s) (sy_lines s) (sy_removals s ++ [(c, p)])) s.

Definition on_world (r : World * list Output) (s : System) : System * list Output := (set_world r.1 s, r.2).

Definition step (e : REvent) (s : System) : System * list Output :=
  let w := sy_world s in
  match e with
  | Joined grant =>
      (mkSystem (set_conns (fun l => l ++ [mkRConn grant true true None None None None None]) w)
         (sy_lines s ++ [mkLine None [] false false]) (sy_removals s), [])
  | Received c m =>
      match sy_lines s !! c with
      | Some l =>
          if ln_closing l then (s, [])
          else match ln_task l with
               | None => proceed c None (routeMessage tmuxSocket tmuxDefaultShell c m) (ln_queue l) s
               | Some _ => (set_line c (with_task (ln_task l) (ln_queue l ++ [m])) s, [])
               end
      | None => (s, [])
      end
  | Answered c ans spawnError =>
      match sy_lines s !! c with
      | Some l =>
          match ln_task l with
          | Some (Call argv k) =>
              let r := proceed c spawnError (k ans) (ln_queue l) s in (r.1, OCalled c argv ans :: r.2)
          | _ => (s, [])
          end
      | None => (s, [])
      end
  | Judged c tmux =>
      match sy_lines s !! c with
      | Some l =>
          match ln_task l with
          | Some (Judge now ctx msg k) => proceed c None (k (enforce tmux now ctx msg)) (ln_queue l) s
          | _ => (s, [])
          end
      | None => (s, [])
      end
  | HungUp c => (set_world (on_conn c (set_open false) w) s, [])
  | Closed c =>
      (set_line c (fun l => mkLine (ln_task l) (ln_queue l) true (negb (ln_closing l)))
         (set_world (on_conn c (set_open false) w) s), [])
  | Drained c =>
      match sy_lines s !! c with
      | Some l =>
          match ln_task l with
          | None => if ln_teardown l
                    then start_removal c (set_line c (fun l => mkLine None (ln_queue l) true false) s)
                    else (s, [])
          | Some _ => (s, [])
          end
      | None => (s, [])
      end
  | Disconnected c =>
      if from_option rc_live false (conns w !! c)
      then start_removal c (set_world (on_conn c (set_open false) w) s) else (s, [])
  | RemovalAnswered i ans =>
      match sy_removals s !! i with
      | Some (c, Call argv k) =>
          removal_goes c (k ans) (fun p s => mkSystem (sy_world s) (sy_lines s) (<[i := (c, p)]> (sy_removals s))) s
      | _ => (s, [])
      end
  | PtyData b data buffered => on_world (pty_data b data buffered w) s
  | ReadyTimeout b => on_world (ready_timeout b w) s
  | PtyExit b exitCode => on_world (pty_exit b exitCode w) s
  | DrainTick b buffered => on_world (drain_tick b buffered w) s
  | Tick now => (set_world (set_clock now w) s, [])
  end.

Definition start : System := mkSystem (mkWorld [] [] None 0) [] [].

Fixpoint run (es : list REvent) (s : System) : System * list Output :=
  match es with
  | [] => (s, [])
  | e :: es => let r := step e s in let r' := run es r.1 in (r'.1, r.2 ++ r'.2)
  end.
End Machine.
