(* ===== verification/RouterSafety.v ===== *)
(** * RouterSafety: terminals, viewers and what each connection is told

    The invariant of the router's world ([WInv]), that every handler and every
    event keeps it, and what follows: one terminal to a connection and none
    left behind, viewers only ever on a locked-down clone, and broadcasts that
    reach only those they are for. *)

From stdpp Require Import pretty.
From S2P Require Import Prelude Grants Policy Tmux TmuxSafety Router.
#[local] Open Scope string_scope.
#[local] Open Scope list_scope.
#[local] Open Scope Z_scope.

(** ** Reasoning about handlers that are interrupted

    A rely-guarantee logic for the programs of Router.  [wp p Q] says: from
    here on, every step [p] takes is in [Rel], everything it puts out [fits],
    at every await the world satisfies [At], and it ends in [Q], whatever tmux
    and the gate answer and whatever else moves the world within [Rely] while
    it waits.  What [p] itself asked tmux, and was answered, is its history. *)

Definition History : Type := list (list string * Answer).

Section Logic.
Context (At : World -> Prop) (Rel Rely : World -> World -> Prop)
  (fits : History -> World -> Output -> Prop).

Fixpoint wp {A} (h : History) (p : Route A) (w : World) (Q : History -> result string A -> World -> Prop) : Prop :=
  match p with
  | Return a => Q h (Ok a) w
  | Raise e => Q h (Err e) w
  | Atomic f k => Rel w (f w).1 /\ Forall (fits h w) (f w).2 /\ wp h (k w) (f w).1 Q
  | Spawn argv size k => forall r, wp h (k r) w Q
  | Call argv k => At w /\ forall ans w', Rely w w' -> wp (h ++ [(argv, ans)]) (k ans) w' Q
  | Judge now ctx msg k => At w /\ forall tmux w', Rely w w' -> wp h (k (enforce tmux now ctx msg)) w' Q
  end.

Lemma wp_mono {A} h (p : Route A) w (Q Q' : History -> result string A -> World -> Prop) :
  (forall h r w, Q h r w -> Q' h r w) -> wp h p w Q -> wp h p w Q'.
Proof.
  intros QQ. revert h w. induction p as [a|e|f k IH|argv size k IH|argv k IH|now ctx msg k IH]; intros h w; cbn; try by apply QQ.
  - intros (R & F & W). eauto.
  - eauto.
  - intros [I W]. eauto.
  - intros [I W]. eauto.
Qed.

(** What follows a bound program: the rest, or the same error. *)
Definition then_ {A B} (f : A -> Route B) (Q : History -> result string B -> World -> Prop)
    (h : History) (r : result string A) (w : World) : Prop :=
  match r with Ok a => wp h (f a) w Q | Err e => Q h (Err e) w end.

Lemma wp_bind {A B} h (p : Route A) (f : A -> Route B) w Q :
  wp h p w (then_ f Q) -> wp h (p ≫= f) w Q.
Proof.
  revert h w. induction p as [a|e|g k IH|argv size k IH|argv k IH|now ctx msg k IH]; intros h w; cbn; try done.
  - intros (R & F & W). split_and!; [done|done|by apply IH].
  - intros W r. by apply IH.
  - intros [I W]. split; [done|]. intros ans w' R. by apply IH, W.
  - intros [I W]. split; [done|]. intros ans w' R. by apply IH, W.
Qed.

Lemma wp_rescue {A} h (p : Route A) (g : string -> Route A) w Q :
  wp h p w (fun h r w => match r with Ok a => Q h (Ok a) w | Err e => wp h (g e) w Q end) ->
  wp h (rescue p g) w Q.
Proof.
  revert h w. induction p as [a|e|f k IH|argv size k IH|argv k IH|now ctx msg k IH]; intros h w; cbn; try done.
  - intros (R & F & W). split_and!; [done|done|by apply IH].
  - intros W r. by apply IH.
  - intros [I W]. split; [done|]. intros ans w' R. by apply IH, W.
  - intros [I W]. split; [done|]. intros ans w' R. by apply IH, W.
Qed.

(** A waiting program: it stands at an await, or has ended. *)
Definition waits {A} (p : Route A) : bool :=
  match p with Atomic _ _ | Spawn _ _ _ => false | _ => true end.

Lemma settle_waits {A} sp (p : Route A) w : waits (settle sp p w).2 = true.
Proof. revert w. induction p as [a|e|f k IH|argv size k IH|argv k IH|now ctx msg k IH]; intros w; cbn; try done; apply IH. Qed.

Context `{!Reflexive Rel, !Transitive Rel}.

(** Running to the next await. *)
Lemma wp_settle {A} sp h (p : Route A) w Q : wp h p w Q ->
  let r := settle sp p w in
  Rel w r.1.1 /\ (forall o, o ∈ r.1.2 -> exists w1, Rel w w1 /\ fits h w1 o) /\ wp h r.2 r.1.1 Q.
Proof.
  revert h w. induction p as [a|e|f k IH|argv size k IH|argv k IH|now ctx msg k IH]; intros h w W;
    try by (split_and!; [done|by intros o ?%elem_of_nil|done]).
  - cbn [settle fst snd]. destruct W as (R & F & W). destruct (IH w h (f w).1 W) as (R' & F' & W').
    split_and!; [by etrans| |exact W'].
    intros o [O|O]%elem_of_app.
    + exists w. split; [done|]. rewrite Forall_forall in F. by apply F.
    + destruct (F' o O) as (w1 & R1 & X). exists w1. split; [by etrans|done].
  - cbn [settle]. by apply IH, W.
Qed.

Context `{!Transitive Rely}.
Context (Rely_At : forall w w', Rely w w' -> At w -> At w') (At_Rely : forall w, At w -> Rely w w).

(** A waiting program may be left waiting. *)
Lemma wp_stable {A} h (p : Route A) w w' Q : waits p = true -> Rely w w' ->
  (forall h r, Q h r w -> Q h r w') -> wp h p w Q -> wp h p w' Q.
Proof.
  intros N R QQ. destruct p; cbn; try done; eauto.
  - intros [I W]. split; [by eapply Rely_At|]. intros ans w1 R1. apply W. by etrans.
  - intros [I W]. split; [by eapply Rely_At|]. intros ans w1 R1. apply W. by etrans.
Qed.

(** A tmux program, by the runs it has. *)
Lemma wp_await {A} h (p : Prog A) w Q : At w ->
  (forall calls r w', runs p calls r -> Rely w w' -> At w' -> Q (h ++ calls) r w') -> wp h (await p) w Q.
Proof.
  revert h w. induction p as [a|e|argv k IH]; intros h w I X; cbn.
  - rewrite <- (app_nil_r h). apply X; [constructor|auto|done].
  - rewrite <- (app_nil_r h). apply X; [constructor|auto|done].
  - split; [done|]. intros ans w' R. assert (At w') as I' by eauto. apply IH; [done|].
    intros calls r w'' Rn R' I''. rewrite <- app_assoc. apply X; [by constructor|by etrans|done].
Qed.

(** ** Programs that keep to what holds at every await

    [quiet P p]: started where [P] holds, [p] ends where [P] holds; [P] is
    [At], or what [At] and the handler's own doing make of it. *)

Definition stable (P : World -> Prop) : Prop :=
  (forall w, P w -> At w) /\ (forall w w', Rely w w' -> P w -> P w').

Lemma stable_at : stable At.
Proof. split; eauto. Qed.

Context (P : World -> Prop) (PS : stable P).

Definition quiet {A} (p : Route A) : Prop :=
  forall h w Q, P w -> (forall h r w, P w -> Q h r w) -> wp h p w Q.

Lemma quiet_return {A} (a : A) : quiet (Return a).
Proof. intros h w Q I X. cbn. auto. Qed.
Lemma quiet_raise {A} e : quiet (Raise (A := A) e).
Proof. intros h w Q I X. cbn. auto. Qed.

Lemma quiet_bind {A B} (p : Route A) (f : A -> Route B) : quiet p -> (forall a, quiet (f a)) -> quiet (p ≫= f).
Proof.
  intros Qp F h w Q I X. apply wp_bind, Qp; [done|]. intros h' [a|e] w' I'; cbn; [by apply F|by apply X].
Qed.

Lemma quiet_rescue {A} (p : Route A) g : quiet p -> (forall e, quiet (g e)) -> quiet (rescue p g).
Proof.
  intros Qp F h w Q I X. apply wp_rescue, Qp; [done|]. intros h' [a|e] w' I'; [by apply X|by apply F].
Qed.

Lemma quiet_await {A} (p : Prog A) : quiet (await p).
Proof. intros h w Q I X. apply wp_await; [by apply PS|]. intros calls r w' _ R _. apply X. by eapply PS. Qed.

Lemma quiet_get : quiet get.
Proof. intros h w Q I X. cbn. split_and!; [done|constructor|auto]. Qed.

Lemma quiet_field {A} c (f : RConn -> option A) : quiet (field c f).
Proof. apply quiet_bind; [apply quiet_get|]. intros w. apply quiet_return. Qed.

Lemma quiet_modify f : (forall w, P w -> Rel w (f w) /\ P (f w)) -> quiet (modify f).
Proof. intros F h w Q I X. destruct (F w I). cbn. split_and!; [done|constructor|auto]. Qed.

Lemma quiet_emit f : (forall h w, P w -> Forall (fits h w) (f w)) -> quiet (emit f).
Proof. intros F h w Q I X. cbn. split_and!; [done|by apply F|auto]. Qed.

Lemma quiet_judge {A} now ctx msg (k : _ -> Route A) : (forall r, quiet (k r)) -> quiet (Judge now ctx msg k).
Proof. intros K h w Q I X. cbn. split; [by apply PS|]. intros tmux w' R. apply K; [by eapply PS|done]. Qed.

Lemma quiet_if {A} (b : bool) (p q : Route A) : quiet p -> quiet q -> quiet (if b then p else q).
Proof. by destruct b. Qed.

End Logic.

(** ** The invariant *)

(** A bridge and its connection: the current bridge runs, under the session
    the connection says it is attached to, and is polled while it is paused;
    any other has been killed or has exited.  A read-only connection's is on
    its clone. *)
Record bridge_ok (b : nat) (br : Bridge) (rc : RConn) : Prop := {
  bo_current : rc_pty rc = Some b ->
    br_killed br = false /\ br_detaching br = false /\ br_exited br = false /\ br_spawnError br = None /\
    rc_attached rc = Some (br_name br) /\ (br_paused br = true -> br_drainTimer br = true);
  bo_gone : rc_pty rc = Some b \/ br_killed br = true \/ br_exited br = true;
  bo_mode : br_readOnly br = gr_readOnly (rc_grant rc);
  bo_target : br_target br = if br_readOnly br then cloneNameFor (gr_id (rc_grant rc)) (connId (br_conn br))
                             else br_name br;
}.

(** Grants of one id are of one scope. *)
Definition coherent (cs : list RConn) : Prop :=
  forall i j ci cj, cs !! i = Some ci -> cs !! j = Some cj ->
    gr_id (rc_grant ci) = gr_id (rc_grant cj) -> gr_scope (rc_grant ci) = gr_scope (rc_grant cj).

Record WInv (w : World) : Prop := {
  wi_bridge : forall b br, bridges w !! b = Some br ->
    exists rc, conns w !! br_conn br = Some rc /\ bridge_ok b br rc;
  wi_conn : forall c rc b, conns w !! c = Some rc -> rc_pty rc = Some b ->
    exists br, bridges w !! b = Some br /\ br_conn br = c;
  wi_coherent : coherent (conns w);
}.

Definition At (c : nat) (w : World) : Prop := WInv w /\ is_Some (conns w !! c).

(** The grants stay. *)
Definition same_grants (w w' : World) : Prop :=
  rc_grant <$> conns w' = rc_grant <$> conns w.

(** A step of [c]'s handler: the other connections stay as they are. *)
Definition frame (c : nat) (w w' : World) : Prop :=
  same_grants w w' /\ forall i, i <> c -> conns w' !! i = conns w !! i.

(** A step of one of [c]'s removals: moreover none becomes attached. *)
Definition shrinks (c : nat) (w w' : World) : Prop :=
  frame c w w' /\ forall rc rc', conns w !! c = Some rc -> conns w' !! c = Some rc' ->
    rc_pty rc = None -> rc_pty rc' = None.

(** What may happen while [c]'s handler waits. *)
Definition Rely (c : nat) (w w' : World) : Prop :=
  WInv w' /\ forall rc, conns w !! c = Some rc -> exists rc', conns w' !! c = Some rc' /\
    rc_grant rc' = rc_grant rc /\ (rc_pty rc = None -> rc_pty rc' = None).

(** And while a removal of [c] waits. *)
Definition Rely0 (c : nat) (w w' : World) : Prop :=
  WInv w' /\ (is_Some (conns w !! c) -> is_Some (conns w' !! c)).

#[export] Instance frame_refl c : Reflexive (frame c).
Proof. by intros w. Qed.
#[export] Instance frame_trans c : Transitive (frame c).
Proof. intros w1 w2 w3 [G1 F1] [G2 F2]. split; [unfold same_grants in *; congruence|]. intros i N. by rewrite F2, F1. Qed.
#[export] Instance rely_trans c : Transitive (Rely c).
Proof.
  intros w1 w2 w3 [I1 R1] [I2 R2]. split; [done|]. intros rc E.
  destruct (R1 rc E) as (rc' & E' & G' & P'). destruct (R2 rc' E') as (rc2 & E2 & G2 & P2).
  exists rc2. split_and!; [done|congruence|auto].
Qed.
#[export] Instance rely0_trans c : Transitive (Rely0 c).
Proof. intros w1 w2 w3 [I1 R1] [I2 R2]. split; auto. Qed.

Lemma at_rely c w : At c w -> Rely c w w.
Proof. intros [I S]. split; [done|]. intros rc E. by exists rc. Qed.
Lemma rely_at c w w' : Rely c w w' -> At c w -> At c w'.
Proof. intros [I R] [_ [rc E]]. split; [done|]. destruct (R rc E) as (rc' & E' & _). by exists rc'. Qed.
Lemma at_rely0 c w : At c w -> Rely0 c w w.
Proof. by intros [I S]. Qed.
Lemma rely0_at c w w' : Rely0 c w w' -> At c w -> At c w'.
Proof. intros [I R] [_ S]. split; auto. Qed.

Lemma same_grants_lookup w w' i rc : same_grants w w' -> conns w !! i = Some rc ->
  exists rc', conns w' !! i = Some rc' /\ rc_grant rc' = rc_grant rc.
Proof.
  intros G E. assert ((rc_grant <$> conns w') !! i = Some (rc_grant rc)) as X
    by (rewrite G, list_lookup_fmap, E; done).
  rewrite list_lookup_fmap in X. destruct (conns w' !! i) as [rc'|] eqn:E'; [|done].
  exists rc'. split; [done|]. by injection X.
Qed.

#[export] Instance shrinks_refl c : Reflexive (shrinks c).
Proof. intros w. split; [done|]. intros rc rc' E E'. congruence. Qed.
#[export] Instance shrinks_trans c : Transitive (shrinks c).
Proof.
  intros w1 w2 w3 [F1 P1] [F2 P2]. split; [by etrans|]. intros rc rc' E E' N.
  destruct (same_grants_lookup _ _ _ _ (proj1 F1) E) as (rc2 & E2 & _). eauto.
Qed.

(** ** Who a message is for *)

Section Safety.
Context (tmuxSocket tmuxDefaultShell : string).

(** The call that lists the panes of a window of a session. *)
Definition panes_call (session windowId : string) : list string :=
  tmuxArgs tmuxSocket ++ ["list-panes"]
    ++ (match truthy (Some windowId) with Some id => ["-t"; session +:+ ":" +:+ id] | None => ["-s"; "-t"; session] end)
    ++ ["-F"; F_PANES].

(** What [c]'s handler, having asked tmux [h], may tell [c'], whose state is
    [rc'].  A pane list is one tmux gave of the session it goes to. *)
Definition audience (h : History) (c c' : nat) (rc' : RConn) (m : Reply) : Prop :=
  match m with
  | RSessionList l => Forall (fun s => isCloneSession (si_name s) = false /\
      (isFullGrant (rc_grant rc') = true \/ allowsSession (rc_grant rc') (ref_of s) None = true)) l
  | RSessionCreated s => c' = c \/ canSee (rc_grant rc') (si_name s) = true
  | RSessionKilled name => c' = c \/ canSee (rc_grant rc') name = true
  | RWindowChanged _ session => c' = c \/ rc_attached rc' = Some session
  | RPaneChanged _ windowId =>
      c' = c \/ exists session, rc_attached rc' = Some session /\ panes_call session windowId ∈ h.*1
  | _ => c' = c
  end.

(** The gate let a grant attach to [name]: it was in force, it is not one of
    recordings, and tmux listed a session of that name in its scope. *)
Definition admitted (g : GrantRecord) (name : string) : Prop :=
  exists tmux now, isGrantActive g now = true /\ isRecordingsGrant g = false /\ in_scope tmux (mkCtx g None None) name.

(** The last calls made a clone of [target] and locked it. *)
Definition locked_by (h : History) (target name : string) : Prop :=
  exists h0 calls, h = h0 ++ calls /\
    calls.*1 = new_call tmuxSocket target name :: (set_call tmuxSocket name <$> LOCKDOWN) /\ answered calls.

(** A terminal that [c] may open. *)
Definition spawn_ok (h : History) (c : nat) (g : GrantRecord) (argv : list string) : Prop :=
  exists name, admitted g name /\ isCloneSession name = false /\
    if gr_readOnly g
    then argv = attach_argv tmuxSocket true (cloneNameFor (gr_id g) (connId c)) /\
         locked_by h name (cloneNameFor (gr_id g) (connId c))
    else argv = attach_argv tmuxSocket false name.

Definition fits (c : nat) (h : History) (w : World) (o : Output) : Prop :=
  match o with
  | OSend c' m => forall rc', conns w !! c' = Some rc' -> audience h c c' rc' m
  | OSpawn c' argv _ => c' = c /\ forall rc, conns w !! c = Some rc -> spawn_ok h c (rc_grant rc) argv
  | OElsewhere c' _ => c' = c
  | OCalled _ _ _ => False
  | _ => True
  end.

(** A removal says nothing. *)
Definition silent (h : History) (w : World) (o : Output) : Prop := exists b, o = OKill b.

Notation wp c := (RouterSafety.wp (At c) (frame c) (Rely c) (fits c)).
Notation wp0 c := (RouterSafety.wp (At c) (shrinks c) (Rely0 c) silent).
Notation keeps c := (RouterSafety.quiet (At c) (frame c) (Rely c) (fits c)).
Notation quiet c := (keeps c (At c)).
Notation hush c := (RouterSafety.quiet (At c) (shrinks c) (Rely0 c) silent (At c)).

(** ** Updates of the world *)

Lemma conn_alter c f i w : conns (on_conn c f w) !! i = if decide (i = c) then f <$> conns w !! i else conns w !! i.
Proof.
  cbn. destruct (decide (i = c)) as [->|N]; [apply list_lookup_alter_eq|by apply list_lookup_alter_ne].
Qed.

Lemma bridge_alter b g i w : bridges (on_bridge b g w) !! i = if decide (i = b) then g <$> bridges w !! i else bridges w !! i.
Proof.
  cbn. destruct (decide (i = b)) as [->|N]; [apply list_lookup_alter_eq|by apply list_lookup_alter_ne].
Qed.

Lemma grants_alter c f w : (forall rc, rc_grant (f rc) = rc_grant rc) -> same_grants w (on_conn c f w).
Proof.
  intros G. unfold same_grants. apply list_eq. intros i. rewrite !list_lookup_fmap, conn_alter.
  destruct (decide (i = c)); [|done]. destruct (conns w !! i); [cbn; by rewrite G|done].
Qed.

Lemma frame_conn c f w : (forall rc, rc_grant (f rc) = rc_grant rc) -> frame c w (on_conn c f w).
Proof. intros G. split; [by apply grants_alter|]. intros i N. rewrite conn_alter. by destruct (decide (i = c)). Qed.

Lemma coherent_same w w' : same_grants w w' -> coherent (conns w) -> coherent (conns w').
Proof.
  intros G C i j ci cj Ei Ej. assert (same_grants w' w) as G' by (by symmetry).
  destruct (same_grants_lookup _ _ _ _ G' Ei) as (ci' & Ei' & <-).
  destruct (same_grants_lookup _ _ _ _ G' Ej) as (cj' & Ej' & <-). by eapply C.
Qed.

(** A connection's fields change, other than its grant. *)
Lemma winv_conn c f w : WInv w -> (forall rc, rc_grant (f rc) = rc_grant rc) ->
  (forall rc, conns w !! c = Some rc ->
     (forall b br, bridges w !! b = Some br -> br_conn br = c -> bridge_ok b br rc -> bridge_ok b br (f rc)) /\
     (forall b, rc_pty (f rc) = Some b -> rc_pty rc = Some b)) ->
  WInv (on_conn c f w).
Proof.
  intros [B C K] G X. split.
  - intros b br E. destruct (B b br E) as (rc & Ec & O). rewrite conn_alter.
    destruct (decide (br_conn br = c)) as [<-|N]; [|by exists rc]. rewrite Ec. exists (f rc). split; [done|].
    by apply (proj1 (X rc Ec) b br).
  - intros i rc b E P. rewrite conn_alter in E. destruct (decide (i = c)) as [->|N]; [|by apply (C i rc)].
    destruct (conns w !! c) as [rc0|] eqn:E0; [|done]. injection E as <-. apply (C c rc0); [done|]. by apply (X rc0).
  - eapply coherent_same; [by apply grants_alter|done].
Qed.

(** A bridge's do, other than its connection. *)
Lemma winv_bridge b g w : WInv w -> (forall br, br_conn (g br) = br_conn br) ->
  (forall br rc, bridges w !! b = Some br -> conns w !! br_conn br = Some rc -> bridge_ok b br rc -> bridge_ok b (g br) rc) ->
  WInv (on_bridge b g w).
Proof.
  intros [B C K] G X. split.
  - intros i br E. rewrite bridge_alter in E. destruct (decide (i = b)) as [->|N]; [|by apply B].
    destruct (bridges w !! b) as [br0|] eqn:E0; [|done]. injection E as <-. rewrite G.
    destruct (B b br0 E0) as (rc & Ec & O). exists rc. split; [done|]. by apply X.
  - intros i rc b' E P. destruct (C i rc b' E P) as (br & Eb & <-). rewrite bridge_alter, Eb.
    destruct (decide (b' = b)); [|by exists br]. exists (g br). by rewrite G.
  - done.
Qed.

(** Both, of the bridge a connection lets go. *)
Lemma winv_both c f b g w br0 : WInv w -> bridges w !! b = Some br0 -> br_conn br0 = c ->
  (forall br, br_conn (g br) = br_conn br) -> (forall rc, rc_grant (f rc) = rc_grant rc) -> (forall rc, rc_pty (f rc) = None) ->
  (forall rc, conns w !! c = Some rc -> rc_pty rc = Some b /\ (bridge_ok b br0 rc -> bridge_ok b (g br0) (f rc))) ->
  WInv (on_conn c f (on_bridge b g w)).
Proof.
  intros [B C K] Eb0 Ec0 G Gf N X. split.
  - intros i br E. rewrite conn_alter. change (bridges (on_bridge b g w) !! i = Some br) in E.
    rewrite bridge_alter in E. destruct (decide (i = b)) as [->|Ni].
    + rewrite Eb0 in E. injection E as <-. rewrite G, Ec0, decide_True by done.
      destruct (B b br0 Eb0) as (rc & Ec & O). rewrite Ec0 in Ec. cbn. rewrite Ec. exists (f rc). split; [done|]. by apply X.
    + destruct (B i br E) as (rc & Ec & O). cbn. rewrite Ec. destruct (decide (br_conn br = c)) as [Ei|]; [|by exists rc].
      rewrite Ei in Ec. destruct (X rc Ec) as [P _]. exists (f rc). split; [done|]. destruct O as [O1 O2 O3 O4]. split.
      * intros Q. by rewrite N in Q.
      * right. destruct O2 as [Q|Q]; [congruence|done].
      * by rewrite Gf.
      * by rewrite Gf.
  - intros i rc b' E P. rewrite conn_alter in E. cbn in E. destruct (decide (i = c)) as [->|].
    + destruct (conns w !! c) as [rc0|]; [|done]. injection E as <-. by rewrite N in P.
    + destruct (C i rc b' E P) as (br & Eb & <-). change (exists br1, bridges (on_bridge b g w) !! b' = Some br1 /\ br_conn br1 = br_conn br).
      rewrite bridge_alter, Eb. destruct (decide (b' = b)); [|by exists br]. exists (g br). by rewrite G.
  - apply (coherent_same w); [|done]. by apply (grants_alter c f (on_bridge b g w)).
Qed.

Lemma at_same c w w' : WInv w' -> same_grants w w' -> At c w -> At c w'.
Proof.
  intros I G [_ [rc E]]. split; [done|]. destruct (same_grants_lookup _ _ _ _ G E) as (rc' & E' & _). by exists rc'.
Qed.

(** Fields of a connection that say nothing of its terminal. *)
Definition idle_field (f : RConn -> RConn) : Prop :=
  forall rc, rc_grant (f rc) = rc_grant rc /\ rc_pty (f rc) = rc_pty rc /\ rc_attached (f rc) = rc_attached rc.

Lemma winv_idle c f w : idle_field f -> WInv w -> WInv (on_conn c f w).
Proof.
  intros F I. apply winv_conn; [done|intros rc; apply F|]. intros rc E. destruct (F rc) as (G & P & A). split.
  - intros b br _ _ [O1 O2 O3 O4]. split; by rewrite ?G, ?P, ?A.
  - intros b. by rewrite P.
Qed.

Lemma idle_window id : idle_field (set_window id).
Proof. done. Qed.
Lemma idle_clone name : idle_field (set_clone name).
Proof. done. Qed.
Lemma idle_size size : idle_field (set_lastSize size).
Proof. done. Qed.
Lemma idle_live b : idle_field (set_live b).
Proof. done. Qed.
Lemma idle_open b : idle_field (set_open b).
Proof. done. Qed.

Lemma quiet_idle c f : idle_field f -> quiet c (modify (on_conn c f)).
Proof.
  intros F. apply quiet_modify. intros w I. assert (frame c w (on_conn c f w)) as Fr.
  { apply frame_conn. intros rc. apply F. }
  split; [done|]. eapply at_same; [|apply Fr|done]. apply winv_idle; [done|apply I].
Qed.

Lemma stable_At c : stable (At c) (Rely c) (At c).
Proof. split; [done|]. intros w w'. apply rely_at. Qed.

(** ** The rules, for the handlers of a connection *)

Lemma keeps_emit c P f : (forall h w, P w -> Forall (fits c h w) (f w)) -> keeps c P (emit f).
Proof. exact (quiet_emit (At c) (frame c) (Rely c) (fits c) P f). Qed.

Lemma keeps_get c P : keeps c P get.
Proof. exact (quiet_get (At c) (frame c) (Rely c) (fits c) P). Qed.

Lemma keeps_field {A} c P (f : RConn -> option A) : keeps c P (field c f).
Proof. exact (quiet_field (At c) (frame c) (Rely c) (fits c) P c f). Qed.

Lemma keeps_await {A} c P (p : Prog A) : stable (At c) (Rely c) P -> keeps c P (await p).
Proof. exact (fun S => quiet_await (At c) (frame c) (Rely c) (fits c) (rely_at c) (at_rely c) P S p). Qed.

Lemma quiet_call {A} c (p : Prog A) : quiet c (await p).
Proof. apply keeps_await, stable_At. Qed.

(** ** The quiet handlers *)

(** A reply only its asker gets. *)
Definition private (m : Reply) : Prop := forall h c rc, audience h c c rc m.

Lemma to_conn_fits c h w m : (forall rc, conns w !! c = Some rc -> audience h c c rc m) ->
  Forall (fits c h w) (to_conn c m w).
Proof.
  intros A. unfold to_conn. destruct (conns w !! c) as [rc|] eqn:E; [|constructor].
  destruct (rc_open rc); [|constructor]. apply Forall_singleton. intros rc' E'. apply A. congruence.
Qed.

Lemma quiet_send P c m : private m -> keeps c P (send c m).
Proof. intros A. apply keeps_emit. intros h w _. apply to_conn_fits. intros rc _. apply A. Qed.

Lemma quiet_error P c code message : keeps c P (sendError c code message).
Proof. by apply quiet_send. Qed.

Lemma quiet_scroll P c s : keeps c P (sendScrollState c s).
Proof. by apply quiet_send. Qed.

Lemma quiet_attached_or c k : (forall s, quiet c (k s)) -> quiet c (attached_or c k).
Proof.
  intros K. apply quiet_bind; [apply keeps_field|]. intros s. destruct (truthy s); [apply K|apply quiet_error].
Qed.

Lemma quiet_still c : quiet c (still_attached c).
Proof. apply quiet_bind; [apply keeps_field|]. intros [s|]; [apply quiet_return|apply quiet_raise]. Qed.

Lemma quiet_write c data absent : quiet c absent -> quiet c (write_pty c data absent).
Proof.
  intros A. apply quiet_bind; [apply keeps_field|]. intros [b|]; [|done].
  apply keeps_emit. intros h w _. by apply Forall_singleton.
Qed.

Lemma broadcast_fits c h w build :
  (forall i rc m, i <> c -> conns w !! i = Some rc -> build rc = Some m -> audience h c i rc m) ->
  Forall (fits c h w) (broadcastWhere build c w).
Proof.
  intros X. unfold broadcastWhere. apply Forall_bind, Forall_forall. intros [i rc] M.
  apply list_elem_of_filter in M as [[N _] M]. cbn in *. apply elem_of_lookup_imap in M as (j & rc' & [= <- <-] & E).
  destruct (build rc) as [m|] eqn:B; [|constructor]. unfold to_conn. rewrite E.
  destruct (rc_open rc); [|constructor]. apply Forall_singleton. intros rc' E'. rewrite E in E'. injection E' as <-. by eapply X.
Qed.

Lemma quiet_broadcast c build :
  (forall h w i rc m, i <> c -> conns w !! i = Some rc -> build rc = Some m -> audience h c i rc m) ->
  quiet c (broadcast c build).
Proof. intros X. apply keeps_emit. intros h w _. apply broadcast_fits. eauto. Qed.

Lemma runs_listPanes session windowId calls panes :
  runs (listPanes tmuxSocket session (Some windowId)) calls (Ok panes) -> panes_call session windowId ∈ calls.*1.
Proof.
  unfold listPanes. intros R. destruct (runs_bind _ _ _ _ R) as [(out & c1 & c2 & -> & R1 & R2)|(e & [=] & _)].
  rewrite (runs_exec_inv _ _ _ R1). apply elem_of_cons. left. unfold panes_call. by destruct (truthy (Some windowId)).
Qed.

Lemma quiet_panes c session : quiet c (currentWindowPanes tmuxSocket session).
Proof.
  apply quiet_bind; [apply quiet_call|]. intros id. apply quiet_bind; [apply quiet_call|].
  intros panes. apply quiet_return.
Qed.

Lemma quiet_attached_to c session m : (forall h rc, rc_attached rc = Some session -> forall i, audience h c i rc m) ->
  quiet c (broadcast c (attached_to session m)).
Proof.
  intros X. apply quiet_broadcast. intros h w i rc m' _ _. unfold attached_to.
  destruct (decide (rc_attached rc = Some session)); [|done]. intros [= <-]. by apply X.
Qed.

Lemma wp_emit {B} c h f (k : unit -> Route B) w Q : Forall (fits c h w) (f w) -> wp c h (k tt) w Q ->
  wp c h (emit f ≫= k) w Q.
Proof. intros F W. cbn. by split_and!. Qed.

Lemma wp_emit_end c h f w Q : Forall (fits c h w) (f w) -> Q h (Ok tt) w -> wp c h (emit f) w Q.
Proof. intros F W. cbn. by split_and!. Qed.

Lemma quiet_announce c session : quiet c (announceLayout tmuxSocket c session).
Proof.
  apply quiet_bind; [apply quiet_call|]. intros windows h w Q I X. apply wp_bind. unfold currentWindowPanes.
  apply wp_bind, (quiet_call c _ h w); [done|]. intros h1 [id|e] w1 I1; [|by apply X]. cbn [then_].
  apply wp_bind, wp_await; [apply _|apply rely_at|apply at_rely|done|].
  intros calls [panes|e] w2 R2 _ I2; [|by apply X]. cbn [then_ RouterSafety.wp]. apply runs_listPanes in R2.
  assert (panes_call session id ∈ (h1 ++ calls).*1) as P by (rewrite fmap_app; set_solver).
  unfold send, broadcast.
  apply wp_emit; [apply to_conn_fits; by left|]. apply wp_emit; [apply to_conn_fits; by left|].
  apply wp_emit.
  { apply broadcast_fits. intros i rc m _ _. unfold attached_to. case_decide; [|done]. intros [= <-]. by right. }
  apply wp_emit.
  { apply broadcast_fits. intros i rc m _ _. unfold attached_to. case_decide; [|done]. intros [= <-]. right. by exists session. }
  by apply X.
Qed.

(** What a connection is told exists. *)
Definition listed (g : GrantRecord) (l : list SessionInfo) : Prop :=
  Forall (fun s => isCloneSession (si_name s) = false /\
    (isFullGrant g = true \/ allowsSession g (ref_of s) None = true)) l.

Lemma visible_listed g all : listed g (visible_to g (real_sessions all)).
Proof.
  unfold listed, visible_to, real_sessions. destruct (isFullGrant g) eqn:F; apply Forall_forall; intros s M.
  - apply list_elem_of_filter in M as [M _]. auto.
  - apply list_elem_of_filter in M as [A [M _]%list_elem_of_filter]. auto.
Qed.

Lemma visible_scope g g' real : gr_scope g = gr_scope g' -> visible_to g real = visible_to g' real.
Proof.
  intros S. unfold visible_to, isFullGrant. rewrite S. destruct (gr_scope g') eqn:S'; [done| |];
    apply filter_ext_in; intros s _; unfold allowsSession, serverChanged; rewrite S, S'; [|done].
  by destruct (gr_tmuxServerPid g), (gr_tmuxServerPid g').
Qed.

(** Every list of the cache is the one each connection of its grant id is due. *)
Lemma lists_fit c h w all cs cache : coherent (conns w) ->
  Forall (fun e => e.1 <> c /\ conns w !! e.1 = Some e.2) cs ->
  (forall key l i rc, assoc_get key cache = Some l -> conns w !! i = Some rc -> gr_id (rc_grant rc) = key ->
     l = visible_to (rc_grant rc) (real_sessions all)) ->
  Forall (fits c h w) (lists_by_grant (real_sessions all) cache cs w).
Proof.
  intros K. revert cache. induction cs as [|[i rc] cs IH]; intros cache F X; cbn [lists_by_grant]; [constructor|].
  apply Forall_cons in F as [[N E] F]. cbn in N, E.
  assert (match assoc_get (gr_id (rc_grant rc)) cache with
          | Some visible => visible
          | None => visible_to (rc_grant rc) (real_sessions all)
          end = visible_to (rc_grant rc) (real_sessions all)) as V.
  { destruct (assoc_get _ cache) eqn:G; [|done]. by eapply X. }
  rewrite V. apply Forall_app. split.
  - unfold to_conn. rewrite E. destruct (rc_open rc); [|constructor]. apply Forall_singleton. intros rc' E'.
    assert (rc' = rc) as -> by congruence. apply visible_listed.
  - apply IH; [done|]. intros key l j rc' G E' Ik. destruct (decide (key = gr_id (rc_grant rc))) as [->|Ne].
    + rewrite assoc_get_set_eq in G. injection G as <-. apply visible_scope. by eapply K.
    + rewrite assoc_get_set_ne in G by done. by eapply X.
Qed.

Lemma grant_of_lookup c w rc : conns w !! c = Some rc -> grant_of c w = rc_grant rc.
Proof. intros E. unfold grant_of. by rewrite E. Qed.

Lemma send_list_fits c h w all : Forall (fits c h w) (to_conn c (RSessionList (visible_to (grant_of c w) (real_sessions all))) w).
Proof. apply to_conn_fits. intros rc E. rewrite (grant_of_lookup _ _ _ E). apply visible_listed. Qed.

(** The list is read for the grant the connection has when it is sent. *)
Lemma wp_visible {B} c h (k : list SessionInfo -> Route B) w Q : At c w ->
  (forall h w all, At c w -> wp c h (k (visible_to (grant_of c w) (real_sessions all))) w Q) ->
  (forall h w e, At c w -> Q h (Err e) w) ->
  wp c h (sessionsVisibleTo tmuxSocket c ≫= k) w Q.
Proof.
  intros I X E. apply wp_bind. unfold sessionsVisibleTo. apply wp_bind, wp_await; [apply _|apply rely_at|apply at_rely|done|].
  intros calls [all|e] w1 _ _ I1; cbn [then_]; [|by apply E].
  cbn. split_and!; [done|constructor|]. by apply X.
Qed.

Lemma quiet_list c : quiet c (visible ← sessionsVisibleTo tmuxSocket c; send c (RSessionList visible)).
Proof.
  intros h w Q I X. apply wp_visible; [done| |auto]. intros h1 w1 all I1.
  apply wp_emit_end; [apply send_list_fits|by apply X].
Qed.

Lemma quiet_rename c oldName newName : quiet c (session_rename tmuxSocket c oldName newName).
Proof.
  apply quiet_bind; [apply quiet_call|]. intros [|]; cbn [negb]; [|apply quiet_error].
  apply quiet_bind; [apply quiet_call|]. intros _ h w Q I X. apply wp_visible; [done| |auto].
  intros h1 w1 all I1. apply wp_emit; [apply send_list_fits|].
  apply (quiet_bind (At c) (frame c) (Rely c) (fits c) (At c)); [apply quiet_call| |done|done].
  intros everything. apply keeps_emit. intros h2 w2 [I2 _]. apply lists_fit; [apply I2| |done].
  apply Forall_forall. intros [i rc] M. apply list_elem_of_filter in M as [[N _] M].
  apply elem_of_lookup_imap in M as (j & rc' & [= <- <-] & E). done.
Qed.

(** ** Letting go of a terminal *)

(** A connection of grant [g] with no terminal. *)
Definition Idle (c : nat) (g : GrantRecord) (w : World) : Prop :=
  At c w /\ exists rc, conns w !! c = Some rc /\ rc_grant rc = g /\ rc_pty rc = None.

Lemma stable_idle c g : stable (At c) (Rely c) (Idle c g).
Proof.
  split; [by intros w [I _]|]. intros w w' R [I (rc & E & G & P)]. split; [by eapply rely_at|].
  destruct R as [_ R]. destruct (R rc E) as (rc' & E' & G' & P'). exists rc'. split_and!; [done|congruence|auto].
Qed.

Lemma idle_update c g f w : (forall rc, rc_grant (f rc) = rc_grant rc) -> (forall rc, rc_pty (f rc) = rc_pty rc) ->
  Idle c g w -> frame c w (on_conn c f w) /\ Idle c g (on_conn c f w).
Proof.
  intros G P [I (rc & E & Eg & N)]. assert (frame c w (on_conn c f w)) as F by by apply frame_conn.
  split; [done|]. split.
  - eapply at_same; [|apply F|done]. apply winv_conn; [apply I|done|]. intros rc' E'. split.
    + intros b br _ _ [O1 O2 O3 O4]. assert (rc' = rc) as -> by congruence.
      split; [intros X; rewrite P in X; congruence| |by rewrite G|by rewrite G]. rewrite P. exact O2.
    + intros b. by rewrite P.
  - exists (f rc). rewrite conn_alter, decide_True, E by done. split_and!; [done|by rewrite G|by rewrite P].
Qed.

Lemma keeps_idle c g f : (forall rc, rc_grant (f rc) = rc_grant rc) -> (forall rc, rc_pty (f rc) = rc_pty rc) ->
  keeps c (Idle c g) (modify (on_conn c f)).
Proof. intros G P. apply quiet_modify. intros w I. by apply idle_update. Qed.

Lemma drop_both c b w rc : WInv w -> conns w !! c = Some rc -> rc_pty rc = Some b ->
  WInv (on_conn c (set_pty None) (on_bridge b set_killed w)).
Proof.
  intros I E P. destruct (wi_conn w I c rc b E P) as (br & Eb & Ec).
  eapply winv_both; [done|exact Eb|exact Ec|done|done|done|]. intros rc' E'. assert (rc' = rc) as -> by congruence.
  split; [done|]. intros [O1 O2 O3 O4]. split; [done|right; by left|done|done].
Qed.

Lemma wp_kill_pty c h w Q : At c w -> (forall w', Idle c (grant_of c w) w' -> Q h (Ok tt) w') -> wp c h (kill_pty c) w Q.
Proof.
  intros I X. destruct I as [I [rc E]]. unfold kill_pty. apply wp_bind. cbn. split_and!; [done|constructor|].
  rewrite E. cbn. destruct (rc_pty rc) as [b|] eqn:P.
  - cbn. split_and!; [split; [done|by intros]|by apply Forall_singleton| |constructor|].
    + apply (frame_conn c (set_pty None) (on_bridge b set_killed w)). done.
    + apply X. split; [split|].
      * by eapply drop_both.
      * rewrite conn_alter, decide_True by done. cbn. rewrite E. by eexists.
      * exists (set_pty None rc). rewrite conn_alter, decide_True by done. cbn. rewrite E.
        split_and!; [done|by rewrite (grant_of_lookup _ _ _ E)|done].
  - cbn. apply X. split; [by split|]. exists rc. split_and!; [done|by rewrite (grant_of_lookup _ _ _ E)|done].
Qed.

Lemma keeps_destroy_clone c g : keeps c (Idle c g) (destroy_clone_of tmuxSocket c).
Proof.
  apply quiet_bind; [apply keeps_field|]. intros [name|]; [|apply quiet_return].
  apply quiet_bind; [apply keeps_await, stable_idle|]. intros _. by apply keeps_idle.
Qed.

(** [session:detach], and the start of an attach. *)
Lemma wp_letting_go c h w (k : Route unit) Q : At c w ->
  (forall h w', Idle c (grant_of c w) w' -> wp c h k w' Q) ->
  (forall h r w, At c w -> Q h r w) ->
  wp c h (_ ← kill_pty c; _ ← modify (on_conn c (set_attached None None)); _ ← destroy_clone_of tmuxSocket c; k) w Q.
Proof.
  intros I X E. apply wp_bind, wp_kill_pty; [done|]. intros w1 I1. cbn [then_].
  apply wp_bind, (keeps_idle c (grant_of c w) (set_attached None None)); [done|done|done|].
  intros h2 [[]|e] w2 I2; cbn [then_]; [|apply E, I2].
  apply wp_bind, (keeps_destroy_clone c (grant_of c w)); [done|].
  intros h3 [[]|e] w3 I3; cbn [then_]; [by apply X|apply E, I3].
Qed.

(** ** Attaching *)

Lemma install_inv c g name size attachId captured target w :
  let br := mkBridge c name attachId captured target (gr_readOnly g) false true false None false false false false in
  target = (if gr_readOnly g then cloneNameFor (gr_id g) (connId c) else name) ->
  Idle c g w ->
  let w' := on_conn c (fun rc => set_attached (Some name) size (set_pty (Some (length (bridges w))) rc))
              (set_bridges (fun l => l ++ [br]) w) in
  frame c w w' /\ At c w'.
Proof.
  intros br T [[I _] (rc & E & G & N)]. cbn zeta.
  set (f := fun rc0 => set_attached (Some name) size (set_pty (Some (length (bridges w))) rc0)).
  set (w1 := set_bridges (fun l => l ++ [br]) w).
  assert (forall i, conns (on_conn c f w1) !! i = if decide (i = c) then f <$> conns w !! i else conns w !! i) as L
    by (intros i; apply (conn_alter c f i w1)).
  assert (frame c w (on_conn c f w1)) as F by (by apply (frame_conn c f w1)). split; [done|].
  destruct I as [B C K]. apply (at_same c w); [|apply F|by split; [split|exists rc]]. split.
  - intros b b1 Eb. change (bridges (on_conn c f w1)) with (bridges w ++ [br]) in Eb. rewrite L.
    apply lookup_app_Some in Eb as [Eb|[Ge Eb]].
    + destruct (B b b1 Eb) as (rc1 & E1 & O). rewrite E1. destruct (decide (br_conn b1 = c)) as [Ec|]; [|by exists rc1].
      assert (rc1 = rc) as -> by congruence. exists (f rc). split; [done|]. destruct O as [O1 O2 O3 O4].
      assert (b <> length (bridges w)) as Nb by (apply lookup_lt_Some in Eb; lia).
      split; [intros [= X]; congruence| |done|done]. right. destruct O2 as [X|X]; [congruence|done].
    + apply list_lookup_singleton_Some in Eb as [Eb <-]. change (br_conn br) with c. rewrite decide_True, E by done.
      exists (f rc). split; [done|]. split.
      * by intros _.
      * left. cbn. f_equal. lia.
      * cbn. by rewrite G.
      * cbn. by rewrite G.
  - intros i rc1 b E1 P. rewrite L in E1. destruct (decide (i = c)) as [->|Ni].
    + rewrite E in E1. injection E1 as <-. injection P as <-. exists br. cbn. split; [|done].
      by rewrite lookup_app_r, Nat.sub_diag by lia.
    + destruct (C i rc1 b E1 P) as (b1 & Eb & <-). exists b1. cbn. split; [|done]. by apply lookup_app_l_Some.
  - eapply coherent_same; [apply F|done].
Qed.

(** From the terminal's target on. *)
Lemma wp_open c g h w name target size attachId captured Q :
  admitted g name -> isCloneSession name = false ->
  target = (if gr_readOnly g then cloneNameFor (gr_id g) (connId c) else name) ->
  (gr_readOnly g = true -> locked_by h name (cloneNameFor (gr_id g) (connId c))) ->
  Idle c g w -> (forall h r w, At c w -> Q h r w) ->
  wp c h (r ← createPtyBridge tmuxSocket c name target size (gr_readOnly g) attachId captured;
    match (r : result string Bridge) with
    | Err err => _ ← destroy_clone_of tmuxSocket c; sendError c "PTY_SPAWN_FAILED" err
    | Ok bridge =>
        modify (fun w => on_conn c (fun rc => set_attached (Some name) size
                                      (set_pty (Some (length (bridges w))) rc))
                           (set_bridges (fun l => l ++ [bridge]) w))
    end) w Q.
Proof.
  intros A N T Lk I X. apply wp_bind. unfold createPtyBridge. apply wp_emit.
  { apply Forall_singleton. split; [done|]. intros rc E. destruct I as [_ (rc' & E' & G & _)].
    assert (rc_grant rc = g) as -> by congruence. exists name. split_and!; [done|done|].
    rewrite T. destruct (gr_readOnly g); [|done]. split; [done|]. by apply Lk. }
  intros [err|].
  - apply wp_bind, (keeps_destroy_clone c g); [done|]. intros h1 [[]|e] w1 I1; cbn [then_]; [|apply X, I1].
    apply (quiet_error (At c)); [apply I1|done].
  - destruct (install_inv c g name size attachId captured target w T I) as [F I'].
    cbn. split_and!; [exact F|constructor|by apply X].
Qed.

(** A viewer's target: its clone, made and locked by the calls just made. *)
Lemma wp_target c g h w name Q : Idle c g w ->
  (forall h t w', Idle c g w' -> t = (if gr_readOnly g then cloneNameFor (gr_id g) (connId c) else name) ->
     (gr_readOnly g = true -> locked_by h name (cloneNameFor (gr_id g) (connId c))) -> Q h (Ok (Some t)) w') ->
  (forall h w', Idle c g w' -> Q h (Ok None) w') ->
  wp c h (if gr_readOnly g
          then rescue (clone ← await (createReadOnlyClone tmuxSocket name (gr_id g) (connId c));
                       _ ← modify (on_conn c (set_clone (Some clone)));
                       Return (Some clone))
                 (fun _ => Return None)
          else Return (Some name)) w Q.
Proof.
  intros I X N. destruct (gr_readOnly g) eqn:R; [|cbn; by apply X].
  apply wp_rescue, wp_bind, wp_await; [apply _|apply rely_at|apply at_rely|apply I|].
  intros calls r w1 Rn Ry I1. assert (Idle c g w1) as I1' by (by eapply stable_idle).
  unfold createReadOnlyClone in Rn. apply locked_clone_cases in Rn; [|apply is_clone].
  destruct r as [clone|e]; cbn [then_].
  - destruct Rn as [([= ->] & E & A)|[(? & [=] & _)|(? & ? & ? & [=] & _)]].
    apply wp_bind. destruct (idle_update c g (set_clone (Some (cloneNameFor (gr_id g) (connId c)))) w1) as [F I2];
      [done|done|done|]. cbn. split_and!; [exact F|constructor|]. apply X; [done|done|]. intros _. by exists h, calls.
  - cbn. by apply N.
Qed.

Lemma keeps_capture c P (capture : bool) name : stable (At c) (Rely c) P ->
  keeps c P (if capture then rescue (x ← await (capturePane tmuxSocket name); Return (Some x)) (fun _ => Return None)
             else Return None).
Proof.
  intros S. destruct capture; [|apply quiet_return]. apply quiet_rescue.
  - apply quiet_bind; [by apply keeps_await|]. intros x. apply quiet_return.
  - intros _. apply quiet_return.
Qed.

Lemma wp_get {B} c h (k : World -> Route B) w Q : wp c h (k w) w Q -> wp c h (get ≫= k) w Q.
Proof. intros W. cbn. by split_and!. Qed.

Lemma wp_attach c h w name size capture attachId Q : At c w -> admitted (grant_of c w) name ->
  (forall h r w, At c w -> Q h r w) ->
  wp c h (session_attach tmuxSocket c name size capture attachId) w Q.
Proof.
  intros I A X. unfold session_attach. apply wp_letting_go; [done| |done].
  set (g := grant_of c w) in *. intros h1 w1 I1.
  assert (forall p : Route bool, keeps c (Idle c g) p -> forall k,
    (forall h w b, Idle c g w -> wp c h (k b) w Q) -> wp c h1 (p ≫= k) w1 Q) as Step.
  { intros p K k W. apply wp_bind, K; [done|]. intros h2 [b|e] w2 I2; cbn [then_]; [by apply W|apply X, I2]. }
  destruct (isCloneSession name) eqn:N.
  { cbn [mbind route_bind negb]. apply (quiet_error (At c)); [apply I1|done]. }
  apply Step; [apply keeps_await, stable_idle|]. intros h2 w2 [|] I2; cbn [negb];
    [|apply (quiet_error (At c)); [apply I2|done]].
  apply wp_bind, (keeps_capture c (Idle c g) capture name); [apply stable_idle|done|].
  intros h3 [captured|e] w3 I3; cbn [then_]; [|apply X, I3].
  apply wp_get. assert (grant_of c w3 = g) as -> by (destruct I3 as [_ (rc & E & <- & _)]; by apply grant_of_lookup).
  cbn zeta. apply wp_bind, wp_target; [done| |].
  - intros h4 t w4 I4 T Lk. cbn [then_]. by apply wp_open.
  - intros h4 w4 I4. cbn [then_]. apply (quiet_error (At c)); [apply I4|done].
Qed.

(** ** Every message *)

Lemma quiet_then {A B} c (p : Route A) (f : A -> Route B) : quiet c p -> (forall a, quiet c (f a)) -> quiet c (p ≫= f).
Proof. apply quiet_bind. Qed.
Lemma quiet_ret {A} c (a : A) : quiet c (Return a).
Proof. apply quiet_return. Qed.
Lemma quiet_emit1 c o : (forall h w, fits c h w o) -> quiet c (emit (fun _ => [o])).
Proof. intros F. apply keeps_emit. intros h w _. apply Forall_singleton, F. Qed.

Lemma quiet_zcache c z : quiet c (modify (set_zcache z)).
Proof. apply quiet_modify. intros w [[B C K] S]. split; [done|]. by split; [split|]. Qed.

Lemma quiet_with_Z c p : quiet c (with_Z tmuxSocket p).
Proof.
  apply quiet_then; [apply keeps_get|]. intros w. apply quiet_then; [apply quiet_call|]. intros z.
  apply quiet_then; [apply quiet_zcache|]. intros _. apply quiet_then; [apply quiet_call|]. intros _. apply quiet_ret.
Qed.

Lemma quiet_then_announce c p : quiet c (then_announce tmuxSocket c p).
Proof.
  apply quiet_then; [apply quiet_call|]. intros _. apply quiet_then; [apply quiet_still|]. intros s. apply quiet_announce.
Qed.

Lemma quiet_set_active c id : quiet c (set_active c id).
Proof. apply quiet_idle, idle_window. Qed.

Lemma quiet_resize c size : quiet c (terminal_resize c size).
Proof.
  apply quiet_then; [apply keeps_field|]. intros [b|]; [|apply quiet_error].
  apply quiet_then; [apply keeps_field|]. intros last. case_decide; [apply quiet_ret|].
  apply quiet_then; [apply quiet_idle, idle_size|]. intros _. by apply quiet_emit1.
Qed.

Lemma quiet_window_kill c id : quiet c (window_kill tmuxSocket c id).
Proof.
  apply quiet_then; [apply quiet_then_announce|]. intros windowId.
  apply quiet_then; [apply keeps_field|]. intros active. case_decide; [apply quiet_set_active|apply quiet_ret].
Qed.

Lemma quiet_detach c : quiet c (_ ← kill_pty c; _ ← modify (on_conn c (set_attached None None)); destroy_clone_of tmuxSocket c).
Proof.
  intros h w Q I X. apply wp_bind, wp_kill_pty; [done|]. intros w1 I1. cbn [then_].
  apply wp_bind, (keeps_idle c (grant_of c w) (set_attached None None)); [done|done|done|].
  intros h2 [[]|e] w2 I2; cbn [then_]; [|apply X, I2].
  apply (keeps_destroy_clone c (grant_of c w)); [done|]. intros h3 r w3 I3. apply X, I3.
Qed.

Lemma quiet_told c (m : Reply) (b : GrantRecord -> bool) : (forall h i rc, (i = c \/ b (rc_grant rc) = true) -> audience h c i rc m) ->
  quiet c (_ ← send c m; broadcast c (fun other => if b (rc_grant other) then Some m else None)).
Proof.
  intros A. apply quiet_then.
  - apply keeps_emit. intros h w _. apply to_conn_fits. intros rc _. apply A. by left.
  - intros _. apply quiet_broadcast. intros h w i rc m' _ _. destruct (b (rc_grant rc)) eqn:B; [|done].
    intros [= <-]. apply A. by right.
Qed.

Lemma quiet_not_attached c : quiet c (not_attached c).
Proof. apply quiet_error. Qed.

Create HintDb handlers.
Hint Resolve quiet_ret quiet_call quiet_not_attached quiet_error quiet_scroll quiet_still quiet_then_announce quiet_with_Z
  quiet_announce quiet_set_active quiet_panes quiet_list quiet_rename quiet_resize quiet_window_kill
  quiet_detach : handlers.

Ltac route :=
  lazymatch goal with
  | |- keeps ?c _ (attached_or ?c _) => apply quiet_attached_or; intros ?; route
  | |- keeps ?c _ (_ ≫= _) => apply quiet_then; [route|intros ?; route]
  | |- keeps ?c _ (send ?c _) => by apply quiet_send
  | |- keeps ?c _ (field ?c _) => apply keeps_field
  | |- keeps ?c _ (write_pty ?c _ _) => apply quiet_write; route
  | |- keeps ?c _ (emit _) => by apply quiet_emit1
  | |- keeps ?c _ (match ?x with _ => _ end) => destruct x; route
  | |- _ => solve [auto with handlers]
  end.

Definition is_attach (m : ClientMessage) : bool := match m with MSessionAttach _ _ _ _ => true | _ => false end.

Lemma quiet_dispatch c m : is_attach m = false -> quiet c (dispatch tmuxSocket tmuxDefaultShell c m).
Proof.
  intros A. destruct m; try discriminate A; cbn [dispatch on_terminal on_panes on_windows on_tmux];
    lazymatch goal with
    | |- keeps _ _ (sessionsVisibleTo _ _ ≫= _) => apply quiet_list
    | |- keeps _ _ (kill_pty _ ≫= _) => apply quiet_detach
    | |- keeps _ _ (await (createSession _ _ _ _ _) ≫= _) => idtac
    | |- keeps _ _ (await (killSession _ _) ≫= _) => idtac
    | |- _ => route
    end.
  - apply quiet_then; [apply quiet_call|]. intros made. apply quiet_then; [apply keeps_get|]. intros w.
    apply (quiet_told c _ (fun g => canSee g (si_name (made (clock w))))). by intros h i rc O.
  - apply quiet_then; [apply quiet_call|]. intros _. apply (quiet_told c _ (fun g => canSee g name)). by intros h i rc O.
Qed.

Lemma admitted_by tmux now g att name size capture attachId :
  enforce tmux now (mkCtx g att None) (gate_fields (MSessionAttach name size capture attachId)) = Ok tt -> admitted g name.
Proof.
  intros E. apply enforce_permitted in E as (p & Ep & [Ac Rc _ _ _ _ Sc _]). vm_compute in Ep. injection Ep as <-.
  exists tmux, now. split_and!; [exact Ac| |by apply (Sc arg_name name)].
  destruct (isRecordingsGrant g) eqn:R; [|done]. specialize (Rc R). cbn in Rc. set_solver.
Qed.

Lemma wp_route c m h w : At c w -> wp c h (routeMessage tmuxSocket tmuxDefaultShell c m) w (fun _ _ w => At c w).
Proof.
  intros I. unfold routeMessage. apply wp_get. cbn. split; [done|]. intros tmux w' R.
  assert (At c w') as I' by (by eapply rely_at).
  assert (grant_of c w' = grant_of c w) as G.
  { destruct I as [_ [rc E]], R as [_ R]. destruct (R rc E) as (rc' & E' & Gr & _).
    by rewrite (grant_of_lookup _ _ _ E), (grant_of_lookup _ _ _ E'). }
  destruct (enforce tmux _ _ _) as [[]|[code message]] eqn:V; [|by apply (quiet_error (At c))].
  apply wp_rescue. destruct (is_attach m) eqn:A.
  - destruct m; try discriminate A. cbn [dispatch]. apply wp_attach; [done| |].
    + rewrite G. by eapply admitted_by.
    + intros h1 [[]|e] w1 I1; [done|]. by apply (quiet_error (At c)).
  - apply (quiet_dispatch c m A); [done|]. intros h1 [[]|e] w1 I1; [done|]. by apply (quiet_error (At c)).
Qed.

(** ** Removals *)

Lemma wp0_kill_pty c h w Q : At c w -> (forall w', At c w' -> Q h (Ok tt) w') -> wp0 c h (kill_pty c) w Q.
Proof.
  intros [I [rc E]] X. unfold kill_pty. apply wp_bind. cbn. split_and!; [done|constructor|].
  rewrite E. cbn. destruct (rc_pty rc) as [b|] eqn:P; cbn; [|by apply X].
  split_and!.
  - split; [split; [done|by intros]|]. cbn. congruence.
  - apply Forall_singleton. by exists b.
  - split; [apply (frame_conn c (set_pty None) (on_bridge b set_killed w)); done|].
    intros r r' Er Er' _. rewrite conn_alter, decide_True, Er in Er' by done. by injection Er' as <-.
  - constructor.
  - apply X. split; [by eapply drop_both|]. rewrite conn_alter, decide_True by done. cbn. rewrite E. by eexists.
Qed.

Lemma wp_removal c h w : At c w -> wp0 c h (removeConnection tmuxSocket c) w (fun _ _ w => At c w).
Proof.
  intros I. assert (stable (At c) (Rely0 c) (At c)) as S0 by (split; [done|intros ? ?; apply rely0_at]).
  assert (hush c
    (_ ← destroy_clone_of tmuxSocket c; modify (on_conn c (set_live false)))) as T.
  { assert (forall f, idle_field f -> hush c (modify (on_conn c f))) as M.
    { intros f F. apply quiet_modify. intros w1 I1. assert (frame c w1 (on_conn c f w1)) as Fr.
      { apply frame_conn. intros rc. apply F. }
      split; [split; [done|]|eapply at_same; [|apply Fr|done]; apply winv_idle; [done|apply I1]].
      intros rc rc' E E' N. rewrite conn_alter, decide_True, E in E' by done. injection E' as <-.
      destruct (F rc) as (_ & -> & _). done. }
    apply quiet_bind; [|intros _; by apply M].
    apply quiet_bind; [by apply (quiet_field (At c) (shrinks c) (Rely0 c) silent)|].
    intros [name|]; [|apply quiet_return]. apply quiet_bind; [|intros _; by apply M].
    by apply (quiet_await (At c) (shrinks c) (Rely0 c) silent (rely0_at c) (at_rely0 c)). }
  unfold removeConnection. apply wp_bind, wp0_kill_pty; [done|]. intros w1 I1. by apply T.
Qed.

(** ** What the bridges do *)

(** The world moves on by itself: no grant changes, no terminal comes. *)
Definition drifts (w w' : World) : Prop :=
  WInv w' /\ same_grants w w' /\
  forall i rc rc', conns w !! i = Some rc -> conns w' !! i = Some rc' -> rc_pty rc = None -> rc_pty rc' = None.

Lemma drifts_rely c w w' : drifts w w' -> Rely c w w'.
Proof.
  intros (I & G & P). split; [done|]. intros rc E. destruct (same_grants_lookup _ _ _ _ G E) as (rc' & E' & Eg).
  exists rc'. split_and!; [done|done|]. by eapply P.
Qed.

Lemma drifts_bridge b g w : WInv (on_bridge b g w) -> drifts w (on_bridge b g w).
Proof. intros I. split_and!; [done|done|]. cbn. congruence. Qed.

Lemma drifts_refl w : WInv w -> drifts w w.
Proof. intros I. split_and!; [done|done|congruence]. Qed.

Lemma drifts_trans w1 w2 w3 : drifts w1 w2 -> drifts w2 w3 -> drifts w1 w3.
Proof.
  intros (I1 & G1 & P1) (I2 & G2 & P2). split_and!; [done|unfold same_grants in *; congruence|].
  intros i rc rc' E E' N. destruct (same_grants_lookup _ _ _ _ G1 E) as (rc2 & E2 & _). eauto.
Qed.

Lemma winv_ready b fired timer w : WInv w -> WInv (on_bridge b (set_ready fired timer) w).
Proof. intros I. apply winv_bridge; [done|done|]. intros br rc _ _ [O1 O2 O3 O4]. by split. Qed.

Lemma owns_true w br b : owns w br b = true <-> exists rc, conns w !! br_conn br = Some rc /\ rc_pty rc = Some b.
Proof.
  unfold owns. rewrite bool_decide_eq_true. split.
  - intros E. destruct (conns w !! br_conn br) as [rc|]; [by exists rc|done].
  - intros (rc & -> & P). done.
Qed.

Lemma drifts_ready b br timer w : WInv w -> drifts w (fireReady b br timer w).1.
Proof.
  intros I. unfold fireReady. destruct (br_spawnError br); [|destruct (br_readyFired br)];
    by apply drifts_bridge, winv_ready.
Qed.

Lemma winv_pause b paused timer w : WInv w ->
  (forall br rc, bridges w !! b = Some br -> conns w !! br_conn br = Some rc -> rc_pty rc = Some b -> paused = true -> timer = true) ->
  WInv (on_bridge b (set_pause paused timer) w).
Proof.
  intros I X. apply winv_bridge; [done|done|]. intros br rc Eb Ec [O1 O2 O3 O4]. split; [|done|done|done].
  intros P. destruct (O1 P) as (? & ? & ? & ? & ? & ?). split_and!; try done. intros Q. by eapply X.
Qed.

Lemma drifts_output b br data buffered w : WInv w -> (exists br', bridges w !! b = Some br' /\ br_conn br' = br_conn br) ->
  drifts w (on_output b br data buffered w).1.
Proof.
  intros I (br' & Eb & Ec). unfold on_output. destruct (owns w br b) eqn:Ow; cbn [negb].
  - case_match; cbn [fst]; [|by apply drifts_refl]. by apply drifts_bridge, winv_pause.
  - apply drifts_bridge, winv_pause; [done|]. intros b1 rc E1 E2 P. exfalso.
    assert (b1 = br') as -> by congruence. rewrite Ec in E2.
    assert (owns w br b = true) by (apply owns_true; by exists rc). congruence.
Qed.

Lemma drifts_data b data buffered w : WInv w -> drifts w (pty_data b data buffered w).1.
Proof.
  intros I. unfold pty_data. destruct (bridges w !! b) as [br|] eqn:E; [|by apply drifts_refl]. cbn [fst].
  assert (drifts w (if br_readyFired br then (w, []) else fireReady b br false w).1) as D.
  { destruct (br_readyFired br); [by apply drifts_refl|by apply drifts_ready]. }
  eapply drifts_trans; [exact D|]. apply drifts_output; [apply D|].
  destruct (br_readyFired br); [by exists br|]. unfold fireReady.
  destruct (br_spawnError br); [|destruct (br_readyFired br)]; cbn [fst];
    rewrite bridge_alter, decide_True, E by done; by eexists.
Qed.

Lemma drifts_timeout b w : WInv w -> drifts w (ready_timeout b w).1.
Proof.
  intros I. unfold ready_timeout. destruct (bridges w !! b); [|by apply drifts_refl].
  case_match; [by apply drifts_ready|by apply drifts_refl].
Qed.

Lemma drifts_tick b buffered w : WInv w -> drifts w (drain_tick b buffered w).1.
Proof.
  intros I. unfold drain_tick. destruct (bridges w !! b) as [br|] eqn:E; [|by apply drifts_refl].
  destruct (br_drainTimer br); cbn [negb]; [|by apply drifts_refl]. destruct (owns w br b) eqn:Ow; cbn [negb].
  - case_match; [by apply drifts_bridge, winv_pause|by apply drifts_refl].
  - apply drifts_bridge, winv_pause; [done|]. intros b1 rc E1 E2 P. exfalso. assert (b1 = br) as -> by congruence.
    assert (owns w br b = true) by (apply owns_true; by exists rc). congruence.
Qed.

(** A bridge that exits is let go of, if it was its connection's. *)
Lemma winv_exit b br err w : WInv w -> bridges w !! b = Some br -> owns w br b = false ->
  drifts w (on_bridge b (set_exited err) w).
Proof.
  intros I E Ow. apply drifts_bridge, winv_bridge; [done|done|]. intros b1 rc E1 E2 [O1 O2 O3 O4].
  assert (b1 = br) as -> by congruence. split; [|by right; right|done|done]. intros P. exfalso.
  assert (owns w br b = true) by (apply owns_true; by exists rc). congruence.
Qed.

Lemma drifts_release b br err w : WInv w -> bridges w !! b = Some br -> drifts w (release b br (on_bridge b (set_exited err) w)).
Proof.
  intros I E. unfold release. change (owns (on_bridge b (set_exited err) w) br b) with (owns w br b).
  destruct (owns w br b) eqn:Ow; [|by eapply winv_exit]. apply owns_true in Ow as (rc & Ec & P).
  split_and!.
  - eapply winv_both; [done|exact E|done|done|done|done|]. intros rc' E'. assert (rc' = rc) as -> by congruence.
    split; [done|]. intros [O1 O2 O3 O4]. by split; [|right; right| |].
  - by apply (grants_alter (br_conn br) drop_pty (on_bridge b (set_exited err) w)).
  - intros i r r' E1 E2 N. rewrite conn_alter in E2. cbn in E2. rewrite E1 in E2.
    destruct (decide (i = br_conn br)); injection E2 as <-; done.
Qed.

Lemma owned_ok w b br : WInv w -> bridges w !! b = Some br -> owns w br b = true ->
  br_killed br = false /\ br_detaching br = false /\ br_exited br = false /\ br_spawnError br = None.
Proof.
  intros [B _ _] E (rc & Ec & P)%owns_true. destruct (B b br E) as (rc' & Ec' & O). assert (rc' = rc) as -> by congruence.
  destruct (bo_current _ _ _ O P) as (? & ? & ? & ? & _). done.
Qed.

Lemma drifts_exit b exitCode w : WInv w -> drifts w (pty_exit b exitCode w).1.
Proof.
  intros I. unfold pty_exit. destruct (bridges w !! b) as [br|] eqn:E; [|by apply drifts_refl].
  destruct (br_exited br); [by apply drifts_refl|].
  destruct (owns w br b) eqn:Ow.
  - destruct (owned_ok w b br I E Ow) as (_ & D & _ & Sp). rewrite D, Sp. cbn [negb andb].
    destruct (br_readyFired br); by apply drifts_release.
  - repeat case_match; cbn [fst]; by (eapply winv_exit || apply drifts_release).
Qed.
End Safety.
