(* ===== verification/RouterSystem.v ===== *)
(** * RouterSystem: the router's theorems, over whole runs

    RouterSafety's rules carried through every event of a run: what holds of
    each reachable state ([sound]) and of each output with the outputs before
    it ([due]), and the theorems they give. *)

From stdpp Require Import pretty.
From S2P Require Import Prelude Grants Policy Tmux TmuxSafety Router RouterSafety.
#[local] Open Scope string_scope.
#[local] Open Scope list_scope.
#[local] Open Scope Z_scope.

Section Runs.
Context (tmuxSocket tmuxDefaultShell : string).
(** The scope a grant id stands for: a grant is minted once, and shared as it is. *)
Context (scope_of : string -> GrantScope).

Notation step := (step tmuxSocket tmuxDefaultShell).
Notation run := (run tmuxSocket tmuxDefaultShell).
Notation fits := (fits tmuxSocket).
Notation wp c := (RouterSafety.wp (At c) (frame c) (Rely c) (fits c)).
Notation wp0 c := (RouterSafety.wp (At c) (shrinks c) (Rely0 c) silent).

Definition honest (e : REvent) : Prop :=
  match e with Joined g => gr_scope g = scope_of (gr_id g) | _ => True end.

(** What [c]'s handlers asked tmux, and were answered. *)
Definition calls_of (c : nat) (t : list Output) : History :=
  omap (fun o => match o with OCalled c' argv ans => if decide (c' = c) then Some (argv, ans) else None | _ => None end) t.

(** A handler in progress stands at an await. *)
Definition stands (p : Route unit) : bool :=
  match p with Call _ _ | Judge _ _ _ _ => true | _ => false end.

Record sound (t : list Output) (s : System) : Prop := {
  so_world : WInv (sy_world s);
  so_scope : forall c rc, conns (sy_world s) !! c = Some rc -> gr_scope (rc_grant rc) = scope_of (gr_id (rc_grant rc));
  so_lines : length (sy_lines s) = length (conns (sy_world s));
  so_task : forall c l p, sy_lines s !! c = Some l -> ln_task l = Some p ->
    stands p = true /\ wp c (calls_of c t) p (sy_world s) (fun _ _ w => At c w);
  so_queue : forall c l, sy_lines s !! c = Some l -> ln_task l = None -> ln_queue l = [];
  so_removal : forall i c p, sy_removals s !! i = Some (c, p) ->
    waits p = true /\ is_Some (conns (sy_world s) !! c) /\ wp0 c [] p (sy_world s) (fun _ _ w => At c w);
}.

(** The connection an event is of: whose handler goes on, whose bridge moves. *)
Definition speaker (s : System) (e : REvent) : option nat :=
  match e with
  | Received c _ | Answered c _ _ | Judged c _ => Some c
  | PtyData b _ _ | ReadyTimeout b | PtyExit b _ | DrainTick b _ => br_conn <$> bridges (sy_world s) !! b
  | _ => None
  end.

(** What a step of [sp] in [s], after the outputs [t], may put out. *)
Definition due (sp : option nat) (t : list Output) (s : System) (o : Output) : Prop :=
  match o with
  | OSend c' m => forall rc', conns (sy_world s) !! c' = Some rc' ->
      exists c, sp = Some c /\ audience tmuxSocket (calls_of c t) c c' rc' m
  | OSpawn c argv _ => sp = Some c /\ exists rc, conns (sy_world s) !! c = Some rc /\
      spawn_ok tmuxSocket (calls_of c t) c (rc_grant rc) argv
  | _ => True
  end.

Definition dues (sp : option nat) (t : list Output) (s : System) (o : list Output) : Prop :=
  forall o1 x o2, o = o1 ++ x :: o2 -> due sp (t ++ o1) s x.

(** ** Outputs *)

Definition no_calls (o : list Output) : Prop := forall c argv ans, OCalled c argv ans ∉ o.

Lemma calls_of_app c t o : calls_of c (t ++ o) = calls_of c t ++ calls_of c o.
Proof. apply omap_app. Qed.

Lemma calls_none c o : no_calls o -> calls_of c o = [].
Proof.
  intros N. unfold calls_of. induction o as [|x o IH]; [done|].
  assert (no_calls o) as N' by (intros c' a r M; eapply N, elem_of_cons; by right).
  cbn. destruct x; try by apply IH. exfalso. eapply N, elem_of_cons. by left.
Qed.

Lemma no_calls_app o1 o2 : no_calls (o1 ++ o2) <-> no_calls o1 /\ no_calls o2.
Proof.
  unfold no_calls. split.
  - intros N. split; intros c a r M; eapply N, elem_of_app; eauto.
  - intros [N1 N2] c a r [M|M]%elem_of_app; [by eapply N1|by eapply N2].
Qed.

Lemma dues_nil sp t s : dues sp t s [].
Proof. intros o1 x o2 E. by destruct o1. Qed.

(** The reader of a message sees the same before the step as at its sending. *)
Lemma audience_frame h c c' w w1 rc rc1 m : frame c w w1 -> conns w !! c' = Some rc -> conns w1 !! c' = Some rc1 ->
  audience tmuxSocket h c c' rc1 m -> audience tmuxSocket h c c' rc m.
Proof.
  intros [G F] E E1. destruct (decide (c' = c)) as [->|N].
  - destruct (same_grants_lookup _ _ _ _ G E) as (rc2 & E2 & Eg). assert (rc2 = rc1) as -> by congruence.
    destruct m; cbn; try done; try (by left). by rewrite Eg.
  - rewrite F in E1 by done. by assert (rc1 = rc) as -> by congruence.
Qed.

Lemma fits_no_calls c h w w' o : (forall x, x ∈ o -> exists w1, frame c w w1 /\ fits c h w1 x) -> w' = w -> no_calls o.
Proof. intros F _ c' a r M. by destruct (F _ M) as (w1 & _ & []). Qed.

Lemma fits_dues c t s w o : sy_world s = w -> is_Some (conns w !! c) ->
  (forall x, x ∈ o -> exists w1, frame c w w1 /\ fits c (calls_of c t) w1 x) -> dues (Some c) t s o.
Proof.
  intros <- [rc0 E0] F o1 x o2 ->. assert (x ∈ o1 ++ x :: o2) as M by set_solver.
  assert (no_calls (o1 ++ x :: o2)) as N by (by eapply fits_no_calls). apply no_calls_app in N as [N _].
  destruct (F x M) as (w1 & Fr & X). unfold due. rewrite <- (app_nil_r (calls_of c t)) in X.
  destruct x as [c' m|c' argv sz| | | | | | |]; try done.
  - intros rc' E. destruct (same_grants_lookup _ _ _ _ (proj1 Fr) E) as (rc1 & E1 & _).
    exists c. split; [done|]. eapply audience_frame; [exact Fr|exact E|exact E1|].
    rewrite calls_of_app, (calls_none c o1) by done. by apply X.
  - destruct X as [-> X]. split; [done|]. exists rc0. split; [done|].
    destruct (same_grants_lookup _ _ _ _ (proj1 Fr) E0) as (rc1 & E1 & <-). rewrite calls_of_app, (calls_none c o1) by done. by apply X.
Qed.

(** ** A handler goes on *)

Lemma wp_at {A} c h (p : Route A) w : waits p = true -> wp c h p w (fun _ _ w => At c w) -> At c w.
Proof. destruct p; cbn; try done; by intros _ [? _]. Qed.

Lemma frame_rely c c2 w w' : c2 <> c -> WInv w' -> frame c w w' -> Rely c2 w w'.
Proof. intros N I [G F]. split; [done|]. intros rc E. exists rc. by rewrite F. Qed.

Lemma grants_some w w' c : same_grants w w' -> is_Some (conns w !! c) -> is_Some (conns w' !! c).
Proof. intros G [rc E]. destruct (same_grants_lookup _ _ _ _ G E) as (rc' & E' & _). by exists rc'. Qed.

Lemma grants_length w w' : same_grants w w' -> length (conns w') = length (conns w).
Proof. intros G. by rewrite <- (length_fmap rc_grant (conns w')), G, length_fmap. Qed.

Lemma stands_waits p : stands p = true -> waits p = true.
Proof. by destruct p. Qed.

(** Everything that waits may be left waiting while the world moves on. *)
Lemma sound_drift t t' s w' : sound t s -> same_grants (sy_world s) w' -> WInv w' ->
  (forall c l p, sy_lines s !! c = Some l -> ln_task l = Some p -> Rely c (sy_world s) w' /\ calls_of c t' = calls_of c t) ->
  sound t' (set_world w' s).
Proof.
  intros [W Sc L T Qu R] G I X. split; cbn.
  - done.
  - intros c rc E. assert (same_grants w' (sy_world s)) as G' by (by symmetry).
    destruct (same_grants_lookup _ _ _ _ G' E) as (rc' & E' & <-). by eapply Sc.
  - by rewrite L, (grants_length _ _ G).
  - intros c l p El Ep. destruct (T c l p El Ep) as [N P]. destruct (X c l p El Ep) as [Ry ->]. split; [done|].
    eapply (wp_stable (At c) (frame c) (Rely c) (fits c) (rely_at c)); [by apply stands_waits|exact Ry| |exact P].
    intros _ _. by apply rely_at.
  - done.
  - intros i c p E. destruct (R i c p E) as (N & S & P). split_and!; [done|by eapply grants_some|].
    assert (Rely0 c (sy_world s) w') as Ry by (split; [done|by apply grants_some]).
    eapply (wp_stable (At c) (shrinks c) (Rely0 c) silent (rely0_at c)); [done|exact Ry| |exact P]. intros _ _. by apply rely0_at.
Qed.

Lemma line_alter c f i s : sy_lines (set_line c f s) !! i = if decide (i = c) then f <$> sy_lines s !! i else sy_lines s !! i.
Proof.
  cbn. destruct (decide (i = c)) as [->|N]; [apply list_lookup_alter_eq|by apply list_lookup_alter_ne].
Qed.

(** A line changes: its task is as it was, or one that may wait. *)
Lemma sound_line t c f s : sound t s ->
  (forall l p, sy_lines s !! c = Some l -> ln_task (f l) = Some p -> ln_task l = Some p \/
     (stands p = true /\ wp c (calls_of c t) p (sy_world s) (fun _ _ w => At c w))) ->
  (forall l, sy_lines s !! c = Some l -> ln_task (f l) = None -> ln_queue (f l) = []) ->
  sound t (set_line c f s).
Proof.
  intros [W Sc L T Qu R] X Y. split; [done|done| | | |done].
  - cbn. by rewrite length_alter.
  - intros i l p E P. rewrite line_alter in E. destruct (decide (i = c)) as [->|N]; [|by eapply T].
    destruct (sy_lines s !! c) as [l0|] eqn:E0; [|done]. injection E as <-.
    destruct (X l0 p eq_refl P) as [P'|P']; [by eapply T|done].
  - intros i l E. rewrite line_alter in E. destruct (decide (i = c)) as [->|N]; [|by eapply Qu].
    destruct (sy_lines s !! c) as [l0|] eqn:E0; [|done]. injection E as <-. by apply Y.
Qed.

Lemma set_line_twice c f g w s : (forall l, g (f l) = g l) ->
  set_line c g (set_world w (set_line c f s)) = set_line c g (set_world w s).
Proof.
  intros E. unfold set_line, set_world. cbn. f_equal. rewrite list_alter_alter_eq.
  apply list_alter_ext; [|done]. intros l _. apply E.
Qed.

(** The start of a handler says nothing and changes nothing: it asks the gate. *)
Lemma route_starts sp c m w : exists p, settle sp (routeMessage tmuxSocket tmuxDefaultShell c m) w = (w, [], p) /\ waits p = true.
Proof. by eexists. Qed.

Lemma next_task_ok c h p q w : waits p = true -> wp c h p w (fun _ _ w => At c w) ->
  forall p', (next_task tmuxSocket tmuxDefaultShell c p q w).1 = Some p' ->
  stands p' = true /\ wp c h p' w (fun _ _ w => At c w).
Proof.
  intros N W p'.
  assert (forall m, settle None (routeMessage tmuxSocket tmuxDefaultShell c m) w =
    (w, [], (settle None (routeMessage tmuxSocket tmuxDefaultShell c m) w).2)) as St by done.
  assert (At c w) as I by by eapply wp_at.
  assert (forall m, let p2 := (settle None (routeMessage tmuxSocket tmuxDefaultShell c m) w).2 in
    stands p2 = true /\ wp c h p2 w (fun _ _ w => At c w)) as Nx.
  { intros m. split; [done|].
    destruct (wp_settle (At c) (frame c) (Rely c) (fits c) None h _ w _ (wp_route tmuxSocket tmuxDefaultShell c m h w I)) as (_ & _ & W').
    by rewrite St in W'. }
  destruct p; try done; cbn [next_task].
  - destruct q as [|m q]; [done|]. intros [= <-]. apply Nx.
  - destruct q as [|m q]; [done|]. intros [= <-]. apply Nx.
  - by intros [= <-].
  - by intros [= <-].
Qed.

Lemma line_conn t s c l : sound t s -> sy_lines s !! c = Some l -> At c (sy_world s).
Proof.
  intros S E. split; [apply S|]. apply lookup_lt_is_Some. rewrite <- (so_lines _ _ S). by eapply lookup_lt_Some.
Qed.

Lemma next_task_queue c p q w : (next_task tmuxSocket tmuxDefaultShell c p q w).1 = None ->
  (next_task tmuxSocket tmuxDefaultShell c p q w).2 = [].
Proof. by destruct p, q. Qed.

Lemma sound_proceed t t' s c l sp p q : sound t s -> sy_lines s !! c = Some l ->
  (forall c2, c2 <> c -> calls_of c2 t' = calls_of c2 t) ->
  wp c (calls_of c t') p (sy_world s) (fun _ _ w => At c w) ->
  let r := proceed tmuxSocket tmuxDefaultShell c sp p q s in
  sound (t' ++ r.2) r.1 /\ dues (Some c) t' s r.2.
Proof.
  intros S El C W. unfold proceed. pose proof (proj2 (line_conn t s c l S El)) as Sm.
  destruct (wp_settle (At c) (frame c) (Rely c) (fits c) sp _ _ _ _ W) as (F & Os & W').
  pose proof (settle_waits sp p (sy_world s)) as N.
  destruct (settle sp p (sy_world s)) as [[w' o] p'] eqn:E. cbn [fst snd] in *.
  assert (At c w') as I by by eapply wp_at.
  assert (no_calls o) as Nc by (by eapply fits_no_calls).
  split; [|by eapply fits_dues].
  destruct (next_task tmuxSocket tmuxDefaultShell c p' q w') as [tk q'] eqn:Nt. cbn [fst snd].
  rewrite <- (set_line_twice c (with_task None [])) by done.
  assert (sound t (set_line c (with_task None []) s)) as S0 by (by apply sound_line).
  apply sound_line.
  - eapply sound_drift; [exact S0|apply F|apply I|]. intros c2 l2 p2 E2 P2. rewrite line_alter in E2.
    destruct (decide (c2 = c)) as [->|Ne]; [rewrite El in E2; by injection E2 as <-|].
    split; [apply (frame_rely c); [done|apply I|done]|].
    by rewrite calls_of_app, (calls_none c2 o), app_nil_r, C.
  - intros l1 p1 _ P1. right. rewrite calls_of_app, (calls_none c o), app_nil_r by done.
    eapply (next_task_ok c _ p' q w'); [done|done|]. by rewrite Nt.
  - intros l1 _ E1. cbn in E1 |- *. subst. pose proof (next_task_queue c p' q w') as X. rewrite Nt in X. by apply X.
Qed.

(** ** The other events *)

Definition passive (sp : option nat) (o : Output) : Prop :=
  match o with
  | OSend c m => sp = Some c /\ private tmuxSocket m
  | OKill _ | OPause _ | OResume _ => True
  | _ => False
  end.

Lemma passive_dues sp t s o : Forall (passive sp) o -> dues sp t s o.
Proof.
  intros F o1 x o2 ->. apply Forall_app in F as [_ [P _]%Forall_cons]. destruct x; try done.
  destruct P as [-> P]. intros rc _. eexists. split; [done|apply P].
Qed.

Lemma passive_calls sp o : Forall (passive sp) o -> no_calls o.
Proof. intros F c a r M. rewrite Forall_forall in F. by specialize (F _ M). Qed.

Lemma to_conn_passive c m w : private tmuxSocket m -> Forall (passive (Some c)) (to_conn c m w).
Proof. intros P. unfold to_conn. repeat case_match; by repeat constructor. Qed.

(** The world drifts, and only owners are told. *)
Lemma sound_drifts sp t s r : sound t s -> drifts (sy_world s) r.1 -> Forall (passive sp) r.2 ->
  sound (t ++ r.2) (on_world r s).1 /\ dues sp t s (on_world r s).2.
Proof.
  intros S D P. split; [|by apply passive_dues]. eapply sound_drift; [exact S|apply D|apply D|].
  intros c l p _ _. split; [by apply drifts_rely|].
  by rewrite calls_of_app, (calls_none c r.2), app_nil_r by by eapply passive_calls.
Qed.

Lemma ready_passive b br timer w : Forall (passive (Some (br_conn br))) (fireReady b br timer w).2.
Proof.
  unfold fireReady. destruct (br_spawnError br); [constructor|]. destruct (br_readyFired br); [constructor|].
  cbn [snd]. unfold on_ready. apply Forall_app. split; [by apply to_conn_passive|].
  destruct (br_captured br) as [[|x l]|]; [constructor| |constructor]. by apply to_conn_passive.
Qed.

Lemma data_passive b data buffered w : Forall (passive (br_conn <$> bridges w !! b)) (pty_data b data buffered w).2.
Proof.
  unfold pty_data. case_match; [|constructor]. cbn [snd]. apply Forall_app. split.
  - case_match; [constructor|apply ready_passive].
  - unfold on_output. repeat case_match; cbn [fst snd]; try (by constructor); try (by apply to_conn_passive);
      apply Forall_app; (split; [by apply to_conn_passive|by repeat constructor]).
Qed.

Lemma exit_passive b exitCode w : Forall (passive (br_conn <$> bridges w !! b)) (pty_exit b exitCode w).2.
Proof. unfold pty_exit. repeat case_match; cbn [snd]; try (by constructor); by apply to_conn_passive. Qed.

Lemma timeout_passive b w : Forall (passive (br_conn <$> bridges w !! b)) (ready_timeout b w).2.
Proof.
  unfold ready_timeout. destruct (bridges w !! b); [|constructor]. case_match; [apply ready_passive|constructor].
Qed.

Lemma tick_passive b buffered w : Forall (passive (br_conn <$> bridges w !! b)) (drain_tick b buffered w).2.
Proof. unfold drain_tick. repeat case_match; cbn [snd]; by repeat constructor. Qed.

Lemma drifts_idle c f w : idle_field f -> WInv w -> drifts w (on_conn c f w).
Proof.
  intros F I. split_and!; [by apply winv_idle|apply grants_alter; intros rc; apply F|].
  intros i rc rc' E E' N. rewrite conn_alter, E in E'. destruct (decide (i = c)); [|congruence].
  injection E' as <-. destruct (F rc) as (_ & -> & _). done.
Qed.

Lemma drifts_clock now w : WInv w -> drifts w (set_clock now w).
Proof. intros [B C K]. split_and!; [by split|done|]. cbn. congruence. Qed.

Lemma sound_idle t s c f : idle_field f -> sound t s -> sound t (set_world (on_conn c f (sy_world s)) s).
Proof.
  intros F S. rewrite <- (app_nil_r t).
  apply (sound_drifts None t s (on_conn c f (sy_world s), []) S); [|constructor]. by apply drifts_idle; [|apply S].
Qed.

(** ** Joining and leaving *)

Lemma sound_join t s g : sound t s -> gr_scope g = scope_of (gr_id g) -> sound t (step (Joined g) s).1.
Proof.
  intros [W Sc L T Qu R] G. cbn. set (rc0 := mkRConn g true true None None None None None). set (w' := set_conns _ _).
  assert (forall c rc, conns w' !! c = Some rc -> conns (sy_world s) !! c = Some rc \/ rc = rc0) as Lk.
  { intros c rc E. apply lookup_app_Some in E as [E|[_ E]]; [by left|right].
    by apply list_lookup_singleton_Some in E as [_ <-]. }
  assert (forall c rc, conns (sy_world s) !! c = Some rc -> conns w' !! c = Some rc) as Kp
    by (intros c rc E; by apply lookup_app_l_Some).
  assert (forall c rc, conns w' !! c = Some rc -> gr_scope (rc_grant rc) = scope_of (gr_id (rc_grant rc))) as Sc'.
  { intros c rc E. destruct (Lk c rc E) as [E'| ->]; [by eapply Sc|done]. }
  assert (WInv w') as W'.
  { destruct W as [B C K]. split.
    - intros b br E. destruct (B b br E) as (rc & Ec & O). exists rc. eauto.
    - intros c rc b E P. destruct (Lk c rc E) as [E'| ->]; [by eapply C|done].
    - intros i j ci cj Ei Ej Eq. by rewrite (Sc' i ci), (Sc' j cj), Eq. }
  split; cbn [sy_world sy_lines sy_removals].
  - done.
  - done.
  - rewrite length_app, L. cbn. by rewrite length_app.
  - intros c l p E P. apply lookup_app_Some in E as [E|[_ E]].
    + destruct (T c l p E P) as [N X]. split; [done|].
      assert (Rely c (sy_world s) w') as Ry by (split; [done|]; intros rc Ec; exists rc; eauto).
      eapply (wp_stable (At c) (frame c) (Rely c) (fits c) (rely_at c)); [by apply stands_waits|exact Ry| |exact X].
      intros _ _. by apply rely_at.
    + by apply list_lookup_singleton_Some in E as [_ <-].
  - intros c l E P. apply lookup_app_Some in E as [E|[_ E]]; [by eapply Qu|].
    by apply list_lookup_singleton_Some in E as [_ <-].
  - intros i c p E. destruct (R i c p E) as (N & [rc Ec] & X). split_and!; [done|by eauto|].
    assert (Rely0 c (sy_world s) w') as Ry by (split; [done|]; intros [r Er]; eauto).
    eapply (wp_stable (At c) (shrinks c) (Rely0 c) silent (rely0_at c)); [done|exact Ry| |exact X]. intros _ _. by apply rely0_at.
Qed.

Lemma shrinks_rely c c2 w w' : WInv w' -> shrinks c w w' -> Rely c2 w w'.
Proof.
  intros I [[G F] P]. split; [done|]. intros rc E. destruct (same_grants_lookup _ _ _ _ G E) as (rc' & E' & Eg).
  exists rc'. split_and!; [done|done|]. destruct (decide (c2 = c)) as [->|N]; [by eapply P|].
  rewrite F, E in E' by done. by injection E' as <-.
Qed.

Lemma sound_put t s rs : sound t s ->
  (forall i c p, rs !! i = Some (c, p) -> (exists j, sy_removals s !! j = Some (c, p)) \/
     (waits p = true /\ is_Some (conns (sy_world s) !! c) /\ wp0 c [] p (sy_world s) (fun _ _ w => At c w))) ->
  sound t (mkSystem (sy_world s) (sy_lines s) rs).
Proof.
  intros [W Sc L T Qu R] X. split; [done..|]. intros i c p E. destruct (X i c p E) as [[j Ej]|]; [by eapply R|done].
Qed.

(** A removal's history is its own: it is not told apart. *)
Lemma wp0_any {A} c h h' (p : Route A) w : wp0 c h p w (fun _ _ w => At c w) -> wp0 c h' p w (fun _ _ w => At c w).
Proof.
  revert h h' w. induction p as [a|e|f k IH|argv size k IH|argv k IH|now ctx msg k IH]; intros h h' w; cbn; try done.
  - intros (R & F & W). split_and!; [done|exact F|eauto].
  - eauto.
  - intros [I W]. eauto.
  - intros [I W]. eauto.
Qed.

Lemma sound_removal t s c p rs : sound t s -> is_Some (conns (sy_world s) !! c) ->
  wp0 c [] p (sy_world s) (fun _ _ w => At c w) ->
  (forall q i c' p', rs q !! i = Some (c', p') -> (c', p') = (c, q) \/ exists j, sy_removals s !! j = Some (c', p')) ->
  let r := removal_goes c p (fun q s => mkSystem (sy_world s) (sy_lines s) (rs q)) s in
  sound (t ++ r.2) r.1 /\ Forall (passive None) r.2.
Proof.
  intros S Sm W X. unfold removal_goes.
  destruct (wp_settle (At c) (shrinks c) (Rely0 c) silent None _ _ _ _ W) as (F & Os & W').
  pose proof (settle_waits None p (sy_world s)) as N.
  destruct (settle None p (sy_world s)) as [[w' o] q]. cbn [fst snd] in *.
  assert (At c w') as I by (destruct q; cbn in N, W'; try done; by destruct W').
  assert (Forall (passive None) o) as P.
  { apply Forall_forall. intros x M. by destruct (Os x M) as (w1 & _ & b & ->). }
  split; [|done]. apply (sound_put _ (set_world w' s)).
  - eapply sound_drift; [exact S|apply F|apply I|]. intros c2 l p2 _ _. split; [by eapply shrinks_rely; [apply I|]|].
    by rewrite calls_of_app, (calls_none c2 o), app_nil_r by by eapply passive_calls.
  - intros i c' p' E. destruct (X q i c' p' E) as [[= -> ->]|]; [|by left].
    right. split_and!; [done|apply I|done].
Qed.

Lemma sound_start t s c : sound t s -> is_Some (conns (sy_world s) !! c) ->
  sound (t ++ (start_removal tmuxSocket c s).2) (start_removal tmuxSocket c s).1 /\
  Forall (passive None) (start_removal tmuxSocket c s).2.
Proof.
  intros S Sm. apply (sound_removal t s c _ (fun q => sy_removals s ++ [(c, q)])); [done|done| |].
  - apply wp_removal. by split; [apply S|].
  - intros q i c' p' E. apply lookup_app_Some in E as [E|[_ E]]; [right; by exists i|left].
    by apply list_lookup_singleton_Some in E as [_ <-].
Qed.

Lemma sound_step t s e : sound t s -> honest e -> sound (t ++ (step e s).2) (step e s).1 /\ dues (speaker s e) t s (step e s).2.
Proof.
  intros S Hn.
  assert (forall sp, sound (t ++ []) s /\ dues sp t s []) as Nop
    by (intros sp; rewrite app_nil_r; split; [done|apply dues_nil]).
  destruct e as [g|c m|c ans sp|c tmux|c|c|c|c|i ans|b data buffered|b|b exitCode|b buffered|now]; cbn [Router.step].
  - split; [|apply dues_nil]. cbn [snd]. rewrite app_nil_r. by apply (sound_join t s g).
  - destruct (sy_lines s !! c) as [l|] eqn:El; [|done]. destruct (ln_closing l); [done|].
    destruct (ln_task l) as [p|] eqn:Ep.
    + split; [|apply dues_nil]. cbn [fst snd]. rewrite app_nil_r. apply sound_line; [done| |by intros].
      intros l1 p1 El1 P1. left. cbn in P1. assert (l1 = l) as -> by congruence. congruence.
    + apply (sound_proceed t t s c l); [done|done|done|]. apply wp_route. by eapply line_conn.
  - destruct (sy_lines s !! c) as [l|] eqn:El; [|done]. destruct (ln_task l) as [p|] eqn:Ep; [|done].
    destruct p as [| | | |argv k|]; try done. destruct (so_task _ _ S c l _ El Ep) as [_ [I W]].
    destruct (sound_proceed t (t ++ [OCalled c argv ans]) s c l sp (k ans) (ln_queue l)) as [S' D]; [done|done| | |].
    + intros c2 Ne. rewrite calls_of_app. cbn. rewrite decide_False by done. apply app_nil_r.
    + rewrite calls_of_app. cbn. rewrite decide_True by done. apply W. by apply at_rely.
    + cbn [fst snd]. rewrite <- app_assoc in S'. split; [exact S'|].
      intros o1 x o2 E. destruct o1 as [|y o1]; [by injection E as <- _|]. injection E as <- E.
      specialize (D o1 x o2 E). by rewrite <- app_assoc in D.
  - destruct (sy_lines s !! c) as [l|] eqn:El; [|done]. destruct (ln_task l) as [p|] eqn:Ep; [|done].
    destruct p as [| | | | |now ctx msg k]; try done. destruct (so_task _ _ S c l _ El Ep) as [_ [I W]].
    apply (sound_proceed t t s c l); [done|done|done|]. apply W. by apply at_rely.
  - split; [|apply dues_nil]. cbn [snd]. rewrite app_nil_r. by apply sound_idle.
  - split; [|apply dues_nil]. cbn [snd]. rewrite app_nil_r. apply sound_line; [by apply sound_idle| |].
    + intros l p _. by left.
    + intros l E. by apply (so_queue _ _ S c l).
  - destruct (sy_lines s !! c) as [l|] eqn:El; [|done]. destruct (ln_task l) eqn:Ep; [done|].
    destruct (ln_teardown l); [|done]. destruct (sound_start t (set_line c (fun l0 => mkLine None (ln_queue l0) true false) s) c) as [S' P].
    + apply sound_line; [done|by intros l0 p _ [=]|]. intros l0 E0 _. cbn. apply (so_queue _ _ S c l0 E0). by assert (l0 = l) as -> by congruence.
    + apply (proj2 (line_conn t s c l S El)).
    + split; [exact S'|by apply passive_dues].
  - destruct (from_option rc_live false (conns (sy_world s) !! c)) eqn:Lv; [|done].
    assert (is_Some (conns (sy_world s) !! c)) as [rc E] by (destruct (conns (sy_world s) !! c); [by eexists|done]).
    destruct (sound_start t (set_world (on_conn c (set_open false) (sy_world s)) s) c) as [S' P].
    + by apply sound_idle.
    + cbn [sy_world set_world]. rewrite conn_alter, decide_True, E by done. by eexists.
    + split; [exact S'|by apply passive_dues].
  - destruct (sy_removals s !! i) as [[c p]|] eqn:Ei; [|done]. destruct p as [| | | |argv k|]; try done.
    destruct (so_removal _ _ S i c _ Ei) as (_ & Sm & [I W]).
    destruct (sound_removal t s c (k ans) (fun q => <[i := (c, q)]> (sy_removals s))) as [S' P]; [done|done| | |].
    + eapply wp0_any, W. by apply at_rely0.
    + intros q j c' p' E. apply list_lookup_insert_Some in E as [(_ & [= <- <-] & _)|[_ E]]; [by left|right; by exists j].
    + split; [exact S'|by apply passive_dues].
  - apply (sound_drifts _ t s _ S); [apply drifts_data, S|apply data_passive].
  - apply (sound_drifts _ t s _ S); [apply drifts_timeout, S|apply timeout_passive].
  - apply (sound_drifts _ t s _ S); [apply drifts_exit, S|apply exit_passive].
  - apply (sound_drifts _ t s _ S); [apply drifts_tick, S|apply tick_passive].
  - apply (sound_drifts None t s (set_clock now (sy_world s), []) S); [apply drifts_clock, S|constructor].
Qed.

(** ** Runs *)

Lemma sound_start_state : sound [] start.
Proof.
  by split; cbn.
Qed.

Lemma sound_run es s t : sound t s -> Forall honest es -> sound (t ++ (run es s).2) (run es s).1.
Proof.
  revert s t. induction es as [|e es IH]; intros s t S F; cbn [Router.run fst snd]; [by rewrite app_nil_r|].
  apply Forall_cons in F as [Hn F]. destruct (sound_step t s e S Hn) as [S' _]. rewrite app_assoc. by apply IH.
Qed.

Lemma system_run_app es es' s : run (es ++ es') s = ((run es' (run es s).1).1, (run es s).2 ++ (run es' (run es s).1).2).
Proof.
  revert s. induction es as [|e es IH]; intros s; cbn; [by destruct (run es' s)|]. rewrite IH. cbn. by rewrite app_assoc.
Qed.

(** An output of a run is an output of one of its steps. *)
Lemma run_output es s t1 x t2 : (run es s).2 = t1 ++ x :: t2 ->
  exists es1 e es2 o1 o2, es = es1 ++ e :: es2 /\ (step e (run es1 s).1).2 = o1 ++ x :: o2 /\ t1 = (run es1 s).2 ++ o1.
Proof.
  revert s t1. induction es as [|e es IH]; intros s t1 E; cbn in E; [by destruct t1|].
  apply app_eq_inv in E as [(k & E1 & E2)|(k & E1 & E2)].
  - destruct k as [|y k]; cbn in E2.
    + rewrite app_nil_r in E1. destruct (IH (step e s).1 [] (eq_sym E2)) as (es1 & e' & es2 & o1 & o2 & -> & Eo & El).
      exists (e :: es1), e', es2, o1, o2. cbn. split_and!; [done|done|]. rewrite <- app_assoc, <- El. by rewrite app_nil_r.
    + injection E2 as -> E2. by exists [], e, es, t1, k.
  - destruct (IH (step e s).1 k E2) as (es1 & e' & es2 & o1 & o2 & -> & Eo & ->).
    exists (e :: es1), e', es2, o1, o2. cbn. split_and!; [done|done|]. by rewrite E1, app_assoc.
Qed.

Lemma run_due es e o1 x o2 : Forall honest (es ++ [e]) -> (step e (run es start).1).2 = o1 ++ x :: o2 ->
  due (speaker (run es start).1 e) ((run es start).2 ++ o1) (run es start).1 x.
Proof.
  intros [F [Hn _]%Forall_cons]%Forall_app E. pose proof (sound_run es start [] sound_start_state F) as S.
  destruct (sound_step _ _ e S Hn) as [_ D]. by apply (D o1 x o2).
Qed.

(** ** The theorems *)


(** C15: one terminal to a connection, and none left behind.  In every
    reachable state, what [conn.pty] points at is a running bridge of that
    connection, to the session it says it is attached to, and has its drain
    timer while it is paused; and a bridge that is anything else has been
    killed or has exited. *)
Theorem one_terminal es : Forall honest es ->
  let w := sy_world (run es start).1 in
  (forall c rc b, conns w !! c = Some rc -> rc_pty rc = Some b ->
     exists br, bridges w !! b = Some br /\ br_conn br = c /\ rc_attached rc = Some (br_name br) /\
       br_killed br = false /\ br_exited br = false /\ (br_paused br = true -> br_drainTimer br = true)) /\
  (forall b br, bridges w !! b = Some br -> br_killed br = false -> br_exited br = false ->
     exists rc, conns w !! br_conn br = Some rc /\ rc_pty rc = Some b).
Proof.
  intros F. destruct (so_world _ _ (sound_run es start [] sound_start_state F)) as [B C _]. split.
  - intros c rc b E P. destruct (C c rc b E P) as (br & Eb & <-). destruct (B b br Eb) as (rc' & E' & O).
    assert (rc' = rc) as -> by congruence. destruct (bo_current _ _ _ O P) as (K & _ & X & _ & A & D). by exists br.
  - intros b br Eb K X. destruct (B b br Eb) as (rc & E & O). exists rc. split; [done|].
    destruct (bo_gone _ _ _ O) as [|[|]]; congruence.
Qed.

(** C14: each connection is told its own.  Whatever a step sends, and to
    whomever: a list of sessions holds only real sessions its reader may see; a
    session's creation and end go to its author and to those who may know of
    it; a window or pane layout goes to its author and to those attached to
    that session, and is one tmux gave of that session; everything else goes
    to the connection the step is of. *)
Theorem told_its_own es e o1 c' m o2 rc : Forall honest (es ++ [e]) ->
  (step e (run es start).1).2 = o1 ++ OSend c' m :: o2 ->
  conns (sy_world (run es start).1) !! c' = Some rc ->
  exists c, speaker (run es start).1 e = Some c /\
    audience tmuxSocket (calls_of c ((run es start).2 ++ o1)) c c' rc m.
Proof. intros F E Ec. by apply (run_due es e o1 _ o2 F E). Qed.

(** ** A close is cleaned up after *)

(** Whatever is answered, and if the rest stands still, [P] comes about: by
    answers to [c]'s handlers and removals, and the close going on once the
    queue has drained. *)
Inductive eventually (c : nat) (P : System -> Prop) (s : System) : Prop :=
| ev_now : P s -> eventually c P s
| ev_answer l argv k : sy_lines s !! c = Some l -> ln_task l = Some (Call argv k) ->
    (forall ans sp, eventually c P (step (Answered c ans sp) s).1) -> eventually c P s
| ev_judge l now ctx msg k : sy_lines s !! c = Some l -> ln_task l = Some (Judge now ctx msg k) ->
    (forall tmux, eventually c P (step (Judged c tmux) s).1) -> eventually c P s
| ev_drained l : sy_lines s !! c = Some l -> ln_task l = None -> ln_teardown l = true ->
    eventually c P (step (Drained c) s).1 -> eventually c P s
| ev_removal i argv k : sy_removals s !! i = Some (c, Call argv k) ->
    (forall ans, eventually c P (step (RemovalAnswered i ans) s).1) -> eventually c P s.

Lemma eventually_trans c (P Q : System -> Prop) s : eventually c P s -> (forall s, P s -> eventually c Q s) -> eventually c Q s.
Proof.
  intros E X. induction E as [s H|s l argv k El Et _ IH|s l now ctx msg k El Et _ IH|s l El Et Td _ IH|s i argv k Er _ IH].
  - by apply X.
  - by eapply ev_answer.
  - by eapply ev_judge.
  - by eapply ev_drained.
  - by eapply ev_removal.
Qed.

Lemma eventually_sound c P t s : sound t s -> eventually c P s -> eventually c (fun s => P s /\ exists t, sound t s) s.
Proof.
  intros S E. revert t S. induction E as [s H|s l argv k El Et _ IH|s l now ctx msg k El Et _ IH|s l El Et Td _ IH|s i argv k Er _ IH];
    intros t S.
  - apply ev_now. split; [done|by exists t].
  - eapply ev_answer; [done|done|]. intros ans sp. eapply IH. by apply (sound_step t s (Answered c ans sp) S).
  - eapply ev_judge; [done|done|]. intros tmux. eapply IH. by apply (sound_step t s (Judged c tmux) S).
  - eapply ev_drained; [done|done|done|]. eapply IH. by apply (sound_step t s (Drained c) S).
  - eapply ev_removal; [done|]. intros ans. eapply IH. by apply (sound_step t s (RemovalAnswered i ans) S).
Qed.

(** The line of [c] is idle, its flags as they were. *)
Definition idle_line (c : nat) (closing teardown : bool) (s : System) : Prop :=
  exists l, sy_lines s !! c = Some l /\ ln_task l = None /\ ln_closing l = closing /\ ln_teardown l = teardown.

Lemma proceed_line c sp p q s l : sy_lines s !! c = Some l ->
  let r := settle sp p (sy_world s) in
  let t := next_task tmuxSocket tmuxDefaultShell c r.2 q r.1.1 in
  sy_lines (proceed tmuxSocket tmuxDefaultShell c sp p q s).1 !! c = Some (with_task t.1 t.2 l).
Proof. intros E. unfold proceed. cbn [fst]. rewrite line_alter, decide_True by done. cbn. by rewrite E. Qed.

Lemma step_answered s c l argv k ans sp : sy_lines s !! c = Some l -> ln_task l = Some (Call argv k) ->
  (step (Answered c ans sp) s).1 = (proceed tmuxSocket tmuxDefaultShell c sp (k ans) (ln_queue l) s).1.
Proof. intros E T. unfold Router.step. by rewrite E, T. Qed.

Lemma step_judged s c l now ctx msg k tmux : sy_lines s !! c = Some l -> ln_task l = Some (Judge now ctx msg k) ->
  (step (Judged c tmux) s).1 = (proceed tmuxSocket tmuxDefaultShell c None (k (enforce tmux now ctx msg)) (ln_queue l) s).1.
Proof. intros E T. unfold Router.step. by rewrite E, T. Qed.

(** A handler ends whatever it is told, and what follows goes on. *)
Lemma handler_ends c (P : System -> Prop) q cl td :
  (forall sp s l (p : Route unit), waits p = true -> stands p = false -> sy_lines s !! c = Some l ->
     ln_closing l = cl -> ln_teardown l = td -> eventually c P (proceed tmuxSocket tmuxDefaultShell c sp p q s).1) ->
  forall (p : Route unit) sp s l, sy_lines s !! c = Some l -> ln_closing l = cl -> ln_teardown l = td ->
    eventually c P (proceed tmuxSocket tmuxDefaultShell c sp p q s).1.
Proof.
  intros Base p. induction p as [a|e|f k IH|argv size k IH|argv k IH|now ctx msg k IH]; intros sp s l E Cl Td.
  - by eapply Base.
  - by eapply Base.
  - exact (IH (sy_world s) sp (set_world (f (sy_world s)).1 s) l E Cl Td).
  - exact (IH sp sp s l E Cl Td).
  - assert (sy_lines (proceed tmuxSocket tmuxDefaultShell c sp (Call argv k) q s).1 !! c =
      Some (with_task (Some (Call argv k)) q l)) as L by exact (proceed_line c sp (Call argv k) q s l E).
    eapply ev_answer; [exact L|done|]. intros ans sp'. rewrite (step_answered _ _ _ _ _ ans sp' L eq_refl).
    by eapply IH; [exact L| |].
  - assert (sy_lines (proceed tmuxSocket tmuxDefaultShell c sp (Judge now ctx msg k) q s).1 !! c =
      Some (with_task (Some (Judge now ctx msg k)) q l)) as L by exact (proceed_line c sp (Judge now ctx msg k) q s l E).
    eapply ev_judge; [exact L|done|]. intros tmux. rewrite (step_judged _ _ _ _ _ _ _ tmux L eq_refl).
    by eapply IH; [exact L| |].
Qed.

(** And so do those behind it. *)
Lemma queue_drains c cl td q (p : Route unit) sp s l :
  sy_lines s !! c = Some l -> ln_closing l = cl -> ln_teardown l = td ->
  eventually c (idle_line c cl td) (proceed tmuxSocket tmuxDefaultShell c sp p q s).1.
Proof.
  revert p sp s l. induction q as [|m q IH]; apply handler_ends; intros sp s l p W N E Cl Td.
  - apply ev_now. exists (with_task None [] l). split; [|done]. rewrite (proceed_line c sp p [] s l E). by destruct p.
  - assert ((proceed tmuxSocket tmuxDefaultShell c sp p (m :: q) s).1 =
      (proceed tmuxSocket tmuxDefaultShell c None (routeMessage tmuxSocket tmuxDefaultShell c m) q s).1) as -> by by destruct p.
    by eapply IH.
Qed.

Lemma line_drains t s c l : sound t s -> sy_lines s !! c = Some l ->
  eventually c (idle_line c (ln_closing l) (ln_teardown l)) s.
Proof.
  intros S E. destruct (ln_task l) as [p|] eqn:T; [|apply ev_now; by exists l].
  destruct (so_task _ _ S c l p E T) as [St _]. destruct p as [| | | |argv k|now ctx msg k]; try done.
  - eapply ev_answer; [done|done|]. intros ans sp. rewrite (step_answered _ _ _ _ _ ans sp E T). by eapply queue_drains.
  - eapply ev_judge; [done|done|]. intros tmux. rewrite (step_judged _ _ _ _ _ _ _ tmux E T). by eapply queue_drains.
Qed.

(** Nothing of [c] is left. *)
Definition gone (c : nat) (s : System) : Prop :=
  exists rc, conns (sy_world s) !! c = Some rc /\ rc_live rc = false /\ rc_pty rc = None /\ rc_clone rc = None.

Lemma conn_killed c w rc : conns w !! c = Some rc ->
  conns (settle None (kill_pty c) w).1.1 !! c = Some (set_pty None rc).
Proof.
  intros E. unfold kill_pty, field. cbn. rewrite E. cbn. destruct (rc_pty rc) as [b|] eqn:P; cbn.
  - change (conns (on_conn c (set_pty None) (on_bridge b set_killed w)) !! c = Some (set_pty None rc)).
    rewrite conn_alter, decide_True by done. cbn. by rewrite E.
  - rewrite E. f_equal. destruct rc; cbn in *; by subst.
Qed.

Lemma settle_bind {A B} sp (p : Route A) (f : A -> Route B) w a : (settle sp p w).2 = Return a ->
  settle sp (p ≫= f) w =
    ((settle sp (f a) (settle sp p w).1.1).1.1, (settle sp p w).1.2 ++ (settle sp (f a) (settle sp p w).1.1).1.2,
     (settle sp (f a) (settle sp p w).1.1).2).
Proof.
  revert w. induction p as [b|e|g k IH|argv size k IH|argv k IH|now ctx msg k IH]; intros w E; cbn in E; try done.
  - injection E as ->. cbn. by destruct (settle sp (f a) w) as [[? ?] ?].
  - change (settle sp (Atomic g k ≫= f) w) with
      (let s := settle sp (k w ≫= f) (g w).1 in (s.1.1, (g w).2 ++ s.1.2, s.2)).
    rewrite (IH w (g w).1 E). cbn. by rewrite app_assoc.
  - apply IH, E.
Qed.

Lemma kill_returns c w : (settle None (kill_pty c) w).2 = Return tt.
Proof. unfold kill_pty, field. cbn. by destruct (conns w !! c ≫= rc_pty). Qed.

(** A removal ends at once, or asks for the clone's end and ends when it is answered. *)
Lemma removal_cases c w rc : conns w !! c = Some rc ->
  let r := settle None (removeConnection tmuxSocket c) w in
  (r.2 = Return tt /\ exists rc', conns r.1.1 !! c = Some rc' /\ rc_live rc' = false /\ rc_pty rc' = None /\ rc_clone rc' = None) \/
  (exists argv k, r.2 = Call argv k /\ exists rc', conns r.1.1 !! c = Some rc' /\ rc_pty rc' = None /\
     forall ans, (settle None (k ans) r.1.1).2 = Return tt /\
       exists rc2, conns (settle None (k ans) r.1.1).1.1 !! c = Some rc2 /\
         rc_live rc2 = false /\ rc_pty rc2 = None /\ rc_clone rc2 = None).
Proof.
  intros E. cbn zeta. unfold removeConnection. rewrite (settle_bind None _ _ w tt (kill_returns c w)). cbn [fst snd].
  pose proof (conn_killed c w rc E) as E1. set (w1 := (settle None (kill_pty c) w).1.1) in *. clearbody w1.
  assert (forall f rc1 w2, conns w2 !! c = Some rc1 -> conns (on_conn c f w2) !! c = Some (f rc1)) as Up
    by (intros f rc1 w2 X; rewrite conn_alter, decide_True, X by done; done).
  unfold destroy_clone_of, field. cbn. rewrite E1. cbn. destruct (rc_clone rc) as [name|] eqn:Cl.
  - unfold destroyClone. destruct (isCloneSession name); cbn [negb].
    + right. cbn. eexists _, _. split; [done|]. exists (set_pty None rc). split_and!; [done|done|].
      intros ans. destruct ans as [out|e]; cbn; (split; [done|]);
        exists (set_live false (set_clone None (set_pty None rc))); (split; [exact (Up _ _ _ (Up _ _ _ E1))|done]).
    + left. cbn. split; [done|]. exists (set_live false (set_clone None (set_pty None rc))). split; [exact (Up _ _ _ (Up _ _ _ E1))|done].
  - left. cbn. split; [done|]. exists (set_live false (set_pty None rc)). split; [exact (Up _ _ _ E1)|done].
Qed.

End Runs.

(** ** The router on concrete runs

    Witnesses of RouterSystem's theorems, and runs that show what the router
    does where connections, terminals and awaits cross. *)

Definition viewer_grant : GrantRecord :=
  mkGrant "grn_view" "a friend" (ScopeSessions [mkGS "$0" "work"]) true files_none 0 None None None "" None.
Definition demo_tmux : Policy.Tmux :=
  mkTmux (Some [mkSession (Some "$0") "work"; mkSession (Some "$1") "home"]) (fun _ => None) (fun _ => None).

Definition scopes (id : string) : GrantScope :=
  if decide (id = "grn_view") then gr_scope viewer_grant else ScopeAll.

Notation run := (run "" "sh").
Notation step := (step "" "sh").

Definition yes (c : nat) : REvent := Answered c (Ok []) None.
Definition attach (c : nat) (name id : string) : list REvent :=
  [Received c (MSessionAttach name None false (Some id)); Judged c demo_tmux; yes c].

(** A viewer's attach, up to the answer that opens its terminal. *)
Definition viewer_before : list REvent :=
  [Joined viewer_grant] ++ attach 0 "work" "a1" ++ replicate 4 (yes 0).

Example viewer_attaches : (step (yes 0) (run viewer_before start).1).2 =
  [OCalled 0 ["set-option"; "-t"; "__mtmux_grn_view_conn-1"; "detach-on-destroy"; "on"] (Ok []);
   OSpawn 0 ["attach-session"; "-r"; "-t"; "__mtmux_grn_view_conn-1"] (mkSize 80 24)].
Proof. vm_compute. reflexivity. Qed.

(** ** Witnesses *)

Lemma viewer_honest : Forall (honest scopes) (viewer_before ++ [yes 0]).
Proof. by repeat constructor. Qed.


Lemma one_terminal_witness : exists br,
  bridges (sy_world (run (viewer_before ++ [yes 0]) start).1) !! 0%nat = Some br /\ br_conn br = 0%nat /\
  br_killed br = false /\ br_exited br = false.
Proof.
  destruct (one_terminal "" "sh" scopes (viewer_before ++ [yes 0]) viewer_honest) as [T _].
  edestruct (T 0%nat) as (br & E & C & _ & K & X & _); [vm_compute; reflexivity|vm_compute; reflexivity|].
  exists br. split; [exact E|split; [exact C|split; [exact K|exact X]]].
Defined.

(** Two who look at [work], one who looks at [home]; the first splits a pane. *)
Definition three : list REvent :=
  [Joined FULL_GRANT; Joined FULL_GRANT; Joined FULL_GRANT]
  ++ attach 0 "work" "a" ++ attach 1 "work" "b" ++ attach 2 "home" "c"
  ++ [Received 0 (MPaneSplit split_h); Judged 0 demo_tmux; yes 0; yes 0; Answered 0 (Ok (js "@1")) None].

Example layout_goes_to_its_session :
  omap (fun o => match o with OSend c m => Some c | _ => None end) (step (yes 0) (run three start).1).2
  = [0; 0; 1; 1]%nat.
Proof. vm_compute. reflexivity. Qed.

Lemma three_honest : Forall (honest scopes) (three ++ [yes 0]).
Proof. by repeat constructor. Qed.

Lemma told_its_own_witness : exists rc c,
  conns (sy_world (run three start).1) !! 1%nat = Some rc /\ speaker (run three start).1 (yes 0) = Some c /\
  rc_attached rc = Some "work".
Proof.
  destruct (lookup_lt_is_Some_2 (conns (sy_world (run three start).1)) 1) as [rc E]; [vm_compute; lia|].
  destruct (told_its_own "" "sh" scopes three (yes 0)
    (take 3 (step (yes 0) (run three start).1).2) 1 (RWindowChanged [] "work")
    (drop 4 (step (yes 0) (run three start).1).2) rc three_honest) as (c & Sp & A);
    [vm_compute; reflexivity|exact E|].
  exists rc, c. split; [exact E|split; [exact Sp|]]. injection Sp as <-. destruct A as [A|A]; [discriminate A|exact A].
Defined.


(** ** Findings *)

Definition sent_to (c : nat) (o : list Output) : list Reply :=
  omap (fun x => match x with OSend c' m => if decide (c' = c) then Some m else None | _ => None end) o.

(** An attach to [work], replaced by one to [home] before its terminal was
    ready: the first one's last bytes still fire its [onReady], and the client
    that is on [home] is told it is attached to [work], and given its capture. *)
Example late_data_acks_old_attach :
  sent_to 0 (run ([Joined FULL_GRANT; Received 0 (MSessionAttach "work" None true (Some "a1")); Judged 0 demo_tmux; yes 0;
       Answered 0 (Ok (js "old")) None]
    ++ attach 0 "home" "a2" ++ [ReadyTimeout 1; PtyData 0 (js "late") 0]) start).2
  = [RSessionAttached "home" (Some "a2"); RSessionAttached "work" (Some "a1"); RTerminalOutput (js "old")].
Proof. vm_compute. reflexivity. Qed.

(** The machine hangs up on a viewer whose next attach is queued: the removal
    and the attach both end the first clone; the attach makes another, and the
    removal, answered last, forgets it.  When the socket's close comes nothing
    is asked for: the clone is left. *)
Definition hang_up_race : list REvent :=
  viewer_before ++ [yes 0; Disconnected 0; Received 0 (MSessionAttach "work" None false (Some "a2"));
    Judged 0 demo_tmux; yes 0; yes 0] ++ replicate 5 (yes 0) ++ [RemovalAnswered 0 (Ok []); Closed 0; Drained 0].

Example hang_up_leaks_clone :
  let r := run hang_up_race start in
  last (filter (fun h => head h = Some "new-session" \/ head h = Some "kill-session") (calls_of 0 r.2).*1)
    = Some ["new-session"; "-d"; "-t"; "work"; "-s"; "__mtmux_grn_view_conn-1"] /\
  rc_clone <$> conns (sy_world r.1) !! 0%nat = Some None /\ (sy_removals r.1).*1 = [0; 0]%nat /\
  forallb (fun p => match p.2 with Return _ => true | _ => false end) (sy_removals r.1) = true.
Proof. vm_compute. by split_and!. Qed.

(** A viewer whose session has ended still has its clone's name, and asks for
    its end again when it leaves: [kill-session -t] of a name that is gone. *)
Example gone_clone_is_ended_again :
  let r := run (viewer_before ++ [yes 0; ReadyTimeout 0; PtyExit 0 0]) start in
  (fun rc => (rc_pty rc, rc_clone rc)) <$> conns (sy_world r.1) !! 0%nat = Some (None, Some "__mtmux_grn_view_conn-1").
Proof. vm_compute. reflexivity. Qed.

(** A rename does not reach the connections attached under the old name:
    their messages go on naming it to tmux. *)
Example attached_survives_rename :
  let r := run ([Joined FULL_GRANT; Joined FULL_GRANT] ++ attach 0 "work" "a"
    ++ [Received 1 (MSessionRename "work" "home"); Judged 1 demo_tmux; yes 1; yes 1; yes 1; yes 1;
        Received 0 (MPaneSplit split_h); Judged 0 demo_tmux; yes 0]) start in
  rc_attached <$> conns (sy_world r.1) !! 0%nat = Some (Some "work") /\
  last (calls_of 0 r.2).*1 = Some ["split-window"; "-t"; "work"; "-h"].
Proof. vm_compute. by split. Qed.

(** Output past the high-water mark stops the terminal; it goes on when the
    socket has drained. *)
Example backpressure :
  (run ([Joined FULL_GRANT] ++ attach 0 "work" "a" ++ [ReadyTimeout 0; PtyData 0 (js "x") 8388608; PtyData 0 (js "y") 8388609;
     DrainTick 0 1048577; DrainTick 0 1048576]) start).2
  = [OCalled 0 ["has-session"; "-t"; "work"] (Ok []); OSpawn 0 ["attach-session"; "-t"; "work"] (mkSize 80 24);
     OSend 0 (RSessionAttached "work" (Some "a")); OSend 0 (RTerminalOutput (js "x"));
     OSend 0 (RTerminalOutput (js "y")); OPause 0; OResume 0].
Proof. vm_compute. reflexivity. Qed.
