(* ===== verification/Monitor.v ===== *)
(** * Monitor: sessions that come, go and change outside the browser

    [apps/relay/src/session-monitor.ts], and what [wire-connections.ts] tells
    the connections of it.  A poll is cut at its awaits: the listing of the
    sessions, then one listing of windows for each watched session.  Polls
    overlap when tmux is slow, so those in progress are a list. *)

From stdpp Require Import pretty.
From S2P Require Import Prelude Grants Policy Tmux Router.

#[local] Open Scope string_scope.
#[local] Open Scope list_scope.
#[local] Open Scope Z_scope.

(** ** The signature of a window list *)

Definition number (n : option Z) : string := match n with Some n => pretty n | None => "NaN" end.
Definition bit_text (b : bool) : string := if b then "1" else "0".

Definition window_text (w : WindowInfo) : string :=
  wi_id w +:+ ":" +:+ number (wi_index w) +:+ ":" +:+ default "undefined" (wi_name w) +:+ ":"
    +:+ bit_text (wi_active w) +:+ ":" +:+ number (wi_paneCount w)
    +:+ ":" +:+ bit_text (wi_zoomed w) +:+ ":" +:+ default "undefined" (wi_layout w).

Definition windowSignature (windows : list WindowInfo) : string := String.concat "|" (map window_text windows).

(** ** State *)

(** A poll in progress. *)
Inductive Poll :=
| AwaitSessions
| AwaitWindows (name : string) (rest : list string).

Record MonitorState := mkMonitor {
  knownSessions : list string;
  windowSignatures : list (string * string);
  polls : list (option Poll);
  interval : bool;
}.

Definition new_monitor : MonitorState := mkMonitor [] [] [] false.

Inductive MonitorOutput :=
| SessionExit (name : string)
| SessionCreated (session : SessionInfo)
| SessionActivity (name : string) (activity : Z)
| WindowsChanged (name : string) (windows : list WindowInfo).

Inductive MonitorEvent :=
| Start
| Stop
(** The interval fires. *)
| PollNow
(** The answers poll [i] waits for, [None] where the call throws; [watched] is
    what [watchedSessions()] returns then. *)
| SessionsListed (i : nat) (sessions : option (list SessionInfo)) (watched : list string)
| WindowsListed (i : nat) (windows : option (list WindowInfo)).

Definition set_poll (i : nat) (p : option Poll) (m : MonitorState) : MonitorState :=
  mkMonitor (knownSessions m) (windowSignatures m) (<[i := p]> (polls m)) (interval m).
Definition set_known (k : list string) (m : MonitorState) : MonitorState :=
  mkMonitor k (windowSignatures m) (polls m) (interval m).
Definition set_signatures (s : list (string * string)) (m : MonitorState) : MonitorState :=
  mkMonitor (knownSessions m) s (polls m) (interval m).

(** [new Set(l)], in order. *)
Definition dedup (l : list string) : list string :=
  foldl (fun acc n => if decide (n ∈ acc) then acc else acc ++ [n]) [] l.

(** ** A poll *)

(** Sessions that have exited: known, and no longer listed. *)
Definition exited (known : list string) (sessions : list SessionInfo) : list string :=
  filter (fun n => n ∉ map si_name sessions) known.

Fixpoint track (known : list string) (sessions : list SessionInfo) : list string * list MonitorOutput :=
  match sessions with
  | [] => (known, [])
  | s :: sessions =>
      let new := negb (bool_decide (si_name s ∈ known)) in
      let r := track (if new then known ++ [si_name s] else known) sessions in
      (r.1, (if new then [SessionCreated s] else []) ++ SessionActivity (si_name s) (si_activity s) :: r.2)
  end.

Definition on_sessions (sessions : list SessionInfo) (m : MonitorState) : MonitorState * list MonitorOutput :=
  let gone := exited (knownSessions m) sessions in
  let r := track (filter (fun n => n ∉ gone) (knownSessions m)) sessions in
  (set_known r.1 m, map SessionExit gone ++ r.2).

(** The next window listing of poll [i], or its end. *)
Definition next_window (i : nat) (names : list string) (m : MonitorState) : MonitorState :=
  set_poll i (match names with [] => None | n :: names => Some (AwaitWindows n names) end) m.

Definition pollWindows (i : nat) (watched : list string) (m : MonitorState) : MonitorState :=
  let watching := dedup watched in
  next_window i watching (set_signatures (filter (fun e => e.1 ∈ watching) (windowSignatures m)) m).

Definition on_windows_listed (name : string) (windows : option (list WindowInfo)) (m : MonitorState)
    : MonitorState * list MonitorOutput :=
  match windows with
  | None => (set_signatures (assoc_del name (windowSignatures m)) m, [])
  | Some windows =>
      let sig := windowSignature windows in
      let previous := assoc_get name (windowSignatures m) in
      (set_signatures (assoc_set name sig (windowSignatures m)) m,
       match previous with
       | Some old => if decide (old = sig) then [] else [WindowsChanged name windows]
       | None => []
       end)
  end.

Definition start_poll (m : MonitorState) : MonitorState :=
  mkMonitor (knownSessions m) (windowSignatures m) (polls m ++ [Some AwaitSessions]) (interval m).

Definition monitor_step (e : MonitorEvent) (m : MonitorState) : MonitorState * list MonitorOutput :=
  match e with
  | Start => let m := start_poll m in (mkMonitor (knownSessions m) (windowSignatures m) (polls m) true, [])
  | Stop => (mkMonitor (knownSessions m) (windowSignatures m) (polls m) false, [])
  | PollNow => if interval m then (start_poll m, []) else (m, [])
  | SessionsListed i sessions watched =>
      match polls m !! i with
      | Some (Some AwaitSessions) =>
          let r := match sessions with Some sessions => on_sessions sessions m | None => (m, []) end in
          (pollWindows i watched r.1, r.2)
      | _ => (m, [])
      end
  | WindowsListed i windows =>
      match polls m !! i with
      | Some (Some (AwaitWindows name rest)) =>
          let r := on_windows_listed name windows m in (next_window i rest r.1, r.2)
      | _ => (m, [])
      end
  end.

Fixpoint monitor_run (es : list MonitorEvent) (m : MonitorState) : MonitorState * list MonitorOutput :=
  match es with
  | [] => (m, [])
  | e :: es => let r := monitor_step e m in let r' := monitor_run es r.1 in (r'.1, r.2 ++ r'.2)
  end.

(** ** What the connections are told *)

Definition tell_all (build : RConn -> option Reply) (w : World) : list Output :=
  imap pair (conns w) ≫= fun e =>
    if rc_live e.2 then match build e.2 with Some m => to_conn e.1 m w | None => [] end else [].

Definition watched_sessions (w : World) : list string :=
  dedup (omap (fun rc => if rc_live rc then truthy (rc_attached rc) else None) (conns w)).

Definition on_session_exit (name : string) (w : World) : list Output :=
  if isCloneSession name then []
  else tell_all (fun rc => if decide (rc_attached rc = Some name) then None
                           else if allowsSessionName (rc_grant rc) name then Some (RSessionExited name None) else None) w.

Definition on_session_created (s : SessionInfo) (w : World) : list Output :=
  if isCloneSession (si_name s) then []
  else tell_all (fun rc => if allowsSession (rc_grant rc) (ref_of s) None then Some (RSessionCreated s) else None) w.

(** The windows at once; the panes when tmux has answered, if it does. *)
Definition on_windows_changed (name : string) (windows : list WindowInfo) (w : World) : list Output :=
  if isCloneSession name then [] else tell_all (attached_to name (RWindowChanged windows name)) w.
Definition on_panes_known (name : string) (panes : list PaneInfo) (windowId : string) (w : World) : list Output :=
  tell_all (attached_to name (RPaneChanged panes windowId)) w.

Definition tell (o : MonitorOutput) (w : World) : list Output :=
  match o with
  | SessionExit name => on_session_exit name w
  | SessionCreated s => on_session_created s w
  | WindowsChanged name windows => on_windows_changed name windows w
  | SessionActivity _ _ => []
  end.

(** ** Comings and goings *)

(** What the outputs say of one name, in order: [true] that it came, [false]
    that it went. *)
Definition comings (name : string) (o : list MonitorOutput) : list bool :=
  omap (fun x => match x with
                 | SessionCreated s => if decide (si_name s = name) then Some true else None
                 | SessionExit n => if decide (n = name) then Some false else None
                 | _ => None
                 end) o.

(** Turns: it comes, it goes, it comes; [there] is where that leaves it. *)
Fixpoint turns (there : bool) (l : list bool) : option bool :=
  match l with
  | [] => Some there
  | b :: l => if Bool.eqb b there then None else turns b l
  end.

Lemma turns_app there l1 l2 : turns there (l1 ++ l2) = turns there l1 ≫= fun b => turns b l2.
Proof. revert there. induction l1 as [|b l1 IH]; intros there; cbn; [done|]. destruct (Bool.eqb b there); [done|apply IH]. Qed.

Definition known (name : string) (m : MonitorState) : bool := bool_decide (name ∈ knownSessions m).

Lemma track_turns name : forall sessions l,
  turns (bool_decide (name ∈ l)) (comings name (track l sessions).2)
  = Some (bool_decide (name ∈ (track l sessions).1)).
Proof.
  induction sessions as [|s sessions IH]; intros l; cbn [track fst snd]; [done|].
  destruct (bool_decide (si_name s ∈ l)) eqn:K; cbn [negb]; [apply IH|].
  apply bool_decide_eq_false in K. rewrite <- IH. cbn. destruct (decide (si_name s = name)) as [<-|N].
  - rewrite (bool_decide_eq_false_2 (si_name s ∈ l)) by done. cbn.
    by rewrite (bool_decide_eq_true_2 (si_name s ∈ l ++ [si_name s])) by set_solver.
  - by rewrite (bool_decide_ext (name ∈ l) (name ∈ l ++ [si_name s]))
      by (rewrite elem_of_app, list_elem_of_singleton; naive_solver).
Qed.

Lemma exits_turns name gone : NoDup gone ->
  turns (bool_decide (name ∈ gone)) (comings name (map SessionExit gone)) = Some false.
Proof.
  induction 1 as [|n gone N ND IH]; [done|]. cbn. destruct (decide (n = name)) as [->|Ne].
  - rewrite (bool_decide_eq_true_2 (name ∈ name :: gone)) by set_solver. cbn.
    by rewrite (bool_decide_eq_false_2 (name ∈ gone)) in IH.
  - by rewrite (bool_decide_ext (name ∈ n :: gone) (name ∈ gone)) by (rewrite elem_of_cons; naive_solver).
Qed.

Lemma comings_none name gone : name ∉ gone -> comings name (map SessionExit gone) = [].
Proof.
  induction gone as [|n gone IH]; [done|]. intros N. cbn. rewrite decide_False by set_solver. apply IH. set_solver.
Qed.

Lemma track_NoDup sessions l : NoDup l -> NoDup (track l sessions).1.
Proof.
  revert l. induction sessions as [|s sessions IH]; intros l N; cbn; [done|]. apply IH.
  case_bool_decide; cbn; [done|]. apply NoDup_app. split_and!; [done| |apply NoDup_singleton].
  intros x X ->%list_elem_of_singleton. done.
Qed.

Lemma sessions_turns name sessions m : NoDup (knownSessions m) ->
  let r := on_sessions sessions m in
  turns (known name m) (comings name r.2) = Some (known name r.1) /\ NoDup (knownSessions r.1).
Proof.
  intros ND. unfold on_sessions, known. cbn [fst snd set_known knownSessions].
  set (gone := exited (knownSessions m) sessions).
  assert (NoDup gone) as NG by (by apply NoDup_filter). split.
  - unfold comings. rewrite omap_app. fold (comings name (map SessionExit gone)).
    rewrite turns_app. destruct (decide (name ∈ gone)) as [G|G].
    + assert (name ∈ knownSessions m) as K by (unfold gone, exited in G; apply list_elem_of_filter in G; tauto).
      pose proof (exits_turns name gone NG) as X. rewrite (bool_decide_eq_true_2 (name ∈ gone)) in X by done.
      rewrite (bool_decide_eq_true_2 (name ∈ knownSessions m)), X by done. cbn.
      rewrite <- track_turns. f_equal. symmetry. apply bool_decide_eq_false. rewrite list_elem_of_filter. tauto.
    + rewrite comings_none by done. cbn. rewrite <- track_turns. f_equal. apply bool_decide_ext.
      rewrite list_elem_of_filter. tauto.
  - apply track_NoDup, NoDup_filter, ND.
Qed.

Lemma monitor_step_turns name e m : NoDup (knownSessions m) ->
  turns (known name m) (comings name (monitor_step e m).2) = Some (known name (monitor_step e m).1) /\
  NoDup (knownSessions (monitor_step e m).1).
Proof.
  intros ND. destruct e as [| | |i [sessions|] watched|i windows]; cbn [monitor_step]; try done.
  - by destruct (interval m).
  - destruct (polls m !! i) as [[[|n rest]|]|]; try done. by apply (sessions_turns name sessions).
  - by destruct (polls m !! i) as [[[|n rest]|]|].
  - destruct (polls m !! i) as [[[|n rest]|]|]; try done. unfold on_windows_listed.
    destruct windows; [|done]. cbn [fst snd]. split; [|done]. repeat case_match; done.
Qed.

(** A session comes before it goes, and goes before it comes again.
    However polls overlap and their answers are ordered, the monitor reports of
    each name a coming and a going in turn, beginning with a coming, and what
    it holds known are the names last reported to have come. *)
Theorem comings_and_goings name es :
  let r := monitor_run es new_monitor in turns false (comings name r.2) = Some (known name r.1).
Proof.
  assert (forall es m, NoDup (knownSessions m) ->
    turns (known name m) (comings name (monitor_run es m).2) = Some (known name (monitor_run es m).1)) as X.
  { clear es. induction es as [|e es IH]; intros m ND; cbn [monitor_run fst snd]; [done|].
    destruct (monitor_step_turns name e m ND) as [T ND']. unfold comings in *. rewrite omap_app, turns_app, T. by apply IH. }
  apply (X es new_monitor). apply NoDup_nil_2.
Qed.

(** A listing of windows is announced if its signature is not that of the one
    before; the first only sets the measure. *)
Lemma windows_announced name windows m :
  let r := on_windows_listed name (Some windows) m in
  r.2 = (match assoc_get name (windowSignatures m) with
         | Some old => if decide (old = windowSignature windows) then [] else [WindowsChanged name windows]
         | None => []
         end) /\
  assoc_get name (windowSignatures r.1) = Some (windowSignature windows).
Proof. split; [done|]. cbn. by rewrite assoc_get_set_eq. Qed.

(** ** The readers *)

Lemma tell_all_sends build w c m : OSend c m ∈ tell_all build w ->
  exists rc, conns w !! c = Some rc /\ rc_live rc = true /\ build rc = Some m.
Proof.
  unfold tell_all. intros ([i rc] & M & E)%list_elem_of_bind. apply elem_of_lookup_imap in E as (j & rc' & [= -> ->] & E).
  cbn in M. destruct (rc_live rc') eqn:L; [|by apply elem_of_nil in M]. destruct (build rc') as [m'|] eqn:B; [|by apply elem_of_nil in M].
  unfold to_conn in M. rewrite E in M. destruct (rc_open rc'); [|by apply elem_of_nil in M].
  apply list_elem_of_singleton in M as [= -> ->]. by exists rc'.
Qed.

(** The monitor tells each connection its own.  What it saw of a session
    goes, and only while the connection is in the registry: an end to those
    whose grant names the session and who are not on it (their own terminal
    tells them), a coming to those whose grant has it in scope, a change of
    windows to those on it; and of a viewer's clone nothing goes to anyone. *)
Theorem monitor_tells_its_own o w c m : OSend c m ∈ tell o w ->
  exists rc, conns w !! c = Some rc /\ rc_live rc = true /\
    match m with
    | RSessionExited name None => isCloneSession name = false /\ allowsSessionName (rc_grant rc) name = true /\
        rc_attached rc <> Some name
    | RSessionCreated s => isCloneSession (si_name s) = false /\ allowsSession (rc_grant rc) (ref_of s) None = true
    | RWindowChanged _ name => isCloneSession name = false /\ rc_attached rc = Some name
    | _ => False
    end.
Proof.
  destruct o as [name|s| |name windows]; cbn [tell]; [| |by intros ?%elem_of_nil|].
  - unfold on_session_exit. destruct (isCloneSession name) eqn:K; [by intros ?%elem_of_nil|].
    intros (rc & E & L & B)%tell_all_sends. exists rc. split_and!; [done|done|].
    destruct (decide (rc_attached rc = Some name)); [done|]. destruct (allowsSessionName (rc_grant rc) name) eqn:A; [|done].
    by injection B as <-.
  - unfold on_session_created. destruct (isCloneSession (si_name s)) eqn:K; [by intros ?%elem_of_nil|].
    intros (rc & E & L & B)%tell_all_sends. exists rc. split_and!; [done|done|].
    destruct (allowsSession (rc_grant rc) (ref_of s) None) eqn:A; [|done]. by injection B as <-.
  - unfold on_windows_changed. destruct (isCloneSession name) eqn:K; [by intros ?%elem_of_nil|].
    intros (rc & E & L & B)%tell_all_sends. exists rc. split_and!; [done|done|]. unfold attached_to in B.
    destruct (decide (rc_attached rc = Some name)) as [A|]; [|done]. injection B as <-. by split.
Qed.

(** ** A run *)

Definition shown (name : string) : SessionInfo := mkSessionInfo name (Some "$0") (Some 1) false 0 0 None.
Definition a_window (zoomed : bool) : WindowInfo :=
  mkWindowInfo "@0" (Some 0) (Some "sh") true (Some 2) (Some "abcd") false zoomed None.

(** Two polls overlap and are answered out of turn: the session of the newer
    listing is reported gone when the older one comes in, and back again at the
    next; a zoom in another terminal is announced, and nothing at first sight. *)
Example overlapping_polls :
  (monitor_run [Start; PollNow; SessionsListed 1 (Some [shown "work"]) ["work"]; SessionsListed 0 (Some []) ["work"];
     WindowsListed 1 (Some [a_window false]); WindowsListed 0 (Some [a_window true]);
     PollNow; SessionsListed 2 (Some [shown "work"]) []] new_monitor).2
  = [SessionCreated (shown "work"); SessionActivity "work" 0; SessionExit "work";
     WindowsChanged "work" [a_window true]; SessionCreated (shown "work"); SessionActivity "work" 0].
Proof. vm_compute. reflexivity. Qed.

Definition on_work : World :=
  mkWorld [mkRConn FULL_GRANT true true None (Some "work") None None None; mkRConn FULL_GRANT true true None None None None None] [] None 0.

Lemma monitor_tells_its_own_witness : exists rc, conns on_work !! 1%nat = Some rc /\ rc_live rc = true /\
  isCloneSession "work" = false /\ allowsSessionName (rc_grant rc) "work" = true /\ rc_attached rc <> Some "work".
Proof.
  destruct (monitor_tells_its_own (SessionExit "work") on_work 1 (RSessionExited "work" None)) as (rc & E & L & X).
  - vm_compute. left.
  - exists rc. split; [exact E|split; [exact L|exact X]].
Defined.
