(* ===== verification/AuthThrottle.v ===== *)
(** * AuthThrottle: per-address backoff for failed authentication

    [apps/relay/src/auth-throttle.ts].  The module's [entries] map is an
    association list in insertion order; [now] is an argument throughout.
    [guess_pacing] is the bound the module exists for. *)

From S2P Require Import Prelude.

Definition FAILURES_BEFORE_LOCKOUT : Z := 5.
Definition BASE_LOCKOUT_MS : Z := 30000.
Definition MAX_LOCKOUT_MS : Z := 15 * 60 * 1000.
Definition ENTRY_TTL_MS : Z := 60 * 60 * 1000.
Definition MAX_ENTRIES : nat := 10000.
Definition SWEEP_ABOVE : nat := 256.

Record Entry := mkEntry {
  failures : Z;
  lockedUntil : Z;
  lockoutMs : Z;
  touchedAt : Z;
}.

Abbreviation Entries := (list (string * Entry)).

Inductive ThrottleDecision :=
| Allowed
| Throttled (retryAfterMs : Z).

#[export] Instance ThrottleDecision_eq_dec : EqDecision ThrottleDecision.
Proof. solve_decision. Defined.

Definition stale (now : Z) (e : Entry) : bool :=
  (ENTRY_TTL_MS <? now - touchedAt e) && (lockedUntil e <=? now).

(** Drop the idle ones, then the oldest ones over the cap; only once the map
    is large. *)
Definition sweep (now : Z) (entries : Entries) : Entries :=
  if (length entries <? SWEEP_ABOVE)%nat then entries
  else
    let entries := filter (fun kv => stale now kv.2 = false) entries in
    if (MAX_ENTRIES <? length entries)%nat then
      let oldest := take (length entries - MAX_ENTRIES)
                         (sort_by (fun kv => touchedAt kv.2) entries) in
      foldl (fun m kv => assoc_del kv.1 m) entries oldest
    else entries.

(** Whether [address] may attempt authentication right now. *)
Definition checkAuthThrottle (address : option string) (now : Z) (entries : Entries)
    : ThrottleDecision :=
  match truthy address with
  | None => Allowed
  | Some address =>
      match assoc_get address entries with
      | None => Allowed
      | Some entry =>
          if lockedUntil entry <=? now then Allowed else Throttled (lockedUntil entry - now)
      end
  end.

(** One more failure on an entry. *)
Definition fail_entry (now : Z) (e : Entry) : Entry :=
  let n := failures e + 1 in
  if FAILURES_BEFORE_LOCKOUT <=? n then
    let lockout := if lockoutMs e =? 0 then BASE_LOCKOUT_MS
                   else Z.min (lockoutMs e * 2) MAX_LOCKOUT_MS in
    mkEntry n (now + lockout) lockout now
  else mkEntry n (lockedUntil e) (lockoutMs e) now.

Definition recordAuthFailure (address : option string) (now : Z) (entries : Entries)
    : ThrottleDecision * Entries :=
  match truthy address with
  | None => (Allowed, entries)
  | Some address =>
      let entries := sweep now entries in
      let entry := default (mkEntry 0 0 0 now) (assoc_get address entries) in
      let entry := fail_entry now entry in
      (if now <? lockedUntil entry then Throttled (lockedUntil entry - now) else Allowed,
       assoc_set address entry entries)
  end.

(** A success wipes the address's history entirely. *)
Definition recordAuthSuccess (address : option string) (entries : Entries) : Entries :=
  match truthy address with
  | None => entries
  | Some address => assoc_del address entries
  end.

Definition resetAuthThrottle (entries : Entries) : Entries := [].

(** ** The schedule *)

(** The lockout after [n] failures in a row: none, then 30 s doubling up to
    15 minutes. *)
Definition lockout (n : Z) : Z :=
  if n <? FAILURES_BEFORE_LOCKOUT then 0
  else Z.min (BASE_LOCKOUT_MS * 2 ^ (n - FAILURES_BEFORE_LOCKOUT)) MAX_LOCKOUT_MS.

Record entry_ok (e : Entry) : Prop := mkEntryOk {
  eo_failures : 1 <= failures e;
  eo_lockout : lockoutMs e = lockout (failures e);
  eo_until : lockedUntil e =
    if failures e <? FAILURES_BEFORE_LOCKOUT then 0 else touchedAt e + lockout (failures e);
}.

Lemma lockout_succ n :
  FAILURES_BEFORE_LOCKOUT <= n -> lockout (n + 1) = Z.min (lockout n * 2) MAX_LOCKOUT_MS.
Proof.
  unfold lockout, FAILURES_BEFORE_LOCKOUT, MAX_LOCKOUT_MS, BASE_LOCKOUT_MS. intros Hn.
  rewrite !(proj2 (Z.ltb_ge _ _)) by lia.
  replace (n + 1 - 5) with (Z.succ (n - 5)) by lia. rewrite Z.pow_succ_r by lia. lia.
Qed.

Lemma lockout_pos n : FAILURES_BEFORE_LOCKOUT <= n -> BASE_LOCKOUT_MS <= lockout n.
Proof.
  unfold lockout, FAILURES_BEFORE_LOCKOUT, MAX_LOCKOUT_MS, BASE_LOCKOUT_MS. intros Hn.
  rewrite (proj2 (Z.ltb_ge _ _)) by lia.
  assert (1 <= 2 ^ (n - 5)) by (apply (Z.pow_le_mono_r 2 0); lia). lia.
Qed.

Lemma next_lockout e :
  entry_ok e -> (FAILURES_BEFORE_LOCKOUT <=? failures e + 1) = true ->
  (if lockoutMs e =? 0 then BASE_LOCKOUT_MS else Z.min (lockoutMs e * 2) MAX_LOCKOUT_MS)
  = lockout (failures e + 1).
Proof.
  intros [H1 H2 _] Hc. rewrite H2.
  destruct (Z.lt_ge_cases (failures e) FAILURES_BEFORE_LOCKOUT) as [Hlt|Hge].
  - unfold FAILURES_BEFORE_LOCKOUT in *. by replace (failures e) with 4 by lia.
  - pose proof (lockout_pos _ Hge) as Hpos. unfold BASE_LOCKOUT_MS in *.
    rewrite (proj2 (Z.eqb_neq _ _)) by lia. by rewrite lockout_succ.
Qed.

(** What a failure makes of an entry, or of none. *)
Lemma fail_entry_ok now e :
  (e = mkEntry 0 0 0 now \/ entry_ok e) ->
  entry_ok (fail_entry now e) /\
  failures (fail_entry now e) = failures e + 1 /\ touchedAt (fail_entry now e) = now.
Proof.
  intros He. unfold fail_entry.
  destruct He as [->|He]; [by repeat split|]. pose proof He as [H1 H2 H3].
  destruct (FAILURES_BEFORE_LOCKOUT <=? failures e + 1) eqn:Hc;
    (split; [|done]); constructor; simpl; try lia.
  - by apply next_lockout.
  - rewrite (proj2 (Z.ltb_ge _ _)) by lia. f_equal. by apply next_lockout.
  - rewrite H2. unfold lockout. by rewrite !(proj2 (Z.ltb_lt _ _)) by lia.
  - rewrite H3. by rewrite !(proj2 (Z.ltb_lt _ _)) by lia.
Qed.

(** ** The map *)

Record entries_ok (entries : Entries) : Prop := mkEntriesOk {
  es_NoDup : NoDup (map fst entries);
  es_ok : Forall (fun kv => entry_ok kv.2) entries;
}.

Lemma entries_ok_get entries a e :
  entries_ok entries -> assoc_get a entries = Some e -> entry_ok e.
Proof.
  intros [_ Hok] Hg%assoc_get_elem. rewrite Forall_forall in Hok. by apply (Hok (a, e)).
Qed.

Lemma entries_ok_sublist l l' : l' `sublist_of` l -> entries_ok l -> entries_ok l'.
Proof.
  intros Hs [Hnd Hok]. split.
  - eapply sublist_NoDup; [exact Hnd|]. by apply (fmap_sublist fst).
  - clear Hnd. induction Hs as [|x l1 l2 _ IH|x l1 l2 _ IH]; [constructor| |];
      apply Forall_cons in Hok as [? ?]; auto.
Qed.

Lemma foldl_del_sublist (ks : Entries) l :
  foldl (fun (m : Entries) kv => assoc_del kv.1 m) l ks `sublist_of` l.
Proof.
  revert l. induction ks as [|k ks IH]; intros l; simpl; [done|].
  etrans; [apply IH|]. apply sublist_filter.
Qed.

Lemma sweep_sublist now l : sweep now l `sublist_of` l.
Proof.
  unfold sweep. case_match; [done|]. case_match; [|apply sublist_filter].
  etrans; [apply foldl_del_sublist|apply sublist_filter].
Qed.

Lemma entries_ok_set a e entries :
  entries_ok entries -> entry_ok e -> entries_ok (assoc_set a e entries).
Proof.
  intros [Hnd Hok] He. split; [by apply assoc_set_NoDup|].
  induction entries as [|[k v] l IH]; simpl; [by constructor|].
  apply NoDup_cons in Hnd as [_ Hnd]. apply Forall_cons in Hok as [Hv Hok].
  case_decide; (apply Forall_cons; split; [done|auto]).
Qed.

Lemma recordAuthFailure_ok address now entries :
  entries_ok entries -> entries_ok (recordAuthFailure address now entries).2.
Proof.
  intros Hok. unfold recordAuthFailure. destruct (truthy address) as [a|]; [|done]. simpl.
  assert (entries_ok (sweep now entries)) as Hs by (by eapply entries_ok_sublist; [apply sweep_sublist|]).
  apply entries_ok_set; [done|].
  apply fail_entry_ok. destruct (assoc_get a (sweep now entries)) as [e|] eqn:He; simpl;
    [right|by left]. by eapply entries_ok_get.
Qed.

Lemma recordAuthSuccess_ok address entries :
  entries_ok entries -> entries_ok (recordAuthSuccess address entries).
Proof.
  intros Hok. unfold recordAuthSuccess. destruct (truthy address); [|done].
  eapply entries_ok_sublist; [apply sublist_filter|done].
Qed.

(** ** A run of attempts *)

Record Attempt := mkAttempt { at_address : string; at_now : Z; at_good : bool }.

(** What [authenticateMessage] does with the module: refuse while in backoff,
    else record the outcome of the credential check. *)
Definition attempt (ev : Attempt) (entries : Entries) : Entries :=
  let address := Some (at_address ev) in
  match checkAuthThrottle address (at_now ev) entries with
  | Throttled _ => entries
  | Allowed =>
      if at_good ev then recordAuthSuccess address entries
      else (recordAuthFailure address (at_now ev) entries).2
  end.

(** The times of the guesses of [a] that were not refused. *)
Fixpoint guesses (a : string) (evs : list Attempt) (entries : Entries) : list Z :=
  match evs with
  | [] => []
  | ev :: evs =>
      (if decide (at_address ev = a /\
                  checkAuthThrottle (Some a) (at_now ev) entries = Allowed)
       then [at_now ev] else [])
      ++ guesses a evs (attempt ev entries)
  end.

Lemma attempt_ok ev entries : entries_ok entries -> entries_ok (attempt ev entries).
Proof.
  intros Hok. unfold attempt. case_match; [|done].
  case_match; [by apply recordAuthSuccess_ok|by apply recordAuthFailure_ok].
Qed.

(** Fewer than [SWEEP_ABOVE] addresses: nothing is ever evicted. *)
Section Pacing.
Context (A : list string) (HA : (length A < SWEEP_ABOVE)%nat).

Definition tracks (entries : Entries) : Prop :=
  entries_ok entries /\ map fst entries ⊆ A.

Lemma tracks_sweep now entries : tracks entries -> sweep now entries = entries.
Proof.
  intros [[Hnd _] Hsub]. unfold sweep.
  assert (length entries < SWEEP_ABOVE)%nat as Hlt.
  { rewrite <- (length_map fst). eapply Nat.le_lt_trans; [|exact HA].
    apply submseteq_length, NoDup_submseteq; done. }
  by apply Nat.ltb_lt in Hlt as ->.
Qed.

Lemma tracks_attempt ev entries :
  tracks entries -> at_address ev ∈ A -> tracks (attempt ev entries).
Proof.
  intros Ht Hev. split; [apply attempt_ok, Ht|].
  destruct Ht as [Hok Hsub]. unfold attempt. case_match; [|done]. case_match.
  - unfold recordAuthSuccess. case_match; [|done]. etrans; [|exact Hsub].
    intros x. apply sublist_subseteq, (fmap_sublist fst), sublist_filter.
  - unfold recordAuthFailure. destruct (truthy (Some (at_address ev))) as [b|] eqn:Hb; [|done].
    simpl in Hb. case_decide; [done|]. injection Hb as <-. simpl.
    rewrite tracks_sweep by done.
    intros x [->|Hx]%assoc_set_keys; [done|by apply Hsub].
Qed.

Lemma attempt_other a ev entries :
  tracks entries -> at_address ev <> a ->
  assoc_get a (attempt ev entries) = assoc_get a entries.
Proof.
  intros Ht Hne. unfold attempt. case_match; [|done].
  case_match; unfold recordAuthSuccess, recordAuthFailure;
    (destruct (truthy (Some (at_address ev))) as [b|] eqn:Hb; [|done]);
    simpl in Hb; (case_decide; [done|]); injection Hb as <-; simpl.
  - by apply assoc_get_del_ne.
  - rewrite assoc_get_set_ne by done. by rewrite tracks_sweep.
Qed.

Lemma check_allowed a now entries :
  a <> ""%string -> entries_ok entries ->
  checkAuthThrottle (Some a) now entries = Allowed <->
  forall e, assoc_get a entries = Some e -> lockedUntil e <= now.
Proof.
  intros Ha _. unfold checkAuthThrottle. simpl. rewrite decide_False by done.
  destruct (assoc_get a entries) as [e|]; [|naive_solver].
  destruct (lockedUntil e <=? now) eqn:Hc; split; try done.
  - intros _ e' [= <-]. lia.
  - intros H. specialize (H _ eq_refl). lia.
Qed.

(** A guess that is not refused counts as one more failure of its address. *)
Lemma attempt_guess ev entries :
  tracks entries -> at_address ev <> ""%string -> at_good ev = false ->
  checkAuthThrottle (Some (at_address ev)) (at_now ev) entries = Allowed ->
  let e := default (mkEntry 0 0 0 (at_now ev)) (assoc_get (at_address ev) entries) in
  assoc_get (at_address ev) (attempt ev entries) = Some (fail_entry (at_now ev) e).
Proof.
  intros Ht Hne Hbad Hc. unfold attempt. rewrite Hc, Hbad.
  unfold recordAuthFailure. simpl. rewrite decide_False by done. simpl.
  by rewrite assoc_get_set_eq, tracks_sweep.
Qed.

Definition failed (e : option Entry) : Z := default 0 (failures <$> e).

(** Guesses at the times [ts], the address having entry [e] before them. *)
Definition paced (e : option Entry) (ts : list Z) : Prop :=
  (forall x u, e = Some x -> ts !! 0%nat = Some u -> lockedUntil x <= u) /\
  (forall i t u, ts !! i = Some t -> ts !! S i = Some u ->
   FAILURES_BEFORE_LOCKOUT <= failed e + Z.of_nat (S i) ->
   t + lockout (failed e + Z.of_nat (S i)) <= u).

Lemma paced_cons e t ts :
  (forall x, e = Some x -> lockedUntil x <= t) -> (forall x, e = Some x -> entry_ok x) ->
  paced (Some (fail_entry t (default (mkEntry 0 0 0 t) e))) ts -> paced e (t :: ts).
Proof.
  intros Hf Hok [H0 HS]. destruct (fail_entry_ok t (default (mkEntry 0 0 0 t) e))
    as ([_ _ Hu] & Hn & Ht).
  { destruct e; simpl; [right; by apply Hok|by left]. }
  assert (failed (Some (fail_entry t (default (mkEntry 0 0 0 t) e))) = failed e + 1) as Hfe.
  { unfold failed. simpl. rewrite Hn. by destruct e. }
  split; [intros x u -> [= <-]; by apply Hf|]. intros [|i] x u Hx Hul Hle.
  - injection Hx as <-. specialize (H0 _ u eq_refl Hul). rewrite Hu in H0.
    unfold failed in Hfe. simpl in Hfe. rewrite Hfe, Ht in H0. simpl in Hle.
    by rewrite (proj2 (Z.ltb_ge _ _)) in H0.
  - specialize (HS i x u Hx Hul). rewrite Hfe in HS.
    replace (failed e + Z.of_nat (S (S i))) with (failed e + 1 + Z.of_nat (S i)) in * by lia.
    by apply HS.
Qed.

Lemma guesses_paced a evs entries :
  a <> ""%string -> tracks entries ->
  Forall (fun ev => at_address ev ∈ A) evs ->
  Forall (fun ev => at_address ev = a -> at_good ev = false) evs ->
  paced (assoc_get a entries) (guesses a evs entries).
Proof.
  intros Ha. revert entries. induction evs as [|ev evs IH]; intros entries Ht HAll Hbad;
    [by split|].
  apply Forall_cons in HAll as [HAev HAll]. apply Forall_cons in Hbad as [Hbev Hbad].
  specialize (IH (attempt ev entries) (tracks_attempt ev entries Ht HAev) HAll Hbad).
  simpl. case_decide as Hd; simpl.
  - destruct Hd as [Heq Hc]. apply paced_cons.
    + apply check_allowed; [done|apply Ht|done].
    + intros x Hx. eapply entries_ok_get; [apply Ht|done].
    + pose proof (attempt_guess ev entries Ht) as Hg. rewrite Heq in Hg.
      rewrite Hg in IH by auto. exact IH.
  - destruct (decide (at_address ev = a)) as [Heq|Hne]; [|by rewrite attempt_other in IH].
    unfold attempt in IH |- *. rewrite Heq in IH |- *.
    destruct (checkAuthThrottle (Some a) (at_now ev) entries) eqn:Hc; [|exact IH].
    exfalso. by apply Hd.
Qed.
End Pacing.

(** Guesses are paced.  Whatever the other addresses do, as long as fewer
    than 256 addresses turn up, consecutive guesses of one address that the
    relay evaluates are separated by the lockout of the failures so far: from
    the fifth on 30 s, doubling up to 15 minutes per guess. *)
Theorem guess_pacing A a evs i t u
    (Hfew : (length A < SWEEP_ABOVE)%nat) (Ha : a <> ""%string)
    (HA : Forall (fun ev => at_address ev ∈ A) evs)
    (Hbad : Forall (fun ev => at_address ev = a -> at_good ev = false) evs)
    (Ht : guesses a evs [] !! i = Some t) (Hu : guesses a evs [] !! S i = Some u)
    (Hi : (5 <= S i)%nat) :
  t + Z.min (30000 * 2 ^ (Z.of_nat (S i) - 5)) 900000 <= u.
Proof.
  assert (tracks A []) as H0.
  { split; [|by intros ? ?%not_elem_of_nil]. split; [constructor|constructor]. }
  destruct (guesses_paced A Hfew a evs [] Ha H0 HA Hbad) as [_ HS].
  assert (FAILURES_BEFORE_LOCKOUT <= Z.of_nat (S i)) as Hle
    by (unfold FAILURES_BEFORE_LOCKOUT; lia).
  specialize (HS i t u Ht Hu). unfold failed in HS. simpl fmap in HS. simpl default in HS.
  rewrite Z.add_0_l in HS. unfold lockout in HS.
  rewrite (proj2 (Z.ltb_ge _ _) Hle) in HS. by apply HS.
Qed.

Definition script : list Attempt :=
  map (fun t => mkAttempt "a" t false) [0; 1; 2; 3; 4; 5; 29999; 30004; 40000; 90004].

Lemma guess_pacing_witness :
  guesses "a" script [] = [0; 1; 2; 3; 4; 30004; 90004] /\
  30004 + Z.min (30000 * 2 ^ (Z.of_nat 6 - 5)) 900000 <= 90004.
Proof.
  split; [by vm_compute|]. apply (guess_pacing ["a"] "a" script 5).
  - apply (bool_decide_unpack _). vm_compute. exact I.
  - done.
  - apply (bool_decide_unpack _). vm_compute. exact I.
  - repeat constructor.
  - by vm_compute.
  - by vm_compute.
  - lia.
Defined.
