(* ===== verification/LocalPairing.v ===== *)
(** * LocalPairing: the printed offer and the session tokens of the relay

    [apps/relay/src/pairing-local.ts].  The module's state is the offer, the
    [sessions] map and whether a gate is installed; the listeners it notifies
    are the [Notice]s an operation returns.  The digest is a parameter, and
    the random values and the clock are arguments.  [redeemLocalPairing]
    awaits the human in its middle, so it is two steps: [redeem] up to the
    question and [redeem_answer] after it. *)

From S2P Require Import Prelude Bytes Grants.

Definition NONCE_TTL_MS : Z := 15 * 60 * 1000.
Definition SESSION_TTL_MS : Z := 24 * 60 * 60 * 1000.
Definition MAX_CODE_ATTEMPTS : Z := 5.

Record Session := mkSess {
  se_expiresAt : Z;
  se_grant : GrantRecord;
  se_renewMs : Z;
  se_label : option string;
  se_deviceId : option string;
}.

Record LocalOffer := mkOffer {
  nonceKey : string;
  codeKey : string;
  of_expiresAt : Z;
  wrong : Z;
}.

Abbreviation Sessions := (list (string * Session)).

Record PairingState := mkPS {
  offer : option LocalOffer;
  sessions : Sessions;
  hasGate : bool;
}.

Definition with_offer (o : option LocalOffer) (st : PairingState) : PairingState :=
  mkPS o (sessions st) (hasGate st).
Definition with_sessions (s : Sessions) (st : PairingState) : PairingState :=
  mkPS (offer st) s (hasGate st).

Inductive LocalPairingOutcome := paired | refused | burned.

(** What the listeners are told. *)
Inductive Notice :=
| TokenUsed (deviceId : string)
| TokenRevoked (tokenIds : list string) (grantId : option string)
| Spent (outcome : LocalPairingOutcome).

Inductive Via := scan | code.

Record SessionToken := mkToken { tk_token : jstr; tk_expiresAt : Z }.

Inductive LocalPairingResult :=
| PairOk (session : SessionToken)
| PairInvalid
| PairRefused.

(** The question asked at the machine, and what [redeem] still has to do
    after it. *)
Record LocalPairingRequest := mkReq {
  rq_label : option string;
  rq_via : Via;
  rq_deviceId : string;
  rq_now : Z;
}.

Inductive Redemption :=
| Answered (r : LocalPairingResult)
| Asking (req : LocalPairingRequest).

Record Credential := mkCred { cr_nonce : option jstr; cr_code : option jstr }.

(** [input.replace(/[\s-]/g, "")], digits only. *)
Definition normalizeTyped (input : jstr) : option jstr :=
  let digits := filter (fun c => (is_space c || (c =? 45)) = false) input in
  if decide (digits = []) then None
  else if forallb is_digit digits then Some digits else None.

(** [Buffer.from(s, "hex")]: pairs of hex digits up to the first that is none. *)
Definition hex_value (a : Ascii.ascii) : option Z :=
  let n := Z.of_N (Ascii.N_of_ascii a) in
  if (48 <=? n) && (n <=? 57) then Some (n - 48)
  else if (97 <=? n) && (n <=? 102) then Some (n - 87)
  else if (65 <=? n) && (n <=? 70) then Some (n - 55) else None.

Fixpoint bufferFromHex (s : string) : bytes :=
  match s with
  | String a (String b s) =>
      match hex_value a, hex_value b with
      | Some x, Some y => x * 16 + y :: bufferFromHex s
      | _, _ => []
      end
  | _ => []
  end.

(** [timingSafeEqual] of two buffers of one length is their equality. *)
Definition sameDigest (a b : string) : bool :=
  let left := bufferFromHex a in
  let right := bufferFromHex b in
  if negb (length left =? length right)%nat || (length left =? 0)%nat then false
  else bool_decide (left = right).

(** [if (entry.expiresAt <= now) map.delete(key)] over the map. *)
Definition prune (now : Z) (map : Sessions) : Sessions :=
  filter (fun kv => ~ (se_expiresAt kv.2 <= now)) map.

Section Digest.
Context (digest : jstr -> string).

Definition sessionTokenId (token : jstr) : string := digest token.

Definition deviceIdForTokenId (tokenId : string) (st : PairingState) : option string :=
  assoc_get tokenId (sessions st) ≫= se_deviceId.

(** [emitRevocation]: silent when nothing was revoked. *)
Definition emitRevocation (tokenIds : list string) (grantId : option string) : list Notice :=
  match tokenIds with [] => [] | _ => [TokenRevoked tokenIds grantId] end.

Definition setLocalPairingGate (installed : bool) (st : PairingState) : PairingState :=
  mkPS (offer st) (sessions st) installed.

(** Arm one local pairing offer; throws on a code that is not digits. *)
Definition armLocalPairing (code : jstr) (ttlMs now : Z) (nonce : jstr) (st : PairingState)
    : result unit (jstr * Z) * PairingState :=
  match normalizeTyped code with
  | None => (Err tt, st)
  | Some digits =>
      let expiresAt := now + ttlMs in
      (Ok (nonce, expiresAt), with_offer (Some (mkOffer (digest nonce) (digest digits) expiresAt 0)) st)
  end.

(** Which half of the offer this credential matches, if either. *)
Definition resolveVia (current : LocalOffer) (credential : Credential) : option Via :=
  let typed := match normalizeTyped (default [] (cr_code credential)) with
               | Some typed => if sameDigest (digest typed) (codeKey current) then Some code else None
               | None => None
               end in
  match cr_nonce credential with
  | Some (c :: cs) =>
      if sameDigest (digest (c :: cs)) (nonceKey current) then Some scan else typed
  | _ => typed
  end.

(** The entry both token operations store. *)
Definition session_entry (ttlMs now : Z) (grant : GrantRecord) (label deviceId : option string)
    : Session :=
  mkSess (now + ttlMs) grant ttlMs (truthy label) (truthy deviceId).

(** [issueSessionToken], its random token an argument, and
    [registerSessionToken]: the two differ in where the token comes from. *)
Definition registerSessionToken (token : jstr) (ttlMs now : Z) (grant : GrantRecord)
    (label deviceId : option string) (st : PairingState) : SessionToken * PairingState :=
  (mkToken token (now + ttlMs),
   with_sessions (assoc_set (digest token) (session_entry ttlMs now grant label deviceId)
                    (prune now (sessions st))) st).

Definition issueSessionToken (random : jstr) (ttlMs now : Z) (grant : GrantRecord)
    (label deviceId : option string) (st : PairingState) : SessionToken * PairingState :=
  registerSessionToken random ttlMs now grant label deviceId st.

(** [redeemLocalPairing] once the answer is in. *)
Definition redeem_answer (allowed : bool) (req : LocalPairingRequest) (token : jstr)
    (st : PairingState) : LocalPairingResult * PairingState * list Notice :=
  if allowed then
    let '(session, st) := issueSessionToken token SESSION_TTL_MS (rq_now req) FULL_GRANT
                            (rq_label req) (Some (rq_deviceId req)) st in
    (PairOk session, st, [Spent paired])
  else (PairRefused, st, [Spent refused]).

(** [redeemLocalPairing] up to the question. *)
Definition redeem (credential : Credential) (label : option string) (now : Z)
    (deviceId : string) (token : jstr) (st : PairingState)
    : Redemption * PairingState * list Notice :=
  match offer st with
  | None => (Answered PairInvalid, with_offer None st, [])
  | Some current =>
      if of_expiresAt current <=? now then (Answered PairInvalid, with_offer None st, [])
      else
        match resolveVia current credential with
        | None =>
            match normalizeTyped (default [] (cr_code credential)) with
            | None => (Answered PairInvalid, st, [])
            | Some _ =>
                let wrong := wrong current + 1 in
                if MAX_CODE_ATTEMPTS <=? wrong
                then (Answered PairInvalid, with_offer None st, [Spent burned])
                else (Answered PairInvalid,
                      with_offer (Some (mkOffer (nonceKey current) (codeKey current)
                                          (of_expiresAt current) wrong)) st, [])
            end
        | Some via =>
            let st := with_offer None st in
            let req := mkReq label via deviceId now in
            if hasGate st then (Asking req, st, [])
            else let '(r, st, notices) := redeem_answer true req token st in
                 (Answered r, st, notices)
        end
  end.

(** The display label behind a session token, if it has one. *)
Definition labelForToken (token : jstr) (now : Z) (st : PairingState) : option string :=
  match assoc_get (digest token) (sessions st) with
  | None => None
  | Some entry => if se_expiresAt entry <=? now then None else se_label entry
  end.

(** The grant behind a session token; a successful lookup renews it. *)
Definition grantForToken (token : jstr) (now : Z) (st : PairingState)
    : option GrantRecord * PairingState * list Notice :=
  let key := digest token in
  match assoc_get key (sessions st) with
  | None => (None, st, [])
  | Some entry =>
      if se_expiresAt entry <=? now
      then (None, with_sessions (assoc_del key (sessions st)) st, [])
      else if negb (isGrantActive (se_grant entry) now)
      then (None, with_sessions (assoc_del key (sessions st)) st, [])
      else
        let renewed := mkSess (now + se_renewMs entry) (se_grant entry) (se_renewMs entry)
                         (se_label entry) (se_deviceId entry) in
        (Some (se_grant entry), with_sessions (assoc_set key renewed (sessions st)) st,
         match truthy (se_deviceId entry) with Some d => [TokenUsed d] | None => [] end)
  end.

Definition isValidSessionToken (token : jstr) (now : Z) (st : PairingState)
    : bool * PairingState * list Notice :=
  let '(grant, st, notices) := grantForToken token now st in
  (bool_decide (is_Some grant), st, notices).

(** Drop every token bound to a grant id. *)
Definition revokeGrant (grantId : string) (st : PairingState)
    : nat * PairingState * list Notice :=
  let tokenIds := map fst (filter (fun kv => gr_id (se_grant kv.2) = grantId) (sessions st)) in
  (length tokenIds,
   with_sessions (filter (fun kv => gr_id (se_grant kv.2) <> grantId) (sessions st)) st,
   emitRevocation tokenIds (Some grantId)).

Definition revokeSessionToken (token : jstr) (st : PairingState) : PairingState * list Notice :=
  let key := digest token in
  match assoc_get key (sessions st) with
  | None => (st, [])
  | Some entry =>
      (with_sessions (assoc_del key (sessions st)) st,
       emitRevocation [key] (Some (gr_id (se_grant entry))))
  end.

(** Take the local offer down without spending it. *)
Definition disarmLocalPairing (st : PairingState) : PairingState := with_offer None st.

(** True when an offer is outstanding. *)
Definition hasLivePairingNonce (now : Z) (st : PairingState) : bool * PairingState :=
  match offer st with
  | None => (false, st)
  | Some o => if of_expiresAt o <=? now then (false, with_offer None st) else (true, st)
  end.

Definition resetPairingState (st : PairingState) : PairingState := mkPS None [] false.

(** ** Runs *)

Inductive Event :=
| Arm (typed : jstr) (ttlMs now : Z) (nonce : jstr)
| Redeem (credential : Credential) (label : option string) (now : Z) (deviceId : string)
    (token : jstr)
| Answer (allowed : bool) (req : LocalPairingRequest) (token : jstr)
| Issue (token : jstr) (ttlMs now : Z) (grant : GrantRecord) (label deviceId : option string)
| Lookup (token : jstr) (now : Z)
| RevokeGrant (grantId : string)
| RevokeToken (token : jstr)
| Disarm
| HasLive (now : Z)
| SetGate (installed : bool).

Definition step (ev : Event) (st : PairingState) : PairingState :=
  match ev with
  | Arm typed ttlMs now nonce => (armLocalPairing typed ttlMs now nonce st).2
  | Redeem credential label now deviceId token =>
      (redeem credential label now deviceId token st).1.2
  | Answer allowed req token => (redeem_answer allowed req token st).1.2
  | Issue token ttlMs now grant label deviceId =>
      (registerSessionToken token ttlMs now grant label deviceId st).2
  | Lookup token now => (grantForToken token now st).1.2
  | RevokeGrant grantId => (revokeGrant grantId st).1.2
  | RevokeToken token => (revokeSessionToken token st).1
  | Disarm => disarmLocalPairing st
  | HasLive now => (hasLivePairingNonce now st).2
  | SetGate installed => setLocalPairingGate installed st
  end.

(** ** The budget of a printed code *)

Definition live_offer (now : Z) (st : PairingState) : option LocalOffer :=
  o ← offer st; if of_expiresAt o <=? now then None else Some o.

(** The event compares typed digits with the live code. *)
Definition compares (ev : Event) (st : PairingState) : bool :=
  match ev with
  | Redeem credential _ now _ _ =>
      match live_offer now st with
      | Some o =>
          match resolveVia o credential with Some scan => false | _ =>
            bool_decide (is_Some (normalizeTyped (default [] (cr_code credential))))
          end
      | None => false
      end
  | _ => false
  end.

(** The event redeems the offer, by either half. *)
Definition redeems (ev : Event) (st : PairingState) : bool :=
  match ev with
  | Redeem credential _ now _ _ =>
      match live_offer now st with
      | Some o => bool_decide (is_Some (resolveVia o credential))
      | None => false
      end
  | _ => false
  end.

Definition arms (ev : Event) (st : PairingState) : bool :=
  match ev with Arm _ _ _ _ => true | _ => false end.

(** How many events of a run satisfy [p] in the state they find. *)
Fixpoint tally (p : Event -> PairingState -> bool) (evs : list Event) (st : PairingState) : Z :=
  match evs with
  | [] => 0
  | ev :: evs => (if p ev st then 1 else 0) + tally p evs (step ev st)
  end.

Definition initial : PairingState := mkPS None [] false.

(** Guesses the live offer still stands. *)
Definition budget (st : PairingState) : Z :=
  match offer st with Some o => MAX_CODE_ATTEMPTS - wrong o | None => 0 end.

Definition offer_ok (st : PairingState) : Prop :=
  match offer st with Some o => 0 <= wrong o < MAX_CODE_ATTEMPTS | None => True end.

Definition armed (st : PairingState) : Z := match offer st with Some _ => 1 | None => 0 end.

Definition b2z (b : bool) : Z := if b then 1 else 0.

Lemma resolve_code_typed o credential :
  resolveVia o credential = Some code ->
  is_Some (normalizeTyped (default [] (cr_code credential))).
Proof. unfold resolveVia. repeat case_match; try done; eauto. Qed.

(** The operations on tokens leave the offer alone. *)
Definition about_offer (ev : Event) : bool :=
  match ev with Arm _ _ _ _ | Redeem _ _ _ _ _ | Disarm | HasLive _ => true | _ => false end.

Lemma step_offer_same ev st : about_offer ev = false -> offer (step ev st) = offer st.
Proof.
  destruct ev; try done; intros _; simpl.
  - by destruct allowed.
  - unfold grantForToken. by repeat case_match.
  - unfold revokeSessionToken. by case_match.
Qed.

(** One event: what it spends and what it adds. *)
Lemma step_budget ev st :
  offer_ok st ->
  offer_ok (step ev st) /\
  b2z (compares ev st) + budget (step ev st) <= budget st + 5 * b2z (arms ev st) /\
  b2z (redeems ev st) + armed (step ev st) <= armed st + b2z (arms ev st).
Proof.
  intros Hok. destruct (about_offer ev) eqn:Hev.
  2:{ unfold offer_ok, budget, armed in *. rewrite step_offer_same by done.
      split; [done|]. destruct ev; simpl; try done; lia. }
  unfold offer_ok, budget, armed, MAX_CODE_ATTEMPTS in *. destruct ev; try done; simpl.
  - unfold armLocalPairing. destruct (normalizeTyped typed), (offer st) as [o|] eqn:Ho; simpl;
      rewrite ?Ho; simpl; lia.
  - unfold live_offer, redeem, MAX_CODE_ATTEMPTS. destruct (offer st) as [o|] eqn:Ho; simpl; [|lia].
    destruct (of_expiresAt o <=? now); simpl; [lia|].
    destruct (resolveVia o credential) as [v|] eqn:Hv; simpl.
    + destruct (hasGate st), v; simpl; try case_bool_decide; simpl; lia.
    + destruct (normalizeTyped (default [] (cr_code credential))) as [t|]; simpl.
      * destruct (5 <=? wrong o + 1) eqn:Hm; simpl; lia.
      * rewrite Ho. simpl. lia.
  - destruct (offer st); lia.
  - unfold hasLivePairingNonce. destruct (offer st) as [o|] eqn:Ho; simpl; [|rewrite Ho; lia].
    destruct (of_expiresAt o <=? now); simpl; [lia|rewrite Ho; lia].
Qed.

Lemma tally_budget evs st :
  offer_ok st ->
  tally compares evs st <= budget st + 5 * tally arms evs st /\
  tally redeems evs st <= armed st + tally arms evs st.
Proof.
  revert st. induction evs as [|ev evs IH]; intros st Hok; simpl.
  - unfold budget, armed, offer_ok, MAX_CODE_ATTEMPTS in *. destruct (offer st); lia.
  - destruct (step_budget ev st Hok) as (Hok' & Hc & Hr). destruct (IH _ Hok') as [Hc' Hr'].
    unfold b2z in *. lia.
Qed.

(** C12: a printed code buys five guesses and one pairing.  Over any sequence
    of operations, with whatever credentials and at whatever times, the typed
    digits are compared with a live code at most five times per offer armed,
    and at most one redemption per offer armed gets as far as the human. *)
Theorem guess_budget evs :
  tally compares evs initial <= 5 * tally arms evs initial /\
  tally redeems evs initial <= tally arms evs initial.
Proof. destruct (tally_budget evs initial I) as [Hc Hr]. split; [exact Hc|exact Hr]. Qed.

(** ** Token lifetime: the abstract store

    What a token is worth, without pruning, idle entries or insertion order:
    a deadline, the window it slides by and the grant.  One machine per key. *)

Record Life := mkLife { li_deadline : Z; li_renew : Z; li_grant : GrantRecord }.

Definition usable (l : Life) (now : Z) : bool :=
  (now <? li_deadline l) && isGrantActive (li_grant l) now.

(** The registration an event makes, if any: key, window, time and grant. *)
Definition registers (ev : Event) (st : PairingState) : option (string * Life) :=
  match ev with
  | Redeem credential _ now _ token =>
      if redeems ev st && negb (hasGate st)
      then Some (digest token, mkLife (now + SESSION_TTL_MS) SESSION_TTL_MS FULL_GRANT) else None
  | Answer true req token =>
      Some (digest token, mkLife (rq_now req + SESSION_TTL_MS) SESSION_TTL_MS FULL_GRANT)
  | Issue token ttlMs now grant _ _ => Some (digest token, mkLife (now + ttlMs) ttlMs grant)
  | _ => None
  end.

(** The abstract store of one key. *)
Definition life_step (key : string) (ev : Event) (st : PairingState) (l : option Life)
    : option Life :=
  match registers ev st with
  | Some (k, new) => if decide (k = key) then Some new else l
  | None =>
      match ev with
      | Lookup token now =>
          if decide (digest token = key) then
            l ← l; if usable l now
                   then Some (mkLife (now + li_renew l) (li_renew l) (li_grant l)) else None
          else l
      | RevokeGrant grantId => l ← l; if decide (gr_id (li_grant l) = grantId) then None else Some l
      | RevokeToken token => if decide (digest token = key) then None else l
      | _ => l
      end
  end.

(** What a lookup of [key] answers in the abstract store. *)
Definition life_answer (key : string) (ev : Event) (l : option Life) : list (option GrantRecord) :=
  match ev with
  | Lookup token now =>
      if decide (digest token = key)
      then [l ← l; if usable l now then Some (li_grant l) else None] else []
  | _ => []
  end.

(** The answers the relay gives to the lookups of [key], and those of the
    abstract store. *)
Definition answer (key : string) (ev : Event) (st : PairingState) : list (option GrantRecord) :=
  match ev with
  | Lookup token now =>
      if decide (digest token = key) then [(grantForToken token now st).1.1] else []
  | _ => []
  end.

Fixpoint answers (key : string) (evs : list Event) (st : PairingState) : list (option GrantRecord) :=
  match evs with
  | [] => []
  | ev :: evs => answer key ev st ++ answers key evs (step ev st)
  end.

Fixpoint life_answers (key : string) (evs : list Event) (st : PairingState) (l : option Life)
    : list (option GrantRecord) :=
  match evs with
  | [] => []
  | ev :: evs =>
      life_answer key ev l ++ life_answers key evs (step ev st) (life_step key ev st l)
  end.

(** Time goes forward; the answer of a human carries the time of the question. *)
Definition tick (t : Z) (ev : Event) : option Z :=
  match ev with
  | Redeem _ _ now _ _ | Issue _ _ now _ _ _ | Lookup _ now | HasLive now | Arm _ _ now _ =>
      if t <=? now then Some now else None
  | Answer _ req _ => if rq_now req <=? t then Some t else None
  | _ => Some t
  end.

Fixpoint clocked (t : Z) (evs : list Event) : bool :=
  match evs with
  | [] => true
  | ev :: evs => match tick t ev with Some t => clocked t evs | None => false end
  end.

(** The concrete entry of [key] at time [t] stands for the abstract one, which
    it may only be missing when the deadline has passed. *)
Definition represents (t : Z) (l : option Life) (e : option Session) : Prop :=
  match e, l with
  | Some e, Some l => l = mkLife (se_expiresAt e) (se_renewMs e) (se_grant e)
  | None, Some l => li_deadline l <= t
  | None, None => True
  | Some _, None => False
  end.

Definition store_rel (key : string) (t : Z) (l : option Life) (st : PairingState) : Prop :=
  NoDup (map fst (sessions st)) /\ represents t l (assoc_get key (sessions st)).

Lemma represents_later t t' l e : t <= t' -> represents t l e -> represents t' l e.
Proof. intros Ht. destruct e, l; simpl; try done. lia. Qed.

Lemma prune_rel key now t l st :
  now <= t -> store_rel key t l st ->
  NoDup (map fst (prune now (sessions st))) /\
  represents t l (assoc_get key (prune now (sessions st))).
Proof.
  intros Hle [Hnd Hr]. split; [by apply filter_keys_NoDup|]. unfold prune.
  rewrite assoc_get_filter by done.
  destruct (assoc_get key (sessions st)) as [e|]; simpl; [|done].
  case_decide as Hd; [done|]. destruct l as [l|]; simpl in *; [|done]. subst. simpl.
  lia.
Qed.

Lemma register_rel key token ttlMs now grant label deviceId t l st :
  now <= t -> store_rel key t l st ->
  store_rel key t
    (if decide (digest token = key) then Some (mkLife (now + ttlMs) ttlMs grant) else l)
    (registerSessionToken token ttlMs now grant label deviceId st).2.
Proof.
  intros Hle Hr. destruct (prune_rel key now t l st Hle Hr) as [Hnd Hp].
  split; simpl; [by apply assoc_set_NoDup|]. case_decide as Hk.
  - rewrite Hk, assoc_get_set_eq. done.
  - by rewrite assoc_get_set_ne by congruence.
Qed.

Lemma lookup_rel key token now t l st :
  t <= now -> store_rel key t l st ->
  store_rel key now (life_step key (Lookup token now) st l) (grantForToken token now st).1.2 /\
  answer key (Lookup token now) st = life_answer key (Lookup token now) l.
Proof.
  intros Ht [Hnd Hr]. unfold life_step, life_answer, answer, grantForToken, usable. simpl.
  destruct (decide (digest token = key)) as [->|Hne].
  - destruct (assoc_get key (sessions st)) as [e|] eqn:He, l as [l|]; simpl in *; try done.
    + subst l. simpl. rewrite Z.ltb_antisym.
      destruct (se_expiresAt e <=? now) eqn:Hx; simpl;
        [|destruct (isGrantActive (se_grant e) now); simpl];
        (split; [split; simpl; [keys_NoDup|]|done]);
        rewrite ?assoc_get_del_eq, ?assoc_get_set_eq; done.
    + rewrite (proj2 (Z.ltb_ge _ _)) by lia. simpl. split; [split; [done|by rewrite He]|done].
    + split; [split; [done|by rewrite He]|done].
  - split; [|done].
    assert (store_rel key now l st) as Hsr by (split; [done|by eapply represents_later]).
    destruct (assoc_get (digest token) (sessions st)) as [e|]; [|done]. destruct Hsr as [_ Hr'].
    destruct (se_expiresAt e <=? now); [|destruct (negb _)]; (split; simpl;
      [keys_NoDup|]);
      by rewrite ?assoc_get_del_ne, ?assoc_get_set_ne by congruence.
Qed.

Lemma redeem_rel key credential label now deviceId token t l st :
  t <= now -> store_rel key t l st ->
  let ev := Redeem credential label now deviceId token in
  store_rel key now (life_step key ev st l) (step ev st).
Proof.
  intros Ht Hsr ev. assert (store_rel key now l st) as Hs.
  { destruct Hsr. split; [done|by eapply represents_later]. }
  unfold life_step, registers, ev, step, redeem, redeems, live_offer.
  destruct (offer st) as [o|]; simpl; [|exact Hs].
  destruct (of_expiresAt o <=? now); simpl; [exact Hs|].
  destruct (resolveVia o credential) as [v|]; simpl.
  - destruct (hasGate st); simpl; [exact Hs|].
    apply (register_rel key token SESSION_TTL_MS now FULL_GRANT label (Some deviceId) now l
      (with_offer None st)); [lia|exact Hs].
  - destruct (normalizeTyped _); [|exact Hs]. destruct (MAX_CODE_ATTEMPTS <=? _); exact Hs.
Qed.

Lemma revoke_rel key grantId t l st :
  store_rel key t l st ->
  store_rel key t (life_step key (RevokeGrant grantId) st l) (revokeGrant grantId st).1.2.
Proof.
  intros [Hnd Hr]. split; simpl; [by apply filter_keys_NoDup|]. rewrite assoc_get_filter by done.
  unfold life_step. destruct (assoc_get key (sessions st)) as [e|], l as [l|]; simpl in *; try done.
  - subst l. simpl. destruct (decide (gr_id (se_grant e) = grantId)) as [Hg|Hg];
      by case_decide.
  - by case_decide.
Qed.

Lemma step_rel key ev t t' l st :
  tick t ev = Some t' -> store_rel key t l st ->
  store_rel key t' (life_step key ev st l) (step ev st) /\ answer key ev st = life_answer key ev l.
Proof.
  intros Htick Hsr. assert (t <= t' -> store_rel key t' l st) as Hlater.
  { intros Hle. destruct Hsr. split; [done|by eapply represents_later]. }
  destruct ev; simpl in Htick; repeat case_match; simplify_eq.
  - split; [|done]. unfold life_step. simpl. unfold armLocalPairing.
    case_match; apply Hlater; lia.
  - split; [|done]. apply (redeem_rel key credential label t' deviceId token t l st); [lia|done].
  - split; [|done]. destruct allowed; [|exact Hsr].
    by apply (register_rel key token SESSION_TTL_MS (rq_now req) FULL_GRANT (rq_label req)
      (Some (rq_deviceId req)) t' l st); [lia|].
  - split; [|done]. apply (register_rel key token ttlMs t' grant label deviceId t' l st); [lia|].
    apply Hlater. lia.
  - apply (lookup_rel key token t' t l st); [lia|done].
  - split; [|done]. by apply revoke_rel.
  - split; [|done]. unfold life_step. simpl. unfold revokeSessionToken. destruct Hsr as [Hnd Hr].
    destruct (decide (digest token = key)) as [->|Hne].
    + destruct (assoc_get key (sessions st)) as [e|] eqn:He; (split; simpl;
        [keys_NoDup|]); [by rewrite assoc_get_del_eq|by rewrite He].
    + destruct (assoc_get (digest token) (sessions st)); (split; simpl;
        [keys_NoDup|]); [by rewrite assoc_get_del_ne by congruence|done].
  - done.
  - split; [|done]. unfold life_step. simpl. unfold hasLivePairingNonce.
    repeat case_match; apply Hlater; lia.
  - done.
Qed.

(** Token lookups refine the abstract store.  Whatever operations are
    interleaved, as long as time does not go backwards, the relay answers each
    lookup of a token as the abstract store does that remembers only the
    token's deadline, window and grant: a token works exactly until it has
    been idle for its window, its grant has died or it has been revoked, each
    use renews it, and pruning never changes an answer. *)
Theorem lookups_refine_store key evs t (Hclock : clocked t evs = true) :
  answers key evs initial = life_answers key evs initial None.
Proof.
  assert (store_rel key t None initial) as Hsr by (split; [constructor|done]).
  revert t Hclock Hsr. generalize initial, (@None Life).
  induction evs as [|ev evs IH]; intros st l t Hclock Hsr; [done|]. simpl in *.
  destruct (tick t ev) as [t'|] eqn:Ht; [|done].
  destruct (step_rel key ev t t' l st Ht Hsr) as [Hsr' ->]. f_equal. by apply (IH _ _ t').
Qed.

(** A revoked grant's tokens are exactly the ones reported, and none of them
    is left. *)
Lemma revokeGrant_spec grantId st :
  forall key, NoDup (map fst (sessions st)) ->
  (assoc_get key (sessions (revokeGrant grantId st).1.2) =
   e ← assoc_get key (sessions st); if decide (gr_id (se_grant e) = grantId) then None else Some e).
Proof.
  intros key Hnd. simpl. rewrite assoc_get_filter by done.
  destruct (assoc_get key (sessions st)) as [e|]; simpl; [|done].
  by destruct (decide (gr_id (se_grant e) = grantId)); case_decide.
Qed.
End Digest.

(** A token registered for 100 ms, used at 50 and 140, idle until 260. *)
Definition demo_digest (s : jstr) : string := "k".

Lemma lookups_refine_store_witness :
  answers demo_digest "k"
    [Issue [1] 100 0 FULL_GRANT None None; Lookup [1] 50; Lookup [1] 140; Lookup [1] 260]
    initial = [Some FULL_GRANT; Some FULL_GRANT; None].
Proof.
  rewrite (lookups_refine_store demo_digest "k" _ 0) by (by vm_compute). by vm_compute.
Defined.
