(* ===== verification/RelayAuth.v ===== *)
(** * RelayAuth: authenticating a socket of the relay

    [apps/relay/src/auth.ts] over the throttle and the session tokens, and the
    per-connection message limiter of [apps/relay/src/rate-limiter.ts].
    SHA-256 is the digest parameter of LocalPairing; [config.authToken] and
    [config.wsRateLimit] are arguments. *)

From S2P Require Import Prelude Grants AuthThrottle LocalPairing.

Definition AUTH_TIMEOUT_MS : Z := 5000.

(** ** The message limiter *)

Record RateLimiter := mkRL { rl_count : Z; rl_windowStart : Z }.

Definition createRateLimiter (now : Z) : RateLimiter := mkRL 0 now.

Definition check (limit now : Z) (l : RateLimiter) : bool * RateLimiter :=
  let l := if 1000 <=? now - rl_windowStart l then mkRL 0 now else l in
  let count := rl_count l + 1 in
  (count <=? limit, mkRL count (rl_windowStart l)).

Definition reset (now : Z) (l : RateLimiter) : RateLimiter := mkRL 0 now.

(** ** The first message *)

Inductive FailureReason :=
| FirstMustBeAuth
| TooManyAttempts (seconds : Z)
| InvalidToken.

Record AuthSuccess := mkAuth {
  au_grant : GrantRecord;
  au_label : option string;
  au_tokenId : option string;
}.

Inductive AuthResult :=
| Authenticated (a : AuthSuccess)
| NotAuthenticated (reason : FailureReason) (retryAfterMs : option Z).

(** What the authentication of a socket reads and writes. *)
Record AuthState := mkAS {
  as_entries : Entries;
  as_pairing : PairingState;
}.

Section Auth.
Context (digest : jstr -> string) (authToken : jstr).

Definition timingSafeEqualToken (provided expected : jstr) : bool :=
  bool_decide (digest provided = digest expected).

(** [Math.ceil(ms / 1000)] for a whole number of milliseconds. *)
Definition ceil_seconds (ms : Z) : Z := - (- ms / 1000).

(** [msg] is the token of an [auth] message, [None] any other message. *)
Definition authenticateMessage (msg : option jstr) (remoteAddress : option string) (now : Z)
    (st : AuthState) : AuthResult * AuthState * list Notice :=
  match msg with
  | None => (NotAuthenticated FirstMustBeAuth None, st, [])
  | Some token =>
      match checkAuthThrottle remoteAddress now (as_entries st) with
      | Throttled retryAfterMs =>
          (NotAuthenticated (TooManyAttempts (ceil_seconds retryAfterMs)) (Some retryAfterMs), st, [])
      | Allowed =>
          let isMachineToken := timingSafeEqualToken token authToken in
          let '(grant, pairing, notices) :=
            if isMachineToken then (Some FULL_GRANT, as_pairing st, [])
            else grantForToken digest token now (as_pairing st) in
          match grant with
          | None =>
              let '(next, entries) := recordAuthFailure remoteAddress now (as_entries st) in
              (NotAuthenticated InvalidToken
                 (match next with Allowed => None | Throttled ms => Some ms end),
               mkAS entries pairing, notices)
          | Some grant =>
              (Authenticated (mkAuth grant (truthy (labelForToken digest token now pairing))
                 (if isMachineToken then None else Some (sessionTokenId digest token))),
               mkAS (recordAuthSuccess remoteAddress (as_entries st)) pairing, notices)
          end
      end
  end.

(** A success: the machine's own token with the full grant, or a live session
    token with its grant, from an address that is not in backoff. *)
Lemma authenticateMessage_ok msg addr now st a st' notices :
  authenticateMessage msg addr now st = (Authenticated a, st', notices) ->
  exists token, msg = Some token /\ checkAuthThrottle addr now (as_entries st) = Allowed /\
  ((digest token = digest authToken /\ au_grant a = FULL_GRANT /\ au_tokenId a = None) \/
   (digest token <> digest authToken /\ au_tokenId a = Some (digest token) /\
    exists entry, assoc_get (digest token) (sessions (as_pairing st)) = Some entry /\
      au_grant a = se_grant entry /\ now < se_expiresAt entry /\
      isGrantActive (se_grant entry) now = true)).
Proof.
  unfold authenticateMessage. destruct msg as [token|]; [|done].
  destruct (checkAuthThrottle addr now (as_entries st)) eqn:Hthr; [|done].
  unfold timingSafeEqualToken. intros H. exists token. split; [done|]. split; [done|].
  case_bool_decide as Hd; [left; by simplify_eq/=|].
  right. split; [done|]. unfold grantForToken in H.
  destruct (assoc_get (digest token) (sessions (as_pairing st))) as [e|] eqn:He;
    [|by case_match].
  destruct (se_expiresAt e <=? now) eqn:Hx; [by case_match|].
  destruct (isGrantActive (se_grant e) now) eqn:Ha; simpl in H; [|by case_match].
  simplify_eq/=. split; [done|]. exists e. repeat split; auto. lia.
Qed.
End Auth.
