(* ===== verification/Connections.v ===== *)
(** * Connections: the connection registry of the relay

    [apps/relay/src/connection-manager.ts], the transport and grant
    descriptions of [apps/relay/src/access-log.ts] and the door of
    [apps/relay/src/connection-gate.ts].  A [ConnectionState] is an object the
    socket's handlers hold on to, so objects live in a heap, by their number
    ([conn-1] is the first), and [live] is the [connections] map's key order.
    The pty, clone and queue of a connection are in Router, its uploads in
    FileService, its watchers left out; [attachedSession] is kept because broadcasts read it.  The fields
    after [cn_closing] belong to the socket and its handlers in
    [wire-connections.ts]: whether the socket's [readyState] is [OPEN] (a
    [ws.close()] ends that), whether its authentication timer is set, what is
    being admitted ([admitting]), and whether its close event has come. *)

From S2P Require Import Prelude Grants AuthThrottle LocalPairing RelayAuth.

(** ** How a socket reached the relay *)

Inductive AccessTransport := loopback | lan | tunnel.

#[export] Instance AccessTransport_eq_dec : EqDecision AccessTransport.
Proof. solve_decision. Defined.

Definition TUNNEL_AGENT_UA : string := "mtmux-tunnel-agent".

(** [s.replace(/^prefix/, "")]. *)
Definition strip_prefix (prefix s : string) : string :=
  if String.prefix prefix s
  then String.substring (String.length prefix) (String.length s - String.length prefix) s else s.

Definition transportFor (remoteAddress userAgent : option string) : AccessTransport :=
  if decide (userAgent = Some TUNNEL_AGENT_UA) then tunnel
  else match truthy remoteAddress with
       | None => loopback
       | Some a =>
           let ip := strip_prefix "::ffff:" a in
           if decide (ip = "127.0.0.1" \/ ip = "::1" \/ ip = "localhost") then loopback else lan
       end.

Record GrantDescription := mkGD {
  gd_grantId : option string;
  gd_scope : string;
  gd_readOnly : bool;
  gd_files : GrantFiles;
}.

Definition scope_kind (s : GrantScope) : string :=
  match s with
  | ScopeAll => "all" | ScopeSessions _ => "sessions" | ScopeRecordings _ => "recordings"
  end.

Definition describeGrant (g : GrantRecord) : GrantDescription :=
  mkGD (if isFullGrant g then None else Some (gr_id g))
    (if isFullGrant g then "all" else scope_kind (gr_scope g)) (gr_readOnly g) (gr_files g).

(** ** The registry *)

Record Conn := mkConn {
  cn_ws : nat;
  cn_authenticated : bool;
  cn_grant : GrantRecord;
  cn_limiter : RateLimiter;
  cn_attachedSession : option string;
  cn_remoteAddress : option string;
  cn_transport : AccessTransport;
  cn_userAgent : option string;
  cn_label : option string;
  cn_tokenId : option string;
  cn_connectedAt : Z;
  cn_lastActivityAt : Z;
  cn_closing : bool;
  cn_open : bool;
  cn_authTimer : bool;
  cn_admitting : option (AuthSuccess * bool);
  cn_closed : bool;
}.



Record Registry := mkRegistry {
  objects : list Conn;
  live : list nat;
  ipCounts : gmap string Z;
}.

Definition empty_registry : Registry := mkRegistry [] [] ∅.

Definition set_objects (o : list Conn) (r : Registry) : Registry :=
  mkRegistry o (live r) (ipCounts r).
Definition update (id : nat) (f : Conn -> Conn) (r : Registry) : Registry :=
  set_objects (alter f id (objects r)) r.

Definition getIpCount (ip : string) (r : Registry) : Z := default 0 (ipCounts r !! ip).

(** The new connection is number [length objects]. *)
Definition createConnection (ws : nat) (limiter : RateLimiter) (remoteAddress : option string)
    (now : Z) (r : Registry) : nat * Registry :=
  let id := length (objects r) in
  let conn := mkConn ws false FULL_GRANT limiter None remoteAddress loopback None None None
                now now false true true None false in
  (id, mkRegistry (objects r ++ [conn]) (live r ++ [id])
         (match truthy remoteAddress with
          | Some a => <[a := default 0 (ipCounts r !! a) + 1]> (ipCounts r)
          | None => ipCounts r
          end)).

Definition removeConnection (id : nat) (r : Registry) : Registry :=
  let address := conn ← objects r !! id; truthy (cn_remoteAddress conn) in
  mkRegistry (objects r) (filter (fun x => x <> id) (live r))
    (match address with
     | Some a =>
         let next := default 1 (ipCounts r !! a) - 1 in
         if next <=? 0 then delete a (ipCounts r) else <[a := next]> (ipCounts r)
     | None => ipCounts r
     end).

Definition getConnectionCount (r : Registry) : Z := Z.of_nat (length (live r)).

Definition getAllConnections (r : Registry) : list (nat * Conn) :=
  omap (fun id => (fun c => (id, c)) <$> objects r !! id) (live r).

(** [ws.close(code)]: the socket leaves [OPEN]. *)
Record SocketClose := mkClose { sc_ws : nat; sc_code : Z }.

Definition set_open (b : bool) (c : Conn) : Conn :=
  mkConn (cn_ws c) (cn_authenticated c) (cn_grant c) (cn_limiter c) (cn_attachedSession c)
    (cn_remoteAddress c) (cn_transport c) (cn_userAgent c) (cn_label c) (cn_tokenId c)
    (cn_connectedAt c) (cn_lastActivityAt c) (cn_closing c) b (cn_authTimer c) (cn_admitting c)
    (cn_closed c).

Definition closeSockets (ids : list nat) (r : Registry) : Registry :=
  foldl (fun r id => update id (set_open false) r) r ids.

(** Close every live socket whose credential was just revoked. *)
Definition uses_token (tokenIds : list string) (conn : Conn) : bool :=
  match truthy (cn_tokenId conn) with Some t => bool_decide (t ∈ tokenIds) | None => false end.

Definition closeRevokedConnections (tokenIds : list string) (r : Registry)
    : Registry * list SocketClose :=
  let hit := filter (fun ic => uses_token tokenIds ic.2 = true) (getAllConnections r) in
  (closeSockets (map fst hit) r, map (fun ic => mkClose (cn_ws ic.2) 1008) hit).

(** Close one socket by id, and say whether there was one. *)
Definition disconnectConnection (id : nat) (r : Registry) : bool * Registry * list SocketClose :=
  if decide (id ∈ live r) then
    match objects r !! id with
    | Some conn => (true, removeConnection id (closeSockets [id] r), [mkClose (cn_ws conn) 1000])
    | None => (false, r, [])
    end
  else (false, r, []).

(** Each authenticated connection gets its own view of an event, or nothing. *)
Definition broadcastWhere {Message} (build : Conn -> option Message) (excludeWs : option nat)
    (r : Registry) : list (nat * Message) :=
  omap (fun ic =>
    if cn_authenticated ic.2 && negb (bool_decide (excludeWs = Some (cn_ws ic.2)))
    then (fun m => (cn_ws ic.2, m)) <$> build ic.2 else None)
    (getAllConnections r).

Definition broadcastToAll {Message} (msg : Message) (excludeWs : option nat) (r : Registry) :
  list (nat * Message) := broadcastWhere (fun _ => Some msg) excludeWs r.

(** ** The gate: what installing none means, and what a throw means *)

Definition admitConnection (gate : option (result unit bool)) : bool :=
  match gate with
  | None => true
  | Some (Ok answer) => answer
  | Some (Err _) => false
  end.
