(* ===== verification/Approval.v ===== *)
(** * Approval: asking the app whether to admit a new device

    [apps/relay/src/device-approval.ts].  The module's [pending] question and
    counter are the state; the timer and the abort listener of a question are
    live exactly while it is pending (both are cleared by [finish]), so firing
    them is an operation on a pending question.  The promise of a question is
    settled by an output naming the question's number. *)

From S2P Require Import Prelude Grants LocalPairing RelayAuth Connections.

Definition APPROVAL_TIMEOUT_MS : Z := 100000.

Inductive ApprovalVia := via_code | via_request | via_returning.

Record DeviceApprovalInput := mkInput {
  in_sas : option string;
  in_deviceLabel : string;
  in_accountEmail : string;
  in_via : option ApprovalVia;
}.

(** [id] is [app-<counter>-<time>], in base 36. *)
Record DeviceApprovalRequest := mkApproval {
  ap_id : Z * Z;
  ap_deviceLabel : string;
  ap_accountEmail : string;
  ap_sas : option string;
  ap_via : ApprovalVia;
  ap_expiresAt : Z;
}.

Inductive ResolvedReason := decided | r_expired | withdrawn.

Inductive ApprovalMessage :=
| ApprovalRequest (r : DeviceApprovalRequest)
| ApprovalResolved (id : Z * Z) (approved : bool) (reason : ResolvedReason).

(** A question on screen, and the number of the call that asked it. *)
Record Pending := mkPending { pe_request : DeviceApprovalRequest; pe_asker : nat }.

Record ApprovalState := mkApprovalState { pending : option Pending; counter : Z }.

Inductive ApprovalOut :=
| Tell (ws : nat) (m : ApprovalMessage)
| Settle (asker : nat) (answer : option bool).

(** May this connection answer "let a device in?". *)
Definition mayApprove (now : Z) (conn : Conn) : bool :=
  cn_authenticated conn && isFullGrant (cn_grant conn) && negb (gr_readOnly (cn_grant conn))
  && isGrantActive (cn_grant conn) now.

(** Connections that may both see and answer a request. *)
Definition approvers (now : Z) (r : Registry) : list (nat * Conn) :=
  filter (fun ic => mayApprove now ic.2 = true) (getAllConnections r).

Definition tell_approvers (now : Z) (m : ApprovalMessage) (r : Registry) : list ApprovalOut :=
  map (fun wm => Tell wm.1 wm.2)
    (broadcastWhere (fun conn => if mayApprove now conn then Some m else None) None r).

Definition finish (answer : option bool) (reason : ResolvedReason) (now : Z) (r : Registry)
    (st : ApprovalState) : ApprovalState * list ApprovalOut :=
  match pending st with
  | None => (st, [])
  | Some p =>
      (mkApprovalState None (counter st),
       tell_approvers now (ApprovalResolved (ap_id (pe_request p))
                             (bool_decide (answer = Some true)) reason) r
       ++ [Settle (pe_asker p) answer])
  end.

(** [askDeviceApproval]; [asker] names the call and its promise.  [aborted] is
    [opts.signal?.aborted]. *)
Definition askDeviceApproval (input : DeviceApprovalInput) (timeoutMs : option Z) (aborted : bool)
    (asker : nat) (now : Z) (r : Registry) (st : ApprovalState)
    : ApprovalState * list ApprovalOut :=
  if aborted then (st, [Settle asker None])
  else match pending st with
  | Some _ => (st, [Settle asker None])
  | None =>
      match approvers now r with
      | [] => (st, [Settle asker None])
      | _ =>
          let n := counter st + 1 in
          let request := mkApproval (n, now) (in_deviceLabel input) (in_accountEmail input)
            (truthy (in_sas input)) (default via_request (in_via input))
            (now + default APPROVAL_TIMEOUT_MS timeoutMs) in
          (mkApprovalState (Some (mkPending request asker)) n,
           tell_approvers now (ApprovalRequest request) r)
      end
  end.

(** The timer of the question, and the abort of its signal. *)
Definition approval_timeout (now : Z) (r : Registry) (st : ApprovalState) :=
  finish (Some false) r_expired now r st.
Definition approval_abort (now : Z) (r : Registry) (st : ApprovalState) :=
  finish None withdrawn now r st.

(** A browser answered; first answer wins. *)
Definition resolveDeviceApproval (id : Z * Z) (approved : bool) (now : Z) (r : Registry)
    (st : ApprovalState) : bool * ApprovalState * list ApprovalOut :=
  match pending st with
  | None => (false, st, [])
  | Some p =>
      if decide (ap_id (pe_request p) = id) then
        let '(st, out) := finish (Some approved) decided now r st in (true, st, out)
      else (false, st, [])
  end.

(** The live question, for a connection that has just authenticated. *)
Definition pendingApprovalFor (now : Z) (conn : Conn) (st : ApprovalState)
    : option DeviceApprovalRequest :=
  p ← pending st; if mayApprove now conn then Some (pe_request p) else None.

(** The last browser that could answer may have gone. *)
Definition noteApproversChanged (now : Z) (r : Registry) (st : ApprovalState)
    : ApprovalState * list ApprovalOut :=
  match pending st with
  | None => (st, [])
  | Some _ => match approvers now r with [] => finish None withdrawn now r st | _ => (st, []) end
  end.

Definition resetDeviceApproval (now : Z) (r : Registry) (st : ApprovalState)
    : ApprovalState * list ApprovalOut :=
  let '(st, out) := finish None withdrawn now r st in (mkApprovalState (pending st) 0, out).

(** ** Runs

    Each event carries the clock and the connections it finds. *)

Inductive ApprovalOp :=
| Ask (input : DeviceApprovalInput) (timeoutMs : option Z) (aborted : bool) (asker : nat)
| Timeout
| Abort
| Resolve (id : Z * Z) (approved : bool)
| ApproversChanged
| Reset.

Record ApprovalEvent := mkEvent { ev_now : Z; ev_registry : Registry; ev_op : ApprovalOp }.

Definition approval_step (ev : ApprovalEvent) (st : ApprovalState)
    : ApprovalState * list ApprovalOut :=
  let now := ev_now ev in
  let r := ev_registry ev in
  match ev_op ev with
  | Ask input timeoutMs aborted asker => askDeviceApproval input timeoutMs aborted asker now r st
  | Timeout => approval_timeout now r st
  | Abort => approval_abort now r st
  | Resolve id approved =>
      let '(_, st, out) := resolveDeviceApproval id approved now r st in (st, out)
  | ApproversChanged => noteApproversChanged now r st
  | Reset => resetDeviceApproval now r st
  end.

Definition approval_initial : ApprovalState := mkApprovalState None 0.

Fixpoint approval_run (evs : list ApprovalEvent) (st : ApprovalState)
    : ApprovalState * list ApprovalOut :=
  match evs with
  | [] => (st, [])
  | ev :: evs =>
      let '(st, out) := approval_step ev st in
      let '(st, outs) := approval_run evs st in (st, out ++ outs)
  end.

Definition asked (evs : list ApprovalEvent) : list nat :=
  omap (fun ev => match ev_op ev with Ask _ _ _ asker => Some asker | _ => None end) evs.
Definition settled (out : list ApprovalOut) : list nat :=
  omap (fun o => match o with Settle asker _ => Some asker | _ => None end) out.
Definition waiting (st : ApprovalState) : list nat :=
  match pending st with Some p => [pe_asker p] | None => [] end.

Lemma settled_app a b : settled (a ++ b) = settled a ++ settled b.
Proof. apply omap_app. Qed.

Lemma settled_tell now m r : settled (tell_approvers now m r) = [].
Proof.
  unfold tell_approvers. induction (broadcastWhere _ _ _) as [|x l IH]; [done|]. exact IH.
Qed.

Lemma finish_settles answer reason now r st :
  settled (finish answer reason now r st).2 ++ waiting (finish answer reason now r st).1
  = waiting st.
Proof.
  unfold finish, waiting. destruct (pending st) as [p|] eqn:Hp; simpl; [|by rewrite Hp].
  by rewrite settled_app, settled_tell.
Qed.

(** One event settles what it asks or what was waiting. *)
Lemma approval_step_settles ev st :
  settled (approval_step ev st).2 ++ waiting (approval_step ev st).1
  ≡ₚ waiting st ++ asked [ev].
Proof.
  destruct ev as [now r []]; unfold approval_step; simpl.
  - unfold askDeviceApproval. destruct aborted; [simpl; by rewrite (comm app)|].
    destruct (pending st) as [p|] eqn:Hp; [simpl; by rewrite (comm app)|].
    assert (waiting st = []) as Hw by (unfold waiting; by rewrite Hp).
    destruct (approvers now r); simpl; rewrite Hw; [done|]. by rewrite settled_tell.
  - rewrite app_nil_r. by rewrite <- (finish_settles (Some false) r_expired now r st).
  - rewrite app_nil_r. by rewrite <- (finish_settles None withdrawn now r st).
  - rewrite app_nil_r. unfold resolveDeviceApproval. destruct (pending st) as [p|] eqn:Hp; [|done].
    case_decide; [|done]. rewrite <- (finish_settles (Some approved) decided now r st).
    by destruct (finish _ _ _ _ _).
  - rewrite app_nil_r. unfold noteApproversChanged. destruct (pending st) as [p|] eqn:Hp; [|done].
    destruct (approvers now r); [|done].
    by rewrite <- (finish_settles None withdrawn now r st).
  - rewrite app_nil_r. unfold resetDeviceApproval.
    rewrite <- (finish_settles None withdrawn now r st). by destruct (finish _ _ _ _ _).
Qed.

Lemma approval_run_settles evs st :
  settled (approval_run evs st).2 ++ waiting (approval_run evs st).1 ≡ₚ waiting st ++ asked evs.
Proof.
  revert st. induction evs as [|ev evs IH]; intros st; simpl; [by rewrite app_nil_r|].
  pose proof (approval_step_settles ev st) as Hs. destruct (approval_step ev st) as [st' out].
  specialize (IH st'). destruct (approval_run evs st') as [st'' outs]. simpl in *.
  rewrite settled_app, <- (assoc app), IH, (assoc app), Hs, <- (assoc app).
  f_equiv. unfold asked. by destruct (ev_op ev).
Qed.

(** Who hears of a question. *)
Lemma tell_approvers_to now m r ws m' :
  Tell ws m' ∈ tell_approvers now m r ->
  exists id conn, (id, conn) ∈ getAllConnections r /\ cn_ws conn = ws /\ mayApprove now conn = true.
Proof.
  unfold tell_approvers, broadcastWhere. intros ([ws' m''] & [= -> ->] & Hin)%list_elem_of_fmap.
  apply list_elem_of_omap in Hin as ([id conn] & Hin & Hb). simpl in Hb.
  destruct (cn_authenticated conn && _); [|done].
  destruct (mayApprove now conn) eqn:Hm; [|done]. simplify_eq/=. by exists id, conn.
Qed.

(** What an output says of the step that made it. *)
Definition out_ok (ev : ApprovalEvent) (st : ApprovalState) (o : ApprovalOut) : Prop :=
  match o with
  | Tell ws _ => exists id conn, (id, conn) ∈ getAllConnections (ev_registry ev) /\
      cn_ws conn = ws /\ mayApprove (ev_now ev) conn = true
  | Settle asker (Some answer) => exists p, pending st = Some p /\ pe_asker p = asker /\
      (ev_op ev = Resolve (ap_id (pe_request p)) answer \/ (ev_op ev = Timeout /\ answer = false))
  | Settle _ None => True
  end.

Lemma tell_out_ok ev st m :
  Forall (out_ok ev st) (tell_approvers (ev_now ev) m (ev_registry ev)).
Proof.
  apply Forall_forall. intros [ws m'|asker a] Hin; [by eapply tell_approvers_to|].
  exfalso. unfold tell_approvers in Hin. by apply list_elem_of_fmap in Hin as ([] & ? & _).
Qed.

Lemma finish_out_ok ev st answer reason :
  (forall p b, pending st = Some p -> answer = Some b ->
   ev_op ev = Resolve (ap_id (pe_request p)) b \/ (ev_op ev = Timeout /\ b = false)) ->
  Forall (out_ok ev st) (finish answer reason (ev_now ev) (ev_registry ev) st).2.
Proof.
  intros Hans. unfold finish. destruct (pending st) as [p|] eqn:Hp; [|constructor].
  apply Forall_app. split; [apply tell_out_ok|]. constructor; [|constructor].
  destruct answer as [b|]; simpl; [|done]. exists p. split; [done|]. split; [done|].
  by apply Hans.
Qed.

Lemma approval_step_out_ok ev st : Forall (out_ok ev st) (approval_step ev st).2.
Proof.
  destruct ev as [now r op] eqn:Hev. rewrite <- Hev.
  assert (now = ev_now ev /\ r = ev_registry ev /\ op = ev_op ev) as (-> & -> & Hop) by (by subst).
  clear Hev. unfold approval_step. rewrite <- Hop. destruct op; simpl.
  - unfold askDeviceApproval. destruct aborted; [by repeat constructor|].
    destruct (pending st); [by repeat constructor|].
    destruct (approvers _ _); [by repeat constructor|apply tell_out_ok].
  - apply finish_out_ok. intros p b _ [= <-]. right. by rewrite <- Hop.
  - by apply finish_out_ok.
  - unfold resolveDeviceApproval. destruct (pending st) as [p|] eqn:Hp; [|constructor].
    case_decide as Hid; [|constructor].
    pose proof (finish_out_ok ev st (Some approved) decided) as Hf.
    destruct (finish _ _ _ _ _). apply Hf. intros q b Hq [= <-]. left.
    rewrite Hp in Hq. injection Hq as <-. by rewrite <- Hop, Hid.
  - unfold noteApproversChanged. destruct (pending st); [|constructor].
    destruct (approvers _ _); [by apply finish_out_ok|constructor].
  - unfold resetDeviceApproval. pose proof (finish_out_ok ev st None withdrawn) as Hf.
    destruct (finish _ _ _ _ _). by apply Hf.
Qed.

(** In-app approval is sound.  Over any run, whatever connections come and
    go, every question asked is settled exactly once or is the one on screen;
    a question and its outcome are shown to nobody but connections that may
    answer (authenticated, full scope, writable, active); and a question is
    answered yes only by a browser resolving the very question on screen, and
    no only so or by its timer. *)
Theorem approval_sound evs ev :
  let st := (approval_run evs approval_initial).1 in
  settled (approval_run evs approval_initial).2 ++ waiting st ≡ₚ asked evs /\
  Forall (out_ok ev st) (approval_step ev st).2.
Proof.
  simpl. split; [apply (approval_run_settles evs approval_initial)|apply approval_step_out_ok].
Qed.
