(* ===== verification/ApproveControl.v ===== *)
(** * ApproveControl: the window that [mtmux approve] opens on the machine

    [apps/cli/src/approve-control.ts]: the closure of [createApproveControl].
    A response that is held or written to is known by a number.  A handler that
    awaits the body of its request is cut there: [handle] up to the await,
    [body_read] from it on.  The timer and the abort listener of an offer are
    live exactly while it is pending (whatever settles it clears both); those
    of windows are kept, since opening a window does not clear the timer of one
    it replaces.  JSON is parsed before: [None] is a body that is too large or
    does not parse, and the minutes of a window are a whole number. *)

From S2P Require Import Prelude Approval.

Definition OFFER_TIMEOUT_MS : Z := 100000.
Definition MAX_WINDOW_MS : Z := 60 * 60000.

(** [ApprovalOffer]: what is asked, as [DeviceApprovalInput] of Approval. *)
Abbreviation ApprovalOffer := DeviceApprovalInput (only parsing).

(** A call of [offer], by its question, and whether it parks. *)
Record Asker := mkAsker { as_question : nat; as_park : bool }.

#[export] Instance Asker_eq_dec : EqDecision Asker.
Proof. solve_decision. Defined.

Record Waiter := mkWaiter {
  wt_sessionId : string;
  wt_expiresAt : Z;
  wt_held : option nat;
  wt_timer : nat;
}.

(** [id] is [off-<counter>], in base 36. *)
Record PendingOffer := mkPendingOffer {
  pd_id : Z;
  pd_offer : ApprovalOffer;
  pd_asker : Asker;
}.

Inductive ApprovePath := WAIT_PATH | DECIDE_PATH | STATE_PATH.

(** What the guard looks at. *)
Record RequestHead := mkHead {
  rh_path : option ApprovePath;
  rh_remoteAddress : string;
  rh_authorization : option string;
}.

(** [minutes]: a finite number, or none. *)
Record ApproveBody := mkBody {
  ab_sessionId : string;
  ab_id : option Z;
  ab_minutes : option Z;
  ab_approved : bool;
}.

(** The closure; [ct_reading] are the requests past the guard whose body is
    being read, [ct_ended] the responses that have been ended. *)
Record ApproveControl := mkControl {
  ct_waiter : option Waiter;
  ct_pending : option PendingOffer;
  ct_counter : Z;
  ct_timers : list nat;
  ct_nextTimer : nat;
  ct_reading : list (nat * RequestHead);
  ct_ended : list nat;
}.

Definition control_initial : ApproveControl := mkControl None None 0 [] 0 [] [].

Definition with_waiter w c := mkControl w (ct_pending c) (ct_counter c) (ct_timers c) (ct_nextTimer c) (ct_reading c) (ct_ended c).
Definition with_pending p c := mkControl (ct_waiter c) p (ct_counter c) (ct_timers c) (ct_nextTimer c) (ct_reading c) (ct_ended c).
Definition with_counter n c := mkControl (ct_waiter c) (ct_pending c) n (ct_timers c) (ct_nextTimer c) (ct_reading c) (ct_ended c).
Definition with_timers l c := mkControl (ct_waiter c) (ct_pending c) (ct_counter c) l (ct_nextTimer c) (ct_reading c) (ct_ended c).
Definition with_nextTimer n c := mkControl (ct_waiter c) (ct_pending c) (ct_counter c) (ct_timers c) n (ct_reading c) (ct_ended c).
Definition with_reading l c := mkControl (ct_waiter c) (ct_pending c) (ct_counter c) (ct_timers c) (ct_nextTimer c) l (ct_ended c).
Definition with_ended l c := mkControl (ct_waiter c) (ct_pending c) (ct_counter c) (ct_timers c) (ct_nextTimer c) (ct_reading c) l.

Inductive ApproveReply :=
| RequestReply (id : Z) (sas : option string) (deviceLabel accountEmail : string)
| ClosedReply
| StateReply (waiting : bool) (expiresAt : option Z)
| OkReply
| WindowTaken (expiresAt : Z)
| NoWindow
| NotWaiting
| SessionIdRequired
| BadRequest
| LoopbackOnly
| Unauthorized.

(** A response written, and a promise of [offer] settled ([None] is [null]). *)
Inductive ControlOut :=
| Respond (res : nat) (status : Z) (body : ApproveReply)
| Offered (asker : Asker) (answer : option bool).

Abbreviation Control := (ApproveControl * list ControlOut)%type.

(** Run [f] on what [m] leaves, after its outputs. *)
Definition and_then (m : Control) (f : ApproveControl -> Control) : Control :=
  let '(c, out) := f m.1 in (c, m.2 ++ out).

Definition reply (res : nat) (status : Z) (body : ApproveReply) (c : ApproveControl) : Control :=
  if decide (res ∈ ct_ended c) then (c, [])
  else (with_ended (res :: ct_ended c) c, [Respond res status body]).

Definition settlePending (approved : bool) (c : ApproveControl) : Control :=
  match ct_pending c with
  | None => (c, [])
  | Some p => (with_pending None c, [Offered (pd_asker p) (Some approved)])
  end.

Definition disarm (timer : nat) (c : ApproveControl) : ApproveControl :=
  with_timers (filter (fun t => t <> timer) (ct_timers c)) c.

Definition dropWaiter (c : ApproveControl) : Control :=
  match ct_waiter c with
  | None => (c, [])
  | Some w =>
      let c := with_waiter None (disarm (wt_timer w) c) in
      and_then (match wt_held w with Some res => reply res 200 ClosedReply c | None => (c, []) end)
        (settlePending false)
  end.

Definition LOOPBACK_ADDRESSES : list string := ["127.0.0.1"; "::1"; "::ffff:127.0.0.1"].

(** [auth?.startsWith("Bearer ") ? auth.slice(7) : null], then [!bearer]. *)
Definition bearer (authorization : option string) : option string :=
  a ← authorization;
  if String.prefix "Bearer " a then truthy (Some (String.substring 7 (String.length a) a)) else None.

(** [guard]: [None] lets the request on. *)
Definition guard (authToken : string) (h : RequestHead) : option (Z * ApproveReply) :=
  if decide (rh_remoteAddress h ∈ LOOPBACK_ADDRESSES) then
    match bearer (rh_authorization h) with
    | Some b => if decide (b = authToken) then None else Some (401, Unauthorized)
    | None => Some (401, Unauthorized)
    end
  else Some (403, LoopbackOnly).

(** Hand the held poll whatever is pending, if both exist. *)
Definition flush (c : ApproveControl) : Control :=
  match ct_waiter c, ct_pending c with
  | Some w, Some p =>
      match wt_held w with
      | Some held =>
          let c := with_waiter (Some (mkWaiter (wt_sessionId w) (wt_expiresAt w) None (wt_timer w))) c in
          reply held 200 (RequestReply (pd_id p) (truthy (in_sas (pd_offer p)))
                            (in_deviceLabel (pd_offer p)) (in_accountEmail (pd_offer p))) c
      | None => (c, [])
      end
  | _, _ => (c, [])
  end.

Definition windowMs (minutes : option Z) : Z :=
  Z.min MAX_WINDOW_MS
    (match minutes with Some m => if 0 <? m then m * 60000 else 5 * 60000 | None => 5 * 60000 end).

(** A new window; the timer of the one it replaces stays armed. *)
Definition openWindow (sessionId : string) (minutes : option Z) (now : Z) (c : ApproveControl)
    : ApproveControl :=
  let timer := ct_nextTimer c in
  with_waiter (Some (mkWaiter sessionId (now + windowMs minutes) None timer))
    (with_nextTimer (S timer) (with_timers (timer :: ct_timers c) c)).

Definition hold (res : nat) (c : ApproveControl) : ApproveControl :=
  match ct_waiter c with
  | Some w => with_waiter (Some (mkWaiter (wt_sessionId w) (wt_expiresAt w) (Some res) (wt_timer w))) c
  | None => c
  end.

Definition handleWait (res : nat) (body : ApproveBody) (now : Z) (c : ApproveControl) : Control :=
  let sessionId := ab_sessionId body in
  if decide (sessionId = "") then reply res 400 SessionIdRequired c
  else
    match ct_waiter c with
    | Some w =>
        if decide (wt_sessionId w = sessionId) then flush (hold res c)
        else if now <? wt_expiresAt w then reply res 409 (WindowTaken (wt_expiresAt w)) c
        else flush (hold res (openWindow sessionId (ab_minutes body) now c))
    | None => flush (hold res (openWindow sessionId (ab_minutes body) now c))
    end.

Definition handleDecide (res : nat) (body : ApproveBody) (c : ApproveControl) : Control :=
  match ct_waiter c, ct_pending c with
  | Some w, Some p =>
      if decide (wt_sessionId w <> ab_sessionId body) then reply res 409 NoWindow c
      else if decide (Some (pd_id p) <> ab_id body) then reply res 409 NotWaiting c
      else and_then (settlePending (ab_approved body) c) (reply res 200 OkReply)
  | Some w, None =>
      if decide (wt_sessionId w <> ab_sessionId body) then reply res 409 NoWindow c
      else reply res 409 NotWaiting c
  | None, _ => reply res 409 NoWindow c
  end.

Definition is_open (now : Z) (c : ApproveControl) : bool :=
  match ct_waiter c with Some w => now <? wt_expiresAt w | None => false end.

Definition state_reply (now : Z) (c : ApproveControl) : ApproveReply :=
  StateReply (is_open now c) (if is_open now c then wt_expiresAt <$> ct_waiter c else None).

(** [handle] up to the body; [false]: not a request for this channel. *)
Definition handle (authToken : string) (h : RequestHead) (res : nat) (now : Z) (c : ApproveControl)
    : bool * Control :=
  match rh_path h with
  | None => (false, (c, []))
  | Some path =>
      (true, match guard authToken h with
             | Some (status, body) => reply res status body c
             | None =>
                 match path with
                 | STATE_PATH => reply res 200 (state_reply now c) c
                 | _ => (with_reading ((res, h) :: ct_reading c) c, [])
                 end
             end)
  end.

(** The body has been read. *)
Definition body_read (res : nat) (body : option ApproveBody) (now : Z) (c : ApproveControl) : Control :=
  match list_find (fun e => e.1 = res) (ct_reading c) with
  | None => (c, [])
  | Some (_, (_, h)) =>
      let c := with_reading (filter (fun e => e.1 <> res) (ct_reading c)) c in
      match body with
      | None => reply res 400 BadRequest c
      | Some body =>
          match rh_path h with
          | Some WAIT_PATH => handleWait res body now c
          | _ => handleDecide res body c
          end
      end
  end.

(** [res.on("close")] of a poll. *)
Definition poll_closed (res : nat) (c : ApproveControl) : Control :=
  match ct_waiter c with
  | Some w =>
      if decide (wt_held w = Some res) then
        settlePending false
          (with_waiter (Some (mkWaiter (wt_sessionId w) (wt_expiresAt w) None (wt_timer w))) c)
      else (c, [])
  | None => (c, [])
  end.

(** [offer]; [aborted] is [opts.signal?.aborted]. *)
Definition offer (input : ApprovalOffer) (asker : Asker) (aborted : bool) (now : Z) (c : ApproveControl)
    : Control :=
  if negb (is_open now c) && negb (as_park asker) then (c, [Offered asker None])
  else match ct_pending c with
  | Some _ => (c, [Offered asker (Some false)])
  | None =>
      if aborted then (c, [Offered asker (Some false)])
      else
        let n := ct_counter c + 1 in
        flush (with_pending (Some (mkPendingOffer n input asker)) (with_counter n c))
  end.

(** The abort of the signal given to an offer. *)
Definition offer_aborted (asker : Asker) (c : ApproveControl) : Control :=
  match ct_pending c with
  | Some p => if decide (pd_asker p = asker) then settlePending false c else (c, [])
  | None => (c, [])
  end.

(** The timer of the offer, and the timer of a window. *)
Definition offer_timeout (c : ApproveControl) : Control := settlePending false c.

Definition window_timeout (timer : nat) (c : ApproveControl) : Control :=
  if decide (timer ∈ ct_timers c) then dropWaiter (disarm timer c) else (c, []).

Definition close (c : ApproveControl) : Control := dropWaiter c.
