(* ===== verification/Consent.v ===== *)
(** * Consent: who is asked before a browser is let in

    [apps/cli/src/access-prompt.ts], the questions of
    [device-panel-control.ts], and the wiring of [commands/start.ts]
    ([askOnThisMachine] and the calls of [decideAccess]), over the window of
    ApproveControl and the in-app question of Approval.  Any number of calls of
    [decideAccess] are in flight, each known by a number.  A promise that is
    settled is continued by an event of its own: [prompt_returns],
    [local_continues], [hear_local], [hear_app], [conclude].  What a prompt
    prints is left out, and so are the keys of the panel while it asks nothing. *)

From S2P Require Import Prelude Grants Connections Approval ApproveControl.

Definition PROMPT_TIMEOUT_MS : Z := 110000.
Definition APPROVAL_WINDOW_MS : Z := 110000.

Inductive Refusal := refused | no_tty | timed_out.

#[export] Instance Refusal_eq_dec : EqDecision Refusal.
Proof. solve_decision. Defined.

Inductive AccessPromptResult :=
| Approved
| Denied (reason : Refusal).

#[export] Instance AccessPromptResult_eq_dec : EqDecision AccessPromptResult.
Proof. solve_decision. Defined.

(** What is asked, [AccessPromptInput]; how the device arrived is display. *)
Abbreviation AccessPromptInput := DeviceApprovalInput (only parsing).

(** Where a call of [localChain] is: awaiting [offer], the prompt or [park],
    each with its value once it has settled; returned; and heard by
    [firstAnswer]. *)
Inductive Local :=
| AwaitOffer (answer : option (option bool))
| AwaitPrompt (answer : option AccessPromptResult)
| AwaitPark (answer : option (option bool))
| LocalReturned (result : AccessPromptResult)
| LocalHeard (result : AccessPromptResult).

#[export] Instance Local_eq_dec : EqDecision Local.
Proof. solve_decision. Defined.

(** The promise of [ask]: standing, settled, heard. *)
Inductive InApp :=
| AppAsked
| AppSettled (answer : option bool)
| AppHeard (answer : option bool).

#[export] Instance InApp_eq_dec : EqDecision InApp.
Proof. solve_decision. Defined.

(** A call of [decideAccess], with the variables of its [firstAnswer]. *)
Record Question := mkQuestion {
  q_request : AccessPromptInput;
  q_aborted : bool;
  q_local : Local;
  q_inApp : InApp;
  q_open : nat;
  q_held : option AccessPromptResult;
  q_settled : option AccessPromptResult;
  q_result : option AccessPromptResult;
}.

Definition with_aborted b q := mkQuestion (q_request q) b (q_local q) (q_inApp q) (q_open q) (q_held q) (q_settled q) (q_result q).
Definition with_local l q := mkQuestion (q_request q) (q_aborted q) l (q_inApp q) (q_open q) (q_held q) (q_settled q) (q_result q).
Definition with_inApp a q := mkQuestion (q_request q) (q_aborted q) (q_local q) a (q_open q) (q_held q) (q_settled q) (q_result q).
Definition with_open n q := mkQuestion (q_request q) (q_aborted q) (q_local q) (q_inApp q) n (q_held q) (q_settled q) (q_result q).
Definition with_held h q := mkQuestion (q_request q) (q_aborted q) (q_local q) (q_inApp q) (q_open q) h (q_settled q) (q_result q).
Definition with_settled r q := mkQuestion (q_request q) (q_aborted q) (q_local q) (q_inApp q) (q_open q) (q_held q) r (q_result q).
Definition with_result r q := mkQuestion (q_request q) (q_aborted q) (q_local q) (q_inApp q) (q_open q) (q_held q) (q_settled q) r.

(** A readline prompt from its question to the end of [promptForAccess]; its
    answer, once resolved, is a line or [null]. *)
Record Readline := mkReadline {
  rl_asker : nat;
  rl_aborted : bool;
  rl_answer : option (option jstr);
}.

(** The panel, as far as it asks: the question on screen with the time it is
    up, and whose promise [answering] resolves. *)
Record Panel := mkPanel {
  pn_mode : option (nat * Z);
  pn_answering : option nat;
  pn_stopped : bool;
}.

Record Machine := mkMachine {
  mc_control : ApproveControl;
  mc_app : ApprovalState;
  mc_panel : option Panel;
  mc_lines : list Readline;
  mc_questions : gmap nat Question;
}.

Definition set_control c m := mkMachine c (mc_app m) (mc_panel m) (mc_lines m) (mc_questions m).
Definition set_app a m := mkMachine (mc_control m) a (mc_panel m) (mc_lines m) (mc_questions m).
Definition set_panel p m := mkMachine (mc_control m) (mc_app m) p (mc_lines m) (mc_questions m).
Definition set_lines l m := mkMachine (mc_control m) (mc_app m) (mc_panel m) l (mc_questions m).
Definition set_questions q m := mkMachine (mc_control m) (mc_app m) (mc_panel m) (mc_lines m) q.

Inductive ConsentOut :=
| Http (res : nat) (status : Z) (body : ApproveReply)
| ToApp (ws : nat) (msg : ApprovalMessage)
| Parked (q : nat)
| Decided (q : nat) (result : AccessPromptResult).

Abbreviation Step := (Machine * list ConsentOut)%type.

Definition then_do (s : Step) (f : Machine -> Step) : Step :=
  let '(m, out) := f s.1 in (m, s.2 ++ out).

Definition on_question (q : nat) (f : Question -> Question) (m : Machine) : Machine :=
  set_questions (alter f q (mc_questions m)) m.

(** ** Promises settled by what a channel does *)

Definition settle_app (q : nat) (answer : option bool) : Machine -> Machine :=
  on_question q (fun x => match q_inApp x with AppAsked => with_inApp (AppSettled answer) x | _ => x end).

Definition settle_offer (asker : Asker) (answer : option bool) : Machine -> Machine :=
  on_question (as_question asker) (fun x =>
    match q_local x, as_park asker with
    | AwaitOffer None, false => with_local (AwaitOffer (Some answer)) x
    | AwaitPark None, true => with_local (AwaitPark (Some answer)) x
    | _, _ => x
    end).

Definition settle_prompt (q : nat) (r : AccessPromptResult) : Machine -> Machine :=
  on_question q (fun x =>
    match q_local x with AwaitPrompt None => with_local (AwaitPrompt (Some r)) x | _ => x end).

Definition app_out (o : ApprovalOut) (s : Step) : Step :=
  match o with
  | Tell ws msg => (s.1, s.2 ++ [ToApp ws msg])
  | Settle asker answer => (settle_app asker answer s.1, s.2)
  end.

Definition in_app (r : ApprovalState * list ApprovalOut) (m : Machine) : Step :=
  foldl (fun s o => app_out o s) (set_app r.1 m, []) r.2.

Definition control_out (o : ControlOut) (s : Step) : Step :=
  match o with
  | Respond res status body => (s.1, s.2 ++ [Http res status body])
  | Offered asker answer => (settle_offer asker answer s.1, s.2)
  end.

Definition in_control (r : Control) (m : Machine) : Step :=
  foldl (fun s o => control_out o s) (set_control r.1 m, []) r.2.

(** ** The panel *)

Definition panel_answer (r : AccessPromptResult) (p : Panel) (m : Machine) : Machine :=
  let m := set_panel (Some (mkPanel None None (pn_stopped p))) m in
  match pn_answering p with Some q => settle_prompt q r m | None => m end.

Definition panel_key (key : string) (m : Machine) : Machine :=
  match mc_panel m with
  | Some p =>
      if pn_stopped p then m
      else match pn_mode p with
           | Some _ =>
               if decide (key = "y" \/ key = "Y") then panel_answer Approved p m
               else if decide (key = "n" \/ key = "N") then panel_answer (Denied refused) p m
               else m
           | None => m
           end
  | None => m
  end.

(** The tick of each second; [stop] ends it. *)
Definition panel_tick (now : Z) (m : Machine) : Machine :=
  match mc_panel m with
  | Some p =>
      match pn_mode p with
      | Some (_, expiresAt) =>
          if negb (pn_stopped p) && (expiresAt <=? now) then panel_answer (Denied timed_out) p m else m
      | None => m
      end
  | None => m
  end.

Definition panel_aborted (q : nat) (m : Machine) : Machine :=
  match mc_panel m with
  | Some p => if decide (pn_answering p = Some q) then panel_answer (Denied no_tty) p m else m
  | None => m
  end.

(** [promptForAccess] of the panel: a question takes the screen, whatever is on
    it. *)
Definition panel_prompt (q : nat) (aborted : bool) (now : Z) (p : Panel) (m : Machine) : Machine :=
  if pn_stopped p then settle_prompt q (Denied no_tty) m
  else
    let m := set_panel (Some (mkPanel (Some (q, now + APPROVAL_WINDOW_MS)) (Some q) false)) m in
    if aborted then panel_aborted q m else m.

Definition panel_stop (m : Machine) : Machine :=
  match mc_panel m with
  | Some p =>
      if pn_stopped p then m
      else
        let m := set_panel (Some (mkPanel (pn_mode p) None true)) m in
        match pn_answering p with Some q => settle_prompt q (Denied no_tty) m | None => m end
  | None => m
  end.

(** ** The readline prompt *)

(** [/^y(es)?$/i.test(answer.trim())]. *)
Definition lower (c : Z) : Z := if (65 <=? c) && (c <=? 90) then c + 32 else c.

Definition affirmative (answer : jstr) : bool :=
  bool_decide (map lower (trim answer) ∈ [js "y"; js "yes"]).

(** A line reaches every interface that still waits for its answer. *)
Definition type_line (s : jstr) (r : Readline) : Readline :=
  match rl_answer r with
  | None => mkReadline (rl_asker r) (rl_aborted r) (Some (Some s))
  | Some _ => r
  end.

Definition readline_timeout (r : Readline) : Readline :=
  match rl_answer r with
  | None => mkReadline (rl_asker r) (rl_aborted r) (Some None)
  | Some _ => r
  end.

Definition readline_abort (r : Readline) : Readline :=
  mkReadline (rl_asker r) true (Some (default None (rl_answer r))).

Definition on_line (q : nat) (f : Readline -> Readline) (r : Readline) : Readline :=
  if decide (rl_asker r = q) then f r else r.

(** What [promptForAccess] returns once its answer is there. *)
Definition readline_result (r : Readline) (answer : option jstr) : AccessPromptResult :=
  if rl_aborted r then Denied no_tty
  else if affirmative (default [] answer) then Approved else Denied refused.

(** ** [decideAccess] *)

Section Machine.
(** The relay can ask in the app; [approvals] is there; stdin is a terminal. *)
Context (authToken : string) (canAsk canApprove isTTY : bool).

Definition promptForAccess (q : nat) (aborted : bool) (m : Machine) : Machine :=
  if isTTY then
    let r := mkReadline q false None in
    set_lines (mc_lines m ++ [if aborted then readline_abort r else r]) m
  else settle_prompt q (Denied no_tty) m.

Definition askOnThisMachine (q : nat) (aborted : bool) (now : Z) (m : Machine) : Machine :=
  match mc_panel m with
  | Some p => panel_prompt q aborted now p m
  | None => promptForAccess q aborted m
  end.

Definition prompt (q : nat) (aborted : bool) (now : Z) (m : Machine) : Machine :=
  askOnThisMachine q aborted now (on_question q (with_local (AwaitPrompt None)) m).

Definition decideAccess (q : nat) (req : AccessPromptInput) (now : Z) (reg : Registry) (m : Machine)
    : Step :=
  let m := set_questions
    (<[q := mkQuestion req false (AwaitOffer None) AppAsked 2 None None None]> (mc_questions m)) m in
  then_do
    (if canApprove then in_control (offer req (mkAsker q false) false now (mc_control m)) m
     else (prompt q false now m, []))
    (fun m =>
       if canAsk then in_app (askDeviceApproval req None false q now reg (mc_app m)) m
       else (settle_app q None m, [])).

(** [localChain] after an await. *)
Definition local_continues (q : nat) (now : Z) (m : Machine) : Step :=
  match mc_questions m !! q with
  | None => (m, [])
  | Some x =>
      let return_ r := (on_question q (with_local (LocalReturned r)) m, []) in
      match q_local x with
      | AwaitOffer (Some (Some true)) => return_ Approved
      | AwaitOffer (Some (Some false)) => return_ (Denied refused)
      | AwaitOffer (Some None) =>
          if q_aborted x then return_ (Denied no_tty) else (prompt q false now m, [])
      | AwaitPrompt (Some r) =>
          if decide (r <> Denied no_tty) then return_ r
          else if negb canApprove || q_aborted x then return_ r
          else
            then_do (on_question q (with_local (AwaitPark None)) m, [Parked q])
              (fun m => in_control (offer (q_request x) (mkAsker q true) false now (mc_control m)) m)
      | AwaitPark (Some v) =>
          return_ (if decide (v = Some true) then Approved else Denied timed_out)
      | _ => (m, [])
      end
  end.

(** [answer] and [abstain] of [firstAnswer]. *)
Definition race_answer (r : AccessPromptResult) (x : Question) : Question :=
  match q_settled x with None => with_settled (Some r) x | Some _ => x end.

Definition race_abstain (x : Question) : Question :=
  let x := with_open (q_open x - 1) x in
  if decide (q_open x = 0)%nat then race_answer (default (Denied no_tty) (q_held x)) x else x.

Definition hear_app (q : nat) : Machine -> Machine :=
  on_question q (fun x =>
    match q_inApp x with
    | AppSettled answer =>
        let x := with_inApp (AppHeard answer) x in
        match answer with
        | Some true => race_answer Approved x
        | Some false => race_answer (Denied refused) x
        | None => race_abstain x
        end
    | _ => x
    end).

Definition hear_local (q : nat) : Machine -> Machine :=
  on_question q (fun x =>
    match q_local x with
    | LocalReturned r =>
        let x := with_local (LocalHeard r) x in
        if decide (r = Denied no_tty) then race_abstain (with_held (Some r) x) else race_answer r x
    | _ => x
    end).

(** [controller.abort()]: every listener of this question's signal. *)
Definition abort (q : nat) (now : Z) (reg : Registry) (m : Machine) : Step :=
  let m := on_question q (with_aborted true) m in
  let m := set_lines (map (on_line q readline_abort) (mc_lines m)) m in
  let m := panel_aborted q m in
  then_do (in_control (offer_aborted (mkAsker q true) (mc_control m)) m)
    (fun m =>
       if decide (waiting (mc_app m) = [q]) then in_app (approval_abort now reg (mc_app m)) m
       else (m, [])).

(** The [finally] of [decideAccess], and its answer. *)
Definition conclude (q : nat) (now : Z) (reg : Registry) (m : Machine) : Step :=
  match mc_questions m !! q with
  | Some x =>
      match q_settled x, q_result x with
      | Some r, None =>
          then_do (abort q now reg m)
            (fun m => (on_question q (with_result (Some r)) m, [Decided q r]))
      | _, _ => (m, [])
      end
  | None => (m, [])
  end.

(** The end of a readline prompt: its interface is closed. *)
Definition prompt_returns (q : nat) (m : Machine) : Machine :=
  match list_find (fun r => rl_asker r = q) (mc_lines m) with
  | Some (_, r) =>
      match rl_answer r with
      | Some answer =>
          settle_prompt q (readline_result r answer)
            (set_lines (filter (fun r => rl_asker r <> q) (mc_lines m)) m)
      | None => m
      end
  | None => m
  end.

(** The panel starts: the readlines are taken down. *)
Definition panel_start (m : Machine) : Machine :=
  match mc_panel m with
  | None => set_panel (Some (mkPanel None None false)) (set_lines (map readline_abort (mc_lines m)) m)
  | Some _ => m
  end.

Inductive ConsentOp :=
| Decide (q : nat) (req : AccessPromptInput)
| HttpRequest (res : nat) (head : RequestHead)
| BodyRead (res : nat) (body : option ApproveBody)
| PollClosed (res : nat)
| OfferTimer
| WindowTimer (timer : nat)
| AppAnswer (id : Z * Z) (approved : bool)
| AppTimer
| AppChanged
| Line (s : jstr)
| LineTimer (q : nat)
| Key (k : string)
| Tick
| PanelStart
| PanelStop
| PromptReturns (q : nat)
| LocalContinues (q : nat)
| HearLocal (q : nat)
| HearApp (q : nat)
| Conclude (q : nat)
| Shutdown.

(** Each event finds the clock and the relay's connections as they are. *)
Record ConsentEvent := mkConsentEvent { ce_now : Z; ce_registry : Registry; ce_op : ConsentOp }.

Definition consent_step (ev : ConsentEvent) (m : Machine) : Step :=
  let now := ce_now ev in
  let reg := ce_registry ev in
  match ce_op ev with
  | Decide q req => if decide (mc_questions m !! q = None) then decideAccess q req now reg m else (m, [])
  | HttpRequest res head => in_control (handle authToken head res now (mc_control m)).2 m
  | BodyRead res body => in_control (body_read res body now (mc_control m)) m
  | PollClosed res => in_control (poll_closed res (mc_control m)) m
  | OfferTimer => in_control (offer_timeout (mc_control m)) m
  | WindowTimer timer => in_control (window_timeout timer (mc_control m)) m
  | AppAnswer id approved =>
      let '(_, st, out) := resolveDeviceApproval id approved now reg (mc_app m) in in_app (st, out) m
  | AppTimer => in_app (approval_timeout now reg (mc_app m)) m
  | AppChanged => in_app (noteApproversChanged now reg (mc_app m)) m
  | Line s => (set_lines (map (type_line s) (mc_lines m)) m, [])
  | LineTimer q => (set_lines (map (on_line q readline_timeout) (mc_lines m)) m, [])
  | Key k => (panel_key k m, [])
  | Tick => (panel_tick now m, [])
  | PanelStart => (panel_start m, [])
  | PanelStop => (panel_stop m, [])
  | PromptReturns q => (prompt_returns q m, [])
  | LocalContinues q => local_continues q now m
  | HearLocal q => (hear_local q m, [])
  | HearApp q => (hear_app q m, [])
  | Conclude q => conclude q now reg m
  | Shutdown => in_control (close (mc_control m)) (panel_stop m)
  end.

Definition machine_initial : Machine := mkMachine control_initial approval_initial None [] ∅.

Definition consent_run (evs : list ConsentEvent) (m : Machine) : Machine :=
  foldl (fun m ev => (consent_step ev m).1) m evs.
End Machine.
