(* ===== verification/ConsentSafety.v ===== *)
(** * ConsentSafety: what the questions of the machine keep true

    The invariant of Consent ([fine_but]): a promise stands exactly while a
    channel holds it, a question that was answered has been withdrawn; and that
    every event keeps it. *)

From S2P Require Import Prelude Grants Connections Approval ApproveControl Consent.

(** ** What stands open between a question and its channels

    The views of a machine the invariants speak of, how the window and the
    in-app question let go of what they hold, and the invariant [fine]: a
    promise is standing exactly while a channel holds it. *)

(** ** Views *)

Definition owner (c : ApproveControl) : option Asker := pd_asker <$> ct_pending c.
Definition app_owner (a : ApprovalState) : option nat := pe_asker <$> pending a.
Definition answering (m : Machine) : option nat := mc_panel m ≫= pn_answering.
Definition readers (m : Machine) : list nat := rl_asker <$> mc_lines m.
Definition prompted (m : Machine) : list nat := readers m ++ option_list (answering m).

(** The promise a question's [localChain] waits for, while it stands. *)
Inductive Standing := OnOffer | OnPark | OnPrompt.

#[export] Instance Standing_eq_dec : EqDecision Standing.
Proof. solve_decision. Defined.

Definition standing (l : Local) : option Standing :=
  match l with
  | AwaitOffer None => Some OnOffer
  | AwaitPark None => Some OnPark
  | AwaitPrompt None => Some OnPrompt
  | _ => None
  end.

Definition awaits (a : Asker) : Standing := if as_park a then OnPark else OnOffer.

Definition app_standing (a : InApp) : bool := match a with AppAsked => true | _ => false end.

Definition stands (q : nat) (m : Machine) : option Standing :=
  mc_questions m !! q ≫= fun x => standing (q_local x).
Definition asked_in_app (q : nat) (m : Machine) : bool :=
  match mc_questions m !! q with Some x => app_standing (q_inApp x) | None => false end.

(** ** The window *)

Definition offered (out : list ControlOut) : list (Asker * option bool) :=
  omap (fun o => match o with Offered a v => Some (a, v) | Respond _ _ _ => None end) out.

Lemma offered_app a b : offered (a ++ b) = offered a ++ offered b.
Proof. apply omap_app. Qed.

Definition guarded (authToken : string) (c : ApproveControl) : Prop :=
  forall res h, (res, h) ∈ ct_reading c -> guard authToken h = None /\ rh_path h <> Some STATE_PATH /\ rh_path h <> None.

(** It keeps what it holds, or lets go of it with an answer. *)
Definition keeps (c : ApproveControl) (r : Control) : Prop :=
  ct_reading r.1 = ct_reading c /\
  ((owner r.1 = owner c /\ offered r.2 = []) \/
   exists a, owner c = Some a /\ owner r.1 = None /\ offered r.2 = [(a, Some false)]).

Definition holds_on (c : ApproveControl) (r : Control) : Prop :=
  ct_reading r.1 = ct_reading c /\ owner r.1 = owner c /\ offered r.2 = [].

Lemma holds_keeps c r : holds_on c r -> keeps c r.
Proof. intros (? & ? & ?). split; [done|]. by left. Qed.

Lemma holds_refl c : holds_on c (c, []).
Proof. done. Qed.

Lemma reply_holds res status body c : holds_on c (reply res status body c).
Proof. unfold reply. by case_decide. Qed.

Lemma settlePending_keeps c : keeps c (settlePending false c).
Proof.
  unfold settlePending, keeps, owner. destruct (ct_pending c) as [p|] eqn:Hp; simpl; [|by rewrite Hp; auto].
  split; [done|]. right. by eexists.
Qed.

Lemma and_then_keeps c m f :
  holds_on c m -> keeps m.1 (f m.1) -> keeps c (and_then m f).
Proof.
  intros (Hr & Ho & Hs) [Hr' Hk]. unfold and_then. destruct (f m.1) as [c' out]. simpl in *.
  unfold keeps. simpl. rewrite offered_app, Hs. rewrite Hr', Hr, <- Ho. done.
Qed.

Lemma flush_holds c : holds_on c (flush c).
Proof.
  unfold flush. destruct (ct_waiter c) as [w|]; [|done]. destruct (ct_pending c) as [p|] eqn:Hp; [|done].
  destruct (wt_held w) as [res|]; [|done].
  match goal with |- holds_on _ (reply ?r ?s ?b ?c') => pose proof (reply_holds r s b c') as (? & ? & ?) end.
  done.
Qed.

Lemma drop_keeps c : keeps c (dropWaiter c).
Proof.
  unfold dropWaiter. destruct (ct_waiter c) as [w|]; [|apply holds_keeps, holds_refl].
  change (keeps (with_waiter None (disarm (wt_timer w) c))
    (and_then match wt_held w with
              | Some res => reply res 200 ClosedReply (with_waiter None (disarm (wt_timer w) c))
              | None => (with_waiter None (disarm (wt_timer w) c), []) end (settlePending false))).
  apply and_then_keeps; [|apply settlePending_keeps]. destruct (wt_held w); [apply reply_holds|apply holds_refl].
Qed.

Lemma timeout_keeps timer c : keeps c (window_timeout timer c).
Proof.
  unfold window_timeout. case_decide; [|apply holds_keeps, holds_refl].
  apply (drop_keeps (disarm timer c)).
Qed.

Lemma closed_keeps res c : keeps c (poll_closed res c).
Proof.
  unfold poll_closed. destruct (ct_waiter c) as [w|]; [|apply holds_keeps, holds_refl].
  case_decide; [|apply holds_keeps, holds_refl].
  apply (settlePending_keeps (with_waiter (Some (mkWaiter (wt_sessionId w) (wt_expiresAt w) None (wt_timer w))) c)).
Qed.

Lemma aborted_keeps a c : keeps c (offer_aborted a c).
Proof.
  unfold offer_aborted. destruct (ct_pending c) as [p|]; [|apply holds_keeps, holds_refl].
  case_decide; [apply settlePending_keeps|apply holds_keeps, holds_refl].
Qed.

(** After the abort of an asker, it holds nothing of that asker's. *)
Lemma aborted_lets_go a c : owner (offer_aborted a c).1 <> Some a.
Proof.
  unfold offer_aborted, settlePending, owner. destruct (ct_pending c) as [p|] eqn:Hp; simpl; [|by rewrite Hp].
  case_decide as Ha; simpl; [done|]. rewrite Hp. by intros [= ?].
Qed.

Lemma wait_holds res body now c : holds_on c (handleWait res body now c).
Proof.
  assert (forall w c', ct_reading c' = ct_reading c -> owner c' = owner c ->
    holds_on c (flush (with_waiter w c'))) as Hf.
  { intros w c' Hr Ho. destruct (flush_holds (with_waiter w c')) as (? & ? & ?).
    by repeat split; [rewrite <- Hr|rewrite <- Ho|]. }
  unfold handleWait. case_decide; [apply reply_holds|].
  destruct (ct_waiter c) as [w|] eqn:Hw; [|by apply Hf].
  case_decide; [unfold hold; rewrite Hw; by apply Hf|].
  case_match; [apply reply_holds|by apply Hf].
Qed.

(** [offer]: answered at once, or held. *)
Definition takes (a : Asker) (c : ApproveControl) (r : Control) : Prop :=
  ct_reading r.1 = ct_reading c /\
  ((owner r.1 = owner c /\ exists v, offered r.2 = [(a, v)] /\ v <> Some true) \/
   (owner c = None /\ owner r.1 = Some a /\ offered r.2 = [])).

Lemma offer_takes input a aborted now c : takes a c (offer input a aborted now c).
Proof.
  assert (forall v, v <> Some true -> takes a c (c, [Offered a v])) as Hn.
  { intros v Hv. split; [done|]. left. split; [done|]. by exists v. }
  unfold offer. destruct (_ && _); [by apply Hn|]. destruct (ct_pending c) eqn:Hp; [by apply Hn|].
  destruct aborted; [by apply Hn|].
  match goal with |- takes _ _ (flush ?c') => destruct (flush_holds c') as (Hr & Ho & Hs) end.
  split; [done|]. right. unfold owner at 1. rewrite Hp. by rewrite Ho.
Qed.

(** ** The in-app question *)

Definition answers (out : list ApprovalOut) : list (nat * option bool) :=
  omap (fun o => match o with Settle q v => Some (q, v) | Tell _ _ => None end) out.

Lemma answers_app a b : answers (a ++ b) = answers a ++ answers b.
Proof. apply omap_app. Qed.

Lemma answers_tell now msg reg : answers (tell_approvers now msg reg) = [].
Proof. unfold tell_approvers. by induction (broadcastWhere _ _ _). Qed.

(** It keeps its question, or lets go of it with [v]. *)
Definition app_keeps (v : option bool) (a : ApprovalState) (r : ApprovalState * list ApprovalOut) : Prop :=
  (app_owner r.1 = app_owner a /\ answers r.2 = []) \/
  exists q, app_owner a = Some q /\ app_owner r.1 = None /\ answers r.2 = [(q, v)].

Lemma finish_lets_go v reason now reg a : app_keeps v a (finish v reason now reg a).
Proof.
  unfold finish, app_keeps, app_owner. destruct (pending a) as [p|] eqn:Hp; simpl; [|by rewrite Hp; left].
  right. exists (pe_asker p). by rewrite answers_app, answers_tell.
Qed.

Lemma resolve_keeps id b now reg a :
  let '(_, st, out) := resolveDeviceApproval id b now reg a in app_keeps (Some b) a (st, out).
Proof.
  unfold resolveDeviceApproval. destruct (pending a) as [p|]; [|by left]. case_decide; [|by left].
  pose proof (finish_lets_go (Some b) decided now reg a) as Hf. by destruct (finish _ _ _ _ _).
Qed.

Lemma changed_keeps now reg a : app_keeps None a (noteApproversChanged now reg a).
Proof.
  unfold noteApproversChanged. destruct (pending a); [|by left].
  destruct (approvers now reg); [apply finish_lets_go|by left].
Qed.

Lemma ask_takes input now reg q a :
  let r := askDeviceApproval input None false q now reg a in
  (app_owner r.1 = app_owner a /\ answers r.2 = [(q, None)]) \/
  (app_owner a = None /\ app_owner r.1 = Some q /\ answers r.2 = []).
Proof.
  unfold askDeviceApproval, app_owner. destruct (pending a) eqn:Hp; simpl; [rewrite Hp; by left|].
  destruct (approvers now reg); simpl; [rewrite Hp; by left|]. right. by rewrite answers_tell.
Qed.

(** ** Promises settled *)

Lemma in_control_eq r m :
  (in_control r m).1 = foldl (fun m av => settle_offer av.1 av.2 m) (set_control r.1 m) (offered r.2).
Proof.
  unfold in_control. generalize (set_control r.1 m), ([] : list ConsentOut).
  induction r.2 as [|o l IH]; intros m' out; [done|].
  destruct o as [res status body|a v]; simpl; apply IH.
Qed.

Lemma in_app_eq r m :
  (in_app r m).1 = foldl (fun m qv => settle_app qv.1 qv.2 m) (set_app r.1 m) (answers r.2).
Proof.
  unfold in_app. generalize (set_app r.1 m), ([] : list ConsentOut).
  induction r.2 as [|o l IH]; intros m' out; [done|].
  destruct o as [ws msg|q v]; simpl; apply IH.
Qed.

Lemma then_do_1 s f : (then_do s f).1 = (f s.1).1.
Proof. unfold then_do. by destruct (f s.1). Qed.

(** ** The invariant *)

Definition passed (x : Question) : nat :=
  (if decide (q_inApp x = AppHeard None) then 1 else 0)
  + (if decide (q_local x = LocalHeard (Denied no_tty)) then 1 else 0).

(** What a result comes from. *)
Definition because (x : Question) (r : AccessPromptResult) : Prop :=
  match r with
  | Approved => q_inApp x = AppHeard (Some true) \/ q_local x = LocalHeard Approved
  | Denied refused => q_inApp x = AppHeard (Some false) \/ q_local x = LocalHeard (Denied refused)
  | Denied timed_out => q_local x = LocalHeard (Denied timed_out)
  | Denied no_tty => q_inApp x = AppHeard None /\ q_local x = LocalHeard (Denied no_tty)
  end.

Record race_ok (x : Question) : Prop := {
  ro_held : q_held x = if decide (q_local x = LocalHeard (Denied no_tty)) then Some (Denied no_tty) else None;
  ro_open : (q_open x + passed x)%nat = 2%nat;
  ro_because r : q_settled x = Some r -> because x r;
  ro_unsettled : q_settled x = None ->
    (forall b, q_inApp x <> AppHeard (Some b)) /\
    (forall r, q_local x = LocalHeard r -> r = Denied no_tty) /\ (passed x < 2)%nat;
  ro_result r : q_result x = Some r -> q_settled x = Some r /\ q_aborted x = true;
}.

(** A promise stands exactly while a channel holds it, but for the offer of
    [xo] and the in-app question of [xa], which are about to be made. *)
Record fine_but (authToken : string) (xo xa : option nat) (m : Machine) : Prop := {
  fi_owner a : xo <> Some (as_question a) ->
    (owner (mc_control m) = Some a <-> stands (as_question a) m = Some (awaits a));
  fi_no_owner q b : xo = Some q -> owner (mc_control m) <> Some (mkAsker q b);
  fi_app q : xa <> Some q -> (app_owner (mc_app m) = Some q <-> asked_in_app q m = true);
  fi_no_app q : xa = Some q -> app_owner (mc_app m) <> Some q;
  fi_prompted q : q ∈ prompted m -> stands q m = Some OnPrompt;
  fi_once : NoDup (prompted m);
  fi_panel p q : mc_panel m = Some p -> pn_answering p = Some q ->
    pn_stopped p = false /\ exists t, pn_mode p = Some (q, t);
  fi_race q x : mc_questions m !! q = Some x -> race_ok x;
  fi_aborted q x : mc_questions m !! q = Some x -> q_aborted x = true ->
    owner (mc_control m) <> Some (mkAsker q true) /\ app_owner (mc_app m) <> Some q /\
    answering m <> Some q /\ forall r, r ∈ mc_lines m -> rl_asker r = q -> rl_aborted r = true;
  fi_guarded : guarded authToken (mc_control m);
}.

Abbreviation fine authToken := (fine_but authToken None None).

Section Steps.
Context (authToken : string).
Abbreviation fineb := (fine_but authToken).

Lemma stands_on q q' f m :
  stands q' (on_question q f m) =
  if decide (q = q') then mc_questions m !! q ≫= fun x => standing (q_local (f x)) else stands q' m.
Proof.
  unfold stands, on_question. simpl. case_decide as Hq; [subst; rewrite lookup_alter_eq|by rewrite lookup_alter_ne].
  by destruct (mc_questions m !! q').
Qed.

Lemma asked_on q q' f m :
  asked_in_app q' (on_question q f m) =
  if decide (q = q') then match mc_questions m !! q with Some x => app_standing (q_inApp (f x)) | None => false end
  else asked_in_app q' m.
Proof.
  unfold asked_in_app, on_question. simpl. case_decide as Hq; [subst; rewrite lookup_alter_eq|by rewrite lookup_alter_ne].
  by destruct (mc_questions m !! q').
Qed.

Lemma lookup_on q q' f m y :
  mc_questions (on_question q f m) !! q' = Some y ->
  (q = q' /\ exists x, mc_questions m !! q = Some x /\ y = f x) \/ (q <> q' /\ mc_questions m !! q' = Some y).
Proof.
  unfold on_question. simpl. destruct (decide (q = q')) as [->|Hq].
  - rewrite lookup_alter_eq. intros (x & Hx & ->)%fmap_Some. left. split; [done|]. by exists x.
  - rewrite lookup_alter_ne by done. by right.
Qed.

(** Changing a question without moving it: what it waits for stays. *)
Lemma fine_on_question xo xa q f m :
  fineb xo xa m ->
  (forall x, mc_questions m !! q = Some x -> race_ok x ->
     standing (q_local (f x)) = standing (q_local x) /\
     app_standing (q_inApp (f x)) = app_standing (q_inApp x) /\
     q_aborted (f x) = q_aborted x /\ race_ok (f x)) ->
  fineb xo xa (on_question q f m).
Proof.
  intros Hm Hf.
  assert (forall q', stands q' (on_question q f m) = stands q' m) as Hst.
  { intros q'. rewrite stands_on. case_decide; [subst|done]. unfold stands.
    destruct (mc_questions m !! q') as [x|] eqn:Hx; [|done]. simpl.
    apply (Hf x); [done|by eapply Hm]. }
  assert (forall q', asked_in_app q' (on_question q f m) = asked_in_app q' m) as Has.
  { intros q'. rewrite asked_on. case_decide; [subst|done]. unfold asked_in_app.
    destruct (mc_questions m !! q') as [x|] eqn:Hx; [|done].
    by destruct (Hf x eq_refl (fi_race _ _ _ _ Hm _ _ Hx)) as (_ & -> & _). }
  split; intros; try rewrite ?Hst, ?Has; try by eapply Hm.
  - apply lookup_on in H as [(<- & x0 & Hx0 & ->)|[_ H]]; [|by eapply Hm].
    apply Hf; [done|]. by eapply Hm.
  - apply lookup_on in H as [(<- & x0 & Hx0 & ->)|[_ H]]; [|by eapply Hm].
    eapply Hm; [done|]. pose proof (Hf _ Hx0 (fi_race _ _ _ _ Hm _ _ Hx0)) as (_ & _ & <- & _). done.
Qed.

Lemma fine_set_control xo xa c m :
  fineb xo xa m -> owner c = owner (mc_control m) -> guarded authToken c -> fineb xo xa (set_control c m).
Proof. intros Hm Ho Hg. split; intros; simpl; rewrite ?Ho; try done; by eapply Hm. Qed.

(** Moving a question that has not been heard leaves its race as it is. *)
Definition heard (l : Local) : option AccessPromptResult := match l with LocalHeard r => Some r | _ => None end.
Definition app_heard (a : InApp) : option (option bool) := match a with AppHeard v => Some v | _ => None end.

Lemma heard_Some l r : heard l = Some r <-> l = LocalHeard r.
Proof. destruct l; naive_solver. Qed.

Lemma app_heard_Some a v : app_heard a = Some v <-> a = AppHeard v.
Proof. destruct a; naive_solver. Qed.

Lemma race_moves x y :
  race_ok x -> heard (q_local y) = heard (q_local x) -> app_heard (q_inApp y) = app_heard (q_inApp x) ->
  q_held y = q_held x -> q_open y = q_open x -> q_settled y = q_settled x -> q_result y = q_result x ->
  q_aborted y = q_aborted x -> race_ok y.
Proof.
  intros Hx Hl Ha Hh Ho Hs Hr Hab.
  assert (forall r, q_local y = LocalHeard r <-> q_local x = LocalHeard r) as Hlr.
  { intros r. by rewrite <- !heard_Some, Hl. }
  assert (forall v, q_inApp y = AppHeard v <-> q_inApp x = AppHeard v) as Har.
  { intros v. by rewrite <- !app_heard_Some, Ha. }
  assert (passed y = passed x) as Hp.
  { unfold passed. by rewrite (decide_ext _ _ _ _ (Har None)), (decide_ext _ _ _ _ (Hlr (Denied no_tty))). }
  destruct Hx as [Hxh Hxo Hxb Hxu Hxr]. split; rewrite ?Hp, ?Hh, ?Ho, ?Hs, ?Hr, ?Hab; try done.
  - by rewrite Hxh, (decide_ext _ _ _ _ (Hlr (Denied no_tty))).
  - intros r Hsr. specialize (Hxb r Hsr). unfold because in *. destruct r as [|[]]; rewrite ?Har, ?Hlr; done.
  - intros Hsn. destruct (Hxu Hsn) as (H1 & H2 & H3). split_and!; [|intros r ?%Hlr; by apply H2|done].
    intros b ?%Har. by eapply H1.
Qed.

(** The promise of an offer settles, and the window has nothing of that
    question's. *)
Lemma fine_offered xo xo' xa a v c m :
  fineb xo xa m -> (xo' = xo \/ xo = Some (as_question a) /\ xo' = None) ->
  stands (as_question a) m = Some (awaits a) -> guarded authToken c ->
  (forall a', owner c = Some a' <-> owner (mc_control m) = Some a' /\ as_question a' <> as_question a) ->
  fineb xo' xa (settle_offer a v (set_control c m)).
Proof.
  intros Hm Hxo Hst Hg Hc. unfold settle_offer. set (f := fun x => _).
  assert (exists x, mc_questions m !! as_question a = Some x /\ standing (q_local x) = Some (awaits a)) as (x & Hx & Hxs).
  { unfold stands in Hst. apply bind_Some in Hst. naive_solver. }
  assert (f x = with_local (if as_park a then AwaitPark (Some v) else AwaitOffer (Some v)) x) as Hf.
  { unfold f. destruct (q_local x) as [[]|[]|[]| |]; try done; unfold awaits in Hxs; by destruct (as_park a). }
  assert (standing (q_local (f x)) = None) as Hfs by (rewrite Hf; simpl; by destruct (as_park a)).
  assert (race_ok (f x)) as Hfr.
  { rewrite Hf. apply (race_moves x); try done; [by eapply Hm|simpl|by destruct (as_park a)..].
    destruct (q_local x) as [[]|[]|[]| |]; try done; by destruct (as_park a). }
  assert (forall q, stands q (on_question (as_question a) f (set_control c m))
    = if decide (as_question a = q) then None else stands q m) as Hs.
  { intros q. rewrite stands_on. case_decide; [|done]. simpl. by rewrite Hx. }
  assert (forall q, asked_in_app q (on_question (as_question a) f (set_control c m)) = asked_in_app q m) as Ha.
  { intros q. rewrite asked_on. case_decide; [subst|done]. simpl. unfold asked_in_app. rewrite Hx. by rewrite Hf. }
  split; intros; rewrite ?Hs, ?Ha; try by eapply Hm.
  - simpl. rewrite Hc. case_decide as Hq; [naive_solver|].
    rewrite (fi_owner _ _ _ _ Hm); [naive_solver|]. destruct Hxo as [->|[-> _]]; congruence.
  - simpl. rewrite Hc. intros [Hb _]. destruct Hxo as [->|[_ ->]]; [|done]. by eapply Hm.
  - case_decide as Hq; [|by eapply Hm]. apply (fi_prompted _ _ _ _ Hm) in H. rewrite <- Hq, Hst in H.
    unfold awaits in H. by destruct (as_park a).
  - apply lookup_on in H as [(<- & y & Hy & ->)|[_ H]]; [|by eapply Hm]. simpl in Hy. by simplify_eq.
  - simpl. rewrite Hc. split; [|apply lookup_on in H as [(<- & y & Hy & ->)|[_ H]]; [|by eapply Hm]].
    + intros [Hb Hne]. apply lookup_on in H as [(<- & y & Hy & ->)|[_ H]]; [by destruct Hne|]. by destruct (fi_aborted _ _ _ _ Hm _ _ H H0) as [Hn _].
    + simpl in Hy. simplify_eq. rewrite Hf in H0. by eapply Hm.
  - done.
Qed.

(** What the window does to a fine machine. *)
Lemma fine_control xo xa r m :
  fineb xo xa m -> guarded authToken r.1 ->
  (owner r.1 = owner (mc_control m) /\ offered r.2 = []) \/
  (exists a v, owner (mc_control m) = Some a /\ owner r.1 = None /\ offered r.2 = [(a, v)]) ->
  fineb xo xa (in_control r m).1.
Proof.
  intros Hm Hg [[Ho Hs]|(a & v & Ha & Ho & Hs)]; rewrite in_control_eq, Hs; simpl.
  - by apply fine_set_control.
  - assert (xo <> Some (as_question a)) as Hxo.
    { intros Hxo. apply (fi_no_owner _ _ _ _ Hm _ (as_park a) Hxo). rewrite Ha. by destruct a. }
    apply fine_offered with xo; [done|by left|by apply Hm|done|].
    intros a'. rewrite Ho, Ha. naive_solver.
Qed.

Lemma fine_keeps xo xa r m :
  fineb xo xa m -> keeps (mc_control m) r -> fineb xo xa (in_control r m).1.
Proof.
  intros Hm [Hr Hk]. apply fine_control; [done| |].
  - intros res h. rewrite Hr. apply Hm.
  - destruct Hk as [?|(a & ?)]; [by left|right]. by eexists a, _.
Qed.

(** An offer is made: answered at once, or held. *)
Lemma fine_takes xa a r m x :
  fineb (Some (as_question a)) xa m -> mc_questions m !! as_question a = Some x ->
  standing (q_local x) = Some (awaits a) -> q_aborted x = false ->
  takes a (mc_control m) r -> fineb None xa (in_control r m).1.
Proof.
  intros Hm Hx Hst Hab [Hr Hk].
  assert (guarded authToken r.1) as Hg by (intros res h; rewrite Hr; apply Hm).
  assert (forall b, owner (mc_control m) <> Some (mkAsker (as_question a) b)) as Hno
    by (intros b; by apply (fi_no_owner _ _ _ _ Hm)).
  assert (stands (as_question a) m = Some (awaits a)) as Hs by (unfold stands; by rewrite Hx).
  destruct Hk as [(Ho & v & Hs' & _)|(Hn & Ho & Hs')]; rewrite in_control_eq, Hs'; cbn [foldl fst snd].
  - apply fine_offered with (Some (as_question a)); [done|by right|done|done|].
    intros a'. rewrite Ho. split; [|by intros []]. intros Ha'. split; [done|]. intros Hq.
    apply (Hno (as_park a')). rewrite Ha', <- Hq. by destruct a'.
  - split; intros; simpl; try by eapply Hm.
    + change (stands (as_question a0) (set_control r.1 m)) with (stands (as_question a0) m). rewrite Ho.
      destruct (decide (as_question a0 = as_question a)) as [Hq|Hq].
      * rewrite Hq, Hs. unfold awaits. destruct a as [qa [|]], a0 as [q0 [|]]; simpl in *; subst; split; congruence.
      * rewrite <- (fi_owner _ _ _ _ Hm a0) by congruence. rewrite Hn. naive_solver.
    + done.
    + rewrite Ho. split; [|by eapply Hm]. intros [= ->]. simpl in *. simplify_eq. congruence.
    + done.
Qed.

(** The same for the in-app question. *)
Lemma fine_answered xo xa xa' q v a m :
  fineb xo xa m -> (xa' = xa \/ xa = Some q /\ xa' = None) -> asked_in_app q m = true ->
  (forall q', app_owner a = Some q' <-> app_owner (mc_app m) = Some q' /\ q' <> q) ->
  fineb xo xa' (settle_app q v (set_app a m)).
Proof.
  intros Hm Hxa Hask Ha. unfold settle_app. set (f := fun x => _).
  assert (exists x, mc_questions m !! q = Some x /\ q_inApp x = AppAsked) as (x & Hx & Hxa').
  { unfold asked_in_app in Hask. destruct (_ !! _) as [x|]; [|done]. exists x. split; [done|]. by destruct (q_inApp x). }
  assert (f x = with_inApp (AppSettled v) x) as Hf by (unfold f; by rewrite Hxa').
  assert (race_ok (f x)) as Hfr.
  { rewrite Hf. apply (race_moves x); try done; [by eapply Hm|]. simpl. by rewrite Hxa'. }
  assert (forall q', stands q' (on_question q f (set_app a m)) = stands q' m) as Hs.
  { intros q'. rewrite stands_on. case_decide; [subst|done]. simpl. unfold stands. by rewrite Hx; simpl; rewrite Hf. }
  assert (forall q', asked_in_app q' (on_question q f (set_app a m))
    = if decide (q = q') then false else asked_in_app q' m) as Has.
  { intros q'. rewrite asked_on. case_decide; [|done]. simpl. by rewrite Hx, Hf. }
  split; intros; rewrite ?Hs, ?Has; try by eapply Hm.
  - simpl. rewrite Ha. case_decide as Hq; [naive_solver|].
    rewrite (fi_app _ _ _ _ Hm); [naive_solver|]. destruct Hxa as [->|[-> _]]; congruence.
  - simpl. rewrite Ha. intros [Hb _]. destruct Hxa as [->|[_ ->]]; [|done]. by eapply (fi_no_app _ _ _ _ Hm).
  - apply lookup_on in H as [(<- & y & Hy & ->)|[_ H]]; [|by eapply Hm]. simpl in Hy. by simplify_eq.
  - simpl. rewrite Ha.
    apply lookup_on in H as [(<- & y & Hy & ->)|[_ H]].
    + simpl in Hy. simplify_eq. rewrite Hf in H0. destruct (fi_aborted _ _ _ _ Hm _ _ Hx H0) as (? & ? & ?).
      split_and!; naive_solver.
    + destruct (fi_aborted _ _ _ _ Hm _ _ H H0) as (? & ? & ?). split_and!; naive_solver.
Qed.

Lemma fine_set_app xo xa a m :
  fineb xo xa m -> app_owner a = app_owner (mc_app m) -> fineb xo xa (set_app a m).
Proof. intros Hm Ho. split; intros; simpl; rewrite ?Ho; try done; by eapply Hm. Qed.

Lemma fine_app xo v r m :
  fineb xo None m -> app_keeps v (mc_app m) r -> fineb xo None (in_app r m).1.
Proof.
  intros Hm [[Ho Hs]|(q & Hq & Ho & Hs)]; rewrite in_app_eq, Hs; cbn [foldl fst snd].
  - by apply fine_set_app.
  - apply fine_answered with None; [done|by left|by apply (fi_app _ _ _ _ Hm)|].
    intros q'. rewrite Ho, Hq. naive_solver.
Qed.

Lemma fine_asks xo input now reg q m x :
  fineb xo (Some q) m -> mc_questions m !! q = Some x -> q_inApp x = AppAsked -> q_aborted x = false ->
  fineb xo None (in_app (askDeviceApproval input None false q now reg (mc_app m)) m).1.
Proof.
  intros Hm Hx Hxa Hab.
  assert (asked_in_app q m = true) as Hask by (unfold asked_in_app; by rewrite Hx, Hxa).
  assert (app_owner (mc_app m) <> Some q) as Hno by (by apply (fi_no_app _ _ _ _ Hm)).
  destruct (ask_takes input now reg q (mc_app m)) as [[Ho Hs]|(Hn & Ho & Hs)];
    rewrite in_app_eq, Hs; cbn [foldl fst snd].
  - apply fine_answered with (Some q); [done|by right|done|]. intros q'. rewrite Ho. naive_solver.
  - set (a := (askDeviceApproval _ _ _ _ _ _ _).1) in *. split; intros; simpl; try by eapply Hm.
    + change (asked_in_app q0 (set_app a m)) with (asked_in_app q0 m). rewrite Ho.
      destruct (decide (q0 = q)) as [->|Hq]; [naive_solver|].
      rewrite <- (fi_app _ _ _ _ Hm q0) by congruence. rewrite Hn. naive_solver.
    + done.
    + rewrite Ho. destruct (fi_aborted _ _ _ _ Hm _ _ H H0) as (Hn1 & _ & Hn2).
      split; [done|]. split; [|done]. intros [= <-]. simpl in H. simplify_eq; congruence.
Qed.

(** Where there is no app to ask. *)
Lemma fine_no_app xo q m :
  fineb xo (Some q) m -> asked_in_app q m = true -> fineb xo None (settle_app q None m).
Proof.
  intros Hm Hask.
  assert (app_owner (mc_app m) <> Some q) as Hno by (by apply (fi_no_app _ _ _ _ Hm)).
  replace m with (set_app (mc_app m) m) at 1 by (by destruct m).
  apply fine_answered with (Some q); [done|by right|done|naive_solver].
Qed.

(** ** Prompts *)

Lemma fine_free xa q x m :
  fineb None xa m -> mc_questions m !! q = Some x -> standing (q_local x) = None -> fineb (Some q) xa m.
Proof.
  intros Hm Hx Hs. assert (stands q m = None) as Hst by (unfold stands; by rewrite Hx).
  split; intros; try by eapply Hm.
  intros Ho. simplify_eq. apply (fi_owner _ _ _ _ Hm) in Ho; [|done]. simpl in Ho. by rewrite Hst in Ho.
Qed.

(** A question moves on to another await, or returns. *)
Lemma fine_local xo xa q l x m :
  fineb (Some q) xa m -> mc_questions m !! q = Some x ->
  heard (q_local x) = None -> heard l = None -> q ∉ prompted m ->
  xo = Some q \/ xo = None /\ standing l <> Some OnOffer /\ standing l <> Some OnPark ->
  fineb xo xa (on_question q (with_local l) m).
Proof.
  intros Hm Hx Hh Hl Hp Hxo.
  assert (forall q', stands q' (on_question q (with_local l) m)
    = if decide (q = q') then standing l else stands q' m) as Hs.
  { intros q'. rewrite stands_on. case_decide; [|done]. by rewrite Hx. }
  assert (forall q', asked_in_app q' (on_question q (with_local l) m) = asked_in_app q' m) as Ha.
  { intros q'. rewrite asked_on. case_decide; [subst|done]. unfold asked_in_app. by rewrite Hx. }
  assert (forall b, owner (mc_control m) <> Some (mkAsker q b)) as Hno by (intros b; by apply (fi_no_owner _ _ _ _ Hm)).
  split; intros; rewrite ?Hs, ?Ha; try by eapply Hm.
  - simpl. case_decide as Hq.
    + destruct Hxo as [->|(_ & H1 & H2)]; [by rewrite Hq in H|]. split.
      * intros Ho. destruct (Hno (as_park a)). rewrite Ho, Hq. by destruct a.
      * unfold awaits. destruct (as_park a); naive_solver.
    + apply (fi_owner _ _ _ _ Hm). congruence.
  - simpl. destruct Hxo as [->|(-> & _)]; [|done]. simplify_eq. apply Hno.
  - case_decide as Hq; [by rewrite Hq in Hp|]. by eapply Hm.
  - apply lookup_on in H as [(<- & y & Hy & ->)|[_ H]]; [|by eapply Hm]. simplify_eq.
    apply (race_moves x); try done; [by eapply Hm|]. simpl. congruence.
  - apply lookup_on in H as [(<- & y & Hy & ->)|[_ H]]; [|by eapply Hm]. by eapply (fi_aborted _ _ _ _ Hm).
Qed.

Lemma fine_settle_prompt xo xa q r m :
  fineb xo xa m -> stands q m = Some OnPrompt -> q ∉ prompted m -> fineb xo xa (settle_prompt q r m).
Proof.
  intros Hm Hst Hp. unfold settle_prompt. set (f := fun x => _).
  assert (exists x, mc_questions m !! q = Some x /\ q_local x = AwaitPrompt None) as (x & Hx & Hxl).
  { unfold stands in Hst. apply bind_Some in Hst as (x & Hx & Hs). exists x. split; [done|].
    by destruct (q_local x) as [[]|[]|[]| |]. }
  assert (f x = with_local (AwaitPrompt (Some r)) x) as Hf by (unfold f; by rewrite Hxl).
  assert (forall q', stands q' (on_question q f m) = if decide (q = q') then None else stands q' m) as Hs.
  { intros q'. rewrite stands_on. case_decide; [|done]. by rewrite Hx; simpl; rewrite Hf. }
  assert (forall q', asked_in_app q' (on_question q f m) = asked_in_app q' m) as Ha.
  { intros q'. rewrite asked_on. case_decide; [subst|done]. unfold asked_in_app. by rewrite Hx, Hf. }
  split; intros; rewrite ?Hs, ?Ha; try by eapply Hm.
  - simpl. rewrite (fi_owner _ _ _ _ Hm) by done. case_decide as Hq; [|done]. rewrite <- Hq, Hst.
    unfold awaits. by destruct (as_park a).
  - case_decide as Hq; [by rewrite Hq in Hp|]. by eapply Hm.
  - apply lookup_on in H as [(<- & y & Hy & ->)|[_ H]]; [|by eapply Hm]. simplify_eq. rewrite Hf.
    apply (race_moves x); try done; [by eapply Hm|]. simpl. by rewrite Hxl.
  - apply lookup_on in H as [(<- & y & Hy & ->)|[_ H]]; [|by eapply Hm]. simplify_eq. rewrite Hf in H0.
    by eapply (fi_aborted _ _ _ _ Hm).
Qed.

(** Another screen: the readlines and the panel. *)
Lemma fine_screen xo xa l p m :
  fineb xo xa m -> let m' := set_panel p (set_lines l m) in
  (forall q, q ∈ prompted m' -> stands q m = Some OnPrompt) -> NoDup (prompted m') ->
  (forall p' q, p = Some p' -> pn_answering p' = Some q -> pn_stopped p' = false /\ exists t, pn_mode p' = Some (q, t)) ->
  (forall q x, mc_questions m !! q = Some x -> q_aborted x = true ->
     answering m' <> Some q /\ forall r, r ∈ l -> rl_asker r = q -> rl_aborted r = true) ->
  fineb xo xa m'.
Proof.
  intros Hm m' Hp Hnd Hpan Hab. split; intros; try by eapply Hm.
  - by apply Hp.
  - done.
  - by eapply Hpan.
  - destruct (fi_aborted _ _ _ _ Hm _ _ H H0) as (? & ? & _). destruct (Hab _ _ H H0). done.
Qed.

(** The same readlines, further on. *)
Lemma fine_lines xo xa g m :
  fineb xo xa m -> (forall r, rl_asker (g r) = rl_asker r /\ (rl_aborted r = true -> rl_aborted (g r) = true)) ->
  fineb xo xa (set_lines (map g (mc_lines m)) m).
Proof.
  intros Hm Hg. replace (set_lines _ m) with (set_panel (mc_panel m) (set_lines (map g (mc_lines m)) m)) by (by destruct m).
  assert (forall l, rl_asker <$> map g l = rl_asker <$> l) as Hr.
  { induction l as [|r l IH]; [done|]. cbn. rewrite (proj1 (Hg r)). f_equal. exact IH. }
  apply fine_screen; [done|..]; unfold prompted, readers, answering; cbn [mc_lines mc_panel set_lines set_panel]; rewrite ?Hr.
  - intros q Hq. by apply (fi_prompted _ _ _ _ Hm).
  - apply Hm.
  - intros p q. apply Hm.
  - intros q x Hx Hab. destruct (fi_aborted _ _ _ _ Hm _ _ Hx Hab) as (_ & _ & Han & Hl). split; [done|].
    intros r (r0 & -> & Hr0)%list_elem_of_fmap Hq. apply Hg. apply Hl; [done|]. by rewrite <- Hq, (proj1 (Hg r0)).
Qed.
End Steps.

Section Fine.
Context (authToken : string) (canAsk canApprove isTTY : bool).
Abbreviation fineb := (fine_but authToken).
Abbreviation step := (consent_step authToken canAsk canApprove isTTY).

(** ** The screens keep the invariant *)

(** The panel lets go of its question with an answer. *)
Lemma released_fine xo xa r p mode stopped m :
  fineb xo xa m -> mc_panel m = Some p ->
  let m' := set_panel (Some (mkPanel mode None stopped)) m in
  fineb xo xa (match pn_answering p with Some q => settle_prompt q r m' | None => m' end).
Proof.
  intros Hm Hp m'.
  assert (answering m = pn_answering p) as Han by (unfold answering; by rewrite Hp).
  pose proof (fi_once _ _ _ _ Hm) as Hn. unfold prompted in Hn. rewrite Han in Hn. apply NoDup_app in Hn as (Hnd & Hn & _).
  assert (fineb xo xa m') as Hm'.
  { replace m' with (set_panel (Some (mkPanel mode None stopped)) (set_lines (mc_lines m) m)) by (by destruct m).
    apply fine_screen; [done|..]; unfold prompted, readers, answering; simpl.
    - intros q Hq. apply (fi_prompted _ _ _ _ Hm). unfold prompted, readers. set_solver.
    - by rewrite app_nil_r.
    - by intros p' q [= <-].
    - intros q x Hx Hab. split; [done|]. apply (fi_aborted _ _ _ _ Hm _ _ Hx Hab). }
  destruct (pn_answering p) as [q|] eqn:Hq; [|done].
  apply fine_settle_prompt; [done|apply (fi_prompted _ _ _ _ Hm); unfold prompted; rewrite Han; set_solver|].
  unfold prompted, answering. simpl. rewrite app_nil_r. intros Hr. apply (Hn q Hr). by left.
Qed.

Lemma answer_fine xo xa r p m :
  fineb xo xa m -> mc_panel m = Some p -> fineb xo xa (panel_answer r p m).
Proof. apply released_fine. Qed.

Lemma key_fine xo xa k m : fineb xo xa m -> fineb xo xa (panel_key k m).
Proof.
  intros Hm. unfold panel_key. destruct (mc_panel m) as [p|] eqn:Hp; [|done].
  destruct (pn_stopped p), (pn_mode p); try done. repeat case_decide; try done; by apply answer_fine.
Qed.

Lemma tick_fine xo xa now m : fineb xo xa m -> fineb xo xa (panel_tick now m).
Proof.
  intros Hm. unfold panel_tick. destruct (mc_panel m) as [p|] eqn:Hp; [|done].
  destruct (pn_mode p) as [[q t]|]; [|done]. case_match; [by apply answer_fine|done].
Qed.

Lemma panel_aborted_fine xo xa q m : fineb xo xa m -> fineb xo xa (panel_aborted q m).
Proof.
  intros Hm. unfold panel_aborted. destruct (mc_panel m) as [p|] eqn:Hp; [|done].
  case_decide; [by apply answer_fine|done].
Qed.

Lemma panel_stop_fine xo xa m : fineb xo xa m -> fineb xo xa (panel_stop m).
Proof.
  intros Hm. unfold panel_stop. destruct (mc_panel m) as [p|] eqn:Hp; [|done].
  destruct (pn_stopped p); [done|]. by apply released_fine.
Qed.

(** A question is put on this machine's screen, the whole of it. *)
Lemma prompt_fine xa q now x m :
  fineb (Some q) xa m -> mc_questions m !! q = Some x ->
  standing (q_local x) <> Some OnPrompt -> heard (q_local x) = None -> q_aborted x = false ->
  fineb None xa (prompt isTTY q false now m).
Proof.
  intros Hm Hx Hns Hh Hab.
  assert (q ∉ prompted m) as Hq.
  { intros Hq%(fi_prompted _ _ _ _ Hm). unfold stands in Hq. by rewrite Hx in Hq. }
  unfold prompt. set (m1 := on_question q (with_local (AwaitPrompt None)) m).
  assert (fineb None xa m1) as Hm1 by (apply fine_local with x; [done..|by right]).
  assert (stands q m1 = Some OnPrompt) as Hst.
  { unfold m1. rewrite stands_on, Hx. by case_decide. }
  assert (q ∉ prompted m1) as Hq1 by exact Hq.
  assert (forall q' x', mc_questions m1 !! q' = Some x' -> q_aborted x' = true -> q <> q') as Hne.
  { intros q' x' Hx' Hab' <-. apply lookup_on in Hx' as [(_ & y & Hy & ->)|[? _]]; [|done]. simplify_eq/=. congruence. }
  assert (NoDup (readers m1 ++ [q]) /\ forall q', q' ∈ readers m1 ++ [q] -> stands q' m1 = Some OnPrompt) as [Hnd Hall].
  { pose proof (fi_once _ _ _ _ Hm1) as Hn. unfold prompted in Hn, Hq1. apply NoDup_app in Hn as (Hn & _ & _). split.
    - apply NoDup_app. split; [done|]. split; [|apply NoDup_singleton].
      intros q' Hr ->%list_elem_of_singleton. apply Hq1. set_solver.
    - intros q' [Hr| ->%list_elem_of_singleton]%elem_of_app; [|done].
      apply (fi_prompted _ _ _ _ Hm1). unfold prompted. set_solver. }
  unfold askOnThisMachine. destruct (mc_panel m1) as [p|] eqn:Hp.
  - unfold panel_prompt. destruct (pn_stopped p); [by apply fine_settle_prompt|].
    replace (set_panel _ m1) with (set_panel (Some (mkPanel (Some (q, now + APPROVAL_WINDOW_MS)) (Some q) false))
      (set_lines (mc_lines m1) m1)) by done.
    apply fine_screen; [done|..]; unfold prompted, readers, answering; simpl.
    + done.
    + done.
    + intros p' q' [= <-] [= <-]. split; [done|]. by eexists.
    + intros q' x' Hx' Hab'. split; [intros [= Hqq]; by destruct (Hne _ _ Hx' Hab')|]. apply (fi_aborted _ _ _ _ Hm1 _ _ Hx' Hab').
  - unfold promptForAccess. destruct isTTY; [|by apply fine_settle_prompt]. simpl.
    replace (set_lines _ m1) with (set_panel (mc_panel m1) (set_lines (mc_lines m1 ++ [mkReadline q false None]) m1)) by done.
    assert (forall l, rl_asker <$> (l ++ [mkReadline q false None]) = (rl_asker <$> l) ++ [q]) as Hr by (intros l; by rewrite fmap_app).
    apply fine_screen; [done|..]; unfold prompted, readers, answering; cbn [mc_lines mc_panel set_lines set_panel];
      rewrite ?Hr, Hp; cbn.
    + by rewrite app_nil_r.
    + by rewrite app_nil_r.
    + done.
    + intros q' x' Hx' Hab'. split; [done|]. intros r [Hr'|Hr']%elem_of_app Hra.
      * by apply (fi_aborted _ _ _ _ Hm1 _ _ Hx' Hab').
      * apply list_elem_of_singleton in Hr' as ->. simpl in Hra. by destruct (Hne _ _ Hx' Hab').
Qed.

(** ** What settling a promise leaves of a question *)

Definition core (x : Question) :=
  (q_request x, q_aborted x, q_open x, q_held x, q_settled x, q_result x).

Definition frame (m m' : Machine) : Prop :=
  forall q, core <$> mc_questions m' !! q = core <$> mc_questions m !! q.

Lemma frame_trans m1 m2 m3 : frame m1 m2 -> frame m2 m3 -> frame m1 m3.
Proof. intros H1 H2 q. by rewrite H2, H1. Qed.

Lemma frame_lookup m m' q x :
  frame m m' -> mc_questions m !! q = Some x -> exists y, mc_questions m' !! q = Some y /\ core y = core x.
Proof.
  intros Hf Hx. specialize (Hf q). rewrite Hx in Hf. apply fmap_Some in Hf as (y & Hy & Hc). by exists y.
Qed.

Lemma frame_on q f m : (forall x, core (f x) = core x) -> frame m (on_question q f m).
Proof.
  intros Hf q'. unfold on_question. simpl. destruct (decide (q = q')) as [->|Hq].
  - rewrite lookup_alter_eq. destruct (mc_questions m !! q'); simpl; [by rewrite Hf|done].
  - by rewrite lookup_alter_ne.
Qed.

Lemma settle_prompt_frame q r m : frame m (settle_prompt q r m).
Proof. apply frame_on. intros x. by destruct (q_local x) as [|[]| | |]. Qed.

Lemma in_control_frame r m : frame m (in_control r m).1.
Proof.
  rewrite in_control_eq. assert (frame m (set_control r.1 m)) as H0 by done. revert H0.
  generalize (set_control r.1 m). induction (offered r.2) as [|[a v] l IH]; intros m' H0; [done|].
  simpl. apply IH. eapply frame_trans; [exact H0|]. apply frame_on. intros x.
  destruct (q_local x) as [[]|[]|[]| |]; try done; by destruct (as_park a).
Qed.

Lemma in_app_frame r m : frame m (in_app r m).1.
Proof.
  rewrite in_app_eq. assert (frame m (set_app r.1 m)) as H0 by done. revert H0.
  generalize (set_app r.1 m). induction (answers r.2) as [|[q v] l IH]; intros m' H0; [done|].
  simpl. apply IH. eapply frame_trans; [exact H0|]. apply frame_on. intros x. by destruct (q_inApp x).
Qed.

(** And of the rest of the machine. *)
Definition screens (m : Machine) := (mc_panel m, mc_lines m).

Lemma in_control_rest r m :
  mc_control (in_control r m).1 = r.1 /\ mc_app (in_control r m).1 = mc_app m /\
  screens (in_control r m).1 = screens m.
Proof.
  rewrite in_control_eq. generalize (set_control r.1 m), (eq_refl : mc_control (set_control r.1 m) = r.1),
    (eq_refl : mc_app (set_control r.1 m) = mc_app m), (eq_refl : screens (set_control r.1 m) = screens m).
  induction (offered r.2) as [|[a v] l IH]; intros m' H1 H2 H3; [done|]. by apply IH.
Qed.

Lemma in_app_rest r m :
  mc_app (in_app r m).1 = r.1 /\ mc_control (in_app r m).1 = mc_control m /\
  screens (in_app r m).1 = screens m.
Proof.
  rewrite in_app_eq. generalize (set_app r.1 m), (eq_refl : mc_app (set_app r.1 m) = r.1),
    (eq_refl : mc_control (set_app r.1 m) = mc_control m), (eq_refl : screens (set_app r.1 m) = screens m).
  induction (answers r.2) as [|[a v] l IH]; intros m' H1 H2 H3; [done|]. by apply IH.
Qed.

Lemma panel_answer_frame r p m : frame m (panel_answer r p m).
Proof.
  unfold panel_answer. destruct (pn_answering p) as [q|]; [|done].
  eapply frame_trans; [|apply settle_prompt_frame]. done.
Qed.

Lemma panel_aborted_frame q m : frame m (panel_aborted q m).
Proof.
  unfold panel_aborted. destruct (mc_panel m); [|done]. case_decide; [apply panel_answer_frame|done].
Qed.

Lemma prompt_frame q now m : frame m (prompt isTTY q false now m).
Proof.
  unfold prompt. eapply frame_trans; [by apply (frame_on q (with_local (AwaitPrompt None)))|].
  unfold askOnThisMachine, panel_prompt, promptForAccess. destruct (mc_panel _) as [p|].
  - destruct (pn_stopped p); [apply settle_prompt_frame|done].
  - destruct isTTY; [done|apply settle_prompt_frame].
Qed.

(** The abort of a question, but for the flag. *)
Definition withdraw (q : nat) (now : Z) (reg : Registry) (m : Machine) : Machine :=
  let m := panel_aborted q (set_lines (map (on_line q readline_abort) (mc_lines m)) m) in
  let m := (in_control (offer_aborted (mkAsker q true) (mc_control m)) m).1 in
  if decide (waiting (mc_app m) = [q]) then (in_app (approval_abort now reg (mc_app m)) m).1 else m.

Lemma on_question_comm q q' f g m :
  (forall x, f (g x) = g (f x)) ->
  on_question q' f (on_question q g m) = on_question q g (on_question q' f m).
Proof.
  intros Hfg. unfold on_question, set_questions. simpl. f_equal. apply map_eq. intros k.
  destruct (decide (k = q)) as [->|Hk], (decide (q = q')) as [->|Hq]; try destruct (decide (k = q')) as [->|Hk'];
    rewrite ?lookup_alter_eq, ?lookup_alter_ne by done; rewrite ?lookup_alter_eq, ?lookup_alter_ne by done;
    try (destruct (mc_questions m !! _); simpl; by rewrite ?Hfg); done.
Qed.

Abbreviation flag q := (on_question q (with_aborted true)).

Lemma in_control_flag q r m : (in_control r (flag q m)).1 = flag q (in_control r m).1.
Proof.
  rewrite !in_control_eq. change (set_control r.1 (flag q m)) with (flag q (set_control r.1 m)).
  generalize (set_control r.1 m). induction (offered r.2) as [|[a v] l IH]; intros m'; [done|]. simpl.
  rewrite <- IH. f_equal. apply on_question_comm. intros x. simpl.
  destruct (q_local x) as [[]|[]|[]| |]; try done; by destruct (as_park a).
Qed.

Lemma in_app_flag q r m : (in_app r (flag q m)).1 = flag q (in_app r m).1.
Proof.
  rewrite !in_app_eq. change (set_app r.1 (flag q m)) with (flag q (set_app r.1 m)).
  generalize (set_app r.1 m). induction (answers r.2) as [|[a v] l IH]; intros m'; [done|]. simpl.
  rewrite <- IH. f_equal. apply on_question_comm. intros x. simpl. by destruct (q_inApp x).
Qed.

Lemma panel_aborted_flag q q' m : panel_aborted q' (flag q m) = flag q (panel_aborted q' m).
Proof.
  unfold panel_aborted. change (mc_panel (flag q m)) with (mc_panel m). destruct (mc_panel m) as [p|]; [|done].
  case_decide; [|done]. unfold panel_answer. destruct (pn_answering p) as [k|]; [|done].
  apply (on_question_comm q k _ _ (set_panel (Some (mkPanel None None (pn_stopped p))) m)).
  intros x. simpl. by destruct (q_local x) as [|[]| | |].
Qed.

Lemma abort_eq q now reg m : (abort q now reg m).1 = flag q (withdraw q now reg m).
Proof.
  unfold abort, withdraw. rewrite then_do_1.
  change (set_lines (map (on_line q readline_abort) (mc_lines (flag q m))) (flag q m))
    with (flag q (set_lines (map (on_line q readline_abort) (mc_lines m)) m)).
  rewrite panel_aborted_flag. set (m1 := panel_aborted q _).
  change (mc_control (flag q m1)) with (mc_control m1). rewrite in_control_flag.
  set (m2 := (in_control _ m1).1). change (mc_app (flag q m2)) with (mc_app m2).
  case_decide; [apply in_app_flag|done].
Qed.

Lemma withdraw_frame q now reg m : frame m (withdraw q now reg m).
Proof.
  unfold withdraw. set (m1 := panel_aborted q _).
  assert (frame m m1) as H1 by (eapply frame_trans; [|apply panel_aborted_frame]; done).
  assert (frame m (in_control (offer_aborted (mkAsker q true) (mc_control m1)) m1).1) as H2
    by (eapply frame_trans; [exact H1|apply in_control_frame]).
  case_decide; [|done]. eapply frame_trans; [exact H2|apply in_app_frame].
Qed.

(** What is withdrawn is on no screen, held by no channel. *)
Definition withdrawn (q : nat) (m : Machine) : Prop :=
  owner (mc_control m) <> Some (mkAsker q true) /\ app_owner (mc_app m) <> Some q /\
  answering m <> Some q /\ forall r, r ∈ mc_lines m -> rl_asker r = q -> rl_aborted r = true.

Lemma waiting_owner a q : waiting a = [q] <-> app_owner a = Some q.
Proof. unfold waiting, app_owner. destruct (pending a); naive_solver. Qed.

Lemma panel_aborted_rest q m :
  mc_control (panel_aborted q m) = mc_control m /\ mc_app (panel_aborted q m) = mc_app m /\
  mc_lines (panel_aborted q m) = mc_lines m /\ answering (panel_aborted q m) <> Some q.
Proof.
  unfold panel_aborted, answering. destruct (mc_panel m) as [p|] eqn:Hp; [|by rewrite Hp].
  case_decide; [|by rewrite Hp]. unfold panel_answer. by destruct (pn_answering p).
Qed.

Lemma withdraw_withdrawn q now reg m : withdrawn q (withdraw q now reg m).
Proof.
  unfold withdraw. set (m0 := set_lines _ m).
  destruct (panel_aborted_rest q m0) as (_ & _ & Hl & Ha). set (m1 := panel_aborted q m0) in *.
  destruct (in_control_rest (offer_aborted (mkAsker q true) (mc_control m1)) m1) as (Hc & _ & Hs).
  set (m2 := (in_control _ m1).1) in *. injection Hs as Hp2 Hl2.
  assert (withdrawn q m2 \/ app_owner (mc_app m2) = Some q) as Hw.
  { destruct (decide (app_owner (mc_app m2) = Some q)) as [Hq|Hq]; [by right|left]. split_and!; [|done|..].
    - rewrite Hc. apply aborted_lets_go.
    - unfold answering. by rewrite Hp2.
    - rewrite Hl2, Hl. intros r (r0 & -> & _)%list_elem_of_fmap. unfold on_line. by case_decide. }
  case_decide as Hwq.
  - destruct (in_app_rest (approval_abort now reg (mc_app m2)) m2) as (Ha3 & Hc3 & Hs3).
    injection Hs3 as Hp3 Hl3. unfold withdrawn, answering. rewrite Ha3, Hc3, Hp3, Hl3. split_and!.
    + rewrite Hc. apply aborted_lets_go.
    + unfold approval_abort. destruct (finish_lets_go None Approval.withdrawn now reg (mc_app m2)) as [[Ho _]|(? & _ & Ho & _)];
        rewrite Ho; [|done]. unfold finish in Ho. apply waiting_owner in Hwq. unfold app_owner in *.
      destruct (pending (mc_app m2)); [|done]. simpl in Ho. done.
    + rewrite Hp2. done.
    + rewrite Hl2, Hl. intros r (r0 & -> & _)%list_elem_of_fmap. unfold on_line. by case_decide.
  - destruct Hw as [Hw|Hw]; [done|]. by apply waiting_owner in Hw.
Qed.

Lemma on_line_later q r :
  rl_asker (on_line q readline_abort r) = rl_asker r /\
  (rl_aborted r = true -> rl_aborted (on_line q readline_abort r) = true).
Proof. unfold on_line. by case_decide. Qed.

Lemma withdraw_fine q now reg m : fineb None None m -> fineb None None (withdraw q now reg m).
Proof.
  intros Hm. unfold withdraw. set (m1 := panel_aborted q _).
  assert (fineb None None m1) as H1 by (apply panel_aborted_fine, fine_lines; [done|apply on_line_later]).
  assert (fineb None None (in_control (offer_aborted (mkAsker q true) (mc_control m1)) m1).1) as H2
    by (apply fine_keeps; [done|apply aborted_keeps]).
  case_decide; [|done]. eapply fine_app; [done|apply finish_lets_go].
Qed.

Lemma flag_fine q m : fineb None None m -> withdrawn q m -> fineb None None (flag q m).
Proof.
  intros Hm Hw.
  assert (forall q', stands q' (flag q m) = stands q' m) as Hs.
  { intros q'. rewrite stands_on. case_decide; [by subst|done]. }
  assert (forall q', asked_in_app q' (flag q m) = asked_in_app q' m) as Ha.
  { intros q'. rewrite asked_on. case_decide; [by subst|done]. }
  split; intros; rewrite ?Hs, ?Ha; try by eapply Hm.
  - apply lookup_on in H as [(<- & y & Hy & ->)|[_ H]]; [|by eapply Hm].
    destruct (fi_race _ _ _ _ Hm _ _ Hy) as [H1 H2 H3 H4 H5]. split; try done.
    intros r Hr. split; [by apply H5|done].
  - apply lookup_on in H as [(<- & y & Hy & ->)|[_ H]]; [exact Hw|by eapply (fi_aborted _ _ _ _ Hm)].
Qed.

Lemma abort_fine q now reg m : fineb None None m -> fineb None None (abort q now reg m).1.
Proof.
  intros Hm. rewrite abort_eq. apply flag_fine; [by apply withdraw_fine|apply withdraw_withdrawn].
Qed.

Lemma conclude_fine q now reg m : fineb None None m -> fineb None None (conclude q now reg m).1.
Proof.
  intros Hm. unfold conclude. destruct (mc_questions m !! q) as [x|] eqn:Hx; [|done].
  destruct (q_settled x) as [r|] eqn:Hs; [|done]. destruct (q_result x); [done|].
  rewrite then_do_1. cbn [fst]. apply fine_on_question; [by apply abort_fine|].
  intros y Hy [H1 H2 H3 H4 H5]. split_and!; try done. split; try done. intros r' [= <-]. simpl.
  rewrite abort_eq in Hy. apply lookup_on in Hy as [(_ & z & Hz & ->)|[? _]]; [|done].
  destruct (frame_lookup _ _ _ _ (withdraw_frame q now reg m) Hx) as (z' & Hz' & Hc). rewrite Hz in Hz'. injection Hz' as <-.
  assert (q_settled z = q_settled x) as Hset by (unfold core in Hc; congruence). simpl. by rewrite Hset.
Qed.

(** ** Each event keeps the invariant *)

Lemma passed_le x : (passed x <= 2)%nat.
Proof. unfold passed. repeat case_decide; lia. Qed.

Lemma abstain_ok x y :
  race_ok x -> q_settled y = q_settled x -> q_result y = q_result x -> q_aborted y = q_aborted x ->
  q_open y = q_open x -> passed y = S (passed x) ->
  q_held y = (if decide (q_local y = LocalHeard (Denied no_tty)) then Some (Denied no_tty) else None) ->
  (forall r, q_settled x = Some r -> because y r) ->
  (q_settled x = None -> (forall b, q_inApp y <> AppHeard (Some b)) /\ forall r, q_local y = LocalHeard r -> r = Denied no_tty) ->
  race_ok (race_abstain y).
Proof.
  intros [H1 H2 H3 H4 H5] Hs Hr Ha Ho Hp Hh Hb Hn. pose proof (passed_le y) as Hle.
  unfold race_abstain. set (z := with_open (q_open y - 1) y).
  destruct (decide (q_open z = 0%nat)) as [H0|H0].
  - unfold race_answer. change (q_settled z) with (q_settled y). rewrite Hs. destruct (q_settled x) as [r|] eqn:Hsx.
    + split; [exact Hh|change (passed z) with (passed y); simpl; lia|..]; change (q_settled z) with (q_settled y); rewrite Hs.
      * done.
      * done.
      * change (q_result z) with (q_result y). change (q_aborted z) with (q_aborted y). rewrite Hr, Ha. apply H5.
    + (* the second to pass: what was held *)
      assert (q_inApp y = AppHeard None /\ q_local y = LocalHeard (Denied no_tty)) as [Hy1 Hy2].
      { assert (passed y = 2%nat) as H2' by (simpl in H0; lia).
        unfold passed in H2'. repeat case_decide; done || lia. }
      split; [exact Hh|change (passed _) with (passed y); simpl; lia|..]; simpl.
      * intros r [= <-]. by rewrite Hh, Hy2, decide_True by done.
      * done.
      * rewrite Hr, Ha. intros r' Hr'. destruct (H5 _ Hr') as [? _]. congruence.
  - split; [exact Hh|change (passed z) with (passed y); simpl in *; lia|..]; change (q_settled z) with (q_settled y); rewrite Hs.
    + done.
    + intros Hsn. destruct (Hn Hsn) as [? ?]. split_and!; try done. change (passed z) with (passed y). simpl in H0. lia.
    + change (q_result z) with (q_result y). change (q_aborted z) with (q_aborted y). rewrite Hr, Ha. apply H5.
Qed.

Lemma race_answer_ok x y r :
  race_ok x -> q_settled y = q_settled x -> q_result y = q_result x -> q_aborted y = q_aborted x ->
  q_open y = q_open x -> passed y = passed x ->
  q_held y = (if decide (q_local y = LocalHeard (Denied no_tty)) then Some (Denied no_tty) else None) ->
  (forall r', q_settled x = Some r' -> because y r') -> because y r ->
  race_ok (race_answer r y).
Proof.
  intros [H1 H2 H3 H4 H5] Hs Hr Ha Ho Hp Hh Hb Hr'. unfold race_answer. rewrite Hs.
  destruct (q_settled x) as [r0|] eqn:Hsx.
  - split; [done|lia|..]; rewrite Hs; [done|done|]. rewrite Hr, Ha. apply H5.
  - split; [done|change (passed _) with (passed y); simpl; lia|..]; simpl.
    + by intros ? [= <-].
    + done.
    + rewrite Hr, Ha. intros r1 H1'. by destruct (H5 _ H1').
Qed.

(** Hearing one side does not undo what the other side decided. *)
Lemma because_app x v r :
  q_inApp x = AppSettled v -> because x r -> because (with_inApp (AppHeard v) x) r.
Proof. intros Hx. unfold because. rewrite Hx. destruct r as [|[]]; simpl; naive_solver. Qed.

Lemma because_local x l r :
  q_local x = LocalReturned l -> because x r -> because (with_local (LocalHeard l) x) r.
Proof. intros Hx. unfold because. rewrite Hx. destruct r as [|[]]; simpl; naive_solver. Qed.

Lemma abstain_same y :
  q_local (race_abstain y) = q_local y /\ q_inApp (race_abstain y) = q_inApp y /\ q_aborted (race_abstain y) = q_aborted y.
Proof. unfold race_abstain, race_answer. repeat case_match; done. Qed.

Lemma answer_same r y :
  q_local (race_answer r y) = q_local y /\ q_inApp (race_answer r y) = q_inApp y /\ q_aborted (race_answer r y) = q_aborted y.
Proof. unfold race_answer. by case_match. Qed.

Lemma hear_app_fine xo xa q m : fineb xo xa m -> fineb xo xa (hear_app q m).
Proof.
  intros Hm. unfold hear_app. apply fine_on_question; [done|]. intros x Hx Hr.
  destruct (q_inApp x) as [|v|v] eqn:Hv; [by rewrite Hv|..|by rewrite Hv].
  set (y := with_inApp (AppHeard v) x).
  assert (forall r, q_settled x = Some r -> because y r) as Hb.
  { intros r Hs. apply because_app; [done|]. by apply (ro_because _ Hr). }
  destruct v as [b|].
  - assert (passed y = passed x) as Hp.
    { unfold passed. simpl. rewrite Hv. by repeat case_decide. }
    assert (race_ok (race_answer (if b then Approved else Denied refused) y)) as Hok.
    { apply (race_answer_ok x); try done; [apply Hr|]. destruct b; by left. }
    split_and!; destruct b; first [exact Hok|by destruct (answer_same Approved y) as (E1 & E2 & E3); rewrite ?E1, ?E2, ?E3|by destruct (answer_same (Denied refused) y) as (E1 & E2 & E3); rewrite ?E1, ?E2, ?E3].
  - assert (passed y = S (passed x)) as Hp.
    { unfold passed. simpl. rewrite Hv. by repeat case_decide. }
    destruct (abstain_same y) as (-> & -> & ->). split_and!; try done.
    apply (abstain_ok x); try done; [apply Hr|]. intros Hs. split; [done|].
    intros r Hl. destruct (ro_unsettled _ Hr Hs) as (_ & H2 & _). by apply H2.
Qed.

Lemma hear_local_fine xo xa q m : fineb xo xa m -> fineb xo xa (hear_local q m).
Proof.
  intros Hm. unfold hear_local. apply fine_on_question; [done|]. intros x Hx Hr.
  destruct (q_local x) as [| | |r|r] eqn:Hl; [by rewrite Hl..| |by rewrite Hl].
  set (y := with_local (LocalHeard r) x).
  assert (forall r', q_settled x = Some r' -> because y r') as Hb.
  { intros r' Hs. apply because_local; [done|]. by apply (ro_because _ Hr). }
  assert (q_held x = None) as Hh.
  { rewrite (ro_held _ Hr), Hl. by rewrite decide_False. }
  case_decide as Hd.
  - subst r. set (z := with_held (Some (Denied no_tty)) y).
    destruct (abstain_same z) as (-> & -> & ->). split_and!; try done.
    assert (passed z = S (passed x)) as Hp.
    { unfold passed. simpl. rewrite Hl.
      repeat case_decide; congruence || lia. }
    apply (abstain_ok x); try done. intros Hs. split; [|by intros r' [= <-]].
    by destruct (ro_unsettled _ Hr Hs).
  - destruct (answer_same r y) as (-> & -> & ->). split_and!; try done.
    apply (race_answer_ok x); try done.
    + unfold passed. simpl. rewrite Hl. repeat case_decide; congruence || lia.
    + simpl. rewrite Hh. by rewrite decide_False by congruence.
    + destruct r as [|[]]; simpl; try done; by right.
Qed.

Lemma new_question_fine q req m :
  fineb None None m -> mc_questions m !! q = None ->
  fineb (Some q) (Some q) (set_questions
    (<[q := mkQuestion req false (AwaitOffer None) AppAsked 2 None None None]> (mc_questions m)) m).
Proof.
  intros Hm Hq. set (m' := set_questions _ m).
  assert (forall q', q' <> q -> stands q' m' = stands q' m /\ asked_in_app q' m' = asked_in_app q' m) as Hs.
  { intros q' Hne. unfold stands, asked_in_app. simpl. by rewrite lookup_insert_ne. }
  assert (stands q m = None /\ asked_in_app q m = false) as [Hsq Haq] by (unfold stands, asked_in_app; by rewrite Hq).
  split; intros; try by eapply Hm.
  - rewrite (proj1 (Hs (as_question a) ltac:(congruence))). by apply Hm.
  - simplify_eq. intros Ho. apply (fi_owner _ _ _ _ Hm) in Ho; [|done]. simpl in Ho. congruence.
  - rewrite (proj2 (Hs q0 ltac:(congruence))). by apply Hm.
  - simplify_eq. intros Ho. apply (fi_app _ _ _ _ Hm) in Ho; [|done]. congruence.
  - apply (fi_prompted _ _ _ _ Hm) in H. by rewrite (proj1 (Hs q0 ltac:(congruence))).
  - simpl in H. destruct (decide (q0 = q)) as [->|Hne]; [|rewrite lookup_insert_ne in H by done; by eapply Hm].
    rewrite lookup_insert_eq in H. simplify_eq. split; try done. intros _. split_and!; try done.
    unfold passed. simpl. lia.
  - simpl in H. destruct (decide (q0 = q)) as [->|Hne]; [|rewrite lookup_insert_ne in H by done; by eapply Hm].
    rewrite lookup_insert_eq in H. by simplify_eq.
Qed.

Lemma settle_offer_inApp a v m q x :
  mc_questions m !! q = Some x ->
  exists z, mc_questions (settle_offer a v m) !! q = Some z /\ q_inApp z = q_inApp x.
Proof.
  intros Hx. unfold settle_offer, on_question. simpl. destruct (decide (as_question a = q)) as [->|Hne].
  - rewrite lookup_alter_eq, Hx. eexists. split; [done|]. by destruct (q_local x) as [[]|[]|[]| |], (as_park a).
  - rewrite lookup_alter_ne by done. by exists x.
Qed.

Lemma in_control_inApp r m q x y :
  mc_questions m !! q = Some x -> mc_questions (in_control r m).1 !! q = Some y -> q_inApp y = q_inApp x.
Proof.
  rewrite in_control_eq. change (mc_questions m) with (mc_questions (set_control r.1 m)).
  generalize (set_control r.1 m). revert x. induction (offered r.2) as [|[a v] l IH]; intros x m' Hx Hy; [simpl in Hy; congruence|].
  destruct (settle_offer_inApp a v _ _ _ Hx) as (z & Hz & <-). by apply (IH z _ Hz).
Qed.

Lemma prompt_inApp q now m x y :
  mc_questions m !! q = Some x -> mc_questions (prompt isTTY q false now m) !! q = Some y -> q_inApp y = q_inApp x.
Proof.
  intros Hx. unfold prompt. set (m1 := on_question q _ m).
  assert (mc_questions m1 !! q = Some (with_local (AwaitPrompt None) x)) as H1.
  { unfold m1, on_question. simpl. by rewrite lookup_alter_eq, Hx. }
  assert (forall r, mc_questions (settle_prompt q r m1) !! q = Some y -> q_inApp y = q_inApp x) as Hs.
  { intros r. unfold settle_prompt, on_question. simpl. rewrite lookup_alter_eq. 
    change (alter (with_local (AwaitPrompt None)) q (mc_questions m)) with (mc_questions m1). rewrite H1. simpl. by intros [= <-]. }
  unfold askOnThisMachine, panel_prompt, promptForAccess. destruct (mc_panel m1) as [p|].
  - destruct (pn_stopped p); [by apply Hs|]. simpl. change (alter _ q _) with (mc_questions m1). rewrite H1. by intros [= <-].
  - destruct isTTY; [|by apply Hs]. simpl. change (alter _ q _) with (mc_questions m1). rewrite H1. by intros [= <-].
Qed.

Lemma decide_fine q req now reg m :
  fineb None None m -> mc_questions m !! q = None ->
  fineb None None (decideAccess canAsk canApprove isTTY q req now reg m).1.
Proof.
  intros Hm Hq. unfold decideAccess. rewrite then_do_1. set (m0 := set_questions _ m).
  assert (fineb (Some q) (Some q) m0) as H0 by (by apply new_question_fine).
  assert (exists x, mc_questions m0 !! q = Some x /\ q_local x = AwaitOffer None /\ q_inApp x = AppAsked /\ q_aborted x = false)
    as (x & Hx & Hl & Ha & Hab).
  { eexists. unfold m0. simpl. by rewrite lookup_insert_eq. }
  set (s1 := if canApprove then _ else _).
  assert (fineb None (Some q) s1.1 /\ exists y, mc_questions s1.1 !! q = Some y /\ q_inApp y = AppAsked /\ q_aborted y = false)
    as (H1 & y & Hy & Hya & Hyb).
  { assert (frame m0 s1.1) as Hf by (unfold s1; destruct canApprove; [apply in_control_frame|apply prompt_frame]).
    destruct (frame_lookup _ _ _ _ Hf Hx) as (y & Hy & Hc). split.
    - unfold s1. destruct canApprove.
      + apply (fine_takes authToken (Some q) (mkAsker q false) _ m0 x); [done|done|by rewrite Hl|done|apply offer_takes].
      + simpl. apply prompt_fine with x; try done; by rewrite Hl.
    - exists y. split; [done|]. split; [|unfold core in Hc; congruence]. rewrite <- Ha. unfold s1 in Hy. destruct canApprove.
      + by eapply in_control_inApp.
      + by eapply prompt_inApp. }
  destruct canAsk.
  - by apply fine_asks with y.
  - simpl. apply fine_no_app; [done|]. unfold asked_in_app. by rewrite Hy, Hya.
Qed.

Lemma continues_fine q now m :
  fineb None None m -> fineb None None (local_continues canApprove isTTY q now m).1.
Proof.
  intros Hm. unfold local_continues. destruct (mc_questions m !! q) as [x|] eqn:Hx; [|done].
  assert (standing (q_local x) = None -> heard (q_local x) = None -> fineb (Some q) None m /\ q ∉ prompted m) as Hfree.
  { intros Hs Hh. split; [by apply fine_free with x|]. intros Hq%(fi_prompted _ _ _ _ Hm).
    unfold stands in Hq. rewrite Hx in Hq. simpl in Hq. by rewrite Hs in Hq. }
  assert (forall r, standing (q_local x) = None -> heard (q_local x) = None ->
    fineb None None (on_question q (with_local (LocalReturned r)) m)) as Hret.
  { intros r Hs Hh. destruct (Hfree Hs Hh) as [Hm' Hq]. apply fine_local with x; try done. by right. }
  destruct (q_local x) as [[[[]|]|]|[r|]|[v|]|r|r] eqn:Hl; try done; try by apply Hret.
  - destruct (q_aborted x) eqn:Hab; [by apply Hret|]. simpl. destruct (Hfree eq_refl eq_refl) as [Hm' _].
    apply prompt_fine with x; try done; by rewrite Hl.
  - case_decide; [by apply Hret|]. destruct (negb canApprove || q_aborted x) eqn:Hab; [by apply Hret|].
    apply orb_false_iff in Hab as [_ Hab]. rewrite then_do_1. cbn [fst].
    destruct (Hfree eq_refl eq_refl) as [Hm' Hq]. set (m1 := on_question q _ m).
    assert (fineb (Some q) None m1) as H1 by (apply fine_local with x; try done; [by rewrite Hl|by left]).
    apply (fine_takes authToken None (mkAsker q true) _ m1 (with_local (AwaitPark None) x)); try done.
    + unfold m1, on_question. simpl. by rewrite lookup_alter_eq, Hx.
    + apply offer_takes.
Qed.

Lemma returns_fine q m : fineb None None m -> fineb None None (prompt_returns q m).
Proof.
  intros Hm. unfold prompt_returns. destruct (list_find _ (mc_lines m)) as [[i r]|] eqn:Hf; [|done].
  apply list_find_Some in Hf as (Hi & Hq & _). apply list_elem_of_lookup_2 in Hi.
  destruct (rl_answer r) as [answer|]; [|done].
  set (keep := filter (fun r => rl_asker r <> q) (mc_lines m)).
  pose proof (fi_once _ _ _ _ Hm) as Hn. unfold prompted in Hn.
  assert (q ∈ readers m) as Hin by (apply list_elem_of_fmap; by exists r).
  assert (forall q', q' ∈ rl_asker <$> keep -> q' ∈ readers m /\ q' <> q) as Hkeep.
  { intros q' (r' & -> & [Hr' Hr]%list_elem_of_filter)%list_elem_of_fmap. split; [|done].
    apply list_elem_of_fmap. by exists r'. }
  assert (fineb None None (set_lines keep m)) as Hm'.
  { replace (set_lines keep m) with (set_panel (mc_panel m) (set_lines keep m)) by done.
    apply fine_screen; [done|..]; unfold prompted, answering; simpl.
    - intros q' Hq'. apply (fi_prompted _ _ _ _ Hm). unfold prompted. set_solver.
    - apply (sublist_NoDup _ _ Hn). apply sublist_app; [|done]. unfold readers, keep.
      apply fmap_sublist, sublist_filter.
    - apply Hm.
    - intros q' x Hx Hab. destruct (fi_aborted _ _ _ _ Hm _ _ Hx Hab) as (_ & _ & Ha & Hl). split; [done|].
      intros r' [_ Hr']%list_elem_of_filter. by apply Hl. }
  apply fine_settle_prompt; [done| |].
  - apply (fi_prompted _ _ _ _ Hm). unfold prompted. set_solver.
  - unfold prompted, answering. simpl. intros [Hr|Hr]%elem_of_app.
    + by apply Hkeep in Hr as [_ ?].
    + apply NoDup_app in Hn as (_ & Hn & _). by apply (Hn q Hin).
Qed.

Lemma start_fine m : fineb None None m -> fineb None None (panel_start m).
Proof.
  intros Hm. unfold panel_start. destruct (mc_panel m) as [p|] eqn:Hp; [done|].
  assert (fineb None None (set_lines (map readline_abort (mc_lines m)) m)) as H1.
  { apply fine_lines; [done|]. intros r. by split. }
  set (m1 := set_lines _ m) in *.
  replace (set_panel _ m1) with (set_panel (Some (mkPanel None None false)) (set_lines (mc_lines m1) m1)) by done.
  apply fine_screen; [done|..]; unfold prompted, answering; simpl.
  - rewrite app_nil_r. intros q Hq. apply (fi_prompted _ _ _ _ H1), elem_of_app. by left.
  - rewrite app_nil_r. pose proof (fi_once _ _ _ _ H1) as Hn. unfold prompted in Hn. by apply NoDup_app in Hn as [? _].
  - by intros p' q [= <-].
  - intros q x Hx Hab. split; [done|]. apply (fi_aborted _ _ _ _ H1 _ _ Hx Hab).
Qed.

(** Requests that do not settle anything. *)
Lemma handle_holds h res now c :
  guarded authToken c ->
  let r := (handle authToken h res now c).2 in
  owner r.1 = owner c /\ offered r.2 = [] /\ guarded authToken r.1.
Proof.
  intros Hc. assert (forall s b, let r := reply res s b c in owner r.1 = owner c /\ offered r.2 = [] /\ guarded authToken r.1) as Hr.
  { intros s b. destruct (reply_holds res s b c) as (Hr & Ho & Hs). split_and!; try done.
    intros res' h'. rewrite Hr. apply Hc. }
  unfold handle. destruct (rh_path h) as [path|] eqn:Hp; [|done]. simpl.
  destruct (guard authToken h) as [[s b]|] eqn:Hg; [apply Hr|].
  assert (path <> STATE_PATH -> guarded authToken (with_reading ((res, h) :: ct_reading c) c)) as Hrd.
  { intros Hne res' h' [Heq|Hin]%elem_of_cons; [|by apply (Hc res')]. injection Heq as -> ->. rewrite Hp.
    split; [done|]. split; [congruence|done]. }
  destruct path; [..|apply Hr]; (split; [done|split; [done|by apply Hrd]]).
Qed.

Lemma body_settles res body now c :
  guarded authToken c ->
  let r := body_read res body now c in
  guarded authToken r.1 /\
  ((owner r.1 = owner c /\ offered r.2 = []) \/
   exists a v, owner c = Some a /\ owner r.1 = None /\ offered r.2 = [(a, v)]).
Proof.
  intros Hc. unfold body_read. destruct (list_find _ _) as [[i [res' h]]|] eqn:Hf; [|by split; [|left]].
  set (c1 := with_reading _ c).
  assert (guarded authToken c1) as Hc1.
  { intros r' h' [_ Hin]%list_elem_of_filter. by apply (Hc r'). }
  assert (forall r, holds_on c1 r -> guarded authToken r.1 /\
    ((owner r.1 = owner c /\ offered r.2 = []) \/ exists a v, owner c = Some a /\ owner r.1 = None /\ offered r.2 = [(a, v)])) as Hh.
  { intros r (Hr & Ho & Hs). split; [intros r' h'; rewrite Hr; apply Hc1|by left]. }
  destruct body as [body|]; [|apply Hh, reply_holds].
  assert (let r := handleDecide res body c1 in guarded authToken r.1 /\
    ((owner r.1 = owner c /\ offered r.2 = []) \/ exists a v, owner c = Some a /\ owner r.1 = None /\ offered r.2 = [(a, v)])) as Hd.
  { unfold handleDecide. destruct (ct_waiter c1) as [w|]; [|apply Hh, reply_holds].
    destruct (ct_pending c1) as [p|] eqn:Hp; [|case_decide; apply Hh, reply_holds].
    case_decide; [apply Hh, reply_holds|]. case_decide; [apply Hh, reply_holds|].
    unfold settlePending. rewrite Hp. unfold and_then. cbn [fst snd].
    pose proof (reply_holds res 200 OkReply (with_pending None c1)) as (Hr & Ho & Hs).
    destruct (reply res 200 OkReply (with_pending None c1)) as [c2 out]. simpl in *. split.
    - intros r' h'. rewrite Hr. apply Hc1.
    - right. exists (pd_asker p), (Some (ab_approved body)). rewrite Hs.
      change (ct_pending c = Some p) in Hp. unfold owner at 1. by rewrite Hp. }
  destruct (rh_path h) as [[]|]; [apply Hh, wait_holds|exact Hd..].
Qed.

Theorem step_fine ev m : fineb None None m -> fineb None None (step ev m).1.
Proof.
  intros Hm. unfold consent_step. destruct (ce_op ev).
  - case_decide; [by apply decide_fine|done].
  - destruct (handle_holds head res (ce_now ev) (mc_control m)) as (? & ? & ?); [apply Hm|].
    apply fine_control; [done|done|by left].
  - destruct (body_settles res body (ce_now ev) (mc_control m)) as [? ?]; [apply Hm|]. by apply fine_control.
  - apply fine_keeps; [done|apply closed_keeps].
  - apply fine_keeps; [done|apply settlePending_keeps].
  - apply fine_keeps; [done|apply timeout_keeps].
  - pose proof (resolve_keeps id approved (ce_now ev) (ce_registry ev) (mc_app m)) as Hk.
    destruct (resolveDeviceApproval _ _ _ _ _) as [[b st] out]. by eapply fine_app.
  - eapply fine_app; [done|apply finish_lets_go].
  - eapply fine_app; [done|apply changed_keeps].
  - apply fine_lines; [done|]. intros r. unfold type_line. by destruct (rl_answer r).
  - apply fine_lines; [done|]. intros r. unfold on_line, readline_timeout. case_decide; [by destruct (rl_answer r)|done].
  - by apply key_fine.
  - by apply tick_fine.
  - by apply start_fine.
  - by apply panel_stop_fine.
  - by apply returns_fine.
  - by apply continues_fine.
  - by apply hear_local_fine.
  - by apply hear_app_fine.
  - by apply conclude_fine.
  - apply fine_keeps; [by apply panel_stop_fine|].
    replace (mc_control m) with (mc_control (panel_stop m)); [apply drop_keeps|].
    unfold panel_stop. destruct (mc_panel m) as [p|]; [|done]. destruct (pn_stopped p), (pn_answering p); done.
Qed.
End Fine.
