(* ===== verification/ConsentYes.v ===== *)
(** * ConsentYes: where an approval comes from, and what silence comes to

    Every approval is traced to a yes to that very question
    ([approved_by_a_yes]), an answer ends its question everywhere
    ([answered_and_withdrawn]), and no answer is a no ([silence_denies]). *)

From S2P Require Import Prelude Grants Connections Approval ApproveControl Consent ConsentSafety.

(** ** A yes, wherever it has got to *)

Definition local_yes (l : Local) : bool :=
  match l with
  | AwaitOffer (Some (Some true)) | AwaitPark (Some (Some true)) | AwaitPrompt (Some Approved)
  | LocalReturned Approved | LocalHeard Approved => true
  | _ => false
  end.

Definition app_yes (a : InApp) : bool :=
  match a with AppSettled (Some true) | AppHeard (Some true) => true | _ => false end.

Definition carries (x : Question) : bool := local_yes (q_local x) || app_yes (q_inApp x).

Definition line_yes (r : Readline) : bool :=
  match rl_answer r with Some (Some s) => affirmative s | _ => false end.

(** Every yes in the machine is to a question in [Y]. *)
Record covered (Y : nat -> Prop) (m : Machine) : Prop := {
  co_question q x : mc_questions m !! q = Some x -> carries x = true -> Y q;
  co_line r : r ∈ mc_lines m -> line_yes r = true -> Y (rl_asker r);
}.

(** A yes is said to [q] by a connected browser that may approve, on a line of
    the terminal, by a key of the panel that shows [q], or by a client of the
    window on this machine that has its token. *)
Definition says_yes (authToken : string) (ev : ConsentEvent) (m : Machine) (q : nat) : Prop :=
  match ce_op ev with
  | AppAnswer id true =>
      exists p, pending (mc_app m) = Some p /\ ap_id (pe_request p) = id /\ pe_asker p = q
  | Line s => affirmative s = true /\ exists r, r ∈ mc_lines m /\ rl_asker r = q /\ rl_answer r = None
  | Key k => (k = "y" \/ k = "Y") /\ exists p t, mc_panel m = Some p /\ pn_mode p = Some (q, t)
  | BodyRead res (Some body) =>
      ab_approved body = true /\
      exists head w p, (res, head) ∈ ct_reading (mc_control m) /\ guard authToken head = None /\
        rh_path head = Some DECIDE_PATH /\
        ct_waiter (mc_control m) = Some w /\ wt_sessionId w = ab_sessionId body /\
        ct_pending (mc_control m) = Some p /\ Some (pd_id p) = ab_id body /\ as_question (pd_asker p) = q
  | _ => False
  end.

Section Yes.
Context (authToken : string) (canAsk canApprove isTTY : bool).
Abbreviation step := (consent_step authToken canAsk canApprove isTTY).
Abbreviation run evs := (consent_run authToken canAsk canApprove isTTY evs machine_initial).

Lemma covered_on Y q f m :
  covered Y m -> (forall x, mc_questions m !! q = Some x -> carries (f x) = true -> carries x = true \/ Y q) ->
  covered Y (on_question q f m).
Proof.
  intros [Hq Hl] Hf. split; [|exact Hl]. intros q' y Hy Hc.
  apply lookup_on in Hy as [(<- & x & Hx & ->)|[_ Hy]]; [|by eapply Hq].
  destruct (Hf _ Hx Hc); [by eapply Hq|done].
Qed.

Lemma covered_set Y m m' :
  covered Y m -> mc_questions m' = mc_questions m -> mc_lines m' = mc_lines m -> covered Y m'.
Proof. intros [Hq Hl] E1 E2. split; rewrite ?E1, ?E2; done. Qed.

Lemma covered_lines Y l m :
  covered Y m -> (forall r, r ∈ l -> line_yes r = true -> Y (rl_asker r)) -> covered Y (set_lines l m).
Proof. intros [Hq Hl] H. by split. Qed.

Lemma covered_prompt Y q r m : covered Y m -> (r = Approved -> Y q) -> covered Y (settle_prompt q r m).
Proof.
  intros Hm Hr. apply covered_on; [done|]. intros x _. unfold carries.
  destruct (q_local x) as [|[]| | |] eqn:Hl; simpl; rewrite ?Hl; auto.
  destruct r; simpl; [right; by apply Hr|auto].
Qed.

Lemma covered_control Y r m :
  covered Y m -> (forall a, (a, Some true) ∈ offered r.2 -> Y (as_question a)) -> covered Y (in_control r m).1.
Proof.
  intros Hm. rewrite in_control_eq.
  assert (covered Y (set_control r.1 m)) as H0 by (by eapply covered_set). revert H0.
  generalize (set_control r.1 m). induction (offered r.2) as [|[a v] l IH]; intros m' H0 Ho; [done|].
  simpl. apply IH; [|set_solver]. apply covered_on; [done|]. intros x _ Hc.
  destruct (decide (v = Some true)) as [->|Hv]; [right; apply Ho; by left|left].
  unfold carries in *. destruct (q_local x) as [[]|[]|[]| |] eqn:Hl; rewrite ?Hl in Hc; try done;
    destruct (as_park a); simpl in Hc; rewrite ?Hl in Hc; try done; by destruct v as [[]|].
Qed.

Lemma covered_app Y r m :
  covered Y m -> (forall q, (q, Some true) ∈ answers r.2 -> Y q) -> covered Y (in_app r m).1.
Proof.
  intros Hm. rewrite in_app_eq.
  assert (covered Y (set_app r.1 m)) as H0 by (by eapply covered_set). revert H0.
  generalize (set_app r.1 m). induction (answers r.2) as [|[q v] l IH]; intros m' H0 Ho; [done|].
  simpl. apply IH; [|set_solver]. apply covered_on; [done|]. intros x _ Hc.
  destruct (decide (v = Some true)) as [->|Hv]; [right; apply Ho; by left|left].
  unfold carries in *. destruct (q_inApp x) eqn:Hl; simpl in Hc; rewrite ?Hl in Hc; try done. by destruct v as [[]|].
Qed.

Lemma keeps_silent c r : keeps c r -> forall a, (a, Some true) ∉ offered r.2.
Proof. intros [_ [[_ ->]|(a & _ & _ & ->)]] a'; set_solver. Qed.

Lemma app_keeps_silent v a r q : app_keeps v a r -> (q, Some true) ∈ answers r.2 -> v = Some true /\ app_owner a = Some q.
Proof. intros [[_ ->]|(q' & Hq & _ & ->)]; set_solver. Qed.

Lemma covered_answer Y r p m :
  covered Y m -> (r = Approved -> forall q, pn_answering p = Some q -> Y q) -> covered Y (panel_answer r p m).
Proof.
  intros Hm Hr. unfold panel_answer. destruct (pn_answering p) as [q|]; [|by eapply covered_set].
  apply covered_prompt; [by eapply covered_set|]. intros ->. by apply Hr.
Qed.

Lemma covered_panel_aborted Y q m : covered Y m -> covered Y (panel_aborted q m).
Proof.
  intros Hm. unfold panel_aborted. destruct (mc_panel m); [|done]. case_decide; [by apply covered_answer|done].
Qed.

Lemma covered_put Y q now m : covered Y m -> covered Y (prompt isTTY q false now m).
Proof.
  intros Hm. unfold prompt. set (m1 := on_question q _ m).
  assert (covered Y m1) as H1.
  { apply covered_on; [done|]. intros x _. unfold carries. simpl. intros ->. left. apply orb_true_r. }
  unfold askOnThisMachine, panel_prompt, promptForAccess. destruct (mc_panel m1) as [p|].
  - destruct (pn_stopped p); [by apply covered_prompt|by eapply covered_set].
  - destruct isTTY; [|by apply covered_prompt]. apply covered_lines; [done|].
    intros r [Hr|Hr]%elem_of_app; [by apply H1|]. by apply list_elem_of_singleton in Hr as ->.
Qed.

Abbreviation fine := (fine_but authToken None None).

Lemma covered_decide Y q req now reg m :
  covered Y m -> covered Y (decideAccess canAsk canApprove isTTY q req now reg m).1.
Proof.
  intros Hm. unfold decideAccess. rewrite then_do_1. set (m0 := set_questions _ m).
  assert (covered Y m0) as H0.
  { split; [|apply Hm]. intros q' x. simpl. destruct (decide (q' = q)) as [->|Hne].
    - rewrite lookup_insert_eq. by intros [= <-].
    - rewrite lookup_insert_ne by done. apply Hm. }
  set (s1 := if canApprove then _ else _).
  assert (covered Y s1.1) as H1.
  { unfold s1. destruct canApprove; [|by apply covered_put]. apply covered_control; [done|]. intros a.
    destruct (offer_takes req (mkAsker q false) false now (mc_control m0)) as [_ [(_ & v & -> & Hv)|(_ & _ & ->)]]; set_solver. }
  destruct canAsk.
  - apply covered_app; [done|]. intros q' Hin. exfalso.
    destruct (ask_takes req now reg q (mc_app s1.1)) as [[_ E]|(_ & _ & E)]; rewrite E in Hin; set_solver.
  - simpl. apply covered_on; [done|]. intros x _. unfold carries. destruct (q_inApp x) eqn:Hl; simpl; rewrite ?Hl; auto.
Qed.

Lemma covered_stop Y m : covered Y m -> covered Y (panel_stop m).
Proof.
  intros Hm. unfold panel_stop. destruct (mc_panel m) as [p|]; [|done]. destruct (pn_stopped p); [done|].
  destruct (pn_answering p); [apply covered_prompt; [|done]|]; by eapply covered_set.
Qed.

Lemma covered_continues Y q now m :
  covered Y m -> covered Y (local_continues canApprove isTTY q now m).1.
Proof.
  intros Hm. unfold local_continues. destruct (mc_questions m !! q) as [x|] eqn:Hx; [|done].
  assert (forall r, (r = Approved -> local_yes (q_local x) = true) ->
    covered Y (on_question q (with_local (LocalReturned r)) m)) as Hret.
  { intros r Hr. apply covered_on; [done|]. intros x' Hx' Hc. simplify_eq. left. unfold carries in *. simpl in Hc.
    destruct r; [by rewrite Hr|]. simpl in Hc. by rewrite Hc, orb_true_r. }
  destruct (q_local x) as [[[[]|]|]|[r|]|[v|]|r|r] eqn:Hl; try done; try by apply Hret.
  - destruct (q_aborted x); [by apply Hret|by apply covered_put].
  - case_decide; [by apply Hret; intros ->|]. destruct (_ || _); [by apply Hret; intros ->|].
    rewrite then_do_1. cbn [fst]. apply covered_control.
    + apply covered_on; [done|]. intros x' _. unfold carries. simpl. intros ->. left. apply orb_true_r.
    + intros a. match goal with |- context [offer ?i ?k ?b ?n ?c] =>
        destruct (offer_takes i k b n c) as [_ [(_ & v & -> & Hv)|(_ & _ & ->)]] end; set_solver.
  - case_decide as Hv; [|by apply Hret]. apply Hret. by subst v.
Qed.

Lemma carries_core x y : q_local y = q_local x -> q_inApp y = q_inApp x -> carries y = carries x.
Proof. unfold carries. by intros -> ->. Qed.

Lemma covered_conclude Y q now reg m : covered Y m -> covered Y (conclude q now reg m).1.
Proof.
  intros Hm. unfold conclude. destruct (mc_questions m !! q) as [x|]; [|done].
  destruct (q_settled x), (q_result x); try done. rewrite then_do_1. cbn [fst].
  apply covered_on; [|by left]. rewrite abort_eq. apply covered_on; [|by left]. unfold withdraw.
  set (m1 := panel_aborted q _). assert (covered Y m1) as H1.
  { apply covered_panel_aborted, covered_lines; [done|]. intros r0 (r' & -> & Hr)%list_elem_of_fmap.
    unfold on_line. case_decide; [|by apply Hm]. unfold readline_abort, line_yes. simpl.
    destruct (rl_answer r') as [ans|] eqn:Ha; [|done]. simpl. intros Hs. apply (co_line _ _ Hm _ Hr).
    unfold line_yes. by rewrite Ha. }
  set (m2 := (in_control _ m1).1). assert (covered Y m2) as H2.
  { apply covered_control; [done|]. intros a' Hin. by destruct (keeps_silent _ _ (aborted_keeps (mkAsker q true) (mc_control m1)) a'). }
  case_decide; [|done]. apply covered_app; [done|]. intros q' Hin.
  by destruct (app_keeps_silent None _ _ _ (finish_lets_go _ _ _ _ _) Hin).
Qed.

Lemma covered_body Y res body now m :
  fine m -> covered Y m ->
  (forall q, says_yes authToken (mkConsentEvent now empty_registry (BodyRead res body)) m q -> Y q) ->
  covered Y (in_control (body_read res body now (mc_control m)) m).1.
Proof.
  intros Hf Hm HY. apply covered_control; [done|]. intros a Hin. revert Hin. unfold body_read.
  destruct (list_find _ _) as [[i [res' h]]|] eqn:Hr; [|set_solver].
  apply list_find_Some in Hr as (Hi & Heq & _). simpl in Heq. subst res'. apply list_elem_of_lookup_2 in Hi.
  destruct (fi_guarded _ _ _ _ Hf _ _ Hi) as (Hg & Hns & Hnn).
  set (c1 := with_reading _ _).
  assert (forall r, holds_on c1 r -> (a, Some true) ∈ offered r.2 -> Y (as_question a)) as Hh.
  { intros r (_ & _ & ->). set_solver. }
  destruct body as [body|]; [|apply Hh, reply_holds].
  destruct (rh_path h) as [[]|] eqn:Hp; try done; [apply Hh, wait_holds|].
  unfold handleDecide. change (ct_waiter c1) with (ct_waiter (mc_control m)).
  change (ct_pending c1) with (ct_pending (mc_control m)).
  destruct (ct_waiter (mc_control m)) as [w|] eqn:Hw; [|apply Hh, reply_holds].
  destruct (ct_pending (mc_control m)) as [p|] eqn:Hpd;
    [|case_decide; apply Hh, reply_holds].
  case_decide as Hs; [apply Hh, reply_holds|].
  case_decide as Hid; [apply Hh, reply_holds|].
  unfold settlePending, and_then. change (ct_pending c1) with (ct_pending (mc_control m)). rewrite Hpd. cbn [fst snd].
  pose proof (reply_holds res 200 OkReply (with_pending None c1)) as (_ & _ & Hrs).
  destruct (reply res 200 OkReply (with_pending None c1)) as [c2 out]. simpl in *. rewrite Hrs.
  intros [= -> Ha]%list_elem_of_singleton. apply HY. unfold says_yes. simpl. split; [done|].
  exists h, w, p. by split_and!.
Qed.

Lemma resolve_answers id approved now reg a :
  let '(_, _, out) := resolveDeviceApproval id approved now reg a in
  forall q, (q, Some true) ∈ answers out ->
  approved = true /\ exists p, pending a = Some p /\ ap_id (pe_request p) = id /\ pe_asker p = q.
Proof.
  unfold resolveDeviceApproval, finish. destruct (pending a) as [p|]; [|set_solver].
  case_decide; [|set_solver]. simpl. intros q. rewrite answers_app, answers_tell. simpl.
  intros [= -> ->]%list_elem_of_singleton. split; [done|]. by exists p.
Qed.

Lemma step_covered Y ev m :
  fine m -> covered Y m -> (forall q, says_yes authToken ev m q -> Y q) -> covered Y (step ev m).1.
Proof.
  intros Hf Hm HY. unfold consent_step. destruct ev as [now reg op]. simpl in *. destruct op; simpl.
  - case_decide; [by apply covered_decide|done].
  - apply covered_control; [done|]. intros a.
    destruct (handle_holds authToken head res now (mc_control m)) as (_ & -> & _); [apply Hf|set_solver].
  - by apply covered_body.
  - apply covered_control; [done|]. intros a Hin. by destruct (keeps_silent _ _ (closed_keeps res (mc_control m)) a).
  - apply covered_control; [done|]. intros a Hin. by destruct (keeps_silent _ _ (settlePending_keeps (mc_control m)) a).
  - apply covered_control; [done|]. intros a Hin. by destruct (keeps_silent _ _ (timeout_keeps timer (mc_control m)) a).
  - pose proof (resolve_answers id approved now reg (mc_app m)) as Hk.
    destruct (resolveDeviceApproval id approved now reg (mc_app m)) as [[b st] out].
    apply covered_app; [done|]. intros q Hin. apply HY. unfold says_yes. simpl.
    destruct (Hk q Hin) as [-> ?]. done.
  - apply covered_app; [done|]. intros q Hin.
    by destruct (app_keeps_silent (Some false) _ _ _ (finish_lets_go _ _ _ _ _) Hin).
  - apply covered_app; [done|]. intros q Hin. by destruct (app_keeps_silent None _ _ _ (changed_keeps _ _ _) Hin).
  - apply covered_lines; [done|]. intros r (r0 & -> & Hr)%list_elem_of_fmap. unfold type_line.
    destruct (rl_answer r0) eqn:Ha; [by apply Hm|]. unfold line_yes. simpl. intros Hs. apply HY.
    unfold says_yes. simpl. split; [done|]. by exists r0.
  - apply covered_lines; [done|]. intros r (r0 & -> & Hr)%list_elem_of_fmap. unfold on_line, readline_timeout.
    case_decide; [|by apply Hm]. destruct (rl_answer r0) eqn:Ha; [by apply Hm|done].
  - unfold panel_key. destruct (mc_panel m) as [p|] eqn:Hp; [|done]. destruct (pn_stopped p); [done|].
    destruct (pn_mode p) as [[q t]|] eqn:Hmode; [|done]. case_decide as Hk.
    + apply covered_answer; [done|]. intros _ q' Hq'. apply HY. unfold says_yes. simpl. split; [done|].
      destruct (fi_panel _ _ _ _ Hf _ _ Hp Hq') as [_ [t' Ht']]. by exists p, t'.
    + case_decide; [by apply covered_answer|done].
  - unfold panel_tick. destruct (mc_panel m) as [p|]; [|done]. destruct (pn_mode p) as [[q t]|]; [|done].
    case_match; [by apply covered_answer|done].
  - unfold panel_start. destruct (mc_panel m); [done|]. eapply (covered_set Y (set_lines _ m)); [|done..].
    apply covered_lines; [done|]. intros r (r0 & -> & Hr)%list_elem_of_fmap. unfold readline_abort, line_yes. simpl.
    destruct (rl_answer r0) as [a|] eqn:Ha; [|done]. simpl. intros Hs. apply (co_line _ _ Hm _ Hr). unfold line_yes. by rewrite Ha.
  - by apply covered_stop.
  - unfold prompt_returns. destruct (list_find _ _) as [[i r]|] eqn:Hr; [|done].
    apply list_find_Some in Hr as (Hi & Hq & _). apply list_elem_of_lookup_2 in Hi.
    destruct (rl_answer r) as [a|] eqn:Ha; [|done]. apply covered_prompt.
    + apply covered_lines; [done|]. intros r' [_ Hr']%list_elem_of_filter. by apply Hm.
    + unfold readline_result. destruct (rl_aborted r); [done|]. case_match; [|done]. intros _. rewrite <- Hq.
      apply (co_line _ _ Hm _ Hi). unfold line_yes. rewrite Ha. by destruct a.
  - by apply covered_continues.
  - unfold hear_local. apply covered_on; [done|]. intros x _ Hc. left. revert Hc.
    destruct (q_local x) as [| | |r|r] eqn:Hl; auto. case_decide as Hr.
    + match goal with |- carries (race_abstain ?y) = _ -> _ => destruct (abstain_same y) as (E1 & E2 & _) end.
      rewrite (carries_core _ _ E1 E2). unfold carries. simpl. rewrite Hl. by subst r.
    + match goal with |- carries (race_answer ?r ?y) = _ -> _ => destruct (answer_same r y) as (E1 & E2 & _) end.
      rewrite (carries_core _ _ E1 E2). unfold carries. simpl. by rewrite Hl.
  - unfold hear_app. apply covered_on; [done|]. intros x _ Hc. left. revert Hc.
    destruct (q_inApp x) as [|[[]|]|] eqn:Hl; auto;
      match goal with
      | |- carries (race_abstain ?y) = _ -> _ => destruct (abstain_same y) as (E1 & E2 & _)
      | |- carries (race_answer ?r ?y) = _ -> _ => destruct (answer_same r y) as (E1 & E2 & _)
      end; rewrite (carries_core _ _ E1 E2); unfold carries; simpl; by rewrite Hl.
  - by apply covered_conclude.
  - apply covered_control; [by apply covered_stop|]. intros a Hin.
    by destruct (keeps_silent _ _ (drop_keeps (mc_control m)) a).
Qed.

(** ** Runs *)

Abbreviation run_from evs m := (consent_run authToken canAsk canApprove isTTY evs m).

Lemma initial_fine : fine machine_initial.
Proof.
  split; intros; try done.
  - by apply elem_of_nil in H.
  - constructor.
  - intros res h Hin. by apply elem_of_nil in Hin.
Qed.

Lemma run_fine evs m : fine m -> fine (run_from evs m).
Proof. revert m. induction evs as [|ev evs IH]; intros m Hm; [done|]. by apply IH, step_fine. Qed.

Lemma consent_run_app evs evs' m : run_from (evs ++ evs') m = run_from evs' (run_from evs m).
Proof. apply foldl_app. Qed.

Definition said_yes (evs : list ConsentEvent) (q : nat) : Prop :=
  exists before ev after, evs = before ++ ev :: after /\ says_yes authToken ev (run before) q.

Lemma run_covered evs : covered (said_yes evs) (run evs).
Proof.
  induction evs as [|ev evs IH] using rev_ind.
  - split; [done|]. intros r Hr. by apply elem_of_nil in Hr.
  - rewrite consent_run_app. apply step_covered; [apply run_fine, initial_fine|..].
    + destruct IH as [Hq Hl].
      assert (forall q, said_yes evs q -> said_yes (evs ++ [ev]) q) as Hmono.
      { intros q (b & e & a & -> & He). exists b, e, (a ++ [ev]). by rewrite <- (assoc app). }
      split; intros; apply Hmono; [by eapply Hq|by apply Hl].
    + intros q Hs. by exists evs, ev, [].
Qed.

Definition result (q : nat) (m : Machine) : option AccessPromptResult := mc_questions m !! q ≫= q_result.

Lemma result_because q m r : fine m -> result q m = Some r ->
  exists x, mc_questions m !! q = Some x /\ because x r /\ q_aborted x = true.
Proof.
  intros Hm (x & Hx & Hr)%bind_Some. exists x. split; [done|].
  destruct (fi_race _ _ _ _ Hm _ _ Hx) as [_ _ Hb _ Hres]. destruct (Hres _ Hr). auto.
Qed.

Lemma approved_covered Y q m : fine m -> covered Y m -> result q m = Some Approved -> Y q.
Proof.
  intros Hm Hc Hr. destruct (result_because _ _ _ Hm Hr) as (x & Hx & Hb & _).
  apply (co_question _ _ Hc _ _ Hx). unfold carries. destruct Hb as [-> | ->]; [apply orb_true_r|done].
Qed.

(** C23: nobody gets in without a yes.  However many questions stand at once, and
    whatever is typed, pressed, polled, timed out or withdrawn in whatever
    order, a question ends approved only if, while it was on offer there,
    somebody said yes to that very question: a connected browser that may
    approve devices, a line of the terminal it was asked on, the key of the
    panel showing it, or a client of the approval window, on this machine, with
    its token, naming that request. *)
Theorem approved_by_a_yes evs q :
  result q (run evs) = Some Approved ->
  exists before ev after, evs = before ++ ev :: after /\ says_yes authToken ev (run before) q.
Proof.
  apply (approved_covered (said_yes evs)); [apply run_fine, initial_fine|apply run_covered].
Qed.

End Yes.

(** ** A question nobody answers is answered no *)

Section Silence.
Context (authToken : string) (canAsk canApprove isTTY : bool).
Abbreviation step := (consent_step authToken canAsk canApprove isTTY).
Abbreviation run evs := (consent_run authToken canAsk canApprove isTTY evs machine_initial).
Abbreviation run_from evs m := (consent_run authToken canAsk canApprove isTTY evs m).
Abbreviation fine := (fine_but authToken None None).

(** What happens with nobody there: timers, and promises running their course. *)
Definition silent (ev : ConsentEvent) : Prop :=
  match ce_op ev with
  | OfferTimer | AppTimer | LineTimer _ | Tick | PromptReturns _ | LocalContinues _
  | HearLocal _ | HearApp _ | Conclude _ => True
  | _ => False
  end.

Lemma silent_says ev m q : silent ev -> ~ says_yes authToken ev m q.
Proof. unfold silent, says_yes. intros Hs Hy. destruct (ce_op ev); done. Qed.

Lemma silent_covered Y evs m :
  Forall silent evs -> fine m -> covered Y m -> covered Y (run_from evs m).
Proof.
  intros Hs. revert m. induction Hs as [|ev evs Hev Hs IH]; intros m Hm Hc; [done|].
  apply IH; [by apply step_fine|]. apply step_covered; [done..|]. intros q Hq. by destruct (silent_says ev m q).
Qed.

(** [q] can be brought to its answer in silence. *)
Definition ends (q : nat) (m : Machine) : Prop :=
  exists evs, Forall silent evs /\ is_Some (result q (run_from evs m)).

Definition at_any (op : ConsentOp) : ConsentEvent := mkConsentEvent 0 empty_registry op.

Lemma ends_step q ev m : silent ev -> ends q (step ev m).1 -> ends q m.
Proof. intros Hev (evs & Hs & Hr). exists (ev :: evs). split; [by constructor|exact Hr]. Qed.

Lemma lookup_alter_local q f m x :
  mc_questions m !! q = Some x -> mc_questions (on_question q f m) !! q = Some (f x).
Proof. intros Hx. unfold on_question. simpl. by rewrite lookup_alter_eq, Hx. Qed.

(** Both sides heard. *)
Lemma heard_ends q m x r v :
  fine m -> mc_questions m !! q = Some x -> q_local x = LocalHeard r -> q_inApp x = AppHeard v -> ends q m.
Proof.
  intros Hm Hx Hl Ha. destruct (q_result x) as [r'|] eqn:Hr.
  { exists []. split; [constructor|]. unfold result. simpl. rewrite Hx. simpl. by rewrite Hr. }
  destruct (q_settled x) as [r'|] eqn:Hs.
  - apply ends_step with (at_any (Conclude q)); [done|]. exists []. split; [constructor|].
    unfold consent_step, conclude, result. simpl. rewrite Hx, Hs, Hr, then_do_1. cbn [fst].
    rewrite abort_eq. unfold on_question. simpl. rewrite !lookup_alter_eq.
    destruct (frame_lookup _ _ _ _ (withdraw_frame q 0 empty_registry m) Hx) as (y & -> & _). by eexists.
  - destruct (ro_unsettled _ (fi_race _ _ _ _ Hm _ _ Hx) Hs) as (H1 & H2 & H3).
    assert (v = None) as -> by (destruct v as [b|]; [by destruct (H1 b)|done]).
    assert (r = Denied no_tty) as -> by (by apply H2).
    unfold passed in H3. rewrite Ha, Hl in H3. repeat case_decide; lia || done.
Qed.

(** The local side heard. *)
Lemma local_heard_ends q m x r :
  fine m -> mc_questions m !! q = Some x -> q_local x = LocalHeard r -> ends q m.
Proof.
  intros Hm Hx Hl.
  assert (forall m' x' v, fine m' -> mc_questions m' !! q = Some x' -> q_local x' = LocalHeard r ->
    q_inApp x' = AppSettled v -> ends q m') as Hset.
  { intros m' x' v Hm' Hx' Hl' Ha'. apply ends_step with (at_any (HearApp q)); [done|].
    pose proof (step_fine authToken canAsk canApprove isTTY (at_any (HearApp q)) m' Hm') as Hf.
    unfold consent_step in *. simpl in *. unfold hear_app in *. eapply heard_ends; [exact Hf|by apply lookup_alter_local|..].
    - rewrite Ha'. destruct v as [[]|]; first [rewrite (proj1 (answer_same _ _))|rewrite (proj1 (abstain_same _))]; exact Hl'.
    - rewrite Ha'. destruct v as [[]|]; first [rewrite (proj1 (proj2 (answer_same _ _)))|rewrite (proj1 (proj2 (abstain_same _)))]; done. }
  destruct (q_inApp x) as [|v|v] eqn:Ha; [|by eapply Hset|by eapply heard_ends].
  apply ends_step with (at_any AppTimer); [done|].
  pose proof (step_fine authToken canAsk canApprove isTTY (at_any AppTimer) m Hm) as Hf.
  unfold consent_step in *. simpl in *.
  assert (app_owner (mc_app m) = Some q) as Ho.
  { apply (fi_app _ _ _ _ Hm); [done|]. unfold asked_in_app. by rewrite Hx, Ha. }
  revert Hf. rewrite in_app_eq. unfold approval_timeout.
  destruct (finish_lets_go (Some false) r_expired 0 empty_registry (mc_app m)) as [[Ho' _]|(q' & Hq & _ & ->)].
  { unfold finish, app_owner in *. destruct (pending (mc_app m)); done. }
  cbn [foldl fst snd]. replace q' with q by congruence. intros Hf. eapply Hset; [exact Hf|by apply lookup_alter_local|..];
    simpl; by rewrite Ha.
Qed.

Lemma returned_ends q m x r :
  fine m -> mc_questions m !! q = Some x -> q_local x = LocalReturned r -> ends q m.
Proof.
  intros Hm Hx Hl. apply ends_step with (at_any (HearLocal q)); [done|].
  pose proof (step_fine authToken canAsk canApprove isTTY (at_any (HearLocal q)) m Hm) as Hf.
  unfold consent_step in *. simpl in *. unfold hear_local in *.
  apply (local_heard_ends q _ _ r Hf (lookup_alter_local _ _ _ _ Hx)). rewrite Hl.
  case_decide; [by rewrite (proj1 (abstain_same _))|by rewrite (proj1 (answer_same _ _))].
Qed.

(** A step of [localChain]. *)
Lemma continues_step q m :
  fine m -> ends q (local_continues canApprove isTTY q 0 m).1 -> ends q m.
Proof. intros Hm. by apply (ends_step q (at_any (LocalContinues q))). Qed.

Lemma continues_returned q m x r :
  fine m -> mc_questions m !! q = Some x ->
  (local_continues canApprove isTTY q 0 m).1 = on_question q (with_local (LocalReturned r)) m -> ends q m.
Proof.
  intros Hm Hx E. apply continues_step; [done|].
  pose proof (continues_fine authToken canApprove isTTY q 0 m Hm) as Hf. rewrite E in *.
  eapply returned_ends; [done|by apply lookup_alter_local|done].
Qed.

Lemma park_answered_ends q m x v :
  fine m -> mc_questions m !! q = Some x -> q_local x = AwaitPark (Some v) -> ends q m.
Proof.
  intros Hm Hx Hl. eapply continues_returned; [done..|]. unfold local_continues. by rewrite Hx, Hl.
Qed.

(** The timer of an offer that is awaited. *)
Lemma offer_timer_ends q m a :
  fine m -> as_question a = q -> stands q m = Some (awaits a) ->
  (forall m' x', fine m' -> mc_questions m' !! q = Some x' ->
     q_local x' = (if as_park a then AwaitPark (Some (Some false)) else AwaitOffer (Some (Some false))) -> ends q m') ->
  ends q m.
Proof.
  intros Hm Ha Hst Hk. apply ends_step with (at_any OfferTimer); [done|].
  pose proof (step_fine authToken canAsk canApprove isTTY (at_any OfferTimer) m Hm) as Hf.
  unfold consent_step in *. simpl in *. revert Hf. rewrite in_control_eq.
  assert (owner (mc_control m) = Some a) as Ho by (apply (fi_owner _ _ _ _ Hm); [done|by rewrite Ha]).
  unfold offer_timeout. destruct (settlePending_keeps (mc_control m)) as [_ [[Ho' _]|(a' & Ha' & _ & ->)]].
  { unfold settlePending, owner in *. destruct (ct_pending (mc_control m)); simpl in *; done. }
  cbn [foldl fst snd]. replace a' with a by congruence. intros Hf.
  unfold stands in Hst. apply bind_Some in Hst as (x & Hx & Hs).
  unfold settle_offer in *. rewrite Ha in *. eapply Hk; [exact Hf|by apply lookup_alter_local|].
  unfold awaits in Hs. destruct (q_local x) as [[]|[]|[]| |]; try done; by destruct (as_park a).
Qed.

Lemma parked_ends q m x v :
  fine m -> mc_questions m !! q = Some x -> q_local x = AwaitPark v -> ends q m.
Proof.
  intros Hm Hx Hl. destruct v as [v|]; [by eapply park_answered_ends|].
  apply (offer_timer_ends q m (mkAsker q true)); [done|done|unfold stands; by rewrite Hx; simpl; rewrite Hl|].
  intros m' x' Hm' Hx' Hl'. simpl in Hl'. by eapply park_answered_ends.
Qed.

Lemma prompt_answered_ends q m x r :
  fine m -> mc_questions m !! q = Some x -> q_local x = AwaitPrompt (Some r) -> ends q m.
Proof.
  intros Hm Hx Hl.
  destruct (decide (r <> Denied no_tty)) as [Hr|Hr];
    [eapply continues_returned; [done..|]; unfold local_continues; rewrite Hx, Hl; by rewrite decide_True|].
  destruct (negb canApprove || q_aborted x) eqn:Hab;
    [eapply continues_returned; [done..|]; unfold local_continues; rewrite Hx, Hl; by rewrite decide_False, Hab|].
  apply continues_step; [done|].
  pose proof (continues_fine authToken canApprove isTTY q 0 m Hm) as Hf. revert Hf.
  unfold local_continues. rewrite Hx, Hl, decide_False, Hab by done. rewrite then_do_1. cbn [fst].
  set (m1 := on_question q _ m). intros Hf.
  assert (mc_questions m1 !! q = Some (with_local (AwaitPark None) x)) as H1 by (by apply lookup_alter_local).
  assert (exists y v, mc_questions (in_control (offer (q_request x) (mkAsker q true) false 0 (mc_control m1)) m1).1 !! q = Some y
    /\ q_local y = AwaitPark v) as (y & v & Hy & Hyl).
  { rewrite in_control_eq. destruct (offer_takes (q_request x) (mkAsker q true) false 0 (mc_control m1)) as [_ [(_ & v & -> & _)|(_ & _ & ->)]].
    - cbn [foldl fst snd]. eexists _, (Some v). split; [apply lookup_alter_local; exact H1|done].
    - eexists _, None. by split. }
  by eapply parked_ends.
Qed.

Lemma prompt_ends q m x v :
  fine m -> mc_questions m !! q = Some x -> q_local x = AwaitPrompt v -> (v = None -> q ∈ prompted m) -> ends q m.
Proof.
  intros Hm Hx Hl Hp. destruct v as [r|]; [by eapply prompt_answered_ends|]. specialize (Hp eq_refl).
  assert (forall ev r m0, silent ev -> fine (step ev m).1 -> mc_questions m0 = mc_questions m ->
    (step ev m).1 = settle_prompt q r m0 -> ends q m) as Hset.
  { intros ev r m0 Hev Hf Hq E. apply ends_step with ev; [done|]. rewrite E in *.
    eapply (prompt_answered_ends q _ _ r Hf); [apply lookup_alter_local; rewrite Hq; exact Hx|]. by rewrite Hl. }
  apply elem_of_app in Hp as [Hr|Ha].
  - apply ends_step with (at_any (LineTimer q)); [done|].
    pose proof (step_fine authToken canAsk canApprove isTTY (at_any (LineTimer q)) m Hm) as Hf.
    set (m1 := (step (at_any (LineTimer q)) m).1) in *.
    assert (readers m1 = readers m) as Hrd.
    { unfold m1, readers. simpl. rewrite <- list_fmap_compose. apply list_fmap_ext. intros i r _. simpl.
      unfold on_line. case_decide; [|done]. unfold readline_timeout. by destruct (rl_answer r). }
    assert (forall r, r ∈ mc_lines m1 -> rl_asker r = q -> is_Some (rl_answer r)) as Hans.
    { intros r (r0 & -> & _)%list_elem_of_fmap. unfold on_line. case_decide; [|done]. intros _.
      unfold readline_timeout. destruct (rl_answer r0) eqn:E; simpl; rewrite ?E; by eexists. }
    apply ends_step with (at_any (PromptReturns q)); [done|].
    pose proof (step_fine authToken canAsk canApprove isTTY (at_any (PromptReturns q)) m1 Hf) as Hf2. revert Hf2.
    unfold consent_step. simpl. unfold prompt_returns.
    destruct (list_find (fun r => rl_asker r = q) (mc_lines m1)) as [[i r]|] eqn:E.
    + apply list_find_Some in E as (Hi & Hq & _). apply list_elem_of_lookup_2 in Hi. destruct (Hans _ Hi Hq) as [a ->].
      intros Hf2. eapply (prompt_answered_ends q _ _ _ Hf2); [apply lookup_alter_local; exact Hx|]. by rewrite Hl.
    + apply list_find_None in E. rewrite <- Hrd in Hr. apply list_elem_of_fmap in Hr as (r & Hq & Hr).
      rewrite Forall_forall in E. by destruct (E r Hr).
  - unfold answering in Ha. destruct (mc_panel m) as [p|] eqn:Hpan; [|by apply elem_of_nil in Ha].
    simpl in Ha. destruct (pn_answering p) as [q'|] eqn:Hq; [|by apply elem_of_nil in Ha].
    apply list_elem_of_singleton in Ha as <-. destruct (fi_panel _ _ _ _ Hm _ _ Hpan Hq) as [Hs [t Ht]].
    set (ev := mkConsentEvent t empty_registry Tick).
    eapply (Hset ev (Denied timed_out) (set_panel (Some (mkPanel None None (pn_stopped p))) m)); [done|by apply step_fine|done|].
    unfold consent_step, panel_tick. simpl. rewrite Hpan, Ht, Hs, Z.leb_refl. simpl. unfold panel_answer. by rewrite Hq, Hs.
Qed.

(** Where a question stands once it has been put on the screen. *)
Lemma put_lookup q now m x :
  mc_questions m !! q = Some x -> exists y v,
    mc_questions (prompt isTTY q false now m) !! q = Some y /\ q_local y = AwaitPrompt v /\
    (v = None -> q ∈ prompted (prompt isTTY q false now m)).
Proof.
  intros Hx. unfold prompt. set (m1 := on_question q _ m).
  assert (mc_questions m1 !! q = Some (with_local (AwaitPrompt None) x)) as H1 by (by apply lookup_alter_local).
  assert (forall r, exists y v, mc_questions (settle_prompt q r m1) !! q = Some y /\ q_local y = AwaitPrompt v /\
    (v = None -> q ∈ prompted (settle_prompt q r m1))) as Hs.
  { intros r. eexists _, (Some r). split; [by apply lookup_alter_local|done]. }
  unfold askOnThisMachine, panel_prompt, promptForAccess. destruct (mc_panel m1) as [p|].
  - destruct (pn_stopped p); [apply Hs|]. eexists _, None. split; [exact H1|]. split; [done|]. intros _.
    unfold prompted. apply elem_of_app. right. by apply list_elem_of_singleton.
  - destruct isTTY; [|apply Hs]. eexists _, None. split; [exact H1|]. split; [done|]. intros _.
    unfold prompted, readers. apply elem_of_app. left. simpl. rewrite fmap_app. apply elem_of_app. right. by left.
Qed.

Lemma offer_answered_ends q m x v :
  fine m -> mc_questions m !! q = Some x -> q_local x = AwaitOffer (Some v) -> ends q m.
Proof.
  intros Hm Hx Hl.
  destruct v as [b|]; [eapply (continues_returned q m x (if b then Approved else Denied refused)); [done..|];
    unfold local_continues; rewrite Hx, Hl; by destruct b|].
  destruct (q_aborted x) eqn:Hab;
    [eapply continues_returned; [done..|]; unfold local_continues; by rewrite Hx, Hl, Hab|].
  apply continues_step; [done|].
  pose proof (continues_fine authToken canApprove isTTY q 0 m Hm) as Hf. revert Hf.
  unfold local_continues. rewrite Hx, Hl, Hab. simpl. intros Hf.
  destruct (put_lookup q 0 m x Hx) as (y & v & Hy & Hyl & Hp). by eapply prompt_ends.
Qed.

Lemma any_ends q m x :
  fine m -> mc_questions m !! q = Some x -> (stands q m = Some OnPrompt -> q ∈ prompted m) -> ends q m.
Proof.
  intros Hm Hx Hp. destruct (q_local x) as [[v|]|v|v|r|r] eqn:Hl.
  - by eapply offer_answered_ends.
  - apply (offer_timer_ends q m (mkAsker q false)); [done|done|unfold stands; by rewrite Hx; simpl; rewrite Hl|].
    intros m' x' Hm' Hx' Hl'. simpl in Hl'. by eapply offer_answered_ends.
  - eapply prompt_ends; [done..|]. intros ->. apply Hp. unfold stands. rewrite Hx. simpl. by rewrite Hl.
  - by eapply parked_ends.
  - by eapply returned_ends.
  - by eapply local_heard_ends.
Qed.

(** C25: silence denies.  Take a question to which, so far, nobody has said yes,
    and whose prompt, if it has come to that, is still on the screen.  If
    nobody does anything any more, the timers and the promises alone bring it
    to an answer, and the answer is no. *)
Theorem silence_denies evs q x :
  mc_questions (run evs) !! q = Some x ->
  (stands q (run evs) = Some OnPrompt -> q ∈ prompted (run evs)) ->
  ~ said_yes authToken canAsk canApprove isTTY evs q ->
  exists evs' reason, Forall silent evs' /\ result q (run (evs ++ evs')) = Some (Denied reason).
Proof.
  intros Hx Hp Hno. pose proof (run_fine authToken canAsk canApprove isTTY evs _ (initial_fine authToken)) as Hm.
  destruct (any_ends q _ x Hm Hx Hp) as (evs' & Hs & [r Hr]).
  destruct r as [|reason].
  - exfalso. apply Hno. apply (approved_covered authToken (said_yes authToken canAsk canApprove isTTY evs) q _
      (run_fine authToken canAsk canApprove isTTY evs' _ Hm)); [|exact Hr].
    apply silent_covered; [done..|apply run_covered].
  - exists evs', reason. split; [done|]. by rewrite consent_run_app.
Qed.
End Silence.
