(* ===== verification/ConsentTraces.v ===== *)
(** * ConsentTraces: questions asked on concrete machines *)
From S2P Require Import Prelude Grants LocalPairing RelayAuth Connections Approval ApproveControl Consent ConsentSafety ConsentYes.

Module ConsentDemo.

Definition phone : DeviceApprovalInput := mkInput None "iPhone" "" (Some via_returning).
Definition laptop : DeviceApprovalInput := mkInput None "Laptop" "" (Some via_returning).
Definition token : string := "secret".

Definition owner_phone : Conn :=
  mkConn 7 true FULL_GRANT (mkRL 0 0) None None lan None None None 0 0 false true false None false.
Definition nobody : Registry := empty_registry.
Definition somebody : Registry := mkRegistry [owner_phone] [0%nat] ∅.

Definition at_ (reg : Registry) (now : Z) (op : ConsentOp) : ConsentEvent := mkConsentEvent now reg op.
Definition run (reg : Registry) (canAsk isTTY : bool) (ops : list ConsentOp) : Machine :=
  consent_run token canAsk true isTTY (map (at_ reg 0) ops) machine_initial.
Definition result (q : nat) (m : Machine) : option AccessPromptResult := mc_questions m !! q ≫= q_result.

(** Let the promises of a question run their course. *)
Definition settle (q : nat) : list ConsentOp :=
  [LocalContinues q; PromptReturns q; LocalContinues q; HearApp q; HearLocal q; Conclude q].

(** Two devices come back while the panel is up: the second question takes the
    screen from the first, whose prompt is never answered any more. *)
Definition two_on_the_panel : list ConsentOp :=
  [PanelStart; Decide 0 phone; Decide 1 laptop] ++ settle 0 ++ settle 1 ++ [Key "y"] ++ settle 1
  ++ [Key "y"; Tick] ++ settle 0.

Lemma second_question_takes_the_screen :
  let m := run nobody false true two_on_the_panel in
  result 1 m = Some Approved /\ result 0 m = None.
Proof. vm_compute. done. Qed.

(** Without a panel both have a readline on the one stdin: one [y] answers
    both. *)
Lemma one_line_answers_two :
  let m := run nobody false true
    ([Decide 0 phone; Decide 1 laptop] ++ settle 0 ++ settle 1 ++ [Line (js "y")] ++ settle 0 ++ settle 1) in
  result 0 m = Some Approved /\ result 1 m = Some Approved.
Proof. vm_compute. done. Qed.

Definition approver : RequestHead := mkHead (Some WAIT_PATH) "127.0.0.1" (Some "Bearer secret").
Definition decider : RequestHead := mkHead (Some DECIDE_PATH) "127.0.0.1" (Some "Bearer secret").

(** A poll of [mtmux approve], and an answer to what it was sent. *)
Definition poll (res : nat) (session : string) : list ConsentOp :=
  [HttpRequest res approver; BodyRead res (Some (mkBody session None (Some 5) false))].
Definition decide_ (res : nat) (session : string) (id : Z) (yes : bool) : list ConsentOp :=
  [HttpRequest res decider; BodyRead res (Some (mkBody session (Some id) None yes))].

Definition outs (reg : Registry) (canAsk isTTY : bool) (ops : list ConsentOp) (op : ConsentOp) : list ConsentOut :=
  (consent_step token canAsk true isTTY (at_ reg 0 op) (run reg canAsk isTTY ops)).2.

(** The offer to an open window is not given the signal: answered on the phone,
    it keeps the slot, and the next device is refused with nobody asked. *)
Definition answered_on_the_phone : list ConsentOp :=
  poll 1 "w" ++ [Decide 0 phone; AppAnswer (1, 0) true] ++ settle 0.

Lemma answered_elsewhere_refuses_the_next :
  result 0 (run somebody true false answered_on_the_phone) = Some Approved /\
  result 1 (run somebody true false (answered_on_the_phone ++ [Decide 1 laptop] ++ settle 1))
  = Some (Denied refused).
Proof. vm_compute. done. Qed.

(** And a late answer in the window is told that it landed. *)
Lemma late_yes_is_ok :
  outs somebody true false (answered_on_the_phone ++ [HttpRequest 2 decider])
    (BodyRead 2 (Some (mkBody "w" (Some 1) None true))) = [Http 2 200 OkReply].
Proof. vm_compute. done. Qed.

(** A window whose time is over, but whose timer has not fired, is replaced and
    its timer is not: it takes the new window, and what is asked in it, down. *)
Definition slept : list ConsentEvent :=
  map (at_ nobody 0) (poll 1 "old") ++ map (at_ nobody 300000) (poll 2 "new" ++ [Decide 0 phone]).

Lemma old_timer_closes_the_new_window :
  let m := consent_run token false true false slept machine_initial in
  let m' := (consent_step token false true false (at_ nobody 300001 (WindowTimer 0)) m).1 in
  wt_sessionId <$> ct_waiter (mc_control m) = Some "new" /\ ct_waiter (mc_control m') = None /\
  q_local <$> mc_questions m' !! 0%nat = Some (AwaitOffer (Some (Some false))).
Proof. vm_compute. done. Qed.

(** A human who says no to a parked question is reported as nobody answering,
    and nobody answering the readline as a no. *)
Lemma refusal_is_timeout :
  let parked := [Decide 0 phone] ++ settle 0 ++ settle 0 in
  result 0 (run nobody false false (parked ++ poll 1 "w" ++ decide_ 2 "w" 1 false ++ settle 0))
  = Some (Denied timed_out) /\
  result 0 (run nobody false true ([Decide 0 phone] ++ settle 0 ++ [LineTimer 0] ++ settle 0))
  = Some (Denied refused).
Proof. vm_compute. done. Qed.

(** An approver who was sent the question and goes away leaves it standing:
    the poll that carries it is no longer the held one. *)
Lemma audience_lost_is_not_noticed :
  let m := run nobody false false (poll 1 "w" ++ [Decide 0 phone]) in
  outs nobody false false (poll 1 "w") (Decide 0 phone) = [Http 1 200 (RequestReply 1 None "iPhone" "")] /\
  mc_control (consent_step token false true false (at_ nobody 0 (PollClosed 1)) m).1 = mc_control m.
Proof. vm_compute. done. Qed.

(** A device comes back, is put on the readline, and is answered yes. *)
Definition let_in : list ConsentEvent :=
  map (at_ nobody 0) ([Decide 0 phone] ++ settle 0 ++ [Line (js " Yes ")] ++ settle 0).

Lemma approved_by_a_yes_witness :
  ConsentYes.result 0 (consent_run token false true true let_in machine_initial) = Some Approved /\
  exists before ev after, let_in = before ++ ev :: after /\
    says_yes token ev (consent_run token false true true before machine_initial) 0.
Proof.
  assert (ConsentYes.result 0 (consent_run token false true true let_in machine_initial) = Some Approved) as H
    by (vm_compute; exact eq_refl).
  split; [exact H|]. exact (approved_by_a_yes token false true true let_in 0 H).
Defined.

(** Answered on the phone while the panel shows it. *)
Definition answered_elsewhere : list ConsentEvent :=
  map (at_ somebody 0) ([PanelStart; Decide 0 phone; LocalContinues 0; AppAnswer (1, 0) false] ++ settle 0).


(** Nobody at the machine and no browser: the question is parked, and ends
    refused. *)
Definition unattended : list ConsentEvent := map (at_ nobody 0) ([Decide 0 phone] ++ settle 0).

Lemma silence_denies_witness :
  stands 0 (consent_run token true true false unattended machine_initial) = Some OnPark /\
  exists evs' reason, Forall silent evs' /\
    ConsentYes.result 0 (consent_run token true true false (unattended ++ evs') machine_initial) = Some (Denied reason).
Proof.
  assert (stands 0 (consent_run token true true false unattended machine_initial) = Some OnPark) as Hs
    by (vm_compute; exact eq_refl).
  split; [exact Hs|].
  destruct (mc_questions (consent_run token true true false unattended machine_initial) !! 0%nat) as [x|] eqn:Hx;
    [|vm_compute in Hx; discriminate Hx].
  apply (silence_denies token true true false unattended 0 x Hx).
  - rewrite Hs. intros H. discriminate H.
  - intros (before & ev & after & Hb & Hy).
    assert (forall e, In e unattended -> ce_op e <> AppAnswer (0, 0) true /\
      match ce_op e with AppAnswer _ _ | Line _ | Key _ | BodyRead _ _ => False | _ => True end) as Hall.
    { intros e He. vm_compute in He. repeat destruct He as [<-|He]; try done. }
    assert (In ev unattended) as Hin by (rewrite Hb; apply in_or_app; right; left; reflexivity).
    destruct (Hall ev Hin) as [_ Hn]. unfold says_yes in Hy. by destruct (ce_op ev).
Defined.
End ConsentDemo.
