(* ===== verification/ConnectionGate.v ===== *)
(** * ConnectionGate: the question every socket is met with

    [makeConnectionGate] of [apps/cli/src/commands/start.ts], its closure: the
    answers given so far, by device, and how long each holds.  A record of
    [decided] is an object that [admit] hands out and that its question
    changes later, so records live in a heap, by number.  The promise of a
    question settles ([settle]) before its reaction runs ([heard]).  The
    clock, the connection list ([None] when reading it throws), the policy and
    the peer list are read at each call.  What is printed is left out. *)

From S2P Require Import Prelude Grants Connections.

Definition ADMIT_GRACE_MS : Z := 120000.
Definition PRESENCE_SAMPLE_MS : Z := 15000.
Definition REFUSAL_GRACE_MS : Z := 15000.

(** The user agent is not read. *)
Record ConnectionRequest := mkRequest {
  rq_tokenId : option string;
  rq_deviceId : option string;
  rq_label : option string;
  rq_transport : AccessTransport;
}.

(** The promise of an answer. *)
Inductive Answer := Standing | Resolved (ok : bool) | Rejected.

#[export] Instance Answer_eq_dec : EqDecision Answer.
Proof. solve_decision. Defined.

(** A record of [decided], with what its reaction closes over: [until] is
    [None] for [Infinity], [question] is [None] for [Promise.resolve(true)]. *)
Record Verdict := mkVerdict {
  vd_key : string;
  vd_device : option string;
  vd_question : option nat;
  vd_answer : Answer;
  vd_heard : bool;
  vd_until : option Z;
  vd_approved : bool;
}.

Definition with_answer a v := mkVerdict (vd_key v) (vd_device v) (vd_question v) a (vd_heard v) (vd_until v) (vd_approved v).
Definition with_heard v := mkVerdict (vd_key v) (vd_device v) (vd_question v) (vd_answer v) true (vd_until v) (vd_approved v).
Definition with_until t v := mkVerdict (vd_key v) (vd_device v) (vd_question v) (vd_answer v) (vd_heard v) (Some t) (vd_approved v).
Definition with_approved b v := mkVerdict (vd_key v) (vd_device v) (vd_question v) (vd_answer v) (vd_heard v) (vd_until v) b.

Record ConnectionGate := mkGate {
  gt_verdicts : list Verdict;
  gt_decided : gmap string nat;
  gt_admittedHere : gset string;
  gt_sampling : bool;
}.

Definition set_verdicts l g := mkGate l (gt_decided g) (gt_admittedHere g) (gt_sampling g).
Definition set_decided d g := mkGate (gt_verdicts g) d (gt_admittedHere g) (gt_sampling g).
Definition set_admittedHere s g := mkGate (gt_verdicts g) (gt_decided g) s (gt_sampling g).

Definition gate_initial : ConnectionGate := mkGate [] ∅ ∅ true.

(** What a call finds. *)
Record GateEnv := mkEnv {
  ge_now : Z;
  ge_connected : option (list string);
  ge_asks : bool;
  ge_known : string -> bool;
  ge_nameFor : string -> option string;
}.

Definition keyFor (req : ConnectionRequest) : string :=
  match rq_deviceId req with
  | Some d => d
  | None => match truthy (rq_tokenId req) with
            | Some t => ("token:" ++ t)%string
            | None => "machine-token"
            end
  end.

Definition on_verdict (v : nat) (f : Verdict -> Verdict) (g : ConnectionGate) : ConnectionGate :=
  set_verdicts (alter f v (gt_verdicts g)) g.

Definition decided (key : string) (g : ConnectionGate) : option (nat * Verdict) :=
  v ← gt_decided g !! key; (fun x => (v, x)) <$> gt_verdicts g !! v.

(** [decided.set(key, record)], of a new record. *)
Definition decide_on (x : Verdict) (g : ConnectionGate) : ConnectionGate :=
  mkGate (gt_verdicts g ++ [x]) (<[vd_key x := length (gt_verdicts g)]> (gt_decided g))
    (gt_admittedHere g) (gt_sampling g).

Definition undecide (key : string) (g : ConnectionGate) : ConnectionGate :=
  set_decided (delete key (gt_decided g)) g.

(** Whether a device is on the list, read only for one that has an id. *)
Definition present (deviceId : option string) (env : GateEnv) : option bool :=
  match deviceId with
  | None => Some false
  | Some d => (fun l => bool_decide (d ∈ l)) <$> ge_connected env
  end.

Definition before (now : Z) (until : option Z) : bool :=
  match until with None => true | Some t => now <? t end.

(** [covered]: the number of the record that covers, or none; [Err] when the
    list cannot be read. *)
Definition covered (key : string) (deviceId : option string) (env : GateEnv) (g : ConnectionGate)
    : result unit (ConnectionGate * option nat) :=
  match decided key g with
  | None => Ok (g, None)
  | Some (v, x) =>
      match present deviceId env with
      | None => Err tt
      | Some live =>
          if vd_approved x && live then
            Ok (on_verdict v (with_until (ge_now env + ADMIT_GRACE_MS)) g, Some v)
          else if before (ge_now env) (vd_until x) then Ok (g, Some v)
          else Ok (undecide key g, None)
      end
  end.

(** The machine's own token, presented from the machine. *)
Definition own_token_here (req : ConnectionRequest) : bool :=
  bool_decide (rq_deviceId req = None /\ rq_tokenId req = None /\ rq_transport req = loopback).

Definition recognised (req : ConnectionRequest) (env : GateEnv) (g : ConnectionGate) : bool :=
  match rq_deviceId req with
  | Some d => ge_known env d || bool_decide (d ∈ gt_admittedHere g)
  | None => false
  end.

(** The name the question is asked under. *)
Definition named (req : ConnectionRequest) (env : GateEnv) : string :=
  match truthy (truthy (rq_deviceId req) ≫= ge_nameFor env) with
  | Some n => n
  | None => default "An unnamed device" (truthy (rq_label req))
  end.

(** The promise [admit] returns: settled, that of a record, or a throw. *)
Inductive Admission :=
| Granted
| Awaits (v : nat)
| Threw.

#[export] Instance Admission_eq_dec : EqDecision Admission.
Proof. solve_decision. Defined.

(** [admit]; [q] is the question it raises, if it comes to that, which the
    second component says. *)
Definition admit_socket (q : nat) (req : ConnectionRequest) (env : GateEnv) (g : ConnectionGate)
    : ConnectionGate * Admission * bool :=
  match covered (keyFor req) (rq_deviceId req) env g with
  | Err _ => (g, Threw, false)
  | Ok (g, Some v) => (g, Awaits v, false)
  | Ok (g, None) =>
      if own_token_here req then (g, Granted, false)
      else if recognised req env g && negb (ge_asks env) then (g, Granted, false)
      else
        (decide_on (mkVerdict (keyFor req) (rq_deviceId req) (Some q) Standing false None false) g,
         Awaits (length (gt_verdicts g)), true)
  end.

(** The promise of question [q] settles. *)
Definition settle (q : nat) (a : Answer) : ConnectionGate -> ConnectionGate := fun g =>
  set_verdicts (map (fun x => if decide (vd_question x = Some q /\ vd_answer x = Standing)
                              then with_answer a x else x) (gt_verdicts g)) g.

Definition grace (ok : bool) : Z := if ok then ADMIT_GRACE_MS else REFUSAL_GRACE_MS.

(** The reaction of a record to its question. *)
Definition heard (v : nat) (now : Z) (g : ConnectionGate) : ConnectionGate :=
  match gt_verdicts g !! v with
  | Some x =>
      if vd_heard x then g
      else match vd_answer x with
      | Standing => g
      | Resolved ok =>
          let g := on_verdict v (fun x => with_heard (with_until (now + grace ok) (with_approved ok x))) g in
          match vd_device x with
          | Some d => if ok then set_admittedHere ({[d]} ∪ gt_admittedHere g) g else g
          | None => g
          end
      | Rejected => undecide (vd_key x) (on_verdict v with_heard g)
      end
  | None => g
  end.

Definition approve (d : string) (now : Z) (g : ConnectionGate) : ConnectionGate :=
  decide_on (mkVerdict d (Some d) None (Resolved true) true (Some (now + ADMIT_GRACE_MS)) true)
    (set_admittedHere ({[d]} ∪ gt_admittedHere g) g).

Definition forget (d : string) (g : ConnectionGate) : ConnectionGate :=
  undecide d (set_admittedHere (gt_admittedHere g ∖ {[d]}) g).

Definition restamp (now : Z) (g : ConnectionGate) (d : string) : ConnectionGate :=
  match decided d g with
  | Some (v, x) => if vd_approved x then on_verdict v (with_until (now + ADMIT_GRACE_MS)) g else g
  | None => g
  end.

Definition sampleSweep (env : GateEnv) (g : ConnectionGate) : ConnectionGate :=
  if gt_sampling g then
    match ge_connected env with
    | Some online => foldl (restamp (ge_now env)) g online
    | None => g
    end
  else g.

Definition stop (g : ConnectionGate) : ConnectionGate :=
  mkGate (gt_verdicts g) (gt_decided g) (gt_admittedHere g) false.
