(* ===== verification/GateSafety.v ===== *)
(** * GateSafety: the gate, with the questions it raises

    The gate of ConnectionGate over the machine of Consent, as [start.ts] wires
    them: [makeConnectionGate] asks through [decideAccess], and a pairing that
    was let in seeds the gate.  Every socket that is let in is traced to a yes
    ([let_in_by_a_yes]), and a socket is met with a question unless its device
    was there, or was answered, a moment ago ([quiet_only_if_recent]). *)

From S2P Require Import Prelude Grants Connections Approval ApproveControl Consent ConsentSafety ConsentYes ConnectionGate.

(** ** The two together *)

(** [dr_pairings]: questions of pairings whose answer is not acted on yet. *)
Record Door := mkDoor {
  dr_gate : ConnectionGate;
  dr_machine : Machine;
  dr_pairings : gset nat;
}.

Definition set_gate g d := mkDoor g (dr_machine d) (dr_pairings d).
Definition set_machine m d := mkDoor (dr_gate d) m (dr_pairings d).
Definition set_pairings p d := mkDoor (dr_gate d) (dr_machine d) p.

Inductive DoorOp :=
| Connect (q : nat) (req : ConnectionRequest)
| Pair (q : nat) (req : AccessPromptInput)
| OnMachine (op : ConsentOp)
| Answered (q : nat)
| Heard (v : nat)
| Paired (q : nat) (device : string)
| Forget (device : string)
| Sweep
| StopSampling.

Record DoorEvent := mkDoorEvent { de_env : GateEnv; de_registry : Registry; de_op : DoorOp }.

Definition de_now (ev : DoorEvent) : Z := ge_now (de_env ev).

Section Door.
Context (authToken : string) (canAsk canApprove isTTY : bool).

Definition on_machine (ev : DoorEvent) (op : ConsentOp) (d : Door) : Door :=
  set_machine (consent_step authToken canAsk canApprove isTTY
                 (mkConsentEvent (de_now ev) (de_registry ev) op) (dr_machine d)).1 d.

Definition unused (q : nat) (d : Door) : bool := bool_decide (mc_questions (dr_machine d) !! q = None).

(** What [admit] asks about a socket. *)
Definition question_of (req : ConnectionRequest) (env : GateEnv) : AccessPromptInput :=
  mkInput None (named req env) "" (Some via_returning).

Definition connect (ev : DoorEvent) (q : nat) (req : ConnectionRequest) (d : Door)
    : Door * option Admission :=
  if unused q d then
    let '(g, a, asks) := admit_socket q req (de_env ev) (dr_gate d) in
    let d := set_gate g d in
    (if asks then on_machine ev (Decide q (question_of req (de_env ev))) d else d, Some a)
  else (d, None).

(** A pairing that was approved is registered, and seeds the gate. *)
Definition paired (ev : DoorEvent) (q : nat) (device : string) (d : Door) : Door :=
  if decide (q ∈ dr_pairings d /\ result q (dr_machine d) = Some Approved) then
    set_pairings (dr_pairings d ∖ {[q]}) (set_gate (approve device (de_now ev) (dr_gate d)) d)
  else d.

Definition answered (q : nat) (d : Door) : Door :=
  match result q (dr_machine d) with
  | Some r => set_gate (settle q (Resolved (bool_decide (r = Approved))) (dr_gate d)) d
  | None => d
  end.

Definition door_step (ev : DoorEvent) (d : Door) : Door * option Admission :=
  match de_op ev with
  | Connect q req => connect ev q req d
  | Pair q req =>
      (if unused q d then on_machine ev (Decide q req) (set_pairings ({[q]} ∪ dr_pairings d) d) else d, None)
  | OnMachine (Decide _ _) => (d, None)
  | OnMachine op => (on_machine ev op d, None)
  | Answered q => (answered q d, None)
  | Heard v => (set_gate (heard v (de_now ev) (dr_gate d)) d, None)
  | Paired q device => (paired ev q device d, None)
  | Forget device => (set_gate (forget device (dr_gate d)) d, None)
  | Sweep => (set_gate (sampleSweep (de_env ev) (dr_gate d)) d, None)
  | StopSampling => (set_gate (stop (dr_gate d)) d, None)
  end.

Definition door_initial : Door := mkDoor gate_initial machine_initial ∅.

Definition door_run (evs : list DoorEvent) (d : Door) : Door :=
  foldl (fun d ev => (door_step ev d).1) d evs.

Abbreviation run evs := (door_run evs door_initial).

(** ** What is said of a history *)

(** Somebody said yes to [q]. *)
Definition yes_in (evs : list DoorEvent) (q : nat) : Prop :=
  exists before ev after op, evs = before ++ ev :: after /\ de_op ev = OnMachine op /\
    says_yes authToken (mkConsentEvent (de_now ev) (de_registry ev) op) (dr_machine (run before)) q.

(** [ev] puts [q] in charge of [key]: a socket raises it, its answer is heard,
    or it is the question of a pairing that makes the device [key]. *)
Definition brings (key : string) (q : nat) (d : Door) (ev : DoorEvent) : Prop :=
  match de_op ev with
  | Connect q' req => q' = q /\ keyFor req = key /\ unused q d = true /\
                      (admit_socket q req (de_env ev) (dr_gate d)).2 = true
  | Heard v => exists x, gt_verdicts (dr_gate d) !! v = Some x /\ vd_key x = key /\ vd_question x = Some q /\
                         vd_answer x = Resolved true
  | Paired q' device => q' = q /\ device = key /\ q ∈ dr_pairings d
  | _ => False
  end.

(** ... and the device has not been forgotten since. *)
Definition in_charge (evs : list DoorEvent) (key : string) (q : nat) : Prop :=
  exists before ev after, evs = before ++ ev :: after /\ brings key q (run before) ev /\
    forall e, e ∈ after -> de_op e <> Forget key.

Lemma door_run_app evs evs' d : door_run (evs ++ evs') d = door_run evs' (door_run evs d).
Proof. apply foldl_app. Qed.

Lemma yes_snoc evs ev q : yes_in evs q -> yes_in (evs ++ [ev]) q.
Proof. intros (b & e & a & op & -> & H). exists b, e, (a ++ [ev]), op. by rewrite <- (assoc app). Qed.

Lemma yes_now evs ev op q :
  de_op ev = OnMachine op ->
  says_yes authToken (mkConsentEvent (de_now ev) (de_registry ev) op) (dr_machine (run evs)) q ->
  yes_in (evs ++ [ev]) q.
Proof. intros Hop Hy. by exists evs, ev, [], op. Qed.

Lemma in_charge_snoc evs ev key q :
  de_op ev <> Forget key -> in_charge evs key q -> in_charge (evs ++ [ev]) key q.
Proof.
  intros Hf (b & e & a & -> & Hb & Ha). exists b, e, (a ++ [ev]). rewrite <- (assoc app). split; [done|].
  split; [done|]. intros e' [He|He]%elem_of_app; [by apply Ha|]. by apply list_elem_of_singleton in He as ->.
Qed.

Lemma in_charge_now evs ev key q : brings key q (run evs) ev -> in_charge (evs ++ [ev]) key q.
Proof. intros Hb. exists evs, ev, []. split; [done|]. split; [done|]. intros e He. by apply elem_of_nil in He. Qed.

(** ** The gate, given that history *)

Definition backed (evs : list DoorEvent) (x : Verdict) : Prop :=
  match vd_question x with
  | Some q => in_charge evs (vd_key x) q
  | None => exists q, in_charge evs (vd_key x) q /\ yes_in evs q
  end.

Record verdict_ok (evs : list DoorEvent) (x : Verdict) : Prop := {
  vo_key dev : vd_device x = Some dev -> vd_key x = dev;
  vo_heard : vd_question x = None -> vd_heard x = true;
  vo_yes q : vd_question x = Some q -> vd_answer x = Resolved true -> yes_in evs q;
}.

Record gate_ok (evs : list DoorEvent) (g : ConnectionGate) : Prop := {
  go_verdict v x : gt_verdicts g !! v = Some x -> verdict_ok evs x;
  go_decided key v : gt_decided g !! key = Some v ->
    exists x, gt_verdicts g !! v = Some x /\ vd_key x = key /\ backed evs x;
  go_admitted dev : dev ∈ gt_admittedHere g -> exists q, in_charge evs dev q /\ yes_in evs q;
}.

(** What a record keeps while its times change. *)
Definition same_verdict (x y : Verdict) : Prop :=
  vd_key y = vd_key x /\ vd_device y = vd_device x /\ vd_question y = vd_question x /\ vd_answer y = vd_answer x /\
  (vd_heard x = true -> vd_heard y = true).

Lemma same_ok evs x y : same_verdict x y -> verdict_ok evs x -> verdict_ok evs y.
Proof. intros (E1 & E2 & E3 & E4 & E5) [H1 H2 H3]. split; rewrite ?E1, ?E2, ?E3, ?E4; auto. Qed.

Lemma same_backed evs x y : same_verdict x y -> backed evs x -> backed evs y.
Proof. intros (E1 & _ & E3 & _). unfold backed. by rewrite E1, E3. Qed.

Lemma backed_snoc evs ev x : de_op ev <> Forget (vd_key x) -> backed evs x -> backed (evs ++ [ev]) x.
Proof.
  intros Hf. unfold backed. destruct (vd_question x); [by apply in_charge_snoc|].
  intros (q & Hc & Hy). exists q. split; [by apply in_charge_snoc|by apply yes_snoc].
Qed.

Lemma verdict_snoc evs ev x : verdict_ok evs x -> verdict_ok (evs ++ [ev]) x.
Proof. intros [H1 H2 H3]. split; [done..|]. intros q Hq Ha. by apply yes_snoc, H3. Qed.

Lemma gate_snoc evs ev g : (forall key, de_op ev <> Forget key) -> gate_ok evs g -> gate_ok (evs ++ [ev]) g.
Proof.
  intros Hf [Hv Hd Ha]. split.
  - intros v x Hx. by eapply verdict_snoc, Hv.
  - intros key v Hk. destruct (Hd _ _ Hk) as (x & Hx & Hxk & Hb). exists x. split_and!; [done..|]. by apply backed_snoc.
  - intros dev Hdev. destruct (Ha _ Hdev) as (q & Hc & Hy). exists q.
    split; [by apply in_charge_snoc|by apply yes_snoc].
Qed.

Lemma gate_on evs v f g : (forall x, gt_verdicts g !! v = Some x -> same_verdict x (f x)) -> gate_ok evs g -> gate_ok evs (on_verdict v f g).
Proof.
  intros Hf [Hv Hd Ha]. assert (forall w x, gt_verdicts g !! w = Some x ->
    exists y, gt_verdicts (on_verdict v f g) !! w = Some y /\ same_verdict x y) as Hs.
  { intros w x Hx. unfold on_verdict. simpl. destruct (decide (w = v)) as [->|Hne].
    - rewrite list_lookup_alter_eq, Hx. eexists. split; [done|]. by apply Hf.
    - rewrite list_lookup_alter_ne by done. by exists x. }
  split; [|intros key w Hk; destruct (Hd _ _ Hk) as (x & Hx & Hxk & Hb); destruct (Hs _ _ Hx) as (y & Hy & Hxy);
    exists y; split_and!; [done|by rewrite (proj1 Hxy)|by eapply same_backed]|exact Ha].
  intros w y Hy. assert (is_Some (gt_verdicts g !! w)) as [x Hx].
  { apply lookup_lt_is_Some. apply lookup_lt_Some in Hy. unfold on_verdict in Hy. simpl in Hy. by rewrite length_alter in Hy. }
  destruct (Hs _ _ Hx) as (y' & Hy' & Hxy). replace y with y' by congruence. eapply same_ok; [done|]. by eapply Hv.
Qed.

Lemma gate_undecide evs key g : gate_ok evs g -> gate_ok evs (undecide key g).
Proof.
  intros [Hv Hd Ha]. split; [done| |done]. intros k v Hk. simpl in Hk. apply lookup_delete_Some in Hk as [_ Hk]. by apply Hd.
Qed.

Lemma gate_decide evs x g : verdict_ok evs x -> backed evs x -> gate_ok evs g -> gate_ok evs (decide_on x g).
Proof.
  intros Hx Hb [Hv Hd Ha]. split; [| |done]; simpl.
  - intros v y [Hy|[_ Hy]]%lookup_app_Some; [by eapply Hv|].
    apply list_lookup_singleton_Some in Hy as [_ <-]. done.
  - intros key v Hk. destruct (decide (key = vd_key x)) as [->|Hne].
    + rewrite lookup_insert_eq in Hk. injection Hk as <-. exists x. split; [|done]. by rewrite lookup_app_r, Nat.sub_diag.
    + rewrite lookup_insert_ne in Hk by done. destruct (Hd _ _ Hk) as (y & Hy & ?). exists y. split; [|done].
      by apply lookup_app_l_Some.
Qed.

Lemma gate_admit_here evs dev q g :
  in_charge evs dev q -> yes_in evs q -> gate_ok evs g -> gate_ok evs (set_admittedHere ({[dev]} ∪ gt_admittedHere g) g).
Proof.
  intros Hc Hy [Hv Hd Ha]. split; [done..|]. intros dev' [->%elem_of_singleton|Hin]%elem_of_union; [by exists q|by apply Ha].
Qed.

(** ** Its operations *)

Lemma forget_ok evs ev dev g : de_op ev = Forget dev -> gate_ok evs g -> gate_ok (evs ++ [ev]) (forget dev g).
Proof.
  intros Hop [Hv Hd Ha]. assert (forall k, k <> dev -> de_op ev <> Forget k) as Hf by (intros k Hk; rewrite Hop; congruence).
  split; simpl.
  - intros v x Hx. by eapply verdict_snoc, Hv.
  - intros key v [Hne Hk]%lookup_delete_Some. destruct (Hd _ _ Hk) as (x & Hx & Hxk & Hb). exists x. split_and!; [done..|].
    apply backed_snoc; [rewrite Hxk; by apply Hf|done].
  - intros d' [Hin Hne]%elem_of_difference. destruct (Ha _ Hin) as (q & Hc & Hy). exists q.
    split; [apply in_charge_snoc; [apply Hf; set_solver|done]|by apply yes_snoc].
Qed.

Lemma until_same t x : same_verdict x (with_until t x).
Proof. by split_and!. Qed.

Lemma restamp_ok evs now g dev : gate_ok evs g -> gate_ok evs (restamp now g dev).
Proof.
  intros Hg. unfold restamp. destruct (decided dev g) as [[v x]|]; [|done]. destruct (vd_approved x); [|done].
  apply gate_on; [|done]. intros y _. apply until_same.
Qed.

Lemma sweep_ok evs env g : gate_ok evs g -> gate_ok evs (sampleSweep env g).
Proof.
  unfold sampleSweep. destruct (gt_sampling g); [|done]. destruct (ge_connected env) as [l|]; [|done].
  revert g. induction l as [|dev l IH]; intros g Hg; [done|]. by apply IH, restamp_ok.
Qed.

Lemma covered_ok evs key dev env g g' v :
  gate_ok evs g -> ConnectionGate.covered key dev env g = Ok (g', v) ->
  gate_ok evs g' /\ match v with Some v => gt_decided g' !! key = Some v | None => True end.
Proof.
  intros Hg. unfold ConnectionGate.covered, decided. destruct (gt_decided g !! key) as [w|] eqn:Hk; simpl; [|by intros [= <- <-]].
  destruct (gt_verdicts g !! w) as [x|]; simpl; [|by intros [= <- <-]].
  destruct (present dev env) as [live|]; [|done]. destruct (vd_approved x && live).
  - intros [= <- <-]. split; [|done]. apply gate_on; [|done]. intros y _. apply until_same.
  - case_match; intros [= <- <-]; [done|]. split; [|done]. by apply gate_undecide.
Qed.

Lemma settle_ok evs q a g : (a = Resolved true -> yes_in evs q) -> gate_ok evs g -> gate_ok evs (settle q a g).
Proof.
  intros Hy [Hv Hd Ha].
  assert (forall x, verdict_ok evs x ->
    verdict_ok evs (if decide (vd_question x = Some q /\ vd_answer x = Standing) then with_answer a x else x)) as Hf.
  { intros x Hx. case_decide as Hc; [|done]. destruct Hx as [H1 H2 H3]. split; simpl; [done..|].
    destruct Hc as [Hq _]. intros q' Hq' ->. replace q' with q by congruence. auto. }
  split; [| |exact Ha]; simpl.
  - intros v y Hy'. rewrite list_lookup_fmap in Hy'. apply fmap_Some in Hy' as (x & Hx & ->). by eapply Hf, Hv.
  - intros key v Hk. destruct (Hd _ _ Hk) as (x & Hx & Hxk & Hb). rewrite list_lookup_fmap, Hx. simpl. eexists. split; [done|].
    case_decide; [|done]. split; [done|]. exact Hb.
Qed.

(** Hearing an answer puts its question in charge, if the answer is yes. *)
Lemma heard_ok evs v now g :
  (forall x q, gt_verdicts g !! v = Some x -> vd_question x = Some q -> vd_answer x = Resolved true ->
     in_charge evs (vd_key x) q) ->
  gate_ok evs g -> gate_ok evs (heard v now g).
Proof.
  intros Hc Hg. unfold heard. destruct (gt_verdicts g !! v) as [x|] eqn:Hx; [|done].
  destruct (vd_heard x) eqn:Hh; [done|]. destruct (vd_answer x) as [|ok|] eqn:Ha; [done| |].
  - assert (gate_ok evs (on_verdict v (fun x => with_heard (with_until (now + grace ok) (with_approved ok x))) g)) as Hg'.
    { apply gate_on; [|done]. intros y _. by split_and!. }
    destruct (vd_device x) as [dev|] eqn:Hdev; [|done]. destruct ok; [|done].
    pose proof (go_verdict _ _ Hg _ _ Hx) as [H1 H2 H3].
    destruct (vd_question x) as [q|] eqn:Hq; [|rewrite H2 in Hh; done].
    apply (gate_admit_here _ _ q); [rewrite <- (H1 _ Hdev); by eapply Hc|by apply H3|exact Hg'].
  - apply gate_undecide, gate_on; [|done]. intros y _. by split_and!.
Qed.

Lemma approve_ok evs dev q now g :
  in_charge evs dev q -> yes_in evs q -> gate_ok evs g -> gate_ok evs (approve dev now g).
Proof.
  intros Hc Hy Hg. unfold approve. apply gate_decide; [|by exists q|by eapply gate_admit_here].
  split; simpl; intros; congruence.
Qed.

(** A socket at the gate. *)
Lemma admit_ok evs q req env g :
  gate_ok evs g ->
  ((admit_socket q req env g).2 = true -> in_charge evs (keyFor req) q) ->
  gate_ok evs (admit_socket q req env g).1.1 /\
  match (admit_socket q req env g).1.2 with
  | Awaits v => gt_decided (admit_socket q req env g).1.1 !! keyFor req = Some v
  | Granted => own_token_here req = true \/
               exists dev, rq_deviceId req = Some dev /\ ge_asks env = false /\
                 (ge_known env dev = true \/ exists q', in_charge evs dev q' /\ yes_in evs q')
  | Threw => True
  end.
Proof.
  intros Hg. unfold admit_socket. destruct (ConnectionGate.covered _ _ _ g) as [[g' [v|]]|] eqn:Hc; simpl; [| |done].
  - destruct (covered_ok _ _ _ _ _ _ _ Hg Hc) as [Hg' Hv]. intros _. done.
  - destruct (covered_ok _ _ _ _ _ _ _ Hg Hc) as [Hg' _]. destruct (own_token_here req); [simpl; auto|].
    destruct (recognised req env g') eqn:Hr; [destruct (ge_asks env) eqn:Ha|]; simpl.
    2: { intros _. split; [done|]. right. unfold recognised in Hr. destruct (rq_deviceId req) as [dev|]; [|done].
         exists dev. split_and!; [done..|]. apply orb_true_iff in Hr as [Hk|Hin%bool_decide_eq_true]; [by left|].
         right. by apply (go_admitted _ _ Hg'). }
    all: intros Hin; split; [|apply lookup_insert_eq]; apply gate_decide; [|by apply Hin|exact Hg'];
      split; simpl; [|done|done]; intros dev Hdev; unfold keyFor; by rewrite Hdev.
Qed.

(** ** The invariant of the two together *)

Abbreviation fine := (fine_but authToken None None).

Record sound (evs : list DoorEvent) (d : Door) : Prop := {
  so_fine : fine (dr_machine d);
  so_covered : ConsentYes.covered (yes_in evs) (dr_machine d);
  so_gate : gate_ok evs (dr_gate d);
}.

Lemma approved_yes evs q d : sound evs d -> result q (dr_machine d) = Some Approved -> yes_in evs q.
Proof. intros [Hf Hc _] Hr. by apply (approved_covered authToken (yes_in evs) q _ Hf Hc). Qed.

Lemma machine_covered evs ev op m :
  fine m -> ConsentYes.covered (yes_in evs) m ->
  (forall q, says_yes authToken (mkConsentEvent (de_now ev) (de_registry ev) op) m q -> yes_in (evs ++ [ev]) q) ->
  ConsentYes.covered (yes_in (evs ++ [ev]))
    (consent_step authToken canAsk canApprove isTTY (mkConsentEvent (de_now ev) (de_registry ev) op) m).1.
Proof.
  intros Hf [Hq Hl] HY. apply step_covered; [done|split; intros; apply yes_snoc; by eauto|done].
Qed.

Lemma covered_more evs ev m : ConsentYes.covered (yes_in evs) m -> ConsentYes.covered (yes_in (evs ++ [ev])) m.
Proof. intros [Hq Hl]. split; intros; apply yes_snoc; by eauto. Qed.

(** An event that leaves the machine alone. *)
Lemma sound_gate evs ev g p :
  sound evs (run evs) -> gate_ok (evs ++ [ev]) g ->
  sound (evs ++ [ev]) (mkDoor g (dr_machine (run evs)) p).
Proof. intros [Hf Hc _] Hg. split; [done|by apply covered_more|done]. Qed.

Lemma sound_machine evs ev op d :
  sound evs (run evs) -> dr_machine d = dr_machine (run evs) -> gate_ok (evs ++ [ev]) (dr_gate d) ->
  (forall q, says_yes authToken (mkConsentEvent (de_now ev) (de_registry ev) op) (dr_machine (run evs)) q ->
     de_op ev = OnMachine op) ->
  sound (evs ++ [ev]) (on_machine ev op d).
Proof.
  intros [Hf Hc _] Hm Hg Hop. unfold on_machine. rewrite Hm. split; [by apply step_fine| |exact Hg].
  apply machine_covered; [done..|]. intros q Hy. eapply yes_now; [by eapply Hop|exact Hy].
Qed.

Lemma door_sound_step evs ev : sound evs (run evs) -> sound (evs ++ [ev]) (run (evs ++ [ev])).
Proof.
  intros Hs. rewrite door_run_app. change (door_run [ev] (run evs)) with (door_step ev (run evs)).1.
  pose proof (so_gate _ _ Hs) as Hg.
  assert ((forall key, de_op ev <> Forget key) -> gate_ok (evs ++ [ev]) (dr_gate (run evs))) as Hg'.
  { intros Hf. by apply gate_snoc. }
  unfold door_step. destruct (de_op ev) as [q req|q req|op|q|v|q dev|dev| |] eqn:Hop; cbn [fst].
  - unfold connect. destruct (unused q (run evs)) eqn:Hu.
    2: { destruct (run evs) as [g m p] eqn:Hrun. rewrite <- Hrun in *. assert (sound (evs ++ [ev]) (mkDoor g m p)) as H.
         { pose proof (sound_gate evs ev (dr_gate (run evs)) p Hs (Hg' ltac:(done))). by rewrite Hrun in *. }
         rewrite Hrun. exact H. }
    destruct (admit_socket q req (de_env ev) (dr_gate (run evs))) as [[g a] asks] eqn:Ha.
    destruct (admit_ok (evs ++ [ev]) q req (de_env ev) (dr_gate (run evs)) (Hg' ltac:(done))) as [Hgo _].
    { intros Hasks. apply in_charge_now. unfold brings. by rewrite Hop. }
    rewrite Ha in Hgo. simpl in Hgo. destruct asks; cbn [fst].
    + apply sound_machine; [done..|]. intros q' [].
    + by apply sound_gate.
  - destruct (unused q (run evs)); cbn [fst].
    + apply sound_machine; [done|done|by apply Hg'|]. intros q' [].
    + destruct Hs as [Hf Hc _]. split; [done|by apply covered_more|by apply Hg'].
  - assert (sound (evs ++ [ev]) (on_machine ev op (run evs))) as H.
    { apply sound_machine; [done|done|by apply Hg'|done]. }
    destruct op; try exact H. destruct Hs as [Hf Hc _]. split; [done|by apply covered_more|by apply Hg'].
  - unfold answered. destruct (result q (dr_machine (run evs))) as [r|] eqn:Hr; cbn [fst].
    + apply sound_gate; [done|]. apply settle_ok; [|by apply Hg']. intros [= Hb]. apply bool_decide_eq_true in Hb as ->.
      apply yes_snoc. by eapply approved_yes.
    + destruct Hs as [Hf Hc _]. split; [done|by apply covered_more|by apply Hg'].
  - apply sound_gate; [done|]. apply heard_ok; [|by apply Hg']. intros x q Hx Hq Ha. apply in_charge_now.
    unfold brings. rewrite Hop. by exists x.
  - unfold paired. case_decide as Hp; [destruct Hp as [Hin Hres]|].
    + apply sound_gate; [done|]. apply (approve_ok _ _ q); [|apply yes_snoc; by eapply approved_yes|by apply Hg'].
      apply in_charge_now. unfold brings. by rewrite Hop.
    + destruct Hs as [Hf Hc _]. split; [done|by apply covered_more|by apply Hg'].
  - apply sound_gate; [done|]. by apply forget_ok.
  - apply sound_gate; [done|]. apply sweep_ok. by apply Hg'.
  - apply sound_gate; [done|]. destruct (Hg' ltac:(done)) as [H1 H2 H3]. by split.
Qed.

Lemma run_sound evs : sound evs (run evs).
Proof.
  induction evs as [|ev evs IH] using rev_ind; [|by apply door_sound_step].
  split; [apply initial_fine|split; [done|intros r Hr; by apply elem_of_nil in Hr]|].
  split; [intros v x Hx; done|intros key v Hk; done|
    intros dev Hdev; by apply not_elem_of_empty in Hdev].
Qed.

(** ** A record stays what it is about *)

Definition extends (g g' : ConnectionGate) : Prop :=
  forall v x, gt_verdicts g !! v = Some x ->
    exists y, gt_verdicts g' !! v = Some y /\ vd_key y = vd_key x /\ vd_question y = vd_question x.

#[local] Instance extends_preorder : PreOrder extends.
Proof.
  split; [intros g v x Hx; by exists x|]. intros g1 g2 g3 H12 H23 v x Hx.
  destruct (H12 _ _ Hx) as (y & Hy & Ek & Eq). destruct (H23 _ _ Hy) as (z & Hz & Ek' & Eq').
  exists z. by rewrite Ek', Eq'.
Qed.

Lemma extends_same g g' : gt_verdicts g' = gt_verdicts g -> extends g g'.
Proof. intros E v x Hx. exists x. by rewrite E. Qed.

Lemma extends_on v f g : (forall x, vd_key (f x) = vd_key x /\ vd_question (f x) = vd_question x) -> extends g (on_verdict v f g).
Proof.
  intros Hf w x Hx. unfold on_verdict. simpl. destruct (decide (w = v)) as [->|Hne].
  - rewrite list_lookup_alter_eq, Hx. eexists. split; [done|apply Hf].
  - rewrite list_lookup_alter_ne by done. by exists x.
Qed.

Lemma extends_decide x g : extends g (decide_on x g).
Proof. intros v y Hy. exists y. split; [by apply lookup_app_l_Some|done]. Qed.

Lemma extends_restamp now g dev : extends g (restamp now g dev).
Proof. unfold restamp. destruct (decided dev g) as [[v x]|]; [|done]. case_match; [by apply extends_on|done]. Qed.

Lemma extends_sweep env g : extends g (sampleSweep env g).
Proof.
  unfold sampleSweep. destruct (gt_sampling g); [|done]. destruct (ge_connected env) as [l|]; [|done].
  revert g. induction l as [|dev l IH]; intros g; [done|]. simpl. etrans; [apply extends_restamp|apply IH].
Qed.

Lemma extends_settle q a g : extends g (settle q a g).
Proof.
  intros v x Hx. unfold settle. simpl. rewrite list_lookup_fmap, Hx. eexists. split; [done|]. by case_decide.
Qed.

Lemma extends_heard v now g : extends g (heard v now g).
Proof.
  unfold heard. destruct (gt_verdicts g !! v) as [x|]; [|done]. destruct (vd_heard x); [done|].
  destruct (vd_answer x) as [|ok|]; [done| |].
  - etrans; [by apply (extends_on v (fun x => with_heard (with_until (now + grace ok) (with_approved ok x))))|].
    apply extends_same. destruct (vd_device x); [|done]. by destruct ok.
  - etrans; [by apply (extends_on v with_heard)|]. by apply extends_same.
Qed.

Lemma extends_admit q req env g : extends g (admit_socket q req env g).1.1.
Proof.
  unfold admit_socket, ConnectionGate.covered. destruct (decided (keyFor req) g) as [[v x]|].
  - destruct (present (rq_deviceId req) env) as [live|]; [|done]. destruct (vd_approved x && live); [by apply extends_on|].
    destruct (before _ _); [done|]. destruct (own_token_here req); [by apply extends_same|].
    case_match; [by apply extends_same|]. etrans; [by apply (extends_same g (undecide (keyFor req) g))|apply extends_decide].
  - destruct (own_token_here req); [done|]. case_match; [done|]. apply extends_decide.
Qed.

Lemma extends_step ev d : extends (dr_gate d) (dr_gate (door_step ev d).1).
Proof.
  unfold door_step. destruct (de_op ev) as [q req|q req|op|q|v|q dev|dev| |]; cbn [fst]; try done.
  - unfold connect. destruct (unused q d); [|done].
    pose proof (extends_admit q req (de_env ev) (dr_gate d)) as H.
    destruct (admit_socket q req (de_env ev) (dr_gate d)) as [[g a] asks]. by destruct asks.
  - by destruct (unused q d).
  - by destruct op.
  - unfold answered. destruct (result q (dr_machine d)); [apply extends_settle|done].
  - apply extends_heard.
  - unfold paired. case_decide; [|done]. simpl. etrans; [|apply extends_decide]. by apply extends_same.
  - by apply extends_same.
  - apply extends_sweep.
  - by apply extends_same.
Qed.

Lemma extends_run evs d : extends (dr_gate d) (dr_gate (door_run evs d)).
Proof.
  revert d. induction evs as [|ev evs IH]; intros d; [done|]. etrans; [apply extends_step|apply IH].
Qed.

Lemma yes_app evs evs' q : yes_in evs q -> yes_in (evs ++ evs') q.
Proof. intros (b & e & a & op & -> & H). exists b, e, (a ++ evs'), op. by rewrite <- (assoc app). Qed.

(** A socket is let in when the promise it was given is true. *)
Definition let_in (a : Admission) (d : Door) : Prop :=
  match a with
  | Granted => True
  | Awaits v => exists x, gt_verdicts (dr_gate d) !! v = Some x /\ vd_answer x = Resolved true
  | Threw => False
  end.

(** C22: every socket that is let in is somebody's doing.  It presents the
    machine's own token on the machine itself; or the policy is to trust a
    device that comes back, and it is on the machine's list; or somebody said
    yes to a question about that very device, which was raised, answered or
    paired since the device was last forgotten.  All interleavings are covered
    of sockets, pairings, answers, removals, and of whatever happens to the
    questions on the machine. *)
Theorem let_in_by_a_yes evs ev evs' q req a :
  de_op ev = Connect q req -> (door_step ev (run evs)).2 = Some a ->
  let_in a (run (evs ++ ev :: evs')) ->
  own_token_here req = true \/
  (exists dev, rq_deviceId req = Some dev /\ ge_asks (de_env ev) = false /\ ge_known (de_env ev) dev = true) \/
  exists q', in_charge (evs ++ [ev]) (keyFor req) q' /\ yes_in (evs ++ ev :: evs') q'.
Proof.
  intros Hop Ha Hin. pose proof (run_sound evs) as Hs. pose proof (run_sound (evs ++ [ev])) as Hs1.
  pose proof (run_sound (evs ++ ev :: evs')) as Hs2.
  assert (run (evs ++ [ev]) = (door_step ev (run evs)).1) as E1 by apply door_run_app.
  assert (run (evs ++ ev :: evs') = door_run evs' (run (evs ++ [ev]))) as E2 by (by rewrite E1, door_run_app).
  assert (forall q, yes_in (evs ++ [ev]) q -> yes_in (evs ++ ev :: evs') q) as Hmore.
  { intros q' Hy. apply (yes_app _ evs') in Hy. by rewrite <- (assoc app) in Hy. }
  assert (gate_ok (evs ++ [ev]) (dr_gate (run evs))) as Hg by (apply gate_snoc; [intros key; by rewrite Hop|apply Hs]).
  unfold door_step in Ha, E1. rewrite Hop in Ha, E1. unfold connect in Ha, E1.
  destruct (unused q (run evs)) eqn:Hu; [|done].
  destruct (admit_ok (evs ++ [ev]) q req (de_env ev) (dr_gate (run evs)) Hg) as [_ Hadm].
  { intros Hasks. apply in_charge_now. unfold brings. by rewrite Hop. }
  destruct (admit_socket q req (de_env ev) (dr_gate (run evs))) as [[g a'] asks]. simpl in *. injection Ha as ->.
  destruct a as [|v|]; [| |done].
  - destruct Hadm as [?|(dev & Hd & Hasks & [Hk|(q' & Hc & Hy)])]; [by left|right; left; by exists dev|].
    right. right. exists q'. split; [unfold keyFor; by rewrite Hd|by apply Hmore].
  - right. right. assert (gt_decided (dr_gate (run (evs ++ [ev]))) !! keyFor req = Some v) as Hdec by (rewrite E1; by destruct asks).
    destruct (go_decided _ _ (so_gate _ _ Hs1) _ _ Hdec) as (x & Hx & Hkey & Hb).
    destruct (extends_run evs' (run (evs ++ [ev])) _ _ Hx) as (y & Hy & Hyk & Hyq). rewrite <- E2 in Hy.
    destruct Hin as (y' & Hy' & Hans). simplify_eq. rewrite <- Hkey. unfold backed in Hb. rewrite <- Hyq in Hb.
    destruct (vd_question y') as [q'|] eqn:Hq.
    + exists q'. split; [done|]. by apply (vo_yes _ _ (go_verdict _ _ (so_gate _ _ Hs2) _ _ Hy')).
    + destruct Hb as (q' & Hc & Hyes). exists q'. split; [done|by apply Hmore].
Qed.

(** ** How long an answer holds *)

(** [ev] is when record [v] about [key] was answered, or when the device it
    let in was seen again. *)
Definition shows (ok : bool) (key : string) (v : nat) (ev : DoorEvent) : Prop :=
  de_op ev = Heard v \/
  (ok = true /\ ((exists q, de_op ev = Paired q key) \/
                 exists l, ge_connected (de_env ev) = Some l /\ key ∈ l)).

Record timed_one (evs : list DoorEvent) (v : nat) (x : Verdict) : Prop := {
  ti_key dev : vd_device x = Some dev -> vd_key x = dev;
  ti_standing : vd_answer x <> Rejected;
  ti_open : vd_until x = None <-> vd_heard x = false;
  ti_unheard : vd_heard x = false -> vd_approved x = false;
  ti_answer : vd_heard x = true -> vd_answer x = Resolved (vd_approved x);
  ti_until t : vd_until x = Some t ->
    exists ev, ev ∈ evs /\ shows (vd_approved x) (vd_key x) v ev /\ t = de_now ev + grace (vd_approved x);
}.

Definition timed (evs : list DoorEvent) (g : ConnectionGate) : Prop :=
  forall v x, gt_verdicts g !! v = Some x -> timed_one evs v x.

Lemma timed_more evs ev v x : timed_one evs v x -> timed_one (evs ++ [ev]) v x.
Proof.
  intros [H1 H2 H3 H4 H5 H6]. split; [done..|]. intros t Ht. destruct (H6 t Ht) as (e & He & H). exists e.
  split; [|done]. apply elem_of_app. by left.
Qed.

Lemma timed_snoc evs ev g : timed evs g -> timed (evs ++ [ev]) g.
Proof. intros Hg v x Hx. by apply timed_more, Hg. Qed.

Lemma timed_on evs v f g :
  (forall x, gt_verdicts g !! v = Some x -> timed_one evs v x -> timed_one evs v (f x)) ->
  timed evs g -> timed evs (on_verdict v f g).
Proof.
  intros Hf Hg w y Hy. unfold on_verdict in Hy. simpl in Hy. destruct (decide (w = v)) as [->|Hne].
  - rewrite list_lookup_alter_eq in Hy. apply fmap_Some in Hy as (x & Hx & ->). by apply Hf, Hg.
  - rewrite list_lookup_alter_ne in Hy by done. by apply Hg.
Qed.

(** Seen at [ev]. *)
Lemma timed_seen evs ev v x l :
  ge_connected (de_env ev) = Some l -> vd_key x ∈ l -> vd_approved x = true ->
  timed_one (evs ++ [ev]) v x -> timed_one (evs ++ [ev]) v (with_until (de_now ev + ADMIT_GRACE_MS) x).
Proof.
  intros Hl Hin Ha [H1 H2 H3 H4 H5 H6]. assert (vd_heard x = true) as Hh by (destruct (vd_heard x); [done|by rewrite H4 in Ha]).
  split; simpl; [done|done| |done|done|].
  - split; [done|]. by rewrite Hh.
  - intros t [= <-]. exists ev. split; [apply elem_of_app; right; by left|]. rewrite Ha. split; [|done].
    right. split; [done|]. right. by exists l.
Qed.

Lemma timed_decide evs x g : timed_one evs (length (gt_verdicts g)) x -> timed evs g -> timed evs (decide_on x g).
Proof.
  intros Hx Hg v y [Hy|[Hv Hy]]%lookup_app_Some; [by apply Hg|].
  apply list_lookup_singleton_Some in Hy as [Hv0 <-]. by replace v with (length (gt_verdicts g)) by lia.
Qed.

Lemma timed_restamp evs ev l g dev :
  ge_connected (de_env ev) = Some l -> dev ∈ l ->
  (forall key v x, gt_decided g !! key = Some v -> gt_verdicts g !! v = Some x -> vd_key x = key) ->
  timed (evs ++ [ev]) g -> timed (evs ++ [ev]) (restamp (de_now ev) g dev).
Proof.
  intros Hl Hin Hk Hg. unfold restamp, decided. destruct (gt_decided g !! dev) as [v|] eqn:Hd; [|done]. simpl.
  destruct (gt_verdicts g !! v) as [x|] eqn:Hx; [|done]. simpl. destruct (vd_approved x) eqn:Ha; [|done].
  apply timed_on; [|done]. intros y Hy Ht. simplify_eq. eapply timed_seen; [done| |done|done]. by rewrite (Hk _ _ _ Hd Hx).
Qed.

Lemma restamp_keys now g dev :
  (forall key v x, gt_decided g !! key = Some v -> gt_verdicts g !! v = Some x -> vd_key x = key) ->
  forall key v x, gt_decided (restamp now g dev) !! key = Some v ->
    gt_verdicts (restamp now g dev) !! v = Some x -> vd_key x = key.
Proof.
  intros Hk key v x. unfold restamp. destruct (decided dev g) as [[w y]|]; [|apply Hk]. destruct (vd_approved y); [|apply Hk].
  simpl. intros Hd Hx. destruct (decide (v = w)) as [->|Hne].
  - rewrite list_lookup_alter_eq in Hx. apply fmap_Some in Hx as (z & Hz & ->). by apply (Hk _ _ _ Hd Hz).
  - rewrite list_lookup_alter_ne in Hx by done. by eapply Hk.
Qed.

Lemma timed_sweep evs ev g :
  (forall key v x, gt_decided g !! key = Some v -> gt_verdicts g !! v = Some x -> vd_key x = key) ->
  timed (evs ++ [ev]) g -> timed (evs ++ [ev]) (sampleSweep (de_env ev) g).
Proof.
  unfold sampleSweep. destruct (gt_sampling g); [|done]. destruct (ge_connected (de_env ev)) as [l|] eqn:Hl; [|done].
  assert (forall l', (forall dev, dev ∈ l' -> dev ∈ l) -> forall g,
    (forall key v x, gt_decided g !! key = Some v -> gt_verdicts g !! v = Some x -> vd_key x = key) ->
    timed (evs ++ [ev]) g -> timed (evs ++ [ev]) (foldl (restamp (de_now ev)) g l')) as H; [|by apply H].
  intros l'. induction l' as [|dev l' IH]; intros Hin g' Hk Hg; [done|]. simpl.
  apply IH; [intros d Hd; apply Hin; by right|by apply restamp_keys|].
  eapply timed_restamp; [done|apply Hin; by left|done|done].
Qed.

Lemma timed_settle evs q ok g : timed evs g -> timed evs (settle q (Resolved ok) g).
Proof.
  intros Hg v y Hy. unfold settle in Hy. simpl in Hy. rewrite list_lookup_fmap in Hy.
  apply fmap_Some in Hy as (x & Hx & ->). destruct (Hg _ _ Hx) as [H1 H2 H3 H4 H5 H6].
  case_decide as Hc; [|done]. destruct Hc as [_ Hst]. split; simpl; try done.
  intros Hh. rewrite H5 in Hst by done. done.
Qed.

Lemma timed_heard evs ev v g :
  de_op ev = Heard v -> timed (evs ++ [ev]) g -> timed (evs ++ [ev]) (heard v (de_now ev) g).
Proof.
  intros Hop Hg. unfold heard. destruct (gt_verdicts g !! v) as [x|] eqn:Hx; [|done].
  destruct (vd_heard x) eqn:Hh; [done|]. pose proof (Hg _ _ Hx) as Ht.
  destruct (vd_answer x) as [|ok|] eqn:Ha; [done| |by destruct (ti_standing _ _ _ Ht)].
  assert (timed (evs ++ [ev]) (on_verdict v (fun x => with_heard (with_until (de_now ev + grace ok) (with_approved ok x))) g)) as H.
  { apply timed_on; [|done]. intros y Hy [H1 H2 H3 H4 H5 H6]. simplify_eq. split; simpl; try done.
    intros t [= <-]. exists ev. split; [apply elem_of_app; right; by left|]. split; [by left|done]. }
  destruct (vd_device x); [|done]. by destruct ok.
Qed.

(** The record that answers a socket in silence: still waiting, or told or
    seen a moment ago. *)
Definition recent (evs : list DoorEvent) (now : Z) (v : nat) (x : Verdict) : Prop :=
  vd_heard x = false \/
  exists ok e, vd_answer x = Resolved ok /\ e ∈ evs /\ shows ok (vd_key x) v e /\ now < de_now e + grace ok.

Lemma timed_recent evs now v x : timed_one evs v x -> before now (vd_until x) = true -> recent evs now v x.
Proof.
  intros [H1 H2 H3 H4 H5 H6] Hb. destruct (vd_until x) as [t|] eqn:Hu; [right|left; by apply H3].
  destruct (H6 t eq_refl) as (e & He & Hs & ->). exists (vd_approved x), e. split_and!; [|done|done|by apply Z.ltb_lt].
  apply H5. destruct (vd_heard x); [done|]. by pose proof (proj2 H3 eq_refl).
Qed.

Lemma timed_covered evs ev key dev g g' w :
  (forall key v x, gt_decided g !! key = Some v -> gt_verdicts g !! v = Some x -> vd_key x = key) ->
  (forall d, dev = Some d -> key = d) ->
  timed (evs ++ [ev]) g -> ConnectionGate.covered key dev (de_env ev) g = Ok (g', w) ->
  timed (evs ++ [ev]) g' /\
  forall v, w = Some v -> exists x, gt_verdicts g' !! v = Some x /\ vd_key x = key /\ recent (evs ++ [ev]) (de_now ev) v x.
Proof.
  intros Hk Hd Hg. unfold ConnectionGate.covered, decided. destruct (gt_decided g !! key) as [v|] eqn:Hdec; simpl; [|by intros [= <- <-]].
  destruct (gt_verdicts g !! v) as [x|] eqn:Hx; simpl; [|by intros [= <- <-]]. pose proof (Hk _ _ _ Hdec Hx) as Hkey.
  destruct (present dev (de_env ev)) as [live|] eqn:Hp; [|done]. destruct (vd_approved x && live) eqn:Hl.
  - apply andb_true_iff in Hl as [Ha ->]. unfold present in Hp. destruct dev as [d|]; [|done].
    apply fmap_Some in Hp as (l & Hl & Hin). symmetry in Hin. apply bool_decide_eq_true in Hin.
    intros [= <- <-]. assert (timed_one (evs ++ [ev]) v (with_until (de_now ev + ADMIT_GRACE_MS) x)) as Ht.
    { eapply timed_seen; [done| |done|by apply Hg]. by rewrite Hkey, (Hd d). }
    split; [apply timed_on; [|done]; intros y Hy _; by simplify_eq|]. intros ? [= <-]. eexists. unfold on_verdict. simpl.
    rewrite list_lookup_alter_eq, Hx. split; [done|]. split; [done|]. apply timed_recent; [exact Ht|].
    simpl. apply Z.ltb_lt. unfold de_now, ADMIT_GRACE_MS. lia.
  - destruct (before (ge_now (de_env ev)) (vd_until x)) eqn:Hb; intros [= <- <-].
    + split; [done|]. intros ? [= <-]. exists x. split_and!; [done..|]. apply timed_recent; [by apply Hg|done].
    + split; [|done]. intros u y Hy. by apply Hg.
Qed.

Lemma timed_admit evs ev q req g :
  (forall key v x, gt_decided g !! key = Some v -> gt_verdicts g !! v = Some x -> vd_key x = key) ->
  timed (evs ++ [ev]) g ->
  timed (evs ++ [ev]) (admit_socket q req (de_env ev) g).1.1 /\
  forall v, (admit_socket q req (de_env ev) g).1.2 = Awaits v -> (admit_socket q req (de_env ev) g).2 = false ->
    exists x, gt_verdicts (admit_socket q req (de_env ev) g).1.1 !! v = Some x /\ vd_key x = keyFor req /\
      recent (evs ++ [ev]) (de_now ev) v x.
Proof.
  intros Hk Hg. assert (forall d, rq_deviceId req = Some d -> keyFor req = d) as Hd by (unfold keyFor; by intros d ->).
  unfold admit_socket. destruct (ConnectionGate.covered _ _ _ g) as [[g' [v|]]|] eqn:Hc; simpl; [| |done].
  - destruct (timed_covered _ _ _ _ _ _ _ Hk Hd Hg Hc) as [Hg' Hv]. split; [done|]. intros v' [= <-] _. by apply Hv.
  - destruct (timed_covered _ _ _ _ _ _ _ Hk Hd Hg Hc) as [Hg' _]. destruct (own_token_here req); [done|].
    destruct (recognised req (de_env ev) g' && negb (ge_asks (de_env ev))); [done|]. simpl. split; [|done].
    apply timed_decide; [|done]. by split; simpl; try done; intros d [= <-]; apply Hd.
Qed.

Lemma gate_keys evs g : gate_ok evs g ->
  forall key v x, gt_decided g !! key = Some v -> gt_verdicts g !! v = Some x -> vd_key x = key.
Proof. intros Hg key v x Hd Hx. destruct (go_decided _ _ Hg _ _ Hd) as (y & Hy & <- & _). congruence. Qed.

Lemma run_timed evs : timed evs (dr_gate (run evs)).
Proof.
  induction evs as [|ev evs IH] using rev_ind; [by intros v x Hx|].
  pose proof (gate_keys _ _ (so_gate _ _ (run_sound evs))) as Hk. apply (timed_snoc _ ev) in IH.
  rewrite door_run_app. change (door_run [ev] (run evs)) with (door_step ev (run evs)).1.
  unfold door_step. destruct (de_op ev) as [q req|q req|op|q|v|q dev|dev| |] eqn:Hop; cbn [fst]; try exact IH.
  - unfold connect. destruct (unused q (run evs)); [|exact IH].
    destruct (timed_admit evs ev q req (dr_gate (run evs)) Hk IH) as [Ht _].
    destruct (admit_socket q req (de_env ev) (dr_gate (run evs))) as [[g a] asks]. by destruct asks.
  - by destruct (unused q (run evs)).
  - by destruct op.
  - unfold answered. destruct (result q (dr_machine (run evs))); [by apply timed_settle|done].
  - by apply timed_heard.
  - unfold paired. case_decide; [|done]. apply timed_decide; [|exact IH]. split; simpl; try done; [by intros d [= <-]|].
    intros t [= <-]. exists ev. split; [apply elem_of_app; right; by left|]. split; [|done].
    right. split; [done|]. left. by exists q.
  - by apply timed_sweep.
Qed.

(** C26: a socket passes in silence only on a recent answer.  When the gate
    answers a socket from what it already decided, the question about that
    device still stands; or it was refused within the last fifteen seconds, and
    so is the socket; or within the last two minutes it was let in, or paired,
    or the device was on the relay's list of connected devices. *)
Theorem quiet_only_if_recent evs ev q req v :
  de_op ev = Connect q req -> (door_step ev (run evs)).2 = Some (Awaits v) ->
  (admit_socket q req (de_env ev) (dr_gate (run evs))).2 = false ->
  exists x, gt_verdicts (dr_gate (run (evs ++ [ev]))) !! v = Some x /\ vd_key x = keyFor req /\
    recent (evs ++ [ev]) (de_now ev) v x.
Proof.
  intros Hop Hout Hq. pose proof (gate_keys _ _ (so_gate _ _ (run_sound evs))) as Hk.
  destruct (timed_admit evs ev q req _ Hk (timed_snoc _ ev _ (run_timed evs))) as [_ Hv].
  rewrite door_run_app. change (door_run [ev] (run evs)) with (door_step ev (run evs)).1.
  unfold door_step in *. rewrite Hop in *. unfold connect in *. destruct (unused q (run evs)); [|done].
  destruct (admit_socket q req (de_env ev) (dr_gate (run evs))) as [[g a] asks]. simpl in *. injection Hout as ->.
  destruct asks; [done|]. by apply Hv.
Qed.
End Door.

(** ** Runs *)

Module GateDemo.

Definition phone_socket : ConnectionRequest := mkRequest (Some "t1") (Some "phone") (Some "iPhone") tunnel.
Definition laptop_socket : ConnectionRequest := mkRequest (Some "t2") (Some "laptop") (Some "Laptop") tunnel.
Definition token_on_lan : ConnectionRequest := mkRequest None None None lan.
Definition token_from_afar : ConnectionRequest := mkRequest None None None tunnel.

(** A machine that asks, and that has the phone and the laptop on its list. *)
Definition env_at (now : Z) (online : list string) : GateEnv :=
  mkEnv now (Some online) true (fun d => bool_decide (d ∈ ["phone"; "laptop"])) (fun _ => None).
Definition at_ (now : Z) (online : list string) (op : DoorOp) : DoorEvent :=
  mkDoorEvent (env_at now online) empty_registry op.

Abbreviation step := (door_step "secret" false true true).
Abbreviation run evs := (door_run "secret" false true true evs door_initial).

(** The promises of a question, until its answer is there. *)
Definition settled (now : Z) (q : nat) : list DoorEvent :=
  map (fun op => at_ now [] (OnMachine op))
    [LocalContinues q; PromptReturns q; LocalContinues q; HearApp q; HearLocal q; Conclude q].

(** The phone comes, is asked about on the terminal, and is let in. *)
Definition phone_comes : DoorEvent := at_ 0 [] (Connect 0 phone_socket).
Definition says_y : list DoorEvent :=
  settled 0 0 ++ [at_ 5 [] (OnMachine (Line (js "y")))] ++ settled 5 0 ++ [at_ 5 [] (Answered 0); at_ 5 [] (Heard 0)].

Lemma let_in_by_a_yes_witness :
  (step phone_comes door_initial).2 = Some (Awaits 0) /\
  exists q', in_charge "secret" false true true [phone_comes] "phone" q' /\
    yes_in "secret" false true true (phone_comes :: says_y) q'.
Proof.
  split; [vm_compute; reflexivity|].
  destruct (let_in_by_a_yes "secret" false true true [] phone_comes says_y 0 phone_socket (Awaits 0))
    as [H|[(dev & _ & H & _)|H]]; [reflexivity|vm_compute; reflexivity| |discriminate H|discriminate H|exact H].
  assert (vd_answer <$> (gt_verdicts (dr_gate (run (phone_comes :: says_y))) !! 0%nat) = Some (Resolved true)) as Hx
    by (vm_compute; reflexivity).
  apply fmap_Some in Hx as (x & Hx & Ha). exists x. split; [exact Hx|]. symmetry. exact Ha.
Defined.

(** A minute after it went away it is still covered. *)
Definition phone_back : DoorEvent := at_ 65000 [] (Connect 1 phone_socket).

Lemma quiet_only_if_recent_witness :
  (step phone_back (run (phone_comes :: says_y))).2 = Some (Awaits 0) /\
  exists x, gt_verdicts (dr_gate (run ((phone_comes :: says_y) ++ [phone_back]))) !! 0%nat = Some x /\
    vd_key x = "phone" /\ recent ((phone_comes :: says_y) ++ [phone_back]) 65000 0 x.
Proof.
  assert ((step phone_back (run (phone_comes :: says_y))).2 = Some (Awaits 0)) as H by (vm_compute; reflexivity).
  split; [exact H|].
  apply (quiet_only_if_recent "secret" false true true (phone_comes :: says_y) phone_back 1 phone_socket 0);
    [reflexivity|exact H|vm_compute; reflexivity].
Defined.

(** Five minutes after, it is asked about again; unless it was seen. *)
Lemma asked_again_when_gone :
  (admit_socket 1 phone_socket (env_at 305000 []) (dr_gate (run (phone_comes :: says_y)))).2 = true /\
  (admit_socket 1 phone_socket (env_at 305000 [])
     (dr_gate (run (phone_comes :: says_y ++ [at_ 300000 ["phone"] Sweep])))).2 = false.
Proof. vm_compute. split; reflexivity. Qed.

(** A browser with the machine's own token is let in from the network; one with
    a copy of it, from anywhere, then passes on that answer. *)
Definition token_let_in : list DoorEvent := at_ 0 [] (Connect 0 token_on_lan) :: says_y.

Lemma token_answer_is_shared :
  let d := run token_let_in in
  (step (at_ 60000 [] (Connect 1 token_from_afar)) d).2 = Some (Awaits 0) /\
  vd_answer <$> (gt_verdicts (dr_gate d) !! 0%nat) = Some (Resolved true).
Proof. vm_compute. split; reflexivity. Qed.

(** Two devices come back while the panel is up: the question of the first is
    taken off the screen and never answered, and an hour later its sockets
    still wait for it. *)
Definition two_come_back : list DoorEvent :=
  [at_ 0 [] (OnMachine PanelStart); phone_comes; at_ 1 [] (Connect 1 laptop_socket)]
  ++ settled 1 0 ++ settled 1 1 ++ [at_ 2 [] (OnMachine (Key "y"))] ++ settled 2 1
  ++ map (at_ 3600000 []) [OnMachine Tick; OnMachine (Key "y"); OnMachine OfferTimer] ++ settled 3600000 0
  ++ [at_ 3600000 [] (Answered 0); at_ 3600000 [] (Heard 0)].

Lemma unanswered_is_locked_out :
  let d := run two_come_back in
  (step (at_ 3600001 [] (Connect 2 phone_socket)) d).2 = Some (Awaits 0) /\
  vd_answer <$> (gt_verdicts (dr_gate d) !! 0%nat) = Some Standing.
Proof. vm_compute. split; reflexivity. Qed.

(** When the list of connections cannot be read, the sampler leaves the doors
    open, and a device that is covered is turned away. *)
Lemma unreadable_list_turns_away :
  let g := dr_gate (run (phone_comes :: says_y)) in
  let env := mkEnv 6000 None true (fun _ => true) (fun _ => None) in
  sampleSweep env g = g /\ (admit_socket 1 phone_socket env g).1.2 = Threw.
Proof. vm_compute. split; reflexivity. Qed.
End GateDemo.
