(* ===== verification/DevicePanel.v ===== *)
(** * DevicePanel: the live panel of [mtmux start]

    [apps/cli/src/device-panel-control.ts], the closure of
    [createDevicePanel], and of [device-panel.ts] what it decides by:
    [buildRows], [displayName], [clamp] and [selected].  The panel reads the
    connected devices, the paired ones, the clock and the settings anew each
    time ([PanelEnv]); [rows()] builds new row objects at each call, known by
    number, since one of them is looked up by identity.  A handler that awaits
    is cut there: what it waits for is in [dp_calls], and [Returned] resumes
    it.  How a state is drawn is left out. *)

From stdpp Require Import pretty.
From S2P Require Import Prelude AccountsHttp Consent.

Record ConnectedDevice := mkDevice {
  cd_id : option string;
  cd_deviceId : option string;
  cd_label : jstr;
}.

Record PanelPeer := mkPeer {
  pp_deviceId : string;
  pp_label : jstr;
  pp_name : option jstr;
  pp_lastSeenAt : Z;
}.

Record PanelRow := mkRow {
  row_object : nat;
  row_key : string;
  row_name : jstr;
  row_deviceId : option string;
  row_live : option ConnectedDevice;
  row_peer : option PanelPeer;
}.

(** ** The rows *)

Definition displayName (peer : PanelPeer) : jstr :=
  match sanitizeLabel (default [] (pp_name peer)) MAX_LABEL_LENGTH with
  | [] => sanitizeLabel (pp_label peer) MAX_LABEL_LENGTH
  | name => name
  end.

(** [byId]: of two records of one device the later is kept. *)
Definition byId (peers : list PanelPeer) (d : string) : option PanelPeer :=
  last (filter (fun p => pp_deviceId p = d) peers).

(** What [unique] returns, and [taken] after it. *)
Definition unique (base : string) (socketId : option string) (taken : gset string) : string * gset string :=
  if decide (base ∈ taken) then
    let key := (base ++ "#" ++ default (pretty (size taken)) socketId)%string in (key, {[key]} ∪ taken)
  else (base, {[base]} ∪ taken).

(** The rows so far, with [seen] and [taken]. *)
Record Building := mkBuilding {
  bd_rows : list PanelRow;
  bd_seen : gset string;
  bd_taken : gset string;
}.

Definition push_live (peers : list PanelPeer) (first : nat) (b : Building) (live : ConnectedDevice) : Building :=
  let peer := truthy (cd_deviceId live) ≫= byId peers in
  let base := default (default ("socket-" ++ pretty (length (bd_rows b)))%string (cd_id live)) (cd_deviceId live) in
  let '(key, taken) := unique base (cd_id live) (bd_taken b) in
  mkBuilding
    (bd_rows b ++ [mkRow (first + length (bd_rows b)) key
                     (match peer with Some p => displayName p | None => sanitizeLabel (cd_label live) MAX_LABEL_LENGTH end)
                     (cd_deviceId live) (Some live) peer])
    (match peer with Some p => {[pp_deviceId p]} ∪ bd_seen b | None => bd_seen b end)
    taken.

Definition push_offline (first : nat) (b : Building) (peer : PanelPeer) : Building :=
  let '(key, taken) := unique (pp_deviceId peer) None (bd_taken b) in
  mkBuilding
    (bd_rows b ++ [mkRow (first + length (bd_rows b)) key (displayName peer) (Some (pp_deviceId peer)) None (Some peer)])
    (bd_seen b) taken.

Definition last_seen_first (a b : PanelPeer) : Z := pp_lastSeenAt b - pp_lastSeenAt a.

(** [buildRows], its objects numbered from [first]. *)
Definition buildRows (first : nat) (devices : list ConnectedDevice) (peers : list PanelPeer) : list PanelRow :=
  let b := foldl (push_live peers first) (mkBuilding [] ∅ ∅) devices in
  let offline := sort_cmp last_seen_first (filter (fun p => pp_deviceId p ∉ bd_seen b) peers) in
  bd_rows (foldl (push_offline first) b offline).

Definition clamp (cursor length : Z) : Z :=
  if decide (length = 0) then 0 else Z.min (Z.max 0 cursor) (length - 1).

Definition selected (cursor : Z) (rows : list PanelRow) : option PanelRow :=
  rows !! Z.to_nat (clamp cursor (Z.of_nat (length rows))).

(** [rows.indexOf(row)]: by identity. *)
Definition indexOf (row : PanelRow) (rows : list PanelRow) : Z :=
  match list_find (fun r => row_object r = row_object row) rows with
  | Some (i, _) => Z.of_nat i
  | None => -1
  end.

(** ** The state *)

Inductive ConfirmAction := RemoveDevice | DisconnectSocket | RemoveEverything.

Record Target := mkTarget {
  tg_action : ConfirmAction;
  tg_deviceId : option string;
  tg_connectionId : option string;
  tg_label : jstr;
  tg_count : Z;
}.

Inductive PanelMode :=
| ListMode
| HelpMode
| DetailsMode (key : string)
| ConfirmMode (target : Target)
| RenameMode (deviceId : string) (label draft : jstr)
| ApprovalMode (q : nat) (expiresAt : Z).

Inductive Flash :=
| ArmingCode | OpeningTunnel | TunnelFailed (why : jstr)
| AsksOnReturn (ask : bool)
| NothingRenamed | RenamedTo (name : jstr) | NameCleared
| RemovedMany (n : Z) | NothingToRemove
| HungUp (label : jstr) | AlreadyGone (label : jstr)
| RemovedOne (label : jstr) | CouldNotRemove (label : jstr).

(** What a handler awaits, with what it goes on to say. *)
Inductive Call :=
| CallRemoveAll
| CallDisconnect (label : jstr)
| CallRevoke (label : jstr)
| CallRename (name : jstr)
| CallSetAsk (next : bool)
| CallOpenTunnel.

(** [dp_flashing]: the flash timer is armed; [dp_ticking]: the interval runs;
    [dp_objects]: row objects made so far. *)
Record DevicePanel := mkDP {
  dp_cursor : Z;
  dp_mode : PanelMode;
  dp_flash : option Flash;
  dp_flashing : bool;
  dp_opening : bool;
  dp_ticking : bool;
  dp_stopped : bool;
  dp_answering : option nat;
  dp_calls : list (nat * Call);
  dp_nextCall : nat;
  dp_objects : nat;
}.

Definition set_cursor c p := mkDP c (dp_mode p) (dp_flash p) (dp_flashing p) (dp_opening p) (dp_ticking p) (dp_stopped p) (dp_answering p) (dp_calls p) (dp_nextCall p) (dp_objects p).
Definition set_mode m p := mkDP (dp_cursor p) m (dp_flash p) (dp_flashing p) (dp_opening p) (dp_ticking p) (dp_stopped p) (dp_answering p) (dp_calls p) (dp_nextCall p) (dp_objects p).
Definition set_flash f b p := mkDP (dp_cursor p) (dp_mode p) f b (dp_opening p) (dp_ticking p) (dp_stopped p) (dp_answering p) (dp_calls p) (dp_nextCall p) (dp_objects p).
Definition set_opening b p := mkDP (dp_cursor p) (dp_mode p) (dp_flash p) (dp_flashing p) b (dp_ticking p) (dp_stopped p) (dp_answering p) (dp_calls p) (dp_nextCall p) (dp_objects p).
Definition set_ticking b p := mkDP (dp_cursor p) (dp_mode p) (dp_flash p) (dp_flashing p) (dp_opening p) b (dp_stopped p) (dp_answering p) (dp_calls p) (dp_nextCall p) (dp_objects p).
Definition set_stopped p := mkDP (dp_cursor p) (dp_mode p) (dp_flash p) false (dp_opening p) false true None (dp_calls p) (dp_nextCall p) (dp_objects p).
Definition set_answering q p := mkDP (dp_cursor p) (dp_mode p) (dp_flash p) (dp_flashing p) (dp_opening p) (dp_ticking p) (dp_stopped p) q (dp_calls p) (dp_nextCall p) (dp_objects p).
Definition set_calls l n p := mkDP (dp_cursor p) (dp_mode p) (dp_flash p) (dp_flashing p) (dp_opening p) (dp_ticking p) (dp_stopped p) (dp_answering p) l n (dp_objects p).
Definition set_objects n p := mkDP (dp_cursor p) (dp_mode p) (dp_flash p) (dp_flashing p) (dp_opening p) (dp_ticking p) (dp_stopped p) (dp_answering p) (dp_calls p) (dp_nextCall p) n.

Record PanelEnv := mkPanelEnv {
  pe_now : Z;
  pe_details : list ConnectedDevice;
  pe_peers : list PanelPeer;
  pe_hosted : bool;
  pe_askOnReconnect : bool;
}.

(** What the panel calls, and the question it answers. *)
Inductive PanelOut :=
| Revoke (deviceId : string)
| Disconnect (connectionId : string)
| RemoveAll
| Rename (deviceId : string) (name : option jstr)
| SetAsk (value : bool)
| Rearm
| Reprint
| OpenTunnel
| Quit
| Settled (q : nat) (answer : AccessPromptResult).

Abbreviation Panelled := (DevicePanel * list PanelOut)%type.

(** Which of the optional functions the panel was given. *)
Record PanelDeps := mkPanelDeps {
  can_revoke : bool;
  can_disconnect : bool;
  can_removeAll : bool;
  can_rename : bool;
  can_setAsk : bool;
  can_rearm : bool;
  can_openTunnel : bool;
}.

(** ** Painting *)

Definition retime (env : PanelEnv) (p : DevicePanel) : DevicePanel :=
  set_ticking
    (match dp_mode p with
     | ApprovalMode _ _ | DetailsMode _ => true
     | ListMode => negb (bool_decide (pe_details env = []))
     | _ => false
     end) p.

Definition paint (env : PanelEnv) (p : DevicePanel) : DevicePanel :=
  if dp_stopped p then p else retime env p.

Definition setFlash (f : Flash) (env : PanelEnv) (p : DevicePanel) : DevicePanel :=
  paint env (set_flash (Some f) true p).

Definition clearFlash (env : PanelEnv) (p : DevicePanel) : DevicePanel :=
  paint env (set_flash None false p).

(** [rows()]. *)
Definition rows (env : PanelEnv) (p : DevicePanel) : list PanelRow * DevicePanel :=
  let l := buildRows (dp_objects p) (pe_details env) (pe_peers env) in
  (l, set_objects (dp_objects p + length l) p).

(** [selected(state())]. *)
Definition select (env : PanelEnv) (p : DevicePanel) : option PanelRow * DevicePanel :=
  let '(l, p) := rows env p in (selected (dp_cursor p) l, p).

Definition call (c : Call) (out : PanelOut) (p : DevicePanel) : Panelled :=
  (set_calls (dp_calls p ++ [(dp_nextCall p, c)]) (S (dp_nextCall p)) p, [out]).

(** ** Questions *)

Definition answer (r : AccessPromptResult) (env : PanelEnv) (p : DevicePanel) : Panelled :=
  (paint env (set_mode ListMode (set_answering None p)),
   match dp_answering p with Some q => [Settled q r] | None => [] end).

Definition aborted (q : nat) (env : PanelEnv) (p : DevicePanel) : Panelled :=
  if decide (dp_answering p = Some q) then answer (Denied no_tty) env p else (p, []).

Definition promptForAccess (q : nat) (already : bool) (env : PanelEnv) (p : DevicePanel) : Panelled :=
  if dp_stopped p then (p, [Settled q (Denied no_tty)])
  else
    let p := set_mode (ApprovalMode q (pe_now env + APPROVAL_WINDOW_MS)) (set_answering (Some q) p) in
    let '(p, out) := if already then aborted q env p else (p, []) in
    (paint env p, out).

(** The interval, once a second. *)
Definition tick (env : PanelEnv) (p : DevicePanel) : Panelled :=
  if dp_ticking p then
    match dp_mode p with
    | ApprovalMode _ expiresAt => if expiresAt <=? pe_now env then answer (Denied timed_out) env p else (p, [])
    | _ => (p, [])
    end
  else (p, []).

Definition stop (p : DevicePanel) : Panelled :=
  if dp_stopped p then (p, [])
  else (set_stopped p, match dp_answering p with Some q => [Settled q (Denied no_tty)] | None => [] end).

(** ** What the keys do *)

(** A key is a code point or an escape sequence; letters without case are
    those the panel binds. *)
Definition toLowerCase (key : jstr) : jstr :=
  map (fun c => if (65 <=? c) && (c <=? 90) then c + 32 else c) key.

Definition KEY_up : jstr := [27; 91; 65].
Definition KEY_down : jstr := [27; 91; 66].
Definition KEY_enter : jstr := [13].
Definition KEY_escape : jstr := [27].
Definition is_backspace (key : jstr) : bool := bool_decide (key = [127] \/ key = [8]).
Definition has_control (key : jstr) : bool := existsb (fun c => (0 <=? c) && (c <=? 31)) key.

(** [[...draft]]: by code point, a pair of surrogates being one. *)
Definition high_surrogate (c : Z) : bool := (55296 <=? c) && (c <? 56320).
Definition low_surrogate (c : Z) : bool := (56320 <=? c) && (c <? 57344).

Fixpoint code_points (s : jstr) : list jstr :=
  match s with
  | [] => []
  | c :: rest =>
      match rest with
      | d :: rest' => if high_surrogate c && low_surrogate d then [c; d] :: code_points rest' else [c] :: code_points rest
      | [] => [[c]]
      end
  end.

Definition MAX_NAME_INPUT : Z := 32.

Section Deps.
Context (deps : PanelDeps).

Definition askRemove (env : PanelEnv) (p : DevicePanel) : DevicePanel :=
  let '(row, p) := select env p in
  match row with
  | None => p
  | Some row =>
      let live_id := row_live row ≫= cd_id in
      match (if can_revoke deps then truthy (row_deviceId row) else None),
            (if can_disconnect deps then truthy live_id else None) with
      | Some d, _ => paint env (set_mode (ConfirmMode (mkTarget RemoveDevice (Some d) live_id (row_name row) 0)) p)
      | None, Some i => paint env (set_mode (ConfirmMode (mkTarget DisconnectSocket None (Some i) (row_name row) 0)) p)
      | None, None => p
      end
  end.

Definition askRemoveAll (env : PanelEnv) (p : DevicePanel) : DevicePanel :=
  if can_removeAll deps then
    let '(l, p) := rows env p in
    if decide (l = []) then p
    else paint env (set_mode (ConfirmMode (mkTarget RemoveEverything None None [] (Z.of_nat (length l)))) p)
  else p.

(** [doRemove] up to its await. *)
Definition doRemove (t : Target) (env : PanelEnv) (p : DevicePanel) : Panelled :=
  let p := set_mode ListMode p in
  match tg_action t with
  | RemoveEverything =>
      if can_removeAll deps then call CallRemoveAll RemoveAll p
      else (setFlash NothingToRemove env (set_cursor 0 p), [])
  | DisconnectSocket =>
      match truthy (tg_connectionId t) with
      | Some c => if can_disconnect deps then call (CallDisconnect (tg_label t)) (Disconnect c) p
                  else (setFlash (AlreadyGone (tg_label t)) env p, [])
      | None => (setFlash (AlreadyGone (tg_label t)) env p, [])
      end
  | RemoveDevice =>
      match truthy (tg_deviceId t) with
      | Some d => if can_revoke deps then call (CallRevoke (tg_label t)) (Revoke d) p
                  else (setFlash (CouldNotRemove (tg_label t)) env p, [])
      | None => (setFlash (CouldNotRemove (tg_label t)) env p, [])
      end
  end.

Definition openRename (env : PanelEnv) (p : DevicePanel) : DevicePanel :=
  let '(row, p) := select env p in
  match row with
  | Some row =>
      match truthy (row_deviceId row) with
      | Some d => if can_rename deps then paint env (set_mode (RenameMode d (row_name row) []) p) else p
      | None => p
      end
  | None => p
  end.

Definition openDetails (env : PanelEnv) (p : DevicePanel) : DevicePanel :=
  let '(row, p) := select env p in
  match row with
  | Some row => paint env (set_mode (DetailsMode (row_key row)) p)
  | None => p
  end.

Definition toggleAsk (env : PanelEnv) (p : DevicePanel) : Panelled :=
  if can_setAsk deps then
    let next := negb (pe_askOnReconnect env) in call (CallSetAsk next) (SetAsk next) p
  else (p, []).

Definition doOpenTunnel (env : PanelEnv) (p : DevicePanel) : Panelled :=
  if pe_hosted env || negb (can_openTunnel deps) || dp_opening p then (p, [])
  else call CallOpenTunnel OpenTunnel (setFlash OpeningTunnel env (set_opening true p)).

Definition onRenameKey (key : jstr) (d : string) (label draft : jstr) (env : PanelEnv) (p : DevicePanel) : Panelled :=
  if decide (key = KEY_escape) then (paint env (set_mode ListMode p), [])
  else if decide (key = KEY_enter) then
    let name := trim draft in
    let p := set_mode ListMode p in
    if can_rename deps then
      call (CallRename name) (Rename d (if decide (name = []) then None else Some name)) p
    else (setFlash NothingRenamed env p, [])
  else if is_backspace key then
    let points := code_points draft in
    (paint env (set_mode (RenameMode d label (concat (take (length points - 1) points))) p), [])
  else if has_control key then (p, [])
  else if MAX_NAME_INPUT <=? Z.of_nat (length (code_points draft)) then (p, [])
  else (paint env (set_mode (RenameMode d label (draft ++ key)) p), []).

(** The keys of the list. *)
Definition onListKey (raw : jstr) (env : PanelEnv) (p : DevicePanel) : Panelled :=
  let '(l, p) := rows env p in
  let n := Z.of_nat (length l) in
  let key := toLowerCase raw in
  if decide (raw = KEY_up) then (paint env (set_cursor (clamp (dp_cursor p - 1) n) p), [])
  else if decide (raw = KEY_down) then (paint env (set_cursor (clamp (dp_cursor p + 1) n) p), [])
  else if decide (key = js "?" \/ key = js "h") then (paint env (set_mode HelpMode p), [])
  else if decide (key = js "q") then let '(p, out) := stop p in (p, out ++ [Quit])
  else if decide (key = js "l") then (paint env p, [Reprint])
  else if decide (key = js "n") then
    if negb (pe_hosted env) || negb (can_rearm deps) then (p, []) else (setFlash ArmingCode env p, [Rearm])
  else if decide (key = js "a") then toggleAsk env p
  else if decide (key = js "t") then doOpenTunnel env p
  else if decide (key = js "d" \/ key = KEY_enter) then (openDetails env p, [])
  else if decide (key = js "e") then (openRename env p, [])
  else if decide (key = js "r" \/ key = js "c") then (askRemove env p, [])
  else if decide (key = js "x") then (askRemoveAll env p, [])
  else (p, []).

(** The keys of a card: [rows()] is called twice. *)
Definition onDetailsKey (raw : jstr) (describing : string) (env : PanelEnv) (p : DevicePanel) : Panelled :=
  let '(l, p) := rows env p in
  let target := snd <$> list_find (fun r => row_key r = describing) l in
  let p := set_mode ListMode p in
  let p := match target with
           | Some row => let '(l, p) := rows env p in set_cursor (indexOf row l) p
           | None => p
           end in
  let key := toLowerCase raw in
  if decide (key = js "r" \/ key = js "c") then (askRemove env p, [])
  else if decide (key = js "e" /\ is_Some (truthy (target ≫= row_deviceId))) then (openRename env p, [])
  else (paint env p, []).

Definition onKey (raw : jstr) (env : PanelEnv) (p : DevicePanel) : Panelled :=
  let key := toLowerCase raw in
  if dp_stopped p then (p, [])
  else match dp_mode p with
  | ApprovalMode _ _ =>
      if decide (key = js "y") then answer Approved env p
      else if decide (key = js "n") then answer (Denied refused) env p
      else (p, [])
  | HelpMode => (paint env (set_mode ListMode p), [])
  | RenameMode d label draft => onRenameKey raw d label draft env p
  | DetailsMode describing => onDetailsKey raw describing env p
  | ConfirmMode t =>
      if decide (key = js "y") then doRemove t env p
      else if decide (key = js "n" \/ raw = KEY_escape) then (paint env (set_mode ListMode p), [])
      else (p, [])
  | ListMode => onListKey raw env p
  end.

(** ** A call comes back *)

Inductive Outcome := Gave (ok : bool) | Removed (n : Z) | Tunnel (failure : option jstr).

Definition resumed (c : Call) (o : Outcome) (env : PanelEnv) (p : DevicePanel) : DevicePanel :=
  match c, o with
  | CallRemoveAll, Removed n =>
      setFlash (if 0 <? n then RemovedMany n else NothingToRemove) env (set_cursor 0 p)
  | CallDisconnect label, Gave ok => setFlash (if ok then HungUp label else AlreadyGone label) env p
  | CallRevoke label, Gave ok => setFlash (if ok then RemovedOne label else CouldNotRemove label) env p
  | CallRename name, Gave ok =>
      setFlash (if negb ok then NothingRenamed else if decide (name = []) then NameCleared else RenamedTo name) env p
  | CallSetAsk next, _ => setFlash (AsksOnReturn next) env p
  | CallOpenTunnel, Tunnel failure =>
      let p := set_opening false p in
      match failure with
      | Some ((_ :: _) as why) => setFlash (TunnelFailed why) env p
      | _ => clearFlash env p
      end
  | _, _ => p
  end.

Definition returned (n : nat) (o : Outcome) (env : PanelEnv) (p : DevicePanel) : DevicePanel :=
  match list_find (fun c => c.1 = n) (dp_calls p) with
  | Some (_, (_, c)) =>
      resumed c o env (set_calls (filter (fun c => c.1 <> n) (dp_calls p)) (dp_nextCall p) p)
  | None => p
  end.

Inductive PanelOp :=
| KeyPressed (key : jstr)
| Interrupt
| IntervalFires
| FlashOver
| ListChanged
| Asked (q : nat) (already : bool)
| AskAborted (q : nat)
| CallReturned (n : nat) (o : Outcome)
| Stopped.

Record PanelEvent := mkPanelEvent { pv_env : PanelEnv; pv_op : PanelOp }.

Definition panel_step (ev : PanelEvent) (p : DevicePanel) : Panelled :=
  let env := pv_env ev in
  match pv_op ev with
  | KeyPressed key => onKey key env p
  | Interrupt => if dp_stopped p then (p, []) else let '(p, out) := stop p in (p, out ++ [Quit])
  | IntervalFires => tick env p
  | FlashOver => (if dp_flashing p then clearFlash env p else p, [])
  | ListChanged => (paint env p, [])
  | Asked q already => promptForAccess q already env p
  | AskAborted q => aborted q env p
  | CallReturned n o => (returned n o env p, [])
  | Stopped => stop p
  end.

(** [createDevicePanel], which ends by painting. *)
Definition panel_created (env : PanelEnv) : DevicePanel :=
  paint env (mkDP 0 ListMode None false false false false None [] 0 0).

Definition panel_run (evs : list PanelEvent) (p : DevicePanel) : DevicePanel :=
  foldl (fun p ev => (panel_step ev p).1) p evs.
End Deps.
