(* ===== verification/PanelSafety.v ===== *)
(** * PanelSafety: what the live panel answers, and what it removes

    The panel is the prompt that Consent takes it for ([panel_is_the_prompt]),
    and it removes, hangs up on or renames only what its screen names
    ([removes_what_it_names]); runs show when the row it names is not the one
    that was meant, and when a key was meant for another screen. *)

From stdpp Require Import pretty.
From S2P Require Import Prelude AccountsHttp Connections Approval ApproveControl Consent DevicePanel.

(** ** The panel as Consent sees it *)

Definition question_shown (mode : PanelMode) : option (nat * Z) :=
  match mode with ApprovalMode q t => Some (q, t) | _ => None end.

Definition seen_by_consent (p : DevicePanel) : Panel :=
  mkPanel (question_shown (dp_mode p)) (dp_answering p) (dp_stopped p).

(** The promises the outputs settle. *)
Definition settles (out : list PanelOut) (m : Machine) : Machine :=
  foldl (fun m o => match o with Settled q r => settle_prompt q r m | _ => m end) m out.

Definition shows_on (p : DevicePanel) (m : Machine) : Machine := set_panel (Some (seen_by_consent p)) m.

(** Consent names the keys it binds. *)
Definition key_name (key : jstr) : string :=
  if decide (key = js "y") then "y" else if decide (key = js "Y") then "Y"
  else if decide (key = js "n") then "n" else if decide (key = js "N") then "N" else "".

Definition quits (key : jstr) (p : DevicePanel) : bool :=
  match dp_mode p with ListMode => bool_decide (toLowerCase key = js "q") | _ => false end.

(** What an event is to Consent. *)
Definition for_consent (ev : PanelEvent) (p : DevicePanel) (m : Machine) : Machine :=
  match pv_op ev with
  | KeyPressed key => if quits key p then panel_stop m else panel_key (key_name key) m
  | Interrupt | Stopped => panel_stop m
  | IntervalFires => panel_tick (pe_now (pv_env ev)) m
  | Asked q already => panel_prompt q already (pe_now (pv_env ev)) (seen_by_consent p) m
  | AskAborted q => panel_aborted q m
  | _ => m
  end.

(** Consent sees nothing of it. *)
Definition unseen (p : DevicePanel) (r : Panelled) : Prop :=
  seen_by_consent r.1 = seen_by_consent p /\ forall m, settles r.2 m = m.

Lemma seen_paint env p : seen_by_consent (paint env p) = seen_by_consent p.
Proof. unfold paint. by destruct (dp_stopped p). Qed.

Lemma seen_mode p m : question_shown (dp_mode p) = None -> question_shown m = None ->
  seen_by_consent (set_mode m p) = seen_by_consent p.
Proof. unfold seen_by_consent. simpl. by intros -> ->. Qed.

Lemma seen_select env p : seen_by_consent (select env p).2 = seen_by_consent p.
Proof. done. Qed.

Lemma seen_flash f env p : seen_by_consent (setFlash f env p) = seen_by_consent p.
Proof. unfold setFlash. by rewrite seen_paint. Qed.

Lemma unseen_same p p' : seen_by_consent p' = seen_by_consent p -> unseen p (p', []).
Proof. by split. Qed.

Lemma unseen_call c o p p' :
  (forall q r, o <> Settled q r) -> seen_by_consent p' = seen_by_consent p -> unseen p (call c o p').
Proof. intros Ho Hp. split; [exact Hp|]. intros m. destruct o; try done. by destruct (Ho q answer). Qed.

Section Panel.
Context (deps : PanelDeps).

(** A mode that asks nothing, painted. *)
Lemma seen_painted env p m :
  question_shown (dp_mode p) = None -> question_shown m = None ->
  seen_by_consent (paint env (set_mode m p)) = seen_by_consent p.
Proof. intros H1 H2. by rewrite seen_paint, seen_mode. Qed.

Lemma seen_askRemove env p :
  question_shown (dp_mode p) = None -> seen_by_consent (askRemove deps env p) = seen_by_consent p.
Proof.
  intros Hm. unfold askRemove, select. simpl. destruct (selected _ _) as [row|]; [|done].
  repeat case_match; rewrite ?seen_painted; done.
Qed.

Lemma seen_askRemoveAll env p :
  question_shown (dp_mode p) = None -> seen_by_consent (askRemoveAll deps env p) = seen_by_consent p.
Proof.
  intros Hm. unfold askRemoveAll, rows. destruct (can_removeAll deps); [|done]. case_decide; [done|]. by rewrite seen_painted.
Qed.

Lemma seen_openRename env p :
  question_shown (dp_mode p) = None -> seen_by_consent (openRename deps env p) = seen_by_consent p.
Proof.
  intros Hm. unfold openRename, select. simpl. destruct (selected _ _) as [row|]; [|done].
  repeat case_match; rewrite ?seen_painted; done.
Qed.

Lemma seen_openDetails env p :
  question_shown (dp_mode p) = None -> seen_by_consent (openDetails env p) = seen_by_consent p.
Proof.
  intros Hm. unfold openDetails, select. simpl. destruct (selected _ _) as [row|]; [|done]. by rewrite seen_painted.
Qed.

Lemma unseen_doRemove t env p : question_shown (dp_mode p) = None -> unseen p (doRemove deps t env p).
Proof.
  intros Hm. assert (seen_by_consent (set_mode ListMode p) = seen_by_consent p) as Hl by (by apply seen_mode).
  unfold doRemove. repeat case_match; first [by apply unseen_call|apply unseen_same; by rewrite seen_flash].
Qed.

Lemma unseen_rename key d label draft env p :
  question_shown (dp_mode p) = None -> unseen p (onRenameKey deps key d label draft env p).
Proof.
  intros Hm. assert (seen_by_consent (set_mode ListMode p) = seen_by_consent p) as Hl by (by apply seen_mode).
  unfold onRenameKey. repeat case_match;
    first [by apply unseen_call|apply unseen_same; by rewrite ?seen_flash, ?seen_painted].
Qed.

Lemma unseen_details raw key env p :
  question_shown (dp_mode p) = None -> unseen p (onDetailsKey deps raw key env p).
Proof.
  intros Hm. unfold onDetailsKey, rows. simpl. set (p1 := match _ with Some _ => _ | None => _ end).
  assert (seen_by_consent p1 = seen_by_consent p /\ dp_mode p1 = ListMode) as [Hs Hl].
  { unfold p1. case_match; (split; [|done]); unfold seen_by_consent; simpl; by rewrite Hm. }
  repeat case_match; apply unseen_same;
    first [by rewrite seen_askRemove, Hs by (by rewrite Hl)|by rewrite seen_openRename, Hs by (by rewrite Hl)|by rewrite seen_paint].
Qed.

Lemma unseen_list raw env p :
  dp_mode p = ListMode -> toLowerCase raw <> js "q" -> unseen p (onListKey deps raw env p).
Proof.
  intros Hm Hq. unfold onListKey, rows. simpl. set (p1 := set_objects _ p).
  assert (seen_by_consent p1 = seen_by_consent p) as Hs by done.
  assert (question_shown (dp_mode p1) = None) as Hl by (unfold p1; simpl; by rewrite Hm).
  repeat case_decide; try done; rewrite <- ?Hs.
  - apply unseen_same. by rewrite seen_paint.
  - apply unseen_same. by rewrite seen_paint.
  - apply unseen_same. by rewrite seen_painted.
  - split; [exact (seen_paint env p1)|done].
  - case_match; [done|]. split; [exact (seen_flash _ env p1)|done].
  - unfold toggleAsk. case_match; [by apply unseen_call|done].
  - unfold doOpenTunnel. case_match; [done|]. apply unseen_call; [done|]. by rewrite seen_flash.
  - apply unseen_same. by rewrite seen_openDetails.
  - apply unseen_same. by rewrite seen_openRename.
  - apply unseen_same. by rewrite seen_askRemove.
  - apply unseen_same. by rewrite seen_askRemoveAll.
Qed.

Lemma seen_resumed c o env p : seen_by_consent (resumed c o env p) = seen_by_consent p.
Proof.
  unfold resumed. repeat case_match; rewrite ?seen_flash; try done; unfold clearFlash; by rewrite seen_paint.
Qed.

Lemma seen_returned n o env p : seen_by_consent (returned n o env p) = seen_by_consent p.
Proof. unfold returned. destruct (list_find _ _) as [[i [k c]]|]; [|done]. by rewrite seen_resumed. Qed.

(** ** The interval runs while a question is shown *)

Definition idle (p : DevicePanel) : Prop := dp_stopped p = true -> dp_ticking p = false.

Definition ticks (p : DevicePanel) : Prop :=
  idle p /\ (dp_stopped p = false -> is_Some (question_shown (dp_mode p)) -> dp_ticking p = true).

Lemma ticks_paint env p : idle p -> ticks (paint env p).
Proof.
  unfold ticks, idle, paint. destruct (dp_stopped p) eqn:Hs; [by rewrite Hs|]. simpl. rewrite Hs. intros _. split; [done|].
  intros _ [x Hx]. by destruct (dp_mode p).
Qed.

Lemma ticks_quiet p : idle p -> question_shown (dp_mode p) = None -> ticks p.
Proof. intros Hi Hm. split; [done|]. intros _ [x Hx]. congruence. Qed.

(** The step of the panel and of what Consent sees. *)
Definition matches (p : DevicePanel) (r : Panelled) (f : Machine -> Machine) : Prop :=
  forall m, mc_panel m = Some (seen_by_consent p) -> f m = settles r.2 (shows_on r.1 m).

Lemma shows_same p m : mc_panel m = Some (seen_by_consent p) -> shows_on p m = m.
Proof. unfold shows_on, set_panel. intros <-. by destruct m. Qed.

Lemma unseen_matches p r : unseen p r -> matches p r (fun m => m).
Proof.
  intros [Hs Ho] m Hm. rewrite Ho. unfold shows_on. rewrite Hs. symmetry. by apply shows_same.
Qed.

Lemma answer_matches r env p : matches p (answer r env p) (panel_answer r (seen_by_consent p)).
Proof.
  intros m Hm. unfold answer, panel_answer, shows_on. cbn [fst snd]. rewrite seen_paint. simpl.
  by destruct (dp_answering p).
Qed.

Lemma stop_matches p : matches p (stop p) panel_stop.
Proof.
  intros m Hm. unfold stop, panel_stop. rewrite Hm. simpl. destruct (dp_stopped p) eqn:Hs; simpl.
  - symmetry. by apply shows_same.
  - by destruct (dp_answering p).
Qed.

(** Keys by their names. *)
Lemma lower_letter key (c : Z) : 97 <= c <= 122 ->
  toLowerCase key = [c] <-> key = [c] \/ key = [c - 32].
Proof.
  intros Hc. unfold toLowerCase. destruct key as [|a [|b key]]; simpl; [split; [done|intros []; done]| |split; [done|intros []; done]].
  split.
  - destruct ((65 <=? a) && (a <=? 90)) eqn:E; intros [= E']; [right|left]; f_equal; lia.
  - intros [[= ->]|[= ->]].
    + destruct ((65 <=? c) && (c <=? 90)) eqn:E; [lia|done].
    + destruct ((65 <=? c - 32) && (c - 32 <=? 90)) eqn:E; [f_equal; lia|lia].
Qed.

Lemma lower_y key : toLowerCase key = js "y" <-> key_name key = "y" \/ key_name key = "Y".
Proof.
  change (js "y") with [121]. rewrite lower_letter by lia. unfold key_name. change (js "y") with [121].
  change (js "Y") with [121 - 32]. repeat case_decide; simpl in *; split; intros [|]; try done; auto.
Qed.

Lemma lower_n key : toLowerCase key = js "n" <-> key_name key = "n" \/ key_name key = "N".
Proof.
  change (js "n") with [110]. rewrite lower_letter by lia. unfold key_name. change (js "n") with [110].
  change (js "N") with [110 - 32]. repeat case_decide; simpl in *; subst; split; intros [|]; try done; auto.
Qed.

Lemma key_matches raw env p :
  ticks p -> matches p (onKey deps raw env p)
    (for_consent (mkPanelEvent env (KeyPressed raw)) p).
Proof.
  intros _ m Hm. unfold for_consent. simpl. unfold onKey, quits.
  assert (forall r, unseen p r -> panel_key (key_name raw) m = m -> panel_key (key_name raw) m = settles r.2 (shows_on r.1 m)) as Hun.
  { intros r Hr ->. symmetry. symmetry. by apply (unseen_matches p r Hr). }
  assert (dp_stopped p = true \/ question_shown (dp_mode p) = None -> panel_key (key_name raw) m = m) as Hk.
  { unfold panel_key. rewrite Hm. simpl. intros [-> | ->]; [done|]. by case_match. }
  destruct (dp_stopped p) eqn:Hs.
  { simpl. rewrite shows_same by done. assert (panel_stop m = m) as E.
    { unfold panel_stop. rewrite Hm. simpl. by rewrite Hs. }
    repeat case_match; rewrite ?E; auto. }
  destruct (dp_mode p) as [| |key|t|d label draft|q t] eqn:Hmode.
  - case_bool_decide as Hq; [|apply Hun; [by apply unseen_list|by apply Hk; right]].
    unfold onListKey, rows. simpl.
    assert (raw = [81] \/ raw = [113]) as Hraw.
    { change (js "q") with [113] in Hq. apply lower_letter in Hq; [|lia]. destruct Hq; auto. }
    destruct Hraw as [-> | ->]; vm_compute (decide _); cbv iota;
      (match goal with |- context [stop ?x] => set (p1 := x) end);
      pose proof (stop_matches p1 m ltac:(done)) as E; destruct (stop p1) as [p2 out] eqn:Hst; simpl in *;
      unfold settles in *; rewrite foldl_app; exact E.
  - apply Hun; [apply unseen_same; by rewrite seen_painted by (by rewrite ?Hmode)|by apply Hk; right].
  - apply Hun; [by apply unseen_details; rewrite Hmode|by apply Hk; right].
  - apply Hun; [|by apply Hk; right]. repeat case_decide.
    + by apply unseen_doRemove; rewrite Hmode.
    + apply unseen_same. by rewrite seen_painted by (by rewrite ?Hmode).
    + by apply unseen_same.
  - apply Hun; [by apply unseen_rename; rewrite Hmode|by apply Hk; right].
  - unfold panel_key. rewrite Hm. simpl. rewrite Hs, Hmode. simpl. repeat case_decide; rewrite ?lower_y, ?lower_n in *;
      try (exfalso; tauto); try (by apply answer_matches). symmetry. by apply shows_same.
Qed.

Lemma tick_matches env p : ticks p -> matches p (tick env p) (panel_tick (pe_now env)).
Proof.
  intros [Hi Ht] m Hm. pose proof (shows_same p m Hm) as Hsame. unfold tick, panel_tick. rewrite Hm. simpl.
  destruct (dp_mode p) as [| |key|t|d label draft|q t] eqn:Hmode; simpl;
    try (by destruct (dp_ticking p)).
  destruct (dp_stopped p) eqn:Hs; simpl; [by rewrite Hi|].
  rewrite Ht by done. destruct (t <=? pe_now env); [by apply answer_matches|by symmetry].
Qed.

Lemma aborted_matches q env p : matches p (aborted q env p) (panel_aborted q).
Proof.
  intros m Hm. unfold aborted, panel_aborted. rewrite Hm. simpl. case_decide; [by apply answer_matches|].
  symmetry. by apply shows_same.
Qed.

Lemma asked_matches q already env p :
  matches p (promptForAccess q already env p) (panel_prompt q already (pe_now env) (seen_by_consent p)).
Proof.
  intros m Hm. unfold promptForAccess, panel_prompt. simpl. destruct (dp_stopped p) eqn:Hs; simpl.
  { by rewrite (shows_same p m Hm). }
  destruct already; simpl.
  - unfold aborted, panel_aborted. simpl. rewrite !decide_True by done. unfold answer, panel_answer. simpl.
    unfold shows_on. rewrite !seen_paint. unfold seen_by_consent. simpl. by rewrite Hs.
  - unfold shows_on. rewrite seen_paint. unfold seen_by_consent. simpl. by rewrite Hs.
Qed.

Lemma unseen_ticks p r : dp_stopped p = false -> question_shown (dp_mode p) = None -> unseen p r -> ticks r.1.
Proof.
  intros Hs Hm [E _]. injection E as Em Ea Es. apply ticks_quiet; [|by rewrite Em].
  intros Hst. rewrite Es in Hst. congruence.
Qed.

Lemma answer_ticks r env p : idle p -> ticks (answer r env p).1.
Proof. intros Hi. by apply ticks_paint. Qed.

Lemma stop_ticks p : ticks p -> ticks (stop p).1.
Proof. intros Ht. unfold stop. by destruct (dp_stopped p). Qed.

Lemma key_ticks raw env p : ticks p -> ticks (onKey deps raw env p).1.
Proof.
  intros Ht. unfold onKey. destruct (dp_stopped p) eqn:Hs; [done|].
  destruct (dp_mode p) as [| |key|t|d label draft|q t] eqn:Hmode.
  - destruct (decide (toLowerCase raw = js "q")) as [Hq|Hq];
      [|by apply (unseen_ticks p); [|rewrite Hmode|apply unseen_list]].
    assert (raw = [81] \/ raw = [113]) as Hraw.
    { change (js "q") with [113] in Hq. apply lower_letter in Hq; [|lia]. destruct Hq; auto. }
    unfold onListKey, rows. simpl. destruct Hraw as [-> | ->]; vm_compute (decide _); cbv iota;
      (match goal with |- context [stop ?x] => pose proof (stop_ticks x Ht) as E; by destruct (stop x) end).
  - apply ticks_paint, Ht.
  - apply (unseen_ticks p); [done|by rewrite Hmode|]. by apply unseen_details; rewrite Hmode.
  - repeat case_decide; [|apply ticks_paint, Ht|done].
    apply (unseen_ticks p); [done|by rewrite Hmode|]. by apply unseen_doRemove; rewrite Hmode.
  - apply (unseen_ticks p); [done|by rewrite Hmode|]. by apply unseen_rename; rewrite Hmode.
  - repeat case_decide; [apply answer_ticks, Ht..|done].
Qed.

Lemma returned_ticks n o env p : ticks p -> ticks (returned n o env p).
Proof.
  intros Ht. unfold returned. destruct (list_find _ _) as [[i [k c]]|]; [|done]. simpl.
  unfold resumed. repeat case_match; try exact Ht; apply ticks_paint, Ht.
Qed.

Lemma step_ticks ev p : ticks p -> ticks (panel_step deps ev p).1.
Proof.
  intros Ht. unfold panel_step. destruct (pv_op ev); simpl.
  - by apply key_ticks.
  - destruct (dp_stopped p); [done|]. pose proof (stop_ticks p Ht). by destruct (stop p).
  - unfold tick. destruct (dp_ticking p); [|done]. destruct (dp_mode p); try done.
    case_match; [apply answer_ticks, Ht|done].
  - destruct (dp_flashing p); [apply ticks_paint, Ht|done].
  - apply ticks_paint, Ht.
  - unfold promptForAccess. destruct (dp_stopped p) eqn:Hs; [done|].
    destruct (if already then _ else _) as [p1 out] eqn:E. simpl. apply ticks_paint.
    destruct already; [|injection E as <- _; intros Hst; simpl in Hst; congruence].
    unfold aborted, answer in E. simpl in E. case_decide; injection E as <- _; [|by intros Hst; simpl in Hst; congruence].
    apply ticks_paint. intros Hst. simpl in Hst. congruence.
  - unfold aborted. case_decide; [apply answer_ticks, Ht|done].
  - by apply returned_ticks.
  - by apply stop_ticks.
Qed.

(** ** Runs *)

Definition panel_reachable (p : DevicePanel) : Prop :=
  exists env evs, p = panel_run deps evs (panel_created env).

Lemma reachable_ticks p : panel_reachable p -> ticks p.
Proof.
  intros (env & evs & ->). induction evs as [|ev evs IH] using rev_ind; [by apply ticks_paint|].
  unfold panel_run in *. rewrite foldl_app. by apply step_ticks.
Qed.

(** C27: the panel is the prompt Consent takes it for.  Whatever is on the
    screen and whatever happens, what Consent sees of the panel moves as its
    four rules say, and exactly the promises they settle are settled: a key
    answers only the question on the screen, the interval refuses it when its
    time is over, a question that is asked takes the screen, one that was
    answered elsewhere is taken down, and all else the panel does is nothing to
    a question. *)
Theorem panel_is_the_prompt ev p m :
  panel_reachable p -> mc_panel m = Some (seen_by_consent p) ->
  for_consent ev p m = settles (panel_step deps ev p).2 (shows_on (panel_step deps ev p).1 m).
Proof.
  intros Hr%reachable_ticks Hm. unfold panel_step. destruct ev as [env op]. destruct op; simpl.
  - by apply key_matches.
  - unfold for_consent. simpl. pose proof (stop_matches p m Hm) as E. rewrite E.
    unfold stop. destruct (dp_stopped p); [done|]. simpl. unfold settles. by rewrite foldl_app.
  - by apply tick_matches.
  - refine (unseen_matches p (_, []) _ m Hm). destruct (dp_flashing p); apply unseen_same; [exact (seen_paint env (set_flash None false p))|done].
  - refine (unseen_matches p (_, []) _ m Hm). apply unseen_same, seen_paint.
  - by apply asked_matches.
  - by apply aborted_matches.
  - refine (unseen_matches p (_, []) _ m Hm). apply unseen_same, seen_returned.
  - by apply stop_matches.
Qed.

(** ** What is on the screen when something is removed *)

(** A row the panel read at an event of the run. *)
Definition listed (evs : list PanelEvent) (row : PanelRow) : Prop :=
  exists ev first, ev ∈ evs /\ row ∈ buildRows first (pe_details (pv_env ev)) (pe_peers (pv_env ev)).

#[local] Arguments paint : simpl never.

(** The row a confirmation or the editor names. *)
Definition names (evs : list PanelEvent) (m : PanelMode) : Prop :=
  match m with
  | ConfirmMode t =>
      match tg_action t with
      | RemoveDevice => exists row, listed evs row /\ tg_label t = row_name row /\
          is_Some (tg_deviceId t) /\ tg_deviceId t = row_deviceId row
      | DisconnectSocket => exists row, listed evs row /\ tg_label t = row_name row /\
          tg_connectionId t = row_live row ≫= cd_id
      | RemoveEverything => True
      end
  | RenameMode d label _ => exists row, listed evs row /\ label = row_name row /\ row_deviceId row = Some d
  | _ => True
  end.

Lemma listed_snoc evs ev row : listed evs row -> listed (evs ++ [ev]) row.
Proof. intros (e & n & He & Hr). exists e, n. split; [apply elem_of_app; by left|done]. Qed.

Lemma names_snoc evs ev m : names evs m -> names (evs ++ [ev]) m.
Proof.
  unfold names. destruct m as [| | |t|d label draft|]; try done; [destruct (tg_action t); try done|];
    intros (row & Hl & H); exists row; (split; [by apply listed_snoc|exact H]).
Qed.

Lemma mode_paint env p : dp_mode (paint env p) = dp_mode p.
Proof. unfold paint. by destruct (dp_stopped p). Qed.

Lemma mode_flash f env p : dp_mode (setFlash f env p) = dp_mode p.
Proof. unfold setFlash. by rewrite mode_paint. Qed.

Lemma truthy_inv s x : truthy s = Some x -> s = Some x.
Proof. unfold truthy. destruct s as [s|]; [|done]. by case_match. Qed.

Lemma select_listed evs ev p row : fst (select (pv_env ev) p) = Some row -> listed (evs ++ [ev]) row.
Proof.
  unfold select, rows, selected. simpl. intros Hr%list_elem_of_lookup_2. exists ev, (dp_objects p).
  split; [apply elem_of_app; right; by left|done].
Qed.

Lemma askRemove_names evs ev p :
  names (evs ++ [ev]) (dp_mode p) -> names (evs ++ [ev]) (dp_mode (askRemove deps (pv_env ev) p)).
Proof.
  intros Hn. pose proof (select_listed evs ev p) as Hl. unfold askRemove. unfold select in *. simpl in *.
  destruct (selected _ _) as [row|]; [|done]. specialize (Hl row eq_refl).
  destruct (if can_revoke deps then truthy (row_deviceId row) else None) as [d|] eqn:Hd.
  - rewrite mode_paint. simpl. destruct (can_revoke deps); [|done]. apply truthy_inv in Hd.
    exists row. split_and!; [done|done|by eexists|done].
  - destruct (if can_disconnect deps then _ else None) as [c|] eqn:Hc; [|done]. rewrite mode_paint. simpl.
    destruct (can_disconnect deps); [|done]. apply truthy_inv in Hc. by exists row.
Qed.

Lemma openRename_names evs ev p :
  names (evs ++ [ev]) (dp_mode p) -> names (evs ++ [ev]) (dp_mode (openRename deps (pv_env ev) p)).
Proof.
  intros Hn. pose proof (select_listed evs ev p) as Hl. unfold openRename. unfold select in *. simpl in *.
  destruct (selected _ _) as [row|]; [|done]. specialize (Hl row eq_refl).
  destruct (truthy (row_deviceId row)) as [d|] eqn:Hd; [|done]. destruct (can_rename deps); [|done].
  rewrite mode_paint. simpl. apply truthy_inv in Hd. by exists row.
Qed.

Lemma list_names raw evs ev p :
  dp_mode p = ListMode -> names (evs ++ [ev]) (dp_mode (onListKey deps raw (pv_env ev) p).1).
Proof.
  intros Hm. unfold onListKey, rows. simpl. set (p1 := set_objects _ p).
  assert (names (evs ++ [ev]) (dp_mode p1)) as H1 by (unfold p1; simpl; by rewrite Hm).
  repeat case_decide; cbn [fst]; rewrite ?mode_paint; try exact H1; try done.
  - unfold stop. destruct (dp_stopped p1); exact H1.
  - case_match; cbn [fst]; rewrite ?mode_flash; exact H1.
  - unfold toggleAsk. case_match; exact H1.
  - unfold doOpenTunnel. case_match; [exact H1|]. unfold call. simpl. by rewrite mode_flash.
  - unfold openDetails, select. simpl. destruct (selected _ _); [by rewrite mode_paint|exact H1].
  - by apply openRename_names.
  - by apply askRemove_names.
  - unfold askRemoveAll, rows. destruct (can_removeAll deps); [|exact H1]. case_decide; [exact H1|]. by rewrite mode_paint.
Qed.

Lemma key_names raw evs ev p :
  names evs (dp_mode p) -> names (evs ++ [ev]) (dp_mode (onKey deps raw (pv_env ev) p).1).
Proof.
  intros Hn%(names_snoc _ ev). unfold onKey. destruct (dp_stopped p); [done|].
  destruct (dp_mode p) as [| |key|t|d label draft|q t] eqn:Hmode.
  - by apply list_names.
  - cbn [fst]. by rewrite mode_paint.
  - unfold onDetailsKey, rows. simpl. set (p1 := match _ with Some _ => _ | None => _ end).
    assert (dp_mode p1 = ListMode) as Hl by (unfold p1; by case_match).
    assert (names (evs ++ [ev]) (dp_mode p1)) as H1 by (by rewrite Hl).
    repeat case_decide; cbn [fst]; rewrite ?mode_paint; [by apply askRemove_names|by apply openRename_names|done].
  - repeat case_decide; cbn [fst]; [|by rewrite mode_paint|by rewrite Hmode].
    unfold doRemove, call. repeat case_match; cbn [fst]; rewrite ?mode_flash; done.
  - unfold onRenameKey, call. repeat case_match; cbn [fst]; rewrite ?mode_flash, ?mode_paint; try done; by rewrite Hmode.
  - unfold answer. repeat case_decide; cbn [fst]; rewrite ?mode_paint; try done; by rewrite Hmode.
Qed.

Lemma step_names evs ev p : names evs (dp_mode p) -> names (evs ++ [ev]) (dp_mode (panel_step deps ev p).1).
Proof.
  intros Hn. pose proof (names_snoc _ ev _ Hn) as Hn'. unfold panel_step. cbv zeta. destruct (pv_op ev); cbn [fst].
  - by apply key_names.
  - unfold stop. destruct (dp_stopped p); exact Hn'.
  - unfold tick, answer. destruct (dp_ticking p); [|exact Hn']. destruct (dp_mode p) eqn:E; cbn [fst]; rewrite ?E; try exact Hn'.
    case_match; cbn [fst]; [by rewrite mode_paint|by rewrite E].
  - destruct (dp_flashing p); [unfold clearFlash; rewrite mode_paint|]; exact Hn'.
  - by rewrite mode_paint.
  - unfold promptForAccess, aborted, answer. destruct (dp_stopped p); [done|]. destruct already; simpl.
    + case_decide; cbn [fst]; by rewrite ?mode_paint.
    + by rewrite mode_paint.
  - unfold aborted, answer. case_decide; cbn [fst]; by rewrite ?mode_paint.
  - unfold returned, resumed, clearFlash. repeat case_match; simpl; rewrite ?mode_flash, ?mode_paint; exact Hn'.
  - unfold stop. destruct (dp_stopped p); exact Hn'.
Qed.

Lemma run_names env evs : names evs (dp_mode (panel_run deps evs (panel_created env))).
Proof.
  induction evs as [|ev evs IH] using rev_ind; [unfold panel_run, panel_created; cbn [foldl]; by rewrite mode_paint|].
  unfold panel_run in *. rewrite foldl_app. by apply step_names.
Qed.

(** A call that is not for a row. *)
Definition harmless (o : PanelOut) : Prop :=
  match o with Revoke _ | Disconnect _ | RemoveAll | Rename _ _ => False | _ => True end.

Ltac all_harmless := intros Hin; repeat (apply elem_of_cons in Hin as [->|Hin]; [done|]); by apply elem_of_nil in Hin.

Lemma list_calls raw env p o : o ∈ (onListKey deps raw env p).2 -> harmless o.
Proof.
  unfold onListKey, rows, toggleAsk, doOpenTunnel, call, stop. simpl.
  repeat case_match; simplify_eq; simpl; all_harmless.
Qed.

Lemma details_calls raw key env p : (onDetailsKey deps raw key env p).2 = [].
Proof. unfold onDetailsKey, rows. simpl. by repeat case_decide. Qed.

Lemma remove_calls t env p o :
  o ∈ (doRemove deps t env p).2 ->
  match tg_action t with
  | RemoveEverything => o = RemoveAll
  | DisconnectSocket => exists c, tg_connectionId t = Some c /\ o = Disconnect c
  | RemoveDevice => exists d, tg_deviceId t = Some d /\ o = Revoke d
  end.
Proof.
  unfold doRemove, call. destruct (tg_action t).
  - destruct (truthy (tg_deviceId t)) as [d|] eqn:Hd; [apply truthy_inv in Hd; destruct (can_revoke deps)|]; simpl;
      intros Hin; try (by apply elem_of_nil in Hin). apply list_elem_of_singleton in Hin as ->. by exists d.
  - destruct (truthy (tg_connectionId t)) as [c|] eqn:Hc; [apply truthy_inv in Hc; destruct (can_disconnect deps)|]; simpl;
      intros Hin; try (by apply elem_of_nil in Hin). apply list_elem_of_singleton in Hin as ->. by exists c.
  - destruct (can_removeAll deps); simpl; intros Hin; [by apply list_elem_of_singleton in Hin|by apply elem_of_nil in Hin].
Qed.

Lemma rename_calls key d label draft env p o :
  o ∈ (onRenameKey deps key d label draft env p).2 ->
  key = KEY_enter /\ o = Rename d (if decide (trim draft = []) then None else Some (trim draft)).
Proof.
  unfold onRenameKey, call. repeat case_decide; repeat case_match; simpl; intros Hin;
    try (by apply elem_of_nil in Hin); by apply list_elem_of_singleton in Hin.
Qed.

Lemma other_calls ev p o :
  (forall key, pv_op ev <> KeyPressed key) -> o ∈ (panel_step deps ev p).2 -> harmless o.
Proof.
  intros Hk. unfold panel_step. cbv zeta. destruct (pv_op ev); [by destruct (Hk key)|..];
    unfold tick, promptForAccess, aborted, answer, stop; repeat case_match; simplify_eq; simpl; all_harmless.
Qed.

(** C28: the panel removes what its screen names.  It forgets a device, hangs up
    on a socket or removes everything only on [y] at a confirmation, and
    renames only on Enter in the editor; the name in the confirmation or above
    the editor is that of a row the panel had read, and the device, or the
    socket, is that row's. *)
Theorem removes_what_it_names env evs ev o :
  let p := panel_run deps evs (panel_created env) in
  o ∈ (panel_step deps ev p).2 ->
  match o with
  | Revoke d => exists t row key, pv_op ev = KeyPressed key /\ toLowerCase key = js "y" /\
      dp_mode p = ConfirmMode t /\ tg_label t = row_name row /\ row_deviceId row = Some d /\ listed evs row
  | Disconnect c => exists t row key, pv_op ev = KeyPressed key /\ toLowerCase key = js "y" /\
      dp_mode p = ConfirmMode t /\ tg_label t = row_name row /\ row_live row ≫= cd_id = Some c /\ listed evs row
  | RemoveAll => exists t key, pv_op ev = KeyPressed key /\ toLowerCase key = js "y" /\
      dp_mode p = ConfirmMode t /\ tg_action t = RemoveEverything
  | Rename d name => exists row label draft, pv_op ev = KeyPressed KEY_enter /\
      dp_mode p = RenameMode d label draft /\ name = (if decide (trim draft = []) then None else Some (trim draft)) /\
      label = row_name row /\ row_deviceId row = Some d /\ listed evs row
  | _ => True
  end.
Proof.
  intros p Hin. pose proof (run_names env evs) as Hn. fold p in Hn. clearbody p.
  destruct ev as [penv op]. destruct op as [key| | | | | | | |];
    [|by apply other_calls in Hin; [destruct o|]..].
  unfold panel_step in Hin. simpl in Hin. unfold onKey in Hin.
  destruct (dp_stopped p); [by apply elem_of_nil in Hin|].
  destruct (dp_mode p) as [| |k|t|d label draft|q t] eqn:Hmode.
  - apply list_calls in Hin. by destruct o.
  - by apply elem_of_nil in Hin.
  - rewrite details_calls in Hin. by apply elem_of_nil in Hin.
  - case_decide as Hy; [|case_decide; by apply elem_of_nil in Hin].
    apply remove_calls in Hin. simpl in Hn. destruct (tg_action t) eqn:Ht.
    + destruct Hin as (d & Hd & ->). destruct Hn as (row & Hl & Hlab & _ & Hdev). exists t, row, key. by rewrite <- Hdev.
    + destruct Hin as (c & Hc & ->). destruct Hn as (row & Hl & Hlab & Hdev). exists t, row, key. by rewrite <- Hdev.
    + subst o. by exists t, key.
  - apply rename_calls in Hin as [-> ->]. destruct Hn as (row & Hl & Hlab & Hdev). by exists row, label, draft.
  - unfold answer in Hin. repeat case_decide; simpl in Hin; [..|by apply elem_of_nil in Hin];
      (destruct (dp_answering p); [apply list_elem_of_singleton in Hin as ->; done|by apply elem_of_nil in Hin]).
Qed.
End Panel.

(** ** Runs *)

Module PanelDemo.

Definition laptop : ConnectedDevice := mkDevice (Some "conn-1") (Some "dev-1") (js "Laptop").
Definition phone : ConnectedDevice := mkDevice (Some "conn-2") (Some "dev-2") (js "Phone").
Definition peers : list PanelPeer :=
  [mkPeer "dev-1" (js "Laptop") None 10; mkPeer "dev-2" (js "Phone") None 20].
Definition everything : PanelDeps := mkPanelDeps true true true true true true true.

Definition env_at (now : Z) : PanelEnv := mkPanelEnv now [laptop; phone] peers true true.
Definition at_ (op : PanelOp) : PanelEvent := mkPanelEvent (env_at 0) op.
Definition press (k : string) : PanelEvent := at_ (KeyPressed (js k)).
Definition down : PanelEvent := at_ (KeyPressed KEY_down).

Abbreviation run evs := (panel_run everything evs (panel_created (env_at 0))).
Abbreviation outputs evs ev := (panel_step everything ev (run evs)).2.

(** [r] on the second row removes the second device. *)
Lemma removes_the_selected : outputs [down; press "r"] (press "y") = [Revoke "dev-2"].
Proof. vm_compute. reflexivity. Qed.

(** [r] on the card of the second device asks about the first: the row the
    card found is looked for, by identity, in a list built anew. *)
Lemma card_removes_the_first :
  dp_mode (run [down; press "d"]) = DetailsMode "dev-2" /\
  outputs [down; press "d"; press "r"] (press "y") = [Revoke "dev-1"].
Proof. vm_compute. split; reflexivity. Qed.

(** And [e] on that card renames the first. *)
Lemma card_renames_the_first :
  outputs [down; press "d"; press "e"; press "W"] (at_ (KeyPressed KEY_enter)) = [Rename "dev-1" (Some (js "W"))].
Proof. vm_compute. reflexivity. Qed.

(** A question takes the screen from a confirmation and from the editor: the
    [y] that was meant for them lets the device in. *)
Lemma y_for_another_screen :
  outputs [down; press "r"; at_ (Asked 7 false)] (press "y") = [Settled 7 Approved] /\
  outputs [down; press "e"; press "m"; at_ (Asked 7 false)] (press "y") = [Settled 7 Approved].
Proof. vm_compute. split; reflexivity. Qed.

(** While a removal is under way the screen still shows its question, and [n]
    already is the key of the list: the code on display dies. *)
Lemma n_after_y_rearms : outputs [down; press "r"; press "y"] (press "n") = [Rearm].
Proof. vm_compute. reflexivity. Qed.

Lemma removes_what_it_names_witness :
  Revoke "dev-2" ∈ outputs [down; press "r"] (press "y") /\
  exists t row key, pv_op (press "y") = KeyPressed key /\ toLowerCase key = js "y" /\
    dp_mode (run [down; press "r"]) = ConfirmMode t /\ tg_label t = row_name row /\
    row_deviceId row = Some "dev-2" /\ listed [down; press "r"] row.
Proof.
  assert (Revoke "dev-2" ∈ outputs [down; press "r"] (press "y")) as H.
  { rewrite removes_the_selected. left. }
  split; [exact H|]. exact (removes_what_it_names everything (env_at 0) [down; press "r"] (press "y") _ H).
Defined.

(** A question on the screen, and the machine that shows it. *)
Definition asking : DevicePanel := run [at_ (Asked 7 false)].
Definition machine : Machine := shows_on asking machine_initial.

Lemma panel_is_the_prompt_witness :
  panel_reachable everything asking /\
  panel_key "y" machine
  = settles (panel_step everything (press "y") asking).2 (shows_on (panel_step everything (press "y") asking).1 machine).
Proof.
  assert (panel_reachable everything asking) as H by (exists (env_at 0), [at_ (Asked 7 false)]; reflexivity).
  split; [exact H|]. exact (panel_is_the_prompt everything (press "y") asking machine H eq_refl).
Defined.
End PanelDemo.
