(* ===== verification/Relay.v ===== *)
(** * Relay: the socket handlers of the relay

    [apps/relay/src/wire-connections.ts], over the registry, authentication,
    the session tokens and the in-app approval.  A handler that awaits is cut
    at the await: a message up to the gate ([on_message]) and what follows its
    answer ([on_admitted]); a close up to the drained queue ([on_close]) and
    the removal after it ([on_drained]).  Routing a message is the output
    [Route]; Policy has the gate it meets first.  The session monitor is in Monitor;
    the heartbeat and the startup sweeps are I/O and left out. *)

From S2P Require Import Prelude Grants Policy AuthThrottle LocalPairing RelayAuth Connections Approval.

Definition MAX_CONNECTIONS : Z := 100.
Definition MAX_CONNECTIONS_PER_IP : Z := 10.

(** A frame: text that does not parse, or a message; an [auth] message is one
    with a token. *)
Inductive Frame :=
| Unparsed
| Parsed (token : option jstr) (msg : Msg).

Record Capabilities := mkCaps { ca_readOnly : bool; ca_files : GrantFiles; ca_scope : string }.

Inductive ServerMessage :=
| RateLimitedError
| InvalidMessageError
| AuthFailureMessage (reason : FailureReason)
| AuthTimeoutMessage
| UnapprovedMessage
| AuthSuccessMessage (capabilities : Capabilities)
| ServerInfo (withDefaultPath : bool)
| ApprovalMsg (m : ApprovalMessage).

Inductive AccessKind := a_connected | a_disconnected | a_refused.

Record ConnectionRequest := mkConnectionRequest {
  cq_tokenId : option string;
  cq_deviceId : option string;
  cq_label : option string;
  cq_transport : AccessTransport;
  cq_userAgent : option string;
}.

Inductive Output :=
| Send (ws : nat) (m : ServerMessage)
| Close (ws : nat) (code : Z)
| Log (event : AccessKind) (grant : GrantDescription) (label : option string)
    (transport : AccessTransport)
| AskGate (id : nat) (req : ConnectionRequest)
| Route (id : nat) (msg : Msg)
| ConnectionsChanged
| SettleApproval (asker : nat) (answer : option bool)
| PairingNotice (n : Notice).

Record Relay := mkRelay {
  ry_auth : AuthState;
  ry_registry : Registry;
  ry_approval : ApprovalState;
  ry_gate : bool;
}.

Definition with_registry (r : Registry) (st : Relay) : Relay :=
  mkRelay (ry_auth st) r (ry_approval st) (ry_gate st).
Definition with_auth (a : AuthState) (st : Relay) : Relay :=
  mkRelay a (ry_registry st) (ry_approval st) (ry_gate st).
Definition with_approval (a : ApprovalState) (st : Relay) : Relay :=
  mkRelay (ry_auth st) (ry_registry st) a (ry_gate st).
Definition upd (id : nat) (f : Conn -> Conn) (st : Relay) : Relay :=
  with_registry (update id f (ry_registry st)) st.

(** ** Field updates of a connection *)

Definition set_identity (transport : AccessTransport) (ua : option string) (c : Conn) : Conn :=
  mkConn (cn_ws c) (cn_authenticated c) (cn_grant c) (cn_limiter c) (cn_attachedSession c)
    (cn_remoteAddress c) transport ua (cn_label c) (cn_tokenId c) (cn_connectedAt c)
    (cn_lastActivityAt c) (cn_closing c) (cn_open c) (cn_authTimer c) (cn_admitting c) (cn_closed c).
Definition set_activity (now : Z) (c : Conn) : Conn :=
  mkConn (cn_ws c) (cn_authenticated c) (cn_grant c) (cn_limiter c) (cn_attachedSession c)
    (cn_remoteAddress c) (cn_transport c) (cn_userAgent c) (cn_label c) (cn_tokenId c)
    (cn_connectedAt c) now (cn_closing c) (cn_open c) (cn_authTimer c) (cn_admitting c) (cn_closed c).
Definition set_limiter (l : RateLimiter) (c : Conn) : Conn :=
  mkConn (cn_ws c) (cn_authenticated c) (cn_grant c) l (cn_attachedSession c)
    (cn_remoteAddress c) (cn_transport c) (cn_userAgent c) (cn_label c) (cn_tokenId c)
    (cn_connectedAt c) (cn_lastActivityAt c) (cn_closing c) (cn_open c) (cn_authTimer c)
    (cn_admitting c) (cn_closed c).
Definition set_timer (b : bool) (c : Conn) : Conn :=
  mkConn (cn_ws c) (cn_authenticated c) (cn_grant c) (cn_limiter c) (cn_attachedSession c)
    (cn_remoteAddress c) (cn_transport c) (cn_userAgent c) (cn_label c) (cn_tokenId c)
    (cn_connectedAt c) (cn_lastActivityAt c) (cn_closing c) (cn_open c) b (cn_admitting c)
    (cn_closed c).
Definition set_admitting (a : option (AuthSuccess * bool)) (c : Conn) : Conn :=
  mkConn (cn_ws c) (cn_authenticated c) (cn_grant c) (cn_limiter c) (cn_attachedSession c)
    (cn_remoteAddress c) (cn_transport c) (cn_userAgent c) (cn_label c) (cn_tokenId c)
    (cn_connectedAt c) (cn_lastActivityAt c) (cn_closing c) (cn_open c) (cn_authTimer c) a
    (cn_closed c).
Definition set_admitted (a : AuthSuccess) (c : Conn) : Conn :=
  mkConn (cn_ws c) true (au_grant a) (cn_limiter c) (cn_attachedSession c)
    (cn_remoteAddress c) (cn_transport c) (cn_userAgent c) (au_label a) (au_tokenId a)
    (cn_connectedAt c) (cn_lastActivityAt c) (cn_closing c) (cn_open c) (cn_authTimer c)
    (cn_admitting c) (cn_closed c).
Definition set_closing (c : Conn) : Conn :=
  mkConn (cn_ws c) (cn_authenticated c) (cn_grant c) (cn_limiter c) (cn_attachedSession c)
    (cn_remoteAddress c) (cn_transport c) (cn_userAgent c) (cn_label c) (cn_tokenId c)
    (cn_connectedAt c) (cn_lastActivityAt c) true false false (cn_admitting c) (cn_closed c).
Definition set_closed (c : Conn) : Conn :=
  mkConn (cn_ws c) (cn_authenticated c) (cn_grant c) (cn_limiter c) (cn_attachedSession c)
    (cn_remoteAddress c) (cn_transport c) (cn_userAgent c) (cn_label c) (cn_tokenId c)
    (cn_connectedAt c) (cn_lastActivityAt c) (cn_closing c) (cn_open c) (cn_authTimer c)
    (cn_admitting c) true.

(** [sendJson]: nothing on a socket that is not open. *)
Definition sendJson (c : Conn) (m : ServerMessage) : list Output :=
  if cn_open c then [Send (cn_ws c) m] else [].

Definition closes (l : list SocketClose) : list Output :=
  map (fun s => Close (sc_ws s) (sc_code s)) l.

Definition approval_outputs (l : list ApprovalOut) : list Output :=
  map (fun o => match o with
                | Tell ws m => Send ws (ApprovalMsg m)
                | Settle asker a => SettleApproval asker a
                end) l.

Section Handlers.
Context (digest : jstr -> string) (authToken : jstr) (wsRateLimit idleTimeoutMinutes : Z).

(** A new socket: the caps, then a connection for it. *)
Definition on_connection (ws : nat) (peer : option string) (ua : option string) (now : Z)
    (st : Relay) : Relay * list Output :=
  let remoteAddress := default "unknown" peer in
  if MAX_CONNECTIONS <=? getConnectionCount (ry_registry st) then (st, [Close ws 1013])
  else if MAX_CONNECTIONS_PER_IP <=? getIpCount remoteAddress (ry_registry st)
  then (st, [Close ws 1013])
  else
    let transport := transportFor (Some remoteAddress) ua in
    let '(id, r) := createConnection ws (createRateLimiter now) (Some remoteAddress) now
                      (ry_registry st) in
    (with_registry (update id (set_identity transport ua) r) st, []).

(** The authentication timer. *)
Definition on_auth_timeout (id : nat) (st : Relay) : Relay * list Output :=
  match objects (ry_registry st) !! id with
  | Some c =>
      if cn_authTimer c then
        (upd id (fun c => set_open false (set_timer false c)) st,
         sendJson c AuthTimeoutMessage ++ [Close (cn_ws c) 1005])
      else (st, [])
  | None => (st, [])
  end.

(** The first message of a socket that is not authenticated. *)
Definition on_first_message (id : nat) (c : Conn) (token : option jstr) (now : Z) (st : Relay)
    : Relay * list Output :=
  let st := upd id (set_timer false) st in
  let '(result, auth, notices) :=
    authenticateMessage digest authToken token (cn_remoteAddress c) now (ry_auth st) in
  let st := with_auth auth st in
  match result with
  | NotAuthenticated reason _ =>
      (upd id (set_open false) st,
       map PairingNotice notices ++ sendJson c (AuthFailureMessage reason) ++ [Close (cn_ws c) 1005])
  | Authenticated a =>
      let device := id ← au_tokenId a; deviceIdForTokenId id (as_pairing auth) in
      (upd id (set_admitting (Some (a, ry_gate st))) st,
       map PairingNotice notices ++
       (if ry_gate st
        then [AskGate id (mkConnectionRequest (au_tokenId a) device (au_label a)
                            (cn_transport c) (cn_userAgent c))]
        else []))
  end.

Definition on_message (id : nat) (frame : Frame) (now : Z) (st : Relay) : Relay * list Output :=
  match objects (ry_registry st) !! id with
  | None => (st, [])
  | Some c =>
      let st := upd id (set_activity now) st in
      match cn_admitting c with
      | Some _ => (st, [])
      | None =>
          let '(ok, limiter) := check wsRateLimit now (cn_limiter c) in
          let st := upd id (set_limiter limiter) st in
          if negb ok then (st, sendJson c RateLimitedError)
          else match frame with
          | Unparsed => (st, sendJson c InvalidMessageError)
          | Parsed token msg =>
              if cn_authenticated c
              then (st, if cn_closing c then [] else [Route id msg])
              else on_first_message id c token now st
          end
      end
  end.

(** What follows [admitConnection]; a missing gate answers at once. *)
Definition on_admitted (id : nat) (answer : result unit bool) (now : Z) (st : Relay)
    : Relay * list Output :=
  match objects (ry_registry st) !! id with
  | None => (st, [])
  | Some c =>
      match cn_admitting c with
      | None => (st, [])
      | Some (a, asked) =>
          let admitted := admitConnection (if asked then Some answer else None) in
          let st := upd id (set_admitting None) st in
          if negb (cn_open c) then (st, [])
          else if negb admitted then
            (upd id (set_open false) st,
             Log a_refused (describeGrant (au_grant a)) (au_label a) (cn_transport c)
             :: sendJson c UnapprovedMessage ++ [Close (cn_ws c) 1005])
          else
            let conn := set_admitted a c in
            (upd id (set_admitted a) st,
             [ConnectionsChanged;
              Log a_connected (describeGrant (au_grant a)) (au_label a) (cn_transport c)]
             ++ sendJson c (AuthSuccessMessage (mkCaps (gr_readOnly (au_grant a))
                  (gr_files (au_grant a)) (scope_kind (gr_scope (au_grant a)))))
             ++ sendJson c (ServerInfo (negb (bool_decide (gr_files (au_grant a) = files_none))))
             ++ match pendingApprovalFor now conn (ry_approval st) with
                | Some live => sendJson c (ApprovalMsg (ApprovalRequest live))
                | None => []
                end)
      end
  end.

(** The close event, up to the queue being drained. *)
Definition on_close (id : nat) (st : Relay) : Relay * list Output :=
  (upd id set_closing st, []).

(** The close handler once the queue has drained. *)
Definition on_drained (id : nat) (now : Z) (st : Relay) : Relay * list Output :=
  match objects (ry_registry st) !! id with
  | None => (st, [])
  | Some c =>
      let st := with_registry (removeConnection id (update id set_closed (ry_registry st))) st in
      if cn_authenticated c then
        let '(approval, out) := noteApproversChanged now (ry_registry st) (ry_approval st) in
        (with_approval approval st,
         Log a_disconnected (describeGrant (cn_grant c)) (cn_label c) (cn_transport c)
         :: ConnectionsChanged :: approval_outputs out)
      else (st, [])
  end.

(** The panel hangs one connection up. *)
Definition on_disconnect (id : nat) (st : Relay) : Relay * list Output :=
  let '(_, r, out) := disconnectConnection id (ry_registry st) in
  (with_registry r st, closes out).

(** [onSessionTokenRevoked]: the revocation reaper. *)
Definition on_revoked (tokenIds : list string) (st : Relay) : Relay * list Output :=
  let '(r, out) := closeRevokedConnections tokenIds (ry_registry st) in
  (with_registry r st, closes out).

(** An operation on the session tokens, and its notices. *)
Definition on_pairing (ev : Event) (st : Relay) : Relay * list Output :=
  let auth := ry_auth st in
  let st' := with_auth (mkAS (as_entries auth) (step digest ev (as_pairing auth))) st in
  match ev with
  | RevokeToken token =>
      match (revokeSessionToken digest token (as_pairing auth)).2 with
      | TokenRevoked ids _ :: _ => on_revoked ids st'
      | _ => (st', [])
      end
  | RevokeGrant grantId =>
      match (revokeGrant grantId (as_pairing auth)).2 with
      | TokenRevoked ids _ :: _ => on_revoked ids st'
      | _ => (st', [])
      end
  | _ => (st', [])
  end.

(** The idle reaper. *)
Definition idle (now : Z) (ic : nat * Conn) : bool :=
  idleTimeoutMinutes * 60 * 1000 <? now - cn_lastActivityAt ic.2.

Definition on_idle_sweep (now : Z) (st : Relay) : Relay * list Output :=
  if idleTimeoutMinutes * 60 * 1000 <=? 0 then (st, [])
  else
    let hit := filter (fun ic => idle now ic = true) (getAllConnections (ry_registry st)) in
    (with_registry (closeSockets (map fst hit) (ry_registry st)) st,
     map (fun ic => Close (cn_ws ic.2) 1000) hit).

Definition on_approval (now : Z) (op : ApprovalOp) (st : Relay) : Relay * list Output :=
  let '(approval, out) := approval_step (mkEvent now (ry_registry st) op) (ry_approval st) in
  (with_approval approval st, approval_outputs out).

Definition setConnectionGate (installed : bool) (st : Relay) : Relay :=
  mkRelay (ry_auth st) (ry_registry st) (ry_approval st) installed.

(** ** Steps *)

Inductive REvent :=
| EConnection (ws : nat) (peer ua : option string) (now : Z)
| EAuthTimeout (id : nat)
| EMessage (id : nat) (frame : Frame) (now : Z)
| EAdmitted (id : nat) (answer : result unit bool) (now : Z)
| EClose (id : nat)
| EDrained (id : nat) (now : Z)
| EDisconnect (id : nat)
| EPairing (ev : Event)
| EIdle (now : Z)
| EApproval (now : Z) (op : ApprovalOp)
| ESetGate (installed : bool).

Definition handle (ev : REvent) (st : Relay) : Relay * list Output :=
  match ev with
  | EConnection ws peer ua now => on_connection ws peer ua now st
  | EAuthTimeout id => on_auth_timeout id st
  | EMessage id frame now => on_message id frame now st
  | EAdmitted id answer now => on_admitted id answer now st
  | EClose id => on_close id st
  | EDrained id now => on_drained id now st
  | EDisconnect id => on_disconnect id st
  | EPairing ev => on_pairing ev st
  | EIdle now => on_idle_sweep now st
  | EApproval now op => on_approval now op st
  | ESetGate installed => (setConnectionGate installed st, [])
  end.
End Handlers.
