(* ===== verification/RelaySafety.v ===== *)
(** * RelaySafety: caps and admission of the relay's sockets

    Invariants of Relay over every interleaving of its events: the connection
    counts are exact and capped as long as nobody hangs a connection up from
    the machine ([connection_caps]); what hanging up does to them
    ([disconnect_undercounts]); nothing is routed for a socket that was not
    authenticated and admitted ([routed_only_if_admitted]); and the revocation
    that a socket being admitted slips past ([revoked_while_admitting]). *)

From S2P Require Import Prelude Grants Policy AuthThrottle LocalPairing RelayAuth Connections Approval Relay.

(** ** The registry *)

Definition address_of (r : Registry) (id : nat) : option string :=
  c ← objects r !! id; cn_remoteAddress c.

(** The live connections from one address. *)
Definition ip_live (a : string) (r : Registry) : Z :=
  Z.of_nat (length (filter (fun id => address_of r id = Some a) (live r))).

(** The fields the caps depend on. *)
Definition same_place (c c' : Conn) : Prop :=
  cn_remoteAddress c' = cn_remoteAddress c /\ cn_closed c' = cn_closed c.

(** [r'] is [r] with some objects updated in place. *)
Definition in_place (r r' : Registry) : Prop :=
  live r' = live r /\ ipCounts r' = ipCounts r /\ length (objects r') = length (objects r) /\
  forall id c, objects r !! id = Some c -> exists c', objects r' !! id = Some c' /\ same_place c c'.

#[export] Instance in_place_refl : Reflexive in_place.
Proof. intros r. repeat split; eauto. intros id c Hc. exists c. by repeat split. Qed.

#[export] Instance in_place_trans : Transitive in_place.
Proof.
  intros r1 r2 r3 (L1 & C1 & N1 & O1) (L2 & C2 & N2 & O2). repeat split; [congruence..|].
  intros id c Hc. destruct (O1 id c Hc) as (c' & Hc' & [W A]).
  destruct (O2 id c' Hc') as (c'' & Hc'' & [W' A']). exists c''.
  split; [done|]. split; congruence.
Qed.

Lemma update_in_place id f r : (forall c, same_place c (f c)) -> in_place r (update id f r).
Proof.
  intros Hf. repeat split; [by simpl; rewrite length_alter|]. intros j c Hc. simpl.
  destruct (decide (j = id)) as [->|Hne].
  - exists (f c). by rewrite list_lookup_alter_eq, Hc.
  - exists c. by rewrite list_lookup_alter_ne by congruence.
Qed.

Lemma closeSockets_in_place ids r : in_place r (closeSockets ids r).
Proof.
  revert r. induction ids as [|id ids IH]; intros r; [done|]. etrans; [|apply IH].
  by apply update_in_place.
Qed.

Lemma in_place_address r r' id :
  in_place r r' -> address_of r' id = address_of r id.
Proof.
  intros (_ & _ & Hlen & Ho). unfold address_of.
  destruct (objects r !! id) as [c|] eqn:Hc; simpl.
  - destruct (Ho id c Hc) as (c' & -> & [Ha _]). done.
  - apply lookup_ge_None in Hc. rewrite <- Hlen in Hc. apply lookup_ge_None in Hc. by rewrite Hc.
Qed.

Lemma in_place_ip_live a r r' : in_place r r' -> ip_live a r' = ip_live a r.
Proof.
  intros H. unfold ip_live. pose proof H as (-> & _). do 2 f_equal.
  apply filter_ext_in. intros id _. by rewrite (in_place_address r r' id H).
Qed.

(** ** The invariant of the counts *)

Record reg_ok (r : Registry) : Prop := mkRegOk {
  ro_NoDup : NoDup (live r);
  ro_range : forall id, id ∈ live r -> (id < length (objects r))%nat;
  ro_counts : forall a, a <> ""%string -> getIpCount a r = ip_live a r;
  ro_total : getConnectionCount r <= MAX_CONNECTIONS;
  ro_perIp : forall a, a <> ""%string -> ip_live a r <= MAX_CONNECTIONS_PER_IP;
}.

Lemma reg_ok_in_place r r' : in_place r r' -> reg_ok r -> reg_ok r'.
Proof.
  intros Hp [H1 H2 H3 H4 H5]. pose proof Hp as (Hl & Hc & Hn & _). split.
  - by rewrite Hl.
  - intros id. rewrite Hl, Hn. apply H2.
  - intros a Ha. unfold getIpCount. rewrite Hc, (in_place_ip_live a r r' Hp). by apply H3.
  - unfold getConnectionCount. by rewrite Hl.
  - intros a Ha. rewrite (in_place_ip_live a r r' Hp). by apply H5.
Qed.

Lemma address_of_created ws l addr now r id :
  (id < length (objects r))%nat ->
  address_of (createConnection ws l addr now r).2 id = address_of r id.
Proof. intros Hid. unfold address_of. simpl. by rewrite lookup_app_l. Qed.

Lemma ip_live_created ws l a now r x :
  reg_ok r ->
  ip_live x (createConnection ws l (Some a) now r).2 = ip_live x r + (if decide (a = x) then 1 else 0).
Proof.
  intros [_ Hr _ _ _]. unfold ip_live. simpl live. rewrite filter_app, length_app.
  rewrite Nat2Z.inj_add. f_equal.
  - do 2 f_equal. apply filter_ext_in. intros id Hid. by rewrite address_of_created by auto.
  - rewrite filter_cons.
    assert (address_of (createConnection ws l (Some a) now r).2 (length (objects r)) = Some a) as ->.
    { unfold address_of. simpl. by rewrite lookup_app_r, Nat.sub_diag by lia. }
    destruct (decide (a = x)) as [->|Hne]; [by rewrite decide_True|].
    by rewrite decide_False by congruence.
Qed.

Lemma createConnection_ok ws l a now r :
  reg_ok r -> getConnectionCount r < MAX_CONNECTIONS -> getIpCount a r < MAX_CONNECTIONS_PER_IP ->
  reg_ok (createConnection ws l (Some a) now r).2.
Proof.
  intros Hok Hc Hip. pose proof Hok as [H1 H2 H3 H4 H5]. split.
  - simpl. apply NoDup_app. split; [done|]. split; [|apply NoDup_singleton].
    intros x Hx ->%list_elem_of_singleton. apply H2 in Hx. lia.
  - simpl. intros x. rewrite elem_of_app, list_elem_of_singleton, length_app. simpl.
    intros [Hx| ->]; [apply H2 in Hx|]; lia.
  - intros x Hx. rewrite ip_live_created by done. rewrite <- H3 by done. unfold getIpCount. simpl.
    destruct (decide (a = "")) as [->|Ha]; [by rewrite decide_False, Z.add_0_r|].
    destruct (decide (a = x)) as [->|Hne]; [by rewrite lookup_insert_eq|].
    by rewrite lookup_insert_ne, Z.add_0_r.
  - unfold getConnectionCount in *. simpl. rewrite length_app. simpl. lia.
  - intros x Hx. rewrite ip_live_created by done. specialize (H5 x Hx).
    destruct (decide (a = x)) as [->|Hne]; [|lia]. rewrite H3 in Hip by done. lia.
Qed.

(** ** Removal *)

Lemma ip_live_removed id r x :
  reg_ok r -> id ∈ live r ->
  ip_live x (removeConnection id r)
  = ip_live x r - (if decide (address_of r id = Some x) then 1 else 0).
Proof.
  intros [Hnd _ _ _ _] Hin. 
  pose proof (length_filter_remove (fun j => address_of r j = Some x) id (live r) Hnd Hin) as E.
  unfold ip_live. simpl. change (address_of (removeConnection id r)) with (address_of r). exact E.
Qed.

Lemma getIpCount_removed id r x :
  x <> ""%string ->
  getIpCount x (removeConnection id r)
  = if decide (address_of r id = Some x)
    then Z.max 0 (default 1 (ipCounts r !! x) - 1) else getIpCount x r.
Proof.
  intros Hx. unfold getIpCount, removeConnection, address_of. simpl.
  destruct (objects r !! id) as [c|]; simpl; [|done].
  destruct (cn_remoteAddress c) as [a|]; simpl; [|done].
  destruct (decide (a = "")) as [->|Ha].
  - by rewrite decide_False by congruence.
  - destruct (decide (Some a = Some x)) as [[= ->]|Hne].
    + destruct (default 1 (ipCounts r !! x) - 1 <=? 0) eqn:Hc.
      * rewrite lookup_delete_eq. simpl. lia.
      * rewrite lookup_insert_eq. simpl. lia.
    + destruct (default 1 (ipCounts r !! a) - 1 <=? 0);
        [rewrite lookup_delete_ne by congruence|rewrite lookup_insert_ne by congruence]; done.
Qed.

Lemma ip_live_pos id r x :
  id ∈ live r -> address_of r id = Some x -> 1 <= ip_live x r.
Proof.
  intros Hin Ha. unfold ip_live.
  assert (id ∈ filter (fun id => address_of r id = Some x) (live r)) as Hf
    by (apply list_elem_of_filter; done).
  destruct (filter _ (live r)); [by apply not_elem_of_nil in Hf|simpl; lia].
Qed.

Lemma counts_default r x :
  reg_ok r -> x <> ""%string -> 1 <= ip_live x r -> ipCounts r !! x = Some (ip_live x r).
Proof.
  intros Hok Hx Hp. pose proof (ro_counts r Hok x Hx) as Hc. unfold getIpCount in Hc.
  destruct (ipCounts r !! x) as [n|]; simpl in Hc; [by subst|lia].
Qed.

Lemma removeConnection_ok id r : reg_ok r -> id ∈ live r -> reg_ok (removeConnection id r).
Proof.
  intros Hok Hin. pose proof Hok as [H1 H2 H3 H4 H5]. split.
  - simpl. by apply NoDup_filter.
  - simpl. intros x [_ Hx]%list_elem_of_filter. by apply H2.
  - intros x Hx. rewrite getIpCount_removed, ip_live_removed by done.
    destruct (decide (address_of r id = Some x)) as [Ha|Ha]; [|rewrite H3 by done; lia].
    pose proof (ip_live_pos id r x Hin Ha) as Hp.
    rewrite (counts_default r x Hok Hx Hp). simpl. lia.
  - unfold getConnectionCount in *. simpl. pose proof (length_filter (fun x => x <> id) (live r)). lia.
  - intros x Hx. rewrite ip_live_removed by done. specialize (H5 x Hx). case_decide; lia.
Qed.

(** ** Runs without a hang-up from the machine *)

(** The close of a socket is drained once, after it has begun. *)
Definition enabled (ev : REvent) (st : Relay) : Prop :=
  match ev with
  | EDrained id _ => exists c, objects (ry_registry st) !! id = Some c /\
      cn_closing c = true /\ cn_closed c = false
  | _ => True
  end.

Definition hangs_up (ev : REvent) : bool := match ev with EDisconnect _ => true | _ => false end.

Section Runs.
Context (digest : jstr -> string) (authToken : jstr) (wsRateLimit idleTimeoutMinutes : Z).

Local Notation handle := (handle digest authToken wsRateLimit idleTimeoutMinutes).

(** Events that leave the set of connections alone. *)
Definition in_place_event (ev : REvent) : bool :=
  match ev with EConnection _ _ _ _ | EDrained _ _ | EDisconnect _ => false | _ => true end.

Lemma upd_in_place id f st :
  (forall c, same_place c (f c)) -> in_place (ry_registry st) (ry_registry (upd id f st)).
Proof. intros Hf. by apply update_in_place. Qed.

Lemma on_first_message_in_place id c token now st :
  in_place (ry_registry st)
    (ry_registry (on_first_message digest authToken id c token now st).1).
Proof.
  unfold on_first_message.
  destruct (authenticateMessage _ _ _ _ _ _) as [[[a|reason retry] auth] notices]; simpl;
    (etrans; [by apply (update_in_place id (set_timer false))|]); by apply update_in_place.
Qed.

Lemma on_message_in_place id frame now st :
  in_place (ry_registry st)
    (ry_registry (on_message digest authToken wsRateLimit id frame now st).1).
Proof.
  unfold on_message. destruct (objects (ry_registry st) !! id) as [c|]; [|done].
  assert (in_place (ry_registry st) (ry_registry (upd id (set_activity now) st))) as H1
    by by apply update_in_place.
  destruct (cn_admitting c); [exact H1|].
  destruct (check wsRateLimit now (cn_limiter c)) as [ok limiter].
  assert (in_place (ry_registry st)
    (ry_registry (upd id (set_limiter limiter) (upd id (set_activity now) st)))) as H2
    by (etrans; [exact H1|by apply update_in_place]).
  destruct (negb ok); [exact H2|]. destruct frame as [|token msg]; [exact H2|].
  destruct (cn_authenticated c); [exact H2|]. etrans; [exact H2|apply on_first_message_in_place].
Qed.

Lemma on_admitted_in_place id answer now st :
  in_place (ry_registry st) (ry_registry (on_admitted id answer now st).1).
Proof.
  unfold on_admitted. destruct (objects (ry_registry st) !! id) as [c|]; [|done].
  destruct (cn_admitting c) as [[a asked]|]; [|done].
  assert (in_place (ry_registry st) (ry_registry (upd id (set_admitting None) st))) as H1
    by by apply update_in_place.
  destruct (negb (cn_open c)); [exact H1|].
  destruct (negb _); (etrans; [exact H1|by apply update_in_place]).
Qed.

Lemma on_pairing_in_place ev st :
  in_place (ry_registry st) (ry_registry (on_pairing digest ev st).1).
Proof.
  unfold on_pairing, on_revoked, closeRevokedConnections. destruct ev; try done;
    repeat case_match; simplify_eq/=; try done; apply closeSockets_in_place.
Qed.

Lemma handle_in_place ev st :
  in_place_event ev = true -> in_place (ry_registry st) (ry_registry (handle ev st).1).
Proof.
  destruct ev; try done; intros _; simpl.
  - unfold on_auth_timeout. repeat case_match; try done. by apply update_in_place.
  - apply on_message_in_place.
  - apply on_admitted_in_place.
  - by apply update_in_place.
  - apply on_pairing_in_place.
  - unfold on_idle_sweep. case_match; [done|]. apply closeSockets_in_place.
  - unfold on_approval. by destruct (approval_step _ _).
Qed.

(** Every connection whose close has not been drained is in the map. *)
Definition relay_ok (st : Relay) : Prop :=
  reg_ok (ry_registry st) /\
  (forall id c, objects (ry_registry st) !! id = Some c -> cn_closed c = false ->
   id ∈ live (ry_registry st)).

Lemma relay_ok_in_place st st' :
  in_place (ry_registry st) (ry_registry st') -> relay_ok st -> relay_ok st'.
Proof.
  intros Hp [Hr Hl]. split; [by eapply reg_ok_in_place|]. intros id c Hc Hcl.
  destruct Hp as (Hlive & _ & Hlen & Ho). rewrite Hlive.
  destruct (lookup_lt_is_Some_2 (objects (ry_registry st)) id) as [c0 Hc0].
  { rewrite <- Hlen. by eapply lookup_lt_Some. }
  destruct (Ho id c0 Hc0) as (c' & Hc' & [_ Hclosed]). rewrite Hc in Hc'. injection Hc' as <-.
  apply (Hl id c0 Hc0). congruence.
Qed.

Lemma connection_relay_ok ws peer ua now st :
  relay_ok st -> relay_ok (on_connection ws peer ua now st).1.
Proof.
  intros [Hr Hl]. unfold on_connection. case_match eqn:Hcap; [by split|].
  case_match eqn:Hip; [by split|].
  set (r := (createConnection ws (createRateLimiter now) (Some (default "unknown" peer)) now
               (ry_registry st)).2).
  apply (relay_ok_in_place (with_registry r st)); [by apply update_in_place|]. split; simpl.
  - apply createConnection_ok; [done|lia|lia].
  - unfold r. simpl. intros id c Hc Hcl. apply elem_of_app.
    apply lookup_app_Some in Hc as [Hc|[Hge Hc]]; [left; by eapply Hl|].
    right. apply list_lookup_singleton_Some in Hc as [Hz _].
    apply list_elem_of_singleton. lia.
Qed.

Lemma drained_registry id now st c :
  objects (ry_registry st) !! id = Some c ->
  ry_registry (on_drained id now st).1
  = removeConnection id (update id set_closed (ry_registry st)).
Proof.
  intros Hc. unfold on_drained. rewrite Hc. destruct (cn_authenticated c); [|done].
  by destruct (noteApproversChanged _ _ _).
Qed.

(** [set_closed] is in place but for the close mark. *)
Lemma set_closed_address id r j :
  address_of (update id set_closed r) j = address_of r j.
Proof.
  unfold address_of. simpl. destruct (decide (j = id)) as [->|Hne].
  - rewrite list_lookup_alter_eq. by destruct (objects r !! id).
  - by rewrite list_lookup_alter_ne by congruence.
Qed.

Lemma set_closed_ip_live id r a : ip_live a (update id set_closed r) = ip_live a r.
Proof.
  unfold ip_live. simpl. do 2 f_equal. apply filter_ext_in. intros j _.
  by rewrite set_closed_address.
Qed.

Lemma set_closed_ok id r : reg_ok r -> reg_ok (update id set_closed r).
Proof.
  intros [H1 H2 H3 H4 H5]. split; try done.
  - intros j Hj. simpl. rewrite length_alter. by apply H2.
  - intros a Ha. rewrite set_closed_ip_live. by apply H3.
  - intros a Ha. rewrite set_closed_ip_live. by apply H5.
Qed.

Lemma drained_relay_ok id now st c :
  objects (ry_registry st) !! id = Some c -> cn_closed c = false ->
  relay_ok st -> relay_ok (on_drained id now st).1.
Proof.
  intros Hc Hcl [Hr Hl]. pose proof (Hl id c Hc Hcl) as Hin. unfold relay_ok.
  rewrite (drained_registry id now st c Hc). split.
  - apply removeConnection_ok; [by apply set_closed_ok|done].
  - simpl. intros j c' Hj Hclj. apply list_elem_of_filter.
    destruct (decide (j = id)) as [->|Hne].
    + rewrite list_lookup_alter_eq, Hc in Hj. by injection Hj as <-.
    + rewrite list_lookup_alter_ne in Hj by congruence. split; [done|by eapply Hl].
Qed.

Lemma handle_relay_ok ev st :
  relay_ok st -> enabled ev st -> hangs_up ev = false -> relay_ok (handle ev st).1.
Proof.
  intros Hok Hen Hq. destruct (in_place_event ev) eqn:Hip.
  { eapply relay_ok_in_place; [by apply handle_in_place|done]. }
  destruct ev; try done.
  - by apply connection_relay_ok.
  - destruct Hen as (c & Hc & _ & Hcl). by apply (drained_relay_ok id now st c).
Qed.

(** The states a relay can get to; [quiet] when nobody hangs up from the
    machine. *)
Inductive reachable (quiet : bool) (init : Relay) : Relay -> Prop :=
| reach_init : reachable quiet init init
| reach_step ev st : reachable quiet init st -> enabled ev st ->
    (quiet = true -> hangs_up ev = false) -> reachable quiet init (handle ev st).1.

(** A relay with nobody connected. *)
Definition no_connections (st : Relay) : Prop := ry_registry st = empty_registry.

Lemma no_connections_ok st : no_connections st -> relay_ok st.
Proof.
  unfold no_connections, relay_ok. intros ->. split; [|done]. split; simpl.
  - constructor.
  - by intros id ?%not_elem_of_nil.
  - intros a Ha. unfold getIpCount. simpl. by rewrite lookup_empty.
  - unfold getConnectionCount, MAX_CONNECTIONS. simpl. lia.
  - intros a Ha. unfold ip_live, MAX_CONNECTIONS_PER_IP. simpl. lia.
Qed.

Lemma reachable_ok init st : no_connections init -> reachable true init st -> relay_ok st.
Proof.
  intros Hi. induction 1 as [|ev st Hr IH Hen Hq]; [by apply no_connections_ok|].
  apply handle_relay_ok; auto.
Qed.

(** The connection caps hold.  As long as no connection is hung up from
    the machine, in every reachable state at most 100 sockets are connected,
    at most 10 from any one address, and the per-address count the relay goes
    by is exactly the number of its live connections. *)
Theorem connection_caps init st a
    (Hinit : no_connections init) (Hreach : reachable true init st) (Ha : a <> ""%string) :
  getConnectionCount (ry_registry st) <= 100 /\
  ip_live a (ry_registry st) <= 10 /\
  getIpCount a (ry_registry st) = ip_live a (ry_registry st).
Proof.
  destruct (reachable_ok init st Hinit Hreach) as [[_ _ Hc Ht Hp] _].
  split; [exact Ht|]. split; [exact (Hp a Ha)|exact (Hc a Ha)].
Qed.

(** ** Hanging up *)

(** What hanging up and the close event after it do to the registry. *)
Definition hung_up (id : nat) (r : Registry) : Registry :=
  removeConnection id (update id set_closed (update id set_closing
    (removeConnection id (closeSockets [id] r)))).

Lemma hung_up_registry id now st :
  id ∈ live (ry_registry st) -> (id < length (objects (ry_registry st)))%nat ->
  ry_registry (handle (EDrained id now) (handle (EClose id) (handle (EDisconnect id) st).1).1).1
  = hung_up id (ry_registry st).
Proof.
  intros Hlive [c Hc]%lookup_lt_is_Some_2.
  assert ((handle (EDisconnect id) st).1
    = with_registry (removeConnection id (closeSockets [id] (ry_registry st))) st) as ->.
  { simpl. unfold on_disconnect, disconnectConnection. by rewrite decide_True, Hc. }
  set (r := ry_registry st) in *. set (r2 := removeConnection id (closeSockets [id] r)).
  assert (exists c3, objects (ry_registry (handle (EClose id) (with_registry r2 st)).1) !! id
    = Some c3) as [c3 Hc3].
  { exists (set_closing (set_open false c)). simpl.
    rewrite !list_lookup_alter_eq. by rewrite Hc. }
  by apply (drained_registry id now _ c3 Hc3).
Qed.

Lemma hung_up_address id r j : address_of (hung_up id r) j = address_of r j.
Proof.
  unfold hung_up. change (address_of (removeConnection id ?r) j) with (address_of r j).
  rewrite set_closed_address.
  rewrite (in_place_address _ _ j (update_in_place id set_closing _ ltac:(done))).
  change (address_of (removeConnection id ?r) j) with (address_of r j).
  by rewrite (in_place_address _ _ j (closeSockets_in_place [id] r)).
Qed.

Lemma hung_up_live id r : live (hung_up id r) = filter (fun x => x <> id) (live r).
Proof.
  unfold hung_up. simpl. rewrite list_filter_filter. apply filter_ext_in. tauto.
Qed.

Lemma hung_up_ip_live id r a :
  reg_ok r -> id ∈ live r -> address_of r id = Some a ->
  ip_live a (hung_up id r) = ip_live a r - 1.
Proof.
  intros Hok Hlive Ha. pose proof (ip_live_removed id r a Hok Hlive) as Hr.
  rewrite decide_True in Hr by done. rewrite <- Hr. unfold ip_live. rewrite hung_up_live.
  do 2 f_equal. apply filter_ext_in. intros j _. by rewrite hung_up_address.
Qed.

Lemma hung_up_count id r a :
  reg_ok r -> id ∈ live r -> a <> ""%string -> address_of r id = Some a -> 2 <= ip_live a r ->
  getIpCount a (hung_up id r) = ip_live a r - 2.
Proof.
  intros Hok Hlive Hne Ha H2. unfold hung_up.
  set (r1 := closeSockets [id] r).
  assert (in_place r r1) as Hp by apply closeSockets_in_place.
  set (r2 := removeConnection id r1).
  assert (address_of r1 id = Some a) as Ha1 by by rewrite (in_place_address r r1).
  assert (getIpCount a r2 = ip_live a r - 1) as H1.
  { unfold r2. rewrite getIpCount_removed, decide_True by done.
    destruct Hp as (_ & -> & _). rewrite counts_default by (done || lia). simpl. lia. }
  rewrite getIpCount_removed by done. rewrite set_closed_address.
  rewrite (in_place_address r2 _ id (update_in_place id set_closing r2 ltac:(done))).
  rewrite decide_True by done.
  change (ipCounts (update id set_closed (update id set_closing r2))) with (ipCounts r2).
  unfold getIpCount in H1. destruct (ipCounts r2 !! a) as [n|]; simpl in *; lia.
Qed.

(** Hanging up a connection makes the relay undercount.  The machine's
    "disconnect" removes the connection and closes its socket, whose close
    event then removes it again: afterwards the address counts one connection
    fewer than are live, so its cap no longer holds. *)
Theorem disconnect_undercounts init st id a now
    (Hinit : no_connections init) (Hreach : reachable true init st) (Ha : a <> ""%string)
    (Hlive : id ∈ live (ry_registry st)) (Haddr : address_of (ry_registry st) id = Some a)
    (Hothers : 2 <= ip_live a (ry_registry st)) :
  let r' := ry_registry
    (handle (EDrained id now) (handle (EClose id) (handle (EDisconnect id) st).1).1).1 in
  ip_live a r' = ip_live a (ry_registry st) - 1 /\ getIpCount a r' = ip_live a r' - 1.
Proof.
  destruct (reachable_ok init st Hinit Hreach) as [Hok _]. cbv zeta.
  rewrite hung_up_registry by (done || by apply (ro_range _ Hok)).
  rewrite hung_up_count, hung_up_ip_live by done. lia.
Qed.

(** ** How a connection comes to be authenticated *)

Definition same_auth (c c' : Conn) : Prop :=
  cn_authenticated c' = cn_authenticated c /\ cn_admitting c' = cn_admitting c /\
  cn_grant c' = cn_grant c /\ cn_remoteAddress c' = cn_remoteAddress c.

(** Every object of [r'] is one of [r] with the same authentication. *)
Definition auth_kept (r r' : Registry) : Prop :=
  forall id c', objects r' !! id = Some c' ->
  exists c, objects r !! id = Some c /\ same_auth c c'.

#[local] Instance auth_kept_refl : Reflexive auth_kept.
Proof. intros r id c Hc. exists c. by repeat split. Qed.

#[local] Instance auth_kept_trans : Transitive auth_kept.
Proof.
  intros r1 r2 r3 H1 H2 id c3 Hc3. destruct (H2 id c3 Hc3) as (c2 & Hc2 & S2).
  destruct (H1 id c2 Hc2) as (c1 & Hc1 & S1). exists c1. split; [done|].
  unfold same_auth in *. intuition congruence.
Qed.

Lemma update_auth_kept id f r : (forall c, same_auth c (f c)) -> auth_kept r (update id f r).
Proof.
  intros Hf j c' Hj. simpl in Hj. destruct (decide (j = id)) as [->|Hne].
  - rewrite list_lookup_alter_eq in Hj. apply fmap_Some in Hj as (c & Hc & ->). eauto.
  - rewrite list_lookup_alter_ne in Hj by congruence. exists c'. by repeat split.
Qed.

Lemma closeSockets_auth_kept ids r : auth_kept r (closeSockets ids r).
Proof.
  revert r. induction ids as [|id ids IH]; intros r; [done|]. etrans; [|apply IH].
  by apply update_auth_kept.
Qed.

(** What an event makes of connection [id]: one of these. *)
Inductive auth_change (st : Relay) (ev : REvent) (id : nat) (c' : Conn) : Prop :=
| ac_fresh : cn_authenticated c' = false -> cn_admitting c' = None -> auth_change st ev id c'
| ac_kept c : objects (ry_registry st) !! id = Some c -> same_auth c c' -> auth_change st ev id c'
| ac_credential c token msg now a auth notices :
    objects (ry_registry st) !! id = Some c ->
    ev = EMessage id (Parsed (Some token) msg) now ->
    authenticateMessage digest authToken (Some token) (cn_remoteAddress c) now (ry_auth st)
      = (Authenticated a, auth, notices) ->
    cn_authenticated c' = cn_authenticated c -> cn_grant c' = cn_grant c ->
    cn_admitting c' = Some (a, ry_gate st) -> auth_change st ev id c'
| ac_refused c answer now :
    objects (ry_registry st) !! id = Some c -> ev = EAdmitted id answer now ->
    cn_authenticated c' = cn_authenticated c -> cn_grant c' = cn_grant c ->
    cn_admitting c' = None -> auth_change st ev id c'
| ac_admitted c answer now a asked :
    objects (ry_registry st) !! id = Some c -> ev = EAdmitted id answer now ->
    cn_admitting c = Some (a, asked) ->
    admitConnection (if asked then Some answer else None) = true ->
    cn_grant c' = au_grant a -> cn_admitting c' = None -> auth_change st ev id c'.

Lemma kept_change st ev id c' r' :
  auth_kept (ry_registry st) r' -> objects r' !! id = Some c' -> auth_change st ev id c'.
Proof. intros Hk Hc. destruct (Hk id c' Hc) as (c & Hc0 & Hs). by eapply ac_kept. Qed.

(** An update of connection [id] alone, after authentication-neutral ones. *)
Lemma focus_change st ev id r f j c' :
  auth_kept (ry_registry st) r -> objects (update id f r) !! j = Some c' ->
  (forall c, objects r !! id = Some c -> j = id -> auth_change st ev id (f c)) ->
  auth_change st ev j c'.
Proof.
  intros Hk Hj Hf. simpl in Hj. destruct (decide (j = id)) as [->|Hne].
  - rewrite list_lookup_alter_eq in Hj. apply fmap_Some in Hj as (c & Hc & ->). by apply Hf.
  - rewrite list_lookup_alter_ne in Hj by congruence. by eapply kept_change.
Qed.

Lemma first_message_change id c token msg now st st0 j c' :
  auth_kept (ry_registry st0) (ry_registry st) -> ry_auth st = ry_auth st0 ->
  ry_gate st = ry_gate st0 -> objects (ry_registry st0) !! id = Some c ->
  objects (ry_registry (on_first_message digest authToken id c token now st).1) !! j = Some c' ->
  auth_change st0 (EMessage id (Parsed token msg) now) j c'.
Proof.
  intros Hk Ha Hg Hc Hj. unfold on_first_message in Hj. simpl in Hj.
  rewrite Ha, Hg in Hj.
  assert (auth_kept (ry_registry st0) (update id (set_timer false) (ry_registry st))) as Hk'
    by (etrans; [exact Hk|by apply update_auth_kept]).
  destruct (authenticateMessage _ _ _ _ _ _) as [[[a|reason retry] auth] notices] eqn:Hauth;
    simpl in Hj.
  - apply (focus_change _ _ id _ (set_admitting (Some (a, ry_gate st0))) _ _ Hk' Hj).
    intros c1 Hc1 ->.
    destruct (Hk' id c1 Hc1) as (c0 & Hc0 & Hau & Had & Hgr & _). rewrite Hc in Hc0.
    injection Hc0 as <-. destruct token as [token|]; [|done].
    by eapply ac_credential.
  - apply (kept_change _ _ _ _ (update id (set_open false)
      (update id (set_timer false) (ry_registry st)))); [|exact Hj].
    etrans; [exact Hk'|by apply update_auth_kept].
Qed.

Lemma message_change id frame now st j c' :
  objects (ry_registry (on_message digest authToken wsRateLimit id frame now st).1) !! j = Some c' ->
  auth_change st (EMessage id frame now) j c'.
Proof.
  unfold on_message. destruct (objects (ry_registry st) !! id) as [c|] eqn:Hc;
    [|intros Hj; by eapply kept_change].
  assert (auth_kept (ry_registry st) (ry_registry (upd id (set_activity now) st))) as H1
    by by apply update_auth_kept.
  destruct (cn_admitting c); [intros Hj; by eapply kept_change|].
  destruct (check wsRateLimit now (cn_limiter c)) as [ok limiter].
  assert (auth_kept (ry_registry st)
    (ry_registry (upd id (set_limiter limiter) (upd id (set_activity now) st)))) as H2
    by (etrans; [exact H1|by apply update_auth_kept]).
  destruct (negb ok); [intros Hj; by eapply kept_change|].
  destruct frame as [|token msg]; [intros Hj; by eapply kept_change|].
  destruct (cn_authenticated c); [intros Hj; by eapply kept_change|].
  intros Hj. by eapply (first_message_change id c token msg now _ st).
Qed.

Lemma admitted_change id answer now st j c' :
  objects (ry_registry (on_admitted id answer now st).1) !! j = Some c' ->
  auth_change st (EAdmitted id answer now) j c'.
Proof.
  unfold on_admitted. destruct (objects (ry_registry st) !! id) as [c|] eqn:Hc;
    [|intros Hj; by eapply kept_change].
  destruct (cn_admitting c) as [[a asked]|] eqn:Had; [|intros Hj; by eapply kept_change].
  assert (forall f, objects (update id f (update id (set_admitting None) (ry_registry st))) !! j
      = Some c' ->
    (auth_change st (EAdmitted id answer now) id (f (set_admitting None c))) ->
    auth_change st (EAdmitted id answer now) j c') as Htwo.
  { intros f Hj Hf. simpl in Hj. destruct (decide (j = id)) as [->|Hne].
    - rewrite !list_lookup_alter_eq, Hc in Hj. by injection Hj as <-.
    - rewrite !list_lookup_alter_ne in Hj by congruence. by apply (kept_change _ _ _ _ (ry_registry st)). }
  destruct (negb (cn_open c)).
  { intros Hj. apply (focus_change _ _ id (ry_registry st) (set_admitting None) _ _
      (reflexivity _) Hj). intros c1 Hc1 ->. by eapply ac_refused. }
  destruct (negb (admitConnection _)) eqn:Hadm; intros Hj; apply (Htwo _ Hj).
  - by eapply (ac_refused _ _ _ _ c).
  - apply negb_false_iff in Hadm. by eapply (ac_admitted _ _ _ _ c).
Qed.

Lemma connection_change ws peer ua now st j c' :
  objects (ry_registry (on_connection ws peer ua now st).1) !! j = Some c' ->
  auth_change st (EConnection ws peer ua now) j c'.
Proof.
  unfold on_connection. case_match; [intros; by eapply kept_change|].
  case_match; [intros; by eapply kept_change|]. simpl. intros Hj.
  assert (exists c0, objects (createConnection ws (createRateLimiter now)
    (Some (default "unknown" peer)) now (ry_registry st)).2 !! j = Some c0 /\ same_auth c0 c')
    as (c0 & Hc0 & Hs).
  { destruct (update_auth_kept (length (objects (ry_registry st)))
      (set_identity (transportFor (Some (default "unknown" peer)) ua) ua)
      (createConnection ws (createRateLimiter now) (Some (default "unknown" peer)) now
         (ry_registry st)).2 ltac:(done) j c' Hj) as (c0 & Hc0 & Hs). by exists c0. }
  simpl in Hc0. apply lookup_app_Some in Hc0 as [Hc0|[_ Hc0]]; [by eapply ac_kept|].
  apply list_lookup_singleton_Some in Hc0 as [_ <-]. destruct Hs as (H1 & H2 & _).
  by apply ac_fresh.
Qed.

Lemma removeConnection_auth_kept id r : auth_kept r (removeConnection id r).
Proof. intros j c Hc. exists c. by repeat split. Qed.

Lemma other_events_kept ev st :
  match ev with EConnection _ _ _ _ | EMessage _ _ _ | EAdmitted _ _ _ => False | _ => True end ->
  auth_kept (ry_registry st) (ry_registry (handle ev st).1).
Proof.
  destruct ev; try done; intros _; simpl.
  - unfold on_auth_timeout. repeat case_match; try done. by apply update_auth_kept.
  - by apply update_auth_kept.
  - destruct (objects (ry_registry st) !! id) as [c|] eqn:Hc.
    + rewrite (drained_registry id now st c Hc).
      etrans; [by apply (update_auth_kept id set_closed)|apply removeConnection_auth_kept].
    + unfold on_drained. by rewrite Hc.
  - unfold on_disconnect, disconnectConnection. repeat case_match; simplify_eq/=; try done.
    etrans; [apply (closeSockets_auth_kept [id])|apply removeConnection_auth_kept].
  - unfold on_pairing, on_revoked, closeRevokedConnections. destruct ev; try done;
      repeat case_match; simplify_eq/=; try done; apply closeSockets_auth_kept.
  - unfold on_idle_sweep. case_match; [done|]. apply closeSockets_auth_kept.
  - unfold on_approval. by destruct (approval_step _ _).
Qed.

Lemma handle_change ev st j c' :
  objects (ry_registry (handle ev st).1) !! j = Some c' -> auth_change st ev j c'.
Proof.
  destruct ev; intros Hj; try (by eapply kept_change; [apply other_events_kept|exact Hj]).
  - by apply connection_change.
  - by apply message_change.
  - by apply admitted_change.
Qed.

(** Only an authenticated connection's messages are routed. *)
Definition is_route (o : Output) : bool := match o with Route _ _ => true | _ => false end.

Lemma no_route l id msg : forallb (negb ∘ is_route) l = true -> Route id msg ∉ l.
Proof. intros H Hin. rewrite forallb_forall in H. by apply list_elem_of_In, H in Hin. Qed.

Lemma sendJson_no_route c m : forallb (negb ∘ is_route) (sendJson c m) = true.
Proof. unfold sendJson. by destruct (cn_open c). Qed.

Lemma notices_no_route l : forallb (negb ∘ is_route) (map PairingNotice l) = true.
Proof. by induction l. Qed.

Lemma approval_no_route l : forallb (negb ∘ is_route) (approval_outputs l) = true.
Proof. induction l as [|[] l IH]; done. Qed.

Lemma closes_no_route l : forallb (negb ∘ is_route) (closes l) = true.
Proof. by induction l. Qed.

Lemma map_close_no_route {A} (f : A -> nat) n l :
  forallb (negb ∘ is_route) (map (fun x => Close (f x) n) l) = true.
Proof. by induction l. Qed.

Ltac no_route :=
  exfalso; match goal with H : Route _ _ ∈ _ |- _ => revert H end; apply no_route; simpl;
  rewrite ?forallb_app, ?sendJson_no_route, ?notices_no_route, ?approval_no_route,
    ?closes_no_route, ?map_close_no_route; try done.

Lemma route_authenticated ev st id msg :
  Route id msg ∈ (handle ev st).2 ->
  exists c, objects (ry_registry st) !! id = Some c /\ cn_authenticated c = true.
Proof.
  destruct ev; simpl; intros Hin.
  - unfold on_connection in Hin. repeat case_match; simpl in Hin; no_route.
  - unfold on_auth_timeout in Hin. repeat case_match; simpl in Hin; no_route.
  - unfold on_message in Hin. destruct (objects (ry_registry st) !! id0) as [c|] eqn:Hc;
      [|no_route].
    destruct (cn_admitting c); [no_route|]. destruct (check _ _ _) as [ok l].
    destruct (negb ok); [no_route|]. destruct frame as [|token m]; [no_route|].
    destruct (cn_authenticated c) eqn:Ha.
    + simpl in Hin. destruct (cn_closing c); [no_route|].
      apply list_elem_of_singleton in Hin as [= -> ->]. eauto.
    + unfold on_first_message in Hin.
      destruct (authenticateMessage _ _ _ _ _ _) as [[[a|reason retry] auth] notices];
        simpl in Hin; [destruct (ry_gate st)|]; no_route.
  - unfold on_admitted in Hin. repeat case_match; simpl in Hin; no_route.
  - no_route.
  - unfold on_drained in Hin. repeat case_match; simpl in Hin; no_route.
  - unfold on_disconnect in Hin. repeat case_match; simpl in Hin; no_route.
  - unfold on_pairing, on_revoked in Hin. repeat case_match; simpl in Hin; no_route.
  - unfold on_idle_sweep in Hin. repeat case_match; simpl in Hin; no_route.
  - unfold on_approval in Hin. repeat case_match; simpl in Hin; no_route.
  - no_route.
Qed.

(** ** Runs, by their events *)

Context (init : Relay) (Hinit : no_connections init).

Definition state_after (evs : list REvent) : Relay :=
  foldl (fun st ev => (handle ev st).1) init evs.

(** In the run [evs], connection [id] has presented a token that was accepted
    as [a], when a gate was installed or not ([asked]). *)
Definition credential_in (evs : list REvent) (id : nat) (a : AuthSuccess) (asked : bool) : Prop :=
  exists evs1 token msg now evs2 auth notices,
    evs = evs1 ++ EMessage id (Parsed (Some token) msg) now :: evs2 /\
    authenticateMessage digest authToken (Some token)
      (address_of (ry_registry (state_after evs1)) id) now (ry_auth (state_after evs1))
      = (Authenticated a, auth, notices) /\
    asked = ry_gate (state_after evs1).

(** ... and was then let in by the gate, or there was none to ask. *)
Definition admitted_in (evs : list REvent) (id : nat) (grant : GrantRecord) : Prop :=
  exists evs1 answer now evs2 a asked,
    evs = evs1 ++ EAdmitted id answer now :: evs2 /\
    credential_in evs1 id a asked /\
    (asked = true -> answer = Ok true) /\ grant = au_grant a.

Lemma credential_in_app evs evs' id a asked :
  credential_in evs id a asked -> credential_in (evs ++ evs') id a asked.
Proof.
  intros (evs1 & t & m & n & evs2 & auth & no & -> & H). exists evs1, t, m, n, (evs2 ++ evs'), auth, no.
  split; [|done]. by rewrite <- (assoc_L app).
Qed.

Lemma admitted_in_app evs evs' id g :
  admitted_in evs id g -> admitted_in (evs ++ evs') id g.
Proof.
  intros (evs1 & ans & n & evs2 & a & asked & -> & H). exists evs1, ans, n, (evs2 ++ evs'), a, asked.
  split; [|done]. by rewrite <- (assoc_L app).
Qed.

Lemma state_after_snoc evs ev : state_after (evs ++ [ev]) = (handle ev (state_after evs)).1.
Proof. unfold state_after. by rewrite foldl_app. Qed.

Lemma history evs id c :
  objects (ry_registry (state_after evs)) !! id = Some c ->
  (forall a asked, cn_admitting c = Some (a, asked) -> credential_in evs id a asked) /\
  (cn_authenticated c = true -> admitted_in evs id (cn_grant c)).
Proof.
  revert id c. induction evs as [|ev evs IH] using rev_ind; intros id c Hc.
  { unfold state_after in Hc. simpl in Hc. rewrite Hinit in Hc. by destruct id. }
  rewrite state_after_snoc in Hc.
  destruct (handle_change ev (state_after evs) id c Hc)
    as [H1 H2|c0 Hc0 (H1 & H2 & H3 & _)|c0 token msg now a auth notices Hc0 -> Hauth H1 H3 H2
       |c0 answer now Hc0 -> H1 H3 H2|c0 answer now a asked Hc0 -> Had Hok Hg H2].
  - by rewrite H1, H2.
  - destruct (IH id c0 Hc0) as [IHa IHb]. rewrite H1, H2, H3. split.
    + intros a asked Ha. apply credential_in_app. by apply IHa.
    + intros Ha. apply admitted_in_app. by apply IHb.
  - destruct (IH id c0 Hc0) as [_ IHb]. rewrite H1, H2, H3. split.
    + intros a' asked [= <- <-]. exists evs, token, msg, now, [], auth, notices.
      split; [done|]. split; [|done]. unfold address_of. by rewrite Hc0.
    + intros Ha. apply admitted_in_app. by apply IHb.
  - destruct (IH id c0 Hc0) as [_ IHb]. rewrite H1, H2, H3. split; [done|].
    intros Ha. apply admitted_in_app. by apply IHb.
  - destruct (IH id c0 Hc0) as [IHa _]. rewrite H2, Hg. split; [done|]. intros _.
    exists evs, answer, now, [], a, asked. split; [done|]. split; [by apply IHa|].
    split; [|done]. intros ->. by destruct answer as [[]|].
Qed.

(** C10: nothing is routed before admission.  Whenever, in any run, the relay
    hands a message of a connection to the router, that connection has, earlier
    in the run, presented a token that authentication accepted at that moment,
    and after that the gate (if one was installed) answered yes; the grant it
    acts under is the one that token stood for. *)
Theorem routed_only_if_admitted evs ev id msg
    (Hroute : Route id msg ∈ (handle ev (state_after evs)).2) :
  exists grant, admitted_in evs id grant /\
  (c ← objects (ry_registry (state_after evs)) !! id; Some (cn_grant c)) = Some grant.
Proof.
  assert (exists c, objects (ry_registry (state_after evs)) !! id = Some c /\
    cn_authenticated c = true) as (c & Hc & Ha).
  { by apply (route_authenticated ev _ _ msg). }
  exists (cn_grant c). rewrite Hc. split; [|done]. by apply (history evs id c).
Qed.

(** ** A revocation that is missed *)

Lemma closeRevoked_keeps ids r id c :
  objects r !! id = Some c -> uses_token ids c = false ->
  objects (closeRevokedConnections ids r).1 !! id = Some c.
Proof.
  intros Hc Hno. unfold closeRevokedConnections. simpl.
  set (hit := filter (fun ic => uses_token ids ic.2 = true) (getAllConnections r)).
  assert (id ∉ map fst hit) as Hnot.
  { intros ([j d] & -> & [Hu Hin]%list_elem_of_filter)%list_elem_of_fmap. simpl in *.
    apply list_elem_of_omap in Hin as (k & _ & Hk). apply fmap_Some in Hk as (e & He & [= -> ->]).
    congruence. }
  clearbody hit. revert Hnot. clear Hno. generalize (map fst hit) as js. intros js.
  revert r Hc. induction js as [|j js IH]; intros r Hc Hnot; [done|].
  apply not_elem_of_cons in Hnot as [Hne Hnot]. simpl. apply IH; [|done].
  simpl. by rewrite list_lookup_alter_ne by congruence.
Qed.

(** A revocation during the question is lost.  If a device's token is
    revoked while the human is being asked about its socket, the revocation
    closes nothing (the socket carries no token id yet), and a yes afterwards
    authenticates it with the revoked credential's grant; revoking the token
    again does nothing either, since it is gone from the map. *)
Theorem revoked_while_admitting st id c a token now
    (Hc : objects (ry_registry st) !! id = Some c)
    (Hasking : cn_admitting c = Some (a, true)) (Hopen : cn_open c = true)
    (Htoken : au_tokenId a = Some (digest token)) (Hnone : cn_tokenId c = None) :
  let st1 := (handle (EPairing (RevokeToken token)) st).1 in
  let st2 := (handle (EAdmitted id (Ok true) now) st1).1 in
  assoc_get (digest token) (sessions (as_pairing (ry_auth st2))) = None /\
  (exists c', objects (ry_registry st2) !! id = Some c' /\ cn_open c' = true /\
     cn_authenticated c' = true /\ cn_grant c' = au_grant a /\
     cn_tokenId c' = Some (digest token)) /\
  (handle (EPairing (RevokeToken token)) st2).2 = [].
Proof.
  cbv zeta. set (st1 := (handle (EPairing (RevokeToken token)) st).1).
  assert (assoc_get (digest token) (sessions (as_pairing (ry_auth st1))) = None /\
    objects (ry_registry st1) !! id = Some c) as [Hgone Hc1].
  { unfold st1. simpl. unfold on_pairing. simpl. unfold revokeSessionToken.
    destruct (assoc_get (digest token) (sessions (as_pairing (ry_auth st)))) as [e|] eqn:He;
      simpl; [|by rewrite He].
    split; [by rewrite assoc_get_del_eq|]. apply closeRevoked_keeps; [done|].
    unfold uses_token. by rewrite Hnone. }
  clearbody st1.
  assert (ry_auth (handle (EAdmitted id (Ok true) now) st1).1 = ry_auth st1) as Hauth.
  { simpl. unfold on_admitted. rewrite Hc1, Hasking, Hopen. done. }
  split; [by rewrite Hauth|]. split.
  - exists (set_admitted a (set_admitting None c)). split; [|done].
    simpl. unfold on_admitted. rewrite Hc1, Hasking, Hopen. simpl.
    by rewrite !list_lookup_alter_eq, Hc1.
  - simpl. unfold on_pairing. simpl.
    change (on_admitted id (Ok true) now st1).1 with (handle (EAdmitted id (Ok true) now) st1).1.
    rewrite Hauth. unfold revokeSessionToken. by rewrite Hgone.
Qed.
End Runs.

(** ** Runs of the relay at which its theorems are instantiated *)

Module RelayDemo.

(** The digest of the runs: the text itself. *)
Definition text_digest (s : jstr) : string :=
  String.string_of_list_ascii (map (fun c => Ascii.ascii_of_N (Z.to_N c)) s).

Definition machine_token : jstr := js "machine".
Definition phone_token : jstr := js "phone".

Local Notation handle := (handle text_digest machine_token 100 30).
Local Notation state_after := (state_after text_digest machine_token 100 30).
Local Notation reachable := (reachable text_digest machine_token 100 30).

(** A relay that has a gate and has paired one phone. *)
Definition relay0 : Relay :=
  mkRelay (mkAS [] (step text_digest (Issue phone_token 1000000 0 FULL_GRANT (Some "phone"%string)
                      (Some "dev"%string)) initial))
    empty_registry approval_initial true.

Definition hello (token : jstr) : Frame :=
  Parsed (Some token) (mkMsg "auth" None None None None).
Definition ping : Msg := mkMsg "ping" None None None None.

(** Events that need no enabling. *)
Definition plain_event (ev : REvent) : bool :=
  match ev with EDrained _ _ | EDisconnect _ => false | _ => true end.

Lemma reachable_run quiet init evs :
  forallb plain_event evs = true -> reachable quiet init (state_after init evs).
Proof.
  induction evs as [|ev evs IH] using rev_ind; intros Hp; [constructor|].
  rewrite forallb_app in Hp. apply andb_true_iff in Hp as [Hp Hev]. simpl in Hev.
  rewrite state_after_snoc. apply reach_step; [by apply IH| |]; by destruct ev.
Qed.

(** Two sockets from one address, the first of them let in. *)
Definition two_sockets : list REvent :=
  [EConnection 1 (Some "10.0.0.1"%string) None 0; EConnection 2 (Some "10.0.0.1"%string) None 1;
   EMessage 0 (hello machine_token) 2; EAdmitted 0 (Ok true) 3].

Lemma two_sockets_reachable : reachable true relay0 (state_after relay0 two_sockets).
Proof. by apply reachable_run. Qed.

Lemma connection_caps_witness :
  ip_live "10.0.0.1" (ry_registry (state_after relay0 two_sockets)) = 2 /\
  getIpCount "10.0.0.1" (ry_registry (state_after relay0 two_sockets)) = 2.
Proof.
  destruct (connection_caps text_digest machine_token 100 30 relay0 _ "10.0.0.1"
    eq_refl two_sockets_reachable ltac:(discriminate)) as (_ & _ & Heq).
  rewrite Heq. by vm_compute.
Defined.

Lemma disconnect_undercounts_witness :
  let r' := ry_registry (handle (EDrained 0 9) (handle (EClose 0)
              (handle (EDisconnect 0) (state_after relay0 two_sockets)).1).1).1 in
  ip_live "10.0.0.1" r' = 1 /\ getIpCount "10.0.0.1" r' = 0.
Proof.
  destruct (disconnect_undercounts text_digest machine_token 100 30 relay0
    (state_after relay0 two_sockets) 0 "10.0.0.1" 9 eq_refl two_sockets_reachable
    ltac:(discriminate)) as [H1 H2].
  - apply (bool_decide_unpack _). vm_compute. exact I.
  - vm_compute. reflexivity.
  - apply (bool_decide_unpack _). vm_compute. exact I.
  - cbv zeta. rewrite H2, H1. vm_compute. split; reflexivity.
Defined.

Lemma routed_only_if_admitted_witness :
  admitted_in text_digest machine_token 100 30 relay0 two_sockets 0 FULL_GRANT.
Proof.
  destruct (routed_only_if_admitted text_digest machine_token 100 30 relay0 eq_refl two_sockets
    (EMessage 0 (Parsed None ping) 4) 0 ping) as (grant & Hadm & Hg).
  - assert ((handle (EMessage 0 (Parsed None ping) 4) (state_after relay0 two_sockets)).2
      = [Route 0 ping]) as -> by by vm_compute. left.
  - assert (Some FULL_GRANT = Some grant) as [= <-] by (rewrite <- Hg; by vm_compute). exact Hadm.
Defined.

(** The phone's socket is being asked about. *)
Definition asking : Relay :=
  state_after relay0 [EConnection 1 (Some "10.0.0.1"%string) None 0; EMessage 0 (hello phone_token) 2].

Definition asking_conn : Conn :=
  default (mkConn 0 false FULL_GRANT (mkRL 0 0) None None loopback None None None 0 0 false false
             false None false) (objects (ry_registry asking) !! 0%nat).
Definition phone_auth : AuthSuccess :=
  mkAuth FULL_GRANT (Some "phone"%string) (Some "phone"%string).

Lemma revoked_while_admitting_witness :
  let st1 := (handle (EPairing (RevokeToken phone_token)) asking).1 in
  let st2 := (handle (EAdmitted 0 (Ok true) 5) st1).1 in
  assoc_get (text_digest phone_token) (sessions (as_pairing (ry_auth st2))) = None /\
  (exists c', objects (ry_registry st2) !! 0%nat = Some c' /\ cn_authenticated c' = true).
Proof.
  destruct (revoked_while_admitting text_digest machine_token 100 30 asking 0 asking_conn
    phone_auth phone_token 5) as (H1 & (c' & H2 & _ & H3 & _) & _); try by vm_compute.
  split; [exact H1|]. by exists c'.
Defined.
End RelayDemo.
